(* ===== verification/_CoqProject ===== *)
-Q . S2P
Prelude.v
IntMath.v
Primes.v
BitField.v
SatCounter.v
Isa.v
Ras.v
Btb.v
Indirect.v
Predictor.v
BPredUnit.v
BPredUnitInv.v
HistRegs.v
LocalBP.v
Tournament.v
BiMode.v
TriTournament.v
GTriTournament.v
LtageHist.v
LtageTables.v
Ltage.v
LtageInv.v
LtageSpec.v
Weights.v
Ensemble.v
Ensemble2.v
BPredUnitSpec.v
EventQueue.v
EventQueueRep.v
EventQueueInv.v
EventQueueSpec.v
EventQueueSim.v
StoreSet.v
Rename.v
RenameInv.v
RenameSpec.v
RenameLimits.v
Rob.v
RobInv.v
RobSpec.v
TimeBuf.v
DepGraph.v
FuPool.v
InstQueue.v
InstQueueInv.v
InstQueueSpec.v
Wakeup.v
WakeupInv.v
WakeupAcct.v
WakeupOps.v
WakeupSquash.v
WakeupSpec.v
MemDep.v
MemDepInv.v
MemDepOps.v
MemDepDone.v
MemDepSpec.v
Lsq.v
LsqRing.v
LsqQueues.v
LsqForward.v
LsqStores.v
LsqInv.v
LsqSteps.v
LsqWriteback.v
LsqSpec.v
LsqTop.v
LsqTopSpec.v
