(* ===== verification/Prelude.v ===== *)
(** * The branch predictors of ensembleMLBP, and the simulator they run in

    This library models the branch prediction unit of the repository's gem5
    simulator and the predictors it adds there ([gem5/src/cpu/pred]), the event
    queue that drives the simulator ([gem5/src/sim/eventq.cc]), and of the
    out-of-order processor ([gem5/src/cpu/o3]) register renaming, the instruction
    queue with its dependency graph and functional units, the reorder buffer, the
    memory dependence predictor and the buffers between the stages, and proves what
    makes them correct.
    File names below are relative to [gem5/src] under [src/].

    ** The program

    At fetch the pipeline calls [BPredUnit::predict] ([cpu/pred/bpred_unit.cc])
    for every control instruction. The unit asks a direction predictor (a derived
    class: [lookup] for a conditional branch, [uncondBranch] for another) whether
    it is taken, and takes the target from the return address stack
    ([cpu/pred/ras.cc]), the indirect predictor ([cpu/pred/indirect.cc]) or the
    branch target buffer ([cpu/pred/btb.cc]). Everything it did is recorded in a
    [PredictorHistory] at the front of the thread's deque, together with an
    untyped pointer to the direction predictor's own history object. When
    instructions commit, [update] trains the direction predictor with the branches
    at the old end of the deque; when they are squashed, [squash] undoes the ones
    at the young end; when a branch resolves against its prediction, the second
    [squash] also corrects the histories and the target caches. The direction
    predictors are tables of saturating counters ([cpu/pred/sat_counter.hh])
    indexed by address and history registers, which [lookup] updates
    speculatively.

    The simulator itself runs on events: [doSimLoop] ([sim/simulate.cc]) services
    the first event of an [EventQueue] after the other; handlers schedule, move and
    remove events. The queue is a linked list of bins, each a stack of the events
    with one time and priority.

    In the out-of-order processor an instruction is renamed before it is dispatched:
    [DefaultRename] ([cpu/o3/rename_impl.hh]) maps its destinations to free physical
    registers and keeps the old ones in a history buffer, from which a squash (for
    one, of a mispredicted branch) restores the map and a commit frees them. It then
    enters the instruction queue ([cpu/o3/inst_queue_impl.hh]), where it waits on the
    lists of a dependency graph ([cpu/o3/dep_graph.hh]) for the registers it reads;
    when the last producer has completed it goes to the ready queue of its operation
    class, and issues, oldest first, when the pool ([cpu/o3/fu_pool.cc]) has a unit.
    Loads ask the store sets ([cpu/o3/store_set.cc]), which learn from ordering
    violations, whether to wait for an older store. Instructions retire in order from
    the reorder buffer ([cpu/o3/rob_impl.hh]). The stages exchange messages through
    time buffers ([cpu/timebuf.hh]), and an activity recorder ([cpu/activity.cc])
    tells when the processor may sleep.

    ** Files, and the code each one models

    - [Prelude]: this header; [res], an error monad whose errors are the ways a run
      of the C++ code can go wrong ([fatal], [assert], an index out of range, a
      shift by too much, a bad pointer, ...); [returns m Q], which says that [m]
      does not go wrong and gives a result in [Q]; integers at their widths ([u8],
      [u32], [u64]); vectors with checked indices ([vget], [vset]); the heap of
      history objects ([new], dereference, [delete]) and [heap_tracks], which says
      that the live objects are exactly the pointers of a list; tactics and hints.
    - [IntMath]: the functions of [base/intmath.hh] and [base/bitfield.hh] that the
      predictors use ([isPowerOf2], [floorLog2], [ceilLog2], [mask]). [Primes]:
      [isPrime] and [prevPrime] ([base/intmath.cc]). [BitField]: the rest of both
      headers.
    - [SatCounter]: [cpu/pred/sat_counter.hh], and tables of counters.
    - [Isa]: the interface [TheISA] the unit is compiled against, as a type class,
      with the Alpha instance; [PCState] is abstract elsewhere.
    - [Ras], [Btb], [Indirect]: [ras.cc], [btb.cc], [indirect.cc] with their headers.
    - [Predictor]: the virtual methods of [bpred_unit.hh] as the class
      [DirPredictor]; [DirPredictorLaws], what a client may rely on; [dp_step], the
      runs of a client, and [dp_run], the same as an executable script.
    - [BPredUnit]: [predict], [update] and both [squash] methods of
      [bpred_unit.cc], one definition per branch of the code, over any
      [DirPredictor]. [BPredUnitInv]: its invariant, and that every method returns
      and keeps it. [BPredUnitSpec]: the call protocol as a state machine, and the
      theorems of the unit.
    - [HistRegs]: the global history registers and the local history table with
      their inline operations, the same code in the tournament and ensemble classes.
    - [LocalBP] ([2bit_local.cc]), [Tournament] ([tournament.cc]), [BiMode]
      ([bi_mode.cc], and its copies [gshare.cc], [yags.cc] and [perceptron.cc], the
      last not compiled by the build), [TriTournament]
      ([tritournament.cc]), [GTriTournament] ([gtritournament.cc]), [Weights] (the
      vote and the weight update shared by the ensembles), [Ensemble]
      ([ensemble.cc]) and [Ensemble2] ([ensemble2.cc]): the direction predictors.
      Each is a [Module] named after its class, with its state as the record [t],
      its history object as [BPHistory], a definition per method under the
      method's name, the constructor as [create], and an [Instance] of
      [DirPredictorLaws], so that the unit's theorems apply to it.
    - [LtageHist]: the histories of the L-TAGE predictor ([ltage.hh], [ltage.cc]):
      the outcome buffer with its roll-over, the path history, the folded
      registers ([FoldedHistory]) and their repair in [squash] and [btbUpdate].
      [LtageTables]: counters, bimodal table and loop predictor. [Ltage]: hashes,
      tagged tables, prediction, training, allocation, constructor, as
      [Module LTAGEPredictor] with the conventions above. [LtageInv]: its
      well-formedness and its [DirPredictorLaws]. [LtageSpec]: its theorems.
    - [EventQueue]: [sim/eventq.hh], [eventq_impl.hh], [eventq.cc], the loop of
      [sim/simulate.cc] and the flags of [base/flags.hh]: events on a heap, a
      definition per method. [EventQueueRep]: the list that the pointers represent
      ([eq_rep]) and what each pointer routine does to it. [EventQueueInv]: the
      invariant [inv] and the specification of each public operation.
      [EventQueueSpec], [EventQueueSim]: the theorems, over any handlers.
    - [StoreSet]: [cpu/o3/store_set.hh] and [store_set.cc], with its theorems.
    - [Rename]: register identifiers ([cpu/reg_class.hh], [cpu/o3/comm.hh]), free
      lists, rename maps, scoreboard and the identifiers of the register file
      ([free_list.hh], [rename_map.cc], [scoreboard.hh], [regfile.cc]), the history
      buffer with [renameDestRegs], [renameSrcRegs], [doSquash] and
      [removeFromHistory] of [rename_impl.hh], and the part of the constructor of
      [FullO3CPU] ([cpu.cc]) that fills the maps. [RenameInv]: the registers that
      the structures share out ([pool]), well-formed maps and histories, and that
      the operations keep them. [RenameSpec], [RenameLimits]: the theorems.
    - [Rob]: [cpu/o3/rob.hh] and [rob_impl.hh], with instructions as shared objects
      and the iterators that a squash keeps over several cycles. [RobInv]: its
      invariant. [RobSpec]: the theorems.
    - [TimeBuf]: [cpu/timebuf.hh] (Module [TimeBuffer]) and [cpu/activity.cc] (Module
      [ActivityRecorder]), with their theorems.
    - [DepGraph]: [cpu/o3/dep_graph.hh], its nodes on a heap, with its theorem.
      [FuPool]: [cpu/o3/fu_pool.cc] with its circular queues, with its theorem.
    - [InstQueue]: the ready queues, the age order and the issue loop of
      [cpu/o3/inst_queue_impl.hh] ([addToOrderList], [moveToYoungerInst],
      [addReadyMemInst], [scheduleReadyInsts], [processFUCompletion]). [InstQueueInv]:
      that the age order is sorted and has each class with ready instructions once.
      [InstQueueSpec]: the theorem.
    - [Wakeup]: the rest of the queue: [insert], [insertNonSpec], [insertBarrier],
      [scheduleNonSpec], [wakeDependents], [completeMemInst], [commit], [squash]; what
      is handed to the ready queues and to the memory dependence unit is recorded in
      order. [WakeupInv]: the invariant of graph, scoreboard and instructions.
      [WakeupAcct]: the account of the entries. [WakeupOps], [WakeupSquash]: that every
      operation keeps both. [WakeupSpec]: the theorems.
    - [MemDep]: [cpu/o3/mem_dep_unit.hh] and [mem_dep_unit_impl.hh], entries on a heap,
      over any predictor of the class [DepPred]. [MemDepInv]: what a predictor has to
      keep ([DepPredLaws]) and the invariant of the unit. [MemDepOps] (insertion,
      readiness, replays) and [MemDepDone] (completion, squash): that every operation
      keeps it. [MemDepSpec]: the store sets as a predictor, sessions, the theorems.
    - [Lsq]: [cpu/o3/lsq_unit.hh] and [lsq_unit_impl.hh], instructions in a store that
      the queues share. [LsqRing]: circular arrays as lists. [LsqQueues]: the operations
      on the queues. [LsqForward]: what memory holds after stores, the search of a load
      among them, ordering violations. [LsqStores]: completion and sending.
      [LsqInv], [LsqSteps]: the invariant, and that the operations keep it.
      [LsqWriteback]: stores leave. [LsqSpec]: sessions, the theorems. [LsqTop]:
      [cpu/o3/lsq.hh] and [lsq_impl.hh], one unit per thread on the same instructions.
      [LsqTopSpec]: sessions of several threads, the theorems.

    ** The theorems

    - The unit ([BPredUnitSpec]): from construction on, every sequence of calls the
      pipeline may make returns, with any lawful direction predictor, and leaks or
      double-frees no history object ([unit_safety]); the deques implement queues
      of in-flight branches ([unit_refines_queues]); a squashed prediction leaves
      no trace in the histories and the return stack ([predict_squash_recovers]);
      and two situations where it does not do what it means to
      ([late_return_corrupts_RAS], [btb_miss_trains_taken]).
    - The target structures: the return stack implements a bounded stack and its
      undo operations work ([ras_refines_bounded_stack], [ras_undo]); the BTB
      answers with the last update of a slot and keeps threads apart
      ([btb_refines_last_update], [btb_threads_disjoint]); the indirect predictor
      finds a recorded target again ([indirect_learns_target]).
    - Every direction predictor undoes its speculation ([..._squash_recovers]: the
      answers to all later queries are those of the state before the prediction);
      the tournament and the bi-mode predictor correct their history on a
      misprediction and train at commit the entries they predicted from
      ([..._corrects_history], [tournament_trains_predicting_entries],
      [bimode_update_policy]); the ensembles answer the weighted majority of their
      experts and their weights follow the experts that are right
      ([..._weighted_majority], [..._weights_follow_experts]); the local predictor
      refines one counter per set ([local_refines_counter]).
    - L-TAGE's folded registers, updated with two exclusive ors per branch, are at
      all times the fold of the last outcomes ([ltage_folded_histories]), and a
      squash leaves the histories that the right prediction would have left
      ([ltage_squash_corrects_history]). With at least 2^j entries in bank j, which
      the default sizes do not have, every run of it from construction on is free of
      errors and keeps its tables well formed ([ltage_safety]) and [lookup] computes
      a reference definition of the TAGE prediction ([ltage_prediction]); training
      and allocation change exactly the entries they should ([ltage_training],
      [ltage_allocation_policy]); an entry in the first way learns a constant trip
      count of at least 3 ([loop_predictor_learns]) and its speculative count is
      undone only for hits in the first way ([loop_speculation]).
    - The event queue implements an ordered list, the newest first among events with
      one time and priority ([eventq_operations], [eventq_service_order],
      [eventq_async_merge]); under any operations, handlers, merges of asynchronous
      events and settings of the clock it stays that list, and if no merge is late
      and the clock is not set wrongly, time never goes back and no queued event is
      in the past ([eventq_time_invariant]), so the assertion of [doSimLoop] is
      redundant ([simloop_assertion_redundant]); [serviceEvents] ends when handlers
      do not keep adding due events ([serviceEvents_terminates]). The code does not
      check that a merge is in time, and a late one moves time back
      ([late_merge_moves_time_back]).  Events that wait on [async_queue] can be
      neither descheduled nor rescheduled ([eventq_pending_panics]); the code's own
      check rejects some good queues ([debugVerify_exact]); and a restored
      checkpoint leaves the scheduled events off the queue
      ([checkpoint_loses_event]).
    - The store sets: through other calls, and until the tables are cleared, a load
      waits for the store it once overtook ([storeset_learns]);
      every run returns when stores arrive in program order ([storeset_safety]), and a
      squash drops exactly the younger ones ([storeset_squash]); out of order it may
      not return ([storeset_squash_hangs]).
    - Renaming neither loses a physical register nor uses one twice
      ([rename_conservation]); a squash undoes renames ([rename_squash_roundtrip]);
      the check made before an instruction is renamed is enough
      ([canRename_sufficient]), but with two threads the zero register can be renamed
      in one of them only ([smt_zero_register]); the floating-point zero register
      and vector elements are not handled as meant ([float_zero_is_renamed],
      [elem_rename_not_seen]). Conservation and the round trip are proved for
      vectors renamed as a whole, since for elements [rename] and [lookup] disagree on
      the entry, and for at most 2^15 physical registers, whose indices are [short].
    - The reorder buffer implements one queue per thread ([rob_refines_queues]), well
      formed in every reachable state ([rob_well_formed]); a squash takes exactly the
      cycles its width requires and marks exactly the younger instructions
      ([rob_squash_exact]); the partitioned policy never overflows the buffer
      for the threads active at startup ([rob_partition_sound]), but a thread
      activated later ([rob_late_thread_overcommits]) and the other policies
      ([rob_policies_overcommit]) may.
    - The instruction queue: in every session that the stages around it may produce all
      operations return and no wake-up is lost or doubled ([iq_no_lost_wakeup]), a
      squash returns exactly when its assertion on non-speculative instructions holds,
      and then leaves exactly the older instructions and none on a waiting list
      ([iq_squash_exact]), and the entries in use are those the queue computes, the
      disabled count being less by the squashed instructions that hold one
      ([iq_entries_exact]). Also through completions of long operations, a cycle issues
      the oldest ready instruction that can have a unit, then the next
      ([iq_issues_oldest_first]). The dependency graph implements a
      stack per register and leaks no node ([depgraph_refines_stacks]); the pool grants
      a free capable unit whenever there is one ([fupool_serves]).
    - Memory dependence unit: in every sequence of legal calls each speculative
      instruction in the unit was handed on once or waits for its registers or for one
      older store or barrier, and the oldest waits for none ([memdep_no_lost_wakeup]);
      what an instruction waits for when it enters ([memdep_insert_waits]) and whom a
      completion wakes ([memdep_complete_wakes]); that a squash can lose a barrier
      ([memdep_squash_forgets_barrier]). The predictor is any that keeps the laws, and
      the store sets are shown to.
    - Load-store queue unit: in every session of legal calls the circular arrays act
      as two lists in order of age ([lsq_refines_queues]); the youngest older store
      with known data that meets a load decides whether the load gets the bytes that
      memory would hold after those stores, waits, or goes to memory
      ([lsq_forwarding_correct]); a store catches every younger load that went ahead
      of it to a common byte, strictly ordered loads apart ([lsq_violation_caught]);
      stores leave in program order with their bytes ([lsq_writeback_in_order]). In
      legal sessions the units of several threads do not disturb each other and
      together keep to the entries of a partitioned queue
      ([lsq_threads_refine_queues]). The dynamic policy does not work: [sqFull] does
      not end ([lsq_sqFull_diverges]) and [lqFull] lets a thread overflow
      ([lsq_dynamic_lets_through]); nor can a thread be added to a partitioned queue
      ([lsq_reset_cannot_shrink]). The mask of a snoop has 32 bits
      ([lsq_snoop_mask_truncated]), and a store queue made smaller does not grow
      again ([lsq_resize_keeps_small]).
    - A time buffer is a window on a timeline ([timebuffer_timeline]), and the activity
      count is what is in flight plus what is active ([activity_recorder_exact]).
    - Integer helpers: extraction and insertion of bits ([bitfield_roundtrip]), searches
      for bits ([bit_search_bounds], [popCount_counts]), and which numbers [isPrime] and
      [prevPrime] are right about ([isPrime_decides], [prevPrime_result]).
    - Properties the code has and was not meant to have, each with a finding of the
      development: the three-way tournament with default parameters is the two-way
      one ([tritournament_is_tournament]), the gshare expert of its variant is never
      used and is trained in the wrong entry ([gtritournament_...]), tables indexed
      under the mask of another table ([ensemble_gshare_out_of_range],
      [tritournament_choice2_out_of_range]), a size that is never checked
      ([ensemble2_choice_size_unchecked]), thresholds from the wrong width
      ([bimode_narrow_counters_never_taken]), and others.

    ** Bounds and recursion

    The loops of the predictors run over a deque, the ways of a set or the entries
    of a table, and are structural recursions over the list that models it;
    [floorLog2] is the five comparisons of the source. Loops of the event queue that
    follow pointers take fuel, one more than the number of live events: they write
    nothing, so a longer walk has met an event twice and would never end, which is
    the error [Diverges]; the theorems show that it does not occur. The two loops
    that run handlers take the number of iterations as an argument. The same holds of
    the loops that follow the nodes of the dependency graph ([find_node], [free_list],
    [wake]: one more than the live nodes, which bounds every list). The search for a
    unit has fuel for the queue of its class, which it goes round once at most, and the
    issue loop for one more than the ready instructions, of which each iteration
    removes one or passes a class; that the fuel is enough is part of the theorems. The
    loops of the load-store queue go round an array once and have its size and one, or
    for [writebackStores] two, as fuel.

    Shift amounts are checked against the width of their operand, as C++ leaves the
    rest undefined; signed arithmetic is two's complement ([i8], [i32]), except in
    [Primes], where an overflow is the error [Overflow]. The standard leaves signed
    overflow undefined; where a run can reach it, as for the counter [tCounter] of
    L-TAGE after 2^31 allocations, the model has the wrap-around that compilers
    produce for such code. The
    well-formedness predicates ask for the parameter ranges in which the
    constructors run without undefined behaviour ([params_ok]), and every
    constructor is proved to establish the invariant of its class there. The
    default configuration of L-TAGE is outside that range
    ([ltage_default_undefined_shift]). Uninitialised memory is an argument
    ([indet]); random choices are arguments ([rnd] of the indirect predictor, the
    stream [rng] of L-TAGE), and so are the history lengths of L-TAGE, which the
    code computes with floating-point powers.

    ** Not modelled, and next

    Statistics are counters; registration and printing of them, the probe points'
    listeners and the predictors' [dump] are left out. Of the event queue the locks,
    [ScopedMigration], [ScopedRelease] and the start of threads are left out, and
    [acquireImpl] and [releaseImpl] are those of [Event]. Of renaming,
    [switchMode] (which moves register contents), the contents of the register file,
    the flattening of register indices by the instruction set and the pipeline part of
    the stage are left out, and so is the rename map of the commit stage. Of the
    instruction queue, deferred and blocked memory instructions and the policies that
    share the entries between threads are left out. What the queue hands to the memory
    dependence unit and the unit to the queue is recorded on either side, and the two
    are not composed. Of the load-store queue unit, accesses that are split in two (for
    instruction sets with unaligned accesses) and the checker are left out; address
    translation is an operation of the sessions, and the answers of the memory system and of the
    instruction are parameters. Next are the commit stage and global events
    ([sim/global_event.cc]). The rest of the simulator is unchanged upstream code. *)

From stdpp Require Export base list gmap numbers strings.
From Stdlib Require Export ZArith Lia Sorted.

#[global] Open Scope Z_scope.

Declare Scope bp_scope.
Delimit Scope bp_scope with bp.

(** ** Outcomes

    C++ code can stop a run in ways that are not return values.  Each of them
    is an [error], so that "the operation returns" is a statement that rules
    them all out. *)
Inductive error :=
| Fatal (msg : string)      (** [fatal(...)]: a configuration error *)
| Panic (msg : string)      (** [panic(...)]: an internal error *)
| AssertFail                (** [assert(...)] evaluated to false *)
| OutOfRange                (** [v[i]] with [i] outside the container *)
| BadShift                  (** a shift whose amount is not below the width *)
| DivByZero                 (** integer division or remainder by zero *)
| BadPointer                (** a null or already deleted pointer is used *)
| EmptyAccess               (** first or last element of an empty container *)
| Diverges                  (** a loop that does not end *)
| Overflow.                 (** signed arithmetic left its range *)

Inductive res (A : Type) :=
| Ok (a : A)
| Err (e : error).
Arguments Ok {A} a.
Arguments Err {A} e.

#[global] Instance error_eq_dec : EqDecision error.
Proof. solve_decision. Defined.

#[global] Instance res_ret : MRet res := λ A a, Ok a.
#[global] Instance res_bind : MBind res := λ A B f m,
  match m with Ok a => f a | Err e => Err e end.

Definition assert_ (b : bool) : res unit := if b then Ok tt else Err AssertFail.
Definition guard_ (b : bool) (e : error) : res unit := if b then Ok tt else Err e.

(** [returns m Q]: [m] stops with no error and its value satisfies [Q]; this is
    the total-correctness judgement in which operations are specified. *)
Definition returns {A} (m : res A) (Q : A → Prop) : Prop :=
  match m with Ok a => Q a | Err _ => False end.

Lemma returns_iff {A} (m : res A) (Q : A → Prop) :
  returns m Q ↔ ∃ a, m = Ok a ∧ Q a.
Proof. destruct m; naive_solver. Qed.

Lemma returns_bind {A B} (m : res A) (f : A → res B) (Q : B → Prop) :
  returns m (λ a, returns (f a) Q) → returns (m ≫= f) Q.
Proof. by destruct m. Qed.

Lemma returns_mono {A} (m : res A) (P Q : A → Prop) :
  returns m P → (∀ a, P a → Q a) → returns m Q.
Proof. destruct m; simpl; auto. Qed.

Lemma returns_and {A} (m : res A) (P Q : A → Prop) :
  returns m P → returns m Q → returns m (λ a, P a ∧ Q a).
Proof. by destruct m. Qed.

Lemma returns_assert (b : bool) (Q : unit → Prop) :
  b = true → Q tt → returns (assert_ b) Q.
Proof. intros ->. done. Qed.

Lemma returns_guard (b : bool) e (Q : unit → Prop) :
  b = true → Q tt → returns (guard_ b e) Q.
Proof. intros ->. done. Qed.

(** ** Machine integers

    An unsigned [w]-bit value is a [Z] in [0, 2^w); arithmetic wraps where the
    C++ type does. *)
Definition u8 (z : Z) : Z := z mod 2 ^ 8.
Definition u16 (z : Z) : Z := z mod 2 ^ 16.
Definition u32 (z : Z) : Z := z mod 2 ^ 32.
Definition u64 (z : Z) : Z := z mod 2 ^ 64.
Definition i16 (z : Z) : Z := (z + 2 ^ 15) mod 2 ^ 16 - 2 ^ 15.
Definition not32 (z : Z) : Z := 2 ^ 32 - 1 - z.
Definition not64 (z : Z) : Z := 2 ^ 64 - 1 - z.
Definition is_u8 (z : Z) : Prop := 0 ≤ z < 2 ^ 8.
Definition is_u16 (z : Z) : Prop := 0 ≤ z < 2 ^ 16.
Definition is_u32 (z : Z) : Prop := 0 ≤ z < 2 ^ 32.
Definition is_u64 (z : Z) : Prop := 0 ≤ z < 2 ^ 64.

(** Conversion to a signed [w]-bit type, and signed arithmetic: two's complement. *)
Definition i8 (z : Z) : Z := (z + 2 ^ 7) mod 2 ^ 8 - 2 ^ 7.
Definition i32 (z : Z) : Z := (z + 2 ^ 31) mod 2 ^ 32 - 2 ^ 31.
Definition is_i8 (z : Z) : Prop := - 2 ^ 7 ≤ z < 2 ^ 7.
Definition is_i32 (z : Z) : Prop := - 2 ^ 31 ≤ z < 2 ^ 31.

Definition b2z (b : bool) : Z := if b then 1 else 0.

(** Shifts of a [w]-bit operand are defined for amounts below [w] only. *)
Definition shl32 (x n : Z) : res Z :=
  _ ← guard_ ((0 <=? n) && (n <? 32)) BadShift; Ok (u32 (Z.shiftl x n)).
Definition shl64 (x n : Z) : res Z :=
  _ ← guard_ ((0 <=? n) && (n <? 64)) BadShift; Ok (u64 (Z.shiftl x n)).
Definition shr64 (x n : Z) : res Z :=
  _ ← guard_ ((0 <=? n) && (n <? 64)) BadShift; Ok (Z.shiftr x n).
Definition shr32 (x n : Z) : res Z :=
  _ ← guard_ ((0 <=? n) && (n <? 32)) BadShift; Ok (Z.shiftr x n).
(** [1 << n] and [x << n] on [int]: defined while the result is representable. *)
Definition shl_int1 (n : Z) : res Z :=
  _ ← guard_ ((0 <=? n) && (n <? 31)) BadShift; Ok (Z.shiftl 1 n).
Definition shl_int (x n : Z) : res Z :=
  _ ← guard_ ((0 <=? n) && (n <? 32) && (0 <=? x) && (Z.shiftl x n <? 2 ^ 31)) BadShift;
  Ok (Z.shiftl x n).

(** [x >> n] on [int]. *)
Definition shr_int (x n : Z) : res Z :=
  _ ← guard_ ((0 <=? n) && (n <? 32)) BadShift; Ok (Z.shiftr x n).

Definition udiv (x y : Z) : res Z := _ ← guard_ (negb (y =? 0)) DivByZero; Ok (x / y).
Definition umod (x y : Z) : res Z := _ ← guard_ (negb (y =? 0)) DivByZero; Ok (x mod y).

(** ** Containers

    [std::vector] and built-in arrays, indexed by a [Z]; an index outside the
    container is an error (it is undefined behaviour in C++). *)
Definition vlen {A} (l : list A) : Z := Z.of_nat (length l).

Definition vget {A} (l : list A) (i : Z) : res A :=
  if 0 <=? i then
    match l !! Z.to_nat i with Some a => Ok a | None => Err OutOfRange end
  else Err OutOfRange.

Definition vset {A} (l : list A) (i : Z) (x : A) : res (list A) :=
  if (0 <=? i) && (i <? vlen l) then Ok (<[Z.to_nat i := x]> l)
  else Err OutOfRange.

(** [f] applied in place to [l[i]]. *)
Definition vmod {A} (f : A → A) (l : list A) (i : Z) : res (list A) :=
  x ← vget l i; vset l i (f x).

Lemma vget_Ok {A} (l : list A) i x :
  vget l i = Ok x ↔ 0 ≤ i ∧ l !! Z.to_nat i = Some x.
Proof.
  unfold vget. destruct (Z.leb_spec 0 i); [|naive_solver lia].
  destruct (l !! Z.to_nat i); naive_solver.
Qed.

Lemma vset_Ok {A} (l l' : list A) i x :
  vset l i x = Ok l' ↔ 0 ≤ i < vlen l ∧ l' = <[Z.to_nat i := x]> l.
Proof.
  unfold vset. destruct (Z.leb_spec 0 i), (Z.ltb_spec i (vlen l));
    simpl; naive_solver lia.
Qed.

Lemma vget_in {A} (l : list A) i x :
  0 ≤ i → l !! Z.to_nat i = Some x → vget l i = Ok x.
Proof. intros. by apply vget_Ok. Qed.

Lemma vset_in {A} (l : list A) i x :
  0 ≤ i < vlen l → vset l i x = Ok (<[Z.to_nat i := x]> l).
Proof. intros. by apply vset_Ok. Qed.

Lemma vlookup_lt {A} (l : list A) i :
  0 ≤ i < vlen l → ∃ x, l !! Z.to_nat i = Some x.
Proof. intros ?. apply lookup_lt_is_Some. unfold vlen in *. lia. Qed.

Lemma vlen_insert {A} (l : list A) i x : vlen (<[i := x]> l) = vlen l.
Proof. unfold vlen. by rewrite length_insert. Qed.

Lemma vlen_replicate {A} n (x : A) : 0 ≤ n → vlen (replicate (Z.to_nat n) x) = n.
Proof. intros. unfold vlen. rewrite length_replicate. lia. Qed.

Lemma vlookup_insert_eq {A} (l : list A) i x :
  0 ≤ i < vlen l → (<[Z.to_nat i := x]> l) !! Z.to_nat i = Some x.
Proof. intros. apply list_lookup_insert_eq. unfold vlen in *. lia. Qed.

Lemma vlookup_insert_ne {A} (l : list A) i j x :
  0 ≤ i → 0 ≤ j → i ≠ j → (<[Z.to_nat i := x]> l) !! Z.to_nat j = l !! Z.to_nat j.
Proof. intros. apply list_lookup_insert_ne. lia. Qed.

Lemma returns_vget {A} (l : list A) i (Q : A → Prop) :
  0 ≤ i < vlen l → (∀ x, l !! Z.to_nat i = Some x → Q x) → returns (vget l i) Q.
Proof.
  intros Hi HQ. destruct (vlookup_lt l i Hi) as [x Hx].
  apply returns_iff. exists x. split; [apply vget_Ok; naive_solver lia|auto].
Qed.

Lemma returns_vset {A} (l : list A) i x (Q : list A → Prop) :
  0 ≤ i < vlen l → Q (<[Z.to_nat i := x]> l) → returns (vset l i x) Q.
Proof. intros Hi HQ. apply returns_iff. eexists. rewrite vset_Ok. eauto. Qed.

Lemma returns_vmod {A} (f : A → A) (l : list A) i (Q : list A → Prop) :
  0 ≤ i < vlen l →
  (∀ x, l !! Z.to_nat i = Some x → Q (<[Z.to_nat i := f x]> l)) →
  returns (vmod f l i) Q.
Proof.
  intros Hi HQ. apply returns_bind, returns_vget; [done|].
  intros x Hx. apply returns_vset; auto.
Qed.

Lemma vmod_Ok {A} (f : A → A) (l l' : list A) i :
  vmod f l i = Ok l' ↔
  ∃ x, 0 ≤ i ∧ l !! Z.to_nat i = Some x ∧ l' = <[Z.to_nat i := f x]> l.
Proof.
  unfold vmod. split.
  - intros H. destruct (vget l i) as [x|] eqn:E; [|done]. simpl in H.
    apply vget_Ok in E as [? ?]. apply vset_Ok in H as [? ->]. eauto.
  - intros (x & ? & Hx & ->). pose proof (lookup_lt_Some _ _ _ Hx).
    rewrite (proj2 (vget_Ok l i x)) by done. simpl.
    apply vset_Ok. unfold vlen. split; [lia|done].
Qed.

Lemma shr64_in x n : 0 ≤ n < 64 → shr64 x n = Ok (Z.shiftr x n).
Proof.
  intros. unfold shr64, guard_.
  by destruct (Z.leb_spec 0 n), (Z.ltb_spec n 64); try lia.
Qed.

Lemma shr32_in x n : 0 ≤ n < 32 → shr32 x n = Ok (Z.shiftr x n).
Proof.
  intros. unfold shr32, guard_.
  by destruct (Z.leb_spec 0 n), (Z.ltb_spec n 32); try lia.
Qed.

Lemma shl64_in x n : 0 ≤ n < 64 → shl64 x n = Ok (u64 (Z.shiftl x n)).
Proof.
  intros. unfold shl64, guard_.
  by destruct (Z.leb_spec 0 n), (Z.ltb_spec n 64); try lia.
Qed.

Lemma shl_int1_in n : 0 ≤ n < 31 → shl_int1 n = Ok (2 ^ n).
Proof.
  intros. unfold shl_int1, guard_. rewrite Z.shiftl_1_l.
  by destruct (Z.leb_spec 0 n), (Z.ltb_spec n 31); try lia.
Qed.

Lemma shl_int_in x n :
  0 ≤ n < 32 → 0 ≤ x → x * 2 ^ n < 2 ^ 31 → shl_int x n = Ok (x * 2 ^ n).
Proof.
  intros. unfold shl_int, guard_. rewrite Z.shiftl_mul_pow2 by lia.
  by destruct (Z.leb_spec 0 n), (Z.ltb_spec n 32), (Z.leb_spec 0 x),
    (Z.ltb_spec (x * 2 ^ n) (2 ^ 31)); try lia.
Qed.

(** ** Bit lemmas *)
Lemma land_bound a b : 0 ≤ b → 0 ≤ Z.land a b ≤ b.
Proof.
  intros Hb. assert (0 ≤ Z.land a b) as H0 by (apply Z.land_nonneg; auto).
  split; [done|]. apply Z.ldiff_le; [done|].
  apply Z.bits_inj'. intros n Hn.
  rewrite Z.ldiff_spec, Z.land_spec, Z.bits_0.
  destruct (Z.testbit a n), (Z.testbit b n); done.
Qed.

Lemma land_pow2_mod a k : 0 ≤ k → Z.land a (2 ^ k - 1) = a mod 2 ^ k.
Proof. intros. rewrite <- Z.land_ones by done. by rewrite Z.ones_equiv. Qed.

Lemma bits_above x n i : 0 ≤ x < 2 ^ n → n ≤ i → Z.testbit x i = false.
Proof.
  intros Hx Hi. destruct (decide (x = 0)) as [->|]; [apply Z.bits_0|].
  assert (0 < n) by (destruct (Z.le_gt_cases n 0); [|lia];
    assert (2 ^ n ≤ 1) by (destruct (decide (n = 0)) as [->|]; [done|rewrite Z.pow_neg_r; lia]); lia).
  apply Z.bits_above_log2; [lia|].
  assert (Z.log2 x < n) by (apply Z.log2_lt_pow2; lia). lia.
Qed.

Lemma bits_bound x n :
  0 ≤ n → 0 ≤ x → (∀ i, n ≤ i → Z.testbit x i = false) → x < 2 ^ n.
Proof.
  intros Hn Hx Hb. destruct (decide (x = 0)) as [->|]; [by apply Z.pow_pos_nonneg|].
  apply Z.log2_lt_pow2; [lia|]. apply Z.lt_nge. intros Hle.
  apply Hb in Hle. rewrite Z.bit_log2 in Hle; [done|lia].
Qed.

Lemma lor_bound a b n : 0 ≤ n → 0 ≤ a < 2 ^ n → 0 ≤ b < 2 ^ n → 0 ≤ Z.lor a b < 2 ^ n.
Proof.
  intros Hn Ha Hb. assert (0 ≤ Z.lor a b) by (apply Z.lor_nonneg; lia).
  split; [done|]. apply bits_bound; [done..|]. intros i Hi.
  by rewrite Z.lor_spec, (bits_above a n), (bits_above b n).
Qed.

Lemma lxor_bound a b n : 0 ≤ n → 0 ≤ a < 2 ^ n → 0 ≤ b < 2 ^ n → 0 ≤ Z.lxor a b < 2 ^ n.
Proof.
  intros Hn Ha Hb. assert (0 ≤ Z.lxor a b) by (apply Z.lxor_nonneg; lia).
  split; [done|]. apply bits_bound; [done..|]. intros i Hi.
  by rewrite Z.lxor_spec, (bits_above a n), (bits_above b n).
Qed.

Lemma lxor_land_cancel a x y m :
  Z.land (Z.lxor a x) m = Z.land (Z.lxor a y) m ↔ Z.land x m = Z.land y m.
Proof.
  split; intros E; apply Z.bits_inj'; intros i Hi;
    apply (f_equal (λ z, Z.testbit z i)) in E; rewrite !Z.land_spec, ?Z.lxor_spec in *;
    destruct (Z.testbit a i), (Z.testbit x i), (Z.testbit y i), (Z.testbit m i); done.
Qed.

Lemma shiftr_bound a n k : 0 ≤ k → 0 ≤ a < 2 ^ n → 0 ≤ Z.shiftr a k < 2 ^ n.
Proof.
  intros Hk Ha. rewrite Z.shiftr_div_pow2 by done.
  assert (0 < 2 ^ k) by (apply Z.pow_pos_nonneg; lia).
  split; [apply Z.div_pos; lia|]. apply Z.div_lt_upper_bound; nia.
Qed.

Lemma u8_range z : is_u8 (u8 z).
Proof. apply Z.mod_pos_bound. lia. Qed.
Lemma u16_range z : is_u16 (u16 z).
Proof. apply Z.mod_pos_bound. lia. Qed.
Lemma u32_range z : is_u32 (u32 z).
Proof. apply Z.mod_pos_bound. lia. Qed.
Lemma u64_range z : is_u64 (u64 z).
Proof. apply Z.mod_pos_bound. lia. Qed.
Lemma u8_id z : is_u8 z → u8 z = z.
Proof. apply Z.mod_small. Qed.
Lemma u16_id z : is_u16 z → u16 z = z.
Proof. apply Z.mod_small. Qed.
Lemma u32_id z : is_u32 z → u32 z = z.
Proof. apply Z.mod_small. Qed.
Lemma u64_id z : is_u64 z → u64 z = z.
Proof. apply Z.mod_small. Qed.

Lemma i8_id z : is_i8 z → i8 z = z.
Proof. unfold i8, is_i8. intros ?. rewrite Z.mod_small; lia. Qed.
Lemma i32_id z : is_i32 z → i32 z = z.
Proof. unfold i32, is_i32. intros ?. rewrite Z.mod_small; lia. Qed.
Lemma i32_range z : is_i32 (i32 z).
Proof. unfold i32, is_i32. pose proof (Z.mod_pos_bound (z + 2 ^ 31) (2 ^ 32)). lia. Qed.
Lemma shr_int_in x n : 0 ≤ n < 32 → shr_int x n = Ok (Z.shiftr x n).
Proof. apply shr32_in. Qed.

Lemma b2z_range b : 0 ≤ b2z b ≤ 1.
Proof. destruct b; simpl; lia. Qed.

(** ** Powers of two and table indices *)
Definition is_pow2 (n : Z) : Prop := ∃ k, 0 ≤ k ∧ n = 2 ^ k.

Lemma is_pow2_pos n : is_pow2 n → 0 < n.
Proof. intros (k & ? & ->). by apply Z.pow_pos_nonneg. Qed.

Lemma land_size_mod a n : is_pow2 n → Z.land a (n - 1) = a mod n.
Proof. intros (k & ? & ->). by apply land_pow2_mod. Qed.

Lemma land_size_bound a n : 0 < n → 0 ≤ Z.land a (n - 1) < n.
Proof. intros. pose proof (land_bound a (n - 1)). lia. Qed.

(** ** The heap of history objects

    [new], pointer dereference and [delete] for one class of objects.  Every
    predictor allocates its own [BPHistory] objects and hands out untyped
    pointers, so each predictor state carries one such heap. *)
Definition ptr := option positive.   (** [None] is [NULL] *)

Record heap (H : Type) := Heap { cells : gmap positive H; next : positive }.
Arguments Heap {H} cells next.
Arguments cells {H} h : rename.
Arguments next {H} h : rename.

Definition heap_empty {H} : heap H := Heap ∅ 1%positive.

Definition heap_new {H} (h : heap H) (x : H) : ptr * heap H :=
  (Some (next h), Heap (<[next h := x]> (cells h)) (Pos.succ (next h))).

Definition heap_deref {H} (h : heap H) (p : ptr) : res H :=
  match p with
  | Some a => match cells h !! a with Some x => Ok x | None => Err BadPointer end
  | None => Err BadPointer
  end.

Definition heap_store {H} (h : heap H) (p : ptr) (x : H) : res (heap H) :=
  _ ← heap_deref h p;
  match p with
  | Some a => Ok (Heap (<[a := x]> (cells h)) (next h))
  | None => Err BadPointer
  end.

Definition heap_delete {H} (h : heap H) (p : ptr) : res (heap H) :=
  _ ← heap_deref h p;
  match p with
  | Some a => Ok (Heap (delete a (cells h)) (next h))
  | None => Err BadPointer
  end.

(** The live objects of [h] are exactly those that the pointers [l] designate,
    each designated once: nothing leaked, nothing dangling. *)
Definition heap_tracks {H} (h : heap H) (l : list ptr) : Prop :=
  ∃ ps, l = Some <$> ps ∧ NoDup ps ∧ dom (cells h) = list_to_set ps ∧
        Forall (λ p, p < next h)%positive ps.

(** Every live object satisfies [P]. *)
Definition heap_all {H} (P : H → Prop) (h : heap H) : Prop :=
  map_Forall (λ _ x, P x) (cells h).

#[global] Instance heap_tracks_perm {H} (h : heap H) :
  Proper ((≡ₚ) ==> iff) (heap_tracks h).
Proof.
  assert (∀ l l', l ≡ₚ l' → heap_tracks h l → heap_tracks h l') as Himp.
  { intros l l' Hl (ps & -> & Hnd & Hdom & Hlt).
    symmetry in Hl. apply Permutation_map_inv in Hl as (ps' & -> & Hps).
    exists ps'. split; [done|]. rewrite <- Hps. split; [done|]. split; [|done].
    rewrite Hdom. apply set_eq. intros x. by rewrite !elem_of_list_to_set, Hps. }
  intros l l' Hl. split; apply Himp; [done|by symmetry].
Qed.

Lemma heap_tracks_empty {H} : heap_tracks (@heap_empty H) [].
Proof. exists []. split_and!; [done|apply NoDup_nil_2|done|by constructor]. Qed.

Lemma heap_tracks_new {H} (h : heap H) l x :
  heap_tracks h l → heap_tracks (heap_new h x).2 ((heap_new h x).1 :: l).
Proof.
  intros (ps & -> & Hnd & Hdom & Hlt). exists (next h :: ps). simpl.
  split; [done|]. split; [|split].
  - constructor; [|done]. intros Hin. rewrite Forall_forall in Hlt.
    apply Hlt in Hin. lia.
  - rewrite dom_insert_L, Hdom. done.
  - constructor; [lia|]. eapply Forall_impl; [done|]. simpl. intros; lia.
Qed.

Lemma heap_tracks_deref {H} (h : heap H) p l :
  heap_tracks h (p :: l) → ∃ a x, p = Some a ∧ cells h !! a = Some x.
Proof.
  intros (ps & Hl & _ & Hdom & _). destruct ps as [|a ps]; [done|].
  simplify_eq/=. exists a. assert (a ∈ dom (cells h)) as Ha by set_solver.
  apply elem_of_dom in Ha as [x Hx]. eauto.
Qed.

Lemma heap_tracks_fresh {H} (h : heap H) l : heap_tracks h l → cells h !! next h = None.
Proof.
  intros (ps & _ & _ & Hdom & Hlt). apply not_elem_of_dom. rewrite Hdom, elem_of_list_to_set.
  intros Hin. rewrite Forall_forall in Hlt. apply Hlt in Hin. lia.
Qed.

Lemma heap_tracks_store {H} (h : heap H) a x l :
  is_Some (cells h !! a) →
  heap_tracks h l → heap_tracks (Heap (<[a := x]> (cells h)) (next h)) l.
Proof.
  intros Ha (ps & -> & ? & Hdom & ?). exists ps. simpl. split_and!; [done..| |done].
  rewrite dom_insert_L, Hdom. apply elem_of_dom in Ha. set_solver.
Qed.

Lemma heap_tracks_delete {H} (h : heap H) a l :
  heap_tracks h (Some a :: l) → heap_tracks (Heap (delete a (cells h)) (next h)) l.
Proof.
  intros (ps & Hl & Hnd & Hdom & Hlt). destruct ps as [|a' ps]; [done|].
  simplify_eq/=. inversion Hnd; inversion Hlt; simplify_eq. exists ps. simpl.
  split_and!; [done..| |done]. rewrite dom_delete_L, Hdom. set_solver.
Qed.

Lemma heap_all_new {H} P (h : heap H) x :
  heap_all P h → P x → heap_all P (heap_new h x).2.
Proof. intros. by apply map_Forall_insert_2. Qed.

Lemma heap_all_store {H} P (h : heap H) a x :
  heap_all P h → P x → heap_all P (Heap (<[a := x]> (cells h)) (next h)).
Proof. intros. by apply map_Forall_insert_2. Qed.

Lemma heap_all_delete {H} P (h : heap H) a :
  heap_all P h → heap_all P (Heap (delete a (cells h)) (next h)).
Proof. intros. by apply map_Forall_delete. Qed.

Lemma returns_deref {H} (h : heap H) p l (P : H → Prop) (Q : H → Prop) :
  heap_tracks h (p :: l) → heap_all P h →
  (∀ a x, p = Some a → cells h !! a = Some x → P x → Q x) →
  returns (heap_deref h p) Q.
Proof.
  intros Ht Hall HQ. destruct (heap_tracks_deref _ _ _ Ht) as (a & x & -> & Hx).
  simpl. rewrite Hx. simpl. eapply HQ; [done..|]. by apply (Hall a).
Qed.

Lemma returns_delete {H} (h : heap H) p l (P : H → Prop) (Q : heap H → Prop) :
  heap_tracks h (p :: l) → heap_all P h →
  (∀ h', heap_tracks h' l → heap_all P h' → Q h') →
  returns (heap_delete h p) Q.
Proof.
  intros Ht Hall HQ. destruct (heap_tracks_deref _ _ _ Ht) as (a & x & -> & Hx).
  unfold heap_delete. simpl. rewrite Hx. simpl.
  apply HQ; [by apply heap_tracks_delete|by apply heap_all_delete].
Qed.

(** ** Ordered histories *)
Section ordered.
Context {A : Type} (key : A → Z).

Lemma list_filter_fmap_key {B} (f : B → A) (P : A → Prop) `{∀ x, Decision (P x)} (l : list B) :
  filter P (f <$> l) = f <$> filter (λ x, P (f x)) l.
Proof.
  induction l as [|x l IH]; [done|]. rewrite fmap_cons, !filter_cons, IH. by case_decide.
Qed.

Lemma filter_none (P : A → Prop) `{∀ x, Decision (P x)} (l : list A) :
  Forall (λ x, ¬ P x) l → filter P l = [].
Proof. induction 1 as [|x l Hx Hl IH]; [done|]. rewrite filter_cons. by case_decide. Qed.

Lemma filter_all (P : A → Prop) `{∀ x, Decision (P x)} (l : list A) : Forall P l → filter P l = l.
Proof. induction 1 as [|x l Hx Hl IH]; [done|]. rewrite filter_cons, IH. by case_decide. Qed.

Lemma filter_comm (P Q : A → Prop) `{∀ x, Decision (P x)} `{∀ x, Decision (Q x)} (l : list A) :
  filter P (filter Q l) = filter Q (filter P l).
Proof.
  induction l as [|x l IH]; [done|]. rewrite !filter_cons.
  repeat (case_decide; rewrite ?filter_cons, ?IH; try done).
Qed.

Lemma StronglySorted_filter (R : A → A → Prop) (P : A → Prop) `{∀ x, Decision (P x)} l :
  StronglySorted R l → StronglySorted R (filter P l).
Proof.
  induction 1 as [|x l Hs IH Hx]; [constructor|]. rewrite filter_cons. case_decide; [|done].
  constructor; [done|]. rewrite Forall_forall in *. intros y Hy.
  apply list_elem_of_filter in Hy as [_ ?]. auto.
Qed.

(** A decreasing list splits at a bound. *)
Lemma decreasing_split (n : Z) l :
  StronglySorted (λ a b, key b < key a) l →
  l = filter (λ x, n < key x) l ++ filter (λ x, key x ≤ n) l.
Proof.
  induction 1 as [|x l Hs IH Hx]; [done|]. rewrite !filter_cons.
  destruct (decide (n < key x)).
  - rewrite decide_False by lia. simpl. by rewrite <- IH.
  - rewrite decide_True by lia.
    rewrite (filter_none (λ x, n < key x)) by (eapply Forall_impl; [done|]; simpl; lia).
    rewrite (filter_all (λ x, key x ≤ n)) by (eapply Forall_impl; [done|]; simpl; lia). done.
Qed.

Lemma increasing_head_le l x e :
  StronglySorted (λ a b, key a < key b) (x :: l) → e ∈ x :: l → key x ≤ key e.
Proof.
  intros Hs He. apply StronglySorted_inv in Hs as [_ Hs]. rewrite Forall_forall in Hs.
  apply elem_of_cons in He as [->|He]; [lia|]. apply Hs in He. lia.
Qed.

Lemma reverse_decreasing l :
  StronglySorted (λ a b, key b < key a) l → StronglySorted (λ a b, key a < key b) (reverse l).
Proof.
  induction 1 as [|x l Hs IH Hx]; [constructor|]. rewrite reverse_cons.
  clear Hs. assert (Forall (λ y, key y < key x) (reverse l)) as Hr by (by apply Forall_reverse).
  revert IH Hr. generalize (reverse l). clear l Hx. intros l Hs Hf.
  induction Hs as [|y l Hs IH Hy]; simpl; [repeat constructor|].
  apply Forall_cons in Hf as [Hyx Hf]. constructor; [by apply IH|].
  apply Forall_app. split; [done|by constructor].
Qed.

Lemma increasing_snoc l x :
  StronglySorted (λ a b, key a < key b) l → Forall (λ y, key y < key x) l →
  StronglySorted (λ a b, key a < key b) (l ++ [x]).
Proof.
  induction 1 as [|y l Hs IH Hy]; intros Hf; simpl; [repeat constructor|].
  apply Forall_cons in Hf as [Hyx Hf]. constructor; [by apply IH|].
  apply Forall_app. split; [done|by constructor].
Qed.
End ordered.

(** Replacing one element of a list of lists, seen from the flattened list. *)
Lemma join_lookup_perm {A} (l : list (list A)) i x :
  l !! i = Some x → mjoin l ≡ₚ x ++ mjoin (delete i l).
Proof. intros H. by rewrite (delete_Permutation _ _ _ H) at 1. Qed.

Lemma delete_insert_list {A} (l : list A) i x : delete i (<[i := x]> l) = delete i l.
Proof. revert i. induction l as [|y l IH]; intros [|i]; simpl; f_equal; auto. Qed.

Lemma join_insert_perm {A} (l : list (list A)) i x y :
  l !! i = Some x → mjoin (<[i := y]> l) ≡ₚ y ++ mjoin (delete i l).
Proof.
  intros H. rewrite (join_lookup_perm _ i y).
  - by rewrite delete_insert_list.
  - apply list_lookup_insert_eq. by eapply lookup_lt_Some.
Qed.

(** ** Automation *)
Lemma bind_Ok {A B} (m : res A) (f : A → res B) r :
  (m ≫= f) = Ok r ↔ ∃ a, m = Ok a ∧ f a = Ok r.
Proof. destruct m; naive_solver. Qed.

Lemma assert_Ok b u : assert_ b = Ok u ↔ b = true.
Proof. destruct b, u; naive_solver. Qed.

Lemma guard_Ok b e u : guard_ b e = Ok u ↔ b = true.
Proof. destruct b, u; naive_solver. Qed.

(** [res_inv]: turn every "this computation returned" hypothesis into what its
    steps returned. *)
Ltac res_inv :=
  repeat match goal with
  | H : (_ ≫= _) = Ok _ |- _ =>
      apply bind_Ok in H; let a := fresh "a" in destruct H as (a & ? & H); simpl in H
  | H : Ok _ = Ok _ |- _ => injection H as H; simplify_eq
  | H : mret _ = Ok _ |- _ => injection H as H; simplify_eq
  | H : Err _ = Ok _ |- _ => discriminate H
  | H : assert_ _ = Ok _ |- _ => apply assert_Ok in H
  | H : guard_ _ _ = Ok _ |- _ => apply guard_Ok in H
  | H : vget _ _ = Ok _ |- _ => apply vget_Ok in H as [? H]
  | H : vset _ _ _ = Ok _ |- _ => apply vset_Ok in H as [? H]; simplify_eq
  end.

(** The steps a computation that returned went through, each as an equation. *)
Ltac bind_inv H :=
  repeat (apply bind_Ok in H; let a := fresh "a" in let E := fresh "E" in
          destruct H as (a & E & H); cbv beta zeta in H).

Lemma i16_id f : 0 ≤ f < 2 ^ 15 → i16 f = f.
Proof. intros. unfold i16. rewrite Z.mod_small; lia. Qed.

Create HintDb bp.
#[export] Hint Resolve u8_range u16_range u32_range u64_range land_size_bound
  is_pow2_pos b2z_range : bp.

(** [ret_step]: one step of a total-correctness proof. Side conditions on
    indices and assertions are left to [lia] and the [bp] hints. *)
Ltac ret_step :=
  match goal with
  | |- returns (_ ≫= _) _ => apply returns_bind
  | |- returns (Ok _) _ => simpl
  | |- returns (mret _) _ => simpl
  | |- returns (assert_ _) _ => apply returns_assert; [|]
  | |- returns (guard_ _ _) _ => apply returns_guard; [|]
  | |- returns (vget _ _) _ =>
      apply returns_vget; [|let x := fresh "x" in let H := fresh "Hx" in intros x H]
  | |- returns (vset _ _ _) _ => apply returns_vset; [|]
  | |- returns (vmod _ _ _) _ =>
      apply returns_vmod; [|let x := fresh "x" in let H := fresh "Hx" in intros x H]
  | |- returns (match ?x with _ => _ end) _ => destruct x eqn:?
  end.
