(* ===== verification/IntMath.v ===== *)
(** * Integer helpers of [base/intmath.hh] and [base/bitfield.hh]

    [leastSigBit], [isPowerOf2], [floorLog2] and [ceilLog2] at type [unsigned],
    and [mask].  The optimised bit tricks are proved equal to the mathematical
    functions they stand for; every predictor's table indexing rests on them. *)

From S2P Require Import Prelude.

(** ** Definitions *)
Definition leastSigBit (n : Z) : Z := Z.land n (not32 (u32 (n - 1))).

Definition isPowerOf2 (n : Z) : bool := negb (n =? 0) && (leastSigBit n =? n).

Definition floorLog2 (x : Z) : res Z :=
  _ ← assert_ (0 <? x);
  let y := 0 in
  let '(y, x) := if negb (Z.land x 0xffff0000 =? 0) then (y + 16, Z.shiftr x 16) else (y, x) in
  let '(y, x) := if negb (Z.land x 0x0000ff00 =? 0) then (y + 8, Z.shiftr x 8) else (y, x) in
  let '(y, x) := if negb (Z.land x 0x000000f0 =? 0) then (y + 4, Z.shiftr x 4) else (y, x) in
  let '(y, x) := if negb (Z.land x 0x0000000c =? 0) then (y + 2, Z.shiftr x 2) else (y, x) in
  let y := if negb (Z.land x 0x00000002 =? 0) then y + 1 else y in
  Ok y.

Definition ceilLog2 (n : Z) : res Z :=
  if n =? 1 then Ok 0 else r ← floorLog2 (u32 (n - 1)); Ok (r + 1).

Definition mask (nbits : Z) : res Z :=
  if nbits =? 64 then Ok (u64 (-1)) else r ← shl64 1 nbits; Ok (u64 (r - 1)).

(** ** [isPowerOf2] *)
Lemma compl_testbit w z i :
  0 ≤ w → 0 ≤ z < 2 ^ w →
  Z.testbit (2 ^ w - 1 - z) i = (0 <=? i) && (i <? w) && negb (Z.testbit z i).
Proof.
  intros Hw Hz. replace (2 ^ w - 1 - z) with (Z.ldiff (Z.ones w) z).
  - rewrite Z.ldiff_spec, Z.testbit_ones by lia. done.
  - rewrite <- Z.sub_nocarry_ldiff; [rewrite Z.ones_equiv; lia|].
    apply Z.bits_inj'. intros j Hj. rewrite Z.ldiff_spec, Z.testbit_ones, Z.bits_0 by lia.
    destruct (Z.leb_spec 0 j), (Z.ltb_spec j w); simpl; rewrite ?andb_false_r; try done; try lia.
    rewrite (bits_above z w j); [done|apply Hz|lia].
Qed.

Lemma not32_testbit z i :
  is_u32 z → Z.testbit (not32 z) i = (0 <=? i) && (i <? 32) && negb (Z.testbit z i).
Proof. intros Hz. by apply compl_testbit. Qed.

Lemma leastSigBit_self n :
  0 < n < 2 ^ 32 → leastSigBit n = n ↔ Z.land n (n - 1) = 0.
Proof.
  intros Hn. unfold leastSigBit. rewrite u32_id by (unfold is_u32; lia).
  assert (is_u32 (n - 1)) as Hm by (unfold is_u32; lia).
  split; intros H; apply Z.bits_inj'; intros i Hi; apply (f_equal (λ z, Z.testbit z i)) in H;
    rewrite Z.land_spec in *; rewrite ?not32_testbit, ?Z.bits_0 in * by done.
  - destruct (Z.testbit n i), (Z.testbit (n - 1) i); simpl in *; try done.
    by rewrite andb_false_r in H.
  - destruct (Z.testbit n i) eqn:E; [|done]. simpl in *. rewrite H.
    destruct (Z.leb_spec 0 i); [|lia]. destruct (Z.ltb_spec i 32); [done|].
    by rewrite (bits_above n 32 i) in E by lia.
Qed.

Lemma land_pred_zero n : 0 < n → Z.land n (n - 1) = 0 ↔ n = 2 ^ Z.log2 n.
Proof.
  intros Hn. pose proof (Z.log2_spec n Hn) as [Hlo Hhi].
  pose proof (Z.log2_nonneg n) as Hk. split; intros H.
  - destruct (decide (n = 2 ^ Z.log2 n)) as [|Hne]; [done|exfalso].
    apply (f_equal (λ z, Z.testbit z (Z.log2 n))) in H.
    rewrite Z.land_spec, Z.bits_0, Z.bit_log2 in H by done.
    assert (Z.log2 (n - 1) = Z.log2 n) as E.
    { apply Z.log2_unique; lia. }
    rewrite <- E in H at 1. rewrite Z.bit_log2 in H; [done|].
    assert (0 < 2 ^ Z.log2 n) by (by apply Z.pow_pos_nonneg). lia.
  - rewrite H at 1 2. rewrite land_pow2_mod by done.
    apply Z.mod_same. assert (0 < 2 ^ Z.log2 n) by (by apply Z.pow_pos_nonneg). lia.
Qed.

Lemma isPowerOf2_iff n :
  is_u32 n → isPowerOf2 n = true ↔ is_pow2 n.
Proof.
  intros Hn. unfold isPowerOf2. rewrite andb_true_iff, negb_true_iff, Z.eqb_neq, Z.eqb_eq.
  split.
  - intros [H0 H]. unfold is_u32 in Hn.
    rewrite leastSigBit_self, land_pred_zero in H by lia.
    exists (Z.log2 n). split; [apply Z.log2_nonneg|done].
  - intros (k & Hk & ->). assert (0 < 2 ^ k) by (by apply Z.pow_pos_nonneg).
    unfold is_u32 in Hn. split; [lia|].
    rewrite leastSigBit_self, land_pred_zero by lia. by rewrite Z.log2_pow2.
Qed.

(** ** [floorLog2] and [ceilLog2] *)

(** One halving step: the high [k] bits of a [2k]-bit number are tested with
    the mask [2^2k - 2^k]. *)
Lemma log2_step x k m :
  0 < k → m = 2 ^ (2 * k) - 2 ^ k → 0 < x < 2 ^ (2 * k) →
  (if negb (Z.land x m =? 0)
   then Z.log2 x = k + Z.log2 (Z.shiftr x k) ∧ 0 < Z.shiftr x k < 2 ^ k
   else 0 < x < 2 ^ k).
Proof.
  intros Hk -> Hx.
  assert (2 ^ (2 * k) = 2 ^ k * 2 ^ k) as Hpow by (rewrite <- Z.pow_add_r by lia; f_equal; lia).
  assert (0 < 2 ^ k) as Hpk by (apply Z.pow_pos_nonneg; lia).
  replace (2 ^ (2 * k) - 2 ^ k) with (Z.shiftl (Z.ones k) k)
    by (rewrite Z.shiftl_mul_pow2, Z.ones_equiv by lia; nia).
  assert (Z.land x (Z.shiftl (Z.ones k) k) = Z.shiftl (Z.shiftr x k) k) as ->.
  { apply Z.bits_inj'. intros i Hi. rewrite Z.land_spec, !Z.shiftl_spec by done.
    destruct (Z.lt_ge_cases i k) as [Hlt|Hge].
    { rewrite !(Z.testbit_neg_r _ (i - k)) by lia. by rewrite andb_false_r. }
    rewrite Z.shiftr_spec by lia. rewrite Z.testbit_ones by lia.
    replace (i - k + k) with i by lia.
    destruct (Z.lt_ge_cases i (2 * k)).
    - destruct (Z.leb_spec 0 (i - k)), (Z.ltb_spec (i - k) k); try lia. by rewrite andb_true_r.
    - by rewrite (bits_above x (2 * k) i) by lia. }
  rewrite Z.shiftl_mul_pow2 by lia.
  assert (Z.shiftr x k = x / 2 ^ k) as Hdiv by (by rewrite Z.shiftr_div_pow2 by lia).
  destruct (Z.eqb_spec (Z.shiftr x k * 2 ^ k) 0) as [H0|H0]; simpl.
  - assert (x / 2 ^ k = 0) as Hz by nia. apply Z.div_small_iff in Hz; lia.
  - assert (0 ≤ x / 2 ^ k) by (apply Z.div_pos; lia).
    assert (x / 2 ^ k < 2 ^ k) by (apply Z.div_lt_upper_bound; lia).
    rewrite Z.log2_shiftr by lia.
    assert (k ≤ Z.log2 x); [|nia].
    apply Z.log2_le_pow2; [lia|]. apply Z.nlt_ge. intros Hlt.
    rewrite Z.div_small in *; lia.
Qed.

Lemma floorLog2_log2 x : 0 < x < 2 ^ 32 → floorLog2 x = Ok (Z.log2 x).
Proof.
  intros Hx. unfold floorLog2. destruct (Z.ltb_spec 0 x); [simpl|lia].
  pose proof (log2_step x 16 0xffff0000 ltac:(lia) eq_refl Hx) as H16.
  destruct (negb (Z.land x 0xffff0000 =? 0)); [destruct H16 as [-> Hx1]|rename H16 into Hx1];
    [set (x1 := Z.shiftr x 16) in *|set (x1 := x) in *].
  all: pose proof (log2_step x1 8 0xff00 ltac:(lia) eq_refl Hx1) as H8.
  all: destruct (negb (Z.land x1 0xff00 =? 0)); [destruct H8 as [-> Hx2]|rename H8 into Hx2];
    [set (x2 := Z.shiftr x1 8) in *|set (x2 := x1) in *].
  all: pose proof (log2_step x2 4 0xf0 ltac:(lia) eq_refl Hx2) as H4.
  all: destruct (negb (Z.land x2 0xf0 =? 0)); [destruct H4 as [-> Hx3]|rename H4 into Hx3];
    [set (x3 := Z.shiftr x2 4) in *|set (x3 := x2) in *].
  all: pose proof (log2_step x3 2 0xc ltac:(lia) eq_refl Hx3) as H2.
  all: destruct (negb (Z.land x3 0xc =? 0)); [destruct H2 as [-> Hx4]|rename H2 into Hx4];
    [set (x4 := Z.shiftr x3 2) in *|set (x4 := x3) in *].
  all: pose proof (log2_step x4 1 0x2 ltac:(lia) eq_refl Hx4) as H1.
  all: destruct (negb (Z.land x4 0x2 =? 0)); [destruct H1 as [-> Hx5]|rename H1 into Hx5].
  all: try (replace (Z.shiftr x4 1) with 1 by lia).
  all: try (replace x4 with 1 by lia).
  all: change (Z.log2 1) with 0; f_equal; lia.
Qed.

(** Log2 of a table size, as every constructor uses it. *)
Lemma floorLog2_pow2 k : 0 ≤ k < 32 → floorLog2 (2 ^ k) = Ok k.
Proof.
  intros. assert (0 < 2 ^ k) by (apply Z.pow_pos_nonneg; lia).
  assert (2 ^ k < 2 ^ 32) by (apply Z.pow_lt_mono_r; lia).
  rewrite floorLog2_log2 by lia. by rewrite Z.log2_pow2 by lia.
Qed.

Lemma ceilLog2_log2_up n : 0 < n < 2 ^ 32 → ceilLog2 n = Ok (Z.log2_up n).
Proof.
  intros Hn. unfold ceilLog2. destruct (Z.eqb_spec n 1) as [->|]; [done|].
  rewrite u32_id by (unfold is_u32; lia). rewrite floorLog2_log2 by lia. simpl.
  by rewrite Z.log2_up_eqn, <- Z.sub_1_r by lia.
Qed.

Lemma ceilLog2_pow2 k : 0 ≤ k < 32 → ceilLog2 (2 ^ k) = Ok k.
Proof.
  intros. assert (0 < 2 ^ k) by (apply Z.pow_pos_nonneg; lia).
  assert (2 ^ k < 2 ^ 32) by (apply Z.pow_lt_mono_r; lia).
  rewrite ceilLog2_log2_up by lia. by rewrite Z.log2_up_pow2 by lia.
Qed.

(** ** [mask] *)
Lemma mask_ones k : 0 ≤ k ≤ 64 → mask k = Ok (2 ^ k - 1).
Proof.
  intros Hk. unfold mask. destruct (Z.eqb_spec k 64) as [->|]; [done|].
  unfold shl64, guard_. destruct (Z.leb_spec 0 k), (Z.ltb_spec k 64); try lia; simpl.
  rewrite Z.shiftl_1_l. assert (0 < 2 ^ k) by (apply Z.pow_pos_nonneg; lia).
  assert (2 ^ k < 2 ^ 64) by (apply Z.pow_lt_mono_r; lia).
  by rewrite !u64_id by (rewrite ?u64_id; unfold is_u64; lia).
Qed.

(** A table size that passed the constructors' check. *)
Lemma pow2_facts n :
  is_u32 n → isPowerOf2 n = true →
  ∃ k, 0 ≤ k < 32 ∧ n = 2 ^ k ∧ ceilLog2 n = Ok k ∧ mask k = Ok (n - 1) ∧ 1 ≤ n ∧ u32 (n - 1) = n - 1.
Proof.
  intros Hn Hp. apply isPowerOf2_iff in Hp as (k & Hk & ->); [|done]. unfold is_u32 in Hn.
  assert (k < 32) by (apply (Z.pow_lt_mono_r_iff 2); lia).
  pose proof (Z.pow_pos_nonneg 2 k). exists k.
  split_and!; try lia; [apply ceilLog2_pow2; lia|apply mask_ones; lia|].
  apply u32_id. unfold is_u32. lia.
Qed.

(** ** Theorems *)

(** [isPowerOf2], the guard of every table-size check, accepts exactly the
    powers of two, and on those [floorLog2] and [ceilLog2] agree and give the
    exponent, so that [mask(ceilLog2(n))] is [n - 1]: the masks computed by the
    constructors cover exactly their tables. *)
Theorem table_size_arith (n : Z) :
  is_u32 n → isPowerOf2 n = true →
  ∃ k, 0 ≤ k < 32 ∧ n = 2 ^ k ∧ floorLog2 n = Ok k ∧ ceilLog2 n = Ok k ∧
       mask k = Ok (n - 1) ∧ (∀ a, 0 ≤ Z.land a (n - 1) < n ∧ Z.land a (n - 1) = a mod n).
Proof.
  intros Hn Hp. apply isPowerOf2_iff in Hp as (k & Hk & ->); [|done].
  assert (k < 32) by (apply (Z.pow_lt_mono_r_iff 2); [lia..|apply Hn]).
  exists k. split_and!; [lia..|done| | | |].
  - apply floorLog2_pow2; lia.
  - apply ceilLog2_pow2; lia.
  - apply mask_ones; lia.
  - intros a. split; [apply land_size_bound, is_pow2_pos; by exists k|].
    apply land_size_mod. by exists k.
Qed.

Lemma table_size_arith_witness :
  is_u32 8192 ∧ isPowerOf2 8192 = true ∧
  (∃ k, 0 ≤ k < 32 ∧ 8192 = 2 ^ k ∧ floorLog2 8192 = Ok k ∧ ceilLog2 8192 = Ok k ∧
        mask k = Ok (8192 - 1) ∧
        (∀ a, 0 ≤ Z.land a (8192 - 1) < 8192 ∧ Z.land a (8192 - 1) = a mod 8192)).
Proof.
  split; [unfold is_u32; lia|]. split; [reflexivity|].
  apply (table_size_arith 8192); [unfold is_u32; lia|reflexivity].
Defined.
