(* ===== verification/Primes.v ===== *)
(** * Prime numbers of [base/intmath.hh] and [base/intmath.cc]

    [isPrime] and [prevPrime] at type [int].  [isPrime] tries the divisors 5, 7, 11,
    13, ... only and relies on its caller for 2 and 3; [prevPrime] means to pass only
    numbers that are divisible by neither.  A product that leaves the range of [int]
    is the error [Overflow]. *)

From Stdlib Require Import Znumtheory.
From S2P Require Import Prelude.

Module Primes.

Definition imul (x y : Z) : res Z :=
  _ ← guard_ ((- 2 ^ 31 <=? x * y) && (x * y <? 2 ^ 31)) Overflow; Ok (x * y).

(** The loop of [isPrime] from [i] on. *)
Fixpoint isPrime_loop (fuel : nat) (n i : Z) : res bool :=
  match fuel with
  | O => Err Diverges
  | S fuel =>
      ii ← imul i i;
      if ii <=? n then
        if (Z.rem n i =? 0) || (Z.rem n (i + 2) =? 0) then Ok false
        else isPrime_loop fuel n (i + 6)
      else Ok true
  end.

Definition isPrime (n : Z) : res bool :=
  if (n =? 2) || (n =? 3) then Ok true else isPrime_loop (S (Z.to_nat (Z.sqrt n))) n 5.

Fixpoint prevPrime_loop (fuel : nat) (n decr : Z) : res Z :=
  match fuel with
  | O => Err Diverges
  | S fuel => b ← isPrime n; if (b : bool) then Ok n else prevPrime_loop fuel (n - decr) (6 - decr)
  end.

Definition prevPrime (n : Z) : res Z :=
  let n := if Z.land n 1 =? 0 then n - 1 else n in
  let decr := Z.rem n 3 in
  let '(n, decr) :=
    if decr =? 0 then (n - 2, 2) else if decr =? 1 then (n, 4) else (n, decr) in
  prevPrime_loop (S (Z.to_nat n)) n decr.

(** ** [isPrime] *)

(** Numbers whose square, with the next step of the loop, fits an [int]. *)
Definition in_range (n : Z) : Prop := n < 46335 ^ 2.

Definition tried (n i j : Z) : Prop := i ≤ j ∧ j mod 6 = 5 ∧ j * j ≤ n ∧ ((j | n) ∨ (j + 2 | n)).

Lemma tried_step n i : tried n i i ∨ (∃ j, tried n (i + 6) j) ↔ ∃ j, tried n i j ∧ (j = i ∨ i + 6 ≤ j).
Proof.
  unfold tried. split.
  - intros [H|(j & ? & ?)]; [exists i; auto|exists j]. split; [|lia]. split; [lia|done].
  - intros (j & H & [->|?]); [by left|]. right. exists j. naive_solver.
Qed.

Lemma mod6_next i j : i mod 6 = 5 → j mod 6 = 5 → i ≤ j → j = i ∨ i + 6 ≤ j.
Proof.
  intros Hi Hj Hle. Z.div_mod_to_equations; lia.
Qed.

Lemma imul_square i : 0 ≤ i ≤ 46340 → imul i i = Ok (i * i).
Proof.
  intros Hi. assert (i * i ≤ 46340 * 46340) by (apply Z.mul_le_mono_nonneg; lia).
  unfold imul, guard_. destruct (Z.leb_spec (- 2 ^ 31) (i * i)), (Z.ltb_spec (i * i) (2 ^ 31)); nia || done.
Qed.

Lemma isPrime_loop_S fuel n i :
  isPrime_loop (S fuel) n i =
    (ii ← imul i i;
     if ii <=? n then
       if (Z.rem n i =? 0) || (Z.rem n (i + 2) =? 0) then Ok false
       else isPrime_loop fuel n (i + 6)
     else Ok true).
Proof. done. Qed.

Lemma isPrime_loop_spec fuel n i :
  5 ≤ i ≤ 46340 → i mod 6 = 5 → in_range n → Z.sqrt n < i + 6 * Z.of_nat fuel →
  returns (isPrime_loop (S fuel) n i) (λ b, b = false ↔ ∃ j, tried n i j).
Proof.
  revert i. induction fuel as [|fuel IH]; intros i Hi Hm Hr Hf.
  all: rewrite isPrime_loop_S; rewrite imul_square by lia; cbn [mbind res_bind].
  all: destruct (Z.leb_spec (i * i) n) as [Hle|Hgt];
    [|simpl; split; [done|]; intros (j & ? & _ & ? & _); nia].
  - pose proof (Z.sqrt_le_square n i). lia.
  - assert (i ≤ Z.sqrt n) by (apply Z.sqrt_le_square; lia).
    assert (i ≤ 46334) by (unfold in_range in Hr; nia).
    assert (Hrem : ∀ d, 0 < d → (Z.rem n d =? 0) = true ↔ (d | n)).
    { intros d Hd. rewrite Z.eqb_eq. apply Z.rem_divide. lia. }
    destruct ((Z.rem n i =? 0) || (Z.rem n (i + 2) =? 0)) eqn:E.
    + simpl. split; [|done]. intros _. exists i. apply orb_true_iff in E. rewrite !Hrem in E by lia.
      unfold tried. naive_solver lia.
    + eapply returns_mono; [apply (IH (i + 6)); try (lia || done)|].
      { by rewrite <-Z.add_mod_idemp_r by lia; rewrite Z.mod_same, Z.add_0_r by lia. }
      intros b Hb. rewrite Hb. split.
      * intros Hj. destruct (proj1 (tried_step n i) (or_intror Hj)) as (j & ? & _). eauto.
      * intros (j & Hj). assert (Hni : ¬ tried n i i).
        { intros (_ & _ & _ & Hd). rewrite <-!Hrem in Hd by lia. rewrite <-orb_true_iff, E in Hd. done. }
        destruct (mod6_next i j) as [->|]; [done|apply Hj|apply Hj|done|].
        exists j. destruct Hj as (? & ? & ? & ?). unfold tried. auto.
Qed.

(** On numbers divisible by neither 2 nor 3 the trial is complete. *)
Lemma no_divisor_prime n :
  1 < n → ¬ (2 | n) → ¬ (3 | n) → (∀ j, ¬ tried n 5 j) → prime n.
Proof.
  intros Hn H2 H3 Ht. destruct (prime_dec n) as [|Hp]; [done|exfalso].
  destruct (not_prime_divide n Hn Hp) as (d & Hd & q & Hq).
  assert (Hsmall : ∀ e, 1 < e → e * e ≤ n → (e | n) → False).
  { intros e He Hee Hdiv. pose proof (Z.mod_pos_bound e 6 eq_refl) as Hb. pose proof (Z.div_mod e 6 ltac:(done)) as Hdm.
    assert (Hc : e mod 6 = 0 ∨ e mod 6 = 1 ∨ e mod 6 = 2 ∨ e mod 6 = 3 ∨ e mod 6 = 4 ∨ e mod 6 = 5) by lia.
    assert (H2e : (2 | e) → False) by (intros; apply H2; by transitivity e).
    assert (H3e : (3 | e) → False) by (intros; apply H3; by transitivity e).
    destruct Hc as [E|[E|[E|[E|[E|E]]]]].
    - apply H2e. exists (3 * (e / 6)). lia.
    - apply (Ht (e - 2)). unfold tried. replace (e - 2 + 2) with e by lia.
      split_and!; [lia| |nia|by right]. replace (e - 2) with (5 + (e / 6 - 1) * 6) by lia.
      by rewrite Z.mod_add.
    - apply H2e. exists (3 * (e / 6) + 1). lia.
    - apply H3e. exists (2 * (e / 6) + 1). lia.
    - apply H2e. exists (3 * (e / 6) + 2). lia.
    - apply (Ht e). unfold tried. split_and!; [lia|done|done|by left]. }
  destruct (Z.le_ge_cases d q) as [Hle|Hle].
  - apply (Hsmall d); [lia|nia|]. by exists q.
  - apply (Hsmall q); [nia|nia|]. exists d. lia.
Qed.

Lemma tried_not_prime n j : tried n 5 j → ¬ prime n.
Proof.
  intros (Hj & _ & Hjj & [Hd|Hd]) Hp.
  - destruct (prime_divisors n Hp j Hd) as [|[|[|]]]; nia.
  - destruct (prime_divisors n Hp (j + 2) Hd) as [|[|[|]]]; nia.
Qed.

Lemma isPrime_spec n :
  in_range n → n ≠ 2 → n ≠ 3 → returns (isPrime n) (λ b, b = false ↔ ∃ j, tried n 5 j).
Proof.
  intros Hr H2 H3. unfold isPrime. rewrite !(proj2 (Z.eqb_neq _ _)) by done. simpl.
  apply (isPrime_loop_spec _ n 5); [lia|done|done|]. pose proof (Z.sqrt_nonneg n). lia.
Qed.

Lemma isPrime_coprime n :
  in_range n → 3 < n → ¬ (2 | n) → ¬ (3 | n) → ∃ b, isPrime n = Ok b ∧ (b = true ↔ prime n).
Proof.
  intros Hr Hn H2 H3. destruct (proj1 (returns_iff _ _) (isPrime_spec n Hr ltac:(lia) ltac:(lia)))
    as (b & Hb & Hspec). exists b. split; [done|]. split.
  - intros ->. apply no_divisor_prime; [lia|done|done|]. intros j Hj. discriminate (proj2 Hspec (ex_intro _ j Hj)).
  - intros Hp. destruct b; [done|]. destruct (proj1 Hspec eq_refl) as [j Hj]. by apply tried_not_prime in Hj.
Qed.

Lemma isPrime_small n : n < 25 → isPrime n = Ok true.
Proof.
  intros Hn. unfold isPrime. destruct ((n =? 2) || (n =? 3)); [done|].
  rewrite isPrime_loop_S, imul_square by lia. simpl. by rewrite (proj2 (Z.leb_gt _ _)) by lia.
Qed.

Lemma isPrime_total n : in_range n → ∃ b, isPrime n = Ok b.
Proof.
  intros Hr. destruct (Z.lt_ge_cases n 25) as [|Hge]; [eauto using isPrime_small|].
  destruct (proj1 (returns_iff _ _) (isPrime_spec n Hr ltac:(lia) ltac:(lia))) as (b & ? & _). eauto.
Qed.

(** ** [prevPrime] *)
Lemma prevPrime_loop_S fuel n decr :
  prevPrime_loop (S fuel) n decr =
    (b ← isPrime n; if (b : bool) then Ok n else prevPrime_loop fuel (n - decr) (6 - decr)).
Proof. done. Qed.

Lemma prevPrime_loop_total fuel n decr :
  in_range n → decr = 2 ∨ decr = 4 ∨ n < 25 → n ≤ Z.of_nat fuel → ∃ p, prevPrime_loop (S fuel) n decr = Ok p.
Proof.
  revert n decr. induction fuel as [|fuel IH]; intros n decr Hr Hd Hf;
    (destruct (Z.lt_ge_cases n 25); [rewrite prevPrime_loop_S, isPrime_small by done; simpl; eauto|]).
  - lia.
  - destruct (isPrime_total n Hr) as [b Hb].
    rewrite prevPrime_loop_S, Hb. cbn [mbind res_bind]. destruct b; [eauto|]. apply IH; [unfold in_range in *; lia|lia|lia].
Qed.

Lemma even_not_prime q : (2 | q) → 2 < q → ¬ prime q.
Proof. intros [k ->] Hq Hp. destruct (prime_divisors _ Hp 2) as [|[|[|]]]; [by exists k|lia..]. Qed.

Lemma three_not_prime q : (3 | q) → 3 < q → ¬ prime q.
Proof. intros [k ->] Hq Hp. destruct (prime_divisors _ Hp 3) as [|[|[|]]]; [by exists k|lia..]. Qed.

(** No prime lies in the gap below a candidate. *)
Lemma mod6_prime q : prime q → 3 < q → q mod 6 = 1 ∨ q mod 6 = 5.
Proof.
  intros Hp Hq. pose proof (Z.mod_pos_bound q 6 eq_refl). pose proof (Z.div_mod q 6 ltac:(done)).
  assert (¬ (2 | q)) as H2 by (intros Hd; apply (even_not_prime q Hd); [lia|done]).
  assert (¬ (3 | q)) as H3 by (intros Hd; apply (three_not_prime q Hd); [lia|done]).
  assert (q mod 6 ≠ 0) by (intros E; apply H2; exists (3 * (q / 6)); lia).
  assert (q mod 6 ≠ 2) by (intros E; apply H2; exists (3 * (q / 6) + 1); lia).
  assert (q mod 6 ≠ 3) by (intros E; apply H3; exists (2 * (q / 6) + 1); lia).
  assert (q mod 6 ≠ 4) by (intros E; apply H2; exists (3 * (q / 6) + 2); lia). lia.
Qed.

Lemma mod6_coprime n : n mod 6 = 1 ∨ n mod 6 = 5 → ¬ (2 | n) ∧ ¬ (3 | n).
Proof. intros Hn. split; intros [k ->]; Z.div_mod_to_equations; lia. Qed.

(** [n] is a candidate, and [decr] leads to the next. *)
Definition in_phase (n decr : Z) : Prop :=
  (n mod 6 = 1 ∧ decr = 2) ∨ (n mod 6 = 5 ∧ decr = 4).

Definition largest_prime (n p : Z) : Prop := prime p ∧ p ≤ n ∧ ∀ q, prime q → q ≤ n → q ≤ p.

Lemma prevPrime_loop_phase fuel n decr :
  in_range n → 5 ≤ n → in_phase n decr → n ≤ Z.of_nat fuel →
  returns (prevPrime_loop (S fuel) n decr) (largest_prime n).
Proof.
  revert n decr. induction fuel as [|fuel IH]; intros n decr Hr Hn Hph Hf; [lia|].
  destruct (mod6_coprime n) as [H2 H3]; [unfold in_phase in Hph; naive_solver|].
  destruct (isPrime_coprime n Hr ltac:(lia) H2 H3) as (b & Hb & Hp). rewrite prevPrime_loop_S, Hb. cbn [mbind res_bind].
  destruct b; [simpl; split_and!; [by apply Hp|lia|auto]|].
  assert (Hnp : ¬ prime n) by (intros ?%Hp; done).
  assert (25 ≤ n) by (destruct (Z.lt_ge_cases n 25); [rewrite isPrime_small in Hb by done; done|done]).
  eapply returns_mono; [apply IH|].
  - unfold in_range, in_phase in *. lia.
  - unfold in_phase in Hph. lia.
  - unfold in_phase in *. destruct Hph as [[? ->]|[? ->]]; [right|left]; (split; [|done]);
      Z.div_mod_to_equations; lia.
  - unfold in_phase in Hph. lia.
  - intros p (Hpp & Hle & Hmax). split_and!; [done|unfold in_phase in Hph; lia|].
    intros q Hq Hqn. destruct (Z.le_gt_cases q (n - decr)) as [|Hgt]; [by apply Hmax|exfalso].
    assert (q ≠ n) by (intros ->; done). destruct (mod6_prime q Hq) as [E|E];
      unfold in_phase in Hph; [lia| |]; Z.div_mod_to_equations; lia.
Qed.

(** A prime times 3 passes for a prime. *)
Lemma isPrime_three_times q : prime q → 5 ≤ q → in_range (3 * q) → isPrime (3 * q) = Ok true.
Proof.
  intros Hp Hq Hr. destruct (proj1 (returns_iff _ _) (isPrime_spec (3 * q) Hr ltac:(lia) ltac:(lia)))
    as (b & -> & Hb). destruct b; [done|exfalso]. destruct (proj1 Hb eq_refl) as (j & Hj & _ & Hjj & Hd).
  assert (Hdiv : ∀ d, 3 < d → (d | 3 * q) → q ≤ d).
  { intros d H3 Hdq. destruct (Zdivide_dec q d) as [Hqd|Hqd]; [apply Z.divide_pos_le in Hqd; lia|].
    assert (Hd3 : (d | 3)).
    { apply (Gauss d q 3); [by rewrite Z.mul_comm|]. apply rel_prime_sym. by apply prime_rel_prime. }
    apply Z.divide_pos_le in Hd3; lia. }
  destruct Hd as [Hd|Hd]; apply Hdiv in Hd; nia.
Qed.

Lemma odd_land n : (Z.land n 1 =? 0) = Z.even n.
Proof.
  change 1 with (Z.ones 1). rewrite Z.land_ones by lia. rewrite Zmod_even. by destruct (Z.even n).
Qed.

(** The number [prevPrime] starts from. *)
Definition odd_below (n : Z) : Z := if Z.even n then n - 1 else n.

Lemma odd_below_odd n : odd_below n mod 2 = 1 ∧ n - 1 ≤ odd_below n ≤ n.
Proof.
  unfold odd_below. pose proof (Zmod_even n) as He. destruct (Z.even n); split; try lia;
    Z.div_mod_to_equations; lia.
Qed.

Lemma prevPrime_unfold n :
  0 ≤ n →
  prevPrime n =
    let m := odd_below n in
    if m mod 3 =? 0 then prevPrime_loop (S (Z.to_nat (m - 2))) (m - 2) 2
    else if m mod 3 =? 1 then prevPrime_loop (S (Z.to_nat m)) m 4
    else prevPrime_loop (S (Z.to_nat m)) m (if n =? 0 then Z.rem (-1) 3 else 2).
Proof.
  intros Hn. unfold prevPrime. rewrite odd_land. fold (odd_below n). cbv zeta.
  destruct (Z.eqb_spec n 0) as [->|Hn0]; [done|].
  pose proof (odd_below_odd n) as [_ ?]. rewrite Z.rem_mod_nonneg by lia.
  pose proof (Z.mod_pos_bound (odd_below n) 3 eq_refl).
  destruct (Z.eqb_spec (odd_below n mod 3) 0); [done|]. destruct (Z.eqb_spec (odd_below n mod 3) 1); [done|].
  by replace (odd_below n mod 3) with 2 by lia.
Qed.
Lemma odd_below_mod6 n :
  odd_below n mod 3 = 0 ∧ odd_below n mod 6 = 3 ∨ odd_below n mod 3 = 1 ∧ odd_below n mod 6 = 1 ∨
  odd_below n mod 3 = 2 ∧ odd_below n mod 6 = 5.
Proof. destruct (odd_below_odd n) as [H _]. Z.div_mod_to_equations; lia. Qed.

Lemma prevPrime_start_prime n m decr :
  in_range m → 3 < m → prime m → odd_below n = m →
  prevPrime_loop (S (Z.to_nat m)) m decr = Ok m.
Proof.
  intros Hr Hm Hp Ho. destruct (mod6_coprime m (mod6_prime m Hp Hm)) as [H2 H3].
  destruct (isPrime_coprime m Hr Hm H2 H3) as (b & Hb & Hiff). rewrite prevPrime_loop_S, Hb.
  by rewrite (proj2 Hiff Hp).
Qed.

Lemma largest_prime_odd_below n p : 5 ≤ n → largest_prime (odd_below n) p → largest_prime n p.
Proof.
  intros Hn (Hp & Hle & Hmax). pose proof (odd_below_odd n) as [_ Hb]. split_and!; [done|lia|].
  intros q Hq Hqn. destruct (Z.le_gt_cases q (odd_below n)) as [|Hgt]; [by apply Hmax|exfalso].
  unfold odd_below in *. destruct (Z.even n) eqn:He; [|lia].
  apply (even_not_prime q); [|lia|done]. assert (q = n) as -> by lia.
  apply Z.even_spec in He as [k ->]. exists k. lia.
Qed.

Lemma prevPrime_total n : in_range n → ∃ p, prevPrime n = Ok p.
Proof.
  intros Hr. destruct (Z.lt_ge_cases n 0) as [Hneg|Hn].
  - unfold prevPrime. set (m := if Z.land n 1 =? 0 then n - 1 else n).
    assert (m ≤ n) by (unfold m; destruct (_ =? _); lia).
    repeat case_match; simplify_eq; rewrite prevPrime_loop_S, isPrime_small by lia; simpl; eauto.
  - pose proof (odd_below_odd n) as [_ ?]. rewrite prevPrime_unfold by done. cbv zeta.
    repeat case_match; apply prevPrime_loop_total; unfold in_range in *; lia.
Qed.

(** ** Theorems *)

(** [isPrime] returns for every number in range, decides primality of the numbers that
    have no proper factor 2 or 3, and takes every number below 25 for a prime, 4, 6, 8
    and 9 among them, as 2 and 3 are not among the divisors it tries. *)
Theorem isPrime_decides n :
  in_range n →
  ∃ b, isPrime n = Ok b ∧ (n < 25 → b = true) ∧
    (1 < n → ((2 | n) → n = 2) → ((3 | n) → n = 3) → (b = true ↔ prime n)).
Proof.
  intros Hr. destruct (isPrime_total n Hr) as [b Hb]. exists b. split; [done|]. split.
  { intros Hs. rewrite isPrime_small in Hb by done. by simplify_eq. }
  intros Hn H2 H3. destruct (decide (n = 2)) as [->|N2].
  { rewrite isPrime_small in Hb by lia. simplify_eq. split; [|done]. intros _. exact prime_2. }
  destruct (decide (n = 3)) as [->|N3].
  { rewrite isPrime_small in Hb by lia. simplify_eq. split; [|done]. intros _. exact prime_3. }
  destruct (isPrime_coprime n Hr ltac:(lia)) as (b' & Hb' & Hiff); [auto..|].
  rewrite Hb in Hb'. injection Hb' as <-. exact Hiff.
Qed.

Lemma isPrime_decides_witness :
  ∃ b, isPrime 91 = Ok b ∧ (91 < 25 → b = true) ∧
    (1 < 91 → ((2 | 91) → 91 = 2) → ((3 | 91) → 91 = 3) → (b = true ↔ prime 91)).
Proof. apply (isPrime_decides 91). unfold in_range. lia. Defined.

(** [prevPrime] always returns.  From 5 on it returns the largest prime that is not
    above its argument if the odd number it starts from is prime or divisible by 3.
    Otherwise its steps 2 and 4 are exchanged: it then passes over every second
    candidate and tries the multiples of 3 in between, which [isPrime] does not
    recognise; from [3q + 4] with [q] a prime it returns [3q]. *)
Theorem prevPrime_result n :
  in_range n →
  (∃ p, prevPrime n = Ok p) ∧
  (5 ≤ n → prime (odd_below n) ∨ (3 | odd_below n) → ∃ p, prevPrime n = Ok p ∧ largest_prime n p) ∧
  (∀ q, n = 3 * q + 4 → 5 ≤ q → prime q → ¬ prime n → prevPrime n = Ok (3 * q) ∧ ¬ prime (3 * q)).
Proof.
  intros Hr. split_and!.
  - by apply prevPrime_total.
  - intros Hn Hcase. pose proof (odd_below_odd n) as [_ Hb].
    assert (Hrm : in_range (odd_below n)) by (unfold in_range in *; lia).
    rewrite prevPrime_unfold by lia. cbv zeta. destruct Hcase as [Hp|H3].
    + destruct (mod6_prime _ Hp) as [E|E]; [| |]; [lia| |].
      all: destruct (odd_below_mod6 n) as [[? ?]|[[E3 ?]|[E3 ?]]]; try lia.
      all: rewrite E3; simpl; exists (odd_below n).
      all: split; [apply (prevPrime_start_prime n); done || lia|].
      all: apply largest_prime_odd_below; [done|]; split_and!; [done|lia|auto].
    + destruct (odd_below_mod6 n) as [[E3 E6]|[[E3 _]|[E3 _]]];
        [|apply Z.mod_divide in H3; lia..].
      rewrite E3. cbn [Z.eqb].
      assert (7 ≤ odd_below n - 2 ∧ in_phase (odd_below n - 2) 2) as [Hge Hph].
      { unfold in_phase. Z.div_mod_to_equations; lia. }
      pose proof (prevPrime_loop_phase (Z.to_nat (odd_below n - 2)) (odd_below n - 2) 2
        ltac:(unfold in_range in *; lia) ltac:(lia) Hph ltac:(lia)) as Hret.
      apply returns_iff in Hret as (p & Hp & ? & ? & Hmax).
      exists p. split; [done|]. apply largest_prime_odd_below; [done|].
      split_and!; [done|lia|]. intros q Hq Hqn.
      destruct (Z.le_gt_cases q (odd_below n - 2)); [by apply Hmax|exfalso].
      destruct (mod6_prime q Hq); [lia| |]; Z.div_mod_to_equations; lia.
  - intros q -> Hq Hpq Hnp. destruct (mod6_coprime q (mod6_prime q Hpq ltac:(lia))) as [Hodd _].
    assert (Ho : odd_below (3 * q + 4) = 3 * q + 4 ∧ (3 * q + 4) mod 3 = 1 ∧ (3 * q + 4) mod 6 = 1).
    { unfold odd_below. destruct (Z.even (3 * q + 4)) eqn:He.
      - exfalso. apply Z.even_spec in He as [k Hk]. apply Hodd. exists (k - q - 2). lia.
      - pose proof (Zmod_even (3 * q + 4)) as Hm. rewrite He in Hm. split; [done|].
        Z.div_mod_to_equations; lia. }
    destruct Ho as (Ho & H3 & H6). split; [|apply three_not_prime; [exists q; lia|lia]].
    rewrite prevPrime_unfold by lia. cbv zeta. rewrite Ho, H3. cbn [Z.eqb Pos.eqb].
    destruct (mod6_coprime _ (or_introl H6)) as [H2' H3'].
    destruct (isPrime_coprime _ Hr ltac:(lia) H2' H3') as (b & Hb & Hiff). rewrite prevPrime_loop_S, Hb.
    destruct b; [by destruct (Hnp (proj1 Hiff eq_refl))|]. cbn [mbind res_bind].
    replace (3 * q + 4 - 4) with (3 * q) by lia.
    replace (Z.to_nat (3 * q + 4)) with (S (Z.to_nat (3 * q + 3))) by lia.
    rewrite prevPrime_loop_S, isPrime_three_times; [done|done|done|]. unfold in_range in *. lia.
Qed.

Lemma prevPrime_result_witness :
  (∃ p, prevPrime 27 = Ok p ∧ largest_prime 27 p) ∧ prevPrime 25 = Ok 21 ∧ ¬ prime 21.
Proof.
  split.
  - destruct (prevPrime_result 27) as (_ & H & _); [unfold in_range; lia|]. apply H; [lia|].
    right. exists 9. reflexivity.
  - destruct (prevPrime_result 25) as (_ & _ & H); [unfold in_range; lia|].
    apply (H 7); [reflexivity|lia| |].
    + destruct (isPrime_decides 7) as (b & Hb & Hs & Hiff); [unfold in_range; lia|].
      apply Hiff; [lia| | |apply Hs; lia]; intros [k Hk]; lia.
    + intros Hp. destruct (prime_divisors _ Hp 5) as [|[|[|]]]; [exists 5; reflexivity|lia..].
Defined.
End Primes.
