(* ===== verification/BitField.v ===== *)
(** * Bit fields of [base/bitfield.hh] and the rest of [base/intmath.hh]

    The functions at type [uint64_t].  A shift by too much is an error; everything else
    wraps around.  Each bit trick is proved equal to the arithmetic it stands for. *)

From S2P Require Import Prelude IntMath.

Module BitField.

(** ** Fields *)
Definition bits (val first last : Z) : res Z :=
  let nbits := first - last + 1 in
  v ← shr64 val last;
  m ← mask nbits;
  Ok (Z.land v m).

Definition bit (val b : Z) : res Z := bits val b b.

Definition mbits (val first last : Z) : res Z :=
  m1 ← mask (first + 1);
  m2 ← mask last;
  Ok (Z.land val (Z.land m1 (not64 m2))).

Definition mask_range (first last : Z) : res Z := mbits (2 ^ 64 - 1) first last.

Definition sext (N val : Z) : res Z :=
  sign_bit ← bits val (N - 1) (N - 1);
  if negb (sign_bit =? 0) then m ← mask N; Ok (Z.lor val (not64 m)) else Ok val.

Definition insertBits (val first last bit_val : Z) : res Z :=
  m ← mask (first - last + 1);
  bmask ← shl64 m last;
  t ← shl64 bit_val last;
  Ok (Z.lor (Z.land t bmask) (Z.land val (not64 bmask))).

Definition insertBit (val b bit_val : Z) : res Z := insertBits val b b bit_val.

Definition replaceBits (val first last bit_val : Z) : res Z := insertBits val first last bit_val.

(** ** Searches *)

(** One line of [findMsbSet]: if the field is not empty, count it and shift it down. *)
Definition msb_line (first last : Z) (s : Z * Z) : res (Z * Z) :=
  b ← bits s.2 first last;
  if negb (b =? 0) then v ← shr64 s.2 last; Ok (s.1 + last, v) else Ok s.

Definition findMsbSet (val : Z) : res Z :=
  if val =? 0 then Ok 0
  else
    s ← msb_line 63 32 (0, val);
    s ← msb_line 31 16 s;
    s ← msb_line 15 8 s;
    s ← msb_line 7 4 s;
    s ← msb_line 3 2 s;
    s ← msb_line 1 1 s;
    Ok s.1.

(** One line of [findLsbSet]: if the low [k] bits are empty, count and drop them. *)
Definition lsb_line (k : Z) (s : Z * Z) : res (Z * Z) :=
  b ← bits s.2 (k - 1) 0;
  if b =? 0 then v ← shr64 s.2 k; Ok (s.1 + k, v) else Ok s.

Definition findLsbSet (val : Z) : res Z :=
  if val =? 0 then Ok 64
  else
    s ← lsb_line 32 (0, val);
    s ← lsb_line 16 s;
    s ← lsb_line 8 s;
    s ← lsb_line 4 s;
    s ← lsb_line 2 s;
    s ← lsb_line 1 s;
    Ok s.1.

Definition isPow2 (v : Z) : bool := Z.land v (u64 (v - 1)) =? 0.

(** [popCount] where the compiler has no builtin. *)
Definition popCount (val : Z) : Z :=
  let m1 := 0x5555555555555555 in
  let m2 := 0x3333333333333333 in
  let m4 := 0x0f0f0f0f0f0f0f0f in
  let sum := 0x0101010101010101 in
  let val := u64 (val - Z.land (Z.shiftr val 1) m1) in
  let val := u64 (Z.land val m2 + Z.land (Z.shiftr val 2) m2) in
  let val := Z.land (u64 (val + Z.shiftr val 4)) m4 in
  Z.shiftr (u64 (val * sum)) 56.

Definition smear (val k : Z) : Z := Z.lor val (Z.shiftr val k).

Definition alignToPowerOfTwo (val : Z) : Z :=
  let val := u64 (val - 1) in
  let val := smear val 1 in
  let val := smear val 2 in
  let val := smear val 4 in
  let val := smear val 8 in
  let val := smear val 16 in
  let val := smear val 32 in
  u64 (val + 1).

(** ** The rest of [intmath.hh] *)

(** [power], with the warnings it prints about overflow. *)
Fixpoint power_loop (n : Z) (k : nat) (result : Z) (warnings : nat) : Z * nat :=
  match k with
  | O => (result, warnings)
  | S k =>
      let old_result := result in
      let result := u64 (result * n) in
      power_loop n k result (if result <? old_result then S warnings else warnings)
  end.

Definition power (n e : Z) : Z * nat :=
  if e =? 0 then (1, 0%nat) else power_loop n (Z.to_nat (e - 1)) n 0.

(** [floorLog2] of an [unsigned long long]. *)
Definition log2_line (m k : Z) (s : Z * Z) : Z * Z :=
  if negb (Z.land s.2 m =? 0) then (s.1 + k, Z.shiftr s.2 k) else s.

Definition floorLog2_64 (x : Z) : res Z :=
  _ ← assert_ (0 <? x);
  let s := log2_line 0xffffffff00000000 32 (0, x) in
  let s := log2_line 0x00000000ffff0000 16 s in
  let s := log2_line 0x000000000000ff00 8 s in
  let s := log2_line 0x00000000000000f0 4 s in
  let s := log2_line 0x000000000000000c 2 s in
  let s := log2_line 0x0000000000000002 1 s in
  Ok s.1.

Definition ceilLog2_64 (n : Z) : res Z :=
  if n =? 1 then Ok 0 else r ← floorLog2_64 (u64 (n - 1)); Ok (r + 1).

Definition floorPow2 (n : Z) : res Z := k ← floorLog2_64 n; shl64 1 k.
Definition ceilPow2 (n : Z) : res Z := k ← ceilLog2_64 n; shl64 1 k.

Definition divCeil (a b : Z) : res Z := udiv (u64 (a + b - 1)) b.

Definition roundUp (val align : Z) : Z :=
  let mask := u64 (align - 1) in Z.land (u64 (val + mask)) (not64 mask).

Definition roundDown (val align : Z) : Z :=
  let mask := u64 (align - 1) in Z.land val (not64 mask).

(** Characters are their codes: '0' is 48, 'A' is 65, 'a' is 97. *)
Definition isHex (c : Z) : bool :=
  (48 <=? c) && (c <=? 57) || (65 <=? c) && (c <=? 70) || (97 <=? c) && (c <=? 102).
Definition isOct (c : Z) : bool := (48 <=? c) && (c <=? 55).
Definition isDec (c : Z) : bool := (48 <=? c) && (c <=? 57).
Definition hex2Int (c : Z) : Z :=
  if (48 <=? c) && (c <=? 57) then c - 48
  else if (65 <=? c) && (c <=? 70) then c - 65 + 10
  else if (97 <=? c) && (c <=? 102) then c - 97 + 10
  else 0.

(** ** Bits of the results *)
Lemma not64_testbit z i :
  is_u64 z → Z.testbit (not64 z) i = (0 <=? i) && (i <? 64) && negb (Z.testbit z i).
Proof. intros Hz. by apply compl_testbit. Qed.

Lemma ones_testbit k i : 0 ≤ k → Z.testbit (2 ^ k - 1) i = (0 <=? i) && (i <? k).
Proof. intros. rewrite <-Z.testbit_ones by done. by rewrite Z.ones_equiv. Qed.

Lemma u64_testbit z i : Z.testbit (u64 z) i = (i <? 64) && Z.testbit z i.
Proof.
  unfold u64. destruct (Z.ltb_spec i 64); simpl.
  - destruct (Z.lt_ge_cases i 0); [by rewrite !Z.testbit_neg_r|]. by rewrite Z.mod_pow2_bits_low by lia.
  - by rewrite Z.mod_pow2_bits_high by lia.
Qed.

Lemma bits_eq val first last :
  0 ≤ last ≤ first → first < 64 → bits val first last = Ok (val / 2 ^ last mod 2 ^ (first - last + 1)).
Proof.
  intros Hl Hf. unfold bits. rewrite shr64_in, mask_ones by lia. simpl.
  by rewrite land_pow2_mod, Z.shiftr_div_pow2 by lia.
Qed.

Lemma bits_testbit val first last r i :
  0 ≤ last ≤ first → first < 64 → bits val first last = Ok r → 0 ≤ i →
  Z.testbit r i = (i <=? first - last) && Z.testbit val (last + i).
Proof.
  intros Hl Hf. rewrite bits_eq by done. intros [= <-] Hi.
  destruct (Z.leb_spec i (first - last)); simpl.
  - rewrite Z.mod_pow2_bits_low by lia. rewrite Z.div_pow2_bits by lia. f_equal. lia.
  - by rewrite Z.mod_pow2_bits_high by lia.
Qed.
(** The bits of a mask of [k] ones from [last] on. *)
Lemma shifted_ones_testbit k last i :
  0 ≤ k → 0 ≤ last → Z.testbit (u64 (Z.shiftl (2 ^ k - 1) last)) i =
    (i <? 64) && (last <=? i) && (i <? last + k).
Proof.
  intros Hk Hl. rewrite u64_testbit. destruct (Z.ltb_spec i 64); [|done]. simpl.
  destruct (Z.lt_ge_cases i 0).
  { rewrite Z.testbit_neg_r by done. by destruct (Z.leb_spec last i); [lia|]. }
  rewrite Z.shiftl_spec, ones_testbit by lia.
  destruct (Z.leb_spec 0 (i - last)), (Z.leb_spec last i), (Z.ltb_spec (i - last) k), (Z.ltb_spec i (last + k));
    lia || done.
Qed.

Lemma insertBits_testbit val first last b :
  is_u64 val → 0 ≤ last ≤ first → first < 64 →
  ∃ r, insertBits val first last b = Ok r ∧ ∀ i, 0 ≤ i →
    Z.testbit r i = (i <? 64) && if (last <=? i) && (i <=? first) then Z.testbit b (i - last) else Z.testbit val i.
Proof.
  intros Hv Hl Hf. unfold insertBits. rewrite mask_ones by lia. simpl.
  rewrite !shl64_in by lia. simpl. eexists. split; [done|]. intros i Hi.
  rewrite Z.lor_spec, !Z.land_spec, not64_testbit by apply u64_range.
  rewrite shifted_ones_testbit, u64_testbit, Z.shiftl_spec by lia.
  destruct (Z.ltb_spec i 64); simpl; [|by rewrite ?andb_false_r; simpl; rewrite ?andb_false_r].
  destruct (Z.leb_spec 0 i); [|lia]. simpl.
  destruct (Z.leb_spec last i), (Z.ltb_spec i (last + (first - last + 1))), (Z.leb_spec i first); try lia; simpl;
    by rewrite ?andb_true_r, ?andb_false_r, ?orb_false_r, ?orb_false_l.
Qed.

Lemma testbits_bound w r :
  0 ≤ w → 0 ≤ r → (∀ i, w ≤ i → Z.testbit r i = false) → 0 ≤ r < 2 ^ w.
Proof.
  intros Hw Hr H. split; [done|]. destruct (Z.lt_ge_cases r (2 ^ w)) as [|Hge]; [done|exfalso].
  assert (0 < 2 ^ w) by (by apply Z.pow_pos_nonneg).
  assert (w ≤ Z.log2 r) by (apply Z.log2_le_pow2; lia).
  pose proof (Z.bit_log2 r ltac:(lia)) as Hb. by rewrite H in Hb.
Qed.

Lemma insertBits_u64 val first last b r :
  is_u64 val → 0 ≤ last ≤ first → first < 64 → insertBits val first last b = Ok r → is_u64 r.
Proof.
  intros Hv Hl Hf H. destruct (insertBits_testbit val first last b Hv Hl Hf) as (r' & H' & Hb).
  rewrite H in H'. injection H' as <-. apply (testbits_bound 64); [lia| |].
  2: { intros i Hi. rewrite Hb by lia. by destruct (Z.ltb_spec i 64); [lia|]. }
  unfold insertBits in H. rewrite mask_ones in H by lia. simpl in H. rewrite !shl64_in in H by lia. simpl in H.
  injection H as <-. apply Z.lor_nonneg. split; apply Z.land_nonneg; left; [apply u64_range|apply Hv].
Qed.

(** Writing a field and reading it back.  [insertBits] succeeds for every field of
    a 64-bit value; [bits] then reads the low bits of what was written, and every bit
    outside the field is as it was. *)
Theorem bitfield_roundtrip val first last b :
  is_u64 val → 0 ≤ last ≤ first → first < 64 →
  ∃ r, insertBits val first last b = Ok r ∧ is_u64 r ∧
    bits r first last = Ok (b mod 2 ^ (first - last + 1)) ∧
    ∀ i, 0 ≤ i < 64 → i < last ∨ first < i → Z.testbit r i = Z.testbit val i.
Proof.
  intros Hv Hl Hf. destruct (insertBits_testbit val first last b Hv Hl Hf) as (r & Hr & Hb).
  exists r. split_and!; [done|by eapply insertBits_u64| |].
  - rewrite bits_eq by done. f_equal. apply Z.bits_inj'. intros i Hi.
    destruct (Z.lt_ge_cases i (first - last + 1)).
    + rewrite !Z.mod_pow2_bits_low, Z.div_pow2_bits, Hb by lia.
      destruct (Z.ltb_spec (i + last) 64), (Z.leb_spec last (i + last)), (Z.leb_spec (i + last) first);
        try lia. simpl. f_equal. lia.
    + by rewrite !Z.mod_pow2_bits_high by lia.
  - intros i Hi Ho. rewrite Hb by lia. destruct (Z.ltb_spec i 64); [|lia].
    destruct (Z.leb_spec last i), (Z.leb_spec i first); lia || done.
Qed.

Lemma bitfield_roundtrip_witness :
  ∃ r, insertBits 0xffff 11 4 0x1ab = Ok r ∧ bits r 11 4 = Ok 0xab.
Proof.
  destruct (bitfield_roundtrip 0xffff 11 4 0x1ab) as (r & Hr & _ & Hb & _); [unfold is_u64; lia|lia|lia|].
  exists r. split; [exact Hr|exact Hb].
Defined.

(** ** [sext] *)
Lemma bit_eq val k : 0 ≤ k < 64 → bits val k k = Ok (Z.b2z (Z.testbit val k)).
Proof.
  intros Hk. rewrite bits_eq by lia. f_equal. replace (k - k + 1) with 1 by lia.
  by rewrite Z.testbit_spec' by lia.
Qed.
Lemma sext_eq N val :
  0 < N ≤ 64 → 0 ≤ val < 2 ^ N →
  sext N val = Ok (u64 (if val <? 2 ^ (N - 1) then val else val - 2 ^ N)).
Proof.
  intros HN Hv. unfold sext. rewrite bit_eq by lia. cbn [mbind res_bind].
  assert (Hp : 2 ^ N = 2 * 2 ^ (N - 1)) by (rewrite <-Z.pow_succ_r by lia; f_equal; lia).
  assert (HN64 : 2 ^ N ≤ 2 ^ 64) by (apply Z.pow_le_mono_r; lia).
  assert (Hb : Z.testbit val (N - 1) = negb (val <? 2 ^ (N - 1))).
  { rewrite Z.testbit_eqb by lia. assert (0 < 2 ^ (N - 1)) by (apply Z.pow_pos_nonneg; lia).
    destruct (Z.ltb_spec val (2 ^ (N - 1))).
    - by rewrite Z.div_small by lia.
    - replace (val / 2 ^ (N - 1)) with 1; [done|]. apply Z.div_unique with (val - 2 ^ (N - 1)); lia. }
  rewrite Hb. destruct (Z.ltb_spec val (2 ^ (N - 1))); simpl.
  - by rewrite u64_id by (unfold is_u64; lia).
  - rewrite mask_ones by lia. simpl. f_equal. unfold u64.
    assert (Hnot : not64 (2 ^ N - 1) = Z.shiftl (2 ^ (64 - N) - 1) N).
    { unfold not64. rewrite Z.shiftl_mul_pow2, Z.mul_sub_distr_r, <-Z.pow_add_r by lia.
      replace (64 - N + N) with 64 by lia. lia. }
    assert (Hland : Z.land val (not64 (2 ^ N - 1)) = 0).
    { apply Z.bits_inj'. intros i Hi. rewrite Hnot, Z.land_spec, Z.shiftl_spec, Z.bits_0 by done.
      destruct (Z.lt_ge_cases i N); [by rewrite (Z.testbit_neg_r _ (i - N)), andb_false_r by lia|].
      by rewrite (bits_above val N) by lia. }
    rewrite <-Z.lxor_lor, <-Z.add_nocarry_lxor by done. unfold not64.
    apply Z.mod_unique with (-1); [left|]; lia.
Qed.

(** ** Logarithms and searches *)
Lemma log2_line_spec m k s :
  0 < k → m = 2 ^ (2 * k) - 2 ^ k → 0 < s.2 < 2 ^ (2 * k) →
  let s' := log2_line m k s in s'.1 + Z.log2 s'.2 = s.1 + Z.log2 s.2 ∧ 0 < s'.2 < 2 ^ k.
Proof.
  intros Hk Hm Hs. cbv zeta. unfold log2_line. pose proof (log2_step s.2 k m Hk Hm Hs) as H.
  destruct (negb (Z.land s.2 m =? 0)); simpl; [destruct H as [-> ?]|]; (split; [lia|done]).
Qed.

Lemma floorLog2_64_eq x : 0 < x < 2 ^ 64 → floorLog2_64 x = Ok (Z.log2 x).
Proof.
  intros Hx. unfold floorLog2_64, assert_. rewrite (proj2 (Z.ltb_lt 0 x)) by lia. cbn [mbind res_bind].
  destruct (log2_line_spec 0xffffffff00000000 32 (0, x) ltac:(lia) eq_refl Hx) as [E1 H1].
  set (s1 := log2_line _ 32 (0, x)) in *.
  destruct (log2_line_spec 0xffff0000 16 s1 ltac:(lia) eq_refl H1) as [E2 H2].
  set (s2 := log2_line _ 16 s1) in *.
  destruct (log2_line_spec 0xff00 8 s2 ltac:(lia) eq_refl H2) as [E3 H3]. set (s3 := log2_line _ 8 s2) in *.
  destruct (log2_line_spec 0xf0 4 s3 ltac:(lia) eq_refl H3) as [E4 H4]. set (s4 := log2_line _ 4 s3) in *.
  destruct (log2_line_spec 0xc 2 s4 ltac:(lia) eq_refl H4) as [E5 H5]. set (s5 := log2_line _ 2 s4) in *.
  destruct (log2_line_spec 0x2 1 s5 ltac:(lia) eq_refl H5) as [E6 H6]. set (s6 := log2_line _ 1 s5) in *.
  cbv zeta. assert (Z.log2 s6.2 = 0) by (replace s6.2 with 1 by lia; done).
  f_equal. cbn [fst snd] in E1. lia.
Qed.

(** A line of [findMsbSet] halves the search like one of [floorLog2]. *)
Lemma msb_line_spec first k s :
  first = 2 * k - 1 → 0 < k ≤ 32 → 0 < s.2 < 2 ^ (2 * k) →
  ∃ s', msb_line first k s = Ok s' ∧ s'.1 + Z.log2 s'.2 = s.1 + Z.log2 s.2 ∧ 0 < s'.2 < 2 ^ k.
Proof.
  intros -> Hk Hs. pose proof (log2_step s.2 k _ ltac:(lia) eq_refl Hs) as H. unfold msb_line.
  assert (Hp : 2 ^ (2 * k) = 2 ^ k * 2 ^ k) by (rewrite <-Z.pow_add_r by lia; f_equal; lia).
  assert (0 < 2 ^ k) by (apply Z.pow_pos_nonneg; lia).
  assert (0 ≤ s.2 / 2 ^ k < 2 ^ k).
  { split; [apply Z.div_pos; lia|]. apply Z.div_lt_upper_bound; nia. }
  rewrite bits_eq by lia. replace (2 * k - 1 - k + 1) with k by lia. rewrite Z.mod_small by done.
  cbn [mbind res_bind]. rewrite shr64_in, Z.shiftr_div_pow2 by lia.
  destruct (Z.eqb_spec (s.2 / 2 ^ k) 0) as [HZ|HZ]; simpl.
  - exists s. split_and!; try lia; [done|]. apply Z.div_small_iff in HZ; lia.
  - eexists. split; [done|]. simpl. rewrite <-Z.shiftr_div_pow2 in * by lia.
    destruct (negb _); [destruct H as [-> ?]; split; [lia|done]|].
    rewrite Z.shiftr_div_pow2 in HZ by lia. by rewrite Z.div_small in HZ by lia.
Qed.

Lemma findMsbSet_eq x : 0 < x < 2 ^ 64 → findMsbSet x = Ok (Z.log2 x).
Proof.
  intros Hx. unfold findMsbSet. rewrite (proj2 (Z.eqb_neq x 0)) by lia.
  destruct (msb_line_spec 63 32 (0, x) eq_refl ltac:(lia) Hx) as (s1 & -> & E1 & H1). cbn [mbind res_bind].
  destruct (msb_line_spec 31 16 s1 eq_refl ltac:(lia) H1) as (s2 & -> & E2 & H2). cbn [mbind res_bind].
  destruct (msb_line_spec 15 8 s2 eq_refl ltac:(lia) H2) as (s3 & -> & E3 & H3). cbn [mbind res_bind].
  destruct (msb_line_spec 7 4 s3 eq_refl ltac:(lia) H3) as (s4 & -> & E4 & H4). cbn [mbind res_bind].
  destruct (msb_line_spec 3 2 s4 eq_refl ltac:(lia) H4) as (s5 & -> & E5 & H5). cbn [mbind res_bind].
  destruct (msb_line_spec 1 1 s5 eq_refl ltac:(lia) H5) as (s6 & -> & E6 & H6). cbn [mbind res_bind].
  assert (Z.log2 s6.2 = 0) by (replace s6.2 with 1 by lia; done).
  f_equal. cbn [fst snd] in E1. lia.
Qed.

(** A line of [findLsbSet] drops zeros only. *)
Lemma lsb_line_spec k s :
  0 < k ≤ 32 → s.2 mod 2 ^ (2 * k) ≠ 0 →
  ∃ s', lsb_line k s = Ok s' ∧ s.1 ≤ s'.1 ∧ s'.2 * 2 ^ (s'.1 - s.1) = s.2 ∧ s'.2 mod 2 ^ k ≠ 0.
Proof.
  intros Hk Hs. unfold lsb_line. rewrite bits_eq by lia. replace (k - 1 - 0 + 1) with k by lia.
  change (2 ^ 0) with 1. rewrite Z.div_1_r. cbn [mbind res_bind]. rewrite shr64_in by lia.
  assert (Hp : 2 ^ (2 * k) = 2 ^ k * 2 ^ k) by (rewrite <-Z.pow_add_r by lia; f_equal; lia).
  assert (0 < 2 ^ k) by (apply Z.pow_pos_nonneg; lia).
  destruct (Z.eqb_spec (s.2 mod 2 ^ k) 0) as [HZ|HZ].
  - eexists. split; [done|]. cbn [fst snd]. rewrite Z.shiftr_div_pow2 by lia.
    assert (Hdiv : s.2 = s.2 / 2 ^ k * 2 ^ k) by (pose proof (Z.div_mod s.2 (2 ^ k)); lia).
    replace (s.1 + k - s.1) with k by lia. split_and!; [lia|done|]. intros Hm. apply Hs.
    rewrite Hdiv, Hp, Z.mul_mod_distr_r by lia. rewrite Hm. lia.
  - exists s. split; [done|]. rewrite Z.sub_diag, Z.mul_1_r. split_and!; [lia|done|done].
Qed.
Lemma findLsbSet_eq x :
  0 < x < 2 ^ 64 → ∃ l q, findLsbSet x = Ok l ∧ 0 ≤ l ∧ x = (2 * q + 1) * 2 ^ l.
Proof.
  intros Hx. unfold findLsbSet. rewrite (proj2 (Z.eqb_neq x 0)) by lia.
  assert (H0 : (0, x).2 mod 2 ^ (2 * 32) ≠ 0) by (rewrite Z.mod_small by (simpl; lia); simpl; lia).
  destruct (lsb_line_spec 32 (0, x) ltac:(lia) H0) as (s1 & -> & L1 & E1 & H1). cbn [mbind res_bind].
  destruct (lsb_line_spec 16 s1 ltac:(lia) H1) as (s2 & -> & L2 & E2 & H2). cbn [mbind res_bind].
  destruct (lsb_line_spec 8 s2 ltac:(lia) H2) as (s3 & -> & L3 & E3 & H3). cbn [mbind res_bind].
  destruct (lsb_line_spec 4 s3 ltac:(lia) H3) as (s4 & -> & L4 & E4 & H4). cbn [mbind res_bind].
  destruct (lsb_line_spec 2 s4 ltac:(lia) H4) as (s5 & -> & L5 & E5 & H5). cbn [mbind res_bind].
  destruct (lsb_line_spec 1 s5 ltac:(lia) H5) as (s6 & -> & L6 & E6 & H6). cbn [mbind res_bind].
  cbn [fst snd] in *. exists s6.1, (s6.2 / 2). split_and!; [done|lia|].
  change (2 ^ 1) with 2 in H6. pose proof (Z.mod_pos_bound s6.2 2 eq_refl).
  replace (2 * (s6.2 / 2) + 1) with s6.2 by (pose proof (Z.div_mod s6.2 2); lia).
  rewrite <-E1, <-E2, <-E3, <-E4, <-E5, <-E6, <-!Z.mul_assoc, <-!Z.pow_add_r by lia. do 2 f_equal. lia.
Qed.

(** C40: the searches for the highest and the lowest set bit return, for every 64-bit
    value other than 0, positions below 64; the value lies between the power of two of
    the highest and the next one, and is an odd multiple of the power of two of the
    lowest.  [floorLog2] agrees with the search for the highest. *)
Theorem bit_search_bounds x :
  0 < x < 2 ^ 64 →
  ∃ m l q, findMsbSet x = Ok m ∧ floorLog2_64 x = Ok m ∧ findLsbSet x = Ok l ∧ 0 ≤ l ≤ m ∧ m < 64 ∧
    2 ^ m ≤ x < 2 ^ (m + 1) ∧ x = (2 * q + 1) * 2 ^ l.
Proof.
  intros Hx. destruct (findLsbSet_eq x Hx) as (l & q & Hl & H0 & Hq).
  pose proof (Z.log2_spec x ltac:(lia)) as Hs.
  exists (Z.log2 x), l, q. split_and!; try done.
  - by apply findMsbSet_eq.
  - by apply floorLog2_64_eq.
  - apply Z.log2_le_pow2; [lia|]. assert (0 < 2 ^ l) by (apply Z.pow_pos_nonneg; lia). assert (0 < 2 * q + 1) by nia. nia.
  - apply Z.log2_lt_pow2; lia.
  - lia.
  - replace (Z.log2 x + 1) with (Z.succ (Z.log2 x)) by lia. lia.
Qed.

Lemma bit_search_bounds_witness :
  ∃ m l q, findMsbSet 0x28 = Ok m ∧ floorLog2_64 0x28 = Ok m ∧ findLsbSet 0x28 = Ok l ∧ 0 ≤ l ≤ m ∧ m < 64 ∧
    2 ^ m ≤ 0x28 < 2 ^ (m + 1) ∧ 0x28 = (2 * q + 1) * 2 ^ l.
Proof. apply (bit_search_bounds 0x28). lia. Defined.

(** ** [alignToPowerOfTwo] *)

(** Bit [i] of [x] tells whether [v] has a bit set among the [k] from [i] on. *)
Definition window (v x k : Z) : Prop :=
  ∀ i, 0 ≤ i → Z.testbit x i = true ↔ ∃ j, i ≤ j < i + k ∧ Z.testbit v j = true.

Lemma window_smear v x k : 0 < k → window v x k → window v (smear x k) (2 * k).
Proof.
  intros Hk H i Hi. unfold smear. rewrite Z.lor_spec, Z.shiftr_spec by done.
  rewrite orb_true_iff, (H i), (H (i + k)) by lia. split.
  - intros [(j & ? & ?)|(j & ? & ?)]; exists j; (split; [lia|done]).
  - intros (j & ? & ?). destruct (Z.lt_ge_cases j (i + k)); [left|right]; exists j; (split; [lia|done]).
Qed.

Lemma window_full v x : 0 < v < 2 ^ 64 → window v x 64 → 0 ≤ x → x = 2 ^ (Z.log2 v + 1) - 1.
Proof.
  intros Hv H Hx. pose proof (Z.log2_nonneg v). assert (Z.log2 v < 64) by (apply Z.log2_lt_pow2; lia).
  apply Z.bits_inj'. intros i Hi. rewrite ones_testbit by lia. apply eq_bool_prop_intro.
  rewrite !Is_true_true, andb_true_iff, Z.leb_le, Z.ltb_lt, (H i Hi). split.
  - intros (j & Hj & Hb). destruct (Z.le_gt_cases j (Z.log2 v)); [lia|].
    rewrite Z.bits_above_log2 in Hb by lia. done.
  - intros [_ ?]. exists (Z.log2 v). split; [lia|]. apply Z.bit_log2. lia.
Qed.

Lemma alignToPowerOfTwo_eq val :
  is_u64 val →
  alignToPowerOfTwo val = if (val =? 0) || (2 ^ 63 <? val) then 0 else 2 ^ Z.log2_up val.
Proof.
  intros Hval. unfold is_u64 in Hval. destruct (decide (val = 1)) as [->|N1]; [done|].
  unfold alignToPowerOfTwo. set (v := u64 (val - 1)).
  assert (Hv : 0 < v < 2 ^ 64 ∧ (val ≠ 0 → v = val - 1) ∧ (val = 0 → v = 2 ^ 64 - 1)).
  { unfold v. destruct (decide (val = 0)) as [->|]; [done|]. rewrite u64_id by (unfold is_u64; lia). lia. }
  destruct Hv as (Hv & Hv1 & Hv0).
  assert (Hw : window v v 1).
  { intros i Hi. split; [intros; exists i; split; [lia|done]|]. intros (j & ? & Hb). by replace i with j by lia. }
  do 6 (apply window_smear in Hw; [|lia]). cbv [Z.mul Pos.mul] in Hw.
  apply window_full in Hw; [|done|repeat (apply Z.lor_nonneg; split; [|apply Z.shiftr_nonneg]); lia].
  rewrite Hw. replace (2 ^ (Z.log2 v + 1) - 1 + 1) with (2 ^ (Z.log2 v + 1)) by lia.
  destruct (Z.eqb_spec val 0) as [->|N0]; simpl; [vm_compute; reflexivity|].
  assert (Z.log2_up val = Z.log2 v + 1) as Hup.
  { rewrite Hv1, Z.log2_up_eqn by lia. by rewrite Z.sub_1_r. }
  rewrite <-Hup. destruct (Z.ltb_spec (2 ^ 63) val).
  - assert (Z.log2 v = 63) as Hl by (apply Z.log2_unique; lia). by rewrite Hup, Hl.
  - assert (Z.log2 v < 63) by (apply Z.log2_lt_pow2; lia). pose proof (Z.log2_nonneg v).
    apply u64_id. split; [apply Z.pow_nonneg; lia|]. apply Z.pow_lt_mono_r; lia.
Qed.
(** ** [popCount] *)

(** The reference: the sum of the low [k] bits. *)
Fixpoint ones (k : nat) (v : Z) : Z :=
  match k with O => 0 | S k => v mod 2 + ones k (v / 2) end.

(** Numbers by their bytes, the lowest first, and each step on one byte. *)
Fixpoint of_bytes (l : list Z) : Z := match l with [] => 0 | b :: l => b + 256 * of_bytes l end.

Definition is_byte (b : Z) : Prop := 0 ≤ b < 256.
Definition step1 (b : Z) : Z := b - Z.land (Z.shiftr b 1) 0x55.
Definition step2 (b : Z) : Z := Z.land b 0x33 + Z.land (Z.shiftr b 2) 0x33.
Definition step3 (b : Z) : Z := Z.land (b + Z.shiftr b 4) 0x0f.
Definition nibbles_ok (b : Z) : Prop := is_byte b ∧ b mod 16 ≤ 4 ∧ b / 16 ≤ 4.

Lemma byte_lor b w : is_byte b → b + 256 * w = Z.lor b (Z.shiftl w 8).
Proof.
  intros Hb. assert (Z.land b (Z.shiftl w 8) = 0).
  { apply Z.bits_inj'. intros i Hi. rewrite Z.land_spec, Z.shiftl_spec, Z.bits_0 by done.
    destruct (Z.lt_ge_cases i 8); [by rewrite (Z.testbit_neg_r _ (i - 8)), andb_false_r by lia|].
    by rewrite (bits_above b 8). }
  rewrite <-Z.lxor_lor, <-Z.add_nocarry_lxor by done. rewrite Z.shiftl_mul_pow2 by lia. lia.
Qed.

Lemma land_byte x y c m :
  is_byte x → is_byte c → Z.land (x + 256 * y) (c + 256 * m) = Z.land x c + 256 * Z.land y m.
Proof.
  intros Hx Hc. assert (is_byte (Z.land x c)).
  { apply (testbits_bound 8); [lia|apply Z.land_nonneg; left; apply Hx|].
    intros i Hi. by rewrite Z.land_spec, (bits_above x 8) by done. }
  rewrite !byte_lor by done. apply Z.bits_inj'. intros i Hi.
  rewrite !Z.land_spec, !Z.lor_spec, !Z.land_spec, !Z.shiftl_spec by done.
  destruct (Z.lt_ge_cases i 8).
  - rewrite !(Z.testbit_neg_r _ (i - 8)) by lia. by rewrite !orb_false_r.
  - rewrite (bits_above x 8), (bits_above c 8) by done. simpl. by rewrite Z.land_spec.
Qed.

Lemma shiftr_byte b v k :
  0 ≤ k → Z.shiftr (b + 256 * v) k = Z.shiftr (b + 256 * (v mod 2 ^ k)) k + 256 * Z.shiftr v k.
Proof.
  intros Hk. rewrite !Z.shiftr_div_pow2 by done. assert (0 < 2 ^ k) by (apply Z.pow_pos_nonneg; lia).
  replace (b + 256 * v) with (b + 256 * (v mod 2 ^ k) + 256 * (v / 2 ^ k) * 2 ^ k)
    by (pose proof (Z.div_mod v (2 ^ k)); lia).
  by rewrite Z.div_add by lia.
Qed.

Lemma shiftr_is_byte b r k : is_byte b → 0 ≤ k → 0 ≤ r < 2 ^ k → is_byte (Z.shiftr (b + 256 * r) k).
Proof.
  intros Hb Hk Hr. unfold is_byte in *. rewrite Z.shiftr_div_pow2 by done.
  split; [apply Z.div_pos; lia|]. apply Z.div_lt_upper_bound; nia.
Qed.

(** Facts about single bytes, by trying all of them. *)
Definition all_below (n : nat) (P : Z → bool) : bool := forallb (λ i, P (Z.of_nat i)) (seq 0 n).

Lemma all_below_spec n P z : all_below n P = true → 0 ≤ z < Z.of_nat n → P z = true.
Proof.
  unfold all_below. rewrite forallb_forall. intros H Hz.
  specialize (H (Z.to_nat z)). rewrite Z2Nat.id in H by lia. apply H. apply in_seq. lia.
Qed.

Lemma byte_mask1 b r : is_byte b → 0 ≤ r < 2 → Z.land (Z.shiftr (b + 256 * r) 1) 0x55 = Z.land (Z.shiftr b 1) 0x55.
Proof.
  intros Hb Hr. apply Z.eqb_eq.
  assert (H : all_below 256 (λ b, all_below 2 (λ r,
    Z.land (Z.shiftr (b + 256 * r) 1) 0x55 =? Z.land (Z.shiftr b 1) 0x55)) = true) by (vm_compute; reflexivity).
  apply (all_below_spec _ _ b) in H; [|done]. by apply (all_below_spec _ _ r) in H.
Qed.

Lemma byte_mask2 b r : is_byte b → 0 ≤ r < 4 → Z.land (Z.shiftr (b + 256 * r) 2) 0x33 = Z.land (Z.shiftr b 2) 0x33.
Proof.
  intros Hb Hr. apply Z.eqb_eq.
  assert (H : all_below 256 (λ b, all_below 4 (λ r,
    Z.land (Z.shiftr (b + 256 * r) 2) 0x33 =? Z.land (Z.shiftr b 2) 0x33)) = true) by (vm_compute; reflexivity).
  apply (all_below_spec _ _ b) in H; [|done]. by apply (all_below_spec _ _ r) in H.
Qed.

Lemma byte_mask3 b r :
  nibbles_ok b → 0 ≤ r < 5 → is_byte (b + Z.shiftr (b + 256 * r) 4) ∧
    Z.land (b + Z.shiftr (b + 256 * r) 4) 0x0f = step3 b.
Proof.
  intros (Hb & Hlo & Hhi) Hr.
  assert (H : all_below 256 (λ b, all_below 5 (λ r,
    if (b mod 16 <=? 4) && (b / 16 <=? 4) then
      (b + Z.shiftr (b + 256 * r) 4 <? 256) && (0 <=? b + Z.shiftr (b + 256 * r) 4) &&
      (Z.land (b + Z.shiftr (b + 256 * r) 4) 0x0f =? step3 b)
    else true)) = true) by (vm_compute; reflexivity).
  apply (all_below_spec _ _ b) in H; [|done]. apply (all_below_spec _ _ r) in H; [|done].
  rewrite (proj2 (Z.leb_le (b mod 16) 4)), (proj2 (Z.leb_le (b / 16) 4)) in H by done.
  apply andb_true_iff in H as [[H1 H2]%andb_true_iff H3]. unfold is_byte.
  apply Z.ltb_lt in H1. apply Z.leb_le in H2. apply Z.eqb_eq in H3. lia.
Qed.

Definition byte_ok (b : Z) : bool :=
  (0 <=? step1 b) && (step1 b <? 256) && (0 <=? step2 (step1 b)) && (step2 (step1 b) <? 256) &&
  (step2 (step1 b) mod 16 <=? 4) && (step2 (step1 b) / 16 <=? 4) &&
  (step3 (step2 (step1 b)) =? ones 8 b).

Lemma byte_steps b :
  is_byte b → is_byte (step1 b) ∧ nibbles_ok (step2 (step1 b)) ∧ step3 (step2 (step1 b)) = ones 8 b ∧
    0 ≤ ones 8 b ≤ 8.
Proof.
  intros Hb. assert (H : all_below 256 (λ b, byte_ok b && (0 <=? ones 8 b) && (ones 8 b <=? 8)) = true)
    by (vm_compute; reflexivity).
  apply (all_below_spec _ _ b) in H; [|done]. unfold byte_ok in H.
  rewrite !andb_true_iff, !Z.leb_le, !Z.ltb_lt, Z.eqb_eq in H. unfold nibbles_ok, is_byte. lia.
Qed.
Definition mask_bytes (c : Z) (l : list Z) : Z := of_bytes ((λ _, c) <$> l).

Lemma of_bytes_range l : Forall is_byte l → 0 ≤ of_bytes l < 256 ^ Z.of_nat (length l).
Proof.
  induction 1 as [|b l Hb Hl IH]; [done|]. unfold is_byte in Hb. cbn [of_bytes length].
  rewrite Nat2Z.inj_succ, Z.pow_succ_r by lia. lia.
Qed.

Lemma step1_bytes l :
  Forall is_byte l →
  of_bytes l - Z.land (Z.shiftr (of_bytes l) 1) (mask_bytes 0x55 l) = of_bytes (step1 <$> l).
Proof.
  induction 1 as [|b l Hb Hl IH]; [done|]. unfold mask_bytes in *. cbn [fmap list_fmap of_bytes].
  pose proof (Z.mod_pos_bound (of_bytes l) 2 eq_refl).
  rewrite shiftr_byte, land_byte by (done || by apply shiftr_is_byte). change (2 ^ 1) with 2.
  rewrite byte_mask1 by done. unfold step1 at 1. fold (list_fmap Z Z). lia.
Qed.

Lemma step2_bytes l :
  Forall is_byte l →
  Z.land (of_bytes l) (mask_bytes 0x33 l) + Z.land (Z.shiftr (of_bytes l) 2) (mask_bytes 0x33 l) =
    of_bytes (step2 <$> l).
Proof.
  induction 1 as [|b l Hb Hl IH]; [done|]. unfold mask_bytes in *. cbn [fmap list_fmap of_bytes].
  pose proof (Z.mod_pos_bound (of_bytes l) 4 eq_refl).
  rewrite shiftr_byte, !land_byte by (done || by apply shiftr_is_byte). change (2 ^ 2) with 4.
  rewrite byte_mask2 by done. unfold step2 at 1. lia.
Qed.

Lemma nibble_head l : Forall nibbles_ok l → 0 ≤ of_bytes l mod 16 < 5.
Proof.
  destruct 1 as [|c l (_ & Hc & _) _]; [done|]. cbn [of_bytes].
  replace (c + 256 * of_bytes l) with (c + 16 * of_bytes l * 16) by lia. rewrite Z.mod_add by done.
  pose proof (Z.mod_pos_bound c 16 eq_refl). lia.
Qed.

Lemma step3_bytes l :
  Forall nibbles_ok l →
  Z.land (of_bytes l + Z.shiftr (of_bytes l) 4) (mask_bytes 0x0f l) = of_bytes (step3 <$> l).
Proof.
  induction 1 as [|b l Hb Hl IH]; [done|]. unfold mask_bytes in *. cbn [fmap list_fmap of_bytes].
  destruct (byte_mask3 b (of_bytes l mod 16) Hb (nibble_head l Hl)) as [Hbyte Heq].
  rewrite shiftr_byte by done. change (2 ^ 4) with 16.
  replace (b + 256 * of_bytes l + (Z.shiftr (b + 256 * (of_bytes l mod 16)) 4 + 256 * Z.shiftr (of_bytes l) 4))
    with (b + Z.shiftr (b + 256 * (of_bytes l mod 16)) 4 + 256 * (of_bytes l + Z.shiftr (of_bytes l) 4)) by lia.
  rewrite land_byte by done. rewrite Heq. lia.
Qed.

Lemma ones_low k b v : ones k (b + 2 ^ Z.of_nat k * v) = ones k b.
Proof.
  revert b v. induction k as [|k IH]; intros b v; [done|]. cbn [ones].
  rewrite Nat2Z.inj_succ, Z.pow_succ_r by lia.
  replace (b + 2 * 2 ^ Z.of_nat k * v) with (b + 2 ^ Z.of_nat k * v * 2) by lia.
  rewrite Z.mod_add, Z.div_add by done. by rewrite IH.
Qed.

Lemma ones_add j k v : ones (j + k) v = ones j v + ones k (v / 2 ^ Z.of_nat j).
Proof.
  revert v. induction j as [|j IH]; intros v; [by rewrite Z.div_1_r|]. cbn [ones Nat.add].
  rewrite IH, Z.div_div by (done || apply Z.pow_pos_nonneg; lia).
  rewrite Nat2Z.inj_succ, Z.pow_succ_r by lia. lia.
Qed.

Definition sum_list (l : list Z) : Z := foldr Z.add 0 l.

Lemma ones_bytes l :
  Forall is_byte l → ones (8 * length l) (of_bytes l) = sum_list (ones 8 <$> l).
Proof.
  induction 1 as [|b l Hb Hl IH]; [done|]. cbn [length of_bytes fmap list_fmap sum_list foldr].
  replace (8 * S (length l))%nat with (8 + 8 * length l)%nat by lia. rewrite ones_add.
  change (2 ^ Z.of_nat 8) with 256. unfold is_byte in Hb.
  replace ((b + 256 * of_bytes l) / 256) with (of_bytes l).
  - rewrite IH. change 256 with (2 ^ Z.of_nat 8). by rewrite ones_low.
  - apply Z.div_unique with b; lia.
Qed.

Fixpoint to_bytes (k : nat) (v : Z) : list Z :=
  match k with O => [] | S k => v mod 256 :: to_bytes k (v / 256) end.

Lemma to_bytes_spec k v :
  0 ≤ v < 256 ^ Z.of_nat k →
  of_bytes (to_bytes k v) = v ∧ Forall is_byte (to_bytes k v) ∧ length (to_bytes k v) = k.
Proof.
  revert v. induction k as [|k IH]; intros v Hv; [simpl in *; split_and!; [lia|done|done]|].
  rewrite Nat2Z.inj_succ, Z.pow_succ_r in Hv by lia. cbn [to_bytes of_bytes length].
  destruct (IH (v / 256)) as (E & HF & Hl).
  { split; [apply Z.div_pos; lia|]. apply Z.div_lt_upper_bound; lia. }
  pose proof (Z.div_mod v 256). pose proof (Z.mod_pos_bound v 256 eq_refl).
  rewrite E. split_and!; [lia|constructor; [done|done]|by rewrite Hl].
Qed.

(** The multiplication adds eight small bytes up in the highest one. *)
Lemma horizontal_sum l :
  length l = 8%nat → Forall (λ c, 0 ≤ c ≤ 8) l →
  Z.shiftr (u64 (of_bytes l * 0x0101010101010101)) 56 = sum_list l.
Proof.
  intros Hl Hc. do 8 (destruct l as [|? l]; [discriminate Hl|]). destruct l; [|discriminate Hl].
  repeat match goal with H : Forall _ (_ :: _) |- _ => apply Forall_cons in H as [? ?] end.
  cbn [of_bytes sum_list foldr]. rewrite Z.shiftr_div_pow2 by lia. unfold u64.
  match goal with |- ?x mod _ / _ = ?r => set (X := x); set (R := r) end.
  set (q := 1 * (z0 + z1 + z2 + z3 + z4 + z5 + z6) + 256 * (z1 + z2 + z3 + z4 + z5 + z6) + 65536 * (z2 + z3
      + z4 + z5 + z6) + 16777216 * (z3 + z4 + z5 + z6) + 4294967296 * (z4 + z5 + z6) + 1099511627776
      * (z5 + z6) + 281474976710656 * (z6)).
  set (lo := 1 * (z) + 256 * (z + z0) + 65536 * (z + z0 + z1) + 16777216 * (z + z0 + z1 + z2) + 4294967296 *
      (z + z0 + z1 + z2 + z3) + 1099511627776 * (z + z0 + z1 + z2 + z3 + z4) + 281474976710656 * (z +
      z0 + z1 + z2 + z3 + z4 + z5)).
  assert (HX : X = lo + R * 2 ^ 56 + q * 2 ^ 64) by (subst X R q lo; lia).
  assert (Hlo : 0 ≤ lo < 2 ^ 56) by (subst lo; lia). assert (HR : 0 ≤ R < 256) by (subst R; lia).
  clearbody X R q lo. subst X. rewrite Z.mod_add, Z.mod_small, Z.div_add, Z.div_small by lia. lia.
Qed.
Lemma nibbles_half l : Forall nibbles_ok l → 2 * of_bytes l < 256 ^ Z.of_nat (length l).
Proof.
  induction 1 as [|b l (Hb & Hlo & Hhi) Hl IH]; [done|]. cbn [of_bytes length].
  rewrite Nat2Z.inj_succ, Z.pow_succ_r by lia. Z.div_mod_to_equations; lia.
Qed.

Lemma mask_bytes_8 c l : length l = 8%nat → mask_bytes c l = of_bytes (replicate 8 c).
Proof. intros Hl. do 8 (destruct l as [|? l]; [discriminate Hl|]). by destruct l. Qed.

(** The parallel bit count of [popCount] is the sum of the 64 bits. *)
Theorem popCount_counts val : is_u64 val → popCount val = ones 64 val.
Proof.
  intros Hv. destruct (to_bytes_spec 8 val Hv) as (E & HF & Hlen). set (l := to_bytes 8 val) in *.
  assert (HF1 : Forall is_byte (step1 <$> l)).
  { apply Forall_fmap. eapply Forall_impl; [exact HF|]. intros b Hb. apply (byte_steps b Hb). }
  assert (HF2 : Forall nibbles_ok (step2 <$> (step1 <$> l))).
  { apply Forall_fmap, Forall_fmap. eapply Forall_impl; [exact HF|]. intros b Hb. apply (byte_steps b Hb). }
  assert (HF2' : Forall is_byte (step2 <$> (step1 <$> l))) by (eapply Forall_impl; [exact HF2|by intros b [? _]]).
  assert (H3 : step3 <$> (step2 <$> (step1 <$> l)) = ones 8 <$> l).
  { clear -HF. induction HF as [|b l Hb Hl IH]; [done|]. rewrite !fmap_cons, IH. f_equal. apply (byte_steps b Hb). }
  pose proof (of_bytes_range _ HF1) as R1. pose proof (of_bytes_range _ HF2') as R2.
  rewrite length_fmap, Hlen in R1. rewrite !length_fmap, Hlen in R2. change (256 ^ Z.of_nat 8) with (2 ^ 64) in R1, R2.
  assert (M : ∀ c l', length l' = 8%nat → of_bytes (replicate 8 c) = mask_bytes c l')
    by (intros; by rewrite mask_bytes_8).
  unfold popCount. cbv zeta. rewrite <-E.
  change 0x5555555555555555 with (of_bytes (replicate 8 0x55)). rewrite (M _ l), step1_bytes by done.
  rewrite (u64_id _ R1). change 0x3333333333333333 with (of_bytes (replicate 8 0x33)).
  rewrite (M _ (step1 <$> l)), step2_bytes by (done || by rewrite length_fmap). rewrite (u64_id _ R2).
  change 0x0f0f0f0f0f0f0f0f with (of_bytes (replicate 8 0x0f)).
  rewrite (M _ (step2 <$> (step1 <$> l))) by (by rewrite !length_fmap).
  pose proof (nibbles_half _ HF2) as Hh. rewrite !length_fmap, Hlen in Hh.
  change (256 ^ Z.of_nat 8) with (2 ^ 64) in Hh.
  assert (R3 : is_u64 (of_bytes (step2 <$> (step1 <$> l)) + Z.shiftr (of_bytes (step2 <$> (step1 <$> l))) 4)).
  { rewrite Z.shiftr_div_pow2 by lia. unfold is_u64. Z.div_mod_to_equations; lia. }
  rewrite (u64_id _ R3), step3_bytes by done. rewrite H3, horizontal_sum.
  - rewrite <-ones_bytes by done. by rewrite Hlen.
  - by rewrite length_fmap.
  - apply Forall_fmap. eapply Forall_impl; [exact HF|]. intros b Hb. apply (byte_steps b Hb).
Qed.
Lemma popCount_counts_witness : popCount 0xf00000000000000d = 7 ∧ ones 64 0xf00000000000000d = 7.
Proof.
  split; [|vm_compute; reflexivity].
  rewrite (popCount_counts 0xf00000000000000d); [vm_compute; reflexivity|unfold is_u64; lia].
Defined.

(** ** Rounding *)
Lemma land_not_mask x k :
  is_u64 x → 0 ≤ k < 64 → Z.land x (not64 (2 ^ k - 1)) = x - x mod 2 ^ k.
Proof.
  intros Hx Hk. assert (0 < 2 ^ k) by (apply Z.pow_pos_nonneg; lia).
  assert (2 ^ k < 2 ^ 64) by (apply Z.pow_lt_mono_r; lia).
  assert (Hd : x - x mod 2 ^ k = Z.shiftl (Z.shiftr x k) k).
  { rewrite Z.shiftl_mul_pow2, Z.shiftr_div_pow2 by lia. pose proof (Z.div_mod x (2 ^ k)). lia. }
  rewrite Hd. apply Z.bits_inj'. intros i Hi.
  rewrite Z.land_spec, not64_testbit, ones_testbit, Z.shiftl_spec by (unfold is_u64; lia).
  destruct (Z.leb_spec 0 i); [|lia]. simpl. destruct (Z.ltb_spec i k).
  - by rewrite (Z.testbit_neg_r _ (i - k)), !andb_false_r by lia.
  - rewrite Z.shiftr_spec by lia. replace (i - k + k) with i by lia.
    destruct (Z.ltb_spec i 64); simpl; [by rewrite andb_true_r|].
    by rewrite (bits_above x 64) by done.
Qed.

Lemma ceilLog2_64_eq n : 0 < n < 2 ^ 64 → ceilLog2_64 n = Ok (Z.log2_up n).
Proof.
  intros Hn. unfold ceilLog2_64. destruct (Z.eqb_spec n 1) as [->|]; [done|].
  rewrite u64_id by (unfold is_u64; lia). rewrite floorLog2_64_eq by lia. simpl.
  by rewrite Z.log2_up_eqn, <-Z.sub_1_r by lia.
Qed.

Lemma pow2_u64 k : 0 ≤ k < 64 → u64 (Z.shiftl 1 k) = 2 ^ k.
Proof.
  intros Hk. rewrite Z.shiftl_1_l. apply u64_id. split; [apply Z.pow_nonneg; lia|].
  apply Z.pow_lt_mono_r; lia.
Qed.

(** The two ways to round up to a power of two agree: for every value from 1 to
    [2^63] [alignToPowerOfTwo], which smears the highest bit downwards, and [ceilPow2],
    which takes a logarithm, give the least power of two that is not below it;
    [floorPow2] gives the greatest that is not above it.  Beyond [2^63], and for 0,
    [alignToPowerOfTwo] gives 0. *)
Theorem power_of_two_rounding val :
  is_u64 val →
  (0 < val ≤ 2 ^ 63 →
     ceilPow2 val = Ok (alignToPowerOfTwo val) ∧
     is_pow2 (alignToPowerOfTwo val) ∧ val ≤ alignToPowerOfTwo val < 2 * val) ∧
  (0 < val → ∃ p, floorPow2 val = Ok p ∧ is_pow2 p ∧ p ≤ val < 2 * p) ∧
  (val = 0 ∨ 2 ^ 63 < val → alignToPowerOfTwo val = 0).
Proof.
  intros Hv. rewrite alignToPowerOfTwo_eq by done. unfold is_u64 in Hv. split_and!.
  - intros Hb. destruct (Z.eqb_spec val 0); [lia|]. destruct (Z.ltb_spec (2 ^ 63) val); [lia|]. simpl.
    pose proof (Z.log2_up_nonneg val) as H0.
    assert (Hup : Z.log2_up val ≤ 63).
    { change 63 with (Z.log2_up (2 ^ 63)). apply Z.log2_up_le_mono. lia. }
    split; [|split].
    + unfold ceilPow2. rewrite ceilLog2_64_eq by lia. simpl. by rewrite shl64_in, pow2_u64 by lia.
    + by exists (Z.log2_up val).
    + destruct (decide (val = 1)) as [->|]; [done|]. pose proof (Z.log2_up_spec val ltac:(lia)) as Hs.
      rewrite <-Z.sub_1_r in Hs. assert (0 < Z.log2_up val) by (apply Z.log2_up_pos; lia).
      replace (2 ^ Z.log2_up val) with (2 * 2 ^ (Z.log2_up val - 1)) in *
        by (rewrite <-Z.pow_succ_r by lia; f_equal; lia). lia.
  - intros Hp. exists (2 ^ Z.log2 val). pose proof (Z.log2_spec val Hp) as Hs. pose proof (Z.log2_nonneg val).
    assert (Z.log2 val < 64) by (apply Z.log2_lt_pow2; lia).
    unfold floorPow2. rewrite floorLog2_64_eq by lia. simpl. rewrite shl64_in, pow2_u64 by lia.
    split_and!; [done|by exists (Z.log2 val)|lia|]. rewrite Z.pow_succ_r in Hs by lia. lia.
  - intros [->|Hb]; [done|]. destruct (Z.ltb_spec (2 ^ 63) val); [|lia]. by rewrite orb_true_r.
Qed.

Lemma power_of_two_rounding_witness :
  ceilPow2 100 = Ok (alignToPowerOfTwo 100) ∧ 100 ≤ alignToPowerOfTwo 100 < 200.
Proof.
  destruct (power_of_two_rounding 100) as ((Hc & _ & Hb) & _ & _); [unfold is_u64; lia|lia|].
  split; [exact Hc|exact Hb].
Defined.

(** [roundDown] and [roundUp] to a power of two: the nearest multiples, as long as the
    sum does not wrap around. *)
Theorem rounding_multiples val k :
  is_u64 val → 0 ≤ k < 64 →
  let align := 2 ^ k in
  roundDown val align = val - val mod align ∧
  (val + align - 1 < 2 ^ 64 →
     (align | roundUp val align) ∧ val ≤ roundUp val align < val + align).
Proof.
  intros Hv Hk align. unfold is_u64 in Hv. assert (0 < align) by (apply Z.pow_pos_nonneg; lia).
  assert (align < 2 ^ 64) by (apply Z.pow_lt_mono_r; lia).
  unfold roundDown, roundUp. rewrite (u64_id (align - 1)) by (unfold is_u64; lia). split.
  - by apply land_not_mask.
  - intros Hb. rewrite (u64_id (val + (align - 1))) by (unfold is_u64; lia).
    pose proof (land_not_mask (val + (align - 1)) k ltac:(unfold is_u64; lia) Hk) as E.
    fold align in E. rewrite E.
    pose proof (Z.mod_pos_bound (val + (align - 1)) align ltac:(lia)).
    split; [|lia]. exists ((val + (align - 1)) / align).
    pose proof (Z.div_mod (val + (align - 1)) align). lia.
Qed.

Lemma rounding_multiples_witness : roundDown 0x1234 0x100 = 0x1200 ∧ (0x100 | roundUp 0x1234 0x100).
Proof.
  destruct (rounding_multiples 0x1234 8) as [Hd Hu]; [unfold is_u64; lia|lia|].
  split; [exact Hd|apply Hu; lia].
Defined.

(** ** [power] *)
Lemma power_loop_value n k r w : 0 ≤ r < 2 ^ 64 → (power_loop n k r w).1 = u64 (r * n ^ Z.of_nat k).
Proof.
  revert r w. induction k as [|k IH]; intros r w Hr; cbn [power_loop].
  - simpl. by rewrite Z.mul_1_r, u64_id.
  - rewrite IH by apply u64_range. unfold u64. rewrite Z.mul_mod_idemp_l by done. f_equal.
    rewrite Nat2Z.inj_succ, Z.pow_succ_r by lia. lia.
Qed.

Lemma power_loop_warns n k r w :
  0 < n → 0 ≤ r → r * n ^ Z.of_nat k < 2 ^ 64 → (power_loop n k r w).2 = w.
Proof.
  intros Hn. revert r w. induction k as [|k IH]; intros r w Hr Hb; [done|]. cbn [power_loop].
  rewrite Nat2Z.inj_succ, Z.pow_succ_r in Hb by lia.
  assert (0 < n ^ Z.of_nat k) by (apply Z.pow_pos_nonneg; lia).
  assert (r * n < 2 ^ 64) by nia. rewrite u64_id by (unfold is_u64; nia).
  destruct (Z.ltb_spec (r * n) r); [nia|]. apply IH; nia.
Qed.

(** [power] computes the power modulo [2^64] and warns of no overflow when there is
    none; its comparison with the previous product does not notice every overflow. *)
Theorem power_result n e :
  0 < n < 2 ^ 32 → 0 ≤ e →
  (power n e).1 = u64 (n ^ e) ∧ (n ^ e < 2 ^ 64 → (power n e).2 = 0%nat) ∧
  ((power 3 41).2 = 0%nat ∧ 2 ^ 64 < 3 ^ 41).
Proof.
  intros Hn He. split_and!; [| |vm_compute; reflexivity|vm_compute; reflexivity].
  - unfold power. destruct (Z.eqb_spec e 0) as [->|]; [done|]. rewrite power_loop_value by lia.
    rewrite Z2Nat.id, <-Z.pow_succ_r by lia. do 2 f_equal. lia.
  - intros Hb. unfold power. destruct (Z.eqb_spec e 0) as [->|]; [done|].
    apply power_loop_warns; [lia..|]. rewrite Z2Nat.id, <-Z.pow_succ_r by lia.
    replace (Z.succ (e - 1)) with e by lia. done.
Qed.

Lemma power_result_witness : (power 10 3).1 = 1000 ∧ (power 10 3).2 = 0%nat.
Proof.
  destruct (power_result 10 3) as (H1 & H2 & _); [lia|lia|]. split; [exact H1|apply H2; lia].
Defined.

(** A digit has a value below its base, and other characters have 0. *)
Lemma hex2Int_range c : 0 ≤ hex2Int c < 16 ∧ (isHex c = false → hex2Int c = 0) ∧
  (isDec c = true → hex2Int c < 10) ∧ (isOct c = true → hex2Int c < 8).
Proof.
  unfold hex2Int, isHex, isDec, isOct.
  destruct (Z.leb_spec 48 c), (Z.leb_spec c 57), (Z.leb_spec 65 c), (Z.leb_spec c 70), (Z.leb_spec 97 c),
    (Z.leb_spec c 102), (Z.leb_spec c 55); simpl; split_and!; (lia || done || intros; lia || done).
Qed.

(** [mbits] keeps exactly the bits of a field. *)
Lemma mbits_testbit val first last r i :
  is_u64 val → 0 ≤ last ≤ first → first < 64 → mbits val first last = Ok r → 0 ≤ i →
  Z.testbit r i = (last <=? i) && (i <=? first) && Z.testbit val i.
Proof.
  intros Hv Hl Hf. unfold mbits. rewrite !mask_ones by lia. intros [= <-] Hi.
  assert (0 < 2 ^ last ≤ 2 ^ 64) by (split; [apply Z.pow_pos_nonneg; lia|apply Z.pow_le_mono_r; lia]).
  rewrite !Z.land_spec, not64_testbit, !ones_testbit by (unfold is_u64; lia).
  destruct (Z.leb_spec 0 i), (Z.ltb_spec i (first + 1)), (Z.leb_spec i first), (Z.ltb_spec i last),
    (Z.leb_spec last i), (Z.ltb_spec i 64); try lia; simpl; by rewrite ?andb_true_r, ?andb_false_r.
Qed.

(** [isPow2] accepts 0 and the powers of two. *)
Lemma isPow2_iff v : is_u64 v → isPow2 v = true ↔ v = 0 ∨ is_pow2 v.
Proof.
  intros Hv. unfold isPow2. rewrite Z.eqb_eq. destruct (decide (v = 0)) as [->|Hn]; [naive_solver|].
  unfold is_u64 in Hv. rewrite u64_id by (unfold is_u64; lia). rewrite land_pred_zero by lia. split.
  - intros E. right. exists (Z.log2 v). split; [apply Z.log2_nonneg|done].
  - intros [?|(k & Hk & ->)]; [done|]. by rewrite Z.log2_pow2.
Qed.
End BitField.
