(* ===== verification/SatCounter.v ===== *)
(** * Saturating counters ([cpu/pred/sat_counter.hh])

    The [SatCounter] class at its width: three [uint8_t] fields.  The counter
    tables that every direction predictor builds with [resize] followed by a
    [setBits] loop are here too, with the invariant they keep. *)

From S2P Require Import Prelude.

Module SatCounter.

Record t := mk { initialVal : Z; maxVal : Z; counter : Z }.

#[global] Instance sat_eq_dec : EqDecision t.
Proof. solve_decision. Defined.

(** [SatCounter()] leaves [maxVal] indeterminate: [indet] is its value. *)
Definition default (indet : Z) : t := mk 0 indet 0.

Definition of_bits (bits : Z) : res t :=
  m ← shl_int1 bits; Ok (mk 0 (u8 (m - 1)) 0).

Definition of_bits_init (bits initial_val : Z) : res t :=
  m ← shl_int1 bits;
  let maxVal := u8 (m - 1) in
  _ ← guard_ (negb (maxVal <? initial_val)) (Fatal "BP: Initial counter value exceeds max size.");
  Ok (mk initial_val maxVal initial_val).

Definition setBits (bits : Z) (c : t) : res t :=
  m ← shl_int1 bits; Ok (mk (initialVal c) (u8 (m - 1)) (counter c)).

Definition reset (c : t) : t := mk (initialVal c) (maxVal c) (initialVal c).

Definition increment (c : t) : t :=
  if counter c <? maxVal c then mk (initialVal c) (maxVal c) (u8 (counter c + 1)) else c.

Definition decrement (c : t) : t :=
  if 0 <? counter c then mk (initialVal c) (maxVal c) (u8 (counter c - 1)) else c.

Definition read (c : t) : Z := counter c.

(** [taken ? increment() : decrement()], the shape every predictor uses. *)
Definition train (taken : bool) (c : t) : t := if taken then increment c else decrement c.

(** [v.resize(n)] and then [v[i].setBits(bits)] for every [i]. *)
Definition table (indet n bits : Z) : res (list t) :=
  mapM (setBits bits) (replicate (Z.to_nat n) (default indet)).

(** ** Invariant *)

(** [ok mx c]: a counter that saturates at [mx]. *)
Definition ok (mx : Z) (c : t) : Prop :=
  maxVal c = mx ∧ 0 ≤ initialVal c ≤ mx ∧ 0 ≤ counter c ≤ mx ∧ mx ≤ 255.

Definition maxOf (bits : Z) : Z := u8 (Z.shiftl 1 bits - 1).

Definition table_ok (n mx : Z) (l : list t) : Prop := vlen l = n ∧ Forall (ok mx) l.

Lemma maxOf_small bits : 0 ≤ bits ≤ 8 → maxOf bits = 2 ^ bits - 1.
Proof.
  intros. unfold maxOf. rewrite Z.shiftl_1_l. apply u8_id.
  assert (0 < 2 ^ bits) by (apply Z.pow_pos_nonneg; lia).
  assert (2 ^ bits ≤ 2 ^ 8) by (apply Z.pow_le_mono_r; lia).
  unfold is_u8. lia.
Qed.

(** Wider counters are truncated to eight bits by the [uint8_t] field. *)
Lemma maxOf_large bits : 8 ≤ bits → maxOf bits = 255.
Proof.
  intros. unfold maxOf, u8. rewrite Z.shiftl_1_l.
  replace (2 ^ bits) with (2 ^ (bits - 8) * 2 ^ 8)
    by (rewrite <- Z.pow_add_r by lia; f_equal; lia).
  replace (2 ^ (bits - 8) * 2 ^ 8 - 1) with (255 + (2 ^ (bits - 8) - 1) * 2 ^ 8) by lia.
  rewrite Z.mod_add by lia. done.
Qed.

Lemma maxOf_range bits : 0 ≤ maxOf bits ≤ 255.
Proof. pose proof (u8_range (Z.shiftl 1 bits - 1)) as H. unfold is_u8, maxOf in *. lia. Qed.

Lemma maxOf_le bits : 0 ≤ bits → maxOf bits ≤ 2 ^ bits - 1.
Proof.
  intros. destruct (Z.le_gt_cases bits 8); [rewrite maxOf_small by lia; lia|].
  rewrite maxOf_large by lia. assert (2 ^ 8 ≤ 2 ^ bits) by (apply Z.pow_le_mono_r; lia). lia.
Qed.

Lemma increment_counter mx c :
  ok mx c → increment c = mk (initialVal c) mx (Z.min mx (counter c + 1)).
Proof.
  intros (Hm & Hi & Hc & Hx). unfold increment. destruct c as [i m v]; simpl in *. subst m.
  destruct (Z.ltb_spec v mx); [|f_equal; lia].
  rewrite u8_id by (unfold is_u8; lia). f_equal; lia.
Qed.

Lemma decrement_counter mx c :
  ok mx c → decrement c = mk (initialVal c) mx (Z.max 0 (counter c - 1)).
Proof.
  intros (Hm & Hi & Hc & Hx). unfold decrement. destruct c as [i m v]; simpl in *. subst m.
  destruct (Z.ltb_spec 0 v); [|f_equal; lia].
  rewrite u8_id by (unfold is_u8; lia). f_equal; lia.
Qed.

Lemma increment_ok mx c : ok mx c → ok mx (increment c).
Proof. intros H. rewrite (increment_counter mx) by done. unfold ok in *; simpl; lia. Qed.

Lemma decrement_ok mx c : ok mx c → ok mx (decrement c).
Proof. intros H. rewrite (decrement_counter mx) by done. unfold ok in *; simpl; lia. Qed.

Lemma train_ok mx b c : ok mx c → ok mx (train b c).
Proof. destruct b; [apply increment_ok|apply decrement_ok]. Qed.

Lemma setBits_default bits indet :
  0 ≤ bits < 31 → setBits bits (default indet) = Ok (mk 0 (maxOf bits) 0).
Proof.
  intros. unfold setBits, shl_int1, guard_.
  by destruct (Z.leb_spec 0 bits), (Z.ltb_spec bits 31); try lia.
Qed.

Lemma table_val indet n bits :
  0 ≤ bits < 31 → table indet n bits = Ok (replicate (Z.to_nat n) (mk 0 (maxOf bits) 0)).
Proof.
  intros Hb. unfold table. induction (Z.to_nat n) as [|k IH]; [done|].
  cbn [replicate mapM]. rewrite setBits_default by done. simpl. by rewrite IH.
Qed.

Lemma table_fresh_ok n bits :
  0 ≤ n → table_ok n (maxOf bits) (replicate (Z.to_nat n) (mk 0 (maxOf bits) 0)).
Proof.
  intros. split; [by apply vlen_replicate|]. apply Forall_replicate.
  pose proof (maxOf_range bits). unfold ok; simpl; lia.
Qed.

Lemma table_ok_lookup n mx l i c : table_ok n mx l → l !! i = Some c → ok mx c.
Proof. intros [_ H]. by eapply Forall_lookup_1. Qed.

Lemma table_ok_insert n mx l i c : table_ok n mx l → ok mx c → table_ok n mx (<[i := c]> l).
Proof. intros [? ?] ?. split; [by rewrite vlen_insert|by apply Forall_insert]. Qed.

Lemma returns_train n mx f l i (Q : list t → Prop) :
  table_ok n mx l → (∀ c, ok mx c → ok mx (f c)) → 0 ≤ i < n →
  (∀ l', table_ok n mx l' → vmod f l i = Ok l' → Q l') → returns (vmod f l i) Q.
Proof.
  intros Hl Hf Hi HQ. pose proof Hl as [Hlen _].
  destruct (vlookup_lt l i) as [c Hc]; [lia|].
  assert (vmod f l i = Ok (<[Z.to_nat i := f c]> l)) as E.
  { apply vmod_Ok. exists c. split_and!; [lia|done..]. }
  rewrite E. simpl. apply HQ; [|done].
  apply table_ok_insert; [done|]. eapply Hf, table_ok_lookup; eauto.
Qed.

(** Training one entry of a table. *)
Lemma train_table n mx l i b :
  table_ok n mx l → 0 ≤ i < n → ∃ l', vmod (train b) l i = Ok l' ∧ table_ok n mx l'.
Proof.
  intros Hok Hi. assert (returns (vmod (train b) l i) (table_ok n mx)) as Hr.
  { eapply returns_train; [done|intros c; by apply train_ok|done|done]. }
  apply returns_iff in Hr as (l' & E & Ok'). by exists l'.
Qed.

(** ** Runs of outcomes *)
Lemma iter_increment mx c k :
  ok mx c → Nat.iter k increment c = mk (initialVal c) mx (Z.min mx (counter c + Z.of_nat k)).
Proof.
  intros H. induction k as [|k IH].
  - destruct c; unfold ok in H; simpl in *. f_equal; lia.
  - change (increment (Nat.iter k increment c) = mk (initialVal c) mx (Z.min mx (counter c + Z.of_nat (S k)))).
    rewrite IH. rewrite (increment_counter mx) by (unfold ok in *; simpl; lia).
    simpl. f_equal. lia.
Qed.

Lemma iter_decrement mx c k :
  ok mx c → Nat.iter k decrement c = mk (initialVal c) mx (Z.max 0 (counter c - Z.of_nat k)).
Proof.
  intros H. induction k as [|k IH].
  - destruct c; unfold ok in H; simpl in *. f_equal; lia.
  - change (decrement (Nat.iter k decrement c) = mk (initialVal c) mx (Z.max 0 (counter c - Z.of_nat (S k)))).
    rewrite IH. rewrite (decrement_counter mx) by (unfold ok in *; simpl; lia).
    simpl. f_equal. lia.
Qed.

(** ** Theorems *)

(** An n-bit counter (1 to 8 bits) learns a direction and keeps it. With the
    threshold [2^(n-1) - 1] that the predictors compare against, [2^(n-1)]
    consecutive taken outcomes move any counter above the threshold, as many
    not-taken ones move any counter to the threshold or below it, and a
    saturated counter keeps its prediction through [2^(n-1) - 1] contrary
    outcomes. The eight-bit field never wraps on the way. *)
Theorem counter_training (bits : Z) (c : t) (k : nat) :
  1 ≤ bits ≤ 8 → ok (maxOf bits) c →
  (2 ^ (bits - 1) ≤ Z.of_nat k →
     2 ^ (bits - 1) - 1 < read (Nat.iter k (train true) c) ∧
     read (Nat.iter k (train false) c) ≤ 2 ^ (bits - 1) - 1) ∧
  (Z.of_nat k < 2 ^ (bits - 1) →
     (read c = maxOf bits → 2 ^ (bits - 1) - 1 < read (Nat.iter k (train false) c)) ∧
     (read c = 0 → read (Nat.iter k (train true) c) ≤ 2 ^ (bits - 1) - 1)) ∧
  ok (maxOf bits) (Nat.iter k (train true) c) ∧ ok (maxOf bits) (Nat.iter k (train false) c).
Proof.
  intros Hb Hc. change (train true) with increment. change (train false) with decrement.
  rewrite (iter_increment _ _ _ Hc), (iter_decrement _ _ _ Hc). unfold read, ok in *. simpl.
  rewrite (maxOf_small bits) in * by lia.
  assert (2 ^ bits = 2 * 2 ^ (bits - 1)) as Hp by (rewrite <- Z.pow_succ_r by lia; f_equal; lia).
  assert (0 < 2 ^ (bits - 1)) by (apply Z.pow_pos_nonneg; lia). lia.
Qed.

Lemma counter_training_witness :
  1 ≤ 2 ≤ 8 ∧ ok (maxOf 2) (mk 0 3 1) ∧
  2 ^ (2 - 1) - 1 < read (Nat.iter 2 (train true) (mk 0 3 1)).
Proof.
  assert (ok (maxOf 2) (mk 0 3 1)) as H by (unfold ok; simpl; change (maxOf 2) with 3; lia).
  split; [lia|]. split; [exact H|].
  apply (counter_training 2 (mk 0 3 1) 2 ltac:(lia) H). simpl. lia.
Defined.

End SatCounter.

#[export] Hint Resolve SatCounter.increment_ok SatCounter.decrement_ok SatCounter.train_ok : bp.
