(* ===== verification/Isa.v ===== *)
(** * The instruction-set interface

    The branch prediction unit is compiled against [TheISA], a namespace chosen
    by the build ([config/the_isa.hh] is generated): the type [PCState] and the
    three functions the unit calls.  [TheISA] is that interface as a type class;
    [AlphaISA] is the instance of [arch/alpha] over [GenericISA::SimplePCState].
    [StaticInst] holds the decoded flags the unit reads. *)

From S2P Require Import Prelude.

(** The control-flow flags of a decoded instruction. *)
Record StaticInst := mkInst {
  isCall : bool;
  isReturn : bool;
  isDirectCtrl : bool;
  isUncondCtrl : bool;
}.

Class TheISA := {
  PCState : Type;
  (** [PCState()] *)
  pc_default : PCState;
  (** [PCState(Addr)] *)
  pc_of : Z → PCState;
  (** [pc.set(Addr)] *)
  pc_set : PCState → Z → PCState;
  instAddr : PCState → Z;
  buildRetPC : PCState → PCState → PCState;
  advancePC : PCState → StaticInst → PCState;
}.

Module SimplePCState.

(** [GenericISA::SimplePCState<MachInst>] with a four-byte [MachInst]. *)
Record t := mk { pc : Z; npc : Z }.

#[global] Instance pcstate_eq_dec : EqDecision t.
Proof. solve_decision. Defined.

Definition sizeof_MachInst : Z := 4.
Definition set (val : Z) : t := mk val (u64 (val + sizeof_MachInst)).
Definition advance (s : t) : t := mk (npc s) (u64 (npc s + sizeof_MachInst)).
Definition branching (s : t) : bool := negb (npc s =? u64 (pc s + sizeof_MachInst)).

End SimplePCState.

Module AlphaISA.

Definition buildRetPC (curPC callPC : SimplePCState.t) : SimplePCState.t :=
  let retPC := callPC in SimplePCState.advance retPC.

Definition advancePC (pc : SimplePCState.t) (inst : StaticInst) : SimplePCState.t :=
  SimplePCState.advance pc.

Definition isa : TheISA := {|
  PCState := SimplePCState.t;
  pc_default := SimplePCState.mk 0 0;
  pc_of := SimplePCState.set;
  pc_set := λ _ val, SimplePCState.set val;
  Isa.instAddr := SimplePCState.pc;
  Isa.buildRetPC := buildRetPC;
  Isa.advancePC := advancePC;
|}.

(** An address as a program counter of this instance, for concrete runs. *)
Definition at_pc (a : Z) : @PCState isa := SimplePCState.set a.

End AlphaISA.
