(* ===== verification/Ras.v ===== *)
(** * The return address stack ([cpu/pred/ras.hh], [ras.cc])

    A circular buffer whose pushes overwrite the oldest entry.  It is proved to
    implement a bounded stack that forgets its oldest element, and the two undo
    operations of the branch unit (restore after a pop, pop after a push) are
    proved to bring the top of the stack back. *)

From S2P Require Import Prelude Isa.

Module ReturnAddrStack.
Section ras.
Context {ISA : TheISA}.

Record t := mk {
  addrStack : list PCState;
  numEntries : Z;
  usedEntries : Z;
  tos : Z;
}.

Definition reset (r : t) : t :=
  mk ((λ p, pc_set p 0) <$> addrStack r) (numEntries r) 0 0.

Definition init (_numEntries : Z) : t :=
  reset (mk (replicate (Z.to_nat _numEntries) pc_default) _numEntries 0 0).

Definition top (r : t) : res PCState := vget (addrStack r) (tos r).

Definition topIdx (r : t) : Z := tos r.

Definition empty (r : t) : bool := usedEntries r =? 0.

Definition full (r : t) : bool := usedEntries r =? numEntries r.

(** [if (++tos == numEntries) tos = 0] *)
Definition incrTos (r : t) : t :=
  let tos' := u32 (tos r + 1) in
  mk (addrStack r) (numEntries r) (usedEntries r)
     (if tos' =? numEntries r then 0 else tos').

Definition decrTos (r : t) : t :=
  mk (addrStack r) (numEntries r) (usedEntries r)
     (if tos r =? 0 then u32 (numEntries r - 1) else u32 (tos r - 1)).

Definition push (return_addr : PCState) (r : t) : res t :=
  let r := incrTos r in
  st ← vset (addrStack r) (tos r) return_addr;
  let used := if negb (usedEntries r =? numEntries r)
              then u32 (usedEntries r + 1) else usedEntries r in
  Ok (mk st (numEntries r) used (tos r)).

Definition pop (r : t) : t :=
  let used := if 0 <? usedEntries r then u32 (usedEntries r - 1) else usedEntries r in
  decrTos (mk (addrStack r) (numEntries r) used (tos r)).

Definition restore (top_entry_idx : Z) (restored : PCState) (r : t) : res t :=
  st ← vset (addrStack r) top_entry_idx restored;
  Ok (mk st (numEntries r) (usedEntries r) top_entry_idx).

(** ** Invariant *)
Record wf (r : t) : Prop := {
  wf_size : 0 < numEntries r < 2 ^ 32;
  wf_len : vlen (addrStack r) = numEntries r;
  wf_tos : 0 ≤ tos r < numEntries r;
  wf_used : 0 ≤ usedEntries r ≤ numEntries r;
}.

Lemma ras_init_wf n : 0 < n < 2 ^ 32 → wf (init n).
Proof.
  intros Hn. split; simpl; try lia.
  unfold vlen. rewrite length_fmap, length_replicate. lia.
Qed.

Lemma incrTos_tos r : wf r → tos (incrTos r) = (tos r + 1) mod numEntries r.
Proof.
  intros []. simpl. rewrite u32_id by (unfold is_u32; lia).
  destruct (Z.eqb_spec (tos r + 1) (numEntries r)) as [->|].
  - by rewrite Z.mod_same by lia.
  - rewrite Z.mod_small; lia.
Qed.

Lemma decrTos_tos r : wf r → tos (decrTos r) = (tos r - 1) mod numEntries r.
Proof.
  intros []. simpl. destruct (Z.eqb_spec (tos r) 0) as [->|].
  - rewrite u32_id by (unfold is_u32; lia). rewrite <- (Z.mod_add _ 1) by lia. rewrite Z.mod_small; lia.
  - rewrite u32_id by (unfold is_u32; lia). rewrite Z.mod_small; lia.
Qed.

Lemma incrTos_wf r : wf r → wf (incrTos r).
Proof.
  intros H. split; [apply H|apply H| |apply H]. rewrite incrTos_tos by done.
  destruct H. apply Z.mod_pos_bound. simpl. lia.
Qed.

Lemma push_Ok r a :
  wf r →
  push a r = Ok (mk (<[Z.to_nat ((tos r + 1) mod numEntries r) := a]> (addrStack r)) (numEntries r)
                    (Z.min (numEntries r) (usedEntries r + 1)) ((tos r + 1) mod numEntries r)).
Proof.
  intros H. pose proof (incrTos_wf r H) as H'. unfold push.
  rewrite vset_in by (rewrite (wf_len _ H'); apply H').
  cbn [mbind res_bind]. rewrite incrTos_tos by done. destruct H. simpl.
  destruct (Z.eqb_spec (usedEntries r) (numEntries r)); simpl; [do 2 f_equal; lia|].
  destruct (decide (usedEntries r = 2 ^ 32 - 1)); [lia|].
  rewrite u32_id by (unfold is_u32; lia). do 2 f_equal. lia.
Qed.

Lemma push_wf r a : wf r → returns (push a r) wf.
Proof.
  intros H. rewrite push_Ok by done. destruct H. split; simpl; [lia| | |lia].
  - by rewrite vlen_insert.
  - apply Z.mod_pos_bound. lia.
Qed.

Lemma pop_val r :
  wf r → pop r = mk (addrStack r) (numEntries r) (Z.max 0 (usedEntries r - 1))
                    ((tos r - 1) mod numEntries r).
Proof.
  intros H. unfold pop. destruct (decrTos _) as [st n u ts] eqn:E.
  pose proof (f_equal tos E) as Et.
  assert (wf (mk (addrStack r) (numEntries r)
    (if 0 <? usedEntries r then u32 (usedEntries r - 1) else usedEntries r) (tos r))) as H'.
  { destruct H. split; simpl; try lia. destruct (Z.ltb_spec 0 (usedEntries r)); [|lia].
    rewrite u32_id by (unfold is_u32; lia). lia. }
  rewrite decrTos_tos in Et by done. simpl in *. injection E as <- <- <- _.
  rewrite <- Et. f_equal. destruct H. destruct (Z.ltb_spec 0 (usedEntries r)); [|lia].
  rewrite u32_id by (unfold is_u32; lia). lia.
Qed.

Lemma pop_wf r : wf r → wf (pop r).
Proof.
  intros H. rewrite pop_val by done. destruct H. split; simpl; try lia.
  apply Z.mod_pos_bound. lia.
Qed.

Lemma top_Ok r : wf r → ∃ a, top r = Ok a.
Proof.
  intros []. destruct (vlookup_lt (addrStack r) (tos r)) as [a Ha]; [lia|].
  exists a. apply vget_Ok. split; [lia|done].
Qed.

Lemma restore_wf r i a :
  wf r → 0 ≤ i < numEntries r →
  returns (restore i a r) (λ r', wf r' ∧ numEntries r' = numEntries r).
Proof.
  intros H Hi. unfold restore. repeat ret_step; [by rewrite (wf_len _ H)|].
  destruct H. split; [|done]. split; simpl; try lia. by rewrite vlen_insert.
Qed.

(** Undoing a pop and a push. *)
Lemma restore_pop r v :
  wf r → top r = Ok v →
  restore (tos r) v (pop r) =
    Ok (mk (addrStack r) (numEntries r) (Z.max 0 (usedEntries r - 1)) (tos r)).
Proof.
  intros H Hv. apply vget_Ok in Hv as [? Hv]. rewrite pop_val by done. unfold restore. simpl.
  rewrite vset_in by (rewrite (wf_len _ H); apply H). simpl. by rewrite list_insert_id.
Qed.

Lemma restore_top r r' i v : restore i v r = Ok r' → tos r' = i ∧ top r' = Ok v.
Proof.
  unfold restore. intros E. res_inv. split; [done|]. unfold top. simpl.
  apply vget_in; [lia|]. by apply vlookup_insert_eq.
Qed.

Definition same_but_above (r r' : t) : Prop :=
  tos r' = tos r ∧ numEntries r' = numEntries r ∧
  ∀ i, i ≠ (tos r + 1) mod numEntries r → 0 ≤ i →
    addrStack r' !! Z.to_nat i = addrStack r !! Z.to_nat i.

Lemma pop_push r r1 a : wf r → push a r = Ok r1 → same_but_above r (pop r1).
Proof.
  intros H E. pose proof (push_wf r a H) as Hw. rewrite E in Hw. rewrite push_Ok in E by done.
  cbn [returns] in Hw. injection E as <-. rewrite pop_val by done. destruct H.
  pose proof (Z.mod_pos_bound (tos r + 1) (numEntries r)). split_and!; simpl; [|done|].
  - rewrite Zminus_mod_idemp_l. replace (tos r + 1 - 1) with (tos r) by lia.
    apply Z.mod_small. lia.
  - intros i Hne Hi. apply vlookup_insert_ne; [lia|done|auto].
Qed.

(** ** The abstract stack

    At most [n] addresses, newest first; a push on a full stack forgets the
    oldest address and a pop of the empty stack does nothing. *)
Definition bounded_push (n : Z) (a : PCState) (l : list PCState) : list PCState :=
  take (Z.to_nat n) (a :: l).

Inductive op := Push (a : PCState) | Pop.

Definition run_op (r : t) (o : op) : res t :=
  match o with Push a => push a r | Pop => Ok (pop r) end.

Definition stack_op (n : Z) (l : list PCState) (o : op) : list PCState :=
  match o with Push a => bounded_push n a l | Pop => tail l end.

Fixpoint run (ops : list op) (r : t) : res t :=
  match ops with [] => Ok r | o :: ops => r ← run_op r o; run ops r end.

(** Slot [tos - i] (cyclically) holds element [i] of the abstract stack. *)
Definition represents (r : t) (l : list PCState) : Prop :=
  vlen l = usedEntries r ∧
  ∀ i a, l !! i = Some a →
    addrStack r !! Z.to_nat ((tos r - Z.of_nat i) mod numEntries r) = Some a.

Lemma represents_push r l a :
  wf r → represents r l →
  returns (push a r) (λ r', represents r' (bounded_push (numEntries r) a l)).
Proof.
  intros H [Hlen Hl]. rewrite push_Ok by done. destruct H.
  set (n := numEntries r) in *. unfold vlen in *.
  cbn [returns]. unfold represents, bounded_push, vlen. split; cbn [usedEntries addrStack tos numEntries].
  { rewrite length_take. cbn [length]. lia. }
  intros i b Hib. apply lookup_take_Some in Hib as [Hib Hin].
  destruct i as [|i]; simpl in Hib.
  - injection Hib as <-. change (Z.of_nat 0) with 0. rewrite Z.sub_0_r, Z.mod_mod by lia.
    apply list_lookup_insert_eq. pose proof (Z.mod_pos_bound (tos r + 1) n). lia.
  - apply Hl in Hib.
    assert (((tos r + 1) mod n - Z.of_nat (S i)) mod n = (tos r - Z.of_nat i) mod n) as E.
    { rewrite Zminus_mod_idemp_l. f_equal. lia. }
    fold n in Hib. rewrite E, list_lookup_insert_ne; [done|].
    pose proof (Z.mod_pos_bound (tos r + 1) n). pose proof (Z.mod_pos_bound (tos r - Z.of_nat i) n).
    intros Heq. assert ((tos r + 1) mod n = (tos r - Z.of_nat i) mod n) as Hm by lia.
    assert ((tos r + 1 - (tos r - Z.of_nat i)) mod n = 0) as Hz.
    { rewrite Zminus_mod, Hm, Z.sub_diag. by rewrite Z.mod_0_l by lia. }
    rewrite Z.mod_small in Hz; lia.
Qed.

Lemma represents_pop r l : wf r → represents r l → represents (pop r) (tail l).
Proof.
  intros H [Hlen Hl]. rewrite pop_val by done. destruct H. unfold vlen in *.
  split; simpl.
  { destruct l; unfold vlen; simpl in *; lia. }
  intros i a Hi. destruct l as [|b l]; [done|]. simpl in Hi.
  rewrite Zminus_mod_idemp_l.
  replace (tos r - 1 - Z.of_nat i) with (tos r - Z.of_nat (S i)) by lia. by apply Hl.
Qed.

Lemma represents_top r a l : wf r → represents r (a :: l) → top r = Ok a.
Proof.
  intros [] [_ Hl]. specialize (Hl 0%nat a eq_refl). apply vget_Ok.
  rewrite Z.sub_0_r, Z.mod_small in Hl; auto with lia.
Qed.

Lemma run_op_refines r l o :
  wf r → represents r l →
  returns (run_op r o)
    (λ r', wf r' ∧ numEntries r' = numEntries r ∧ represents r' (stack_op (numEntries r) l o)).
Proof.
  intros H Hl. destruct o as [a|]; simpl.
  - pose proof (push_wf r a H) as Hw. pose proof (represents_push r l a H Hl) as Hr.
    rewrite push_Ok in * by done. simpl in *. auto.
  - split_and!; [by apply pop_wf|done|by apply represents_pop].
Qed.

Lemma run_refines ops r l :
  wf r → represents r l →
  returns (run ops r)
    (λ r', wf r' ∧ numEntries r' = numEntries r ∧
           represents r' (foldl (stack_op (numEntries r)) l ops)).
Proof.
  revert r l. induction ops as [|o ops IH]; intros r l H Hl; simpl; [done|].
  apply returns_bind. eapply returns_mono; [by apply run_op_refines|].
  intros r' (Hw & Hn & Hr). rewrite <- Hn in *. by apply IH.
Qed.

(** ** Theorems *)

(** C6: the return address stack refines a bounded stack. Whatever sequence of
    pushes and pops runs on a freshly initialised stack of [n > 0] entries, no
    operation leaves the buffer, the live entries are those of the stack that
    keeps the [n] newest addresses, and [top()] is its newest address whenever
    it has one. *)
Theorem ras_refines_bounded_stack (n : Z) (ops : list op) :
  0 < n < 2 ^ 32 →
  returns (run ops (init n)) (λ r,
    wf r ∧ represents r (foldl (stack_op n) [] ops) ∧
    ∀ a l, foldl (stack_op n) [] ops = a :: l → top r = Ok a).
Proof.
  intros Hn. pose proof (ras_init_wf n Hn) as Hw.
  eapply returns_mono; [apply (run_refines ops (init n) [] Hw); by split|].
  intros r (Hwr & _ & Hr). split_and!; [done..|].
  intros a l E. eapply represents_top; [done|]. simpl in Hr. by rewrite <- E.
Qed.

(** The branch unit's undo steps bring back the top of the stack. Restoring
    the recorded index and target after the pop of a predicted return gives back
    the whole buffer and the top index (only the count of used entries stays
    lowered), and popping after the push of a predicted call gives back the top
    index and every slot but the one the push wrote. *)
Theorem ras_undo (r : t) (a : PCState) :
  wf r →
  (∃ v, top r = Ok v ∧
     restore (topIdx r) v (pop r) =
       Ok (mk (addrStack r) (numEntries r) (Z.max 0 (usedEntries r - 1)) (tos r))) ∧
  returns (push a r) (λ r1,
    tos (pop r1) = tos r ∧ numEntries (pop r1) = numEntries r ∧
    ∀ i, i ≠ (tos r + 1) mod numEntries r → 0 ≤ i →
      addrStack (pop r1) !! Z.to_nat i = addrStack r !! Z.to_nat i).
Proof.
  intros H. split.
  - destruct (top_Ok r H) as [v Hv]. exists v. split; [done|by apply restore_pop].
  - pose proof (push_wf r a H) as Hw. destruct (push a r) as [r1|] eqn:E; [|done].
    by apply (pop_push r r1 a).
Qed.

End ras.

(** ** Witnesses *)
Lemma ras_refines_bounded_stack_witness :
  0 < 2 < 2 ^ 32 ∧
  returns (run (ISA := AlphaISA.isa)
             [Push (AlphaISA.at_pc 16); Push (AlphaISA.at_pc 32);
              Push (AlphaISA.at_pc 48); Pop] (init 2))
    (λ r, wf r ∧ represents r [AlphaISA.at_pc 32] ∧
          ∀ a l, [AlphaISA.at_pc 32] = a :: l → top r = Ok a).
Proof.
  split; [lia|].
  apply (ras_refines_bounded_stack (ISA := AlphaISA.isa) 2
    [Push (AlphaISA.at_pc 16); Push (AlphaISA.at_pc 32);
     Push (AlphaISA.at_pc 48); Pop]). lia.
Defined.

Lemma ras_undo_witness :
  ∃ r : t (ISA := AlphaISA.isa), wf r ∧
    returns (push (AlphaISA.at_pc 64) r) (λ r1, tos (pop r1) = tos r).
Proof.
  assert (wf (ISA := AlphaISA.isa) (init 4)) as H by (apply ras_init_wf; lia).
  exists (init 4). split; [exact H|].
  eapply returns_mono; [apply (proj2 (ras_undo (ISA := AlphaISA.isa) (init 4) (AlphaISA.at_pc 64) H))|].
  intros r1 [E _]. exact E.
Defined.

End ReturnAddrStack.
