(* ===== verification/Btb.v ===== *)
(** * The branch target buffer ([cpu/pred/btb.hh], [btb.cc])

    A direct-mapped table indexed by a hash of the branch address and the
    thread.  It is proved to answer every query with the most recent update of
    the same slot, and distinct hardware threads are proved never to share the
    slot of a branch. *)

From S2P Require Import Prelude IntMath Isa.

Module DefaultBTB.
Section btb.
Context {ISA : TheISA}.

Record BTBEntry := mkEntry {
  tag : Z;
  target : PCState;
  tid : Z;
  valid_ : bool;
}.

(** [BTBEntry()] leaves [tid] indeterminate. *)
Definition BTBEntry_default (indet : Z) : BTBEntry := mkEntry 0 (pc_of 0) indet false.

Record t := mk {
  btb : list BTBEntry;
  numEntries : Z;
  idxMask : Z;
  tagBits : Z;
  tagMask : Z;
  instShiftAmt : Z;
  tagShiftAmt : Z;
  log2NumThreads : Z;
}.

Definition with_btb (b : t) (l : list BTBEntry) : t :=
  mk l (numEntries b) (idxMask b) (tagBits b) (tagMask b) (instShiftAmt b)
     (tagShiftAmt b) (log2NumThreads b).

Definition invalidate (e : BTBEntry) : BTBEntry :=
  mkEntry (tag e) (target e) (tid e) false.

Definition create (indet _numEntries _tagBits _instShiftAmt _num_threads : Z) : res t :=
  log2NumThreads ← floorLog2 _num_threads;
  _ ← guard_ (isPowerOf2 _numEntries) (Fatal "BTB entries is not a power of 2!");
  let btb := invalidate <$> replicate (Z.to_nat _numEntries) (BTBEntry_default indet) in
  let idxMask := u32 (_numEntries - 1) in
  m ← shl_int1 _tagBits;
  let tagMask := u32 (m - 1) in
  lg ← floorLog2 _numEntries;
  let tagShiftAmt := u32 (_instShiftAmt + lg) in
  Ok (mk btb _numEntries idxMask _tagBits tagMask _instShiftAmt tagShiftAmt log2NumThreads).

Definition reset (b : t) : t := with_btb b (invalidate <$> btb b).

Definition getIndex (b : t) (instPC tid : Z) : res Z :=
  a ← shr64 instPC (instShiftAmt b);
  s ← shl_int tid (u32 (u32 (tagShiftAmt b - instShiftAmt b) - log2NumThreads b));
  Ok (Z.land (Z.lxor a s) (idxMask b)).

Definition getTag (b : t) (instPC : Z) : res Z :=
  a ← shr64 instPC (tagShiftAmt b); Ok (Z.land a (tagMask b)).

(** The hit condition that [valid] and [lookup] share. *)
Definition hit (e : BTBEntry) (inst_tag tid_ : Z) : bool :=
  valid_ e && (inst_tag =? tag e) && (tid e =? tid_).

Definition valid (b : t) (instPC tid : Z) : res bool :=
  btb_idx ← getIndex b instPC tid;
  inst_tag ← getTag b instPC;
  _ ← assert_ (btb_idx <? numEntries b);
  e ← vget (btb b) btb_idx;
  if hit e inst_tag tid then Ok true else Ok false.

Definition lookup (b : t) (instPC tid : Z) : res PCState :=
  btb_idx ← getIndex b instPC tid;
  inst_tag ← getTag b instPC;
  _ ← assert_ (btb_idx <? numEntries b);
  e ← vget (btb b) btb_idx;
  if hit e inst_tag tid then Ok (target e) else Ok (pc_of 0).

Definition update (b : t) (instPC : Z) (target : PCState) (tid : Z) : res t :=
  btb_idx ← getIndex b instPC tid;
  _ ← assert_ (btb_idx <? numEntries b);
  inst_tag ← getTag b instPC;
  l ← vset (btb b) btb_idx (mkEntry inst_tag target tid true);
  Ok (with_btb b l).

(** ** Invariant

    [wf nt b]: [b] has a power-of-two number of entries, at least one per
    thread, and address fields that fit in 64 bits. *)
Record wf (nt : Z) (b : t) : Prop := {
  wf_pow2 : is_pow2 (numEntries b);
  wf_max : numEntries b ≤ 2 ^ 30;
  wf_len : vlen (btb b) = numEntries b;
  wf_mask : idxMask b = numEntries b - 1;
  wf_shift : 0 ≤ instShiftAmt b;
  wf_tagShift : tagShiftAmt b = instShiftAmt b + Z.log2 (numEntries b) ∧ tagShiftAmt b < 64;
  wf_threads : 0 < nt ≤ numEntries b;
  wf_log2nt : log2NumThreads b = Z.log2 nt;
}.

(** The index and the tag as total functions. *)
Definition index (b : t) (pc tid : Z) : Z :=
  Z.land (Z.lxor (Z.shiftr pc (instShiftAmt b))
                 (tid * 2 ^ (Z.log2 (numEntries b) - log2NumThreads b))) (numEntries b - 1).
Definition tag_of (b : t) (pc : Z) : Z := Z.land (Z.shiftr pc (tagShiftAmt b)) (tagMask b).

Lemma btb_shift_range nt b tid :
  wf nt b → 0 ≤ tid < nt →
  0 ≤ Z.log2 (numEntries b) - log2NumThreads b < 31 ∧
  tid * 2 ^ (Z.log2 (numEntries b) - log2NumThreads b) < 2 ^ 31.
Proof.
  intros H Ht. destruct H as [Hp Hmax _ _ _ _ Hnt ->]. destruct Hp as (k & Hk & E).
  rewrite E in *. rewrite Z.log2_pow2 by lia.
  assert (k ≤ 30) by (apply (Z.pow_le_mono_r_iff 2); lia).
  pose proof (Z.log2_spec nt ltac:(lia)) as [Hlo Hhi].
  assert (Z.log2 nt ≤ k) by (rewrite <- (Z.log2_pow2 k) by lia; apply Z.log2_le_mono; lia).
  pose proof (Z.log2_nonneg nt). split; [lia|].
  assert (2 ^ Z.succ (Z.log2 nt) * 2 ^ (k - Z.log2 nt) = 2 ^ (k + 1)) as Hpow
    by (rewrite <- Z.pow_add_r by lia; f_equal; lia).
  assert (2 ^ (k + 1) ≤ 2 ^ 31) by (apply Z.pow_le_mono_r; lia).
  assert (0 < 2 ^ (k - Z.log2 nt)) by (apply Z.pow_pos_nonneg; lia). nia.
Qed.

Lemma getIndex_Ok nt b pc tid : wf nt b → 0 ≤ tid < nt → getIndex b pc tid = Ok (index b pc tid).
Proof.
  intros H Ht. destruct (btb_shift_range nt b tid H Ht) as [Hs Hv].
  pose proof (Z.log2_nonneg (numEntries b)). pose proof (Z.log2_nonneg nt).
  destruct H as [Hp Hmax _ Hmask Hsh [Htag Hlt] Hnt Hlg]. unfold getIndex, index.
  rewrite shr64_in by lia. simpl. rewrite Htag.
  replace (instShiftAmt b + Z.log2 (numEntries b) - instShiftAmt b)
    with (Z.log2 (numEntries b)) by lia.
  rewrite (u32_id (Z.log2 _)) by (unfold is_u32; lia).
  rewrite u32_id by (unfold is_u32; lia). rewrite shl_int_in by lia. simpl. by rewrite Hmask.
Qed.

Lemma getTag_Ok nt b pc : wf nt b → getTag b pc = Ok (tag_of b pc).
Proof.
  intros []. pose proof (Z.log2_nonneg (numEntries b)). unfold getTag.
  by rewrite shr64_in by lia.
Qed.

Lemma index_range nt b pc tid : wf nt b → 0 ≤ index b pc tid < numEntries b.
Proof. intros []. apply land_size_bound, is_pow2_pos. done. Qed.

Lemma btb_slot nt b pc tid : wf nt b → ∃ e, btb b !! Z.to_nat (index b pc tid) = Some e.
Proof. intros H. apply vlookup_lt. rewrite (wf_len _ _ H). by eapply index_range. Qed.

(** All three operations in closed form. *)
Lemma btb_ops nt b pc tid e :
  wf nt b → 0 ≤ tid < nt → btb b !! Z.to_nat (index b pc tid) = Some e →
  valid b pc tid = Ok (hit e (tag_of b pc) tid) ∧
  lookup b pc tid = Ok (if hit e (tag_of b pc) tid then target e else pc_of 0) ∧
  ∀ tgt, update b pc tgt tid =
    Ok (with_btb b (<[Z.to_nat (index b pc tid) := mkEntry (tag_of b pc) tgt tid true]> (btb b))).
Proof.
  intros H Ht He. pose proof (index_range nt b pc tid H) as Hr.
  unfold valid, lookup, update. rewrite (getIndex_Ok nt), (getTag_Ok nt) by done. simpl.
  unfold assert_. destruct (Z.ltb_spec (index b pc tid) (numEntries b)); [simpl|lia].
  rewrite (vget_in _ _ e) by (lia || done). simpl. split_and!.
  - by destruct (hit _ _ _).
  - by destruct (hit _ _ _).
  - intros tgt. by rewrite vset_in by (rewrite (wf_len _ _ H); lia).
Qed.

Lemma with_btb_wf nt b i e : wf nt b → wf nt (with_btb b (<[i := e]> (btb b))).
Proof. intros []. split; simpl; try done. by rewrite vlen_insert. Qed.

Lemma btb_update_wf nt b pc tgt tid :
  wf nt b → 0 ≤ tid < nt → returns (update b pc tgt tid) (wf nt).
Proof.
  intros H Ht. destruct (btb_slot nt b pc tid H) as [e He].
  destruct (btb_ops nt b pc tid e H Ht He) as (_ & _ & ->). simpl. by apply with_btb_wf.
Qed.

Lemma btb_create_wf indet n tagBits shift nt :
  is_u32 n → isPowerOf2 n = true → n ≤ 2 ^ 30 → 0 ≤ tagBits < 31 →
  0 ≤ shift → shift + Z.log2 n < 64 → 0 < nt ≤ n →
  returns (create indet n tagBits shift nt)
    (λ b, wf nt b ∧ Forall (λ e, valid_ e = false) (btb b) ∧ numEntries b = n).
Proof.
  intros Hn Hp Hmax Htag Hs Hsl Hnt. unfold create. rewrite floorLog2_log2 by (unfold is_u32 in *; lia).
  simpl. rewrite Hp. simpl. rewrite shl_int1_in by done. simpl.
  rewrite floorLog2_log2 by (unfold is_u32 in *; lia). simpl.
  pose proof (Z.log2_nonneg n). split; [|split; [|done]].
  - split; simpl; try done; try lia.
    + by apply isPowerOf2_iff.
    + unfold vlen. rewrite length_fmap, length_replicate. lia.
    + rewrite u32_id; unfold is_u32 in *; lia.
    + rewrite u32_id; unfold is_u32 in *; lia.
  - rewrite Forall_fmap. apply Forall_replicate. done.
Qed.

(** ** The abstract buffer: the last update of every slot *)
Record update_call := mkUpd { u_pc : Z; u_target : PCState; u_tid : Z }.

Fixpoint run_updates (us : list update_call) (b : t) : res t :=
  match us with
  | [] => Ok b
  | u :: us => b ← update b (u_pc u) (u_target u) (u_tid u); run_updates us b
  end.

(** The most recent of the updates [us] (oldest first) that went to slot [i]. *)
Definition slot_owner (b : t) (i : Z) (us : list update_call) : option update_call :=
  foldl (λ acc u, if index b (u_pc u) (u_tid u) =? i then Some u else acc) None us.

Definition entry_of (b : t) (u : update_call) : BTBEntry :=
  mkEntry (tag_of b (u_pc u)) (u_target u) (u_tid u) true.

Lemma run_updates_table nt us b :
  wf nt b → Forall (λ u, 0 ≤ u_tid u < nt) us →
  returns (run_updates us b) (λ b', wf nt b' ∧ b' = with_btb b (btb b') ∧
    ∀ i, 0 ≤ i < numEntries b →
      btb b' !! Z.to_nat i =
        match slot_owner b i us with Some u => Some (entry_of b u) | None => btb b !! Z.to_nat i end).
Proof.
  revert b. induction us as [|u us IH] using rev_ind; intros b H Hus.
  { simpl. destruct b; auto. }
  apply Forall_app in Hus as [Hus Hu]. apply Forall_cons in Hu as [Hu _].
  assert (run_updates (us ++ [u]) b =
    (b' ← run_updates us b; update b' (u_pc u) (u_target u) (u_tid u))) as ->.
  { clear. revert b. induction us as [|v us IH]; intros b; simpl.
    - by destruct (update _ _ _ _).
    - destruct (update b _ _ _); simpl; [apply IH|done]. }
  apply returns_bind. eapply returns_mono; [by apply IH|]. clear IH.
  intros b' (H' & Eb & Hl). destruct (btb_slot nt b' (u_pc u) (u_tid u) H') as [e He].
  destruct (btb_ops nt b' (u_pc u) (u_tid u) e H' Hu He) as (_ & _ & ->). cbn [returns].
  split; [by apply with_btb_wf|]. split; [by rewrite Eb|].
  intros i Hi. unfold slot_owner. rewrite foldl_app. simpl.
  assert (index b' (u_pc u) (u_tid u) = index b (u_pc u) (u_tid u)) as -> by (by rewrite Eb).
  pose proof (index_range nt b (u_pc u) (u_tid u) H) as Hir.
  destruct (Z.eqb_spec (index b (u_pc u) (u_tid u)) i) as [->|Hne].
  - rewrite list_lookup_insert_eq; [by rewrite Eb|].
    pose proof (wf_len _ _ H') as Hlen. unfold vlen in Hlen. rewrite Eb in Hlen at 2. simpl in Hlen. lia.
  - rewrite vlookup_insert_ne by lia. by apply Hl.
Qed.

(** ** Theorems *)

(** C7: the BTB refines the table of last updates. After any sequence of
    updates on a freshly created buffer, a branch is reported valid exactly when
    the most recent update of its slot was made for the same thread and for an
    address with the same tag, and then [lookup] returns that update's target;
    otherwise [lookup] returns the null target. No access leaves the table. *)
Theorem btb_refines_last_update (nt : Z) (b : t) (us : list update_call) (pc tid : Z) :
  wf nt b → Forall (λ e, valid_ e = false) (btb b) →
  Forall (λ u, 0 ≤ u_tid u < nt) us → 0 ≤ tid < nt →
  returns (run_updates us b) (λ b', wf nt b' ∧
    match slot_owner b (index b pc tid) us with
    | Some u =>
        let m := (tag_of b pc =? tag_of b (u_pc u)) && (u_tid u =? tid) in
        valid b' pc tid = Ok m ∧ lookup b' pc tid = Ok (if m then u_target u else pc_of 0)
    | None => valid b' pc tid = Ok false ∧ lookup b' pc tid = Ok (pc_of 0)
    end).
Proof.
  intros H Hinv Hus Ht. eapply returns_mono; [by apply run_updates_table|].
  intros b' (H' & Eb & Hl). split; [done|].
  destruct (btb_slot nt b' pc tid H') as [e He].
  destruct (btb_ops nt b' pc tid e H' Ht He) as (-> & -> & _).
  assert (index b' pc tid = index b pc tid) as Ei by (by rewrite Eb).
  assert (tag_of b' pc = tag_of b pc) as -> by (by rewrite Eb).
  rewrite Ei, Hl in He by (by eapply index_range).
  destruct (slot_owner b (index b pc tid) us) as [u|].
  - injection He as <-. done.
  - rewrite Forall_lookup in Hinv. apply Hinv in He. unfold hit. by rewrite He.
Qed.

(** Threads do not collide on a branch. With a power-of-two number of
    threads, the same branch address executed by two different threads always
    maps to two different slots of the buffer. *)
Theorem btb_threads_disjoint (nt : Z) (b : t) (pc t1 t2 : Z) :
  wf nt b → is_pow2 nt → 0 ≤ t1 < nt → 0 ≤ t2 < nt → t1 ≠ t2 →
  ∃ i1 i2, getIndex b pc t1 = Ok i1 ∧ getIndex b pc t2 = Ok i2 ∧ i1 ≠ i2.
Proof.
  intros H (l & Hl & Ent) H1 H2 Hne. exists (index b pc t1), (index b pc t2).
  split_and!; [by eapply getIndex_Ok..|]. intros E. apply Hne.
  destruct H as [(k & Hk & En) Hmax _ _ _ _ Hnt Hlg]. unfold index in E.
  rewrite En, Hlg, Ent, !Z.log2_pow2, !land_pow2_mod in * by lia.
  assert (l ≤ k) by (apply (Z.pow_le_mono_r_iff 2); lia).
  assert (2 ^ l * 2 ^ (k - l) = 2 ^ k) as Hp by (rewrite <- Z.pow_add_r by lia; f_equal; lia).
  assert (0 < 2 ^ (k - l)) by (apply Z.pow_pos_nonneg; lia).
  set (a := Z.shiftr pc (instShiftAmt b)) in *.
  assert (∀ x, 0 ≤ x < 2 ^ l → 0 ≤ x * 2 ^ (k - l) < 2 ^ k) as Hx by (intros; nia).
  assert (t1 * 2 ^ (k - l) = t2 * 2 ^ (k - l)); [|nia].
  rewrite <- (Z.mod_small (t1 * _) (2 ^ k)), <- (Z.mod_small (t2 * _) (2 ^ k)) by auto.
  rewrite <- !Z.land_ones in * by lia. apply Z.bits_inj'. intros i Hi.
  apply (f_equal (λ z, Z.testbit z i)) in E. rewrite !Z.land_spec, !Z.lxor_spec in *.
  by destruct (Z.testbit a i), (Z.testbit (t1 * _) i), (Z.testbit (t2 * _) i), (Z.testbit (Z.ones k) i).
Qed.

End btb.

(** ** Witnesses *)
Definition btb8 : t (ISA := AlphaISA.isa) :=
  mk (replicate 8 (mkEntry 0 (AlphaISA.at_pc 0) 0 false)) 8 7 16 65535 2 5 1.

Lemma btb8_wf : wf 2 btb8.
Proof.
  split; try (vm_compute; done); try (vm_compute; split; congruence).
  exists 3. split; [lia|reflexivity].
Qed.

Lemma btb_refines_last_update_witness :
  returns (run_updates [mkUpd (ISA := AlphaISA.isa) 64 (AlphaISA.at_pc 128) 0] btb8)
    (λ b', valid b' 64 0 = Ok true ∧ lookup b' 64 0 = Ok (AlphaISA.at_pc 128)).
Proof.
  eapply returns_mono.
  - apply (btb_refines_last_update (ISA := AlphaISA.isa) 2 btb8
      [mkUpd (ISA := AlphaISA.isa) 64 (AlphaISA.at_pc 128) 0] 64 0).
    + apply btb8_wf.
    + repeat constructor.
    + repeat constructor; simpl; lia.
    + lia.
  - intros b' [_ Hb]. exact Hb.
Defined.

Lemma btb_threads_disjoint_witness :
  ∃ i1 i2, getIndex btb8 64 0 = Ok i1 ∧ getIndex btb8 64 1 = Ok i2 ∧ i1 ≠ i2.
Proof.
  apply (btb_threads_disjoint (ISA := AlphaISA.isa) 2 btb8 64 0 1).
  - apply btb8_wf.
  - exists 1. split; [lia|reflexivity].
  - lia.
  - lia.
  - lia.
Defined.

End DefaultBTB.
