(* ===== verification/Indirect.v ===== *)
(** * The indirect target predictor ([cpu/pred/indirect.hh], [indirect.cc])

    A set-associative cache of branch targets, indexed by a hash of the branch
    address, the global history and the most recent indirect targets of the
    thread, together with the per-thread path history that feeds the hash.
    [rand()] is a parameter of [recordTarget]. *)

From S2P Require Import Prelude IntMath Isa.

Module IndirectPredictor.
Section indirect.
Context {ISA : TheISA}.

Record IPredEntry := mkIPred { tag : Z; target : PCState }.

Definition IPredEntry_default : IPredEntry := mkIPred 0 (pc_of 0).

Record HistoryEntry := mkHist { pcAddr : Z; targetAddr : Z; seqNum : Z }.

(** [pathHist] is a deque: oldest entry first, [push_back] appends. *)
Record ThreadInfo := mkTI { pathHist : list HistoryEntry; headHistEntry : Z }.

Record t := mk {
  hashGHR : bool;
  hashTargets : bool;
  numSets : Z;
  numWays : Z;
  tagBits : Z;
  pathLength : Z;
  instShift : Z;
  targetCache : list (list IPredEntry);
  threadInfo : list ThreadInfo;
}.

Definition with_cache (p : t) (c : list (list IPredEntry)) : t :=
  mk (hashGHR p) (hashTargets p) (numSets p) (numWays p) (tagBits p) (pathLength p)
     (instShift p) c (threadInfo p).
Definition with_threads (p : t) (l : list ThreadInfo) : t :=
  mk (hashGHR p) (hashTargets p) (numSets p) (numWays p) (tagBits p) (pathLength p)
     (instShift p) (targetCache p) l.

Definition create (hash_ghr hash_targets : bool)
    (num_sets num_ways tag_bits path_len inst_shift num_threads : Z) : res t :=
  _ ← guard_ (isPowerOf2 num_sets)
        (Panic "Indirect predictor requires power of 2 number of sets");
  Ok (mk hash_ghr hash_targets num_sets num_ways tag_bits path_len inst_shift
         (replicate (Z.to_nat num_sets) (replicate (Z.to_nat num_ways) IPredEntry_default))
         (replicate (Z.to_nat num_threads) (mkTI [] 0))).

(** The loop of [getSetIndex]: [l] is the path history, newest entry first. *)
Fixpoint hash_path (shift hash_shift path_len : Z) (l : list HistoryEntry) (p hash : Z) : res Z :=
  match l with
  | [] => Ok hash
  | h :: l =>
      if p <? path_len then
        s ← shr64 (targetAddr h) (u32 (shift + p * hash_shift));
        hash_path shift hash_shift path_len l (p + 1) (Z.lxor hash s)
      else Ok hash
  end.

Definition getSetIndex (p : t) (br_addr ghr tid : Z) : res Z :=
  t_info ← vget (threadInfo p) tid;
  hash ← shr64 br_addr (instShift p);
  let hash := if hashGHR p then Z.lxor hash ghr else hash in
  hash ← (if hashTargets p then
            lg ← floorLog2 (numSets p);
            hash_shift ← udiv lg (pathLength p);
            hash_path (instShift p) hash_shift (pathLength p) (reverse (pathHist t_info)) 0 hash
          else Ok hash);
  Ok (Z.land hash (u32 (numSets p - 1))).

Definition getTag (p : t) (br_addr : Z) : res Z :=
  a ← shr64 br_addr (instShift p);
  m ← shl_int1 (tagBits p);
  Ok (Z.land a (m - 1)).

(** First way of the set with the given tag. *)
Fixpoint find_way (tag_ : Z) (iset : list IPredEntry) : option IPredEntry :=
  match iset with
  | [] => None
  | w :: ws => if tag w =? tag_ then Some w else find_way tag_ ws
  end.

(** [target] is an output parameter: it is the old value on a miss. *)
Definition lookup (p : t) (br_addr ghr : Z) (target_ : PCState) (tid : Z) : res (bool * PCState) :=
  set_index ← getSetIndex p br_addr ghr tid;
  tag_ ← getTag p br_addr;
  _ ← assert_ (set_index <? numSets p);
  iset ← vget (targetCache p) set_index;
  match find_way tag_ iset with
  | Some w => Ok (true, target w)
  | None => Ok (false, target_)
  end.

Definition recordIndirect (p : t) (br_addr tgt_addr seq_num tid : Z) : res t :=
  ti ← vget (threadInfo p) tid;
  l ← vset (threadInfo p) tid
        (mkTI (pathHist ti ++ [mkHist br_addr tgt_addr seq_num]) (headHistEntry ti));
  Ok (with_threads p l).

Definition commit (p : t) (seq_num tid : Z) : res t :=
  ti ← vget (threadInfo p) tid;
  if vlen (pathHist ti) =? 0 then Ok p
  else if headHistEntry ti <? vlen (pathHist ti) then
    e ← vget (pathHist ti) (headHistEntry ti);
    if seqNum e <=? seq_num then
      let ti' := if pathLength p <=? headHistEntry ti
                 then mkTI (tail (pathHist ti)) (headHistEntry ti)
                 else mkTI (pathHist ti) (u32 (headHistEntry ti + 1)) in
      l ← vset (threadInfo p) tid ti';
      Ok (with_threads p l)
    else Ok p
  else Ok p.

(** The entries before the first one younger than [seq_num]. *)
Fixpoint squash_prefix (seq_num : Z) (l : list HistoryEntry) : list HistoryEntry :=
  match l with
  | [] => []
  | h :: l => if seq_num <? seqNum h then [] else h :: squash_prefix seq_num l
  end.

Definition squash (p : t) (seq_num tid : Z) : res t :=
  ti ← vget (threadInfo p) tid;
  l ← vset (threadInfo p) tid (mkTI (squash_prefix seq_num (pathHist ti)) (headHistEntry ti));
  Ok (with_threads p l).

(** Overwrite the target of the first way with the tag, if there is one. *)
Fixpoint update_way (tag_ : Z) (tgt : PCState) (iset : list IPredEntry) : option (list IPredEntry) :=
  match iset with
  | [] => None
  | w :: ws =>
      if tag w =? tag_ then Some (mkIPred (tag w) tgt :: ws)
      else (w ::.) <$> update_way tag_ tgt ws
  end.

Definition recordTarget (rnd : Z) (p : t) (seq_num ghr : Z) (target_ : PCState) (tid : Z) : res t :=
  ti ← vget (threadInfo p) tid;
  hist_entry ← match last (pathHist ti) with Some h => Ok h | None => Err EmptyAccess end;
  (* the entry is popped while the set index is computed *)
  popped ← vset (threadInfo p) tid (mkTI (removelast (pathHist ti)) (headHistEntry ti));
  set_index ← getSetIndex (with_threads p popped) (pcAddr hist_entry) ghr tid;
  tag_ ← getTag p (pcAddr hist_entry);
  let hist_entry := mkHist (pcAddr hist_entry) (instAddr target_) (seqNum hist_entry) in
  pushed ← vset (threadInfo p) tid
             (mkTI (removelast (pathHist ti) ++ [hist_entry]) (headHistEntry ti));
  let p := with_threads p pushed in
  _ ← assert_ (set_index <? numSets p);
  iset ← vget (targetCache p) set_index;
  match update_way tag_ target_ iset with
  | Some iset' => c ← vset (targetCache p) set_index iset'; Ok (with_cache p c)
  | None =>
      w ← umod rnd (numWays p);
      iset' ← vset iset w (mkIPred tag_ target_);
      c ← vset (targetCache p) set_index iset';
      Ok (with_cache p c)
  end.

(** ** Invariant *)
Record wf (nt : Z) (p : t) : Prop := {
  wf_pow2 : is_pow2 (numSets p) ∧ numSets p < 2 ^ 32;
  wf_ways : 0 < numWays p;
  wf_sets : vlen (targetCache p) = numSets p;
  wf_set : Forall (λ s, vlen s = numWays p) (targetCache p);
  wf_shift : 0 ≤ instShift p ∧ instShift p + Z.log2 (numSets p) < 64;
  wf_path : 0 < pathLength p;
  wf_tag : 0 ≤ tagBits p < 31;
  wf_threads : vlen (threadInfo p) = nt;
}.

Lemma wf_with_threads nt p l : wf nt p → vlen l = nt → wf nt (with_threads p l).
Proof. intros [] Hl. by split. Qed.

Lemma wf_with_set nt p i s :
  wf nt p → vlen s = numWays p → wf nt (with_cache p (<[i := s]> (targetCache p))).
Proof.
  intros [] Hs. split; simpl; try done; [by rewrite vlen_insert|by apply Forall_insert].
Qed.

Lemma hash_path_Ok shift hs plen l p hash :
  0 ≤ shift → 0 ≤ hs → shift + plen * hs < 64 + hs → 0 ≤ p →
  ∃ r, hash_path shift hs plen l p hash = Ok r.
Proof.
  revert p hash. induction l as [|h l IH]; intros p hash Hs Hh Hb Hp; simpl; [eauto|].
  destruct (Z.ltb_spec p plen); [|eauto].
  assert (0 ≤ shift + p * hs < 64) by nia.
  rewrite u32_id by (unfold is_u32; lia). rewrite shr64_in by done. simpl. apply IH; lia.
Qed.

Lemma getSetIndex_Ok nt p br ghr tid :
  wf nt p → 0 ≤ tid < nt → ∃ i, getSetIndex p br ghr tid = Ok i ∧ 0 ≤ i < numSets p.
Proof.
  intros H Ht. destruct (vlookup_lt (threadInfo p) tid) as [ti Hti].
  { by rewrite (wf_threads _ _ H). }
  destruct H as [[Hp Hlt] _ _ _ [Hs Hs'] Hpl _ _]. pose proof (is_pow2_pos _ Hp).
  pose proof (Z.log2_nonneg (numSets p)).
  unfold getSetIndex. rewrite (vget_in _ _ ti) by (lia || done). simpl.
  rewrite shr64_in by lia. simpl.
  set (h0 := if hashGHR p then _ else _).
  assert (∃ r, (if hashTargets p then
            lg ← floorLog2 (numSets p);
            hash_shift ← udiv lg (pathLength p);
            hash_path (instShift p) hash_shift (pathLength p) (reverse (pathHist ti)) 0 h0
          else Ok h0) = Ok r) as [r ->].
  { destruct (hashTargets p); [|eauto]. rewrite floorLog2_log2 by lia. simpl.
    unfold udiv, guard_. destruct (Z.eqb_spec (pathLength p) 0); [lia|]. simpl.
    assert (pathLength p * (Z.log2 (numSets p) / pathLength p) ≤ Z.log2 (numSets p))
      by (apply Z.mul_div_le; lia).
    assert (0 ≤ Z.log2 (numSets p) / pathLength p) by (apply Z.div_pos; lia).
    apply hash_path_Ok; lia. }
  simpl. eexists. split; [done|]. rewrite u32_id by (unfold is_u32; lia).
  by apply land_size_bound.
Qed.

Lemma ipred_getTag_Ok nt p br :
  wf nt p → getTag p br = Ok (Z.land (Z.shiftr br (instShift p)) (2 ^ tagBits p - 1)).
Proof.
  intros []. pose proof (Z.log2_nonneg (numSets p)). unfold getTag.
  rewrite shr64_in by lia. simpl. by rewrite shl_int1_in by done.
Qed.

(** ** Operations on a thread's path history *)
Definition set_thread (p : t) (tid : Z) (ti : ThreadInfo) : t :=
  with_threads p (<[Z.to_nat tid := ti]> (threadInfo p)).

Lemma set_thread_wf nt p tid ti : wf nt p → wf nt (set_thread p tid ti).
Proof. intros H. apply wf_with_threads; [done|]. rewrite vlen_insert. apply H. Qed.

Lemma set_thread_id p tid ti :
  threadInfo p !! Z.to_nat tid = Some ti → set_thread p tid ti = p.
Proof. intros H. unfold set_thread. rewrite list_insert_id by done. by destruct p. Qed.

Section thread.
Context (nt : Z) (p : t) (tid : Z) (ti : ThreadInfo).
Context (Hwf : wf nt p) (Htid : 0 ≤ tid < nt).
Context (Hti : threadInfo p !! Z.to_nat tid = Some ti).

Lemma thread_get : vget (threadInfo p) tid = Ok ti.
Proof. apply vget_in; [lia|done]. Qed.

Lemma thread_set ti' : vset (threadInfo p) tid ti' = Ok (threadInfo (set_thread p tid ti')).
Proof. apply vset_in. by rewrite (wf_threads _ _ Hwf). Qed.

Lemma recordIndirect_Ok br tgt sn :
  recordIndirect p br tgt sn tid =
    Ok (set_thread p tid (mkTI (pathHist ti ++ [mkHist br tgt sn]) (headHistEntry ti))).
Proof. unfold recordIndirect. rewrite thread_get. simpl. by rewrite thread_set. Qed.

Lemma ipred_squash_Ok sn :
  squash p sn tid =
    Ok (set_thread p tid (mkTI (squash_prefix sn (pathHist ti)) (headHistEntry ti))).
Proof. unfold squash. rewrite thread_get. simpl. by rewrite thread_set. Qed.

(** [commit] keeps the path history or drops its oldest entry, and the latter
    only when some entry is already committed. *)
Lemma commit_Ok sn :
  0 ≤ headHistEntry ti →
  ∃ ti', commit p sn tid = Ok (set_thread p tid ti') ∧ 0 ≤ headHistEntry ti' ∧
    (pathHist ti' = pathHist ti ∨
     pathHist ti' = tail (pathHist ti) ∧ ∃ e, e ∈ pathHist ti ∧ seqNum e ≤ sn).
Proof.
  intros Hh.
  assert (Ok p = Ok (set_thread p tid ti)) as Hid by (by rewrite set_thread_id).
  unfold commit. rewrite thread_get. simpl.
  destruct (Z.eqb_spec (vlen (pathHist ti)) 0); [exists ti; auto|].
  destruct (Z.ltb_spec (headHistEntry ti) (vlen (pathHist ti))); [|exists ti; auto].
  destruct (vlookup_lt (pathHist ti) (headHistEntry ti)) as [e He]; [lia|].
  rewrite (vget_in _ _ e) by done. simpl.
  destruct (Z.leb_spec (seqNum e) sn); [|exists ti; auto].
  rewrite thread_set. simpl. eexists. split; [done|].
  destruct (Z.leb_spec (pathLength p) (headHistEntry ti)); simpl.
  - split; [done|]. right. split; [done|]. exists e. split; [|done].
    by eapply list_elem_of_lookup_2.
  - split; [apply u32_range|by left].
Qed.

Lemma ipred_lookup_Ok br ghr tgt : ∃ b tgt', lookup p br ghr tgt tid = Ok (b, tgt').
Proof.
  destruct (getSetIndex_Ok nt p br ghr tid) as (i & Hi & Hr); [done..|].
  unfold lookup. rewrite Hi, (ipred_getTag_Ok nt) by done. simpl.
  unfold assert_. destruct (Z.ltb_spec i (numSets p)); [simpl|lia].
  destruct (vlookup_lt (targetCache p) i) as [s Hs]; [rewrite (wf_sets _ _ Hwf); lia|].
  rewrite (vget_in _ _ s) by (lia || done). simpl. destruct (find_way _ _); eauto.
Qed.

End thread.

Lemma update_way_len tag_ tgt s s' : update_way tag_ tgt s = Some s' → vlen s' = vlen s.
Proof.
  unfold vlen. revert s'. induction s as [|w s IH]; intros s' H; simpl in H; [done|].
  destruct (tag w =? tag_); [by simplify_eq/=|].
  apply fmap_Some in H as (s1 & H & ->). apply IH in H. simpl. lia.
Qed.

Lemma update_way_find tag_ tgt s s' :
  update_way tag_ tgt s = Some s' → find_way tag_ s' = Some (mkIPred tag_ tgt).
Proof.
  revert s'. induction s as [|w s IH]; intros s' H; simpl in H; [done|].
  destruct (Z.eqb_spec (tag w) tag_) as [<-|Hne].
  - simplify_eq/=. by rewrite Z.eqb_refl.
  - apply fmap_Some in H as (s1 & H & ->). simpl.
    destruct (Z.eqb_spec (tag w) tag_); [done|]. by apply IH.
Qed.

Lemma update_way_none tag_ tgt s : update_way tag_ tgt s = None → find_way tag_ s = None.
Proof.
  induction s as [|w s IH]; simpl; [done|]. destruct (tag w =? tag_); [done|].
  destruct (update_way tag_ tgt s); [done|auto].
Qed.

Lemma find_way_insert tag_ tgt s i :
  (i < length s)%nat → find_way tag_ s = None →
  find_way tag_ (<[i := mkIPred tag_ tgt]> s) = Some (mkIPred tag_ tgt).
Proof.
  revert i. induction s as [|w s IH]; intros i Hi H; simpl in *; [lia|].
  destruct (tag w =? tag_) eqn:E; [done|]. destruct i as [|i]; simpl.
  - by rewrite Z.eqb_refl.
  - rewrite E. apply IH; [lia|done].
Qed.

(** [recordTarget] on a non-empty path history: the newest entry gets the
    target, and the set chosen for the popped history now maps its tag to it. *)
Lemma recordTarget_Ok nt p tid ti pre h rnd sn ghr tgt :
  wf nt p → 0 ≤ tid < nt → threadInfo p !! Z.to_nat tid = Some ti →
  pathHist ti = pre ++ [h] →
  returns (recordTarget rnd p sn ghr tgt tid) (λ p',
    let popped := set_thread p tid (mkTI pre (headHistEntry ti)) in
    wf nt p' ∧ threadInfo p' = threadInfo (set_thread p tid
       (mkTI (pre ++ [mkHist (pcAddr h) (instAddr tgt) (seqNum h)]) (headHistEntry ti))) ∧
    ∃ c, p' = with_cache (with_threads p (threadInfo p')) c ∧
      ∀ tgt0, lookup (with_cache popped c) (pcAddr h) ghr tgt0 tid = Ok (true, tgt)).
Proof.
  intros H Ht Hti Hp. unfold recordTarget.
  rewrite (thread_get nt p tid ti) by done. cbn [mbind res_bind].
  rewrite Hp, last_snoc, removelast_last. cbn [mbind res_bind].
  rewrite !(thread_set nt) by done. cbn [mbind res_bind].
  set (popped := mkTI pre (headHistEntry ti)).
  change (with_threads p (threadInfo (set_thread p tid popped))) with (set_thread p tid popped).
  pose proof (set_thread_wf nt p tid popped H) as Hpop.
  destruct (getSetIndex_Ok nt (set_thread p tid popped) (pcAddr h) ghr tid) as (i & Hi & Hr); [done..|].
  rewrite Hi. cbn [mbind res_bind]. rewrite (ipred_getTag_Ok nt) by done. cbn [mbind res_bind].
  set (tg := Z.land _ _). simpl in Hr.
  apply returns_bind, returns_assert; [simpl; lia|]. cbn [targetCache with_threads].
  apply returns_bind, returns_vget; [rewrite (wf_sets _ _ H); lia|]. intros s Hs.
  assert (vlen s = numWays p) as Hlen by (exact (Forall_lookup_1 _ _ _ _ (wf_set _ _ H) Hs)).
  assert (∀ s', vlen s' = numWays p → find_way tg s' = Some (mkIPred tg tgt) →
    ∀ tgt0, lookup (with_cache (set_thread p tid popped) (<[Z.to_nat i := s']> (targetCache p)))
      (pcAddr h) ghr tgt0 tid = Ok (true, tgt)) as Hlook.
  { intros s' Hl' Hf tgt0. unfold lookup.
    change (getSetIndex (with_cache _ _) (pcAddr h) ghr tid)
      with (getSetIndex (set_thread p tid popped) (pcAddr h) ghr tid).
    rewrite Hi. cbn [mbind res_bind].
    change (getTag (with_cache _ _) (pcAddr h)) with (getTag p (pcAddr h)).
    rewrite (ipred_getTag_Ok nt) by done. cbn [mbind res_bind].
    unfold assert_. simpl. destruct (Z.ltb_spec i (numSets p)); [simpl|lia].
    rewrite (vget_in _ _ s') by (try apply vlookup_insert_eq; rewrite ?(wf_sets _ _ H); lia).
    simpl. unfold tg in Hf. by rewrite Hf. }
  set (th := threadInfo _).
  assert (wf nt (with_threads p th)) as Hth by (by apply (set_thread_wf nt p tid)).
  destruct (update_way tg tgt s) as [s'|] eqn:Eu.
  - pose proof (update_way_len _ _ _ _ Eu) as Hl'. pose proof (update_way_find _ _ _ _ Eu) as Hf.
    apply returns_bind, returns_vset; [rewrite (wf_sets _ _ H); lia|]. simpl. split; [|split; [done|]].
    { apply (wf_with_set nt (with_threads p th)); [done|]. simpl. lia. }
    eexists. split; [done|]. apply Hlook; [lia|done].
  - pose proof (update_way_none _ _ _ Eu) as Hf.
    assert (0 < numWays p) as Hw by apply H. unfold umod.
    apply returns_bind, returns_bind, returns_guard; [simpl; lia|]. simpl.
    pose proof (Z.mod_pos_bound rnd (numWays p) Hw).
    apply returns_bind, returns_vset; [lia|].
    apply returns_bind, returns_vset; [rewrite (wf_sets _ _ H); lia|]. simpl. split; [|split; [done|]].
    { apply (wf_with_set nt (with_threads p th)); [done|]. simpl. by rewrite vlen_insert. }
    eexists. split; [done|]. apply Hlook; [by rewrite vlen_insert|].
    apply find_way_insert; [|done]. unfold vlen in Hlen. lia.
Qed.

Lemma squash_prefix_app sn l1 l2 :
  Forall (λ h, seqNum h ≤ sn) l1 → Forall (λ h, sn < seqNum h) l2 →
  squash_prefix sn (l1 ++ l2) = l1.
Proof.
  intros H1 H2. induction H1 as [|h l1 Hh H1 IH]; simpl.
  - destruct H2 as [|h l2 Hh H2]; [done|]. simpl. by destruct (Z.ltb_spec sn (seqNum h)); [|lia].
  - destruct (Z.ltb_spec sn (seqNum h)); [lia|]. by rewrite IH.
Qed.

Lemma ipred_create_Ok hg ht sets ways tagb plen shift nt :
  is_u32 sets → isPowerOf2 sets = true → 0 < ways → 0 ≤ tagb < 31 → 0 < plen →
  0 ≤ shift → shift + Z.log2 sets < 64 → 0 < nt →
  returns (create hg ht sets ways tagb plen shift nt) (λ p,
    wf nt p ∧ instShift p = shift ∧ tagBits p = tagb ∧
    Forall (λ ti, pathHist ti = [] ∧ headHistEntry ti = 0) (threadInfo p) ∧
    Forall (λ s, s = replicate (Z.to_nat ways) IPredEntry_default) (targetCache p)).
Proof.
  intros Hs Hp Hw Htb Hpl Hsh Hsl Hnt. unfold create. rewrite Hp. simpl. unfold is_u32 in Hs.
  split; [|split_and!; [done..| |]].
  - split; simpl; try lia.
    + split; [by apply isPowerOf2_iff|lia].
    + apply vlen_replicate. lia.
    + apply Forall_replicate, vlen_replicate. lia.
    + apply vlen_replicate. lia.
  - by apply Forall_replicate.
  - by apply Forall_replicate.
Qed.

(** ** Theorems *)

(** A corrected indirect target is predicted the next time the branch is
    reached along the same path. Recording the target of the youngest indirect
    branch of a thread and then squashing that branch leaves a predictor that
    answers its re-prediction, under the same global history, with a hit and the
    recorded target, whichever way the random replacement picked. *)
Theorem indirect_learns_target
    (nt : Z) (p : t) (tid : Z) (ti : ThreadInfo) (pre : list HistoryEntry) (h : HistoryEntry)
    (rnd sn sn0 ghr : Z) (tgt tgt0 : PCState) :
  wf nt p → 0 ≤ tid < nt → threadInfo p !! Z.to_nat tid = Some ti →
  pathHist ti = pre ++ [h] →
  Forall (λ e, seqNum e ≤ sn0) pre → sn0 < seqNum h →
  returns (p' ← recordTarget rnd p sn ghr tgt tid;
           p'' ← squash p' sn0 tid;
           lookup p'' (pcAddr h) ghr tgt0 tid) (λ r, r = (true, tgt)).
Proof.
  intros H Ht Hti Hp Hpre Hh. apply returns_bind.
  eapply returns_mono; [by eapply recordTarget_Ok|]. cbn zeta.
  intros p' (H' & Hth & c & Ec & Hl). specialize (Hl tgt0).
  set (ti' := mkTI (pre ++ [_]) _) in Hth.
  assert (threadInfo p' !! Z.to_nat tid = Some ti') as Hti'.
  { rewrite Hth. apply vlookup_insert_eq. by rewrite (wf_threads _ _ H). }
  rewrite (ipred_squash_Ok nt p' tid ti') by done. cbn [mbind res_bind].
  cbn [pathHist ti']. rewrite squash_prefix_app by (done || by constructor).
  assert (set_thread p' tid (mkTI pre (headHistEntry ti')) =
    with_cache (set_thread p tid (mkTI pre (headHistEntry ti))) c) as ->; [|by rewrite Hl].
  rewrite Ec. unfold set_thread, with_threads, with_cache. simpl. f_equal.
  rewrite Hth. simpl. by rewrite list_insert_insert_eq.
Qed.

(** A cold predictor reports hits. The entries have no valid bit and start
    with tag zero, so on a freshly created predictor every branch whose tag bits
    are zero hits, and is predicted to jump to address zero. *)
Theorem indirect_cold_hit (hg ht : bool) (sets ways tagb plen shift nt pc ghr tid : Z) (tgt : PCState) :
  is_u32 sets → isPowerOf2 sets = true → 0 < ways → 0 ≤ tagb < 31 → 0 < plen →
  0 ≤ shift → shift + Z.log2 sets < 64 → 0 ≤ tid < nt →
  Z.land (Z.shiftr pc shift) (2 ^ tagb - 1) = 0 →
  returns (p ← create hg ht sets ways tagb plen shift nt; lookup p pc ghr tgt tid)
    (λ r, r = (true, pc_of 0)).
Proof.
  intros Hs Hp Hw Htb Hpl Hsh Hsl Ht Htag. apply returns_bind.
  eapply returns_mono; [apply ipred_create_Ok; (done || lia)|].
  intros p (H & Es & Eb & _ & Hc). unfold lookup.
  destruct (getSetIndex_Ok nt p pc ghr tid H Ht) as (i & -> & Hi). cbn [mbind res_bind].
  rewrite (ipred_getTag_Ok nt), Es, Eb, Htag by done. cbn [mbind res_bind].
  apply returns_bind, returns_assert; [lia|].
  apply returns_bind, returns_vget; [by rewrite (wf_sets _ _ H)|].
  intros s Hsi. rewrite (Forall_lookup_1 _ _ _ _ Hc Hsi).
  destruct (Z.to_nat ways) eqn:Ew; [lia|]. done.
Qed.

End indirect.

(** ** Witnesses *)
Definition ipred4 : t (ISA := AlphaISA.isa) :=
  mk true true 4 2 16 3 2 (replicate 4 (replicate 2 IPredEntry_default))
     [mkTI [mkHist 64 128 7] 0].

Lemma ipred4_wf : wf 1 ipred4.
Proof.
  split; simpl.
  - split; [exists 2; split; [lia|reflexivity]|lia].
  - lia.
  - reflexivity.
  - repeat constructor.
  - change (Z.log2 4) with 2. lia.
  - lia.
  - lia.
  - reflexivity.
Qed.

Lemma indirect_learns_target_witness :
  returns (p' ← recordTarget 1 ipred4 7 5 (AlphaISA.at_pc 256) 0;
           p'' ← squash p' 6 0;
           lookup p'' 64 5 (AlphaISA.at_pc 0) 0) (λ r, r = (true, AlphaISA.at_pc 256)).
Proof.
  apply (indirect_learns_target (ISA := AlphaISA.isa) 1 ipred4 0 (mkTI [mkHist 64 128 7] 0) []
    (mkHist 64 128 7)); simpl; try lia; try reflexivity; [apply ipred4_wf|constructor].
Defined.

Lemma indirect_cold_hit_witness :
  returns (p ← create (ISA := AlphaISA.isa) true true 256 2 16 3 2 1;
           lookup p 0x1000000 0 (AlphaISA.at_pc 0x1000000) 0)
    (λ r, r = (true, AlphaISA.at_pc 0)).
Proof.
  apply (indirect_cold_hit (ISA := AlphaISA.isa) true true 256 2 16 3 2 1 0x1000000 0 0);
    try (unfold is_u32; lia); reflexivity.
Defined.

End IndirectPredictor.
