(* ===== verification/Predictor.v ===== *)
(** * The direction-predictor interface ([cpu/pred/bpred_unit.hh])

    [BPredUnit] leaves the direction prediction to six virtual methods.
    [DirPredictor] is that interface; [DirPredictorLaws] is what the unit's
    correctness needs from an implementation: every method returns, keeps the
    predictor well formed, and accounts for the history objects exactly (created
    by [lookup] and [uncondBranch], released by the committing [update] and by
    [squash], untouched by the rest). The unit's theorems are proved against the
    laws, and every predictor file discharges them with an [Instance].

    [dp_step] is the step relation a client of the interface induces: one method
    call at a time, on a history object it was given and has not yet given back. *)

From S2P Require Import Prelude.

Class DirPredictor (S : Type) := {
  (** [uncondBranch(tid, pc, bp_history)]: the pointer is an output *)
  dp_uncondBranch : S → Z → Z → res (ptr * S);
  (** [lookup(tid, instPC, bp_history)] *)
  dp_lookup : S → Z → Z → res (bool * ptr * S);
  (** [btbUpdate(tid, instPC, bp_history)] *)
  dp_btbUpdate : S → Z → Z → ptr → res S;
  (** [update(tid, instPC, taken, bp_history, squashed)] *)
  dp_update : S → Z → Z → bool → ptr → bool → res S;
  (** [squash(tid, bp_history)] *)
  dp_squash : S → Z → ptr → res S;
  (** [getGHR(tid, bp_history)] *)
  dp_getGHR : S → Z → ptr → res Z;
}.

(** [dp_wf nt s]: [s] is a well-formed predictor for [nt] threads.
    [dp_tracks s l]: the outstanding history objects of [s] are those of [l],
    in any order. *)
Class DirPredictorLaws (S : Type) `{DirPredictor S} := {
  dp_wf : Z → S → Prop;
  dp_tracks : S → list ptr → Prop;
  dp_tracks_perm :: ∀ s, Proper ((≡ₚ) ==> iff) (dp_tracks s);
  dp_uncondBranch_ok nt s l tid pc :
    dp_wf nt s → dp_tracks s l → 0 ≤ tid < nt →
    returns (dp_uncondBranch s tid pc) (λ r, dp_wf nt r.2 ∧ dp_tracks r.2 (r.1 :: l));
  dp_lookup_ok nt s l tid pc :
    dp_wf nt s → dp_tracks s l → 0 ≤ tid < nt →
    returns (dp_lookup s tid pc) (λ r, dp_wf nt r.2 ∧ dp_tracks r.2 (r.1.2 :: l));
  dp_btbUpdate_ok nt s p l tid pc :
    dp_wf nt s → dp_tracks s (p :: l) → 0 ≤ tid < nt →
    returns (dp_btbUpdate s tid pc p) (λ s', dp_wf nt s' ∧ dp_tracks s' (p :: l));
  dp_update_commit_ok nt s p l tid pc taken :
    dp_wf nt s → dp_tracks s (p :: l) → 0 ≤ tid < nt →
    returns (dp_update s tid pc taken p false) (λ s', dp_wf nt s' ∧ dp_tracks s' l);
  dp_update_squash_ok nt s p l tid pc taken :
    dp_wf nt s → dp_tracks s (p :: l) → 0 ≤ tid < nt →
    returns (dp_update s tid pc taken p true) (λ s', dp_wf nt s' ∧ dp_tracks s' (p :: l));
  dp_squash_ok nt s p l tid :
    dp_wf nt s → dp_tracks s (p :: l) → 0 ≤ tid < nt →
    returns (dp_squash s tid p) (λ s', dp_wf nt s' ∧ dp_tracks s' l);
  dp_getGHR_ok nt s p l tid :
    dp_wf nt s → dp_tracks s (p :: l) → 0 ≤ tid < nt →
    returns (dp_getGHR s tid p) (λ _, True);
}.


(** One call of a client that holds the history objects of the list. *)
Inductive dp_step {S : Type} `{DirPredictor S} (nt : Z) : S * list ptr → S * list ptr → Prop :=
  | step_uncondBranch s s' p l tid pc :
      0 ≤ tid < nt → dp_uncondBranch s tid pc = Ok (p, s') → dp_step nt (s, l) (s', p :: l)
  | step_lookup s s' b p l tid pc :
      0 ≤ tid < nt → dp_lookup s tid pc = Ok (b, p, s') → dp_step nt (s, l) (s', p :: l)
  | step_btbUpdate s s' p l tid pc :
      0 ≤ tid < nt → p ∈ l → dp_btbUpdate s tid pc p = Ok s' → dp_step nt (s, l) (s', l)
  | step_update_commit s s' p l l' tid pc taken :
      0 ≤ tid < nt → l ≡ₚ p :: l' → dp_update s tid pc taken p false = Ok s' → dp_step nt (s, l) (s', l')
  | step_update_squash s s' p l tid pc taken :
      0 ≤ tid < nt → p ∈ l → dp_update s tid pc taken p true = Ok s' → dp_step nt (s, l) (s', l)
  | step_squash s s' p l l' tid :
      0 ≤ tid < nt → l ≡ₚ p :: l' → dp_squash s tid p = Ok s' → dp_step nt (s, l) (s', l').

(** Scripts of calls: an executable counterpart of [dp_step]. The history object
    of a call is named by its position in the list of objects held. *)
Inductive call :=
| CUncond (tid pc : Z)
| CLookup (tid pc : Z)
| CBtbUpdate (n : nat) (tid pc : Z)
| CCommit (n : nat) (tid pc : Z) (taken : bool)
| CMispredict (n : nat) (tid pc : Z) (taken : bool)
| CSquash (n : nat) (tid : Z).

Definition call_tid (c : call) : Z :=
  match c with
  | CUncond tid _ | CLookup tid _ | CBtbUpdate _ tid _ | CCommit _ tid _ _
  | CMispredict _ tid _ _ | CSquash _ tid => tid
  end.

Definition held (l : list ptr) (n : nat) : res ptr :=
  match l !! n with Some p => Ok p | None => Err BadPointer end.

Definition dp_call {S : Type} `{DirPredictor S} (c : call) (x : S * list ptr) : res (S * list ptr) :=
  let '(s, l) := x in
  match c with
  | CUncond tid pc => '(p, s) ← dp_uncondBranch s tid pc; Ok (s, p :: l)
  | CLookup tid pc => '(_, p, s) ← dp_lookup s tid pc; Ok (s, p :: l)
  | CBtbUpdate n tid pc => p ← held l n; s ← dp_btbUpdate s tid pc p; Ok (s, l)
  | CCommit n tid pc taken => p ← held l n; s ← dp_update s tid pc taken p false; Ok (s, delete n l)
  | CMispredict n tid pc taken => p ← held l n; s ← dp_update s tid pc taken p true; Ok (s, l)
  | CSquash n tid => p ← held l n; s ← dp_squash s tid p; Ok (s, delete n l)
  end.

Fixpoint dp_run {S : Type} `{DirPredictor S} (cs : list call) (x : S * list ptr) : res (S * list ptr) :=
  match cs with
  | [] => Ok x
  | c :: cs => x ← dp_call c x; dp_run cs x
  end.

Lemma held_Ok l n p : held l n = Ok p → l !! n = Some p.
Proof. unfold held. destruct (l !! n); congruence. Qed.

Lemma dp_call_step {S : Type} `{DirPredictor S} nt c (x y : S * list ptr) :
  0 ≤ call_tid c < nt → dp_call c x = Ok y → dp_step nt x y.
Proof.
  destruct x as [s l]. intros Ht E. destruct c; cbn in E, Ht;
    apply bind_Ok in E as (a & Ea & E).
  - destruct a as [p s']. injection E as <-. by eapply step_uncondBranch.
  - destruct a as [[b p] s']. injection E as <-. by eapply step_lookup.
  - apply held_Ok in Ea. apply bind_Ok in E as (s' & Es & E). injection E as <-.
    eapply step_btbUpdate; [done| |done]. by eapply list_elem_of_lookup_2.
  - apply held_Ok in Ea. apply bind_Ok in E as (s' & Es & E). injection E as <-.
    eapply step_update_commit; [done| |done]. by apply delete_Permutation.
  - apply held_Ok in Ea. apply bind_Ok in E as (s' & Es & E). injection E as <-.
    eapply step_update_squash; [done| |done]. by eapply list_elem_of_lookup_2.
  - apply held_Ok in Ea. apply bind_Ok in E as (s' & Es & E). injection E as <-.
    eapply step_squash; [done| |done]. by apply delete_Permutation.
Qed.

Lemma dp_run_steps {S : Type} `{DirPredictor S} nt cs (x y : S * list ptr) :
  forallb (λ c, (0 <=? call_tid c) && (call_tid c <? nt)) cs = true →
  dp_run cs x = Ok y → rtc (dp_step nt) x y.
Proof.
  revert x. induction cs as [|c cs IH]; intros x Hc E; cbn in E, Hc.
  - injection E as <-. apply rtc_refl.
  - apply bind_Ok in E as (z & Ez & E). apply andb_prop in Hc as [Hc Hcs].
    apply andb_prop in Hc as [H1%Z.leb_le H2%Z.ltb_lt].
    eapply rtc_l; [by eapply dp_call_step|by apply IH].
Qed.

Section steps.
Context {S : Type} `{DirPredictorLaws S} (nt : Z).

Definition dp_ok (x : S * list ptr) : Prop := dp_wf nt x.1 ∧ dp_tracks x.1 x.2.

Lemma dp_step_ok x y : dp_step nt x y → dp_ok x → dp_ok y.
Proof.
  intros Hst [Hw Ht]. destruct Hst; cbn [fst snd] in *.
  - pose proof (dp_uncondBranch_ok nt s l tid pc Hw Ht) as Hr. rewrite H2 in Hr. by apply Hr.
  - pose proof (dp_lookup_ok nt s l tid pc Hw Ht) as Hr. rewrite H2 in Hr. by apply Hr.
  - apply elem_of_Permutation in H2 as [k Hk]. rewrite Hk in Ht.
    pose proof (dp_btbUpdate_ok nt s p k tid pc Hw Ht) as Hr. rewrite H3 in Hr.
    split; [by apply Hr|cbn; rewrite Hk; by apply Hr].
  - rewrite H2 in Ht. pose proof (dp_update_commit_ok nt s p l' tid pc taken Hw Ht) as Hr.
    rewrite H3 in Hr. by apply Hr.
  - apply elem_of_Permutation in H2 as [k Hk]. rewrite Hk in Ht.
    pose proof (dp_update_squash_ok nt s p k tid pc taken Hw Ht) as Hr. rewrite H3 in Hr.
    split; [by apply Hr|cbn; rewrite Hk; by apply Hr].
  - rewrite H2 in Ht. pose proof (dp_squash_ok nt s p l' tid Hw Ht) as Hr.
    rewrite H3 in Hr. by apply Hr.
Qed.

Lemma dp_steps_ok x y : rtc (dp_step nt) x y → dp_ok x → dp_ok y.
Proof. induction 1; eauto using dp_step_ok. Qed.

(** A quantity no method changes is the same after any run. *)
Lemma dp_steps_preserve {C} (f : S → C) :
  (∀ x y, dp_step nt x y → f y.1 = f x.1) → ∀ x y, rtc (dp_step nt) x y → f y.1 = f x.1.
Proof. intros Hf x y. induction 1 as [|x y z Hxy _ IH]; [done|]. by rewrite IH, (Hf x y). Qed.

End steps.
