(* ===== verification/BPredUnit.v ===== *)
(** * The branch prediction unit ([cpu/pred/bpred_unit.hh], [bpred_unit.cc])

    [predict], [update] and the two [squash] methods over the BTB, the return
    address stacks, the indirect predictor and a direction predictor given by
    its interface [DirPredictor].  The speculative branch history of a thread is
    a deque with the youngest branch at the front. *)

From S2P Require Import Prelude IntMath Isa Ras Btb Indirect Predictor.

Module BPredUnit.
Section unit.
Context {ISA : TheISA}.
Context {S : Type} `{DirPredictor S}.

Record PredictorHistory := mkPH {
  seqNum : Z;
  pc : Z;
  bpHistory : ptr;
  RASTarget : PCState;
  RASIndex : Z;
  tid : Z;
  predTaken : bool;
  usedRAS : bool;
  pushedRAS : bool;
  wasCall : bool;
  wasReturn : bool;
  wasIndirect : bool;
}.

Definition PredictorHistory_new (seq_num instPC : Z) (pred_taken : bool) (bp_history : ptr)
    (_tid : Z) : PredictorHistory :=
  mkPH seq_num instPC bp_history (pc_of 0) 0 _tid pred_taken false false false false false.

Definition set_predTaken (b : bool) (h : PredictorHistory) : PredictorHistory :=
  mkPH (seqNum h) (pc h) (bpHistory h) (RASTarget h) (RASIndex h) (tid h) b
       (usedRAS h) (pushedRAS h) (wasCall h) (wasReturn h) (wasIndirect h).
Definition set_usedRAS (b : bool) (h : PredictorHistory) : PredictorHistory :=
  mkPH (seqNum h) (pc h) (bpHistory h) (RASTarget h) (RASIndex h) (tid h) (predTaken h)
       b (pushedRAS h) (wasCall h) (wasReturn h) (wasIndirect h).
Definition set_RAS_entry (i : Z) (a : PCState) (h : PredictorHistory) : PredictorHistory :=
  mkPH (seqNum h) (pc h) (bpHistory h) a i (tid h) (predTaken h)
       (usedRAS h) (pushedRAS h) (wasCall h) (wasReturn h) (wasIndirect h).
Definition set_pushedRAS (b : bool) (h : PredictorHistory) : PredictorHistory :=
  mkPH (seqNum h) (pc h) (bpHistory h) (RASTarget h) (RASIndex h) (tid h) (predTaken h)
       (usedRAS h) b (wasCall h) (wasReturn h) (wasIndirect h).
Definition set_wasCall (b : bool) (h : PredictorHistory) : PredictorHistory :=
  mkPH (seqNum h) (pc h) (bpHistory h) (RASTarget h) (RASIndex h) (tid h) (predTaken h)
       (usedRAS h) (pushedRAS h) b (wasReturn h) (wasIndirect h).
Definition set_wasReturn (b : bool) (h : PredictorHistory) : PredictorHistory :=
  mkPH (seqNum h) (pc h) (bpHistory h) (RASTarget h) (RASIndex h) (tid h) (predTaken h)
       (usedRAS h) (pushedRAS h) (wasCall h) b (wasIndirect h).
Definition set_wasIndirect (b : bool) (h : PredictorHistory) : PredictorHistory :=
  mkPH (seqNum h) (pc h) (bpHistory h) (RASTarget h) (RASIndex h) (tid h) (predTaken h)
       (usedRAS h) (pushedRAS h) (wasCall h) (wasReturn h) b.

(** The [Stats::Scalar] counters and the two probe points the unit bumps. *)
Inductive stat :=
| lookups | condPredicted | condIncorrect | BTBLookups | BTBHits | BTBCorrect
| stat_usedRAS | RASIncorrect | indirectLookups | indirectHits | indirectMisses
| indirectMispredicted | ppBranches | ppMisses.

#[global] Instance stat_eq_dec : EqDecision stat.
Proof. solve_decision. Defined.

Record t := mk {
  numThreads : Z;
  predHist : list (list PredictorHistory);
  BTB : DefaultBTB.t;
  RAS : list ReturnAddrStack.t;
  useIndirect : bool;
  iPred : IndirectPredictor.t;
  instShiftAmt : Z;
  stats : stat → Z;
  bp : S;                       (** the state of the derived class *)
}.

Definition with_predHist (l : list (list PredictorHistory)) (u : t) : t :=
  mk (numThreads u) l (BTB u) (RAS u) (useIndirect u) (iPred u) (instShiftAmt u) (stats u) (bp u).
Definition with_BTB (b : DefaultBTB.t) (u : t) : t :=
  mk (numThreads u) (predHist u) b (RAS u) (useIndirect u) (iPred u) (instShiftAmt u) (stats u) (bp u).
Definition with_RAS (r : list ReturnAddrStack.t) (u : t) : t :=
  mk (numThreads u) (predHist u) (BTB u) r (useIndirect u) (iPred u) (instShiftAmt u) (stats u) (bp u).
Definition with_iPred (p : IndirectPredictor.t) (u : t) : t :=
  mk (numThreads u) (predHist u) (BTB u) (RAS u) (useIndirect u) p (instShiftAmt u) (stats u) (bp u).
Definition with_bp (s : S) (u : t) : t :=
  mk (numThreads u) (predHist u) (BTB u) (RAS u) (useIndirect u) (iPred u) (instShiftAmt u) (stats u) s.
(** [++stat] *)
Definition bump (k : stat) (u : t) : t :=
  mk (numThreads u) (predHist u) (BTB u) (RAS u) (useIndirect u) (iPred u) (instShiftAmt u)
     (λ k', if decide (k = k') then stats u k' + 1 else stats u k') (bp u).

(** [RAS[tid]] replaced. *)
Definition set_RAS (u : t) (tid : Z) (r : ReturnAddrStack.t) : res t :=
  l ← vset (RAS u) tid r; Ok (with_RAS l u).

(** [RAS[tid].pop()] *)
Definition pop_RAS (u : t) (tid : Z) : res t :=
  r ← vget (RAS u) tid; set_RAS u tid (ReturnAddrStack.pop r).

Record Params := mkParams {
  p_numThreads : Z;
  p_BTBEntries : Z;
  p_BTBTagSize : Z;
  p_RASSize : Z;
  p_instShiftAmt : Z;
  p_useIndirect : bool;
  p_indirectHashGHR : bool;
  p_indirectHashTargets : bool;
  p_indirectSets : Z;
  p_indirectWays : Z;
  p_indirectTagSize : Z;
  p_indirectPathLength : Z;
}.

Definition create (indet : Z) (params : Params) (derived : S) : res t :=
  btb ← DefaultBTB.create indet (p_BTBEntries params) (p_BTBTagSize params)
          (p_instShiftAmt params) (p_numThreads params);
  ip ← IndirectPredictor.create (p_indirectHashGHR params) (p_indirectHashTargets params)
         (p_indirectSets params) (p_indirectWays params) (p_indirectTagSize params)
         (p_indirectPathLength params) (p_instShiftAmt params) (p_numThreads params);
  Ok (mk (p_numThreads params)
         (replicate (Z.to_nat (p_numThreads params)) [])
         btb
         (replicate (Z.to_nat (p_numThreads params)) (ReturnAddrStack.init (p_RASSize params)))
         (p_useIndirect params) ip (p_instShiftAmt params) (λ _, 0) derived).

Definition drainSanityCheck (u : t) : res unit :=
  assert_ (forallb (λ ph, match ph with [] => true | _ => false end) (predHist u)).

(** A predicted-taken return: the target is the top of the stack. *)
Definition predict_return (u : t) (pc : PCState) (tid : Z) (predict_record : PredictorHistory)
    : res (t * PredictorHistory * PCState) :=
  let u := bump stat_usedRAS u in
  let predict_record := set_wasReturn true predict_record in
  r ← vget (RAS u) tid;
  rasTop ← ReturnAddrStack.top r;
  let target := buildRetPC pc rasTop in
  let predict_record := set_usedRAS true predict_record in
  let predict_record := set_RAS_entry (ReturnAddrStack.topIdx r) rasTop predict_record in
  u ← set_RAS u tid (ReturnAddrStack.pop r);
  Ok (u, predict_record, target).

(** A predicted-taken call pushes its own address. *)
Definition predict_call (u : t) (inst : StaticInst) (pc : PCState) (tid : Z)
    (predict_record : PredictorHistory) : res (t * PredictorHistory) :=
  if isCall inst then
    r ← vget (RAS u) tid;
    r ← ReturnAddrStack.push pc r;
    u ← set_RAS u tid r;
    Ok (u, set_wasCall true (set_pushedRAS true predict_record))
  else Ok (u, predict_record).

(** The target of a direct branch (or of any branch when the indirect predictor
    is off) comes from the BTB; a miss turns the prediction to not taken. *)
Definition predict_btb (u : t) (inst : StaticInst) (pc : PCState) (tid : Z) (bp_history : ptr)
    (target : PCState) (predict_record : PredictorHistory)
    : res (t * PredictorHistory * PCState * bool) :=
  v ← DefaultBTB.valid (BTB u) (instAddr pc) tid;
  if v : bool then
    let u := bump BTBHits u in
    target ← DefaultBTB.lookup (BTB u) (instAddr pc) tid;
    Ok (u, predict_record, target, true)
  else
    '(u, predict_record) ←
      (if negb (isCall inst) && negb (isReturn inst) then
         s ← dp_btbUpdate (bp u) tid (instAddr pc) bp_history;
         Ok (with_bp s u, predict_record)
       else if isCall inst && negb (isUncondCtrl inst) then
         u ← pop_RAS u tid;
         Ok (u, set_pushedRAS false predict_record)
       else Ok (u, predict_record));
    Ok (u, predict_record, advancePC target inst, false).

Definition predict_indirect (u : t) (inst : StaticInst) (seqNum : Z) (pc : PCState) (tid : Z)
    (bp_history : ptr) (target : PCState) (predict_record : PredictorHistory)
    : res (t * PredictorHistory * PCState * bool) :=
  let predict_record := set_wasIndirect true predict_record in
  let u := bump indirectLookups u in
  ghr ← dp_getGHR (bp u) tid bp_history;
  '(found, target) ← IndirectPredictor.lookup (iPred u) (instAddr pc) ghr target tid;
  '(u, predict_record, target, pred_taken) ←
    (if found : bool then Ok (bump indirectHits u, predict_record, target, true)
     else
       let u := bump indirectMisses u in
       '(u, predict_record) ←
         (if negb (isCall inst) && negb (isReturn inst) then Ok (u, predict_record)
          else if isCall inst && negb (isUncondCtrl inst) then
            u ← pop_RAS u tid;
            Ok (u, set_pushedRAS false predict_record)
          else Ok (u, predict_record));
       Ok (u, predict_record, advancePC target inst, false));
  ip ← IndirectPredictor.recordIndirect (iPred u) (instAddr pc) (instAddr target) seqNum tid;
  Ok (with_iPred ip u, predict_record, target, pred_taken).

(** [predict]: the direction, the predicted PC (an output parameter) and the
    unit after the prediction. *)
Definition predict (u : t) (inst : StaticInst) (seqNum : Z) (pc : PCState) (tid : Z)
    : res (bool * PCState * t) :=
  let u := bump ppBranches (bump lookups u) in
  '(pred_taken, bp_history, u) ←
    (if isUncondCtrl inst then
       '(p, s) ← dp_uncondBranch (bp u) tid (instAddr pc);
       Ok (true, p, with_bp s u)
     else
       let u := bump condPredicted u in
       '(b, p, s) ← dp_lookup (bp u) tid (instAddr pc);
       Ok (b, p, with_bp s u));
  let predict_record := PredictorHistory_new seqNum (instAddr pc) pred_taken bp_history tid in
  '(u, predict_record, target, pred_taken) ←
    (if pred_taken : bool then
       if isReturn inst then
         '(u, predict_record, target) ← predict_return u pc tid predict_record;
         Ok (u, predict_record, target, true)
       else
         let u := bump BTBLookups u in
         '(u, predict_record) ← predict_call u inst pc tid predict_record;
         if isDirectCtrl inst || negb (useIndirect u)
         then predict_btb u inst pc tid bp_history pc predict_record
         else predict_indirect u inst seqNum pc tid bp_history pc predict_record
     else
       let predict_record :=
         if isReturn inst then set_wasReturn true predict_record else predict_record in
       Ok (u, predict_record, advancePC pc inst, false));
  ph ← vget (predHist u) tid;
  l ← vset (predHist u) tid (predict_record :: ph);
  Ok (pred_taken, target, with_predHist l u).

(** The loop of [update]: [hist] is the thread's history, oldest branch first.
    Branches up to [done_sn] are committed; the rest is returned. *)
Fixpoint commit_loop (s : S) (done_sn tid : Z) (hist : list PredictorHistory)
    : res (S * list PredictorHistory) :=
  match hist with
  | [] => Ok (s, [])
  | h :: hist' =>
      if seqNum h <=? done_sn then
        s ← dp_update s tid (pc h) (predTaken h) (bpHistory h) false;
        commit_loop s done_sn tid hist'
      else Ok (s, hist)
  end.

Definition update (u : t) (done_sn tid : Z) : res t :=
  ip ← IndirectPredictor.commit (iPred u) done_sn tid;
  ph ← vget (predHist u) tid;
  '(s, rest) ← commit_loop (bp u) done_sn tid (reverse ph);
  l ← vset (predHist u) tid (reverse rest);
  Ok (with_predHist l (with_bp s (with_iPred ip u))).

(** The loop of [squash]: youngest branch first. *)
Fixpoint squash_loop (s : S) (r : ReturnAddrStack.t) (squashed_sn tid : Z)
    (hist : list PredictorHistory) : res (S * ReturnAddrStack.t * list PredictorHistory) :=
  match hist with
  | [] => Ok (s, r, [])
  | h :: hist' =>
      if squashed_sn <? seqNum h then
        r ← (if usedRAS h then ReturnAddrStack.restore (RASIndex h) (RASTarget h) r
             else if wasCall h && pushedRAS h then Ok (ReturnAddrStack.pop r)
             else Ok r);
        s ← dp_squash s tid (bpHistory h);
        squash_loop s r squashed_sn tid hist'
      else Ok (s, r, hist)
  end.

Definition squash (u : t) (squashed_sn tid : Z) : res t :=
  ip ← IndirectPredictor.squash (iPred u) squashed_sn tid;
  ph ← vget (predHist u) tid;
  r ← vget (RAS u) tid;
  '(s, r, rest) ← squash_loop (bp u) r squashed_sn tid ph;
  u ← set_RAS u tid r;
  l ← vset (predHist u) tid rest;
  Ok (with_predHist l (with_bp s (with_iPred ip u))).

(** The correction of the mispredicted branch [hist_it], now at the front. *)
Definition squash_fixup (rnd : Z) (u : t) (corrTarget : PCState) (actually_taken : bool)
    (tid_ : Z) (hist_it : PredictorHistory) : res (t * PredictorHistory) :=
  let u := if usedRAS hist_it then bump RASIncorrect u else u in
  ghr ← dp_getGHR (bp u) tid_ (bpHistory hist_it);
  let hist_it := set_predTaken actually_taken hist_it in
  s ← dp_update (bp u) tid_ (pc hist_it) actually_taken (bpHistory hist_it) true;
  let u := with_bp s u in
  if actually_taken then
    '(u, hist_it) ←
      (if wasReturn hist_it && negb (usedRAS hist_it) then
         u ← pop_RAS u tid_; Ok (u, set_usedRAS true hist_it)
       else Ok (u, hist_it));
    if wasIndirect hist_it then
      let u := bump indirectMispredicted u in
      ip ← IndirectPredictor.recordTarget rnd (iPred u) (seqNum hist_it) ghr corrTarget tid_;
      Ok (with_iPred ip u, hist_it)
    else
      b ← DefaultBTB.update (BTB u) (pc hist_it) corrTarget tid_;
      Ok (with_BTB b u, hist_it)
  else if usedRAS hist_it then
    r ← vget (RAS u) tid_;
    r ← ReturnAddrStack.restore (RASIndex hist_it) (RASTarget hist_it) r;
    u ← set_RAS u tid_ r;
    Ok (u, set_usedRAS false hist_it)
  else if wasCall hist_it && pushedRAS hist_it then
    u ← pop_RAS u tid_;
    Ok (u, set_pushedRAS false hist_it)
  else Ok (u, hist_it).

Definition squash_mispredict (rnd : Z) (u : t) (squashed_sn : Z) (corrTarget : PCState)
    (actually_taken : bool) (tid : Z) : res t :=
  let u := bump ppMisses (bump condIncorrect u) in
  u ← squash u squashed_sn tid;
  ph ← vget (predHist u) tid;
  match ph with
  | [] => Ok u
  | hist_it :: ph' =>
      _ ← assert_ (seqNum hist_it =? squashed_sn);
      '(u, hist_it) ← squash_fixup rnd u corrTarget actually_taken tid hist_it;
      l ← vset (predHist u) tid (hist_it :: ph');
      Ok (with_predHist l u)
  end.

End unit.
End BPredUnit.
