(* ===== verification/BPredUnitInv.v ===== *)
(** * The branch prediction unit: invariant and safety

    What every sequence of [predict], [update] and [squash] calls keeps: the
    direction predictor's outstanding history objects are exactly those the
    per-thread branch histories point to, the histories are ordered by sequence
    number, the recorded return-stack indices are in range, and the path history
    of the indirect predictor ends with the indirect branches in flight.  All of
    it is proved against the interface laws, for any direction predictor. *)

From S2P Require Import Prelude IntMath Isa Ras Btb Indirect Predictor BPredUnit.

Module UnitInv.
Import BPredUnit.
Section inv.
Context {ISA : TheISA}.
Context {S : Type} `{DirPredictorLaws S}.
Local Notation t := (@BPredUnit.t ISA S).

(** ** The invariant *)
Definition key (h : PredictorHistory) : Z * Z := (pc h, seqNum h).
Definition path_key (e : IndirectPredictor.HistoryEntry) : Z * Z :=
  (IndirectPredictor.pcAddr e, IndirectPredictor.seqNum e).

(** Youngest first. *)
Definition younger_first : list PredictorHistory → Prop :=
  StronglySorted (λ a b, seqNum b < seqNum a).

(** The part of the state that belongs to one thread. *)
Record thread_inv (r : ReturnAddrStack.t) (ti : IndirectPredictor.ThreadInfo)
    (ph : list PredictorHistory) : Prop := {
  ti_sorted : younger_first ph;
  ti_ras : ReturnAddrStack.wf r;
  ti_idx : Forall (λ h, 0 ≤ RASIndex h < ReturnAddrStack.numEntries r) ph;
  ti_head : 0 ≤ IndirectPredictor.headHistEntry ti;
  ti_path_sorted :
    StronglySorted (λ a b, IndirectPredictor.seqNum a < IndirectPredictor.seqNum b)
      (IndirectPredictor.pathHist ti);
  ti_path : ∃ pre, path_key <$> IndirectPredictor.pathHist ti =
              pre ++ reverse (key <$> filter (λ h, wasIndirect h = true) ph);
}.

Record inv (u : t) : Prop := {
  i_hist_len : vlen (predHist u) = numThreads u;
  i_ras_len : vlen (RAS u) = numThreads u;
  i_btb : DefaultBTB.wf (numThreads u) (BTB u);
  i_ip : IndirectPredictor.wf (numThreads u) (iPred u);
  i_bp : dp_wf (numThreads u) (bp u);
  i_tracks : dp_tracks (bp u) (bpHistory <$> mjoin (predHist u));
  i_thread i r ti ph :
    RAS u !! i = Some r → IndirectPredictor.threadInfo (iPred u) !! i = Some ti →
    predHist u !! i = Some ph → thread_inv r ti ph;
}.

(** ** One thread in focus

    [focus u0 tid u r ti l]: [u] is [u0] except that thread [tid] now has the
    return stack [r] and the path information [ti], that the direction predictor
    tracks [l], and that the shared tables may have changed. *)
Record focus (u0 : t) (tid : Z) (u : t) (r : ReturnAddrStack.t)
    (ti : IndirectPredictor.ThreadInfo) (l : list ptr) : Prop := {
  f_nt : numThreads u = numThreads u0;
  f_hist : predHist u = predHist u0;
  f_ras : RAS u = <[Z.to_nat tid := r]> (RAS u0);
  f_ti : IndirectPredictor.threadInfo (iPred u) =
           <[Z.to_nat tid := ti]> (IndirectPredictor.threadInfo (iPred u0));
  f_btb : DefaultBTB.wf (numThreads u0) (BTB u);
  f_ip : IndirectPredictor.wf (numThreads u0) (iPred u);
  f_bp : dp_wf (numThreads u0) (bp u);
  f_tracks : dp_tracks (bp u) l;
}.

(** The pointers held by the other threads' histories. *)
Definition others (u : t) (tid : Z) : list ptr :=
  bpHistory <$> mjoin (delete (Z.to_nat tid) (predHist u)).

Lemma focus_start u tid :
  inv u → 0 ≤ tid < numThreads u →
  ∃ r ti ph, predHist u !! Z.to_nat tid = Some ph ∧ thread_inv r ti ph ∧
    RAS u !! Z.to_nat tid = Some r ∧
    IndirectPredictor.threadInfo (iPred u) !! Z.to_nat tid = Some ti ∧
    focus u tid u r ti ((bpHistory <$> ph) ++ others u tid).
Proof.
  intros Hi Ht. destruct (vlookup_lt (predHist u) tid) as [ph Hph]; [by rewrite (i_hist_len _ Hi)|].
  destruct (vlookup_lt (RAS u) tid) as [r Hr]; [by rewrite (i_ras_len _ Hi)|].
  destruct (vlookup_lt (IndirectPredictor.threadInfo (iPred u)) tid) as [ti Hti].
  { by rewrite (IndirectPredictor.wf_threads _ _ (i_ip _ Hi)). }
  exists r, ti, ph. split_and!; [done|by eapply (i_thread _ Hi)|done..|].
  pose proof (i_tracks _ Hi) as Htr.
  rewrite (join_lookup_perm _ _ _ Hph), fmap_app in Htr.
  destruct Hi. split; try done; by rewrite list_insert_id.
Qed.

Lemma focus_finish u0 tid u r ti ph ph' :
  inv u0 → 0 ≤ tid < numThreads u0 → predHist u0 !! Z.to_nat tid = Some ph →
  focus u0 tid u r ti ((bpHistory <$> ph') ++ others u0 tid) → thread_inv r ti ph' →
  inv (with_predHist (<[Z.to_nat tid := ph']> (predHist u0)) u).
Proof.
  intros Hi Ht Hph [Hnt Hh Hr Hti Hb Hip Hbp Htr] Hth. split; simpl; rewrite ?Hnt; try done.
  - rewrite vlen_insert. apply Hi.
  - rewrite Hr, vlen_insert. apply Hi.
  - by rewrite (join_insert_perm _ _ ph) by done; rewrite fmap_app.
  - intros i r1 ti1 ph1 H1 H2 H3. rewrite Hr in H1. rewrite Hti in H2.
    destruct (decide (i = Z.to_nat tid)) as [->|Hne].
    + apply lookup_lt_Some in Hph as ?. rewrite list_lookup_insert_eq in H3 by done.
      pose proof (i_ras_len _ Hi) as L1. pose proof (i_hist_len _ Hi) as L2.
      pose proof (IndirectPredictor.wf_threads _ _ (i_ip _ Hi)) as L3. unfold vlen in *.
      rewrite list_lookup_insert_eq in H1 by lia. rewrite list_lookup_insert_eq in H2 by lia.
      by simplify_eq.
    + rewrite list_lookup_insert_ne in H1 by done. rewrite list_lookup_insert_ne in H2 by done.
      rewrite list_lookup_insert_ne in H3 by done. by eapply (i_thread _ Hi).
Qed.

(** ** Steps under focus *)
Section steps.
Context (u0 : t) (tid : Z) (Hi : inv u0) (Ht : 0 ≤ tid < numThreads u0).

Lemma focus_bump u r ti l k : focus u0 tid u r ti l → focus u0 tid (bump k u) r ti l.
Proof. intros []. by split. Qed.

Lemma focus_with_bp u r ti l l' s :
  focus u0 tid u r ti l → dp_wf (numThreads u0) s → dp_tracks s l' →
  focus u0 tid (with_bp s u) r ti l'.
Proof. intros []. by split. Qed.

Lemma focus_get_RAS u r ti l : focus u0 tid u r ti l → vget (RAS u) tid = Ok r.
Proof.
  intros Hf. rewrite (f_ras _ _ _ _ _ _ Hf). apply vget_in; [lia|].
  apply vlookup_insert_eq. by rewrite (i_ras_len _ Hi).
Qed.

Lemma focus_set_RAS u r ti l r' :
  focus u0 tid u r ti l → returns (set_RAS u tid r') (λ u', focus u0 tid u' r' ti l).
Proof.
  intros Hf. unfold set_RAS. apply returns_bind, returns_vset.
  { rewrite (f_ras _ _ _ _ _ _ Hf), vlen_insert. by rewrite (i_ras_len _ Hi). }
  destruct Hf as [? ? Hr ? ? ? ? ?]. split; simpl; try done.
  by rewrite Hr, list_insert_insert_eq.
Qed.

Lemma focus_pop_RAS u r ti l :
  focus u0 tid u r ti l →
  returns (pop_RAS u tid) (λ u', focus u0 tid u' (ReturnAddrStack.pop r) ti l).
Proof.
  intros Hf. unfold pop_RAS. rewrite (focus_get_RAS u r ti l) by done. simpl.
  by eapply focus_set_RAS.
Qed.

Lemma focus_thread u r ti l :
  focus u0 tid u r ti l →
  IndirectPredictor.threadInfo (iPred u) !! Z.to_nat tid = Some ti.
Proof.
  intros Hf. rewrite (f_ti _ _ _ _ _ _ Hf). apply vlookup_insert_eq.
  by rewrite (IndirectPredictor.wf_threads _ _ (i_ip _ Hi)).
Qed.

Lemma focus_with_thread u r ti l ti' :
  focus u0 tid u r ti l →
  focus u0 tid (with_iPred (IndirectPredictor.set_thread (iPred u) tid ti') u) r ti' l.
Proof.
  intros [? ? ? Hti ? Hip ? ?]. split; simpl; try done.
  - by rewrite Hti, list_insert_insert_eq.
  - by apply IndirectPredictor.set_thread_wf.
Qed.

End steps.

(** ** [predict] *)

(** What [predict] knows of the record under construction. *)
Record rec_ok (sn : Z) (p : ptr) (r : ReturnAddrStack.t) (ti ti' : IndirectPredictor.ThreadInfo)
    (h : PredictorHistory) : Prop := {
  r_sn : seqNum h = sn;
  r_ptr : bpHistory h = p;
  r_idx : 0 ≤ RASIndex h < ReturnAddrStack.numEntries r;
  r_ras : ReturnAddrStack.wf r;
  r_head : IndirectPredictor.headHistEntry ti' = IndirectPredictor.headHistEntry ti;
  r_path : if wasIndirect h
           then ∃ a, IndirectPredictor.pathHist ti' =
                     IndirectPredictor.pathHist ti ++ [IndirectPredictor.mkHist (pc h) a sn]
           else IndirectPredictor.pathHist ti' = IndirectPredictor.pathHist ti;
}.

(** A fresh sequence number for thread [tid]. *)
Definition fresh_sn (sn : Z) (ti : IndirectPredictor.ThreadInfo) (ph : list PredictorHistory) : Prop :=
  Forall (λ h, seqNum h < sn) ph ∧
  Forall (λ e, IndirectPredictor.seqNum e < sn) (IndirectPredictor.pathHist ti).

Lemma thread_inv_push sn p r r' ti ti' ph h :
  thread_inv r ti ph → fresh_sn sn ti ph → rec_ok sn p r' ti ti' h →
  ReturnAddrStack.numEntries r' = ReturnAddrStack.numEntries r → thread_inv r' ti' (h :: ph).
Proof.
  intros [Hs Hr Hidx Hh Hps [pre Hpre]] [Hf1 Hf2] [Hsn Hp Hi Hw Hh' Hpath] Hn.
  assert (younger_first (h :: ph)) as Hsorted by (constructor; [done|by rewrite Hsn]).
  assert (Forall (λ h, 0 ≤ RASIndex h < ReturnAddrStack.numEntries r') (h :: ph)) as Hidx'.
  { constructor; [done|by rewrite Hn]. }
  destruct (wasIndirect h) eqn:Ei.
  - destruct Hpath as [a Hpath]. split; try done; [lia|rewrite Hpath..].
    + by apply (increasing_snoc IndirectPredictor.seqNum).
    + exists pre. rewrite fmap_app, Hpre, filter_cons, decide_True by done.
      rewrite (fmap_cons key), reverse_cons, app_assoc. f_equal. unfold key. by rewrite Hsn.
  - split; try done; [lia|by rewrite Hpath|].
    exists pre. by rewrite Hpath, Hpre, filter_cons, decide_False by congruence.
Qed.

Section predict.
Context (u0 : t) (tid : Z) (Hi : inv u0) (Ht : 0 ≤ tid < numThreads u0).
Context (sn a N : Z) (p : ptr) (ti0 : IndirectPredictor.ThreadInfo) (l : list ptr).

(** The state in the middle of [predict], before the path history grows. *)
Definition pred_mid (u : t) (h : PredictorHistory) : Prop :=
  ∃ r, focus u0 tid u r ti0 l ∧ rec_ok sn p r ti0 ti0 h ∧
       wasIndirect h = false ∧ pc h = a ∧ ReturnAddrStack.numEntries r = N.

(** The state at the end of [predict], before the record is pushed. *)
Definition pred_post (u : t) (h : PredictorHistory) : Prop :=
  ∃ r ti, focus u0 tid u r ti l ∧ rec_ok sn p r ti0 ti h ∧ pc h = a ∧
          ReturnAddrStack.numEntries r = N.

Lemma pred_mid_post u h : pred_mid u h → pred_post u h.
Proof. intros (r & Hf & Hr & _ & Hp & HN). by exists r, ti0. Qed.

Lemma pred_mid_bump k u h : pred_mid u h → pred_mid (bump k u) h.
Proof. intros (r & Hf & Hr). exists r. split; [by apply focus_bump|done]. Qed.

(** The setters below leave alone what [rec_ok] reads. *)
Lemma pred_mid_record u h h' :
  pred_mid u h →
  seqNum h' = seqNum h → bpHistory h' = bpHistory h → RASIndex h' = RASIndex h →
  wasIndirect h' = wasIndirect h → pc h' = pc h → pred_mid u h'.
Proof.
  intros (r & Hf & [] & Hw & Hp & HN) E1 E2 E3 E4 E5. exists r. rewrite E4, E5.
  split_and!; try done. split; try done; try congruence. all: rewrite ?E3, ?E4, ?Hw; done.
Qed.

Lemma pred_mid_pop u h :
  pred_mid u h → returns (pop_RAS u tid) (λ u', pred_mid u' h).
Proof.
  intros (r & Hf & [] & Hw & Hp & HN). eapply returns_mono; [by eapply focus_pop_RAS|].
  intros u' Hf'. exists (ReturnAddrStack.pop r).
  pose proof (ReturnAddrStack.pop_wf r r_ras0). split_and!; try done; by split.
Qed.

Lemma predict_return_ok u pcs h :
  pred_mid u h → returns (predict_return u pcs tid h) (λ x, pred_mid x.1.1 x.1.2).
Proof.
  intros Hm. unfold predict_return. apply (pred_mid_bump stat_usedRAS) in Hm.
  set (u1 := bump stat_usedRAS u) in *.
  assert (pred_mid u1 (set_usedRAS true (set_wasReturn true h))) as Hm1
    by (by eapply pred_mid_record).
  destruct Hm1 as (r & Hf & Hr & Hw & Hp & HN).
  rewrite (focus_get_RAS u0 tid Hi Ht u1 r ti0 l Hf). cbn [mbind res_bind].
  pose proof (r_ras _ _ _ _ _ _ Hr) as Hras.
  destruct (ReturnAddrStack.top_Ok r Hras) as [v ->]. cbn [mbind res_bind].
  apply returns_bind. eapply returns_mono; [by eapply focus_set_RAS|].
  intros u2 Hf2. cbn. exists (ReturnAddrStack.pop r).
  pose proof (ReturnAddrStack.pop_wf r Hras). split_and!; try done.
  destruct Hr. split; try done. cbn. apply Hras.
Qed.

Lemma predict_call_ok u inst pcs h :
  pred_mid u h → returns (predict_call u inst pcs tid h) (λ x, pred_mid x.1 x.2).
Proof.
  intros Hm. unfold predict_call. destruct (isCall inst); [|done].
  destruct Hm as (r & Hf & Hr & Hw & Hp & HN).
  rewrite (focus_get_RAS u0 tid Hi Ht u r ti0 l Hf). cbn [mbind res_bind].
  pose proof (r_ras _ _ _ _ _ _ Hr) as Hras.
  pose proof (ReturnAddrStack.push_wf r pcs Hras) as Hpush.
  rewrite (ReturnAddrStack.push_Ok r pcs Hras) in *. cbn [mbind res_bind returns] in *.
  apply returns_bind. eapply returns_mono; [by eapply focus_set_RAS|].
  intros u2 Hf2. cbn. eexists. split; [exact Hf2|].
  destruct Hr. split_and!; try done; by split.
Qed.

Lemma pred_mid_btbUpdate u h l' pcA :
  pred_mid u h → l = p :: l' →
  returns (dp_btbUpdate (bp u) tid pcA p) (λ s, pred_mid (with_bp s u) h).
Proof.
  intros (r & Hf & Hr) El. pose proof (f_tracks _ _ _ _ _ _ Hf) as Htr. rewrite El in Htr.
  eapply returns_mono; [eapply dp_btbUpdate_ok; [apply (f_bp _ _ _ _ _ _ Hf)|exact Htr|done]|].
  intros s [Hwf Hs]. exists r. split; [|done]. eapply focus_with_bp; [exact Hf|exact Hwf|by rewrite El].
Qed.

Lemma predict_btb_ok u inst pcs tgt h l' :
  pred_mid u h → l = p :: l' →
  returns (predict_btb u inst pcs tid p tgt h) (λ x, pred_mid x.1.1.1 x.1.1.2).
Proof.
  intros Hm El. unfold predict_btb.
  assert (DefaultBTB.wf (numThreads u0) (BTB u)) as Hb.
  { destruct Hm as (r & Hf & _). apply Hf. }
  destruct (DefaultBTB.btb_slot _ _ (instAddr pcs) tid Hb) as [e He].
  destruct (DefaultBTB.btb_ops _ _ (instAddr pcs) tid e Hb Ht He) as (Hv & Hl & _).
  rewrite Hv. cbn [mbind res_bind]. destruct (DefaultBTB.hit e _ _) eqn:Eh.
  - change (BTB (bump BTBHits u)) with (BTB u). rewrite Hl. cbn. by apply pred_mid_bump.
  - apply returns_bind. eapply (returns_mono _ (λ x, pred_mid x.1 x.2)); [|by intros [u' h'] ?].
    destruct (negb (isCall inst) && negb (isReturn inst)).
    { apply returns_bind. eapply returns_mono; [by eapply pred_mid_btbUpdate|]. done. }
    destruct (isCall inst && negb (isUncondCtrl inst)); [|done].
    apply returns_bind. eapply returns_mono; [by apply pred_mid_pop|].
    intros u' Hm'. by apply (pred_mid_record u' h).
Qed.

Lemma pred_mid_indirect u h br tgt :
  pred_mid u h → br = a →
  returns (IndirectPredictor.recordIndirect (iPred u) br tgt sn tid)
    (λ ip, pred_post (with_iPred ip u) (set_wasIndirect true h)).
Proof.
  intros (r & Hf & [] & Hw & Hp & HN) ->.
  rewrite (IndirectPredictor.recordIndirect_Ok (numThreads u0) (iPred u) tid ti0);
    [|by apply Hf|done|by eapply focus_thread].
  cbn. eexists r, _. split; [by apply (focus_with_thread u0 tid u r ti0)|].
  split; [|done]. split; try done. cbn. exists tgt. by rewrite Hp.
Qed.

Lemma predict_indirect_ok u inst pcs tgt h l' :
  pred_mid u h → l = p :: l' → instAddr pcs = a →
  returns (predict_indirect u inst sn pcs tid p tgt h) (λ x, pred_post x.1.1.1 x.1.1.2).
Proof.
  intros Hm El Ea. unfold predict_indirect. apply (pred_mid_bump indirectLookups) in Hm.
  set (u1 := bump indirectLookups u) in *.
  pose proof Hm as (r & Hf & _ & _). pose proof (f_tracks _ _ _ _ _ _ Hf) as Htr. rewrite El in Htr.
  apply returns_bind. eapply returns_mono; [eapply dp_getGHR_ok; [apply Hf|exact Htr|done]|].
  intros ghr _. clear Htr.
  destruct (IndirectPredictor.ipred_lookup_Ok (numThreads u0) (iPred u1) tid
    (f_ip _ _ _ _ _ _ Hf) Ht (instAddr pcs) ghr tgt) as (found & tgt' & ->). cbn [mbind res_bind].
  (* the record's [wasIndirect] flag is already set; delay it to the end *)
  apply returns_bind.
  apply (returns_mono _ (λ x, ∃ h', pred_mid x.1.1.1 h' ∧ x.1.1.2 = set_wasIndirect true h')).
  - destruct found; cbn.
    { exists h. split; [by apply pred_mid_bump|done]. }
    apply (pred_mid_bump indirectMisses) in Hm. apply returns_bind.
    apply (returns_mono _ (λ x, ∃ h', pred_mid x.1 h' ∧ x.2 = set_wasIndirect true h'));
      [|by intros [u' h'] ?].
    destruct (negb (isCall inst) && negb (isReturn inst)); [by exists h|].
    destruct (isCall inst && negb (isUncondCtrl inst)); [|by exists h].
    apply returns_bind. eapply returns_mono; [by apply pred_mid_pop|].
    intros u' Hm'. exists (set_pushedRAS false h). split; [by apply (pred_mid_record u' h)|done].
  - intros [[[u2 h2] tgt2] b2] (h' & Hm2 & Eh). cbn [fst snd] in Hm2, Eh. subst h2.
    apply returns_bind.
    eapply returns_mono; [by apply (pred_mid_indirect u2 h')|]. done.
Qed.

(** The target selection of [predict] on every branch of the code. *)
Lemma predict_target_ok u inst pcs h l' (b : bool) :
  pred_mid u h → l = p :: l' → instAddr pcs = a →
  returns
    (if b then
       if isReturn inst then
         '(u, predict_record, target) ← predict_return u pcs tid h;
         Ok (u, predict_record, target, true)
       else
         let u := bump BTBLookups u in
         '(u, predict_record) ← predict_call u inst pcs tid h;
         if isDirectCtrl inst || negb (useIndirect u)
         then predict_btb u inst pcs tid p pcs predict_record
         else predict_indirect u inst sn pcs tid p pcs predict_record
     else
       let predict_record := if isReturn inst then set_wasReturn true h else h in
       Ok (u, predict_record, advancePC pcs inst, false))
    (λ x, pred_post x.1.1.1 x.1.1.2).
Proof.
  intros Hm El Ea. destruct b.
  - destruct (isReturn inst).
    + apply returns_bind. eapply returns_mono; [by apply predict_return_ok|].
      intros [[u' h'] tgt] Hm'. by apply pred_mid_post.
    + apply (pred_mid_bump BTBLookups) in Hm. apply returns_bind.
      eapply returns_mono; [by apply predict_call_ok|]. intros [u' h'] Hm'.
      destruct (isDirectCtrl inst || negb (useIndirect u')).
      * eapply returns_mono; [by eapply predict_btb_ok|].
        intros x Hx. by apply pred_mid_post.
      * by eapply predict_indirect_ok.
  - apply pred_mid_post. destruct (isReturn inst); [by apply (pred_mid_record u h)|done].
Qed.

End predict.

Lemma predict_inv u inst sn pcs tid :
  inv u → 0 ≤ tid < numThreads u →
  (∀ ti ph, IndirectPredictor.threadInfo (iPred u) !! Z.to_nat tid = Some ti →
     predHist u !! Z.to_nat tid = Some ph → fresh_sn sn ti ph) →
  returns (predict u inst sn pcs tid) (λ x, inv x.2 ∧ numThreads x.2 = numThreads u ∧
    ∃ h ph, predHist u !! Z.to_nat tid = Some ph ∧
      predHist x.2 = <[Z.to_nat tid := h :: ph]> (predHist u) ∧ seqNum h = sn ∧ pc h = instAddr pcs).
Proof.
  intros Hi Ht Hfresh. destruct (focus_start u tid Hi Ht) as (r & ti & ph & Hph & Hth & Hr & Hti & Hf).
  specialize (Hfresh ti ph Hti Hph). unfold predict.
  apply (focus_bump u tid _ _ _ _ lookups), (focus_bump u tid _ _ _ _ ppBranches) in Hf.
  set (u1 := bump ppBranches _) in *. set (l0 := (bpHistory <$> ph) ++ others u tid) in *.
  apply returns_bind.
  apply (returns_mono _ (λ x, focus u tid x.2 r ti (x.1.2 :: l0))).
  { pose proof (f_bp _ _ _ _ _ _ Hf) as Hwf. pose proof (f_tracks _ _ _ _ _ _ Hf) as Htr.
    destruct (isUncondCtrl inst); apply returns_bind.
    - eapply returns_mono; [by eapply dp_uncondBranch_ok|]. intros [p s] [Hs Htr'].
      by eapply focus_with_bp.
    - eapply returns_mono; [by eapply dp_lookup_ok|]. intros [[b p] s] [Hs Htr'].
      eapply focus_with_bp; [by apply focus_bump|done..]. }
  intros [[b p] u2] Hf2. cbn [fst snd] in Hf2. clear Hf u1.
  set (h0 := PredictorHistory_new _ _ _ _ _).
  pose proof (ti_ras _ _ _ Hth) as Hras. pose proof Hras as [HN _ _ _].
  assert (pred_mid u tid sn (instAddr pcs) (ReturnAddrStack.numEntries r) p ti (p :: l0) u2 h0) as Hm.
  { exists r. split_and!; try done. split; try done. cbn. lia. }
  apply returns_bind.
  apply (returns_mono _ (λ x, pred_post u tid sn (instAddr pcs) (ReturnAddrStack.numEntries r)
                                p ti (p :: l0) x.1.1.1 x.1.1.2)).
  { by eapply predict_target_ok. }
  intros [[[u3 h] tgt] b'] (r' & ti' & Hf3 & Hok & Hpc & HN'). cbn [fst snd] in *.
  rewrite (f_hist _ _ _ _ _ _ Hf3), (vget_in _ _ ph) by (lia || done). cbn [mbind res_bind].
  rewrite vset_in by (by rewrite (i_hist_len _ Hi)). cbn [mbind res_bind returns fst snd].
  split_and!; [|by apply Hf3|].
  - eapply focus_finish; [done..| |by eapply thread_inv_push].
    rewrite fmap_cons. cbn [app]. by rewrite (r_ptr _ _ _ _ _ _ Hok).
  - exists h, ph. split_and!; try done. apply Hok.
Qed.

(** ** [update] *)
Lemma commit_loop_ok nt s done_sn tid hist R :
  0 ≤ tid < nt → dp_wf nt s → dp_tracks s ((bpHistory <$> hist) ++ R) →
  StronglySorted (λ a b, seqNum a < seqNum b) hist →
  returns (commit_loop s done_sn tid hist) (λ x,
    dp_wf nt x.1 ∧ dp_tracks x.1 ((bpHistory <$> x.2) ++ R) ∧
    x.2 = filter (λ h, done_sn < seqNum h) hist).
Proof.
  intros Ht. revert s. induction hist as [|h hist IH]; intros s Hwf Htr Hs; cbn [commit_loop].
  { done. }
  apply StronglySorted_inv in Hs as [Hs Hh]. rewrite filter_cons.
  destruct (Z.leb_spec (seqNum h) done_sn).
  - rewrite decide_False by lia. apply returns_bind.
    eapply returns_mono; [eapply dp_update_commit_ok; [exact Hwf|exact Htr|done]|]. intros s' [Hwf' Htr']. by apply IH.
  - rewrite decide_True by lia. rewrite filter_all; [done|].
    eapply Forall_impl; [exact Hh|]. cbv beta. intros; lia.
Qed.

Lemma thread_inv_commit r ti ti' ph done_sn :
  thread_inv r ti ph → 0 ≤ IndirectPredictor.headHistEntry ti' →
  (IndirectPredictor.pathHist ti' = IndirectPredictor.pathHist ti ∨
   IndirectPredictor.pathHist ti' = tail (IndirectPredictor.pathHist ti) ∧
   ∃ e, e ∈ IndirectPredictor.pathHist ti ∧ IndirectPredictor.seqNum e ≤ done_sn) →
  thread_inv r ti' (filter (λ h, done_sn < seqNum h) ph).
Proof.
  intros [Hs Hr Hidx Hh Hps [pre Hpre]] Hh' Hpath.
  set (ph' := filter (λ h, done_sn < seqNum h) ph).
  pose proof (decreasing_split seqNum done_sn ph Hs) as Hsplit. fold ph' in Hsplit.
  set (old := filter (λ h, seqNum h ≤ done_sn) ph) in *.
  assert (∃ pre', path_key <$> IndirectPredictor.pathHist ti =
    pre' ++ reverse (key <$> filter (λ h, wasIndirect h = true) ph')) as [pre' Hpre'].
  { eexists. rewrite Hpre, Hsplit at 1. rewrite filter_app, fmap_app, reverse_app.
    by rewrite app_assoc. }
  assert (thread_inv r ti ph' → IndirectPredictor.pathHist ti' = IndirectPredictor.pathHist ti →
          thread_inv r ti' ph') as Hsame.
  { intros [] E. split; try done; by rewrite E. }
  assert (thread_inv r ti ph') as Hti.
  { split; try done; [by apply StronglySorted_filter| |by exists pre'].
    rewrite Forall_forall in *. intros x Hx. apply list_elem_of_filter in Hx as [_ ?]. auto. }
  destruct Hpath as [E|[E (e & He & Hle)]]; [by apply Hsame|].
  destruct (IndirectPredictor.pathHist ti) as [|x q] eqn:Eq; [by rewrite elem_of_nil in He|].
  destruct Hti as [? ? ? ? Hps' _]. cbn [tail] in E. split; try done.
  { rewrite E. by apply StronglySorted_inv in Hps as [? _]. }
  pose proof (increasing_head_le IndirectPredictor.seqNum q x e Hps He) as Hx.
  destruct pre' as [|k pre'].
  - exfalso. cbn [app] in Hpre'. rewrite fmap_cons in Hpre'.
    assert (path_key x ∈ reverse (key <$> filter (λ h, wasIndirect h = true) ph')) as Hin
      by (rewrite <- Hpre'; left).
    rewrite elem_of_reverse in Hin. apply list_elem_of_fmap in Hin as (h & Hk & Hin).
    apply list_elem_of_filter in Hin as [_ Hin]. apply list_elem_of_filter in Hin as [Hlt _].
    injection Hk as _ Hk. lia.
  - exists pre'. rewrite E. rewrite fmap_cons in Hpre'. by injection Hpre'.
Qed.

Lemma update_inv u done_sn tid :
  inv u → 0 ≤ tid < numThreads u →
  returns (update u done_sn tid) (λ u', inv u' ∧ numThreads u' = numThreads u ∧
    ∃ ph, predHist u !! Z.to_nat tid = Some ph ∧
      predHist u' = <[Z.to_nat tid := filter (λ h, done_sn < seqNum h) ph]> (predHist u)).
Proof.
  intros Hi Ht. destruct (focus_start u tid Hi Ht) as (r & ti & ph & Hph & Hth & Hr & Hti & Hf).
  unfold update.
  destruct (IndirectPredictor.commit_Ok (numThreads u) (iPred u) tid ti
    (i_ip _ Hi) Ht Hti done_sn (ti_head _ _ _ Hth)) as (ti' & -> & Hh' & Hpath). cbn [mbind res_bind].
  rewrite (vget_in _ _ ph) by (lia || done). cbn [mbind res_bind].
  apply returns_bind. eapply returns_mono.
  { apply (commit_loop_ok (numThreads u) _ _ _ _ (others u tid)); [done|apply Hi| |].
    - pose proof (f_tracks _ _ _ _ _ _ Hf) as Htr. by rewrite (reverse_Permutation ph).
    - apply (reverse_decreasing seqNum), Hth. }
  intros [s rest] (Hwf & Htr & Erest). cbn [fst snd] in *.
  rewrite filter_reverse in Erest. subst rest. rewrite reverse_involutive.
  rewrite vset_in by (by rewrite (i_hist_len _ Hi)). cbn [mbind res_bind returns].
  split_and!; [|done|by exists ph].
  eapply focus_finish; [done..| |by eapply thread_inv_commit].
  eapply focus_with_bp; [by apply (focus_with_thread u tid u r ti)|done|].
  by rewrite reverse_Permutation in Htr.
Qed.

(** ** [squash] *)
Lemma squash_loop_ok nt s r sn tid hist R :
  0 ≤ tid < nt → dp_wf nt s → dp_tracks s ((bpHistory <$> hist) ++ R) →
  younger_first hist → ReturnAddrStack.wf r →
  Forall (λ h, 0 ≤ RASIndex h < ReturnAddrStack.numEntries r) hist →
  returns (squash_loop s r sn tid hist) (λ x,
    dp_wf nt x.1.1 ∧ dp_tracks x.1.1 ((bpHistory <$> x.2) ++ R) ∧
    ReturnAddrStack.wf x.1.2 ∧ ReturnAddrStack.numEntries x.1.2 = ReturnAddrStack.numEntries r ∧
    x.2 = filter (λ h, seqNum h ≤ sn) hist).
Proof.
  intros Ht. revert s r. induction hist as [|h hist IH]; intros s r Hwf Htr Hs Hr Hidx; cbn [squash_loop].
  { done. }
  apply StronglySorted_inv in Hs as [Hs Hh]. apply Forall_cons in Hidx as [Hhi Hidx].
  rewrite filter_cons. destruct (Z.ltb_spec sn (seqNum h)).
  - rewrite decide_False by lia. apply returns_bind.
    apply (returns_mono _ (λ r', ReturnAddrStack.wf r' ∧
      ReturnAddrStack.numEntries r' = ReturnAddrStack.numEntries r)).
    { destruct (usedRAS h); [by apply ReturnAddrStack.restore_wf|].
      destruct (wasCall h && pushedRAS h); [|done].
      split; [by apply ReturnAddrStack.pop_wf|by rewrite ReturnAddrStack.pop_val]. }
    intros r' [Hr' EN]. apply returns_bind.
    eapply returns_mono; [eapply dp_squash_ok; [exact Hwf|exact Htr|done]|]. intros s' [Hwf' Htr'].
    eapply returns_mono; [apply (IH s' r'); [done..|by rewrite EN]|].
    intros x (? & ? & ? & ? & ?). split_and!; try done. congruence.
  - rewrite decide_True by lia. rewrite filter_all; [done|].
    eapply Forall_impl; [exact Hh|]. cbv beta. intros; lia.
Qed.

Lemma squash_prefix_filter sn l :
  StronglySorted (λ a b, IndirectPredictor.seqNum a < IndirectPredictor.seqNum b) l →
  IndirectPredictor.squash_prefix sn l = filter (λ e, IndirectPredictor.seqNum e ≤ sn) l.
Proof.
  induction 1 as [|e l Hs IH He]; cbn [IndirectPredictor.squash_prefix]; [done|].
  rewrite filter_cons. destruct (Z.ltb_spec sn (IndirectPredictor.seqNum e)).
  - rewrite decide_False by lia. rewrite filter_none; [done|].
    eapply Forall_impl; [exact He|]. cbv beta. intros; lia.
  - rewrite decide_True by lia. by rewrite IH.
Qed.

Lemma thread_inv_squash r r' ti ph sn :
  thread_inv r ti ph → ReturnAddrStack.wf r' →
  ReturnAddrStack.numEntries r' = ReturnAddrStack.numEntries r →
  thread_inv r' (IndirectPredictor.mkTI
      (IndirectPredictor.squash_prefix sn (IndirectPredictor.pathHist ti))
      (IndirectPredictor.headHistEntry ti))
    (filter (λ h, seqNum h ≤ sn) ph).
Proof.
  intros [Hs Hr Hidx Hh Hps [pre Hpre]] Hr' EN. rewrite squash_prefix_filter by done.
  split; cbn; try done.
  - by apply StronglySorted_filter.
  - rewrite EN, Forall_forall in *. intros x Hx. apply list_elem_of_filter in Hx as [_ ?]. auto.
  - by apply StronglySorted_filter.
  - apply (f_equal (filter (λ k, k.2 ≤ sn))) in Hpre.
    rewrite filter_app, filter_reverse, !list_filter_fmap_key in Hpre. cbn in Hpre.
    rewrite (filter_comm (λ h, seqNum h ≤ sn)) in Hpre. by eexists.
Qed.

Lemma squash_inv u sn tid :
  inv u → 0 ≤ tid < numThreads u →
  returns (squash u sn tid) (λ u', inv u' ∧ numThreads u' = numThreads u ∧
    ∃ ph, predHist u !! Z.to_nat tid = Some ph ∧
      predHist u' = <[Z.to_nat tid := filter (λ h, seqNum h ≤ sn) ph]> (predHist u)).
Proof.
  intros Hi Ht. destruct (focus_start u tid Hi Ht) as (r & ti & ph & Hph & Hth & Hr & Hti & Hf).
  unfold squash. rewrite (IndirectPredictor.ipred_squash_Ok (numThreads u) _ tid ti) by (done || apply Hi).
  cbn [mbind res_bind]. rewrite (vget_in (predHist u) _ ph) by (lia || done). cbn [mbind res_bind].
  rewrite (vget_in (RAS u) _ r) by (lia || done). cbn [mbind res_bind].
  apply returns_bind. eapply returns_mono.
  { apply (squash_loop_ok (numThreads u) _ _ _ _ _ (others u tid)); try done; try apply Hth; apply Hf. }
  intros [[s r'] rest] (Hwf & Htr & Hr' & EN & Erest). cbn [fst snd] in *. subst rest.
  apply returns_bind. eapply returns_mono; [by eapply focus_set_RAS|]. intros u2 Hf2. cbv beta in Hf2.
  rewrite (f_hist _ _ _ _ _ _ Hf2). rewrite vset_in by (by rewrite (i_hist_len _ Hi)).
  cbn [mbind res_bind returns]. split_and!; [|by apply Hf2|by exists ph].
  eapply focus_finish; [done..| |by eapply thread_inv_squash].
  destruct Hf2. split; try done; cbn. by apply IndirectPredictor.set_thread_wf, Hi.
Qed.

(** ** [squash] of a mispredicted branch *)

(** The correction changes only flags of the record. *)
Record same_branch (h h' : PredictorHistory) : Prop := {
  sb_sn : seqNum h' = seqNum h;
  sb_pc : pc h' = pc h;
  sb_ptr : bpHistory h' = bpHistory h;
  sb_idx : RASIndex h' = RASIndex h;
  sb_ind : wasIndirect h' = wasIndirect h;
}.

Lemma thread_inv_head r r' ti ti' h h' ph :
  thread_inv r ti (h :: ph) → same_branch h h' →
  ReturnAddrStack.wf r' → ReturnAddrStack.numEntries r' = ReturnAddrStack.numEntries r →
  IndirectPredictor.headHistEntry ti' = IndirectPredictor.headHistEntry ti →
  path_key <$> IndirectPredictor.pathHist ti' = path_key <$> IndirectPredictor.pathHist ti →
  thread_inv r' ti' (h' :: ph).
Proof.
  intros [Hs Hr Hidx Hh Hps [pre Hpre]] [Esn Epc Eptr Eidx Eind] Hr' EN Ehd Epath.
  apply StronglySorted_inv in Hs as [Hs Hhs]. apply Forall_cons in Hidx as [Hhi Hidx].
  split; try done.
  - constructor; [done|]. by rewrite Esn.
  - constructor; rewrite ?EN; [by rewrite Eidx|done].
  - lia.
  - (* sortedness only reads the keys *)
    clear Hpre. revert Hps Epath. generalize (IndirectPredictor.pathHist ti) as q.
    induction (IndirectPredictor.pathHist ti') as [|e q' IH]; intros q Hps E; [constructor|].
    destruct q as [|f q]; [done|]. rewrite !fmap_cons in E. injection E as _ Ef E.
    apply StronglySorted_inv in Hps as [Hps Hf]. constructor; [by eapply IH|].
    rewrite Forall_forall in *. intros x Hx.
    assert (path_key x ∈ path_key <$> q') as Hk by (by apply list_elem_of_fmap_2).
    rewrite E in Hk. apply list_elem_of_fmap in Hk as (y & Hy & Hin).
    apply Hf in Hin. injection Hy as _ Hy. lia.
  - exists pre. rewrite Epath, Hpre, !filter_cons, Eind.
    assert (key h' = key h) as Ek by (unfold key; by rewrite Esn, Epc).
    case_decide; [by rewrite !fmap_cons, Ek|done].
Qed.

(** An indirect branch at the front of the history is the newest entry of the
    path history: [recordTarget] never sees an empty deque. *)
Lemma front_indirect_path r ti h ph :
  thread_inv r ti (h :: ph) → wasIndirect h = true →
  ∃ pre e, IndirectPredictor.pathHist ti = pre ++ [e] ∧ path_key e = key h.
Proof.
  intros [_ _ _ _ _ [pre Hpre]] Hw. rewrite filter_cons, decide_True in Hpre by done.
  rewrite fmap_cons, reverse_cons, app_assoc in Hpre.
  destruct (IndirectPredictor.pathHist ti) as [|e q _] using rev_ind.
  { by apply (f_equal length) in Hpre; rewrite !length_app in Hpre; cbn in Hpre; lia. }
  rewrite fmap_app in Hpre. apply app_inj_2 in Hpre as [_ E]; [|done].
  exists q, e. split; [done|]. injection E as E1 E2. unfold path_key, key. congruence.
Qed.

Section fixup.
Context (u0 : t) (tid : Z) (Hi : inv u0) (Ht : 0 ≤ tid < numThreads u0).
Context (ph : list PredictorHistory) (R : list ptr).

Definition fix_state (u : t) (h0 h : PredictorHistory) : Prop :=
  ∃ r ti, focus u0 tid u r ti ((bpHistory <$> h :: ph) ++ R) ∧
    thread_inv r ti (h :: ph) ∧ same_branch h0 h.

Lemma fix_state_bump u h0 h k : fix_state u h0 h → fix_state (bump k u) h0 h.
Proof. intros (r & ti & Hf & ?). exists r, ti. split; [by apply focus_bump|done]. Qed.

Lemma fix_state_record u h0 h h' : fix_state u h0 h → same_branch h h' → fix_state u h0 h'.
Proof.
  intros (r & ti & Hf & Hth & Hsb) Hs. exists r, ti. split_and!.
  - rewrite fmap_cons in *. by rewrite (sb_ptr _ _ Hs).
  - eapply thread_inv_head; [exact Hth|exact Hs|apply Hth|done|done|done].
  - destruct Hsb, Hs. split; congruence.
Qed.

Lemma fix_state_pop u h0 h :
  fix_state u h0 h → returns (pop_RAS u tid) (λ u', fix_state u' h0 h).
Proof.
  intros (r & ti & Hf & Hth & Hsb). eapply returns_mono; [by eapply focus_pop_RAS|].
  intros u' Hf'. exists (ReturnAddrStack.pop r), ti. pose proof (ti_ras _ _ _ Hth) as Hr.
  split_and!; [done| |done]. eapply thread_inv_head; try done.
  by apply ReturnAddrStack.pop_wf.
Qed.

Lemma fix_state_restore u h0 h i a :
  fix_state u h0 h → i = RASIndex h →
  returns (r ← vget (RAS u) tid; r ← ReturnAddrStack.restore i a r; set_RAS u tid r)
    (λ u', fix_state u' h0 h).
Proof.
  intros (r & ti & Hf & Hth & Hsb) ->.
  rewrite (focus_get_RAS u0 tid Hi Ht u r ti _ Hf). cbn [mbind res_bind]. apply returns_bind.
  eapply returns_mono.
  { apply ReturnAddrStack.restore_wf; [apply Hth|]. by apply (Forall_inv (ti_idx _ _ _ Hth)). }
  intros r' [Hr' EN]. eapply returns_mono; [by eapply focus_set_RAS|].
  intros u' Hf'. exists r', ti. split_and!; [done| |done]. by eapply thread_inv_head.
Qed.

Lemma fix_state_btb u h0 h pcA tgt :
  fix_state u h0 h →
  returns (DefaultBTB.update (BTB u) pcA tgt tid) (λ b, fix_state (with_BTB b u) h0 h).
Proof.
  intros (r & ti & Hf & Hx). eapply returns_mono; [apply DefaultBTB.btb_update_wf; [apply Hf|done]|].
  intros b Hb. exists r, ti. split; [|done]. destruct Hf. by split.
Qed.

Lemma fix_state_indirect u h0 h rnd sn ghr tgt :
  fix_state u h0 h → wasIndirect h = true →
  returns (IndirectPredictor.recordTarget rnd (iPred u) sn ghr tgt tid)
    (λ ip, fix_state (with_iPred ip u) h0 h).
Proof.
  intros (r & ti & Hf & Hth & Hsb) Hw.
  destruct (front_indirect_path r ti h ph Hth Hw) as (pre & e & Ep & Ek).
  eapply returns_mono.
  { eapply IndirectPredictor.recordTarget_Ok; [apply Hf|done|by eapply focus_thread|done]. }
  cbv zeta. intros ip (Hip & Eth & _). eexists r, _. split_and!; [| |done].
  - destruct Hf as [? ? ? Hti ? ? ? ?]. split; try done. cbn. rewrite Eth. cbn.
    by rewrite Hti, list_insert_insert_eq.
  - eapply thread_inv_head; [exact Hth|by split|apply Hth|done|done|]. cbn.
    rewrite Ep, !fmap_app. done.
Qed.

Lemma squash_fixup_ok rnd u tgt taken h :
  fix_state u h h →
  returns (squash_fixup rnd u tgt taken tid h) (λ x, fix_state x.1 h x.2).
Proof.
  intros Hs. unfold squash_fixup.
  assert (fix_state (if usedRAS h then bump RASIncorrect u else u) h h) as Hs1
    by (destruct (usedRAS h); [by apply fix_state_bump|done]).
  set (u1 := if usedRAS h then _ else _) in *. clearbody u1. clear Hs u.
  pose proof Hs1 as (r & ti & Hf & _). apply returns_bind.
  eapply returns_mono.
  { eapply dp_getGHR_ok; [apply Hf| |done]. apply (f_tracks _ _ _ _ _ _ Hf). }
  intros ghr _. set (h1 := set_predTaken taken h).
  apply (fix_state_record _ _ _ h1) in Hs1; [|done].
  clear dependent r ti. destruct Hs1 as (r & ti & Hf & Hth & Hsb). apply returns_bind.
  eapply returns_mono.
  { eapply dp_update_squash_ok; [apply Hf| |done]. apply (f_tracks _ _ _ _ _ _ Hf). }
  intros s [Hwf Htr].
  assert (fix_state (with_bp s u1) h h1) as Hs2.
  { exists r, ti. split_and!; [by eapply focus_with_bp|done..]. }
  set (u2 := with_bp s u1) in *. clearbody u2. clear dependent r ti.
  destruct taken.
  - apply returns_bind. apply (returns_mono _ (λ x, fix_state x.1 h x.2)).
    { destruct (wasReturn h1 && negb (usedRAS h1)); [|done]. apply returns_bind.
      eapply returns_mono; [by apply fix_state_pop|]. intros u3 Hs3.
      by apply (fix_state_record u3 h h1). }
    intros [u3 h3] Hs3. cbn [fst snd] in Hs3. destruct (wasIndirect h3) eqn:Ei.
    + apply (fix_state_bump _ _ _ indirectMispredicted) in Hs3. apply returns_bind.
      eapply returns_mono; [by apply (fix_state_indirect _ h h3)|]. done.
    + apply returns_bind. eapply returns_mono; [by apply (fix_state_btb u3 h h3)|]. done.
  - destruct (usedRAS h1).
    + pose proof (fix_state_restore u2 h h1 _ (RASTarget h1) Hs2 eq_refl) as Hr.
      destruct (vget (RAS u2) tid) as [r|]; [|done]. cbn [mbind res_bind] in *.
      destruct (ReturnAddrStack.restore _ _ r) as [r'|]; [|done]. cbn [mbind res_bind] in *.
      destruct (set_RAS u2 tid r') as [u3|]; [|done]. cbn [mbind res_bind returns fst snd] in *.
      by apply (fix_state_record u3 h h1).
    + destruct (wasCall h1 && pushedRAS h1); [|done]. apply returns_bind.
      eapply returns_mono; [by apply fix_state_pop|]. intros u3 Hs3.
      by apply (fix_state_record u3 h h1).
Qed.

End fixup.

(** The mispredicted branch is the youngest one left after the squash, or the
    history is empty. *)
Definition resolves (ph : list PredictorHistory) (sn : Z) : Prop :=
  ∀ h, head (filter (λ h, seqNum h ≤ sn) ph) = Some h → seqNum h = sn.

Lemma focus_same u tid r ti ph :
  inv u → predHist u !! Z.to_nat tid = Some ph → RAS u !! Z.to_nat tid = Some r →
  IndirectPredictor.threadInfo (iPred u) !! Z.to_nat tid = Some ti →
  focus u tid u r ti ((bpHistory <$> ph) ++ others u tid).
Proof.
  intros Hi Hph Hr Hti. pose proof (i_tracks _ Hi) as Htr.
  rewrite (join_lookup_perm _ _ _ Hph), fmap_app in Htr.
  destruct Hi. split; try done; by rewrite list_insert_id.
Qed.

Lemma squash_mispredict_inv rnd u sn tgt taken tid :
  inv u → 0 ≤ tid < numThreads u →
  (∀ ph, predHist u !! Z.to_nat tid = Some ph → resolves ph sn) →
  returns (squash_mispredict rnd u sn tgt taken tid) (λ u', inv u' ∧ numThreads u' = numThreads u ∧
    ∃ ph ph', predHist u !! Z.to_nat tid = Some ph ∧
      key <$> ph' = key <$> filter (λ h, seqNum h ≤ sn) ph ∧
      predHist u' = <[Z.to_nat tid := ph']> (predHist u)).
Proof.
  intros Hi Ht Hres. unfold squash_mispredict. set (u1 := bump ppMisses _).
  assert (inv u1) as Hi1 by (destruct Hi; by split). apply returns_bind.
  eapply returns_mono; [by apply squash_inv|]. intros u2 (Hi2 & Hnt & ph & Hph & Hph2).
  change (predHist u1) with (predHist u) in *. change (numThreads u1) with (numThreads u) in *.
  rewrite <- Hnt in Ht. destruct (focus_start u2 tid Hi2 Ht) as (r & ti & ph2 & Hl & Hth & Hr & Hti & Hf).
  assert (ph2 = filter (λ h, seqNum h ≤ sn) ph) as ->.
  { rewrite Hph2, vlookup_insert_eq in Hl by (rewrite (i_hist_len _ Hi); lia). by simplify_eq. }
  rewrite (vget_in _ _ _ (proj1 Ht) Hl). cbn [mbind res_bind].
  specialize (Hres ph Hph). destruct (filter _ ph) as [|h rest] eqn:Ef.
  { cbn [returns]. split_and!; [done..|]. exists ph, []. by rewrite Ef. }
  apply returns_bind, returns_assert; [by apply Z.eqb_eq, Hres; rewrite Ef|].
  apply returns_bind. eapply returns_mono.
  { apply (squash_fixup_ok u2 tid Hi2 Ht rest (others u2 tid)). exists r, ti. by split_and!. }
  intros [u3 h'] (r' & ti' & Hf' & Hth' & Hsb). cbn [fst snd] in *.
  rewrite (f_hist _ _ _ _ _ _ Hf'), vset_in by (by rewrite (i_hist_len _ Hi2)).
  cbn [mbind res_bind returns]. split_and!.
  - by eapply focus_finish.
  - cbn. by rewrite (f_nt _ _ _ _ _ _ Hf').
  - exists ph, (h' :: rest). rewrite Ef, !fmap_cons. unfold key at 1 3.
    rewrite (sb_pc _ _ Hsb), (sb_sn _ _ Hsb). split_and!; [done..|]. cbn.
    by rewrite Hph2, list_insert_insert_eq.
Qed.

(** ** The constructor *)
Record params_ok (p : Params) : Prop := {
  po_threads : 0 < p_numThreads p ≤ p_BTBEntries p;
  po_btb : isPowerOf2 (p_BTBEntries p) = true ∧ is_u32 (p_BTBEntries p) ∧ p_BTBEntries p ≤ 2 ^ 30;
  po_btb_tag : 0 ≤ p_BTBTagSize p < 31;
  po_ras : 0 < p_RASSize p < 2 ^ 32;
  po_shift : 0 ≤ p_instShiftAmt p;
  po_btb_bits : p_instShiftAmt p + Z.log2 (p_BTBEntries p) < 64;
  po_sets : isPowerOf2 (p_indirectSets p) = true ∧ is_u32 (p_indirectSets p);
  po_ways : 0 < p_indirectWays p;
  po_ip_tag : 0 ≤ p_indirectTagSize p < 31;
  po_path : 0 < p_indirectPathLength p;
  po_ip_bits : p_instShiftAmt p + Z.log2 (p_indirectSets p) < 64;
}.

Lemma join_replicate_nil {A} n : mjoin (replicate n (@nil A)) = [].
Proof. by induction n. Qed.

Lemma create_inv indet p s :
  params_ok p → dp_wf (p_numThreads p) s → dp_tracks s [] →
  returns (create indet p s) (λ u, inv u ∧ numThreads u = p_numThreads p ∧
    predHist u = replicate (Z.to_nat (p_numThreads p)) []).
Proof.
  intros [Hnt (Hb1 & Hb2 & Hb3) Htag Hras Hsh Hbits (Hs1 & Hs2) Hw Hit Hpl Hib] Hwf Htr.
  unfold create. apply returns_bind. eapply returns_mono; [apply DefaultBTB.btb_create_wf; (done || lia)|].
  intros b (Hb & _ & _). apply returns_bind.
  eapply returns_mono; [apply IndirectPredictor.ipred_create_Ok; (done || lia)|].
  intros ip (Hip & _ & _ & Hti & _). cbn [returns]. split_and!; [|done..].
  split; cbn; try done.
  - apply vlen_replicate. lia.
  - apply vlen_replicate. lia.
  - by rewrite join_replicate_nil.
  - intros i r ti ph Hr Ht Hph. apply lookup_replicate in Hr as [-> _].
    apply lookup_replicate in Hph as [-> _].
    rewrite Forall_lookup in Hti. destruct (Hti _ _ Ht) as [Ep Eh].
    split; rewrite ?Ep, ?Eh; try done; try (by constructor).
    + by apply ReturnAddrStack.ras_init_wf.
    + by exists [].
Qed.

End inv.
End UnitInv.
