(* ===== verification/HistRegs.v ===== *)
(** * Speculative history registers

    The global history registers and the local history table that
    [TournamentBP], [TriTournamentBP], [GTriTournamentBP], [EnsembleBP] and
    [EnsembleBP2] keep as members, with the inline operations those classes
    define on them under the same names
    ([calcLocHistIdx], [updateGlobalHistTaken], [updateLocalHistTaken], ...) and
    with the history part of [btbUpdate], [update] (on a squash) and [squash].
    Local history entries are [unsigned] values of which only the bits under
    [localPredictorMask] are ever read; [equiv] is equality up to those bits. *)

From S2P Require Import Prelude IntMath.

(** [static const int invalidPredictorIndex = -1], compared with [unsigned]s. *)
Definition invalidPredictorIndex : Z := u32 (-1).

(** [(ULL(1) << (bits - 1)) - 1] stored in an [unsigned]. *)
Definition counterThreshold (bits : Z) : res Z :=
  r ← shl64 1 (u32 (bits - 1)); Ok (u32 (r - 1)).

Lemma counterThreshold_Ok bits : 1 ≤ bits ≤ 32 → counterThreshold bits = Ok (2 ^ (bits - 1) - 1).
Proof.
  intros Hb. assert (0 < 2 ^ (bits - 1)) by (apply Z.pow_pos_nonneg; lia).
  assert (2 ^ (bits - 1) ≤ 2 ^ 31) by (apply Z.pow_le_mono_r; lia).
  unfold counterThreshold. rewrite (u32_id (bits - 1)) by (unfold is_u32; lia).
  rewrite shl64_in by lia. cbn [mbind res_bind]. rewrite Z.shiftl_1_l.
  rewrite u64_id by (unfold is_u64; lia). by rewrite u32_id by (unfold is_u32; lia).
Qed.

Module HistRegs.

Record t := mk {
  instShiftAmt : Z;
  localHistoryTableSize : Z;
  localPredictorMask : Z;
  historyRegisterMask : Z;
  localHistoryTable : list Z;
  globalHistory : list Z;
}.

Definition with_local (l : list Z) (h : t) : t :=
  mk (instShiftAmt h) (localHistoryTableSize h) (localPredictorMask h) (historyRegisterMask h)
     l (globalHistory h).
Definition with_global (l : list Z) (h : t) : t :=
  mk (instShiftAmt h) (localHistoryTableSize h) (localPredictorMask h) (historyRegisterMask h)
     (localHistoryTable h) l.

Definition calcLocHistIdx (h : t) (branch_addr : Z) : res Z :=
  a ← shr64 branch_addr (instShiftAmt h);
  Ok (u32 (Z.land a (u32 (localHistoryTableSize h - 1)))).

(** [(x << 1) | b] on an [unsigned]. *)
Definition shift_in (x : Z) (b : bool) : Z := Z.lor (u32 (Z.shiftl x 1)) (b2z b).

Definition updateGlobalHistTaken (h : t) (tid : Z) : res t :=
  g ← vget (globalHistory h) tid;
  l ← vset (globalHistory h) tid (Z.land (shift_in g true) (historyRegisterMask h));
  Ok (with_global l h).

Definition updateGlobalHistNotTaken (h : t) (tid : Z) : res t :=
  g ← vget (globalHistory h) tid;
  l ← vset (globalHistory h) tid (Z.land (u32 (Z.shiftl g 1)) (historyRegisterMask h));
  Ok (with_global l h).

Definition updateLocalHistTaken (h : t) (local_history_idx : Z) : res t :=
  x ← vget (localHistoryTable h) local_history_idx;
  l ← vset (localHistoryTable h) local_history_idx (shift_in x true);
  Ok (with_local l h).

Definition updateLocalHistNotTaken (h : t) (local_history_idx : Z) : res t :=
  x ← vget (localHistoryTable h) local_history_idx;
  l ← vset (localHistoryTable h) local_history_idx (u32 (Z.shiftl x 1));
  Ok (with_local l h).

(** The two updates that follow a conditional prediction. *)
Definition speculate (h : t) (tid local_history_idx : Z) (taken : bool) : res t :=
  if taken then
    h ← updateGlobalHistTaken h tid; updateLocalHistTaken h local_history_idx
  else
    h ← updateGlobalHistNotTaken h tid; updateLocalHistNotTaken h local_history_idx.

Definition btbUpdate (h : t) (tid branch_addr : Z) : res t :=
  local_history_idx ← calcLocHistIdx h branch_addr;
  g ← vget (globalHistory h) tid;
  lg ← vset (globalHistory h) tid (Z.land g (Z.land (historyRegisterMask h) (not64 1)));
  let h := with_global lg h in
  x ← vget (localHistoryTable h) local_history_idx;
  ll ← vset (localHistoryTable h) local_history_idx
         (Z.land x (Z.land (localPredictorMask h) (not64 1)));
  Ok (with_local ll h).

(** The [squashed] branch of [update]: the histories as they were before the
    branch, with the actual outcome shifted in. *)
Definition correct (h : t) (tid local_history_idx : Z) (old_local_pred_valid : bool)
    (old_global old_local : Z) (taken : bool) : res t :=
  lg ← vset (globalHistory h) tid (Z.land (shift_in old_global taken) (historyRegisterMask h));
  let h := with_global lg h in
  if old_local_pred_valid then
    ll ← vset (localHistoryTable h) local_history_idx (shift_in old_local taken);
    Ok (with_local ll h)
  else Ok h.

(** The history part of [squash]. *)
Definition restore (h : t) (tid old_global old_idx old_local : Z) : res t :=
  lg ← vset (globalHistory h) tid old_global;
  let h := with_global lg h in
  if negb (old_idx =? invalidPredictorIndex) then
    ll ← vset (localHistoryTable h) old_idx old_local;
    Ok (with_local ll h)
  else Ok h.

(** ** Invariant *)
Record wf (nt : Z) (h : t) : Prop := {
  wf_shift : 0 ≤ instShiftAmt h < 64;
  wf_size : is_pow2 (localHistoryTableSize h) ∧ localHistoryTableSize h < 2 ^ 32;
  wf_table : vlen (localHistoryTable h) = localHistoryTableSize h;
  wf_lmask : ∃ k, 0 ≤ k < 32 ∧ localPredictorMask h = 2 ^ k - 1;
  wf_gmask : ∃ k, 0 ≤ k < 32 ∧ historyRegisterMask h = 2 ^ k - 1;
  wf_threads : vlen (globalHistory h) = nt;
  wf_global : Forall (λ g, 0 ≤ g ≤ historyRegisterMask h) (globalHistory h);
}.

(** A snapshot that [restore] accepts. *)
Record snap_ok (h : t) (g idx l : Z) : Prop := {
  so_global : 0 ≤ g ≤ historyRegisterMask h;
  so_local : (idx = invalidPredictorIndex ∧ l = invalidPredictorIndex) ∨
             (0 ≤ idx < localHistoryTableSize h ∧ 0 ≤ l ≤ localPredictorMask h);
}.

Definition same_cfg (h h' : t) : Prop :=
  instShiftAmt h' = instShiftAmt h ∧ localHistoryTableSize h' = localHistoryTableSize h ∧
  localPredictorMask h' = localPredictorMask h ∧ historyRegisterMask h' = historyRegisterMask h.

#[global] Instance same_cfg_refl : Reflexive same_cfg.
Proof. by intros h. Qed.
#[global] Instance same_cfg_trans : Transitive same_cfg.
Proof. intros a b c (? & ? & ? & ?) (? & ? & ? & ?). split_and!; congruence. Qed.

(** The table entry of a branch. *)
Definition slot (h : t) (pc : Z) : Z :=
  Z.land (Z.shiftr pc (instShiftAmt h)) (localHistoryTableSize h - 1).

Section wf.
Context (nt : Z) (h : t) (H : wf nt h).

Lemma mask_range : 0 ≤ localPredictorMask h < 2 ^ 31 ∧ 0 ≤ historyRegisterMask h < 2 ^ 31.
Proof.
  destruct (wf_lmask _ _ H) as (k & ? & ->), (wf_gmask _ _ H) as (k' & ? & ->).
  pose proof (Z.pow_pos_nonneg 2 k). pose proof (Z.pow_pos_nonneg 2 k').
  assert (2 ^ k ≤ 2 ^ 31) by (apply Z.pow_le_mono_r; lia).
  assert (2 ^ k' ≤ 2 ^ 31) by (apply Z.pow_le_mono_r; lia). lia.
Qed.

Lemma slot_range pc : 0 ≤ slot h pc < localHistoryTableSize h.
Proof. apply land_size_bound, is_pow2_pos, H. Qed.

Lemma calcLocHistIdx_Ok pc : calcLocHistIdx h pc = Ok (slot h pc).
Proof.
  unfold calcLocHistIdx. rewrite shr64_in by apply H. cbn [mbind res_bind].
  pose proof (slot_range pc). destruct (wf_size _ _ H) as [Hp ?]. apply is_pow2_pos in Hp.
  rewrite (u32_id (localHistoryTableSize h - 1)) by (unfold is_u32; lia).
  fold (slot h pc). rewrite u32_id; [done|]. unfold is_u32. lia.
Qed.

Lemma local_exists i : 0 ≤ i < localHistoryTableSize h → ∃ x, localHistoryTable h !! Z.to_nat i = Some x.
Proof. intros. apply vlookup_lt. by rewrite (wf_table _ _ H). Qed.

Lemma global_exists tid :
  0 ≤ tid < nt → ∃ g, globalHistory h !! Z.to_nat tid = Some g ∧ 0 ≤ g ≤ historyRegisterMask h.
Proof.
  intros. destruct (vlookup_lt (globalHistory h) tid) as [g Hg]; [by rewrite (wf_threads _ _ H)|].
  exists g. split; [done|]. by apply (Forall_lookup_1 _ _ _ _ (wf_global _ _ H) Hg).
Qed.

Lemma wf_with_local l : vlen l = localHistoryTableSize h → wf nt (with_local l h).
Proof. destruct H. by split. Qed.

Lemma wf_set_local i x : wf nt (with_local (<[i := x]> (localHistoryTable h)) h).
Proof. apply wf_with_local. rewrite vlen_insert. apply H. Qed.

Lemma wf_set_global i g :
  0 ≤ g ≤ historyRegisterMask h → wf nt (with_global (<[i := g]> (globalHistory h)) h).
Proof. destruct H. split; cbn; try done; [by rewrite vlen_insert|by apply Forall_insert]. Qed.

End wf.

(** The state with one register and one table entry replaced. *)
Definition set2 (h : t) (tid g i x : Z) : t :=
  with_local (<[Z.to_nat i := x]> (localHistoryTable h))
    (with_global (<[Z.to_nat tid := g]> (globalHistory h)) h).

Lemma shift_in_false x : shift_in x false = u32 (Z.shiftl x 1).
Proof. apply Z.lor_0_r. Qed.

Section ops.
Context (nt : Z) (h : t) (tid : Z) (H : wf nt h) (Ht : 0 ≤ tid < nt).

Lemma globalHist_Ok b g :
  globalHistory h !! Z.to_nat tid = Some g →
  (if b : bool then updateGlobalHistTaken h tid else updateGlobalHistNotTaken h tid) =
    Ok (with_global (<[Z.to_nat tid := Z.land (shift_in g b) (historyRegisterMask h)]> (globalHistory h)) h).
Proof.
  intros Hg. destruct b; unfold updateGlobalHistTaken, updateGlobalHistNotTaken;
    rewrite (vget_in _ _ g) by (lia || done); cbn [mbind res_bind];
    rewrite vset_in by (by rewrite (wf_threads _ _ H)); cbn [mbind res_bind]; [done|].
  by rewrite shift_in_false.
Qed.

Lemma speculate_Ok i b g x :
  0 ≤ i < localHistoryTableSize h →
  globalHistory h !! Z.to_nat tid = Some g → localHistoryTable h !! Z.to_nat i = Some x →
  speculate h tid i b =
    Ok (set2 h tid (Z.land (shift_in g b) (historyRegisterMask h)) i (shift_in x b)).
Proof.
  intros Hi Hg Hx. pose proof (globalHist_Ok b g Hg) as Hgl. unfold speculate.
  destruct b; rewrite Hgl; cbn [mbind res_bind];
    unfold updateLocalHistTaken, updateLocalHistNotTaken; cbn;
    rewrite (vget_in _ _ x) by (lia || done); cbn;
    rewrite vset_in by (by rewrite (wf_table _ _ H)); cbn; [done|by rewrite !shift_in_false].
Qed.

Lemma localHist_Ok i (b : bool) x :
  0 ≤ i < localHistoryTableSize h → localHistoryTable h !! Z.to_nat i = Some x →
  (if b then updateLocalHistTaken h i else updateLocalHistNotTaken h i) =
    Ok (with_local (<[Z.to_nat i := shift_in x b]> (localHistoryTable h)) h).
Proof.
  intros Hi Hx. destruct b; unfold updateLocalHistTaken, updateLocalHistNotTaken;
    rewrite (vget_in _ _ x) by (lia || done); cbn [mbind res_bind];
    rewrite vset_in by (by rewrite (wf_table _ _ H)); cbn [mbind res_bind]; [done|].
  by rewrite shift_in_false.
Qed.

Lemma hist_btbUpdate_Ok pc g x :
  globalHistory h !! Z.to_nat tid = Some g → localHistoryTable h !! Z.to_nat (slot h pc) = Some x →
  btbUpdate h tid pc =
    Ok (set2 h tid (Z.land g (Z.land (historyRegisterMask h) (not64 1))) (slot h pc)
          (Z.land x (Z.land (localPredictorMask h) (not64 1)))).
Proof.
  intros Hg Hx. pose proof (slot_range nt h H pc). unfold btbUpdate.
  rewrite (calcLocHistIdx_Ok nt h H). cbn [mbind res_bind].
  rewrite (vget_in _ _ g) by (lia || done). cbn [mbind res_bind].
  rewrite vset_in by (by rewrite (wf_threads _ _ H)). cbn.
  rewrite (vget_in _ _ x) by (lia || done). cbn.
  by rewrite vset_in by (by rewrite (wf_table _ _ H)).
Qed.

Lemma correct_Ok i (v b : bool) g x :
  0 ≤ i < localHistoryTableSize h →
  correct h tid i v g x b =
    Ok (let h1 := with_global (<[Z.to_nat tid := Z.land (shift_in g b) (historyRegisterMask h)]> (globalHistory h)) h in
        if v then with_local (<[Z.to_nat i := shift_in x b]> (localHistoryTable h)) h1 else h1).
Proof.
  intros Hi. unfold correct. rewrite vset_in by (by rewrite (wf_threads _ _ H)). cbn.
  destruct v; [|done]. by rewrite vset_in by (by rewrite (wf_table _ _ H)).
Qed.

Lemma restore_Ok g idx x :
  snap_ok h g idx x →
  restore h tid g idx x =
    Ok (let h1 := with_global (<[Z.to_nat tid := g]> (globalHistory h)) h in
        if negb (idx =? invalidPredictorIndex)
        then with_local (<[Z.to_nat idx := x]> (localHistoryTable h)) h1 else h1).
Proof.
  intros [Hg Hl]. unfold restore. rewrite vset_in by (by rewrite (wf_threads _ _ H)). cbn.
  destruct (Z.eqb_spec idx invalidPredictorIndex); cbn; [done|].
  destruct Hl as [[? _]|[Hi _]]; [done|]. by rewrite vset_in by (by rewrite (wf_table _ _ H)).
Qed.

Definition keeps (h h' : t) : Prop := wf nt h' ∧ same_cfg h h'.

Lemma keeps_set2 g i x : 0 ≤ g ≤ historyRegisterMask h → keeps h (set2 h tid g i x).
Proof. intros Hg. split; [|done]. by apply (wf_set_local nt _ (wf_set_global nt h H _ g Hg)). Qed.

Lemma keeps_set_local i x : keeps h (with_local (<[i := x]> (localHistoryTable h)) h).
Proof. split; [|done]. by apply wf_set_local. Qed.

Lemma speculate_keeps i b :
  0 ≤ i < localHistoryTableSize h → returns (speculate h tid i b) (keeps h).
Proof.
  intros Hi. destruct (local_exists nt h H i Hi) as [x Hx], (global_exists nt h H tid Ht) as (g & Hg & _).
  rewrite (speculate_Ok i b g x) by done. apply keeps_set2, land_bound, (mask_range nt h H).
Qed.

Lemma globalHist_keeps (b : bool) :
  returns (if b then updateGlobalHistTaken h tid else updateGlobalHistNotTaken h tid) (keeps h).
Proof.
  destruct (global_exists nt h H tid Ht) as (g & Hg & _). rewrite (globalHist_Ok b g) by done.
  split; [|done]. apply wf_set_global; [done|]. apply land_bound, (mask_range nt h H).
Qed.

Lemma btbUpdate_keeps pc : returns (btbUpdate h tid pc) (keeps h).
Proof.
  pose proof (slot_range nt h H pc) as Hs.
  destruct (local_exists nt h H _ Hs) as [x Hx], (global_exists nt h H tid Ht) as (g & Hg & _).
  rewrite (hist_btbUpdate_Ok pc g x) by done. apply keeps_set2.
  pose proof (mask_range nt h H) as [_ Hm].
  assert (0 ≤ Z.land (not64 1) (historyRegisterMask h) ≤ historyRegisterMask h) as Hb by (apply land_bound; lia).
  rewrite (Z.land_comm (historyRegisterMask h)).
  pose proof (land_bound g _ (proj1 Hb)). lia.
Qed.

Lemma correct_keeps i (v b : bool) g x :
  0 ≤ i < localHistoryTableSize h → returns (correct h tid i v g x b) (keeps h).
Proof.
  intros Hi. rewrite correct_Ok by done. cbn [returns].
  assert (wf nt (with_global (<[Z.to_nat tid := Z.land (shift_in g b) (historyRegisterMask h)]>
                                (globalHistory h)) h)) as Hw.
  { apply wf_set_global; [done|]. apply land_bound, (mask_range nt h H). }
  destruct v; (split; [|done]); [|done]. by apply (wf_set_local nt _ Hw).
Qed.

Lemma restore_keeps g idx x : snap_ok h g idx x → returns (restore h tid g idx x) (keeps h).
Proof.
  intros Hs. rewrite restore_Ok by done. cbn [returns].
  pose proof (wf_set_global nt h H (Z.to_nat tid) g (so_global _ _ _ _ Hs)) as Hw.
  destruct (negb _); (split; [|done]); [|done]. by apply (wf_set_local nt _ Hw).
Qed.

End ops.

Lemma snap_ok_cfg h h' g i x : same_cfg h h' → snap_ok h g i x → snap_ok h' g i x.
Proof. intros (E1 & E2 & E3 & E4) []. split; by rewrite ?E2, ?E3, ?E4. Qed.

(** ** Equality up to the unread bits of the local histories *)
Definition same_local (m a b : Z) : Prop := Z.land a m = Z.land b m.

Record equiv (h h' : t) : Prop := {
  eq_cfg : same_cfg h h';
  eq_global : globalHistory h' = globalHistory h;
  eq_local : Forall2 (same_local (localPredictorMask h)) (localHistoryTable h) (localHistoryTable h');
}.

#[global] Instance same_local_equiv m : Equivalence (same_local m).
Proof. unfold same_local. split; [by intros x|by intros x y|intros x y z; congruence]. Qed.

#[global] Instance equiv_equivalence : Equivalence equiv.
Proof.
  split.
  - intros h. by split.
  - intros h h' [(E1 & E2 & E3 & E4) Eg El]. split; [by split_and!|done|]. rewrite E3. by symmetry.
  - intros a b c [Ec Eg El] [Ec' Eg' El']. split; [by transitivity b|congruence|].
    destruct Ec as (_ & _ & Em & _). rewrite Em in El'. by transitivity (localHistoryTable b).
Qed.

Lemma set2_set2 h tid g i x g' x' : set2 (set2 h tid g i x) tid g' i x' = set2 h tid g' i x'.
Proof. unfold set2, with_local, with_global; cbn. by rewrite !list_insert_insert_eq. Qed.

Lemma set2_id h tid g i x :
  globalHistory h !! Z.to_nat tid = Some g → localHistoryTable h !! Z.to_nat i = Some x →
  set2 h tid g i x = h.
Proof.
  intros Hg Hx. unfold set2, with_local, with_global; cbn.
  rewrite !list_insert_id by done. by destruct h.
Qed.

Lemma set2_equiv h tid g g' i x x' :
  g = g' → same_local (localPredictorMask h) x x' → equiv (set2 h tid g i x) (set2 h tid g' i x').
Proof. intros <- Hx. split; [done|done|]. cbn. by apply Forall2_insert. Qed.

Lemma set2_id_equiv h tid g i x x' :
  globalHistory h !! Z.to_nat tid = Some g → localHistoryTable h !! Z.to_nat i = Some x →
  same_local (localPredictorMask h) x x' → equiv h (set2 h tid g i x').
Proof.
  intros Hg Hx Hs. split; [done|cbn; by apply list_insert_id|]. cbn.
  rewrite <- (list_insert_id (localHistoryTable h) (Z.to_nat i) x) at 1 by done. by apply Forall2_insert.
Qed.

(** The same with the local table alone. *)
Lemma set_local_id_equiv h i x x1 x' :
  localHistoryTable h !! i = Some x → same_local (localPredictorMask h) x x' →
  equiv h (with_local (<[i := x']> (<[i := x1]> (localHistoryTable h))) h).
Proof.
  intros Hx Hs. split; [done|done|]. cbn. rewrite list_insert_insert_eq.
  rewrite <- (list_insert_id (localHistoryTable h) i x) at 1 by done. by apply Forall2_insert.
Qed.

Lemma land_idem_mask x m : same_local m x (Z.land x m).
Proof. unfold same_local. by rewrite <- Z.land_assoc, Z.land_diag. Qed.

Lemma shift_in_testbit x b i :
  0 ≤ i → Z.testbit (shift_in x b) i =
    if i =? 0 then b else (i <? 32) && Z.testbit x (i - 1).
Proof.
  intros Hi. unfold shift_in, u32. rewrite Z.lor_spec, <- Z.land_ones, Z.land_spec by lia.
  rewrite Z.shiftl_spec, Z.testbit_ones by lia.
  destruct (Z.eqb_spec i 0) as [->|].
  - by destruct b.
  - replace (Z.testbit (b2z b) i) with false.
    + rewrite orb_false_r. destruct (Z.leb_spec 0 i), (Z.ltb_spec i 32); try lia; cbn;
        by rewrite ?andb_true_r, ?andb_false_r.
    + symmetry. apply (bits_above _ 1); [destruct b; cbn; lia|lia].
Qed.

(** Shifting commutes with forgetting the unread bits. *)
Lemma shift_in_same k x y b :
  0 ≤ k < 32 → same_local (2 ^ k - 1) x y →
  same_local (2 ^ k - 1) (shift_in x b) (shift_in y b).
Proof.
  unfold same_local. intros Hk E. replace (2 ^ k - 1) with (Z.ones k) in * by (rewrite Z.ones_equiv; lia).
  apply Z.bits_inj'. intros i Hi. rewrite !Z.land_spec, !shift_in_testbit by done.
  rewrite Z.testbit_ones by lia. destruct (Z.eqb_spec i 0); [done|].
  destruct (Z.ltb_spec i k); cbn; [|by rewrite !andb_false_r].
  apply (f_equal (λ z, Z.testbit z (i - 1))) in E. rewrite !Z.land_spec, Z.testbit_ones in E by lia.
  destruct (Z.leb_spec 0 (i - 1)), (Z.ltb_spec (i - 1) k); try lia. cbn in E.
  rewrite !andb_true_r in E. by rewrite E.
Qed.

Section undo.
Context (nt : Z) (h : t) (tid pc g x : Z) (H : wf nt h) (Ht : 0 ≤ tid < nt).
Context (Hg : globalHistory h !! Z.to_nat tid = Some g).
Context (Hx : localHistoryTable h !! Z.to_nat (slot h pc) = Some x).

Lemma snapshot_ok : snap_ok h g (slot h pc) (Z.land x (localPredictorMask h)).
Proof.
  split.
  - by apply (Forall_lookup_1 _ _ _ _ (wf_global _ _ H) Hg).
  - right. split; [by apply (slot_range nt)|]. apply land_bound, (mask_range nt h H).
Qed.

Lemma slot_valid : (slot h pc =? invalidPredictorIndex) = false.
Proof.
  apply Z.eqb_neq. pose proof (slot_range nt h H pc). destruct (wf_size _ _ H) as [(k & ? & Ek) ?].
  rewrite Ek in *. assert (k < 32) by (apply (Z.pow_lt_mono_r_iff 2); lia).
  assert (2 ^ k ≤ 2 ^ 31) by (apply Z.pow_le_mono_r; lia). change invalidPredictorIndex with (2 ^ 32 - 1). lia.
Qed.

Lemma local_valid : (Z.land x (localPredictorMask h) =? invalidPredictorIndex) = false.
Proof.
  apply Z.eqb_neq. pose proof (mask_range nt h H) as [? _].
  pose proof (land_bound x (localPredictorMask h)). change invalidPredictorIndex with (2 ^ 32 - 1). lia.
Qed.

(** Restoring the snapshot undoes any change of the two registers. *)
Lemma restore_undoes g1 x1 :
  0 ≤ g1 ≤ historyRegisterMask h →
  returns (restore (set2 h tid g1 (slot h pc) x1) tid g (slot h pc) (Z.land x (localPredictorMask h)))
    (equiv h).
Proof.
  intros Hg1. rewrite (restore_Ok nt); [|by apply keeps_set2|done|by apply (snap_ok_cfg h), snapshot_ok].
  rewrite slot_valid. cbn [negb returns].
  change (equiv h (set2 (set2 h tid g1 (slot h pc) x1) tid g (slot h pc) (Z.land x (localPredictorMask h)))).
  rewrite set2_set2. eapply set2_id_equiv; [done..|]. apply land_idem_mask.
Qed.

Lemma btbUpdate_set2 g1 x1 :
  0 ≤ g1 ≤ historyRegisterMask h →
  ∃ g2 x2, 0 ≤ g2 ≤ historyRegisterMask h ∧
    btbUpdate (set2 h tid g1 (slot h pc) x1) tid pc = Ok (set2 h tid g2 (slot h pc) x2).
Proof.
  intros Hg1. destruct (keeps_set2 nt h tid H g1 (slot h pc) x1 Hg1) as [Hw _].
  pose proof (slot_range nt h H pc). eexists _, _. split; [|].
  2: { erewrite (hist_btbUpdate_Ok nt _ tid Hw Ht pc g1 x1).
       - change (slot (set2 h tid g1 (slot h pc) x1) pc) with (slot h pc). by rewrite set2_set2.
       - cbn. apply vlookup_insert_eq. by rewrite (wf_threads _ _ H).
       - cbn. apply vlookup_insert_eq. by rewrite (wf_table _ _ H). }
  cbn. pose proof (mask_range nt h H) as [_ Hm]. rewrite (Z.land_comm (historyRegisterMask h)).
  assert (0 ≤ Z.land (not64 1) (historyRegisterMask h) ≤ historyRegisterMask h) as Hb by (apply land_bound; lia).
  pose proof (land_bound g1 _ (proj1 Hb)). lia.
Qed.

(** Correcting with the snapshot gives the histories of a right prediction. *)
Lemma correct_speculates g1 x1 b :
  0 ≤ g1 ≤ historyRegisterMask h →
  returns (correct (set2 h tid g1 (slot h pc) x1) tid (slot h pc) true g
             (Z.land x (localPredictorMask h)) b) (λ h1,
    returns (speculate h tid (slot h pc) b) (λ h2, equiv h2 h1)).
Proof.
  intros Hg1. rewrite (correct_Ok nt);
    [|by apply keeps_set2|done|exact (slot_range nt h H pc)].
  cbn [returns]. rewrite (speculate_Ok nt h tid H Ht _ b g x) by (done || by apply (slot_range nt)).
  cbn [returns].
  match goal with |- equiv _ ?h1 =>
    change h1 with (set2 (set2 h tid g1 (slot h pc) x1) tid
      (Z.land (shift_in g b) (historyRegisterMask h)) (slot h pc)
      (shift_in (Z.land x (localPredictorMask h)) b)) end.
  rewrite set2_set2. apply set2_equiv; [done|]. destruct (wf_lmask _ _ H) as (k & Hk & ->).
  apply shift_in_same; [done|]. apply land_idem_mask.
Qed.

End undo.

(** ** The constructor's part *)
Definition create (instShiftAmt localHistoryTableSize localPredictorMask historyRegisterMask
    numThreads : Z) : t :=
  mk instShiftAmt localHistoryTableSize localPredictorMask historyRegisterMask
     (replicate (Z.to_nat localHistoryTableSize) 0) (replicate (Z.to_nat numThreads) 0).

Lemma hist_create_wf shift size lmask gmask nt :
  0 ≤ shift < 64 → is_u32 size → is_pow2 size → 0 ≤ nt →
  (∃ k, 0 ≤ k < 32 ∧ lmask = 2 ^ k - 1) → (∃ k, 0 ≤ k < 32 ∧ gmask = 2 ^ k - 1) →
  wf nt (create shift size lmask gmask nt).
Proof.
  intros Hs Hu Hp Hnt Hl (k & Hk & ->). pose proof (is_pow2_pos _ Hp). unfold is_u32 in Hu.
  pose proof (Z.pow_pos_nonneg 2 k).
  split; cbn; [done|split; [done|lia]| |done|by exists k| |].
  - apply vlen_replicate. lia.
  - apply vlen_replicate. lia.
  - apply Forall_replicate. lia.
Qed.

End HistRegs.
