(* ===== verification/LocalBP.v ===== *)
(** * The local predictor ([cpu/pred/2bit_local.hh], [2bit_local.cc])

    A table of saturating counters indexed by the branch address.  The predictor
    keeps no history: its history pointers are null. *)

From S2P Require Import Prelude IntMath SatCounter Predictor.

Module LocalBP.

Record t := mk {
  instShiftAmt : Z;
  localCtrs : list SatCounter.t;
  localPredictorSize : Z;
  localPredictorSets : Z;
  localCtrBits : Z;
  indexMask : Z;
}.

Definition with_localCtrs (l : list SatCounter.t) (b : t) : t :=
  mk (instShiftAmt b) l (localPredictorSize b) (localPredictorSets b) (localCtrBits b) (indexMask b).

Definition create (indet instShiftAmt localPredictorSize localCtrBits : Z) : res t :=
  _ ← guard_ (isPowerOf2 localPredictorSize) (Fatal "Invalid local predictor size!");
  localPredictorSets ← udiv localPredictorSize localCtrBits;
  _ ← guard_ (isPowerOf2 localPredictorSets)
        (Fatal "Invalid number of local predictor sets! Check localCtrBits.");
  let indexMask := u32 (localPredictorSets - 1) in
  localCtrs ← SatCounter.table indet localPredictorSets localCtrBits;
  Ok (mk instShiftAmt localCtrs localPredictorSize localPredictorSets localCtrBits indexMask).

Definition reset (b : t) : t := with_localCtrs (SatCounter.reset <$> localCtrs b) b.

Definition btbUpdate (b : t) (tid branch_addr : Z) (bp_history : ptr) : res t := Ok b.

Definition getPrediction (b : t) (count : Z) : res bool :=
  r ← shr32 count (u32 (localCtrBits b - 1)); Ok (negb (r =? 0)).

Definition getLocalIndex (b : t) (branch_addr : Z) : res Z :=
  r ← shr64 branch_addr (instShiftAmt b); Ok (u32 (Z.land r (indexMask b))).

(** The history pointer stays [NULL], the value it has in the caller. *)
Definition lookup (b : t) (tid branch_addr : Z) : res (bool * ptr * t) :=
  local_predictor_idx ← getLocalIndex b branch_addr;
  c ← vget (localCtrs b) local_predictor_idx;
  let counter_val := SatCounter.read c in
  taken ← getPrediction b counter_val;
  Ok (taken, None, b).

Definition update (b : t) (tid branch_addr : Z) (taken : bool) (bp_history : ptr)
    (squashed : bool) : res t :=
  _ ← assert_ (bool_decide (bp_history = None));
  if squashed then Ok b
  else
    local_predictor_idx ← getLocalIndex b branch_addr;
    l ← vmod (if taken then SatCounter.increment else SatCounter.decrement)
          (localCtrs b) local_predictor_idx;
    Ok (with_localCtrs l b).

Definition uncondBranch (b : t) (tid pc : Z) : res (ptr * t) := Ok (None, b).

Definition squash (b : t) (tid : Z) (bp_history : ptr) : res t :=
  _ ← assert_ (bool_decide (bp_history = None)); Ok b.

(** [BPredUnit::getGHR], not overridden by this class. *)
Definition getGHR (b : t) (tid : Z) (bp_history : ptr) : res Z := Ok 0.

#[global] Instance local_predictor : DirPredictor t := {|
  dp_uncondBranch := uncondBranch;
  dp_lookup := lookup;
  dp_btbUpdate := btbUpdate;
  dp_update := update;
  dp_squash := squash;
  dp_getGHR := getGHR;
|}.

(** ** Invariant *)
Record wf (b : t) : Prop := {
  wf_shift : 0 ≤ instShiftAmt b < 64;
  wf_sets : 0 < localPredictorSets b < 2 ^ 32;
  wf_mask : indexMask b = localPredictorSets b - 1;
  wf_bits : 1 ≤ localCtrBits b ≤ 32;
  wf_ctrs : SatCounter.table_ok (localPredictorSets b) (SatCounter.maxOf (localCtrBits b)) (localCtrs b);
}.

(** The set of a branch. *)
Definition set_of (b : t) (pc : Z) : Z := Z.land (Z.shiftr pc (instShiftAmt b)) (indexMask b).

Lemma set_of_range b pc : wf b → 0 ≤ set_of b pc < localPredictorSets b.
Proof. intros H. unfold set_of. rewrite (wf_mask _ H). apply land_size_bound, H. Qed.

Lemma getLocalIndex_Ok b pc : wf b → getLocalIndex b pc = Ok (set_of b pc).
Proof.
  intros H. unfold getLocalIndex. rewrite shr64_in by apply H. cbn [mbind res_bind].
  pose proof (set_of_range b pc H). rewrite u32_id; [done|].
  pose proof (wf_sets _ H). unfold is_u32. fold (set_of b pc). lia.
Qed.

Lemma getPrediction_Ok b c :
  wf b → 0 ≤ c → getPrediction b c = Ok (bool_decide (2 ^ (localCtrBits b - 1) ≤ c)).
Proof.
  intros H Hc. pose proof (wf_bits _ H) as Hb. unfold getPrediction.
  rewrite u32_id by (unfold is_u32; lia). rewrite shr32_in by lia. cbn [mbind res_bind]. f_equal.
  rewrite Z.shiftr_div_pow2 by lia. assert (0 < 2 ^ (localCtrBits b - 1)) by (apply Z.pow_pos_nonneg; lia).
  apply eq_true_iff_eq. rewrite negb_true_iff, Z.eqb_neq, bool_decide_eq_true. split; intros.
  - apply Z.nlt_ge. intros ?. rewrite Z.div_small in *; lia.
  - assert (1 ≤ c / 2 ^ (localCtrBits b - 1)) by (apply Z.div_le_lower_bound; lia). lia.
Qed.

Lemma local_lookup_Ok b tid pc c :
  wf b → localCtrs b !! Z.to_nat (set_of b pc) = Some c →
  lookup b tid pc = Ok (bool_decide (2 ^ (localCtrBits b - 1) ≤ SatCounter.counter c), None, b).
Proof.
  intros H Hc. pose proof (set_of_range b pc H). unfold lookup.
  rewrite getLocalIndex_Ok by done. cbn [mbind res_bind].
  rewrite (vget_in _ _ c) by (lia || done). cbn [mbind res_bind].
  rewrite getPrediction_Ok; [done..|].
  apply (SatCounter.table_ok_lookup _ _ _ _ _ (wf_ctrs _ H)) in Hc as (_ & _ & ? & _). unfold SatCounter.read. lia.
Qed.

Lemma slot_exists b pc : wf b → ∃ c, localCtrs b !! Z.to_nat (set_of b pc) = Some c.
Proof.
  intros H. pose proof (set_of_range b pc H). apply vlookup_lt.
  by destruct (wf_ctrs _ H) as [-> _].
Qed.

Lemma update_Ok b tid pc taken c :
  wf b → localCtrs b !! Z.to_nat (set_of b pc) = Some c →
  update b tid pc taken None false =
    Ok (with_localCtrs (<[Z.to_nat (set_of b pc) := SatCounter.train taken c]> (localCtrs b)) b).
Proof.
  intros H Hc. pose proof (set_of_range b pc H). unfold update.
  rewrite getLocalIndex_Ok by done. cbn [mbind res_bind assert_ bool_decide].
  rewrite (proj2 (vmod_Ok _ _ (<[Z.to_nat (set_of b pc) := SatCounter.train taken c]> (localCtrs b)) _)); [done|].
  exists c. split_and!; [lia|done|by destruct taken].
Qed.

Lemma local_wf_with_ctrs b l :
  wf b → SatCounter.table_ok (localPredictorSets b) (SatCounter.maxOf (localCtrBits b)) l →
  wf (with_localCtrs l b).
Proof. intros [] ?. by split. Qed.

Lemma update_wf b tid pc taken squashed :
  wf b → returns (update b tid pc taken None squashed) wf.
Proof.
  intros H. destruct squashed; [done|]. destruct (slot_exists b pc H) as [c Hc].
  rewrite (update_Ok b tid pc taken c) by done. cbn [returns]. apply local_wf_with_ctrs; [done|].
  pose proof (wf_ctrs _ H). apply SatCounter.table_ok_insert; [done|].
  apply SatCounter.train_ok. by eapply SatCounter.table_ok_lookup.
Qed.

Lemma local_create_wf indet shift size bits :
  0 ≤ shift < 64 → is_u32 size → 1 ≤ bits < 31 →
  isPowerOf2 size = true → isPowerOf2 (size / bits) = true →
  returns (create indet shift size bits) (λ b, wf b ∧ localPredictorSets b = size / bits ∧
    localCtrBits b = bits ∧ Forall (λ c, SatCounter.counter c = 0) (localCtrs b)).
Proof.
  intros Hs Hz Hb Hp1 Hp2. unfold create, udiv. rewrite Hp1.
  destruct (Z.eqb_spec bits 0); [lia|]. cbn [mbind res_bind guard_ negb]. rewrite Hp2.
  cbn [mbind res_bind guard_]. rewrite SatCounter.table_val by lia. cbn [mbind res_bind returns].
  assert (is_u32 (size / bits)) as Hu.
  { unfold is_u32 in *. split; [apply Z.div_pos; lia|].
    apply Z.div_lt_upper_bound; nia. }
  apply isPowerOf2_iff in Hp2; [|done]. apply is_pow2_pos in Hp2. unfold is_u32 in Hu.
  split_and!; [|done..|by apply Forall_replicate].
  split; cbn; try lia.
  - rewrite u32_id; [done|]. unfold is_u32. lia.
  - apply SatCounter.table_fresh_ok. lia.
Qed.

#[global] Instance local_laws : DirPredictorLaws t.
Proof.
  refine {| dp_wf := λ _, wf; dp_tracks := λ _ l, Forall (λ p, p = None) l |}.
  - intros s l l' Hl. by rewrite Hl.
  - intros. by split; [|constructor].
  - intros nt s l tid pc Hwf Hl _. cbn [dp_lookup local_predictor].
    destruct (slot_exists s pc Hwf) as [c Hc]. rewrite (local_lookup_Ok s tid pc c) by done.
    by split; [|constructor].
  - intros. by split.
  - intros nt s p l tid pc taken Hwf Hl _. apply Forall_cons in Hl as [-> Hl].
    eapply returns_mono; [by apply update_wf|]. done.
  - intros nt s p l tid pc taken Hwf Hl _. apply Forall_cons in Hl as [-> Hl]. by split; [|constructor].
  - intros nt s p l tid Hwf Hl _. apply Forall_cons in Hl as [-> Hl]. by split.
  - done.
Defined.

(** ** Training *)
Fixpoint run_updates (b : t) (us : list (Z * bool)) : res t :=
  match us with
  | [] => Ok b
  | (pc, taken) :: us => b ← update b 0 pc taken None false; run_updates b us
  end.

Definition train_all (outs : list bool) (c : SatCounter.t) : SatCounter.t :=
  fold_left (λ c o, SatCounter.train o c) outs c.

(** The outcomes of the branches that share the set of [pc]. *)
Definition outcomes (b : t) (pc : Z) (us : list (Z * bool)) : list bool :=
  snd <$> filter (λ x, set_of b x.1 = set_of b pc) us.

Lemma run_updates_slot us b pc c :
  wf b → localCtrs b !! Z.to_nat (set_of b pc) = Some c →
  returns (run_updates b us) (λ b', wf b' ∧ set_of b' pc = set_of b pc ∧
    localCtrBits b' = localCtrBits b ∧
    localCtrs b' !! Z.to_nat (set_of b pc) = Some (train_all (outcomes b pc us) c)).
Proof.
  revert b c. induction us as [|[pc1 o] us IH]; intros b c H Hc; [done|]. cbn [run_updates].
  pose proof (set_of_range b pc H). pose proof (set_of_range b pc1 H).
  destruct (slot_exists b pc1 H) as [c1 Hc1]. pose proof (update_wf b 0 pc1 o false H) as Hw.
  rewrite (update_Ok b 0 pc1 o c1) in * by done. cbn [mbind res_bind returns] in *.
  set (b1 := with_localCtrs _ b) in *. unfold outcomes. rewrite filter_cons. cbn [fst].
  assert (localCtrs b1 !! Z.to_nat (set_of b pc) =
          Some (if decide (set_of b pc1 = set_of b pc) then SatCounter.train o c else c)) as Hc'.
  { case_decide as E; cbn.
    - rewrite E in *. simplify_eq. apply vlookup_insert_eq. destruct (wf_ctrs _ H) as [-> _]. lia.
    - rewrite vlookup_insert_ne by lia. done. }
  eapply returns_mono; [exact (IH b1 _ Hw Hc')|]. cbv beta. intros b' (? & ? & ? & Hb').
  split_and!; [done..|]. change (set_of b1 pc) with (set_of b pc) in Hb'. rewrite Hb'.
  by case_decide.
Qed.

(** ** Theorems *)

(** After any sequence of committed branches, the local predictor answers
    for [pc] what a single counter answers that has seen, in order, exactly the
    outcomes of the branches that share the set of [pc]: the prediction is taken
    if and only if the counter is in the upper half of its range. *)
Theorem local_refines_counter (b : t) (us : list (Z * bool)) (pc tid : Z) (c : SatCounter.t) :
  wf b → localCtrs b !! Z.to_nat (set_of b pc) = Some c →
  returns (run_updates b us) (λ b', wf b' ∧
    lookup b' tid pc =
      Ok (bool_decide (2 ^ (localCtrBits b - 1) ≤ SatCounter.counter (train_all (outcomes b pc us) c)),
          None, b')).
Proof.
  intros H Hc. eapply returns_mono; [by apply (run_updates_slot us b pc c)|].
  intros b' (Hw & Es & Eb & Hs). split; [done|]. rewrite <- Eb. apply local_lookup_Ok; [done|].
  by rewrite Es.
Qed.

(** ** Witnesses *)
Definition local8 : t := mk 2 (replicate 8 (SatCounter.mk 0 3 0)) 16 8 2 7.

Lemma local8_wf : wf local8.
Proof.
  split; cbn; try lia. split; [done|]. apply (Forall_replicate _ 8). unfold SatCounter.ok. cbn.
  change (SatCounter.maxOf 2) with 3. lia.
Qed.

Lemma local_refines_counter_witness :
  wf local8 ∧
  returns (run_updates local8 [(64, true); (68, false); (64, true); (96, true)])
    (λ b', wf b' ∧ lookup b' 0 64 = Ok (true, None, b')).
Proof.
  split; [exact local8_wf|].
  exact (local_refines_counter local8 [(64, true); (68, false); (64, true); (96, true)] 64 0
           (SatCounter.mk 0 3 0) local8_wf eq_refl).
Defined.

End LocalBP.
