(* ===== verification/Tournament.v ===== *)
(** * The tournament predictor ([cpu/pred/tournament.hh], [tournament.cc])

    A local predictor (per-branch history into a counter table), a global
    predictor (history register into a counter table) and a choice table that
    picks one of them.  Both histories are updated speculatively by [lookup];
    the [BPHistory] object records what is needed to undo or correct that. *)

From S2P Require Import Prelude IntMath SatCounter Predictor HistRegs.

(** [ctrs[idx].read() > threshold] *)
Definition predicts (ctrs : list SatCounter.t) (idx threshold : Z) : res bool :=
  c ← vget ctrs idx; Ok (threshold <? SatCounter.read c).

Lemma returns_predicts n mx ctrs i th (Q : bool → Prop) :
  SatCounter.table_ok n mx ctrs → 0 ≤ i < n → (∀ b, predicts ctrs i th = Ok b → Q b) →
  returns (predicts ctrs i th) Q.
Proof.
  intros [Hl _] Hi HQ. unfold predicts in *. destruct (vlookup_lt ctrs i) as [c Hc]; [lia|].
  rewrite (vget_in _ _ c) in * by (lia || done). cbn in *. by apply HQ.
Qed.

Lemma predicts_Ok n mx ctrs i th :
  SatCounter.table_ok n mx ctrs → 0 ≤ i < n → ∃ b, predicts ctrs i th = Ok b.
Proof.
  intros Hok Hi. assert (returns (predicts ctrs i th) (λ _, True)) as Hr by (by eapply returns_predicts).
  apply returns_iff in Hr as (b & E & _). by exists b.
Qed.

(** A threshold the counters cannot exceed. *)
Lemma predicts_saturated n mx ctrs i th b :
  SatCounter.table_ok n mx ctrs → mx ≤ th → predicts ctrs i th = Ok b → b = false.
Proof.
  intros Hok Hm E. unfold predicts in E. res_inv. apply Z.ltb_ge.
  pose proof (SatCounter.table_ok_lookup _ _ _ _ _ Hok H) as (_ & _ & ? & _).
  unfold SatCounter.read. lia.
Qed.

Module TournamentBP.

Record BPHistory := mkHist {
  globalHistory : Z;
  localHistoryIdx : Z;
  localHistory : Z;
  localPredTaken : bool;
  globalPredTaken : bool;
  globalUsed : bool;
}.

Record Params := mkParams {
  p_numThreads : Z;
  p_instShiftAmt : Z;
  p_localPredictorSize : Z;
  p_localCtrBits : Z;
  p_localHistoryTableSize : Z;
  p_globalPredictorSize : Z;
  p_globalCtrBits : Z;
  p_choicePredictorSize : Z;
  p_choiceCtrBits : Z;
}.

(** The members that only the constructor writes. *)
Record Cfg := mkCfg {
  localPredictorSize : Z;
  localCtrBits : Z;
  localHistoryBits : Z;
  globalPredictorSize : Z;
  globalCtrBits : Z;
  globalHistoryBits : Z;
  globalHistoryMask : Z;
  choiceHistoryMask : Z;
  choicePredictorSize : Z;
  choiceCtrBits : Z;
  localThreshold : Z;
  globalThreshold : Z;
  choiceThreshold : Z;
}.

Record t := mk {
  cfg : Cfg;
  regs : HistRegs.t;
  localCtrs : list SatCounter.t;
  globalCtrs : list SatCounter.t;
  choiceCtrs : list SatCounter.t;
  histories : heap BPHistory;
  atLeastOneCorrectExpertOnMispredict : Z;
}.

Definition with_regs (r : HistRegs.t) (s : t) : t :=
  mk (cfg s) r (localCtrs s) (globalCtrs s) (choiceCtrs s) (histories s)
     (atLeastOneCorrectExpertOnMispredict s).
Definition with_ctrs (l g c : list SatCounter.t) (s : t) : t :=
  mk (cfg s) (regs s) l g c (histories s) (atLeastOneCorrectExpertOnMispredict s).
Definition with_histories (h : heap BPHistory) (s : t) : t :=
  mk (cfg s) (regs s) (localCtrs s) (globalCtrs s) (choiceCtrs s) h
     (atLeastOneCorrectExpertOnMispredict s).
Definition with_stat (n : Z) (s : t) : t :=
  mk (cfg s) (regs s) (localCtrs s) (globalCtrs s) (choiceCtrs s) (histories s) n.

Definition create (indet : Z) (p : Params) : res t :=
  localHistoryBits ← ceilLog2 (p_localPredictorSize p);
  gbits ← ceilLog2 (p_globalPredictorSize p);
  cbits ← ceilLog2 (p_choicePredictorSize p);
  let globalHistoryBits := if cbits <? gbits then gbits else cbits in
  _ ← guard_ (isPowerOf2 (p_localPredictorSize p)) (Fatal "Invalid local predictor size!");
  _ ← guard_ (isPowerOf2 (p_globalPredictorSize p)) (Fatal "Invalid global predictor size!");
  localCtrs ← SatCounter.table indet (p_localPredictorSize p) (p_localCtrBits p);
  lmask ← mask localHistoryBits;
  _ ← guard_ (isPowerOf2 (p_localHistoryTableSize p)) (Fatal "Invalid local history table size!");
  globalCtrs ← SatCounter.table indet (p_globalPredictorSize p) (p_globalCtrBits p);
  let globalHistoryMask := u32 (p_globalPredictorSize p - 1) in
  _ ← guard_ (isPowerOf2 (p_choicePredictorSize p)) (Fatal "Invalid choice predictor size!");
  let choiceHistoryMask := u32 (p_choicePredictorSize p - 1) in
  choiceCtrs ← SatCounter.table indet (p_choicePredictorSize p) (p_choiceCtrBits p);
  hmask ← mask globalHistoryBits;
  let historyRegisterMask := u32 hmask in
  _ ← guard_ (negb (historyRegisterMask <? globalHistoryMask))
        (Fatal "Global predictor too large for global history bits!");
  _ ← guard_ (negb (historyRegisterMask <? choiceHistoryMask))
        (Fatal "Choice predictor too large for global history bits!");
  localThreshold ← counterThreshold (p_localCtrBits p);
  globalThreshold ← counterThreshold (p_globalCtrBits p);
  choiceThreshold ← counterThreshold (p_choiceCtrBits p);
  Ok (mk (mkCfg (p_localPredictorSize p) (p_localCtrBits p) localHistoryBits
            (p_globalPredictorSize p) (p_globalCtrBits p) globalHistoryBits globalHistoryMask
            choiceHistoryMask (p_choicePredictorSize p) (p_choiceCtrBits p)
            localThreshold globalThreshold choiceThreshold)
         (HistRegs.create (p_instShiftAmt p) (p_localHistoryTableSize p) (u32 lmask)
            historyRegisterMask (p_numThreads p))
         localCtrs globalCtrs choiceCtrs heap_empty 0).

Definition btbUpdate (s : t) (tid branch_addr : Z) (bp_history : ptr) : res t :=
  r ← HistRegs.btbUpdate (regs s) tid branch_addr; Ok (with_regs r s).

Definition lookup (s : t) (tid branch_addr : Z) : res (bool * ptr * t) :=
  let c := cfg s in
  local_history_idx ← HistRegs.calcLocHistIdx (regs s) branch_addr;
  lh ← vget (HistRegs.localHistoryTable (regs s)) local_history_idx;
  let local_predictor_idx := Z.land lh (HistRegs.localPredictorMask (regs s)) in
  local_prediction ← predicts (localCtrs s) local_predictor_idx (localThreshold c);
  g ← vget (HistRegs.globalHistory (regs s)) tid;
  global_prediction ← predicts (globalCtrs s) (Z.land g (globalHistoryMask c)) (globalThreshold c);
  choice_prediction ← predicts (choiceCtrs s) (Z.land g (choiceHistoryMask c)) (choiceThreshold c);
  let '(bp_history, hs) :=
    heap_new (histories s)
      (mkHist g local_history_idx local_predictor_idx local_prediction global_prediction
         choice_prediction) in
  _ ← assert_ (local_history_idx <? HistRegs.localHistoryTableSize (regs s));
  let taken := if choice_prediction : bool then global_prediction else local_prediction in
  r ← HistRegs.speculate (regs s) tid local_history_idx taken;
  Ok (taken, bp_history, with_histories hs (with_regs r s)).

Definition uncondBranch (s : t) (tid pc : Z) : res (ptr * t) :=
  g ← vget (HistRegs.globalHistory (regs s)) tid;
  let '(bp_history, hs) :=
    heap_new (histories s)
      (mkHist g invalidPredictorIndex invalidPredictorIndex true true true) in
  r ← HistRegs.updateGlobalHistTaken (regs s) tid;
  Ok (bp_history, with_histories hs (with_regs r s)).

Definition updateAdditionalStats (s : t) (taken : bool) (history : BPHistory) : t :=
  let prediction := if globalUsed history then globalPredTaken history else localPredTaken history in
  let mispredict := negb (eqb taken prediction) in
  if mispredict &&
     (globalUsed history && eqb (localPredTaken history) taken ||
      negb (globalUsed history) && eqb (globalPredTaken history) taken)
  then with_stat (atLeastOneCorrectExpertOnMispredict s + 1) s
  else s.

(** The choice table moves towards the expert that was right. *)
Definition train_choice (s : t) (taken : bool) (history : BPHistory) (old_local_pred_valid : bool)
    : res (list SatCounter.t) :=
  if negb (eqb (localPredTaken history) (globalPredTaken history)) && old_local_pred_valid then
    let choice_predictor_idx := Z.land (globalHistory history) (choiceHistoryMask (cfg s)) in
    if eqb (localPredTaken history) taken then vmod SatCounter.decrement (choiceCtrs s) choice_predictor_idx
    else if eqb (globalPredTaken history) taken then vmod SatCounter.increment (choiceCtrs s) choice_predictor_idx
    else Ok (choiceCtrs s)
  else Ok (choiceCtrs s).

Definition update (s : t) (tid branch_addr : Z) (taken : bool) (bp_history : ptr)
    (squashed : bool) : res t :=
  _ ← assert_ (bool_decide (bp_history ≠ None));
  history ← heap_deref (histories s) bp_history;
  local_history_idx ← HistRegs.calcLocHistIdx (regs s) branch_addr;
  _ ← assert_ (local_history_idx <? HistRegs.localHistoryTableSize (regs s));
  let old_local_pred_valid := negb (localHistory history =? invalidPredictorIndex) in
  let s := updateAdditionalStats s taken history in
  if squashed then
    r ← HistRegs.correct (regs s) tid local_history_idx old_local_pred_valid
          (globalHistory history) (localHistory history) taken;
    Ok (with_regs r s)
  else
    let old_local_pred_index := Z.land (localHistory history) (HistRegs.localPredictorMask (regs s)) in
    _ ← assert_ (old_local_pred_index <? localPredictorSize (cfg s));
    choice ← train_choice s taken history old_local_pred_valid;
    let global_predictor_idx := Z.land (globalHistory history) (globalHistoryMask (cfg s)) in
    global ← vmod (SatCounter.train taken) (globalCtrs s) global_predictor_idx;
    local ← (if old_local_pred_valid
             then vmod (SatCounter.train taken) (localCtrs s) old_local_pred_index
             else Ok (localCtrs s));
    hs ← heap_delete (histories s) bp_history;
    Ok (with_histories hs (with_ctrs local global choice s)).

Definition squash (s : t) (tid : Z) (bp_history : ptr) : res t :=
  history ← heap_deref (histories s) bp_history;
  r ← HistRegs.restore (regs s) tid (globalHistory history) (localHistoryIdx history)
        (localHistory history);
  hs ← heap_delete (histories s) bp_history;
  Ok (with_histories hs (with_regs r s)).

Definition getGHR (s : t) (tid : Z) (bp_history : ptr) : res Z :=
  history ← heap_deref (histories s) bp_history; Ok (globalHistory history).

#[global] Instance tournament_predictor : DirPredictor t := {|
  dp_uncondBranch := uncondBranch;
  dp_lookup := lookup;
  dp_btbUpdate := btbUpdate;
  dp_update := update;
  dp_squash := squash;
  dp_getGHR := getGHR;
|}.

(** ** Invariant *)
Definition hist_ok (r : HistRegs.t) (h : BPHistory) : Prop :=
  HistRegs.snap_ok r (globalHistory h) (localHistoryIdx h) (localHistory h).

Record wf (nt : Z) (s : t) : Prop := {
  wf_regs : HistRegs.wf nt (regs s);
  wf_local : SatCounter.table_ok (localPredictorSize (cfg s))
               (SatCounter.maxOf (localCtrBits (cfg s))) (localCtrs s);
  wf_lsize : HistRegs.localPredictorMask (regs s) = localPredictorSize (cfg s) - 1;
  wf_globalc : SatCounter.table_ok (globalPredictorSize (cfg s))
               (SatCounter.maxOf (globalCtrBits (cfg s))) (globalCtrs s);
  wf_gsize : 0 < globalPredictorSize (cfg s) ∧ globalHistoryMask (cfg s) = globalPredictorSize (cfg s) - 1;
  wf_choice : SatCounter.table_ok (choicePredictorSize (cfg s))
               (SatCounter.maxOf (choiceCtrBits (cfg s))) (choiceCtrs s);
  wf_csize : 0 < choicePredictorSize (cfg s) ∧ choiceHistoryMask (cfg s) = choicePredictorSize (cfg s) - 1;
  wf_hist : heap_all (hist_ok (regs s)) (histories s);
}.

Lemma tour_wf_with_regs nt s r : wf nt s → HistRegs.keeps nt (regs s) r → wf nt (with_regs r s).
Proof.
  intros [] [Hw Hc]. pose proof Hc as (_ & _ & Em & _). split; cbn; try done.
  - by rewrite Em.
  - eapply map_Forall_impl; [done|]. intros a h. by apply HistRegs.snap_ok_cfg.
Qed.

Lemma tour_wf_with_histories nt s hs :
  wf nt s → heap_all (hist_ok (regs s)) hs → wf nt (with_histories hs s).
Proof. intros [] ?. by split. Qed.

Section wf.
Context (nt : Z) (s : t) (H : wf nt s).

Lemma tour_local_idx x : 0 ≤ Z.land x (HistRegs.localPredictorMask (regs s)) < localPredictorSize (cfg s).
Proof.
  pose proof (HistRegs.mask_range nt _ (wf_regs _ _ H)) as [? _].
  pose proof (land_bound x (HistRegs.localPredictorMask (regs s))). rewrite (wf_lsize _ _ H) in *. lia.
Qed.

Lemma tour_global_idx x : 0 ≤ Z.land x (globalHistoryMask (cfg s)) < globalPredictorSize (cfg s).
Proof. destruct (wf_gsize _ _ H) as [? ->]. by apply land_size_bound. Qed.

Lemma tour_choice_idx x : 0 ≤ Z.land x (choiceHistoryMask (cfg s)) < choicePredictorSize (cfg s).
Proof. destruct (wf_csize _ _ H) as [? ->]. by apply land_size_bound. Qed.

(** [lookup] with the three expert answers it is made of. *)
Lemma tour_lookup_Ok tid pc g x :
  0 ≤ tid < nt →
  HistRegs.globalHistory (regs s) !! Z.to_nat tid = Some g →
  HistRegs.localHistoryTable (regs s) !! Z.to_nat (HistRegs.slot (regs s) pc) = Some x →
  ∃ l gl ch,
    let lidx := Z.land x (HistRegs.localPredictorMask (regs s)) in
    let taken := if ch : bool then gl else l in
    let i := HistRegs.slot (regs s) pc in
    predicts (localCtrs s) lidx (localThreshold (cfg s)) = Ok l ∧
    predicts (globalCtrs s) (Z.land g (globalHistoryMask (cfg s))) (globalThreshold (cfg s)) = Ok gl ∧
    predicts (choiceCtrs s) (Z.land g (choiceHistoryMask (cfg s))) (choiceThreshold (cfg s)) = Ok ch ∧
    lookup s tid pc =
      (let '(p, hs) := heap_new (histories s) (mkHist g i lidx l gl ch) in
       Ok (taken, p, with_histories hs (with_regs
         (HistRegs.set2 (regs s) tid
            (Z.land (HistRegs.shift_in g taken) (HistRegs.historyRegisterMask (regs s))) i
            (HistRegs.shift_in x taken)) s))).
Proof.
  intros Ht Hg Hx. pose proof (wf_regs _ _ H) as Hr. pose proof (HistRegs.slot_range nt _ Hr pc) as Hi.
  assert (returns (predicts (localCtrs s) (Z.land x (HistRegs.localPredictorMask (regs s)))
    (localThreshold (cfg s))) (λ _, True)) as Hl by (eapply returns_predicts; [apply H|apply tour_local_idx|done]).
  assert (returns (predicts (globalCtrs s) (Z.land g (globalHistoryMask (cfg s)))
    (globalThreshold (cfg s))) (λ _, True)) as Hgl by (eapply returns_predicts; [apply H|apply tour_global_idx|done]).
  assert (returns (predicts (choiceCtrs s) (Z.land g (choiceHistoryMask (cfg s)))
    (choiceThreshold (cfg s))) (λ _, True)) as Hch by (eapply returns_predicts; [apply H|apply tour_choice_idx|done]).
  apply returns_iff in Hl as (l & El & _), Hgl as (gl & Egl & _), Hch as (ch & Ech & _).
  exists l, gl, ch. cbv zeta. split_and!; [done..|]. unfold lookup.
  rewrite (HistRegs.calcLocHistIdx_Ok nt) by done. cbn [mbind res_bind].
  rewrite (vget_in _ (HistRegs.slot (regs s) pc) x) by (lia || done). cbn [mbind res_bind]. rewrite El. cbn [mbind res_bind].
  rewrite (vget_in _ tid g) by (lia || done). cbn [mbind res_bind]. rewrite Egl. cbn [mbind res_bind].
  rewrite Ech. cbn [mbind res_bind heap_new]. unfold assert_.
  destruct (Z.ltb_spec (HistRegs.slot (regs s) pc) (HistRegs.localHistoryTableSize (regs s))); [|lia].
  cbn [mbind res_bind]. by rewrite (HistRegs.speculate_Ok nt _ tid Hr Ht _ _ g x).
Qed.

Lemma tour_lookup_ok l tid pc :
  0 ≤ tid < nt → heap_tracks (histories s) l →
  returns (lookup s tid pc) (λ r, wf nt r.2 ∧ heap_tracks (histories r.2) (r.1.2 :: l)).
Proof.
  intros Ht Htr. pose proof (wf_regs _ _ H) as Hr.
  destruct (HistRegs.global_exists nt _ Hr tid Ht) as (g & Hg & Hgr).
  destruct (HistRegs.local_exists nt _ Hr _ (HistRegs.slot_range nt _ Hr pc)) as [x Hx].
  destruct (tour_lookup_Ok tid pc g x Ht Hg Hx) as (lp & gl & ch & _ & _ & _ & ->). cbn [heap_new returns fst snd].
  split; [|by apply (heap_tracks_new (histories s))].
  assert (HistRegs.keeps nt (regs s) (HistRegs.set2 (regs s) tid
    (Z.land (HistRegs.shift_in g (if ch : bool then gl else lp)) (HistRegs.historyRegisterMask (regs s)))
    (HistRegs.slot (regs s) pc) (HistRegs.shift_in x (if ch : bool then gl else lp)))) as Hk.
  { apply HistRegs.keeps_set2; [done|]. apply land_bound, (HistRegs.mask_range nt _ Hr). }
  apply tour_wf_with_histories; [by apply tour_wf_with_regs|].
  apply (heap_all_new (hist_ok _) (histories s)).
  - apply (tour_wf_with_regs nt s _ H Hk).
  - apply (HistRegs.snap_ok_cfg (regs s)); [apply Hk|]. by apply (HistRegs.snapshot_ok nt _ tid pc g x).
Qed.

Lemma tour_uncondBranch_ok l tid pc :
  0 ≤ tid < nt → heap_tracks (histories s) l →
  returns (uncondBranch s tid pc) (λ r, wf nt r.2 ∧ heap_tracks (histories r.2) (r.1 :: l)).
Proof.
  intros Ht Htr. pose proof (wf_regs _ _ H) as Hr. unfold uncondBranch.
  destruct (HistRegs.global_exists nt _ Hr tid Ht) as (g & Hg & Hgr).
  rewrite (vget_in _ tid g) by (lia || done). cbn [mbind res_bind heap_new]. apply returns_bind.
  eapply returns_mono; [apply (HistRegs.globalHist_keeps nt (regs s) tid Hr Ht true)|].
  intros r Hk. cbn [returns fst snd]. split; [|by apply (heap_tracks_new (histories s))].
  apply tour_wf_with_histories; [by apply tour_wf_with_regs|]. cbn.
  apply (heap_all_new (hist_ok _) (histories s)); [apply (tour_wf_with_regs nt s _ H Hk)|].
  apply (HistRegs.snap_ok_cfg (regs s)); [apply Hk|]. split; [done|by left].
Qed.

Lemma tour_btbUpdate_ok p l tid pc :
  0 ≤ tid < nt → heap_tracks (histories s) l →
  returns (btbUpdate s tid pc p) (λ s', wf nt s' ∧ heap_tracks (histories s') l).
Proof.
  intros Ht Htr. unfold btbUpdate. apply returns_bind.
  eapply returns_mono; [by apply (HistRegs.btbUpdate_keeps nt _ tid (wf_regs _ _ H) Ht)|].
  intros r Hk. split; [by apply tour_wf_with_regs|done].
Qed.

Lemma tour_squash_ok p l tid :
  0 ≤ tid < nt → heap_tracks (histories s) (p :: l) →
  returns (squash s tid p) (λ s', wf nt s' ∧ heap_tracks (histories s') l).
Proof.
  intros Ht Htr. unfold squash. apply returns_bind.
  eapply returns_deref; [done|apply H|]. intros a h -> Ha Hh. apply returns_bind.
  eapply returns_mono; [by apply (HistRegs.restore_keeps nt _ tid (wf_regs _ _ H) Ht)|].
  intros r Hk. apply returns_bind. eapply returns_delete; [done|apply H|]. intros hs Htr' Hall.
  split; [|done]. apply tour_wf_with_histories; [by apply tour_wf_with_regs|]. cbn.
  eapply map_Forall_impl; [done|]. intros ? ?. apply HistRegs.snap_ok_cfg, Hk.
Qed.

Lemma tour_stats_wf taken h : wf nt (updateAdditionalStats s taken h).
Proof. unfold updateAdditionalStats. destruct H. by destruct (_ && _). Qed.

Lemma tour_wf_with_ctrs l g c :
  SatCounter.table_ok (localPredictorSize (cfg s)) (SatCounter.maxOf (localCtrBits (cfg s))) l →
  SatCounter.table_ok (globalPredictorSize (cfg s)) (SatCounter.maxOf (globalCtrBits (cfg s))) g →
  SatCounter.table_ok (choicePredictorSize (cfg s)) (SatCounter.maxOf (choiceCtrBits (cfg s))) c →
  wf nt (with_ctrs l g c s).
Proof. destruct H. by split. Qed.

End wf.

Lemma stats_histories s taken h : histories (updateAdditionalStats s taken h) = histories s.
Proof. unfold updateAdditionalStats. by destruct (_ && _). Qed.

Lemma stats_regs s taken h : regs (updateAdditionalStats s taken h) = regs s.
Proof. unfold updateAdditionalStats. by destruct (_ && _). Qed.

Lemma train_choice_ok nt s taken h v :
  wf nt s → returns (train_choice s taken h v)
    (SatCounter.table_ok (choicePredictorSize (cfg s)) (SatCounter.maxOf (choiceCtrBits (cfg s)))).
Proof.
  intros H. pose proof (wf_choice _ _ H). unfold train_choice. destruct (_ && v); [|done].
  destruct (eqb (localPredTaken h) taken); [|destruct (eqb (globalPredTaken h) taken); [|done]];
    (eapply SatCounter.returns_train;
      [done|eauto using SatCounter.increment_ok, SatCounter.decrement_ok|by apply (tour_choice_idx nt)|done]).
Qed.

Lemma tour_update_ok nt s p l tid pc taken squashed :
  wf nt s → 0 ≤ tid < nt → heap_tracks (histories s) (p :: l) →
  returns (update s tid pc taken p squashed) (λ s', wf nt s' ∧
    heap_tracks (histories s') (if squashed then p :: l else l)).
Proof.
  intros H Ht Htr. unfold update.
  destruct (heap_tracks_deref _ _ _ Htr) as (a & h & -> & Ha). cbn [mbind res_bind assert_ bool_decide].
  cbn [heap_deref]. rewrite Ha. cbn [mbind res_bind]. rewrite bool_decide_true by done. cbn [assert_ mbind res_bind].
  pose proof (wf_regs _ _ H) as Hr. rewrite (HistRegs.calcLocHistIdx_Ok nt) by done. cbn [mbind res_bind].
  pose proof (HistRegs.slot_range nt _ Hr pc) as Hi.
  apply returns_bind, returns_assert; [apply Z.ltb_lt; lia|].
  pose proof (tour_stats_wf nt s H taken h) as H1. rewrite <- (stats_histories s taken h) in Htr.
  pose proof (stats_regs s taken h) as Er.
  set (s1 := updateAdditionalStats s taken h) in *. rewrite <- Er in Hi. clearbody s1. destruct squashed.
  - apply returns_bind. rewrite <- Er.
    eapply returns_mono; [by apply (HistRegs.correct_keeps nt _ tid (wf_regs _ _ H1) Ht)|].
    intros r Hk. split; [by apply tour_wf_with_regs|done].
  - apply returns_bind, returns_assert.
    { apply Z.ltb_lt. apply (tour_local_idx nt s1 H1). }
    apply returns_bind. eapply returns_mono; [by apply (train_choice_ok nt)|]. intros c Hc.
    apply returns_bind. eapply SatCounter.returns_train; [apply H1|eauto using SatCounter.train_ok|apply (tour_global_idx nt s1 H1)|].
    intros g Hg _. apply returns_bind.
    apply (returns_mono _ (SatCounter.table_ok (localPredictorSize (cfg s1)) (SatCounter.maxOf (localCtrBits (cfg s1))))).
    { destruct (negb _); [|apply H1]. eapply SatCounter.returns_train;
        [apply H1|eauto using SatCounter.train_ok|apply (tour_local_idx nt s1 H1)|done]. }
    intros lc Hlc. apply returns_bind. eapply returns_delete; [done|apply H1|]. intros hs Htr' Hall.
    split; [|done]. apply tour_wf_with_histories; [by apply tour_wf_with_ctrs|done].
Qed.

#[global] Instance tournament_laws : DirPredictorLaws t.
Proof.
  refine {| dp_wf := wf; dp_tracks := λ s, heap_tracks (histories s) |}.
  - intros. by apply tour_uncondBranch_ok.
  - intros. by apply tour_lookup_ok.
  - intros. by apply tour_btbUpdate_ok.
  - intros. by apply (tour_update_ok nt s p l tid pc taken false).
  - intros. by apply (tour_update_ok nt s p l tid pc taken true).
  - intros. by apply tour_squash_ok.
  - intros nt s p l tid H Htr _. cbn. unfold getGHR. apply returns_bind.
    eapply returns_deref; [done|apply H|done].
Defined.

(** ** The constructor *)
Record params_ok (p : Params) : Prop := {
  po_threads : 0 < p_numThreads p;
  po_shift : 0 ≤ p_instShiftAmt p < 64;
  po_local : is_u32 (p_localPredictorSize p) ∧ isPowerOf2 (p_localPredictorSize p) = true;
  po_table : is_u32 (p_localHistoryTableSize p) ∧ isPowerOf2 (p_localHistoryTableSize p) = true;
  po_global : is_u32 (p_globalPredictorSize p) ∧ isPowerOf2 (p_globalPredictorSize p) = true;
  po_choice : is_u32 (p_choicePredictorSize p) ∧ isPowerOf2 (p_choicePredictorSize p) = true;
  po_lbits : 1 ≤ p_localCtrBits p < 31;
  po_gbits : 1 ≤ p_globalCtrBits p < 31;
  po_cbits : 1 ≤ p_choiceCtrBits p < 31;
}.

Lemma guard_true {A} b e (m : res A) : b = true → (_ ← guard_ b e; m) = m.
Proof. by intros ->. Qed.

Lemma tour_create_wf indet p :
  params_ok p → returns (create indet p) (λ s, wf (p_numThreads p) s ∧ heap_tracks (histories s) [] ∧
    localThreshold (cfg s) = 2 ^ (p_localCtrBits p - 1) - 1 ∧
    globalThreshold (cfg s) = 2 ^ (p_globalCtrBits p - 1) - 1 ∧
    choiceThreshold (cfg s) = 2 ^ (p_choiceCtrBits p - 1) - 1).
Proof.
  intros [Hnt Hsh [Hl1 Hl2] [Ht1 Ht2] [Hg1 Hg2] [Hc1 Hc2] Hlb Hgb Hcb].
  destruct (pow2_facts _ Hl1 Hl2) as (kl & Hkl & El & Ecl & Eml & Hl3 & Eul).
  destruct (pow2_facts _ Hg1 Hg2) as (kg & Hkg & Eg & Ecg & Emg & Hg3 & Eug).
  destruct (pow2_facts _ Hc1 Hc2) as (kc & Hkc & Ec & Ecc & Emc & Hc3 & Euc).
  unfold create. rewrite Ecl, Ecg, Ecc. cbn [mbind res_bind].
  rewrite Hl2, Hg2, Ht2, Hc2, !SatCounter.table_val by lia. cbn [guard_ mbind res_bind].
  rewrite Eml. cbn [mbind res_bind]. rewrite Eug, Euc, Eul.
  set (kh := if kc <? kg then kg else kc).
  assert (0 ≤ kh < 32 ∧ kg ≤ kh ∧ kc ≤ kh) as (Hkh & Hle1 & Hle2)
    by (subst kh; destruct (Z.ltb_spec kc kg); lia).
  assert (2 ^ kg ≤ 2 ^ kh ∧ 2 ^ kc ≤ 2 ^ kh) as [Hp1 Hp2] by (split; apply Z.pow_le_mono_r; lia).
  assert (2 ^ kh ≤ 2 ^ 31) by (apply Z.pow_le_mono_r; lia).
  rewrite mask_ones by lia. cbn [mbind res_bind].
  rewrite (u32_id (2 ^ kh - 1)) by (unfold is_u32; lia).
  rewrite (guard_true (negb (_ <? p_globalPredictorSize p - 1))) by (apply negb_true_iff, Z.ltb_ge; lia).
  rewrite (guard_true (negb (_ <? p_choicePredictorSize p - 1))) by (apply negb_true_iff, Z.ltb_ge; lia).
  rewrite !counterThreshold_Ok by lia. cbn [mbind res_bind returns].
  split_and!; [|apply heap_tracks_empty|done..].
  split; cbn; try done; try (apply SatCounter.table_fresh_ok; lia).
  - apply HistRegs.hist_create_wf; try done; try lia; [by apply isPowerOf2_iff|exists kl; rewrite El; split; lia|].
    exists kh. split; lia.
  - split; [lia|done].
  - split; [lia|done].
Qed.

(** ** Observational equivalence *)
Record equiv (s s' : t) : Prop := {
  eq_cfg : cfg s' = cfg s;
  eq_regs : HistRegs.equiv (regs s) (regs s');
  eq_local : localCtrs s' = localCtrs s;
  eq_global : globalCtrs s' = globalCtrs s;
  eq_choice : choiceCtrs s' = choiceCtrs s;
  eq_objects : cells (histories s') = cells (histories s);
}.

#[global] Instance tournament_equiv : Equivalence equiv.
Proof.
  split.
  - intros s. by split.
  - intros s s' []. by split.
  - intros a b c [] []. split; try congruence. by transitivity (regs b).
Qed.

(** The direction [lookup] answers. *)
Definition answer (s : t) (tid pc : Z) : res bool := '(b, _, _) ← lookup s tid pc; Ok b.

Lemma tour_answer_equiv nt s s' tid pc :
  wf nt s → wf nt s' → equiv s s' → 0 ≤ tid < nt → answer s' tid pc = answer s tid pc.
Proof.
  intros H H' [Ec [(E1 & E2 & E3 & E4) Eg El] E5 E6 E7 _] Ht. pose proof (wf_regs _ _ H) as Hr.
  destruct (HistRegs.global_exists nt _ Hr tid Ht) as (g & Hg & Hgr).
  destruct (HistRegs.local_exists nt _ Hr _ (HistRegs.slot_range nt _ Hr pc)) as [x Hx].
  destruct (tour_lookup_Ok nt s H tid pc g x Ht Hg Hx) as (lp & gl & ch & P1 & P2 & P3 & EL).
  assert (HistRegs.slot (regs s') pc = HistRegs.slot (regs s) pc) as Es
    by (unfold HistRegs.slot; by rewrite E1, E2).
  destruct (Forall2_lookup_l _ _ _ _ _ El Hx) as (x' & Hx' & Exx). rewrite <- Es in Hx'.
  rewrite <- Eg in Hg.
  destruct (tour_lookup_Ok nt s' H' tid pc g x' Ht Hg Hx') as (lp' & gl' & ch' & Q1 & Q2 & Q3 & EL').
  unfold answer. rewrite EL, EL'. cbn [heap_new mbind res_bind].
  unfold HistRegs.same_local in Exx. rewrite Ec, E3, E5, <- Exx, P1 in Q1. rewrite Ec, E6, P2 in Q2.
  rewrite Ec, E7, P3 in Q3. by simplify_eq.
Qed.

(** [update] past its assertions. *)
Lemma tour_update_squash_Ok nt s tid pc taken a h :
  wf nt s → cells (histories s) !! a = Some h →
  update s tid pc taken (Some a) true =
    (r ← HistRegs.correct (regs s) tid (HistRegs.slot (regs s) pc)
           (negb (localHistory h =? invalidPredictorIndex)) (globalHistory h) (localHistory h) taken;
     Ok (with_regs r (updateAdditionalStats s taken h))).
Proof.
  intros H Ha. pose proof (HistRegs.slot_range nt _ (wf_regs _ _ H) pc). unfold update, assert_.
  rewrite bool_decide_true by done. cbn [mbind res_bind heap_deref]. rewrite Ha. cbn [mbind res_bind].
  rewrite (HistRegs.calcLocHistIdx_Ok nt) by apply H. cbn [mbind res_bind].
  destruct (Z.ltb_spec (HistRegs.slot (regs s) pc) (HistRegs.localHistoryTableSize (regs s))); [|lia].
  cbn [mbind res_bind]. unfold updateAdditionalStats. by destruct (_ && _).
Qed.

Lemma tour_update_commit_Ok nt s tid pc taken a h :
  wf nt s → cells (histories s) !! a = Some h → hist_ok (regs s) h →
  localHistory h ≠ invalidPredictorIndex →
  ∃ c g l hs,
    train_choice s taken h true = Ok c ∧
    vmod (SatCounter.train taken) (globalCtrs s) (Z.land (globalHistory h) (globalHistoryMask (cfg s))) = Ok g ∧
    vmod (SatCounter.train taken) (localCtrs s)
      (Z.land (localHistory h) (HistRegs.localPredictorMask (regs s))) = Ok l ∧
    update s tid pc taken (Some a) false =
      Ok (with_histories hs (with_ctrs l g c (updateAdditionalStats s taken h))).
Proof.
  intros H Ha Hh Hv.
  pose proof (train_choice_ok nt s taken h true H) as Hc. apply returns_iff in Hc as (c & Ec & _).
  assert (returns (vmod (SatCounter.train taken) (globalCtrs s)
    (Z.land (globalHistory h) (globalHistoryMask (cfg s)))) (λ _, True)) as Hg.
  { eapply SatCounter.returns_train; [apply H|eauto using SatCounter.train_ok|apply (tour_global_idx nt s H)|done]. }
  assert (returns (vmod (SatCounter.train taken) (localCtrs s)
    (Z.land (localHistory h) (HistRegs.localPredictorMask (regs s)))) (λ _, True)) as Hl.
  { eapply SatCounter.returns_train; [apply H|eauto using SatCounter.train_ok|apply (tour_local_idx nt s H)|done]. }
  apply returns_iff in Hg as (g & Eg & _), Hl as (l & El & _).
  exists c, g, l, (Heap (delete a (cells (histories s))) (next (histories s))). split_and!; [done..|].
  pose proof (HistRegs.slot_range nt _ (wf_regs _ _ H) pc). unfold update, assert_.
  rewrite bool_decide_true by done. cbn [mbind res_bind heap_deref]. rewrite Ha. cbn [mbind res_bind].
  rewrite (HistRegs.calcLocHistIdx_Ok nt) by apply H. cbn [mbind res_bind].
  destruct (Z.ltb_spec (HistRegs.slot (regs s) pc) (HistRegs.localHistoryTableSize (regs s))); [|lia].
  cbn [mbind res_bind].
  assert (∃ n, updateAdditionalStats s taken h = with_stat n s) as [n ->].
  { unfold updateAdditionalStats. destruct (_ && _); [by eexists|]. exists (atLeastOneCorrectExpertOnMispredict s).
    by destruct s. }
  cbn [regs cfg with_stat]. pose proof (tour_local_idx nt s H (localHistory h)).
  destruct (Z.ltb_spec (Z.land (localHistory h) (HistRegs.localPredictorMask (regs s)))
    (localPredictorSize (cfg s))); [|lia]. cbn [mbind res_bind].
  destruct (Z.eqb_spec (localHistory h) invalidPredictorIndex); [done|]. cbn [negb].
  change (train_choice (with_stat n s) taken h true) with (train_choice s taken h true).
  rewrite Ec. cbn [mbind res_bind globalCtrs localCtrs with_stat]. rewrite Eg. cbn [mbind res_bind].
  rewrite El. cbn [mbind res_bind]. unfold heap_delete. cbn [histories with_stat heap_deref]. by rewrite Ha.
Qed.

Section recover.
Context (nt : Z) (s : t) (l : list ptr) (tid pc : Z).
Context (H : wf nt s) (Htr : heap_tracks (histories s) l) (Ht : 0 ≤ tid < nt).

(** [squash] right after the prediction, whatever happened to the two
    registers in between. *)
Lemma tour_squash_undoes g x (lp gl ch : bool) g1 x1 :
  HistRegs.globalHistory (regs s) !! Z.to_nat tid = Some g →
  HistRegs.localHistoryTable (regs s) !! Z.to_nat (HistRegs.slot (regs s) pc) = Some x →
  0 ≤ g1 ≤ HistRegs.historyRegisterMask (regs s) →
  let i := HistRegs.slot (regs s) pc in
  let '(p, hs) := heap_new (histories s)
    (mkHist g i (Z.land x (HistRegs.localPredictorMask (regs s))) lp gl ch) in
  returns (squash (with_histories hs (with_regs (HistRegs.set2 (regs s) tid g1 i x1) s)) tid p) (equiv s).
Proof.
  intros Hg Hx Hg1. cbn [heap_new]. unfold squash. cbn [histories with_histories heap_deref cells].
  rewrite lookup_insert_eq. cbn [mbind res_bind]. apply returns_bind.
  eapply returns_mono; [by apply (HistRegs.restore_undoes nt (regs s) tid pc g x (wf_regs _ _ H) Ht Hg Hx)|].
  intros r Hr. unfold heap_delete. cbn. rewrite lookup_insert_eq. cbn. split; try done. cbn.
  rewrite delete_insert_id; [done|]. by eapply heap_tracks_fresh.
Qed.

Definition recovered (s2 : t) : Prop :=
  equiv s s2 ∧ wf nt s2 ∧ ∀ tid' pc', 0 ≤ tid' < nt → answer s2 tid' pc' = answer s tid' pc'.

Lemma tour_recovered_intro s1 p :
  wf nt s1 → heap_tracks (histories s1) (p :: l) → returns (squash s1 tid p) (equiv s) →
  returns (squash s1 tid p) recovered.
Proof.
  intros H1 Htr1 He. pose proof (tour_squash_ok nt s1 H1 p l tid Ht Htr1) as Hw.
  eapply returns_mono; [apply (returns_and _ _ _ He Hw)|]. intros s2 (Heq & Hw2 & _).
  split_and!; [done..|]. intros. by apply (tour_answer_equiv nt).
Qed.

End recover.

(** ** Theorems *)

(** C8: the tournament predictor undoes its speculation. After [lookup], also
    when the BTB missed and [btbUpdate] turned the prediction to not taken,
    squashing the branch gives back the counter tables, the global history and
    the outstanding history objects exactly, the local histories up to bits that
    are never read, and so the answer to every query. *)
Theorem tournament_squash_recovers (nt : Z) (s : t) (l : list ptr) (tid pc : Z) :
  wf nt s → heap_tracks (histories s) l → 0 ≤ tid < nt →
  returns (lookup s tid pc) (λ r,
    returns (squash r.2 tid r.1.2) (recovered nt s) ∧
    returns (btbUpdate r.2 tid pc r.1.2) (λ s1, returns (squash s1 tid r.1.2) (recovered nt s))).
Proof.
  intros H Htr Ht. pose proof (wf_regs _ _ H) as Hr. pose proof (tour_lookup_ok nt s H l tid pc Ht Htr) as Hlk.
  destruct (HistRegs.global_exists nt _ Hr tid Ht) as (g & Hg & Hgr).
  destruct (HistRegs.local_exists nt _ Hr _ (HistRegs.slot_range nt _ Hr pc)) as [x Hx].
  destruct (tour_lookup_Ok nt s H tid pc g x Ht Hg Hx) as (lp & gl & ch & _ & _ & _ & E).
  rewrite E in *. cbn [heap_new returns fst snd] in *. destruct Hlk as [Hw Htr1].
  pose proof (HistRegs.mask_range nt _ Hr) as [_ Hm]. split.
  - apply (tour_recovered_intro nt s l tid); [done..|].
    apply (tour_squash_undoes nt s l tid pc H Htr Ht g x lp gl ch); [done..|]. apply land_bound. lia.
  - pose proof (tour_btbUpdate_ok nt _ Hw (Some (next (histories s))) _ tid pc Ht Htr1) as Hb.
    unfold btbUpdate in *. cbn [regs with_histories with_regs] in *.
    destruct (HistRegs.btbUpdate_set2 nt _ tid pc Hr Ht
      (Z.land (HistRegs.shift_in g (if ch : bool then gl else lp)) (HistRegs.historyRegisterMask (regs s)))
      (HistRegs.shift_in x (if ch : bool then gl else lp))) as (g2 & x2 & Hg2 & Eb);
      [apply land_bound; lia|].
    rewrite Eb in *. cbn [mbind res_bind returns] in *. destruct Hb as [Hw2 Htr2].
    apply (tour_recovered_intro nt s l tid); [done..|].
    by apply (tour_squash_undoes nt s l tid pc H Htr Ht g x lp gl ch).
Qed.

(** A misprediction leaves the right history behind. Whatever [lookup]
    predicted, [update] with the squash flag gives the registers that [lookup]
    would have left had it predicted the actual outcome (up to the unread bits
    of the local history), and keeps the history object for the later commit. *)
Theorem tournament_corrects_history (nt : Z) (s : t) (l : list ptr) (tid pc : Z) (taken : bool) :
  wf nt s → heap_tracks (histories s) l → 0 ≤ tid < nt →
  returns (lookup s tid pc) (λ r,
    returns (update r.2 tid pc taken r.1.2 true) (λ s1,
      heap_tracks (histories s1) (r.1.2 :: l) ∧
      returns (HistRegs.speculate (regs s) tid (HistRegs.slot (regs s) pc) taken)
        (λ h, HistRegs.equiv h (regs s1)))).
Proof.
  intros H Htr Ht. pose proof (wf_regs _ _ H) as Hr. pose proof (tour_lookup_ok nt s H l tid pc Ht Htr) as Hlk.
  destruct (HistRegs.global_exists nt _ Hr tid Ht) as (g & Hg & Hgr).
  destruct (HistRegs.local_exists nt _ Hr _ (HistRegs.slot_range nt _ Hr pc)) as [x Hx].
  destruct (tour_lookup_Ok nt s H tid pc g x Ht Hg Hx) as (lp & gl & ch & _ & _ & _ & E).
  rewrite E in *. cbn [heap_new returns fst snd] in *. destruct Hlk as [Hw Htr1].
  pose proof (HistRegs.mask_range nt _ Hr) as [_ Hm].
  pose proof (tour_update_ok nt _ _ _ tid pc taken true Hw Ht Htr1) as Hu.
  erewrite tour_update_squash_Ok in * by (exact Hw || apply lookup_insert_eq).
  cbn [localHistory globalHistory regs with_histories with_regs] in *.
  rewrite (HistRegs.local_valid nt _ x Hr) in *.
  pose proof (HistRegs.correct_speculates nt (regs s) tid pc g x Hr Ht Hg Hx
    (Z.land (HistRegs.shift_in g (if ch : bool then gl else lp)) (HistRegs.historyRegisterMask (regs s)))
    (HistRegs.shift_in x (if ch : bool then gl else lp)) taken) as Hc.
  apply returns_iff in Hc as (r & Ec & Hspec); [|apply land_bound; lia].
  cbn [negb] in *. change (HistRegs.slot (HistRegs.set2 _ _ _ _ _) pc) with (HistRegs.slot (regs s) pc) in *.
  rewrite Ec in *. cbn [mbind res_bind returns] in *. split; [apply Hu|exact Hspec].
Qed.

(** The counters trained at commit are the ones that made the prediction.
    However far the history registers have moved since, the committed outcome
    trains the global and the local counter that [lookup] read for this branch,
    and when the two experts disagreed the choice counter that [lookup] read
    moves one step towards the expert that was right. *)
Theorem tournament_trains_predicting_entries (nt : Z) (s : t) (l : list ptr) (tid pc g x : Z)
    (lp gl ch taken : bool) :
  wf nt s → heap_tracks (histories s) l → 0 ≤ tid < nt →
  HistRegs.globalHistory (regs s) !! Z.to_nat tid = Some g →
  HistRegs.localHistoryTable (regs s) !! Z.to_nat (HistRegs.slot (regs s) pc) = Some x →
  let lidx := Z.land x (HistRegs.localPredictorMask (regs s)) in
  let gidx := Z.land g (globalHistoryMask (cfg s)) in
  let cidx := Z.land g (choiceHistoryMask (cfg s)) in
  predicts (localCtrs s) lidx (localThreshold (cfg s)) = Ok lp →
  predicts (globalCtrs s) gidx (globalThreshold (cfg s)) = Ok gl →
  predicts (choiceCtrs s) cidx (choiceThreshold (cfg s)) = Ok ch →
  returns (lookup s tid pc) (λ r, r.1.1 = (if ch then gl else lp) ∧
    ∀ regs', HistRegs.keeps nt (regs r.2) regs' →
      returns (update (with_regs regs' r.2) tid pc taken r.1.2 false) (λ s', regs s' = regs' ∧
        vmod (SatCounter.train taken) (globalCtrs s) gidx = Ok (globalCtrs s') ∧
        vmod (SatCounter.train taken) (localCtrs s) lidx = Ok (localCtrs s') ∧
        if eqb lp gl then choiceCtrs s' = choiceCtrs s
        else vmod (SatCounter.train (eqb gl taken)) (choiceCtrs s) cidx = Ok (choiceCtrs s'))).
Proof.
  intros H Htr Ht Hg Hx lidx gidx cidx P1 P2 P3. pose proof (wf_regs _ _ H) as Hr.
  pose proof (tour_lookup_ok nt s H l tid pc Ht Htr) as Hlk.
  destruct (tour_lookup_Ok nt s H tid pc g x Ht Hg Hx) as (lp' & gl' & ch' & Q1 & Q2 & Q3 & E).
  subst lidx gidx cidx. assert (lp' = lp ∧ gl' = gl ∧ ch' = ch) as (-> & -> & ->) by (split_and!; congruence).
  rewrite E in *. cbn [heap_new returns fst snd] in *. destruct Hlk as [Hw Htr1].
  split; [done|]. intros regs' Hk. pose proof (tour_wf_with_regs nt _ _ Hw Hk) as Hw'.
  destruct Hk as [_ (_ & _ & Em & _)]. cbn in Em.
  assert (Em' : HistRegs.localPredictorMask regs' = HistRegs.localPredictorMask (regs s)) by exact Em.
  edestruct (tour_update_commit_Ok nt _ tid pc taken _ _ Hw' (lookup_insert_eq _ _ _))
    as (c & gc & lc & hs & Ec & Eg & El & Eu).
  { apply (wf_hist _ _ Hw' (next (histories s))). apply lookup_insert_eq. }
  { cbn. apply Z.eqb_neq. by apply (HistRegs.local_valid nt _ x Hr). }
  cbn [with_regs histories with_histories] in *. rewrite Eu. cbn [returns]. split_and!.
  - apply stats_regs.
  - exact Eg.
  - cbn in El. rewrite Em', <- HistRegs.land_idem_mask in El. exact El.
  - unfold train_choice in Ec. cbn in Ec. destruct lp, gl, taken; cbn in Ec |- *; (exact Ec || by injection Ec as <-).
Qed.

(** ** Witnesses *)
Definition params4 : Params := mkParams 2 2 4 2 4 8 2 8 2.

Definition tournament4 : t :=
  ltac:(let r := eval vm_compute in (create 0 params4) in
        match r with Ok ?s => exact s end).

Lemma tournament4_ok : wf 2 tournament4 ∧ heap_tracks (histories tournament4) [].
Proof.
  assert (params_ok params4) as Hp by (split; cbn; unfold is_u32; try lia; split; (lia || done)).
  pose proof (tour_create_wf 0 params4 Hp) as Hc.
  assert (create 0 params4 = Ok tournament4) as E by reflexivity.
  rewrite E in Hc. by destruct Hc as (? & ? & _).
Qed.

Lemma tournament_squash_recovers_witness :
  wf 2 tournament4 ∧
  returns (lookup tournament4 1 64) (λ r, returns (squash r.2 1 r.1.2) (recovered 2 tournament4)).
Proof.
  destruct tournament4_ok as [Hw Htr]. split; [exact Hw|].
  eapply returns_mono;
    [apply (tournament_squash_recovers 2 tournament4 [] 1 64 Hw Htr); lia|].
  intros r [Hr _]. exact Hr.
Defined.

Lemma tournament_corrects_history_witness :
  returns (lookup tournament4 1 64) (λ r,
    returns (update r.2 1 64 true r.1.2 true) (λ s1,
      heap_tracks (histories s1) (r.1.2 :: []) ∧
      returns (HistRegs.speculate (regs tournament4) 1 (HistRegs.slot (regs tournament4) 64) true)
        (λ h, HistRegs.equiv h (regs s1)))).
Proof.
  destruct tournament4_ok as [Hw Htr].
  apply (tournament_corrects_history 2 tournament4 [] 1 64 true Hw Htr). lia.
Defined.

Lemma tournament_trains_predicting_entries_witness :
  returns (lookup tournament4 1 64) (λ r, r.1.1 = false ∧
    returns (update (with_regs (regs r.2) r.2) 1 64 true r.1.2 false) (λ s',
      vmod (SatCounter.train true) (globalCtrs tournament4) 0 = Ok (globalCtrs s'))).
Proof.
  destruct tournament4_ok as [Hw Htr].
  pose proof (tour_lookup_ok 2 tournament4 Hw [] 1 64 ltac:(lia) Htr) as Hl.
  pose proof (tournament_trains_predicting_entries 2 tournament4 [] 1 64 0 0 false false false true
    Hw Htr ltac:(lia) eq_refl eq_refl eq_refl eq_refl eq_refl) as Ht.
  eapply returns_mono; [apply (returns_and _ _ _ Hl Ht)|].
  intros r [[Hwr _] [E Hu]]. split; [exact E|].
  eapply returns_mono; [apply (Hu (regs r.2)); split; [apply (wf_regs _ _ Hwr)|reflexivity]|].
  intros s' (_ & Hg & _). exact Hg.
Defined.

End TournamentBP.
