(* ===== verification/BiMode.v ===== *)
(** * The bi-mode predictor ([cpu/pred/bi_mode.hh], [bi_mode.cc])

    A choice table indexed by the branch address selects one of two counter
    tables indexed by address and global history.  The classes [Gshare] and
    [Yags] ([gshare.cc], [yags.cc]) are copies of this code under another class
    name ("COPIED FROM BI-MODE" in their sources), and so are their models. *)

From S2P Require Import Prelude IntMath SatCounter Predictor HistRegs Tournament.

Module BiModeBP.

Record BPHistory := mkHist {
  h_globalHistoryReg : Z;
  takenUsed : bool;
  takenPred : bool;
  notTakenPred : bool;
  finalPred : bool;
}.

Record Params := mkParams {
  p_numThreads : Z;
  p_instShiftAmt : Z;
  p_globalPredictorSize : Z;
  p_globalCtrBits : Z;
  p_choicePredictorSize : Z;
  p_choiceCtrBits : Z;
}.

Record Cfg := mkCfg {
  instShiftAmt : Z;
  globalHistoryBits : Z;
  historyRegisterMask : Z;
  choicePredictorSize : Z;
  choiceCtrBits : Z;
  choiceHistoryMask : Z;
  globalPredictorSize : Z;
  globalCtrBits : Z;
  globalHistoryMask : Z;
  choiceThreshold : Z;
  takenThreshold : Z;
  notTakenThreshold : Z;
}.

Record t := mk {
  cfg : Cfg;
  choiceCounters : list SatCounter.t;
  takenCounters : list SatCounter.t;
  notTakenCounters : list SatCounter.t;
  globalHistoryReg : list Z;
  histories : heap BPHistory;
}.

Definition with_reg (l : list Z) (s : t) : t :=
  mk (cfg s) (choiceCounters s) (takenCounters s) (notTakenCounters s) l (histories s).
Definition with_counters (c tk nt : list SatCounter.t) (s : t) : t :=
  mk (cfg s) c tk nt (globalHistoryReg s) (histories s).
Definition with_histories (h : heap BPHistory) (s : t) : t :=
  mk (cfg s) (choiceCounters s) (takenCounters s) (notTakenCounters s) (globalHistoryReg s) h.

Definition create (indet : Z) (p : Params) : res t :=
  globalHistoryBits ← ceilLog2 (p_globalPredictorSize p);
  _ ← guard_ (isPowerOf2 (p_choicePredictorSize p)) (Fatal "Invalid choice predictor size.");
  _ ← guard_ (isPowerOf2 (p_globalPredictorSize p)) (Fatal "Invalid global history predictor size.");
  choiceCounters ← SatCounter.table indet (p_choicePredictorSize p) (p_choiceCtrBits p);
  takenCounters ← SatCounter.table indet (p_globalPredictorSize p) (p_globalCtrBits p);
  notTakenCounters ← SatCounter.table indet (p_globalPredictorSize p) (p_globalCtrBits p);
  hmask ← mask globalHistoryBits;
  let choiceHistoryMask := u32 (p_choicePredictorSize p - 1) in
  let globalHistoryMask := u32 (p_globalPredictorSize p - 1) in
  choiceThreshold ← counterThreshold (p_choiceCtrBits p);
  takenThreshold ← counterThreshold (p_choiceCtrBits p);
  notTakenThreshold ← counterThreshold (p_choiceCtrBits p);
  Ok (mk (mkCfg (p_instShiftAmt p) globalHistoryBits (u32 hmask) (p_choicePredictorSize p)
            (p_choiceCtrBits p) choiceHistoryMask (p_globalPredictorSize p) (p_globalCtrBits p)
            globalHistoryMask choiceThreshold takenThreshold notTakenThreshold)
         choiceCounters takenCounters notTakenCounters
         (replicate (Z.to_nat (p_numThreads p)) 0) heap_empty).

Definition updateGlobalHistReg (s : t) (tid : Z) (taken : bool) : res t :=
  g ← vget (globalHistoryReg s) tid;
  let g := if taken then HistRegs.shift_in g true else u32 (Z.shiftl g 1) in
  l ← vset (globalHistoryReg s) tid (Z.land g (historyRegisterMask (cfg s)));
  Ok (with_reg l s).

Definition uncondBranch (s : t) (tid pc : Z) : res (ptr * t) :=
  g ← vget (globalHistoryReg s) tid;
  let '(bpHistory, hs) := heap_new (histories s) (mkHist g true true true true) in
  s ← updateGlobalHistReg (with_histories hs s) tid true;
  Ok (bpHistory, s).

Definition squash (s : t) (tid : Z) (bpHistory : ptr) : res t :=
  history ← heap_deref (histories s) bpHistory;
  l ← vset (globalHistoryReg s) tid (h_globalHistoryReg history);
  hs ← heap_delete (histories s) bpHistory;
  Ok (with_histories hs (with_reg l s)).

Definition choiceHistoryIdx (s : t) (branchAddr : Z) : res Z :=
  a ← shr64 branchAddr (instShiftAmt (cfg s));
  Ok (u32 (Z.land a (choiceHistoryMask (cfg s)))).

Definition globalHistoryIdx (s : t) (branchAddr g : Z) : res Z :=
  a ← shr64 branchAddr (instShiftAmt (cfg s));
  Ok (u32 (Z.land (Z.lxor a g) (globalHistoryMask (cfg s)))).

Definition lookup (s : t) (tid branchAddr : Z) : res (bool * ptr * t) :=
  let c := cfg s in
  ci ← choiceHistoryIdx s branchAddr;
  g ← vget (globalHistoryReg s) tid;
  gi ← globalHistoryIdx s branchAddr g;
  _ ← assert_ (ci <? choicePredictorSize c);
  _ ← assert_ (gi <? globalPredictorSize c);
  choicePrediction ← predicts (choiceCounters s) ci (choiceThreshold c);
  takenGHBPrediction ← predicts (takenCounters s) gi (takenThreshold c);
  notTakenGHBPrediction ← predicts (notTakenCounters s) gi (notTakenThreshold c);
  let finalPrediction :=
    if choicePrediction : bool then takenGHBPrediction else notTakenGHBPrediction in
  let '(bpHistory, hs) :=
    heap_new (histories s)
      (mkHist g choicePrediction takenGHBPrediction notTakenGHBPrediction finalPrediction) in
  s ← updateGlobalHistReg (with_histories hs s) tid finalPrediction;
  Ok (finalPrediction, bpHistory, s).

Definition btbUpdate (s : t) (tid branchAddr : Z) (bpHistory : ptr) : res t :=
  g ← vget (globalHistoryReg s) tid;
  l ← vset (globalHistoryReg s) tid (Z.land g (Z.land (historyRegisterMask (cfg s)) (not64 1)));
  Ok (with_reg l s).

Definition update (s : t) (tid branchAddr : Z) (taken : bool) (bpHistory : ptr)
    (squashed : bool) : res t :=
  _ ← assert_ (bool_decide (bpHistory ≠ None));
  history ← heap_deref (histories s) bpHistory;
  if squashed then
    l ← vset (globalHistoryReg s) tid (HistRegs.shift_in (h_globalHistoryReg history) taken);
    Ok (with_reg l s)
  else
    ci ← choiceHistoryIdx s branchAddr;
    gi ← globalHistoryIdx s branchAddr (h_globalHistoryReg history);
    _ ← assert_ (ci <? choicePredictorSize (cfg s));
    _ ← assert_ (gi <? globalPredictorSize (cfg s));
    '(tk, ntk) ←
      (if takenUsed history then
         l ← vmod (SatCounter.train taken) (takenCounters s) gi; Ok (l, notTakenCounters s)
       else
         l ← vmod (SatCounter.train taken) (notTakenCounters s) gi; Ok (takenCounters s, l));
    c ← (if eqb (finalPred history) taken then
           if eqb (finalPred history) (takenUsed history)
           then vmod (SatCounter.train taken) (choiceCounters s) ci
           else Ok (choiceCounters s)
         else vmod (SatCounter.train taken) (choiceCounters s) ci);
    hs ← heap_delete (histories s) bpHistory;
    Ok (with_histories hs (with_counters c tk ntk s)).

Definition getGHR (s : t) (tid : Z) (bp_history : ptr) : res Z :=
  history ← heap_deref (histories s) bp_history; Ok (h_globalHistoryReg history).

#[global] Instance bimode_predictor : DirPredictor t := {|
  dp_uncondBranch := uncondBranch;
  dp_lookup := lookup;
  dp_btbUpdate := btbUpdate;
  dp_update := update;
  dp_squash := squash;
  dp_getGHR := getGHR;
|}.

(** ** Invariant *)
Record wf (nt : Z) (s : t) : Prop := {
  wf_shift : 0 ≤ instShiftAmt (cfg s) < 64;
  wf_threads : vlen (globalHistoryReg s) = nt;
  wf_choice : SatCounter.table_ok (choicePredictorSize (cfg s))
                (SatCounter.maxOf (choiceCtrBits (cfg s))) (choiceCounters s);
  wf_taken : SatCounter.table_ok (globalPredictorSize (cfg s))
                (SatCounter.maxOf (globalCtrBits (cfg s))) (takenCounters s);
  wf_notTaken : SatCounter.table_ok (globalPredictorSize (cfg s))
                (SatCounter.maxOf (globalCtrBits (cfg s))) (notTakenCounters s);
  wf_csize : 0 < choicePredictorSize (cfg s) < 2 ^ 32 ∧
             choiceHistoryMask (cfg s) = choicePredictorSize (cfg s) - 1;
  wf_gsize : 0 < globalPredictorSize (cfg s) < 2 ^ 32 ∧
             globalHistoryMask (cfg s) = globalPredictorSize (cfg s) - 1;
  wf_mask : historyRegisterMask (cfg s) = globalHistoryMask (cfg s);
  wf_mask_pow2 : ∃ k, 0 ≤ k < 32 ∧ globalHistoryMask (cfg s) = 2 ^ k - 1;
}.

Definition choice_slot (s : t) (pc : Z) : Z :=
  Z.land (Z.shiftr pc (instShiftAmt (cfg s))) (choiceHistoryMask (cfg s)).
Definition dir_slot (s : t) (pc g : Z) : Z :=
  Z.land (Z.lxor (Z.shiftr pc (instShiftAmt (cfg s))) g) (globalHistoryMask (cfg s)).

Section wf.
Context (nt : Z) (s : t) (H : wf nt s).

Lemma bm_choice_idx pc :
  0 ≤ choice_slot s pc < choicePredictorSize (cfg s) ∧ choiceHistoryIdx s pc = Ok (choice_slot s pc).
Proof.
  destruct (wf_csize _ _ H) as [Hs Em].
  assert (0 ≤ choice_slot s pc < choicePredictorSize (cfg s)) as Hi.
  { unfold choice_slot. rewrite Em. apply land_size_bound. lia. }
  split; [done|]. unfold choiceHistoryIdx. rewrite shr64_in by apply H. cbn [mbind res_bind].
  fold (choice_slot s pc). rewrite u32_id; [done|]. unfold is_u32. lia.
Qed.

Lemma bm_dir_idx pc g :
  0 ≤ dir_slot s pc g < globalPredictorSize (cfg s) ∧ globalHistoryIdx s pc g = Ok (dir_slot s pc g).
Proof.
  destruct (wf_gsize _ _ H) as [Hs Em].
  assert (0 ≤ dir_slot s pc g < globalPredictorSize (cfg s)) as Hi.
  { unfold dir_slot. rewrite Em. apply land_size_bound. lia. }
  split; [done|]. unfold globalHistoryIdx. rewrite shr64_in by apply H. cbn [mbind res_bind].
  fold (dir_slot s pc g). rewrite u32_id; [done|]. unfold is_u32. lia.
Qed.

Lemma bm_reg_exists tid : 0 ≤ tid < nt → ∃ g, globalHistoryReg s !! Z.to_nat tid = Some g.
Proof. intros. apply vlookup_lt. by rewrite (wf_threads _ _ H). Qed.

Lemma bm_wf_reg i g : wf nt (with_reg (<[i := g]> (globalHistoryReg s)) s).
Proof. destruct H. split; try done. cbn. by rewrite vlen_insert. Qed.

Lemma bm_wf_histories hs : wf nt (with_histories hs s).
Proof. destruct H. by split. Qed.

End wf.

(** The register after a prediction. *)
Definition shifted (s : t) (tid g : Z) (taken : bool) : t :=
  with_reg (<[Z.to_nat tid := Z.land (HistRegs.shift_in g taken) (historyRegisterMask (cfg s))]>
              (globalHistoryReg s)) s.

Lemma updateGlobalHistReg_Ok nt s tid g b :
  wf nt s → 0 ≤ tid < nt → globalHistoryReg s !! Z.to_nat tid = Some g →
  updateGlobalHistReg s tid b = Ok (shifted s tid g b).
Proof.
  intros H Ht Hg. unfold updateGlobalHistReg. rewrite (vget_in _ tid g) by (lia || done).
  cbn [mbind res_bind]. rewrite vset_in by (by rewrite (wf_threads _ _ H)). cbn [mbind res_bind].
  destruct b; [done|]. unfold shifted. by rewrite HistRegs.shift_in_false.
Qed.

Lemma bm_lookup_Ok nt s tid pc g :
  wf nt s → 0 ≤ tid < nt → globalHistoryReg s !! Z.to_nat tid = Some g →
  ∃ ch tk ntk : bool,
    let fin := if ch then tk else ntk in
    predicts (choiceCounters s) (choice_slot s pc) (choiceThreshold (cfg s)) = Ok ch ∧
    predicts (takenCounters s) (dir_slot s pc g) (takenThreshold (cfg s)) = Ok tk ∧
    predicts (notTakenCounters s) (dir_slot s pc g) (notTakenThreshold (cfg s)) = Ok ntk ∧
    lookup s tid pc =
      (let '(p, hs) := heap_new (histories s) (mkHist g ch tk ntk fin) in
       Ok (fin, p, shifted (with_histories hs s) tid g fin)).
Proof.
  intros H Ht Hg. destruct (bm_choice_idx nt s H pc) as [Hci Eci], (bm_dir_idx nt s H pc g) as [Hgi Egi].
  assert (returns (predicts (choiceCounters s) (choice_slot s pc) (choiceThreshold (cfg s))) (λ _, True))
    as Hc by (eapply returns_predicts; [apply H|done..]).
  assert (returns (predicts (takenCounters s) (dir_slot s pc g) (takenThreshold (cfg s))) (λ _, True))
    as Htk by (eapply returns_predicts; [apply H|done..]).
  assert (returns (predicts (notTakenCounters s) (dir_slot s pc g) (notTakenThreshold (cfg s))) (λ _, True))
    as Hn by (eapply returns_predicts; [apply H|done..]).
  apply returns_iff in Hc as (ch & Ec & _), Htk as (tk & Etk & _), Hn as (ntk & En & _).
  exists ch, tk, ntk. cbv zeta. split_and!; [done..|]. unfold lookup. rewrite Eci. cbn [mbind res_bind].
  rewrite (vget_in _ tid g) by (lia || done). cbn [mbind res_bind]. rewrite Egi. cbn [mbind res_bind].
  unfold assert_. destruct (Z.ltb_spec (choice_slot s pc) (choicePredictorSize (cfg s))); [|lia].
  cbn [mbind res_bind]. destruct (Z.ltb_spec (dir_slot s pc g) (globalPredictorSize (cfg s))); [|lia].
  cbn [mbind res_bind]. rewrite Ec. cbn [mbind res_bind]. rewrite Etk. cbn [mbind res_bind].
  rewrite En. cbn [mbind res_bind heap_new]. erewrite updateGlobalHistReg_Ok; [done| |done|done].
  by apply (bm_wf_histories nt).
Qed.

Lemma bm_shifted_wf nt s tid g b : wf nt s → wf nt (shifted s tid g b).
Proof. intros H. by apply (bm_wf_reg nt s H). Qed.

Lemma bm_lookup_ok nt s l tid pc :
  wf nt s → 0 ≤ tid < nt → heap_tracks (histories s) l →
  returns (lookup s tid pc) (λ r, wf nt r.2 ∧ heap_tracks (histories r.2) (r.1.2 :: l)).
Proof.
  intros H Ht Htr. destruct (bm_reg_exists nt s H tid Ht) as [g Hg].
  destruct (bm_lookup_Ok nt s tid pc g H Ht Hg) as (ch & tk & ntk & _ & _ & _ & ->). cbn [heap_new returns fst snd].
  split; [by apply bm_shifted_wf, bm_wf_histories|by apply (heap_tracks_new (histories s))].
Qed.

Lemma bm_uncondBranch_ok nt s l tid pc :
  wf nt s → 0 ≤ tid < nt → heap_tracks (histories s) l →
  returns (uncondBranch s tid pc) (λ r, wf nt r.2 ∧ heap_tracks (histories r.2) (r.1 :: l)).
Proof.
  intros H Ht Htr. destruct (bm_reg_exists nt s H tid Ht) as [g Hg]. unfold uncondBranch.
  rewrite (vget_in _ tid g) by (lia || done). cbn [mbind res_bind heap_new].
  erewrite updateGlobalHistReg_Ok; [|by apply (bm_wf_histories nt)|done|done]. cbn [mbind res_bind returns fst snd].
  split; [by apply bm_shifted_wf, bm_wf_histories|by apply (heap_tracks_new (histories s))].
Qed.

Lemma bm_squash_ok nt s p l tid :
  wf nt s → 0 ≤ tid < nt → heap_tracks (histories s) (p :: l) →
  returns (squash s tid p) (λ s', wf nt s' ∧ heap_tracks (histories s') l).
Proof.
  intros H Ht Htr. unfold squash. apply returns_bind.
  apply (returns_deref _ p l (λ _, True)); [done|by intros ??|]. intros a h -> Ha _.
  apply returns_bind, returns_vset; [by rewrite (wf_threads _ _ H)|]. apply returns_bind.
  apply (returns_delete _ (Some a) l (λ _, True)); [done|by intros ??|]. intros hs Htr' _.
  split; [|done]. by apply bm_wf_histories, bm_wf_reg.
Qed.

Lemma bm_btbUpdate_ok nt s p l tid pc :
  wf nt s → 0 ≤ tid < nt → heap_tracks (histories s) l →
  returns (btbUpdate s tid pc p) (λ s', wf nt s' ∧ heap_tracks (histories s') l).
Proof.
  intros H Ht Htr. destruct (bm_reg_exists nt s H tid Ht) as [g Hg]. unfold btbUpdate.
  rewrite (vget_in _ tid g) by (lia || done). cbn [mbind res_bind]. apply returns_bind, returns_vset.
  - by rewrite (wf_threads _ _ H).
  - split; [by apply bm_wf_reg|done].
Qed.

(** [update] at commit, with the tables it leaves. *)
Lemma bm_commit_Ok nt s tid pc taken a h :
  wf nt s → cells (histories s) !! a = Some h →
  let gi := dir_slot s pc (h_globalHistoryReg h) in
  let ci := choice_slot s pc in
  ∃ c tk ntk,
    (if takenUsed h
     then vmod (SatCounter.train taken) (takenCounters s) gi = Ok tk ∧ ntk = notTakenCounters s
     else tk = takenCounters s ∧ vmod (SatCounter.train taken) (notTakenCounters s) gi = Ok ntk) ∧
    (if eqb (finalPred h) taken && negb (eqb (takenUsed h) taken)
     then c = choiceCounters s
     else vmod (SatCounter.train taken) (choiceCounters s) ci = Ok c) ∧
    update s tid pc taken (Some a) false =
      Ok (with_histories (Heap (delete a (cells (histories s))) (next (histories s)))
            (with_counters c tk ntk s)) ∧
    wf nt (with_counters c tk ntk s).
Proof.
  intros H Ha gi ci. destruct (bm_choice_idx nt s H pc) as [Hci Eci].
  destruct (bm_dir_idx nt s H pc (h_globalHistoryReg h)) as [Hgi Egi].
  assert (returns (vmod (SatCounter.train taken) (takenCounters s) gi)
    (SatCounter.table_ok (globalPredictorSize (cfg s)) (SatCounter.maxOf (globalCtrBits (cfg s))))) as H1.
  { eapply SatCounter.returns_train; [apply H|eauto using SatCounter.train_ok|done|done]. }
  assert (returns (vmod (SatCounter.train taken) (notTakenCounters s) gi)
    (SatCounter.table_ok (globalPredictorSize (cfg s)) (SatCounter.maxOf (globalCtrBits (cfg s))))) as H2.
  { eapply SatCounter.returns_train; [apply H|eauto using SatCounter.train_ok|done|done]. }
  assert (returns (vmod (SatCounter.train taken) (choiceCounters s) ci)
    (SatCounter.table_ok (choicePredictorSize (cfg s)) (SatCounter.maxOf (choiceCtrBits (cfg s))))) as H3.
  { eapply SatCounter.returns_train; [apply H|eauto using SatCounter.train_ok|done|done]. }
  apply returns_iff in H1 as (tk & E1 & O1), H2 as (ntk & E2 & O2), H3 as (c & E3 & O3).
  exists (if eqb (finalPred h) taken && negb (eqb (takenUsed h) taken) then choiceCounters s else c),
         (if takenUsed h then tk else takenCounters s), (if takenUsed h then notTakenCounters s else ntk).
  split_and!; [by destruct (takenUsed h)|by destruct (_ && _)| |].
  - unfold update, assert_. rewrite bool_decide_true by done. cbn [mbind res_bind heap_deref].
    rewrite Ha. cbn [mbind res_bind]. rewrite Eci. cbn [mbind res_bind]. rewrite Egi. cbn [mbind res_bind].
    destruct (Z.ltb_spec (choice_slot s pc) (choicePredictorSize (cfg s))); [|lia]. cbn [mbind res_bind].
    destruct (Z.ltb_spec (dir_slot s pc (h_globalHistoryReg h)) (globalPredictorSize (cfg s))); [|lia].
    cbn [mbind res_bind]. fold gi ci. unfold heap_delete. cbn [heap_deref].
    destruct (takenUsed h), (finalPred h), taken; cbn [eqb andb negb];
      rewrite ?E1, ?E2; cbn [mbind res_bind]; rewrite ?E3; cbn [mbind res_bind]; by rewrite Ha.
  - destruct H. split; try done; cbn.
    + by destruct (_ && _).
    + by destruct (takenUsed h).
    + by destruct (takenUsed h).
Qed.

Lemma bm_update_ok nt s p l tid pc taken squashed :
  wf nt s → 0 ≤ tid < nt → heap_tracks (histories s) (p :: l) →
  returns (update s tid pc taken p squashed) (λ s', wf nt s' ∧
    heap_tracks (histories s') (if squashed then p :: l else l)).
Proof.
  intros H Ht Htr. destruct (heap_tracks_deref _ _ _ Htr) as (a & h & -> & Ha). destruct squashed.
  - unfold update, assert_. rewrite bool_decide_true by done. cbn [mbind res_bind heap_deref].
    rewrite Ha. cbn [mbind res_bind]. apply returns_bind, returns_vset; [by rewrite (wf_threads _ _ H)|].
    split; [by apply bm_wf_reg|done].
  - destruct (bm_commit_Ok nt s tid pc taken a h H Ha) as (c & tk & ntk & _ & _ & -> & Hw).
    split; [by apply bm_wf_histories|by apply (heap_tracks_delete (histories s))].
Qed.

#[global] Instance bimode_laws : DirPredictorLaws t.
Proof.
  refine {| dp_wf := wf; dp_tracks := λ s, heap_tracks (histories s) |}.
  - intros. by apply bm_uncondBranch_ok.
  - intros. by apply bm_lookup_ok.
  - intros. by apply bm_btbUpdate_ok.
  - intros. by apply (bm_update_ok nt s p l tid pc taken false).
  - intros. by apply (bm_update_ok nt s p l tid pc taken true).
  - intros. by apply bm_squash_ok.
  - intros nt s p l tid H Htr _. cbn. unfold getGHR. apply returns_bind.
    apply (returns_deref _ p l (λ _, True)); [done|by intros ??|done].
Defined.

(** ** The constructor *)
Record params_ok (p : Params) : Prop := {
  po_threads : 0 < p_numThreads p;
  po_shift : 0 ≤ p_instShiftAmt p < 64;
  po_global : is_u32 (p_globalPredictorSize p) ∧ isPowerOf2 (p_globalPredictorSize p) = true;
  po_choice : is_u32 (p_choicePredictorSize p) ∧ isPowerOf2 (p_choicePredictorSize p) = true;
  po_gbits : 1 ≤ p_globalCtrBits p < 31;
  po_cbits : 1 ≤ p_choiceCtrBits p < 31;
}.

Lemma bm_create_wf indet p :
  params_ok p → returns (create indet p) (λ s, dp_ok (p_numThreads p) (s, []) ∧
    globalCtrBits (cfg s) = p_globalCtrBits p ∧
    takenThreshold (cfg s) = 2 ^ (p_choiceCtrBits p - 1) - 1 ∧
    notTakenThreshold (cfg s) = 2 ^ (p_choiceCtrBits p - 1) - 1).
Proof.
  intros [Hnt Hsh [Hg1 Hg2] [Hc1 Hc2] Hgb Hcb].
  destruct (pow2_facts _ Hg1 Hg2) as (kg & Hkg & Eg & Ecg & Emg & Hg3 & Eug).
  destruct (pow2_facts _ Hc1 Hc2) as (kc & Hkc & Ec & Ecc & Emc & Hc3 & Euc).
  unfold create. rewrite Ecg. cbn [mbind res_bind].
  rewrite Hg2, Hc2, !SatCounter.table_val by lia. cbn [guard_ mbind res_bind].
  rewrite Emg. cbn [mbind res_bind]. rewrite Eug, Euc.
  rewrite !counterThreshold_Ok by lia. cbn [mbind res_bind returns].
  split_and!; [|done..]. split; [|exact (@heap_tracks_empty BPHistory)].
  unfold is_u32 in *.
  split; cbn; try done; try (apply SatCounter.table_fresh_ok; lia); try lia.
  - apply vlen_replicate. lia.
  - exists kg. split; lia.
Qed.

(** ** Observational equivalence *)

(** Two states that agree on everything but history bits no index uses. *)
Record equiv (s s' : t) : Prop := {
  eq_cfg : cfg s' = cfg s;
  eq_choice : choiceCounters s' = choiceCounters s;
  eq_taken : takenCounters s' = takenCounters s;
  eq_notTaken : notTakenCounters s' = notTakenCounters s;
  eq_reg : (λ g, Z.land g (globalHistoryMask (cfg s))) <$> globalHistoryReg s' =
           (λ g, Z.land g (globalHistoryMask (cfg s))) <$> globalHistoryReg s;
}.

#[global] Instance bimode_equiv : Equivalence equiv.
Proof.
  split.
  - intros s. by split.
  - intros s s' []. split; try done. by rewrite eq_cfg0.
  - intros a b c [] []. split; try congruence. rewrite <- eq_reg0. by rewrite <- eq_cfg0.
Qed.

(** The direction [lookup] answers. *)
Definition answer (s : t) (tid pc : Z) : res bool := '(b, _, _) ← lookup s tid pc; Ok b.

Lemma bm_dir_slot_land s pc g g' :
  Z.land g (globalHistoryMask (cfg s)) = Z.land g' (globalHistoryMask (cfg s)) →
  dir_slot s pc g = dir_slot s pc g'.
Proof. apply lxor_land_cancel. Qed.

Lemma bm_answer_equiv nt s s' tid pc :
  wf nt s → wf nt s' → 0 ≤ tid < nt → equiv s s' → answer s' tid pc = answer s tid pc.
Proof.
  intros H H' Ht [Ec E1 E2 E3 Er].
  destruct (bm_reg_exists nt s H tid Ht) as [g Hg], (bm_reg_exists nt s' H' tid Ht) as [g' Hg'].
  assert (Z.land g' (globalHistoryMask (cfg s)) = Z.land g (globalHistoryMask (cfg s))) as Eg.
  { apply (f_equal (λ l : list Z, l !! Z.to_nat tid)) in Er. rewrite !list_lookup_fmap, Hg, Hg' in Er.
    by injection Er. }
  destruct (bm_lookup_Ok nt s tid pc g H Ht Hg) as (c & tk & n & P1 & P2 & P3 & El).
  destruct (bm_lookup_Ok nt s' tid pc g' H' Ht Hg') as (c' & tk' & n' & P1' & P2' & P3' & El').
  unfold answer. rewrite El, El'. cbn.
  assert (choice_slot s' pc = choice_slot s pc) as Es by (unfold choice_slot; by rewrite Ec).
  assert (dir_slot s' pc g' = dir_slot s pc g) as Ed.
  { transitivity (dir_slot s pc g'); [unfold dir_slot; by rewrite Ec|by apply bm_dir_slot_land]. }
  rewrite Ec, Es, E1 in P1'. rewrite Ec, Ed, E2 in P2'. rewrite Ec, Ed, E3 in P3'.
  rewrite P1 in P1'. rewrite P2 in P2'. rewrite P3 in P3'. by simplify_eq.
Qed.

(** No method touches the configuration. *)
Lemma bm_reg_cfg s tid b s' : updateGlobalHistReg s tid b = Ok s' → cfg s' = cfg s.
Proof. unfold updateGlobalHistReg. intros E. by res_inv. Qed.

Lemma bm_step_cfg nt x y : dp_step nt x y → cfg y.1 = cfg x.1.
Proof.
  destruct 1; cbn in *.
  - unfold uncondBranch in *. res_inv. cbn in *. res_inv.
    match goal with E : updateGlobalHistReg _ _ _ = Ok _ |- _ => by apply bm_reg_cfg in E end.
  - unfold BiModeBP.lookup in *. res_inv. cbn in *. res_inv.
    match goal with E : updateGlobalHistReg _ _ _ = Ok _ |- _ => by apply bm_reg_cfg in E end.
  - unfold btbUpdate in *. by res_inv.
  - unfold update in *. res_inv. repeat (case_match; res_inv); done.
  - unfold update in *. by res_inv.
  - unfold squash in *. by res_inv.
Qed.

(** ** Theorems *)

(** The training policy of the bi-mode predictor, which the comment above
    [update] states. When a branch that [lookup] predicted commits, however far
    the history register has moved since, the direction table that the choice
    selected learns the outcome in the entry [lookup] read and the other table
    is untouched; the choice entry learns the outcome except when the choice was
    opposite to it and the final prediction was right all the same; the history
    register does not move. *)
Theorem bimode_update_policy (nt : Z) (s : t) (tid pc g : Z) (ch tk ntk taken : bool) :
  wf nt s → 0 ≤ tid < nt → globalHistoryReg s !! Z.to_nat tid = Some g →
  let fin := if ch then tk else ntk in
  predicts (choiceCounters s) (choice_slot s pc) (choiceThreshold (cfg s)) = Ok ch →
  predicts (takenCounters s) (dir_slot s pc g) (takenThreshold (cfg s)) = Ok tk →
  predicts (notTakenCounters s) (dir_slot s pc g) (notTakenThreshold (cfg s)) = Ok ntk →
  returns (lookup s tid pc) (λ r, r.1.1 = fin ∧
    ∀ regs, vlen regs = nt →
      returns (update (with_reg regs r.2) tid pc taken r.1.2 false) (λ s',
        globalHistoryReg s' = regs ∧ cells (histories s') = delete (next (histories s)) (cells (histories s)) ∧
        (if ch
         then vmod (SatCounter.train taken) (takenCounters s) (dir_slot s pc g) = Ok (takenCounters s') ∧
              notTakenCounters s' = notTakenCounters s
         else vmod (SatCounter.train taken) (notTakenCounters s) (dir_slot s pc g) = Ok (notTakenCounters s') ∧
              takenCounters s' = takenCounters s) ∧
        if eqb fin taken && negb (eqb ch taken) then choiceCounters s' = choiceCounters s
        else vmod (SatCounter.train taken) (choiceCounters s) (choice_slot s pc) = Ok (choiceCounters s'))).
Proof.
  intros H Ht Hg fin P1 P2 P3.
  destruct (bm_lookup_Ok nt s tid pc g H Ht Hg) as (ch' & tk' & ntk' & Q1 & Q2 & Q3 & E).
  assert (ch' = ch ∧ tk' = tk ∧ ntk' = ntk) as (-> & -> & ->) by (split_and!; congruence).
  rewrite E. cbn [heap_new returns fst snd]. split; [done|]. intros regs Hr.
  set (s1 := with_reg regs _).
  assert (wf nt s1) as H1 by (destruct H; split; done).
  destruct (bm_commit_Ok nt s1 tid pc taken (next (histories s)) (mkHist g ch tk ntk fin) H1)
    as (c & a & b & Ed & Ec & -> & _).
  { cbn. apply lookup_insert_eq. }
  cbn in Ed, Ec |- *. split_and!; [done|by rewrite delete_insert_eq| |].
  - destruct ch; naive_solver.
  - exact Ec.
Qed.

(** The bi-mode predictor undoes its speculation: squashing a branch right
    after its [lookup], with or without a [btbUpdate] in between, restores the
    history register, the tables and the set of outstanding history objects
    exactly, so every later answer is what it was before. *)
Theorem bimode_squash_recovers (nt : Z) (s : t) (l : list ptr) (tid pc : Z) :
  wf nt s → heap_tracks (histories s) l → 0 ≤ tid < nt →
  returns (lookup s tid pc) (λ r, ∀ s1,
    s1 = r.2 ∨ btbUpdate r.2 tid pc r.1.2 = Ok s1 →
    returns (squash s1 tid r.1.2) (λ s2,
      globalHistoryReg s2 = globalHistoryReg s ∧ cells (histories s2) = cells (histories s) ∧
      ∀ tid' pc', 0 ≤ tid' < nt → answer s2 tid' pc' = answer s tid' pc')).
Proof.
  intros H Htr Ht. destruct (bm_reg_exists nt s H tid Ht) as [g Hg].
  destruct (bm_lookup_Ok nt s tid pc g H Ht Hg) as (ch & tk & ntk & _ & _ & _ & E).
  rewrite E. cbn [heap_new returns fst snd]. intros s1 Hs1.
  assert (∃ g1, s1 = with_reg (<[Z.to_nat tid := g1]> (globalHistoryReg s))
    (with_histories (heap_new (histories s) (mkHist g ch tk ntk (if ch then tk else ntk))).2 s)) as [g1 ->].
  { destruct Hs1 as [->|Hb]; [by eexists|]. unfold btbUpdate in Hb. res_inv. cbn in *.
    eexists. cbn. unfold with_reg; cbn. by rewrite list_insert_insert_eq. }
  unfold squash. cbn [histories with_reg with_histories heap_new snd heap_deref cells].
  rewrite lookup_insert_eq. cbn [mbind res_bind h_globalHistoryReg globalHistoryReg].
  rewrite vset_in by (cbn; rewrite ?vlen_insert, (wf_threads _ _ H); lia). cbn [mbind res_bind].
  unfold heap_delete. cbn [heap_deref cells]. rewrite lookup_insert_eq.
  cbn [mbind res_bind returns globalHistoryReg with_reg with_histories].
  rewrite list_insert_insert_eq, (list_insert_id _ _ g) by done.
  split_and!; [done| |].
  - cbn. rewrite delete_insert_id; [done|]. by eapply heap_tracks_fresh.
  - intros. apply (bm_answer_equiv nt); [done|by destruct H|done|by split].
Qed.

(** Recovery from a misprediction. After [update] with the squash flag the
    register differs from the one a right prediction would have left only in
    bits that no index uses, so from then on the predictor answers as if the
    branch had been predicted right. *)
Theorem bimode_corrects_history (nt : Z) (s : t) (tid pc g : Z) (taken : bool) :
  wf nt s → 0 ≤ tid < nt → globalHistoryReg s !! Z.to_nat tid = Some g →
  returns (lookup s tid pc) (λ r,
    returns (update r.2 tid pc taken r.1.2 true) (λ s1,
      equiv (shifted s tid g taken) s1 ∧
      ∀ tid' pc', 0 ≤ tid' < nt → answer s1 tid' pc' = answer (shifted s tid g taken) tid' pc')).
Proof.
  intros H Ht Hg. destruct (bm_lookup_Ok nt s tid pc g H Ht Hg) as (ch & tk & ntk & _ & _ & _ & E).
  rewrite E. cbn [heap_new returns fst snd]. unfold update, assert_. rewrite bool_decide_true by done.
  cbn [mbind res_bind histories shifted with_reg with_histories heap_deref cells].
  rewrite lookup_insert_eq. cbn [mbind res_bind h_globalHistoryReg globalHistoryReg].
  rewrite vset_in by (cbn; rewrite ?vlen_insert, (wf_threads _ _ H); lia).
  cbn [mbind res_bind returns globalHistoryReg with_reg with_histories].
  rewrite ?list_insert_insert_eq. set (s1 := with_reg _ _).
  assert (equiv (shifted s tid g taken) s1) as He.
  { split; try done. cbn. rewrite list_insert_insert_eq, !list_fmap_insert. f_equal.
    by rewrite (wf_mask _ _ H), <- Z.land_assoc, Z.land_diag. }
  split; [done|]. intros. apply (bm_answer_equiv nt); [by apply bm_shifted_wf| |done|done].
  destruct H; split; try done. cbn. by rewrite !vlen_insert.
Qed.

(** The direction tables are read against a threshold computed from the
    width of the choice counters. When the direction counters are narrower, no
    sequence of calls ever makes the predictor answer taken. *)
Theorem bimode_narrow_counters_never_taken (indet : Z) (p : Params) (s : t) (l : list ptr) (s0 : t) (tid pc : Z) :
  params_ok p → p_globalCtrBits p < p_choiceCtrBits p →
  create indet p = Ok s0 → rtc (dp_step (p_numThreads p)) (s0, []) (s, l) → 0 ≤ tid < p_numThreads p →
  answer s tid pc = Ok false.
Proof.
  intros Hp Hlt Hc Hs Ht. pose proof (bm_create_wf indet p Hp) as Hw. rewrite Hc in Hw.
  destruct Hw as (Hok & Eb & Et & En). pose proof (po_gbits _ Hp) as Hgb.
  pose proof (dp_steps_preserve _ cfg (bm_step_cfg _) _ _ Hs) as Ecfg. cbn in Ecfg.
  apply dp_steps_ok in Hs as [Hw _]; [|done]. cbn in Hw.
  destruct (bm_reg_exists _ s Hw tid Ht) as [g Hg].
  destruct (bm_lookup_Ok _ s tid pc g Hw Ht Hg) as (ch & tk & ntk & _ & P2 & P3 & E).
  assert (SatCounter.maxOf (globalCtrBits (cfg s)) ≤ 2 ^ (p_choiceCtrBits p - 1) - 1) as Hm.
  { rewrite Ecfg, Eb. assert (2 ^ p_globalCtrBits p ≤ 2 ^ (p_choiceCtrBits p - 1)) by (apply Z.pow_le_mono_r; lia).
    pose proof (SatCounter.maxOf_le (p_globalCtrBits p)). lia. }
  rewrite Ecfg in P2, P3. rewrite Et in P2. rewrite En in P3.
  rewrite (predicts_saturated _ _ _ _ _ _ (wf_taken _ _ Hw) Hm P2),
    (predicts_saturated _ _ _ _ _ _ (wf_notTaken _ _ Hw) Hm P3) in E.
  unfold answer. rewrite E. by destruct ch.
Qed.

(** ** Witnesses *)
Definition params8 : Params := mkParams 2 2 8 2 4 2.

Definition bimode8 : t :=
  ltac:(let r := eval vm_compute in (create 0 params8) in match r with Ok ?s => exact s end).

Lemma bimode8_ok : wf 2 bimode8 ∧ heap_tracks (histories bimode8) [].
Proof.
  assert (params_ok params8) as Hp by (split; cbn; unfold is_u32; try lia; split; (lia || done)).
  pose proof (bm_create_wf 0 params8 Hp) as Hc.
  assert (create 0 params8 = Ok bimode8) as E by reflexivity.
  rewrite E in Hc. by destruct Hc as ((? & ?) & _).
Qed.

(** On fresh tables everything says not taken; a taken outcome trains the
    not-taken table and the choice, and leaves the taken table alone. *)
Lemma bimode_update_policy_witness :
  returns (lookup bimode8 1 64) (λ r, r.1.1 = false ∧
    returns (update (with_reg [5; 3] r.2) 1 64 true r.1.2 false) (λ s',
      takenCounters s' = takenCounters bimode8 ∧
      vmod (SatCounter.train true) (notTakenCounters bimode8) 0 = Ok (notTakenCounters s') ∧
      vmod (SatCounter.train true) (choiceCounters bimode8) 0 = Ok (choiceCounters s'))).
Proof.
  destruct bimode8_ok as [Hw _].
  pose proof (bimode_update_policy 2 bimode8 1 64 0 false false false true Hw ltac:(lia)
    eq_refl eq_refl eq_refl eq_refl) as Hp.
  eapply returns_mono; [exact Hp|]. intros r [Hr Hu]. split; [exact Hr|].
  eapply returns_mono; [apply (Hu [5; 3]); reflexivity|]. intros s' (_ & _ & [H1 H2] & H3).
  split; [exact H2|split; [exact H1|exact H3]].
Defined.

Lemma bimode_squash_recovers_witness :
  returns (lookup bimode8 1 64) (λ r, returns (squash r.2 1 r.1.2) (λ s2,
    globalHistoryReg s2 = [0; 0] ∧ ∀ tid' pc', 0 ≤ tid' < 2 → answer s2 tid' pc' = answer bimode8 tid' pc')).
Proof.
  destruct bimode8_ok as [Hw Htr].
  eapply returns_mono; [apply (bimode_squash_recovers 2 bimode8 [] 1 64 Hw Htr); lia|].
  intros r Hr. eapply returns_mono; [exact (Hr _ (or_introl eq_refl))|].
  intros s2 (H1 & _ & H2). split; [exact H1|exact H2].
Defined.

Lemma bimode_corrects_history_witness :
  returns (lookup bimode8 1 64) (λ r,
    returns (update r.2 1 64 true r.1.2 true) (λ s1, equiv (shifted bimode8 1 0 true) s1)).
Proof.
  destruct bimode8_ok as [Hw _].
  eapply returns_mono; [apply (bimode_corrects_history 2 bimode8 1 64 0 true Hw ltac:(lia) eq_refl)|].
  intros r Hr. eapply returns_mono; [exact Hr|]. by intros s1 [H1 _].
Defined.

Definition narrow_params : Params := mkParams 1 2 8 1 4 2.

Definition narrow : t :=
  ltac:(let r := eval vm_compute in (create 0 narrow_params) in match r with Ok ?s => exact s end).

Definition narrow_script : list call := [CLookup 0 64; CCommit 0 0 64 true].

Definition narrow_trained : t * list ptr :=
  ltac:(let r := eval vm_compute in (dp_run narrow_script (narrow, [])) in
        match r with Ok ?s => exact s end).

(** A one-bit direction table trained with a taken branch still answers not taken. *)
Lemma bimode_narrow_counters_never_taken_witness : answer narrow_trained.1 0 64 = Ok false.
Proof.
  apply (bimode_narrow_counters_never_taken 0 narrow_params narrow_trained.1 narrow_trained.2 narrow 0 64).
  - split; cbn; unfold is_u32; try lia; split; (lia || done).
  - cbn. lia.
  - reflexivity.
  - apply (dp_run_steps 1 narrow_script); vm_compute; reflexivity.
  - cbn. lia.
Defined.

End BiModeBP.

(** ** The copies *)

(** [class Gshare] ([gshare.hh], [gshare.cc]): the members and methods of
    [BiModeBP] under another name. *)
Module Gshare.
Definition BPHistory : Type := BiModeBP.BPHistory.
Definition Params : Type := BiModeBP.Params.
Definition t : Type := BiModeBP.t.
Definition create : Z → Params → res t := BiModeBP.create.
Definition uncondBranch : t → Z → Z → res (ptr * t) := BiModeBP.uncondBranch.
Definition squash : t → Z → ptr → res t := BiModeBP.squash.
Definition lookup : t → Z → Z → res (bool * ptr * t) := BiModeBP.lookup.
Definition btbUpdate : t → Z → Z → ptr → res t := BiModeBP.btbUpdate.
Definition update : t → Z → Z → bool → ptr → bool → res t := BiModeBP.update.
Definition getGHR : t → Z → ptr → res Z := BiModeBP.getGHR.
Definition updateGlobalHistReg : t → Z → bool → res t := BiModeBP.updateGlobalHistReg.
End Gshare.

(** [class Yags] ([yags.hh], [yags.cc]): the same. *)
Module Yags.
Definition BPHistory : Type := BiModeBP.BPHistory.
Definition Params : Type := BiModeBP.Params.
Definition t : Type := BiModeBP.t.
Definition create : Z → Params → res t := BiModeBP.create.
Definition uncondBranch : t → Z → Z → res (ptr * t) := BiModeBP.uncondBranch.
Definition squash : t → Z → ptr → res t := BiModeBP.squash.
Definition lookup : t → Z → Z → res (bool * ptr * t) := BiModeBP.lookup.
Definition btbUpdate : t → Z → Z → ptr → res t := BiModeBP.btbUpdate.
Definition update : t → Z → Z → bool → ptr → bool → res t := BiModeBP.update.
Definition getGHR : t → Z → ptr → res Z := BiModeBP.getGHR.
Definition updateGlobalHistReg : t → Z → bool → res t := BiModeBP.updateGlobalHistReg.
End Yags.

(** [class Perceptron] ([perceptron.hh], [perceptron.cc]): the same again, in files
    that the build does not compile. *)
Module Perceptron.
Definition BPHistory : Type := BiModeBP.BPHistory.
Definition Params : Type := BiModeBP.Params.
Definition t : Type := BiModeBP.t.
Definition create : Z → Params → res t := BiModeBP.create.
Definition uncondBranch : t → Z → Z → res (ptr * t) := BiModeBP.uncondBranch.
Definition squash : t → Z → ptr → res t := BiModeBP.squash.
Definition lookup : t → Z → Z → res (bool * ptr * t) := BiModeBP.lookup.
Definition btbUpdate : t → Z → Z → ptr → res t := BiModeBP.btbUpdate.
Definition update : t → Z → Z → bool → ptr → bool → res t := BiModeBP.update.
Definition getGHR : t → Z → ptr → res Z := BiModeBP.getGHR.
Definition updateGlobalHistReg : t → Z → bool → res t := BiModeBP.updateGlobalHistReg.
End Perceptron.
