(* ===== verification/TriTournament.v ===== *)
(** * The three-way tournament predictor ([cpu/pred/tritournament.hh], [tritournament.cc])

    The tournament predictor with a second local predictor and a second choice
    table, which decides between the second local predictor and the verdict of
    the ordinary tournament.  The members that [TournamentBP] has too
    ([globalHistory], [localHistoryTable], ...) are in [regs]; the second local
    history table, its size and its mask are in [regs2], a [HistRegs.t] without
    global registers, so that [calcLocHistIdx2], [updateLocalHistTaken2] and
    [updateLocalHistNotTaken2] are the operations of [HistRegs] on it. *)

From S2P Require Import Prelude IntMath SatCounter Predictor HistRegs Tournament.

Module TriTournamentBP.

Record BPHistory := mkHist {
  globalHistory : Z;
  localHistoryIdx : Z;
  localHistory : Z;
  localHistoryIdx2 : Z;
  localHistory2 : Z;
  localPredTaken : bool;
  localPredTaken2 : bool;
  globalPredTaken : bool;
  globalUsed : bool;
  local2Used : bool;
}.

Record Params := mkParams {
  p_numThreads : Z;
  p_instShiftAmt : Z;
  p_localPredictorSize : Z;
  p_localCtrBits : Z;
  p_localHistoryTableSize : Z;
  p_localPredictorSize2 : Z;
  p_localCtrBits2 : Z;
  p_localHistoryTableSize2 : Z;
  p_globalPredictorSize : Z;
  p_globalCtrBits : Z;
  p_choicePredictorSize : Z;
  p_choiceCtrBits : Z;
  p_choicePredictorSize2 : Z;
  p_choiceCtrBits2 : Z;
}.

Record Cfg := mkCfg {
  localPredictorSize : Z;
  localCtrBits : Z;
  localHistoryBits : Z;
  localPredictorSize2 : Z;
  localCtrBits2 : Z;
  localHistoryBits2 : Z;
  globalPredictorSize : Z;
  globalCtrBits : Z;
  globalHistoryBits : Z;
  globalHistoryMask : Z;
  choiceHistoryMask : Z;
  choicePredictorSize : Z;
  choiceCtrBits : Z;
  choiceHistoryMask2 : Z;
  choicePredictorSize2 : Z;
  choiceCtrBits2 : Z;
  localThreshold : Z;
  localThreshold2 : Z;
  globalThreshold : Z;
  choiceThreshold : Z;
  choiceThreshold2 : Z;
}.

Record t := mk {
  cfg : Cfg;
  regs : HistRegs.t;
  regs2 : HistRegs.t;
  localCtrs : list SatCounter.t;
  localCtrs2 : list SatCounter.t;
  globalCtrs : list SatCounter.t;
  choiceCtrs : list SatCounter.t;
  choiceCtrs2 : list SatCounter.t;
  histories : heap BPHistory;
  atLeastOneCorrectExpertOnMispredict : Z;
}.

Definition with_regs (r r2 : HistRegs.t) (s : t) : t :=
  mk (cfg s) r r2 (localCtrs s) (localCtrs2 s) (globalCtrs s) (choiceCtrs s) (choiceCtrs2 s)
     (histories s) (atLeastOneCorrectExpertOnMispredict s).
Definition with_ctrs (l l2 g c c2 : list SatCounter.t) (s : t) : t :=
  mk (cfg s) (regs s) (regs2 s) l l2 g c c2 (histories s) (atLeastOneCorrectExpertOnMispredict s).
Definition with_histories (h : heap BPHistory) (s : t) : t :=
  mk (cfg s) (regs s) (regs2 s) (localCtrs s) (localCtrs2 s) (globalCtrs s) (choiceCtrs s)
     (choiceCtrs2 s) h (atLeastOneCorrectExpertOnMispredict s).
Definition with_stat (n : Z) (s : t) : t :=
  mk (cfg s) (regs s) (regs2 s) (localCtrs s) (localCtrs2 s) (globalCtrs s) (choiceCtrs s)
     (choiceCtrs2 s) (histories s) n.

(** [(ULL(1) << 2*(bits - 1)) - 1] stored in an [unsigned]. *)
Definition counterThreshold2 (bits : Z) : res Z :=
  r ← shl64 1 (u32 (2 * u32 (bits - 1))); Ok (u32 (r - 1)).

Definition create (indet : Z) (p : Params) : res t :=
  localHistoryBits ← ceilLog2 (p_localPredictorSize p);
  localHistoryBits2 ← ceilLog2 (p_localPredictorSize2 p);
  gbits ← ceilLog2 (p_globalPredictorSize p);
  cbits ← ceilLog2 (p_choicePredictorSize p);
  let globalHistoryBits := if cbits <? gbits then gbits else cbits in
  _ ← guard_ (isPowerOf2 (p_localPredictorSize p)) (Fatal "Invalid local predictor size!");
  _ ← guard_ (isPowerOf2 (p_localPredictorSize2 p)) (Fatal "Invalid local predictor size!");
  _ ← guard_ (isPowerOf2 (p_globalPredictorSize p)) (Fatal "Invalid global predictor size!");
  localCtrs ← SatCounter.table indet (p_localPredictorSize p) (p_localCtrBits p);
  lmask ← mask localHistoryBits;
  _ ← guard_ (isPowerOf2 (p_localHistoryTableSize p)) (Fatal "Invalid local history table size!");
  localCtrs2 ← SatCounter.table indet (p_localPredictorSize2 p) (p_localCtrBits2 p);
  lmask2 ← mask localHistoryBits2;
  _ ← guard_ (isPowerOf2 (p_localHistoryTableSize2 p)) (Fatal "Invalid second local history table size!");
  globalCtrs ← SatCounter.table indet (p_globalPredictorSize p) (p_globalCtrBits p);
  let globalHistoryMask := u32 (p_globalPredictorSize p - 1) in
  _ ← guard_ (isPowerOf2 (p_choicePredictorSize p)) (Fatal "Invalid choice predictor size!");
  let choiceHistoryMask := u32 (p_choicePredictorSize p - 1) in
  choiceCtrs ← SatCounter.table indet (p_choicePredictorSize p) (p_choiceCtrBits p);
  hmask ← mask globalHistoryBits;
  let historyRegisterMask := u32 hmask in
  let choiceHistoryMask2 := u32 (p_choicePredictorSize2 p - 1) in
  choiceCtrs2 ← SatCounter.table indet (p_choicePredictorSize2 p) (p_choiceCtrBits2 p);
  _ ← guard_ (negb (historyRegisterMask <? globalHistoryMask))
        (Fatal "Global predictor too large for global history bits!");
  _ ← guard_ (negb (historyRegisterMask <? choiceHistoryMask))
        (Fatal "Choice predictor too large for global history bits!");
  _ ← guard_ (negb (historyRegisterMask <? choiceHistoryMask2))
        (Fatal "Choice predictor too large for global history bits!");
  localThreshold ← counterThreshold (p_localCtrBits p);
  localThreshold2 ← counterThreshold (p_localCtrBits2 p);
  globalThreshold ← counterThreshold (p_globalCtrBits p);
  choiceThreshold ← counterThreshold (p_choiceCtrBits p);
  choiceThreshold2 ← counterThreshold2 (p_choiceCtrBits p);
  Ok (mk (mkCfg (p_localPredictorSize p) (p_localCtrBits p) localHistoryBits
            (p_localPredictorSize2 p) (p_localCtrBits2 p) localHistoryBits2
            (p_globalPredictorSize p) (p_globalCtrBits p) globalHistoryBits globalHistoryMask
            choiceHistoryMask (p_choicePredictorSize p) (p_choiceCtrBits p)
            choiceHistoryMask2 (p_choicePredictorSize2 p) (p_choiceCtrBits2 p)
            localThreshold localThreshold2 globalThreshold choiceThreshold choiceThreshold2)
         (HistRegs.create (p_instShiftAmt p) (p_localHistoryTableSize p) (u32 lmask)
            historyRegisterMask (p_numThreads p))
         (HistRegs.create (p_instShiftAmt p) (p_localHistoryTableSize2 p) (u32 lmask2) 0 0)
         localCtrs localCtrs2 globalCtrs choiceCtrs choiceCtrs2 heap_empty 0).

Definition calcLocHistIdx2 (s : t) (branch_addr : Z) : res Z :=
  HistRegs.calcLocHistIdx (regs2 s) branch_addr.

Definition updateLocalHistTaken2 (r2 : HistRegs.t) (local_history_idx : Z) : res HistRegs.t :=
  HistRegs.updateLocalHistTaken r2 local_history_idx.
Definition updateLocalHistNotTaken2 (r2 : HistRegs.t) (local_history_idx : Z) : res HistRegs.t :=
  HistRegs.updateLocalHistNotTaken r2 local_history_idx.

Definition btbUpdate (s : t) (tid branch_addr : Z) (bp_history : ptr) : res t :=
  local_history_idx2 ← calcLocHistIdx2 s branch_addr;
  r ← HistRegs.btbUpdate (regs s) tid branch_addr;
  x ← vget (HistRegs.localHistoryTable (regs2 s)) local_history_idx2;
  l ← vset (HistRegs.localHistoryTable (regs2 s)) local_history_idx2
        (Z.land x (Z.land (HistRegs.localPredictorMask (regs2 s)) (not64 1)));
  Ok (with_regs r (HistRegs.with_local l (regs2 s)) s).

Definition lookup (s : t) (tid branch_addr : Z) : res (bool * ptr * t) :=
  let c := cfg s in
  local_history_idx ← HistRegs.calcLocHistIdx (regs s) branch_addr;
  lh ← vget (HistRegs.localHistoryTable (regs s)) local_history_idx;
  let local_predictor_idx := Z.land lh (HistRegs.localPredictorMask (regs s)) in
  local_prediction ← predicts (localCtrs s) local_predictor_idx (localThreshold c);
  local_history_idx2 ← calcLocHistIdx2 s branch_addr;
  lh2 ← vget (HistRegs.localHistoryTable (regs2 s)) local_history_idx2;
  let local_predictor_idx2 := Z.land lh2 (HistRegs.localPredictorMask (regs2 s)) in
  local_prediction2 ← predicts (localCtrs2 s) local_predictor_idx2 (localThreshold2 c);
  g ← vget (HistRegs.globalHistory (regs s)) tid;
  global_prediction ← predicts (globalCtrs s) (Z.land g (globalHistoryMask c)) (globalThreshold c);
  choice_prediction ← predicts (choiceCtrs s) (Z.land g (choiceHistoryMask c)) (choiceThreshold c);
  choice_prediction2 ← predicts (choiceCtrs2 s) (Z.land g (choiceHistoryMask2 c)) (choiceThreshold2 c);
  let '(bp_history, hs) :=
    heap_new (histories s)
      (mkHist g local_history_idx local_predictor_idx local_history_idx2 local_predictor_idx2
         local_prediction local_prediction2 global_prediction choice_prediction choice_prediction2) in
  _ ← assert_ (local_history_idx <? HistRegs.localHistoryTableSize (regs s));
  let taken :=
    if choice_prediction2 : bool then local_prediction2
    else if choice_prediction : bool then global_prediction else local_prediction in
  r ← HistRegs.speculate (regs s) tid local_history_idx taken;
  r2 ← (if taken : bool then updateLocalHistTaken2 (regs2 s) local_history_idx2
        else updateLocalHistNotTaken2 (regs2 s) local_history_idx2);
  Ok (taken, bp_history, with_histories hs (with_regs r r2 s)).

Definition uncondBranch (s : t) (tid pc : Z) : res (ptr * t) :=
  g ← vget (HistRegs.globalHistory (regs s)) tid;
  let '(bp_history, hs) :=
    heap_new (histories s)
      (mkHist g invalidPredictorIndex invalidPredictorIndex invalidPredictorIndex invalidPredictorIndex
         true true true true false) in
  r ← HistRegs.updateGlobalHistTaken (regs s) tid;
  Ok (bp_history, with_histories hs (with_regs r (regs2 s) s)).

Definition updateAdditionalStats (s : t) (taken : bool) (history : BPHistory) : t :=
  let prediction := if globalUsed history then globalPredTaken history else localPredTaken history in
  let prediction := if local2Used history then localPredTaken2 history else prediction in
  let mispredict := negb (eqb taken prediction) in
  if mispredict &&
     (negb (local2Used history) &&
        (globalUsed history && eqb (localPredTaken history) taken ||
         negb (globalUsed history) && eqb (globalPredTaken history) taken) ||
      local2Used history && eqb (localPredTaken2 history) taken)
  then with_stat (atLeastOneCorrectExpertOnMispredict s + 1) s
  else s.

(** The first choice table moves towards the right one of local and global. *)
Definition train_choice (s : t) (taken : bool) (history : BPHistory) (old_local_pred_valid : bool)
    : res (list SatCounter.t) :=
  if negb (eqb (localPredTaken history) (globalPredTaken history)) && old_local_pred_valid then
    let choice_predictor_idx := Z.land (globalHistory history) (choiceHistoryMask (cfg s)) in
    if eqb (localPredTaken history) taken then vmod SatCounter.decrement (choiceCtrs s) choice_predictor_idx
    else if eqb (globalPredTaken history) taken then vmod SatCounter.increment (choiceCtrs s) choice_predictor_idx
    else Ok (choiceCtrs s)
  else Ok (choiceCtrs s).

(** The second choice table, indexed under the mask of the first one. *)
Definition train_choice2 (s : t) (taken : bool) (history : BPHistory) (old_local_pred_valid2 : bool)
    : res (list SatCounter.t) :=
  if (globalUsed history && negb (eqb (localPredTaken2 history) (globalPredTaken history)) ||
      negb (globalUsed history) && negb (eqb (localPredTaken2 history) (localPredTaken history))) &&
     old_local_pred_valid2 then
    let choice_predictor_idx2 := Z.land (globalHistory history) (choiceHistoryMask (cfg s)) in
    if eqb (localPredTaken2 history) taken then vmod SatCounter.increment (choiceCtrs2 s) choice_predictor_idx2
    else if eqb (globalPredTaken history) taken || eqb (localPredTaken history) taken
    then vmod SatCounter.decrement (choiceCtrs2 s) choice_predictor_idx2
    else Ok (choiceCtrs2 s)
  else Ok (choiceCtrs2 s).

Definition update (s : t) (tid branch_addr : Z) (taken : bool) (bp_history : ptr)
    (squashed : bool) : res t :=
  _ ← assert_ (bool_decide (bp_history ≠ None));
  history ← heap_deref (histories s) bp_history;
  local_history_idx ← HistRegs.calcLocHistIdx (regs s) branch_addr;
  _ ← assert_ (local_history_idx <? HistRegs.localHistoryTableSize (regs s));
  local_history_idx2 ← calcLocHistIdx2 s branch_addr;
  _ ← assert_ (local_history_idx2 <? HistRegs.localHistoryTableSize (regs2 s));
  let old_local_pred_valid := negb (localHistory history =? invalidPredictorIndex) in
  let old_local_pred_valid2 := negb (localHistory2 history =? invalidPredictorIndex) in
  let s := updateAdditionalStats s taken history in
  if squashed then
    r ← HistRegs.correct (regs s) tid local_history_idx old_local_pred_valid
          (globalHistory history) (localHistory history) taken;
    r2 ← (if old_local_pred_valid2 then
            l ← vset (HistRegs.localHistoryTable (regs2 s)) local_history_idx2
                  (HistRegs.shift_in (localHistory2 history) taken);
            Ok (HistRegs.with_local l (regs2 s))
          else Ok (regs2 s));
    Ok (with_regs r r2 s)
  else
    let old_local_pred_index := Z.land (localHistory history) (HistRegs.localPredictorMask (regs s)) in
    _ ← assert_ (old_local_pred_index <? localPredictorSize (cfg s));
    let old_local_pred_index2 := Z.land (localHistory2 history) (HistRegs.localPredictorMask (regs2 s)) in
    _ ← assert_ (old_local_pred_index2 <? localPredictorSize2 (cfg s));
    choice ← train_choice s taken history old_local_pred_valid;
    choice2 ← train_choice2 s taken history old_local_pred_valid2;
    let global_predictor_idx := Z.land (globalHistory history) (globalHistoryMask (cfg s)) in
    global ← vmod (SatCounter.train taken) (globalCtrs s) global_predictor_idx;
    local ← (if old_local_pred_valid
             then vmod (SatCounter.train taken) (localCtrs s) old_local_pred_index
             else Ok (localCtrs s));
    local2 ← (if old_local_pred_valid2
              then vmod (SatCounter.train taken) (localCtrs2 s) old_local_pred_index2
              else Ok (localCtrs2 s));
    hs ← heap_delete (histories s) bp_history;
    Ok (with_histories hs (with_ctrs local local2 global choice choice2 s)).

Definition squash (s : t) (tid : Z) (bp_history : ptr) : res t :=
  history ← heap_deref (histories s) bp_history;
  r ← HistRegs.restore (regs s) tid (globalHistory history) (localHistoryIdx history)
        (localHistory history);
  r2 ← (if negb (localHistoryIdx2 history =? invalidPredictorIndex) then
          l ← vset (HistRegs.localHistoryTable (regs2 s)) (localHistoryIdx2 history) (localHistory2 history);
          Ok (HistRegs.with_local l (regs2 s))
        else Ok (regs2 s));
  hs ← heap_delete (histories s) bp_history;
  Ok (with_histories hs (with_regs r r2 s)).

Definition getGHR (s : t) (tid : Z) (bp_history : ptr) : res Z :=
  history ← heap_deref (histories s) bp_history; Ok (globalHistory history).

#[global] Instance tritournament_predictor : DirPredictor t := {|
  dp_uncondBranch := uncondBranch;
  dp_lookup := lookup;
  dp_btbUpdate := btbUpdate;
  dp_update := update;
  dp_squash := squash;
  dp_getGHR := getGHR;
|}.

(** ** Invariant *)
Record hist_ok (r r2 : HistRegs.t) (h : BPHistory) : Prop := {
  ho_snap : HistRegs.snap_ok r (globalHistory h) (localHistoryIdx h) (localHistory h);
  ho_snap2 : HistRegs.snap_ok r2 0 (localHistoryIdx2 h) (localHistory2 h);
}.

(** [update] indexes the second choice table under the mask of the first, so the
    second must be at least as large. *)
Record wf (nt : Z) (s : t) : Prop := {
  wf_regs : HistRegs.wf nt (regs s);
  wf_regs2 : HistRegs.wf 0 (regs2 s);
  wf_local : SatCounter.table_ok (localPredictorSize (cfg s))
               (SatCounter.maxOf (localCtrBits (cfg s))) (localCtrs s);
  wf_lsize : HistRegs.localPredictorMask (regs s) = localPredictorSize (cfg s) - 1;
  wf_local2 : SatCounter.table_ok (localPredictorSize2 (cfg s))
               (SatCounter.maxOf (localCtrBits2 (cfg s))) (localCtrs2 s);
  wf_lsize2 : HistRegs.localPredictorMask (regs2 s) = localPredictorSize2 (cfg s) - 1;
  wf_globalc : SatCounter.table_ok (globalPredictorSize (cfg s))
               (SatCounter.maxOf (globalCtrBits (cfg s))) (globalCtrs s);
  wf_gsize : 0 < globalPredictorSize (cfg s) ∧ globalHistoryMask (cfg s) = globalPredictorSize (cfg s) - 1;
  wf_choice : SatCounter.table_ok (choicePredictorSize (cfg s))
               (SatCounter.maxOf (choiceCtrBits (cfg s))) (choiceCtrs s);
  wf_csize : 0 < choicePredictorSize (cfg s) ∧ choiceHistoryMask (cfg s) = choicePredictorSize (cfg s) - 1;
  wf_choice2 : SatCounter.table_ok (choicePredictorSize2 (cfg s))
               (SatCounter.maxOf (choiceCtrBits2 (cfg s))) (choiceCtrs2 s);
  wf_csize2 : choicePredictorSize (cfg s) ≤ choicePredictorSize2 (cfg s) ∧
              choiceHistoryMask2 (cfg s) = choicePredictorSize2 (cfg s) - 1;
  wf_hist : heap_all (hist_ok (regs s) (regs2 s)) (histories s);
}.

Lemma tri_hist_ok_cfg r r2 r' r2' h :
  HistRegs.same_cfg r r' → HistRegs.same_cfg r2 r2' → hist_ok r r2 h → hist_ok r' r2' h.
Proof. intros E E2 []. split; by eapply HistRegs.snap_ok_cfg. Qed.

Lemma tri_wf_with_regs nt s r r2 :
  wf nt s → HistRegs.keeps nt (regs s) r → HistRegs.keeps 0 (regs2 s) r2 → wf nt (with_regs r r2 s).
Proof.
  intros [] [Hw Hc] [Hw2 Hc2]. pose proof Hc as (_ & _ & Em & _). pose proof Hc2 as (_ & _ & Em2 & _).
  split; cbn; try done.
  - by rewrite Em.
  - by rewrite Em2.
  - eapply map_Forall_impl; [done|]. intros a h. by apply tri_hist_ok_cfg.
Qed.

Lemma tri_wf_with_histories nt s hs :
  wf nt s → heap_all (hist_ok (regs s) (regs2 s)) hs → wf nt (with_histories hs s).
Proof. intros [] ?. by split. Qed.

Lemma tri_keeps_refl nt h : HistRegs.wf nt h → HistRegs.keeps nt h h.
Proof. intros. by split. Qed.

Lemma tri_stats_eq s taken h : ∃ n, updateAdditionalStats s taken h = with_stat n s.
Proof.
  unfold updateAdditionalStats. destruct (_ && _); [by eexists|].
  exists (atLeastOneCorrectExpertOnMispredict s). by destruct s.
Qed.

Section wf.
Context (nt : Z) (s : t) (H : wf nt s).

Lemma tri_local_idx x : 0 ≤ Z.land x (HistRegs.localPredictorMask (regs s)) < localPredictorSize (cfg s).
Proof.
  pose proof (HistRegs.mask_range nt _ (wf_regs _ _ H)) as [? _].
  pose proof (land_bound x (HistRegs.localPredictorMask (regs s))). rewrite (wf_lsize _ _ H) in *. lia.
Qed.

Lemma tri_local_idx2 x : 0 ≤ Z.land x (HistRegs.localPredictorMask (regs2 s)) < localPredictorSize2 (cfg s).
Proof.
  pose proof (HistRegs.mask_range 0 _ (wf_regs2 _ _ H)) as [? _].
  pose proof (land_bound x (HistRegs.localPredictorMask (regs2 s))). rewrite (wf_lsize2 _ _ H) in *. lia.
Qed.

Lemma tri_global_idx x : 0 ≤ Z.land x (globalHistoryMask (cfg s)) < globalPredictorSize (cfg s).
Proof. destruct (wf_gsize _ _ H) as [? ->]. by apply land_size_bound. Qed.

Lemma tri_choice_idx x : 0 ≤ Z.land x (choiceHistoryMask (cfg s)) < choicePredictorSize (cfg s).
Proof. destruct (wf_csize _ _ H) as [? ->]. by apply land_size_bound. Qed.

Lemma tri_choice_idx2 x : 0 ≤ Z.land x (choiceHistoryMask2 (cfg s)) < choicePredictorSize2 (cfg s).
Proof. destruct (wf_csize _ _ H), (wf_csize2 _ _ H) as [? ->]. apply land_size_bound. lia. Qed.

(** The state after a prediction of direction [b]. *)
Definition speculated (tid pc g x x2 : Z) (b : bool) : t :=
  with_regs
    (HistRegs.set2 (regs s) tid (Z.land (HistRegs.shift_in g b) (HistRegs.historyRegisterMask (regs s)))
       (HistRegs.slot (regs s) pc) (HistRegs.shift_in x b))
    (HistRegs.with_local (<[Z.to_nat (HistRegs.slot (regs2 s) pc) := HistRegs.shift_in x2 b]>
       (HistRegs.localHistoryTable (regs2 s))) (regs2 s)) s.

(** [lookup] with the five table reads it is made of. *)
Lemma tri_lookup_Ok tid pc g x x2 :
  0 ≤ tid < nt →
  HistRegs.globalHistory (regs s) !! Z.to_nat tid = Some g →
  HistRegs.localHistoryTable (regs s) !! Z.to_nat (HistRegs.slot (regs s) pc) = Some x →
  HistRegs.localHistoryTable (regs2 s) !! Z.to_nat (HistRegs.slot (regs2 s) pc) = Some x2 →
  ∃ l l2 gl ch ch2 : bool,
    let lidx := Z.land x (HistRegs.localPredictorMask (regs s)) in
    let lidx2 := Z.land x2 (HistRegs.localPredictorMask (regs2 s)) in
    let taken := if ch2 then l2 else if ch then gl else l in
    predicts (localCtrs s) lidx (localThreshold (cfg s)) = Ok l ∧
    predicts (localCtrs2 s) lidx2 (localThreshold2 (cfg s)) = Ok l2 ∧
    predicts (globalCtrs s) (Z.land g (globalHistoryMask (cfg s))) (globalThreshold (cfg s)) = Ok gl ∧
    predicts (choiceCtrs s) (Z.land g (choiceHistoryMask (cfg s))) (choiceThreshold (cfg s)) = Ok ch ∧
    predicts (choiceCtrs2 s) (Z.land g (choiceHistoryMask2 (cfg s))) (choiceThreshold2 (cfg s)) = Ok ch2 ∧
    lookup s tid pc =
      (let '(p, hs) := heap_new (histories s)
         (mkHist g (HistRegs.slot (regs s) pc) lidx (HistRegs.slot (regs2 s) pc) lidx2 l l2 gl ch ch2) in
       Ok (taken, p, with_histories hs (speculated tid pc g x x2 taken))).
Proof.
  intros Ht Hg Hx Hx2. pose proof (wf_regs _ _ H) as Hr. pose proof (wf_regs2 _ _ H) as Hr2.
  pose proof (HistRegs.slot_range nt _ Hr pc) as Hi. pose proof (HistRegs.slot_range 0 _ Hr2 pc) as Hi2.
  destruct (predicts_Ok _ _ _ _ (localThreshold (cfg s)) (wf_local _ _ H)
    (tri_local_idx x)) as [l El].
  destruct (predicts_Ok _ _ _ _ (localThreshold2 (cfg s)) (wf_local2 _ _ H) (tri_local_idx2 x2)) as [l2 El2].
  destruct (predicts_Ok _ _ _ _ (globalThreshold (cfg s)) (wf_globalc _ _ H) (tri_global_idx g)) as [gl Eg].
  destruct (predicts_Ok _ _ _ _ (choiceThreshold (cfg s)) (wf_choice _ _ H) (tri_choice_idx g)) as [ch Ec].
  destruct (predicts_Ok _ _ _ _ (choiceThreshold2 (cfg s)) (wf_choice2 _ _ H) (tri_choice_idx2 g)) as [ch2 Ec2].
  exists l, l2, gl, ch, ch2. cbv zeta. split_and!; [done..|]. unfold lookup, calcLocHistIdx2.
  rewrite (HistRegs.calcLocHistIdx_Ok nt (regs s)) by done. cbn [mbind res_bind].
  rewrite (vget_in _ (HistRegs.slot (regs s) pc) x) by (lia || done). cbn [mbind res_bind].
  rewrite El. cbn [mbind res_bind]. rewrite (HistRegs.calcLocHistIdx_Ok 0 (regs2 s)) by done. cbn [mbind res_bind].
  rewrite (vget_in _ (HistRegs.slot (regs2 s) pc) x2) by (lia || done). cbn [mbind res_bind].
  rewrite El2. cbn [mbind res_bind]. rewrite (vget_in _ tid g) by (lia || done). cbn [mbind res_bind].
  rewrite Eg. cbn [mbind res_bind]. rewrite Ec. cbn [mbind res_bind]. rewrite Ec2. cbn [mbind res_bind heap_new].
  unfold assert_, updateLocalHistTaken2, updateLocalHistNotTaken2.
  destruct (Z.ltb_spec (HistRegs.slot (regs s) pc) (HistRegs.localHistoryTableSize (regs s))); [|lia].
  cbn [mbind res_bind]. rewrite (HistRegs.speculate_Ok nt _ tid Hr Ht _ _ g x) by done. cbn [mbind res_bind].
  by rewrite (HistRegs.localHist_Ok 0 _ Hr2 _ _ x2) by done.
Qed.

Lemma tri_exists tid pc :
  0 ≤ tid < nt → ∃ g x x2,
  HistRegs.globalHistory (regs s) !! Z.to_nat tid = Some g ∧
  HistRegs.localHistoryTable (regs s) !! Z.to_nat (HistRegs.slot (regs s) pc) = Some x ∧
  HistRegs.localHistoryTable (regs2 s) !! Z.to_nat (HistRegs.slot (regs2 s) pc) = Some x2.
Proof.
  intros Ht. pose proof (wf_regs _ _ H) as Hr. pose proof (wf_regs2 _ _ H) as Hr2.
  destruct (HistRegs.global_exists nt _ Hr tid Ht) as (g & Hg & _).
  destruct (HistRegs.local_exists nt _ Hr _ (HistRegs.slot_range nt _ Hr pc)) as [x Hx].
  destruct (HistRegs.local_exists 0 _ Hr2 _ (HistRegs.slot_range 0 _ Hr2 pc)) as [x2 Hx2]. eauto 10.
Qed.

Lemma tri_speculated_wf tid pc g x x2 b : wf nt (speculated tid pc g x x2 b).
Proof.
  apply tri_wf_with_regs; [done| |].
  - apply HistRegs.keeps_set2; [apply H|]. apply land_bound, (HistRegs.mask_range nt _ (wf_regs _ _ H)).
  - apply HistRegs.keeps_set_local, H.
Qed.

Lemma tri_snap tid pc g x x2 l l2 gl ch ch2 :
  HistRegs.globalHistory (regs s) !! Z.to_nat tid = Some g →
  hist_ok (regs s) (regs2 s)
    (mkHist g (HistRegs.slot (regs s) pc) (Z.land x (HistRegs.localPredictorMask (regs s)))
       (HistRegs.slot (regs2 s) pc) (Z.land x2 (HistRegs.localPredictorMask (regs2 s))) l l2 gl ch ch2).
Proof.
  intros Hg. pose proof (wf_regs _ _ H) as Hr. pose proof (wf_regs2 _ _ H) as Hr2. split; cbn.
  - by apply (HistRegs.snapshot_ok nt _ tid pc g x).
  - pose proof (HistRegs.mask_range 0 _ Hr2) as [? ?]. split; [lia|]. right.
    split; [by apply (HistRegs.slot_range 0)|]. apply land_bound; lia.
Qed.

Lemma tri_lookup_ok l tid pc :
  0 ≤ tid < nt → heap_tracks (histories s) l →
  returns (lookup s tid pc) (λ r, wf nt r.2 ∧ heap_tracks (histories r.2) (r.1.2 :: l)).
Proof.
  intros Ht Htr. destruct (tri_exists tid pc Ht) as (g & x & x2 & Hg & Hx & Hx2).
  destruct (tri_lookup_Ok tid pc g x x2 Ht Hg Hx Hx2) as (lp & lp2 & gl & ch & ch2 & _ & _ & _ & _ & _ & ->).
  cbn [heap_new returns fst snd]. split; [|by apply (heap_tracks_new (histories s))].
  apply tri_wf_with_histories; [apply tri_speculated_wf|].
  apply (heap_all_new (hist_ok _ _) (histories s)); 
    [apply (wf_hist nt _ (tri_speculated_wf tid pc g x x2 _))|].
  apply (tri_hist_ok_cfg (regs s) (regs2 s)); [done..|]. by apply (tri_snap tid).
Qed.

Lemma tri_uncondBranch_ok l tid pc :
  0 ≤ tid < nt → heap_tracks (histories s) l →
  returns (uncondBranch s tid pc) (λ r, wf nt r.2 ∧ heap_tracks (histories r.2) (r.1 :: l)).
Proof.
  intros Ht Htr. pose proof (wf_regs _ _ H) as Hr. unfold uncondBranch.
  destruct (HistRegs.global_exists nt _ Hr tid Ht) as (g & Hg & Hgr).
  rewrite (vget_in _ tid g) by (lia || done). cbn [mbind res_bind heap_new]. apply returns_bind.
  eapply returns_mono; [apply (HistRegs.globalHist_keeps nt (regs s) tid Hr Ht true)|].
  intros r Hk. cbn [returns fst snd]. split; [|by apply (heap_tracks_new (histories s))].
  pose proof (tri_wf_with_regs nt s _ _ H Hk (tri_keeps_refl 0 _ (wf_regs2 _ _ H))) as Hw.
  apply tri_wf_with_histories; [done|]. apply (heap_all_new (hist_ok _ _) (histories s)); [apply Hw|].
  apply (tri_hist_ok_cfg (regs s) (regs2 s)); [apply Hk|done|].
  pose proof (HistRegs.mask_range 0 _ (wf_regs2 _ _ H)) as [_ ?].
  split; split; cbn; [done|by left|lia|by left].
Qed.

(** An assignment to an entry of the second local history table. *)
Lemma tri_set_local2 i x (Q : HistRegs.t → Prop) :
  0 ≤ i < HistRegs.localHistoryTableSize (regs2 s) →
  (∀ r2, HistRegs.keeps 0 (regs2 s) r2 → Q r2) →
  returns (l ← vset (HistRegs.localHistoryTable (regs2 s)) i x; Ok (HistRegs.with_local l (regs2 s))) Q.
Proof.
  intros Hi HQ. pose proof (wf_regs2 _ _ H) as Hr2. apply returns_bind, returns_vset.
  - by rewrite (HistRegs.wf_table _ _ Hr2).
  - apply HQ. by apply HistRegs.keeps_set_local.
Qed.

Lemma tri_btbUpdate_ok p l tid pc :
  0 ≤ tid < nt → heap_tracks (histories s) l →
  returns (btbUpdate s tid pc p) (λ s', wf nt s' ∧ heap_tracks (histories s') l).
Proof.
  intros Ht Htr. pose proof (wf_regs2 _ _ H) as Hr2. unfold btbUpdate, calcLocHistIdx2.
  pose proof (HistRegs.slot_range 0 _ Hr2 pc) as Hi2.
  rewrite (HistRegs.calcLocHistIdx_Ok 0 (regs2 s)) by done. cbn [mbind res_bind]. apply returns_bind.
  eapply returns_mono; [by apply (HistRegs.btbUpdate_keeps nt _ tid (wf_regs _ _ H) Ht)|].
  intros r Hk. destruct (HistRegs.local_exists 0 _ Hr2 _ Hi2) as [x2 Hx2].
  rewrite (vget_in _ (HistRegs.slot (regs2 s) pc) x2) by (lia || done). cbn [mbind res_bind].
  apply returns_bind, returns_vset; [by rewrite (HistRegs.wf_table _ _ Hr2)|].
  split; [|done]. apply tri_wf_with_regs; [done..|]. by apply HistRegs.keeps_set_local.
Qed.

Lemma tri_squash_ok p l tid :
  0 ≤ tid < nt → heap_tracks (histories s) (p :: l) →
  returns (squash s tid p) (λ s', wf nt s' ∧ heap_tracks (histories s') l).
Proof.
  intros Ht Htr. unfold squash. apply returns_bind.
  eapply returns_deref; [done|apply H|]. intros a h -> Ha [Hh Hh2]. apply returns_bind.
  eapply returns_mono; [by apply (HistRegs.restore_keeps nt _ tid (wf_regs _ _ H) Ht)|].
  intros r Hk. apply returns_bind.
  apply (returns_mono _ (HistRegs.keeps 0 (regs2 s))).
  { destruct (Z.eqb_spec (localHistoryIdx2 h) invalidPredictorIndex); cbn [negb].
    - by apply tri_keeps_refl, H.
    - destruct (HistRegs.so_local _ _ _ _ Hh2) as [[? _]|[? _]]; [done|]. by apply tri_set_local2. }
  intros r2 Hk2. apply returns_bind. eapply returns_delete; [done|apply H|]. intros hs Htr' Hall.
  split; [|done]. apply tri_wf_with_histories; [by apply tri_wf_with_regs|]. cbn.
  eapply map_Forall_impl; [done|]. intros ? ?. apply tri_hist_ok_cfg; [apply Hk|apply Hk2].
Qed.

Lemma tri_train_choice_ok taken h v :
  returns (train_choice s taken h v)
    (SatCounter.table_ok (choicePredictorSize (cfg s)) (SatCounter.maxOf (choiceCtrBits (cfg s)))).
Proof.
  pose proof (wf_choice _ _ H). unfold train_choice. destruct (_ && v); [|done].
  repeat (case_match; [eapply SatCounter.returns_train;
    [done|eauto using SatCounter.increment_ok, SatCounter.decrement_ok|apply tri_choice_idx|done]|]). done.
Qed.

Lemma tri_train_choice2_ok taken h v :
  returns (train_choice2 s taken h v)
    (SatCounter.table_ok (choicePredictorSize2 (cfg s)) (SatCounter.maxOf (choiceCtrBits2 (cfg s)))).
Proof.
  pose proof (wf_choice2 _ _ H). unfold train_choice2. destruct (_ && v); [|done].
  pose proof (tri_choice_idx (globalHistory h)). destruct (wf_csize2 _ _ H).
  repeat (case_match; [eapply SatCounter.returns_train;
    [done|eauto using SatCounter.increment_ok, SatCounter.decrement_ok|lia|done]|]). done.
Qed.

Lemma tri_wf_with_ctrs l l2 g c c2 :
  SatCounter.table_ok (localPredictorSize (cfg s)) (SatCounter.maxOf (localCtrBits (cfg s))) l →
  SatCounter.table_ok (localPredictorSize2 (cfg s)) (SatCounter.maxOf (localCtrBits2 (cfg s))) l2 →
  SatCounter.table_ok (globalPredictorSize (cfg s)) (SatCounter.maxOf (globalCtrBits (cfg s))) g →
  SatCounter.table_ok (choicePredictorSize (cfg s)) (SatCounter.maxOf (choiceCtrBits (cfg s))) c →
  SatCounter.table_ok (choicePredictorSize2 (cfg s)) (SatCounter.maxOf (choiceCtrBits2 (cfg s))) c2 →
  wf nt (with_ctrs l l2 g c c2 s).
Proof. destruct H. by split. Qed.

End wf.

(** [update] past its assertions: a misprediction. *)
Lemma tri_update_squash_Ok nt s tid pc taken a h :
  wf nt s → cells (histories s) !! a = Some h →
  update s tid pc taken (Some a) true =
    (r ← HistRegs.correct (regs s) tid (HistRegs.slot (regs s) pc)
           (negb (localHistory h =? invalidPredictorIndex)) (globalHistory h) (localHistory h) taken;
     r2 ← (if negb (localHistory2 h =? invalidPredictorIndex) then
             l ← vset (HistRegs.localHistoryTable (regs2 s)) (HistRegs.slot (regs2 s) pc)
                   (HistRegs.shift_in (localHistory2 h) taken);
             Ok (HistRegs.with_local l (regs2 s))
           else Ok (regs2 s));
     Ok (with_regs r r2 (updateAdditionalStats s taken h))).
Proof.
  intros H Ha. pose proof (HistRegs.slot_range nt _ (wf_regs _ _ H) pc).
  pose proof (HistRegs.slot_range 0 _ (wf_regs2 _ _ H) pc). unfold update, assert_, calcLocHistIdx2.
  rewrite bool_decide_true by done. cbn [mbind res_bind heap_deref]. rewrite Ha. cbn [mbind res_bind].
  rewrite (HistRegs.calcLocHistIdx_Ok nt (regs s)) by apply H. cbn [mbind res_bind].
  destruct (Z.ltb_spec (HistRegs.slot (regs s) pc) (HistRegs.localHistoryTableSize (regs s))); [|lia].
  cbn [mbind res_bind]. rewrite (HistRegs.calcLocHistIdx_Ok 0 (regs2 s)) by apply H. cbn [mbind res_bind].
  destruct (Z.ltb_spec (HistRegs.slot (regs2 s) pc) (HistRegs.localHistoryTableSize (regs2 s))); [|lia].
  cbn [mbind res_bind]. by destruct (tri_stats_eq s taken h) as [n ->].
Qed.

(** [update] past its assertions: a commit. *)
Lemma tri_update_commit_Ok nt s tid pc taken a h :
  wf nt s → cells (histories s) !! a = Some h →
  let v := negb (localHistory h =? invalidPredictorIndex) in
  let v2 := negb (localHistory2 h =? invalidPredictorIndex) in
  ∃ c c2 g l l2,
    train_choice s taken h v = Ok c ∧ train_choice2 s taken h v2 = Ok c2 ∧
    vmod (SatCounter.train taken) (globalCtrs s) (Z.land (globalHistory h) (globalHistoryMask (cfg s))) = Ok g ∧
    (if v then vmod (SatCounter.train taken) (localCtrs s)
                 (Z.land (localHistory h) (HistRegs.localPredictorMask (regs s))) = Ok l
     else l = localCtrs s) ∧
    (if v2 then vmod (SatCounter.train taken) (localCtrs2 s)
                 (Z.land (localHistory2 h) (HistRegs.localPredictorMask (regs2 s))) = Ok l2
     else l2 = localCtrs2 s) ∧
    wf nt (with_ctrs l l2 g c c2 s) ∧
    update s tid pc taken (Some a) false =
      Ok (with_histories (Heap (delete a (cells (histories s))) (next (histories s)))
            (with_ctrs l l2 g c c2 (updateAdditionalStats s taken h))).
Proof.
  intros H Ha v v2.
  pose proof (tri_train_choice_ok nt s H taken h v) as Hc. apply returns_iff in Hc as (c & Ec & Oc).
  pose proof (tri_train_choice2_ok nt s H taken h v2) as Hc2. apply returns_iff in Hc2 as (c2 & Ec2 & Oc2).
  destruct (SatCounter.train_table _ _ _ _ taken (wf_globalc _ _ H)
    (tri_global_idx nt s H (globalHistory h))) as (g & Eg & Og).
  destruct (SatCounter.train_table _ _ _ _ taken (wf_local _ _ H)
    (tri_local_idx nt s H (localHistory h))) as (l & El & Ol).
  destruct (SatCounter.train_table _ _ _ _ taken (wf_local2 _ _ H)
    (tri_local_idx2 nt s H (localHistory2 h))) as (l2 & El2 & Ol2).
  exists c, c2, g, (if v then l else localCtrs s), (if v2 then l2 else localCtrs2 s).
  split_and!; [done..|by destruct v|by destruct v2| |].
  { apply tri_wf_with_ctrs; [done|destruct v; [done|apply H]|destruct v2; [done|apply H]|done..]. }
  pose proof (HistRegs.slot_range nt _ (wf_regs _ _ H) pc).
  pose proof (HistRegs.slot_range 0 _ (wf_regs2 _ _ H) pc). unfold update, assert_, calcLocHistIdx2.
  rewrite bool_decide_true by done. cbn [mbind res_bind heap_deref]. rewrite Ha. cbn [mbind res_bind].
  rewrite (HistRegs.calcLocHistIdx_Ok nt (regs s)) by apply H. cbn [mbind res_bind].
  destruct (Z.ltb_spec (HistRegs.slot (regs s) pc) (HistRegs.localHistoryTableSize (regs s))); [|lia].
  cbn [mbind res_bind]. rewrite (HistRegs.calcLocHistIdx_Ok 0 (regs2 s)) by apply H. cbn [mbind res_bind].
  destruct (Z.ltb_spec (HistRegs.slot (regs2 s) pc) (HistRegs.localHistoryTableSize (regs2 s))); [|lia].
  cbn [mbind res_bind]. destruct (tri_stats_eq s taken h) as [n ->].
  cbn [regs regs2 cfg with_stat]. pose proof (tri_local_idx nt s H (localHistory h)).
  pose proof (tri_local_idx2 nt s H (localHistory2 h)).
  destruct (Z.ltb_spec (Z.land (localHistory h) (HistRegs.localPredictorMask (regs s)))
    (localPredictorSize (cfg s))); [|lia]. cbn [mbind res_bind].
  destruct (Z.ltb_spec (Z.land (localHistory2 h) (HistRegs.localPredictorMask (regs2 s)))
    (localPredictorSize2 (cfg s))); [|lia]. cbn [mbind res_bind]. fold v v2.
  change (train_choice (with_stat n s) taken h v) with (train_choice s taken h v).
  change (train_choice2 (with_stat n s) taken h v2) with (train_choice2 s taken h v2).
  rewrite Ec. cbn [mbind res_bind]. rewrite Ec2. cbn [mbind res_bind globalCtrs localCtrs localCtrs2 with_stat].
  rewrite Eg. cbn [mbind res_bind]. unfold heap_delete. cbn [histories with_stat heap_deref].
  destruct v, v2; rewrite ?El; cbn [mbind res_bind]; rewrite ?El2; cbn [mbind res_bind]; by rewrite Ha.
Qed.

Lemma tri_update_ok nt s p l tid pc taken squashed :
  wf nt s → 0 ≤ tid < nt → heap_tracks (histories s) (p :: l) →
  returns (update s tid pc taken p squashed) (λ s', wf nt s' ∧
    heap_tracks (histories s') (if squashed then p :: l else l)).
Proof.
  intros H Ht Htr. destruct (heap_tracks_deref _ _ _ Htr) as (a & h & -> & Ha). destruct squashed.
  - rewrite (tri_update_squash_Ok nt) with (h := h) by done. apply returns_bind.
    pose proof (HistRegs.slot_range 0 _ (wf_regs2 _ _ H) pc).
    eapply returns_mono; [apply (HistRegs.correct_keeps nt _ tid (wf_regs _ _ H) Ht)|].
    { by apply (HistRegs.slot_range nt), H. }
    intros r Hk. apply returns_bind. apply (returns_mono _ (HistRegs.keeps 0 (regs2 s))).
    { destruct (negb _); [by apply (tri_set_local2 nt)|]. by apply tri_keeps_refl, H. }
    intros r2 Hk2. destruct (tri_stats_eq s taken h) as [n ->]. split; [|done].
    destruct (tri_wf_with_regs nt s r r2 H Hk Hk2). by split.
  - destruct (tri_update_commit_Ok nt s tid pc taken a h H Ha)
      as (c & c2 & g & lc & lc2 & _ & _ & _ & _ & _ & Hw & ->).
    destruct (tri_stats_eq s taken h) as [n ->]. split; [|by apply (heap_tracks_delete (histories s))].
    apply tri_wf_with_histories; [destruct Hw; by split|]. apply heap_all_delete, H.
Qed.

#[global] Instance tritournament_laws : DirPredictorLaws t.
Proof.
  refine {| dp_wf := wf; dp_tracks := λ s, heap_tracks (histories s) |}.
  - intros. by apply tri_uncondBranch_ok.
  - intros. by apply tri_lookup_ok.
  - intros. by apply tri_btbUpdate_ok.
  - intros. by apply (tri_update_ok nt s p l tid pc taken false).
  - intros. by apply (tri_update_ok nt s p l tid pc taken true).
  - intros. by apply tri_squash_ok.
  - intros nt s p l tid H Htr _. cbn. unfold getGHR. apply returns_bind.
    eapply returns_deref; [done|apply H|done].
Defined.

(** ** The constructor *)
Record params_ok (p : Params) : Prop := {
  po_threads : 0 < p_numThreads p;
  po_shift : 0 ≤ p_instShiftAmt p < 64;
  po_local : is_u32 (p_localPredictorSize p) ∧ isPowerOf2 (p_localPredictorSize p) = true;
  po_table : is_u32 (p_localHistoryTableSize p) ∧ isPowerOf2 (p_localHistoryTableSize p) = true;
  po_local2 : is_u32 (p_localPredictorSize2 p) ∧ isPowerOf2 (p_localPredictorSize2 p) = true;
  po_table2 : is_u32 (p_localHistoryTableSize2 p) ∧ isPowerOf2 (p_localHistoryTableSize2 p) = true;
  po_global : is_u32 (p_globalPredictorSize p) ∧ isPowerOf2 (p_globalPredictorSize p) = true;
  po_choice : is_u32 (p_choicePredictorSize p) ∧ isPowerOf2 (p_choicePredictorSize p) = true;
  po_choice2 : p_choicePredictorSize p ≤ p_choicePredictorSize2 p ≤
               Z.max (p_globalPredictorSize p) (p_choicePredictorSize p);
  po_lbits : 1 ≤ p_localCtrBits p < 31;
  po_lbits2 : 1 ≤ p_localCtrBits2 p < 31;
  po_gbits : 1 ≤ p_globalCtrBits p < 31;
  po_cbits : 1 ≤ p_choiceCtrBits p < 31;
  po_cbits2 : 1 ≤ p_choiceCtrBits2 p < 31;
}.

Lemma counterThreshold2_Ok bits :
  1 ≤ bits < 31 → counterThreshold2 bits = Ok (u32 (2 ^ (2 * (bits - 1)) - 1)).
Proof.
  intros Hb. unfold counterThreshold2. rewrite (u32_id (bits - 1)) by (unfold is_u32; lia).
  rewrite u32_id by (unfold is_u32; lia). rewrite shl64_in by lia. cbn [mbind res_bind].
  rewrite Z.shiftl_1_l, u64_id; [done|]. unfold is_u64.
  assert (0 < 2 ^ (2 * (bits - 1))) by (apply Z.pow_pos_nonneg; lia).
  assert (2 ^ (2 * (bits - 1)) < 2 ^ 64) by (apply Z.pow_lt_mono_r; lia). lia.
Qed.

(** A counter of at most [2 * (bits - 1)] bits never exceeds that threshold. *)
Lemma counterThreshold2_max bits bits2 :
  1 ≤ bits < 31 → 1 ≤ bits2 ≤ 2 * (bits - 1) →
  SatCounter.maxOf bits2 ≤ u32 (2 ^ (2 * (bits - 1)) - 1).
Proof.
  intros Hb Hb2. pose proof (SatCounter.maxOf_le bits2 ltac:(lia)).
  assert (2 ^ bits2 ≤ 2 ^ (2 * (bits - 1))) by (apply Z.pow_le_mono_r; lia).
  destruct (Z.le_gt_cases (2 * (bits - 1)) 32).
  - assert (2 ^ (2 * (bits - 1)) ≤ 2 ^ 32) by (apply Z.pow_le_mono_r; lia).
    assert (0 < 2 ^ (2 * (bits - 1))) by (apply Z.pow_pos_nonneg; lia).
    rewrite u32_id by (unfold is_u32; lia). lia.
  - pose proof (SatCounter.maxOf_range bits2). unfold u32.
    replace (2 ^ (2 * (bits - 1))) with (2 ^ (2 * (bits - 1) - 32) * 2 ^ 32)
      by (rewrite <- Z.pow_add_r by lia; f_equal; lia).
    replace (2 ^ (2 * (bits - 1) - 32) * 2 ^ 32 - 1)
      with (2 ^ 32 - 1 + (2 ^ (2 * (bits - 1) - 32) - 1) * 2 ^ 32) by lia.
    rewrite Z.mod_add by lia. rewrite Z.mod_small by lia. lia.
Qed.

Lemma tri_create_wf indet p :
  params_ok p → returns (create indet p) (λ s, dp_ok (p_numThreads p) (s, []) ∧
    choiceCtrBits2 (cfg s) = p_choiceCtrBits2 p ∧ histories s = heap_empty ∧
    choiceThreshold2 (cfg s) = u32 (2 ^ (2 * (p_choiceCtrBits p - 1)) - 1)).
Proof.
  intros [Hnt Hsh [Hl1 Hl2] [Ht1 Ht2] [Hm1 Hm2] [Hu1 Hu2] [Hg1 Hg2] [Hc1 Hc2] Hcc Hlb Hlb2 Hgb Hcb Hcb2].
  destruct (pow2_facts _ Hl1 Hl2) as (kl & Hkl & El & Ecl & Eml & Hl3 & Eul).
  destruct (pow2_facts _ Hm1 Hm2) as (km & Hkm & Em & Ecm & Emm & Hm3 & Eum).
  destruct (pow2_facts _ Hg1 Hg2) as (kg & Hkg & Eg & Ecg & Emg & Hg3 & Eug).
  destruct (pow2_facts _ Hc1 Hc2) as (kc & Hkc & Ec & Ecc & Emc & Hc3 & Euc).
  unfold create. rewrite Ecl, Ecm, Ecg, Ecc. cbn [mbind res_bind].
  rewrite Hl2, Hm2, Hg2, Ht2, Hu2, Hc2, !SatCounter.table_val by lia. cbn [guard_ mbind res_bind].
  rewrite Eml. cbn [mbind res_bind]. rewrite Emm. cbn [mbind res_bind]. rewrite Eug, Euc, Eul, Eum.
  set (kh := if kc <? kg then kg else kc).
  assert (0 ≤ kh < 32 ∧ kg ≤ kh ∧ kc ≤ kh ∧ (kh = kg ∨ kh = kc)) as (Hkh & Hle1 & Hle2 & Hor)
    by (subst kh; destruct (Z.ltb_spec kc kg); lia).
  assert (2 ^ kg ≤ 2 ^ kh ∧ 2 ^ kc ≤ 2 ^ kh) as [Hp1 Hp2] by (split; apply Z.pow_le_mono_r; lia).
  assert (2 ^ kh ≤ 2 ^ 31) by (apply Z.pow_le_mono_r; lia).
  rewrite mask_ones by lia. cbn [mbind res_bind].
  rewrite (u32_id (2 ^ kh - 1)) by (unfold is_u32; lia).
  rewrite (u32_id (p_choicePredictorSize2 p - 1)) by (unfold is_u32; lia).
  rewrite (TournamentBP.guard_true (negb (_ <? p_globalPredictorSize p - 1))) by (apply negb_true_iff, Z.ltb_ge; lia).
  rewrite (TournamentBP.guard_true (negb (_ <? p_choicePredictorSize p - 1))) by (apply negb_true_iff, Z.ltb_ge; lia).
  rewrite (TournamentBP.guard_true (negb (_ <? p_choicePredictorSize2 p - 1))) by (apply negb_true_iff, Z.ltb_ge; lia).
  rewrite !counterThreshold_Ok, counterThreshold2_Ok by lia. cbn [mbind res_bind returns].
  split_and!; [|done..]. split; [|exact (@heap_tracks_empty BPHistory)].
  split; cbn; try done; try (apply SatCounter.table_fresh_ok; lia); try lia.
  - apply HistRegs.hist_create_wf; try done; try lia; [by apply isPowerOf2_iff|exists kl; rewrite El; split; lia|].
    exists kh. split; lia.
  - apply HistRegs.hist_create_wf; try done; try lia; [by apply isPowerOf2_iff|exists km; rewrite Em; split; lia|].
    exists 0. split; lia.
Qed.

(** ** The two-way tournament inside *)

(** Forgetting the second local predictor and the second choice table. *)
Definition forget_hist (h : BPHistory) : TournamentBP.BPHistory :=
  TournamentBP.mkHist (globalHistory h) (localHistoryIdx h) (localHistory h)
    (localPredTaken h) (globalPredTaken h) (globalUsed h).

Definition forget_heap (hs : heap BPHistory) : heap TournamentBP.BPHistory :=
  Heap (forget_hist <$> cells hs) (next hs).

Definition forget (s : t) : TournamentBP.t :=
  let c := cfg s in
  TournamentBP.mk
    (TournamentBP.mkCfg (localPredictorSize c) (localCtrBits c) (localHistoryBits c)
       (globalPredictorSize c) (globalCtrBits c) (globalHistoryBits c) (globalHistoryMask c)
       (choiceHistoryMask c) (choicePredictorSize c) (choiceCtrBits c)
       (localThreshold c) (globalThreshold c) (choiceThreshold c))
    (regs s) (localCtrs s) (globalCtrs s) (choiceCtrs s) (forget_heap (histories s))
    (atLeastOneCorrectExpertOnMispredict s).

Definition forget_params (p : Params) : TournamentBP.Params :=
  TournamentBP.mkParams (p_numThreads p) (p_instShiftAmt p) (p_localPredictorSize p)
    (p_localCtrBits p) (p_localHistoryTableSize p) (p_globalPredictorSize p) (p_globalCtrBits p)
    (p_choicePredictorSize p) (p_choiceCtrBits p).

(** The second local predictor can not be selected, and never was. *)
Record inert (s : t) : Prop := {
  in_max : SatCounter.maxOf (choiceCtrBits2 (cfg s)) ≤ choiceThreshold2 (cfg s);
  in_hist : heap_all (λ h, local2Used h = false) (histories s);
}.

Lemma forget_heap_deref hs p h :
  heap_deref hs p = Ok h → heap_deref (forget_heap hs) p = Ok (forget_hist h).
Proof.
  destruct p as [a|]; [|done]. cbn. rewrite lookup_fmap. destruct (cells hs !! a); [|done].
  cbn. congruence.
Qed.

Lemma forget_heap_delete hs p hs' :
  heap_delete hs p = Ok hs' → heap_delete (forget_heap hs) p = Ok (forget_heap hs').
Proof.
  unfold heap_delete. destruct p as [a|]; [|done]. cbn. rewrite lookup_fmap.
  destruct (cells hs !! a); [|done]. cbn. intros [= <-]. unfold forget_heap. cbn. by rewrite fmap_delete.
Qed.

Lemma forget_stats s taken h :
  local2Used h = false →
  TournamentBP.updateAdditionalStats (forget s) taken (forget_hist h) =
    forget (updateAdditionalStats s taken h).
Proof.
  intros E. unfold TournamentBP.updateAdditionalStats, updateAdditionalStats. cbn. rewrite E. cbn.
  rewrite orb_false_r. by destruct (_ && _).
Qed.

Section forget.
Context (nt : Z) (s : t) (H : wf nt s) (Hin : inert s).

(** The projections of [forget s]. *)
Ltac forget_cbn :=
  cbn [TournamentBP.regs TournamentBP.cfg TournamentBP.localCtrs TournamentBP.globalCtrs
    TournamentBP.choiceCtrs TournamentBP.localThreshold TournamentBP.globalThreshold
    TournamentBP.choiceThreshold TournamentBP.globalHistoryMask TournamentBP.choiceHistoryMask
    TournamentBP.localPredictorSize TournamentBP.histories TournamentBP.localHistory
    TournamentBP.globalHistory TournamentBP.localHistoryIdx forget_hist forget
    mbind res_bind heap_new].

Lemma forget_uncondBranch tid pc p s' :
  uncondBranch s tid pc = Ok (p, s') →
  TournamentBP.uncondBranch (forget s) tid pc = Ok (p, forget s') ∧ inert s'.
Proof.
  unfold uncondBranch, TournamentBP.uncondBranch. intros E. bind_inv E. cbn [heap_new] in E. bind_inv E.
  injection E as <- <-. forget_cbn. rewrite E0. forget_cbn. rewrite E1. forget_cbn. split.
  - unfold forget, forget_heap; cbn. by rewrite fmap_insert.
  - destruct Hin. split; [done|]. by apply (heap_all_new _ (histories s)).
Qed.

Lemma forget_lookup tid pc b p s' :
  lookup s tid pc = Ok (b, p, s') → TournamentBP.lookup (forget s) tid pc = Ok (b, p, forget s') ∧ inert s'.
Proof.
  unfold lookup, TournamentBP.lookup. intros E. bind_inv E. cbn [heap_new] in E. bind_inv E.
  apply (predicts_saturated _ _ _ _ _ _ (wf_choice2 _ _ H) (in_max _ Hin)) in E9 as ->.
  injection E as <- <- <-. forget_cbn.
  rewrite E0. forget_cbn. rewrite E1. forget_cbn. rewrite E2. forget_cbn. rewrite E6. forget_cbn.
  rewrite E7. forget_cbn. rewrite E8. forget_cbn. rewrite E10. forget_cbn. rewrite E11. forget_cbn. split.
  - unfold forget, forget_heap; cbn. by rewrite fmap_insert.
  - destruct Hin. split; [done|]. by apply (heap_all_new _ (histories s)).
Qed.

Lemma forget_btbUpdate tid pc p s' :
  btbUpdate s tid pc p = Ok s' → TournamentBP.btbUpdate (forget s) tid pc p = Ok (forget s') ∧ inert s'.
Proof.
  unfold btbUpdate, TournamentBP.btbUpdate. intros E. bind_inv E. injection E as <-. forget_cbn.
  rewrite E1. split; [done|]. by destruct Hin.
Qed.

Lemma forget_update tid pc taken p squashed s' :
  update s tid pc taken p squashed = Ok s' →
  TournamentBP.update (forget s) tid pc taken p squashed = Ok (forget s') ∧ inert s'.
Proof.
  unfold update, TournamentBP.update. intros E. bind_inv E.
  assert (local2Used a0 = false) as Hu.
  { destruct p as [a'|]; [|done]. cbn in E1. destruct (cells (histories s) !! a') eqn:Ea; [|done].
    injection E1 as <-. by apply (in_hist _ Hin _ _ Ea). }
  rewrite E0. forget_cbn. rewrite (forget_heap_deref _ _ _ E1). forget_cbn. rewrite E2. forget_cbn.
  rewrite E3. forget_cbn. rewrite (forget_stats s taken a0 Hu).
  assert (inert (updateAdditionalStats s taken a0)) as Hin1
    by (destruct (tri_stats_eq s taken a0) as [n ->]; by destruct Hin).
  set (s1 := updateAdditionalStats s taken a0) in *. clearbody s1.
  destruct squashed; bind_inv E; injection E as <-; forget_cbn.
  - rewrite E6. forget_cbn. split; [done|by destruct Hin1].
  - rewrite E6. forget_cbn.
    match goal with |- context [TournamentBP.train_choice ?a ?b ?c ?d] =>
      change (TournamentBP.train_choice a b c d) with (train_choice s1 taken a0 d) end.
    rewrite E8. forget_cbn. rewrite E10. forget_cbn. rewrite E11. forget_cbn.
    rewrite (forget_heap_delete _ _ _ E13). forget_cbn. split; [done|]. destruct Hin1. split; [done|].
    unfold heap_delete in E13. bind_inv E13. destruct p; [|done]. injection E13 as <-. by apply heap_all_delete.
Qed.

Lemma forget_squash tid p s' :
  squash s tid p = Ok s' → TournamentBP.squash (forget s) tid p = Ok (forget s') ∧ inert s'.
Proof.
  unfold squash, TournamentBP.squash. intros E. bind_inv E. injection E as <-.
  forget_cbn. rewrite (forget_heap_deref _ _ _ E0). forget_cbn. rewrite E1. forget_cbn.
  rewrite (forget_heap_delete _ _ _ E3). forget_cbn. split; [done|]. destruct Hin. split; [done|].
  unfold heap_delete in E3. bind_inv E3. destruct p; [|done]. injection E3 as <-. by apply heap_all_delete.
Qed.

End forget.

(** One call simulates one call. *)
Lemma forget_step nt x y :
  dp_step nt x y → wf nt x.1 → inert x.1 →
  dp_step nt (forget x.1, x.2) (forget y.1, y.2) ∧ inert y.1.
Proof.
  destruct 1 as [s s' p l tid pc Ht E|s s' b p l tid pc Ht E|s s' p l tid pc Ht Hp E
    |s s' p l l' tid pc taken Ht Hl E|s s' p l tid pc taken Ht Hp E|s s' p l l' tid Ht Hl E];
    cbn [fst snd]; intros Hw Hin; cbn [dp_uncondBranch dp_lookup dp_btbUpdate dp_update dp_squash
      tritournament_predictor] in E.
  - apply forget_uncondBranch in E as [E Hi]; [|done]. split; [by eapply step_uncondBranch|done].
  - apply (forget_lookup nt) in E as [E Hi]; [|done..]. split; [by eapply step_lookup|done].
  - apply forget_btbUpdate in E as [E Hi]; [|done]. split; [by eapply step_btbUpdate|done].
  - apply forget_update in E as [E Hi]; [|done]. split; [by eapply step_update_commit|done].
  - apply forget_update in E as [E Hi]; [|done]. split; [by eapply step_update_squash|done].
  - apply forget_squash in E as [E Hi]; [|done]. split; [by eapply step_squash|done].
Qed.

Lemma forget_steps nt x y :
  rtc (dp_step nt) x y → dp_ok nt x → inert x.1 →
  rtc (dp_step nt) (forget x.1, x.2) (forget y.1, y.2) ∧ inert y.1.
Proof.
  induction 1 as [x|x y z Hxy Hyz IH]; intros Hok Hin; [by split; [apply rtc_refl|]|].
  destruct (forget_step nt x y Hxy) as [Hst Hin1]; [apply Hok|done|].
  destruct IH as [Hr Hin2]; [by eapply dp_step_ok|done|]. split; [|done]. by eapply rtc_l.
Qed.

Lemma forget_create indet p s :
  create indet p = Ok s → TournamentBP.create indet (forget_params p) = Ok (forget s).
Proof.
  unfold create, TournamentBP.create. intros E. bind_inv E. injection E as <-.
  cbn [TournamentBP.p_numThreads TournamentBP.p_instShiftAmt TournamentBP.p_localPredictorSize
    TournamentBP.p_localCtrBits TournamentBP.p_localHistoryTableSize TournamentBP.p_globalPredictorSize
    TournamentBP.p_globalCtrBits TournamentBP.p_choicePredictorSize TournamentBP.p_choiceCtrBits forget_params].
  repeat match goal with E : ?m = Ok _ |- context [?m ≫= _] => rewrite E; cbn [mbind res_bind] end.
  unfold forget, forget_heap. cbn. by rewrite fmap_empty.
Qed.

(** ** Observational equivalence *)
Record equiv (s s' : t) : Prop := {
  eq_cfg : cfg s' = cfg s;
  eq_regs : HistRegs.equiv (regs s) (regs s');
  eq_regs2 : HistRegs.equiv (regs2 s) (regs2 s');
  eq_local : localCtrs s' = localCtrs s;
  eq_local2 : localCtrs2 s' = localCtrs2 s;
  eq_global : globalCtrs s' = globalCtrs s;
  eq_choice : choiceCtrs s' = choiceCtrs s;
  eq_choice2 : choiceCtrs2 s' = choiceCtrs2 s;
  eq_objects : cells (histories s') = cells (histories s);
}.

#[global] Instance tritournament_equiv : Equivalence equiv.
Proof.
  split.
  - intros s. by split.
  - intros s s' []. by split.
  - intros a b c [] []. split; try congruence; [by transitivity (regs b)|by transitivity (regs2 b)].
Qed.

(** The direction [lookup] answers. *)
Definition answer (s : t) (tid pc : Z) : res bool := '(b, _, _) ← lookup s tid pc; Ok b.

Lemma tri_answer_equiv nt s s' tid pc :
  wf nt s → wf nt s' → equiv s s' → 0 ≤ tid < nt → answer s' tid pc = answer s tid pc.
Proof.
  intros H H' [Ec [(E1 & E2 & E3 & E4) Eg El] [(F1 & F2 & F3 & F4) Fg Fl] E5 E6 E7 E8 E9 _] Ht.
  destruct (tri_exists nt s H tid pc Ht) as (g & x & x2 & Hg & Hx & Hx2).
  destruct (tri_lookup_Ok nt s H tid pc g x x2 Ht Hg Hx Hx2)
    as (lp & lp2 & gl & ch & ch2 & P1 & P2 & P3 & P4 & P5 & EL).
  assert (HistRegs.slot (regs s') pc = HistRegs.slot (regs s) pc) as Es
    by (unfold HistRegs.slot; by rewrite E1, E2).
  assert (HistRegs.slot (regs2 s') pc = HistRegs.slot (regs2 s) pc) as Es2
    by (unfold HistRegs.slot; by rewrite F1, F2).
  destruct (Forall2_lookup_l _ _ _ _ _ El Hx) as (x' & Hx' & Exx). rewrite <- Es in Hx'.
  destruct (Forall2_lookup_l _ _ _ _ _ Fl Hx2) as (x2' & Hx2' & Exx2). rewrite <- Es2 in Hx2'.
  rewrite <- Eg in Hg.
  destruct (tri_lookup_Ok nt s' H' tid pc g x' x2' Ht Hg Hx' Hx2')
    as (lp' & lp2' & gl' & ch' & ch2' & Q1 & Q2 & Q3 & Q4 & Q5 & EL').
  unfold answer. rewrite EL, EL'. cbn [heap_new mbind res_bind]. unfold HistRegs.same_local in Exx, Exx2.
  rewrite Ec, E3, E5, <- Exx, P1 in Q1. rewrite Ec, F3, E6, <- Exx2, P2 in Q2. rewrite Ec, E7, P3 in Q3.
  rewrite Ec, E8, P4 in Q4. rewrite Ec, E9, P5 in Q5. by simplify_eq.
Qed.

Section recover.
Context (nt : Z) (s : t) (l : list ptr) (tid pc : Z).
Context (H : wf nt s) (Htr : heap_tracks (histories s) l) (Ht : 0 ≤ tid < nt).

(** [squash] right after the prediction, whatever happened to the three
    registers in between. *)
Lemma tri_squash_undoes g x x2 (lp lp2 gl ch ch2 : bool) g1 x1 y1 :
  HistRegs.globalHistory (regs s) !! Z.to_nat tid = Some g →
  HistRegs.localHistoryTable (regs s) !! Z.to_nat (HistRegs.slot (regs s) pc) = Some x →
  HistRegs.localHistoryTable (regs2 s) !! Z.to_nat (HistRegs.slot (regs2 s) pc) = Some x2 →
  0 ≤ g1 ≤ HistRegs.historyRegisterMask (regs s) →
  let i := HistRegs.slot (regs s) pc in
  let i2 := HistRegs.slot (regs2 s) pc in
  let '(p, hs) := heap_new (histories s)
    (mkHist g i (Z.land x (HistRegs.localPredictorMask (regs s))) i2
       (Z.land x2 (HistRegs.localPredictorMask (regs2 s))) lp lp2 gl ch ch2) in
  returns (squash (with_histories hs (with_regs (HistRegs.set2 (regs s) tid g1 i x1)
    (HistRegs.with_local (<[Z.to_nat i2 := y1]> (HistRegs.localHistoryTable (regs2 s))) (regs2 s)) s)) tid p)
    (equiv s).
Proof.
  intros Hg Hx Hx2 Hg1. pose proof (wf_regs2 _ _ H) as Hr2. cbn [heap_new]. unfold squash.
  cbn [histories with_histories heap_deref cells]. rewrite lookup_insert_eq. cbn [mbind res_bind]. apply returns_bind.
  eapply returns_mono; [by apply (HistRegs.restore_undoes nt (regs s) tid pc g x (wf_regs _ _ H) Ht Hg Hx)|].
  intros r Hr. cbn [localHistoryIdx2 localHistory2 regs2 with_histories with_regs].
  rewrite (HistRegs.slot_valid 0 (regs2 s) pc Hr2). cbn [negb HistRegs.localHistoryTable HistRegs.with_local].
  pose proof (HistRegs.slot_range 0 _ Hr2 pc).
  rewrite vset_in by (rewrite vlen_insert, (HistRegs.wf_table _ _ Hr2); lia). cbn [mbind res_bind].
  unfold heap_delete. cbn. rewrite lookup_insert_eq. cbn. split; try done; cbn.
  - exact (HistRegs.set_local_id_equiv (regs2 s) _ x2 y1 _ Hx2 (HistRegs.land_idem_mask _ _)).
  - rewrite delete_insert_id; [done|]. by eapply heap_tracks_fresh.
Qed.

Definition recovered (s2 : t) : Prop :=
  equiv s s2 ∧ wf nt s2 ∧ ∀ tid' pc', 0 ≤ tid' < nt → answer s2 tid' pc' = answer s tid' pc'.

Lemma tri_recovered_intro s1 p :
  wf nt s1 → heap_tracks (histories s1) (p :: l) → returns (squash s1 tid p) (equiv s) →
  returns (squash s1 tid p) recovered.
Proof.
  intros H1 Htr1 He. pose proof (tri_squash_ok nt s1 H1 p l tid Ht Htr1) as Hw.
  eapply returns_mono; [apply (returns_and _ _ _ He Hw)|]. intros s2 (Heq & Hw2 & _).
  split_and!; [done..|]. intros. by apply (tri_answer_equiv nt).
Qed.

End recover.

(** ** Theorems *)

(** C37: the second choice threshold is [2^(2*(choiceCtrBits-1)) - 1]. When the
    counters of the second choice table have at most [2*(choiceCtrBits-1)] bits,
    as with the default two and two, they never exceed it: the second local
    predictor is never used, and the three-way tournament is the two-way one.
    Every run of it, with the second predictor forgotten, is a run of
    [TournamentBP] with the same parameters, and the answers are the same. *)
Theorem tritournament_is_tournament (indet : Z) (p : Params) (s0 s : t) (l : list ptr) :
  params_ok p → p_choiceCtrBits2 p ≤ 2 * (p_choiceCtrBits p - 1) →
  create indet p = Ok s0 → rtc (dp_step (p_numThreads p)) (s0, []) (s, l) →
  TournamentBP.create indet (forget_params p) = Ok (forget s0) ∧
  rtc (dp_step (p_numThreads p)) (forget s0, []) (forget s, l) ∧
  ∀ tid pc, 0 ≤ tid < p_numThreads p →
    answer s tid pc = TournamentBP.answer (forget s) tid pc.
Proof.
  intros Hp Hb Hc Hs. pose proof (tri_create_wf indet p Hp) as Hw. rewrite Hc in Hw.
  destruct Hw as (Hok & Eb & Eh & Et).
  assert (inert s0) as Hin.
  { split.
    - rewrite Eb, Et. apply counterThreshold2_max; [apply Hp|]. split; [apply Hp|done].
    - rewrite Eh. intros a h. cbn. by rewrite lookup_empty. }
  destruct (forget_steps _ _ _ Hs Hok Hin) as [Hr Hin'].
  apply dp_steps_ok in Hs as [Hw Htr]; [|done]. cbn in *.
  split_and!; [by apply forget_create|exact Hr|]. intros tid pc Ht.
  pose proof (tri_lookup_ok _ s Hw l tid pc Ht Htr) as Hl. unfold answer, TournamentBP.answer.
  destruct (lookup s tid pc) as [[[b q] s']|] eqn:E; [|done].
  by destruct (forget_lookup _ s Hw Hin' tid pc b q s' E) as [-> _].
Qed.

(** The three-way tournament undoes its speculation: after [lookup], and
    also when [btbUpdate] ran in between, [squash] gives back the tables, the
    global history and the history objects exactly, both local histories up to
    unread bits, and so every answer. *)
Theorem tritournament_squash_recovers (nt : Z) (s : t) (l : list ptr) (tid pc : Z) :
  wf nt s → heap_tracks (histories s) l → 0 ≤ tid < nt →
  returns (lookup s tid pc) (λ r,
    returns (squash r.2 tid r.1.2) (recovered nt s) ∧
    returns (btbUpdate r.2 tid pc r.1.2) (λ s1, returns (squash s1 tid r.1.2) (recovered nt s))).
Proof.
  intros H Htr Ht. pose proof (wf_regs _ _ H) as Hr. pose proof (wf_regs2 _ _ H) as Hr2.
  pose proof (tri_lookup_ok nt s H l tid pc Ht Htr) as Hlk.
  destruct (tri_exists nt s H tid pc Ht) as (g & x & x2 & Hg & Hx & Hx2).
  destruct (tri_lookup_Ok nt s H tid pc g x x2 Ht Hg Hx Hx2)
    as (lp & lp2 & gl & ch & ch2 & _ & _ & _ & _ & _ & E).
  rewrite E in *. cbn [heap_new returns fst snd] in *. destruct Hlk as [Hw Htr1].
  pose proof (HistRegs.mask_range nt _ Hr) as [_ Hm]. split.
  - apply (tri_recovered_intro nt s l tid); [done..|].
    apply (tri_squash_undoes nt s l tid pc H Htr Ht g x x2 lp lp2 gl ch ch2); [done..|]. apply land_bound. lia.
  - pose proof (tri_btbUpdate_ok nt _ Hw (Some (next (histories s))) _ tid pc Ht Htr1) as Hb.
    set (b := if ch2 then lp2 else if ch then gl else lp) in *.
    destruct (HistRegs.btbUpdate_set2 nt _ tid pc Hr Ht
      (Z.land (HistRegs.shift_in g b) (HistRegs.historyRegisterMask (regs s)))
      (HistRegs.shift_in x b)) as (g2 & y2 & Hg2 & Eb); [apply land_bound; lia|].
    apply returns_iff in Hb as (s1 & Es1 & Hw2 & Htr2). rewrite Es1. cbn [returns].
    apply (tri_recovered_intro nt s l tid); [done..|].
    unfold btbUpdate in Es1. bind_inv Es1. injection Es1 as <-.
    cbn [regs regs2 with_histories speculated with_regs] in *. rewrite Eb in E1. injection E1 as <-.
    apply vset_Ok in E3 as [_ ->]. unfold calcLocHistIdx2 in E0. cbn [regs2 with_histories speculated with_regs] in E0.
    rewrite (HistRegs.calcLocHistIdx_Ok 0) in E0; [|by apply HistRegs.keeps_set_local]. injection E0 as <-.
    cbn [HistRegs.localHistoryTable HistRegs.with_local HistRegs.localPredictorMask] in *.
    change (HistRegs.slot (HistRegs.with_local _ _) pc) with (HistRegs.slot (regs2 s) pc) in *.
    rewrite list_insert_insert_eq in *.
    by apply (tri_squash_undoes nt s l tid pc H Htr Ht g x x2 lp lp2 gl ch ch2).
Qed.

(** ** Witnesses *)

(** Two threads, small tables and the default two-bit counters. *)
Definition params8 : Params := mkParams 2 2 4 2 4 4 2 4 8 2 8 2 8 2.

Definition tritournament8 : t :=
  ltac:(let r := eval vm_compute in (create 0 params8) in match r with Ok ?s => exact s end).

Lemma tri_params8_ok : params_ok params8.
Proof. split; cbn; unfold is_u32; try lia; split; (lia || done). Qed.

Lemma tritournament8_ok : wf 2 tritournament8 ∧ heap_tracks (histories tritournament8) [].
Proof.
  pose proof (tri_create_wf 0 params8 tri_params8_ok) as Hc.
  assert (create 0 params8 = Ok tritournament8) as E by reflexivity.
  rewrite E in Hc. by destruct Hc as ((? & ?) & _).
Qed.

(** A branch predicted and committed, and a second one in flight. *)
Definition tritournament8_run : t * list ptr :=
  ltac:(let r := eval vm_compute in
          (dp_run [CLookup 1 64; CCommit 0 1 64 true; CLookup 1 64] (tritournament8, [])) in
        match r with Ok ?s => exact s end).

Lemma tritournament_is_tournament_witness :
  p_choiceCtrBits2 params8 ≤ 2 * (p_choiceCtrBits params8 - 1) ∧
  answer tritournament8_run.1 0 64 = TournamentBP.answer (forget tritournament8_run.1) 0 64.
Proof.
  split; [cbn; lia|].
  apply (tritournament_is_tournament 0 params8 tritournament8 tritournament8_run.1
    tritournament8_run.2 tri_params8_ok).
  - cbn. lia.
  - reflexivity.
  - apply (dp_run_steps 2 [CLookup 1 64; CCommit 0 1 64 true; CLookup 1 64]); vm_compute; reflexivity.
  - cbn. lia.
Defined.

Lemma tritournament_squash_recovers_witness :
  wf 2 tritournament8 ∧
  returns (lookup tritournament8 1 64) (λ r, returns (squash r.2 1 r.1.2) (recovered 2 tritournament8)).
Proof.
  destruct tritournament8_ok as [Hw Htr]. split; [exact Hw|].
  eapply returns_mono; [apply (tritournament_squash_recovers 2 tritournament8 [] 1 64 Hw Htr); lia|].
  intros r [Hr _]. exact Hr.
Defined.

(** A second choice table smaller than the first, which the constructor accepts. *)
Definition params_small2 : Params := mkParams 1 2 4 2 4 4 1 4 8 2 8 2 4 2.

Definition small2 : t :=
  ltac:(let r := eval vm_compute in (create 0 params_small2) in match r with Ok ?s => exact s end).

Definition small2_script : list call :=
  [CLookup 0 64; CCommit 0 0 64 true; CUncond 0 0; CUncond 0 0; CUncond 0 0; CLookup 0 64].

Definition small2_end : t * list ptr :=
  ltac:(let r := eval vm_compute in (dp_run small2_script (small2, [])) in
        match r with Ok ?s => exact s end).

(** [update] indexes the second choice table with the mask of the first. A
    second table of four entries beside a first one of eight passes the
    constructor's checks; after one taken branch and three unconditional ones,
    the commit of a branch on which the experts disagree writes outside it. *)
Theorem tritournament_choice2_out_of_range :
  create 0 params_small2 = Ok small2 ∧
  ∃ s p l, rtc (dp_step 1) (small2, []) (s, p :: l) ∧ update s 0 64 true p false = Err OutOfRange.
Proof.
  split; [reflexivity|].
  exists small2_end.1, (Some 5%positive), [Some 4%positive; Some 3%positive; Some 2%positive]. split.
  - apply (dp_run_steps 1 small2_script); vm_compute; reflexivity.
  - vm_compute. reflexivity.
Qed.

End TriTournamentBP.
