(* ===== verification/GTriTournament.v ===== *)
(** * The three-way tournament with gshare ([cpu/pred/gtritournament.hh], [gtritournament.cc])

    The tournament predictor with a gshare predictor ([globalCtrs2], read under a
    history register of its own) and a second choice table, which decides between
    the gshare predictor and the verdict of the ordinary tournament.  [regs] holds
    the members [TournamentBP] has too; the second history registers are
    [globalHistory2]. *)

From S2P Require Import Prelude IntMath SatCounter Predictor HistRegs Tournament TriTournament.

Module GTriTournamentBP.

Record BPHistory := mkHist {
  h_globalHistory : Z;
  h_globalHistory2 : Z;
  localHistoryIdx : Z;
  localHistory : Z;
  localPredTaken : bool;
  globalPredTaken : bool;
  globalUsed : bool;
  globalPredTaken2 : bool;
  globalUsed2 : bool;
}.

Record Params := mkParams {
  p_numThreads : Z;
  p_instShiftAmt : Z;
  p_localPredictorSize : Z;
  p_localCtrBits : Z;
  p_localHistoryTableSize : Z;
  p_globalPredictorSize : Z;
  p_globalCtrBits : Z;
  p_globalPredictorSize2 : Z;
  p_globalCtrBits2 : Z;
  p_choicePredictorSize : Z;
  p_choiceCtrBits : Z;
  p_choicePredictorSize2 : Z;
  p_choiceCtrBits2 : Z;
}.

Record Cfg := mkCfg {
  localPredictorSize : Z;
  localCtrBits : Z;
  localHistoryBits : Z;
  globalPredictorSize : Z;
  globalPredictorSize2 : Z;
  globalCtrBits : Z;
  globalCtrBits2 : Z;
  globalHistoryBits : Z;
  globalHistoryBits2 : Z;
  globalHistoryMask : Z;
  globalHistoryMask2 : Z;
  choiceHistoryMask : Z;
  choiceHistoryMask2 : Z;
  historyRegisterMask2 : Z;
  choicePredictorSize : Z;
  choicePredictorSize2 : Z;
  choiceCtrBits : Z;
  choiceCtrBits2 : Z;
  localThreshold : Z;
  globalThreshold : Z;
  globalThreshold2 : Z;
  choiceThreshold : Z;
  choiceThreshold2 : Z;
}.

Record t := mk {
  cfg : Cfg;
  regs : HistRegs.t;
  globalHistory2 : list Z;
  localCtrs : list SatCounter.t;
  globalCtrs : list SatCounter.t;
  globalCtrs2 : list SatCounter.t;
  choiceCtrs : list SatCounter.t;
  choiceCtrs2 : list SatCounter.t;
  histories : heap BPHistory;
  atLeastOneCorrectExpertOnMispredict : Z;
}.

Definition with_regs (r : HistRegs.t) (g2 : list Z) (s : t) : t :=
  mk (cfg s) r g2 (localCtrs s) (globalCtrs s) (globalCtrs2 s) (choiceCtrs s) (choiceCtrs2 s)
     (histories s) (atLeastOneCorrectExpertOnMispredict s).
Definition with_ctrs (l g g2 c c2 : list SatCounter.t) (s : t) : t :=
  mk (cfg s) (regs s) (globalHistory2 s) l g g2 c c2 (histories s) (atLeastOneCorrectExpertOnMispredict s).
Definition with_histories (h : heap BPHistory) (s : t) : t :=
  mk (cfg s) (regs s) (globalHistory2 s) (localCtrs s) (globalCtrs s) (globalCtrs2 s) (choiceCtrs s)
     (choiceCtrs2 s) h (atLeastOneCorrectExpertOnMispredict s).
Definition with_stat (n : Z) (s : t) : t :=
  mk (cfg s) (regs s) (globalHistory2 s) (localCtrs s) (globalCtrs s) (globalCtrs2 s) (choiceCtrs s)
     (choiceCtrs2 s) (histories s) n.

(** The nested conditional that sizes both history registers. *)
Definition historyBits (g c c2 : Z) : Z :=
  if c <? g then (if c2 <? g then g else c2) else (if c2 <? g then g else c).

Definition create (indet : Z) (p : Params) : res t :=
  localHistoryBits ← ceilLog2 (p_localPredictorSize p);
  g ← ceilLog2 (p_globalPredictorSize p);
  g2 ← ceilLog2 (p_globalPredictorSize2 p);
  c ← ceilLog2 (p_choicePredictorSize p);
  c2 ← ceilLog2 (p_choicePredictorSize2 p);
  let globalHistoryBits := historyBits g c c2 in
  let globalHistoryBits2 := historyBits g2 c c2 in
  _ ← guard_ (isPowerOf2 (p_localPredictorSize p)) (Fatal "Invalid local predictor size!");
  _ ← guard_ (isPowerOf2 (p_globalPredictorSize p) && isPowerOf2 (p_globalPredictorSize p))
        (Fatal "Invalid global predictor size!");
  localCtrs ← SatCounter.table indet (p_localPredictorSize p) (p_localCtrBits p);
  lmask ← mask localHistoryBits;
  _ ← guard_ (isPowerOf2 (p_localHistoryTableSize p)) (Fatal "Invalid local history table size!");
  globalCtrs ← SatCounter.table indet (p_globalPredictorSize p) (p_globalCtrBits p);
  globalCtrs2 ← SatCounter.table indet (p_globalPredictorSize2 p) (p_globalCtrBits2 p);
  let globalHistoryMask := u32 (p_globalPredictorSize p - 1) in
  let globalHistoryMask2 := u32 (p_globalPredictorSize2 p - 1) in
  _ ← guard_ (isPowerOf2 (p_choicePredictorSize p) && isPowerOf2 (p_choicePredictorSize p))
        (Fatal "Invalid choice predictor size!");
  let choiceHistoryMask := u32 (p_choicePredictorSize p - 1) in
  let choiceHistoryMask2 := u32 (p_choicePredictorSize2 p - 1) in
  choiceCtrs ← SatCounter.table indet (p_choicePredictorSize p) (p_choiceCtrBits p);
  choiceCtrs2 ← SatCounter.table indet (p_choicePredictorSize2 p) (p_choiceCtrBits2 p);
  hmask ← mask globalHistoryBits;
  hmask2 ← mask globalHistoryBits2;
  let historyRegisterMask := u32 hmask in
  let historyRegisterMask2 := u32 hmask2 in
  _ ← guard_ (negb (historyRegisterMask <? globalHistoryMask))
        (Fatal "Global predictor too large for global history bits!");
  _ ← guard_ (negb (historyRegisterMask2 <? globalHistoryMask2))
        (Fatal "Global predictor too large for global history bits!");
  _ ← guard_ (negb (historyRegisterMask <? choiceHistoryMask))
        (Fatal "Choice predictor too large for global history bits!");
  _ ← guard_ (negb (historyRegisterMask <? choiceHistoryMask2))
        (Fatal "Choice predictor too large for global history bits!");
  _ ← guard_ (negb (historyRegisterMask2 <? choiceHistoryMask))
        (Fatal "Choice predictor too large for global history bits!");
  _ ← guard_ (negb (historyRegisterMask2 <? choiceHistoryMask2))
        (Fatal "Choice predictor too large for global history bits!");
  localThreshold ← counterThreshold (p_localCtrBits p);
  globalThreshold ← counterThreshold (p_globalCtrBits p);
  globalThreshold2 ← counterThreshold (p_globalCtrBits2 p);
  choiceThreshold ← counterThreshold (p_choiceCtrBits p);
  choiceThreshold2 ← TriTournamentBP.counterThreshold2 (p_choiceCtrBits2 p);
  Ok (mk (mkCfg (p_localPredictorSize p) (p_localCtrBits p) localHistoryBits
            (p_globalPredictorSize p) (p_globalPredictorSize2 p) (p_globalCtrBits p) (p_globalCtrBits2 p)
            globalHistoryBits globalHistoryBits2 globalHistoryMask globalHistoryMask2
            choiceHistoryMask choiceHistoryMask2 historyRegisterMask2
            (p_choicePredictorSize p) (p_choicePredictorSize2 p) (p_choiceCtrBits p) (p_choiceCtrBits2 p)
            localThreshold globalThreshold globalThreshold2 choiceThreshold choiceThreshold2)
         (HistRegs.create (p_instShiftAmt p) (p_localHistoryTableSize p) (u32 lmask)
            historyRegisterMask (p_numThreads p))
         (replicate (Z.to_nat (p_numThreads p)) 0)
         localCtrs globalCtrs globalCtrs2 choiceCtrs choiceCtrs2 heap_empty 0).

Definition updateGlobalHist2Taken (s : t) (tid : Z) : res (list Z) :=
  g ← vget (globalHistory2 s) tid;
  vset (globalHistory2 s) tid (Z.land (HistRegs.shift_in g true) (historyRegisterMask2 (cfg s))).

Definition updateGlobalHist2NotTaken (s : t) (tid : Z) : res (list Z) :=
  g ← vget (globalHistory2 s) tid;
  vset (globalHistory2 s) tid (Z.land (u32 (Z.shiftl g 1)) (historyRegisterMask2 (cfg s))).

Definition btbUpdate (s : t) (tid branch_addr : Z) (bp_history : ptr) : res t :=
  r ← HistRegs.btbUpdate (regs s) tid branch_addr;
  g ← vget (globalHistory2 s) tid;
  l2 ← vset (globalHistory2 s) tid (Z.land g (Z.land (historyRegisterMask2 (cfg s)) (not64 1)));
  Ok (with_regs r l2 s).

(** [((branch_addr >> instShiftAmt) ^ globalHistory2[tid]) & globalHistoryMask2] *)
Definition gshareIdx (s : t) (branch_addr g2 : Z) : res Z :=
  a ← shr64 branch_addr (HistRegs.instShiftAmt (regs s));
  Ok (Z.land (Z.lxor a g2) (globalHistoryMask2 (cfg s))).

Definition lookup (s : t) (tid branch_addr : Z) : res (bool * ptr * t) :=
  let c := cfg s in
  local_history_idx ← HistRegs.calcLocHistIdx (regs s) branch_addr;
  lh ← vget (HistRegs.localHistoryTable (regs s)) local_history_idx;
  let local_predictor_idx := Z.land lh (HistRegs.localPredictorMask (regs s)) in
  local_prediction ← predicts (localCtrs s) local_predictor_idx (localThreshold c);
  g ← vget (HistRegs.globalHistory (regs s)) tid;
  global_prediction ← predicts (globalCtrs s) (Z.land g (globalHistoryMask c)) (globalThreshold c);
  g2 ← vget (globalHistory2 s) tid;
  i2 ← gshareIdx s branch_addr g2;
  global_prediction2 ← predicts (globalCtrs2 s) i2 (globalThreshold2 c);
  choice_prediction ← predicts (choiceCtrs s) (Z.land g (choiceHistoryMask c)) (choiceThreshold c);
  choice_prediction2 ← predicts (choiceCtrs2 s) (Z.land g (choiceHistoryMask2 c)) (choiceThreshold2 c);
  let '(bp_history, hs) :=
    heap_new (histories s)
      (mkHist g g2 local_history_idx local_predictor_idx local_prediction global_prediction
         choice_prediction global_prediction2 choice_prediction2) in
  _ ← assert_ (local_history_idx <? HistRegs.localHistoryTableSize (regs s));
  let taken :=
    if negb choice_prediction2 then
      if choice_prediction : bool then global_prediction else local_prediction
    else global_prediction2 in
  r ← HistRegs.speculate (regs s) tid local_history_idx taken;
  l2 ← (if taken : bool then updateGlobalHist2Taken s tid else updateGlobalHist2NotTaken s tid);
  Ok (taken, bp_history, with_histories hs (with_regs r l2 s)).

Definition uncondBranch (s : t) (tid pc : Z) : res (ptr * t) :=
  g ← vget (HistRegs.globalHistory (regs s)) tid;
  g2 ← vget (globalHistory2 s) tid;
  let '(bp_history, hs) :=
    heap_new (histories s)
      (mkHist g g2 invalidPredictorIndex invalidPredictorIndex true true true true true) in
  r ← HistRegs.updateGlobalHistTaken (regs s) tid;
  l2 ← updateGlobalHist2Taken s tid;
  Ok (bp_history, with_histories hs (with_regs r l2 s)).

Definition updateAdditionalStats (s : t) (taken : bool) (history : BPHistory) : t :=
  let prediction := if globalUsed history then globalPredTaken history else localPredTaken history in
  let prediction := if globalUsed2 history then globalPredTaken2 history else prediction in
  let mispredict := negb (eqb taken prediction) in
  if mispredict &&
     (eqb (localPredTaken history) taken || eqb (globalPredTaken history) taken ||
      eqb (globalPredTaken2 history) taken)
  then with_stat (atLeastOneCorrectExpertOnMispredict s + 1) s
  else s.

Definition train_choice (s : t) (taken : bool) (history : BPHistory) (old_local_pred_valid : bool)
    : res (list SatCounter.t) :=
  if negb (eqb (localPredTaken history) (globalPredTaken history)) && old_local_pred_valid then
    let choice_predictor_idx := Z.land (h_globalHistory history) (choiceHistoryMask (cfg s)) in
    if eqb (localPredTaken history) taken then vmod SatCounter.decrement (choiceCtrs s) choice_predictor_idx
    else if eqb (globalPredTaken history) taken then vmod SatCounter.increment (choiceCtrs s) choice_predictor_idx
    else Ok (choiceCtrs s)
  else Ok (choiceCtrs s).

Definition train_choice2 (s : t) (taken : bool) (history : BPHistory) : res (list SatCounter.t) :=
  if globalUsed history && negb (globalPredTaken2 history) ||
     negb (globalUsed history) && negb (eqb (localPredTaken history) (globalPredTaken2 history)) then
    let choice_predictor_idx2 := Z.land (h_globalHistory2 history) (choiceHistoryMask2 (cfg s)) in
    if eqb (globalPredTaken2 history) taken then vmod SatCounter.increment (choiceCtrs2 s) choice_predictor_idx2
    else if eqb (globalPredTaken history) taken || eqb (localPredTaken history) taken
    then vmod SatCounter.decrement (choiceCtrs2 s) choice_predictor_idx2
    else Ok (choiceCtrs2 s)
  else Ok (choiceCtrs2 s).

Definition update (s : t) (tid branch_addr : Z) (taken : bool) (bp_history : ptr)
    (squashed : bool) : res t :=
  _ ← assert_ (bool_decide (bp_history ≠ None));
  history ← heap_deref (histories s) bp_history;
  local_history_idx ← HistRegs.calcLocHistIdx (regs s) branch_addr;
  _ ← assert_ (local_history_idx <? HistRegs.localHistoryTableSize (regs s));
  let old_local_pred_valid := negb (localHistory history =? invalidPredictorIndex) in
  let s := updateAdditionalStats s taken history in
  if squashed then
    r ← HistRegs.correct (regs s) tid local_history_idx old_local_pred_valid
          (h_globalHistory history) (localHistory history) taken;
    l2 ← vset (globalHistory2 s) tid
           (Z.land (HistRegs.shift_in (h_globalHistory2 history) taken) (historyRegisterMask2 (cfg s)));
    Ok (with_regs r l2 s)
  else
    let old_local_pred_index := Z.land (localHistory history) (HistRegs.localPredictorMask (regs s)) in
    _ ← assert_ (old_local_pred_index <? localPredictorSize (cfg s));
    choice ← train_choice s taken history old_local_pred_valid;
    choice2 ← train_choice2 s taken history;
    let global_predictor_idx := Z.land (h_globalHistory history) (globalHistoryMask (cfg s)) in
    let global_predictor_idx2 := Z.land (h_globalHistory2 history) (globalHistoryMask2 (cfg s)) in
    global ← vmod (SatCounter.train taken) (globalCtrs s) global_predictor_idx;
    global2 ← vmod (SatCounter.train taken) (globalCtrs2 s) global_predictor_idx2;
    local ← (if old_local_pred_valid
             then vmod (SatCounter.train taken) (localCtrs s) old_local_pred_index
             else Ok (localCtrs s));
    hs ← heap_delete (histories s) bp_history;
    Ok (with_histories hs (with_ctrs local global global2 choice choice2 s)).

Definition squash (s : t) (tid : Z) (bp_history : ptr) : res t :=
  history ← heap_deref (histories s) bp_history;
  r ← HistRegs.restore (regs s) tid (h_globalHistory history) (localHistoryIdx history)
        (localHistory history);
  l2 ← vset (globalHistory2 s) tid (h_globalHistory2 history);
  hs ← heap_delete (histories s) bp_history;
  Ok (with_histories hs (with_regs r l2 s)).

Definition getGHR (s : t) (tid : Z) (bp_history : ptr) : res Z :=
  history ← heap_deref (histories s) bp_history; Ok (h_globalHistory history).

#[global] Instance gtritournament_predictor : DirPredictor t := {|
  dp_uncondBranch := uncondBranch;
  dp_lookup := lookup;
  dp_btbUpdate := btbUpdate;
  dp_update := update;
  dp_squash := squash;
  dp_getGHR := getGHR;
|}.

(** ** Invariant *)
Record hist_ok (r : HistRegs.t) (m2 : Z) (h : BPHistory) : Prop := {
  ho_snap : HistRegs.snap_ok r (h_globalHistory h) (localHistoryIdx h) (localHistory h);
  ho_snap2 : 0 ≤ h_globalHistory2 h ≤ m2;
}.

Record wf (nt : Z) (s : t) : Prop := {
  wf_regs : HistRegs.wf nt (regs s);
  wf_threads2 : vlen (globalHistory2 s) = nt;
  wf_global2 : Forall (λ g, 0 ≤ g ≤ historyRegisterMask2 (cfg s)) (globalHistory2 s);
  wf_mask2 : 0 ≤ historyRegisterMask2 (cfg s);
  wf_local : SatCounter.table_ok (localPredictorSize (cfg s))
               (SatCounter.maxOf (localCtrBits (cfg s))) (localCtrs s);
  wf_lsize : HistRegs.localPredictorMask (regs s) = localPredictorSize (cfg s) - 1;
  wf_globalc : SatCounter.table_ok (globalPredictorSize (cfg s))
               (SatCounter.maxOf (globalCtrBits (cfg s))) (globalCtrs s);
  wf_gsize : 0 < globalPredictorSize (cfg s) ∧ globalHistoryMask (cfg s) = globalPredictorSize (cfg s) - 1;
  wf_globalc2 : SatCounter.table_ok (globalPredictorSize2 (cfg s))
               (SatCounter.maxOf (globalCtrBits2 (cfg s))) (globalCtrs2 s);
  wf_gsize2 : 0 < globalPredictorSize2 (cfg s) ∧ globalHistoryMask2 (cfg s) = globalPredictorSize2 (cfg s) - 1;
  wf_choice : SatCounter.table_ok (choicePredictorSize (cfg s))
               (SatCounter.maxOf (choiceCtrBits (cfg s))) (choiceCtrs s);
  wf_csize : 0 < choicePredictorSize (cfg s) ∧ choiceHistoryMask (cfg s) = choicePredictorSize (cfg s) - 1;
  wf_choice2 : SatCounter.table_ok (choicePredictorSize2 (cfg s))
               (SatCounter.maxOf (choiceCtrBits2 (cfg s))) (choiceCtrs2 s);
  wf_csize2 : 0 < choicePredictorSize2 (cfg s) ∧ choiceHistoryMask2 (cfg s) = choicePredictorSize2 (cfg s) - 1;
  wf_hist : heap_all (hist_ok (regs s) (historyRegisterMask2 (cfg s))) (histories s);
}.

Lemma gtri_hist_ok_cfg r r' m h : HistRegs.same_cfg r r' → hist_ok r m h → hist_ok r' m h.
Proof. intros E []. split; [by eapply HistRegs.snap_ok_cfg|done]. Qed.

Lemma gtri_wf_with_regs nt s r tid g2 :
  wf nt s → HistRegs.keeps nt (regs s) r → 0 ≤ g2 ≤ historyRegisterMask2 (cfg s) →
  wf nt (with_regs r (<[Z.to_nat tid := g2]> (globalHistory2 s)) s).
Proof.
  intros [] [Hw Hc] Hg. pose proof Hc as (_ & _ & Em & _). split; cbn; try done.
  - by rewrite vlen_insert.
  - by apply Forall_insert.
  - by rewrite Em.
  - eapply map_Forall_impl; [done|]. intros a h. by apply gtri_hist_ok_cfg.
Qed.

Lemma gtri_wf_with_histories nt s hs :
  wf nt s → heap_all (hist_ok (regs s) (historyRegisterMask2 (cfg s))) hs → wf nt (with_histories hs s).
Proof. intros [] ?. by split. Qed.

Lemma gtri_stats_eq s taken h : ∃ n, updateAdditionalStats s taken h = with_stat n s.
Proof.
  unfold updateAdditionalStats. destruct (_ && _); [by eexists|].
  exists (atLeastOneCorrectExpertOnMispredict s). by destruct s.
Qed.

(** The gshare entry [lookup] reads. *)
Definition gshare_slot (s : t) (pc g2 : Z) : Z :=
  Z.land (Z.lxor (Z.shiftr pc (HistRegs.instShiftAmt (regs s))) g2) (globalHistoryMask2 (cfg s)).

Section wf.
Context (nt : Z) (s : t) (H : wf nt s).

Lemma gtri_local_idx x : 0 ≤ Z.land x (HistRegs.localPredictorMask (regs s)) < localPredictorSize (cfg s).
Proof.
  pose proof (HistRegs.mask_range nt _ (wf_regs _ _ H)) as [? _].
  pose proof (land_bound x (HistRegs.localPredictorMask (regs s))). rewrite (wf_lsize _ _ H) in *. lia.
Qed.

Lemma gtri_global_idx x : 0 ≤ Z.land x (globalHistoryMask (cfg s)) < globalPredictorSize (cfg s).
Proof. destruct (wf_gsize _ _ H) as [? ->]. by apply land_size_bound. Qed.

Lemma gtri_global_idx2 x : 0 ≤ Z.land x (globalHistoryMask2 (cfg s)) < globalPredictorSize2 (cfg s).
Proof. destruct (wf_gsize2 _ _ H) as [? ->]. by apply land_size_bound. Qed.

Lemma gtri_choice_idx x : 0 ≤ Z.land x (choiceHistoryMask (cfg s)) < choicePredictorSize (cfg s).
Proof. destruct (wf_csize _ _ H) as [? ->]. by apply land_size_bound. Qed.

Lemma gtri_choice_idx2 x : 0 ≤ Z.land x (choiceHistoryMask2 (cfg s)) < choicePredictorSize2 (cfg s).
Proof. destruct (wf_csize2 _ _ H) as [? ->]. by apply land_size_bound. Qed.

Lemma gtri_exists tid pc :
  0 ≤ tid < nt → ∃ g g2 x,
  HistRegs.globalHistory (regs s) !! Z.to_nat tid = Some g ∧
  globalHistory2 s !! Z.to_nat tid = Some g2 ∧ 0 ≤ g2 ≤ historyRegisterMask2 (cfg s) ∧
  HistRegs.localHistoryTable (regs s) !! Z.to_nat (HistRegs.slot (regs s) pc) = Some x.
Proof.
  intros Ht. pose proof (wf_regs _ _ H) as Hr.
  destruct (HistRegs.global_exists nt _ Hr tid Ht) as (g & Hg & _).
  destruct (HistRegs.local_exists nt _ Hr _ (HistRegs.slot_range nt _ Hr pc)) as [x Hx].
  destruct (vlookup_lt (globalHistory2 s) tid) as [g2 Hg2]; [by rewrite (wf_threads2 _ _ H)|].
  exists g, g2, x. split_and!; try done; by apply (Forall_lookup_1 _ _ _ _ (wf_global2 _ _ H) Hg2).
Qed.

Lemma gtri_hist2_Ok tid g2 (b : bool) :
  0 ≤ tid < nt → globalHistory2 s !! Z.to_nat tid = Some g2 →
  (if b then updateGlobalHist2Taken s tid else updateGlobalHist2NotTaken s tid) =
    Ok (<[Z.to_nat tid := Z.land (HistRegs.shift_in g2 b) (historyRegisterMask2 (cfg s))]> (globalHistory2 s)).
Proof.
  intros Ht Hg. destruct b; unfold updateGlobalHist2Taken, updateGlobalHist2NotTaken;
    rewrite (vget_in _ tid g2) by (lia || done); cbn [mbind res_bind];
    rewrite vset_in by (by rewrite (wf_threads2 _ _ H)); [done|]. by rewrite HistRegs.shift_in_false.
Qed.

(** The state after a prediction of direction [b]. *)
Definition speculated (tid pc g g2 x : Z) (b : bool) : t :=
  with_regs
    (HistRegs.set2 (regs s) tid (Z.land (HistRegs.shift_in g b) (HistRegs.historyRegisterMask (regs s)))
       (HistRegs.slot (regs s) pc) (HistRegs.shift_in x b))
    (<[Z.to_nat tid := Z.land (HistRegs.shift_in g2 b) (historyRegisterMask2 (cfg s))]> (globalHistory2 s)) s.

(** [lookup] with the five table reads it is made of. *)
Lemma gtri_lookup_Ok tid pc g g2 x :
  0 ≤ tid < nt →
  HistRegs.globalHistory (regs s) !! Z.to_nat tid = Some g →
  globalHistory2 s !! Z.to_nat tid = Some g2 →
  HistRegs.localHistoryTable (regs s) !! Z.to_nat (HistRegs.slot (regs s) pc) = Some x →
  ∃ l gl gl2 ch ch2 : bool,
    let lidx := Z.land x (HistRegs.localPredictorMask (regs s)) in
    let taken := if negb ch2 then (if ch then gl else l) else gl2 in
    predicts (localCtrs s) lidx (localThreshold (cfg s)) = Ok l ∧
    predicts (globalCtrs s) (Z.land g (globalHistoryMask (cfg s))) (globalThreshold (cfg s)) = Ok gl ∧
    predicts (globalCtrs2 s) (gshare_slot s pc g2) (globalThreshold2 (cfg s)) = Ok gl2 ∧
    predicts (choiceCtrs s) (Z.land g (choiceHistoryMask (cfg s))) (choiceThreshold (cfg s)) = Ok ch ∧
    predicts (choiceCtrs2 s) (Z.land g (choiceHistoryMask2 (cfg s))) (choiceThreshold2 (cfg s)) = Ok ch2 ∧
    lookup s tid pc =
      (let '(p, hs) := heap_new (histories s)
         (mkHist g g2 (HistRegs.slot (regs s) pc) lidx l gl ch gl2 ch2) in
       Ok (taken, p, with_histories hs (speculated tid pc g g2 x taken))).
Proof.
  intros Ht Hg Hg2 Hx. pose proof (wf_regs _ _ H) as Hr. pose proof (HistRegs.slot_range nt _ Hr pc) as Hi.
  destruct (predicts_Ok _ _ _ _ (localThreshold (cfg s)) (wf_local _ _ H) (gtri_local_idx x)) as [l El].
  destruct (predicts_Ok _ _ _ _ (globalThreshold (cfg s)) (wf_globalc _ _ H) (gtri_global_idx g)) as [gl Eg].
  assert (0 ≤ gshare_slot s pc g2 < globalPredictorSize2 (cfg s)) as Hs by apply gtri_global_idx2.
  destruct (predicts_Ok _ _ _ _ (globalThreshold2 (cfg s)) (wf_globalc2 _ _ H) Hs) as [gl2 Eg2].
  destruct (predicts_Ok _ _ _ _ (choiceThreshold (cfg s)) (wf_choice _ _ H) (gtri_choice_idx g)) as [ch Ec].
  destruct (predicts_Ok _ _ _ _ (choiceThreshold2 (cfg s)) (wf_choice2 _ _ H) (gtri_choice_idx2 g)) as [ch2 Ec2].
  exists l, gl, gl2, ch, ch2. cbv zeta. split_and!; [done..|]. unfold lookup, gshareIdx.
  rewrite (HistRegs.calcLocHistIdx_Ok nt (regs s)) by done. cbn [mbind res_bind].
  rewrite (vget_in _ (HistRegs.slot (regs s) pc) x) by (lia || done). cbn [mbind res_bind].
  rewrite El. cbn [mbind res_bind]. rewrite (vget_in (HistRegs.globalHistory (regs s)) tid g) by (lia || done).
  cbn [mbind res_bind]. rewrite Eg. cbn [mbind res_bind].
  rewrite (vget_in (globalHistory2 s) tid g2) by (lia || done). cbn [mbind res_bind].
  rewrite shr64_in by apply Hr. cbn [mbind res_bind]. fold (gshare_slot s pc g2).
  rewrite Eg2. cbn [mbind res_bind]. rewrite Ec. cbn [mbind res_bind]. rewrite Ec2. cbn [mbind res_bind heap_new].
  unfold assert_. destruct (Z.ltb_spec (HistRegs.slot (regs s) pc) (HistRegs.localHistoryTableSize (regs s))); [|lia].
  cbn [mbind res_bind]. rewrite (HistRegs.speculate_Ok nt _ tid Hr Ht _ _ g x) by done. cbn [mbind res_bind].
  by rewrite (gtri_hist2_Ok tid g2) by done.
Qed.

Lemma gtri_land2 x : 0 ≤ Z.land x (historyRegisterMask2 (cfg s)) ≤ historyRegisterMask2 (cfg s).
Proof. apply land_bound, H. Qed.

Lemma gtri_speculated_wf tid pc g g2 x b : wf nt (speculated tid pc g g2 x b).
Proof.
  apply gtri_wf_with_regs; [done| |apply gtri_land2].
  apply HistRegs.keeps_set2; [apply H|]. apply land_bound, (HistRegs.mask_range nt _ (wf_regs _ _ H)).
Qed.

Lemma gtri_lookup_ok l tid pc :
  0 ≤ tid < nt → heap_tracks (histories s) l →
  returns (lookup s tid pc) (λ r, wf nt r.2 ∧ heap_tracks (histories r.2) (r.1.2 :: l)).
Proof.
  intros Ht Htr. destruct (gtri_exists tid pc Ht) as (g & g2 & x & Hg & Hg2 & Hr2 & Hx).
  destruct (gtri_lookup_Ok tid pc g g2 x Ht Hg Hg2 Hx) as (lp & gl & gl2 & ch & ch2 & _ & _ & _ & _ & _ & ->).
  cbn [heap_new returns fst snd]. split; [|by apply (heap_tracks_new (histories s))].
  apply gtri_wf_with_histories; [apply gtri_speculated_wf|].
  apply (heap_all_new (hist_ok _ _) (histories s)); [apply (wf_hist nt _ (gtri_speculated_wf tid pc g g2 x _))|].
  apply (gtri_hist_ok_cfg (regs s)); [done|]. split; [|done].
  apply (HistRegs.snapshot_ok nt _ tid pc g x); [apply H|done].
Qed.

Lemma gtri_uncondBranch_ok l tid pc :
  0 ≤ tid < nt → heap_tracks (histories s) l →
  returns (uncondBranch s tid pc) (λ r, wf nt r.2 ∧ heap_tracks (histories r.2) (r.1 :: l)).
Proof.
  intros Ht Htr. pose proof (wf_regs _ _ H) as Hr. unfold uncondBranch.
  destruct (gtri_exists tid pc Ht) as (g & g2 & x & Hg & Hg2 & Hr2 & _).
  rewrite (vget_in (HistRegs.globalHistory (regs s)) tid g) by (lia || done). cbn [mbind res_bind].
  rewrite (vget_in (globalHistory2 s) tid g2) by (lia || done). cbn [mbind res_bind heap_new]. apply returns_bind.
  eapply returns_mono; [apply (HistRegs.globalHist_keeps nt (regs s) tid Hr Ht true)|].
  intros r Hk. rewrite (gtri_hist2_Ok tid g2 true) by done. cbn [mbind res_bind returns fst snd].
  split; [|by apply (heap_tracks_new (histories s))].
  pose proof (gtri_wf_with_regs nt s r tid _ H Hk (gtri_land2 (HistRegs.shift_in g2 true))) as Hw.
  apply gtri_wf_with_histories; [done|]. apply (heap_all_new (hist_ok _ _) (histories s)); [apply Hw|].
  apply (gtri_hist_ok_cfg (regs s)); [apply Hk|]. split; [|done].
  split; [by apply (Forall_lookup_1 _ _ _ _ (HistRegs.wf_global _ _ Hr) Hg)|by left].
Qed.

Lemma gtri_btbUpdate_ok p l tid pc :
  0 ≤ tid < nt → heap_tracks (histories s) l →
  returns (btbUpdate s tid pc p) (λ s', wf nt s' ∧ heap_tracks (histories s') l).
Proof.
  intros Ht Htr. unfold btbUpdate. apply returns_bind.
  eapply returns_mono; [by apply (HistRegs.btbUpdate_keeps nt _ tid (wf_regs _ _ H) Ht)|].
  intros r Hk. destruct (gtri_exists tid pc Ht) as (g & g2 & x & _ & Hg2 & Hr2 & _).
  rewrite (vget_in (globalHistory2 s) tid g2) by (lia || done). cbn [mbind res_bind].
  rewrite vset_in by (by rewrite (wf_threads2 _ _ H)). cbn [mbind res_bind returns].
  split; [|done]. apply gtri_wf_with_regs; [done..|].
  rewrite (Z.land_comm (historyRegisterMask2 (cfg s))), Z.land_assoc. apply gtri_land2.
Qed.

Lemma gtri_squash_ok p l tid :
  0 ≤ tid < nt → heap_tracks (histories s) (p :: l) →
  returns (squash s tid p) (λ s', wf nt s' ∧ heap_tracks (histories s') l).
Proof.
  intros Ht Htr. unfold squash. apply returns_bind.
  eapply returns_deref; [done|apply H|]. intros a h -> Ha [Hh Hh2]. apply returns_bind.
  eapply returns_mono; [by apply (HistRegs.restore_keeps nt _ tid (wf_regs _ _ H) Ht)|].
  intros r Hk. rewrite vset_in by (by rewrite (wf_threads2 _ _ H)). cbn [mbind res_bind].
  apply returns_bind. eapply returns_delete; [done|apply H|]. intros hs Htr' Hall.
  split; [|done]. apply gtri_wf_with_histories; [by apply gtri_wf_with_regs|]. cbn.
  eapply map_Forall_impl; [done|]. intros ? ?. apply gtri_hist_ok_cfg, Hk.
Qed.

Lemma gtri_train_choice_ok taken h v :
  returns (train_choice s taken h v)
    (SatCounter.table_ok (choicePredictorSize (cfg s)) (SatCounter.maxOf (choiceCtrBits (cfg s)))).
Proof.
  pose proof (wf_choice _ _ H). unfold train_choice. destruct (_ && v); [|done].
  repeat (case_match; [eapply SatCounter.returns_train;
    [done|eauto using SatCounter.increment_ok, SatCounter.decrement_ok|apply gtri_choice_idx|done]|]). done.
Qed.

Lemma gtri_train_choice2_ok taken h :
  returns (train_choice2 s taken h)
    (SatCounter.table_ok (choicePredictorSize2 (cfg s)) (SatCounter.maxOf (choiceCtrBits2 (cfg s)))).
Proof.
  pose proof (wf_choice2 _ _ H). unfold train_choice2. case_match; [|done].
  repeat (case_match; [eapply SatCounter.returns_train;
    [done|eauto using SatCounter.increment_ok, SatCounter.decrement_ok|apply gtri_choice_idx2|done]|]). done.
Qed.

End wf.

(** [update] past its assertions: a misprediction. *)
Lemma gtri_update_squash_Ok nt s tid pc taken a h :
  wf nt s → cells (histories s) !! a = Some h →
  update s tid pc taken (Some a) true =
    (r ← HistRegs.correct (regs s) tid (HistRegs.slot (regs s) pc)
           (negb (localHistory h =? invalidPredictorIndex)) (h_globalHistory h) (localHistory h) taken;
     l2 ← vset (globalHistory2 s) tid
            (Z.land (HistRegs.shift_in (h_globalHistory2 h) taken) (historyRegisterMask2 (cfg s)));
     Ok (with_regs r l2 (updateAdditionalStats s taken h))).
Proof.
  intros H Ha. pose proof (HistRegs.slot_range nt _ (wf_regs _ _ H) pc). unfold update, assert_.
  rewrite bool_decide_true by done. cbn [mbind res_bind heap_deref]. rewrite Ha. cbn [mbind res_bind].
  rewrite (HistRegs.calcLocHistIdx_Ok nt (regs s)) by apply H. cbn [mbind res_bind].
  destruct (Z.ltb_spec (HistRegs.slot (regs s) pc) (HistRegs.localHistoryTableSize (regs s))); [|lia].
  cbn [mbind res_bind]. by destruct (gtri_stats_eq s taken h) as [n ->].
Qed.

(** [update] past its assertions: a commit. *)
Lemma gtri_update_commit_Ok nt s tid pc taken a h :
  wf nt s → cells (histories s) !! a = Some h →
  let v := negb (localHistory h =? invalidPredictorIndex) in
  ∃ c c2 g g2 l,
    train_choice s taken h v = Ok c ∧ train_choice2 s taken h = Ok c2 ∧
    vmod (SatCounter.train taken) (globalCtrs s) (Z.land (h_globalHistory h) (globalHistoryMask (cfg s))) = Ok g ∧
    vmod (SatCounter.train taken) (globalCtrs2 s) (Z.land (h_globalHistory2 h) (globalHistoryMask2 (cfg s))) = Ok g2 ∧
    (if v then vmod (SatCounter.train taken) (localCtrs s)
                 (Z.land (localHistory h) (HistRegs.localPredictorMask (regs s))) = Ok l
     else l = localCtrs s) ∧
    wf nt (with_ctrs l g g2 c c2 s) ∧
    update s tid pc taken (Some a) false =
      Ok (with_histories (Heap (delete a (cells (histories s))) (next (histories s)))
            (with_ctrs l g g2 c c2 (updateAdditionalStats s taken h))).
Proof.
  intros H Ha v.
  pose proof (gtri_train_choice_ok nt s H taken h v) as Hc. apply returns_iff in Hc as (c & Ec & Oc).
  pose proof (gtri_train_choice2_ok nt s H taken h) as Hc2. apply returns_iff in Hc2 as (c2 & Ec2 & Oc2).
  destruct (SatCounter.train_table _ _ _ _ taken (wf_globalc _ _ H)
    (gtri_global_idx nt s H (h_globalHistory h))) as (g & Eg & Og).
  destruct (SatCounter.train_table _ _ _ _ taken (wf_globalc2 _ _ H)
    (gtri_global_idx2 nt s H (h_globalHistory2 h))) as (g2 & Eg2 & Og2).
  destruct (SatCounter.train_table _ _ _ _ taken (wf_local _ _ H)
    (gtri_local_idx nt s H (localHistory h))) as (l & El & Ol).
  exists c, c2, g, g2, (if v then l else localCtrs s).
  split_and!; [done..|by destruct v| |].
  { destruct H. split; try done. cbn. by destruct v. }
  pose proof (HistRegs.slot_range nt _ (wf_regs _ _ H) pc). unfold update, assert_.
  rewrite bool_decide_true by done. cbn [mbind res_bind heap_deref]. rewrite Ha. cbn [mbind res_bind].
  rewrite (HistRegs.calcLocHistIdx_Ok nt (regs s)) by apply H. cbn [mbind res_bind].
  destruct (Z.ltb_spec (HistRegs.slot (regs s) pc) (HistRegs.localHistoryTableSize (regs s))); [|lia].
  cbn [mbind res_bind]. destruct (gtri_stats_eq s taken h) as [n ->].
  cbn [regs cfg with_stat]. pose proof (gtri_local_idx nt s H (localHistory h)).
  destruct (Z.ltb_spec (Z.land (localHistory h) (HistRegs.localPredictorMask (regs s)))
    (localPredictorSize (cfg s))); [|lia]. cbn [mbind res_bind]. fold v.
  change (train_choice (with_stat n s) taken h v) with (train_choice s taken h v).
  change (train_choice2 (with_stat n s) taken h) with (train_choice2 s taken h).
  rewrite Ec. cbn [mbind res_bind]. rewrite Ec2. cbn [mbind res_bind globalCtrs globalCtrs2 localCtrs with_stat].
  rewrite Eg. cbn [mbind res_bind]. rewrite Eg2. cbn [mbind res_bind]. unfold heap_delete.
  cbn [histories with_stat heap_deref]. destruct v; rewrite ?El; cbn [mbind res_bind]; by rewrite Ha.
Qed.

Lemma gtri_update_ok nt s p l tid pc taken squashed :
  wf nt s → 0 ≤ tid < nt → heap_tracks (histories s) (p :: l) →
  returns (update s tid pc taken p squashed) (λ s', wf nt s' ∧
    heap_tracks (histories s') (if squashed then p :: l else l)).
Proof.
  intros H Ht Htr. destruct (heap_tracks_deref _ _ _ Htr) as (a & h & -> & Ha). destruct squashed.
  - rewrite (gtri_update_squash_Ok nt) with (h := h) by done. apply returns_bind.
    eapply returns_mono; [apply (HistRegs.correct_keeps nt _ tid (wf_regs _ _ H) Ht)|].
    { by apply (HistRegs.slot_range nt), H. }
    intros r Hk. rewrite vset_in by (by rewrite (wf_threads2 _ _ H)). cbn [mbind res_bind returns].
    destruct (gtri_stats_eq s taken h) as [n ->]. split; [|done].
    destruct (gtri_wf_with_regs nt s r tid _ H Hk
      (gtri_land2 nt s H (HistRegs.shift_in (h_globalHistory2 h) taken))). by split.
  - destruct (gtri_update_commit_Ok nt s tid pc taken a h H Ha)
      as (c & c2 & g & g2 & lc & _ & _ & _ & _ & _ & Hw & ->).
    destruct (gtri_stats_eq s taken h) as [n ->]. split; [|by apply (heap_tracks_delete (histories s))].
    apply gtri_wf_with_histories; [destruct Hw; by split|]. apply heap_all_delete, H.
Qed.

#[global] Instance gtritournament_laws : DirPredictorLaws t.
Proof.
  refine {| dp_wf := wf; dp_tracks := λ s, heap_tracks (histories s) |}.
  - intros. by apply gtri_uncondBranch_ok.
  - intros. by apply gtri_lookup_ok.
  - intros. by apply gtri_btbUpdate_ok.
  - intros. by apply (gtri_update_ok nt s p l tid pc taken false).
  - intros. by apply (gtri_update_ok nt s p l tid pc taken true).
  - intros. by apply gtri_squash_ok.
  - intros nt s p l tid H Htr _. cbn. unfold getGHR. apply returns_bind.
    eapply returns_deref; [done|apply H|done].
Defined.

(** ** The constructor *)
Record params_ok (p : Params) : Prop := {
  po_threads : 0 < p_numThreads p;
  po_shift : 0 ≤ p_instShiftAmt p < 64;
  po_local : is_u32 (p_localPredictorSize p) ∧ isPowerOf2 (p_localPredictorSize p) = true;
  po_table : is_u32 (p_localHistoryTableSize p) ∧ isPowerOf2 (p_localHistoryTableSize p) = true;
  po_global : is_u32 (p_globalPredictorSize p) ∧ isPowerOf2 (p_globalPredictorSize p) = true;
  po_global2 : 1 ≤ p_globalPredictorSize2 p < 2 ^ 31;
  po_choice : is_u32 (p_choicePredictorSize p) ∧ isPowerOf2 (p_choicePredictorSize p) = true;
  po_choice2 : 1 ≤ p_choicePredictorSize2 p < 2 ^ 31;
  po_lbits : 1 ≤ p_localCtrBits p < 31;
  po_gbits : 1 ≤ p_globalCtrBits p < 31;
  po_gbits2 : 1 ≤ p_globalCtrBits2 p < 31;
  po_cbits : 1 ≤ p_choiceCtrBits p < 31;
  po_cbits2 : 1 ≤ p_choiceCtrBits2 p < 31;
}.

Lemma historyBits_range g c c2 :
  0 ≤ g < 32 → 0 ≤ c < 32 → 0 ≤ c2 < 32 → 0 ≤ historyBits g c c2 < 32.
Proof. intros. unfold historyBits. repeat case_match; lia. Qed.

Lemma log2_up_31 n : 1 ≤ n < 2 ^ 31 → 0 ≤ Z.log2_up n < 32.
Proof.
  intros. pose proof (Z.log2_up_nonneg n). split; [done|].
  enough (Z.log2_up n ≤ 31) by lia. apply Z.log2_up_le_pow2; lia.
Qed.

(** Whatever the constructor accepts is well formed. *)
Lemma gtri_create_wf indet p s :
  params_ok p → create indet p = Ok s → dp_ok (p_numThreads p) (s, []) ∧
    choiceCtrBits2 (cfg s) = p_choiceCtrBits2 p ∧
    choiceThreshold2 (cfg s) = u32 (2 ^ (2 * (p_choiceCtrBits2 p - 1)) - 1).
Proof.
  intros [Hnt Hsh [Hl1 Hl2] [Ht1 Ht2] [Hg1 Hg2] Hg22 [Hc1 Hc2] Hc22 Hlb Hgb Hgb2 Hcb Hcb2] E.
  destruct (pow2_facts _ Hl1 Hl2) as (kl & Hkl & El & Ecl & Eml & Hl3 & Eul).
  destruct (pow2_facts _ Hg1 Hg2) as (kg & Hkg & Eg & Ecg & Emg & Hg3 & Eug).
  destruct (pow2_facts _ Hc1 Hc2) as (kc & Hkc & Ec & Ecc & Emc & Hc3 & Euc).
  assert (0 ≤ Z.log2_up (p_globalPredictorSize2 p) < 32) as Hu1 by (by apply log2_up_31).
  assert (0 ≤ Z.log2_up (p_choicePredictorSize2 p) < 32) as Hu2 by (by apply log2_up_31).
  unfold create in E. rewrite Ecl, Ecg, Ecc, !ceilLog2_log2_up in E by lia. cbn [mbind res_bind] in E.
  rewrite Hl2, Hg2, Ht2, Hc2, !SatCounter.table_val, Eml, Eug, Euc in E by lia.
  cbn [andb guard_ mbind res_bind] in E. rewrite Eul in E.
  rewrite !counterThreshold_Ok, TriTournamentBP.counterThreshold2_Ok in E by lia. cbn [mbind res_bind] in E.
  pose proof (historyBits_range kg kc (Z.log2_up (p_choicePredictorSize2 p))) as Hk1.
  pose proof (historyBits_range (Z.log2_up (p_globalPredictorSize2 p)) kc (Z.log2_up (p_choicePredictorSize2 p))) as Hk2.
  set (k1 := historyBits kg kc _) in *. set (k2 := historyBits (Z.log2_up _) kc _) in *.
  rewrite (mask_ones k1), (mask_ones k2) in E by lia. cbn [mbind res_bind] in E.
  assert (0 < 2 ^ k1 ≤ 2 ^ 31 ∧ 0 < 2 ^ k2 ≤ 2 ^ 31) as [Hp1 Hp2]
    by (split; split; (apply Z.pow_pos_nonneg; lia) || (apply Z.pow_le_mono_r; lia)).
  rewrite (u32_id (2 ^ k1 - 1)), (u32_id (2 ^ k2 - 1)) in E by (unfold is_u32; lia).
  rewrite (u32_id (p_choicePredictorSize2 p - 1)), (u32_id (p_globalPredictorSize2 p - 1)) in E by (unfold is_u32; lia).
  bind_inv E. injection E as <-.
  split_and!; [|done..]. split; [|exact (@heap_tracks_empty BPHistory)].
  split; cbn; try done; try (apply SatCounter.table_fresh_ok; lia); try lia.
  - apply HistRegs.hist_create_wf; try done; try lia; [by apply isPowerOf2_iff|exists kl; rewrite El; split; lia|].
    exists k1. split; lia.
  - apply vlen_replicate. lia.
  - apply Forall_replicate. lia.
Qed.

(** ** Observational equivalence *)
Record equiv (s s' : t) : Prop := {
  eq_cfg : cfg s' = cfg s;
  eq_regs : HistRegs.equiv (regs s) (regs s');
  eq_hist2 : globalHistory2 s' = globalHistory2 s;
  eq_local : localCtrs s' = localCtrs s;
  eq_global : globalCtrs s' = globalCtrs s;
  eq_global2 : globalCtrs2 s' = globalCtrs2 s;
  eq_choice : choiceCtrs s' = choiceCtrs s;
  eq_choice2 : choiceCtrs2 s' = choiceCtrs2 s;
  eq_objects : cells (histories s') = cells (histories s);
}.

#[global] Instance gtritournament_equiv : Equivalence equiv.
Proof.
  split.
  - intros s. by split.
  - intros s s' []. by split.
  - intros a b c [] []. split; try congruence. by transitivity (regs b).
Qed.

(** The direction [lookup] answers. *)
Definition answer (s : t) (tid pc : Z) : res bool := '(b, _, _) ← lookup s tid pc; Ok b.

Lemma gtri_answer_equiv nt s s' tid pc :
  wf nt s → wf nt s' → equiv s s' → 0 ≤ tid < nt → answer s' tid pc = answer s tid pc.
Proof.
  intros H H' [Ec [(E1 & E2 & E3 & E4) Eg El] Eg2 E5 E6 E7 E8 E9 _] Ht.
  destruct (gtri_exists nt s H tid pc Ht) as (g & g2 & x & Hg & Hg2 & _ & Hx).
  destruct (gtri_lookup_Ok nt s H tid pc g g2 x Ht Hg Hg2 Hx)
    as (lp & gl & gl2 & ch & ch2 & P1 & P2 & P3 & P4 & P5 & EL).
  assert (HistRegs.slot (regs s') pc = HistRegs.slot (regs s) pc) as Es
    by (unfold HistRegs.slot; by rewrite E1, E2).
  assert (gshare_slot s' pc g2 = gshare_slot s pc g2) as Es2 by (unfold gshare_slot; by rewrite E1, Ec).
  destruct (Forall2_lookup_l _ _ _ _ _ El Hx) as (x' & Hx' & Exx). rewrite <- Es in Hx'.
  rewrite <- Eg in Hg. rewrite <- Eg2 in Hg2.
  destruct (gtri_lookup_Ok nt s' H' tid pc g g2 x' Ht Hg Hg2 Hx')
    as (lp' & gl' & gl2' & ch' & ch2' & Q1 & Q2 & Q3 & Q4 & Q5 & EL').
  unfold answer. rewrite EL, EL'. cbn [heap_new mbind res_bind]. unfold HistRegs.same_local in Exx.
  rewrite Ec, E3, E5, <- Exx, P1 in Q1. rewrite Ec, E6, P2 in Q2. rewrite Ec, E7, Es2, P3 in Q3.
  rewrite Ec, E8, P4 in Q4. rewrite Ec, E9, P5 in Q5. by simplify_eq.
Qed.

Section recover.
Context (nt : Z) (s : t) (l : list ptr) (tid pc : Z).
Context (H : wf nt s) (Htr : heap_tracks (histories s) l) (Ht : 0 ≤ tid < nt).

(** [squash] right after the prediction, whatever happened to the three
    registers in between. *)
Lemma gtri_squash_undoes g g2 x (lp gl ch gl2 ch2 : bool) g1 h1 x1 :
  HistRegs.globalHistory (regs s) !! Z.to_nat tid = Some g →
  globalHistory2 s !! Z.to_nat tid = Some g2 →
  HistRegs.localHistoryTable (regs s) !! Z.to_nat (HistRegs.slot (regs s) pc) = Some x →
  0 ≤ g1 ≤ HistRegs.historyRegisterMask (regs s) →
  let i := HistRegs.slot (regs s) pc in
  let '(p, hs) := heap_new (histories s)
    (mkHist g g2 i (Z.land x (HistRegs.localPredictorMask (regs s))) lp gl ch gl2 ch2) in
  returns (squash (with_histories hs (with_regs (HistRegs.set2 (regs s) tid g1 i x1)
    (<[Z.to_nat tid := h1]> (globalHistory2 s)) s)) tid p) (equiv s).
Proof.
  intros Hg Hg2 Hx Hg1. cbn [heap_new]. unfold squash.
  cbn [histories with_histories heap_deref cells]. rewrite lookup_insert_eq. cbn [mbind res_bind]. apply returns_bind.
  eapply returns_mono; [by apply (HistRegs.restore_undoes nt (regs s) tid pc g x (wf_regs _ _ H) Ht Hg Hx)|].
  intros r Hr. cbn [h_globalHistory2 globalHistory2 with_histories with_regs].
  rewrite vset_in by (rewrite vlen_insert, (wf_threads2 _ _ H); lia). cbn [mbind res_bind].
  unfold heap_delete. cbn. rewrite lookup_insert_eq. cbn. split; try done; cbn.
  - by rewrite list_insert_insert_eq, list_insert_id.
  - rewrite delete_insert_id; [done|]. by eapply heap_tracks_fresh.
Qed.

Definition recovered (s2 : t) : Prop :=
  equiv s s2 ∧ wf nt s2 ∧ ∀ tid' pc', 0 ≤ tid' < nt → answer s2 tid' pc' = answer s tid' pc'.

Lemma gtri_recovered_intro s1 p :
  wf nt s1 → heap_tracks (histories s1) (p :: l) → returns (squash s1 tid p) (equiv s) →
  returns (squash s1 tid p) recovered.
Proof.
  intros H1 Htr1 He. pose proof (gtri_squash_ok nt s1 H1 p l tid Ht Htr1) as Hw.
  eapply returns_mono; [apply (returns_and _ _ _ He Hw)|]. intros s2 (Heq & Hw2 & _).
  split_and!; [done..|]. intros. by apply (gtri_answer_equiv nt).
Qed.

End recover.

(** No method touches the configuration. *)
Lemma gtri_step_cfg nt x y : dp_step nt x y → cfg y.1 = cfg x.1.
Proof.
  destruct 1; cbn in *.
  - unfold uncondBranch in *. res_inv. cbn in *. by res_inv.
  - unfold GTriTournamentBP.lookup in *. res_inv. cbn in *. by res_inv.
  - unfold btbUpdate in *. by res_inv.
  - unfold update in *. res_inv. destruct (gtri_stats_eq s taken a0) as [n En]. rewrite En in *. by res_inv.
  - unfold update in *. res_inv. destruct (gtri_stats_eq s taken a0) as [n En]. rewrite En in *. by res_inv.
  - unfold squash in *. by res_inv.
Qed.

(** ** Theorems *)

(** The second choice threshold is [2^(2*(choiceCtrBits2-1)) - 1], which a
    counter of two or more bits never exceeds. Whatever the constructor accepts
    with [choiceCtrBits2 >= 2] (the default is 2), and whatever happened since,
    [lookup] answers the verdict of the local and the global predictor: the
    gshare predictor is never used. *)
Theorem gtritournament_gshare_never_used (indet : Z) (p : Params) (s0 s : t) (l : list ptr) (tid pc : Z) :
  params_ok p → 2 ≤ p_choiceCtrBits2 p →
  create indet p = Ok s0 → rtc (dp_step (p_numThreads p)) (s0, []) (s, l) → 0 ≤ tid < p_numThreads p →
  ∃ g x (lp gl ch : bool),
    HistRegs.globalHistory (regs s) !! Z.to_nat tid = Some g ∧
    HistRegs.localHistoryTable (regs s) !! Z.to_nat (HistRegs.slot (regs s) pc) = Some x ∧
    predicts (localCtrs s) (Z.land x (HistRegs.localPredictorMask (regs s))) (localThreshold (cfg s)) = Ok lp ∧
    predicts (globalCtrs s) (Z.land g (globalHistoryMask (cfg s))) (globalThreshold (cfg s)) = Ok gl ∧
    predicts (choiceCtrs s) (Z.land g (choiceHistoryMask (cfg s))) (choiceThreshold (cfg s)) = Ok ch ∧
    answer s tid pc = Ok (if ch then gl else lp).
Proof.
  intros Hp Hb Hc Hs Ht. destruct (gtri_create_wf indet p s0 Hp Hc) as (Hok & Eb & Et).
  pose proof (dp_steps_preserve _ cfg (gtri_step_cfg _) _ _ Hs) as Ecfg. cbn in Ecfg.
  apply dp_steps_ok in Hs as [Hw _]; [|done]. cbn in Hw.
  destruct (gtri_exists _ s Hw tid pc Ht) as (g & g2 & x & Hg & Hg2 & _ & Hx).
  destruct (gtri_lookup_Ok _ s Hw tid pc g g2 x Ht Hg Hg2 Hx)
    as (lp & gl & gl2 & ch & ch2 & P1 & P2 & _ & P4 & P5 & EL).
  assert (SatCounter.maxOf (choiceCtrBits2 (cfg s)) ≤ choiceThreshold2 (cfg s)) as Hm.
  { rewrite Ecfg, Eb, Et. pose proof (po_cbits2 _ Hp). apply TriTournamentBP.counterThreshold2_max; lia. }
  apply (predicts_saturated _ _ _ _ _ _ (wf_choice2 _ _ Hw) Hm) in P5 as ->.
  exists g, x, lp, gl, ch. split_and!; try done. unfold answer. by rewrite EL.
Qed.

(** The predictor undoes its speculation: after [lookup], and also when
    [btbUpdate] ran in between, [squash] gives back the tables, both global
    histories and the history objects exactly, the local histories up to unread
    bits, and so every answer. *)
Theorem gtritournament_squash_recovers (nt : Z) (s : t) (l : list ptr) (tid pc : Z) :
  wf nt s → heap_tracks (histories s) l → 0 ≤ tid < nt →
  returns (lookup s tid pc) (λ r,
    returns (squash r.2 tid r.1.2) (recovered nt s) ∧
    returns (btbUpdate r.2 tid pc r.1.2) (λ s1, returns (squash s1 tid r.1.2) (recovered nt s))).
Proof.
  intros H Htr Ht. pose proof (wf_regs _ _ H) as Hr. pose proof (gtri_lookup_ok nt s H l tid pc Ht Htr) as Hlk.
  destruct (gtri_exists nt s H tid pc Ht) as (g & g2 & x & Hg & Hg2 & _ & Hx).
  destruct (gtri_lookup_Ok nt s H tid pc g g2 x Ht Hg Hg2 Hx)
    as (lp & gl & gl2 & ch & ch2 & _ & _ & _ & _ & _ & E).
  rewrite E in *. cbn [heap_new returns fst snd] in *. destruct Hlk as [Hw Htr1].
  pose proof (HistRegs.mask_range nt _ Hr) as [_ Hm]. split.
  - apply (gtri_recovered_intro nt s l tid); [done..|].
    apply (gtri_squash_undoes nt s l tid pc H Htr Ht g g2 x lp gl ch gl2 ch2); [done..|]. apply land_bound. lia.
  - pose proof (gtri_btbUpdate_ok nt _ Hw (Some (next (histories s))) _ tid pc Ht Htr1) as Hb.
    set (b := if negb ch2 then if ch then gl else lp else gl2) in *.
    destruct (HistRegs.btbUpdate_set2 nt _ tid pc Hr Ht
      (Z.land (HistRegs.shift_in g b) (HistRegs.historyRegisterMask (regs s)))
      (HistRegs.shift_in x b)) as (g3 & y2 & Hg3 & Eb); [apply land_bound; lia|].
    apply returns_iff in Hb as (s1 & Es1 & Hw2 & Htr2). rewrite Es1. cbn [returns].
    apply (gtri_recovered_intro nt s l tid); [done..|].
    unfold btbUpdate in Es1. bind_inv Es1. injection Es1 as <-.
    cbn [regs globalHistory2 with_histories speculated with_regs] in *. rewrite Eb in E0. injection E0 as <-.
    apply vset_Ok in E2 as [_ ->]. rewrite list_insert_insert_eq in *.
    by apply (gtri_squash_undoes nt s l tid pc H Htr Ht g g2 x lp gl ch gl2 ch2).
Qed.

(** The gshare table is trained in another entry than the one it predicts
    from: [update] leaves the branch address out of the index. A committed branch
    trains the entry of the bare history [g2], [lookup] read the entry of the
    address xor [g2], and the two coincide only for branches whose address bits
    under the mask are all zero. *)
Theorem gtritournament_gshare_trains_unhashed (nt : Z) (s : t) (l : list ptr) (tid pc g2 : Z) (taken : bool) :
  wf nt s → heap_tracks (histories s) l → 0 ≤ tid < nt → globalHistory2 s !! Z.to_nat tid = Some g2 →
  returns (lookup s tid pc) (λ r, returns (update r.2 tid pc taken r.1.2 false) (λ s',
    vmod (SatCounter.train taken) (globalCtrs2 s) (Z.land g2 (globalHistoryMask2 (cfg s))) =
      Ok (globalCtrs2 s'))) ∧
  (Z.land g2 (globalHistoryMask2 (cfg s)) = gshare_slot s pc g2 ↔
   Z.land (Z.shiftr pc (HistRegs.instShiftAmt (regs s))) (globalHistoryMask2 (cfg s)) = 0).
Proof.
  intros H Htr Ht Hg2. pose proof (gtri_lookup_ok nt s H l tid pc Ht Htr) as Hlk. split.
  - destruct (gtri_exists nt s H tid pc Ht) as (g & g2' & x & Hg & Hg2' & _ & Hx). simplify_eq.
    destruct (gtri_lookup_Ok nt s H tid pc g g2 x Ht Hg Hg2 Hx)
      as (lp & gl & gl2 & ch & ch2 & _ & _ & _ & _ & _ & E).
    rewrite E in *. cbn [heap_new returns fst snd] in *. destruct Hlk as [Hw Htr1].
    edestruct (gtri_update_commit_Ok nt _ tid pc taken _ _ Hw (lookup_insert_eq _ _ _))
      as (c & c2 & gc & gc2 & lc & _ & _ & _ & E2 & _ & _ & Eu).
    cbn [histories with_histories heap_new] in Eu. rewrite Eu. cbn [returns].
    match goal with |- context [updateAdditionalStats ?a ?b ?c] =>
      destruct (gtri_stats_eq a b c) as [n ->] end.
    exact E2.
  - unfold gshare_slot. set (m := globalHistoryMask2 (cfg s)). set (a := Z.shiftr pc _).
    rewrite <- (Z.lxor_0_l g2) at 1. rewrite (Z.lxor_comm 0 g2), (Z.lxor_comm a g2), lxor_land_cancel.
    rewrite Z.land_0_l. by split.
Qed.

(** ** Witnesses *)
Definition params8 : Params := mkParams 2 2 4 2 4 8 2 8 2 8 2 8 2.

Definition gtritournament8 : t :=
  ltac:(let r := eval vm_compute in (create 0 params8) in match r with Ok ?s => exact s end).

Lemma gparams8_ok : params_ok params8.
Proof. split; cbn; unfold is_u32; try lia; split; (lia || done). Qed.

Lemma gtritournament8_ok : wf 2 gtritournament8 ∧ heap_tracks (histories gtritournament8) [].
Proof.
  destruct (gtri_create_wf 0 params8 gtritournament8 gparams8_ok) as ((? & ?) & _); [reflexivity|done].
Qed.

Definition gtri_script : list call := [CLookup 1 64; CCommit 0 1 64 true; CLookup 1 64].

Definition gtritournament8_run : t * list ptr :=
  ltac:(let r := eval vm_compute in (dp_run gtri_script (gtritournament8, [])) in
        match r with Ok ?s => exact s end).

Lemma gtritournament_gshare_never_used_witness :
  2 ≤ p_choiceCtrBits2 params8 ∧ ∃ lp gl ch : bool, answer gtritournament8_run.1 1 64 = Ok (if ch then gl else lp).
Proof.
  split; [cbn; lia|].
  destruct (gtritournament_gshare_never_used 0 params8 gtritournament8 gtritournament8_run.1
    gtritournament8_run.2 1 64 gparams8_ok) as (g & x & lp & gl & ch & _ & _ & _ & _ & _ & E).
  - cbn. lia.
  - reflexivity.
  - apply (dp_run_steps 2 gtri_script); vm_compute; reflexivity.
  - cbn. lia.
  - exists lp, gl, ch. exact E.
Defined.

Lemma gtritournament_squash_recovers_witness :
  wf 2 gtritournament8 ∧
  returns (lookup gtritournament8 1 64) (λ r, returns (squash r.2 1 r.1.2) (recovered 2 gtritournament8)).
Proof.
  destruct gtritournament8_ok as [Hw Htr]. split; [exact Hw|].
  eapply returns_mono; [apply (gtritournament_squash_recovers 2 gtritournament8 [] 1 64 Hw Htr); lia|].
  intros r [Hr _]. exact Hr.
Defined.

(** Address 68 is entry 1 of the gshare table, and its outcome trains entry 0. *)
Lemma gtritournament_gshare_trains_unhashed_witness :
  gshare_slot gtritournament8 68 0 = 1 ∧
  returns (lookup gtritournament8 1 68) (λ r, returns (update r.2 1 68 true r.1.2 false) (λ s',
    vmod (SatCounter.train true) (globalCtrs2 gtritournament8) 0 = Ok (globalCtrs2 s'))).
Proof.
  destruct gtritournament8_ok as [Hw Htr]. split; [reflexivity|].
  apply (gtritournament_gshare_trains_unhashed 2 gtritournament8 [] 1 68 0 true Hw Htr); [lia|reflexivity].
Defined.

End GTriTournamentBP.
