(* ===== verification/LtageHist.v ===== *)
(** * The histories of the L-TAGE predictor ([cpu/pred/ltage.hh], [ltage.cc])

    L-TAGE indexes its tagged tables with histories of up to hundreds of branch
    outcomes. The outcomes of a thread are kept in a buffer that is filled
    downwards and rolled over ([updateGHist]); for each table three registers hold
    the outcomes folded to the width of an index or a tag, and are brought up to
    date in constant time ([FoldedHistory::update]). A branch saves the registers
    in its [BranchInfo], from which [squash] and [btbUpdate] bring them back. *)

From S2P Require Import Prelude.

(** ** One folded register *)
Module FoldedHistory.

Record t := mk { comp : Z; compLength : Z; origLength : Z; outpoint : Z }.

Definition set_comp (c : Z) (f : t) : t := mk c (compLength f) (origLength f) (outpoint f).

Definition init (original_length compressed_length : Z) : res t :=
  o ← umod original_length compressed_length;
  Ok (mk 0 compressed_length original_length o).

(** [update(h)] with [h = &tab[pt]]. *)
Definition update (tab : list Z) (pt : Z) (f : t) : res t :=
  h0 ← vget tab pt;
  let comp := Z.lor (u32 (Z.shiftl (comp f) 1)) h0 in
  ho ← vget tab (pt + origLength f);
  o ← shl_int ho (outpoint f);
  let comp := Z.lxor comp o in
  c ← shr32 comp (compLength f);
  let comp := Z.lxor comp c in
  m ← shl64 1 (compLength f);
  Ok (set_comp (u32 (Z.land comp (m - 1))) f).

End FoldedHistory.

(** ** The fold *)
Module Fold.

(** The exclusive or of outcome [k] at position [k mod C], for [k < n]. *)
Fixpoint folded (C : Z) (h : nat → bool) (n : nat) : Z :=
  match n with
  | O => 0
  | S k => Z.lxor (folded C h k) (Z.shiftl (b2z (h k)) (Z.of_nat k mod C))
  end.

(** The same, bit by bit. *)
Fixpoint fbit (C : Z) (h : nat → bool) (n : nat) (j : Z) : bool :=
  match n with
  | O => false
  | S k => xorb (fbit C h k j) (h k && (Z.of_nat k mod C =? j))
  end.

Lemma b2z_testbit b j : 0 ≤ j → Z.testbit (b2z b) j = b && (j =? 0).
Proof.
  intros Hj. destruct (Z.eqb_spec j 0) as [->|]; [by destruct b|]. rewrite andb_false_r.
  apply (bits_above _ 1); [destruct b; cbn; lia|lia].
Qed.

Lemma shiftl_b2z_testbit b i j : 0 ≤ i → 0 ≤ j → Z.testbit (Z.shiftl (b2z b) i) j = b && (i =? j).
Proof.
  intros Hi Hj. rewrite Z.shiftl_spec by done. destruct (Z.lt_ge_cases j i).
  - rewrite Z.testbit_neg_r by lia. destruct (Z.eqb_spec i j); [lia|]. by rewrite andb_false_r.
  - rewrite b2z_testbit by lia. f_equal.
    destruct (Z.eqb_spec (j - i) 0), (Z.eqb_spec i j); (done || lia).
Qed.

Lemma folded_testbit C h n j : 0 < C → 0 ≤ j → Z.testbit (folded C h n) j = fbit C h n j.
Proof.
  intros HC Hj. induction n as [|k IH]; cbn; [apply Z.bits_0|].
  pose proof (Z.mod_pos_bound (Z.of_nat k) C HC).
  rewrite Z.lxor_spec, IH, shiftl_b2z_testbit by lia. done.
Qed.

Lemma fbit_high C h n j : 0 < C → C ≤ j → fbit C h n j = false.
Proof.
  intros HC Hj. induction n as [|k IH]; cbn; [done|]. rewrite IH.
  pose proof (Z.mod_pos_bound (Z.of_nat k) C HC).
  destruct (Z.eqb_spec (Z.of_nat k mod C) j); [lia|]. by rewrite andb_false_r.
Qed.

Lemma folded_nonneg C h n : 0 < C → 0 ≤ folded C h n.
Proof.
  intros HC. induction n as [|k IH]; cbn; [done|]. apply Z.lxor_nonneg. split; intros _; [|done].
  apply Z.shiftl_nonneg. destruct (h k); cbn; lia.
Qed.

Lemma folded_range C h n : 0 < C → 0 ≤ folded C h n < 2 ^ C.
Proof.
  intros HC. split; [by apply folded_nonneg|].
  apply bits_bound; [lia|by apply folded_nonneg|]. intros j Hj.
  rewrite folded_testbit by lia. by apply fbit_high.
Qed.

(** The predecessor of a position on the ring of size [C]. *)
Definition prev (C j : Z) : Z := if j =? 0 then C - 1 else j - 1.

Lemma succ_mod C k j :
  0 < C → 0 ≤ j < C → (Z.succ k mod C =? j) = (k mod C =? prev C j).
Proof.
  intros HC Hj. unfold prev, Z.succ. pose proof (Z.mod_pos_bound k C HC).
  assert ((k + 1) mod C = if k mod C =? C - 1 then 0 else k mod C + 1) as ->.
  { rewrite <- Z.add_mod_idemp_l by lia. destruct (Z.eqb_spec (k mod C) (C - 1)) as [->|].
    - replace (C - 1 + 1) with C by lia. apply Z.mod_same. lia.
    - apply Z.mod_small. lia. }
  destruct (Z.eqb_spec (k mod C) (C - 1)), (Z.eqb_spec j 0);
    apply eq_true_iff_eq; rewrite !Z.eqb_eq; lia.
Qed.

(** Pushing an outcome turns the ring by one position. *)
Lemma fbit_push C b h n j :
  0 < C → 0 ≤ j < C →
  fbit C (λ k, match k with O => b | S k => h k end) (S n) j =
    xorb (b && (j =? 0)) (fbit C h n (prev C j)).
Proof.
  intros HC Hj. induction n as [|k IH].
  - cbn -[Z.modulo]. rewrite Z.mod_0_l by lia. rewrite ?xorb_false_r, ?xorb_false_l. by rewrite Z.eqb_sym.
  - set (h' := λ k, match k with O => b | S k => h k end) in *.
    change (fbit C h' (S (S k)) j) with
      (xorb (fbit C h' (S k) j) (h' (S k) && (Z.of_nat (S k) mod C =? j))).
    rewrite IH. cbn [fbit h']. rewrite Nat2Z.inj_succ, succ_mod by done. by rewrite xorb_assoc.
Qed.

(** The step of [FoldedHistory::update] on the folded register. *)
Lemma folded_step C b h n :
  0 < C < 32 → (0 < n)%nat →
  let h' := λ k, match k with O => b | S k => h k end in
  let x := Z.lor (u32 (Z.shiftl (folded C h n) 1)) (b2z b) in
  let x := Z.lxor x (Z.shiftl (b2z (h' n)) (Z.of_nat n mod C)) in
  let x := Z.lxor x (Z.shiftr x C) in
  u32 (Z.land x (2 ^ C - 1)) = folded C h' n.
Proof.
  intros HC Hn h' x x1 x2.
  pose proof (folded_range C h n ltac:(lia)) as Hr. pose proof (folded_range C h' n ltac:(lia)) as Hr'.
  assert (2 ^ C ≤ 2 ^ 31) by (apply Z.pow_le_mono_r; lia).
  assert (0 ≤ Z.land x2 (2 ^ C - 1) < 2 ^ C) as Hx2.
  { rewrite land_pow2_mod by lia. apply Z.mod_pos_bound. lia. }
  rewrite u32_id by (unfold is_u32; lia). apply Z.bits_inj'. intros j Hj.
  pose proof (Z.mod_pos_bound (Z.of_nat n) C ltac:(lia)) as Hm.
  assert (∀ i, 0 ≤ i → Z.testbit x1 i =
    xorb ((0 <? i) && fbit C h n (i - 1) || b && (i =? 0)) (h' n && (Z.of_nat n mod C =? i))) as Hx1.
  { intros i Hi. unfold x1, x. rewrite Z.lxor_spec, Z.lor_spec, shiftl_b2z_testbit, b2z_testbit by lia.
    f_equal. f_equal. rewrite u32_id by (unfold is_u32; rewrite Z.shiftl_mul_pow2 by lia; lia).
    rewrite Z.shiftl_spec by lia. destruct (Z.ltb_spec 0 i); cbn.
    - apply folded_testbit; lia.
    - apply Z.testbit_neg_r. lia. }
  rewrite Z.land_spec. replace (2 ^ C - 1) with (Z.ones C) by (rewrite Z.ones_equiv; lia).
  rewrite Z.testbit_ones by lia. rewrite (folded_testbit C h') by lia.
  destruct (Z.ltb_spec j C); cycle 1.
  { rewrite fbit_high by lia. by rewrite !andb_false_r. }
  destruct (Z.leb_spec 0 j); [|lia]. cbn [andb]. rewrite andb_true_r.
  unfold x2. rewrite Z.lxor_spec, Z.shiftr_spec, !Hx1 by lia.
  pose proof (fbit_push C b h n j ltac:(lia) ltac:(lia)) as Hp. fold h' in Hp.
  change (fbit C h' (S n) j) with (xorb (fbit C h' n j) (h' n && (Z.of_nat n mod C =? j))) in Hp.
  assert (fbit C h' n j = xorb (xorb (b && (j =? 0)) (fbit C h n (prev C j)))
    (h' n && (Z.of_nat n mod C =? j))) as ->.
  { rewrite <- Hp. by rewrite xorb_assoc, xorb_nilpotent, xorb_false_r. }
  destruct (Z.eqb_spec (Z.of_nat n mod C) (j + C)); [lia|].
  destruct (Z.ltb_spec 0 (j + C)); [|lia]. destruct (Z.eqb_spec (j + C) 0); [lia|].
  unfold prev. destruct (Z.eqb_spec j 0) as [->|].
  - replace (0 + C - 1) with (C - 1) by lia. cbn [andb].
    destruct (Z.ltb_spec 0 0); [lia|]. cbn [andb orb]. rewrite !andb_true_r, !andb_false_r, orb_false_r, xorb_false_r.
    by destruct b, (fbit C h n (C - 1)), (h' n && (Z.of_nat n mod C =? 0)).
  - destruct (Z.ltb_spec 0 j); [|lia]. cbn [andb]. rewrite (fbit_high C h n (j + C - 1)) by lia.
    rewrite !andb_false_r, !orb_false_r. by destruct (fbit C h n (j - 1)), (h' n && (Z.of_nat n mod C =? j)).
Qed.

End Fold.

Module LTAGE.

(** [BranchInfo], what a prediction remembers for [update] and [squash]. The members
    of the tagged tables and those of the loop predictor are records of their own. *)
Record TageInfo := mkTI {
  hitBank : Z;
  hitBankIndex : Z;
  altBank : Z;
  altBankIndex : Z;
  bimodalIndex : Z;
  tagePred : bool;
  altTaken : bool;
  longestMatchPred : bool;
  pseudoNewAlloc : bool;
  tableIndices : list Z;
  tableTags : list Z;
}.

Record LoopInfo := mkLI {
  loopTag : Z;
  li_currentIter : Z;
  loopPred : bool;
  loopPredValid : bool;
  loopIndex : Z;
  loopHit : Z;
}.

Record BranchInfo := mkBI {
  bi_pathHist : Z;
  bi_ptGhist : Z;
  tage : TageInfo;
  loop : LoopInfo;
  condBranch : bool;
  branchPC : Z;
  ci : list Z;
  ct0 : list Z;
  ct1 : list Z;
}.

Definition with_saved (path pt : Z) (a b c : list Z) (bi : BranchInfo) : BranchInfo :=
  mkBI path pt (tage bi) (loop bi) (condBranch bi) (branchPC bi) a b c.

Record ThreadHistory := mkTH {
  pathHist : Z;
  globalHistory : list Z;
  gHist : Z;                    (** a pointer into [globalHistory], as an index *)
  ptGhist : Z;
  computeIndices : list FoldedHistory.t;
  computeTags0 : list FoldedHistory.t;
  computeTags1 : list FoldedHistory.t;
}.

Definition with_hist (path : Z) (tab : list Z) (h pt : Z) (th : ThreadHistory) : ThreadHistory :=
  mkTH path tab h pt (computeIndices th) (computeTags0 th) (computeTags1 th).
Definition with_folded (a b c : list FoldedHistory.t) (th : ThreadHistory) : ThreadHistory :=
  mkTH (pathHist th) (globalHistory th) (gHist th) (ptGhist th) a b c.

(** [for (int i = 1; i <= nHistoryTables; i++)] *)
Definition for_banks {A} (n : Z) (body : Z → A → res A) (a : A) : res A :=
  foldl (λ acc i, acc ≫= body (Z.of_nat i)) (Ok a) (seq 1 (Z.to_nat n)).

(** The loop that copies the first [maxHist] outcomes to the end of the buffer. *)
Definition roll_over (histBufferSize maxHist : Z) (tab : list Z) : res (list Z) :=
  foldl (λ acc i, acc ≫= λ tab : list Z,
           x ← vget tab (Z.of_nat i); vset tab (histBufferSize - maxHist + Z.of_nat i) x)
    (Ok tab) (seq 0 (Z.to_nat maxHist)).

(** [h], [tab] and [pt] after the call; [h] and [pt] are references. *)
Definition updateGHist (histBufferSize maxHist : Z) (h : Z) (dir : bool) (tab : list Z) (pt : Z)
    : res (Z * list Z * Z) :=
  '(tab, pt, h) ←
    (if pt =? 0 then
       tab ← roll_over histBufferSize maxHist tab;
       let pt := histBufferSize - maxHist in Ok (tab, pt, pt)
     else Ok (tab, pt, h));
  let pt := pt - 1 in
  let h := h - 1 in
  tab ← vset tab h (b2z dir);
  Ok (h, tab, pt).

(** The body of the loop of [updateHistories]: save the registers of a bank,
    then bring them up to date. *)
Definition save_bank (i : Z) (x : ThreadHistory * BranchInfo) : res (ThreadHistory * BranchInfo) :=
  let '(th, bi) := x in
  a ← vget (computeIndices th) i;
  b ← vget (computeTags0 th) i;
  c ← vget (computeTags1 th) i;
  ci' ← vset (ci bi) i (FoldedHistory.comp a);
  ct0' ← vset (ct0 bi) i (FoldedHistory.comp b);
  ct1' ← vset (ct1 bi) i (FoldedHistory.comp c);
  a ← FoldedHistory.update (globalHistory th) (gHist th) a;
  b ← FoldedHistory.update (globalHistory th) (gHist th) b;
  c ← FoldedHistory.update (globalHistory th) (gHist th) c;
  la ← vset (computeIndices th) i a;
  lb ← vset (computeTags0 th) i b;
  lc ← vset (computeTags1 th) i c;
  Ok (with_folded la lb lc th, with_saved (bi_pathHist bi) (bi_ptGhist bi) ci' ct0' ct1' bi).

Definition updateHistories (nHistoryTables histBufferSize maxHist : Z) (branch_pc : Z) (taken : bool)
    (th : ThreadHistory) (bi : BranchInfo) : res (ThreadHistory * BranchInfo) :=
  let pathbit := Z.land branch_pc 1 in
  '(h, tab, pt) ← updateGHist histBufferSize maxHist (gHist th) taken (globalHistory th) (ptGhist th);
  let path := Z.land (Z.shiftl (pathHist th) 1 + pathbit) (2 ^ 16 - 1) in
  for_banks nHistoryTables save_bank
    (with_hist path tab h pt th, with_saved path pt (ci bi) (ct0 bi) (ct1 bi) bi).

(** The loop that [squash(tid, taken, bp_history)] and [btbUpdate] share: the
    saved registers, brought up to date with the corrected outcome. *)
Definition restore_bank (bi : BranchInfo) (i : Z) (th : ThreadHistory) : res ThreadHistory :=
  a ← vget (computeIndices th) i;
  b ← vget (computeTags0 th) i;
  c ← vget (computeTags1 th) i;
  xa ← vget (ci bi) i;
  xb ← vget (ct0 bi) i;
  xc ← vget (ct1 bi) i;
  a ← FoldedHistory.update (globalHistory th) (gHist th) (FoldedHistory.set_comp xa a);
  b ← FoldedHistory.update (globalHistory th) (gHist th) (FoldedHistory.set_comp xb b);
  c ← FoldedHistory.update (globalHistory th) (gHist th) (FoldedHistory.set_comp xc c);
  la ← vset (computeIndices th) i a;
  lb ← vset (computeTags0 th) i b;
  lc ← vset (computeTags1 th) i c;
  Ok (with_folded la lb lc th).

(** The history part of [squash(tid, taken, bp_history)]. *)
Definition squash_history (nHistoryTables : Z) (taken : bool) (bi : BranchInfo) (th : ThreadHistory)
    : res ThreadHistory :=
  tab ← vset (globalHistory th) (bi_ptGhist bi) (b2z taken);
  for_banks nHistoryTables (restore_bank bi)
    (with_hist (bi_pathHist bi) tab (bi_ptGhist bi) (bi_ptGhist bi) th).

(** [btbUpdate]: the outcome becomes not taken. *)
Definition btbUpdate_history (nHistoryTables : Z) (bi : BranchInfo) (th : ThreadHistory)
    : res ThreadHistory :=
  _ ← assert_ (gHist th =? ptGhist th);
  tab ← vset (globalHistory th) (gHist th) 0;
  for_banks nHistoryTables (restore_bank bi) (with_hist (pathHist th) tab (gHist th) (ptGhist th) th).

(** The constructor's part: an empty buffer, and uninitialised registers. *)
Definition empty_history (indet : FoldedHistory.t) (nHistoryTables histBufferSize : Z) : ThreadHistory :=
  let n := Z.to_nat (nHistoryTables + 1) in
  mkTH 0 (replicate (Z.to_nat histBufferSize) 0) 0 0
    (replicate n indet) (replicate n indet) (replicate n indet).

(** Then the registers of each bank are initialised for the history length, index
    width and tag width of the bank. Entry 0 of the arrays never is. *)
Definition create_history (indet : FoldedHistory.t) (nHistoryTables histBufferSize : Z)
    (histLengths tagTableSizes tagWidths : list Z) : res ThreadHistory :=
  for_banks nHistoryTables (λ i th,
      len ← vget histLengths i;
      sz ← vget tagTableSizes i;
      w ← vget tagWidths i;
      a ← FoldedHistory.init len sz;
      b ← FoldedHistory.init (FoldedHistory.origLength a) w;
      c ← FoldedHistory.init (FoldedHistory.origLength a) (w - 1);
      la ← vset (computeIndices th) i a;
      lb ← vset (computeTags0 th) i b;
      lc ← vset (computeTags1 th) i c;
      Ok (with_folded la lb lc th))
    (empty_history indet nHistoryTables histBufferSize).

(** A new [BranchInfo]; its arrays are not initialised. *)
Definition new_info (indet nHistoryTables : Z) : BranchInfo :=
  let l := replicate (Z.to_nat (nHistoryTables + 1)) indet in
  mkBI 0 0 (mkTI 0 0 0 0 0 false false false false l l) (mkLI 0 0 false false 0 0) false 0 l l l.

(** The histories after a sequence of predicted branches, oldest first. *)
Fixpoint predict_all (indet nHistoryTables histBufferSize maxHist : Z) (branches : list (Z * bool))
    (th : ThreadHistory) : res ThreadHistory :=
  match branches with
  | [] => Ok th
  | (pc, taken) :: rest =>
      '(th, _) ← updateHistories nHistoryTables histBufferSize maxHist pc taken th (new_info indet nHistoryTables);
      predict_all indet nHistoryTables histBufferSize maxHist rest th
  end.

(** ** Invariant *)

(** Outcome [k] branches ago, of a list that starts with the newest. *)
Definition outcome (bs : list bool) (k : nat) : bool := nth k bs false.

(** The register that folds the last [L] outcomes to [C] bits. *)
Definition reg (L C : Z) (bs : list bool) : FoldedHistory.t :=
  FoldedHistory.mk (Fold.folded C (outcome bs) (Z.to_nat L)) C L (L mod C).

Lemma for_banks_ind {A} (n : Z) (body : Z → A → res A) (P : Z → A → Prop) a :
  0 ≤ n → P 0 a → (∀ i x, 1 ≤ i ≤ n → P (i - 1) x → returns (body i x) (P i)) →
  returns (for_banks n body a) (P n).
Proof.
  intros Hn H0 Hs. unfold for_banks.
  assert (∀ k, (k ≤ Z.to_nat n)%nat →
    returns (foldl (λ acc i, acc ≫= body (Z.of_nat i)) (Ok a) (seq 1 k)) (P (Z.of_nat k))) as Hk.
  { induction k as [|k IH]; intros Hle; [done|]. rewrite seq_S, foldl_app. cbn [foldl].
    apply returns_bind. eapply returns_mono; [apply IH; lia|]. intros x Hx.
    replace (Z.of_nat (S k)) with (Z.of_nat (1 + k)) by lia. apply Hs; [lia|].
    by replace (Z.of_nat (1 + k) - 1) with (Z.of_nat k) by lia. }
  specialize (Hk (Z.to_nat n) ltac:(lia)). by rewrite Z2Nat.id in Hk by lia.
Qed.

Section histories.
Context (n size m : Z) (L Ci Ct0 Ct1 : Z → Z).

(** The geometry the constructor gives the registers. *)
Record geometry : Prop := {
  g_banks : 0 ≤ n;
  g_hist : 0 < m ∧ 2 * m < size;
  g_len j : 1 ≤ j ≤ n → 1 ≤ L j ≤ m;
  g_ci j : 1 ≤ j ≤ n → 0 < Ci j < 32;
  g_ct0 j : 1 ≤ j ≤ n → 0 < Ct0 j < 32;
  g_ct1 j : 1 ≤ j ≤ n → 0 < Ct1 j < 32;
}.

Record buffer_holds (tab : list Z) (pt : Z) (bs : list bool) : Prop := {
  bh_len : vlen tab = size;
  bh_range : 0 ≤ pt < size - m;
  bh_bits k : 0 ≤ k ≤ m → tab !! Z.to_nat (pt + k) = Some (b2z (outcome bs (Z.to_nat k)));
}.

(** The registers of all banks, bank [j] with the outcomes [f j]. *)
Definition bank_regs (C : Z → Z) (f : Z → list bool) (l : list FoldedHistory.t) : Prop :=
  vlen l = n + 1 ∧ ∀ j, 1 ≤ j ≤ n → l !! Z.to_nat j = Some (reg (L j) (C j) (f j)).

(** The saved registers of the first [i] banks. *)
Definition saved (C : Z → Z) (i : Z) (bs : list bool) (l : list Z) : Prop :=
  vlen l = n + 1 ∧
  ∀ j, 1 ≤ j ≤ i → l !! Z.to_nat j = Some (Fold.folded (C j) (outcome bs) (Z.to_nat (L j))).

Definition all_regs (f : Z → list bool) (th : ThreadHistory) : Prop :=
  bank_regs Ci f (computeIndices th) ∧ bank_regs Ct0 f (computeTags0 th) ∧ bank_regs Ct1 f (computeTags1 th).

Definition all_saved (i : Z) (bs : list bool) (bi : BranchInfo) : Prop :=
  saved Ci i bs (ci bi) ∧ saved Ct0 i bs (ct0 bi) ∧ saved Ct1 i bs (ct1 bi).

(** The thread's history after the outcomes [bs], newest first. *)
Record history_ok (th : ThreadHistory) (bs : list bool) : Prop := {
  ho_buffer : buffer_holds (globalHistory th) (ptGhist th) bs;
  ho_ptr : gHist th = ptGhist th;
  ho_regs : all_regs (λ _, bs) th;
}.

Context (G : geometry).

(** One register, one outcome. *)
Lemma reg_update tab pt len C b bs :
  buffer_holds tab pt (b :: bs) → 1 ≤ len ≤ m → 0 < C < 32 →
  FoldedHistory.update tab pt (reg len C bs) = Ok (reg len C (b :: bs)).
Proof.
  intros [Hl Hr Hb] Hlen HC. pose proof (g_hist G) as [? ?]. unfold FoldedHistory.update.
  rewrite (vget_in _ pt (b2z b)); cycle 1.
  { lia. } { specialize (Hb 0 ltac:(lia)). by replace (pt + 0) with pt in Hb by lia. }
  cbn [mbind res_bind FoldedHistory.origLength reg].
  rewrite (vget_in _ (pt + len) (b2z (outcome (b :: bs) (Z.to_nat len)))); [|lia|apply Hb; lia].
  cbn [mbind res_bind FoldedHistory.outpoint FoldedHistory.compLength FoldedHistory.comp reg].
  pose proof (Z.mod_pos_bound len C ltac:(lia)) as Hm.
  assert (2 ^ (len mod C) ≤ 2 ^ 30) by (apply Z.pow_le_mono_r; lia).
  assert (0 < 2 ^ (len mod C)) by (apply Z.pow_pos_nonneg; lia).
  rewrite shl_int_in; [|lia|destruct (outcome _ _); cbn; lia|destruct (outcome _ _); unfold b2z; lia].
  rewrite <- Z.shiftl_mul_pow2 by lia. cbn [mbind res_bind].
  rewrite shr32_in by lia. cbn [mbind res_bind]. rewrite shl64_in by lia. cbn [mbind res_bind].
  rewrite Z.shiftl_1_l, u64_id; cycle 1.
  { unfold is_u64. pose proof (Z.pow_pos_nonneg 2 C). assert (2 ^ C < 2 ^ 64) by (apply Z.pow_lt_mono_r; lia). lia. }
  pose proof (Fold.folded_step C b (outcome bs) (Z.to_nat len) ltac:(lia) ltac:(lia)) as Hs.
  cbv zeta in Hs. unfold reg, FoldedHistory.set_comp. cbn [FoldedHistory.compLength FoldedHistory.origLength FoldedHistory.outpoint].
  rewrite Z2Nat.id in Hs by lia. f_equal. f_equal. exact Hs.
Qed.

Lemma bank_regs_get C f l j : bank_regs C f l → 1 ≤ j ≤ n → vget l j = Ok (reg (L j) (C j) (f j)).
Proof. intros [Hl Hb] Hj. apply vget_in; [lia|by apply Hb]. Qed.

(** The registers while the loop is at bank [i]. *)
Definition upto (i : Z) (bs' bs : list bool) (j : Z) : list bool := if j <=? i then bs' else bs.

Lemma bank_regs_set C l i bs' bs :
  bank_regs C (upto (i - 1) bs' bs) l → 1 ≤ i ≤ n →
  vset l i (reg (L i) (C i) bs') = Ok (<[Z.to_nat i := reg (L i) (C i) bs']> l) ∧
  bank_regs C (upto i bs' bs) (<[Z.to_nat i := reg (L i) (C i) bs']> l).
Proof.
  intros [Hl Hb] Hi. split; [apply vset_in; lia|]. split; [by rewrite vlen_insert|].
  intros j Hj. unfold upto in *. destruct (decide (j = i)) as [->|].
  - rewrite vlookup_insert_eq by lia. by destruct (Z.leb_spec i i); [|lia].
  - rewrite vlookup_insert_ne by lia. rewrite Hb by done.
    destruct (Z.leb_spec j (i - 1)), (Z.leb_spec j i); (done || lia).
Qed.

Lemma saved_set C l i bs :
  saved C (i - 1) bs l → 1 ≤ i ≤ n →
  let x := Fold.folded (C i) (outcome bs) (Z.to_nat (L i)) in
  vset l i x = Ok (<[Z.to_nat i := x]> l) ∧ saved C i bs (<[Z.to_nat i := x]> l).
Proof.
  intros [Hl Hb] Hi. split; [apply vset_in; lia|]. split; [by rewrite vlen_insert|].
  intros j Hj. destruct (decide (j = i)) as [->|]; [by rewrite vlookup_insert_eq by lia|].
  rewrite vlookup_insert_ne by lia. apply Hb. lia.
Qed.

Lemma upto_last i bs' bs : upto (i - 1) bs' bs i = bs.
Proof. unfold upto. destruct (Z.leb_spec i (i - 1)); [lia|done]. Qed.

(** The loop of [updateHistories]. *)
Lemma save_banks th bi b bs :
  buffer_holds (globalHistory th) (gHist th) (b :: bs) → all_regs (λ _, bs) th → all_saved 0 bs bi →
  returns (for_banks n save_bank (th, bi)) (λ r,
    all_regs (λ _, b :: bs) r.1 ∧ all_saved n bs r.2 ∧
    pathHist r.1 = pathHist th ∧ globalHistory r.1 = globalHistory th ∧ gHist r.1 = gHist th ∧
    ptGhist r.1 = ptGhist th ∧ bi_pathHist r.2 = bi_pathHist bi ∧ bi_ptGhist r.2 = bi_ptGhist bi).
Proof.
  intros Hb Hr Hs. pose proof (g_banks G).
  eapply returns_mono; [apply (for_banks_ind n save_bank (λ i x,
    all_regs (upto i (b :: bs) bs) x.1 ∧ all_saved i bs x.2 ∧
    pathHist x.1 = pathHist th ∧ globalHistory x.1 = globalHistory th ∧ gHist x.1 = gHist th ∧
    ptGhist x.1 = ptGhist th ∧ bi_pathHist x.2 = bi_pathHist bi ∧ bi_ptGhist x.2 = bi_ptGhist bi) (th, bi))|].
  - done.
  - split_and!; try done. destruct Hr as ((E1 & R1) & (E2 & R2) & (E3 & R3)).
    unfold all_regs, bank_regs, upto. split_and!; try done; intros j Hj; destruct (Z.leb_spec j 0); (lia || auto).
  - intros i [th1 bi1] Hi ((R1 & R2 & R3) & (S1 & S2 & S3) & P1 & P2 & P3 & P4 & P5 & P6). cbn [fst snd] in *.
    unfold save_bank. rewrite <- P2, <- P3 in Hb.
    rewrite (bank_regs_get _ _ _ i R1), (bank_regs_get _ _ _ i R2), (bank_regs_get _ _ _ i R3) by done.
    rewrite upto_last. cbn [mbind res_bind FoldedHistory.comp reg].
    destruct (saved_set Ci _ i bs S1 Hi) as [-> S1'], (saved_set Ct0 _ i bs S2 Hi) as [-> S2'],
      (saved_set Ct1 _ i bs S3 Hi) as [-> S3']. cbn [mbind res_bind].
    fold (reg (L i) (Ci i) bs) (reg (L i) (Ct0 i) bs) (reg (L i) (Ct1 i) bs).
    rewrite !(reg_update _ _ _ _ b bs Hb) by (apply G; lia). cbn [mbind res_bind].
    destruct (bank_regs_set Ci _ i (b :: bs) bs R1 Hi) as [-> R1'], (bank_regs_set Ct0 _ i (b :: bs) bs R2 Hi) as [-> R2'],
      (bank_regs_set Ct1 _ i (b :: bs) bs R3 Hi) as [-> R3']. cbn [mbind res_bind returns fst snd].
    split_and!; done.
  - intros [th1 bi1] (R & S & P). split_and!; try done; try apply P.
    destruct R as ((E1 & R1) & (E2 & R2) & (E3 & R3)).
    split_and!; (split; [done|]); intros j Hj; rewrite ?R1, ?R2, ?R3 by done;
      unfold upto; by destruct (Z.leb_spec j n); [|lia].
Qed.

(** Registers of the right geometry, whatever they hold. *)
Definition bank_shape (C : Z → Z) (l : list FoldedHistory.t) : Prop :=
  vlen l = n + 1 ∧ ∀ j, 1 ≤ j ≤ n → ∃ c, l !! Z.to_nat j = Some (FoldedHistory.mk c (C j) (L j) (L j mod C j)).

Definition all_shape (th : ThreadHistory) : Prop :=
  bank_shape Ci (computeIndices th) ∧ bank_shape Ct0 (computeTags0 th) ∧ bank_shape Ct1 (computeTags1 th).

Lemma bank_regs_shape C f l : bank_regs C f l → bank_shape C l.
Proof. intros [Hl Hb]. split; [done|]. intros j Hj. rewrite Hb by done. by eexists. Qed.

Lemma bank_shape_get C l i bs sv :
  bank_shape C l → saved C n bs sv → 1 ≤ i ≤ n →
  ∃ f, vget l i = Ok f ∧ vget sv i = Ok (Fold.folded (C i) (outcome bs) (Z.to_nat (L i))) ∧
       FoldedHistory.set_comp (Fold.folded (C i) (outcome bs) (Z.to_nat (L i))) f = reg (L i) (C i) bs.
Proof.
  intros [Hl Hb] [Hs Hv] Hi. destruct (Hb i Hi) as [c Hc]. eexists. split_and!.
  - apply vget_in; [lia|exact Hc].
  - apply vget_in; [lia|by apply Hv].
  - done.
Qed.

(** What the restoring loop keeps at bank [i]. *)
Definition restored (i : Z) (bs : list bool) (C : Z → Z) (l : list FoldedHistory.t) : Prop :=
  bank_shape C l ∧ ∀ j, 1 ≤ j ≤ i → l !! Z.to_nat j = Some (reg (L j) (C j) bs).

Lemma restored_set C l i bs :
  restored (i - 1) bs C l → 1 ≤ i ≤ n →
  vset l i (reg (L i) (C i) bs) = Ok (<[Z.to_nat i := reg (L i) (C i) bs]> l) ∧
  restored i bs C (<[Z.to_nat i := reg (L i) (C i) bs]> l).
Proof.
  intros [[Hl Hs] Hb] Hi. split; [apply vset_in; lia|]. split; [split; [by rewrite vlen_insert|]|].
  - intros j Hj. destruct (decide (j = i)) as [->|].
    + rewrite vlookup_insert_eq by lia. by eexists.
    + rewrite vlookup_insert_ne by lia. by apply Hs.
  - intros j Hj. destruct (decide (j = i)) as [->|]; [by rewrite vlookup_insert_eq by lia|].
    rewrite vlookup_insert_ne by lia. apply Hb. lia.
Qed.

Lemma restore_banks th bi b bs :
  buffer_holds (globalHistory th) (gHist th) (b :: bs) → all_shape th → all_saved n bs bi →
  returns (for_banks n (restore_bank bi) th) (λ th',
    all_regs (λ _, b :: bs) th' ∧ pathHist th' = pathHist th ∧ globalHistory th' = globalHistory th ∧
    gHist th' = gHist th ∧ ptGhist th' = ptGhist th).
Proof.
  intros Hb Hsh (S1 & S2 & S3). pose proof (g_banks G).
  eapply returns_mono; [apply (for_banks_ind n (restore_bank bi) (λ i x,
    (restored i (b :: bs) Ci (computeIndices x) ∧ restored i (b :: bs) Ct0 (computeTags0 x) ∧
     restored i (b :: bs) Ct1 (computeTags1 x)) ∧
    pathHist x = pathHist th ∧ globalHistory x = globalHistory th ∧
    gHist x = gHist th ∧ ptGhist x = ptGhist th) th)|].
  - done.
  - destruct Hsh as (H1 & H2 & H3). split_and!; try done; (split; [done|intros; lia]).
  - intros i x Hi ((R1 & R2 & R3) & P1 & P2 & P3 & P4). rewrite <- P2, <- P3 in Hb. unfold restore_bank.
    destruct (bank_shape_get Ci _ i bs _ (proj1 R1) S1 Hi) as (fa & -> & Va & Ea).
    destruct (bank_shape_get Ct0 _ i bs _ (proj1 R2) S2 Hi) as (fb & -> & Vb & Eb).
    destruct (bank_shape_get Ct1 _ i bs _ (proj1 R3) S3 Hi) as (fc & -> & Vc & Ec).
    cbn [mbind res_bind]. rewrite Va. cbn [mbind res_bind]. rewrite Vb. cbn [mbind res_bind].
    rewrite Vc. cbn [mbind res_bind]. rewrite Ea, Eb, Ec.
    rewrite !(reg_update _ _ _ _ b bs Hb) by (apply G; lia). cbn [mbind res_bind].
    destruct (restored_set Ci _ i (b :: bs) R1 Hi) as [-> R1'], (restored_set Ct0 _ i (b :: bs) R2 Hi) as [-> R2'],
      (restored_set Ct1 _ i (b :: bs) R3 Hi) as [-> R3']. cbn [mbind res_bind returns]. split_and!; done.
  - intros x (([[E1 _] R1] & [[E2 _] R2] & [[E3 _] R3]) & P). split; [|done].
    split_and!; (split; [done|]); intros j Hj; by rewrite ?R1, ?R2, ?R3.
Qed.

(** ** The outcome buffer *)

Lemma roll_over_Ok tab :
  vlen tab = size →
  ∃ tab', roll_over size m tab = Ok tab' ∧ vlen tab' = size ∧
    (∀ q, 0 ≤ q < m → tab' !! Z.to_nat (size - m + q) = tab !! Z.to_nat q) ∧
    (∀ q, 0 ≤ q < size - m → tab' !! Z.to_nat q = tab !! Z.to_nat q).
Proof.
  intros Hl. pose proof (g_hist G) as [Hm Hs]. unfold roll_over.
  set (f := λ acc i, acc ≫= λ tab : list Z, x ← vget tab (Z.of_nat i); vset tab (size - m + Z.of_nat i) x).
  assert (∀ k, (k ≤ Z.to_nat m)%nat → ∃ tab', foldl f (Ok tab) (seq 0 k) = Ok tab' ∧ vlen tab' = size ∧
    (∀ q, 0 ≤ q < Z.of_nat k → tab' !! Z.to_nat (size - m + q) = tab !! Z.to_nat q) ∧
    (∀ q, 0 ≤ q < size - m → tab' !! Z.to_nat q = tab !! Z.to_nat q)) as Hk.
  { induction k as [|k IH]; intros Hle; [exists tab; split_and!; (done || lia)|].
    destruct IH as (t1 & E & Hl1 & H1 & H2); [lia|]. rewrite seq_S, foldl_app, E. cbn [foldl]. unfold f at 1.
    cbn [mbind res_bind]. rewrite Nat.add_0_l.
    destruct (vlookup_lt tab (Z.of_nat k)) as [x Hx]; [lia|].
    rewrite (vget_in _ _ x) by (lia || rewrite H2 by lia; done). cbn [mbind res_bind].
    rewrite vset_in by lia. eexists. split_and!; [done|by rewrite vlen_insert| |].
    - intros q Hq. destruct (decide (q = Z.of_nat k)) as [->|].
      + by rewrite vlookup_insert_eq by lia.
      + rewrite vlookup_insert_ne by lia. apply H1. lia.
    - intros q Hq. rewrite vlookup_insert_ne by lia. by apply H2. }
  destruct (Hk (Z.to_nat m) ltac:(lia)) as (tab' & E & Hl' & H1 & H2). rewrite Z2Nat.id in H1 by lia. eauto.
Qed.

(** Where the next outcome goes. *)
Definition next_pt (pt : Z) : Z := (if pt =? 0 then size - m else pt) - 1.

Lemma updateGHist_Ok tab pt bs b :
  buffer_holds tab pt bs →
  ∃ tab', updateGHist size m pt b tab pt = Ok (next_pt pt, tab', next_pt pt) ∧
    buffer_holds tab' (next_pt pt) (b :: bs) ∧
    (∀ q, 0 ≤ q < size - m → q ≠ next_pt pt → tab' !! Z.to_nat q = tab !! Z.to_nat q) ∧
    (∀ q, size - m ≤ q → pt ≠ 0 → tab' !! Z.to_nat q = tab !! Z.to_nat q).
Proof.
  intros [Hl Hr Hb]. pose proof (g_hist G) as [Hm Hs]. unfold updateGHist, next_pt.
  destruct (Z.eqb_spec pt 0) as [->|].
  - destruct (roll_over_Ok tab Hl) as (t1 & -> & Hl1 & H1 & H2). cbn [mbind res_bind].
    rewrite vset_in by lia. cbn [mbind res_bind]. eexists. split_and!; [done| | |done].
    + split; [by rewrite vlen_insert|lia|]. intros k Hk. destruct (decide (k = 0)) as [->|].
      * rewrite Z.add_0_r, vlookup_insert_eq by lia. done.
      * rewrite vlookup_insert_ne by lia. replace (size - m - 1 + k) with (size - m + (k - 1)) by lia.
        rewrite H1 by lia. specialize (Hb (k - 1) ltac:(lia)). rewrite Z.add_0_l in Hb. rewrite Hb.
        by replace (Z.to_nat k) with (S (Z.to_nat (k - 1))) by lia.
    + intros q Hq Hne. rewrite vlookup_insert_ne by lia. by apply H2.
  - cbn [mbind res_bind]. rewrite vset_in by lia. cbn [mbind res_bind]. eexists. split_and!; [done| | |].
    + split; [by rewrite vlen_insert|lia|]. intros k Hk. destruct (decide (k = 0)) as [->|].
      * rewrite Z.add_0_r, vlookup_insert_eq by lia. done.
      * rewrite vlookup_insert_ne by lia. replace (pt - 1 + k) with (pt + (k - 1)) by lia.
        rewrite Hb by lia. by replace (Z.to_nat k) with (S (Z.to_nat (k - 1))) by lia.
    + intros q Hq Hne. by rewrite vlookup_insert_ne by lia.
    + intros q Hq _. by rewrite vlookup_insert_ne by lia.
Qed.

(** What [updateHistories] leaves in the branch and in the thread. *)
Record predicted (pc : Z) (b : bool) (bs : list bool) (th th' : ThreadHistory) (bi : BranchInfo) : Prop := {
  pr_ok : history_ok th' (b :: bs);
  pr_saved : all_saved n bs bi;
  pr_pt : bi_ptGhist bi = ptGhist th' ∧ bi_pathHist bi = pathHist th';
  pr_next : ptGhist th' = next_pt (ptGhist th);
  pr_path : pathHist th' = Z.land (Z.shiftl (pathHist th) 1 + Z.land pc 1) (2 ^ 16 - 1);
  pr_low q : 0 ≤ q < size - m → q ≠ ptGhist th' →
             globalHistory th' !! Z.to_nat q = globalHistory th !! Z.to_nat q;
  pr_high q : size - m ≤ q → ptGhist th ≠ 0 →
              globalHistory th' !! Z.to_nat q = globalHistory th !! Z.to_nat q;
}.

Definition info_shape (bi : BranchInfo) : Prop :=
  vlen (ci bi) = n + 1 ∧ vlen (ct0 bi) = n + 1 ∧ vlen (ct1 bi) = n + 1.

Lemma updateHistories_ok pc b bs th bi :
  history_ok th bs → info_shape bi →
  returns (updateHistories n size m pc b th bi) (λ r, predicted pc b bs th r.1 r.2).
Proof.
  intros [Hb Hp Hr] (I1 & I2 & I3). unfold updateHistories. rewrite Hp.
  destruct (updateGHist_Ok _ _ _ b Hb) as (tab' & -> & Hb' & Hlow & Hhigh). cbn [mbind res_bind].
  eapply returns_mono; [apply (save_banks _ _ b bs); [exact Hb'|exact Hr|]|].
  - split_and!; (split; [done|intros; lia]).
  - intros [th' bi'] (R & S & P1 & P2 & P3 & P4 & P5 & P6). cbn [fst snd pathHist globalHistory gHist ptGhist
      with_hist with_saved bi_pathHist bi_ptGhist] in *.
    split; [split; [by rewrite P2, P4|congruence|done]|done| |done|done| |].
    + split; congruence.
    + intros q Hq Hne. rewrite P2. apply Hlow; [done|congruence].
    + intros q Hq Hne. rewrite P2. by apply Hhigh.
Qed.

Lemma new_info_shape indet : info_shape (new_info indet n).
Proof. pose proof (g_banks G). split_and!; apply vlen_replicate; lia. Qed.

(** ** Squash *)

(** The buffer of [th], in which the outcomes of [tab0] from index [p] on are
    still there after [k] younger branches. *)
Definition window (p : Z) (tab0 : list Z) (k : Z) (th : ThreadHistory) : Prop :=
  (ptGhist th = p - k ∧ ∀ q, p ≤ q → globalHistory th !! Z.to_nat q = tab0 !! Z.to_nat q) ∨
  (ptGhist th = size - m - (k - p) ∧
   ∀ q, p ≤ q < size - m - (k - p) → globalHistory th !! Z.to_nat q = tab0 !! Z.to_nat q).

Lemma window_step p tab0 k pc b bs th th' bi :
  0 ≤ p → 0 ≤ k → k + 1 < size - 2 * m → window p tab0 k th → history_ok th bs →
  predicted pc b bs th th' bi → window p tab0 (k + 1) th'.
Proof.
  intros Hp Hk Hlt Hw Hok [_ _ _ Hn _ Hlow Hhigh]. pose proof (g_hist G) as [Hm Hs].
  pose proof (bh_range _ _ _ (ho_buffer _ _ Hok)) as Hr. unfold next_pt in Hn.
  destruct Hw as [[Ept Hw]|[Ept Hw]].
  - destruct (Z.eqb_spec (ptGhist th) 0) as [E0|].
    + right. split; [lia|]. intros q Hq. rewrite Hlow by lia. apply Hw. lia.
    + left. split; [lia|]. intros q Hq. destruct (Z.lt_ge_cases q (size - m)).
      * rewrite Hlow by lia. by apply Hw.
      * rewrite Hhigh by lia. by apply Hw.
  - destruct (Z.eqb_spec (ptGhist th) 0); [lia|].
    right. split; [lia|]. intros q Hq. rewrite Hlow by lia. apply Hw. lia.
Qed.

Lemma predict_all_ok indet branches bs th p tab0 k :
  history_ok th bs → 0 ≤ p → 0 ≤ k → window p tab0 k th → k + Z.of_nat (length branches) < size - 2 * m →
  returns (predict_all indet n size m branches th) (λ th',
    history_ok th' (rev branches.*2 ++ bs) ∧ window p tab0 (k + Z.of_nat (length branches)) th').
Proof.
  revert bs th k. induction branches as [|[pc b] rest IH]; intros bs th k Hok Hp Hk Hw Hlt; cbn [predict_all].
  - cbn. by rewrite Z.add_0_r.
  - apply returns_bind. eapply returns_mono; [apply updateHistories_ok; [done|apply new_info_shape]|].
    intros [th1 bi1] Hpr. cbn [fst snd] in Hpr. cbn [length] in Hlt.
    eapply returns_mono; [apply (IH (b :: bs) th1 (k + 1)); [apply Hpr|lia|lia| |lia]|].
    + by apply (window_step p tab0 k pc b bs th th1 bi1); [lia|lia|lia|..].
    + intros th2 [Hok2 Hw2]. cbn [fmap list_fmap rev length]. split.
      * by rewrite <- app_assoc.
      * by replace (k + Z.of_nat (S (length rest))) with (k + 1 + Z.of_nat (length rest)) by lia.
Qed.

(** The same without the bound, and without the window. *)
Lemma predict_all_history indet branches bs th :
  history_ok th bs →
  returns (predict_all indet n size m branches th) (λ th', history_ok th' (rev branches.*2 ++ bs)).
Proof.
  revert bs th. induction branches as [|[pc b] rest IH]; intros bs th Hok; cbn [predict_all]; [done|].
  apply returns_bind. eapply returns_mono; [apply updateHistories_ok; [done|apply new_info_shape]|].
  intros [th1 bi1] Hpr. cbn [fst snd] in Hpr. eapply returns_mono; [apply (IH (b :: bs) th1), Hpr|].
  intros th2 Hok2. cbn [fmap list_fmap rev]. by rewrite <- app_assoc.
Qed.

Lemma history_shape th bs : history_ok th bs → all_shape th.
Proof. intros [_ _ (R1 & R2 & R3)]. split_and!; by eapply bank_regs_shape. Qed.

(** Restoring a branch whose outcomes are still in the buffer. *)
Lemma squash_history_ok th bi b bs :
  all_shape th → all_saved n bs bi → vlen (globalHistory th) = size → 0 ≤ bi_ptGhist bi < size - m →
  (∀ k, 1 ≤ k ≤ m → globalHistory th !! Z.to_nat (bi_ptGhist bi + k) = Some (b2z (outcome bs (Z.to_nat (k - 1))))) →
  returns (squash_history n b bi th) (λ th', history_ok th' (b :: bs) ∧ pathHist th' = bi_pathHist bi).
Proof.
  intros Hsh Hsv Hl Hr Hb. pose proof (g_hist G) as [Hm Hs]. unfold squash_history.
  rewrite vset_in by lia. cbn [mbind res_bind]. set (p := bi_ptGhist bi) in *.
  set (th1 := with_hist _ _ _ _ _).
  assert (buffer_holds (globalHistory th1) (gHist th1) (b :: bs)) as Hb1.
  { split; cbn; [by rewrite vlen_insert|lia|]. intros k Hk. destruct (decide (k = 0)) as [->|].
    - rewrite Z.add_0_r, vlookup_insert_eq by lia. done.
    - rewrite vlookup_insert_ne by lia. rewrite Hb by lia.
      by replace (Z.to_nat k) with (S (Z.to_nat (k - 1))) by lia. }
  eapply returns_mono; [by apply (restore_banks th1 bi b bs)|].
  intros th' (R & P1 & P2 & P3 & P4). split; [|done]. split; [by rewrite P2, P4|by rewrite P3, P4|done].
Qed.

(** ** The constructor *)
Lemma folded_zero C k : Fold.folded C (outcome []) k = 0.
Proof.
  induction k as [|k IH]; [done|]. cbn [Fold.folded]. rewrite IH. unfold outcome. rewrite nth_overflow by (cbn; lia).
  cbn [b2z]. by rewrite Z.shiftl_0_l.
Qed.

Lemma init_reg len C : 0 < C → FoldedHistory.init len C = Ok (reg len C []).
Proof.
  intros HC. unfold FoldedHistory.init, umod, reg. destruct (Z.eqb_spec C 0); [lia|].
  cbn [negb guard_ mbind res_bind]. by rewrite folded_zero.
Qed.

(** The lengths and widths the constructor reads for each bank. *)
Definition bank_params (histLengths tagTableSizes tagWidths : list Z) : Prop :=
  ∀ j, 1 ≤ j ≤ n →
    vget histLengths j = Ok (L j) ∧ vget tagTableSizes j = Ok (Ci j) ∧ vget tagWidths j = Ok (Ct0 j) ∧
    Ct1 j = Ct0 j - 1.

Definition fresh_upto (i : Z) (C : Z → Z) (l : list FoldedHistory.t) : Prop :=
  vlen l = n + 1 ∧ ∀ j, 1 ≤ j ≤ i → l !! Z.to_nat j = Some (reg (L j) (C j) []).

Lemma fresh_set C l i :
  fresh_upto (i - 1) C l → 1 ≤ i ≤ n →
  vset l i (reg (L i) (C i) []) = Ok (<[Z.to_nat i := reg (L i) (C i) []]> l) ∧
  fresh_upto i C (<[Z.to_nat i := reg (L i) (C i) []]> l).
Proof.
  intros [Hl Hb] Hi. split; [apply vset_in; lia|]. split; [by rewrite vlen_insert|].
  intros j Hj. destruct (decide (j = i)) as [->|]; [by rewrite vlookup_insert_eq by lia|].
  rewrite vlookup_insert_ne by lia. apply Hb. lia.
Qed.

Lemma create_history_fresh indet histLengths tagTableSizes tagWidths :
  bank_params histLengths tagTableSizes tagWidths →
  returns (create_history indet n size histLengths tagTableSizes tagWidths) (λ th,
    history_ok th [] ∧ globalHistory th = replicate (Z.to_nat size) 0 ∧ pathHist th = 0).
Proof.
  intros Hp. pose proof (g_banks G) as Hn. pose proof (g_hist G) as [Hm Hs]. unfold create_history.
  eapply returns_mono; [apply (for_banks_ind n _ (λ i th,
    (fresh_upto i Ci (computeIndices th) ∧ fresh_upto i Ct0 (computeTags0 th) ∧ fresh_upto i Ct1 (computeTags1 th)) ∧
    globalHistory th = replicate (Z.to_nat size) 0 ∧ gHist th = 0 ∧ ptGhist th = 0 ∧ pathHist th = 0)); [done| |]|].
  - split_and!; try done; (split; [apply vlen_replicate; lia|intros; lia]).
  - intros i th Hi ((R1 & R2 & R3) & P). destruct (Hp i Hi) as (-> & -> & -> & E1). cbn [mbind res_bind].
    pose proof (g_ci G i Hi). pose proof (g_ct0 G i Hi). pose proof (g_ct1 G i Hi).
    rewrite init_reg by lia. cbn [mbind res_bind FoldedHistory.origLength reg]. rewrite <- E1.
    rewrite !init_reg by lia. cbn [mbind res_bind]. fold (reg (L i) (Ci i) []).
    destruct (fresh_set Ci _ i R1 Hi) as [-> R1'], (fresh_set Ct0 _ i R2 Hi) as [-> R2'],
      (fresh_set Ct1 _ i R3 Hi) as [-> R3']. cbn [mbind res_bind returns]. split_and!; try done; apply P.
  - intros th (([E1 R1] & [E2 R2] & [E3 R3]) & P1 & P2 & P3 & P4). split; [|done]. split; [|congruence|by split_and!].
    rewrite P1, P3. split; [apply vlen_replicate; lia|lia|]. intros k Hk.
    rewrite lookup_replicate_2 by lia. unfold outcome. by rewrite nth_overflow by (cbn; lia).
Qed.

Lemma create_history_ok indet histLengths tagTableSizes tagWidths :
  bank_params histLengths tagTableSizes tagWidths →
  returns (create_history indet n size histLengths tagTableSizes tagWidths) (λ th, history_ok th []).
Proof. intros Hp. eapply returns_mono; [by apply create_history_fresh|]. by intros th [H _]. Qed.

End histories.

(** ** Theorems *)

(** C34: the constant-time update of the folded registers is right. From the
    constructor on, whatever branches are predicted, and however often the buffer
    has rolled over, the buffer pointer shows the last [maxHist] outcomes, and
    every register of every bank is the fold of the last [origLength] outcomes:
    the exclusive or of outcome [k] at bit [k mod compLength]. *)
Theorem ltage_folded_histories (n size m : Z) (L Ci Ct0 Ct1 : Z → Z) (f0 : FoldedHistory.t) (indet : Z)
    (histLengths tagTableSizes tagWidths : list Z) (branches : list (Z * bool)) :
  geometry n size m L Ci Ct0 Ct1 → bank_params n L Ci Ct0 Ct1 histLengths tagTableSizes tagWidths →
  returns (th ← create_history f0 n size histLengths tagTableSizes tagWidths;
           predict_all indet n size m branches th) (λ th,
    let h := outcome (rev branches.*2) in
    (∀ k, 0 ≤ k ≤ m → vget (globalHistory th) (gHist th + k) = Ok (b2z (h (Z.to_nat k)))) ∧
    ∀ j, 1 ≤ j ≤ n → ∃ a b c,
      vget (computeIndices th) j = Ok a ∧ FoldedHistory.comp a = Fold.folded (Ci j) h (Z.to_nat (L j)) ∧
      vget (computeTags0 th) j = Ok b ∧ FoldedHistory.comp b = Fold.folded (Ct0 j) h (Z.to_nat (L j)) ∧
      vget (computeTags1 th) j = Ok c ∧ FoldedHistory.comp c = Fold.folded (Ct1 j) h (Z.to_nat (L j))).
Proof.
  intros G Hp. apply returns_bind. eapply returns_mono; [by eapply create_history_ok|]. intros th0 Hok0.
  cbn beta in Hok0. eapply returns_mono; [exact (predict_all_history n size m L Ci Ct0 Ct1 G indet branches [] th0 Hok0)|].
  rewrite app_nil_r. intros th [[_ Hr Hb] Hptr (R1 & R2 & R3)]. split.
  - intros k Hk. rewrite Hptr. apply vget_in; [lia|]. by apply Hb.
  - intros j Hj. eexists _, _, _. split_and!; try (by eapply bank_regs_get); done.
Qed.

(** Repair after a misprediction. A branch is predicted, then fewer than
    [histBufferSize - 2 * maxHist] younger branches are, which may roll the buffer
    over, and then the branch resolves: the history part of [squash] gives the
    buffer, the folded registers and the path history that predicting the right
    outcome would have left. A BTB miss right after the prediction likewise turns
    the outcome to not taken. *)
Theorem ltage_squash_corrects_history (n size m : Z) (L Ci Ct0 Ct1 : Z → Z) (indet : Z)
    (th : ThreadHistory) (bi : BranchInfo) (bs : list bool) (pc : Z) (b actual : bool)
    (younger : list (Z * bool)) :
  geometry n size m L Ci Ct0 Ct1 → history_ok n size m L Ci Ct0 Ct1 th bs → info_shape n bi →
  Z.of_nat (length younger) < size - 2 * m →
  returns (updateHistories n size m pc b th bi) (λ r,
    returns (predict_all indet n size m younger r.1) (λ th2,
      returns (squash_history n actual r.2 th2) (λ th3,
        history_ok n size m L Ci Ct0 Ct1 th3 (actual :: bs) ∧ pathHist th3 = pathHist r.1)) ∧
    returns (btbUpdate_history n r.2 r.1) (λ th3,
      history_ok n size m L Ci Ct0 Ct1 th3 (false :: bs) ∧ pathHist th3 = pathHist r.1)).
Proof.
  intros G Hok Hi Hlt. pose proof (g_hist _ _ _ _ _ _ _ G) as [Hm Hs].
  eapply returns_mono; [by apply (updateHistories_ok n size m L Ci Ct0 Ct1 G pc b bs)|].
  intros [th1 bi1] [Hok1 Hsv [Hpt Hpath] _ _ _ _]. cbn [fst snd] in *.
  pose proof (ho_buffer _ _ _ _ _ _ _ _ _ Hok1) as [Hl1 Hr1 Hb1].
  assert (∀ k, 1 ≤ k ≤ m → globalHistory th1 !! Z.to_nat (bi_ptGhist bi1 + k) =
    Some (b2z (outcome bs (Z.to_nat (k - 1))))) as Hw1.
  { intros k Hk. rewrite Hpt, Hb1 by lia. by replace (Z.to_nat k) with (S (Z.to_nat (k - 1))) by lia. }
  split.
  - eapply returns_mono; [apply (predict_all_ok n size m L Ci Ct0 Ct1 G indet younger (b :: bs) th1
      (ptGhist th1) (globalHistory th1) 0 Hok1)|]; [lia|lia|left; split; [lia|done]|lia|].
    intros th2 [Hok2 Hwin]. rewrite <- Hpath.
    apply (squash_history_ok n size m L Ci Ct0 Ct1 G); [by eapply history_shape|done|apply Hok2|lia|].
    intros k Hk. rewrite <- Hw1 by done. rewrite Hpt.
    destruct Hwin as [[_ Hw]|[_ Hw]]; apply Hw; lia.
  - unfold btbUpdate_history. rewrite (ho_ptr _ _ _ _ _ _ _ _ _ Hok1), Z.eqb_refl. cbn [assert_ mbind res_bind].
    pose proof (squash_history_ok n size m L Ci Ct0 Ct1 G th1 bi1 false bs
      (history_shape _ _ _ _ _ _ _ _ _ Hok1) Hsv Hl1 ltac:(lia) Hw1) as Hq.
    unfold squash_history in Hq. by rewrite Hpt, Hpath in Hq.
Qed.

(** ** Witnesses *)

(** Two banks of 2 and 3 outcomes, and a buffer of eight. *)
Definition len2 (j : Z) : Z := if j =? 1 then 2 else 3.
Definition width2 (j : Z) : Z := if j =? 1 then 2 else 4.
Definition tagw2 (j : Z) : Z := 5.
Definition tagw2' (j : Z) : Z := 4.

Lemma geometry2 : geometry 2 8 3 len2 width2 tagw2 tagw2'.
Proof.
  split; [lia|lia| | | |]; intros j Hj; unfold len2, width2, tagw2, tagw2'; destruct (j =? 1); lia.
Qed.

Lemma bank_params2 : bank_params 2 len2 width2 tagw2 tagw2' [0; 2; 3] [0; 2; 4] [0; 5; 5].
Proof.
  intros j Hj. assert (j = 1 ∨ j = 2) as [-> | ->] by lia; split_and!; reflexivity.
Qed.

Definition branches6 : list (Z * bool) :=
  [(4, true); (8, true); (12, false); (4, true); (9, false); (4, true)].

Definition history6 : ThreadHistory :=
  ltac:(let r := eval vm_compute in
          (th ← create_history (FoldedHistory.mk 0 0 0 0) 2 8 [0; 2; 3] [0; 2; 4] [0; 5; 5];
           predict_all 0 2 8 3 branches6 th) in
        match r with Ok ?s => exact s end).

(** After six branches the buffer of eight has rolled over; the index register
    of bank 2 folds taken, not taken, taken to 5. *)
Lemma ltage_folded_histories_witness :
  ptGhist history6 = 4 ∧ ∃ a, vget (computeIndices history6) 2 = Ok a ∧ FoldedHistory.comp a = 5.
Proof.
  pose proof (ltage_folded_histories 2 8 3 len2 width2 tagw2 tagw2' (FoldedHistory.mk 0 0 0 0) 0
    [0; 2; 3] [0; 2; 4] [0; 5; 5] branches6 geometry2 bank_params2) as Hf.
  assert ((th ← create_history (FoldedHistory.mk 0 0 0 0) 2 8 [0; 2; 3] [0; 2; 4] [0; 5; 5];
           predict_all 0 2 8 3 branches6 th) = Ok history6) as E by (vm_compute; reflexivity).
  rewrite E in Hf. destruct Hf as [_ Hf]. destruct (Hf 2 ltac:(lia)) as (a & b & c & Ha & Hc & _).
  split; [reflexivity|]. exists a. split; [exact Ha|]. rewrite Hc. vm_compute. reflexivity.
Defined.

Lemma ltage_squash_corrects_history_witness :
  ∃ th bs, history_ok 2 8 3 len2 width2 tagw2 tagw2' th bs ∧
  returns (updateHistories 2 8 3 4 true th (new_info 0 2)) (λ r,
    returns (predict_all 0 2 8 3 [(8, true)] r.1) (λ th2,
      returns (squash_history 2 false r.2 th2) (λ th3,
        history_ok 2 8 3 len2 width2 tagw2 tagw2' th3 (false :: bs)))).
Proof.
  pose proof (create_history_ok 2 8 3 len2 width2 tagw2 tagw2' geometry2 (FoldedHistory.mk 0 0 0 0) _ _ _
    bank_params2) as Hc.
  apply returns_iff in Hc as (th & _ & Hok). exists th, []. split; [exact Hok|].
  eapply returns_mono; [apply (ltage_squash_corrects_history 2 8 3 len2 width2 tagw2 tagw2' 0 th (new_info 0 2) []
    4 true false [(8, true)] geometry2 Hok); [split_and!; reflexivity|cbn; lia]|].
  intros r [Hr _]. eapply returns_mono; [exact Hr|]. intros th2 H2. eapply returns_mono; [exact H2|].
  by intros th3 [H3 _].
Defined.

End LTAGE.
