(* ===== verification/LtageTables.v ===== *)
(** * The tables of the L-TAGE predictor ([cpu/pred/ltage.hh], [ltage.cc])

    The entries of the three tables and the operations on them that do not look at
    the histories: the signed counters of the tagged tables, the bimodal table with
    its hysteresis bit, and the loop predictor, which counts the iterations of a
    loop and predicts its exit once the count has been the same three times. *)

From S2P Require Import Prelude LtageHist.

Import LTAGE.

(** ** Signed counters *)

(** [ctrUpdate(ctr, taken, nbits)]; the comparison in the assertion is unsigned. *)
Definition ctrUpdate (ctr : Z) (taken : bool) (nbits : Z) : res Z :=
  _ ← assert_ (u64 nbits <=? 8);
  h ← shl_int1 (nbits - 1);
  Ok (if taken then (if ctr <? h - 1 then i8 (ctr + 1) else ctr)
      else (if - h <? ctr then i8 (ctr - 1) else ctr)).

(** The range of an [nbits]-bit counter. *)
Definition ctr_ok (nbits ctr : Z) : Prop := - 2 ^ (nbits - 1) ≤ ctr < 2 ^ (nbits - 1).

Lemma ctrUpdate_Ok ctr taken nbits :
  1 ≤ nbits ≤ 8 → ctr_ok nbits ctr →
  ctrUpdate ctr taken nbits =
    Ok (if taken then Z.min (ctr + 1) (2 ^ (nbits - 1) - 1) else Z.max (ctr - 1) (- 2 ^ (nbits - 1))).
Proof.
  intros Hn Hc. unfold ctrUpdate, ctr_ok in *. rewrite u64_id by (unfold is_u64; lia).
  destruct (Z.leb_spec nbits 8); [|lia]. cbn [assert_ mbind res_bind]. rewrite shl_int1_in by lia. cbn [mbind res_bind].
  assert (2 ^ (nbits - 1) ≤ 2 ^ 7) by (apply Z.pow_le_mono_r; lia). f_equal. destruct taken.
  - destruct (Z.ltb_spec ctr (2 ^ (nbits - 1) - 1)); [|lia]. rewrite i8_id by (unfold is_i8; lia). lia.
  - destruct (Z.ltb_spec (- 2 ^ (nbits - 1)) ctr); [|lia]. rewrite i8_id by (unfold is_i8; lia). lia.
Qed.

Lemma returns_ctrUpdate ctr taken nbits (Q : Z → Prop) :
  1 ≤ nbits ≤ 8 → ctr_ok nbits ctr → (∀ c, ctr_ok nbits c → Q c) → returns (ctrUpdate ctr taken nbits) Q.
Proof.
  intros Hn Hc HQ. rewrite ctrUpdate_Ok by done. cbn [returns]. apply HQ. unfold ctr_ok in *.
  assert (0 < 2 ^ (nbits - 1)) by (apply Z.pow_pos_nonneg; lia). destruct taken; lia.
Qed.

(** ** The bimodal table *)
Module BimodalEntry.

Record t := mk { pred : Z; hyst : Z }.
Definition fresh : t := mk 0 1.
Definition ok (e : t) : Prop := 0 ≤ pred e ≤ 1 ∧ 0 ≤ hyst e ≤ 1.

End BimodalEntry.

Definition getBimodePred (btable : list BimodalEntry.t) (bimodalIndex : Z) : res bool :=
  e ← vget btable bimodalIndex; Ok (0 <? BimodalEntry.pred e).

(** Prediction and hysteresis bit as one two-bit counter. *)
Definition baseUpdate (btable : list BimodalEntry.t) (taken : bool) (bimodalIndex : Z)
    : res (list BimodalEntry.t) :=
  e ← vget btable bimodalIndex;
  let inter := Z.shiftl (BimodalEntry.pred e) 1 + BimodalEntry.hyst e in
  let inter :=
    if taken then (if inter <? 3 then inter + 1 else inter)
    else if 0 <? inter then inter - 1 else inter in
  vset btable bimodalIndex (BimodalEntry.mk (u8 (Z.shiftr inter 1)) (Z.land inter 1)).

(** The counter an entry stands for. *)
Definition bimodal_count (e : BimodalEntry.t) : Z := 2 * BimodalEntry.pred e + BimodalEntry.hyst e.

Lemma baseUpdate_Ok btable taken i e :
  0 ≤ i → btable !! Z.to_nat i = Some e → BimodalEntry.ok e →
  ∃ e', baseUpdate btable taken i = Ok (<[Z.to_nat i := e']> btable) ∧ BimodalEntry.ok e' ∧
    bimodal_count e' = (if taken then Z.min 3 (bimodal_count e + 1) else Z.max 0 (bimodal_count e - 1)).
Proof.
  intros Hi He [Hp Hh]. unfold baseUpdate. rewrite (vget_in _ _ e) by done. cbn [mbind res_bind].
  apply lookup_lt_Some in He as Hlt. rewrite vset_in by (unfold vlen; lia). eexists. split; [done|].
  destruct e as [p h]. cbn [BimodalEntry.pred BimodalEntry.hyst] in *. unfold bimodal_count.
  assert (p = 0 ∨ p = 1) as [-> | ->] by lia; assert (h = 0 ∨ h = 1) as [-> | ->] by lia; destruct taken; vm_compute;
    (split; [split; split; discriminate|reflexivity]).
Qed.

(** ** The loop predictor *)
Module LoopEntry.

Record t := mk {
  numIter : Z;
  currentIter : Z;
  currentIterSpec : Z;
  confidence : Z;
  tag : Z;
  age : Z;
  dir : bool;
}.

Definition fresh : t := mk 0 0 0 0 0 0 false.

Definition set_currentIter (n : Z) (e : t) : t :=
  mk (numIter e) n (currentIterSpec e) (confidence e) (tag e) (age e) (dir e).
Definition set_currentIterSpec (n : Z) (e : t) : t :=
  mk (numIter e) (currentIter e) n (confidence e) (tag e) (age e) (dir e).
Definition set_confidence (n : Z) (e : t) : t :=
  mk (numIter e) (currentIter e) (currentIterSpec e) n (tag e) (age e) (dir e).
Definition set_age (n : Z) (e : t) : t :=
  mk (numIter e) (currentIter e) (currentIterSpec e) (confidence e) (tag e) n (dir e).
Definition set_numIter (n : Z) (e : t) : t :=
  mk n (currentIter e) (currentIterSpec e) (confidence e) (tag e) (age e) (dir e).
Definition set_dir (d : bool) (e : t) : t :=
  mk (numIter e) (currentIter e) (currentIterSpec e) (confidence e) (tag e) (age e) d.

(** [numIter = 0; age = 0; confidence = 0;]: free the entry. *)
Definition free (e : t) : t :=
  mk 0 (currentIter e) (currentIterSpec e) 0 (tag e) 0 (dir e).

Record ok (e : t) : Prop := {
  ok_numIter : is_u16 (numIter e);
  ok_currentIter : is_u16 (currentIter e);
  ok_spec : is_u16 (currentIterSpec e);
  ok_confidence : 0 ≤ confidence e ≤ 7;
  ok_tag : is_u16 (tag e);
  ok_age : 0 ≤ age e ≤ 7;
}.

Lemma fresh_ok : ok fresh.
Proof. split; cbn; unfold is_u16; lia. Qed.

End LoopEntry.

(** [lindex(pc)]; [logSizeLoopPred] is unsigned. *)
Definition lindex (logSizeLoopPred pc_in : Z) : res Z :=
  m ← shl64 1 (u32 (logSizeLoopPred - 2));
  Ok (i32 (u64 (Z.shiftl (Z.land pc_in (m - 1)) 2))).

(** The loop of [getLoop] over the ways of the set. *)
Fixpoint getLoop_ways (ltable : list LoopEntry.t) (li : LoopInfo) (ways : list Z)
    : res (bool * LoopInfo) :=
  match ways with
  | [] => Ok (false, li)
  | i :: ways =>
      e ← vget ltable (loopIndex li + i);
      if LoopEntry.tag e =? loopTag li then
        let li := mkLI (loopTag li) (LoopEntry.currentIterSpec e) (loopPred li)
                    (3 <=? LoopEntry.confidence e) (loopIndex li) i in
        Ok (if LoopEntry.currentIterSpec e + 1 =? LoopEntry.numIter e then negb (LoopEntry.dir e)
            else LoopEntry.dir e, li)
      else getLoop_ways ltable li ways
  end.

Definition getLoop (logSizeLoopPred : Z) (ltable : list LoopEntry.t) (pc : Z) (li : LoopInfo)
    : res (bool * LoopInfo) :=
  index ← lindex logSizeLoopPred pc;
  tag ← shr64 pc (u32 (logSizeLoopPred - 2));
  getLoop_ways ltable (mkLI (i32 tag) (li_currentIter li) (loopPred li) false index (-1)) [0; 1; 2; 3].

Definition specLoopUpdate (logSizeLoopPred : Z) (ltable : list LoopEntry.t) (pc : Z) (taken : bool)
    (li : LoopInfo) : res (list LoopEntry.t) :=
  if 0 <=? loopHit li then
    index ← lindex logSizeLoopPred pc;
    vmod (λ e, if negb (eqb taken (LoopEntry.dir e)) then LoopEntry.set_currentIterSpec 0 e
               else LoopEntry.set_currentIterSpec (u16 (LoopEntry.currentIterSpec e + 1)) e) ltable index
  else Ok ltable.

(** [loopUpdate] on a hit: what happens to the entry that hit. *)
Definition loop_hit_update (taken tagePred : bool) (li : LoopInfo) (e : LoopEntry.t) : LoopEntry.t :=
  if loopPredValid li && negb (eqb taken (loopPred li)) then LoopEntry.set_currentIter 0 (LoopEntry.free e)
  else
    let e := if loopPredValid li && negb (eqb (loopPred li) tagePred) && (LoopEntry.age e <? 7)
             then LoopEntry.set_age (LoopEntry.age e + 1) e else e in
    let e := LoopEntry.set_currentIter (u16 (LoopEntry.currentIter e + 1)) e in
    let e := if LoopEntry.numIter e <? LoopEntry.currentIter e then
               let e := LoopEntry.set_confidence 0 e in
               if negb (LoopEntry.numIter e =? 0) then LoopEntry.free e else e
             else e in
    if negb (eqb taken (LoopEntry.dir e)) then
      let e :=
        if LoopEntry.currentIter e =? LoopEntry.numIter e then
          let e := if LoopEntry.confidence e <? 7
                   then LoopEntry.set_confidence (LoopEntry.confidence e + 1) e else e in
          if LoopEntry.numIter e <? 3 then LoopEntry.free (LoopEntry.set_dir taken e) else e
        else if LoopEntry.numIter e =? 0 then
          LoopEntry.set_numIter (LoopEntry.currentIter e) (LoopEntry.set_confidence 0 e)
        else LoopEntry.free e in
      LoopEntry.set_currentIter 0 e
    else e.

(** The allocation loop of [loopUpdate]; the sum [nrand + i] is signed. *)
Fixpoint loop_alloc (ltable : list LoopEntry.t) (taken : bool) (li : LoopInfo) (nrand : Z) (ways : list Z)
    : res (list LoopEntry.t) :=
  match ways with
  | [] => Ok ltable
  | i :: ways =>
      let loop_hit := Z.land (i32 (nrand + i)) 3 in
      let idx := loopIndex li + loop_hit in
      e ← vget ltable idx;
      if LoopEntry.age e =? 0 then
        vset ltable idx (LoopEntry.mk 0 1 (LoopEntry.currentIterSpec e) 0 (u16 (loopTag li)) 7 (negb taken))
      else
        ltable ← vset ltable idx (LoopEntry.set_age (LoopEntry.age e - 1) e);
        loop_alloc ltable taken li nrand ways
  end.

(** [loopUpdate]; [rng] is the values the random generator will give. *)
Definition loopUpdate (ltable : list LoopEntry.t) (taken tagePred : bool) (li : LoopInfo) (rng : nat → Z)
    : res (list LoopEntry.t * (nat → Z)) :=
  if 0 <=? loopHit li then
    l ← vmod (loop_hit_update taken tagePred li) ltable (loopIndex li + loopHit li); Ok (l, rng)
  else if taken then
    let nrand := i32 (rng 0%nat) in
    l ← loop_alloc ltable taken li nrand [0; 1; 2; 3]; Ok (l, λ k, rng (S k))
  else Ok (ltable, rng).

(** Both [squash] methods give the entry back its count. *)
Definition restore_loop (ltable : list LoopEntry.t) (bi : BranchInfo) : res (list LoopEntry.t) :=
  if condBranch bi && (0 <=? loopHit (loop bi)) then
    vmod (LoopEntry.set_currentIterSpec (li_currentIter (loop bi))) ltable
      (loopIndex (loop bi) + loopHit (loop bi))
  else Ok ltable.

(** *** Indices, and the invariant of the table *)

Lemma lindex_Ok log pc :
  2 ≤ log < 31 → lindex log pc = Ok (4 * (pc mod 2 ^ (log - 2))) ∧ 0 ≤ 4 * (pc mod 2 ^ (log - 2)) ≤ 2 ^ log - 4.
Proof.
  intros Hl. unfold lindex. rewrite u32_id by (unfold is_u32; lia). rewrite shl64_in by lia. cbn [mbind res_bind].
  assert (2 ^ log = 4 * 2 ^ (log - 2)) as E.
  { replace log with (2 + (log - 2)) at 1 by lia. rewrite Z.pow_add_r by lia. lia. }
  assert (2 ^ (log - 2) < 2 ^ 29) by (apply Z.pow_lt_mono_r; lia).
  assert (0 < 2 ^ (log - 2)) by (apply Z.pow_pos_nonneg; lia).
  rewrite Z.shiftl_1_l, (u64_id (2 ^ (log - 2))) by (unfold is_u64; lia). rewrite land_pow2_mod by lia.
  pose proof (Z.mod_pos_bound pc (2 ^ (log - 2)) ltac:(lia)).
  rewrite Z.shiftl_mul_pow2 by lia. rewrite u64_id by (unfold is_u64; lia).
  rewrite i32_id by (unfold is_i32; lia). split; [f_equal|]; lia.
Qed.

Definition ltable_ok (log : Z) (l : list LoopEntry.t) : Prop := vlen l = 2 ^ log ∧ Forall LoopEntry.ok l.

(** What [getLoop] leaves in the branch, whether it hits or not. *)
Record loop_info_ok (log : Z) (li : LoopInfo) : Prop := {
  li_index : 0 ≤ loopIndex li ≤ 2 ^ log - 4;
  li_hit : -1 ≤ loopHit li ≤ 3;
  li_iter : is_u16 (li_currentIter li);
}.

Section ltable.
Context (log : Z) (Hlog : 2 ≤ log < 31) (l : list LoopEntry.t) (Hl : ltable_ok log l).

Lemma way_exists i : 0 ≤ i < 2 ^ log → ∃ e, l !! Z.to_nat i = Some e ∧ LoopEntry.ok e.
Proof.
  intros Hi. destruct Hl as [E HF]. destruct (vlookup_lt l i) as [e He]; [lia|].
  exists e. split; [done|]. by eapply Forall_lookup_1.
Qed.

Lemma ltable_insert i e : LoopEntry.ok e → ltable_ok log (<[i := e]> l).
Proof. intros He. destruct Hl as [E HF]. split; [by rewrite vlen_insert|by apply Forall_insert]. Qed.

Lemma getLoop_ways_ok li ways :
  loop_info_ok log li → Forall (λ i, 0 ≤ i ≤ 3) ways →
  returns (getLoop_ways l li ways) (λ r, loop_info_ok log r.2).
Proof.
  intros Hli. revert ways. fix IH 1. intros [|i ways] Hw; cbn [getLoop_ways]; [done|].
  apply Forall_cons in Hw as [Hi Hw]. destruct (way_exists (loopIndex li + i)) as (e & He & Hok).
  { destruct Hli. lia. }
  rewrite (vget_in _ _ e) by (destruct Hli; (lia || done)). cbn [mbind res_bind].
  destruct (_ =? _); [|by apply IH]. destruct Hli. split; cbn; [done|lia|apply Hok].
Qed.

Lemma getLoop_ok pc li : is_u16 (li_currentIter li) → returns (getLoop log l pc li) (λ r, loop_info_ok log r.2).
Proof.
  intros Hi. destruct (lindex_Ok log pc Hlog) as [E Hr]. unfold getLoop. rewrite E. cbn [mbind res_bind].
  rewrite u32_id by (unfold is_u32; lia). rewrite shr64_in by lia. cbn [mbind res_bind].
  apply getLoop_ways_ok; [split; cbn; (done || lia)|]. repeat constructor; lia.
Qed.

Lemma returns_vmod_ltable f i (Q : list LoopEntry.t → Prop) :
  0 ≤ i < 2 ^ log → (∀ e, LoopEntry.ok e → LoopEntry.ok (f e)) → (∀ l', ltable_ok log l' → Q l') →
  returns (vmod f l i) Q.
Proof.
  intros Hi Hf HQ. destruct (way_exists i Hi) as (e & He & Hok). apply returns_vmod; [by destruct Hl as [-> _]|].
  intros x Hx. simplify_eq. apply HQ, ltable_insert. by apply Hf.
Qed.

Lemma specLoopUpdate_ok pc taken li :
  returns (specLoopUpdate log l pc taken li) (ltable_ok log).
Proof.
  unfold specLoopUpdate. destruct (0 <=? loopHit li); [|done]. destruct (lindex_Ok log pc Hlog) as [-> Hr].
  cbn [mbind res_bind]. apply returns_vmod_ltable; [lia| |done]. intros e [].
  destruct (negb _); split; cbn; try done. apply u16_range.
Qed.

Lemma restore_loop_ok bi : loop_info_ok log (loop bi) → returns (restore_loop l bi) (ltable_ok log).
Proof.
  intros [Hi Hh Hc]. unfold restore_loop. destruct (condBranch bi); [|done]. cbn [andb].
  destruct (Z.leb_spec 0 (loopHit (loop bi))); [|done].
  apply returns_vmod_ltable; [lia| |done]. intros e []. by split.
Qed.

End ltable.

Lemma free_ok e : LoopEntry.ok e → LoopEntry.ok (LoopEntry.free e).
Proof. intros []. split; cbn; (done || unfold is_u16; lia). Qed.

Lemma loop_hit_update_ok taken tp li e : LoopEntry.ok e → LoopEntry.ok (loop_hit_update taken tp li e).
Proof.
  intros H. unfold loop_hit_update. destruct (loopPredValid li && _).
  { apply free_ok in H as []. split; cbn; (done || unfold is_u16; lia). }
  set (e1 := if _ && (LoopEntry.age e <? 7) then _ else e).
  assert (LoopEntry.ok e1) as H1.
  { unfold e1. destruct (Z.ltb_spec (LoopEntry.age e) 7); [|by rewrite andb_false_r].
    destruct (_ && _); [|done]. destruct H. split; cbn; (done || lia). }
  clearbody e1. set (e2 := LoopEntry.set_currentIter _ e1).
  assert (LoopEntry.ok e2) as H2 by (destruct H1; split; cbn; (done || apply u16_range)). clearbody e2.
  set (e3 := if LoopEntry.numIter e2 <? LoopEntry.currentIter e2 then _ else e2).
  assert (LoopEntry.ok e3) as H3.
  { unfold e3. destruct (_ <? _); [|done].
    assert (LoopEntry.ok (LoopEntry.set_confidence 0 e2)) by (destruct H2; split; cbn; (done || lia)).
    destruct (negb _); [by apply free_ok|done]. }
  clearbody e3. destruct (negb _); [|done].
  assert (∀ x, LoopEntry.ok x → LoopEntry.ok (LoopEntry.set_currentIter 0 x)) as Hz
    by (intros x []; split; cbn; (done || unfold is_u16; lia)).
  apply Hz. destruct (_ =? _).
  - set (e4 := if LoopEntry.confidence e3 <? 7 then _ else e3).
    assert (LoopEntry.ok e4) as H4.
    { unfold e4. destruct (Z.ltb_spec (LoopEntry.confidence e3) 7); [|done]. destruct H3. split; cbn; (done || lia). }
    clearbody e4. destruct (_ <? 3); [|done]. apply free_ok. destruct H4. by split.
  - destruct (_ =? 0); [|by apply free_ok]. destruct H3. split; cbn; (done || lia).
Qed.

Lemma loop_alloc_ok log l taken li nrand ways :
  2 ≤ log < 31 → ltable_ok log l → loop_info_ok log li → returns (loop_alloc l taken li nrand ways) (ltable_ok log).
Proof.
  intros Hlog Hl Hli. revert l Hl. induction ways as [|i ways IH]; intros l Hl; cbn [loop_alloc]; [done|].
  pose proof (land_bound (i32 (nrand + i)) 3 ltac:(lia)) as Hb. set (idx := loopIndex li + _).
  assert (0 ≤ idx < 2 ^ log) as Hi by (destruct Hli; unfold idx; lia). clearbody idx.
  destruct (way_exists log Hlog l Hl idx Hi) as (e & He & Hok). rewrite (vget_in _ _ e) by (lia || done).
  cbn [mbind res_bind]. pose proof Hl as [El _]. destruct Hok. destruct (Z.eqb_spec (LoopEntry.age e) 0).
  - rewrite vset_in by lia. apply ltable_insert; [done|]. split; cbn; (done || lia || apply u16_range || (unfold is_u16; lia)).
  - rewrite vset_in by lia. cbn [mbind res_bind]. apply IH, ltable_insert; [done|]. split; cbn; (done || lia).
Qed.

Lemma loopUpdate_ok log l taken tp li rng :
  2 ≤ log < 31 → ltable_ok log l → loop_info_ok log li →
  returns (loopUpdate l taken tp li rng) (λ r, ltable_ok log r.1).
Proof.
  intros Hlog Hl Hli. unfold loopUpdate. destruct (Z.leb_spec 0 (loopHit li)).
  - apply returns_bind. apply (returns_vmod_ltable log Hlog l Hl); [destruct Hli; lia|apply loop_hit_update_ok|done].
  - destruct taken; [|done]. apply returns_bind.
    eapply returns_mono; [by apply (loop_alloc_ok log)|]. done.
Qed.

(** *** Learning a trip count *)

(** The outcomes of one execution of a loop of [k] iterations whose branch goes
    [d] while the loop runs. *)
Definition loop_round (k : nat) (d : bool) : list bool := replicate (k - 1) d ++ [negb d].

(** A committed branch: its outcome, the answer of the tagged tables, and what the
    loop predictor had said. *)
Record commit := Commit { c_taken : bool; c_tage : bool; c_info : LoopInfo }.

(** The branch hit way [w] of the set at [idx], and the loop prediction was right if
    it was used. *)
Definition commit_fits (idx w : Z) (c : commit) : Prop :=
  loopIndex (c_info c) = idx ∧ loopHit (c_info c) = w ∧
  (loopPredValid (c_info c) = true → loopPred (c_info c) = c_taken c).

Fixpoint commit_all (ltable : list LoopEntry.t) (rng : nat → Z) (cs : list commit)
    : res (list LoopEntry.t * (nat → Z)) :=
  match cs with
  | [] => Ok (ltable, rng)
  | c :: cs =>
      '(ltable, rng) ← loopUpdate ltable (c_taken c) (c_tage c) (c_info c) rng;
      commit_all ltable rng cs
  end.

(** The members of an entry that the commits of one branch work on. *)
Record trained (n cur conf : Z) (e0 e : LoopEntry.t) : Prop := {
  tr_numIter : LoopEntry.numIter e = n;
  tr_currentIter : LoopEntry.currentIter e = cur;
  tr_confidence : LoopEntry.confidence e = conf;
  tr_spec : LoopEntry.currentIterSpec e = LoopEntry.currentIterSpec e0;
  tr_tag : LoopEntry.tag e = LoopEntry.tag e0;
  tr_dir : LoopEntry.dir e = LoopEntry.dir e0;
}.

Lemma fits_no_misprediction idx w c :
  commit_fits idx w c → loopPredValid (c_info c) && negb (eqb (c_taken c) (loopPred (c_info c))) = false.
Proof.
  intros (_ & _ & H). destruct (loopPredValid (c_info c)); [|done]. rewrite H by done. by rewrite eqb_reflx.
Qed.

(** An iteration that stays in the loop. *)
Lemma hit_inside idx w c e0 e n cur conf :
  commit_fits idx w c → c_taken c = LoopEntry.dir e0 → trained n cur conf e0 e →
  0 ≤ cur < 2 ^ 16 - 1 → (n = 0 ∧ conf = 0 ∨ cur < n) →
  trained n (cur + 1) conf e0 (loop_hit_update (c_taken c) (c_tage c) (c_info c) e).
Proof.
  intros Hf Hd [E1 E2 E3 E4 E5 E6] Hc Hn. unfold loop_hit_update. rewrite (fits_no_misprediction idx w c Hf).
  destruct (_ && (_ <? 7)); cbn; rewrite E2, u16_id by (unfold is_u16; lia); rewrite E1;
    (destruct (Z.ltb_spec n (cur + 1)); cbn; rewrite ?E1;
      [destruct Hn as [[-> ->]|]; [|lia]; cbn|]; rewrite E6, Hd, eqb_reflx; by split).
Qed.

(** The exit. *)
Lemma hit_exit idx w c e0 e n cur conf :
  commit_fits idx w c → c_taken c = negb (LoopEntry.dir e0) → trained n cur conf e0 e →
  2 ≤ cur < 2 ^ 16 - 1 → (n = 0 ∧ conf = 0 ∨ n = cur + 1 ∧ 0 ≤ conf ≤ 7) →
  trained (cur + 1) 0 (if n =? 0 then 0 else Z.min 7 (conf + 1)) e0
    (loop_hit_update (c_taken c) (c_tage c) (c_info c) e).
Proof.
  intros Hf Hd [E1 E2 E3 E4 E5 E6] Hc Hn. unfold loop_hit_update. rewrite (fits_no_misprediction idx w c Hf).
  assert (negb (eqb (c_taken c) (LoopEntry.dir e)) = true) as Hx by (rewrite E6, Hd; by destruct (LoopEntry.dir e0)).
  destruct (_ && (_ <? 7)); cbn; rewrite E2, u16_id by (unfold is_u16; lia); rewrite E1;
    (destruct Hn as [[-> ->]|[-> Hconf]];
      [destruct (Z.ltb_spec 0 (cur + 1)); [|lia]; cbn; rewrite ?E1; cbn; rewrite Hx, ?E1; cbn;
       destruct (Z.eqb_spec (cur + 1) 0); [lia|]; cbn; by split
      |rewrite Z.ltb_irrefl; cbn; rewrite Hx; cbn; rewrite ?E1, Z.eqb_refl, E3;
       destruct (Z.ltb_spec conf 7); cbn; rewrite ?E1;
       (destruct (Z.ltb_spec (cur + 1) 3); [lia|]; destruct (Z.eqb_spec (cur + 1) 0); [lia|];
        split; cbn; (done || lia))]).
Qed.

Section learning.
Context (idx : Z) (e0 : LoopEntry.t).

(** The table with the entry under training at [idx]. *)
Definition learns (l0 : list LoopEntry.t) (n cur conf : Z) (l : list LoopEntry.t) : Prop :=
  ∃ e, l = <[Z.to_nat idx := e]> l0 ∧ trained n cur conf e0 e.

Lemma loopUpdate_hit l0 l c rng e :
  0 ≤ idx < vlen l0 → commit_fits idx 0 c → l = <[Z.to_nat idx := e]> l0 →
  loopUpdate l (c_taken c) (c_tage c) (c_info c) rng =
    Ok (<[Z.to_nat idx := loop_hit_update (c_taken c) (c_tage c) (c_info c) e]> l0, rng).
Proof.
  intros Hi (Ei & Ew & _) ->. unfold loopUpdate. rewrite Ew. cbn [Z.leb Z.compare].
  rewrite Ei, Z.add_0_r. unfold vmod. rewrite (vget_in _ idx e); [|lia|by rewrite vlookup_insert_eq].
  cbn [mbind res_bind]. rewrite vset_in by (rewrite vlen_insert; lia). cbn [mbind res_bind].
  by rewrite list_insert_insert_eq.
Qed.

(** Iterations that stay in the loop. *)
Lemma learn_inside l0 cs l rng n cur conf :
  0 ≤ idx < vlen l0 → Forall (commit_fits idx 0) cs → Forall (λ c, c_taken c = LoopEntry.dir e0) cs →
  learns l0 n cur conf l → 0 ≤ cur → cur + vlen cs < 2 ^ 16 → (n = 0 ∧ conf = 0 ∨ cur + vlen cs ≤ n) →
  ∃ l', commit_all l rng cs = Ok (l', rng) ∧ learns l0 n (cur + vlen cs) conf l'.
Proof.
  intros Hi. revert l cur. induction cs as [|c cs IH]; intros l cur Hf Hd (e & -> & Ht) Hc Hb Hn.
  - exists (<[Z.to_nat idx := e]> l0). split; [done|]. unfold vlen. cbn. rewrite Z.add_0_r. by exists e.
  - apply Forall_cons in Hf as [Hf Hfs], Hd as [Hd Hds]. unfold vlen in Hb, Hn. cbn [length] in Hb, Hn.
    cbn [commit_all]. rewrite (loopUpdate_hit l0 _ c rng e) by done. cbn [mbind res_bind].
    destruct (IH (<[Z.to_nat idx := loop_hit_update (c_taken c) (c_tage c) (c_info c) e]> l0) (cur + 1) Hfs Hds)
      as (l' & E & HL); [|lia|unfold vlen; lia|unfold vlen; lia|].
    { eexists. split; [done|]. apply (hit_inside idx 0 c e0 e); (done || lia). }
    exists l'. split; [done|]. unfold vlen in *. cbn [length].
    by replace (cur + Z.of_nat (S (length cs))) with (cur + 1 + Z.of_nat (length cs)) by lia.
Qed.

Lemma commit_all_app l rng cs1 cs2 :
  commit_all l rng (cs1 ++ cs2) = '(l', rng') ← commit_all l rng cs1; commit_all l' rng' cs2.
Proof.
  revert l rng. induction cs1 as [|c cs1 IH]; intros l rng; cbn [commit_all app]; [done|].
  destruct (loopUpdate _ _ _ _ _) as [[l1 r1]|]; [|done]. cbn [mbind res_bind]. apply IH.
Qed.

(** One execution of the loop. *)
Lemma learn_round l0 cs l rng n conf k :
  0 ≤ idx < vlen l0 → Forall (commit_fits idx 0) cs → (3 ≤ k)%nat → Z.of_nat k < 2 ^ 16 →
  c_taken <$> cs = loop_round k (LoopEntry.dir e0) → learns l0 n 0 conf l →
  (n = 0 ∧ conf = 0 ∨ n = Z.of_nat k ∧ 0 ≤ conf ≤ 7) →
  ∃ l', commit_all l rng cs = Ok (l', rng) ∧
        learns l0 (Z.of_nat k) 0 (if n =? 0 then 0 else Z.min 7 (conf + 1)) l'.
Proof.
  intros Hi Hf Hk Hk16 Ho HL Hn. unfold loop_round in Ho.
  apply fmap_app_inv in Ho as (cs1 & cs2 & Ho1 & Ho2 & ->). symmetry in Ho1, Ho2.
  apply Forall_app in Hf as [Hf1 Hf2].
  assert (length cs1 = (k - 1)%nat) as Hlen by (rewrite <- (length_fmap c_taken), Ho1; apply length_replicate).
  assert (Forall (λ c, c_taken c = LoopEntry.dir e0) cs1) as Hd1.
  { apply Forall_lookup_2. intros i c Hc. pose proof (lookup_lt_Some _ _ _ Hc).
    assert ((c_taken <$> cs1) !! i = Some (c_taken c)) as E by (by rewrite list_lookup_fmap, Hc).
    rewrite Ho1, lookup_replicate_2 in E by lia. by simplify_eq. }
  destruct cs2 as [|c [|]]; try done. cbn in Ho2. injection Ho2 as Hc. apply Forall_cons in Hf2 as [Hf2 _].
  destruct (learn_inside l0 cs1 l rng n 0 conf Hi Hf1 Hd1 HL) as (l1 & E1 & (e & -> & Ht));
    [lia|unfold vlen; lia|unfold vlen; lia|].
  rewrite commit_all_app, E1. cbn [mbind res_bind commit_all].
  rewrite (loopUpdate_hit l0 _ c rng e) by done. cbn [mbind res_bind]. eexists. split; [done|].
  eexists. split; [done|]. replace (Z.of_nat k) with (0 + vlen cs1 + 1) by (unfold vlen; lia).
  apply (hit_exit idx 0 c e0 e); [done|done|done|unfold vlen; lia|]. unfold vlen. lia.
Qed.

(** [r] executions after the first. *)
Lemma learn_rounds l0 r cs l rng n conf k :
  0 ≤ idx < vlen l0 → Forall (commit_fits idx 0) cs → (3 ≤ k)%nat → Z.of_nat k < 2 ^ 16 →
  c_taken <$> cs = concat (replicate r (loop_round k (LoopEntry.dir e0))) → learns l0 n 0 conf l →
  n = Z.of_nat k → 0 ≤ conf ≤ 7 →
  ∃ l', commit_all l rng cs = Ok (l', rng) ∧ learns l0 n 0 (Z.min 7 (conf + Z.of_nat r)) l'.
Proof.
  intros Hi Hf Hk Hk16 Ho HL -> Hc. revert cs l conf Hf Ho HL Hc. induction r as [|r IH]; intros cs l conf Hf Ho HL Hc.
  - cbn in Ho. apply fmap_nil_inv in Ho as ->. exists l. split; [done|].
    by replace (Z.min 7 (conf + Z.of_nat 0)) with conf by lia.
  - cbn in Ho. apply fmap_app_inv in Ho as (cs1 & cs2 & Ho1 & Ho2 & ->). symmetry in Ho1, Ho2.
    apply Forall_app in Hf as [Hf1 Hf2].
    destruct (learn_round l0 cs1 l rng _ conf k Hi Hf1 Hk Hk16 Ho1 HL) as (l1 & E1 & HL1); [by right|].
    destruct (Z.eqb_spec (Z.of_nat k) 0) in HL1; [lia|].
    destruct (IH cs2 l1 _ Hf2 Ho2 HL1) as (l2 & E2 & HL2); [lia|].
    exists l2. rewrite commit_all_app, E1. cbn [mbind res_bind]. split; [done|].
    by replace (Z.min 7 (conf + Z.of_nat (S r))) with (Z.min 7 (Z.min 7 (conf + 1) + Z.of_nat r)) by lia.
Qed.

End learning.

(** *** Predicting a trip count *)

(** The tag of a branch. *)
Definition loop_tag (log pc : Z) : Z := i32 (Z.shiftr pc (log - 2)).

(** [n] predictions of the branch at [pc], each of them used: the answers with
    whether the predictor was confident, and the table. *)
Fixpoint loop_predictions (log : Z) (ltable : list LoopEntry.t) (pc : Z) (n : nat)
    : res (list (bool * bool) * list LoopEntry.t) :=
  match n with
  | O => Ok ([], ltable)
  | S n =>
      '(p, li) ← getLoop log ltable pc (loop (new_info 0 0));
      ltable ← specLoopUpdate log ltable pc p li;
      '(ps, ltable) ← loop_predictions log ltable pc n;
      Ok ((p, loopPredValid li) :: ps, ltable)
  end.

Lemma getLoop_way0 log l pc li e :
  2 ≤ log < 31 → l !! Z.to_nat (4 * (pc mod 2 ^ (log - 2))) = Some e → LoopEntry.tag e = loop_tag log pc →
  getLoop log l pc li =
    Ok (if LoopEntry.currentIterSpec e + 1 =? LoopEntry.numIter e then negb (LoopEntry.dir e) else LoopEntry.dir e,
        mkLI (loop_tag log pc) (LoopEntry.currentIterSpec e) (loopPred li) (3 <=? LoopEntry.confidence e)
          (4 * (pc mod 2 ^ (log - 2))) 0).
Proof.
  intros Hlog He Ht. destruct (lindex_Ok log pc Hlog) as [E Hr]. unfold getLoop. rewrite E. cbn [mbind res_bind].
  rewrite u32_id by (unfold is_u32; lia). rewrite shr64_in by lia. cbn [mbind res_bind getLoop_ways loopIndex].
  rewrite Z.add_0_r, (vget_in _ (4 * (pc mod 2 ^ (log - 2))) e) by (lia || done). cbn [mbind res_bind loopTag]. fold (loop_tag log pc).
  by rewrite Ht, Z.eqb_refl.
Qed.

Lemma specLoopUpdate_way0 log l pc taken li e :
  2 ≤ log < 31 → 0 ≤ loopHit li → l !! Z.to_nat (4 * (pc mod 2 ^ (log - 2))) = Some e →
  specLoopUpdate log l pc taken li =
    Ok (<[Z.to_nat (4 * (pc mod 2 ^ (log - 2))) :=
          LoopEntry.set_currentIterSpec (if eqb taken (LoopEntry.dir e) then u16 (LoopEntry.currentIterSpec e + 1) else 0) e]> l).
Proof.
  intros Hlog Hh He. destruct (lindex_Ok log pc Hlog) as [E Hr]. unfold specLoopUpdate, vmod.
  destruct (Z.leb_spec 0 (loopHit li)); [|lia]. rewrite E. cbn [mbind res_bind].
  rewrite (vget_in _ _ e) by (lia || done). cbn [mbind res_bind]. apply lookup_lt_Some in He.
  rewrite vset_in by (unfold vlen; lia). by destruct (eqb _ _).
Qed.

(** The predictions from iteration [c] to the exit; the table comes back with the
    count at 0. *)
Lemma loop_predictions_from log l pc e j c :
  2 ≤ log < 31 → l !! Z.to_nat (4 * (pc mod 2 ^ (log - 2))) = Some (LoopEntry.set_currentIterSpec c e) →
  LoopEntry.tag e = loop_tag log pc → 3 ≤ LoopEntry.confidence e → 0 ≤ c → (1 ≤ j)%nat →
  LoopEntry.numIter e = c + Z.of_nat j → LoopEntry.numIter e < 2 ^ 16 →
  loop_predictions log l pc j =
    Ok ((λ b, (b, true)) <$> loop_round j (LoopEntry.dir e),
        <[Z.to_nat (4 * (pc mod 2 ^ (log - 2))) := LoopEntry.set_currentIterSpec 0 e]> l).
Proof.
  intros Hlog He Ht Hc Hc0 Hj. revert l c He Hc0 Hj. induction j as [|j IH]; intros l c He Hc0 Hj Hn Hb; [lia|].
  cbn [loop_predictions]. rewrite (getLoop_way0 _ _ _ _ _ Hlog He Ht). cbn [mbind res_bind].
  cbn [LoopEntry.currentIterSpec LoopEntry.numIter LoopEntry.dir LoopEntry.confidence LoopEntry.set_currentIterSpec loopPredValid].
  erewrite (specLoopUpdate_way0 _ _ _ _ _ _ Hlog) by (done || exact He). cbn [mbind res_bind].
  cbn [LoopEntry.currentIterSpec LoopEntry.numIter LoopEntry.dir LoopEntry.confidence LoopEntry.set_currentIterSpec].
  destruct (Z.leb_spec 3 (LoopEntry.confidence e)); [|lia]. rewrite Hn. destruct (Z.eqb_spec (c + 1) (c + Z.of_nat (S j))).
  - assert (j = 0%nat) as -> by lia. assert (eqb (negb (LoopEntry.dir e)) (LoopEntry.dir e) = false) as -> by (by destruct (LoopEntry.dir e)).
    done.
  - rewrite eqb_reflx, u16_id by (unfold is_u16; lia).
    apply lookup_lt_Some in He as Hlt.
    rewrite (IH _ (c + 1)); [|by rewrite list_lookup_insert_eq by lia|lia..]. cbn [mbind res_bind].
    destruct j as [|j]; [lia|]. unfold loop_round. cbn [Nat.sub replicate app fmap list_fmap].
    rewrite Nat.sub_0_r, list_insert_insert_eq. done.
Qed.

(** ** Theorems *)


(** Entries hold 16 bits of the tag, but [getLoop] compares them with all of it.
    A branch whose tag does not fit in 16 bits never hits, even right after an entry
    was allocated for it: with the default table of 256 entries that is every branch
    at an address of 4 MB or more (up to the wrap-around of [int]). *)
Theorem loop_tag_truncated (log : Z) (l : list LoopEntry.t) (pc : Z) (li : LoopInfo) :
  2 ≤ log < 31 → ltable_ok log l → ¬ is_u16 (loop_tag log pc) →
  returns (getLoop log l pc li) (λ r, r.1 = false ∧ loopHit r.2 = -1 ∧ loopPredValid r.2 = false).
Proof.
  intros Hlog Hl Ht. destruct (lindex_Ok log pc Hlog) as [E Hr]. unfold getLoop. rewrite E. cbn [mbind res_bind].
  rewrite u32_id by (unfold is_u32; lia). rewrite shr64_in by lia. cbn [mbind res_bind]. fold (loop_tag log pc).
  set (li1 := mkLI _ _ _ _ _ _). assert (Forall (λ i, 0 ≤ i ≤ 3) [0; 1; 2; 3]) as Hw by (repeat constructor; lia).
  revert Hw. generalize [0; 1; 2; 3]. induction l0 as [|i ways IH]; intros Hw; cbn [getLoop_ways]; [done|].
  apply Forall_cons in Hw as [Hi Hw]. cbn [loopIndex li1].
  destruct (way_exists log Hlog l Hl (4 * (pc mod 2 ^ (log - 2)) + i)) as (e & He & Hok); [lia|].
  rewrite (vget_in _ _ e) by (lia || done). cbn [mbind res_bind]. destruct (Z.eqb_spec (LoopEntry.tag e) (loopTag li1)) as [Eq|].
  - destruct Ht. cbn in Eq. rewrite <- Eq. apply Hok.
  - by apply IH.
Qed.

(** ** Witnesses *)

(** Four executions of a loop of three iterations, its branch in the second set of
    a table of eight entries. *)
Definition commits_3x4 : list commit :=
  (λ b, Commit b true (mkLI 0 0 false false 4 0)) <$> concat (replicate 4 (loop_round 3 false)).


(** The branch at 4 MB, with the default table size. *)
Lemma loop_tag_truncated_witness :
  loop_tag 8 (2 ^ 22) = 2 ^ 16 ∧
  returns (getLoop 8 (replicate 256 LoopEntry.fresh) (2 ^ 22) (loop (new_info 0 0)))
    (λ r, r.1 = false ∧ loopHit r.2 = -1 ∧ loopPredValid r.2 = false).
Proof.
  split; [reflexivity|]. apply loop_tag_truncated; [lia| |].
  - split; [reflexivity|]. apply Forall_replicate, LoopEntry.fresh_ok.
  - vm_compute. intros [_ H]. discriminate H.
Defined.
