(* ===== verification/Ltage.v ===== *)
(** * The L-TAGE predictor ([cpu/pred/ltage.hh], [ltage.cc])

    The class around the histories of [LtageHist] and the tables of [LtageTables]:
    the hashes that index the tagged tables, [predict], which takes the answer of the
    longest matching history, of an alternate bank, of the bimodal table or of the
    loop predictor, and [update], which trains what was used and allocates entries
    with longer histories after a misprediction. *)

From S2P Require Import Prelude Predictor LtageHist LtageTables.

Module LTAGEPredictor.
Import LTAGE.

Module TageEntry.

Record t := mk { ctr : Z; tag : Z; u : Z }.
Definition fresh : t := mk 0 0 0.
Definition set_ctr (c : Z) (e : t) : t := mk c (tag e) (u e).
Definition set_u (x : Z) (e : t) : t := mk (ctr e) (tag e) x.

End TageEntry.

Record Params := mkParams {
  p_numThreads : Z;
  p_logSizeBiMP : Z;
  p_logSizeTagTables : Z;
  p_logSizeLoopPred : Z;
  p_nHistoryTables : Z;
  p_tagTableCounterBits : Z;
  p_histBufferSize : Z;
  p_minHist : Z;
  p_maxHist : Z;
  p_minTagWidth : Z;
}.

(** The members that only the constructor writes. [garbage] is what uninitialised
    memory holds. *)
Record Cfg := mkCfg {
  logSizeBiMP : Z;
  logSizeTagTables : Z;
  logSizeLoopPred : Z;
  nHistoryTables : Z;
  tagTableCounterBits : Z;
  histBufferSize : Z;
  minHist : Z;
  maxHist : Z;
  minTagWidth : Z;
  tagWidths : list Z;
  tagTableSizes : list Z;
  histLengths : list Z;
  logTick : Z;
  garbage : Z;
}.

(** The tables; [rng] is the values [random_mt] will give. *)
Record Tables := mkTables {
  btable : list BimodalEntry.t;
  gtable : list (list TageEntry.t);
  ltable : list LoopEntry.t;
  loopUseCounter : Z;
  useAltPredForNewlyAllocated : Z;
  tCounter : Z;
  rng : nat → Z;
}.

Record t := mk {
  cfg : Cfg;
  tabs : Tables;
  threadHistory : list ThreadHistory;
  t_tableIndices : list Z;
  t_tableTags : list Z;
  histories : heap BranchInfo;
}.

Definition with_btable (l : list BimodalEntry.t) (s : Tables) : Tables :=
  mkTables l (gtable s) (ltable s) (loopUseCounter s) (useAltPredForNewlyAllocated s) (tCounter s) (rng s).
Definition with_gtable (l : list (list TageEntry.t)) (s : Tables) : Tables :=
  mkTables (btable s) l (ltable s) (loopUseCounter s) (useAltPredForNewlyAllocated s) (tCounter s) (rng s).
Definition with_ltable (l : list LoopEntry.t) (s : Tables) : Tables :=
  mkTables (btable s) (gtable s) l (loopUseCounter s) (useAltPredForNewlyAllocated s) (tCounter s) (rng s).
Definition with_loopUse (c : Z) (s : Tables) : Tables :=
  mkTables (btable s) (gtable s) (ltable s) c (useAltPredForNewlyAllocated s) (tCounter s) (rng s).
Definition with_useAlt (c : Z) (s : Tables) : Tables :=
  mkTables (btable s) (gtable s) (ltable s) (loopUseCounter s) c (tCounter s) (rng s).
Definition with_tCounter (c : Z) (s : Tables) : Tables :=
  mkTables (btable s) (gtable s) (ltable s) (loopUseCounter s) (useAltPredForNewlyAllocated s) c (rng s).
Definition with_rng (r : nat → Z) (s : Tables) : Tables :=
  mkTables (btable s) (gtable s) (ltable s) (loopUseCounter s) (useAltPredForNewlyAllocated s) (tCounter s) r.

Definition with_tabs (x : Tables) (s : t) : t :=
  mk (cfg s) x (threadHistory s) (t_tableIndices s) (t_tableTags s) (histories s).
Definition with_threads (l : list ThreadHistory) (s : t) : t :=
  mk (cfg s) (tabs s) l (t_tableIndices s) (t_tableTags s) (histories s).
Definition with_lookups (i g : list Z) (s : t) : t :=
  mk (cfg s) (tabs s) (threadHistory s) i g (histories s).
Definition with_histories (h : heap BranchInfo) (s : t) : t :=
  mk (cfg s) (tabs s) (threadHistory s) (t_tableIndices s) (t_tableTags s) h.

(** [table[i]] of the bank, and [f] applied to the entry [gtable[bank][i]]. *)
Definition gget (g : list (list TageEntry.t)) (bank i : Z) : res TageEntry.t :=
  l ← vget g bank; vget l i.
Definition gset (g : list (list TageEntry.t)) (bank i : Z) (e : TageEntry.t) : res (list (list TageEntry.t)) :=
  l ← vget g bank; l ← vset l i e; vset g bank l.

(** ** The hashes *)

Definition bindex (c : Cfg) (pc_in : Z) : res Z :=
  m ← shl64 1 (logSizeBiMP c); Ok (i32 (Z.land pc_in (m - 1))).

(** [F(A, size, bank)]. The mask is [unsigned long long], the shifts are of [int]s. *)
Definition F (c : Cfg) (A size bank : Z) : res Z :=
  sz ← vget (tagTableSizes c) bank;
  ms ← shl64 1 size;
  let A := i32 (Z.land (u64 A) (ms - 1)) in
  mt ← shl64 1 sz;
  let A1 := i32 (Z.land (u64 A) (mt - 1)) in
  A2 ← shr_int A sz;
  x ← shl_int A2 bank;
  y ← shr_int A2 (sz - bank);
  let A2 := i32 (u64 (Z.land (u64 x) (mt - 1) + u64 y)) in
  let A := Z.lxor A1 A2 in
  x ← shl_int A bank;
  y ← shr_int A (sz - bank);
  Ok (i32 (u64 (Z.land (u64 x) (mt - 1) + u64 y))).

Definition gindex (c : Cfg) (th : ThreadHistory) (pc bank : Z) : res Z :=
  len ← vget (histLengths c) bank;
  let hlen := if 16 <? len then 16 else len in
  sz ← vget (tagTableSizes c) bank;
  x ← shr64 pc (Z.abs (sz - bank) + 1);
  f ← vget (computeIndices th) bank;
  p ← F c (pathHist th) hlen bank;
  let index := i32 (Z.lxor (Z.lxor (Z.lxor pc x) (FoldedHistory.comp f)) (u64 p)) in
  m ← shl64 1 sz;
  Ok (i32 (Z.land (u64 index) (m - 1))).

Definition gtag (c : Cfg) (th : ThreadHistory) (pc bank : Z) : res Z :=
  a ← vget (computeTags0 th) bank;
  b ← vget (computeTags1 th) bank;
  let tag := i32 (Z.lxor (Z.lxor pc (FoldedHistory.comp a)) (u32 (Z.shiftl (FoldedHistory.comp b) 1))) in
  w ← vget (tagWidths c) bank;
  m ← shl64 1 w;
  Ok (u16 (Z.land (u64 tag) (m - 1))).

(** ** Prediction *)

(** The loop that computes the indices and tags of all banks. The members
    [tableIndices], [tableTags] of the predictor, and those of the branch. *)
Definition compute_bank (c : Cfg) (th : ThreadHistory) (pc i : Z) (x : list Z * list Z * list Z * list Z)
    : res (list Z * list Z * list Z * list Z) :=
  let '(ti, tg, bti, btg) := x in
  idx ← gindex c th pc i;
  ti ← vset ti i idx;
  bti ← vset bti i idx;
  tag ← gtag c th pc i;
  tg ← vset tg i tag;
  btg ← vset btg i tag;
  Ok (ti, tg, bti, btg).

(** [for (int i = k; i > 0; i--)]: the first bank whose entry has the tag, or 0. *)
Fixpoint find_bank (g : list (list TageEntry.t)) (ti tg : list Z) (k : nat) : res Z :=
  match k with
  | O => Ok 0
  | S k' =>
      let i := Z.of_nat k in
      idx ← vget ti i;
      e ← gget g i idx;
      tag ← vget tg i;
      if TageEntry.tag e =? tag then Ok i else find_bank g ti tg k'
  end.

(** [tableIndices[bank]] when there is a bank; the member keeps its 0 otherwise. *)
Definition bank_index (ti : list Z) (bank : Z) : res Z :=
  if bank =? 0 then Ok 0 else vget ti bank.

(** [abs(2 * ctr + 1) <= 1]: the counter is weak. *)
Definition weak (ctr : Z) : bool := Z.abs (2 * ctr + 1) <=? 1.

(** The part of [predict] that fills [hitBank] to [pseudoNewAlloc]. *)
Definition tage_predict (c : Cfg) (x : Tables) (pc : Z) (ti tg bti btg : list Z) : res TageInfo :=
  bimodalIndex ← bindex c pc;
  hit ← find_bank (gtable x) ti tg (Z.to_nat (nHistoryTables c));
  hitBankIndex ← bank_index ti hit;
  alt ← find_bank (gtable x) ti tg (Z.to_nat (hit - 1));
  altBankIndex ← bank_index ti alt;
  if 0 <? hit then
    altTaken ← (if 0 <? alt then e ← gget (gtable x) alt altBankIndex; Ok (0 <=? TageEntry.ctr e)
                else getBimodePred (btable x) bimodalIndex);
    e ← gget (gtable x) hit hitBankIndex;
    let longestMatchPred := 0 <=? TageEntry.ctr e in
    let pseudoNewAlloc := weak (TageEntry.ctr e) in
    let tagePred := if (useAltPredForNewlyAllocated x <? 0) || negb (weak (TageEntry.ctr e))
                    then longestMatchPred else altTaken in
    Ok (mkTI hit hitBankIndex alt altBankIndex bimodalIndex tagePred altTaken longestMatchPred
          pseudoNewAlloc bti btg)
  else
    altTaken ← getBimodePred (btable x) bimodalIndex;
    Ok (mkTI hit hitBankIndex alt altBankIndex bimodalIndex altTaken altTaken altTaken false bti btg).

(** [predict(tid, branch_pc, cond_branch, b)]: the answer, and the new object. *)
Definition predict (s : t) (tid branch_pc : Z) (cond_branch : bool) : res (bool * ptr * t) :=
  let c := cfg s in
  let bi := new_info (garbage c) (nHistoryTables c) in
  let li := mkLI (loopTag (loop bi)) (li_currentIter (loop bi)) (loopPred (loop bi)) (loopPredValid (loop bi))
              (loopIndex (loop bi)) (-1) in
  '(pred_taken, ti, li, s) ←
    (if cond_branch then
       th ← vget (threadHistory s) tid;
       '(tis, tgs, bti, btg) ←
         for_banks (nHistoryTables c) (compute_bank c th branch_pc)
           (t_tableIndices s, t_tableTags s, tableIndices (tage bi), tableTags (tage bi));
       ti ← tage_predict c (tabs s) branch_pc tis tgs bti btg;
       '(lp, li) ← getLoop (logSizeLoopPred c) (ltable (tabs s)) branch_pc li;
       let li := mkLI (loopTag li) (li_currentIter li) lp (loopPredValid li) (loopIndex li) (loopHit li) in
       let pred_taken := if (0 <=? loopUseCounter (tabs s)) && loopPredValid li then loopPred li else tagePred ti in
       Ok (pred_taken, ti, li, with_lookups tis tgs s)
     else Ok (true, tage bi, li, s));
  let bi := mkBI (bi_pathHist bi) (bi_ptGhist bi) ti li cond_branch branch_pc (ci bi) (ct0 bi) (ct1 bi) in
  lt ← specLoopUpdate (logSizeLoopPred c) (ltable (tabs s)) branch_pc pred_taken li;
  let '(b, hs) := heap_new (histories s) bi in
  Ok (pred_taken, b, with_histories hs (with_tabs (with_ltable lt (tabs s)) s)).

(** [updateHistories(tid, branch_pc, taken, b)] *)
Definition updateHistories (s : t) (tid branch_pc : Z) (taken : bool) (b : ptr) : res t :=
  let c := cfg s in
  bi ← heap_deref (histories s) b;
  th ← vget (threadHistory s) tid;
  '(th, bi) ← LTAGE.updateHistories (nHistoryTables c) (histBufferSize c) (maxHist c) branch_pc taken th bi;
  ths ← vset (threadHistory s) tid th;
  hs ← heap_store (histories s) b bi;
  Ok (with_histories hs (with_threads ths s)).

(** [assert(gHist == &globalHistory[ptGhist])] *)
Definition check_pointer (s : t) (tid : Z) : res unit :=
  th ← vget (threadHistory s) tid; assert_ (gHist th =? ptGhist th).

Definition lookup (s : t) (tid branch_pc : Z) : res (bool * ptr * t) :=
  '(retval, bp_history, s) ← predict s tid branch_pc true;
  s ← updateHistories s tid branch_pc retval bp_history;
  _ ← check_pointer s tid;
  Ok (retval, bp_history, s).

Definition uncondBranch (s : t) (tid br_pc : Z) : res (ptr * t) :=
  '(_, bp_history, s) ← predict s tid br_pc false;
  s ← updateHistories s tid br_pc true bp_history;
  _ ← check_pointer s tid;
  Ok (bp_history, s).

Definition btbUpdate (s : t) (tid branch_pc : Z) (bp_history : ptr) : res t :=
  bi ← heap_deref (histories s) bp_history;
  th ← vget (threadHistory s) tid;
  th ← btbUpdate_history (nHistoryTables (cfg s)) bi th;
  ths ← vset (threadHistory s) tid th;
  Ok (with_threads ths s).

(** [getGHR]: 32 outcomes, from the one of the branch backwards in time. *)
Definition getGHR (s : t) (tid : Z) (bp_history : ptr) : res Z :=
  bi ← heap_deref (histories s) bp_history;
  th ← vget (threadHistory s) tid;
  foldl (λ acc i, acc ≫= λ val : Z,
           let gh_offset := bi_ptGhist bi + Z.of_nat i in
           _ ← assert_ (gh_offset <? histBufferSize (cfg s));
           x ← vget (globalHistory th) gh_offset;
           Ok (Z.lor val (u32 (Z.shiftl (Z.land x 1) (Z.of_nat i)))))
    (Ok 0) (seq 0 32).

(** ** Squash *)

(** [squash(tid, bp_history)] *)
Definition squash (s : t) (tid : Z) (bp_history : ptr) : res t :=
  bi ← heap_deref (histories s) bp_history;
  lt ← restore_loop (ltable (tabs s)) bi;
  hs ← heap_delete (histories s) bp_history;
  Ok (with_histories hs (with_tabs (with_ltable lt (tabs s)) s)).

(** [squash(tid, taken, bp_history)], called on a misprediction. *)
Definition squash_taken (s : t) (tid : Z) (taken : bool) (bp_history : ptr) : res t :=
  bi ← heap_deref (histories s) bp_history;
  th ← vget (threadHistory s) tid;
  th ← squash_history (nHistoryTables (cfg s)) taken bi th;
  ths ← vset (threadHistory s) tid th;
  lt ← restore_loop (ltable (tabs s)) bi;
  Ok (with_tabs (with_ltable lt (tabs s)) (with_threads ths s)).

(** ** Update *)

(** [for (int i = lo; i <= hi; i++)] *)
Definition for_range {A} (lo hi : Z) (body : Z → A → res A) (a : A) : res A :=
  foldl (λ acc i, acc ≫= body (lo + Z.of_nat i)) (Ok a) (seq 0 (Z.to_nat (hi - lo + 1))).

(** [for (int i = hi; i > lo; i--)] *)
Definition for_down {A} (hi lo : Z) (body : Z → A → res A) (a : A) : res A :=
  foldl (λ acc i, acc ≫= body (hi - Z.of_nat i)) (Ok a) (seq 0 (Z.to_nat (hi - lo))).

(** "is there some unuseful entry to allocate" *)
Definition min_u (g : list (list TageEntry.t)) (ti : list Z) (n hitBank : Z) : res Z :=
  for_down n hitBank (λ i min,
    idx ← vget ti i; e ← gget g i idx;
    Ok (if TageEntry.u e <? min then TageEntry.u e else min)) 1.

(** The first bank considered for allocation: one of the next three, at random. *)
Definition alloc_bank (n hitBank nrand : Z) : res Z :=
  m ← shl64 1 (u32 (n - hitBank - 1));
  let Y := i32 (Z.land (u64 nrand) (m - 1)) in
  let X := hitBank + 1 in
  Ok (if negb (Z.land Y 1 =? 0) then (if negb (Z.land Y 2 =? 0) then X + 1 + 1 else X + 1) else X).

(** The body of the loop commented "Allocate only one entry". *)
Definition alloc_entry (tinfo : TageInfo) (taken : bool) (i : Z) (g : list (list TageEntry.t))
    : res (list (list TageEntry.t)) :=
  idx ← vget (tableIndices tinfo) i;
  e ← gget g i idx;
  if TageEntry.u e =? 0 then
    tag ← vget (tableTags tinfo) i;
    gset g i idx (TageEntry.mk (if taken then 0 else -1) (u16 tag) 0)
  else Ok g.

(** The block [if (alloc)]. *)
Definition allocate (n : Z) (tinfo : TageInfo) (taken : bool) (nrand : Z) (g : list (list TageEntry.t))
    : res (list (list TageEntry.t)) :=
  min ← min_u g (tableIndices tinfo) n (hitBank tinfo);
  X ← alloc_bank n (hitBank tinfo) nrand;
  g ← (if 0 <? min then
         idx ← vget (tableIndices tinfo) X;
         e ← gget g X idx;
         gset g X idx (TageEntry.set_u 0 e)
       else Ok g);
  for_range X n (alloc_entry tinfo taken) g.

(** [gtable[i][j].u = gtable[i][j].u >> 1] for all entries. *)
Definition age_all (c : Cfg) (g : list (list TageEntry.t)) : res (list (list TageEntry.t)) :=
  for_banks (nHistoryTables c) (λ i g,
    sz ← vget (tagTableSizes c) i;
    m ← shl64 1 sz;
    for_range 0 (m - 1) (λ j g,
      e ← gget g i j; gset g i j (TageEntry.set_u (Z.shiftr (TageEntry.u e) 1) e)) g) g.

(** "periodic reset of u" *)
Definition tick (c : Cfg) (x : Tables) : res Tables :=
  let x := with_tCounter (i32 (tCounter x + 1)) x in
  m ← shl64 1 (logTick c);
  if Z.land (u64 (tCounter x)) (m - 1) =? 0 then
    g ← age_all c (gtable x); Ok (with_gtable g x)
  else Ok x.

Definition ctr_at (c : Cfg) (taken : bool) (bank idx : Z) (g : list (list TageEntry.t))
    : res (list (list TageEntry.t)) :=
  e ← gget g bank idx;
  ctr ← ctrUpdate (TageEntry.ctr e) taken (i32 (tagTableCounterBits c));
  gset g bank idx (TageEntry.set_ctr ctr e).

(** The block [if (bi->hitBank > 0)] at the end: train the provider, the alternate
    when the provider is not useful, and the usefulness. *)
Definition train_tagged (c : Cfg) (tinfo : TageInfo) (taken : bool) (x : Tables) : res Tables :=
  g ← ctr_at c taken (hitBank tinfo) (hitBankIndex tinfo) (gtable x);
  e ← gget g (hitBank tinfo) (hitBankIndex tinfo);
  x ← (if TageEntry.u e =? 0 then
         g ← (if 0 <? altBank tinfo then ctr_at c taken (altBank tinfo) (altBankIndex tinfo) g else Ok g);
         b ← (if altBank tinfo =? 0 then baseUpdate (btable x) taken (bimodalIndex tinfo) else Ok (btable x));
         Ok (with_btable b (with_gtable g x))
       else Ok (with_gtable g x));
  if negb (eqb (longestMatchPred tinfo) (altTaken tinfo)) && eqb (longestMatchPred tinfo) taken then
    e ← gget (gtable x) (hitBank tinfo) (hitBankIndex tinfo);
    if TageEntry.u e <? 1 then
      g ← gset (gtable x) (hitBank tinfo) (hitBankIndex tinfo) (TageEntry.set_u (i8 (TageEntry.u e + 1)) e);
      Ok (with_gtable g x)
    else Ok x
  else Ok x.

(** Whether a new entry is wanted, and [useAltPredForNewlyAllocated]. *)
Definition choose_alloc (c : Cfg) (tinfo : TageInfo) (taken : bool) (x : Tables) : res (bool * Tables) :=
  let alloc := negb (eqb (tagePred tinfo) taken) && (hitBank tinfo <? nHistoryTables c) in
  if (0 <? hitBank tinfo) && pseudoNewAlloc tinfo then
    let alloc := if eqb (longestMatchPred tinfo) taken then false else alloc in
    if negb (eqb (longestMatchPred tinfo) (altTaken tinfo)) then
      u ← ctrUpdate (useAltPredForNewlyAllocated x) (eqb (altTaken tinfo) taken) 4;
      Ok (alloc, with_useAlt u x)
    else Ok (alloc, x)
  else Ok (alloc, x).

(** The block [if (bi->condBranch)] of [update]. *)
Definition update_tables (c : Cfg) (bi : BranchInfo) (taken : bool) (nrand : Z) (x : Tables) : res Tables :=
  '(lt, r) ← loopUpdate (ltable x) taken (tagePred (tage bi)) (loop bi) (rng x);
  let x := with_rng r (with_ltable lt x) in
  x ← (if loopPredValid (loop bi) && negb (eqb (tagePred (tage bi)) (loopPred (loop bi))) then
         u ← ctrUpdate (loopUseCounter x) (eqb (loopPred (loop bi)) taken) 7; Ok (with_loopUse u x)
       else Ok x);
  '(alloc, x) ← choose_alloc c (tage bi) taken x;
  x ← (if alloc : bool then
         g ← allocate (nHistoryTables c) (tage bi) taken nrand (gtable x); Ok (with_gtable g x)
       else Ok x);
  x ← tick c x;
  if 0 <? hitBank (tage bi) then train_tagged c (tage bi) taken x
  else b ← baseUpdate (btable x) taken (bimodalIndex (tage bi)); Ok (with_btable b x).

Definition update (s : t) (tid branch_pc : Z) (taken : bool) (bp_history : ptr) (squashed : bool) : res t :=
  _ ← assert_ (bool_decide (bp_history ≠ None));
  if squashed then squash_taken s tid taken bp_history
  else
    bi ← heap_deref (histories s) bp_history;
    let nrand := rng (tabs s) 0%nat in
    let x := with_rng (λ k, rng (tabs s) (S k)) (tabs s) in
    x ← (if condBranch bi then update_tables (cfg s) bi taken nrand x else Ok x);
    hs ← heap_delete (histories s) bp_history;
    Ok (with_histories hs (with_tabs x s)).

(** ** The constructor *)

(** Members 1 to 12 are set; the others are not. *)
Definition mk_tagWidths (indet minTagWidth : Z) : list Z :=
  [indet; minTagWidth; minTagWidth; minTagWidth + 1; minTagWidth + 1; minTagWidth + 2; minTagWidth + 3;
   minTagWidth + 4; minTagWidth + 5; minTagWidth + 5; minTagWidth + 6; minTagWidth + 7; minTagWidth + 8;
   indet; indet].
Definition mk_tagTableSizes (indet logSize : Z) : list Z :=
  let a := i32 (u32 (logSize - 1)) in
  let b := i32 logSize in
  let c := i32 (u32 (logSize - 2)) in
  [indet; a; a; b; b; b; b; a; a; a; a; c; c; indet; indet].

(** [geometric i] is the rounded floating-point expression for [histLengths[i]]. *)
Definition mk_histLengths (indet : Z) (geometric : Z → Z) (p : Params) : res (list Z) :=
  let n := p_nHistoryTables p in
  let l := replicate (Z.to_nat (n + 1)) indet in
  l ← vset l 1 (p_minHist p);
  l ← vset l n (p_maxHist p);
  foldl (λ acc i, acc ≫= λ l : list Z, vset l (Z.of_nat i) (geometric (Z.of_nat i)))
    (Ok l) (seq 2 (Z.to_nat (n - 1))).

Definition new_banks (c : Cfg) : res (list (list TageEntry.t)) :=
  for_banks (nHistoryTables c) (λ i g,
    sz ← vget (tagTableSizes c) i;
    m ← shl_int1 sz;
    vset g i (replicate (Z.to_nat m) TageEntry.fresh))
    (replicate (Z.to_nat (nHistoryTables c + 1)) []).

Definition create (indet : Z) (f0 : FoldedHistory.t) (geometric : Z → Z) (draws : nat → Z) (p : Params) : res t :=
  _ ← assert_ (u32 (p_maxHist p * 2) <? p_histBufferSize p);
  histLengths ← mk_histLengths indet geometric p;
  let tagWidths := mk_tagWidths indet (p_minTagWidth p) in
  let tagTableSizes := mk_tagTableSizes indet (p_logSizeTagTables p) in
  th ← create_history f0 (p_nHistoryTables p) (p_histBufferSize p) histLengths tagTableSizes tagWidths;
  let c := mkCfg (p_logSizeBiMP p) (p_logSizeTagTables p) (p_logSizeLoopPred p) (p_nHistoryTables p)
             (p_tagTableCounterBits p) (p_histBufferSize p) (p_minHist p) (p_maxHist p) (p_minTagWidth p)
             tagWidths tagTableSizes histLengths 19 indet in
  nb ← shl64 1 (p_logSizeBiMP p);
  nl ← shl64 1 (p_logSizeLoopPred p);
  g ← new_banks c;
  tCounter ← shl64 1 (19 - 1);
  let sz := Z.to_nat (p_nHistoryTables p + 1) in
  Ok (mk c (mkTables (replicate (Z.to_nat nb) BimodalEntry.fresh) g
              (replicate (Z.to_nat nl) LoopEntry.fresh) 0 0 tCounter draws)
        (replicate (Z.to_nat (p_numThreads p)) th) (replicate sz indet) (replicate sz indet) heap_empty).

#[global] Instance ltage_predictor : DirPredictor t := {|
  dp_uncondBranch := uncondBranch;
  dp_lookup := lookup;
  dp_btbUpdate := btbUpdate;
  dp_update := update;
  dp_squash := squash;
  dp_getGHR := getGHR;
|}.

End LTAGEPredictor.
