(* ===== verification/LtageInv.v ===== *)
(** * The invariant of the L-TAGE predictor

    Every method of [Ltage] returns and keeps the predictor well formed, whatever
    branches are predicted, resolved, squashed and committed, and in whatever order
    the history objects come back: the laws of [Predictor], so that the theorems of
    the branch prediction unit hold for it. *)

From S2P Require Import Prelude Predictor LtageHist LtageTables Ltage.

Module LTAGEInv.
Import LTAGE LTAGEPredictor.

(** ** Thread histories, without what they hold *)
Section histories.
Context (n size m : Z) (L Ci Ct0 Ct1 : Z → Z) (G : geometry n size m L Ci Ct0 Ct1).

Definition bits (l : list Z) : Prop := Forall (λ x, 0 ≤ x ≤ 1) l.

Record th_ok (th : ThreadHistory) : Prop := {
  th_shape : all_shape n L Ci Ct0 Ct1 th;
  th_len : vlen (globalHistory th) = size;
  th_bits : bits (globalHistory th);
  th_ptr : gHist th = ptGhist th;
  th_range : 0 ≤ ptGhist th < size - m;
  th_path : 0 ≤ pathHist th < 2 ^ 16;
}.

Lemma history_ok_th th bs :
  history_ok n size m L Ci Ct0 Ct1 th bs → bits (globalHistory th) → 0 ≤ pathHist th < 2 ^ 16 → th_ok th.
Proof.
  intros H Hb Hp. pose proof (history_shape _ _ _ _ _ _ _ _ _ H). by destruct H as [[Hl Hr _] Hptr _].
Qed.

Lemma bits_get tab i : bits tab → 0 ≤ i < vlen tab → ∃ x, vget tab i = Ok x ∧ 0 ≤ x ≤ 1.
Proof.
  intros Hb Hi. destruct (vlookup_lt tab i Hi) as [x Hx]. exists x.
  split; [apply vget_in; (lia || done)|]. by eapply (Forall_lookup_1 _ _ _ _ Hb).
Qed.

(** A register of a bank, with any content. *)
Definition bank_reg (C : Z → Z) (j : Z) (f : FoldedHistory.t) : Prop :=
  ∃ c, f = FoldedHistory.mk c (C j) (L j) (L j mod C j).

Lemma bank_reg_set_comp C j f x : bank_reg C j f → bank_reg C j (FoldedHistory.set_comp x f).
Proof. intros [c ->]. by exists x. Qed.

Lemma folded_update_total tab pt C j f :
  bits tab → vlen tab = size → 0 ≤ pt < size - m → 1 ≤ j ≤ n → 0 < C j < 32 → bank_reg C j f →
  returns (FoldedHistory.update tab pt f) (bank_reg C j).
Proof.
  intros Hb Hl Hp Hj HC [c ->]. pose proof (g_len _ _ _ _ _ _ _ G j Hj) as HL. pose proof (g_hist _ _ _ _ _ _ _ G).
  unfold FoldedHistory.update. destruct (bits_get tab pt Hb) as (x & -> & Hx); [lia|].
  cbn [mbind res_bind FoldedHistory.origLength]. destruct (bits_get tab (pt + L j) Hb) as (y & -> & Hy); [lia|].
  cbn [mbind res_bind FoldedHistory.outpoint FoldedHistory.compLength FoldedHistory.comp].
  pose proof (Z.mod_pos_bound (L j) (C j) ltac:(lia)) as Hm.
  assert (2 ^ (L j mod C j) ≤ 2 ^ 30) by (apply Z.pow_le_mono_r; lia).
  assert (0 < 2 ^ (L j mod C j)) by (apply Z.pow_pos_nonneg; lia).
  rewrite shl_int_in by (lia || nia). cbn [mbind res_bind]. rewrite shr32_in by lia. cbn [mbind res_bind].
  rewrite shl64_in by lia. cbn [mbind res_bind returns]. by eexists.
Qed.

Lemma bank_shape_vget C l j : bank_shape n L C l → 1 ≤ j ≤ n → ∃ f, vget l j = Ok f ∧ bank_reg C j f.
Proof.
  intros [Hl Hb] Hj. destruct (Hb j Hj) as [c Hc]. eexists. split; [apply vget_in; [lia|done]|]. by eexists.
Qed.

Lemma bank_shape_vset C l j f :
  bank_shape n L C l → 1 ≤ j ≤ n → bank_reg C j f → ∃ l', vset l j f = Ok l' ∧ bank_shape n L C l'.
Proof.
  intros [Hl Hb] Hj [c ->]. eexists. split; [apply vset_in; lia|]. split; [by rewrite vlen_insert|].
  intros i Hi. destruct (decide (i = j)) as [->|].
  - rewrite vlookup_insert_eq by lia. by eexists.
  - rewrite vlookup_insert_ne by lia. by apply Hb.
Qed.

Lemma vset_len {A} (l : list A) j x : 0 ≤ j < vlen l → ∃ l', vset l j x = Ok l' ∧ vlen l' = vlen l.
Proof. intros Hj. eexists. split; [by apply vset_in|apply vlen_insert]. Qed.

(** The parts of a thread history that the loops over the banks do not touch. *)
Definition same_outcomes (th th' : ThreadHistory) : Prop :=
  pathHist th' = pathHist th ∧ globalHistory th' = globalHistory th ∧ gHist th' = gHist th ∧ ptGhist th' = ptGhist th.

(** And of a branch. *)
Definition same_prediction (bi bi' : BranchInfo) : Prop :=
  tage bi' = tage bi ∧ loop bi' = loop bi ∧ condBranch bi' = condBranch bi ∧
  bi_pathHist bi' = bi_pathHist bi ∧ bi_ptGhist bi' = bi_ptGhist bi.

Lemma save_banks_total th bi :
  th_ok th → info_shape n bi →
  returns (for_banks n save_bank (th, bi)) (λ r,
    th_ok r.1 ∧ info_shape n r.2 ∧ same_outcomes th r.1 ∧ same_prediction bi r.2).
Proof.
  intros Hth Hbi. pose proof (g_banks _ _ _ _ _ _ _ G).
  apply (for_banks_ind n save_bank (λ _ r,
    th_ok r.1 ∧ info_shape n r.2 ∧ same_outcomes th r.1 ∧ same_prediction bi r.2) (th, bi)); [done|done|].
  intros i [th1 bi1] Hi ([(S1 & S2 & S3) Hl Hb Hp Hr Hpa] & (I1 & I2 & I3) & Ho & Hs). cbn [fst snd] in *.
  unfold save_bank. rewrite Hp.
  destruct (bank_shape_vget _ _ i S1 Hi) as (fa & -> & Ra), (bank_shape_vget _ _ i S2 Hi) as (fb & -> & Rb),
    (bank_shape_vget _ _ i S3 Hi) as (fc & -> & Rc). cbn [mbind res_bind].
  destruct (vset_len (ci bi1) i (FoldedHistory.comp fa)) as (a' & -> & La); [lia|]. cbn [mbind res_bind].
  destruct (vset_len (ct0 bi1) i (FoldedHistory.comp fb)) as (b' & -> & Lb); [lia|]. cbn [mbind res_bind].
  destruct (vset_len (ct1 bi1) i (FoldedHistory.comp fc)) as (c' & -> & Lc); [lia|]. cbn [mbind res_bind].
  apply returns_bind. eapply returns_mono; [apply (folded_update_total _ _ Ci i fa); (done || apply G; done)|]. intros ga Ga.
  apply returns_bind. eapply returns_mono; [apply (folded_update_total _ _ Ct0 i fb); (done || apply G; done)|]. intros gb Gb.
  apply returns_bind. eapply returns_mono; [apply (folded_update_total _ _ Ct1 i fc); (done || apply G; done)|]. intros gc Gc.
  destruct (bank_shape_vset _ _ i ga S1 Hi Ga) as (la & -> & S1'), (bank_shape_vset _ _ i gb S2 Hi Gb) as (lb & -> & S2'),
    (bank_shape_vset _ _ i gc S3 Hi Gc) as (lc & -> & S3'). cbn [mbind res_bind returns fst snd].
  split_and!; [split; (done || by split_and!)|split_and!; cbn; congruence|done|done].
Qed.

Lemma restore_banks_total th bi :
  th_ok th → info_shape n bi →
  returns (for_banks n (restore_bank bi) th) (λ r, th_ok r ∧ same_outcomes th r).
Proof.
  intros Hth Hbi. pose proof (g_banks _ _ _ _ _ _ _ G).
  apply (for_banks_ind n (restore_bank bi) (λ _ r, th_ok r ∧ same_outcomes th r)); [done|done|].
  intros i th1 Hi ([(S1 & S2 & S3) Hl Hb Hp Hr Hpa] & Ho). destruct Hbi as (I1 & I2 & I3).
  unfold restore_bank. rewrite Hp.
  destruct (bank_shape_vget _ _ i S1 Hi) as (fa & -> & Ra), (bank_shape_vget _ _ i S2 Hi) as (fb & -> & Rb),
    (bank_shape_vget _ _ i S3 Hi) as (fc & -> & Rc). cbn [mbind res_bind].
  destruct (vlookup_lt (ci bi) i) as [xa Ea]; [lia|]. destruct (vlookup_lt (ct0 bi) i) as [xb Eb]; [lia|].
  destruct (vlookup_lt (ct1 bi) i) as [xc Ec]; [lia|].
  rewrite (vget_in _ i xa ltac:(lia) Ea). cbn [mbind res_bind]. rewrite (vget_in _ i xb ltac:(lia) Eb). cbn [mbind res_bind].
  rewrite (vget_in _ i xc ltac:(lia) Ec). cbn [mbind res_bind].
  apply returns_bind. eapply returns_mono; [apply (folded_update_total _ _ Ci i); (done || (apply G; done) || by apply bank_reg_set_comp)|]. intros ga Ga.
  apply returns_bind. eapply returns_mono; [apply (folded_update_total _ _ Ct0 i); (done || (apply G; done) || by apply bank_reg_set_comp)|]. intros gb Gb.
  apply returns_bind. eapply returns_mono; [apply (folded_update_total _ _ Ct1 i); (done || (apply G; done) || by apply bank_reg_set_comp)|]. intros gc Gc.
  destruct (bank_shape_vset _ _ i ga S1 Hi Ga) as (la & -> & S1'), (bank_shape_vset _ _ i gb S2 Hi Gb) as (lb & -> & S2'),
    (bank_shape_vset _ _ i gc S3 Hi Gc) as (lc & -> & S3'). cbn [mbind res_bind returns fst snd].
  split_and!; [split; (done || by split_and!)|done].
Qed.

Lemma updateGHist_total tab pt b :
  bits tab → vlen tab = size → 0 ≤ pt < size - m →
  returns (updateGHist size m pt b tab pt) (λ r,
    bits r.1.2 ∧ vlen r.1.2 = size ∧ r.1.1 = r.2 ∧ 0 ≤ r.2 < size - m).
Proof.
  intros Hb Hl Hp. pose proof (g_hist _ _ _ _ _ _ _ G) as [Hm Hs]. unfold updateGHist.
  assert (0 ≤ b2z b ≤ 1) by apply b2z_range. destruct (Z.eqb_spec pt 0) as [->|].
  - destruct (roll_over_Ok n size m L Ci Ct0 Ct1 G tab Hl) as (t1 & -> & Hl1 & H1 & H2). cbn [mbind res_bind].
    rewrite vset_in by lia. cbn [mbind res_bind returns fst snd]. split_and!; [|by rewrite vlen_insert|lia..].
    apply Forall_insert; [|done]. apply Forall_lookup_2. intros q x Hx.
    pose proof (lookup_lt_Some _ _ _ Hx) as Hlt. unfold vlen in Hl1.
    rewrite <- (Nat2Z.id q) in Hx. destruct (Z.lt_ge_cases (Z.of_nat q) (size - m)).
    + rewrite H2 in Hx by lia. by eapply (Forall_lookup_1 _ _ _ _ Hb).
    + replace (Z.of_nat q) with (size - m + (Z.of_nat q - (size - m))) in Hx by lia.
      rewrite H1 in Hx by lia. by eapply (Forall_lookup_1 _ _ _ _ Hb).
  - cbn [mbind res_bind]. rewrite vset_in by lia. cbn [mbind res_bind returns fst snd].
    split_and!; [by apply Forall_insert|by rewrite vlen_insert|lia..].
Qed.

Lemma updateHistories_total pc b th bi :
  th_ok th → info_shape n bi →
  returns (LTAGE.updateHistories n size m pc b th bi) (λ r,
    th_ok r.1 ∧ info_shape n r.2 ∧ 0 ≤ bi_ptGhist r.2 < size - m ∧ 0 ≤ bi_pathHist r.2 < 2 ^ 16 ∧
    tage r.2 = tage bi ∧ loop r.2 = loop bi ∧ condBranch r.2 = condBranch bi).
Proof.
  intros [Hsh Hl Hb Hp Hr Hpa] Hi. unfold LTAGE.updateHistories. rewrite Hp. apply returns_bind.
  eapply returns_mono; [by apply updateGHist_total|]. intros [[h tab] pt] (Hb' & Hl' & Hh & Hr'). cbn [fst snd] in *.
  set (path := Z.land _ (2 ^ 16 - 1)).
  assert (0 ≤ path < 2 ^ 16) by (unfold path; rewrite land_pow2_mod by lia; apply Z.mod_pos_bound; lia).
  eapply returns_mono; [apply save_banks_total; [by split|done]|].
  intros [th' bi'] (Hth & Hbi & _ & (E1 & E2 & E3 & E4 & E5)). cbn [fst snd with_saved tage loop condBranch bi_pathHist bi_ptGhist] in *.
  split_and!; (done || lia || congruence).
Qed.

Lemma squash_history_total b th bi :
  th_ok th → info_shape n bi → 0 ≤ bi_ptGhist bi < size - m → 0 ≤ bi_pathHist bi < 2 ^ 16 →
  returns (squash_history n b bi th) th_ok.
Proof.
  intros [Hsh Hl Hb Hp Hr Hpa] Hi Hpt Hph. pose proof (g_hist _ _ _ _ _ _ _ G) as [Hm Hs]. unfold squash_history.
  rewrite vset_in by lia. cbn [mbind res_bind]. pose proof (b2z_range b).
  eapply returns_mono; [apply (restore_banks_total _ bi); [|done]|by intros ? [? _]].
  split; cbn; try done; [by rewrite vlen_insert|by apply Forall_insert].
Qed.

Lemma btbUpdate_history_total th bi :
  th_ok th → info_shape n bi → returns (btbUpdate_history n bi th) th_ok.
Proof.
  intros [Hsh Hl Hb Hp Hr Hpa] Hi. pose proof (g_hist _ _ _ _ _ _ _ G) as [Hm Hs]. unfold btbUpdate_history.
  rewrite Hp, Z.eqb_refl. cbn [assert_ mbind res_bind]. rewrite vset_in by lia. cbn [mbind res_bind].
  eapply returns_mono; [apply (restore_banks_total _ bi); [|done]|by intros ? [? _]].
  split; cbn; try done; [by rewrite vlen_insert|apply Forall_insert; [done|lia]].
Qed.

End histories.

(** ** The invariant *)

Definition at_ (l : list Z) (j : Z) : Z := default 0 (l !! Z.to_nat j).

Lemma vget_at l j : 0 ≤ j < vlen l → vget l j = Ok (at_ l j).
Proof. intros Hj. destruct (vlookup_lt l j Hj) as [x Hx]. unfold at_. rewrite Hx. apply vget_in; [lia|done]. Qed.

Definition size_of (c : Cfg) (j : Z) : Z := 2 ^ at_ (tagTableSizes c) j.

(** The geometry that the constructor gives the registers of the banks. *)
Definition cfg_geometry (c : Cfg) : Prop :=
  geometry (nHistoryTables c) (histBufferSize c) (maxHist c) (at_ (histLengths c)) (at_ (tagTableSizes c))
    (at_ (tagWidths c)) (λ j, at_ (tagWidths c) j - 1).

(** Parameters without undefined behaviour. Shifting by [tagTableSizes[bank] - bank]
    needs [bank <= tagTableSizes[bank]]. *)
Record cfg_ok (c : Cfg) : Prop := {
  c_banks : 1 ≤ nHistoryTables c ≤ 12;
  c_geometry : cfg_geometry c;
  c_ghr : 31 ≤ maxHist c;
  c_lens : vlen (histLengths c) = nHistoryTables c + 1 ∧ vlen (tagWidths c) = 15 ∧ vlen (tagTableSizes c) = 15;
  c_sizes j : 1 ≤ j ≤ nHistoryTables c → j ≤ at_ (tagTableSizes c) j ≤ 30;
  c_bimodal : 0 ≤ logSizeBiMP c < 31;
  c_loop : 2 ≤ logSizeLoopPred c < 31;
  c_bits : 1 ≤ tagTableCounterBits c ≤ 8;
  c_tick : 0 ≤ logTick c < 64;
}.

Definition entry_ok (c : Cfg) (e : TageEntry.t) : Prop :=
  ctr_ok (tagTableCounterBits c) (TageEntry.ctr e) ∧ is_u16 (TageEntry.tag e) ∧ 0 ≤ TageEntry.u e ≤ 1.

Definition gtable_ok (c : Cfg) (g : list (list TageEntry.t)) : Prop :=
  vlen g = nHistoryTables c + 1 ∧
  ∀ j, 1 ≤ j ≤ nHistoryTables c → ∃ l, g !! Z.to_nat j = Some l ∧ vlen l = size_of c j ∧ Forall (entry_ok c) l.

Record tabs_ok (c : Cfg) (x : Tables) : Prop := {
  t_bimodal : vlen (btable x) = 2 ^ logSizeBiMP c ∧ Forall BimodalEntry.ok (btable x);
  t_tagged : gtable_ok c (gtable x);
  t_loop : ltable_ok (logSizeLoopPred c) (ltable x);
  t_loopUse : ctr_ok 7 (loopUseCounter x);
  t_useAlt : ctr_ok 4 (useAltPredForNewlyAllocated x);
}.

(** A bank and an index into its table, if it is a bank. *)
Definition slot_ok (c : Cfg) (bank idx : Z) : Prop :=
  0 ≤ bank ≤ nHistoryTables c ∧ (0 < bank → 0 ≤ idx < size_of c bank).

Definition indices_ok (c : Cfg) (l : list Z) : Prop :=
  vlen l = nHistoryTables c + 1 ∧
  ∀ j, 1 ≤ j ≤ nHistoryTables c → ∃ i, l !! Z.to_nat j = Some i ∧ 0 ≤ i < size_of c j.

Record tage_info_ok (c : Cfg) (ti : TageInfo) : Prop := {
  ti_hit : slot_ok c (hitBank ti) (hitBankIndex ti);
  ti_alt : slot_ok c (altBank ti) (altBankIndex ti);
  ti_order : 0 < altBank ti → altBank ti < hitBank ti;
  ti_bimodal : 0 ≤ bimodalIndex ti < 2 ^ logSizeBiMP c;
  ti_indices : indices_ok c (tableIndices ti);
  ti_tags : vlen (tableTags ti) = nHistoryTables c + 1;
}.

Record info_ok (c : Cfg) (bi : BranchInfo) : Prop := {
  io_shape : info_shape (nHistoryTables c) bi;
  io_pt : 0 ≤ bi_ptGhist bi < histBufferSize c - maxHist c;
  io_path : 0 ≤ bi_pathHist bi < 2 ^ 16;
  io_loop : loop_info_ok (logSizeLoopPred c) (loop bi);
  io_tage : condBranch bi = true → tage_info_ok c (tage bi);
}.

Definition thread_ok (c : Cfg) : ThreadHistory → Prop :=
  th_ok (nHistoryTables c) (histBufferSize c) (maxHist c) (at_ (histLengths c)) (at_ (tagTableSizes c))
    (at_ (tagWidths c)) (λ j, at_ (tagWidths c) j - 1).

Record wf (nt : Z) (s : t) : Prop := {
  wf_cfg : cfg_ok (cfg s);
  wf_tabs : tabs_ok (cfg s) (tabs s);
  wf_threads : vlen (threadHistory s) = nt ∧ Forall (thread_ok (cfg s)) (threadHistory s);
  wf_indices : vlen (t_tableIndices s) = nHistoryTables (cfg s) + 1;
  wf_tags : vlen (t_tableTags s) = nHistoryTables (cfg s) + 1;
  wf_infos : heap_all (info_ok (cfg s)) (histories s);
}.

(** ** The tagged tables *)
Section tables.
Context (c : Cfg) (Hc : cfg_ok c).

Lemma size_pos j : 1 ≤ j ≤ nHistoryTables c → 0 < size_of c j ≤ 2 ^ 30.
Proof.
  intros Hj. pose proof (c_sizes c Hc j Hj). unfold size_of. split; [apply Z.pow_pos_nonneg; lia|].
  apply Z.pow_le_mono_r; lia.
Qed.

Lemma gget_ok g b i :
  gtable_ok c g → 1 ≤ b ≤ nHistoryTables c → 0 ≤ i < size_of c b → ∃ e, gget g b i = Ok e ∧ entry_ok c e.
Proof.
  intros [Hl Hg] Hb Hi. destruct (Hg b Hb) as (l & El & Ll & Hf). unfold gget. rewrite (vget_in _ b l) by (lia || done).
  cbn [mbind res_bind]. destruct (vlookup_lt l i) as [e He]; [lia|]. exists e.
  split; [apply vget_in; (lia || done)|]. by eapply (Forall_lookup_1 _ _ _ _ Hf).
Qed.

Lemma gset_ok g b i e :
  gtable_ok c g → 1 ≤ b ≤ nHistoryTables c → 0 ≤ i < size_of c b → entry_ok c e →
  ∃ g', gset g b i e = Ok g' ∧ gtable_ok c g'.
Proof.
  intros [Hl Hg] Hb Hi He. destruct (Hg b Hb) as (l & El & Ll & Hf). unfold gset. rewrite (vget_in _ b l) by (lia || done).
  cbn [mbind res_bind]. rewrite vset_in by lia. cbn [mbind res_bind]. eexists. split; [apply vset_in; lia|].
  split; [by rewrite vlen_insert|]. intros j Hj. destruct (decide (j = b)) as [->|].
  - rewrite vlookup_insert_eq by lia. eexists. split_and!; [done|by rewrite vlen_insert|by apply Forall_insert].
  - rewrite vlookup_insert_ne by lia. by apply Hg.
Qed.

Lemma returns_gget g b i (Q : TageEntry.t → Prop) :
  gtable_ok c g → 1 ≤ b ≤ nHistoryTables c → 0 ≤ i < size_of c b → (∀ e, entry_ok c e → Q e) → returns (gget g b i) Q.
Proof. intros Hg Hb Hi HQ. destruct (gget_ok g b i Hg Hb Hi) as (e & -> & He). by apply HQ. Qed.

Lemma returns_gset g b i e (Q : list (list TageEntry.t) → Prop) :
  gtable_ok c g → 1 ≤ b ≤ nHistoryTables c → 0 ≤ i < size_of c b → entry_ok c e → (∀ g', gtable_ok c g' → Q g') →
  returns (gset g b i e) Q.
Proof. intros Hg Hb Hi He HQ. destruct (gset_ok g b i e Hg Hb Hi He) as (g' & -> & Hg'). by apply HQ. Qed.

Lemma indices_get l j : indices_ok c l → 1 ≤ j ≤ nHistoryTables c → ∃ i, vget l j = Ok i ∧ 0 ≤ i < size_of c j.
Proof. intros [Hl Hi] Hj. destruct (Hi j Hj) as (i & E & Hr). exists i. split; [apply vget_in; (lia || done)|done]. Qed.

Lemma entry_ok_set_u x e : entry_ok c e → 0 ≤ x ≤ 1 → entry_ok c (TageEntry.set_u x e).
Proof. intros (? & ? & ?) ?. split; [done|by split]. Qed.

Lemma entry_ok_set_ctr x e : entry_ok c e → ctr_ok (tagTableCounterBits c) x → entry_ok c (TageEntry.set_ctr x e).
Proof. intros (? & ? & ?) ?. split; [done|by split]. Qed.

(** A weak counter, as allocated. *)
Lemma entry_ok_new taken tag : entry_ok c (TageEntry.mk (if taken : bool then 0 else -1) (u16 tag) 0).
Proof.
  pose proof (c_bits c Hc). assert (0 < 2 ^ (tagTableCounterBits c - 1)) by (apply Z.pow_pos_nonneg; lia).
  split_and!; cbn; [unfold ctr_ok; destruct taken; lia|apply u16_range|lia..].
Qed.

Lemma for_range_ind {A} (lo hi : Z) (body : Z → A → res A) (P : A → Prop) a :
  P a → (∀ i x, lo ≤ i ≤ hi → P x → returns (body i x) P) → returns (for_range lo hi body a) P.
Proof.
  intros Ha Hs. unfold for_range.
  assert (∀ l : list nat, Forall (λ i, lo ≤ lo + Z.of_nat i ≤ hi) l →
    ∀ x : res A, returns x P → returns (foldl (λ acc i, acc ≫= body (lo + Z.of_nat i)) x l) P) as Hl.
  { induction l as [|i l IH]; intros HF x Hx; cbn [foldl]; [done|]. apply Forall_cons in HF as [Hi HF].
    apply IH; [done|]. apply returns_bind. eapply returns_mono; [exact Hx|]. intros y Hy. by apply Hs. }
  apply Hl; [|done]. apply Forall_seq. intros. lia.
Qed.

Lemma for_down_ind {A} (hi lo : Z) (body : Z → A → res A) (P : A → Prop) a :
  P a → (∀ i x, lo < i ≤ hi → P x → returns (body i x) P) → returns (for_down hi lo body a) P.
Proof.
  intros Ha Hs. unfold for_down.
  assert (∀ l : list nat, Forall (λ i, lo < hi - Z.of_nat i ≤ hi) l →
    ∀ x : res A, returns x P → returns (foldl (λ acc i, acc ≫= body (hi - Z.of_nat i)) x l) P) as Hl.
  { induction l as [|i l IH]; intros HF x Hx; cbn [foldl]; [done|]. apply Forall_cons in HF as [Hi HF].
    apply IH; [done|]. apply returns_bind. eapply returns_mono; [exact Hx|]. intros y Hy. by apply Hs. }
  apply Hl; [|done]. apply Forall_seq. intros. lia.
Qed.

(** ** Allocation *)

(** [X] is one of the three banks after the provider, and a bank. *)
Lemma alloc_bank_ok hit nrand :
  0 ≤ hit < nHistoryTables c →
  returns (alloc_bank (nHistoryTables c) hit nrand) (λ X, hit < X ≤ nHistoryTables c ∧ X ≤ hit + 3).
Proof.
  intros Hh. pose proof (c_banks c Hc). unfold alloc_bank. set (k := nHistoryTables c - hit - 1).
  rewrite u32_id by (unfold is_u32, k; lia). rewrite shl64_in by (unfold k; lia). cbn [mbind res_bind].
  assert (0 < 2 ^ k ≤ 2 ^ 12) by (split; [apply Z.pow_pos_nonneg|apply Z.pow_le_mono_r]; unfold k; lia).
  rewrite Z.shiftl_1_l, (u64_id (2 ^ k)) by (unfold is_u64; lia). rewrite land_pow2_mod by (unfold k; lia).
  pose proof (Z.mod_pos_bound (u64 nrand) (2 ^ k) ltac:(lia)) as Hm.
  rewrite i32_id by (unfold is_i32; lia). set (Y := u64 nrand mod 2 ^ k) in *. cbn [returns].
  destruct (Z.eqb_spec (Z.land Y 1) 0) as [|HY1]; cbn [negb]; [lia|].
  assert (1 ≤ k).
  { assert (k = 0 ∨ 1 ≤ k) as [E|] by (unfold k; lia); [|done]. rewrite E in Hm. assert (Y = 0) as EY by lia. by rewrite EY in HY1. }
  destruct (Z.eqb_spec (Z.land Y 2) 0) as [|HY2]; cbn [negb]; [unfold k in *; lia|].
  assert (2 ≤ k); [|unfold k in *; lia].
  assert (k = 1 ∨ 2 ≤ k) as [E|] by lia; [|done]. rewrite E in Hm.
  assert (Y = 0 ∨ Y = 1) as [EY|EY] by lia; by rewrite EY in HY2.
Qed.

Lemma min_u_ok g ti hit :
  gtable_ok c g → indices_ok c ti → 0 ≤ hit → returns (min_u g ti (nHistoryTables c) hit) (λ m, 0 ≤ m ≤ 1).
Proof.
  intros Hg Hti Hh. unfold min_u. apply for_down_ind; [lia|]. intros i m Hi Hm.
  destruct (indices_get ti i Hti) as (idx & -> & Hx); [lia|]. cbn [mbind res_bind]. apply returns_bind.
  apply (returns_gget _ i idx); [done|lia|done|]. intros e (_ & _ & Hu). cbn [returns].
  destruct (_ <? m); lia.
Qed.

Lemma allocate_ok ti taken nrand g :
  tage_info_ok c ti → hitBank ti < nHistoryTables c → gtable_ok c g →
  returns (allocate (nHistoryTables c) ti taken nrand g) (gtable_ok c).
Proof.
  intros [[Hh _] _ _ _ Hti Htg] Hlt Hg. unfold allocate. apply returns_bind.
  eapply returns_mono; [apply min_u_ok; (done || lia)|]. intros mn Hmn. apply returns_bind.
  eapply returns_mono; [apply alloc_bank_ok; lia|]. intros X [HX _]. apply returns_bind.
  apply (returns_mono _ (gtable_ok c)).
  - destruct (0 <? mn); [|done]. destruct (indices_get _ X Hti) as (idx & -> & Hi); [lia|]. cbn [mbind res_bind].
    apply returns_bind. apply (returns_gget _ X idx); [done|lia|done|]. intros e He.
    apply (returns_gset _ X idx); [done|lia|done|by apply entry_ok_set_u|done].
  - intros g1 Hg1. apply for_range_ind; [done|]. intros i g2 Hi Hg2. unfold alloc_entry.
    destruct (indices_get _ i Hti) as (idx & -> & Hx); [lia|]. cbn [mbind res_bind].
    apply returns_bind. apply (returns_gget _ i idx); [done|lia|done|]. intros e He.
    destruct (_ =? 0); [|done]. destruct (vlookup_lt (tableTags ti) i) as [tag Et]; [lia|].
    rewrite (vget_in _ i tag) by (lia || done). cbn [mbind res_bind].
    apply (returns_gset _ i idx); [done|lia|done|apply entry_ok_new|done].
Qed.

(** ** Training *)

Lemma tabs_ok_with_gtable x g : tabs_ok c x → gtable_ok c g → tabs_ok c (with_gtable g x).
Proof. intros [] ?. by split. Qed.

Lemma age_all_ok g : gtable_ok c g → returns (age_all c g) (gtable_ok c).
Proof.
  intros Hg. pose proof (c_banks c Hc). pose proof (c_lens c Hc) as (_ & _ & Hs). unfold age_all.
  apply (for_banks_ind _ _ (λ _, gtable_ok c)); [lia|done|]. intros i g1 Hi Hg1.
  rewrite vget_at by lia. cbn [mbind res_bind]. pose proof (c_sizes c Hc i Hi).
  rewrite shl64_in by lia. cbn [mbind res_bind]. pose proof (size_pos i Hi) as Hsz. unfold size_of in Hsz.
  rewrite Z.shiftl_1_l, u64_id by (unfold is_u64; lia).
  apply for_range_ind; [done|]. intros j g2 Hj Hg2. apply returns_bind.
  apply (returns_gget _ i j); [done|done|unfold size_of; lia|]. intros e He.
  apply (returns_gset _ i j); [done|done|unfold size_of; lia| |done]. apply entry_ok_set_u; [done|].
  destruct He as (_ & _ & Hu). assert (TageEntry.u e = 0 ∨ TageEntry.u e = 1) as [-> | ->] by lia;
    [change (Z.shiftr 0 1) with 0|change (Z.shiftr 1 1) with 0]; lia.
Qed.

Lemma tick_ok x : tabs_ok c x → returns (tick c x) (tabs_ok c).
Proof.
  intros Hx. pose proof (c_tick c Hc). unfold tick. rewrite shl64_in by lia. cbn [mbind res_bind].
  destruct (_ =? 0); [|by destruct Hx]. apply returns_bind.
  eapply returns_mono; [apply age_all_ok, Hx|]. intros g Hg. by destruct Hx.
Qed.

Lemma ctr_at_ok taken b i g :
  gtable_ok c g → 1 ≤ b ≤ nHistoryTables c → 0 ≤ i < size_of c b → returns (ctr_at c taken b i g) (gtable_ok c).
Proof.
  intros Hg Hb Hi. pose proof (c_bits c Hc) as Hn. unfold ctr_at. apply returns_bind.
  apply (returns_gget _ b i); [done..|]. intros e He. apply returns_bind.
  rewrite i32_id by (unfold is_i32; lia). apply returns_ctrUpdate; [done|apply He|]. intros x Hx.
  apply (returns_gset _ b i); [done..|by apply entry_ok_set_ctr|done].
Qed.

Lemma baseUpdate_ok x taken i :
  tabs_ok c x → 0 ≤ i < 2 ^ logSizeBiMP c →
  returns (baseUpdate (btable x) taken i) (λ b, tabs_ok c (with_btable b x)).
Proof.
  intros Hx Hi. destruct (t_bimodal _ _ Hx) as [Hl Hf]. destruct (vlookup_lt (btable x) i) as [e He]; [lia|].
  destruct (baseUpdate_Ok (btable x) taken i e) as (e' & -> & He' & _); [lia|done|by eapply (Forall_lookup_1 _ _ _ _ Hf)|].
  cbn [returns]. destruct Hx. split; try done. cbn [with_btable btable].
  split; [by rewrite vlen_insert|by apply Forall_insert].
Qed.

Lemma train_tagged_ok ti taken x :
  tage_info_ok c ti → 0 < hitBank ti → tabs_ok c x → returns (train_tagged c ti taken x) (tabs_ok c).
Proof.
  intros [[Hh Hhi] [Ha Hai] _ Hb _ _] Hpos Hx. specialize (Hhi Hpos). unfold train_tagged. apply returns_bind.
  eapply returns_mono; [apply ctr_at_ok; [apply Hx|lia|done]|]. intros g1 Hg1. apply returns_bind.
  apply (returns_gget _ (hitBank ti) (hitBankIndex ti)); [done|lia|done|]. intros e1 He1. apply returns_bind.
  apply (returns_mono _ (tabs_ok c)).
  - destruct (_ =? 0); [|by apply tabs_ok_with_gtable]. apply returns_bind. apply (returns_mono _ (gtable_ok c)).
    { destruct (Z.ltb_spec 0 (altBank ti)); [|done]. apply ctr_at_ok; [done|lia|by apply Hai]. }
    intros g2 Hg2. apply returns_bind. apply (returns_mono _ (λ b, tabs_ok c (with_btable b x))).
    { destruct (_ =? 0); [by apply baseUpdate_ok|by destruct x]. }
    intros b [B1 B2 B3 B4 B5]. by split.
  - intros x1 Hx1. destruct (_ && _); [|done]. apply returns_bind.
    apply (returns_gget _ (hitBank ti) (hitBankIndex ti)); [apply Hx1|lia|done|]. intros e2 He2.
    destruct (Z.ltb_spec (TageEntry.u e2) 1); [|done]. apply returns_bind.
    apply (returns_gset _ (hitBank ti) (hitBankIndex ti)); [apply Hx1|lia|done| |].
    + apply entry_ok_set_u; [done|]. destruct He2 as (_ & _ & Hu). rewrite i8_id by (unfold is_i8; lia). lia.
    + intros g Hg. by apply tabs_ok_with_gtable.
Qed.

Lemma choose_alloc_ok ti taken x :
  tabs_ok c x →
  returns (choose_alloc c ti taken x) (λ r, tabs_ok c r.2 ∧ (r.1 = true → hitBank ti < nHistoryTables c)).
Proof.
  intros Hx. unfold choose_alloc.
  set (al := negb (eqb (tagePred ti) taken) && (hitBank ti <? nHistoryTables c)).
  assert (al = true → hitBank ti < nHistoryTables c) as Hal by (intros [_ H%Z.ltb_lt]%andb_prop; done).
  assert ((if eqb (longestMatchPred ti) taken then false else al) = true → hitBank ti < nHistoryTables c) as Hal'
    by (destruct (eqb (longestMatchPred ti) taken); [done|exact Hal]).
  destruct (_ && pseudoNewAlloc ti); [|exact (conj Hx Hal)].
  destruct (negb (eqb _ (altTaken ti))); [|exact (conj Hx Hal')]. apply returns_bind.
  apply returns_ctrUpdate; [lia|apply Hx|]. intros u Hu. split; [by destruct Hx|exact Hal'].
Qed.

Lemma update_tables_ok bi taken nrand x :
  info_ok c bi → condBranch bi = true → tabs_ok c x → returns (update_tables c bi taken nrand x) (tabs_ok c).
Proof.
  intros Hbi Hcond Hx. pose proof (io_tage _ _ Hbi Hcond) as Hti. unfold update_tables. apply returns_bind.
  eapply returns_mono; [apply (loopUpdate_ok (logSizeLoopPred c)); [apply Hc|apply Hx|apply Hbi]|].
  intros [lt r] Hlt. cbn [fst] in Hlt. set (x1 := with_rng r (with_ltable lt x)).
  assert (tabs_ok c x1) as Hx1 by (by destruct Hx). clearbody x1. apply returns_bind.
  apply (returns_mono _ (tabs_ok c)).
  { destruct (_ && _); [|done]. apply returns_bind. apply returns_ctrUpdate; [lia|apply Hx1|]. intros u Hu. by destruct Hx1. }
  intros x2 Hx2. apply returns_bind. eapply returns_mono; [by apply choose_alloc_ok|].
  intros [al x3] [Hx3 Hal]. cbn [fst snd] in *. apply returns_bind. apply (returns_mono _ (tabs_ok c)).
  { destruct al; [|done]. apply returns_bind.
    eapply returns_mono; [apply allocate_ok; [done|by apply Hal|apply Hx3]|]. intros g Hg. by apply tabs_ok_with_gtable. }
  intros x4 Hx4. apply returns_bind. eapply returns_mono; [by apply tick_ok|]. intros x5 Hx5.
  destruct (Z.ltb_spec 0 (hitBank (tage bi))); [by apply train_tagged_ok|]. apply returns_bind.
  eapply returns_mono; [apply baseUpdate_ok; [done|apply Hti]|]. done.
Qed.

End tables.

(** ** Prediction *)
Section predict.
Context (c : Cfg) (Hc : cfg_ok c).

Lemma mask_pow k x : 0 ≤ k ≤ 30 → shl64 1 k = Ok (2 ^ k) ∧ i32 (Z.land (u64 x) (2 ^ k - 1)) = u64 x mod 2 ^ k ∧ 0 < 2 ^ k ≤ 2 ^ 30.
Proof.
  intros Hk. assert (0 < 2 ^ k ≤ 2 ^ 30) as Hp by (split; [apply Z.pow_pos_nonneg|apply Z.pow_le_mono_r]; lia).
  split_and!; [|..|lia|lia].
  - rewrite shl64_in by lia. rewrite Z.shiftl_1_l, u64_id by (unfold is_u64; lia). done.
  - rewrite land_pow2_mod by lia. pose proof (Z.mod_pos_bound (u64 x) (2 ^ k) ltac:(lia)).
    rewrite i32_id by (unfold is_i32; lia). done.
Qed.

(** The two shifts of a rotation in [F]. *)
Lemma rotate_ok A bank sz :
  1 ≤ bank ≤ 12 → bank ≤ sz ≤ 30 → 0 ≤ A < 2 ^ 17 →
  shl_int A bank = Ok (A * 2 ^ bank) ∧ shr_int A (sz - bank) = Ok (Z.shiftr A (sz - bank)).
Proof.
  intros Hb Hs HA. assert (2 ^ bank ≤ 2 ^ 12) by (apply Z.pow_le_mono_r; lia).
  assert (0 < 2 ^ bank) by (apply Z.pow_pos_nonneg; lia). assert (A * 2 ^ bank < 2 ^ 17 * 2 ^ 12) by nia.
  split; [apply shl_int_in; lia|apply shr_int_in; lia].
Qed.

Lemma F_ok A size bank :
  1 ≤ size ≤ 16 → 1 ≤ bank ≤ nHistoryTables c → returns (F c A size bank) (λ _, True).
Proof.
  intros Hsz Hb. pose proof (c_banks c Hc). pose proof (c_sizes c Hc bank Hb) as Hs. pose proof (c_lens c Hc) as (_ & _ & Hl).
  unfold F. rewrite vget_at by lia. cbn [mbind res_bind]. set (sz := at_ (tagTableSizes c) bank) in *.
  destruct (mask_pow size A) as (-> & EA & _); [lia|]. cbn [mbind res_bind]. rewrite EA.
  assert (0 < 2 ^ size ≤ 2 ^ 16) by (split; [apply Z.pow_pos_nonneg|apply Z.pow_le_mono_r]; lia).
  pose proof (Z.mod_pos_bound (u64 A) (2 ^ size) ltac:(lia)) as HA. set (A' := u64 A mod 2 ^ size) in *.
  destruct (mask_pow sz A') as (-> & E1 & Hm); [lia|]. cbn [mbind res_bind]. rewrite E1.
  rewrite (u64_id A') by (unfold is_u64; lia).
  pose proof (Z.mod_pos_bound A' (2 ^ sz) ltac:(lia)). pose proof (Z.mod_le A' (2 ^ sz) ltac:(lia) ltac:(lia)).
  rewrite shr_int_in by lia. cbn [mbind res_bind].
  pose proof (shiftr_bound A' 16 sz ltac:(lia) ltac:(lia)) as HA2.
  assert (0 ≤ Z.shiftr A' sz * 2 ^ bank < 2 ^ 16) as Hsh.
  { rewrite Z.shiftr_div_pow2 by lia. assert (0 < 2 ^ bank ≤ 2 ^ sz) by (split; [apply Z.pow_pos_nonneg|apply Z.pow_le_mono_r]; lia).
    pose proof (Z.mul_div_le A' (2 ^ sz) ltac:(lia)). pose proof (Z.div_pos A' (2 ^ sz) ltac:(lia) ltac:(lia)). nia. }
  set (A2 := Z.shiftr A' sz) in *. destruct (rotate_ok A2 bank sz) as [-> ->]; [lia..|]. cbn [mbind res_bind].
  pose proof (shiftr_bound A2 16 (sz - bank) ltac:(lia) ltac:(lia)) as Hy.
  pose proof (land_bound (u64 (A2 * 2 ^ bank)) (2 ^ sz - 1) ltac:(lia)).
  pose proof (Z.land_nonneg (u64 (A2 * 2 ^ bank)) (2 ^ sz - 1)).
  set (B := i32 (u64 _)). assert (0 ≤ B < 2 ^ 17) as HB.
  { unfold B. rewrite (u64_id (A2 * 2 ^ bank)) by (unfold is_u64; lia). rewrite land_pow2_mod by lia.
    pose proof (Z.mod_le (A2 * 2 ^ bank) (2 ^ sz) ltac:(lia) ltac:(lia)).
    pose proof (Z.mod_pos_bound (A2 * 2 ^ bank) (2 ^ sz) ltac:(lia)).
    rewrite (u64_id (Z.shiftr A2 (sz - bank))) by (unfold is_u64; lia).
    rewrite u64_id by (unfold is_u64; lia). rewrite i32_id by (unfold is_i32; lia). lia. }
  pose proof (lxor_bound (A' mod 2 ^ sz) B 17 ltac:(lia) ltac:(lia) HB) as HX.
  destruct (rotate_ok (Z.lxor (A' mod 2 ^ sz) B) bank sz) as [-> ->]; [lia..|done].
Qed.

Section bank.
Context (th : ThreadHistory) (Hth : thread_ok c th).

Lemma gindex_ok pc bank :
  1 ≤ bank ≤ nHistoryTables c → returns (gindex c th pc bank) (λ i, 0 ≤ i < size_of c bank).
Proof.
  intros Hb. pose proof (c_banks c Hc). pose proof (c_sizes c Hc bank Hb) as Hs. pose proof (c_lens c Hc) as (Hl1 & _ & Hl3).
  pose proof (g_len _ _ _ _ _ _ _ (c_geometry c Hc) bank Hb) as HL.
  unfold gindex. rewrite vget_at by lia. cbn [mbind res_bind]. rewrite vget_at by lia. cbn [mbind res_bind].
  rewrite shr64_in by lia. cbn [mbind res_bind].
  destruct (bank_shape_vget _ _ _ _ bank (proj1 (th_shape _ _ _ _ _ _ _ _ Hth)) Hb) as (f & -> & _). cbn [mbind res_bind].
  apply returns_bind. eapply returns_mono; [apply F_ok; [|done]|].
  { destruct (Z.ltb_spec 16 (at_ (histLengths c) bank)); lia. }
  intros p _. set (index := i32 _). destruct (mask_pow (at_ (tagTableSizes c) bank) index) as (-> & E & Hp); [lia|].
  cbn [mbind res_bind returns]. rewrite E. unfold size_of. apply Z.mod_pos_bound. lia.
Qed.

Lemma gtag_ok pc bank : 1 ≤ bank ≤ nHistoryTables c → returns (gtag c th pc bank) is_u16.
Proof.
  intros Hb. pose proof (c_banks c Hc). pose proof (c_lens c Hc) as (_ & Hl2 & _).
  pose proof (g_ct0 _ _ _ _ _ _ _ (c_geometry c Hc) bank Hb) as HC. destruct (th_shape _ _ _ _ _ _ _ _ Hth) as (_ & S2 & S3).
  unfold gtag. destruct (bank_shape_vget _ _ _ _ bank S2 Hb) as (f & -> & _). cbn [mbind res_bind].
  destruct (bank_shape_vget _ _ _ _ bank S3 Hb) as (f' & -> & _). cbn [mbind res_bind].
  rewrite vget_at by lia. cbn [mbind res_bind]. rewrite shl64_in by lia. apply u16_range.
Qed.

(** The four arrays while the loop is at bank [i]. *)
Definition filled (i : Z) (l : list Z) : Prop :=
  vlen l = nHistoryTables c + 1 ∧ ∀ j, 1 ≤ j ≤ i → ∃ x, l !! Z.to_nat j = Some x ∧ 0 ≤ x < size_of c j.

Lemma filled_set i l x :
  1 ≤ i ≤ nHistoryTables c → filled (i - 1) l → 0 ≤ x < size_of c i → ∃ l', vset l i x = Ok l' ∧ filled i l'.
Proof.
  intros Hi [Hl Hf] Hx. eexists. split; [apply vset_in; lia|]. split; [by rewrite vlen_insert|].
  intros j Hj. destruct (decide (j = i)) as [->|].
  - rewrite vlookup_insert_eq by lia. by exists x.
  - rewrite vlookup_insert_ne by lia. apply Hf. lia.
Qed.

Lemma compute_banks_ok pc x :
  vlen x.1.1.1 = nHistoryTables c + 1 → vlen x.1.1.2 = nHistoryTables c + 1 →
  vlen x.1.2 = nHistoryTables c + 1 → vlen x.2 = nHistoryTables c + 1 →
  returns (for_banks (nHistoryTables c) (compute_bank c th pc) x) (λ r,
    indices_ok c r.1.1.1 ∧ vlen r.1.1.2 = nHistoryTables c + 1 ∧ indices_ok c r.1.2 ∧ vlen r.2 = nHistoryTables c + 1).
Proof.
  intros H1 H2 H3 H4. pose proof (c_banks c Hc).
  apply (for_banks_ind _ _ (λ i r, filled i r.1.1.1 ∧ vlen r.1.1.2 = nHistoryTables c + 1 ∧ filled i r.1.2 ∧
    vlen r.2 = nHistoryTables c + 1)); [lia| |].
  { split_and!; try done; (split; [done|intros; lia]). }
  intros i [[[ti tg] bti] btg] Hi (F1 & L2 & F3 & L4). cbn [fst snd] in *. unfold compute_bank. apply returns_bind.
  eapply returns_mono; [by apply gindex_ok|]. intros idx Hidx.
  destruct (filled_set i ti idx Hi F1 Hidx) as (ti' & -> & F1'). cbn [mbind res_bind].
  destruct (filled_set i bti idx Hi F3 Hidx) as (bti' & -> & F3'). cbn [mbind res_bind]. apply returns_bind.
  eapply returns_mono; [by apply gtag_ok|]. intros tag _. rewrite !vset_in by lia. cbn [mbind res_bind].
  cbn [returns fst snd]. by rewrite !vlen_insert.
Qed.

End bank.

Lemma bindex_ok pc : returns (bindex c pc) (λ i, 0 ≤ i < 2 ^ logSizeBiMP c).
Proof.
  pose proof (c_bimodal c Hc). unfold bindex.
  assert (0 < 2 ^ logSizeBiMP c ≤ 2 ^ 30) by (split; [apply Z.pow_pos_nonneg|apply Z.pow_le_mono_r]; lia).
  rewrite shl64_in by lia. rewrite Z.shiftl_1_l, u64_id by (unfold is_u64; lia). cbn [mbind res_bind returns].
  rewrite land_pow2_mod by lia. pose proof (Z.mod_pos_bound pc (2 ^ logSizeBiMP c) ltac:(lia)).
  rewrite i32_id by (unfold is_i32; lia). lia.
Qed.

Lemma find_bank_ok g ti tg k :
  gtable_ok c g → indices_ok c ti → vlen tg = nHistoryTables c + 1 → Z.of_nat k ≤ nHistoryTables c →
  returns (find_bank g ti tg k) (λ b, 0 ≤ b ≤ Z.of_nat k).
Proof.
  intros Hg Hti Htg. induction k as [|k IH]; intros Hk; [cbn; lia|]. cbn [find_bank].
  destruct (indices_get c ti (Z.of_nat (S k)) Hti) as (i & -> & Hi); [lia|]. cbn [mbind res_bind]. apply returns_bind.
  apply (returns_gget c g (Z.of_nat (S k)) i); [done|lia|done|]. intros e He.
  destruct (vlookup_lt tg (Z.of_nat (S k))) as [tag Et]; [lia|]. rewrite (vget_in _ _ tag) by (lia || done).
  cbn [mbind res_bind]. destruct (_ =? tag); [cbn; lia|]. eapply returns_mono; [apply IH; lia|]. cbn. lia.
Qed.

Lemma bank_index_ok ti b :
  indices_ok c ti → 0 ≤ b ≤ nHistoryTables c → returns (bank_index ti b) (slot_ok c b).
Proof.
  intros Hti Hb. unfold bank_index. destruct (Z.eqb_spec b 0); [split; [done|lia]|].
  destruct (indices_get c ti b Hti) as (i & -> & Hi); [lia|]. by split.
Qed.

Lemma getBimodePred_ok x i :
  tabs_ok c x → 0 ≤ i < 2 ^ logSizeBiMP c → returns (getBimodePred (btable x) i) (λ _, True).
Proof.
  intros Hx Hi. destruct (t_bimodal _ _ Hx) as [Hl _]. unfold getBimodePred.
  destruct (vlookup_lt (btable x) i) as [e He]; [lia|]. by rewrite (vget_in _ i e) by (lia || done).
Qed.

Lemma tage_predict_ok x pc ti tg bti btg :
  tabs_ok c x → indices_ok c ti → vlen tg = nHistoryTables c + 1 →
  indices_ok c bti → vlen btg = nHistoryTables c + 1 →
  returns (tage_predict c x pc ti tg bti btg) (tage_info_ok c).
Proof.
  intros Hx Hti Htg Hbti Hbtg. pose proof (c_banks c Hc). pose proof (t_tagged _ _ Hx) as Hg. unfold tage_predict.
  apply returns_bind. eapply returns_mono; [apply bindex_ok|]. intros bi Hbi. apply returns_bind.
  eapply returns_mono; [apply find_bank_ok; (done || lia)|]. intros hit Hhit. rewrite Z2Nat.id in Hhit by lia. apply returns_bind.
  eapply returns_mono; [by apply bank_index_ok|]. intros hi Hhi. apply returns_bind.
  eapply returns_mono; [apply find_bank_ok; (done || lia)|]. intros alt Halt. cbn beta in Halt. apply returns_bind.
  eapply returns_mono; [apply (bank_index_ok ti alt); (done || lia)|]. intros ai Hai.
  destruct (Z.ltb_spec 0 hit) as [Hpos|].
  - apply returns_bind. apply (returns_mono _ (λ _, True)).
    { destruct (Z.ltb_spec 0 alt); [|by apply getBimodePred_ok]. apply returns_bind.
      apply (returns_gget c _ alt ai); [done|lia|by apply Hai|done]. }
    intros at' _. apply returns_bind. apply (returns_gget c _ hit hi); [done|lia|by apply Hhi|].
    intros e He. split; (done || cbn; lia).
  - apply returns_bind. eapply returns_mono; [by apply getBimodePred_ok|]. intros at' _. split; (done || cbn; lia).
Qed.

End predict.

(** ** The methods *)
Lemma ltage_wf_with_tabs nt s x : wf nt s → tabs_ok (cfg s) x → wf nt (with_tabs x s).
Proof. intros [] ?. by split. Qed.

Lemma ltage_wf_with_ltable nt s l :
  wf nt s → ltable_ok (logSizeLoopPred (cfg s)) l → wf nt (with_tabs (with_ltable l (tabs s)) s).
Proof. intros H Hl. apply ltage_wf_with_tabs; [done|]. by destruct (wf_tabs _ _ H). Qed.

Lemma ltage_wf_with_histories nt s hs : wf nt s → heap_all (info_ok (cfg s)) hs → wf nt (with_histories hs s).
Proof. intros [] ?. by split. Qed.

Lemma ltage_wf_with_thread nt s tid th :
  wf nt s → 0 ≤ tid < nt → thread_ok (cfg s) th →
  ∃ ths, vset (threadHistory s) tid th = Ok ths ∧ wf nt (with_threads ths s).
Proof.
  intros [? ? [Hl Hf] ? ? ?] Ht Hth. eexists. split; [apply vset_in; lia|]. split; try done. cbn [with_threads threadHistory cfg].
  split; [by rewrite vlen_insert|by apply Forall_insert].
Qed.

Section methods.
Context (nt : Z) (s : t) (H : wf nt s).
Notation c := (cfg s).

Lemma thread_exists tid : 0 ≤ tid < nt → ∃ th, vget (threadHistory s) tid = Ok th ∧ thread_ok c th.
Proof.
  intros Ht. destruct (wf_threads _ _ H) as [Hl Hf]. destruct (vlookup_lt (threadHistory s) tid) as [th Hth]; [lia|].
  exists th. split; [apply vget_in; (lia || done)|]. by eapply (Forall_lookup_1 _ _ _ _ Hf).
Qed.

Lemma new_info_ok : info_ok c (new_info (garbage c) (nHistoryTables c)).
Proof.
  pose proof (wf_cfg _ _ H) as Hc. pose proof (c_banks _ Hc). pose proof (c_loop _ Hc).
  destruct (g_hist _ _ _ _ _ _ _ (c_geometry _ Hc)) as [? ?].
  assert (2 ^ 2 ≤ 2 ^ logSizeLoopPred c) by (apply Z.pow_le_mono_r; lia).
  split; cbn; try lia; [split_and!; apply vlen_replicate; lia|].
  split; cbn; unfold is_u16; lia.
Qed.

Lemma predict_ok l tid pc cond :
  0 ≤ tid < nt → heap_tracks (histories s) l →
  returns (predict s tid pc cond) (λ r, wf nt r.2 ∧ cfg r.2 = c ∧ heap_tracks (histories r.2) (r.1.2 :: l)).
Proof.
  intros Ht Htr. pose proof (wf_cfg _ _ H) as Hc. pose proof new_info_ok as [N1 N2 N3 [L1 L2 L3] _].
  destruct (thread_exists tid Ht) as (th & Eth & Hth). unfold predict.
  apply returns_bind. apply (returns_mono _ (λ r, wf nt r.2 ∧ cfg r.2 = c ∧ histories r.2 = histories s ∧
    loop_info_ok (logSizeLoopPred c) r.1.2 ∧ (cond = true → tage_info_ok c r.1.1.2))).
  - destruct cond; cycle 1.
    { cbn [returns fst snd]. by split_and!. }
    rewrite Eth. cbn [mbind res_bind]. apply returns_bind.
    eapply returns_mono; [apply compute_banks_ok; [done|done|apply H|apply H|..]|].
    { apply vlen_replicate. pose proof (c_banks _ Hc). lia. } { apply vlen_replicate. pose proof (c_banks _ Hc). lia. }
    intros [[[tis tgs] bti] btg] (I1 & I2 & I3 & I4). cbn [fst snd] in *. apply returns_bind.
    eapply returns_mono; [by apply tage_predict_ok; [done|apply H|..]|]. intros ti Hti. apply returns_bind.
    eapply returns_mono; [apply getLoop_ok; [apply Hc|apply H|done]|]. intros [lp li] [G1 G2 G3]. cbn [returns fst snd] in *.
    split_and!; try done. destruct H. destruct I1. by split.
  - intros [[[pt ti] li] s1] (Hs1 & Ec & Eh & Hli & Hti). cbn [fst snd] in *. apply returns_bind. rewrite <- Ec in *.
    eapply returns_mono; [apply specLoopUpdate_ok; [apply Hs1|apply Hs1]|]. intros lt Hlt. cbn [heap_new returns fst snd].
    split_and!; [|done|].
    + apply ltage_wf_with_histories; [by apply ltage_wf_with_ltable|]. apply (heap_all_new _ (histories s1)); [apply Hs1|].
      by split.
    + rewrite <- Eh in Htr. by apply (heap_tracks_new (histories s1)).
Qed.

Lemma ltage_updateHistories_ok l tid pc taken p :
  0 ≤ tid < nt → heap_tracks (histories s) (p :: l) →
  returns (updateHistories s tid pc taken p) (λ s', wf nt s' ∧ heap_tracks (histories s') (p :: l)).
Proof.
  intros Ht Htr. pose proof (wf_cfg _ _ H) as Hc. destruct (thread_exists tid Ht) as (th & Eth & Hth).
  unfold updateHistories. apply returns_bind. eapply returns_deref; [done|apply H|]. intros a bi -> Ha Hbi.
  rewrite Eth. cbn [mbind res_bind]. apply returns_bind.
  eapply returns_mono; [apply (updateHistories_total _ _ _ _ _ _ _ (c_geometry _ Hc)); [exact Hth|apply Hbi]|].
  intros [th' bi'] (Hth' & J1 & J2 & J3 & J4 & J5 & J6). cbn [fst snd] in *.
  destruct (ltage_wf_with_thread nt s tid th' H Ht Hth') as (ths & -> & Hw). cbn [mbind res_bind].
  unfold heap_store. cbn [heap_deref]. rewrite Ha. cbn [mbind res_bind returns]. split.
  - apply ltage_wf_with_histories; [done|]. apply heap_all_store; [apply H|]. destruct Hbi as [B1 B2 B3 B4 B5].
    split; (done || (by rewrite J5) || by rewrite J6, J4).
  - by apply heap_tracks_store.
Qed.

Lemma check_pointer_ok tid : 0 ≤ tid < nt → check_pointer s tid = Ok tt.
Proof.
  intros Ht. destruct (thread_exists tid Ht) as (th & Eth & Hth). unfold check_pointer. rewrite Eth. cbn [mbind res_bind].
  by rewrite (th_ptr _ _ _ _ _ _ _ _ Hth), Z.eqb_refl.
Qed.

Lemma ltage_btbUpdate_ok l tid pc p :
  0 ≤ tid < nt → heap_tracks (histories s) (p :: l) →
  returns (btbUpdate s tid pc p) (λ s', wf nt s' ∧ heap_tracks (histories s') (p :: l)).
Proof.
  intros Ht Htr. pose proof (wf_cfg _ _ H) as Hc. destruct (thread_exists tid Ht) as (th & Eth & Hth).
  unfold btbUpdate. apply returns_bind. eapply returns_deref; [done|apply H|]. intros a bi -> Ha Hbi.
  rewrite Eth. cbn [mbind res_bind]. apply returns_bind.
  eapply returns_mono; [apply (btbUpdate_history_total _ _ _ _ _ _ _ (c_geometry _ Hc)); [exact Hth|apply Hbi]|].
  intros th' Hth'. destruct (ltage_wf_with_thread nt s tid th' H Ht Hth') as (ths & -> & Hw). by cbn [mbind res_bind returns].
Qed.

Lemma ltage_squash_ok l tid p :
  heap_tracks (histories s) (p :: l) →
  returns (squash s tid p) (λ s', wf nt s' ∧ heap_tracks (histories s') l).
Proof.
  intros Htr. unfold squash. apply returns_bind. eapply returns_deref; [done|apply H|]. intros a bi -> Ha Hbi.
  apply returns_bind. eapply returns_mono; [apply restore_loop_ok; [apply H|apply H|apply Hbi]|]. intros lt Hlt.
  apply returns_bind. eapply returns_delete; [done|apply H|]. intros hs Ht' Hall. split; [|done].
  apply ltage_wf_with_histories; [by apply ltage_wf_with_ltable|done].
Qed.

Lemma squash_taken_ok l tid taken p :
  0 ≤ tid < nt → heap_tracks (histories s) (p :: l) →
  returns (squash_taken s tid taken p) (λ s', wf nt s' ∧ heap_tracks (histories s') (p :: l)).
Proof.
  intros Ht Htr. pose proof (wf_cfg _ _ H) as Hc. destruct (thread_exists tid Ht) as (th & Eth & Hth).
  unfold squash_taken. apply returns_bind. eapply returns_deref; [done|apply H|]. intros a bi -> Ha Hbi.
  rewrite Eth. cbn [mbind res_bind]. apply returns_bind.
  eapply returns_mono; [apply (squash_history_total _ _ _ _ _ _ _ (c_geometry _ Hc)); [exact Hth|apply Hbi..]|].
  intros th' Hth'. destruct (ltage_wf_with_thread nt s tid th' H Ht Hth') as (ths & -> & Hw). cbn [mbind res_bind].
  apply returns_bind. eapply returns_mono; [apply restore_loop_ok; [apply H|apply H|apply Hbi]|]. intros lt Hlt.
  split; [|done]. by apply (ltage_wf_with_ltable nt (with_threads ths s)).
Qed.

Lemma ltage_update_ok l tid pc taken p squashed :
  0 ≤ tid < nt → heap_tracks (histories s) (p :: l) →
  returns (update s tid pc taken p squashed) (λ s', wf nt s' ∧
    heap_tracks (histories s') (if squashed then p :: l else l)).
Proof.
  intros Ht Htr. destruct (heap_tracks_deref _ _ _ Htr) as (a & bi & -> & Ha). unfold update.
  rewrite bool_decide_true by done. cbn [assert_ mbind res_bind]. destruct squashed; [by apply squash_taken_ok|].
  cbn [heap_deref]. rewrite Ha. cbn [mbind res_bind]. pose proof (wf_infos _ _ H a bi Ha) as Hbi. cbn beta in Hbi.
  set (x := with_rng _ _). assert (tabs_ok c x) as Hx by (by destruct (wf_tabs _ _ H)). clearbody x. apply returns_bind.
  apply (returns_mono _ (tabs_ok c)).
  { destruct (condBranch bi) eqn:E; [|done]. apply update_tables_ok; [apply H|done..]. }
  intros x' Hx'. apply returns_bind. eapply returns_delete; [done|apply H|]. intros hs Ht' Hall. split; [|done].
  apply ltage_wf_with_histories; [by apply ltage_wf_with_tabs|done].
Qed.

Lemma ltage_getGHR_ok l tid p :
  0 ≤ tid < nt → heap_tracks (histories s) (p :: l) → returns (getGHR s tid p) (λ _, True).
Proof.
  intros Ht Htr. pose proof (wf_cfg _ _ H) as Hc. destruct (thread_exists tid Ht) as (th & Eth & Hth).
  unfold getGHR. apply returns_bind. eapply returns_deref; [done|apply H|]. intros a bi -> Ha Hbi.
  rewrite Eth. cbn [mbind res_bind]. pose proof (io_pt _ _ Hbi). pose proof (c_ghr _ Hc).
  pose proof (th_len _ _ _ _ _ _ _ _ Hth) as Hl.
  assert (∀ ks (x : res Z), Forall (λ k, (k < 32)%nat) ks → returns x (λ _, True) →
    returns (foldl (λ acc i, acc ≫= λ val : Z,
           let gh_offset := bi_ptGhist bi + Z.of_nat i in
           _ ← assert_ (gh_offset <? histBufferSize c);
           x ← vget (globalHistory th) gh_offset;
           Ok (Z.lor val (u32 (Z.shiftl (Z.land x 1) (Z.of_nat i))))) x ks) (λ _, True)) as Hk.
  { induction ks as [|k ks IH]; intros x HF Hx; [done|]. apply Forall_cons in HF as [Hk HF]. cbn [foldl]. apply IH; [done|].
    apply returns_bind. eapply returns_mono; [exact Hx|]. intros v _. cbv zeta. apply returns_bind, returns_assert.
    { apply Z.ltb_lt. lia. }
    destruct (bits_get (globalHistory th) (bi_ptGhist bi + Z.of_nat k) (th_bits _ _ _ _ _ _ _ _ Hth)) as (y & -> & _); [lia|done]. }
  apply Hk; [|done]. apply Forall_seq. intros. lia.
Qed.

End methods.

Lemma ltage_lookup_ok nt s l tid pc :
  wf nt s → heap_tracks (histories s) l → 0 ≤ tid < nt →
  returns (lookup s tid pc) (λ r, wf nt r.2 ∧ heap_tracks (histories r.2) (r.1.2 :: l)).
Proof.
  intros H Htr Ht. unfold lookup. apply returns_bind. eapply returns_mono; [by apply (predict_ok nt s H l)|].
  intros [[b p] s1] (H1 & _ & T1). cbn [fst snd] in *. apply returns_bind.
  eapply returns_mono; [by apply (ltage_updateHistories_ok nt s1 H1 l)|]. intros s2 [H2 T2].
  by rewrite (check_pointer_ok nt s2 H2 tid Ht).
Qed.

Lemma ltage_uncondBranch_ok nt s l tid pc :
  wf nt s → heap_tracks (histories s) l → 0 ≤ tid < nt →
  returns (uncondBranch s tid pc) (λ r, wf nt r.2 ∧ heap_tracks (histories r.2) (r.1 :: l)).
Proof.
  intros H Htr Ht. unfold uncondBranch. apply returns_bind. eapply returns_mono; [by apply (predict_ok nt s H l)|].
  intros [[b p] s1] (H1 & _ & T1). cbn [fst snd] in *. apply returns_bind.
  eapply returns_mono; [by apply (ltage_updateHistories_ok nt s1 H1 l)|]. intros s2 [H2 T2].
  by rewrite (check_pointer_ok nt s2 H2 tid Ht).
Qed.

#[global] Instance ltage_laws : DirPredictorLaws t.
Proof.
  refine {| dp_wf := wf; dp_tracks := λ s, heap_tracks (histories s) |}.
  - intros. by apply ltage_uncondBranch_ok.
  - intros. by apply ltage_lookup_ok.
  - intros. by apply ltage_btbUpdate_ok.
  - intros nt s p l tid pc taken Hw Ht Hb. by apply (ltage_update_ok nt s Hw l tid pc taken p false).
  - intros nt s p l tid pc taken Hw Ht Hb. by apply (ltage_update_ok nt s Hw l tid pc taken p true).
  - intros. by apply ltage_squash_ok.
  - intros nt s p l tid Hw Ht Hb. by apply (ltage_getGHR_ok nt s Hw l).
Defined.

(** ** The constructor *)

Record params_ok (geometric : Z → Z) (p : Params) : Prop := {
  p_threads : 0 ≤ p_numThreads p;
  p_banks : 1 ≤ p_nHistoryTables p ≤ 12;
  p_biMP : 0 ≤ p_logSizeBiMP p < 31;
  p_loopPred : 2 ≤ p_logSizeLoopPred p < 31;
  p_ctrBits : 1 ≤ p_tagTableCounterBits p ≤ 8;
  p_hist : 31 ≤ p_maxHist p ∧ 2 * p_maxHist p < p_histBufferSize p < 2 ^ 31;
  p_lengths i : 2 ≤ i ≤ p_nHistoryTables p → 1 ≤ geometric i ≤ p_maxHist p;
  p_minLength : 1 ≤ p_minHist p ≤ p_maxHist p;
  p_tags : 2 ≤ p_minTagWidth p ≤ 23;
  p_tagTables : 3 ≤ p_logSizeTagTables p ≤ 30;
  p_sizes j : 1 ≤ j ≤ p_nHistoryTables p → j ≤ at_ (mk_tagTableSizes 0 (p_logSizeTagTables p)) j;
}.

Lemma at_insert (l : list Z) i j x :
  0 ≤ i < vlen l → 0 ≤ j → at_ (<[Z.to_nat i := x]> l) j = if j =? i then x else at_ l j.
Proof.
  intros Hi Hj. unfold at_. destruct (Z.eqb_spec j i) as [->|].
  - by rewrite vlookup_insert_eq.
  - by rewrite vlookup_insert_ne by lia.
Qed.

Lemma mk_histLengths_ok indet geometric p :
  params_ok geometric p →
  returns (mk_histLengths indet geometric p) (λ l, vlen l = p_nHistoryTables p + 1 ∧
    ∀ j, 1 ≤ j ≤ p_nHistoryTables p → 1 ≤ at_ l j ≤ p_maxHist p).
Proof.
  intros Hp. pose proof (p_banks _ _ Hp) as Hn. set (n := p_nHistoryTables p) in *.
  pose proof (p_minLength _ _ Hp) as Hmin. pose proof (p_hist _ _ Hp) as Hm. unfold mk_histLengths. fold n.
  set (l0 := replicate (Z.to_nat (n + 1)) indet). assert (vlen l0 = n + 1) as E0 by (apply vlen_replicate; lia).
  rewrite vset_in by lia. cbn [mbind res_bind]. rewrite vset_in by (rewrite vlen_insert; lia). cbn [mbind res_bind].
  set (l2 := <[Z.to_nat n := _]> _). assert (vlen l2 = n + 1) as E2 by (unfold l2; by rewrite !vlen_insert).
  assert (∀ j, 1 ≤ j < 2 ∨ j = n → 1 ≤ at_ l2 j ≤ p_maxHist p) as H2.
  { intros j Hj. unfold l2. rewrite at_insert by (rewrite ?vlen_insert; lia). destruct (Z.eqb_spec j n); [lia|].
    rewrite at_insert by lia. destruct (Z.eqb_spec j 1); lia. }
  clearbody l2. clear E0 l0.
  assert (∀ k, (k ≤ Z.to_nat (n - 1))%nat →
    returns (foldl (λ acc i, acc ≫= λ l : list Z, vset l (Z.of_nat i) (geometric (Z.of_nat i))) (Ok l2) (seq 2 k))
      (λ l, vlen l = n + 1 ∧ ∀ j, 1 ≤ j < 2 + Z.of_nat k ∨ j = n → 1 ≤ at_ l j ≤ p_maxHist p)) as Hk.
  { induction k as [|k IH]; intros Hk; [split; [done|]; intros j Hj; apply H2; lia|].
    rewrite seq_S, foldl_app. cbn [foldl]. apply returns_bind. eapply returns_mono; [apply IH; lia|]. intros l [El Hl].
    rewrite vset_in by lia. cbn [returns]. split; [by rewrite vlen_insert|]. intros j Hj.
    rewrite at_insert by lia. destruct (Z.eqb_spec j (Z.of_nat (2 + k))) as [->|]; [apply (p_lengths _ _ Hp); unfold n in *; lia|].
    apply Hl. lia. }
  eapply returns_mono; [apply Hk; lia|]. intros l [El Hl]. split; [done|]. intros j Hj. apply Hl. lia.
Qed.

(** A member of an array, at a constant index. *)
Ltac at_const :=
  unfold at_;
  match goal with |- context [Z.to_nat ?k] =>
    let v := eval vm_compute in (Z.to_nat k) in change (Z.to_nat k) with v
  end; cbn -[Z.add Z.sub].

Lemma tagTableSizes_at indet log j :
  3 ≤ log ≤ 30 → 1 ≤ j ≤ 12 →
  at_ (mk_tagTableSizes indet log) j = at_ (mk_tagTableSizes 0 log) j ∧
  1 ≤ at_ (mk_tagTableSizes indet log) j ≤ 30.
Proof.
  intros Hl Hj. unfold mk_tagTableSizes. rewrite !u32_id by (unfold is_u32; lia). rewrite !i32_id by (unfold is_i32; lia).
  assert (1 ≤ log - 1 ≤ 30 ∧ 1 ≤ log - 2 ≤ 30) as [Ha Hb] by lia. revert Ha Hb. generalize (log - 1) (log - 2). intros a b Ha Hb.
  assert (j = 1 ∨ j = 2 ∨ j = 3 ∨ j = 4 ∨ j = 5 ∨ j = 6 ∨ j = 7 ∨ j = 8 ∨ j = 9 ∨ j = 10 ∨ j = 11 ∨ j = 12) as Hjs by lia.
  destruct_or! Hjs; subst j; (split; [reflexivity|at_const; lia]).
Qed.

Lemma tagWidths_at indet w j : 1 ≤ j ≤ 12 → w ≤ at_ (mk_tagWidths indet w) j ≤ w + 8.
Proof.
  intros Hj. unfold mk_tagWidths.
  assert (j = 1 ∨ j = 2 ∨ j = 3 ∨ j = 4 ∨ j = 5 ∨ j = 6 ∨ j = 7 ∨ j = 8 ∨ j = 9 ∨ j = 10 ∨ j = 11 ∨ j = 12) as Hjs by lia.
  destruct_or! Hjs; subst j; at_const; lia.
Qed.

Lemma new_banks_ok c : cfg_ok c → returns (new_banks c) (gtable_ok c).
Proof.
  intros Hc. pose proof (c_banks c Hc). pose proof (c_lens c Hc) as (_ & _ & Hs). unfold new_banks.
  assert (entry_ok c TageEntry.fresh) as Hf.
  { pose proof (c_bits c Hc). assert (0 < 2 ^ (tagTableCounterBits c - 1)) by (apply Z.pow_pos_nonneg; lia).
    split_and!; cbn; [unfold ctr_ok; lia|unfold is_u16; lia|lia..]. }
  eapply returns_mono; [apply (for_banks_ind _ _ (λ i g, vlen g = nHistoryTables c + 1 ∧
    ∀ j, 1 ≤ j ≤ i → ∃ l, g !! Z.to_nat j = Some l ∧ vlen l = size_of c j ∧ Forall (entry_ok c) l)); [lia| |]|].
  - split; [apply vlen_replicate; lia|intros; lia].
  - intros i g Hi [Hl Hg]. rewrite vget_at by lia. cbn [mbind res_bind]. pose proof (c_sizes c Hc i Hi).
    pose proof (size_pos c Hc i Hi) as Hsz. rewrite shl_int1_in by lia. cbn [mbind res_bind]. rewrite vset_in by lia.
    cbn [returns]. split; [by rewrite vlen_insert|]. intros j Hj. destruct (decide (j = i)) as [->|].
    + rewrite vlookup_insert_eq by lia. eexists. split_and!; [done|unfold size_of in *; apply vlen_replicate; lia|].
      by apply Forall_replicate.
    + rewrite vlookup_insert_ne by lia. apply Hg. lia.
  - intros g [Hl Hg]. by split.
Qed.

Lemma ltage_create_wf indet f0 geometric draws p :
  params_ok geometric p →
  returns (create indet f0 geometric draws p) (λ s, wf (p_numThreads p) s ∧ heap_tracks (histories s) []).
Proof.
  intros Hp. pose proof Hp as [P1 P2 P3 P4 P5 [P6 P6'] _ P8 P9 P10 P11]. unfold create.
  rewrite u32_id by (unfold is_u32; lia). destruct (Z.ltb_spec (p_maxHist p * 2) (p_histBufferSize p)); [|lia].
  cbn [assert_ mbind res_bind]. apply returns_bind. eapply returns_mono; [by apply mk_histLengths_ok|]. intros hl [Ehl Hhl].
  set (tw := mk_tagWidths indet (p_minTagWidth p)). set (ts := mk_tagTableSizes indet (p_logSizeTagTables p)).
  set (c := mkCfg _ _ _ _ _ _ _ _ _ _ _ _ _ _).
  assert (∀ j, 1 ≤ j ≤ p_nHistoryTables p → j ≤ at_ ts j ≤ 30) as Hts.
  { intros j Hj. destruct (tagTableSizes_at indet (p_logSizeTagTables p) j) as [E Hr]; [lia|lia|]. fold ts in E, Hr.
    rewrite E in *. split; [by apply P11|lia]. }
  assert (cfg_geometry c) as G.
  { split; cbn [c nHistoryTables histBufferSize maxHist]; try lia; intros j Hj; cbn [c histLengths tagTableSizes tagWidths].
    - by apply Hhl.
    - pose proof (Hts j Hj). lia.
    - pose proof (tagWidths_at indet (p_minTagWidth p) j ltac:(lia)). unfold tw. lia.
    - pose proof (tagWidths_at indet (p_minTagWidth p) j ltac:(lia)). unfold tw. lia. }
  assert (cfg_ok c) as Hc by (split; cbn; (done || lia)).
  apply returns_bind. eapply returns_mono; [apply (create_history_fresh _ _ _ _ _ _ _ G)|].
  { intros j Hj. cbn [c nHistoryTables] in Hj. cbn [c histLengths tagTableSizes tagWidths].
    rewrite !vget_at; [done|..]; try lia; unfold vlen; cbn; lia. }
  intros th (Hok & Eg & Epath).
  assert (thread_ok c th) as Hth.
  { apply (history_ok_th _ _ _ _ _ _ _ th [] Hok); [|by rewrite Epath].
    rewrite Eg. apply Forall_replicate. lia. }
  destruct (mask_pow (p_logSizeBiMP p) 0) as (-> & _ & Hb); [lia|]. cbn [mbind res_bind].
  destruct (mask_pow (p_logSizeLoopPred p) 0) as (-> & _ & Hl); [lia|]. cbn [mbind res_bind]. apply returns_bind.
  eapply returns_mono; [by apply new_banks_ok|]. intros g Hg. rewrite shl64_in by lia. cbn [mbind res_bind returns].
  split; [|apply heap_tracks_empty]. split; cbn [cfg tabs threadHistory t_tableIndices t_tableTags histories].
  - done.
  - split; cbn [btable gtable ltable loopUseCounter useAltPredForNewlyAllocated]; try done.
    + split; [apply vlen_replicate; cbn; lia|]. apply Forall_replicate. split; cbn; lia.
    + split; [apply vlen_replicate; cbn; lia|]. apply Forall_replicate, LoopEntry.fresh_ok.
  - split; [apply vlen_replicate; lia|by apply Forall_replicate].
  - apply vlen_replicate. cbn. lia.
  - apply vlen_replicate. cbn. lia.
  - apply map_Forall_empty.
Qed.

(** ** Theorem *)

(** C33: L-TAGE is safe. With parameters in the ranges of [params_ok], among them that
    bank [j] has at least [2 ^ j] entries, which the repository's default sizes do not
    satisfy for the banks 11 and 12 (there [lookup] shifts by a negative amount, see
    [ltage_default_undefined_shift]), whatever the random generator gives, the constructor returns a predictor from which every
    sequence of calls a client can make keeps the invariant [wf]: all indices inside
    their tables, the counters of the tagged tables, the usefulness bits, the
    bimodal bits, the loop confidences and ages within their widths, every history
    pointer inside the buffer, and exactly the history objects that are
    outstanding. In every reachable state every next call returns. *)
Theorem ltage_safety (indet : Z) (f0 : FoldedHistory.t) (geometric : Z → Z) (draws : nat → Z) (p : Params) :
  params_ok geometric p →
  returns (create indet f0 geometric draws p) (λ s0,
    ∀ s l, rtc (dp_step (p_numThreads p)) (s0, []) (s, l) →
      wf (p_numThreads p) s ∧ heap_tracks (histories s) l ∧
      ∀ tid pc taken, 0 ≤ tid < p_numThreads p →
        returns (lookup s tid pc) (λ _, True) ∧ returns (uncondBranch s tid pc) (λ _, True) ∧
        ∀ q, q ∈ l →
          returns (btbUpdate s tid pc q) (λ _, True) ∧ returns (update s tid pc taken q false) (λ _, True) ∧
          returns (update s tid pc taken q true) (λ _, True) ∧ returns (squash s tid q) (λ _, True) ∧
          returns (getGHR s tid q) (λ _, True)).
Proof.
  intros Hp. eapply returns_mono; [by apply ltage_create_wf|]. intros s0 Hs0 s l Hr.
  assert (dp_ok (p_numThreads p) (s0, [])) as Hok by exact Hs0.
  destruct (dp_steps_ok (p_numThreads p) _ _ Hr Hok) as [Hw Ht]. cbn [fst snd dp_wf dp_tracks ltage_laws] in Hw, Ht.
  split; [done|]. split; [done|]. intros tid pc taken Htid.
  split; [eapply returns_mono; [by apply (ltage_lookup_ok (p_numThreads p) s l)|done]|].
  split; [eapply returns_mono; [by apply (ltage_uncondBranch_ok (p_numThreads p) s l)|done]|].
  intros q Hq. apply elem_of_Permutation in Hq as [k Hk]. rewrite Hk in Ht. split_and!.
  - eapply returns_mono; [by apply (ltage_btbUpdate_ok _ s Hw k)|done].
  - eapply returns_mono; [by apply (ltage_update_ok _ s Hw k)|done].
  - eapply returns_mono; [by apply (ltage_update_ok _ s Hw k)|done].
  - eapply returns_mono; [by apply (ltage_squash_ok _ s Hw k)|done].
  - by apply (ltage_getGHR_ok _ s Hw k).
Qed.

(** ** Witness: four banks of histories of 4, 8, 16 and 32 outcomes. *)
Definition params4 : Params := mkParams 1 4 6 4 4 3 80 4 32 7.
Definition geometric4 (i : Z) : Z := if i =? 2 then 8 else if i =? 3 then 16 else 32.

Lemma params4_ok : params_ok geometric4 params4.
Proof.
  split; cbn; try lia.
  - intros i Hi. unfold geometric4. destruct (i =? 2), (i =? 3); lia.
  - intros j Hj. assert (j = 1 ∨ j = 2 ∨ j = 3 ∨ j = 4) as Hjs by lia. destruct_or! Hjs; subst j; vm_compute; discriminate.
Qed.

Definition ltage4 : t :=
  ltac:(let r := eval vm_compute in (create 0 (FoldedHistory.mk 0 0 0 0) geometric4 (λ _, 0) params4) in
        match r with Ok ?s => exact s end).

(** The branch at 12 is predicted, resolves against its prediction and commits. *)
Lemma ltage_safety_witness :
  ∃ s l, dp_run [CLookup 0 12; CMispredict 0 0 12 true; CCommit 0 0 12 true] (ltage4, []) = Ok (s, l) ∧
    l = [] ∧ wf 1 s ∧ returns (lookup s 0 12) (λ _, True).
Proof.
  pose proof (ltage_safety 0 (FoldedHistory.mk 0 0 0 0) geometric4 (λ _, 0) params4 params4_ok) as Hs.
  assert (create 0 (FoldedHistory.mk 0 0 0 0) geometric4 (λ _, 0) params4 = Ok ltage4) as E by (vm_compute; reflexivity).
  rewrite E in Hs. cbn [returns] in Hs.
  assert (is_Some (match dp_run [CLookup 0 12; CMispredict 0 0 12 true; CCommit 0 0 12 true] (ltage4, []) with
    Ok x => Some x | Err _ => None end)) as [[s l] Es] by (vm_compute; eexists; reflexivity).
  destruct (dp_run _ _) as [x|] eqn:Er; [|discriminate Es]. injection Es as ->.
  assert (l = []) as -> by (assert ((match dp_run [CLookup 0 12; CMispredict 0 0 12 true; CCommit 0 0 12 true] (ltage4, []) with
    Ok x => x.2 | Err _ => [None] end) = []) as El by (vm_compute; reflexivity); rewrite Er in El; exact El).
  exists s, []. split; [reflexivity|]. split; [reflexivity|].
  destruct (Hs s []) as (Hw & _ & Hret).
  - apply (dp_run_steps _ [CLookup 0 12; CMispredict 0 0 12 true; CCommit 0 0 12 true]); [reflexivity|exact Er].
  - split; [exact Hw|]. apply (Hret 0 12 true). cbn. lia.
Defined.

End LTAGEInv.
