(* ===== verification/LtageSpec.v ===== *)
(** * What the L-TAGE predictor computes

    [predict] against a reference definition of the TAGE prediction, the training
    and the allocation of [update] entry by entry, and the places where the code does
    not do what it says. *)

From S2P Require Import Prelude Predictor LtageHist LtageTables Ltage LtageInv.

Module LTAGESpec.
Import LTAGE LTAGEPredictor LTAGEInv.

(** ** The prediction, without search loops *)
Section reference.
Context (c : Cfg) (x : Tables) (th : ThreadHistory) (pc : Z).

(** The entry of bank [i] that the hashes of [pc] select, if its tag matches. *)
Definition match_at (i : Z) : option TageEntry.t :=
  match gindex c th pc i, gtag c th pc i with
  | Ok idx, Ok tag =>
      match gget (gtable x) i idx with
      | Ok e => if TageEntry.tag e =? tag then Some e else None
      | Err _ => None
      end
  | _, _ => None
  end.

(** The longest history up to bank [k] with a match. *)
Definition longest (k : nat) : option (nat * TageEntry.t) :=
  last (omap (λ i, (λ e, (i, e)) <$> match_at (Z.of_nat i)) (seq 1 k)).

Definition bimodal_taken : bool :=
  match bindex c pc with
  | Ok i => match vget (btable x) i with Ok e => 0 <? BimodalEntry.pred e | Err _ => false end
  | Err _ => false
  end.

Definition taken_by (m : option (nat * TageEntry.t)) : bool :=
  match m with Some (_, e) => 0 <=? TageEntry.ctr e | None => bimodal_taken end.

(** TAGE: the longest match, or the next one (in the end the bimodal table) when the
    longest is weak and alternates have done better on weak entries. *)
Definition tage_taken : bool :=
  match longest (Z.to_nat (nHistoryTables c)) with
  | None => bimodal_taken
  | Some (k, e) =>
      if weak (TageEntry.ctr e) && (0 <=? useAltPredForNewlyAllocated x) then taken_by (longest (k - 1))
      else 0 <=? TageEntry.ctr e
  end.

(** The first way of the loop set with the tag. *)
Definition loop_entry : option LoopEntry.t :=
  let set := take 4 (drop (Z.to_nat (4 * (pc mod 2 ^ (logSizeLoopPred c - 2)))) (ltable x)) in
  snd <$> list_find (λ e, LoopEntry.tag e = loop_tag (logSizeLoopPred c) pc) set.

(** L-TAGE: a confident loop entry, if loop predictions have been worth it. *)
Definition ltage_taken : bool :=
  match loop_entry with
  | Some e =>
      if (0 <=? loopUseCounter x) && (3 <=? LoopEntry.confidence e) then
        (if LoopEntry.currentIterSpec e + 1 =? LoopEntry.numIter e then negb (LoopEntry.dir e) else LoopEntry.dir e)
      else tage_taken
  | None => tage_taken
  end.

Context (Hc : cfg_ok c) (Hx : tabs_ok c x) (Hth : thread_ok c th).

(** The arrays [predict] fills hold the hashes. *)
Definition hashed (i : Z) (ti tg : list Z) : Prop :=
  ∀ j, 1 ≤ j ≤ i → ∃ idx tag, gindex c th pc j = Ok idx ∧ gtag c th pc j = Ok tag ∧
    ti !! Z.to_nat j = Some idx ∧ tg !! Z.to_nat j = Some tag.

Lemma hashed_set i ti tg idx tag :
  1 ≤ i < vlen ti → i < vlen tg → hashed (i - 1) ti tg → gindex c th pc i = Ok idx → gtag c th pc i = Ok tag →
  hashed i (<[Z.to_nat i := idx]> ti) (<[Z.to_nat i := tag]> tg).
Proof.
  intros Hi Hi' Hh Ei Et j Hj. destruct (decide (j = i)) as [->|].
  - exists idx, tag. rewrite !vlookup_insert_eq by lia. done.
  - destruct (Hh j) as (idx' & tag' & ? & ? & ? & ?); [lia|]. exists idx', tag'. rewrite !vlookup_insert_ne by lia. done.
Qed.

Lemma compute_banks_vals y :
  vlen y.1.1.1 = nHistoryTables c + 1 → vlen y.1.1.2 = nHistoryTables c + 1 →
  vlen y.1.2 = nHistoryTables c + 1 → vlen y.2 = nHistoryTables c + 1 →
  returns (for_banks (nHistoryTables c) (compute_bank c th pc) y) (λ r,
    hashed (nHistoryTables c) r.1.1.1 r.1.1.2 ∧ hashed (nHistoryTables c) r.1.2 r.2).
Proof.
  intros H1 H2 H3 H4. pose proof (c_banks c Hc).
  eapply returns_mono; [apply (for_banks_ind _ _ (λ i r, hashed i r.1.1.1 r.1.1.2 ∧ hashed i r.1.2 r.2 ∧
    vlen r.1.1.1 = nHistoryTables c + 1 ∧ vlen r.1.1.2 = nHistoryTables c + 1 ∧
    vlen r.1.2 = nHistoryTables c + 1 ∧ vlen r.2 = nHistoryTables c + 1) y); [lia| |]|by intros r (? & ? & _)].
  { split_and!; try done; intros j Hj; lia. }
  intros i [[[ti tg] bti] btg] Hi (A1 & A2 & L1 & L2 & L3 & L4). cbn [fst snd] in *. unfold compute_bank.
  pose proof (gindex_ok c Hc th Hth pc i Hi) as Ri. pose proof (gtag_ok c Hc th Hth pc i Hi) as Rt.
  apply returns_iff in Ri as (idx & Ei & _), Rt as (tag & Et & _). rewrite Ei, Et. cbn [mbind res_bind].
  rewrite vset_in by lia. cbn [mbind res_bind]. rewrite vset_in by lia. cbn [mbind res_bind].
  rewrite vset_in by lia. cbn [mbind res_bind]. rewrite vset_in by lia. cbn [mbind res_bind returns fst snd].
  rewrite !vlen_insert. split_and!; try done; (apply hashed_set; (done || lia)).
Qed.

Lemma longest_S k :
  longest (S k) = match match_at (Z.of_nat (S k)) with Some e => Some (S k, e) | None => longest k end.
Proof.
  unfold longest. rewrite seq_S, omap_app. change (1 + k)%nat with (S k).
  destruct (match_at (Z.of_nat (S k))) as [e|] eqn:E.
  - replace (omap _ [S k]) with [(S k, e)] by (cbn [omap list_omap]; by rewrite E). apply last_snoc.
  - replace (omap _ [S k]) with (@nil (nat * TageEntry.t)) by (cbn [omap list_omap]; by rewrite E). by rewrite app_nil_r.
Qed.

Lemma longest_le k j e : longest k = Some (j, e) → (1 ≤ j ≤ k)%nat ∧ match_at (Z.of_nat j) = Some e.
Proof.
  induction k as [|k IH]; [done|]. rewrite longest_S. destruct (match_at (Z.of_nat (S k))) as [e'|] eqn:E.
  - intros H. simplify_eq. split; [lia|done].
  - intros H. destruct (IH H). split; [lia|done].
Qed.

(** The search loop finds the longest match. *)
Lemma find_bank_longest ti tg k :
  hashed (nHistoryTables c) ti tg → Z.of_nat k ≤ nHistoryTables c →
  find_bank (gtable x) ti tg k = Ok (match longest k with Some (j, _) => Z.of_nat j | None => 0 end).
Proof.
  intros Hh. induction k as [|k IH]; intros Hk; [done|]. rewrite longest_S. cbn [find_bank].
  destruct (Hh (Z.of_nat (S k))) as (idx & tag & Ei & Et & Hi & Ht); [lia|].
  rewrite (vget_in ti (Z.of_nat (S k)) idx) by (lia || done). cbn [mbind res_bind]. unfold match_at. rewrite Ei, Et.
  pose proof (gindex_ok c Hc th Hth pc (Z.of_nat (S k)) ltac:(lia)) as Ri. rewrite Ei in Ri.
  destruct (gget_ok c (gtable x) (Z.of_nat (S k)) idx (t_tagged _ _ Hx)) as (e & -> & _); [lia|exact Ri|].
  cbn [mbind res_bind]. rewrite (vget_in tg (Z.of_nat (S k)) tag) by (lia || done). cbn [mbind res_bind].
  destruct (_ =? tag); [done|]. apply IH. lia.
Qed.

(** Reading the entry of a bank that was found. *)
Lemma found_entry ti tg k j e :
  hashed (nHistoryTables c) ti tg → Z.of_nat k ≤ nHistoryTables c → longest k = Some (j, e) →
  ∃ idx, bank_index ti (Z.of_nat j) = Ok idx ∧ gget (gtable x) (Z.of_nat j) idx = Ok e.
Proof.
  intros Hh Hk Hl. apply longest_le in Hl as [Hj Hm]. destruct (Hh (Z.of_nat j)) as (idx & tag & Ei & Et & Hi & Ht); [lia|].
  exists idx. unfold match_at in Hm. rewrite Ei, Et in Hm. unfold bank_index. destruct (Z.eqb_spec (Z.of_nat j) 0); [lia|].
  rewrite (vget_in ti (Z.of_nat j) idx) by (lia || done). split; [done|].
  destruct (gget (gtable x) (Z.of_nat j) idx) as [e'|]; [|done]. destruct (_ =? tag); congruence.
Qed.

Lemma bimodal_Ok : ∃ i, bindex c pc = Ok i ∧ getBimodePred (btable x) i = Ok bimodal_taken.
Proof.
  pose proof (bindex_ok c Hc pc) as Hb. apply returns_iff in Hb as (i & E & Hi). exists i. split; [done|].
  unfold bimodal_taken, getBimodePred. rewrite E. destruct (t_bimodal _ _ Hx) as [Hl _].
  destruct (vlookup_lt (btable x) i) as [e He]; [lia|]. by rewrite (vget_in _ i e) by (lia || done).
Qed.

Lemma tage_predict_taken ti tg bti btg :
  hashed (nHistoryTables c) ti tg →
  returns (tage_predict c x pc ti tg bti btg) (λ r, tagePred r = tage_taken).
Proof.
  intros Hh. pose proof (c_banks c Hc). unfold tage_predict, tage_taken. destruct bimodal_Ok as (bi & -> & Eb). cbn [mbind res_bind].
  rewrite (find_bank_longest ti tg) by (done || lia). cbn [mbind res_bind].
  destruct (longest (Z.to_nat (nHistoryTables c))) as [[k e]|] eqn:El; cycle 1.
  { cbn [bank_index Z.eqb mbind res_bind Z.to_nat Z.sub Z.add Z.opp find_bank Z.ltb Z.compare]. rewrite Eb. done. }
  destruct (found_entry ti tg (Z.to_nat (nHistoryTables c)) k e Hh ltac:(lia) El) as (hi & -> & Ege). apply longest_le in El as [Hk _]. cbn [mbind res_bind].
  replace (Z.to_nat (Z.of_nat k - 1)) with (k - 1)%nat by lia. rewrite (find_bank_longest ti tg) by (done || lia).
  cbn [mbind res_bind]. destruct (Z.ltb_spec 0 (Z.of_nat k)); [|lia].
  assert (∀ b : bool, b = taken_by (longest (k - 1)) → (if (useAltPredForNewlyAllocated x <? 0) || negb (weak (TageEntry.ctr e))
     then 0 <=? TageEntry.ctr e else b) = (if weak (TageEntry.ctr e) && (0 <=? useAltPredForNewlyAllocated x) then taken_by (longest (k - 1))
      else 0 <=? TageEntry.ctr e)) as Hsel.
  { intros b ->. rewrite (Z.leb_antisym (useAltPredForNewlyAllocated x) 0).
    by destruct (weak _), (useAltPredForNewlyAllocated x <? 0). }
  destruct (longest (k - 1)) as [[j e']|] eqn:El'.
  - destruct (found_entry ti tg (k - 1) j e' Hh ltac:(lia) El') as (ai & -> & Ege'). apply longest_le in El' as [Hj _].
    cbn [mbind res_bind]. destruct (Z.ltb_spec 0 (Z.of_nat j)); [|lia]. rewrite Ege'. cbn [mbind res_bind]. rewrite Ege.
    cbn [mbind res_bind returns tagePred]. by apply Hsel.
  - cbn [bank_index Z.eqb mbind res_bind Z.ltb Z.compare]. rewrite Eb. cbn [mbind res_bind]. rewrite Ege.
    cbn [mbind res_bind returns tagePred]. by apply Hsel.
Qed.

(** What a loop entry says of the next outcome. *)
Definition entry_says (e : LoopEntry.t) : bool :=
  if LoopEntry.currentIterSpec e + 1 =? LoopEntry.numIter e then negb (LoopEntry.dir e) else LoopEntry.dir e.

(** Trying the ways in turn finds the first entry with the tag. *)
Lemma getLoop_ways_find l li ways es (P : LoopEntry.t → Prop) `{∀ e, Decision (P e)} :
  (∀ e, P e ↔ LoopEntry.tag e = loopTag li) → loopPredValid li = false →
  Forall2 (λ i e, vget l (loopIndex li + i) = Ok e) ways es →
  returns (getLoop_ways l li ways) (λ r,
    match snd <$> list_find P es with
    | Some e => r.1 = entry_says e ∧ loopPredValid r.2 = (3 <=? LoopEntry.confidence e)
    | None => loopPredValid r.2 = false
    end).
Proof.
  intros HP Hv HF. induction HF as [|i e ways es E HF IH]; cbn [getLoop_ways list_find]; [done|].
  rewrite E. cbn [mbind res_bind]. destruct (Z.eqb_spec (LoopEntry.tag e) (loopTag li)) as [Et|Et].
  - rewrite decide_True by (by apply HP). done.
  - rewrite decide_False by (by rewrite HP). eapply returns_mono; [exact IH|]. intros r Hr.
    destruct (list_find P es) as [[? ?]|]; done.
Qed.

Lemma getLoop_reference li :
  returns (getLoop (logSizeLoopPred c) (ltable x) pc li) (λ r,
    match loop_entry with
    | Some e => r.1 = entry_says e ∧ loopPredValid r.2 = (3 <=? LoopEntry.confidence e)
    | None => loopPredValid r.2 = false
    end).
Proof.
  pose proof (c_loop c Hc) as Hlog. set (log := logSizeLoopPred c) in *. destruct (lindex_Ok log pc Hlog) as [E Hr].
  unfold getLoop. rewrite E. cbn [mbind res_bind]. rewrite u32_id by (unfold is_u32; lia). rewrite shr64_in by lia.
  cbn [mbind res_bind]. fold (loop_tag log pc). unfold loop_entry. fold log. set (idx := 4 * (pc mod 2 ^ (log - 2))) in *.
  pose proof (t_loop _ _ Hx) as Hl. fold log in Hl.
  destruct (way_exists log Hlog _ Hl idx) as (e0 & E0 & _), (way_exists log Hlog _ Hl (idx + 1)) as (e1 & E1 & _),
    (way_exists log Hlog _ Hl (idx + 2)) as (e2 & E2 & _), (way_exists log Hlog _ Hl (idx + 3)) as (e3 & E3 & _); [lia..|].
  assert (take 4 (drop (Z.to_nat idx) (ltable x)) = [e0; e1; e2; e3]) as ->.
  { rewrite (drop_S _ e0) by done.
    replace (S (Z.to_nat idx)) with (Z.to_nat (idx + 1)) by lia. rewrite (drop_S _ e1) by done.
    replace (S (Z.to_nat (idx + 1))) with (Z.to_nat (idx + 2)) by lia. rewrite (drop_S _ e2) by done.
    replace (S (Z.to_nat (idx + 2))) with (Z.to_nat (idx + 3)) by lia. rewrite (drop_S _ e3) by done. done. }
  apply getLoop_ways_find; [done|done|]. cbn [loopIndex].
  repeat (constructor; [apply vget_in; [lia|rewrite ?Z.add_0_r; done]|]). constructor.
Qed.

End reference.

Lemma predict_reference nt s l tid pc th :
  wf nt s → heap_tracks (histories s) l → 0 ≤ tid < nt → vget (threadHistory s) tid = Ok th →
  returns (predict s tid pc true) (λ r, r.1.1 = ltage_taken (cfg s) (tabs s) th pc).
Proof.
  intros H Htr Ht Eth. pose proof (wf_cfg _ _ H) as Hc. pose proof (c_banks _ Hc).
  destruct (thread_exists nt s H tid Ht) as (th' & Eth' & Hth). rewrite Eth in Eth'. injection Eth' as <-.
  unfold predict. rewrite Eth. cbn [mbind res_bind]. apply returns_bind, returns_bind.
  assert (∀ g : Z, vlen (replicate (Z.to_nat (nHistoryTables (cfg s) + 1)) g) = nHistoryTables (cfg s) + 1) as Hrep
    by (intros g; apply vlen_replicate; lia).
  eapply returns_mono; [apply compute_banks_vals; [done|done|apply H|apply H|apply Hrep|apply Hrep]|].
  intros [[[tis tgs] bti] btg] [Hh _]. cbn [fst snd] in Hh. apply returns_bind.
  eapply returns_mono; [by apply (tage_predict_taken _ _ _ _ Hc (wf_tabs _ _ H) Hth)|]. intros ti Hti. apply returns_bind.
  eapply returns_mono; [apply (getLoop_reference _ _ pc Hc (wf_tabs _ _ H))|]. intros [lp li] Hli. cbn [returns fst snd loopPredValid] in *.
  apply returns_bind. eapply returns_mono; [apply specLoopUpdate_ok; [apply Hc|apply H]|]. intros lt _. cbn [heap_new returns fst].
  unfold ltage_taken. destruct (loop_entry _ _ pc) as [e|].
  - destruct Hli as [-> ->]. by rewrite Hti.
  - rewrite Hli, andb_false_r. done.
Qed.

(** ** Theorems *)

(** C32: [lookup] is the TAGE prediction. In a well-formed state, which includes that
    bank [j] has at least [2 ^ j] entries (the repository's default sizes do not satisfy
    this for the banks 11 and 12, and there [lookup] is undefined, see
    [ltage_default_undefined_shift]), the four search loops of [predict] answer what the
    reference definition says: the sign of the counter of the bank with the
    longest history whose entry matches; for a weak entry, when alternates have been
    doing better, that of the next longest match; without a match, the bimodal
    table; and in place of all that the first loop entry with the branch's tag, if
    it is confident and loop predictions have been worth it. *)
Theorem ltage_prediction (nt : Z) (s : t) (l : list ptr) (tid pc : Z) (th : ThreadHistory) :
  wf nt s → heap_tracks (histories s) l → 0 ≤ tid < nt → vget (threadHistory s) tid = Ok th →
  returns (lookup s tid pc) (λ r, r.1.1 = ltage_taken (cfg s) (tabs s) th pc).
Proof.
  intros H Htr Ht Eth. unfold lookup. apply returns_bind.
  eapply returns_mono; [apply returns_and; [by apply (predict_ok nt s H l tid pc true)|by apply (predict_reference nt s l tid pc th)]|].
  intros [[b p] s1] [(H1 & _ & T1) Hb]. cbn [fst snd] in *. apply returns_bind.
  eapply returns_mono; [by apply (ltage_updateHistories_ok nt s1 H1 l)|]. intros s2 [H2 T2].
  by rewrite (check_pointer_ok nt s2 H2 tid Ht).
Qed.

(** ** Training and allocation *)

Lemma vget_vset {A} (l l' : list A) i x j : vset l i x = Ok l' → vget l' j = if j =? i then Ok x else vget l j.
Proof.
  intros E. apply vset_Ok in E as [Hi ->]. destruct (Z.eqb_spec j i) as [->|].
  - apply vget_in; [lia|]. by apply vlookup_insert_eq.
  - unfold vget. destruct (Z.leb_spec 0 j); [|done]. by rewrite vlookup_insert_ne by lia.
Qed.

Lemma gget_gset g g' b i e b' i' :
  gset g b i e = Ok g' → gget g' b' i' = if (b' =? b) && (i' =? i) then Ok e else gget g b' i'.
Proof.
  unfold gset, gget. intros E. apply bind_Ok in E as (l & El & E). apply bind_Ok in E as (l' & El' & E).
  rewrite (vget_vset _ _ _ _ b' E). destruct (Z.eqb_spec b' b) as [->|]; [|done]. cbn [mbind res_bind andb].
  rewrite (vget_vset _ _ _ _ i' El'). destruct (i' =? i); [done|]. by rewrite El.
Qed.

(** The loops with what they have done so far. *)
Lemma for_range_upto {A} (lo hi : Z) (body : Z → A → res A) (P : Z → A → Prop) a :
  lo ≤ hi + 1 → P lo a → (∀ i x, lo ≤ i ≤ hi → P i x → returns (body i x) (P (i + 1))) →
  returns (for_range lo hi body a) (P (hi + 1)).
Proof.
  intros Hle Ha Hs. unfold for_range.
  assert (∀ k, (k ≤ Z.to_nat (hi - lo + 1))%nat →
    returns (foldl (λ acc i, acc ≫= body (lo + Z.of_nat i)) (Ok a) (seq 0 k)) (P (lo + Z.of_nat k))) as Hk.
  { induction k as [|k IH]; intros Hk; [cbn; by rewrite Z.add_0_r|]. rewrite seq_S, foldl_app. cbn [foldl].
    apply returns_bind. eapply returns_mono; [apply IH; lia|]. intros x Hx. cbn beta in Hx.
    replace (lo + Z.of_nat (S k)) with (lo + Z.of_nat (0 + k) + 1) by lia. apply Hs; [lia|done]. }
  specialize (Hk (Z.to_nat (hi - lo + 1)) ltac:(lia)). by replace (lo + Z.of_nat (Z.to_nat (hi - lo + 1))) with (hi + 1) in Hk by lia.
Qed.

Lemma for_down_upto {A} (hi lo : Z) (body : Z → A → res A) (P : Z → A → Prop) a :
  lo ≤ hi → P hi a → (∀ i x, lo < i ≤ hi → P i x → returns (body i x) (P (i - 1))) →
  returns (for_down hi lo body a) (P lo).
Proof.
  intros Hle Ha Hs. unfold for_down.
  assert (∀ k, (k ≤ Z.to_nat (hi - lo))%nat →
    returns (foldl (λ acc i, acc ≫= body (hi - Z.of_nat i)) (Ok a) (seq 0 k)) (P (hi - Z.of_nat k))) as Hk.
  { induction k as [|k IH]; intros Hk; [cbn; by rewrite Z.sub_0_r|]. rewrite seq_S, foldl_app. cbn [foldl].
    apply returns_bind. eapply returns_mono; [apply IH; lia|]. intros x Hx. cbn beta in Hx.
    replace (hi - Z.of_nat (S k)) with (hi - Z.of_nat (0 + k) - 1) by lia. apply Hs; [lia|done]. }
  specialize (Hk (Z.to_nat (hi - lo)) ltac:(lia)). by replace (hi - Z.of_nat (Z.to_nat (hi - lo))) with lo in Hk by lia.
Qed.

Section allocation.
Context (c : Cfg) (Hc : cfg_ok c) (ti : TageInfo) (Hti : tage_info_ok c ti) (taken : bool).
Notation n := (nHistoryTables c).

(** The entry that the branch selects in bank [j]. *)
Definition selected (j : Z) : Z := at_ (tableIndices ti) j.

Lemma selected_Ok j : 1 ≤ j ≤ n → vget (tableIndices ti) j = Ok (selected j) ∧ 0 ≤ selected j < size_of c j.
Proof.
  intros Hj. destruct (ti_indices _ _ Hti) as [Hl Hi]. destruct (Hi j Hj) as (i & E & Hr).
  rewrite vget_at by lia. unfold selected, at_. by rewrite E.
Qed.

(** No bank longer than the provider has an entry that is not useful. *)
Definition none_free (g : list (list TageEntry.t)) : Prop :=
  ∀ j e, hitBank ti < j ≤ n → gget g j (selected j) = Ok e → TageEntry.u e ≠ 0.

(** A new entry of bank [j]: the tag of the branch, and a weak counter. *)
Definition new_entry (j : Z) : TageEntry.t :=
  TageEntry.mk (if taken then 0 else -1) (u16 (at_ (tableTags ti) j)) 0.

Lemma min_u_none_free g :
  gtable_ok c g → hitBank ti < n →
  returns (min_u g (tableIndices ti) n (hitBank ti)) (λ m, if 0 <? m then none_free g else ¬ none_free g).
Proof.
  intros Hg Hlt. destruct (ti_hit _ _ Hti) as [Hh _]. unfold min_u.
  eapply returns_mono; [apply (for_down_upto n (hitBank ti) _ (λ i m,
    (m = 1 ∧ ∀ j e, i < j ≤ n → gget g j (selected j) = Ok e → TageEntry.u e ≠ 0) ∨
    (m = 0 ∧ ∃ j e, i < j ≤ n ∧ gget g j (selected j) = Ok e ∧ TageEntry.u e = 0))); [lia|left; split; [done|lia]|]|].
  - intros i m Hi Hm. destruct (selected_Ok i) as [-> Hs]; [lia|]. cbn [mbind res_bind].
    destruct (gget_ok c g i (selected i) Hg) as (e & E & (_ & _ & Hu)); [lia|done|]. rewrite E. cbn [mbind res_bind returns].
    destruct (Z.ltb_spec (TageEntry.u e) m).
    + right. split; [lia|]. exists i, e. split_and!; [lia|lia|done|lia].
    + destruct Hm as [[-> Hm]|[-> (j & e' & Hj & E' & Hu')]].
      * left. split; [done|]. intros j e' Hj E'. destruct (decide (j = i)) as [->|]; [|apply (Hm j); [lia|done]].
        rewrite E in E'. injection E' as <-. lia.
      * right. split; [done|]. exists j, e'. split_and!; (lia || done).
  - intros m [[-> Hm]|[-> (j & e & Hj & E & Hu)]]; cbn; [exact Hm|]. intros Hn. by apply (Hn j e Hj E).
Qed.

(** After the first bank considered, every entry of the path that is not useful is
    replaced, and nothing else changes. *)
Definition replaced (X : Z) (g g' : list (list TageEntry.t)) (i : Z) : Prop :=
  ∀ j k e, gget g j k = Ok e →
    gget g' j k = Ok (if (X <=? j) && (j <? i) && (k =? selected j) && (TageEntry.u e =? 0) then new_entry j else e).

Lemma alloc_loop_replaced X g :
  gtable_ok c g → 1 ≤ X ≤ n →
  returns (for_range X n (alloc_entry ti taken) g) (λ g', gtable_ok c g' ∧ replaced X g g' (n + 1)).
Proof.
  intros Hg HX. apply (for_range_upto X n _ (λ i g', gtable_ok c g' ∧ replaced X g g' i)); [lia| |].
  { split; [done|]. intros j k e E. rewrite E. destruct (Z.leb_spec X j), (Z.ltb_spec j X); (done || lia). }
  intros i g' Hi [Hg' Hr]. unfold alloc_entry. destruct (selected_Ok i) as [-> Hs]; [lia|]. cbn [mbind res_bind].
  destruct (gget_ok c g i (selected i) Hg) as (e & E & He); [lia|done|].
  pose proof (Hr i (selected i) e E) as Ei. rewrite Z.ltb_irrefl, andb_false_r in Ei. cbn [andb] in Ei. rewrite Ei. cbn [mbind res_bind].
  assert (∀ g2, (∀ j k, gget g2 j k = if (j =? i) && (k =? selected i) && (TageEntry.u e =? 0) then Ok (new_entry i) else gget g' j k) →
    replaced X g g2 (i + 1)) as Hstep.
  { intros g2 H2 j k e0 E0. rewrite H2, (Hr j k e0 E0). destruct (Z.eqb_spec j i) as [->|].
    - replace (X <=? i) with true by (symmetry; apply Z.leb_le; lia).
      replace (i <? i + 1) with true by (symmetry; apply Z.ltb_lt; lia). rewrite Z.ltb_irrefl. cbn [andb].
      destruct (Z.eqb_spec k (selected i)) as [->|]; [|done]. assert (e0 = e) as -> by congruence. by destruct (_ =? 0).
    - cbn [andb]. by replace (j <? i + 1) with (j <? i) by (destruct (Z.ltb_spec j i), (Z.ltb_spec j (i + 1)); (done || lia)). }
  destruct (TageEntry.u e =? 0) eqn:Eu.
  - pose proof (ti_tags _ _ Hti). rewrite vget_at by lia. cbn [mbind res_bind]. fold (new_entry i).
    destruct (gset_ok c g' i (selected i) (new_entry i) Hg') as (g2 & E2 & Hg2); [lia|done|apply entry_ok_new; done|].
    rewrite E2. cbn [returns]. split; [done|]. apply Hstep. intros j k. by rewrite andb_true_r, (gget_gset _ _ _ _ _ j k E2).
  - cbn [returns]. split; [done|]. apply Hstep. intros j k. by rewrite andb_false_r.
Qed.

End allocation.

(** The entries after the allocation loop, when the table before it is [g] with the
    usefulness of the entry at [X] cleared if [forced]. *)
Lemma replaced_policy c ti taken X g g1 g' (forced : bool) :
  X ≤ nHistoryTables c → replaced ti taken X g1 g' (nHistoryTables c + 1) →
  (∀ j k e, gget g j k = Ok e →
     gget g1 j k = Ok (if forced && (j =? X) && (k =? selected ti X) then TageEntry.set_u 0 e else e)) →
  ∀ j k e, gget g j k = Ok e → ∀ nf : Prop, (if forced then nf else ¬ nf) →
    let chosen := X ≤ j ≤ nHistoryTables c ∧ k = selected ti j ∧ (TageEntry.u e = 0 ∨ j = X ∧ nf) in
    (chosen → gget g' j k = Ok (new_entry ti taken j)) ∧ (¬ chosen → gget g' j k = Ok e).
Proof.
  intros HX Hr H1 j k e E nf Hnf chosen. rewrite (Hr j k _ (H1 j k e E)). unfold chosen. split.
  - intros (Hj & -> & Hch). destruct (Z.leb_spec X j), (Z.ltb_spec j (nHistoryTables c + 1)); try lia.
    rewrite Z.eqb_refl. cbn [andb]. destruct (Z.eqb_spec j X) as [->|].
    + rewrite Z.eqb_refl. destruct forced; cbn; [done|]. destruct (Z.eqb_spec (TageEntry.u e) 0); [done|]. naive_solver.
    + rewrite andb_false_r. cbn [andb]. destruct (Z.eqb_spec (TageEntry.u e) 0); [done|]. naive_solver.
  - intros Hn. destruct (Z.eqb_spec k (selected ti j)) as [->|Hk]; cycle 1.
    { rewrite !andb_false_r. cbn [andb]. destruct (Z.eqb_spec j X) as [->|]; [|by rewrite andb_false_r].
      destruct (Z.eqb_spec k (selected ti X)); [done|by rewrite andb_false_r]. }
    destruct (Z.eqb_spec j X) as [->|].
    + rewrite Z.eqb_refl. destruct forced; cbn [andb]; [destruct Hn; split_and!; [lia|lia|done|by right]|].
      destruct (Z.eqb_spec (TageEntry.u e) 0); [|by rewrite andb_false_r].
      destruct Hn. split_and!; (lia || done || by left).
    + rewrite andb_false_r. cbn [andb]. destruct (Z.eqb_spec (TageEntry.u e) 0); [|by rewrite andb_false_r].
      destruct (Z.leb_spec X j), (Z.ltb_spec j (nHistoryTables c + 1)); try done. destruct Hn. split_and!; (lia || done || by left).
Qed.

(** What an allocation does. A bank [X] is drawn among the three that follow the
    provider. From [X] on, the entry of the branch in every bank is replaced by a new
    one (the branch's tag, a weak counter in the direction of the outcome) if it is
    not useful; if no bank after the provider has an entry that is not useful, the
    one of [X] loses its usefulness and is replaced. All other entries of all tables
    stay as they are. The comment above the loop says that only one entry is
    allocated; there is no [break], and every bank with a free entry gets one. *)
Theorem ltage_allocation_policy (c : Cfg) (ti : TageInfo) (taken : bool) (nrand : Z) (g : list (list TageEntry.t)) :
  cfg_ok c → tage_info_ok c ti → hitBank ti < nHistoryTables c → gtable_ok c g →
  returns (allocate (nHistoryTables c) ti taken nrand g) (λ g', gtable_ok c g' ∧
    ∃ X, hitBank ti < X ≤ nHistoryTables c ∧ X ≤ hitBank ti + 3 ∧
      ∀ j k e, gget g j k = Ok e →
        let chosen := X ≤ j ≤ nHistoryTables c ∧ k = selected ti j ∧
                      (TageEntry.u e = 0 ∨ j = X ∧ none_free c ti g) in
        (chosen → gget g' j k = Ok (new_entry ti taken j)) ∧ (¬ chosen → gget g' j k = Ok e)).
Proof.
  intros Hc Hti Hlt Hg. destruct (ti_hit _ _ Hti) as [Hh _]. unfold allocate. apply returns_bind.
  eapply returns_mono; [by apply min_u_none_free|]. intros m Hm. cbn beta in Hm. apply returns_bind.
  eapply returns_mono; [apply (alloc_bank_ok c Hc); lia|]. intros X [HX HX3]. apply returns_bind.
  destruct (selected_Ok c ti Hti X) as [EX HsX]; [lia|].
  apply (returns_mono _ (λ g1, gtable_ok c g1 ∧ ∀ j k e, gget g j k = Ok e →
     gget g1 j k = Ok (if (0 <? m) && (j =? X) && (k =? selected ti X) then TageEntry.set_u 0 e else e))).
  - destruct (0 <? m); [|done]. rewrite EX. cbn [mbind res_bind].
    destruct (gget_ok c g X (selected ti X) Hg) as (e & E & He); [lia|done|]. rewrite E. cbn [mbind res_bind].
    destruct (gset_ok c g X (selected ti X) (TageEntry.set_u 0 e) Hg) as (g1 & E1 & Hg1); [lia|done|by apply entry_ok_set_u|].
    rewrite E1. cbn [returns]. split; [done|]. intros j k e' E'. rewrite (gget_gset _ _ _ _ _ j k E1). cbn [andb].
    destruct (Z.eqb_spec j X) as [->|], (Z.eqb_spec k (selected ti X)) as [->|]; cbn [andb]; congruence.
  - intros g1 [Hg1 H1]. eapply returns_mono; [apply (alloc_loop_replaced c Hc ti Hti taken X g1 Hg1); lia|].
    intros g' [Hg' Hr]. split; [done|]. exists X. split; [done|]. split; [done|]. intros j k e E.
    apply (replaced_policy c ti taken X g g1 g' (0 <? m)); (done || lia).
Qed.

(** A counter moved towards the outcome, saturating. *)
Definition toward (nbits : Z) (taken : bool) (ctr : Z) : Z :=
  if taken then Z.min (ctr + 1) (2 ^ (nbits - 1) - 1) else Z.max (ctr - 1) (- 2 ^ (nbits - 1)).

Lemma ctr_at_Ok c taken b i g e :
  cfg_ok c → gtable_ok c g → 1 ≤ b ≤ nHistoryTables c → 0 ≤ i < size_of c b → gget g b i = Ok e →
  ∃ g', ctr_at c taken b i g = Ok g' ∧ gtable_ok c g' ∧
    ∀ j k, gget g' j k = if (j =? b) && (k =? i)
                         then Ok (TageEntry.set_ctr (toward (tagTableCounterBits c) taken (TageEntry.ctr e)) e)
                         else gget g j k.
Proof.
  intros Hc Hg Hb Hi E. destruct (gget_ok c g b i Hg Hb Hi) as (e' & E' & He). rewrite E in E'. injection E' as <-.
  pose proof (c_bits c Hc) as Hn. pose proof He as (Hctr & _ & _). unfold ctr_at. rewrite E. cbn [mbind res_bind].
  rewrite i32_id by (unfold is_i32; lia). rewrite ctrUpdate_Ok by done. cbn [mbind res_bind].
  fold (toward (tagTableCounterBits c) taken (TageEntry.ctr e)).
  assert (ctr_ok (tagTableCounterBits c) (toward (tagTableCounterBits c) taken (TageEntry.ctr e))) as Ht.
  { unfold ctr_ok, toward in *. assert (0 < 2 ^ (tagTableCounterBits c - 1)) by (apply Z.pow_pos_nonneg; lia). destruct taken; lia. }
  destruct (gset_ok c g b i _ Hg Hb Hi (entry_ok_set_ctr c _ e He Ht)) as (g' & E2 & Hg'). exists g'. split_and!; [done..|].
  intros j k. apply (gget_gset _ _ _ _ _ j k E2).
Qed.

(** The tables [x'] are [x] with the provider's counter moved and its usefulness [u],
    and with the alternate moved if the provider [e] was not useful. *)
Record trained_by (c : Cfg) (ti : TageInfo) (taken : bool) (x : Tables) (e : TageEntry.t) (u : Z) (x' : Tables) : Prop := {
  tb_provider : gget (gtable x') (hitBank ti) (hitBankIndex ti) =
    Ok (TageEntry.mk (toward (tagTableCounterBits c) taken (TageEntry.ctr e)) (TageEntry.tag e) u);
  tb_alternate : 0 < altBank ti → ∀ ea, gget (gtable x) (altBank ti) (altBankIndex ti) = Ok ea →
    gget (gtable x') (altBank ti) (altBankIndex ti) =
      Ok (if TageEntry.u e =? 0 then TageEntry.set_ctr (toward (tagTableCounterBits c) taken (TageEntry.ctr ea)) ea else ea);
  tb_bimodal : if (TageEntry.u e =? 0) && (altBank ti =? 0)
    then baseUpdate (btable x) taken (bimodalIndex ti) = Ok (btable x') else btable x' = btable x;
  tb_others j k : (j, k) ≠ (hitBank ti, hitBankIndex ti) → (0 < altBank ti → (j, k) ≠ (altBank ti, altBankIndex ti)) →
    gget (gtable x') j k = gget (gtable x) j k;
  tb_loop : ltable x' = ltable x;
}.

Lemma slot_eqb j k b i : (j =? b) && (k =? i) = bool_decide ((j, k) = (b, i)).
Proof.
  destruct (Z.eqb_spec j b) as [->|], (Z.eqb_spec k i) as [->|]; cbn [andb]; symmetry;
    (apply bool_decide_eq_true; congruence) || (apply bool_decide_eq_false; congruence).
Qed.

Section training.
Context (c : Cfg) (ti : TageInfo) (taken : bool) (x : Tables) (e : TageEntry.t).
Context (Hc : cfg_ok c) (Hti : tage_info_ok c ti) (Hpos : 0 < hitBank ti) (Hx : tabs_ok c x).
Context (E : gget (gtable x) (hitBank ti) (hitBankIndex ti) = Ok e).

(** The provider and the alternate. *)
Lemma train_counters :
  returns (g ← ctr_at c taken (hitBank ti) (hitBankIndex ti) (gtable x);
           e ← gget g (hitBank ti) (hitBankIndex ti);
           if TageEntry.u e =? 0 then
             g ← (if 0 <? altBank ti then ctr_at c taken (altBank ti) (altBankIndex ti) g else Ok g);
             b ← (if altBank ti =? 0 then baseUpdate (btable x) taken (bimodalIndex ti) else Ok (btable x));
             Ok (with_btable b (with_gtable g x))
           else Ok (with_gtable g x))
    (λ x', gtable_ok c (gtable x') ∧ trained_by c ti taken x e (TageEntry.u e) x').
Proof.
  destruct Hti as [[Hh Hhi] [Ha Hai] Hord Hbi _ _]. specialize (Hhi Hpos).
  destruct (ctr_at_Ok c taken (hitBank ti) _ _ e Hc (t_tagged _ _ Hx) ltac:(lia) Hhi E) as (g1 & -> & Hg1 & H1). cbn [mbind res_bind].
  set (e1 := TageEntry.set_ctr _ e) in H1.
  assert (gget g1 (hitBank ti) (hitBankIndex ti) = Ok e1) as E1 by (rewrite H1, !Z.eqb_refl; done). rewrite E1. cbn [mbind res_bind].
  assert (∀ j k, (j, k) ≠ (hitBank ti, hitBankIndex ti) → gget g1 j k = gget (gtable x) j k) as H1'.
  { intros j k Hne. rewrite H1, slot_eqb. by rewrite bool_decide_false. }
  change (TageEntry.u e1) with (TageEntry.u e). destruct (TageEntry.u e =? 0) eqn:Eu; cycle 1.
  { cbn [returns]. split; [done|]. split; cbn [gtable btable ltable with_gtable]; rewrite ?Eu; cbn [andb]; auto.
    intros Hp ea Eea. rewrite H1' by (intros [=]; specialize (Hord Hp); lia). done. }
  destruct (Z.ltb_spec 0 (altBank ti)) as [Hp|Hp].
  - specialize (Hord Hp). specialize (Hai Hp).
    destruct (gget_ok c (gtable x) (altBank ti) (altBankIndex ti) (t_tagged _ _ Hx)) as (ea & Eea & _); [lia|done|].
    assert (gget g1 (altBank ti) (altBankIndex ti) = Ok ea) as Eea1 by (rewrite H1' by (intros [=]; lia); done).
    destruct (ctr_at_Ok c taken (altBank ti) _ _ ea Hc Hg1 ltac:(lia) Hai Eea1) as (g2 & -> & Hg2 & H2). cbn [mbind res_bind].
    destruct (Z.eqb_spec (altBank ti) 0); [lia|]. cbn [mbind res_bind returns]. split; [done|].
    split; cbn [gtable btable ltable with_gtable with_btable]; rewrite ?Eu; cbn [andb].
    + rewrite H2, slot_eqb, bool_decide_false by (intros [=]; lia). done.
    + intros _ ea' Eea'. assert (ea' = ea) as -> by congruence. by rewrite H2, !Z.eqb_refl.
    + by destruct (Z.eqb_spec (altBank ti) 0).
    + intros j k Hne Hne'. rewrite H2, slot_eqb, bool_decide_false by (by apply Hne'). by apply H1'.
    + done.
  - cbn [mbind res_bind]. assert (altBank ti = 0) as E0 by lia. rewrite E0. cbn [Z.eqb].
    pose proof (baseUpdate_ok c x taken (bimodalIndex ti) Hx Hbi) as Hb. apply returns_iff in Hb as (b & Eb & _). rewrite Eb.
    cbn [mbind res_bind returns]. split; [done|]. split; cbn [gtable btable ltable with_gtable with_btable]; rewrite ?Eu, ?E0; cbn [andb Z.eqb]; auto.
    intros Hlt. lia.
Qed.

(** The usefulness. *)
Lemma train_useful x' :
  gtable_ok c (gtable x') → trained_by c ti taken x e (TageEntry.u e) x' → 0 ≤ TageEntry.u e ≤ 1 →
  returns (e' ← gget (gtable x') (hitBank ti) (hitBankIndex ti);
           if TageEntry.u e' <? 1 then
             g ← gset (gtable x') (hitBank ti) (hitBankIndex ti) (TageEntry.set_u (i8 (TageEntry.u e' + 1)) e');
             Ok (with_gtable g x')
           else Ok x') (trained_by c ti taken x e 1).
Proof.
  intros Hg [T1 T2 T3 T4 T5] Hu. destruct Hti as [[Hh Hhi] _ Hord _ _ _]. specialize (Hhi Hpos).
  rewrite T1. cbn [mbind res_bind TageEntry.u]. destruct (Z.ltb_spec (TageEntry.u e) 1); cycle 1.
  { assert (TageEntry.u e = 1) as Eu by lia. rewrite Eu in T1. by split. }
  assert (TageEntry.u e = 0) as Eu by lia. replace (i8 (TageEntry.u e + 1)) with 1 by (by rewrite Eu).
  destruct (gget_ok c (gtable x') (hitBank ti) (hitBankIndex ti) Hg ltac:(lia) Hhi) as (e0 & E0 & He0). rewrite T1 in E0. injection E0 as <-.
  edestruct (gset_ok c (gtable x') (hitBank ti) (hitBankIndex ti)) as (g & Eg & _);
    [done|lia|done|apply (entry_ok_set_u c 1); [exact He0|]|].
  2: { rewrite Eg. cbn [mbind res_bind returns]. split; cbn [gtable btable ltable with_gtable]; auto.
       - by rewrite (gget_gset _ _ _ _ _ _ _ Eg), !Z.eqb_refl.
       - intros Hp ea Eea. rewrite (gget_gset _ _ _ _ _ _ _ Eg), slot_eqb, bool_decide_false by (intros [=]; specialize (Hord Hp); lia). auto.
       - intros j k Hne Hne'. rewrite (gget_gset _ _ _ _ _ _ _ Eg), slot_eqb, bool_decide_false by done. auto. }
  lia.
Qed.

End training.

(** C35: what training does ([trained_by]). The counter of the provider moves towards
    the outcome. Only while the provider is not known to be useful does the alternate
    move as well, the counter of a shorter bank or the bimodal entry. The provider
    becomes useful when it was right and the alternate said otherwise, and never stops
    being useful here. All other entries stay as they are. *)
Theorem ltage_training (c : Cfg) (ti : TageInfo) (taken : bool) (x : Tables) (e : TageEntry.t) :
  cfg_ok c → tage_info_ok c ti → 0 < hitBank ti → tabs_ok c x →
  gget (gtable x) (hitBank ti) (hitBankIndex ti) = Ok e →
  returns (train_tagged c ti taken x)
    (trained_by c ti taken x e
       (if negb (eqb (longestMatchPred ti) (altTaken ti)) && eqb (longestMatchPred ti) taken then 1 else TageEntry.u e)).
Proof.
  intros Hc Hti Hpos Hx E. pose proof (train_counters c ti taken x e Hc Hti Hpos Hx E) as Ht.
  destruct (gget_ok c (gtable x) (hitBank ti) (hitBankIndex ti) (t_tagged _ _ Hx)) as (e' & E' & (_ & _ & Hu));
    [destruct (ti_hit _ _ Hti); lia|by apply (ti_hit _ _ Hti)|]. assert (e' = e) as -> by congruence.
  unfold train_tagged. apply returns_iff in Ht as (x1 & E1 & Hg1 & T1).
  apply bind_Ok in E1 as (g & Eg & E1). apply bind_Ok in E1 as (e1 & Ee1 & E1). rewrite Eg. cbn [mbind res_bind]. rewrite Ee1.
  cbn [mbind res_bind]. rewrite E1. cbn [mbind res_bind]. destruct (negb _ && _); [|done].
  by apply (train_useful c ti taken x e Hti Hpos).
Qed.

(** ** Speculation *)

Lemma predict_frame s tid pc cond b p s1 :
  predict s tid pc cond = Ok (b, p, s1) → threadHistory s1 = threadHistory s ∧ cfg s1 = cfg s.
Proof.
  unfold predict. intros E. apply bind_Ok in E as ([[[pt ti] li] s2] & E2 & E).
  assert (threadHistory s2 = threadHistory s ∧ cfg s2 = cfg s) as Hs2.
  { destruct cond; [|by injection E2 as <- <- <- <-]. apply bind_Ok in E2 as (th & _ & E2).
    apply bind_Ok in E2 as ([[[tis tgs] bti] btg] & _ & E2). apply bind_Ok in E2 as (ti' & _ & E2).
    apply bind_Ok in E2 as ([lp li'] & _ & E2). by injection E2 as <- <- <- <-. }
  apply bind_Ok in E as (lt & _ & E). cbn [heap_new] in E. by injection E as <- <- <-.
Qed.

(** The plain [squash] does not restore the global history. Whatever the state,
    a branch that was predicted and then squashed, with nothing in between, leaves its
    predicted outcome as the newest of the thread's history: later predictions hash an
    outcome of a branch that was never executed, until a misprediction of an older
    branch repairs the history. *)
Theorem ltage_squash_keeps_outcome (nt : Z) (s : t) (l : list ptr) (tid pc : Z) (th : ThreadHistory) (bs : list bool) :
  let c := cfg s in
  let holds := history_ok (nHistoryTables c) (histBufferSize c) (maxHist c) (at_ (histLengths c)) (at_ (tagTableSizes c))
    (at_ (tagWidths c)) (λ j, at_ (tagWidths c) j - 1) in
  wf nt s → heap_tracks (histories s) l → 0 ≤ tid < nt → vget (threadHistory s) tid = Ok th → holds th bs →
  returns (lookup s tid pc) (λ r,
    returns (squash r.2 tid r.1.2) (λ s', ∃ th', vget (threadHistory s') tid = Ok th' ∧ holds th' (r.1.1 :: bs))).
Proof.
  intros c holds H Htr Ht Eth Hok. pose proof (wf_cfg _ _ H) as Hc. unfold lookup.
  pose proof (predict_ok nt s H l tid pc true Ht Htr) as Hp. apply returns_iff in Hp as ([[b p] s1] & Ep & H1 & Ec & T1).
  cbn [fst snd] in *. rewrite Ep. cbn [mbind res_bind]. destruct (predict_frame _ _ _ _ _ _ _ Ep) as [Eths _]. apply returns_bind.
  pose proof (ltage_updateHistories_ok nt s1 H1 l tid pc b p Ht T1) as Hu. apply returns_iff in Hu as (s2 & Eu & H2 & T2). rewrite Eu.
  cbn [returns]. rewrite (check_pointer_ok nt s2 H2 tid Ht). cbn [mbind res_bind returns fst snd].
  assert (∃ th', vget (threadHistory s2) tid = Ok th' ∧ holds th' (b :: bs)) as Hth2.
  { unfold updateHistories in Eu. rewrite Ec, Eths, Eth in Eu. apply bind_Ok in Eu as (bi & Ebi & Eu). cbn [mbind res_bind] in Eu.
    destruct (heap_tracks_deref _ _ _ T1) as (a & bi' & -> & Ha). cbn [heap_deref] in Ebi. rewrite Ha in Ebi. injection Ebi as ->.
    pose proof (wf_infos _ _ H1 a bi Ha) as Hbi. cbn beta in Hbi. rewrite Ec in Hbi.
    pose proof (LTAGE.updateHistories_ok _ _ _ _ _ _ _ (c_geometry _ Hc) pc b bs th bi Hok (io_shape _ _ Hbi)) as Hpr.
    apply returns_iff in Hpr as ([th' bi2] & Epr & [Hok' _ _ _ _ _ _]). unfold c in *. rewrite Epr in Eu. cbn [mbind res_bind fst] in *.
    apply bind_Ok in Eu as (ths & Es & Eu). apply bind_Ok in Eu as (hs & _ & Eu). injection Eu as <-.
    exists th'. split; [|done]. cbn [with_histories with_threads threadHistory].
    rewrite (vget_vset _ _ _ _ tid Es), Z.eqb_refl. done. }
  pose proof (ltage_squash_ok nt s2 H2 l tid p T2) as Hq. apply returns_iff in Hq as (s3 & Eq & _). rewrite Eq. cbn [returns].
  unfold squash in Eq. bind_inv Eq. injection Eq as <-. exact Hth2.
Qed.

Lemma foldl_bind_Err {A B} (f : B → A → res A) e l : foldl (λ acc i, acc ≫= f i) (Err e) l = Err e.
Proof. induction l as [|i l IH]; [done|]. exact IH. Qed.

(** A loop over the banks that returned has returned from every iteration. *)
Lemma for_banks_Ok {A} n (body : Z → A → res A) a r i :
  for_banks n body a = Ok r → 1 ≤ i ≤ n → ∃ x y, body i x = Ok y.
Proof.
  unfold for_banks. intros E Hi.
  assert (∀ l (m : res A), foldl (λ acc k, acc ≫= body (Z.of_nat k)) m l = Ok r → Z.to_nat i ∈ l → ∃ x y, body i x = Ok y) as Hl.
  { induction l as [|k l IH]; intros m El Hin; [by apply elem_of_nil in Hin|]. cbn [foldl] in El.
    destruct (m ≫= body (Z.of_nat k)) as [y|e] eqn:Ey; cycle 1.
    { rewrite (foldl_bind_Err (λ k, body (Z.of_nat k))) in El. discriminate El. }
    apply elem_of_cons in Hin as [<-|Hin]; [|by eapply IH].
    apply bind_Ok in Ey as (x & _ & Ey). rewrite Z2Nat.id in Ey by lia. eauto. }
  apply (Hl _ _ E). apply elem_of_seq. lia.
Qed.

(** The number of tables and the table size that [BranchPredictor.py] gives. *)
Definition default_sizes (p : Params) : Prop :=
  p_nHistoryTables p = 12 ∧ p_logSizeTagTables p = 11.

(** The default configuration is not defined. [F] shifts by
    [tagTableSizes[bank] - bank]; with the 12 tables of 2 to the 11 entries and less
    that are the default, this is negative for the two longest histories, so that no
    [lookup] of a predictor constructed with these sizes runs without undefined
    behaviour, whatever the other parameters. *)
Theorem ltage_default_undefined_shift (indet : Z) (f0 : FoldedHistory.t) (geometric : Z → Z) (draws : nat → Z)
    (p : Params) (s : t) (tid pc : Z) :
  default_sizes p → create indet f0 geometric draws p = Ok s →
  ∀ r, lookup s tid pc ≠ Ok r.
Proof.
  intros [Hn Hlog] Ecr r El.
  assert (nHistoryTables (cfg s) = 12 ∧ tagTableSizes (cfg s) = mk_tagTableSizes indet 11) as [En Es].
  { unfold create in Ecr. bind_inv Ecr. injection Ecr as <-. cbn. by rewrite Hlog. }
  unfold lookup in El. apply bind_Ok in El as ([[b q] s1] & Ep & _). unfold predict in Ep.
  apply bind_Ok in Ep as (y & Ep & _). apply bind_Ok in Ep as (th & _ & Ep). apply bind_Ok in Ep as (z & Ez & _).
  destruct (for_banks_Ok _ _ _ _ 12 Ez) as ([[[ti tg] bti] btg] & z' & Ec); [lia|]. unfold compute_bank in Ec.
  apply bind_Ok in Ec as (idx & Ei & _). unfold gindex in Ei. bind_inv Ei.
  match goal with H : F _ _ _ 12 = Ok _ |- _ => unfold F in H; rewrite Es in H; bind_inv H end.
  repeat match goal with H : vget (mk_tagTableSizes _ 11) 12 = Ok _ |- _ => vm_compute in H; injection H as <- end.
  match goal with H : shr_int _ (9 - 12) = Ok _ |- _ => vm_compute in H; discriminate H end.
Qed.

(** The entry with its count moved by a prediction. *)
Definition counted (taken : bool) (e : LoopEntry.t) : LoopEntry.t :=
  LoopEntry.set_currentIterSpec (if eqb taken (LoopEntry.dir e) then u16 (LoopEntry.currentIterSpec e + 1) else 0) e.

(** Speculation in the loop predictor. When the branch hits the first way of its
    set, the prediction moves the count of the entry and a squash of either kind brings
    it back; in particular a mispredicted exit leaves the count of before the branch,
    not 0. When it hits another way, [specLoopUpdate] moves the count of the first
    way, an entry of another branch, and the squash restores the entry that hit, which
    had not moved: the entry of the other branch stays out of step. *)
Theorem loop_speculation (log : Z) (l : list LoopEntry.t) (pc : Z) (taken : bool) (bi : BranchInfo) (e0 e : LoopEntry.t) :
  let idx := 4 * (pc mod 2 ^ (log - 2)) in
  2 ≤ log < 31 → ltable_ok log l → condBranch bi = true → loopIndex (loop bi) = idx → 0 ≤ loopHit (loop bi) ≤ 3 →
  l !! Z.to_nat idx = Some e0 → l !! Z.to_nat (idx + loopHit (loop bi)) = Some e →
  li_currentIter (loop bi) = LoopEntry.currentIterSpec e →
  returns (specLoopUpdate log l pc taken (loop bi)) (λ l1,
    l1 = <[Z.to_nat idx := counted taken e0]> l ∧
    returns (restore_loop l1 bi) (λ l2, l2 = if loopHit (loop bi) =? 0 then l else l1)).
Proof.
  intros idx Hlog [Hl _] Hcond Hidx Hh E0 Ee Hiter. destruct (lindex_Ok log pc Hlog) as [_ Hr]. fold idx in Hr.
  rewrite (specLoopUpdate_way0 log l pc taken (loop bi) e0 Hlog ltac:(lia) E0). cbn [returns]. split; [done|].
  unfold restore_loop. rewrite Hcond. destruct (Z.leb_spec 0 (loopHit (loop bi))); [|lia]. cbn [andb]. rewrite Hidx.
  assert (LoopEntry.set_currentIterSpec (li_currentIter (loop bi)) e = e) as Ee' by (rewrite Hiter; by destruct e). fold idx.
  unfold vmod. destruct (Z.eqb_spec (loopHit (loop bi)) 0) as [Ez|].
  - rewrite Ez in *. rewrite Z.add_0_r in *. assert (e0 = e) as -> by congruence.
    rewrite (vget_in _ idx (counted taken e)); [|lia|apply vlookup_insert_eq; lia]. cbn [mbind res_bind].
    rewrite vset_in by (rewrite vlen_insert; lia). cbn [returns]. rewrite list_insert_insert_eq.
    replace (LoopEntry.set_currentIterSpec _ (counted taken e)) with e by (rewrite <- Ee' at 1; done).
    by apply list_insert_id.
  - rewrite (vget_in _ (idx + loopHit (loop bi)) e); [|lia|rewrite vlookup_insert_ne by lia; done]. cbn [mbind res_bind].
    rewrite vset_in by (rewrite vlen_insert; lia). cbn [returns]. rewrite Ee'. apply list_insert_id.
    by rewrite vlookup_insert_ne by lia.
Qed.

(** ** Witnesses, on the predictor with four banks *)

Lemma ltage4_create : create 0 (FoldedHistory.mk 0 0 0 0) geometric4 (λ _, 0) params4 = Ok ltage4.
Proof. vm_compute. reflexivity. Qed.

Lemma ltage4_wf : wf 1 ltage4 ∧ heap_tracks (histories ltage4) [].
Proof.
  pose proof (ltage_create_wf 0 (FoldedHistory.mk 0 0 0 0) geometric4 (λ _, 0) params4 params4_ok) as H.
  rewrite ltage4_create in H. exact H.
Qed.

Definition thread4 : ThreadHistory :=
  ltac:(let r := eval vm_compute in (vget (threadHistory ltage4) 0) in match r with Ok ?th => exact th end).

(** A new predictor answers not taken for the branch at 12, which matches nowhere. *)
Lemma ltage_prediction_witness :
  ltage_taken (cfg ltage4) (tabs ltage4) thread4 12 = false ∧
  returns (lookup ltage4 0 12) (λ r, r.1.1 = ltage_taken (cfg ltage4) (tabs ltage4) thread4 12).
Proof.
  split; [vm_compute; reflexivity|].
  apply (ltage_prediction 1 ltage4 [] 0 12 thread4); [apply ltage4_wf|apply ltage4_wf|lia|vm_compute; reflexivity].
Defined.

(** What the branch at [pc] records in a new predictor. *)
Definition info_at (pc : Z) : res BranchInfo :=
  '(_, p, s) ← lookup ltage4 0 pc; heap_deref (histories s) p.

Definition info12 : BranchInfo := ltac:(let r := eval vm_compute in (info_at 12) in match r with Ok ?b => exact b end).
Definition info0 : BranchInfo := ltac:(let r := eval vm_compute in (info_at 0) in match r with Ok ?b => exact b end).

Lemma info_at_ok pc bi : info_at pc = Ok bi → condBranch bi = true → tage_info_ok (cfg ltage4) (tage bi).
Proof.
  intros E Hcond. unfold info_at in E. apply bind_Ok in E as ([[b p] s] & El & E).
  destruct ltage4_wf as [Hw Ht]. pose proof (ltage_lookup_ok 1 ltage4 [] 0 pc Hw Ht ltac:(lia)) as Hl.
  pose proof El as El'. unfold lookup in El'. apply bind_Ok in El' as ([[b' p'] s'] & Ep & El').
  destruct (predict_frame _ _ _ _ _ _ _ Ep) as [_ Ec]. bind_inv El'. injection El' as <- <- <-.
  rewrite El in Hl. destruct Hl as [Hw' Ht']. cbn [fst snd] in *.
  destruct (heap_tracks_deref _ _ _ Ht') as (q & bi' & -> & Hq). cbn [heap_deref] in E. rewrite Hq in E. injection E as ->.
  pose proof (io_tage _ _ (wf_infos _ _ Hw' q bi Hq) Hcond) as Hti.
  assert (cfg a = cfg ltage4) as <-; [|done].
  rewrite <- Ec. unfold updateHistories in E0. apply bind_Ok in E0 as (? & _ & E0). apply bind_Ok in E0 as (? & _ & E0).
  apply bind_Ok in E0 as ([? ?] & _ & E0). apply bind_Ok in E0 as (? & _ & E0). apply bind_Ok in E0 as (? & _ & E0).
  by injection E0 as <-.
Qed.

(** After a misprediction of the branch at 12, which no bank matched, banks 1 and 2
    both have a new entry for it. *)
Lemma ltage_allocation_policy_witness :
  returns (allocate 4 (tage info12) true 0 (gtable (tabs ltage4))) (λ g',
    gget g' 1 (selected (tage info12) 1) = Ok (new_entry (tage info12) true 1) ∧
    gget g' 2 (selected (tage info12) 2) = Ok (new_entry (tage info12) true 2)).
Proof.
  pose proof (ltage_allocation_policy (cfg ltage4) (tage info12) true 0 (gtable (tabs ltage4))) as Hp.
  destruct ltage4_wf as [Hw _].
  specialize (Hp (wf_cfg _ _ Hw) (info_at_ok 12 info12 ltac:(vm_compute; reflexivity) eq_refl) ltac:(vm_compute; reflexivity)
    (t_tagged _ _ (wf_tabs _ _ Hw))).
  assert (returns (alloc_bank 4 0 0) (λ X, X = 1)) as _ by (vm_compute; reflexivity).
  apply returns_iff in Hp as (g' & Eg & _). apply returns_iff. exists g'. split; [exact Eg|].
  assert (match allocate 4 (tage info12) true 0 (gtable (tabs ltage4)) with
          | Ok g => gget g 1 (selected (tage info12) 1) = Ok (new_entry (tage info12) true 1) ∧
                    gget g 2 (selected (tage info12) 2) = Ok (new_entry (tage info12) true 2)
          | Err _ => False end) as Hc by (vm_compute; split; reflexivity).
  change (nHistoryTables (cfg ltage4)) with 4 in Eg. rewrite Eg in Hc. exact Hc.
Defined.

(** The branch at 0 matches the fresh entries of all banks, bank 4 first. *)
Lemma ltage_training_witness :
  hitBank (tage info0) = 4 ∧
  returns (train_tagged (cfg ltage4) (tage info0) true (tabs ltage4)) (λ x',
    gget (gtable x') 4 (hitBankIndex (tage info0)) = Ok (TageEntry.mk 1 0 0)).
Proof.
  split; [reflexivity|]. destruct ltage4_wf as [Hw _].
  pose proof (ltage_training (cfg ltage4) (tage info0) true (tabs ltage4) TageEntry.fresh (wf_cfg _ _ Hw)
    (info_at_ok 0 info0 ltac:(vm_compute; reflexivity) eq_refl) ltac:(vm_compute; reflexivity) (wf_tabs _ _ Hw)
    ltac:(vm_compute; reflexivity)) as Ht.
  eapply returns_mono; [exact Ht|]. intros x' Hx'. exact (tb_provider _ _ _ _ _ _ _ Hx').
Defined.

(** The history of a new predictor is empty; after the squash it holds the branch at 12. *)
Lemma ltage_squash_keeps_outcome_witness :
  (lookup ltage4 0 12 ≫= λ r, Ok r.1.1) = Ok false ∧
  returns (lookup ltage4 0 12) (λ r,
    returns (squash r.2 0 r.1.2) (λ s', ∃ th', vget (threadHistory s') 0 = Ok th' ∧
      history_ok 4 80 32 (at_ (histLengths (cfg ltage4))) (at_ (tagTableSizes (cfg ltage4)))
        (at_ (tagWidths (cfg ltage4))) (λ j, at_ (tagWidths (cfg ltage4)) j - 1) th' [r.1.1])).
Proof.
  split; [vm_compute; reflexivity|]. destruct ltage4_wf as [Hw Ht].
  apply (ltage_squash_keeps_outcome 1 ltage4 [] 0 12 thread4 [] Hw Ht ltac:(lia) ltac:(vm_compute; reflexivity)).
  pose proof (create_history_ok 4 80 32 _ _ _ _ (c_geometry _ (wf_cfg _ _ Hw)) (FoldedHistory.mk 0 0 0 0)
    (histLengths (cfg ltage4)) (tagTableSizes (cfg ltage4)) (tagWidths (cfg ltage4))) as Hc.
  assert (create_history (FoldedHistory.mk 0 0 0 0) 4 80 (histLengths (cfg ltage4)) (tagTableSizes (cfg ltage4))
    (tagWidths (cfg ltage4)) = Ok thread4) as E by (vm_compute; reflexivity).
  rewrite E in Hc. apply Hc. intros j Hj. assert (j = 1 ∨ j = 2 ∨ j = 3 ∨ j = 4) as Hjs by lia.
  destruct_or! Hjs; subst j; vm_compute; auto.
Defined.

(** Twelve tables, the largest of 2048 entries, and a short history buffer. *)
Lemma ltage_default_undefined_shift_witness :
  ∃ s, create 0 (FoldedHistory.mk 0 0 0 0) (λ _, 32) (λ _, 0) (mkParams 1 4 11 4 12 3 80 4 32 7) = Ok s ∧
    lookup s 0 64 = Err BadShift ∧ ∀ r, lookup s 0 64 ≠ Ok r.
Proof.
  pose (p := mkParams 1 4 11 4 12 3 80 4 32 7).
  assert (match create 0 (FoldedHistory.mk 0 0 0 0) (λ _, 32) (λ _, 0) p with Ok s => lookup s 0 64 | Err e => Err AssertFail end
          = Err BadShift) as E by (vm_compute; reflexivity).
  destruct (create 0 (FoldedHistory.mk 0 0 0 0) (λ _, 32) (λ _, 0) p) as [s|] eqn:Ec; [|discriminate E].
  exists s. split; [exact Ec|]. split; [exact E|].
  exact (ltage_default_undefined_shift 0 (FoldedHistory.mk 0 0 0 0) (λ _, 32) (λ _, 0) p s 0 64 (conj eq_refl eq_refl) Ec).
Defined.

(** The branch at 1 hits the second way of the second set. *)
Definition info_way1 : BranchInfo :=
  mkBI 0 0 (tage (new_info 0 0)) (mkLI 0 0 false false 4 1) true 1 [] [] [].

Lemma loop_speculation_witness :
  returns (specLoopUpdate 3 (replicate 8 LoopEntry.fresh) 1 false (loop info_way1)) (λ l1,
    l1 !! 4%nat = Some (LoopEntry.mk 0 0 1 0 0 0 false) ∧ returns (restore_loop l1 info_way1) (λ l2, l2 = l1)).
Proof.
  eapply returns_mono; [apply (loop_speculation 3 (replicate 8 LoopEntry.fresh) 1 false info_way1 LoopEntry.fresh LoopEntry.fresh);
    [lia| |reflexivity|reflexivity|cbn; lia|reflexivity|reflexivity|reflexivity]|].
  - split; [reflexivity|]. apply Forall_replicate, LoopEntry.fresh_ok.
  - intros l1 [-> Hr]. split; [reflexivity|exact Hr].
Defined.

End LTAGESpec.
