(* ===== verification/Weights.v ===== *)
(** * The weighted vote of the ensemble predictors

    [EnsembleBP] and [EnsembleBP2] combine three experts (the gshare and the
    global predictor, and the local predictor in one class, the tournament in
    the other) by a vote weighted with saturating counters.  The vote of
    [lookup] and the weight update of [update] are the same in the two classes
    up to the constants [MAX_WEIGHT_SUM] and [WEIGHT_COUNTER_SIZE] and the name
    of the third expert. *)

From S2P Require Import Prelude SatCounter.

Module Weights.

Record t := mk {
  gshareWeight : SatCounter.t;
  globalWeight : SatCounter.t;
  thirdWeight : SatCounter.t;    (** [localWeight] or [tournamentWeight] *)
}.

(** One value per expert. *)
Record votes := mkVotes { gshareV : bool; globalV : bool; thirdV : bool }.

(** ** The vote ([lookup]) *)
Definition accumulate (accumulation : Z) (prediction : bool) (w : SatCounter.t) : Z :=
  if prediction then accumulation + SatCounter.read w else accumulation - SatCounter.read w.

Definition accumulation (v : votes) (ws : t) : Z :=
  let acc := accumulate 0 (globalV v) (globalWeight ws) in
  let acc := accumulate acc (thirdV v) (thirdWeight ws) in
  accumulate acc (gshareV v) (gshareWeight ws).

Definition finalPrediction (v : votes) (ws : t) : bool := 0 <=? accumulation v ws.

(** ** The weight update ([update]) *)

(** [finalPrediction == xxxPredTaken], per expert. *)
Definition contributed (fin : bool) (v : votes) : votes :=
  mkVotes (eqb fin (gshareV v)) (eqb fin (globalV v)) (eqb fin (thirdV v)).

Definition contributorCount (c : votes) : Z := b2z (globalV c) + b2z (thirdV c) + b2z (gshareV c).

Definition learningRate (n : Z) : Z := if n =? 1 then 2 else if n =? 2 then 1 else 0.
Definition adjustmentRate (n : Z) : Z := if n =? 1 then 1 else if n =? 2 then 2 else 0.

(** [for (int i = 0; i < rate; i++) w.op()] *)
Definition times (rate : Z) (op : SatCounter.t → SatCounter.t) (w : SatCounter.t) : SatCounter.t :=
  Nat.iter (Z.to_nat rate) op w.

Definition learn (rate : Z) (contributed correct : bool) (w : SatCounter.t) : SatCounter.t :=
  if contributed then
    if correct then times rate SatCounter.increment w else times rate SatCounter.decrement w
  else w.

Definition adjust (rate : Z) (contributed correct : bool) (w : SatCounter.t) : SatCounter.t :=
  if negb contributed then
    if correct then times rate SatCounter.decrement w else times rate SatCounter.increment w
  else w.

Definition weightSum (ws : t) : Z :=
  SatCounter.read (gshareWeight ws) + SatCounter.read (globalWeight ws) +
  SatCounter.read (thirdWeight ws).

Definition update (MAX_WEIGHT_SUM : Z) (fin taken : bool) (v : votes) (ws : t) : t :=
  let c := contributed fin v in
  let n := contributorCount c in
  let correct := eqb fin taken in
  let ws := mk (learn (learningRate n) (gshareV c) correct (gshareWeight ws))
               (learn (learningRate n) (globalV c) correct (globalWeight ws))
               (learn (learningRate n) (thirdV c) correct (thirdWeight ws)) in
  if MAX_WEIGHT_SUM <? weightSum ws then
    mk (adjust (adjustmentRate n) (gshareV c) correct (gshareWeight ws))
       (adjust (adjustmentRate n) (globalV c) correct (globalWeight ws))
       (adjust (adjustmentRate n) (thirdV c) correct (thirdWeight ws))
  else ws.

(** ** Statistics ([updateAdditionalStats]) *)
Record stats := mkStats {
  lowWeightExpertsWon : Z;
  allExpertsWrong : Z;
  allExpertsRight : Z;
  atLeastOneCorrectExpertOnMispredict : Z;
  oneCorrectExpert : Z;
  twoCorrectExpert : Z;
  threeCorrectExpert : Z;
}.

Definition stats0 : stats := mkStats 0 0 0 0 0 0 0.

(** The expert with the highest weight was outvoted by the two others. *)
Definition outvoted (c : votes) (ws : t) : bool :=
  let gs := SatCounter.read (gshareWeight ws) in
  let gl := SatCounter.read (globalWeight ws) in
  let th := SatCounter.read (thirdWeight ws) in
  (negb (gshareV c) && globalV c && thirdV c && (gl <? gs) && (th <? gs)) ||
  (gshareV c && negb (globalV c) && thirdV c && (gs <? gl) && (th <? gl)) ||
  (gshareV c && globalV c && negb (thirdV c) && (gs <? th) && (gl <? th)).

(** [v] are the votes whose correct ones are counted, [e] the votes compared
    for unanimity: [EnsembleBP2] uses the tournament in the first place and the
    local predictor in the second. *)
Definition updateStats (taken fin : bool) (v e c : votes) (ws : t) (st : stats) : stats :=
  let numCorrect := b2z (eqb (thirdV v) taken) + b2z (eqb (globalV v) taken) + b2z (eqb (gshareV v) taken) in
  let mispredict := negb (eqb taken fin) in
  let unanimous := eqb (thirdV e) (globalV e) && eqb (globalV e) (gshareV e) in
  let oneRight := eqb (thirdV e) taken || eqb (globalV e) taken || eqb (gshareV e) taken in
  mkStats (lowWeightExpertsWon st + b2z (outvoted c ws))
    (allExpertsWrong st + b2z (unanimous && mispredict))
    (allExpertsRight st + b2z (unanimous && negb mispredict))
    (atLeastOneCorrectExpertOnMispredict st + b2z (mispredict && oneRight))
    (oneCorrectExpert st + b2z (mispredict && (numCorrect =? 1)))
    (twoCorrectExpert st + b2z (mispredict && (numCorrect =? 2)))
    (threeCorrectExpert st + b2z (mispredict && (numCorrect =? 3))).

(** ** Invariant *)
Definition ok (mx : Z) (ws : t) : Prop :=
  SatCounter.ok mx (gshareWeight ws) ∧ SatCounter.ok mx (globalWeight ws) ∧
  SatCounter.ok mx (thirdWeight ws).

Lemma times_ok mx rate op w :
  (∀ c, SatCounter.ok mx c → SatCounter.ok mx (op c)) → SatCounter.ok mx w →
  SatCounter.ok mx (times rate op w).
Proof. intros Hop Hw. unfold times. induction (Z.to_nat rate); cbn; auto. Qed.

Lemma learn_ok mx rate c correct w : SatCounter.ok mx w → SatCounter.ok mx (learn rate c correct w).
Proof. intros. destruct c, correct; cbn; auto using times_ok with bp. Qed.

Lemma adjust_ok mx rate c correct w : SatCounter.ok mx w → SatCounter.ok mx (adjust rate c correct w).
Proof. intros. destruct c, correct; cbn; auto using times_ok with bp. Qed.

Lemma weights_update_ok mx MAX fin taken v ws : ok mx ws → ok mx (update MAX fin taken v ws).
Proof.
  intros (H1 & H2 & H3). unfold update. destruct (_ <? _); split_and!; cbn; auto using learn_ok, adjust_ok.
Qed.

(** ** The direction in which a weight moves *)
Lemma times_mono mx rate w :
  SatCounter.ok mx w →
  SatCounter.read w ≤ SatCounter.read (times rate SatCounter.increment w) ∧
  SatCounter.read (times rate SatCounter.decrement w) ≤ SatCounter.read w.
Proof.
  intros H. unfold times. rewrite (SatCounter.iter_increment mx), (SatCounter.iter_decrement mx) by done.
  destruct H as (? & ? & ? & ?). unfold SatCounter.read. cbn. lia.
Qed.

(** [right]: the expert voted for the actual outcome. *)
Definition moves (right : bool) (w w' : SatCounter.t) : Prop :=
  if right then SatCounter.read w ≤ SatCounter.read w' else SatCounter.read w' ≤ SatCounter.read w.

Lemma learn_moves mx rate (fin taken vote : bool) w :
  SatCounter.ok mx w → moves (eqb vote taken) w (learn rate (eqb fin vote) (eqb fin taken) w).
Proof.
  intros H. pose proof (times_mono mx rate w H) as [? ?]. unfold moves, learn.
  destruct fin, taken, vote; cbn; lia.
Qed.

Lemma adjust_moves mx rate (fin taken vote : bool) w :
  SatCounter.ok mx w → moves (eqb vote taken) w (adjust rate (eqb fin vote) (eqb fin taken) w).
Proof.
  intros H. pose proof (times_mono mx rate w H) as [? ?]. unfold moves, adjust.
  destruct fin, taken, vote; cbn; lia.
Qed.

Lemma moves_trans r a b c : moves r a b → moves r b c → moves r a c.
Proof. unfold moves. destruct r; lia. Qed.

Lemma update_moves mx MAX fin taken v ws :
  ok mx ws →
  let ws' := update MAX fin taken v ws in
  moves (eqb (gshareV v) taken) (gshareWeight ws) (gshareWeight ws') ∧
  moves (eqb (globalV v) taken) (globalWeight ws) (globalWeight ws') ∧
  moves (eqb (thirdV v) taken) (thirdWeight ws) (thirdWeight ws').
Proof.
  intros (H1 & H2 & H3). unfold update. cbn [contributed gshareV globalV thirdV].
  destruct (_ <? _); split_and!; cbn;
    try (eapply moves_trans; [by eapply (learn_moves mx)|by eapply (adjust_moves mx), learn_ok]);
    by eapply (learn_moves mx).
Qed.

Lemma update_unanimous MAX fin taken v ws :
  gshareV v = globalV v → globalV v = thirdV v → update MAX fin taken v ws = ws.
Proof.
  destruct v as [b1 b2 b3], ws. cbn. intros -> ->. unfold update.
  destruct (_ <? _), fin, taken, b3; done.
Qed.

(** ** The vote as a weighted majority *)
Definition weight_for (b : bool) (v : votes) (ws : t) : Z :=
  (if eqb (gshareV v) b then SatCounter.read (gshareWeight ws) else 0) +
  (if eqb (globalV v) b then SatCounter.read (globalWeight ws) else 0) +
  (if eqb (thirdV v) b then SatCounter.read (thirdWeight ws) else 0).

Lemma finalPrediction_majority v ws :
  finalPrediction v ws = (weight_for false v ws <=? weight_for true v ws).
Proof.
  unfold finalPrediction, weight_for, accumulation, accumulate.
  apply eq_true_iff_eq. rewrite !Z.leb_le. destruct v as [[] [] []]; cbn; lia.
Qed.

(** Nobody voted with the verdict: all voted not taken and no weight is left. *)
Lemma no_contributor mx v ws :
  ok mx ws →
  contributorCount (contributed (finalPrediction v ws) v) = 0 ↔
  v = mkVotes false false false ∧ weightSum ws = 0.
Proof.
  intros (H1 & H2 & H3). unfold SatCounter.ok in *. unfold weightSum, SatCounter.read.
  unfold finalPrediction, accumulation, accumulate, SatCounter.read.
  destruct v as [[] [] []]; cbn [gshareV globalV thirdV gshareWeight globalWeight thirdWeight];
    match goal with |- context [0 <=? ?a] => destruct (Z.leb_spec 0 a) end;
    cbn [contributed contributorCount gshareV globalV thirdV eqb b2z];
    (split; [intros Hc|intros [Hv Hs]]);
    (discriminate || (exfalso; lia) || (split; [reflexivity|lia]) || reflexivity).
Qed.

End Weights.
