(* ===== verification/Ensemble.v ===== *)
(** * The ensemble predictor ([cpu/pred/ensemble.hh], [ensemble.cc])

    A local, a global and a gshare expert and a weighted vote among them. *)

From S2P Require Import Prelude IntMath SatCounter Predictor HistRegs Tournament Weights.

Module EnsembleBP.

Definition MAX_WEIGHT_SUM : Z := 12.
Definition WEIGHT_COUNTER_SIZE : Z := 4.

Record BPHistory := mkHist {
  globalHistory : Z;
  localHistoryIdx : Z;
  localHistory : Z;
  localPredTaken : bool;
  globalPredTaken : bool;
  gsharePredTaken : bool;
  globalUsed : option bool;     (** [None]: never written *)
  finalPrediction : bool;
}.

Definition votes_of (h : BPHistory) : Weights.votes :=
  Weights.mkVotes (gsharePredTaken h) (globalPredTaken h) (localPredTaken h).

Record Params := mkParams {
  p_numThreads : Z;
  p_instShiftAmt : Z;
  p_localPredictorSize : Z;
  p_localCtrBits : Z;
  p_localHistoryTableSize : Z;
  p_globalPredictorSize : Z;
  p_globalCtrBits : Z;
  p_gsharePredictorSize : Z;
  p_gshareCtrBits : Z;
}.

Record Cfg := mkCfg {
  localPredictorSize : Z;
  localCtrBits : Z;
  localHistoryBits : Z;
  globalPredictorSize : Z;
  globalCtrBits : Z;
  globalHistoryBits : Z;
  globalHistoryMask : Z;
  gsharePredictorSize : Z;
  gshareCtrBits : Z;
  localThreshold : Z;
  globalThreshold : Z;
  gshareThreshold : Z;
}.

Record t := mk {
  cfg : Cfg;
  regs : HistRegs.t;
  localCtrs : list SatCounter.t;
  globalCtrs : list SatCounter.t;
  gshareCtrs : list SatCounter.t;
  weights : Weights.t;          (** the third weight is [localWeight] *)
  histories : heap BPHistory;
  stats : Weights.stats;
}.

Definition with_regs (r : HistRegs.t) (s : t) : t :=
  mk (cfg s) r (localCtrs s) (globalCtrs s) (gshareCtrs s) (weights s) (histories s) (stats s).
Definition with_ctrs (l g gs : list SatCounter.t) (s : t) : t :=
  mk (cfg s) (regs s) l g gs (weights s) (histories s) (stats s).
Definition with_weights (w : Weights.t) (s : t) : t :=
  mk (cfg s) (regs s) (localCtrs s) (globalCtrs s) (gshareCtrs s) w (histories s) (stats s).
Definition with_histories (h : heap BPHistory) (s : t) : t :=
  mk (cfg s) (regs s) (localCtrs s) (globalCtrs s) (gshareCtrs s) (weights s) h (stats s).
Definition with_stats (st : Weights.stats) (s : t) : t :=
  mk (cfg s) (regs s) (localCtrs s) (globalCtrs s) (gshareCtrs s) (weights s) (histories s) st.

(** A weight is sized once per entry of its expert's table. *)
Definition create_weight (indet n : Z) : res SatCounter.t :=
  if 0 <? n then SatCounter.setBits WEIGHT_COUNTER_SIZE (SatCounter.default indet)
  else Ok (SatCounter.default indet).

Definition create (indet : Z) (p : Params) : res t :=
  localHistoryBits ← ceilLog2 (p_localPredictorSize p);
  globalHistoryBits ← ceilLog2 (p_globalPredictorSize p);
  _ ← guard_ (isPowerOf2 (p_localPredictorSize p)) (Fatal "Invalid local predictor size!");
  _ ← guard_ (isPowerOf2 (p_globalPredictorSize p)) (Fatal "Invalid global predictor size!");
  _ ← guard_ (isPowerOf2 (p_gsharePredictorSize p)) (Fatal "Invalid global predictor size!");
  localCtrs ← SatCounter.table indet (p_localPredictorSize p) (p_localCtrBits p);
  localWeight ← create_weight indet (p_localPredictorSize p);
  lmask ← mask localHistoryBits;
  _ ← guard_ (isPowerOf2 (p_localHistoryTableSize p)) (Fatal "Invalid local history table size!");
  globalCtrs ← SatCounter.table indet (p_globalPredictorSize p) (p_globalCtrBits p);
  globalWeight ← create_weight indet (p_globalPredictorSize p);
  gshareCtrs ← SatCounter.table indet (p_gsharePredictorSize p) (p_gshareCtrBits p);
  gshareWeight ← create_weight indet (p_gsharePredictorSize p);
  let globalHistoryMask := u32 (p_globalPredictorSize p - 1) in
  hmask ← mask globalHistoryBits;
  let historyRegisterMask := u32 hmask in
  _ ← guard_ (negb (historyRegisterMask <? globalHistoryMask))
        (Fatal "Global predictor too large for global history bits!");
  localThreshold ← counterThreshold (p_localCtrBits p);
  globalThreshold ← counterThreshold (p_globalCtrBits p);
  gshareThreshold ← counterThreshold (p_gshareCtrBits p);
  Ok (mk (mkCfg (p_localPredictorSize p) (p_localCtrBits p) localHistoryBits
            (p_globalPredictorSize p) (p_globalCtrBits p) globalHistoryBits globalHistoryMask
            (p_gsharePredictorSize p) (p_gshareCtrBits p)
            localThreshold globalThreshold gshareThreshold)
         (HistRegs.create (p_instShiftAmt p) (p_localHistoryTableSize p) (u32 lmask)
            historyRegisterMask (p_numThreads p))
         localCtrs globalCtrs gshareCtrs (Weights.mk gshareWeight globalWeight localWeight)
         heap_empty Weights.stats0).

Definition btbUpdate (s : t) (tid branch_addr : Z) (bp_history : ptr) : res t :=
  r ← HistRegs.btbUpdate (regs s) tid branch_addr; Ok (with_regs r s).

(** [((branch_addr >> instShiftAmt) ^ globalHistory[tid]) & globalHistoryMask] *)
Definition gshareIdx (s : t) (branch_addr g : Z) : res Z :=
  a ← shr64 branch_addr (HistRegs.instShiftAmt (regs s));
  Ok (u32 (Z.land (Z.lxor a g) (globalHistoryMask (cfg s)))).

(** The histories are read, not written. *)
Definition lookup (s : t) (tid branch_addr : Z) : res (bool * ptr * t) :=
  let c := cfg s in
  local_history_idx ← HistRegs.calcLocHistIdx (regs s) branch_addr;
  lh ← vget (HistRegs.localHistoryTable (regs s)) local_history_idx;
  let local_predictor_idx := Z.land lh (HistRegs.localPredictorMask (regs s)) in
  local_prediction ← predicts (localCtrs s) local_predictor_idx (localThreshold c);
  g ← vget (HistRegs.globalHistory (regs s)) tid;
  global_prediction ← predicts (globalCtrs s) (Z.land g (globalHistoryMask c)) (globalThreshold c);
  gshare_predictor_idx ← gshareIdx s branch_addr g;
  gshare_prediction ← predicts (gshareCtrs s) gshare_predictor_idx (gshareThreshold c);
  _ ← assert_ (gshare_predictor_idx <? globalPredictorSize c);
  _ ← assert_ (local_history_idx <? HistRegs.localHistoryTableSize (regs s));
  let final := Weights.finalPrediction
    (Weights.mkVotes gshare_prediction global_prediction local_prediction) (weights s) in
  let '(bp_history, hs) :=
    heap_new (histories s)
      (mkHist g local_history_idx local_predictor_idx local_prediction global_prediction
         gshare_prediction None final) in
  Ok (final, bp_history, with_histories hs s).

Definition uncondBranch (s : t) (tid pc : Z) : res (ptr * t) :=
  g ← vget (HistRegs.globalHistory (regs s)) tid;
  let '(bp_history, hs) :=
    heap_new (histories s)
      (mkHist g invalidPredictorIndex invalidPredictorIndex true true true (Some true) true) in
  r ← HistRegs.updateGlobalHistTaken (regs s) tid;
  Ok (bp_history, with_histories hs (with_regs r s)).

Definition updateAdditionalStats (s : t) (taken : bool) (history : BPHistory)
    (c : Weights.votes) : t :=
  with_stats (Weights.updateStats taken (finalPrediction history) (votes_of history)
                (votes_of history) c (weights s) (stats s)) s.

(** The weights after a committed branch. *)
Definition update_weights (s : t) (taken : bool) (history : BPHistory) : t :=
  with_weights (Weights.update MAX_WEIGHT_SUM (finalPrediction history) taken (votes_of history)
                  (weights s)) s.

Definition update (s : t) (tid branch_addr : Z) (taken : bool) (bp_history : ptr)
    (squashed : bool) : res t :=
  _ ← assert_ (bool_decide (bp_history ≠ None));
  history ← heap_deref (histories s) bp_history;
  local_history_idx ← HistRegs.calcLocHistIdx (regs s) branch_addr;
  _ ← assert_ (local_history_idx <? HistRegs.localHistoryTableSize (regs s));
  let old_local_pred_valid := negb (localHistory history =? invalidPredictorIndex) in
  if squashed then
    r ← HistRegs.correct (regs s) tid local_history_idx old_local_pred_valid
          (globalHistory history) (localHistory history) taken;
    Ok (with_regs r s)
  else
    let old_local_pred_index := Z.land (localHistory history) (HistRegs.localPredictorMask (regs s)) in
    _ ← assert_ (old_local_pred_index <? localPredictorSize (cfg s));
    let global_predictor_idx := Z.land (globalHistory history) (globalHistoryMask (cfg s)) in
    g ← vget (HistRegs.globalHistory (regs s)) tid;
    gshare_predictor_idx ← gshareIdx s branch_addr g;
    let s := updateAdditionalStats s taken history
               (Weights.contributed (finalPrediction history) (votes_of history)) in
    let s := update_weights s taken history in
    global ← vmod (SatCounter.train taken) (globalCtrs s) global_predictor_idx;
    gshare ← vmod (SatCounter.train taken) (gshareCtrs s) gshare_predictor_idx;
    local ← (if old_local_pred_valid
             then vmod (SatCounter.train taken) (localCtrs s) old_local_pred_index
             else Ok (localCtrs s));
    hs ← heap_delete (histories s) bp_history;
    Ok (with_histories hs (with_ctrs local global gshare s)).

Definition squash (s : t) (tid : Z) (bp_history : ptr) : res t :=
  history ← heap_deref (histories s) bp_history;
  r ← HistRegs.restore (regs s) tid (globalHistory history) (localHistoryIdx history)
        (localHistory history);
  hs ← heap_delete (histories s) bp_history;
  Ok (with_histories hs (with_regs r s)).

Definition getGHR (s : t) (tid : Z) (bp_history : ptr) : res Z :=
  history ← heap_deref (histories s) bp_history; Ok (globalHistory history).

#[global] Instance ensemble_predictor : DirPredictor t := {|
  dp_uncondBranch := uncondBranch;
  dp_lookup := lookup;
  dp_btbUpdate := btbUpdate;
  dp_update := update;
  dp_squash := squash;
  dp_getGHR := getGHR;
|}.

(** ** Invariant *)
Definition hist_ok (r : HistRegs.t) (h : BPHistory) : Prop :=
  HistRegs.snap_ok r (globalHistory h) (localHistoryIdx h) (localHistory h).

Definition max_weight : Z := SatCounter.maxOf WEIGHT_COUNTER_SIZE.

(** The gshare table is indexed under the global mask, so it must be at least
    as large as the global table. *)
Record wf (nt : Z) (s : t) : Prop := {
  wf_regs : HistRegs.wf nt (regs s);
  wf_local : SatCounter.table_ok (localPredictorSize (cfg s))
               (SatCounter.maxOf (localCtrBits (cfg s))) (localCtrs s);
  wf_lsize : HistRegs.localPredictorMask (regs s) = localPredictorSize (cfg s) - 1;
  wf_globalc : SatCounter.table_ok (globalPredictorSize (cfg s))
               (SatCounter.maxOf (globalCtrBits (cfg s))) (globalCtrs s);
  wf_gsize : is_pow2 (globalPredictorSize (cfg s)) ∧ globalPredictorSize (cfg s) < 2 ^ 32 ∧
             globalHistoryMask (cfg s) = globalPredictorSize (cfg s) - 1;
  wf_gsharec : SatCounter.table_ok (gsharePredictorSize (cfg s))
               (SatCounter.maxOf (gshareCtrBits (cfg s))) (gshareCtrs s);
  wf_gshsize : globalPredictorSize (cfg s) ≤ gsharePredictorSize (cfg s);
  wf_weights : Weights.ok max_weight (weights s);
  wf_hist : heap_all (hist_ok (regs s)) (histories s);
}.

Lemma ens_wf_with_regs nt s r : wf nt s → HistRegs.keeps nt (regs s) r → wf nt (with_regs r s).
Proof.
  intros [] [Hw Hc]. pose proof Hc as (_ & _ & Em & _). split; cbn; try done.
  - by rewrite Em.
  - eapply map_Forall_impl; [done|]. intros a h. by apply HistRegs.snap_ok_cfg.
Qed.

Lemma ens_wf_with_histories nt s hs :
  wf nt s → heap_all (hist_ok (regs s)) hs → wf nt (with_histories hs s).
Proof. intros [] ?. by split. Qed.

(** The gshare index of a branch under history [g]. *)
Definition gshare_slot (s : t) (pc g : Z) : Z :=
  Z.land (Z.lxor (Z.shiftr pc (HistRegs.instShiftAmt (regs s))) g) (globalHistoryMask (cfg s)).

Section wf.
Context (nt : Z) (s : t) (H : wf nt s).

Lemma ens_local_idx x : 0 ≤ Z.land x (HistRegs.localPredictorMask (regs s)) < localPredictorSize (cfg s).
Proof.
  pose proof (HistRegs.mask_range nt _ (wf_regs _ _ H)) as [? _].
  pose proof (land_bound x (HistRegs.localPredictorMask (regs s))). rewrite (wf_lsize _ _ H) in *. lia.
Qed.

Lemma ens_global_idx x : 0 ≤ Z.land x (globalHistoryMask (cfg s)) < globalPredictorSize (cfg s).
Proof. destruct (wf_gsize _ _ H) as (Hp & _ & ->). by apply land_size_bound, is_pow2_pos. Qed.

Lemma gshare_idx pc g :
  0 ≤ gshare_slot s pc g < globalPredictorSize (cfg s) ∧ gshareIdx s pc g = Ok (gshare_slot s pc g).
Proof.
  pose proof (ens_global_idx (Z.lxor (Z.shiftr pc (HistRegs.instShiftAmt (regs s))) g)) as Hi.
  split; [done|]. unfold gshareIdx. rewrite shr64_in by apply (wf_regs _ _ H). cbn [mbind res_bind].
  destruct (wf_gsize _ _ H) as (_ & ? & _). rewrite u32_id; [done|]. unfold is_u32. lia.
Qed.

Lemma ens_lookup_Ok tid pc g x :
  0 ≤ tid < nt →
  HistRegs.globalHistory (regs s) !! Z.to_nat tid = Some g →
  HistRegs.localHistoryTable (regs s) !! Z.to_nat (HistRegs.slot (regs s) pc) = Some x →
  ∃ v : Weights.votes,
    let lidx := Z.land x (HistRegs.localPredictorMask (regs s)) in
    let final := Weights.finalPrediction v (weights s) in
    predicts (localCtrs s) lidx (localThreshold (cfg s)) = Ok (Weights.thirdV v) ∧
    predicts (globalCtrs s) (Z.land g (globalHistoryMask (cfg s))) (globalThreshold (cfg s))
      = Ok (Weights.globalV v) ∧
    predicts (gshareCtrs s) (gshare_slot s pc g) (gshareThreshold (cfg s)) = Ok (Weights.gshareV v) ∧
    lookup s tid pc =
      (let '(p, hs) := heap_new (histories s)
         (mkHist g (HistRegs.slot (regs s) pc) lidx (Weights.thirdV v) (Weights.globalV v)
            (Weights.gshareV v) None final) in
       Ok (final, p, with_histories hs s)).
Proof.
  intros Ht Hg Hx. pose proof (wf_regs _ _ H) as Hr. pose proof (HistRegs.slot_range nt _ Hr pc) as Hi.
  destruct (gshare_idx pc g) as [Hgi Egi]. pose proof (wf_gshsize _ _ H).
  assert (returns (predicts (localCtrs s) (Z.land x (HistRegs.localPredictorMask (regs s)))
    (localThreshold (cfg s))) (λ _, True)) as Hl by (eapply returns_predicts; [apply H|apply ens_local_idx|done]).
  assert (returns (predicts (globalCtrs s) (Z.land g (globalHistoryMask (cfg s)))
    (globalThreshold (cfg s))) (λ _, True)) as Hgl by (eapply returns_predicts; [apply H|apply ens_global_idx|done]).
  assert (returns (predicts (gshareCtrs s) (gshare_slot s pc g)
    (gshareThreshold (cfg s))) (λ _, True)) as Hch by (eapply returns_predicts; [apply H|lia|done]).
  apply returns_iff in Hl as (l & El & _), Hgl as (gl & Egl & _), Hch as (gs & Egs & _).
  exists (Weights.mkVotes gs gl l). cbn. split_and!; [done..|]. unfold lookup.
  rewrite (HistRegs.calcLocHistIdx_Ok nt) by done. cbn [mbind res_bind].
  rewrite (vget_in _ (HistRegs.slot (regs s) pc) x) by (lia || done). cbn [mbind res_bind].
  rewrite El. cbn [mbind res_bind].
  rewrite (vget_in _ tid g) by (lia || done). cbn [mbind res_bind]. rewrite Egl. cbn [mbind res_bind].
  rewrite Egi. cbn [mbind res_bind]. rewrite Egs. cbn [mbind res_bind]. unfold assert_.
  destruct (Z.ltb_spec (gshare_slot s pc g) (globalPredictorSize (cfg s))); [|lia]. cbn [mbind res_bind].
  by destruct (Z.ltb_spec (HistRegs.slot (regs s) pc) (HistRegs.localHistoryTableSize (regs s))); [|lia].
Qed.

Lemma ens_lookup_ok l tid pc :
  0 ≤ tid < nt → heap_tracks (histories s) l →
  returns (lookup s tid pc) (λ r, wf nt r.2 ∧ heap_tracks (histories r.2) (r.1.2 :: l)).
Proof.
  intros Ht Htr. pose proof (wf_regs _ _ H) as Hr.
  destruct (HistRegs.global_exists nt _ Hr tid Ht) as (g & Hg & Hgr).
  destruct (HistRegs.local_exists nt _ Hr _ (HistRegs.slot_range nt _ Hr pc)) as [x Hx].
  destruct (ens_lookup_Ok tid pc g x Ht Hg Hx) as (v & _ & _ & _ & ->). cbn [heap_new returns fst snd].
  split; [|by apply (heap_tracks_new (histories s))].
  apply ens_wf_with_histories; [done|]. apply (heap_all_new (hist_ok _) (histories s)); [apply H|].
  by apply (HistRegs.snapshot_ok nt _ tid pc g x).
Qed.

Lemma ens_uncondBranch_ok l tid pc :
  0 ≤ tid < nt → heap_tracks (histories s) l →
  returns (uncondBranch s tid pc) (λ r, wf nt r.2 ∧ heap_tracks (histories r.2) (r.1 :: l)).
Proof.
  intros Ht Htr. pose proof (wf_regs _ _ H) as Hr. unfold uncondBranch.
  destruct (HistRegs.global_exists nt _ Hr tid Ht) as (g & Hg & Hgr).
  rewrite (vget_in _ tid g) by (lia || done). cbn [mbind res_bind heap_new]. apply returns_bind.
  eapply returns_mono; [apply (HistRegs.globalHist_keeps nt (regs s) tid Hr Ht true)|].
  intros r Hk. cbn [returns fst snd]. split; [|by apply (heap_tracks_new (histories s))].
  apply ens_wf_with_histories; [by apply ens_wf_with_regs|]. cbn.
  apply (heap_all_new (hist_ok _) (histories s)); [apply (ens_wf_with_regs nt s _ H Hk)|].
  apply (HistRegs.snap_ok_cfg (regs s)); [apply Hk|]. split; [done|by left].
Qed.

Lemma ens_btbUpdate_ok p l tid pc :
  0 ≤ tid < nt → heap_tracks (histories s) l →
  returns (btbUpdate s tid pc p) (λ s', wf nt s' ∧ heap_tracks (histories s') l).
Proof.
  intros Ht Htr. unfold btbUpdate. apply returns_bind.
  eapply returns_mono; [by apply (HistRegs.btbUpdate_keeps nt _ tid (wf_regs _ _ H) Ht)|].
  intros r Hk. split; [by apply ens_wf_with_regs|done].
Qed.

Lemma ens_squash_ok p l tid :
  0 ≤ tid < nt → heap_tracks (histories s) (p :: l) →
  returns (squash s tid p) (λ s', wf nt s' ∧ heap_tracks (histories s') l).
Proof.
  intros Ht Htr. unfold squash. apply returns_bind.
  eapply returns_deref; [done|apply H|]. intros a h -> Ha Hh. apply returns_bind.
  eapply returns_mono; [by apply (HistRegs.restore_keeps nt _ tid (wf_regs _ _ H) Ht)|].
  intros r Hk. apply returns_bind. eapply returns_delete; [done|apply H|]. intros hs Htr' Hall.
  split; [|done]. apply ens_wf_with_histories; [by apply ens_wf_with_regs|]. cbn.
  eapply map_Forall_impl; [done|]. intros ? ?. apply HistRegs.snap_ok_cfg, Hk.
Qed.

Lemma wf_trained st taken h l g gs :
  SatCounter.table_ok (localPredictorSize (cfg s)) (SatCounter.maxOf (localCtrBits (cfg s))) l →
  SatCounter.table_ok (globalPredictorSize (cfg s)) (SatCounter.maxOf (globalCtrBits (cfg s))) g →
  SatCounter.table_ok (gsharePredictorSize (cfg s)) (SatCounter.maxOf (gshareCtrBits (cfg s))) gs →
  wf nt (with_ctrs l g gs (update_weights (with_stats st s) taken h)).
Proof. destruct H. split; try done. by apply Weights.weights_update_ok. Qed.

(** [update] past its assertions and table accesses. *)
Lemma ens_update_squash_Ok tid pc taken a h :
  cells (histories s) !! a = Some h →
  update s tid pc taken (Some a) true =
    (r ← HistRegs.correct (regs s) tid (HistRegs.slot (regs s) pc)
           (negb (localHistory h =? invalidPredictorIndex)) (globalHistory h) (localHistory h) taken;
     Ok (with_regs r s)).
Proof.
  intros Ha. pose proof (HistRegs.slot_range nt _ (wf_regs _ _ H) pc). unfold update, assert_.
  rewrite bool_decide_true by done. cbn [mbind res_bind heap_deref]. rewrite Ha. cbn [mbind res_bind].
  rewrite (HistRegs.calcLocHistIdx_Ok nt) by apply H. cbn [mbind res_bind].
  by destruct (Z.ltb_spec (HistRegs.slot (regs s) pc) (HistRegs.localHistoryTableSize (regs s))); [|lia].
Qed.

Lemma ens_update_commit_Ok tid pc taken a h g :
  0 ≤ tid < nt → cells (histories s) !! a = Some h →
  HistRegs.globalHistory (regs s) !! Z.to_nat tid = Some g →
  let valid := negb (localHistory h =? invalidPredictorIndex) in
  ∃ gc gs lc,
    vmod (SatCounter.train taken) (globalCtrs s) (Z.land (globalHistory h) (globalHistoryMask (cfg s))) = Ok gc ∧
    vmod (SatCounter.train taken) (gshareCtrs s) (gshare_slot s pc g) = Ok gs ∧
    (if valid then vmod (SatCounter.train taken) (localCtrs s)
                     (Z.land (localHistory h) (HistRegs.localPredictorMask (regs s)))
     else Ok (localCtrs s)) = Ok lc ∧
    update s tid pc taken (Some a) false =
      Ok (with_histories (Heap (delete a (cells (histories s))) (next (histories s)))
           (with_ctrs lc gc gs (update_weights
              (updateAdditionalStats s taken h (Weights.contributed (finalPrediction h) (votes_of h)))
              taken h))) ∧
    SatCounter.table_ok (localPredictorSize (cfg s)) (SatCounter.maxOf (localCtrBits (cfg s))) lc ∧
    SatCounter.table_ok (globalPredictorSize (cfg s)) (SatCounter.maxOf (globalCtrBits (cfg s))) gc ∧
    SatCounter.table_ok (gsharePredictorSize (cfg s)) (SatCounter.maxOf (gshareCtrBits (cfg s))) gs.
Proof.
  intros Ht Ha Hg valid. destruct (gshare_idx pc g) as [Hgi Egi]. pose proof (wf_gshsize _ _ H).
  assert (returns (vmod (SatCounter.train taken) (globalCtrs s)
    (Z.land (globalHistory h) (globalHistoryMask (cfg s))))
    (SatCounter.table_ok (globalPredictorSize (cfg s)) (SatCounter.maxOf (globalCtrBits (cfg s))))) as H1.
  { eapply SatCounter.returns_train; [apply H|eauto using SatCounter.train_ok|apply ens_global_idx|done]. }
  assert (returns (vmod (SatCounter.train taken) (gshareCtrs s) (gshare_slot s pc g))
    (SatCounter.table_ok (gsharePredictorSize (cfg s)) (SatCounter.maxOf (gshareCtrBits (cfg s))))) as H2.
  { eapply SatCounter.returns_train; [apply H|eauto using SatCounter.train_ok|lia|done]. }
  assert (returns (if valid then vmod (SatCounter.train taken) (localCtrs s)
      (Z.land (localHistory h) (HistRegs.localPredictorMask (regs s))) else Ok (localCtrs s))
    (SatCounter.table_ok (localPredictorSize (cfg s)) (SatCounter.maxOf (localCtrBits (cfg s))))) as H3.
  { destruct valid; [|apply H].
    eapply SatCounter.returns_train; [apply H|eauto using SatCounter.train_ok|apply ens_local_idx|done]. }
  apply returns_iff in H1 as (gc & E1 & O1), H2 as (gs & E2 & O2), H3 as (lc & E3 & O3).
  exists gc, gs, lc. split_and!; try done.
  pose proof (HistRegs.slot_range nt _ (wf_regs _ _ H) pc). unfold update, assert_.
  rewrite bool_decide_true by done. cbn [mbind res_bind heap_deref]. rewrite Ha. cbn [mbind res_bind].
  rewrite (HistRegs.calcLocHistIdx_Ok nt) by apply H. cbn [mbind res_bind].
  destruct (Z.ltb_spec (HistRegs.slot (regs s) pc) (HistRegs.localHistoryTableSize (regs s))); [|lia].
  cbn [mbind res_bind]. pose proof (ens_local_idx (localHistory h)).
  destruct (Z.ltb_spec (Z.land (localHistory h) (HistRegs.localPredictorMask (regs s)))
    (localPredictorSize (cfg s))); [|lia]. cbn [mbind res_bind].
  rewrite (vget_in _ tid g) by (lia || done). cbn [mbind res_bind]. rewrite Egi. cbn [mbind res_bind].
  cbn [globalCtrs gshareCtrs localCtrs histories update_weights with_weights updateAdditionalStats with_stats].
  rewrite E1. cbn [mbind res_bind]. rewrite E2. cbn [mbind res_bind]. fold valid. rewrite E3.
  cbn [mbind res_bind]. unfold heap_delete. cbn [heap_deref]. by rewrite Ha.
Qed.

Lemma ens_update_ok p l tid pc taken squashed :
  0 ≤ tid < nt → heap_tracks (histories s) (p :: l) →
  returns (update s tid pc taken p squashed) (λ s', wf nt s' ∧
    heap_tracks (histories s') (if squashed then p :: l else l)).
Proof.
  intros Ht Htr. destruct (heap_tracks_deref _ _ _ Htr) as (a & h & -> & Ha).
  pose proof (wf_regs _ _ H) as Hr. destruct squashed.
  - rewrite (ens_update_squash_Ok _ _ _ _ h) by done. apply returns_bind.
    eapply returns_mono; [by apply (HistRegs.correct_keeps nt _ tid Hr Ht), (HistRegs.slot_range nt)|].
    intros r Hk. split; [by apply ens_wf_with_regs|done].
  - destruct (HistRegs.global_exists nt _ Hr tid Ht) as (g & Hg & _).
    destruct (ens_update_commit_Ok tid pc taken a h g Ht Ha Hg) as (gc & gs & lc & _ & _ & _ & -> & ? & ? & ?).
    cbn [returns]. split; [|by apply heap_tracks_delete].
    apply ens_wf_with_histories; [by apply wf_trained|]. apply (heap_all_delete _ (histories s)), H.
Qed.

End wf.

#[global] Instance ensemble_laws : DirPredictorLaws t.
Proof.
  refine {| dp_wf := wf; dp_tracks := λ s, heap_tracks (histories s) |}.
  - intros. by apply ens_uncondBranch_ok.
  - intros. by apply ens_lookup_ok.
  - intros. by apply ens_btbUpdate_ok.
  - intros. by apply (ens_update_ok nt s H p l tid pc taken false).
  - intros. by apply (ens_update_ok nt s H p l tid pc taken true).
  - intros. by apply ens_squash_ok.
  - intros nt s p l tid H Htr _. cbn. unfold getGHR. apply returns_bind.
    eapply returns_deref; [done|apply H|done].
Defined.

(** ** The constructor *)
Record params_ok (p : Params) : Prop := {
  po_threads : 0 < p_numThreads p;
  po_shift : 0 ≤ p_instShiftAmt p < 64;
  po_local : is_u32 (p_localPredictorSize p) ∧ isPowerOf2 (p_localPredictorSize p) = true;
  po_table : is_u32 (p_localHistoryTableSize p) ∧ isPowerOf2 (p_localHistoryTableSize p) = true;
  po_global : is_u32 (p_globalPredictorSize p) ∧ isPowerOf2 (p_globalPredictorSize p) = true;
  po_gshare : is_u32 (p_gsharePredictorSize p) ∧ isPowerOf2 (p_gsharePredictorSize p) = true;
  po_lbits : 1 ≤ p_localCtrBits p < 31;
  po_gbits : 1 ≤ p_globalCtrBits p < 31;
  po_gsbits : 1 ≤ p_gshareCtrBits p < 31;
}.

Definition weight0 : SatCounter.t := SatCounter.mk 0 max_weight 0.

(** The predictor the constructor builds. *)
Definition fresh (p : Params) (kl kg : Z) : t :=
  let table n bits := replicate (Z.to_nat n) (SatCounter.mk 0 (SatCounter.maxOf bits) 0) in
  mk (mkCfg (p_localPredictorSize p) (p_localCtrBits p) kl
        (p_globalPredictorSize p) (p_globalCtrBits p) kg (p_globalPredictorSize p - 1)
        (p_gsharePredictorSize p) (p_gshareCtrBits p) (2 ^ (p_localCtrBits p - 1) - 1)
        (2 ^ (p_globalCtrBits p - 1) - 1) (2 ^ (p_gshareCtrBits p - 1) - 1))
     (HistRegs.create (p_instShiftAmt p) (p_localHistoryTableSize p) (p_localPredictorSize p - 1)
        (p_globalPredictorSize p - 1) (p_numThreads p))
     (table (p_localPredictorSize p) (p_localCtrBits p))
     (table (p_globalPredictorSize p) (p_globalCtrBits p))
     (table (p_gsharePredictorSize p) (p_gshareCtrBits p))
     (Weights.mk weight0 weight0 weight0) heap_empty Weights.stats0.

Lemma create_weight_Ok indet n : 1 ≤ n → create_weight indet n = Ok weight0.
Proof.
  intros. unfold create_weight. destruct (Z.ltb_spec 0 n); [|lia]. by rewrite SatCounter.setBits_default.
Qed.

Lemma ens_create_Ok indet p :
  params_ok p → ∃ kl kg, create indet p = Ok (fresh p kl kg) ∧
    0 ≤ kl < 32 ∧ p_localPredictorSize p = 2 ^ kl ∧ 0 ≤ kg < 32 ∧ p_globalPredictorSize p = 2 ^ kg.
Proof.
  intros [Hnt Hsh [Hl1 Hl2] [Ht1 Ht2] [Hg1 Hg2] [Hs1 Hs2] Hlb Hgb Hsb].
  destruct (pow2_facts _ Hl1 Hl2) as (kl & Hkl & El & Ecl & Eml & Hl3 & Eul).
  destruct (pow2_facts _ Hg1 Hg2) as (kg & Hkg & Eg & Ecg & Emg & Hg3 & Eug).
  destruct (pow2_facts _ Hs1 Hs2) as (_ & _ & _ & _ & _ & Hs3 & _).
  exists kl, kg. split_and!; try done; try lia. unfold create. rewrite Ecl, Ecg. cbn [mbind res_bind].
  rewrite Hl2, Hg2, Hs2, Ht2, !SatCounter.table_val by lia. cbn [guard_ mbind res_bind].
  rewrite !create_weight_Ok by done. cbn [mbind res_bind]. rewrite Eml, Emg. cbn [mbind res_bind].
  rewrite Eug, Eul. rewrite Z.ltb_irrefl. cbn [negb guard_ mbind res_bind].
  by rewrite !counterThreshold_Ok by lia.
Qed.

Lemma weights0_ok : Weights.ok max_weight (Weights.mk weight0 weight0 weight0).
Proof. unfold Weights.ok, SatCounter.ok, weight0. cbn. change max_weight with 15. lia. Qed.

Lemma fresh_regs p kl kg :
  params_ok p → 0 ≤ kl < 32 → p_localPredictorSize p = 2 ^ kl → 0 ≤ kg < 32 →
  p_globalPredictorSize p = 2 ^ kg → HistRegs.wf (p_numThreads p) (regs (fresh p kl kg)).
Proof.
  intros [Hnt Hsh _ [Ht1 Ht2] _ _ _ _ _] Hkl El Hkg Eg.
  apply HistRegs.hist_create_wf; try done; try lia; [by apply isPowerOf2_iff|exists kl; rewrite El; split; lia|].
  exists kg. rewrite Eg. split; lia.
Qed.

Lemma fresh_wf p kl kg :
  params_ok p → p_globalPredictorSize p ≤ p_gsharePredictorSize p →
  0 ≤ kl < 32 → p_localPredictorSize p = 2 ^ kl → 0 ≤ kg < 32 → p_globalPredictorSize p = 2 ^ kg →
  wf (p_numThreads p) (fresh p kl kg) ∧ heap_tracks (histories (fresh p kl kg)) [].
Proof.
  intros Hp Hle Hkl El Hkg Eg. pose proof (fresh_regs p kl kg Hp Hkl El Hkg Eg) as Hr.
  destruct Hp as [Hnt Hsh [Hl1 Hl2] [Ht1 Ht2] [Hg1 Hg2] [Hs1 Hs2] Hlb Hgb Hsb].
  unfold is_u32 in *. split; [|apply heap_tracks_empty].
  split; try done; cbn; try done; try (apply SatCounter.table_fresh_ok; lia).
  split_and!; [by apply isPowerOf2_iff|lia|done].
Qed.

Lemma replicate_predicts n bits i th :
  0 ≤ i < n → 0 ≤ th → predicts (replicate (Z.to_nat n) (SatCounter.mk 0 bits 0)) i th = Ok false.
Proof.
  intros Hi Hth. unfold predicts. rewrite (vget_in _ _ (SatCounter.mk 0 bits 0));
    [|lia|apply lookup_replicate; split; [done|lia]].
  cbn. destruct (Z.ltb_spec th 0); [lia|done].
Qed.

Lemma threshold_nonneg bits : 1 ≤ bits → 0 ≤ 2 ^ (bits - 1) - 1.
Proof. intros. pose proof (Z.pow_pos_nonneg 2 (bits - 1)). lia. Qed.

Lemma fresh_predicts p kl kg i :
  params_ok p →
  let s := fresh p kl kg in
  (0 ≤ i < p_localPredictorSize p → predicts (localCtrs s) i (localThreshold (cfg s)) = Ok false) ∧
  (0 ≤ i < p_globalPredictorSize p → predicts (globalCtrs s) i (globalThreshold (cfg s)) = Ok false) ∧
  (0 ≤ i < p_gsharePredictorSize p → predicts (gshareCtrs s) i (gshareThreshold (cfg s)) = Ok false).
Proof.
  intros []. split_and!; intros Hi; apply replicate_predicts; try done; apply threshold_nonneg; lia.
Qed.

(** ** Observational equivalence *)
Record equiv (s s' : t) : Prop := {
  eq_cfg : cfg s' = cfg s;
  eq_regs : HistRegs.equiv (regs s) (regs s');
  eq_local : localCtrs s' = localCtrs s;
  eq_global : globalCtrs s' = globalCtrs s;
  eq_gshare : gshareCtrs s' = gshareCtrs s;
  eq_weights : weights s' = weights s;
  eq_objects : cells (histories s') = cells (histories s);
}.

#[global] Instance ensemble_equiv : Equivalence equiv.
Proof.
  split.
  - intros s. by split.
  - intros s s' []. by split.
  - intros a b c [] []. split; try congruence. by transitivity (regs b).
Qed.

Definition answer (s : t) (tid pc : Z) : res bool := '(b, _, _) ← lookup s tid pc; Ok b.

Lemma ens_answer_equiv nt s s' tid pc :
  wf nt s → wf nt s' → equiv s s' → 0 ≤ tid < nt → answer s' tid pc = answer s tid pc.
Proof.
  intros H H' [Ec [(E1 & E2 & E3 & E4) Eg El] E5 E6 E7 E8 _] Ht. pose proof (wf_regs _ _ H) as Hr.
  destruct (HistRegs.global_exists nt _ Hr tid Ht) as (g & Hg & Hgr).
  destruct (HistRegs.local_exists nt _ Hr _ (HistRegs.slot_range nt _ Hr pc)) as [x Hx].
  destruct (ens_lookup_Ok nt s H tid pc g x Ht Hg Hx) as ([gs gl lp] & P1 & P2 & P3 & EL).
  assert (HistRegs.slot (regs s') pc = HistRegs.slot (regs s) pc) as Es
    by (unfold HistRegs.slot; by rewrite E1, E2).
  destruct (Forall2_lookup_l _ _ _ _ _ El Hx) as (x' & Hx' & Exx). rewrite <- Es in Hx'.
  rewrite <- Eg in Hg.
  destruct (ens_lookup_Ok nt s' H' tid pc g x' Ht Hg Hx') as ([gs' gl' lp'] & Q1 & Q2 & Q3 & EL').
  unfold answer. rewrite EL, EL'. cbn [heap_new mbind res_bind].
  assert (gshare_slot s' pc g = gshare_slot s pc g) as Egs by (unfold gshare_slot; by rewrite Ec, E1).
  unfold HistRegs.same_local in Exx. rewrite Ec, E3, E5, <- Exx, P1 in Q1. rewrite Ec, E6, P2 in Q2.
  rewrite Ec, Egs, E7, P3 in Q3. cbn in Q1, Q2, Q3. rewrite E8. by simplify_eq.
Qed.

Section recover.
Context (nt : Z) (s : t) (l : list ptr) (tid pc : Z).
Context (H : wf nt s) (Htr : heap_tracks (histories s) l) (Ht : 0 ≤ tid < nt).

Lemma ens_squash_undoes g x (lp gl gs : bool) u f g1 x1 :
  HistRegs.globalHistory (regs s) !! Z.to_nat tid = Some g →
  HistRegs.localHistoryTable (regs s) !! Z.to_nat (HistRegs.slot (regs s) pc) = Some x →
  0 ≤ g1 ≤ HistRegs.historyRegisterMask (regs s) →
  let i := HistRegs.slot (regs s) pc in
  let '(p, hs) := heap_new (histories s)
    (mkHist g i (Z.land x (HistRegs.localPredictorMask (regs s))) lp gl gs u f) in
  returns (squash (with_histories hs (with_regs (HistRegs.set2 (regs s) tid g1 i x1) s)) tid p) (equiv s).
Proof.
  intros Hg Hx Hg1. cbn [heap_new]. unfold squash. cbn [histories with_histories heap_deref cells].
  rewrite lookup_insert_eq. cbn [mbind res_bind]. apply returns_bind.
  eapply returns_mono; [by apply (HistRegs.restore_undoes nt (regs s) tid pc g x (wf_regs _ _ H) Ht Hg Hx)|].
  intros r Hr. unfold heap_delete. cbn. rewrite lookup_insert_eq. cbn. split; try done. cbn.
  rewrite delete_insert_id; [done|]. by eapply heap_tracks_fresh.
Qed.

Definition recovered (s2 : t) : Prop :=
  equiv s s2 ∧ wf nt s2 ∧ ∀ tid' pc', 0 ≤ tid' < nt → answer s2 tid' pc' = answer s tid' pc'.

Lemma ens_recovered_intro s1 p :
  wf nt s1 → heap_tracks (histories s1) (p :: l) → returns (squash s1 tid p) (equiv s) →
  returns (squash s1 tid p) recovered.
Proof.
  intros H1 Htr1 He. pose proof (ens_squash_ok nt s1 H1 p l tid Ht Htr1) as Hw.
  eapply returns_mono; [apply (returns_and _ _ _ He Hw)|]. intros s2 (Heq & Hw2 & _).
  split_and!; [done..|]. intros. by apply (ens_answer_equiv nt).
Qed.

End recover.

(** ** Theorems *)

(** C4: the ensemble's verdict is the weighted majority of its three experts.
    [lookup] answers taken exactly when the experts that predict taken have
    together at least the weight of those that predict not taken. *)
Theorem ensemble_weighted_majority (nt : Z) (s : t) (tid pc g x : Z) :
  wf nt s → 0 ≤ tid < nt →
  HistRegs.globalHistory (regs s) !! Z.to_nat tid = Some g →
  HistRegs.localHistoryTable (regs s) !! Z.to_nat (HistRegs.slot (regs s) pc) = Some x →
  ∃ v : Weights.votes,
    predicts (localCtrs s) (Z.land x (HistRegs.localPredictorMask (regs s))) (localThreshold (cfg s))
      = Ok (Weights.thirdV v) ∧
    predicts (globalCtrs s) (Z.land g (globalHistoryMask (cfg s))) (globalThreshold (cfg s))
      = Ok (Weights.globalV v) ∧
    predicts (gshareCtrs s) (gshare_slot s pc g) (gshareThreshold (cfg s)) = Ok (Weights.gshareV v) ∧
    returns (lookup s tid pc) (λ r,
      r.1.1 = (Weights.weight_for false v (weights s) <=? Weights.weight_for true v (weights s))).
Proof.
  intros H Ht Hg Hx. destruct (ens_lookup_Ok nt s H tid pc g x Ht Hg Hx) as (v & P1 & P2 & P3 & E).
  exists v. split_and!; [done..|]. rewrite E. cbn. apply Weights.finalPrediction_majority.
Qed.

(** C5: the weights follow the experts. When a branch commits, no expert that
    predicted the outcome loses weight and no expert that predicted the opposite
    gains any, whether or not the ensemble was right; weights stay four-bit
    values; and when the experts were unanimous no weight changes. *)
Theorem ensemble_weights_follow_experts (nt : Z) (s : t) (l : list ptr) (tid pc : Z) (taken : bool)
    (a : positive) (h : BPHistory) :
  wf nt s → heap_tracks (histories s) (Some a :: l) → 0 ≤ tid < nt →
  cells (histories s) !! a = Some h →
  returns (update s tid pc taken (Some a) false) (λ s',
    let w := weights s in
    let w' := weights s' in
    Weights.moves (eqb (gsharePredTaken h) taken) (Weights.gshareWeight w) (Weights.gshareWeight w') ∧
    Weights.moves (eqb (globalPredTaken h) taken) (Weights.globalWeight w) (Weights.globalWeight w') ∧
    Weights.moves (eqb (localPredTaken h) taken) (Weights.thirdWeight w) (Weights.thirdWeight w') ∧
    Weights.ok 15 w' ∧
    (gsharePredTaken h = globalPredTaken h → globalPredTaken h = localPredTaken h → w' = w)).
Proof.
  intros H Htr Ht Ha. destruct (HistRegs.global_exists nt _ (wf_regs _ _ H) tid Ht) as (g & Hg & _).
  destruct (ens_update_commit_Ok nt s H tid pc taken a h g Ht Ha Hg) as (gc & gs & lc & _ & _ & _ & -> & _).
  cbn [returns]. pose proof (wf_weights _ _ H) as Hw.
  destruct (Weights.update_moves max_weight MAX_WEIGHT_SUM (finalPrediction h) taken (votes_of h) _ Hw)
    as (M1 & M2 & M3).
  split_and!; [done..|by apply (Weights.weights_update_ok max_weight)|].
  intros E1 E2. apply Weights.update_unanimous; cbn; congruence.
Qed.

(** Squashing a predicted branch restores the ensemble predictor: tables,
    weights and history objects exactly, the histories up to unread bits, and so
    every answer; also when [btbUpdate] ran in between. *)
Theorem ensemble_squash_recovers (nt : Z) (s : t) (l : list ptr) (tid pc : Z) :
  wf nt s → heap_tracks (histories s) l → 0 ≤ tid < nt →
  returns (lookup s tid pc) (λ r,
    returns (squash r.2 tid r.1.2) (recovered nt s) ∧
    returns (btbUpdate r.2 tid pc r.1.2) (λ s1, returns (squash s1 tid r.1.2) (recovered nt s))).
Proof.
  intros H Htr Ht. pose proof (wf_regs _ _ H) as Hr. pose proof (ens_lookup_ok nt s H l tid pc Ht Htr) as Hlk.
  destruct (HistRegs.global_exists nt _ Hr tid Ht) as (g & Hg & Hgr).
  destruct (HistRegs.local_exists nt _ Hr _ (HistRegs.slot_range nt _ Hr pc)) as [x Hx].
  destruct (ens_lookup_Ok nt s H tid pc g x Ht Hg Hx) as ([gs gl lp] & _ & _ & _ & E).
  rewrite E in *. cbn [heap_new returns fst snd] in *. destruct Hlk as [Hw Htr1]. split.
  - apply (ens_recovered_intro nt s l tid); [done..|].
    pose proof (ens_squash_undoes nt s l tid pc H Htr Ht g x lp gl gs None
      (Weights.finalPrediction (Weights.mkVotes gs gl lp) (weights s)) g x Hg Hx Hgr) as Hsq.
    cbv zeta in Hsq. cbn [heap_new] in Hsq. rewrite (HistRegs.set2_id (regs s)) in Hsq by done. by destruct s.
  - pose proof (ens_btbUpdate_ok nt _ Hw (Some (next (histories s))) _ tid pc Ht Htr1) as Hb.
    unfold btbUpdate in *. cbn [regs with_histories with_regs] in *.
    destruct (HistRegs.btbUpdate_set2 nt _ tid pc Hr Ht g x Hgr) as (g2 & x2 & Hg2 & Eb).
    rewrite (HistRegs.set2_id (regs s)) in Eb by done.
    rewrite Eb in *. cbn [mbind res_bind returns] in *. destruct Hb as [Hw2 Htr2].
    apply (ens_recovered_intro nt s l tid); [done..|].
    by apply (ens_squash_undoes nt s l tid pc H Htr Ht g x lp gl gs None _ g2 x2).
Qed.

(** A correctly predicted branch leaves no history. [lookup] does not shift
    its prediction into the history registers, and the commit does not either,
    so a conditional branch that is predicted and committed leaves the global
    and the local histories as they were; only [update] on a misprediction and
    [uncondBranch] shift an outcome in. *)
Theorem ensemble_correct_branch_leaves_no_history (nt : Z) (s : t) (l : list ptr) (tid pc : Z)
    (taken : bool) :
  wf nt s → heap_tracks (histories s) l → 0 ≤ tid < nt →
  returns (lookup s tid pc) (λ r, regs r.2 = regs s ∧
    returns (update r.2 tid pc taken r.1.2 false) (λ s', regs s' = regs s) ∧
    returns (update r.2 tid pc taken r.1.2 true) (λ s',
      ∃ g, HistRegs.globalHistory (regs s) !! Z.to_nat tid = Some g ∧
        HistRegs.globalHistory (regs s') !! Z.to_nat tid =
          Some (Z.land (HistRegs.shift_in g taken) (HistRegs.historyRegisterMask (regs s))))).
Proof.
  intros H Htr Ht. pose proof (wf_regs _ _ H) as Hr. pose proof (ens_lookup_ok nt s H l tid pc Ht Htr) as Hlk.
  destruct (HistRegs.global_exists nt _ Hr tid Ht) as (g & Hg & Hgr).
  destruct (HistRegs.local_exists nt _ Hr _ (HistRegs.slot_range nt _ Hr pc)) as [x Hx].
  destruct (ens_lookup_Ok nt s H tid pc g x Ht Hg Hx) as (v & _ & _ & _ & E).
  rewrite E in *. cbn [heap_new returns fst snd] in *. destruct Hlk as [Hw Htr1]. split_and!; [done| |].
  - edestruct (ens_update_commit_Ok nt _ Hw tid pc taken _ _ g Ht (lookup_insert_eq _ _ _) Hg)
      as (gc & gs & lc & _ & _ & _ & -> & _). done.
  - erewrite ens_update_squash_Ok by (exact Hw || apply lookup_insert_eq).
    cbn [regs with_histories localHistory globalHistory].
    rewrite (HistRegs.correct_Ok nt) by (done || by apply (HistRegs.slot_range nt)).
    cbn [mbind res_bind returns]. exists g. split; [done|].
    assert (0 ≤ tid < vlen (HistRegs.globalHistory (regs s))) by (by rewrite (HistRegs.wf_threads _ _ Hr)).
    destruct (negb _); cbn; by apply vlookup_insert_eq.
Qed.

(** The gshare entry trained at commit need not be the one that predicted.
    [update] computes the gshare index from the thread's current history, not
    from the history recorded at prediction: if the history register holds [g']
    at commit, the entry trained is the one [lookup] read exactly when [g'] and
    the history at prediction agree under the mask. *)
Theorem ensemble_gshare_trains_current_history (nt : Z) (s : t) (l : list ptr) (tid pc g g' x : Z)
    (taken : bool) :
  wf nt s → heap_tracks (histories s) l → 0 ≤ tid < nt →
  HistRegs.globalHistory (regs s) !! Z.to_nat tid = Some g →
  HistRegs.localHistoryTable (regs s) !! Z.to_nat (HistRegs.slot (regs s) pc) = Some x →
  0 ≤ g' ≤ HistRegs.historyRegisterMask (regs s) →
  let moved := HistRegs.with_global (<[Z.to_nat tid := g']> (HistRegs.globalHistory (regs s))) (regs s) in
  returns (lookup s tid pc) (λ r,
    returns (update (with_regs moved r.2) tid pc taken r.1.2 false) (λ s',
      vmod (SatCounter.train taken) (gshareCtrs s) (gshare_slot s pc g') = Ok (gshareCtrs s')) ∧
    (gshare_slot s pc g' = gshare_slot s pc g ↔
       Z.land g' (globalHistoryMask (cfg s)) = Z.land g (globalHistoryMask (cfg s)))).
Proof.
  intros H Htr Ht Hg Hx Hg' moved. pose proof (wf_regs _ _ H) as Hr.
  pose proof (ens_lookup_ok nt s H l tid pc Ht Htr) as Hlk.
  destruct (ens_lookup_Ok nt s H tid pc g x Ht Hg Hx) as (v & _ & _ & _ & E).
  rewrite E in *. cbn [heap_new returns fst snd] in *. destruct Hlk as [Hw Htr1]. split.
  - assert (HistRegs.keeps nt (regs s) moved) as Hk by (split; [by apply HistRegs.wf_set_global|done]).
    pose proof (ens_wf_with_regs nt _ _ Hw Hk) as Hw'.
    edestruct (ens_update_commit_Ok nt _ Hw' tid pc taken _ _ g' Ht (lookup_insert_eq _ _ _))
      as (gc & gs & lc & _ & Egs & _ & Eu & _).
    { cbn. apply vlookup_insert_eq. by rewrite (HistRegs.wf_threads _ _ Hr). }
    cbn [with_regs histories with_histories] in *. rewrite Eu. exact Egs.
  - apply lxor_land_cancel.
Qed.

(** An ensemble can be built whose first lookup leaves the gshare table.
    The gshare table is indexed under the mask of the global table, and the
    constructor does not compare their sizes: with a gshare table smaller than
    the global one it accepts the parameters, and the first lookup of the branch
    whose index is the gshare table's size is out of range. *)
Theorem ensemble_gshare_out_of_range (indet : Z) (p : Params) :
  params_ok p → p_gsharePredictorSize p < p_globalPredictorSize p →
  returns (create indet p) (λ s,
    lookup s 0 (Z.shiftl (p_gsharePredictorSize p) (p_instShiftAmt p)) = Err OutOfRange).
Proof.
  intros Hp Hlt. destruct (ens_create_Ok indet p Hp) as (kl & kg & -> & Hkl & El & Hkg & Eg). cbn [returns].
  pose proof (fresh_regs p kl kg Hp Hkl El Hkg Eg) as Hr.
  pose proof Hp as [Hnt Hsh [Hl1 Hl2] [Ht1 Ht2] [Hg1 Hg2] [Hs1 Hs2] Hlb Hgb Hsb].
  destruct (pow2_facts _ Hl1 Hl2) as (_ & _ & _ & _ & _ & Hl3 & _).
  destruct (pow2_facts _ Hg1 Hg2) as (_ & _ & _ & _ & _ & Hg3 & _).
  destruct (pow2_facts _ Hs1 Hs2) as (_ & _ & _ & _ & _ & Hs3 & _). unfold is_u32 in *.
  destruct (fresh_predicts p kl kg 0 Hp) as (F1 & F2 & _). cbv zeta in F1, F2.
  set (s := fresh p kl kg) in *. set (n := p_gsharePredictorSize p) in *. set (pc := Z.shiftl n _).
  pose proof (HistRegs.slot_range _ _ Hr pc) as Hi. unfold lookup.
  rewrite (HistRegs.calcLocHistIdx_Ok _ _ Hr). cbn [mbind res_bind].
  rewrite (vget_in _ (HistRegs.slot (regs s) pc) 0) by (lia || (apply lookup_replicate; split; [done|cbn in Hi |- *; lia])).
  cbn [mbind res_bind]. rewrite Z.land_0_l.
  rewrite F1 by lia. cbn [mbind res_bind].
  rewrite (vget_in _ 0 0) by (lia || (apply lookup_replicate; split; [done|lia])). cbn [mbind res_bind].
  rewrite Z.land_0_l.
  rewrite F2 by lia. cbn [mbind res_bind]. unfold gshareIdx. rewrite shr64_in by done. cbn [mbind res_bind].
  rewrite Z.lxor_0_r. cbn [regs HistRegs.instShiftAmt HistRegs.create s fresh cfg globalHistoryMask].
  subst pc. rewrite Z.shiftr_shiftl_l, Z.sub_diag, Z.shiftl_0_r by lia.
  rewrite Eg, land_pow2_mod, Z.mod_small by lia. rewrite u32_id by (unfold is_u32; lia).
  unfold predicts, vget. destruct (Z.leb_spec 0 n); [|lia].
  rewrite lookup_ge_None_2; [done|]. cbn. rewrite length_replicate. fold n. lia.
Qed.

(** The contributor count can be zero. The comment in [update] calls that
    impossible; on a freshly built predictor every expert predicts not taken
    and every weight is zero, so the tie makes the verdict taken and no expert
    voted for it. In general the count is zero exactly when all experts predict
    not taken and all weights are zero. *)
Theorem ensemble_contributor_count_zero (indet : Z) (p : Params) (tid pc : Z) :
  params_ok p → p_globalPredictorSize p ≤ p_gsharePredictorSize p → 0 ≤ tid < p_numThreads p →
  returns (create indet p) (λ s, returns (lookup s tid pc) (λ r,
    r.1.1 = true ∧ returns (heap_deref (histories r.2) r.1.2) (λ h,
      votes_of h = Weights.mkVotes false false false ∧
      Weights.contributorCount (Weights.contributed (finalPrediction h) (votes_of h)) = 0))) ∧
  (∀ v ws, Weights.ok max_weight ws →
     Weights.contributorCount (Weights.contributed (Weights.finalPrediction v ws) v) = 0 ↔
     v = Weights.mkVotes false false false ∧ Weights.weightSum ws = 0).
Proof.
  intros Hp Hle Ht. split; [|intros; by apply (Weights.no_contributor max_weight)].
  destruct (ens_create_Ok indet p Hp) as (kl & kg & -> & Hkl & El & Hkg & Eg). cbn [returns].
  destruct (fresh_wf p kl kg Hp Hle Hkl El Hkg Eg) as [Hw _]. pose proof (wf_regs _ _ Hw) as Hr.
  set (s := fresh p kl kg) in *. pose proof (HistRegs.slot_range _ _ Hr pc) as Hi.
  destruct (ens_lookup_Ok _ s Hw tid pc 0 0 Ht) as ([gs gl lp] & P1 & P2 & P3 & ->).
  { apply lookup_replicate. split; [done|lia]. }
  { apply lookup_replicate. split; [done|]. cbn in Hi |- *. lia. }
  destruct (gshare_idx _ s Hw pc 0) as [Hgi _].
  destruct (fresh_predicts p kl kg (Z.land 0 (HistRegs.localPredictorMask (regs s))) Hp) as (Q1 & _ & _).
  destruct (fresh_predicts p kl kg (Z.land 0 (globalHistoryMask (cfg s))) Hp) as (_ & Q2 & _).
  destruct (fresh_predicts p kl kg (gshare_slot s pc 0) Hp) as (_ & _ & Q3). cbv zeta in *. fold s in Q1, Q2, Q3.
  rewrite Q1 in P1 by (apply (ens_local_idx _ s Hw)). rewrite Q2 in P2 by (apply (ens_global_idx _ s Hw)).
  rewrite Q3 in P3 by (split; [apply Hgi|eapply Z.lt_le_trans; [apply Hgi|exact Hle]]). cbn [Weights.thirdV Weights.globalV Weights.gshareV] in *.
  simplify_eq. cbn. by rewrite lookup_insert_eq.
Qed.

(** ** Witnesses *)
Definition params8 : Params := mkParams 2 2 4 2 4 8 2 8 2.
Definition params_small : Params := mkParams 2 2 4 2 4 8 2 4 2.

Definition ensemble8 : t :=
  ltac:(let r := eval vm_compute in (create 0 params8) in
        match r with Ok ?s => exact s end).

Lemma params8_ok : params_ok params8.
Proof. split; cbn; unfold is_u32; try lia; split; (lia || done). Qed.

Lemma params_small_ok : params_ok params_small.
Proof. split; cbn; unfold is_u32; try lia; split; (lia || done). Qed.

Lemma ensemble8_ok : wf 2 ensemble8 ∧ heap_tracks (histories ensemble8) [].
Proof.
  destruct (ens_create_Ok 0 params8 params8_ok) as (kl & kg & E & Hkl & El & Hkg & Eg).
  assert (create 0 params8 = Ok ensemble8) as E' by reflexivity. 
  assert (ensemble8 = fresh params8 kl kg) as -> by congruence.
  apply (fresh_wf params8 kl kg params8_ok ltac:(cbn; lia) Hkl El Hkg Eg).
Qed.

(** The predictor with one branch in flight on thread 1. *)
Definition in_flight : t :=
  ltac:(let r := eval vm_compute in (lookup ensemble8 1 64) in
        match r with Ok (_, _, ?s) => exact s end).

Lemma in_flight_ok : wf 2 in_flight ∧ heap_tracks (histories in_flight) [Some 1%positive].
Proof.
  destruct ensemble8_ok as [Hw Htr].
  pose proof (ens_lookup_ok 2 ensemble8 Hw [] 1 64 ltac:(lia) Htr) as Hl.
  assert (lookup ensemble8 1 64 = Ok (true, Some 1%positive, in_flight)) as E by reflexivity.
  rewrite E in Hl. exact Hl.
Qed.

Lemma ensemble_weighted_majority_witness :
  ∃ v, returns (lookup ensemble8 1 64) (λ r,
    r.1.1 = (Weights.weight_for false v (weights ensemble8) <=? Weights.weight_for true v (weights ensemble8))).
Proof.
  destruct ensemble8_ok as [Hw _].
  destruct (ensemble_weighted_majority 2 ensemble8 1 64 0 0 Hw ltac:(lia) eq_refl eq_refl)
    as (v & _ & _ & _ & Hr).
  exists v. exact Hr.
Defined.

Lemma ensemble_weights_follow_experts_witness :
  returns (update in_flight 1 64 true (Some 1%positive) false) (λ s', Weights.ok 15 (weights s')).
Proof.
  destruct in_flight_ok as [Hw Htr].
  eapply returns_mono.
  - apply (ensemble_weights_follow_experts 2 in_flight [] 1 64 true 1%positive
      (mkHist 0 0 0 false false false None true) Hw Htr ltac:(lia)). reflexivity.
  - cbv zeta. intros s' (_ & _ & _ & Hok & _). exact Hok.
Defined.

Lemma ensemble_squash_recovers_witness :
  returns (lookup ensemble8 1 64) (λ r, returns (squash r.2 1 r.1.2) (recovered 2 ensemble8)).
Proof.
  destruct ensemble8_ok as [Hw Htr].
  eapply returns_mono; [apply (ensemble_squash_recovers 2 ensemble8 [] 1 64 Hw Htr); lia|].
  intros r [Hr _]. exact Hr.
Defined.

Lemma ensemble_correct_branch_leaves_no_history_witness :
  returns (lookup ensemble8 1 64) (λ r, regs r.2 = regs ensemble8 ∧
    returns (update r.2 1 64 true r.1.2 false) (λ s', regs s' = regs ensemble8)).
Proof.
  destruct ensemble8_ok as [Hw Htr].
  eapply returns_mono;
    [apply (ensemble_correct_branch_leaves_no_history 2 ensemble8 [] 1 64 true Hw Htr); lia|].
  intros r (H1 & H2 & _). split; [exact H1|exact H2].
Defined.

Lemma ensemble_gshare_trains_current_history_witness :
  returns (lookup ensemble8 1 64) (λ r,
    returns (update (with_regs (HistRegs.with_global [0; 5] (regs ensemble8)) r.2) 1 64 true r.1.2 false)
      (λ s', vmod (SatCounter.train true) (gshareCtrs ensemble8) 5 = Ok (gshareCtrs s'))).
Proof.
  destruct ensemble8_ok as [Hw Htr].
  eapply returns_mono.
  - apply (ensemble_gshare_trains_current_history 2 ensemble8 [] 1 64 0 5 0 true Hw Htr
      ltac:(lia) eq_refl eq_refl). cbn. lia.
  - intros r [Hr _]. exact Hr.
Defined.

Lemma ensemble_gshare_out_of_range_witness :
  params_ok params_small ∧
  returns (create 0 params_small) (λ s, lookup s 0 16 = Err OutOfRange).
Proof.
  split; [exact params_small_ok|].
  exact (ensemble_gshare_out_of_range 0 params_small params_small_ok ltac:(cbn; lia)).
Defined.

Lemma ensemble_contributor_count_zero_witness :
  params_ok params8 ∧
  returns (create 0 params8) (λ s, returns (lookup s 1 64) (λ r, r.1.1 = true)).
Proof.
  split; [exact params8_ok|].
  destruct (ensemble_contributor_count_zero 0 params8 1 64 params8_ok ltac:(cbn; lia) ltac:(cbn; lia))
    as [Hc _].
  eapply returns_mono; [exact Hc|]. intros s Hs. eapply returns_mono; [exact Hs|].
  intros r [E _]. exact E.
Defined.

End EnsembleBP.
