(* ===== verification/Ensemble2.v ===== *)
(** * The second ensemble predictor ([cpu/pred/ensemble2.hh], [ensemble2.cc])

    The vote of [EnsembleBP] with the tournament of the local and the global
    predictor as third expert, two-bit weights and a smaller weight sum. *)

From S2P Require Import Prelude IntMath SatCounter Predictor HistRegs Tournament Weights.

Module EnsembleBP2.

Definition MAX_WEIGHT_SUM : Z := 5.
Definition WEIGHT_COUNTER_SIZE : Z := 2.

Record BPHistory := mkHist {
  globalHistory : Z;
  localHistoryIdx : Z;
  localHistory : Z;
  localPredTaken : bool;
  globalPredTaken : bool;
  tournamentPredTaken : bool;
  gsharePredTaken : bool;
  globalUsed : bool;
  finalPrediction : bool;
}.

Definition votes_of (h : BPHistory) : Weights.votes :=
  Weights.mkVotes (gsharePredTaken h) (globalPredTaken h) (tournamentPredTaken h).

(** The three predictions [updateAdditionalStats] compares for unanimity. *)
Definition compared_of (h : BPHistory) : Weights.votes :=
  Weights.mkVotes (gsharePredTaken h) (globalPredTaken h) (localPredTaken h).

Record Params := mkParams {
  p_numThreads : Z;
  p_instShiftAmt : Z;
  p_localPredictorSize : Z;
  p_localCtrBits : Z;
  p_localHistoryTableSize : Z;
  p_globalPredictorSize : Z;
  p_globalCtrBits : Z;
  p_choicePredictorSize : Z;
  p_choiceCtrBits : Z;
  p_gsharePredictorSize : Z;
  p_gshareCtrBits : Z;
}.

Record Cfg := mkCfg {
  localPredictorSize : Z;
  localCtrBits : Z;
  localHistoryBits : Z;
  globalPredictorSize : Z;
  globalCtrBits : Z;
  globalHistoryBits : Z;
  globalHistoryMask : Z;
  choiceHistoryMask : Z;
  choicePredictorSize : Z;
  choiceCtrBits : Z;
  gsharePredictorSize : Z;
  gshareCtrBits : Z;
  localThreshold : Z;
  globalThreshold : Z;
  gshareThreshold : Z;
  choiceThreshold : Z;
}.

Record t := mk {
  cfg : Cfg;
  regs : HistRegs.t;
  localCtrs : list SatCounter.t;
  globalCtrs : list SatCounter.t;
  gshareCtrs : list SatCounter.t;
  choiceCtrs : list SatCounter.t;
  weights : Weights.t;          (** the third weight is [tournamentWeight] *)
  histories : heap BPHistory;
  stats : Weights.stats;
}.

Definition with_regs (r : HistRegs.t) (s : t) : t :=
  mk (cfg s) r (localCtrs s) (globalCtrs s) (gshareCtrs s) (choiceCtrs s) (weights s) (histories s) (stats s).
Definition with_ctrs (l g gs c : list SatCounter.t) (s : t) : t :=
  mk (cfg s) (regs s) l g gs c (weights s) (histories s) (stats s).
Definition with_weights (w : Weights.t) (s : t) : t :=
  mk (cfg s) (regs s) (localCtrs s) (globalCtrs s) (gshareCtrs s) (choiceCtrs s) w (histories s) (stats s).
Definition with_histories (h : heap BPHistory) (s : t) : t :=
  mk (cfg s) (regs s) (localCtrs s) (globalCtrs s) (gshareCtrs s) (choiceCtrs s) (weights s) h (stats s).
Definition with_stats (st : Weights.stats) (s : t) : t :=
  mk (cfg s) (regs s) (localCtrs s) (globalCtrs s) (gshareCtrs s) (choiceCtrs s) (weights s) (histories s) st.

(** A weight is sized once per entry of its expert's table. *)
Definition create_weight (indet n : Z) : res SatCounter.t :=
  if 0 <? n then SatCounter.setBits WEIGHT_COUNTER_SIZE (SatCounter.default indet)
  else Ok (SatCounter.default indet).

Definition create (indet : Z) (p : Params) : res t :=
  localHistoryBits ← ceilLog2 (p_localPredictorSize p);
  gbits ← ceilLog2 (p_globalPredictorSize p);
  cbits ← ceilLog2 (p_choicePredictorSize p);
  let globalHistoryBits := if cbits <? gbits then gbits else cbits in
  _ ← guard_ (isPowerOf2 (p_localPredictorSize p)) (Fatal "Invalid local predictor size!");
  _ ← guard_ (isPowerOf2 (p_globalPredictorSize p)) (Fatal "Invalid global predictor size!");
  _ ← guard_ (isPowerOf2 (p_gsharePredictorSize p)) (Fatal "Invalid global predictor size!");
  localCtrs ← SatCounter.table indet (p_localPredictorSize p) (p_localCtrBits p);
  lmask ← mask localHistoryBits;
  _ ← guard_ (isPowerOf2 (p_localHistoryTableSize p)) (Fatal "Invalid local history table size!");
  globalCtrs ← SatCounter.table indet (p_globalPredictorSize p) (p_globalCtrBits p);
  globalWeight ← create_weight indet (p_globalPredictorSize p);
  tournamentWeight ← create_weight indet (p_globalPredictorSize p);
  gshareCtrs ← SatCounter.table indet (p_gsharePredictorSize p) (p_gshareCtrBits p);
  gshareWeight ← create_weight indet (p_gsharePredictorSize p);
  let choiceHistoryMask := u32 (p_choicePredictorSize p - 1) in
  choiceCtrs ← SatCounter.table indet (p_choicePredictorSize p) (p_choiceCtrBits p);
  let globalHistoryMask := u32 (p_globalPredictorSize p - 1) in
  hmask ← mask globalHistoryBits;
  let historyRegisterMask := u32 hmask in
  _ ← guard_ (negb (historyRegisterMask <? globalHistoryMask))
        (Fatal "Global predictor too large for global history bits!");
  _ ← guard_ (negb (historyRegisterMask <? choiceHistoryMask))
        (Fatal "Choice predictor too large for global history bits!");
  localThreshold ← counterThreshold (p_localCtrBits p);
  globalThreshold ← counterThreshold (p_globalCtrBits p);
  gshareThreshold ← counterThreshold (p_gshareCtrBits p);
  choiceThreshold ← counterThreshold (p_choiceCtrBits p);
  Ok (mk (mkCfg (p_localPredictorSize p) (p_localCtrBits p) localHistoryBits
            (p_globalPredictorSize p) (p_globalCtrBits p) globalHistoryBits globalHistoryMask
            choiceHistoryMask (p_choicePredictorSize p) (p_choiceCtrBits p)
            (p_gsharePredictorSize p) (p_gshareCtrBits p)
            localThreshold globalThreshold gshareThreshold choiceThreshold)
         (HistRegs.create (p_instShiftAmt p) (p_localHistoryTableSize p) (u32 lmask)
            historyRegisterMask (p_numThreads p))
         localCtrs globalCtrs gshareCtrs choiceCtrs
         (Weights.mk gshareWeight globalWeight tournamentWeight) heap_empty Weights.stats0).

Definition btbUpdate (s : t) (tid branch_addr : Z) (bp_history : ptr) : res t :=
  r ← HistRegs.btbUpdate (regs s) tid branch_addr; Ok (with_regs r s).

(** [((branch_addr >> instShiftAmt) ^ globalHistory[tid]) & globalHistoryMask] *)
Definition gshareIdx (s : t) (branch_addr g : Z) : res Z :=
  a ← shr64 branch_addr (HistRegs.instShiftAmt (regs s));
  Ok (u32 (Z.land (Z.lxor a g) (globalHistoryMask (cfg s)))).

Definition lookup (s : t) (tid branch_addr : Z) : res (bool * ptr * t) :=
  let c := cfg s in
  local_history_idx ← HistRegs.calcLocHistIdx (regs s) branch_addr;
  lh ← vget (HistRegs.localHistoryTable (regs s)) local_history_idx;
  let local_predictor_idx := Z.land lh (HistRegs.localPredictorMask (regs s)) in
  local_prediction ← predicts (localCtrs s) local_predictor_idx (localThreshold c);
  g ← vget (HistRegs.globalHistory (regs s)) tid;
  global_prediction ← predicts (globalCtrs s) (Z.land g (globalHistoryMask c)) (globalThreshold c);
  choice_prediction ← predicts (choiceCtrs s) (Z.land g (choiceHistoryMask c)) (choiceThreshold c);
  gshare_predictor_idx ← gshareIdx s branch_addr g;
  _ ← assert_ (gshare_predictor_idx <? globalPredictorSize c);
  gshare_prediction ← predicts (gshareCtrs s) gshare_predictor_idx (gshareThreshold c);
  let tournament := if choice_prediction : bool then global_prediction else local_prediction in
  _ ← assert_ (local_history_idx <? HistRegs.localHistoryTableSize (regs s));
  let final := Weights.finalPrediction
    (Weights.mkVotes gshare_prediction global_prediction tournament) (weights s) in
  let '(bp_history, hs) :=
    heap_new (histories s)
      (mkHist g local_history_idx local_predictor_idx local_prediction global_prediction
         tournament gshare_prediction choice_prediction final) in
  Ok (final, bp_history, with_histories hs s).

Definition uncondBranch (s : t) (tid pc : Z) : res (ptr * t) :=
  g ← vget (HistRegs.globalHistory (regs s)) tid;
  let '(bp_history, hs) :=
    heap_new (histories s)
      (mkHist g invalidPredictorIndex invalidPredictorIndex true true true true true true) in
  r ← HistRegs.updateGlobalHistTaken (regs s) tid;
  Ok (bp_history, with_histories hs (with_regs r s)).

Definition updateAdditionalStats (s : t) (taken : bool) (history : BPHistory)
    (c : Weights.votes) : t :=
  with_stats (Weights.updateStats taken (finalPrediction history) (votes_of history)
                (compared_of history) c (weights s) (stats s)) s.

(** The choice table moves towards the right one of local and global. *)
Definition train_choice (s : t) (taken : bool) (history : BPHistory) (old_local_pred_valid : bool)
    : res (list SatCounter.t) :=
  let choice_predictor_idx := Z.land (globalHistory history) (choiceHistoryMask (cfg s)) in
  if negb (eqb (localPredTaken history) (globalPredTaken history)) && old_local_pred_valid then
    if eqb (localPredTaken history) taken then vmod SatCounter.decrement (choiceCtrs s) choice_predictor_idx
    else if eqb (globalPredTaken history) taken then vmod SatCounter.increment (choiceCtrs s) choice_predictor_idx
    else Ok (choiceCtrs s)
  else Ok (choiceCtrs s).

(** The weights after a committed branch. *)
Definition update_weights (s : t) (taken : bool) (history : BPHistory) : t :=
  with_weights (Weights.update MAX_WEIGHT_SUM (finalPrediction history) taken (votes_of history)
                  (weights s)) s.

Definition update (s : t) (tid branch_addr : Z) (taken : bool) (bp_history : ptr)
    (squashed : bool) : res t :=
  _ ← assert_ (bool_decide (bp_history ≠ None));
  history ← heap_deref (histories s) bp_history;
  local_history_idx ← HistRegs.calcLocHistIdx (regs s) branch_addr;
  _ ← assert_ (local_history_idx <? HistRegs.localHistoryTableSize (regs s));
  let old_local_pred_valid := negb (localHistory history =? invalidPredictorIndex) in
  if squashed then
    r ← HistRegs.correct (regs s) tid local_history_idx old_local_pred_valid
          (globalHistory history) (localHistory history) taken;
    Ok (with_regs r s)
  else
    let old_local_pred_index := Z.land (localHistory history) (HistRegs.localPredictorMask (regs s)) in
    _ ← assert_ (old_local_pred_index <? localPredictorSize (cfg s));
    choice ← train_choice s taken history old_local_pred_valid;
    let global_predictor_idx := Z.land (globalHistory history) (globalHistoryMask (cfg s)) in
    g ← vget (HistRegs.globalHistory (regs s)) tid;
    gshare_predictor_idx ← gshareIdx s branch_addr g;
    let s := updateAdditionalStats s taken history
               (Weights.contributed (finalPrediction history) (votes_of history)) in
    let s := update_weights s taken history in
    global ← vmod (SatCounter.train taken) (globalCtrs s) global_predictor_idx;
    gshare ← vmod (SatCounter.train taken) (gshareCtrs s) gshare_predictor_idx;
    local ← (if old_local_pred_valid
             then vmod (SatCounter.train taken) (localCtrs s) old_local_pred_index
             else Ok (localCtrs s));
    hs ← heap_delete (histories s) bp_history;
    Ok (with_histories hs (with_ctrs local global gshare choice s)).

Definition squash (s : t) (tid : Z) (bp_history : ptr) : res t :=
  history ← heap_deref (histories s) bp_history;
  r ← HistRegs.restore (regs s) tid (globalHistory history) (localHistoryIdx history)
        (localHistory history);
  hs ← heap_delete (histories s) bp_history;
  Ok (with_histories hs (with_regs r s)).

Definition getGHR (s : t) (tid : Z) (bp_history : ptr) : res Z :=
  history ← heap_deref (histories s) bp_history; Ok (globalHistory history).

#[global] Instance ensemble2_predictor : DirPredictor t := {|
  dp_uncondBranch := uncondBranch;
  dp_lookup := lookup;
  dp_btbUpdate := btbUpdate;
  dp_update := update;
  dp_squash := squash;
  dp_getGHR := getGHR;
|}.

(** ** Invariant *)
Definition hist_ok (r : HistRegs.t) (h : BPHistory) : Prop :=
  HistRegs.snap_ok r (globalHistory h) (localHistoryIdx h) (localHistory h).

Definition max_weight : Z := SatCounter.maxOf WEIGHT_COUNTER_SIZE.

(** The gshare table is indexed under the global mask, so it must be at least
    as large as the global table. *)
Record wf (nt : Z) (s : t) : Prop := {
  wf_regs : HistRegs.wf nt (regs s);
  wf_local : SatCounter.table_ok (localPredictorSize (cfg s))
               (SatCounter.maxOf (localCtrBits (cfg s))) (localCtrs s);
  wf_lsize : HistRegs.localPredictorMask (regs s) = localPredictorSize (cfg s) - 1;
  wf_globalc : SatCounter.table_ok (globalPredictorSize (cfg s))
               (SatCounter.maxOf (globalCtrBits (cfg s))) (globalCtrs s);
  wf_gsize : is_pow2 (globalPredictorSize (cfg s)) ∧ globalPredictorSize (cfg s) < 2 ^ 32 ∧
             globalHistoryMask (cfg s) = globalPredictorSize (cfg s) - 1;
  wf_gsharec : SatCounter.table_ok (gsharePredictorSize (cfg s))
               (SatCounter.maxOf (gshareCtrBits (cfg s))) (gshareCtrs s);
  wf_gshsize : globalPredictorSize (cfg s) ≤ gsharePredictorSize (cfg s);
  wf_choice : SatCounter.table_ok (choicePredictorSize (cfg s))
               (SatCounter.maxOf (choiceCtrBits (cfg s))) (choiceCtrs s);
  wf_csize : 0 < choicePredictorSize (cfg s) ∧ choiceHistoryMask (cfg s) = choicePredictorSize (cfg s) - 1;
  wf_weights : Weights.ok max_weight (weights s);
  wf_hist : heap_all (hist_ok (regs s)) (histories s);
}.

Lemma ens2_wf_with_regs nt s r : wf nt s → HistRegs.keeps nt (regs s) r → wf nt (with_regs r s).
Proof.
  intros [] [Hw Hc]. pose proof Hc as (_ & _ & Em & _). split; cbn; try done.
  - by rewrite Em.
  - eapply map_Forall_impl; [done|]. intros a h. by apply HistRegs.snap_ok_cfg.
Qed.

Lemma ens2_wf_with_histories nt s hs :
  wf nt s → heap_all (hist_ok (regs s)) hs → wf nt (with_histories hs s).
Proof. intros [] ?. by split. Qed.

(** The gshare index of a branch under history [g]. *)
Definition gshare_slot (s : t) (pc g : Z) : Z :=
  Z.land (Z.lxor (Z.shiftr pc (HistRegs.instShiftAmt (regs s))) g) (globalHistoryMask (cfg s)).

Section wf.
Context (nt : Z) (s : t) (H : wf nt s).

Lemma ens2_local_idx x : 0 ≤ Z.land x (HistRegs.localPredictorMask (regs s)) < localPredictorSize (cfg s).
Proof.
  pose proof (HistRegs.mask_range nt _ (wf_regs _ _ H)) as [? _].
  pose proof (land_bound x (HistRegs.localPredictorMask (regs s))). rewrite (wf_lsize _ _ H) in *. lia.
Qed.

Lemma ens2_global_idx x : 0 ≤ Z.land x (globalHistoryMask (cfg s)) < globalPredictorSize (cfg s).
Proof. destruct (wf_gsize _ _ H) as (Hp & _ & ->). by apply land_size_bound, is_pow2_pos. Qed.

Lemma ens2_choice_idx x : 0 ≤ Z.land x (choiceHistoryMask (cfg s)) < choicePredictorSize (cfg s).
Proof. destruct (wf_csize _ _ H) as [? ->]. by apply land_size_bound. Qed.

Lemma ens2_gshare_idx pc g :
  0 ≤ gshare_slot s pc g < globalPredictorSize (cfg s) ∧ gshareIdx s pc g = Ok (gshare_slot s pc g).
Proof.
  pose proof (ens2_global_idx (Z.lxor (Z.shiftr pc (HistRegs.instShiftAmt (regs s))) g)) as Hi.
  split; [done|]. unfold gshareIdx. rewrite shr64_in by apply (wf_regs _ _ H). cbn [mbind res_bind].
  destruct (wf_gsize _ _ H) as (_ & ? & _). rewrite u32_id; [done|]. unfold is_u32. lia.
Qed.

Lemma ens2_lookup_Ok tid pc g x :
  0 ≤ tid < nt →
  HistRegs.globalHistory (regs s) !! Z.to_nat tid = Some g →
  HistRegs.localHistoryTable (regs s) !! Z.to_nat (HistRegs.slot (regs s) pc) = Some x →
  ∃ l gl ch gs : bool,
    let lidx := Z.land x (HistRegs.localPredictorMask (regs s)) in
    let tour := if ch then gl else l in
    let final := Weights.finalPrediction (Weights.mkVotes gs gl tour) (weights s) in
    predicts (localCtrs s) lidx (localThreshold (cfg s)) = Ok l ∧
    predicts (globalCtrs s) (Z.land g (globalHistoryMask (cfg s))) (globalThreshold (cfg s)) = Ok gl ∧
    predicts (choiceCtrs s) (Z.land g (choiceHistoryMask (cfg s))) (choiceThreshold (cfg s)) = Ok ch ∧
    predicts (gshareCtrs s) (gshare_slot s pc g) (gshareThreshold (cfg s)) = Ok gs ∧
    lookup s tid pc =
      (let '(p, hs) := heap_new (histories s)
         (mkHist g (HistRegs.slot (regs s) pc) lidx l gl tour gs ch final) in
       Ok (final, p, with_histories hs s)).
Proof.
  intros Ht Hg Hx. pose proof (wf_regs _ _ H) as Hr. pose proof (HistRegs.slot_range nt _ Hr pc) as Hi.
  destruct (ens2_gshare_idx pc g) as [Hgi Egi]. pose proof (wf_gshsize _ _ H) as Hsz.
  assert (returns (predicts (localCtrs s) (Z.land x (HistRegs.localPredictorMask (regs s)))
    (localThreshold (cfg s))) (λ _, True)) as Hl by (eapply returns_predicts; [apply H|apply ens2_local_idx|done]).
  assert (returns (predicts (globalCtrs s) (Z.land g (globalHistoryMask (cfg s)))
    (globalThreshold (cfg s))) (λ _, True)) as Hgl by (eapply returns_predicts; [apply H|apply ens2_global_idx|done]).
  assert (returns (predicts (choiceCtrs s) (Z.land g (choiceHistoryMask (cfg s)))
    (choiceThreshold (cfg s))) (λ _, True)) as Hch by (eapply returns_predicts; [apply H|apply ens2_choice_idx|done]).
  assert (returns (predicts (gshareCtrs s) (gshare_slot s pc g)
    (gshareThreshold (cfg s))) (λ _, True)) as Hgs by (eapply returns_predicts; [apply H|lia|done]).
  apply returns_iff in Hl as (l & El & _), Hgl as (gl & Egl & _), Hch as (ch & Ech & _), Hgs as (gs & Egs & _).
  exists l, gl, ch, gs. cbv zeta. split_and!; [done..|]. unfold lookup.
  rewrite (HistRegs.calcLocHistIdx_Ok nt) by done. cbn [mbind res_bind].
  rewrite (vget_in _ (HistRegs.slot (regs s) pc) x) by (lia || done). cbn [mbind res_bind].
  rewrite El. cbn [mbind res_bind].
  rewrite (vget_in _ tid g) by (lia || done). cbn [mbind res_bind]. rewrite Egl. cbn [mbind res_bind].
  rewrite Ech. cbn [mbind res_bind]. rewrite Egi. cbn [mbind res_bind]. unfold assert_.
  destruct (Z.ltb_spec (gshare_slot s pc g) (globalPredictorSize (cfg s))); [|lia]. cbn [mbind res_bind].
  rewrite Egs. cbn [mbind res_bind].
  by destruct (Z.ltb_spec (HistRegs.slot (regs s) pc) (HistRegs.localHistoryTableSize (regs s))); [|lia].
Qed.

Lemma ens2_lookup_ok l tid pc :
  0 ≤ tid < nt → heap_tracks (histories s) l →
  returns (lookup s tid pc) (λ r, wf nt r.2 ∧ heap_tracks (histories r.2) (r.1.2 :: l)).
Proof.
  intros Ht Htr. pose proof (wf_regs _ _ H) as Hr.
  destruct (HistRegs.global_exists nt _ Hr tid Ht) as (g & Hg & Hgr).
  destruct (HistRegs.local_exists nt _ Hr _ (HistRegs.slot_range nt _ Hr pc)) as [x Hx].
  destruct (ens2_lookup_Ok tid pc g x Ht Hg Hx) as (lp & gl & ch & gs & _ & _ & _ & _ & ->). cbn [heap_new returns fst snd].
  split; [|by apply (heap_tracks_new (histories s))].
  apply ens2_wf_with_histories; [done|]. apply (heap_all_new (hist_ok _) (histories s)); [apply H|].
  by apply (HistRegs.snapshot_ok nt _ tid pc g x).
Qed.

Lemma ens2_uncondBranch_ok l tid pc :
  0 ≤ tid < nt → heap_tracks (histories s) l →
  returns (uncondBranch s tid pc) (λ r, wf nt r.2 ∧ heap_tracks (histories r.2) (r.1 :: l)).
Proof.
  intros Ht Htr. pose proof (wf_regs _ _ H) as Hr. unfold uncondBranch.
  destruct (HistRegs.global_exists nt _ Hr tid Ht) as (g & Hg & Hgr).
  rewrite (vget_in _ tid g) by (lia || done). cbn [mbind res_bind heap_new]. apply returns_bind.
  eapply returns_mono; [apply (HistRegs.globalHist_keeps nt (regs s) tid Hr Ht true)|].
  intros r Hk. cbn [returns fst snd]. split; [|by apply (heap_tracks_new (histories s))].
  apply ens2_wf_with_histories; [by apply ens2_wf_with_regs|]. cbn.
  apply (heap_all_new (hist_ok _) (histories s)); [apply (ens2_wf_with_regs nt s _ H Hk)|].
  apply (HistRegs.snap_ok_cfg (regs s)); [apply Hk|]. split; [done|by left].
Qed.

Lemma ens2_btbUpdate_ok p l tid pc :
  0 ≤ tid < nt → heap_tracks (histories s) l →
  returns (btbUpdate s tid pc p) (λ s', wf nt s' ∧ heap_tracks (histories s') l).
Proof.
  intros Ht Htr. unfold btbUpdate. apply returns_bind.
  eapply returns_mono; [by apply (HistRegs.btbUpdate_keeps nt _ tid (wf_regs _ _ H) Ht)|].
  intros r Hk. split; [by apply ens2_wf_with_regs|done].
Qed.

Lemma ens2_squash_ok p l tid :
  0 ≤ tid < nt → heap_tracks (histories s) (p :: l) →
  returns (squash s tid p) (λ s', wf nt s' ∧ heap_tracks (histories s') l).
Proof.
  intros Ht Htr. unfold squash. apply returns_bind.
  eapply returns_deref; [done|apply H|]. intros a h -> Ha Hh. apply returns_bind.
  eapply returns_mono; [by apply (HistRegs.restore_keeps nt _ tid (wf_regs _ _ H) Ht)|].
  intros r Hk. apply returns_bind. eapply returns_delete; [done|apply H|]. intros hs Htr' Hall.
  split; [|done]. apply ens2_wf_with_histories; [by apply ens2_wf_with_regs|]. cbn.
  eapply map_Forall_impl; [done|]. intros ? ?. apply HistRegs.snap_ok_cfg, Hk.
Qed.

Lemma ens2_train_choice_ok taken h v :
  returns (train_choice s taken h v)
    (SatCounter.table_ok (choicePredictorSize (cfg s)) (SatCounter.maxOf (choiceCtrBits (cfg s)))).
Proof.
  pose proof (wf_choice _ _ H). unfold train_choice. destruct (_ && v); [|done].
  destruct (eqb (localPredTaken h) taken); [|destruct (eqb (globalPredTaken h) taken); [|done]];
    (eapply SatCounter.returns_train;
      [done|eauto using SatCounter.increment_ok, SatCounter.decrement_ok|apply ens2_choice_idx|done]).
Qed.

Lemma ens2_wf_trained st taken h l g gs c :
  SatCounter.table_ok (localPredictorSize (cfg s)) (SatCounter.maxOf (localCtrBits (cfg s))) l →
  SatCounter.table_ok (globalPredictorSize (cfg s)) (SatCounter.maxOf (globalCtrBits (cfg s))) g →
  SatCounter.table_ok (gsharePredictorSize (cfg s)) (SatCounter.maxOf (gshareCtrBits (cfg s))) gs →
  SatCounter.table_ok (choicePredictorSize (cfg s)) (SatCounter.maxOf (choiceCtrBits (cfg s))) c →
  wf nt (with_ctrs l g gs c (update_weights (with_stats st s) taken h)).
Proof. destruct H. split; try done. by apply Weights.weights_update_ok. Qed.

(** [update] past its assertions and table accesses. *)
Lemma ens2_update_squash_Ok tid pc taken a h :
  cells (histories s) !! a = Some h →
  update s tid pc taken (Some a) true =
    (r ← HistRegs.correct (regs s) tid (HistRegs.slot (regs s) pc)
           (negb (localHistory h =? invalidPredictorIndex)) (globalHistory h) (localHistory h) taken;
     Ok (with_regs r s)).
Proof.
  intros Ha. pose proof (HistRegs.slot_range nt _ (wf_regs _ _ H) pc). unfold update, assert_.
  rewrite bool_decide_true by done. cbn [mbind res_bind heap_deref]. rewrite Ha. cbn [mbind res_bind].
  rewrite (HistRegs.calcLocHistIdx_Ok nt) by apply H. cbn [mbind res_bind].
  by destruct (Z.ltb_spec (HistRegs.slot (regs s) pc) (HistRegs.localHistoryTableSize (regs s))); [|lia].
Qed.

Lemma ens2_update_commit_Ok tid pc taken a h g :
  0 ≤ tid < nt → cells (histories s) !! a = Some h →
  HistRegs.globalHistory (regs s) !! Z.to_nat tid = Some g →
  let valid := negb (localHistory h =? invalidPredictorIndex) in
  ∃ gc gs lc cc,
    train_choice s taken h valid = Ok cc ∧
    vmod (SatCounter.train taken) (globalCtrs s) (Z.land (globalHistory h) (globalHistoryMask (cfg s))) = Ok gc ∧
    vmod (SatCounter.train taken) (gshareCtrs s) (gshare_slot s pc g) = Ok gs ∧
    (if valid then vmod (SatCounter.train taken) (localCtrs s)
                     (Z.land (localHistory h) (HistRegs.localPredictorMask (regs s)))
     else Ok (localCtrs s)) = Ok lc ∧
    update s tid pc taken (Some a) false =
      Ok (with_histories (Heap (delete a (cells (histories s))) (next (histories s)))
           (with_ctrs lc gc gs cc (update_weights
              (updateAdditionalStats s taken h (Weights.contributed (finalPrediction h) (votes_of h)))
              taken h))) ∧
    SatCounter.table_ok (localPredictorSize (cfg s)) (SatCounter.maxOf (localCtrBits (cfg s))) lc ∧
    SatCounter.table_ok (globalPredictorSize (cfg s)) (SatCounter.maxOf (globalCtrBits (cfg s))) gc ∧
    SatCounter.table_ok (gsharePredictorSize (cfg s)) (SatCounter.maxOf (gshareCtrBits (cfg s))) gs ∧
    SatCounter.table_ok (choicePredictorSize (cfg s)) (SatCounter.maxOf (choiceCtrBits (cfg s))) cc.
Proof.
  intros Ht Ha Hg valid. pose proof (ens2_train_choice_ok taken h valid) as H0. destruct (ens2_gshare_idx pc g) as [Hgi Egi]. pose proof (wf_gshsize _ _ H) as Hsz.
  assert (returns (vmod (SatCounter.train taken) (globalCtrs s)
    (Z.land (globalHistory h) (globalHistoryMask (cfg s))))
    (SatCounter.table_ok (globalPredictorSize (cfg s)) (SatCounter.maxOf (globalCtrBits (cfg s))))) as H1.
  { eapply SatCounter.returns_train; [apply H|eauto using SatCounter.train_ok|apply ens2_global_idx|done]. }
  assert (returns (vmod (SatCounter.train taken) (gshareCtrs s) (gshare_slot s pc g))
    (SatCounter.table_ok (gsharePredictorSize (cfg s)) (SatCounter.maxOf (gshareCtrBits (cfg s))))) as H2.
  { eapply SatCounter.returns_train; [apply H|eauto using SatCounter.train_ok|lia|done]. }
  assert (returns (if valid then vmod (SatCounter.train taken) (localCtrs s)
      (Z.land (localHistory h) (HistRegs.localPredictorMask (regs s))) else Ok (localCtrs s))
    (SatCounter.table_ok (localPredictorSize (cfg s)) (SatCounter.maxOf (localCtrBits (cfg s))))) as H3.
  { destruct valid; [|apply H].
    eapply SatCounter.returns_train; [apply H|eauto using SatCounter.train_ok|apply ens2_local_idx|done]. }
  apply returns_iff in H0 as (cc & E0 & O0), H1 as (gc & E1 & O1), H2 as (gs & E2 & O2), H3 as (lc & E3 & O3).
  exists gc, gs, lc, cc. split_and!; try done.
  pose proof (HistRegs.slot_range nt _ (wf_regs _ _ H) pc). unfold update, assert_.
  rewrite bool_decide_true by done. cbn [mbind res_bind heap_deref]. rewrite Ha. cbn [mbind res_bind].
  rewrite (HistRegs.calcLocHistIdx_Ok nt) by apply H. cbn [mbind res_bind].
  destruct (Z.ltb_spec (HistRegs.slot (regs s) pc) (HistRegs.localHistoryTableSize (regs s))); [|lia].
  cbn [mbind res_bind]. pose proof (ens2_local_idx (localHistory h)).
  destruct (Z.ltb_spec (Z.land (localHistory h) (HistRegs.localPredictorMask (regs s)))
    (localPredictorSize (cfg s))); [|lia]. cbn [mbind res_bind].
  fold valid. rewrite E0. cbn [mbind res_bind].
  rewrite (vget_in _ tid g) by (lia || done). cbn [mbind res_bind]. rewrite Egi. cbn [mbind res_bind].
  cbn [globalCtrs gshareCtrs localCtrs histories update_weights with_weights updateAdditionalStats with_stats].
  rewrite E1. cbn [mbind res_bind]. rewrite E2. cbn [mbind res_bind]. rewrite E3.
  cbn [mbind res_bind]. unfold heap_delete. cbn [heap_deref]. by rewrite Ha.
Qed.

Lemma ens2_update_ok p l tid pc taken squashed :
  0 ≤ tid < nt → heap_tracks (histories s) (p :: l) →
  returns (update s tid pc taken p squashed) (λ s', wf nt s' ∧
    heap_tracks (histories s') (if squashed then p :: l else l)).
Proof.
  intros Ht Htr. destruct (heap_tracks_deref _ _ _ Htr) as (a & h & -> & Ha).
  pose proof (wf_regs _ _ H) as Hr. destruct squashed.
  - rewrite (ens2_update_squash_Ok _ _ _ _ h) by done. apply returns_bind.
    eapply returns_mono; [by apply (HistRegs.correct_keeps nt _ tid Hr Ht), (HistRegs.slot_range nt)|].
    intros r Hk. split; [by apply ens2_wf_with_regs|done].
  - destruct (HistRegs.global_exists nt _ Hr tid Ht) as (g & Hg & _).
    destruct (ens2_update_commit_Ok tid pc taken a h g Ht Ha Hg) as (gc & gs & lc & cc & _ & _ & _ & _ & -> & ? & ? & ? & ?).
    cbn [returns]. split; [|by apply heap_tracks_delete].
    apply ens2_wf_with_histories; [by apply ens2_wf_trained|]. apply (heap_all_delete _ (histories s)), H.
Qed.

End wf.

#[global] Instance ensemble2_laws : DirPredictorLaws t.
Proof.
  refine {| dp_wf := wf; dp_tracks := λ s, heap_tracks (histories s) |}.
  - intros. by apply ens2_uncondBranch_ok.
  - intros. by apply ens2_lookup_ok.
  - intros. by apply ens2_btbUpdate_ok.
  - intros. by apply (ens2_update_ok nt s H p l tid pc taken false).
  - intros. by apply (ens2_update_ok nt s H p l tid pc taken true).
  - intros. by apply ens2_squash_ok.
  - intros nt s p l tid H Htr _. cbn. unfold getGHR. apply returns_bind.
    eapply returns_deref; [done|apply H|done].
Defined.

(** ** The constructor *)
Record params_ok (p : Params) : Prop := {
  po_threads : 0 < p_numThreads p;
  po_shift : 0 ≤ p_instShiftAmt p < 64;
  po_local : is_u32 (p_localPredictorSize p) ∧ isPowerOf2 (p_localPredictorSize p) = true;
  po_table : is_u32 (p_localHistoryTableSize p) ∧ isPowerOf2 (p_localHistoryTableSize p) = true;
  po_global : is_u32 (p_globalPredictorSize p) ∧ isPowerOf2 (p_globalPredictorSize p) = true;
  po_choice : is_u32 (p_choicePredictorSize p) ∧ isPowerOf2 (p_choicePredictorSize p) = true;
  po_gshare : is_u32 (p_gsharePredictorSize p) ∧ isPowerOf2 (p_gsharePredictorSize p) = true;
  po_gshsize : p_globalPredictorSize p ≤ p_gsharePredictorSize p;
  po_lbits : 1 ≤ p_localCtrBits p < 31;
  po_gbits : 1 ≤ p_globalCtrBits p < 31;
  po_gsbits : 1 ≤ p_gshareCtrBits p < 31;
  po_cbits : 1 ≤ p_choiceCtrBits p < 31;
}.

Definition weight0 : SatCounter.t := SatCounter.mk 0 max_weight 0.

Lemma ens2_create_weight_Ok indet n : 1 ≤ n → create_weight indet n = Ok weight0.
Proof.
  intros. unfold create_weight. destruct (Z.ltb_spec 0 n); [|lia]. by rewrite SatCounter.setBits_default.
Qed.

Lemma ens2_weights0_ok : Weights.ok max_weight (Weights.mk weight0 weight0 weight0).
Proof. unfold Weights.ok, SatCounter.ok, weight0. cbn. change max_weight with 3. lia. Qed.

Lemma ens2_create_wf indet p :
  params_ok p → returns (create indet p) (λ s, wf (p_numThreads p) s ∧ heap_tracks (histories s) []).
Proof.
  intros [Hnt Hsh [Hl1 Hl2] [Ht1 Ht2] [Hg1 Hg2] [Hc1 Hc2] [Hs1 Hs2] Hle Hlb Hgb Hsb Hcb].
  destruct (pow2_facts _ Hl1 Hl2) as (kl & Hkl & El & Ecl & Eml & Hl3 & Eul).
  destruct (pow2_facts _ Hg1 Hg2) as (kg & Hkg & Eg & Ecg & Emg & Hg3 & Eug).
  destruct (pow2_facts _ Hc1 Hc2) as (kc & Hkc & Ec & Ecc & Emc & Hc3 & Euc).
  unfold create. rewrite Ecl, Ecg, Ecc. cbn [mbind res_bind].
  rewrite Hl2, Hg2, Hs2, Ht2, !SatCounter.table_val by lia. cbn [guard_ mbind res_bind].
  rewrite !ens2_create_weight_Ok by lia. cbn [mbind res_bind]. rewrite Eml. cbn [mbind res_bind].
  rewrite Eug, Euc, Eul. set (kh := if kc <? kg then kg else kc).
  assert (0 ≤ kh < 32 ∧ kg ≤ kh ∧ kc ≤ kh) as (Hkh & Hle1 & Hle2)
    by (subst kh; destruct (Z.ltb_spec kc kg); lia).
  assert (2 ^ kg ≤ 2 ^ kh ∧ 2 ^ kc ≤ 2 ^ kh) as [Hp1 Hp2] by (split; apply Z.pow_le_mono_r; lia).
  assert (2 ^ kh ≤ 2 ^ 31) by (apply Z.pow_le_mono_r; lia).
  rewrite mask_ones by lia. cbn [mbind res_bind].
  rewrite (u32_id (2 ^ kh - 1)) by (unfold is_u32; lia).
  rewrite (proj2 (Z.ltb_ge (2 ^ kh - 1) (p_globalPredictorSize p - 1))) by lia.
  rewrite (proj2 (Z.ltb_ge (2 ^ kh - 1) (p_choicePredictorSize p - 1))) by lia.
  cbn [negb guard_ mbind res_bind].
  rewrite !counterThreshold_Ok by lia. cbn [mbind res_bind returns].
  split; [|apply heap_tracks_empty]. unfold is_u32 in *.
  split; cbn; try done; try (apply SatCounter.table_fresh_ok; lia).
  - apply HistRegs.hist_create_wf; try done; try lia; [by apply isPowerOf2_iff|exists kl; rewrite El; split; lia|].
    exists kh. split; lia.
  - split_and!; [by apply isPowerOf2_iff|lia|done].
  - split; [lia|done].
Qed.

(** ** Observational equivalence *)
Record equiv (s s' : t) : Prop := {
  eq_cfg : cfg s' = cfg s;
  eq_regs : HistRegs.equiv (regs s) (regs s');
  eq_local : localCtrs s' = localCtrs s;
  eq_global : globalCtrs s' = globalCtrs s;
  eq_gshare : gshareCtrs s' = gshareCtrs s;
  eq_choice : choiceCtrs s' = choiceCtrs s;
  eq_weights : weights s' = weights s;
  eq_objects : cells (histories s') = cells (histories s);
}.

#[global] Instance ensemble2_equiv : Equivalence equiv.
Proof.
  split.
  - intros s. by split.
  - intros s s' []. by split.
  - intros a b c [] []. split; try congruence. by transitivity (regs b).
Qed.

Definition answer (s : t) (tid pc : Z) : res bool := '(b, _, _) ← lookup s tid pc; Ok b.

Lemma ens2_answer_equiv nt s s' tid pc :
  wf nt s → wf nt s' → equiv s s' → 0 ≤ tid < nt → answer s' tid pc = answer s tid pc.
Proof.
  intros H H' [Ec [(E1 & E2 & E3 & E4) Eg El] E5 E6 E7 E8 E9 _] Ht. pose proof (wf_regs _ _ H) as Hr.
  destruct (HistRegs.global_exists nt _ Hr tid Ht) as (g & Hg & Hgr).
  destruct (HistRegs.local_exists nt _ Hr _ (HistRegs.slot_range nt _ Hr pc)) as [x Hx].
  destruct (ens2_lookup_Ok nt s H tid pc g x Ht Hg Hx) as (lp & gl & ch & gs & P1 & P2 & P3 & P4 & EL).
  assert (HistRegs.slot (regs s') pc = HistRegs.slot (regs s) pc) as Es
    by (unfold HistRegs.slot; by rewrite E1, E2).
  destruct (Forall2_lookup_l _ _ _ _ _ El Hx) as (x' & Hx' & Exx). rewrite <- Es in Hx'.
  rewrite <- Eg in Hg.
  destruct (ens2_lookup_Ok nt s' H' tid pc g x' Ht Hg Hx')
    as (lp' & gl' & ch' & gs' & Q1 & Q2 & Q3 & Q4 & EL').
  unfold answer. rewrite EL, EL'. cbn [heap_new mbind res_bind].
  assert (gshare_slot s' pc g = gshare_slot s pc g) as Egs by (unfold gshare_slot; by rewrite Ec, E1).
  unfold HistRegs.same_local in Exx. rewrite Ec, E3, E5, <- Exx, P1 in Q1. rewrite Ec, E6, P2 in Q2.
  rewrite Ec, E8, P3 in Q3. rewrite Ec, Egs, E7, P4 in Q4. rewrite E9. by simplify_eq.
Qed.

Section recover.
Context (nt : Z) (s : t) (l : list ptr) (tid pc : Z).
Context (H : wf nt s) (Htr : heap_tracks (histories s) l) (Ht : 0 ≤ tid < nt).

Lemma ens2_squash_undoes g x (lp gl tr gs ch f : bool) g1 x1 :
  HistRegs.globalHistory (regs s) !! Z.to_nat tid = Some g →
  HistRegs.localHistoryTable (regs s) !! Z.to_nat (HistRegs.slot (regs s) pc) = Some x →
  0 ≤ g1 ≤ HistRegs.historyRegisterMask (regs s) →
  let i := HistRegs.slot (regs s) pc in
  let '(p, hs) := heap_new (histories s)
    (mkHist g i (Z.land x (HistRegs.localPredictorMask (regs s))) lp gl tr gs ch f) in
  returns (squash (with_histories hs (with_regs (HistRegs.set2 (regs s) tid g1 i x1) s)) tid p) (equiv s).
Proof.
  intros Hg Hx Hg1. cbn [heap_new]. unfold squash. cbn [histories with_histories heap_deref cells].
  rewrite lookup_insert_eq. cbn [mbind res_bind]. apply returns_bind.
  eapply returns_mono; [by apply (HistRegs.restore_undoes nt (regs s) tid pc g x (wf_regs _ _ H) Ht Hg Hx)|].
  intros r Hr. unfold heap_delete. cbn. rewrite lookup_insert_eq. cbn. split; try done. cbn.
  rewrite delete_insert_id; [done|]. by eapply heap_tracks_fresh.
Qed.

Definition recovered (s2 : t) : Prop :=
  equiv s s2 ∧ wf nt s2 ∧ ∀ tid' pc', 0 ≤ tid' < nt → answer s2 tid' pc' = answer s tid' pc'.

Lemma ens2_recovered_intro s1 p :
  wf nt s1 → heap_tracks (histories s1) (p :: l) → returns (squash s1 tid p) (equiv s) →
  returns (squash s1 tid p) recovered.
Proof.
  intros H1 Htr1 He. pose proof (ens2_squash_ok nt s1 H1 p l tid Ht Htr1) as Hw.
  eapply returns_mono; [apply (returns_and _ _ _ He Hw)|]. intros s2 (Heq & Hw2 & _).
  split_and!; [done..|]. intros. by apply (ens2_answer_equiv nt).
Qed.

End recover.

(** ** Theorems *)

(** The verdict of the second ensemble is the weighted majority of the
    gshare expert, the global expert and the tournament between the global and
    the local expert; ties are taken. *)
Theorem ensemble2_weighted_majority (nt : Z) (s : t) (tid pc g x : Z) :
  wf nt s → 0 ≤ tid < nt →
  HistRegs.globalHistory (regs s) !! Z.to_nat tid = Some g →
  HistRegs.localHistoryTable (regs s) !! Z.to_nat (HistRegs.slot (regs s) pc) = Some x →
  ∃ l gl ch gs : bool,
    predicts (localCtrs s) (Z.land x (HistRegs.localPredictorMask (regs s))) (localThreshold (cfg s)) = Ok l ∧
    predicts (globalCtrs s) (Z.land g (globalHistoryMask (cfg s))) (globalThreshold (cfg s)) = Ok gl ∧
    predicts (choiceCtrs s) (Z.land g (choiceHistoryMask (cfg s))) (choiceThreshold (cfg s)) = Ok ch ∧
    predicts (gshareCtrs s) (gshare_slot s pc g) (gshareThreshold (cfg s)) = Ok gs ∧
    let v := Weights.mkVotes gs gl (if ch then gl else l) in
    returns (lookup s tid pc) (λ r,
      r.1.1 = (Weights.weight_for false v (weights s) <=? Weights.weight_for true v (weights s))).
Proof.
  intros H Ht Hg Hx.
  destruct (ens2_lookup_Ok nt s H tid pc g x Ht Hg Hx) as (l & gl & ch & gs & P1 & P2 & P3 & P4 & E).
  exists l, gl, ch, gs. split_and!; [done..|]. rewrite E. apply Weights.finalPrediction_majority.
Qed.

(** The weights of the second ensemble follow its experts: at commit the
    experts that predicted the outcome lose no weight, the others gain none,
    weights stay two-bit values, and unanimous experts keep theirs. *)
Theorem ensemble2_weights_follow_experts (nt : Z) (s : t) (l : list ptr) (tid pc : Z) (taken : bool)
    (a : positive) (h : BPHistory) :
  wf nt s → heap_tracks (histories s) (Some a :: l) → 0 ≤ tid < nt →
  cells (histories s) !! a = Some h →
  returns (update s tid pc taken (Some a) false) (λ s',
    let w := weights s in
    let w' := weights s' in
    Weights.moves (eqb (gsharePredTaken h) taken) (Weights.gshareWeight w) (Weights.gshareWeight w') ∧
    Weights.moves (eqb (globalPredTaken h) taken) (Weights.globalWeight w) (Weights.globalWeight w') ∧
    Weights.moves (eqb (tournamentPredTaken h) taken) (Weights.thirdWeight w) (Weights.thirdWeight w') ∧
    Weights.ok 3 w' ∧
    (gsharePredTaken h = globalPredTaken h → globalPredTaken h = tournamentPredTaken h → w' = w)).
Proof.
  intros H Htr Ht Ha. destruct (HistRegs.global_exists nt _ (wf_regs _ _ H) tid Ht) as (g & Hg & _).
  destruct (ens2_update_commit_Ok nt s H tid pc taken a h g Ht Ha Hg)
    as (gc & gs & lc & cc & _ & _ & _ & _ & -> & _).
  cbn [returns]. pose proof (wf_weights _ _ H) as Hw.
  destruct (Weights.update_moves max_weight MAX_WEIGHT_SUM (finalPrediction h) taken (votes_of h) _ Hw)
    as (M1 & M2 & M3).
  split_and!; [done..|by apply (Weights.weights_update_ok max_weight)|].
  intros E1 E2. apply Weights.update_unanimous; cbn; congruence.
Qed.

(** Squashing a predicted branch restores the second ensemble: tables,
    choice counters, weights and history objects exactly, the histories up to
    unread bits, and so every answer; also when [btbUpdate] ran in between. *)
Theorem ensemble2_squash_recovers (nt : Z) (s : t) (l : list ptr) (tid pc : Z) :
  wf nt s → heap_tracks (histories s) l → 0 ≤ tid < nt →
  returns (lookup s tid pc) (λ r,
    returns (squash r.2 tid r.1.2) (recovered nt s) ∧
    returns (btbUpdate r.2 tid pc r.1.2) (λ s1, returns (squash s1 tid r.1.2) (recovered nt s))).
Proof.
  intros H Htr Ht. pose proof (wf_regs _ _ H) as Hr. pose proof (ens2_lookup_ok nt s H l tid pc Ht Htr) as Hlk.
  destruct (HistRegs.global_exists nt _ Hr tid Ht) as (g & Hg & Hgr).
  destruct (HistRegs.local_exists nt _ Hr _ (HistRegs.slot_range nt _ Hr pc)) as [x Hx].
  destruct (ens2_lookup_Ok nt s H tid pc g x Ht Hg Hx) as (lp & gl & ch & gs & _ & _ & _ & _ & E).
  rewrite E in *. cbn [heap_new returns fst snd] in *. destruct Hlk as [Hw Htr1]. split.
  - apply (ens2_recovered_intro nt s l tid); [done..|].
    pose proof (ens2_squash_undoes nt s l tid pc H Htr Ht g x lp gl (if ch then gl else lp) gs ch
      (Weights.finalPrediction (Weights.mkVotes gs gl (if ch then gl else lp)) (weights s)) g x Hg Hx Hgr) as Hsq.
    cbv zeta in Hsq. cbn [heap_new] in Hsq. rewrite (HistRegs.set2_id (regs s)) in Hsq by done. by destruct s.
  - pose proof (ens2_btbUpdate_ok nt _ Hw (Some (next (histories s))) _ tid pc Ht Htr1) as Hb.
    unfold btbUpdate in *. cbn [regs with_histories with_regs] in *.
    destruct (HistRegs.btbUpdate_set2 nt _ tid pc Hr Ht g x Hgr) as (g2 & x2 & Hg2 & Eb).
    rewrite (HistRegs.set2_id (regs s)) in Eb by done.
    rewrite Eb in *. cbn [mbind res_bind returns] in *. destruct Hb as [Hw2 Htr2].
    apply (ens2_recovered_intro nt s l tid); [done..|].
    by apply (ens2_squash_undoes nt s l tid pc H Htr Ht g x lp gl (if ch then gl else lp) gs ch _ g2 x2).
Qed.

(** ** Witnesses *)
Definition params8 : Params := mkParams 2 2 4 2 4 8 2 8 2 8 2.
Definition params_no_choice : Params := mkParams 2 2 4 2 4 8 2 0 2 8 2.

Definition ensemble2_8 : t :=
  ltac:(let r := eval vm_compute in (create 0 params8) in
        match r with Ok ?s => exact s end).

Lemma ensemble2_8_ok : wf 2 ensemble2_8 ∧ heap_tracks (histories ensemble2_8) [].
Proof.
  assert (params_ok params8) as Hp by (split; cbn; unfold is_u32; try lia; split; (lia || done)).
  pose proof (ens2_create_wf 0 params8 Hp) as Hc.
  assert (create 0 params8 = Ok ensemble2_8) as E by reflexivity. rewrite E in Hc. exact Hc.
Qed.

Definition in_flight2 : t :=
  ltac:(let r := eval vm_compute in (lookup ensemble2_8 1 64) in
        match r with Ok (_, _, ?s) => exact s end).

Lemma in_flight2_ok : wf 2 in_flight2 ∧ heap_tracks (histories in_flight2) [Some 1%positive].
Proof.
  destruct ensemble2_8_ok as [Hw Htr].
  pose proof (ens2_lookup_ok 2 ensemble2_8 Hw [] 1 64 ltac:(lia) Htr) as Hl.
  assert (lookup ensemble2_8 1 64 = Ok (true, Some 1%positive, in_flight2)) as E by reflexivity.
  rewrite E in Hl. exact Hl.
Qed.

(** The constructor of the second ensemble does not check the size of the
    choice table. It accepts a choice table of size zero, and the first lookup
    then reads outside that table. *)
Theorem ensemble2_choice_size_unchecked :
  returns (create 0 params_no_choice) (λ s, lookup s 0 64 = Err OutOfRange).
Proof. reflexivity. Qed.

Lemma ensemble2_weighted_majority_witness :
  ∃ v, returns (lookup ensemble2_8 1 64) (λ r, r.1.1 =
    (Weights.weight_for false v (weights ensemble2_8) <=? Weights.weight_for true v (weights ensemble2_8))).
Proof.
  destruct ensemble2_8_ok as [Hw _].
  destruct (ensemble2_weighted_majority 2 ensemble2_8 1 64 0 0 Hw ltac:(lia) eq_refl eq_refl)
    as (l & gl & ch & gs & _ & _ & _ & _ & Hr).
  eexists. exact Hr.
Defined.

Lemma ensemble2_weights_follow_experts_witness :
  returns (update in_flight2 1 64 true (Some 1%positive) false) (λ s', Weights.ok 3 (weights s')).
Proof.
  destruct in_flight2_ok as [Hw Htr].
  eapply returns_mono.
  - apply (ensemble2_weights_follow_experts 2 in_flight2 [] 1 64 true 1%positive
      (mkHist 0 0 0 false false false false false true) Hw Htr ltac:(lia)). reflexivity.
  - cbv zeta. intros s' (_ & _ & _ & Hok & _). exact Hok.
Defined.

Lemma ensemble2_squash_recovers_witness :
  returns (lookup ensemble2_8 1 64) (λ r, returns (squash r.2 1 r.1.2) (recovered 2 ensemble2_8)).
Proof.
  destruct ensemble2_8_ok as [Hw Htr].
  eapply returns_mono; [apply (ensemble2_squash_recovers 2 ensemble2_8 [] 1 64 Hw Htr); lia|].
  intros r [Hr _]. exact Hr.
Defined.

End EnsembleBP2.
