(* ===== verification/BPredUnitSpec.v ===== *)
(** * The branch prediction unit: the call protocol and its theorems

    The unit as a state machine driven by the pipeline: [Predict] at fetch,
    [Commit] when instructions up to a sequence number retire, [Squash] for an
    external squash and [Mispredict] when a branch resolves against its
    prediction.  The safety theorem holds for any direction predictor that
    satisfies the interface laws; the queue theorem refines the per-thread
    history to a list of in-flight branches; the recovery theorem is about the
    return address stack and the path history. *)

From S2P Require Import Prelude IntMath SatCounter Isa Ras Btb Indirect Predictor.
From S2P Require Import BPredUnit BPredUnitInv LocalBP Tournament.

Module UnitSpec.
Import BPredUnit UnitInv.
Section spec.
Context {ISA : TheISA}.
Context {S : Type} `{DirPredictorLaws S}.
Local Notation t := (@BPredUnit.t ISA S).

Inductive event :=
| Predict (inst : StaticInst) (seqNum : Z) (pc : PCState) (tid : Z)
| Commit (done_sn tid : Z)
| Squash (squashed_sn tid : Z)
| Mispredict (rnd squashed_sn : Z) (corrTarget : PCState) (actually_taken : bool) (tid : Z).

Definition step (u : t) (e : event) : res t :=
  match e with
  | Predict inst sn pcs tid => '(_, u') ← predict u inst sn pcs tid; Ok u'
  | Commit sn tid => update u sn tid
  | Squash sn tid => squash u sn tid
  | Mispredict rnd sn tgt taken tid => squash_mispredict rnd u sn tgt taken tid
  end.

Definition thread_in (u : t) (tid : Z) : bool := (0 <=? tid) && (tid <? numThreads u).

(** What the pipeline guarantees: a thread that exists, a sequence number above
    those the thread has in flight or in its path history, and a misprediction
    reported for a branch that is still in the history (or for a thread with
    nothing left in flight). *)
Definition allowed (u : t) (e : event) : bool :=
  match e with
  | Predict _ sn _ tid =>
      thread_in u tid &&
      match predHist u !! Z.to_nat tid, IndirectPredictor.threadInfo (iPred u) !! Z.to_nat tid with
      | Some ph, Some ti =>
          forallb (λ h, seqNum h <? sn) ph &&
          forallb (λ e, IndirectPredictor.seqNum e <? sn) (IndirectPredictor.pathHist ti)
      | _, _ => false
      end
  | Commit _ tid | Squash _ tid => thread_in u tid
  | Mispredict _ sn _ _ tid =>
      thread_in u tid &&
      match predHist u !! Z.to_nat tid with
      | Some ph => match filter (λ h, seqNum h ≤ sn) ph with
                   | [] => true
                   | h :: _ => seqNum h =? sn
                   end
      | None => false
      end
  end.

Inductive reachable (u0 : t) : t → Prop :=
| reach_init : reachable u0 u0
| reach_step u e u' :
    reachable u0 u → allowed u e = true → step u e = Ok u' → reachable u0 u'.

(** ** The abstract queues: address and sequence number of every branch in
    flight, youngest first, one list per thread. *)
Definition queue (ph : list PredictorHistory) : list (Z * Z) := key <$> ph.
Definition queues (u : t) : list (list (Z * Z)) := queue <$> predHist u.

Definition queue_step (q : list (list (Z * Z))) (e : event) : list (list (Z * Z)) :=
  match e with
  | Predict _ sn pcs tid => alter (λ l, (instAddr pcs, sn) :: l) (Z.to_nat tid) q
  | Commit sn tid => alter (filter (λ k, sn < k.2)) (Z.to_nat tid) q
  | Squash sn tid | Mispredict _ sn _ _ tid => alter (filter (λ k, k.2 ≤ sn)) (Z.to_nat tid) q
  end.

Lemma queues_insert (u u' : t) i ph ph' f :
  predHist u !! i = Some ph → predHist u' = <[i := ph']> (predHist u) →
  key <$> ph' = f (key <$> ph) → queues u' = alter f i (queues u).
Proof.
  intros Hph Hph' E. unfold queues. rewrite Hph', list_fmap_insert. unfold queue at 1. rewrite E. symmetry.
  apply list_eq. intros j. destruct (decide (i = j)) as [->|].
  - rewrite list_lookup_alter_eq, list_lookup_insert_eq, list_lookup_fmap, Hph; [done|].
    rewrite length_fmap. by eapply lookup_lt_Some.
  - by rewrite list_lookup_alter_ne, list_lookup_insert_ne.
Qed.

Lemma thread_in_range u tid : thread_in u tid = true ↔ 0 ≤ tid < numThreads u.
Proof. unfold thread_in. rewrite andb_true_iff, Z.leb_le, Z.ltb_lt. done. Qed.

Lemma allowed_fresh u inst sn pcs tid ti ph :
  allowed u (Predict inst sn pcs tid) = true →
  IndirectPredictor.threadInfo (iPred u) !! Z.to_nat tid = Some ti →
  predHist u !! Z.to_nat tid = Some ph → fresh_sn sn ti ph.
Proof.
  cbn. intros Ha Hti Hph. rewrite Hti, Hph in Ha. apply andb_true_iff in Ha as [_ Ha]. apply andb_true_iff in Ha as [H1 H2].
  rewrite forallb_forall in H1, H2.
  split; apply Forall_forall; intros x Hx; apply Z.ltb_lt;
    [apply H1|apply H2]; by apply list_elem_of_In.
Qed.

Lemma allowed_resolves u rnd sn tgt taken tid ph :
  allowed u (Mispredict rnd sn tgt taken tid) = true →
  predHist u !! Z.to_nat tid = Some ph → resolves ph sn.
Proof.
  cbn. intros Ha Hph. rewrite Hph in Ha. apply andb_true_iff in Ha as [_ Ha]. intros h Hh.
  destruct (filter _ ph); [done|]. cbn in Hh. simplify_eq. by apply Z.eqb_eq.
Qed.

(** One step: no error, the invariant, and the step of the queues. *)
Lemma step_ok u e :
  inv u → allowed u e = true →
  returns (step u e) (λ u', inv u' ∧ numThreads u' = numThreads u ∧
    queues u' = queue_step (queues u) e).
Proof.
  intros Hi Ha. destruct e as [inst sn pcs tid|sn tid|sn tid|rnd sn tgt taken tid]; cbn [step].
  - assert (0 ≤ tid < numThreads u) as Ht.
    { by apply andb_true_iff in Ha as [? _]; apply thread_in_range. }
    apply returns_bind. eapply returns_mono.
    { apply predict_inv; [done..|]. intros. by eapply allowed_fresh. }
    intros [[b tgt] u'] (Hi' & Hnt & h & ph & Hph & Hph' & Esn & Epc). cbn [fst snd] in *.
    split_and!; [done..|]. eapply queues_insert; [done..|].
    rewrite fmap_cons. unfold key at 1. by rewrite Esn, Epc.
  - apply thread_in_range in Ha. eapply returns_mono; [by apply update_inv|].
    intros u' (Hi' & Hnt & ph & Hph & Hph'). split_and!; [done..|].
    eapply queues_insert; [done..|]. by rewrite list_filter_fmap_key.
  - apply thread_in_range in Ha. eapply returns_mono; [by apply squash_inv|].
    intros u' (Hi' & Hnt & ph & Hph & Hph'). split_and!; [done..|].
    eapply queues_insert; [done..|]. by rewrite list_filter_fmap_key.
  - assert (0 ≤ tid < numThreads u) as Ht.
    { by apply andb_true_iff in Ha as [? _]; apply thread_in_range. }
    eapply returns_mono.
    { apply squash_mispredict_inv; [done..|]. intros. by eapply allowed_resolves. }
    intros u' (Hi' & Hnt & ph & ph' & Hph & Ek & Hph'). split_and!; [done..|].
    eapply queues_insert; [done..|]. by rewrite list_filter_fmap_key.
Qed.

Lemma reachable_inv u0 u : inv u0 → reachable u0 u → inv u.
Proof.
  intros Hinit. induction 1 as [|u e u' _ IH Ha E]; [done|].
  pose proof (step_ok u e IH Ha) as Hs. rewrite E in Hs. apply Hs.
Qed.

Lemma drained_join (l : list (list PredictorHistory)) :
  forallb (λ ph, match ph with [] => true | _ => false end) l = true → mjoin l = [].
Proof. induction l as [|[|? ?] l IH]; cbn; [done|apply IH|done]. Qed.

(** ** What one prediction does to the return stack and the path history *)
Section effect.
Context (tid : Z) (r0 : ReturnAddrStack.t).

(** The stack [r] after a prediction recorded as [h], from the stack [r0]. *)
Definition ras_link (r : ReturnAddrStack.t) (h : PredictorHistory) : Prop :=
  if usedRAS h then
    ReturnAddrStack.top r0 = Ok (RASTarget h) ∧ RASIndex h = ReturnAddrStack.tos r0 ∧
    r = ReturnAddrStack.pop r0
  else if wasCall h && pushedRAS h then ∃ a, ReturnAddrStack.push a r0 = Ok r
  else r = r0 ∨ ∃ a r1, ReturnAddrStack.push a r0 = Ok r1 ∧ r = ReturnAddrStack.pop r1.

Definition path_link (u u' : t) (sn : Z) : Prop :=
  IndirectPredictor.threadInfo (iPred u') = IndirectPredictor.threadInfo (iPred u) ∨
  ∃ ti e, IndirectPredictor.threadInfo (iPred u) !! Z.to_nat tid = Some ti ∧
    IndirectPredictor.seqNum e = sn ∧
    IndirectPredictor.threadInfo (iPred u') =
      <[Z.to_nat tid := IndirectPredictor.mkTI (IndirectPredictor.pathHist ti ++ [e])
          (IndirectPredictor.headHistEntry ti)]> (IndirectPredictor.threadInfo (iPred u)).

Lemma path_link_base u u1 u' sn : iPred u1 = iPred u → path_link u1 u' sn → path_link u u' sn.
Proof. unfold path_link. by intros ->. Qed.

(** The effect up to the path history, and with it. *)
Record eff0 (u u' : t) (h : PredictorHistory) : Prop := {
  e_hist : predHist u' = predHist u;
  e_ras : ∃ r, RAS u' = <[Z.to_nat tid := r]> (RAS u) ∧ ras_link r h;
  e_ip : iPred u' = iPred u;
}.

Record eff (u : t) (sn : Z) (u' : t) (h : PredictorHistory) : Prop := {
  e_hist' : predHist u' = predHist u;
  e_ras' : ∃ r, RAS u' = <[Z.to_nat tid := r]> (RAS u) ∧ ras_link r h;
  e_path' : path_link u u' sn;
}.

Lemma eff0_eff u sn u' h : eff0 u u' h → eff u sn u' h.
Proof. intros [? ? E]. split; try done. left. by rewrite E. Qed.

Lemma set_RAS_Ok (u u' : t) r :
  set_RAS u tid r = Ok u' → u' = with_RAS (<[Z.to_nat tid := r]> (RAS u)) u.
Proof. unfold set_RAS. intros E. by res_inv. Qed.

Lemma pop_RAS_Ok (u u' : t) :
  pop_RAS u tid = Ok u' → ∃ r, RAS u !! Z.to_nat tid = Some r ∧
    u' = with_RAS (<[Z.to_nat tid := ReturnAddrStack.pop r]> (RAS u)) u.
Proof.
  unfold pop_RAS. intros E. apply bind_Ok in E as (r & Hr & E).
  apply vget_Ok in Hr as [_ Hr]. apply set_RAS_Ok in E. eauto.
Qed.

(** A record as the constructor leaves it. *)
Definition plain (h : PredictorHistory) : Prop :=
  usedRAS h = false ∧ wasCall h = false ∧ pushedRAS h = false.

Lemma predict_return_eff u pcs h u' h' tgt :
  RAS u !! Z.to_nat tid = Some r0 →
  predict_return u pcs tid h = Ok (u', h', tgt) → eff0 u u' h' ∧ seqNum h' = seqNum h.
Proof.
  intros Hr E. unfold predict_return in E. apply bind_Ok in E as (r & Hr' & E).
  apply vget_Ok in Hr' as [_ Hr']. change (RAS (bump _ u)) with (RAS u) in Hr'. simplify_eq.
  apply bind_Ok in E as (v & Hv & E). apply bind_Ok in E as (u1 & Hs & E).
  apply set_RAS_Ok in Hs. injection E as <- <- <-. subst u1. split; [|done].
  split; [done| |done]. by exists (ReturnAddrStack.pop r0).
Qed.

Definition called (inst : StaticInst) (pcs : PCState) (u u' : t) (h : PredictorHistory) : Prop :=
  if isCall inst then
    wasCall h = true ∧ pushedRAS h = true ∧
    ∃ r, ReturnAddrStack.push pcs r0 = Ok r ∧ RAS u' = <[Z.to_nat tid := r]> (RAS u)
  else wasCall h = false ∧ pushedRAS h = false ∧ RAS u' = RAS u.

(** After [predict_call]: pushed for a call, untouched otherwise. *)
Lemma predict_call_eff u inst pcs h u' h' :
  RAS u !! Z.to_nat tid = Some r0 → plain h →
  predict_call u inst pcs tid h = Ok (u', h') →
  seqNum h' = seqNum h ∧ usedRAS h' = false ∧ iPred u' = iPred u ∧ predHist u' = predHist u ∧
  BTB u' = BTB u ∧ useIndirect u' = useIndirect u ∧
  called inst pcs u u' h'.
Proof.
  unfold called.
  intros Hr (H1 & H2 & H3) E. unfold predict_call in E. destruct (isCall inst); [|by simplify_eq].
  apply bind_Ok in E as (r & Hr' & E). apply vget_Ok in Hr' as [_ Hr']. simplify_eq.
  apply bind_Ok in E as (r1 & Hp & E). apply bind_Ok in E as (u1 & Hs & E).
  apply set_RAS_Ok in Hs. injection E as <- <-. subst u1. cbn. split_and!; try done. by exists r1.
Qed.

Lemma link_call u u' inst pcs h :
  RAS u !! Z.to_nat tid = Some r0 → usedRAS h = false →
  called inst pcs u u' h →
  ∃ r, RAS u' = <[Z.to_nat tid := r]> (RAS u) ∧ ras_link r h.
Proof.
  intros Hr Hu Hc. unfold called, ras_link in *. rewrite Hu. destruct (isCall inst).
  - destruct Hc as (-> & -> & r & Hp & E). exists r. split; [done|]. by exists pcs.
  - destruct Hc as (-> & -> & E). exists r0. split; [|by left]. by rewrite list_insert_id.
Qed.

(** The cancelled push of a conditional call that misses. *)
Lemma link_cancel u u1 u' inst pcs h :
  called inst pcs u u1 h →
  isCall inst = true → usedRAS h = false → (Z.to_nat tid < length (RAS u))%nat →
  pop_RAS u1 tid = Ok u' →
  (∃ r, RAS u' = <[Z.to_nat tid := r]> (RAS u) ∧ ras_link r (set_pushedRAS false h)) ∧
  iPred u' = iPred u1 ∧ predHist u' = predHist u1.
Proof.
  intros Hc Ec Hu Hlen Hp. unfold called in Hc. rewrite Ec in Hc. destruct Hc as (Hw & _ & r & Hpush & E).
  apply pop_RAS_Ok in Hp as (r1 & Hr1 & ->). rewrite E, list_lookup_insert_eq in Hr1 by done.
  simplify_eq. split; [|done]. exists (ReturnAddrStack.pop r1). cbn.
  rewrite E, list_insert_insert_eq. split; [done|]. unfold ras_link. cbn. rewrite Hu, Hw. cbn.
  right. by exists pcs, r1.
Qed.

Lemma predict_btb_eff u u1 inst pcs pcA h u' h' tgt tgt' b p :
  RAS u !! Z.to_nat tid = Some r0 → usedRAS h = false → called inst pcs u u1 h →
  predict_btb u1 inst pcA tid p tgt h = Ok (u', h', tgt', b) →
  (∃ r, RAS u' = <[Z.to_nat tid := r]> (RAS u) ∧ ras_link r h') ∧
  iPred u' = iPred u1 ∧ predHist u' = predHist u1 ∧ seqNum h' = seqNum h.
Proof.
  intros Hr Hu Hc E. pose proof (lookup_lt_Some _ _ _ Hr) as Hlen.
  assert (∃ r, RAS u1 = <[Z.to_nat tid := r]> (RAS u) ∧ ras_link r h) as Hl by (by eapply link_call).
  unfold predict_btb in E. apply bind_Ok in E as (v & _ & E). destruct v.
  { apply bind_Ok in E as (tg & _ & E). by injection E as <- <- <- <-. }
  apply bind_Ok in E as ([u2 h2] & E1 & E). injection E as <- <- <- <-.
  destruct (negb (isCall inst) && negb (isReturn inst)).
  { apply bind_Ok in E1 as (s & _ & E1). by injection E1 as <- <-. }
  destruct (isCall inst && negb (isUncondCtrl inst)) eqn:Ec; [|by injection E1 as <- <-].
  apply andb_true_iff in Ec as [Ec _]. apply bind_Ok in E1 as (u3 & Hp & E1).
  injection E1 as <- <-. by destruct (link_cancel u u1 u3 inst pcs h Hc Ec Hu Hlen Hp) as (? & ? & ?).
Qed.

Lemma recordIndirect_path (ip ip' : IndirectPredictor.t) br tg sn :
  IndirectPredictor.recordIndirect ip br tg sn tid = Ok ip' →
  ∃ ti, IndirectPredictor.threadInfo ip !! Z.to_nat tid = Some ti ∧
    IndirectPredictor.threadInfo ip' =
      <[Z.to_nat tid := IndirectPredictor.mkTI
          (IndirectPredictor.pathHist ti ++ [IndirectPredictor.mkHist br tg sn])
          (IndirectPredictor.headHistEntry ti)]> (IndirectPredictor.threadInfo ip).
Proof.
  unfold IndirectPredictor.recordIndirect. intros E. apply bind_Ok in E as (ti & Hti & E).
  apply vget_Ok in Hti as [_ Hti]. apply bind_Ok in E as (l & Hl & E).
  apply vset_Ok in Hl as [_ ->]. injection E as <-. by exists ti.
Qed.

Lemma predict_indirect_eff u u1 inst pcs pcA h u' h' tgt tgt' b p sn :
  RAS u !! Z.to_nat tid = Some r0 → usedRAS h = false → called inst pcs u u1 h →
  iPred u1 = iPred u → predHist u1 = predHist u →
  predict_indirect u1 inst sn pcA tid p tgt h = Ok (u', h', tgt', b) →
  eff u sn u' h' ∧ seqNum h' = seqNum h.
Proof.
  intros Hr Hu Hc Eip Eph E. pose proof (lookup_lt_Some _ _ _ Hr) as Hlen.
  assert (∃ r, RAS u1 = <[Z.to_nat tid := r]> (RAS u) ∧ ras_link r (set_wasIndirect true h)) as Hl
    by (by eapply link_call).
  unfold predict_indirect in E. apply bind_Ok in E as (ghr & _ & E).
  apply bind_Ok in E as ([found tg] & _ & E). apply bind_Ok in E as ([[[u2 h2] t2] b2] & E1 & E).
  apply bind_Ok in E as (ip & Hrec & E). injection E as <- <- <- <-.
  assert ((∃ r, RAS u2 = <[Z.to_nat tid := r]> (RAS u) ∧ ras_link r h2) ∧
          iPred u2 = iPred u1 ∧ predHist u2 = predHist u1 ∧ seqNum h2 = seqNum h)
    as (Hl2 & Eip2 & Eph2 & Esn).
  { destruct found; [by injection E1 as <- <- <- <-|].
    apply bind_Ok in E1 as ([u3 h3] & E1 & E2). injection E2 as <- <- <- <-.
    destruct (negb (isCall inst) && negb (isReturn inst)); [by injection E1 as <- <-|].
    destruct (isCall inst && negb (isUncondCtrl inst)) eqn:Ec; [|by injection E1 as <- <-].
    apply andb_true_iff in Ec as [Ec _]. apply bind_Ok in E1 as (u4 & Hp & E1). injection E1 as <- <-.
    by destruct (link_cancel u (bump indirectMisses (bump indirectLookups u1)) u4 inst pcs
                   (set_wasIndirect true h) Hc Ec Hu Hlen Hp) as (? & ? & ?). }
  split; [|done]. split; cbn; [by rewrite Eph2|done|]. right.
  apply recordIndirect_path in Hrec as (ti & Hti & Eti). rewrite Eip2, Eip in *.
  by exists ti, (IndirectPredictor.mkHist (instAddr pcA) (instAddr t2) sn).
Qed.

Lemma predict_eff u inst sn pcs b tgt u' ph :
  RAS u !! Z.to_nat tid = Some r0 → predHist u !! Z.to_nat tid = Some ph →
  predict u inst sn pcs tid = Ok (b, tgt, u') →
  ∃ h, predHist u' = <[Z.to_nat tid := h :: ph]> (predHist u) ∧ seqNum h = sn ∧
    (∃ r, RAS u' = <[Z.to_nat tid := r]> (RAS u) ∧ ras_link r h) ∧ path_link u u' sn.
Proof.
  intros Hr Hph E. unfold predict in E.
  apply bind_Ok in E as ([[b0 p] u1] & E1 & E).
  assert (RAS u1 = RAS u ∧ iPred u1 = iPred u ∧ predHist u1 = predHist u) as (Er1 & Ei1 & Eh1).
  { destruct (isUncondCtrl inst).
    - apply bind_Ok in E1 as ([q s] & _ & E1). by injection E1 as <- <- <-.
    - apply bind_Ok in E1 as ([[b1 q] s] & _ & E1). by injection E1 as <- <- <-. }
  clear E1. set (h0 := PredictorHistory_new _ _ _ _ _) in E.
  apply bind_Ok in E as ([[[u2 h] tg] b2] & E2 & E).
  assert (eff u sn u2 h ∧ seqNum h = sn) as [[Eh Hras Hpath] Esn].
  { rewrite <- Er1 in Hr. destruct b0; [destruct (isReturn inst)|].
    - apply bind_Ok in E2 as ([[u3 h3] tg3] & E2 & E3). injection E3 as <- <- <- <-.
      apply predict_return_eff in E2 as [He Es]; [|done]. split; [|by rewrite Es].
      apply (eff0_eff _ sn) in He. destruct He as [? [r ?] Hp].
      split; [congruence|exists r; by rewrite <- Er1|by eapply path_link_base].
    - apply bind_Ok in E2 as ([u3 h3] & E2 & E3).
      apply predict_call_eff in E2 as (Esn & Hu & Ei & Eh & Eb & Ev & Hc); [|done..].
      cbn in Ei, Eh. destruct (isDirectCtrl inst || negb (useIndirect u3)).
      + apply (predict_btb_eff u1 u3 inst pcs) in E3 as (Hl & Ei3 & Eh3 & Es3); [|done..].
        split; [|by rewrite Es3, Esn]. split; [congruence|by rewrite <- Er1|left; congruence].
      + apply (predict_indirect_eff u1 u3 inst pcs) in E3 as [[? ? Hp] Es3]; [|done..].
        split; [|by rewrite Es3, Esn].
        split; [congruence|by rewrite <- Er1|by eapply path_link_base].
    - injection E2 as <- <- <- <-. split; [|by destruct (isReturn inst)].
      split; [done| |left; by rewrite Ei1]. exists r0. rewrite list_insert_id by congruence.
      split; [done|]. destruct (isReturn inst); by left. }
  apply bind_Ok in E as (ph' & Hph' & E). apply vget_Ok in Hph' as [_ Hph'].
  apply bind_Ok in E as (l & Hl & E). apply vset_Ok in Hl as [_ ->]. injection E as <- <- <-.
  rewrite Eh in *. simplify_eq. by exists h.
Qed.

(** The undo step of [squash] for one record. *)
Definition undo_RAS (h : PredictorHistory) (r : ReturnAddrStack.t) : res ReturnAddrStack.t :=
  if usedRAS h then ReturnAddrStack.restore (RASIndex h) (RASTarget h) r
  else if wasCall h && pushedRAS h then Ok (ReturnAddrStack.pop r) else Ok r.

Lemma link_undo r h :
  ReturnAddrStack.wf r0 → ras_link r h →
  returns (undo_RAS h r) (ReturnAddrStack.same_but_above r0).
Proof.
  intros Hwf Hl. unfold ras_link, undo_RAS in *. destruct (usedRAS h).
  - destruct Hl as (Ht & -> & ->). rewrite ReturnAddrStack.restore_pop by done. done.
  - destruct (wasCall h && pushedRAS h).
    + destruct Hl as [a Hp]. by apply (ReturnAddrStack.pop_push r0 r a).
    + destruct Hl as [->|(a & r1 & Hp & ->)]; [done|]. by apply (ReturnAddrStack.pop_push r0 r1 a).
Qed.

Lemma squash_loop_stop (s : S) r sq hist :
  Forall (λ h, seqNum h ≤ sq) hist → squash_loop s r sq tid hist = Ok (s, r, hist).
Proof.
  intros Hh. destruct hist as [|h hist]; [done|]. apply Forall_cons in Hh as [Hh _]. cbn [squash_loop].
  by destruct (Z.ltb_spec sq (seqNum h)); [lia|].
Qed.

(** [squash] when only the front branch is younger than [sq]. *)
Lemma squash_one u u' sq h ph r :
  predHist u !! Z.to_nat tid = Some (h :: ph) → RAS u !! Z.to_nat tid = Some r →
  sq < seqNum h → Forall (λ h, seqNum h ≤ sq) ph → squash u sq tid = Ok u' →
  ∃ r' ti, undo_RAS h r = Ok r' ∧ RAS u' = <[Z.to_nat tid := r']> (RAS u) ∧
    IndirectPredictor.threadInfo (iPred u) !! Z.to_nat tid = Some ti ∧
    IndirectPredictor.threadInfo (iPred u') =
      <[Z.to_nat tid := IndirectPredictor.mkTI
          (IndirectPredictor.squash_prefix sq (IndirectPredictor.pathHist ti))
          (IndirectPredictor.headHistEntry ti)]> (IndirectPredictor.threadInfo (iPred u)).
Proof.
  intros Hph Hr Hsn Hold E. unfold squash in E.
  apply bind_Ok in E as (ip & Hip & E). apply bind_Ok in E as (ph' & Hph' & E).
  apply vget_Ok in Hph' as [_ Hph']. apply bind_Ok in E as (r' & Hr' & E).
  apply vget_Ok in Hr' as [_ Hr']. simplify_eq. apply bind_Ok in E as ([[s r1] rest] & Hloop & E).
  apply bind_Ok in E as (u1 & Hs & E). apply set_RAS_Ok in Hs.
  apply bind_Ok in E as (l & _ & E). injection E as <-. subst u1. cbn.
  cbn [squash_loop] in Hloop. destruct (Z.ltb_spec sq (seqNum h)); [|lia].
  apply bind_Ok in Hloop as (r2 & Hu2 & Hloop). apply bind_Ok in Hloop as (s2 & _ & Hloop).
  rewrite squash_loop_stop in Hloop by done. injection Hloop as <- <- <-.
  unfold IndirectPredictor.squash in Hip. apply bind_Ok in Hip as (ti & Hti & Hip).
  apply vget_Ok in Hti as [_ Hti]. apply bind_Ok in Hip as (l' & Hl' & Hip).
  apply vset_Ok in Hl' as [_ ->]. injection Hip as <-. by exists r2, ti.
Qed.

(** [squash] when no branch is younger than [sq]. *)
Lemma squash_none u u' sq ph :
  predHist u !! Z.to_nat tid = Some ph → Forall (λ h, seqNum h ≤ sq) ph →
  squash u sq tid = Ok u' → predHist u' = predHist u ∧ RAS u' = RAS u.
Proof.
  intros Hph Hold E. unfold squash in E. apply bind_Ok in E as (ip & _ & E).
  apply bind_Ok in E as (ph' & Hph' & E). apply vget_Ok in Hph' as [_ Hph'].
  apply bind_Ok in E as (r & Hr & E). apply vget_Ok in Hr as [_ Hr]. simplify_eq.
  rewrite squash_loop_stop in E by done. cbn [mbind res_bind] in E.
  apply bind_Ok in E as (u1 & Hs & E). apply set_RAS_Ok in Hs. subst u1.
  apply bind_Ok in E as (l & Hl & E). apply vset_Ok in Hl as [_ ->]. injection E as <-. cbn.
  by rewrite !list_insert_id.
Qed.

Lemma squash_prefix_old sq l :
  Forall (λ e, IndirectPredictor.seqNum e ≤ sq) l → IndirectPredictor.squash_prefix sq l = l.
Proof.
  induction 1 as [|x l Hx Hl IH]; cbn; [done|].
  destruct (Z.ltb_spec sq (IndirectPredictor.seqNum x)); [lia|]. by rewrite IH.
Qed.

Lemma squash_prefix_snoc sq l e :
  Forall (λ e, IndirectPredictor.seqNum e ≤ sq) l → sq < IndirectPredictor.seqNum e →
  IndirectPredictor.squash_prefix sq (l ++ [e]) = l.
Proof.
  intros Hl He. induction Hl as [|x l Hx Hl IH]; cbn.
  - by destruct (Z.ltb_spec sq (IndirectPredictor.seqNum e)); [|lia].
  - destruct (Z.ltb_spec sq (IndirectPredictor.seqNum x)); [lia|]. by rewrite IH.
Qed.

Lemma path_link_undo u u1 sn sq ti ti1 :
  path_link u u1 sn → sq < sn →
  IndirectPredictor.threadInfo (iPred u) !! Z.to_nat tid = Some ti →
  Forall (λ e, IndirectPredictor.seqNum e ≤ sq) (IndirectPredictor.pathHist ti) →
  IndirectPredictor.threadInfo (iPred u1) !! Z.to_nat tid = Some ti1 →
  <[Z.to_nat tid := IndirectPredictor.mkTI
      (IndirectPredictor.squash_prefix sq (IndirectPredictor.pathHist ti1))
      (IndirectPredictor.headHistEntry ti1)]> (IndirectPredictor.threadInfo (iPred u1)) =
  IndirectPredictor.threadInfo (iPred u).
Proof.
  intros Hl Hsn Hti Hold Hti1. destruct Hl as [E|(ti0 & e & Hti0 & Ee & E)].
  - rewrite E in *. simplify_eq. rewrite squash_prefix_old by done.
    apply list_insert_id. by destruct ti.
  - assert (ti0 = ti) as -> by congruence. pose proof (lookup_lt_Some _ _ _ Hti).
    rewrite E, list_lookup_insert_eq in Hti1 by done. injection Hti1 as <-. cbn.
    rewrite squash_prefix_snoc by (done || lia). rewrite E, list_insert_insert_eq.
    apply list_insert_id. by destruct ti.
Qed.

End effect.

(** ** Theorems *)

(** C1: safety of the branch prediction unit, for every direction predictor
    that satisfies the interface laws. With parameters the constructor accepts,
    the unit is built, and from then on every call sequence the pipeline may
    issue runs without a failed assertion, an access outside a table, an
    undefined shift, or a use of a dangling history pointer; the direction
    predictor's outstanding history objects are at every moment exactly those of
    the branches in flight, so when [drainSanityCheck] passes none is left. *)
Theorem unit_safety (indet : Z) (p : Params) (s : S) :
  params_ok p → dp_wf (p_numThreads p) s → dp_tracks s [] →
  returns (create indet p s) (λ u0, ∀ u, reachable u0 u →
    (∀ e, allowed u e = true → ∃ u', step u e = Ok u') ∧
    dp_tracks (bp u) (bpHistory <$> mjoin (predHist u)) ∧
    (drainSanityCheck u = Ok tt → dp_tracks (bp u) [])).
Proof.
  intros Hp Hwf Htr. eapply returns_mono; [by apply create_inv|].
  intros u0 (Hi & _ & _) u Hreach. pose proof (reachable_inv u0 u Hi Hreach) as Hu. split_and!.
  - intros e Ha. pose proof (step_ok u e Hu Ha) as Hs. apply returns_iff in Hs as (u' & E & _). eauto.
  - apply Hu.
  - intros Hd. apply assert_Ok, drained_join in Hd. pose proof (i_tracks _ Hu) as Ht.
    by rewrite Hd in Ht.
Qed.

(** C2: the per-thread branch histories implement queues of in-flight branches.
    On every reachable state [predict] adds the branch at the young end,
    [update] removes exactly the branches up to the committed sequence number,
    [squash] (also on a misprediction) removes exactly those younger than the
    squashing instruction, and the other threads' queues do not change. *)
Theorem unit_refines_queues (indet : Z) (p : Params) (s : S) (u0 u : t) (e : event) :
  params_ok p → dp_wf (p_numThreads p) s → dp_tracks s [] →
  create indet p s = Ok u0 → reachable u0 u → allowed u e = true →
  returns (step u e) (λ u', queues u' = queue_step (queues u) e) ∧
  queues u0 = replicate (Z.to_nat (p_numThreads p)) [].
Proof.
  intros Hp Hwf Htr E Hreach Ha. pose proof (create_inv indet p s Hp Hwf Htr) as Hc. rewrite E in Hc.
  destruct Hc as (Hi & _ & Hq). split.
  - eapply returns_mono; [apply step_ok; [by eapply reachable_inv|done]|]. by intros u' (_ & _ & ?).
  - unfold queues. by rewrite Hq, fmap_replicate.
Qed.

(** C3: recovery from a wrong-path prediction. If [sq] is at or above every
    branch the thread has in flight, then predicting a younger branch and
    squashing back to [sq] brings back the branch histories, the path history of
    the indirect predictor, and the return stack with its top index and all its
    entries but the one slot above the top. *)
Theorem predict_squash_recovers (u : t) (inst : StaticInst) (sn sq : Z) (pcs : PCState) (tid : Z) :
  inv u → allowed u (Predict inst (sq + 1) pcs tid) = true → sq < sn →
  returns (predict u inst sn pcs tid) (λ x, returns (squash x.2 sq tid) (λ u',
    predHist u' = predHist u ∧
    IndirectPredictor.threadInfo (iPred u') = IndirectPredictor.threadInfo (iPred u) ∧
    ∃ r r', RAS u !! Z.to_nat tid = Some r ∧ RAS u' = <[Z.to_nat tid := r']> (RAS u) ∧
      ReturnAddrStack.same_but_above r r')).
Proof.
  intros Hi Ha Hsn. assert (0 ≤ tid < numThreads u) as Ht.
  { by apply andb_true_iff in Ha as [? _]; apply thread_in_range. }
  destruct (focus_start u tid Hi Ht) as (r & ti & ph & Hph & Hth & Hr & Hti & _).
  pose proof (allowed_fresh u inst (sq + 1) pcs tid ti ph Ha Hti Hph) as [Hf1 Hf2].
  assert (Forall (λ h, seqNum h ≤ sq) ph) as Hold by (eapply Forall_impl; [done|cbv beta; lia]).
  assert (Forall (λ e, IndirectPredictor.seqNum e ≤ sq) (IndirectPredictor.pathHist ti)) as Hpold
    by (eapply Forall_impl; [done|cbv beta; lia]).
  pose proof (predict_inv u inst sn pcs tid Hi Ht) as Hp.
  apply returns_iff in Hp as ([[b tgt] u1] & E & Hi1 & Hnt & _); last first.
  { intros ti' ph' ? ?. simplify_eq. split; (eapply Forall_impl; [done|cbv beta; lia]). }
  rewrite E. cbn [returns fst snd] in *.
  destruct (predict_eff tid r u inst sn pcs b tgt u1 ph Hr Hph E) as (h & Eh & Esn & (r1 & Er & Hl) & Hpath).
  pose proof (squash_inv u1 sq tid Hi1 ltac:(lia)) as Hs.
  apply returns_iff in Hs as (u2 & E2 & _ & _ & ph1 & Hph1 & Eh2). rewrite E2. cbn [returns].
  pose proof (lookup_lt_Some _ _ _ Hph). pose proof (lookup_lt_Some _ _ _ Hr).
  rewrite Eh, list_lookup_insert_eq in Hph1 by done. simplify_eq.
  destruct (squash_one tid u1 u2 sq h ph r1) as (r2 & ti1 & Hu & Er2 & Hti1 & Eti);
    [by rewrite Eh, list_lookup_insert_eq|by rewrite Er, list_lookup_insert_eq|done..|].
  pose proof (link_undo r r1 h (ti_ras _ _ _ Hth) Hl) as Hsame. rewrite Hu in Hsame.
  split_and!.
  - rewrite Eh2, Eh, list_insert_insert_eq, filter_cons, decide_False by lia.
    rewrite filter_all by done. by rewrite list_insert_id.
  - rewrite Eti. by eapply path_link_undo.
  - exists r, r2. by rewrite Er2, Er, list_insert_insert_eq.
Qed.

(** A return predicted not taken is recorded with no stack entry. *)
Lemma predict_late_return u inst sn pcs tid tgt u1 ph :
  isReturn inst = true → predHist u !! Z.to_nat tid = Some ph →
  predict u inst sn pcs tid = Ok (false, tgt, u1) →
  ∃ h, predHist u1 = <[Z.to_nat tid := h :: ph]> (predHist u) ∧ RAS u1 = RAS u ∧
    seqNum h = sn ∧ wasReturn h = true ∧ usedRAS h = false ∧ wasIndirect h = false ∧
    RASIndex h = 0 ∧ RASTarget h = pc_of 0.
Proof.
  intros Hret Hph E. unfold predict in E. rewrite Hret in E.
  apply bind_Ok in E as ([[b0 p] u2] & E1 & E).
  assert (RAS u2 = RAS u ∧ predHist u2 = predHist u) as [Er Eh].
  { destruct (isUncondCtrl inst).
    - apply bind_Ok in E1 as ([q s] & _ & E1). by injection E1 as <- <- <-.
    - apply bind_Ok in E1 as ([[b1 q] s] & _ & E1). by injection E1 as <- <- <-. }
  set (h0 := PredictorHistory_new _ _ _ _ _) in E. apply bind_Ok in E as ([[[u3 h] tg] b2] & E2 & E).
  apply bind_Ok in E as (ph' & Hph' & E). apply vget_Ok in Hph' as [_ Hph'].
  apply bind_Ok in E as (l & Hl & E). apply vset_Ok in Hl as [_ ->].
  assert (b2 = false) as -> by congruence. injection E as <- <-. destruct b0.
  { apply bind_Ok in E2 as ([[? ?] ?] & _ & E2). discriminate E2. }
  injection E2 as <- <- <-. assert (ph' = ph) as -> by congruence.
  exists (set_wasReturn true h0). cbn. by rewrite Eh.
Qed.

(** Its correction to taken sets [usedRAS] and still records no entry. *)
Lemma fixup_late_return rnd u tgt tid h u' h' :
  wasReturn h = true → usedRAS h = false → wasIndirect h = false →
  squash_fixup rnd u tgt true tid h = Ok (u', h') →
  usedRAS h' = true ∧ RASIndex h' = RASIndex h ∧ RASTarget h' = RASTarget h ∧ seqNum h' = seqNum h ∧
  predHist u' = predHist u ∧ length (RAS u') = length (RAS u).
Proof.
  intros Hw Hu Hind E. unfold squash_fixup in E. rewrite Hu in E.
  apply bind_Ok in E as (ghr & _ & E). apply bind_Ok in E as (s & _ & E).
  cbn [wasReturn usedRAS set_predTaken] in E. rewrite Hw, Hu in E. cbn [andb negb] in E.
  apply bind_Ok in E as ([u1 h1] & E1 & E). apply bind_Ok in E1 as (u2 & Hp & E1).
  injection E1 as <- <-. apply pop_RAS_Ok in Hp as (r & Hr & ->).
  cbn [wasIndirect set_usedRAS set_predTaken] in E. rewrite Hind in E.
  apply bind_Ok in E as (b & _ & E). injection E as <- <-. cbn. by rewrite length_insert.
Qed.

Lemma mispredict_late_return rnd u1 u2 sn corr tid h ph :
  predHist u1 !! Z.to_nat tid = Some (h :: ph) → seqNum h = sn → Forall (λ h, seqNum h ≤ sn) ph →
  wasReturn h = true → usedRAS h = false → wasIndirect h = false →
  squash_mispredict rnd u1 sn corr true tid = Ok u2 →
  ∃ h', predHist u2 !! Z.to_nat tid = Some (h' :: ph) ∧ usedRAS h' = true ∧
    RASIndex h' = RASIndex h ∧ RASTarget h' = RASTarget h ∧ seqNum h' = seqNum h.
Proof.
  intros Hph Esn Hold Hw Hu Hind E. unfold squash_mispredict in E. apply bind_Ok in E as (ua & Ea & E).
  apply (squash_none tid _ _ _ (h :: ph)) in Ea as [Eha _]; [|done|by constructor; [lia|]].
  apply bind_Ok in E as (ph' & Hph' & E). apply vget_Ok in Hph' as [_ Hph'].
  rewrite Eha in Hph'. cbn in Hph'. simplify_eq. apply bind_Ok in E as (_ & _ & E).
  apply bind_Ok in E as ([ub h'] & Ef & E). apply bind_Ok in E as (l & Hl & E).
  apply vset_Ok in Hl as [_ ->]. injection E as <-.
  destruct (fixup_late_return _ _ _ _ _ _ _ Hw Hu Hind Ef) as (? & ? & ? & ? & Ehb & _).
  exists h'. split_and!; try done. cbn. rewrite Ehb, Eha.
  apply list_lookup_insert_eq. by eapply lookup_lt_Some.
Qed.

(** C38: the return stack after a late return. A conditional return that was
    predicted not taken and resolves taken pops the stack in [squash], which
    sets [usedRAS] in its record but stores neither the index nor the address
    that was popped. When an older instruction then squashes the return, the
    restore step uses the record's initial values: whatever the stack held, its
    top index becomes 0 and the top entry becomes the program counter 0. *)
Theorem late_return_corrupts_RAS (u u1 : t) (inst : StaticInst) (rnd sn sq : Z)
    (pcs tgt corr : PCState) (tid : Z) :
  inv u → allowed u (Predict inst (sq + 1) pcs tid) = true → sq < sn → isReturn inst = true →
  predict u inst sn pcs tid = Ok (false, tgt, u1) →
  returns (squash_mispredict rnd u1 sn corr true tid) (λ u2, returns (squash u2 sq tid) (λ u3,
    ∃ r, RAS u3 !! Z.to_nat tid = Some r ∧ ReturnAddrStack.tos r = 0 ∧
         ReturnAddrStack.top r = Ok (pc_of 0))).
Proof.
  intros Hi Ha Hsn Hret E. assert (0 ≤ tid < numThreads u) as Ht.
  { by apply andb_true_iff in Ha as [? _]; apply thread_in_range. }
  destruct (focus_start u tid Hi Ht) as (r & ti & ph & Hph & Hth & Hr & Hti & _).
  pose proof (allowed_fresh u inst (sq + 1) pcs tid ti ph Ha Hti Hph) as [Hf1 Hf2].
  assert (Forall (λ h, seqNum h ≤ sq) ph) as Hold by (eapply Forall_impl; [done|cbv beta; lia]).
  destruct (predict_late_return _ _ _ _ _ _ _ _ Hret Hph E)
    as (h & Eh & Er & Esn & Hw & Hu & Hind & Eidx & Etgt).
  pose proof (predict_inv u inst sn pcs tid Hi Ht) as Hp. rewrite E in Hp.
  destruct Hp as (Hi1 & Hnt1 & _).
  { intros ti' ph' ? ?. simplify_eq. split; (eapply Forall_impl; [done|cbv beta; lia]). }
  cbn [snd] in *.  pose proof (lookup_lt_Some _ _ _ Hph).
  assert (predHist u1 !! Z.to_nat tid = Some (h :: ph)) as Hph1 by (by rewrite Eh, list_lookup_insert_eq).
  pose proof (squash_mispredict_inv rnd u1 sn corr true tid Hi1 ltac:(lia)) as Hm.
  apply returns_iff in Hm as (u2 & E2 & Hi2 & Hnt2 & _); last first.
  { intros ph' ?. simplify_eq. intros h' Hh'. rewrite filter_cons, decide_True in Hh' by lia.
    cbn in Hh'. by simplify_eq. }
  rewrite E2. cbn [returns]. pose proof (squash_inv u2 sq tid Hi2 ltac:(lia)) as Hs.
  apply returns_iff in Hs as (u3 & E3 & Hi3 & _). rewrite E3. cbn [returns].
  destruct (mispredict_late_return rnd u1 u2 sn corr tid h ph)
    as (h' & Hph2 & Hu' & Ei' & Et' & Es');
    try done; [eapply Forall_impl; [exact Hold|cbv beta; lia]|].
  destruct (focus_start u2 tid Hi2 ltac:(lia)) as (r2 & ti2 & ph2 & _ & _ & Hr2 & _ & _).
  destruct (squash_one tid u2 u3 sq h' ph r2) as (r3 & _ & Hundo & Er3 & _); [done|done|lia|done..|].
  pose proof (lookup_lt_Some _ _ _ Hr2). exists r3. split; [by rewrite Er3, list_lookup_insert_eq|].
  unfold undo_RAS in Hundo. rewrite Hu', Ei', Et', Eidx, Etgt in Hundo.
  by apply ReturnAddrStack.restore_top in Hundo as [? ?].
Qed.

(** A conditional branch that the direction predictor takes and the BTB misses
    is recorded as taken, although the unit predicts it not taken. *)
Lemma predict_btb_miss u inst sn pcs tid p s tgt u1 ph :
  isUncondCtrl inst = false → isReturn inst = false →
  predHist u !! Z.to_nat tid = Some ph →
  dp_lookup (bp u) tid (instAddr pcs) = Ok (true, p, s) →
  predict u inst sn pcs tid = Ok (false, tgt, u1) →
  ∃ h, predHist u1 = <[Z.to_nat tid := h :: ph]> (predHist u) ∧
    seqNum h = sn ∧ pc h = instAddr pcs ∧ bpHistory h = p ∧ predTaken h = true.
Proof.
  intros Hun Hret Hph Hl E. unfold predict in E. rewrite Hun, Hret in E.
  change (bp (bump condPredicted (bump ppBranches (bump lookups u)))) with (bp u) in E.
  rewrite Hl in E. cbn [mbind res_bind] in E.
  set (h0 := PredictorHistory_new _ _ _ _ _) in E.
  apply bind_Ok in E as ([[[u3 h] tg] b2] & E2 & E).
  assert (predHist u3 = predHist u ∧ seqNum h = sn ∧ pc h = instAddr pcs ∧ bpHistory h = p ∧ predTaken h = true)
    as (Eh & E4 & E5 & E6 & E7).
  { apply bind_Ok in E2 as ([u4 h4] & E3 & E2).
    assert (predHist u4 = predHist u ∧ seqNum h4 = sn ∧ pc h4 = instAddr pcs ∧ bpHistory h4 = p ∧
            predTaken h4 = true) as H4.
    { unfold predict_call in E3. destruct (isCall inst); [|by injection E3 as <- <-].
      apply bind_Ok in E3 as (r & _ & E3). apply bind_Ok in E3 as (r1 & _ & E3).
      apply bind_Ok in E3 as (u5 & Hs & E3). apply set_RAS_Ok in Hs as ->. by injection E3 as <- <-. }
    destruct (isDirectCtrl inst || negb (useIndirect u4)).
    - unfold predict_btb in E2. apply bind_Ok in E2 as (v & _ & E2). destruct v.
      { apply bind_Ok in E2 as (? & _ & E2). by injection E2 as <- <- <- <-. }
      apply bind_Ok in E2 as ([u5 h5] & E2 & E3'). injection E3' as <- <- <- <-.
      destruct (_ && _); [|destruct (_ && _); [|by injection E2 as <- <-]].
      + apply bind_Ok in E2 as (s5 & _ & E2). by injection E2 as <- <-.
      + apply bind_Ok in E2 as (u6 & Hp & E2). apply pop_RAS_Ok in Hp as (r & _ & ->).
        by injection E2 as <- <-.
    - unfold predict_indirect in E2. apply bind_Ok in E2 as (ghr & _ & E2).
      apply bind_Ok in E2 as ([f tg2] & _ & E2). apply bind_Ok in E2 as ([[[u5 h5] t5] b5] & E2 & E6).
      apply bind_Ok in E6 as (ip & _ & E6). injection E6 as <- <- <- <-. cbn.
      destruct f; [by injection E2 as <- <- <- <-|].
      apply bind_Ok in E2 as ([u6 h6] & E2 & E7). injection E7 as <- <- <- <-.
      destruct (_ && _); [by injection E2 as <- <-|].
      destruct (_ && _); [|by injection E2 as <- <-].
      apply bind_Ok in E2 as (u7 & Hp & E2). apply pop_RAS_Ok in Hp as (r & _ & ->).
      by injection E2 as <- <-. }
  apply bind_Ok in E as (ph' & Hph' & E). apply vget_Ok in Hph' as [_ Hph'].
  apply bind_Ok in E as (l & Hl' & E). apply vset_Ok in Hl' as [_ ->]. injection E as _ _ <-.
  assert (ph' = ph) as -> by congruence. exists h. cbn. by rewrite Eh.
Qed.

(** What the direction predictor learns from a BTB miss. When it answers
    taken but the BTB (or the indirect predictor) has no target, the unit
    predicts not taken; if that is right no correction follows, and when the
    branch commits the direction predictor is trained with taken, the direction
    it first answered, instead of the actual outcome. *)
Theorem btb_miss_trains_taken (u u1 : t) (inst : StaticInst) (sn : Z) (pcs tgt : PCState) (tid : Z)
    (p : ptr) (s : S) :
  inv u → 0 ≤ tid < numThreads u → allowed u (Predict inst sn pcs tid) = true →
  predHist u !! Z.to_nat tid = Some [] →
  isUncondCtrl inst = false → isReturn inst = false →
  dp_lookup (bp u) tid (instAddr pcs) = Ok (true, p, s) →
  predict u inst sn pcs tid = Ok (false, tgt, u1) →
  returns (update u1 sn tid) (λ u2,
    dp_update (bp u1) tid (instAddr pcs) true p false = Ok (bp u2)).
Proof.
  intros Hi Ht Ha Hph Hun Hret Hl E.
  destruct (predict_btb_miss _ _ _ _ _ _ _ _ _ _ Hun Hret Hph Hl E) as (h & Eh & Esn & Epc & Ep & Etk).
  pose proof (predict_inv u inst sn pcs tid Hi Ht) as Hp. rewrite E in Hp.
  destruct Hp as (Hi1 & Hnt1 & _); [intros; by eapply allowed_fresh|]. cbn [snd] in *.
  pose proof (update_inv u1 sn tid Hi1 ltac:(lia)) as Hu. apply returns_iff in Hu as (u2 & Eu & _).
  rewrite Eu. cbn [returns]. unfold update in Eu. apply bind_Ok in Eu as (ip & _ & Eu).
  apply bind_Ok in Eu as (ph & Hph1 & Eu). apply vget_Ok in Hph1 as [_ Hph1].
  rewrite Eh, list_lookup_insert_eq in Hph1 by (by eapply lookup_lt_Some). injection Hph1 as <-.
  cbn [reverse rev_append] in Eu. cbn in Eu. rewrite Esn, Z.leb_refl, Epc, Ep, Etk in Eu.
  apply bind_Ok in Eu as ([s2 rest] & Ec & Eu). apply bind_Ok in Ec as (s3 & Hd & Ec).
  injection Ec as <- <-. apply bind_Ok in Eu as (l & _ & Eu). by injection Eu as <-.
Qed.

End spec.

(** ** Witnesses: two threads, the local predictor, Alpha program counters *)
#[local] Existing Instance AlphaISA.isa.

Definition params2 : Params := mkParams 2 8 4 4 2 true true true 4 2 4 3.

Definition unit0 : @BPredUnit.t AlphaISA.isa LocalBP.t :=
  ltac:(let r := eval vm_compute in (create 0 params2 LocalBP.local8) in
        match r with Ok ?u => exact u end).

Lemma unit0_create : create 0 params2 LocalBP.local8 = Ok unit0.
Proof. reflexivity. Qed.

Lemma params2_ok : params_ok params2.
Proof. split; cbn; try lia; split_and!; try done; unfold is_u32; lia. Qed.

Lemma unit0_inv : inv unit0.
Proof.
  pose proof (create_inv 0 params2 LocalBP.local8 params2_ok LocalBP.local8_wf (Forall_nil_2 _)) as Hc.
  rewrite unit0_create in Hc. apply Hc.
Qed.

(** An unconditional direct call, a conditional return. *)
Definition call_inst : StaticInst := mkInst true false true true.
Definition ret_inst : StaticInst := mkInst false true false false.

Lemma unit_safety_witness :
  params_ok params2 ∧
  returns (create 0 params2 TournamentBP.tournament4) (λ u0, ∀ u, reachable u0 u →
    (∀ e, allowed u e = true → ∃ u', step u e = Ok u') ∧
    dp_tracks (bp u) (bpHistory <$> mjoin (predHist u)) ∧
    (drainSanityCheck u = Ok tt → dp_tracks (bp u) [])).
Proof.
  destruct TournamentBP.tournament4_ok as [Hw Htr]. split; [exact params2_ok|].
  apply unit_safety; [exact params2_ok|exact Hw|exact Htr].
Defined.

Lemma unit_refines_queues_witness :
  allowed unit0 (Predict call_inst 7 (AlphaISA.at_pc 64) 1) = true ∧
  returns (step unit0 (Predict call_inst 7 (AlphaISA.at_pc 64) 1))
    (λ u', queues u' = [[]; [(64, 7)]]).
Proof.
  split; [reflexivity|].
  apply (unit_refines_queues 0 params2 LocalBP.local8 unit0 unit0);
    [exact params2_ok|exact LocalBP.local8_wf|apply Forall_nil_2|exact unit0_create
    |apply reach_init|reflexivity].
Defined.

Lemma predict_squash_recovers_witness :
  returns (predict unit0 call_inst 7 (AlphaISA.at_pc 64) 1) (λ x, returns (squash x.2 5 1) (λ u',
    predHist u' = predHist unit0)).
Proof.
  pose proof (predict_squash_recovers unit0 call_inst 7 5 (AlphaISA.at_pc 64) 1 unit0_inv
                ltac:(reflexivity) ltac:(lia)) as Hr.
  eapply returns_mono; [exact Hr|]. intros x Hx. eapply returns_mono; [exact Hx|]. by intros u' [? _].
Defined.

(** The state after the conditional return is predicted not taken. *)
Definition unit1 : @BPredUnit.t AlphaISA.isa LocalBP.t :=
  ltac:(let r := eval vm_compute in (predict unit0 ret_inst 7 (AlphaISA.at_pc 64) 0) in
        match r with Ok (_, _, ?u) => exact u end).

Lemma late_return_corrupts_RAS_witness :
  predict unit0 ret_inst 7 (AlphaISA.at_pc 64) 0 = Ok (false, AlphaISA.at_pc 68, unit1) ∧
  returns (squash_mispredict 0 unit1 7 (AlphaISA.at_pc 128) true 0) (λ u2, returns (squash u2 5 0) (λ u3,
    ∃ r, RAS u3 !! 0%nat = Some r ∧ ReturnAddrStack.tos r = 0 ∧
         ReturnAddrStack.top r = Ok (AlphaISA.at_pc 0))).
Proof.
  assert (predict unit0 ret_inst 7 (AlphaISA.at_pc 64) 0 = Ok (false, AlphaISA.at_pc 68, unit1)) as E
    by (reflexivity).
  split; [exact E|].
  exact (late_return_corrupts_RAS unit0 unit1 ret_inst 0 7 5 (AlphaISA.at_pc 64)
           (AlphaISA.at_pc 68) (AlphaISA.at_pc 128) 0 unit0_inv ltac:(reflexivity)
           ltac:(lia) eq_refl E).
Defined.

(** A local predictor that has learnt taken, a conditional direct branch. *)
Definition local8_taken : LocalBP.t :=
  LocalBP.mk 2 (replicate 8 (SatCounter.mk 0 3 3)) 16 8 2 7.
Definition cond_inst : StaticInst := mkInst false false true false.

Lemma local8_taken_wf : LocalBP.wf local8_taken.
Proof.
  split; cbn; try lia. split; [done|]. apply (Forall_replicate _ 8). unfold SatCounter.ok. cbn.
  change (SatCounter.maxOf 2) with 3. lia.
Qed.

Definition unit2 : @BPredUnit.t AlphaISA.isa LocalBP.t :=
  ltac:(let r := eval vm_compute in (create 0 params2 local8_taken) in
        match r with Ok ?u => exact u end).

Lemma unit2_inv : inv unit2.
Proof.
  pose proof (create_inv 0 params2 local8_taken params2_ok local8_taken_wf (Forall_nil_2 _)) as Hc.
  assert (create 0 params2 local8_taken = Ok unit2) as E by reflexivity. rewrite E in Hc. apply Hc.
Qed.

Definition unit3 : @BPredUnit.t AlphaISA.isa LocalBP.t :=
  ltac:(let r := eval vm_compute in (predict unit2 cond_inst 7 (AlphaISA.at_pc 64) 0) in
        match r with Ok (_, _, ?u) => exact u end).

Lemma btb_miss_trains_taken_witness :
  predict unit2 cond_inst 7 (AlphaISA.at_pc 64) 0 = Ok (false, AlphaISA.at_pc 68, unit3) ∧
  returns (update unit3 7 0) (λ u2, LocalBP.update (bp unit3) 0 64 true None false = Ok (bp u2)).
Proof.
  assert (predict unit2 cond_inst 7 (AlphaISA.at_pc 64) 0 = Ok (false, AlphaISA.at_pc 68, unit3)) as E
    by reflexivity.
  split; [exact E|].
  exact (btb_miss_trains_taken unit2 unit3 cond_inst 7 (AlphaISA.at_pc 64) (AlphaISA.at_pc 68) 0 None
           local8_taken unit2_inv ltac:(cbn; lia) eq_refl eq_refl eq_refl eq_refl eq_refl E).
Defined.

End UnitSpec.
