(* ===== verification/EventQueue.v ===== *)
(** * The event queue

    [sim/eventq.hh], [sim/eventq_impl.hh] and [sim/eventq.cc]: the simulator's
    queue of events.  Events live on a heap and are linked into a list of bins
    ([nextBin]), each bin a stack of the events with one time and priority
    ([nextInBin]); only the top event of a bin has a meaningful [nextBin].

    This file holds the data and the operations.  Loops that follow pointers take
    as fuel one more than the number of live events: such a loop writes nothing,
    so after that many steps it has met an event twice and never ends
    ([Diverges]). *)

From stdpp Require Import pretty.
From S2P Require Import Prelude.

Module EventQ.

(** ** Flags ([base/flags.hh]), for the 16-bit [FlagsType] *)
Module Flags.
Definition isSet (f m : Z) : bool := negb (Z.land f m =? 0).
Definition noneSet (f m : Z) : bool := Z.land f m =? 0.
Definition clear (f m : Z) : Z := u16 (Z.land f (Z.lnot m)).
Definition set (f m : Z) : Z := u16 (Z.lor f m).
End Flags.

Definition PublicRead : Z := 0x003f.
Definition PublicWrite : Z := 0x001d.
Definition Squashed : Z := 0x0001.
Definition Scheduled : Z := 0x0002.
Definition Managed : Z := 0x0004.
Definition IsExitEvent : Z := 0x0010.
Definition IsMainQueue : Z := 0x0020.
Definition Initialized : Z := 0x7a40.
Definition InitMask : Z := 0xffc0.

(** ** Data *)
Record Event := MkEvent {
  nextBin : ptr;
  nextInBin : ptr;
  _when : Z;
  _priority : Z;
  flags : Z;
  queue : ptr
}.

Record EventQueue := MkQueue {
  this : positive;          (** the address of the object *)
  objName : string;
  head : ptr;
  _curTick : Z;
  async_queue : list ptr
}.

(** The events of all queues live on one heap; an operation works on one queue. *)
Record State := MkState { events : heap Event; eventq : EventQueue }.

Definition with_nextBin (e : Event) (p : ptr) : Event :=
  MkEvent p (nextInBin e) (_when e) (_priority e) (flags e) (queue e).
Definition with_nextInBin (e : Event) (p : ptr) : Event :=
  MkEvent (nextBin e) p (_when e) (_priority e) (flags e) (queue e).
Definition with_flags (e : Event) (f : Z) : Event :=
  MkEvent (nextBin e) (nextInBin e) (_when e) (_priority e) f (queue e).
Definition with_key (e : Event) (w p f : Z) : Event :=
  MkEvent (nextBin e) (nextInBin e) w p f (queue e).

Definition with_head (q : EventQueue) (p : ptr) : EventQueue :=
  MkQueue (this q) (objName q) p (_curTick q) (async_queue q).
Definition with_curTick (q : EventQueue) (t : Z) : EventQueue :=
  MkQueue (this q) (objName q) (head q) t (async_queue q).
Definition with_async (q : EventQueue) (l : list ptr) : EventQueue :=
  MkQueue (this q) (objName q) (head q) (_curTick q) l.

(** [Event::Event] and the flag accessors. *)
Definition Event_new (p f : Z) : res Event :=
  _ ← assert_ (Flags.noneSet f (u16 (Z.lnot PublicWrite)));
  Ok (MkEvent None None 0 p (Z.lor Initialized f) None).

Definition initialized (e : Event) : bool := Z.land (flags e) InitMask =? Initialized.
Definition scheduled (e : Event) : bool := Flags.isSet (flags e) Scheduled.
Definition squashed (e : Event) : bool := Flags.isSet (flags e) Squashed.
Definition isExitEvent (e : Event) : bool := Flags.isSet (flags e) IsExitEvent.
Definition isManaged (e : Event) : bool := Flags.isSet (flags e) Managed.

Definition squash (e : Event) : Event := with_flags e (Flags.set (flags e) Squashed).

Definition getFlags (e : Event) : Z := Z.land (flags e) PublicRead.

Definition isFlagSet (e : Event) (f : Z) : res bool :=
  _ ← assert_ (Flags.noneSet f (u16 (Z.lnot PublicRead)));
  Ok (Flags.isSet (flags e) f).

Definition setFlags (e : Event) (f : Z) : res Event :=
  _ ← assert_ (Flags.noneSet f (u16 (Z.lnot PublicWrite)));
  Ok (with_flags e (Flags.set (flags e) f)).

Definition clearFlags (e : Event) (f : Z) : res Event :=
  _ ← assert_ (Flags.noneSet f (u16 (Z.lnot PublicWrite)));
  Ok (with_flags e (Flags.clear (flags e) f)).

(** [clearFlags()]: all the flags that users may write. *)
Definition clearAllFlags (e : Event) : Event :=
  with_flags e (Flags.clear (flags e) PublicWrite).

Definition setWhen (e : Event) (w : Z) (q : positive) : Event :=
  MkEvent (nextBin e) (nextInBin e) w (_priority e) (flags e) (Some q).

(** The comparison operators on events. *)
Definition ev_lt (l r : Event) : bool :=
  (_when l <? _when r) || ((_when l =? _when r) && (_priority l <? _priority r)).
Definition ev_le (l r : Event) : bool :=
  (_when l <? _when r) || ((_when l =? _when r) && (_priority l <=? _priority r)).
Definition ev_gt (l r : Event) : bool :=
  (_when r <? _when l) || ((_when l =? _when r) && (_priority r <? _priority l)).
Definition ev_ge (l r : Event) : bool :=
  (_when r <? _when l) || ((_when l =? _when r) && (_priority r <=? _priority l)).
Definition ev_eq (l r : Event) : bool :=
  (_when l =? _when r) && (_priority l =? _priority r).
Definition ev_ne (l r : Event) : bool :=
  negb (_when l =? _when r) || negb (_priority l =? _priority r).

(** ** The list of bins *)
Definition fuel (h : heap Event) : nat := S (size (cells h)).

Definition insertBefore (h : heap Event) (event curr : ptr) : res (heap Event * ptr) :=
  e ← heap_deref h event;
  match curr with
  | None =>
      h' ← heap_store h event (with_nextInBin (with_nextBin e curr) None);
      Ok (h', event)
  | Some _ =>
      c ← heap_deref h curr;
      if ev_lt e c then
        h' ← heap_store h event (with_nextInBin (with_nextBin e curr) None);
        Ok (h', event)
      else
        h' ← heap_store h event (with_nextInBin (with_nextBin e (nextBin c)) curr);
        Ok (h', event)
  end.

(** [while (curr && *curr < *event) { prev = curr; curr = curr->nextBin; }] *)
Fixpoint find_bin (n : nat) (h : heap Event) (e : Event) (prev curr : ptr) :
    res (ptr * ptr) :=
  match n with
  | O => Err Diverges
  | S n =>
      match curr with
      | None => Ok (prev, curr)
      | Some _ =>
          c ← heap_deref h curr;
          if ev_lt c e then find_bin n h e curr (nextBin c) else Ok (prev, curr)
      end
  end.

Definition insert (st : State) (event : ptr) : res State :=
  let h := events st in
  let q := eventq st in
  e ← heap_deref h event;
  at_head ← match head q with
            | None => Ok true
            | Some _ => hd ← heap_deref h (head q); Ok (ev_le e hd)
            end;
  if (at_head : bool) then
    r ← insertBefore h event (head q);
    Ok (MkState r.1 (with_head q r.2))
  else
    hd ← heap_deref h (head q);
    pc ← find_bin (fuel h) h e (head q) (nextBin hd);
    r ← insertBefore h event pc.2;
    p ← heap_deref r.1 pc.1;
    h' ← heap_store r.1 pc.1 (with_nextBin p r.2);
    Ok (MkState h' q).

(** [while (event != next) { if (!next) panic(...); curr = next; next = next->nextInBin; }] *)
Fixpoint find_in_bin (n : nat) (h : heap Event) (event curr next : ptr) :
    res (ptr * ptr) :=
  match n with
  | O => Err Diverges
  | S n =>
      if decide (event = next) then Ok (curr, next)
      else
        match next with
        | None => Err (Panic "event not found!")
        | Some _ =>
            x ← heap_deref h next;
            find_in_bin n h event next (nextInBin x)
        end
  end.

Definition removeItem (h : heap Event) (event top : ptr) : res (heap Event * ptr) :=
  t ← heap_deref h top;
  let next := nextInBin t in
  if decide (event = top) then
    match next with
    | None => Ok (h, nextBin t)
    | Some _ =>
        x ← heap_deref h next;
        h' ← heap_store h next (with_nextBin x (nextBin t));
        Ok (h', next)
    end
  else
    cn ← find_in_bin (fuel h) h event top next;
    x ← heap_deref h cn.2;
    c ← heap_deref h cn.1;
    h' ← heap_store h cn.1 (with_nextInBin c (nextInBin x));
    Ok (h', top).

Definition remove (st : State) (event : ptr) : res State :=
  let h := events st in
  let q := eventq st in
  match head q with
  | None => Err (Panic "event not found!")
  | Some _ =>
      e ← heap_deref h event;
      _ ← assert_ (bool_decide (queue e = Some (this q)));
      hd ← heap_deref h (head q);
      if ev_eq hd e then
        r ← removeItem h event (head q);
        Ok (MkState r.1 (with_head q r.2))
      else
        pc ← find_bin (fuel h) h e (head q) (nextBin hd);
        match pc.2 with
        | None => Err (Panic "event not found!")
        | Some _ =>
            c ← heap_deref h pc.2;
            if ev_ne c e then Err (Panic "event not found!")
            else
              r ← removeItem h event pc.2;
              p ← heap_deref r.1 pc.1;
              h' ← heap_store r.1 pc.1 (with_nextBin p r.2);
              Ok (MkState h' q)
        end
  end.

(** ** Events and their life cycle *)
Definition new_event (st : State) (p f : Z) : res (ptr * State) :=
  e ← Event_new p f;
  let r := heap_new (events st) e in
  Ok (r.1, MkState r.2 (eventq st)).

(** [f] applied to the event in place. *)
Definition upd_event (st : State) (event : ptr) (f : Event → Event) : res State :=
  e ← heap_deref (events st) event;
  h ← heap_store (events st) event (f e);
  Ok (MkState h (eventq st)).

(** [delete event], with [Event::~Event]. *)
Definition delete_event (st : State) (event : ptr) : res State :=
  e ← heap_deref (events st) event;
  _ ← assert_ (negb (scheduled e));
  h ← heap_delete (events st) event;
  Ok (MkState h (eventq st)).

(** [acquire] does nothing beyond its test unless a class overrides
    [acquireImpl]; [release] with the default [releaseImpl]. *)
Definition acquire (st : State) (event : ptr) : res State :=
  _ ← heap_deref (events st) event; Ok st.

Definition release (st : State) (event : ptr) : res State :=
  e ← heap_deref (events st) event;
  if isManaged e then
    if negb (scheduled e) then delete_event st event else Ok st
  else Ok st.

(** ** The public operations *)
Section ops.
(** The globals [inParallelMode] and [curEventQueue()]. *)
Context (inParallelMode : bool) (curEventQueue : ptr).

Definition asyncInsert (st : State) (event : ptr) : State :=
  MkState (events st) (with_async (eventq st) (async_queue (eventq st) ++ [event])).

Definition schedule (st : State) (event : ptr) (when : Z) (global : bool) : res State :=
  let q := eventq st in
  _ ← assert_ (_curTick q <=? when);
  e ← heap_deref (events st) event;
  _ ← assert_ (negb (scheduled e));
  _ ← assert_ (initialized e);
  st ← upd_event st event (λ e, setWhen e when (this q));
  st ← (if inParallelMode && (bool_decide (Some (this q) ≠ curEventQueue) || global)
        then Ok (asyncInsert st event)
        else insert st event);
  st ← upd_event st event (λ e, with_flags e (Flags.set (flags e) Scheduled));
  acquire st event.

Definition deschedule (st : State) (event : ptr) : res State :=
  e ← heap_deref (events st) event;
  _ ← assert_ (scheduled e);
  _ ← assert_ (initialized e);
  _ ← assert_ (negb inParallelMode || bool_decide (Some (this (eventq st)) = curEventQueue));
  st ← remove st event;
  st ← upd_event st event (λ e, with_flags e (Flags.clear (flags e) Squashed));
  st ← upd_event st event (λ e, with_flags e (Flags.clear (flags e) Scheduled));
  release st event.

Definition reschedule (st : State) (event : ptr) (when : Z) (always : bool) : res State :=
  let q := eventq st in
  _ ← assert_ (_curTick q <=? when);
  e ← heap_deref (events st) event;
  _ ← assert_ (always || scheduled e);
  _ ← assert_ (initialized e);
  _ ← assert_ (negb inParallelMode || bool_decide (Some (this q) = curEventQueue));
  st ← (if scheduled e then remove st event else acquire st event);
  st ← upd_event st event (λ e, setWhen e when (this q));
  st ← insert st event;
  st ← upd_event st event (λ e, with_flags e (Flags.clear (flags e) Squashed));
  upd_event st event (λ e, with_flags e (Flags.set (flags e) Scheduled)).

(** [while (!async_queue.empty()) { insert(async_queue.front()); pop_front(); }] *)
Fixpoint insert_all (st : State) (l : list ptr) : res State :=
  match l with
  | [] => Ok st
  | p :: l =>
      st ← insert st p;
      insert_all (MkState (events st) (with_async (eventq st) l)) l
  end.

Definition handleAsyncInsertions (st : State) : res State :=
  _ ← assert_ (bool_decide (Some (this (eventq st)) = curEventQueue));
  insert_all st (async_queue (eventq st)).
End ops.

Definition empty (st : State) : bool := bool_decide (head (eventq st) = None).

Definition nextTick (st : State) : res Z :=
  e ← heap_deref (events st) (head (eventq st)); Ok (_when e).

Definition setCurTick (st : State) (t : Z) : State :=
  MkState (events st) (with_curTick (eventq st) t).

Definition replaceHead (st : State) (s : ptr) : ptr * State :=
  (head (eventq st), MkState (events st) (with_head (eventq st) s)).

(** ** Servicing events *)
Section service.
(** [event->process()]: the handler of each event. *)
Context (process : ptr → State → res State).

(** The part of [serviceOne] before the handler runs: the head event is taken off
    the queue. *)
Definition pop (st : State) : res (ptr * State) :=
  let event := head (eventq st) in
  e ← heap_deref (events st) event;
  let next := nextInBin e in
  st ← upd_event st event (λ e, with_flags e (Flags.clear (flags e) Scheduled));
  match next with
  | Some _ =>
      st ← upd_event st next (λ x, with_nextBin x (nextBin e));
      Ok (event, MkState (events st) (with_head (eventq st) next))
  | None => Ok (event, MkState (events st) (with_head (eventq st) (nextBin e)))
  end.

Definition serviceOne (st : State) : res (ptr * State) :=
  r ← pop st;
  let event := r.1 in
  let st := r.2 in
  e ← heap_deref (events st) event;
  if negb (squashed e) then
    st ← process event (setCurTick st (_when e));
    e ← heap_deref (events st) event;
    if isExitEvent e then
      _ ← assert_ (negb (Flags.isSet (flags e) Managed) ||
                   negb (Flags.isSet (flags e) IsMainQueue));
      Ok (event, st)
    else
      st ← release st event;
      Ok (None, st)
  else
    st ← upd_event st event (λ e, with_flags e (Flags.clear (flags e) Squashed));
    st ← release st event;
    Ok (None, st).

(** [while (!empty()) { if (nextTick() > when) break; serviceOne(); } setCurTick(when);]
    The handlers may schedule events at the current tick for ever; [n] bounds the
    iterations. *)
Fixpoint serviceEvents (n : nat) (st : State) (when : Z) : res State :=
  match n with
  | O => Err Diverges
  | S n =>
      if empty st then Ok (setCurTick st when)
      else
        t ← nextTick st;
        if when <? t then Ok (setCurTick st when)
        else r ← serviceOne st; serviceEvents n r.2 when
  end.

(** [doSimLoop] of [sim/simulate.cc] after it has set the thread's queue;
    [async_poll] is the handling of signals (statistics, I/O, exit), whose flag is
    [true] when the loop is to stop with an exception. *)
Context (async_poll : State → res (bool * State)).

Fixpoint sim_loop (n : nat) (st : State) : res (ptr * State) :=
  match n with
  | O => Err Diverges
  | S n =>
      _ ← assert_ (negb (empty st));
      t ← nextTick st;
      _ ← assert_ (_curTick (eventq st) <=? t);
      a ← async_poll st;
      if (a : bool * State).1 then Ok (None, a.2)
      else
        r ← serviceOne a.2;
        match r.1 with
        | Some _ => Ok r
        | None => sim_loop n r.2
        end
  end.

Definition doSimLoop (n : nat) (st : State) : res (ptr * State) :=
  st ← handleAsyncInsertions (Some (this (eventq st))) st;
  sim_loop n st.
End service.

(** ** Checkpoints

    The three values that [Event::serialize] writes; [paramIn] rejects a value
    outside the type it reads. *)
Record EventCpt := MkCpt { c_when : Z; c_priority : Z; c_flags : Z }.

Definition serialize (e : Event) : EventCpt :=
  MkCpt (_when e) (_priority e) (i16 (flags e)).

Definition paramIn (lo hi x : Z) : res Z :=
  _ ← guard_ ((lo <=? x) && (x <=? hi)) (Fatal "Can't unserialize"); Ok x.

Definition unserialize (e : Event) (c : EventCpt) : res Event :=
  _ ← assert_ (negb (scheduled e));
  w ← paramIn 0 (2 ^ 64 - 1) (c_when c);
  p ← paramIn (- 2 ^ 7) (2 ^ 7 - 1) (c_priority c);
  f ← paramIn 0 (2 ^ 16 - 1) (c_flags c);
  _ ← assert_ (initialized e);
  let f := Flags.set f Initialized in
  let f := if Flags.isSet f Scheduled && negb (Flags.isSet f Squashed)
           then Flags.clear f (Z.lor Squashed Scheduled) else f in
  Ok (with_key e w p f).

Definition checkpointReschedule (st : State) (event : ptr) : res State :=
  e ← heap_deref (events st) event;
  if Flags.isSet (flags e) Scheduled then insert st event else Ok st.

(** [UNSERIALIZE_EVENT] of [sim/serialize.hh]. *)
Definition unserialize_event (st : State) (event : ptr) (c : EventCpt) : res State :=
  e ← heap_deref (events st) event;
  e' ← unserialize e c;
  h ← heap_store (events st) event e';
  checkpointReschedule (MkState h (eventq st)) event.

(** ** [EventQueue::debugVerify] and [EventQueue::dump]

    [time], [priority] and the set of addresses seen so far; the inner loop
    follows one bin, the outer one the list of bins. *)
Record Verify := MkVerify { v_time : Z; v_priority : Z; v_seen : gset positive }.

Fixpoint verify_bin (n : nat) (h : heap Event) (v : Verify) (p : ptr) :
    res (bool * Verify) :=
  match n with
  | O => Err Diverges
  | S n =>
      match p with
      | None => Ok (true, v)
      | Some a =>
          e ← heap_deref h p;
          if _when e <? v_time v then Ok (false, v)
          else if (_when e =? v_time v) && (_priority e <? v_priority v)
          then Ok (false, v)
          else if bool_decide (a ∈ v_seen v) then Ok (false, v)
          else verify_bin n h (MkVerify (_when e) (_priority e) ({[a]} ∪ v_seen v))
                 (nextInBin e)
      end
  end.

Fixpoint verify_bins (n : nat) (h : heap Event) (v : Verify) (p : ptr) : res bool :=
  match n with
  | O => Err Diverges
  | S n =>
      match p with
      | None => Ok true
      | Some _ =>
          r ← verify_bin (fuel h) h v p;
          if (r : bool * Verify).1 then
            e ← heap_deref h p;
            verify_bins n h r.2 (nextBin e)
          else Ok false
      end
  end.

Definition debugVerify (st : State) : res bool :=
  verify_bins (fuel (events st)) (events st) (MkVerify 0 0 ∅) (head (eventq st)).

Fixpoint dump_bin (n : nat) (h : heap Event) (p : ptr) : res (list ptr) :=
  match n with
  | O => Err Diverges
  | S n =>
      match p with
      | None => Ok []
      | Some _ => e ← heap_deref h p; l ← dump_bin n h (nextInBin e); Ok (p :: l)
      end
  end.

Fixpoint dump_bins (n : nat) (h : heap Event) (p : ptr) : res (list ptr) :=
  match n with
  | O => Err Diverges
  | S n =>
      match p with
      | None => Ok []
      | Some _ =>
          b ← dump_bin (fuel h) h p;
          e ← heap_deref h p;
          l ← dump_bins n h (nextBin e);
          Ok (b ++ l)
      end
  end.

(** The events that [dump] prints, in the order it prints them. *)
Definition dump (st : State) : res (list ptr) :=
  dump_bins (fuel (events st)) (events st) (head (eventq st)).

(** ** The main queues

    [EventQueue::EventQueue] and [getEventQueue]: queue [index] is created with
    all those before it. *)
Definition EventQueue_new (a : positive) (n : string) : EventQueue :=
  MkQueue a n None 0 [].

Definition main_name (index : Z) : string :=
  "MainEventQueue-" +:+ pretty (Z.to_N index).

(** [numMainEventQueues] is the length of [mainEventQueue]; the addresses of the
    new queues are consecutive. *)
Fixpoint grow (n : nat) (index : Z) (l : list EventQueue) : list EventQueue :=
  match n with
  | O => l
  | S n => grow n index (l ++ [EventQueue_new (Pos.of_succ_nat (length l)) (main_name index)])
  end.

Definition getEventQueue (index : Z) (l : list EventQueue) : res (EventQueue * list EventQueue) :=
  let l := grow (Z.to_nat (index + 1 - vlen l)) index l in
  q ← vget l index;
  Ok (q, l).

End EventQ.
