(* ===== verification/EventQueueRep.v ===== *)
(** * The event queue: representation

    A queue of events represents a list: the events in the order in which they
    will be serviced.  [bins] says how the pointers lay that list out, and the
    lemmas say what each pointer routine of [EventQueue.v] does to it.  The
    abstract operations are [enqueue] (in front of the first event that is not
    earlier) and removal from the list. *)

From S2P Require Import Prelude EventQueue.

Module EventQRep.
Import EventQ.

Notation emap := (gmap positive Event).

(** ** Keys *)
Definition ekey (e : Event) : Z * Z := (_when e, _priority e).

(** Time first, then priority. *)
Definition klt (k1 k2 : Z * Z) : Prop := k1.1 < k2.1 ∨ (k1.1 = k2.1 ∧ k1.2 < k2.2).

#[global] Instance klt_dec k1 k2 : Decision (klt k1 k2).
Proof. unfold klt. apply _. Defined.

#[global] Instance klt_trans : Transitive klt.
Proof. intros ???. unfold klt. lia. Qed.

Definition key (m : emap) (a : positive) : Z * Z := default (0, 0) (ekey <$> m !! a).

Ltac ev_cmp_tac := intros; unfold ev_lt, ev_le, ev_eq, ev_ne, klt, ekey; simpl;
  rewrite ?negb_true_iff, ?orb_true_iff, ?andb_true_iff, ?negb_true_iff,
    ?Z.ltb_lt, ?Z.leb_le, ?Z.eqb_eq, ?Z.eqb_neq, ?pair_eq; try lia.

Lemma ev_lt_true l r : ev_lt l r = true ↔ klt (ekey l) (ekey r).
Proof. ev_cmp_tac. Qed.

Lemma ev_le_true l r : ev_le l r = true ↔ ¬ klt (ekey r) (ekey l).
Proof. ev_cmp_tac. Qed.

Lemma ev_eq_true l r : ev_eq l r = true ↔ ekey l = ekey r.
Proof. ev_cmp_tac. Qed.

(** The operators are those of one order. *)
Lemma ev_operators l r :
  ev_gt l r = ev_lt r l ∧ ev_ge l r = ev_le r l ∧ ev_le l r = negb (ev_lt r l) ∧
  ev_le l r = ev_lt l r || ev_eq l r.
Proof.
  split_and!; apply eq_true_iff_eq;
    rewrite ?negb_true_iff, <- ?not_true_iff_false, ?orb_true_iff, ?ev_lt_true, ?ev_le_true, ?ev_eq_true;
    unfold ev_gt, ev_ge, klt, ekey; simpl;
    rewrite ?orb_true_iff, ?andb_true_iff, ?Z.ltb_lt, ?Z.leb_le, ?Z.eqb_eq, ?pair_eq; lia.
Qed.

Lemma ev_ne_eq l r : ev_ne l r = negb (ev_eq l r).
Proof. unfold ev_ne, ev_eq. by rewrite negb_andb. Qed.

Lemma ev_lt_dec l r : ev_lt l r = bool_decide (klt (ekey l) (ekey r)).
Proof. apply eq_true_iff_eq. by rewrite bool_decide_eq_true, ev_lt_true. Qed.

Lemma ev_le_dec l r : ev_le l r = bool_decide (¬ klt (ekey r) (ekey l)).
Proof. apply eq_true_iff_eq. by rewrite bool_decide_eq_true, ev_le_true. Qed.

Lemma ev_eq_dec l r : ev_eq l r = bool_decide (ekey l = ekey r).
Proof. apply eq_true_iff_eq. by rewrite bool_decide_eq_true, ev_eq_true. Qed.

Lemma klt_total k1 k2 : ¬ klt k1 k2 → ¬ klt k2 k1 → k1 = k2.
Proof. destruct k1, k2. unfold klt. simpl. intros. f_equal; lia. Qed.

Lemma klt_irrefl k : ¬ klt k k.
Proof. unfold klt. lia. Qed.

Lemma klt_le_trans k1 k2 k3 : klt k1 k2 → ¬ klt k3 k2 → klt k1 k3.
Proof. unfold klt. lia. Qed.

Lemma klt_asym k1 k2 : klt k1 k2 → ¬ klt k2 k1.
Proof. unfold klt. lia. Qed.

Lemma key_Some m a e : m !! a = Some e → key m a = ekey e.
Proof. unfold key. by intros ->. Qed.

(** ** The abstract queue *)
Fixpoint enqueue (k : positive → Z * Z) (a : positive) (l : list positive) : list positive :=
  match l with
  | [] => [a]
  | b :: l' => if decide (klt (k b) (k a)) then b :: enqueue k a l' else a :: l
  end.

Definition dequeue (a : positive) (l : list positive) : list positive :=
  filter (λ x, x ≠ a) l.

(** Serviced in order of time, then priority. *)
Definition in_order (k : positive → Z * Z) (l : list positive) : Prop :=
  StronglySorted (λ x y, ¬ klt (k y) (k x)) l.

Lemma enqueue_split k a l1 l2 :
  Forall (λ x, klt (k x) (k a)) l1 → Forall (λ x, ¬ klt (k x) (k a)) l2 →
  enqueue k a (l1 ++ l2) = l1 ++ a :: l2.
Proof.
  intros H1 H2. induction H1 as [|x l1 Hx H1 IH]; simpl.
  - destruct H2; simpl; [done|]. by rewrite decide_False.
  - by rewrite decide_True, IH.
Qed.

Lemma enqueue_ext k k' a l :
  k a = k' a → (∀ x, x ∈ l → k x = k' x) → enqueue k a l = enqueue k' a l.
Proof.
  intros Ha Hl. induction l as [|x l IH]; simpl; [done|].
  rewrite <- Ha, <- (Hl x) by set_solver. rewrite IH by set_solver. done.
Qed.

Lemma enqueue_perm k a l : enqueue k a l ≡ₚ a :: l.
Proof.
  induction l as [|x l IH]; simpl; [done|]. case_decide; [|done].
  rewrite IH. by rewrite Permutation_swap.
Qed.

Lemma elem_of_enqueue k a l x : x ∈ enqueue k a l ↔ x = a ∨ x ∈ l.
Proof. rewrite enqueue_perm. set_solver. Qed.

Lemma enqueue_in_order k a l : in_order k l → in_order k (enqueue k a l).
Proof.
  induction 1 as [|x l Hl IH Hx]; simpl; [repeat constructor|].
  case_decide as Hk; constructor; [done| |by constructor|].
  - rewrite enqueue_perm. constructor; [by apply klt_asym|done].
  - constructor; [done|]. eapply Forall_impl; [done|]. simpl. intros y Hy Hya.
    revert Hk Hy Hya. unfold klt. lia.
Qed.

Lemma elem_of_dequeue a l x : x ∈ dequeue a l ↔ x ≠ a ∧ x ∈ l.
Proof. unfold dequeue. by rewrite list_elem_of_filter. Qed.

Lemma dequeue_app a l1 l2 : dequeue a (l1 ++ l2) = dequeue a l1 ++ dequeue a l2.
Proof. apply filter_app. Qed.

Lemma dequeue_notin a l : a ∉ l → dequeue a l = l.
Proof.
  unfold dequeue. induction l as [|x l IH]; [done|]. intros ?.
  rewrite filter_cons, decide_True by set_solver. f_equal. apply IH. set_solver.
Qed.

Lemma dequeue_mid a l1 l2 : NoDup (l1 ++ a :: l2) → dequeue a (l1 ++ a :: l2) = l1 ++ l2.
Proof.
  rewrite NoDup_app, NoDup_cons. intros (_ & Hd & Ha & _).
  rewrite dequeue_app. f_equal; [apply dequeue_notin; set_solver|].
  unfold dequeue. rewrite filter_cons, decide_False by naive_solver.
  by apply dequeue_notin.
Qed.

Lemma dequeue_NoDup a l : NoDup l → NoDup (dequeue a l).
Proof. apply NoDup_filter. Qed.

(** ** The layout of the bins *)
Fixpoint stack (m : emap) (p : ptr) (l : list positive) : Prop :=
  match l with
  | [] => p = None
  | a :: l => p = Some a ∧ ∃ e, m !! a = Some e ∧ stack m (nextInBin e) l
  end.

(** Every bin is a non-empty stack of events with one key, earlier than the keys
    of the bins behind it. *)
Fixpoint bins (m : emap) (p : ptr) (bs : list (list positive)) : Prop :=
  match bs with
  | [] => p = None
  | b :: bs => ∃ a b' e, b = a :: b' ∧ p = Some a ∧ m !! a = Some e ∧
      stack m (nextInBin e) b' ∧ Forall (λ x, key m x = ekey e) b' ∧
      Forall (λ x, klt (ekey e) (key m x)) (concat bs) ∧ bins m (nextBin e) bs
  end.

(** The queue with first event [p] holds the events [l], in this order. *)
Definition eq_rep (m : emap) (p : ptr) (l : list positive) : Prop :=
  ∃ bs, bins m p bs ∧ concat bs = l ∧ NoDup l.

(** What pointer routines leave alone: all but the links of an event. *)
Definition core (e : Event) : Z * Z * Z * ptr :=
  (_when e, _priority e, flags e, queue e).

Definition same_core (m m' : emap) : Prop :=
  ∀ x, core <$> m !! x = core <$> m' !! x.

#[global] Instance same_core_preorder : PreOrder same_core.
Proof. split; [done|]. intros m1 m2 m3 H1 H2 x. by rewrite H1, H2. Qed.

Lemma same_core_key m m' : same_core m m' → ∀ x, key m' x = key m x.
Proof.
  intros H x. specialize (H x). unfold key. unfold core in H.
  destruct (m !! x) as [[]|], (m' !! x) as [[]|]; simplify_eq/=; done.
Qed.

Lemma same_core_lookup m m' a e :
  same_core m m' → m !! a = Some e → ∃ e', m' !! a = Some e' ∧ core e' = core e.
Proof.
  intros H Ha. specialize (H a). rewrite Ha in H. simpl in H.
  destruct (m' !! a) as [e'|]; [|done]. exists e'. split; [done|].
  symmetry. by apply (inj Some).
Qed.

Lemma same_core_insert m a e e' :
  m !! a = Some e → core e' = core e → same_core m (<[a := e']> m).
Proof.
  intros Ha He x. destruct (decide (x = a)) as [->|].
  - rewrite Ha, lookup_insert_eq. simpl. by rewrite He.
  - by rewrite lookup_insert_ne.
Qed.

(** Events outside [l] are untouched. *)
Definition frame (l : list positive) (m m' : emap) : Prop :=
  ∀ x, x ∉ l → m' !! x = m !! x.

Lemma frame_refl l m : frame l m m.
Proof. done. Qed.

Lemma frame_insert l m a e : a ∈ l → frame l m (<[a := e]> m).
Proof. intros Ha x Hx. apply lookup_insert_ne. naive_solver. Qed.

Lemma frame_trans l m1 m2 m3 : frame l m1 m2 → frame l m2 m3 → frame l m1 m3.
Proof. intros H1 H2 x Hx. by rewrite H2, H1. Qed.

Lemma frame_mono l l' m m' : l ⊆ l' → frame l m m' → frame l' m m'.
Proof. intros Hl H x Hx. apply H. set_solver. Qed.

Create HintDb evq.
#[export] Hint Resolve frame_refl same_core_insert : evq.
#[export] Hint Extern 1 (frame _ _ (<[_ := _]> _)) => apply frame_insert; set_solver : evq.
#[export] Hint Extern 1 (same_core ?m ?m) => reflexivity : evq.

Lemma stack_ext m m' p l :
  (∀ x, x ∈ l → nextInBin <$> m' !! x = nextInBin <$> m !! x) →
  stack m p l → stack m' p l.
Proof.
  revert p. induction l as [|a l IH]; intros p Hm; simpl; [done|].
  intros (-> & e & Ha & Hl). split; [done|].
  assert (nextInBin <$> m' !! a = nextInBin <$> m !! a) as H by (apply Hm; set_solver).
  rewrite Ha in H. destruct (m' !! a) as [e'|]; simplify_eq/=.
  exists e'. split; [done|]. rewrite H. apply IH; [|done]. intros; apply Hm; set_solver.
Qed.

Lemma stack_dom m p l : stack m p l → Forall (λ x, is_Some (m !! x)) l.
Proof.
  revert p. induction l as [|a l IH]; intros p; simpl; [by constructor|].
  intros (_ & e & ? & ?). constructor; eauto.
Qed.

Lemma Forall_impl_in {A} (P Q : A → Prop) (l : list A) :
  Forall P l → (∀ x, x ∈ l → P x → Q x) → Forall Q l.
Proof. rewrite !Forall_forall. auto. Qed.

Lemma key_ext m m' x : m' !! x = m !! x → key m' x = key m x.
Proof. unfold key. by intros ->. Qed.

Lemma bins_ext m m' p bs :
  (∀ x, x ∈ concat bs → m' !! x = m !! x) → bins m p bs → bins m' p bs.
Proof.
  revert p. induction bs as [|b bs IH]; intros p Hm; simpl; [done|].
  intros (a & b' & e & -> & -> & Ha & Hs & Hk & Hlt & Hbs). simpl in Hm.
  exists a, b', e. split_and!; try done.
  - rewrite Hm by set_solver. done.
  - eapply stack_ext; [|done]. intros. rewrite Hm by set_solver. done.
  - eapply Forall_impl_in; [exact Hk|]. simpl. intros x Hx <-. apply key_ext, Hm. set_solver.
  - eapply Forall_impl_in; [exact Hlt|]. simpl. intros x Hx. rewrite (key_ext m m'); [done|].
    apply Hm. set_solver.
  - apply IH; [|done]. intros. apply Hm. set_solver.
Qed.

Lemma bins_dom m p bs : bins m p bs → Forall (λ x, is_Some (m !! x)) (concat bs).
Proof.
  revert p. induction bs as [|b bs IH]; intros p; simpl; [by constructor|].
  intros (a & b' & e & -> & -> & Ha & Hs & _ & _ & Hbs). simpl.
  constructor; [eauto|]. apply Forall_app. split; [by eapply stack_dom|eauto].
Qed.

Lemma bins_length m p bs : bins m p bs → (length bs ≤ length (concat bs))%nat.
Proof.
  revert p. induction bs as [|b bs IH]; intros p; simpl; [done|].
  intros (a & b' & e & -> & _ & _ & _ & _ & _ & Hbs). apply IH in Hbs.
  simpl. rewrite length_app. lia.
Qed.

(** A list of distinct live events is shorter than the fuel. *)
Lemma live_fuel (h : heap Event) l :
  NoDup l → Forall (λ x, is_Some (cells h !! x)) l → (length l < fuel h)%nat.
Proof.
  intros Hnd Hl. unfold fuel. apply Nat.lt_succ_r.
  rewrite <- (size_list_to_set (C := gset positive) l) by done.
  rewrite <- size_dom. apply subseteq_size. intros x Hx.
  apply elem_of_list_to_set in Hx. rewrite Forall_forall in Hl. by apply elem_of_dom, Hl.
Qed.

Lemma bins_top m p b bs :
  bins m p (b :: bs) → ∃ a b' e, b = a :: b' ∧ p = Some a ∧ m !! a = Some e.
Proof. intros (a & b' & e & ? & ? & ? & _). eauto 6. Qed.

Lemma bins_order m p bs : bins m p bs → in_order (key m) (concat bs).
Proof.
  revert p. induction bs as [|b bs IH]; intros p; simpl; [constructor|].
  intros (a & b' & e & -> & _ & Ha & _ & Hk & Hlt & Hbs). apply IH in Hbs.
  assert (Forall (λ x, key m x = ekey e) (a :: b')) as Hb
    by (constructor; [by apply key_Some|done]). revert Hb. generalize (a :: b') as b.
  intros b Hb. induction Hb as [|x b Hx Hb IHb]; simpl; [done|].
  constructor; [done|]. apply Forall_app. split.
  - eapply Forall_impl; [exact Hb|]. simpl. intros y ->. rewrite Hx. apply klt_irrefl.
  - eapply Forall_impl; [exact Hlt|]. simpl. intros y Hy. rewrite Hx. by apply klt_asym.
Qed.

(** The rest of a list of bins is a list of bins. *)
Lemma bins_tail m p bs1 b1 bs2 :
  bins m p (bs1 ++ b1 :: bs2) →
  ∃ a b e, b1 = a :: b ∧ m !! a = Some e ∧ bins m (Some a) (b1 :: bs2) ∧ bins m (nextBin e) bs2.
Proof.
  revert p. induction bs1 as [|b bs1 IH]; intros p; simpl.
  - intros (a & b' & e & -> & -> & Ha & Hs & Hk & Hlt & Hbs). exists a, b', e.
    split_and!; try done. exists a, b', e. done.
  - intros (a & b' & e & _ & _ & _ & _ & _ & _ & H). eauto.
Qed.

(** Redirecting the [nextBin] pointer of a top event replaces the bins behind it. *)
Lemma bins_relink m m' p bs1 a b e bs2 q bs2' :
  bins m p (bs1 ++ (a :: b) :: bs2) → NoDup (concat bs1 ++ a :: b) →
  m !! a = Some e → m' !! a = Some (with_nextBin e q) →
  (∀ x, x ∈ concat bs1 ++ b → m' !! x = m !! x) →
  bins m' q bs2' →
  Forall (λ y, Forall (λ x, klt (key m y) (key m' x)) (concat bs2')) (concat bs1 ++ [a]) →
  bins m' p (bs1 ++ (a :: b) :: bs2').
Proof.
  intros Hbins Hnd Ha Ha' Hext Hq Hlt. revert p Hbins.
  induction bs1 as [|b1 bs1 IH]; intros p; simpl in *.
  - intros (? & ? & e' & [= <- <-] & -> & He' & Hs & Hk & _ & _).
    assert (e' = e) as -> by congruence.
    exists a, b, (with_nextBin e q). split_and!; try done.
    + eapply stack_ext; [|exact Hs]. intros. by rewrite Hext.
    + eapply Forall_impl_in; [exact Hk|]. simpl. intros x Hx Hkx.
      rewrite (key_ext m) by (by apply Hext). exact Hkx.
    + inversion Hlt as [|?? Hl]. erewrite key_Some in Hl by done. done.
  - intros (a1 & b1' & e1 & -> & -> & Ha1 & Hs & Hk & Hlt1 & Hrest).
    rewrite <- (app_assoc (a1 :: b1')) in Hnd, Hext, Hlt. apply Forall_app in Hlt as [Hlt2 Hlt].
    inversion Hlt2 as [|?? Hl1 _]. simplify_eq. erewrite key_Some in Hl1 by done.
    assert (a1 ≠ a) by (intros ->; apply NoDup_app in Hnd; set_solver).
    exists a1, b1', e1. split_and!; try done.
    + rewrite Hext by set_solver. done.
    + eapply stack_ext; [|exact Hs]. intros. rewrite Hext by set_solver. done.
    + eapply Forall_impl_in; [exact Hk|]. simpl. intros x Hx <-. apply key_ext, Hext. set_solver.
    + rewrite concat_app in *. simpl in *. rewrite app_comm_cons, app_assoc in Hlt1.
      apply Forall_app in Hlt1 as [Hlt1 _]. rewrite app_comm_cons, app_assoc.
      apply Forall_app. split; [|done]. eapply Forall_impl_in; [exact Hlt1|]. simpl.
      intros x Hx Hx1. destruct (decide (x = a)) as [->|].
      { erewrite key_Some in Hx1 |- * by done. done. }
      erewrite (key_ext m m'); [done|]. apply Hext. set_solver.
    + apply IH; try done; [|set_solver]. apply NoDup_app in Hnd. naive_solver.
Qed.

(** ** Insertion *)
Lemma Ok_bind {A B} (a : A) (f : A → res B) : (Ok a ≫= f) = f a.
Proof. done. Qed.

Lemma deref_live {H} (h : heap H) a x :
  cells h !! a = Some x → heap_deref h (Some a) = Ok x.
Proof. simpl. by intros ->. Qed.

Lemma store_live {H} (h : heap H) a x y :
  cells h !! a = Some x →
  heap_store h (Some a) y = Ok (Heap (<[a := y]> (cells h)) (next h)).
Proof. intros Ha. unfold heap_store. by rewrite (deref_live _ _ _ Ha). Qed.

Lemma insertBefore_spec h a e p bs :
  cells h !! a = Some e → bins (cells h) p bs → a ∉ concat bs →
  Forall (λ x, ¬ klt (key (cells h) x) (ekey e)) (concat bs) →
  ∃ e' bs', insertBefore h (Some a) p = Ok (Heap (<[a := e']> (cells h)) (next h), Some a) ∧
    core e' = core e ∧ concat bs' = a :: concat bs ∧ bins (<[a := e']> (cells h)) (Some a) bs'.
Proof.
  intros Ha Hb Hnot Hle. unfold insertBefore. rewrite (deref_live _ _ _ Ha). simpl mbind.
  set (e1 := with_nextInBin (with_nextBin e p) None).
  assert (∀ e', bins (<[a:=e']> (cells h)) p bs) as Hext.
  { intros. eapply bins_ext; [|done]. intros. apply lookup_insert_ne. naive_solver. }
  destruct bs as [|b bs]; simpl in *.
  - subst p. rewrite (store_live _ _ _ _ Ha). exists e1, [[a]].
    split_and!; try done. exists a, [], e1. rewrite lookup_insert_eq. by split_and!.
  - destruct Hb as (c & b' & ec & -> & -> & Hc & Hs & Hk & Hlt & Hbs).
    rewrite (deref_live _ _ _ Hc). simpl. rewrite ev_lt_dec, !(store_live _ _ _ _ Ha).
    assert (∀ e' x, x ∈ c :: b' ++ concat bs → key (<[a:=e']> (cells h)) x = key (cells h) x)
      as Hkey by (intros; apply key_ext, lookup_insert_ne; naive_solver).
    case_bool_decide as Hd.
    + exists e1, ([a] :: (c :: b') :: bs). split_and!; try done.
      exists a, [], e1. rewrite lookup_insert_eq. split_and!; try done.
      { simpl. constructor; [rewrite Hkey by set_solver; erewrite key_Some by done; done|].
        apply Forall_app. split; [eapply Forall_impl_in; [exact Hk|]|eapply Forall_impl_in; [exact Hlt|]];
          simpl; intros x Hx Hkx; rewrite Hkey by set_solver; [by rewrite Hkx|by etrans]. }
      apply Hext.
    + assert (ekey ec = ekey e) as Hkk.
      { apply Forall_cons in Hle as [Hle _]. erewrite key_Some in Hle by done.
        by apply klt_total. }
      set (e2 := with_nextInBin (with_nextBin e (nextBin ec)) (Some c)).
      exists e2, ((a :: c :: b') :: bs). split_and!; try done.
      exists a, (c :: b'), e2. rewrite lookup_insert_eq. split_and!; try done.
      * split; [done|]. exists ec. rewrite lookup_insert_ne by set_solver. split; [done|].
        eapply stack_ext; [|done]. intros. by rewrite lookup_insert_ne by set_solver.
      * constructor; [rewrite Hkey by set_solver; by erewrite key_Some by done|].
        eapply Forall_impl_in; [exact Hk|]. simpl. intros x Hx Hkx.
        rewrite Hkey by set_solver. by rewrite Hkx.
      * eapply Forall_impl_in; [exact Hlt|]. simpl. intros x Hx Hkx. rewrite Hkey by set_solver.
        by rewrite Hkk in Hkx.
      * eapply bins_ext; [|exact Hbs]. intros. apply lookup_insert_ne. set_solver.
Qed.

(** Where the scan of the bins stops. *)
Lemma find_bin_spec h e n a b bs ea :
  bins (cells h) (Some a) (b :: bs) → cells h !! a = Some ea → (length bs < n)%nat →
  ∃ bs1 a1 b1 e1 bs2, find_bin n h e (Some a) (nextBin ea) = Ok (Some a1, nextBin e1) ∧
    b :: bs = bs1 ++ (a1 :: b1) :: bs2 ∧ cells h !! a1 = Some e1 ∧
    (klt (ekey ea) (ekey e) →
     Forall (λ x, klt (key (cells h) x) (ekey e)) (concat bs1 ++ a1 :: b1)) ∧
    Forall (λ x, ¬ klt (key (cells h) x) (ekey e)) (concat bs2) ∧
    (bs1 = [] ∨ klt (ekey e1) (ekey e)).
Proof.
  revert a b bs ea. induction n as [|n IH]; intros a b bs ea Hb Ha Hn; [lia|].
  destruct Hb as (? & b' & e' & -> & [= <-] & He' & Hs & Hk & Hlt & Hbs).
  assert (e' = ea) as -> by congruence. simpl.
  assert (klt (ekey ea) (ekey e) → Forall (λ x, klt (key (cells h) x) (ekey e)) (a :: b')) as Hbk.
  { intros Hae. constructor; [by erewrite key_Some by done|].
    eapply Forall_impl; [exact Hk|]. simpl. by intros x ->. }
  destruct bs as [|b2 bs]; simpl in Hbs.
  { rewrite Hbs. exists [], a, b', ea, []. split_and!; try done; [by rewrite Hbs|by left]. }
  destruct Hbs as (c & b2' & ec & -> & Hnb & Hc & Hs2 & Hk2 & Hlt2 & Hbs).
  rewrite Hnb. rewrite (deref_live _ _ _ Hc). simpl mbind. rewrite ev_lt_dec.
  case_bool_decide as Hd.
  - destruct (IH c (c :: b2') bs ec) as (bs1 & a1 & b1 & e1 & bs2 & -> & Heq & Ha1 & Hall & Hge & Hor);
      [by exists c, b2', ec|done|simpl in Hn; lia|].
    exists ((a :: b') :: bs1), a1, b1, e1, bs2. split_and!; try done.
    + by rewrite Heq.
    + intros Hae. simpl. rewrite <- app_assoc.
      apply (Forall_app _ (a :: b')). split; [by apply Hbk|by apply Hall].
    + right. destruct Hor as [->|]; [|done]. by simplify_eq/=.
  - exists [], a, b', ea, ((c :: b2') :: bs). split_and!; try done; [by rewrite Hnb| |by left].
    simpl. constructor; [by erewrite key_Some by done|]. apply Forall_app. split.
    + eapply Forall_impl; [exact Hk2|]. simpl. by intros x ->.
    + eapply Forall_impl; [exact Hlt2|]. simpl. intros x Hx Hxe. apply Hd. by etrans.
Qed.

(** The queue after a pointer routine: other heap and head, all else as before. *)
Definition relinked (st : State) (m : emap) (p : ptr) : State :=
  MkState (Heap m (next (events st))) (with_head (eventq st) p).

Lemma relinked_id st m : MkState (Heap m (next (events st))) (eventq st) =
  relinked st m (head (eventq st)).
Proof. destruct st as [? []]. done. Qed.

Notation live st := (cells (events st)).
Notation rep st l := (eq_rep (cells (events st)) (head (eventq st)) l).

Lemma fuel_bins h p bs :
  bins (cells h) p bs → NoDup (concat bs) → (length bs < fuel h)%nat.
Proof.
  intros Hb Hnd. pose proof (bins_length _ _ _ Hb).
  pose proof (live_fuel h (concat bs) Hnd (bins_dom _ _ _ Hb)). lia.
Qed.

Lemma insert_rep_head st a e bs :
  live st !! a = Some e → bins (live st) (head (eventq st)) bs → NoDup (a :: concat bs) →
  Forall (λ x, ¬ klt (key (live st) x) (ekey e)) (concat bs) →
  ∃ m' p', (r ← insertBefore (events st) (Some a) (head (eventq st));
      Ok (MkState r.1 (with_head (eventq st) r.2))) = Ok (relinked st m' p') ∧
    eq_rep m' p' (enqueue (key (live st)) a (concat bs)) ∧
    same_core (live st) m' ∧ frame (a :: concat bs) (live st) m'.
Proof.
  intros Ha Hb Hnd Hge. pose proof (NoDup_cons_1_1 _ _ Hnd) as Hnot.
  destruct (insertBefore_spec (events st) a e _ bs Ha Hb Hnot Hge)
    as (e' & bs' & -> & Hcore & Hcat & Hbs').
  exists (<[a:=e']> (live st)), (Some a). split_and!; [done| |by eauto with evq..].
  rewrite (enqueue_split _ a [] (concat bs)); [|done|by erewrite key_Some by done].
  by exists bs'.
Qed.

(** The event goes behind the top event [a1] of a bin. *)
Lemma insert_rep_behind h a e p bs1 a1 b1 e1 bs2 :
  cells h !! a = Some e → bins (cells h) p (bs1 ++ (a1 :: b1) :: bs2) →
  NoDup (a :: concat (bs1 ++ (a1 :: b1) :: bs2)) → cells h !! a1 = Some e1 →
  Forall (λ x, klt (key (cells h) x) (ekey e)) (concat bs1 ++ a1 :: b1) →
  Forall (λ x, ¬ klt (key (cells h) x) (ekey e)) (concat bs2) →
  ∃ m', (r ← insertBefore h (Some a) (nextBin e1);
         p ← heap_deref r.1 (Some a1); heap_store r.1 (Some a1) (with_nextBin p r.2)) =
        Ok (Heap m' (next h)) ∧
    eq_rep m' p (enqueue (key (cells h)) a (concat (bs1 ++ (a1 :: b1) :: bs2))) ∧
    same_core (cells h) m' ∧
    frame (a :: concat (bs1 ++ (a1 :: b1) :: bs2)) (cells h) m'.
Proof.
  intros Ha Hb Hnd Ha1 Hall Hge.
  destruct (bins_tail _ _ _ _ _ Hb) as (? & ? & ? & [= <- <-] & Ha1' & _ & Htl).
  rewrite Ha1 in Ha1'. injection Ha1' as <-.
  rewrite concat_app in *. simpl in *. apply NoDup_cons in Hnd as [Hnot Hnd].
  destruct (insertBefore_spec h a e _ bs2 Ha Htl ltac:(set_solver) Hge)
    as (e' & bs2' & -> & Hcore & Hcat & Hbs2').
  assert (a1 ≠ a) by set_solver. simpl. rewrite lookup_insert_ne by done. rewrite Ha1. simpl.
  unfold heap_store. simpl. rewrite lookup_insert_ne by done. rewrite Ha1. simpl.
  eexists. split; [done|]. set (m' := <[a1 := _]> _).
  assert (same_core (cells h) m') as Hcore'.
  { etrans; [apply (same_core_insert _ a e e'); done|].
    apply (same_core_insert _ a1 e1); [by rewrite lookup_insert_ne|done]. }
  split_and!; [|done|eapply frame_trans; apply frame_insert; set_solver].
  assert (NoDup (concat bs1 ++ a1 :: b1) ∧ a1 ∉ concat bs1 ++ b1 ++ concat bs2) as [Hnd1 Hn1].
  { revert Hnd. rewrite app_comm_cons, app_assoc, NoDup_app. intros (Hnd1 & Hdis & _).
    split; [done|]. apply NoDup_app in Hnd1 as (_ & Hd1 & Hd2). apply NoDup_cons in Hd2.
    set_solver. }
  exists (bs1 ++ (a1 :: b1) :: bs2'). split_and!; last (rewrite enqueue_perm; by constructor).
  2: { rewrite app_comm_cons, app_assoc, enqueue_split by (by erewrite (key_Some _ a) by done).
       rewrite concat_app. simpl. by rewrite Hcat, <- app_assoc. }
  eapply bins_relink; [exact Hb|done|done|apply lookup_insert_eq| | |].
  - intros x Hx. unfold m'. rewrite !lookup_insert_ne by set_solver. done.
  - eapply bins_ext; [|exact Hbs2']. rewrite Hcat. intros x Hx. apply lookup_insert_ne. set_solver.
  - rewrite Hcat. rewrite !Forall_forall in *. intros y Hy. rewrite Forall_forall.
    intros x Hx. rewrite !(same_core_key _ _ Hcore'). assert (klt (key (cells h) y) (ekey e)) by (apply Hall; set_solver).
    apply elem_of_cons in Hx as [->|Hx]; [by erewrite (key_Some _ a) by done|].
    eapply klt_le_trans; [done|]. by apply Hge.
Qed.

Lemma in_order_head (k : positive → Z * Z) x l :
  in_order k (x :: l) → Forall (λ y, ¬ klt (k y) (k x)) (x :: l).
Proof. inversion 1. constructor; [apply klt_irrefl|done]. Qed.

Lemma insert_rep st a e l :
  live st !! a = Some e → rep st l → a ∉ l →
  ∃ m' p', insert st (Some a) = Ok (relinked st m' p') ∧
    eq_rep m' p' (enqueue (key (live st)) a l) ∧
    same_core (live st) m' ∧ frame (a :: l) (live st) m'.
Proof.
  intros Ha (bs & Hb & <- & Hnd) Hnot. unfold insert.
  rewrite (deref_live _ _ _ Ha). rewrite ?Ok_bind.
  assert (NoDup (a :: concat bs)) as Hnd' by (by constructor).
  pose proof (insert_rep_head st a e bs Ha Hb Hnd') as Hhead.
  destruct bs as [|b bs].
  { simpl in Hb. rewrite Hb in Hhead |- *. apply Hhead. constructor. }
  pose proof (bins_top _ _ _ _ Hb) as (c & b' & ec & -> & Hhd & Hc).
  rewrite Hhd in Hb, Hhead |- *. rewrite (deref_live _ _ _ Hc). rewrite ?Ok_bind. rewrite ev_le_dec.
  case_bool_decide as Hd.
  { apply Hhead. eapply Forall_impl; [exact (in_order_head _ _ _ (bins_order _ _ _ Hb))|].
    simpl. intros x. erewrite (key_Some _ c) by done. revert Hd. unfold klt. lia. }
  rewrite ?(deref_live _ _ _ Hc). rewrite ?Ok_bind.
  destruct (find_bin_spec (events st) e (fuel (events st)) c (c :: b') bs ec Hb Hc)
    as (bs1 & a1 & b1 & e1 & bs2 & -> & Heq & Ha1 & Hall & Hge & _).
  { apply (fuel_bins _ _ _ Hb) in Hnd. simpl in Hnd. lia. }
  rewrite Heq in *. rewrite ?Ok_bind.
  destruct (insert_rep_behind (events st) a e _ bs1 a1 b1 e1 bs2 Ha Hb Hnd' Ha1 (Hall Hd) Hge)
    as (m' & Heqm & Hrep & Hcore & Hfr).
  exists m', (Some c). split_and!; try done. revert Heqm. simpl.
  destruct (insertBefore (events st) (Some a) (nextBin e1)) as [r|]; simpl; [|done]. destruct (cells r.1 !! a1); simpl; [|done].
  intros ->. simpl. by rewrite relinked_id, Hhd.
Qed.

(** ** Removal *)
Lemma find_in_bin_spec h a n c ec l :
  cells h !! c = Some ec → stack (cells h) (nextInBin ec) l → (length l < n)%nat → a ∈ l →
  ∃ l1 c1 e1 l2, find_in_bin n h (Some a) (Some c) (nextInBin ec) = Ok (Some c1, Some a) ∧
    c :: l = l1 ++ c1 :: a :: l2 ∧ cells h !! c1 = Some e1.
Proof.
  revert c ec l. induction n as [|n IH]; intros c ec l Hc Hs Hn Ha; [lia|].
  destruct l as [|d l]; [set_solver|]. destruct Hs as (Hd & ed & Hed & Hs). simpl.
  rewrite Hd. case_decide as Hda.
  - injection Hda as ->. by exists [], c, ec, l.
  - rewrite (deref_live _ _ _ Hed), Ok_bind.
    destruct (IH d ed l Hed Hs) as (l1 & c1 & e1 & l2 & -> & Heq & Hc1);
      [simpl in Hn; lia|set_solver|].
    exists (c :: l1), c1, e1, l2. by rewrite Heq.
Qed.

Lemma find_in_bin_absent h a n c ec l :
  cells h !! c = Some ec → stack (cells h) (nextInBin ec) l → (length l < n)%nat → a ∉ l →
  find_in_bin n h (Some a) (Some c) (nextInBin ec) = Err (Panic "event not found!").
Proof.
  revert c ec l. induction n as [|n IH]; intros c ec l Hc Hs Hn Ha; [lia|]. simpl.
  destruct l as [|d l]; simpl in Hs; [by rewrite Hs|].
  destruct Hs as (Hd & ed & Hed & Hs). rewrite Hd, decide_False by set_solver.
  rewrite (deref_live _ _ _ Hed), Ok_bind. eapply IH; [done..|simpl in Hn; lia|set_solver].
Qed.

(** Unlinking [a], which follows [c] on its stack. *)
Lemma stack_unlink m p l1 c a l2 ec ea :
  stack m p (l1 ++ c :: a :: l2) → NoDup (l1 ++ c :: a :: l2) →
  m !! c = Some ec → m !! a = Some ea →
  stack (<[c := with_nextInBin ec (nextInBin ea)]> m) p (l1 ++ c :: l2).
Proof.
  intros Hs Hnd Hc Ha. revert p Hs.
  induction l1 as [|x l1 IH]; intros p; simpl in *.
  - intros (-> & ec' & Hc' & _ & ea' & Ha' & Hl2). simplify_eq. split; [done|].
    eexists. split; [apply lookup_insert_eq|]. simpl.
    eapply stack_ext; [|exact Hl2]. intros x Hx. rewrite lookup_insert_ne; [done|].
    intros ->. apply NoDup_cons in Hnd. set_solver.
  - intros (-> & ex & Hx & Hs). apply NoDup_cons in Hnd as [Hnx Hnd]. split; [done|].
    exists ex. rewrite lookup_insert_ne by set_solver. split; [done|]. by apply IH.
Qed.

Lemma stack_lookup m p l x : stack m p l → x ∈ l → ∃ e, m !! x = Some e.
Proof. intros Hs Hx. apply stack_dom in Hs. rewrite Forall_forall in Hs. by apply Hs. Qed.

(** The first bin as a whole: a stack whose top event leads to the other bins. *)
Lemma bins_cons m p b bs :
  bins m p (b :: bs) ↔ ∃ a e, stack m p b ∧ p = Some a ∧ m !! a = Some e ∧
    Forall (λ x, key m x = ekey e) b ∧ Forall (λ x, klt (ekey e) (key m x)) (concat bs) ∧
    bins m (nextBin e) bs.
Proof.
  split.
  - intros (a & b' & e & -> & -> & Ha & Hs & Hk & Hlt & Hbs). exists a, e.
    split_and!; try done; [split; eauto|]. constructor; [by apply key_Some|done].
  - intros (a & e & Hs & -> & Ha & Hk & Hlt & Hbs). destruct b as [|a' b]; [done|].
    destruct Hs as ([= <-] & e' & Ha' & Hs). assert (e' = e) as -> by congruence. apply Forall_cons in Hk as [_ Hk].
    exists a, b, e. done.
Qed.

(** Popping the top event of the first bin. *)
Lemma bins_pop m t c b bs et ec :
  bins m (Some t) ((t :: c :: b) :: bs) → NoDup (concat ((t :: c :: b) :: bs)) →
  m !! t = Some et → m !! c = Some ec →
  bins (<[c := with_nextBin ec (nextBin et)]> m) (Some c) ((c :: b) :: bs).
Proof.
  rewrite !bins_cons. simpl. intros (t' & et' & Hs & [= <-] & Ht' & Hk & Hlt & Hbs) Hnd Ht Hc.
  destruct Hs as (_ & et'' & Ht'' & _ & ec'' & Hc' & Hs).
  rewrite Ht in Ht'. rewrite Hc in Hc'. injection Ht' as <-. injection Hc' as <-.
  assert (c ∉ b ++ concat bs) by (rewrite !NoDup_cons in Hnd; naive_solver).
  apply Forall_cons in Hk as [_ Hk]. pose proof (Forall_inv Hk) as Hkc. simpl in Hkc.
  rewrite (key_Some _ _ _ Hc) in Hkc. set (m' := <[c := _]> _).
  assert (same_core m m') as Hsc by eauto with evq.
  assert (m' !! c = Some (with_nextBin ec (nextBin et))) as Hm' by apply lookup_insert_eq.
  exists c, (with_nextBin ec (nextBin et)). change (ekey (with_nextBin ec _)) with (ekey ec).
  rewrite Hkc. split_and!; try done.
  - eexists. split; [exact Hm'|]. eapply stack_ext; [|exact Hs].
    intros. unfold m'. by rewrite lookup_insert_ne by set_solver.
  - eapply Forall_impl; [exact Hk|]. simpl. intros x. by rewrite (same_core_key _ _ Hsc).
  - eapply Forall_impl; [exact Hlt|]. simpl. intros x. by rewrite (same_core_key _ _ Hsc).
  - eapply bins_ext; [|exact Hbs]. intros. apply lookup_insert_ne. set_solver.
Qed.

(** Unlinking an event that is not the top of the first bin. *)
Lemma bins_unlink m p l1 c a l2 bs ec ea :
  bins m p ((l1 ++ c :: a :: l2) :: bs) → NoDup (concat ((l1 ++ c :: a :: l2) :: bs)) →
  m !! c = Some ec → m !! a = Some ea →
  bins (<[c := with_nextInBin ec (nextInBin ea)]> m) p ((l1 ++ c :: l2) :: bs).
Proof.
  rewrite !bins_cons. simpl. intros (t & et & Hs & Hp & Ht & Hk & Hlt & Hbs) Hnd Hc Ha.
  apply NoDup_app in Hnd as (Hnd & Hdis & _). set (m' := <[c := _]> m).
  assert (same_core m m') as Hsc by eauto with evq.
  assert (∃ et', m' !! t = Some et' ∧ ekey et' = ekey et ∧ nextBin et' = nextBin et)
    as (et' & Ht' & Hket & Hnb).
  { unfold m'. destruct (decide (t = c)) as [->|]; [|rewrite lookup_insert_ne by done; eauto].
    rewrite lookup_insert_eq. simplify_eq. by eexists. }
  exists t, et'. rewrite Hket, Hnb. split_and!; try done.
  - by eapply stack_unlink.
  - apply Forall_app in Hk as [Hk1 Hk]. apply Forall_cons in Hk as [Hkc Hk].
    apply Forall_cons in Hk as [_ Hk].
    assert (Forall (λ x, key m x = ekey et) (l1 ++ c :: l2)) as Hk'.
    { apply Forall_app. split; [done|]. by constructor. }
    eapply Forall_impl; [exact Hk'|]. simpl. intros x. by rewrite (same_core_key _ _ Hsc).
  - eapply Forall_impl; [exact Hlt|]. simpl. intros x. by rewrite (same_core_key _ _ Hsc).
  - eapply bins_ext; [|exact Hbs]. intros x Hx. apply lookup_insert_ne. intros <-.
    eapply Hdis; [|exact Hx]. set_solver.
Qed.

Lemma removeItem_spec h p b bs a :
  bins (cells h) p (b :: bs) → NoDup (concat (b :: bs)) → a ∈ b →
  ∃ m' p' bs', removeItem h (Some a) p = Ok (Heap m' (next h), p') ∧
    bins m' p' bs' ∧ concat bs' = dequeue a (concat (b :: bs)) ∧
    same_core (cells h) m' ∧ frame b (cells h) m'.
Proof.
  intros Hb Hnd Ha. pose proof Hb as (t & b' & et & -> & -> & Ht & Hs & _ & _ & Hbs).
  unfold removeItem. rewrite (deref_live _ _ _ Ht), Ok_bind. case_decide as Hat.
  - injection Hat as ->. change (concat ((t :: b') :: bs)) with ([] ++ t :: b' ++ concat bs) in *.
    rewrite dequeue_mid by done. destruct b' as [|c b']; simpl in Hs.
    { rewrite Hs. exists (cells h), (nextBin et), bs.
      split_and!; [by destruct h|done..|apply frame_refl]. }
    destruct Hs as (-> & ec & Hc & Hs). rewrite (deref_live _ _ _ Hc), Ok_bind.
    rewrite (store_live _ _ _ _ Hc), Ok_bind.
    eexists _, _, ((c :: b') :: bs). split_and!; [done|by eapply bins_pop|done|by eauto with evq..].
  - assert (a ∈ b') as Hab by set_solver. pose proof Hnd as Hnd'.
    apply NoDup_app in Hnd' as (Hndb & _). apply NoDup_cons in Hndb as [_ Hndb].
    destruct (find_in_bin_spec h a (fuel h) t et b' Ht Hs) as (l1 & c & ec & l2 & -> & Heq & Hc);
      [by apply (live_fuel h b'); [|eapply stack_dom]|done|].
    rewrite Ok_bind. simpl fst. simpl snd. destruct (stack_lookup _ _ _ _ Hs Hab) as [ea Hea].
    rewrite (deref_live _ _ _ Hea), Ok_bind, (deref_live _ _ _ Hc), Ok_bind.
    rewrite (store_live _ _ _ _ Hc), Ok_bind. rewrite Heq in *.
    eexists _, _, ((l1 ++ c :: l2) :: bs).
    split_and!; [done|by eapply bins_unlink| |by eauto with evq..].
    simpl in *.
    replace ((l1 ++ c :: a :: l2) ++ concat bs) with ((l1 ++ [c]) ++ a :: (l2 ++ concat bs)) in *
      by (by rewrite <- !app_assoc).
    rewrite dequeue_mid by done. by rewrite <- !app_assoc.
Qed.

Lemma removeItem_absent h p b bs a :
  bins (cells h) p (b :: bs) → NoDup (concat (b :: bs)) → a ∉ b →
  removeItem h (Some a) p = Err (Panic "event not found!").
Proof.
  intros (t & b' & et & -> & -> & Ht & Hs & _) Hnd Ha.
  unfold removeItem. rewrite (deref_live _ _ _ Ht), Ok_bind. rewrite decide_False by set_solver.
  apply NoDup_app in Hnd as (Hndb & _). apply NoDup_cons in Hndb as [_ Hndb].
  rewrite (find_in_bin_absent h a (fuel h) t et b' Ht Hs); [done| |set_solver].
  by apply (live_fuel h b'); [|eapply stack_dom].
Qed.

(** An event whose key is that of the first bin is in the first bin. *)
Lemma bins_same_key m p b bs a x ex :
  bins m p (b :: bs) → p = Some x → m !! x = Some ex → a ∈ concat (b :: bs) →
  a ∈ b ↔ key m a = ekey ex.
Proof.
  rewrite bins_cons. intros (t & et & _ & -> & Ht & Hk & Hlt & _) [= <-] Hx Ha. simplify_eq.
  rewrite !Forall_forall in *. split; [apply Hk|]. intros Hka.
  simpl in Ha. apply elem_of_app in Ha as [|Ha]; [done|]. apply Hlt in Ha. rewrite Hka in Ha.
  by apply klt_irrefl in Ha.
Qed.

(** The event is removed from the bin behind the top event [a1]. *)
Lemma remove_rep_behind h a p bs1 a1 b1 e1 b2 bs2 :
  bins (cells h) p (bs1 ++ (a1 :: b1) :: b2 :: bs2) →
  NoDup (concat (bs1 ++ (a1 :: b1) :: b2 :: bs2)) → cells h !! a1 = Some e1 → a ∈ b2 →
  Forall (λ y, Forall (λ x, klt (key (cells h) y) (key (cells h) x)) (concat (b2 :: bs2)))
    (concat bs1 ++ [a1]) →
  ∃ m', (r ← removeItem h (Some a) (nextBin e1);
         p ← heap_deref r.1 (Some a1); heap_store r.1 (Some a1) (with_nextBin p r.2)) =
        Ok (Heap m' (next h)) ∧
    eq_rep m' p (dequeue a (concat (bs1 ++ (a1 :: b1) :: b2 :: bs2))) ∧
    same_core (cells h) m' ∧ frame (concat (bs1 ++ (a1 :: b1) :: b2 :: bs2)) (cells h) m'.
Proof.
  intros Hb Hnd Ha1 Ha Hlt.
  destruct (bins_tail _ _ _ _ _ Hb) as (? & ? & ? & [= <- <-] & Ha1' & _ & Htl).
  rewrite Ha1 in Ha1'. injection Ha1' as <-.
  replace (concat (bs1 ++ (a1 :: b1) :: b2 :: bs2)) with
    ((concat bs1 ++ a1 :: b1) ++ concat (b2 :: bs2)) in *
    by (rewrite concat_app; simpl; by rewrite <- app_assoc).
  pose proof Hnd as (Hnd1 & Hdis & Hnd2)%NoDup_app.
  destruct (removeItem_spec h _ b2 bs2 a Htl Hnd2 Ha) as (m' & p' & bs' & -> & Hbs' & Hcat & Hsc & Hfr).
  rewrite Ok_bind. simpl fst. simpl snd.
  assert (∀ x, x ∈ concat bs1 ++ a1 :: b1 → m' !! x = cells h !! x) as Hkeep.
  { intros x Hx. apply Hfr. intros Hx2. eapply Hdis; [exact Hx|]. simpl. set_solver. }
  assert (m' !! a1 = Some e1) as Hm1 by (rewrite Hkeep by set_solver; done).
  rewrite (deref_live (Heap m' (next h)) a1 e1 Hm1), Ok_bind.
  rewrite (store_live (Heap m' (next h)) a1 e1 _ Hm1). simpl cells. simpl next.
  set (m2 := <[a1 := _]> m'). exists m2. split; [done|].
  assert (same_core (cells h) m2) as Hsc2.
  { etrans; [exact Hsc|]. by apply (same_core_insert _ a1 e1). }
  split_and!; [|done|].
  2: { eapply frame_trans; [|apply frame_insert; set_solver].
       eapply frame_mono; [|exact Hfr]. simpl. set_solver. }
  assert (a1 ∉ (concat bs1 ++ b1) ++ concat (b2 :: bs2)) as Hn1.
  { apply NoDup_app in Hnd1 as (_ & ? & Hd2). apply NoDup_cons in Hd2. set_solver. }
  assert (∀ x, x ∈ concat bs' → x ∈ concat (b2 :: bs2)) as Hsub.
  { intros x. rewrite Hcat, elem_of_dequeue. naive_solver. }
  exists (bs1 ++ (a1 :: b1) :: bs'). split_and!; [| |by apply dequeue_NoDup].
  - eapply bins_relink; [exact Hb|done|done|apply lookup_insert_eq| | |].
    + intros x Hx. unfold m2. rewrite lookup_insert_ne by set_solver. apply Hkeep. set_solver.
    + eapply bins_ext; [|exact Hbs']. intros x Hx%Hsub. apply lookup_insert_ne. set_solver.
    + eapply Forall_impl; [exact Hlt|]. simpl. intros y Hy. rewrite Forall_forall in Hy |- *.
      intros x Hx%Hsub. rewrite (same_core_key _ _ Hsc2). by apply Hy.
  - rewrite dequeue_app, <- Hcat, (dequeue_notin a (concat bs1 ++ a1 :: b1)).
    + rewrite concat_app. simpl. by rewrite <- app_assoc.
    + intros Hin. eapply Hdis; [exact Hin|]. simpl. set_solver.
Qed.

(** The scan finds the bin of an event that is in the queue but not in the first
    bin. *)
Lemma find_bin_hit h c b bs ec a e :
  bins (cells h) (Some c) (b :: bs) → NoDup (concat (b :: bs)) → cells h !! c = Some ec →
  cells h !! a = Some e → a ∈ concat (b :: bs) → ekey ec ≠ ekey e →
  ∃ bs1 a1 b1 e1 c2 b2 e2 bs2,
    find_bin (fuel h) h e (Some c) (nextBin ec) = Ok (Some a1, Some c2) ∧
    b :: bs = bs1 ++ (a1 :: b1) :: (c2 :: b2) :: bs2 ∧ cells h !! a1 = Some e1 ∧
    nextBin e1 = Some c2 ∧ cells h !! c2 = Some e2 ∧ ekey e2 = ekey e ∧ a ∈ c2 :: b2 ∧
    Forall (λ y, Forall (λ x, klt (key (cells h) y) (key (cells h) x))
      (concat ((c2 :: b2) :: bs2))) (concat bs1 ++ [a1]).
Proof.
  intros Hb Hnd Hc Ha Hin Hne.
  assert (Hlt : klt (ekey ec) (ekey e)).
  { pose proof Hb as (? & ? & ? & -> & [= <-] & _).
    pose proof (in_order_head _ _ _ (bins_order _ _ _ Hb)) as Hord. rewrite Forall_forall in Hord.
    specialize (Hord a Hin). rewrite (key_Some _ _ _ Ha), (key_Some _ _ _ Hc) in Hord.
    destruct (decide (klt (ekey ec) (ekey e))); [done|]. by destruct Hne; apply klt_total. }
  destruct (find_bin_spec h e (fuel h) c b bs ec Hb Hc)
    as (bs1 & a1 & b1 & e1 & bs2 & Hf & Heq & Ha1 & Hall & Hge & _).
  { apply (fuel_bins _ _ _ Hb) in Hnd. simpl in Hnd. lia. }
  specialize (Hall Hlt). rewrite Heq in *.
  destruct (bins_tail _ _ _ _ _ Hb) as (? & ? & ? & [= <- <-] & Ha1' & _ & Htl).
  rewrite Ha1 in Ha1'. injection Ha1' as <-.
  assert (a ∈ concat bs2) as Hin2.
  { rewrite concat_app in Hin. simpl in Hin. rewrite Forall_forall in Hall.
    destruct (decide (a ∈ concat bs1 ++ a1 :: b1)) as [Hx|]; [|set_solver].
    apply Hall in Hx. rewrite (key_Some _ _ _ Ha) in Hx. by apply klt_irrefl in Hx. }
  destruct bs2 as [|b2 bs2]; [set_solver|].
  pose proof (bins_top _ _ _ _ Htl) as (c2 & b2' & e2 & -> & Hnb & Hc2).
  assert (ekey e2 = ekey e) as Hk2.
  { pose proof (in_order_head _ _ _ (bins_order _ _ _ Htl)) as Hord. rewrite Forall_forall in Hord.
    specialize (Hord a Hin2). rewrite (key_Some _ _ _ Ha), (key_Some _ _ _ Hc2) in Hord.
    apply Forall_inv in Hge. rewrite (key_Some _ _ _ Hc2) in Hge. by apply klt_total. }
  rewrite Hnb in Hf.
  exists bs1, a1, b1, e1, c2, b2', e2, bs2. split_and!; try done.
  - eapply bins_same_key; [exact Htl|done|done|done|]. by rewrite (key_Some _ _ _ Ha).
  - rewrite !Forall_forall in *. intros y Hy. rewrite Forall_forall. intros x Hx.
    eapply klt_le_trans; [apply Hall; set_solver|by apply Hge].
Qed.

Lemma remove_rep st a e l :
  live st !! a = Some e → queue e = Some (this (eventq st)) → rep st l → a ∈ l →
  ∃ m' p', remove st (Some a) = Ok (relinked st m' p') ∧
    eq_rep m' p' (dequeue a l) ∧ same_core (live st) m' ∧ frame l (live st) m'.
Proof.
  intros Ha Hq (bs & Hb & <- & Hnd) Hin. unfold remove.
  destruct bs as [|b bs]; [set_solver|].
  pose proof (bins_top _ _ _ _ Hb) as (c & b' & ec & -> & Hhd & Hc). rewrite Hhd in Hb |- *.
  pose proof (bins_same_key _ _ _ _ a c ec Hb eq_refl Hc Hin) as Hsame.
  rewrite (key_Some _ _ _ Ha) in Hsame.
  rewrite (deref_live _ _ _ Ha), Ok_bind, bool_decide_true by done. simpl assert_.
  rewrite Ok_bind, (deref_live _ _ _ Hc), Ok_bind, ev_eq_dec. case_bool_decide as Hd.
  - destruct (removeItem_spec (events st) _ (c :: b') bs a Hb Hnd)
      as (m' & p' & bs' & -> & Hbs' & Hcat & Hsc & Hfr); [by apply Hsame|].
    exists m', p'. split_and!; try done.
    + exists bs'. split_and!; [done..|by apply dequeue_NoDup].
    + eapply frame_mono; [|exact Hfr]. simpl. set_solver.
  - destruct (find_bin_hit (events st) c (c :: b') bs ec a e)
      as (bs1 & a1 & b1 & e1 & c2 & b2 & e2 & bs2 & -> & Heq & Ha1 & Hnb & Hc2 & Hk2 & Hin2 & Hlt); try done.
    rewrite Ok_bind. simpl snd. simpl fst. rewrite (deref_live _ _ _ Hc2), Ok_bind.
    rewrite ev_ne_eq, ev_eq_dec, bool_decide_true by done. simpl negb. cbv iota.
    rewrite Heq in *.
    destruct (remove_rep_behind (events st) a _ bs1 a1 b1 e1 (c2 :: b2) bs2 Hb Hnd Ha1 Hin2 Hlt)
      as (m' & Heqm & Hrep & Hsc & Hfr).
    exists m', (Some c). split_and!; try done. revert Heqm. rewrite Hnb.
    destruct (removeItem (events st) (Some a) (Some c2)) as [r|]; [|done]. rewrite !Ok_bind.
    destruct (heap_deref r.1 (Some a1)); [|done]. rewrite !Ok_bind. intros ->.
    by rewrite Ok_bind, relinked_id, Hhd.
Qed.

Lemma remove_absent st a e l :
  live st !! a = Some e → queue e = Some (this (eventq st)) → rep st l → a ∉ l →
  remove st (Some a) = Err (Panic "event not found!").
Proof.
  intros Ha Hq (bs & Hb & <- & Hnd) Hin. unfold remove.
  destruct bs as [|b bs]; [simpl in Hb; by rewrite Hb|].
  pose proof (bins_top _ _ _ _ Hb) as (c & b' & ec & -> & Hhd & Hc). rewrite Hhd in Hb |- *.
  rewrite (deref_live _ _ _ Ha), Ok_bind, bool_decide_true by done. simpl assert_.
  rewrite Ok_bind, (deref_live _ _ _ Hc), Ok_bind. destruct (ev_eq ec e).
  { by erewrite removeItem_absent by (try done; set_solver). }
  destruct (find_bin_spec (events st) e (fuel (events st)) c (c :: b') bs ec Hb Hc)
    as (bs1 & a1 & b1 & e1 & bs2 & -> & Heq & Ha1 & _).
  { apply (fuel_bins _ _ _ Hb) in Hnd. simpl in Hnd. lia. }
  rewrite Heq in *. rewrite Ok_bind. simpl snd.
  destruct (bins_tail _ _ _ _ _ Hb) as (? & ? & ? & [= <- <-] & Ha1' & _ & Htl).
  rewrite Ha1 in Ha1'. injection Ha1' as <-.
  destruct bs2 as [|b2 bs2]; [simpl in Htl; by rewrite Htl|].
  pose proof (bins_top _ _ _ _ Htl) as (c2 & b2' & e2 & -> & Hnb & Hc2). rewrite Hnb in Htl |- *.
  rewrite (deref_live _ _ _ Hc2), Ok_bind. destruct (ev_ne e2 e); [done|].
  rewrite concat_app in Hnd, Hin. simpl in Hnd, Hin.
  apply NoDup_app in Hnd as (_ & _ & Hnd). rewrite app_comm_cons in Hnd. apply NoDup_app in Hnd as (_ & _ & Hnd).
  by erewrite removeItem_absent by (try done; set_solver).
Qed.

(** ** The head of the queue *)
Lemma rep_order m p l : eq_rep m p l → in_order (key m) l.
Proof. intros (bs & Hb & <- & _). by eapply bins_order. Qed.

Lemma rep_dom m p l : eq_rep m p l → Forall (λ x, is_Some (m !! x)) l.
Proof. intros (bs & Hb & <- & _). by eapply bins_dom. Qed.

Lemma rep_NoDup m p l : eq_rep m p l → NoDup l.
Proof. by intros (bs & _ & _ & ?). Qed.

Lemma rep_ext m m' p l :
  (∀ x, x ∈ l → m' !! x = m !! x) → eq_rep m p l → eq_rep m' p l.
Proof. intros Hm (bs & Hb & <- & ?). exists bs. split_and!; [|done..]. by eapply bins_ext. Qed.

Lemma rep_head m p l : eq_rep m p l → p = list.head l.
Proof.
  intros (bs & Hb & <- & _). destruct bs; [done|].
  destruct Hb as (? & ? & ? & -> & -> & _). done.
Qed.

(** A change of an event that keeps its links and its key. *)
Lemma stack_upd m p l a e e' :
  m !! a = Some e → nextInBin e' = nextInBin e → stack m p l → stack (<[a := e']> m) p l.
Proof.
  intros Ha He. apply stack_ext. intros x _. destruct (decide (x = a)) as [->|].
  - rewrite lookup_insert_eq, Ha. simpl. by rewrite He.
  - by rewrite lookup_insert_ne.
Qed.

Lemma key_upd m a e e' x : m !! a = Some e → ekey e' = ekey e → key (<[a := e']> m) x = key m x.
Proof.
  intros Ha He. unfold key. destruct (decide (x = a)) as [->|].
  - rewrite lookup_insert_eq, Ha. simpl. by rewrite He.
  - by rewrite lookup_insert_ne.
Qed.

Lemma bins_upd m p bs a e e' :
  m !! a = Some e → nextInBin e' = nextInBin e → nextBin e' = nextBin e → ekey e' = ekey e →
  bins m p bs → bins (<[a := e']> m) p bs.
Proof.
  intros Ha H1 H2 H3. revert p. induction bs as [|b bs IH]; intros p; [done|].
  rewrite !bins_cons. intros (t & et & Hs & -> & Ht & Hk & Hlt & Hbs).
  assert (∃ et', <[a := e']> m !! t = Some et' ∧ ekey et' = ekey et ∧ nextBin et' = nextBin et)
    as (et' & Ht' & Hk' & Hn').
  { destruct (decide (t = a)) as [->|]; [|rewrite lookup_insert_ne by done; eauto].
    rewrite lookup_insert_eq. assert (et = e) as -> by congruence. by exists e'. }
  exists t, et'. rewrite Hk', Hn'. split_and!; auto.
  - by eapply stack_upd.
  - eapply Forall_impl; [exact Hk|]. simpl. intros x. by erewrite key_upd.
  - eapply Forall_impl; [exact Hlt|]. simpl. intros x. by erewrite key_upd.
Qed.

Lemma rep_upd m p l a e e' :
  m !! a = Some e → nextInBin e' = nextInBin e → nextBin e' = nextBin e → ekey e' = ekey e →
  eq_rep m p l → eq_rep (<[a := e']> m) p l.
Proof. intros Ha H1 H2 H3 (bs & Hb & Hl). exists bs. split; [by eapply bins_upd|done]. Qed.

Lemma pop_rep st a l :
  rep st (a :: l) →
  ∃ e m' p', live st !! a = Some e ∧ pop st = Ok (Some a, relinked st m' p') ∧ eq_rep m' p' l ∧
    m' !! a = Some (with_flags e (Flags.clear (flags e) Scheduled)) ∧
    same_core (<[a := with_flags e (Flags.clear (flags e) Scheduled)]> (live st)) m' ∧
    frame (a :: l) (live st) m'.
Proof.
  intros (bs & Hb & Hcat & Hnd). destruct bs as [|b bs]; [done|].
  pose proof (bins_top _ _ _ _ Hb) as (x & b' & e & -> & Hhd & Ha). rewrite Hhd in Hb.
  assert (x = a ∧ b' ++ concat bs = l) as [-> <-] by (by inversion Hcat). exists e.
  set (e' := with_flags e (Flags.clear (flags e) Scheduled)).
  assert (<[a := e']> (live st) !! a = Some e') as Ha' by apply lookup_insert_eq.
  eapply (bins_upd _ _ _ a e e') in Hb as Hb'; try done.
  unfold pop, upd_event. rewrite Hhd, (deref_live _ _ _ Ha), !Ok_bind, (store_live _ _ _ _ Ha), !Ok_bind.
  fold e'. destruct Hb' as (? & ? & ? & [= <- <-] & _ & Ht & Hs & Hk & Hlt & Hbs).
  rewrite Ha' in Ht. injection Ht as <-. apply NoDup_cons in Hnd as [Hna Hnd].
  change (nextInBin e') with (nextInBin e) in Hs. change (nextBin e') with (nextBin e) in Hbs.
  destruct b' as [|c b']; simpl in Hs.
  - rewrite Hs. eexists _, _. split_and!; [done|done| |done|reflexivity|by eauto with evq].
    by exists bs.
  - destruct Hs as (-> & ec & Hc & Hs). cbn [events].
    rewrite (deref_live (Heap (<[a := e']> (live st)) _) c ec Hc), Ok_bind.
    rewrite (store_live (Heap (<[a := e']> (live st)) _) c ec _ Hc), !Ok_bind.
    eexists _, _. split_and!; [done|done| | | |].
    + exists ((c :: b') :: bs). split_and!; [|done..]. apply (bins_pop (<[a := e']> (live st)) a c b' bs e' ec); try done; [|by constructor].
      eapply (bins_upd _ _ _ a e e') in Hb; done.
    + simpl. rewrite lookup_insert_ne; [done|]. set_solver.
    + simpl. by eauto with evq.
    + simpl. eapply frame_trans; apply frame_insert; set_solver.
Qed.

(** ** Traversals *)
Lemma dump_bin_spec h n p b :
  stack (cells h) p b → (length b < n)%nat → dump_bin n h p = Ok (Some <$> b).
Proof.
  revert p b. induction n as [|n IH]; intros p b Hs Hn; [lia|].
  destruct b as [|a b]; simpl in *; [by rewrite Hs|].
  destruct Hs as (-> & e & Ha & Hs). rewrite (deref_live _ _ _ Ha), Ok_bind.
  rewrite (IH _ b Hs) by lia. done.
Qed.

Lemma stack_fuel h p b : stack (cells h) p b → NoDup b → (length b < fuel h)%nat.
Proof. intros. apply live_fuel; [done|]. by eapply stack_dom. Qed.

Lemma dump_bins_spec h n p bs :
  bins (cells h) p bs → NoDup (concat bs) → (length bs < n)%nat →
  dump_bins n h p = Ok (Some <$> concat bs).
Proof.
  revert p bs. induction n as [|n IH]; intros p bs Hb Hnd Hn; [lia|].
  destruct bs as [|b bs]; [simpl in Hb; by rewrite Hb|]. simpl in Hnd. cbn [dump_bins concat].
  apply NoDup_app in Hnd as (Hnd1 & _ & Hnd2).
  apply bins_cons in Hb as (a & e & Hs & -> & Ha & _ & _ & Hbs).
  rewrite (dump_bin_spec h _ _ b Hs) by (by eapply stack_fuel).
  rewrite Ok_bind, (deref_live _ _ _ Ha), Ok_bind.
  rewrite (IH _ bs Hbs Hnd2) by (simpl in Hn; lia). by rewrite Ok_bind, fmap_app.
Qed.

Lemma dump_rep st l : rep st l → dump st = Ok (Some <$> l).
Proof.
  intros (bs & Hb & <- & Hnd). apply dump_bins_spec; [done..|]. by eapply fuel_bins.
Qed.

Definition vkey (v : Verify) : Z * Z := (v_time v, v_priority v).

Lemma verify_step n h v a e :
  cells h !! a = Some e →
  verify_bin (S n) h v (Some a) =
    if decide (klt (ekey e) (vkey v) ∨ a ∈ v_seen v) then Ok (false, v)
    else verify_bin n h (MkVerify (_when e) (_priority e) ({[a]} ∪ v_seen v)) (nextInBin e).
Proof.
  intros Ha. cbn [verify_bin]. rewrite (deref_live _ _ _ Ha), Ok_bind.
  destruct (decide _) as [[Hk|Hin]|Hn].
  - unfold klt, ekey, vkey in Hk. simpl in Hk. destruct (Z.ltb_spec (_when e) (v_time v)); [done|].
    destruct (Z.eqb_spec (_when e) (v_time v)); [|lia].
    destruct (Z.ltb_spec (_priority e) (v_priority v)); [done|lia].
  - rewrite (bool_decide_true (a ∈ v_seen v)) by done. by repeat case_match.
  - rewrite (bool_decide_false (a ∈ v_seen v)) by naive_solver.
    assert (¬ klt (ekey e) (vkey v)) as Hk by naive_solver.
    unfold klt, ekey, vkey in Hk. simpl in Hk. destruct (Z.ltb_spec (_when e) (v_time v)); [lia|].
    destruct (Z.eqb_spec (_when e) (v_time v)), (Z.ltb_spec (_priority e) (v_priority v));
      simpl; done || lia.
Qed.

Lemma verify_bin_spec h n v p b :
  stack (cells h) p b → (length b < n)%nat → NoDup b → in_order (key (cells h)) b →
  Forall (λ x, ¬ klt (key (cells h) x) (vkey v) ∧ x ∉ v_seen v) b →
  ∃ v', verify_bin n h v p = Ok (true, v') ∧ v_seen v' = list_to_set b ∪ v_seen v ∧
    (vkey v' = vkey v ∨ ∃ x, x ∈ b ∧ vkey v' = key (cells h) x).
Proof.
  revert v p b. induction n as [|n IH]; intros v p b Hs Hn Hnd Hord Hv; [lia|].
  destruct b as [|a b]; simpl in Hs.
  { rewrite Hs. exists v. split_and!; [done|set_solver|by left]. }
  destruct Hs as (-> & e & Ha & Hs). apply NoDup_cons in Hnd as [Hna Hnd].
  inversion Hord as [|?? Hord' Hmin]; simplify_eq. apply Forall_cons in Hv as [[Hva Hsa] Hv].
  rewrite (key_Some _ _ _ Ha) in Hva. rewrite (verify_step _ _ _ _ _ Ha), decide_False by tauto.
  set (v1 := MkVerify _ _ _).
  destruct (IH v1 (nextInBin e) b Hs) as (v' & -> & Hseen & Hk); [simpl in Hn; lia|done|done| |].
  { rewrite !Forall_forall in *. intros x Hx. destruct (Hv x Hx) as [_ Hxs]. split.
    - change (vkey v1) with (ekey e). rewrite <- (key_Some _ _ _ Ha). by apply Hmin.
    - simpl. set_solver. }
  exists v'. split_and!; [done|rewrite Hseen; simpl; set_solver|]. right.
  destruct Hk as [->|(x & ? & ?)]; [|by exists x; set_solver].
  exists a. rewrite (key_Some _ _ _ Ha). set_solver.
Qed.

Lemma verify_bins_spec h n v p bs :
  bins (cells h) p bs → NoDup (concat bs) → (length bs < n)%nat →
  Forall (λ x, ¬ klt (key (cells h) x) (vkey v) ∧ x ∉ v_seen v) (concat bs) →
  verify_bins n h v p = Ok true.
Proof.
  revert v p bs. induction n as [|n IH]; intros v p bs Hb Hnd Hn Hv; [lia|].
  destruct bs as [|b bs]; [simpl in Hb; by rewrite Hb|]. simpl in Hnd, Hv, Hn.
  apply NoDup_app in Hnd as (Hnd1 & Hdis & Hnd2). apply Forall_app in Hv as [Hv1 Hv2].
  pose proof (bins_order _ _ _ Hb) as Hord. simpl in Hord.
  apply bins_cons in Hb as (a & e & Hs & -> & Ha & Hk & Hlt & Hbs). cbn [verify_bins].
  destruct (verify_bin_spec h (fuel h) v (Some a) b Hs) as (v' & -> & Hseen & Hvk);
    [by eapply stack_fuel|done| |done|].
  { clear -Hord. induction b as [|x b IH]; simpl in *; [constructor|].
    inversion Hord as [|?? Ho Hm]; simplify_eq. apply Forall_app in Hm as [? _].
    constructor; [by apply IH|done]. }
  rewrite Ok_bind. simpl. rewrite Ha. simpl. apply (IH _ _ bs); [done..|lia|].
  rewrite !Forall_forall in *. intros x Hx. split.
  - destruct Hvk as [->|(y & Hy & ->)]; [by apply Hv2|]. rewrite (Hk y Hy).
    by apply klt_asym, Hlt.
  - rewrite Hseen. intros [Hxb|Hxs]%elem_of_union; [|by apply Hv2 in Hx as [_ ?]].
    apply elem_of_list_to_set in Hxb. by eapply Hdis.
Qed.

Lemma debugVerify_rep st l :
  rep st l →
  debugVerify st =
    Ok (match l with [] => true | a :: _ => bool_decide (¬ klt (key (live st) a) (0, 0)) end).
Proof.
  intros (bs & Hb & <- & Hnd). unfold debugVerify. pose proof (fuel_bins _ _ _ Hb Hnd) as Hf.
  destruct bs as [|b bs].
  { simpl in Hb. by rewrite Hb. }
  pose proof (bins_top _ _ _ _ Hb) as (a & b' & e & -> & Hhd & Ha). cbn [concat app].
  rewrite (key_Some _ _ _ Ha). case_bool_decide as Hk.
  - eapply verify_bins_spec; [done..|].
    eapply Forall_impl; [exact (in_order_head _ _ _ (bins_order _ _ _ Hb))|]. simpl.
    intros x Hx. split; [|set_solver]. rewrite (key_Some _ _ _ Ha) in Hx.
    revert Hk Hx. unfold vkey, klt. simpl. lia.
  - rewrite Hhd. unfold fuel. cbn [verify_bins]. unfold fuel. rewrite (verify_step _ _ _ _ _ Ha), decide_True; [done|].
    by left.
Qed.

End EventQRep.
