(* ===== verification/EventQueueInv.v ===== *)
(** * The event queue: invariant and operations

    The invariant of a queue ([inv]): its pointers represent a list, the events on
    that list and on [async_queue] are those flagged [Scheduled] for the queue,
    and none of the list is in the past.  Each public operation is specified by
    what it does to the list, on every branch, and preserves the invariant. *)

From S2P Require Import Prelude EventQueue EventQueueRep.

Module EventQInv.
Import EventQ EventQRep.

(** ** Flags *)
Lemma land_u16 x m : is_u16 m → Z.land (u16 x) m = Z.land x m.
Proof.
  intros Hm. unfold u16. apply Z.bits_inj'. intros i Hi. rewrite !Z.land_spec.
  destruct (decide (i < 16)).
  - by rewrite Z.mod_pow2_bits_low by lia.
  - by rewrite (bits_above m 16 i), !andb_false_r by (unfold is_u16 in *; lia).
Qed.

Lemma land_set f m k : is_u16 k → Z.land (Flags.set f m) k = Z.lor (Z.land f k) (Z.land m k).
Proof. intros. unfold Flags.set. by rewrite land_u16, Z.land_lor_distr_l. Qed.

Lemma land_clear f m k :
  is_u16 k → Z.land (Flags.clear f m) k = Z.ldiff (Z.land f k) m.
Proof.
  intros. unfold Flags.clear. rewrite land_u16 by done.
  rewrite <- Z.land_assoc, (Z.land_comm (Z.lnot m)), Z.land_assoc.
  by rewrite <- Z.ldiff_land.
Qed.

(** Bits of [k] that a mask [m] does not touch. *)
Lemma land_set_other f m k :
  is_u16 k → Z.land m k = 0 → Z.land (Flags.set f m) k = Z.land f k.
Proof. intros ? Hm. by rewrite land_set, Hm, Z.lor_0_r. Qed.

Lemma land_clear_other f m k :
  is_u16 k → Z.land m k = 0 → Z.land (Flags.clear f m) k = Z.land f k.
Proof.
  intros Hk Hm. rewrite land_clear by done. apply Z.bits_inj'. intros i Hi.
  rewrite Z.ldiff_spec, !Z.land_spec. apply (f_equal (λ z, Z.testbit z i)) in Hm.
  rewrite Z.land_spec, Z.bits_0 in Hm.
  destruct (Z.testbit m i), (Z.testbit k i); simpl in *; by rewrite ?andb_false_r, ?andb_true_r.
Qed.

Lemma isSet_clear_sub f m k :
  is_u16 k → Z.land k m = k → Flags.isSet (Flags.clear f m) k = false.
Proof.
  intros Hk Hm. unfold Flags.isSet. rewrite land_clear by done. rewrite <- Hm.
  by rewrite Z.ldiff_land, <- !Z.land_assoc, Z.land_lnot_diag, !Z.land_0_r.
Qed.

Lemma isSet_clear_same f m : is_u16 m → Flags.isSet (Flags.clear f m) m = false.
Proof. intros. apply isSet_clear_sub; [done|]. apply Z.land_diag. Qed.

Lemma isSet_set_Scheduled f : Flags.isSet (Flags.set f Scheduled) Scheduled = true.
Proof.
  unfold Flags.isSet. rewrite land_set by done. apply negb_true_iff, Z.eqb_neq.
  intros Hz. apply (f_equal (λ z, Z.testbit z 1)) in Hz. revert Hz.
  rewrite Z.lor_spec, Z.bits_0. change (Z.testbit (Z.land Scheduled Scheduled) 1) with true.
  by rewrite orb_true_r.
Qed.

(** What every event satisfies: it was constructed, and no one has put it on "the
    main queue" ([IsMainQueue] is not a flag that users may write). *)
Definition ev_ok (e : Event) : Prop :=
  initialized e = true ∧ Flags.isSet (flags e) IsMainQueue = false.

(** A mask of flags that users may write. *)
Definition user_mask (m : Z) : Prop :=
  Z.land m InitMask = 0 ∧ Z.land m IsMainQueue = 0 ∧ Z.land m Scheduled = 0.

Lemma user_mask_public f :
  Flags.noneSet f (u16 (Z.lnot PublicWrite)) = true → user_mask f.
Proof.
  unfold Flags.noneSet. rewrite Z.eqb_eq. intros Hf.
  assert (∀ k, Z.land (u16 (Z.lnot PublicWrite)) k = k → Z.land f k = 0) as Hk.
  { intros k Hk. rewrite <- Hk, Z.land_assoc, Hf. by rewrite Z.land_0_l. }
  split_and!; by apply Hk.
Qed.

Lemma ev_ok_set e m :
  Z.land m InitMask = 0 → Z.land m IsMainQueue = 0 → ev_ok e →
  ev_ok (with_flags e (Flags.set (flags e) m)).
Proof.
  intros H1 H2 [Hi Hm]. unfold ev_ok, initialized, Flags.isSet in *. simpl.
  by rewrite !land_set_other.
Qed.

Lemma ev_ok_clear e m :
  Z.land m InitMask = 0 → Z.land m IsMainQueue = 0 → ev_ok e →
  ev_ok (with_flags e (Flags.clear (flags e) m)).
Proof.
  intros H1 H2 [Hi Hm]. unfold ev_ok, initialized, Flags.isSet in *. simpl.
  by rewrite !land_clear_other.
Qed.

Lemma ev_ok_setWhen e w q : ev_ok e → ev_ok (setWhen e w q).
Proof. done. Qed.

Lemma ev_ok_new p f e : Event_new p f = Ok e → ev_ok e ∧ scheduled e = false ∧ queue e = None.
Proof.
  unfold Event_new. intros H. res_inv. apply user_mask_public in H0 as (H1 & H2 & H3).
  unfold ev_ok, initialized, scheduled, Flags.isSet. simpl.
  by rewrite !Z.land_lor_distr_l, H1, H2, H3.
Qed.

Lemma core_ok e e' : core e = core e' → ev_ok e → ev_ok e'.
Proof. destruct e, e'. unfold core, ev_ok, initialized. simpl. by intros [= -> -> -> ->]. Qed.

Lemma core_with_flags e e' f : core e = core e' → core (with_flags e f) = core (with_flags e' f).
Proof. destruct e, e'. unfold core. simpl. by intros [= -> -> -> ->]. Qed.

#[export] Hint Resolve ev_ok_set ev_ok_clear ev_ok_setWhen : evq.

(** ** The invariant *)

(** [e] is scheduled on the queue [q]. *)
Definition on_queue (q : positive) (e : Event) : Prop :=
  scheduled e = true ∧ queue e = Some q.

Lemma core_on_queue q e e' : core e = core e' → on_queue q e → on_queue q e'.
Proof. destruct e, e'. unfold core, on_queue, scheduled. simpl. by intros [= -> -> -> ->]. Qed.

Record inv (st : State) (l : list positive) : Prop := Inv {
  i_rep : rep st l;
  i_sched a : a ∈ l ∨ Some a ∈ async_queue (eventq st) ↔
    ∃ e, live st !! a = Some e ∧ on_queue (this (eventq st)) e;
  i_async : ∃ la, async_queue (eventq st) = Some <$> la ∧ NoDup (la ++ l);
  i_time : Forall (λ a, _curTick (eventq st) ≤ (key (live st) a).1) l;
  i_ok : map_Forall (λ _, ev_ok) (live st);
  i_fresh a : is_Some (live st !! a) → (a < next (events st))%positive
}.

(** All but event [a] look the same in both heaps. *)
Definition same_but (a : positive) (m m' : emap) : Prop :=
  ∀ x, x ≠ a → core <$> m !! x = core <$> m' !! x.

Lemma same_but_insert a m e : same_but a m (<[a := e]> m).
Proof. intros x Hx. by rewrite lookup_insert_ne. Qed.

Lemma same_but_core a m m' : same_core m m' → same_but a m m'.
Proof. by intros H x _. Qed.

Lemma same_but_trans a m1 m2 m3 : same_but a m1 m2 → same_but a m2 m3 → same_but a m1 m3.
Proof. intros H1 H2 x Hx. by rewrite H1, H2. Qed.

Lemma same_but_key a m m' x : same_but a m m' → x ≠ a → key m' x = key m x.
Proof.
  intros H Hx. specialize (H x Hx). unfold key.
  destruct (m !! x) as [[]|], (m' !! x) as [[]|]; by simplify_eq/=.
Qed.

Lemma same_but_lookup a m m' x e' :
  same_but a m m' → x ≠ a → m' !! x = Some e' → ∃ e, m !! x = Some e ∧ core e = core e'.
Proof.
  intros H Hx Hm. specialize (H x Hx). rewrite Hm in H.
  destruct (m !! x) as [e|]; [|done]. exists e. split; [done|]. by apply (inj Some).
Qed.

(** The invariant after an operation on the event [a] at an unchanged time. *)
Lemma inv_change st st' l l' a e' :
  inv st l → rep st' l' →
  this (eventq st') = this (eventq st) → _curTick (eventq st') = _curTick (eventq st) →
  next (events st) = next (events st') →
  same_but a (live st) (live st') → is_Some (live st !! a) → live st' !! a = Some e' → ev_ok e' →
  (∀ x, x ≠ a → (x ∈ l' ∨ Some x ∈ async_queue (eventq st') ↔
                 x ∈ l ∨ Some x ∈ async_queue (eventq st))) →
  (a ∈ l' ∨ Some a ∈ async_queue (eventq st') ↔ on_queue (this (eventq st)) e') →
  (∃ la, async_queue (eventq st') = Some <$> la ∧ NoDup (la ++ l')) →
  (∀ x, x ∈ l' → x ≠ a → x ∈ l) →
  (a ∈ l' → _curTick (eventq st) ≤ _when e') →
  inv st' l'.
Proof.
  intros Hinv Hrep Hthis Htick Hnext Hbut Ha Ha' Hok Hmem Hmema Hasync Hsub Htime.
  destruct Hinv as [_ Hsched _ Htime0 Hall Hfresh].
  constructor; [done| |done| | |].
  - intros x. rewrite Hthis. destruct (decide (x = a)) as [->|Hx].
    + rewrite Hmema. naive_solver.
    + rewrite Hmem, Hsched by done. split; intros (e & He & Hon).
      * specialize (Hbut x Hx). rewrite He in Hbut. destruct (live st' !! x) as [e1|]; [|done].
        exists e1. split; [done|]. eapply core_on_queue; [|done]. by apply (inj Some).
      * destruct (same_but_lookup _ _ _ _ _ Hbut Hx He) as (e1 & ? & ?). exists e1.
        split; [done|]. by eapply core_on_queue.
  - rewrite Htick. rewrite !Forall_forall in *. intros x Hx. destruct (decide (x = a)) as [->|Hne].
    + erewrite key_Some by done. by apply Htime.
    + erewrite same_but_key by done. by apply Htime0, Hsub.
  - intros x e He. destruct (decide (x = a)) as [->|Hne]; [by simplify_eq|].
    destruct (same_but_lookup _ _ _ _ _ Hbut Hne He) as (e1 & He1 & ?).
    eapply core_ok; [done|]. by apply (Hall x).
  - intros x [e He]. rewrite <- Hnext. apply Hfresh. destruct (decide (x = a)) as [->|Hne]; [done|].
    destruct (same_but_lookup _ _ _ _ _ Hbut Hne He) as (e1 & He1 & ?). eauto.
Qed.

(** ** Scheduling *)
Lemma upd_event_live st a e f :
  live st !! a = Some e →
  upd_event st (Some a) f =
    Ok (MkState (Heap (<[a := f e]> (live st)) (next (events st))) (eventq st)).
Proof.
  intros Ha. unfold upd_event. rewrite (deref_live _ _ _ Ha), Ok_bind.
  by rewrite (store_live _ _ _ _ Ha).
Qed.

(** The keys once event [a] has the time [w]. *)
Definition rekey (m : emap) (a : positive) (w : Z) (x : positive) : Z * Z :=
  if decide (x = a) then (w, (key m a).2) else key m x.

(** [setWhen], [insert] and the update of the flags: the common part of
    [schedule] and [reschedule]. *)
Lemma set_and_insert st a e w l (g : Event → Event) :
  live st !! a = Some e → rep st l → a ∉ l →
  (∀ e, nextInBin (g e) = nextInBin e ∧ nextBin (g e) = nextBin e ∧ ekey (g e) = ekey e) →
  (∀ e e', core e = core e' → core (g e) = core (g e')) →
  ∃ st' e', (st1 ← upd_event st (Some a) (λ e, setWhen e w (this (eventq st)));
             st2 ← insert st1 (Some a); upd_event st2 (Some a) g) = Ok st' ∧
    rep st' (enqueue (rekey (live st) a w) a l) ∧
    live st' !! a = Some e' ∧ core e' = core (g (setWhen e w (this (eventq st)))) ∧
    same_but a (live st) (live st') ∧ next (events st') = next (events st) ∧
    eventq st' = with_head (eventq st) (head (eventq st')).
Proof.
  intros Ha Hrep Hnot Hg Hgc. rewrite (upd_event_live _ _ _ _ Ha), Ok_bind.
  set (e1 := setWhen e w _). set (st1 := MkState _ _).
  assert (live st1 !! a = Some e1) as Ha1 by apply lookup_insert_eq.
  assert (rep st1 l) as Hrep1.
  { eapply rep_ext; [|exact Hrep]. intros x Hx. apply lookup_insert_ne. set_solver. }
  destruct (insert_rep st1 a e1 l Ha1 Hrep1 Hnot) as (m2 & p2 & -> & Hrep2 & Hsc & Hfr).
  rewrite Ok_bind. destruct (same_core_lookup _ _ _ _ Hsc Ha1) as (e2 & Ha2 & He2).
  assert (live (relinked st1 m2 p2) !! a = Some e2) as Ha2' by done.
  rewrite (upd_event_live _ _ _ _ Ha2'). eexists _, (g e2). split; [done|]. cbn [events eventq cells next].
  destruct (Hg e2) as (H1 & H2 & H3). split_and!.
  - eapply rep_upd; [done..|].
    erewrite enqueue_ext; [exact Hrep2| |]; unfold rekey; [rewrite decide_True by done|].
    + by rewrite (key_Some _ _ _ Ha), (key_Some _ _ _ Ha1).
    + intros x Hx. rewrite decide_False by set_solver. symmetry.
      apply key_ext, lookup_insert_ne. set_solver.
  - apply lookup_insert_eq.
  - by apply Hgc.
  - apply (same_but_trans _ _ (live st1)); [apply same_but_insert|].
    apply (same_but_trans _ _ m2); [by apply same_but_core|apply same_but_insert].
  - done.
  - by destruct st.
Qed.

Lemma not_on_list st l a e :
  inv st l → live st !! a = Some e → scheduled e = false →
  a ∉ l ∧ Some a ∉ async_queue (eventq st).
Proof.
  intros Hinv Ha Hs. pose proof (i_sched _ _ Hinv a) as H.
  assert (¬ (a ∈ l ∨ Some a ∈ async_queue (eventq st))); [|tauto].
  rewrite H. intros (? & ? & Hon & _). simplify_eq. congruence.
Qed.

Lemma not_async st l a : inv st l → a ∈ l → Some a ∉ async_queue (eventq st).
Proof.
  intros Hinv Hin. destruct (i_async _ _ Hinv) as (la & -> & Hnd).
  intros (? & [= <-] & Has)%list_elem_of_fmap. apply NoDup_app in Hnd as (_ & Hd & _).
  by eapply Hd.
Qed.

(** ** Deletion and change of one event *)
Lemma inv_delete st l a e :
  inv st l → live st !! a = Some e → scheduled e = false →
  inv (MkState (Heap (delete a (live st)) (next (events st))) (eventq st)) l.
Proof.
  intros Hinv Ha Hs. destruct (not_on_list _ _ _ _ Hinv Ha Hs) as [Hnl Hna].
  destruct Hinv as [Hrep Hsched Hasync Htime Hall Hfresh]. constructor; cbn [events eventq cells next].
  - eapply rep_ext; [|exact Hrep]. intros x Hx. apply lookup_delete_ne. set_solver.
  - intros x. rewrite Hsched. destruct (decide (x = a)) as [->|Hx].
    + rewrite lookup_delete_eq. split; [|naive_solver]. intros (? & ? & Hon & _).
      simplify_eq. congruence.
    + by rewrite lookup_delete_ne.
  - done.
  - eapply Forall_impl_in; [exact Htime|]. simpl. intros x Hx Hle.
    rewrite (key_ext (live st)); [done|]. apply lookup_delete_ne. set_solver.
  - by apply map_Forall_delete.
  - intros x [y Hy]. apply lookup_delete_Some in Hy as [_ Hy]. eauto.
Qed.

Lemma inv_flags st l a e f :
  inv st l → live st !! a = Some e → ev_ok (with_flags e f) →
  scheduled (with_flags e f) = scheduled e →
  inv (MkState (Heap (<[a := with_flags e f]> (live st)) (next (events st))) (eventq st)) l.
Proof.
  intros Hinv Ha Hok Hs.
  eapply (inv_change st _ l l a (with_flags e f)); try done; cbn [events eventq cells next].
  - eapply rep_upd; [done..|apply Hinv].
  - apply same_but_insert.
  - apply lookup_insert_eq.
  - rewrite (i_sched _ _ Hinv a). unfold on_queue. rewrite Hs. simpl. naive_solver.
  - apply Hinv.
  - intros Hin. pose proof (i_time _ _ Hinv) as Ht. rewrite Forall_forall in Ht.
    specialize (Ht a Hin). by rewrite (key_Some _ _ _ Ha) in Ht.
Qed.

Lemma release_eq st a e :
  live st !! a = Some e →
  release st (Some a) =
    Ok (if isManaged e && negb (scheduled e)
        then MkState (Heap (delete a (live st)) (next (events st))) (eventq st) else st).
Proof.
  intros Ha. unfold release, delete_event. rewrite (deref_live _ _ _ Ha), !Ok_bind.
  destruct (isManaged e), (scheduled e) eqn:Hs; simpl; try done.
  unfold heap_delete. simpl. by rewrite Ha.
Qed.

Lemma release_inv st l a e :
  inv st l → live st !! a = Some e → returns (release st (Some a)) (λ st', inv st' l).
Proof.
  intros Hinv Ha. rewrite (release_eq _ _ _ Ha). simpl.
  destruct (isManaged e), (scheduled e) eqn:Hs; simpl; try done. by eapply inv_delete.
Qed.

Section ops.
Context (inParallelMode : bool) (curEventQueue : ptr).
Notation schedule := (schedule inParallelMode curEventQueue).
Notation deschedule := (deschedule inParallelMode curEventQueue).
Notation reschedule := (reschedule inParallelMode curEventQueue).

(** Whether [schedule] goes through [async_queue]. *)
Definition goes_async (st : State) (global : bool) : bool :=
  inParallelMode && (bool_decide (Some (this (eventq st)) ≠ curEventQueue) || global).

Definition flag_Scheduled (e : Event) : Event := with_flags e (Flags.set (flags e) Scheduled).

Lemma schedule_spec st l a e w g :
  inv st l → live st !! a = Some e → scheduled e = false → _curTick (eventq st) ≤ w →
  goes_async st g = false →
  ∃ st' e', schedule st (Some a) w g = Ok st' ∧ inv st' (enqueue (rekey (live st) a w) a l) ∧
    live st' !! a = Some e' ∧
    core e' = core (flag_Scheduled (setWhen e w (this (eventq st)))) ∧
    same_but a (live st) (live st') ∧
    eventq st' = with_head (eventq st) (head (eventq st')).
Proof.
  intros Hinv Ha Hs Hw Hg. destruct (not_on_list _ _ _ _ Hinv Ha Hs) as [Hnl Hna].
  destruct (set_and_insert st a e w l flag_Scheduled Ha (i_rep _ _ Hinv) Hnl)
    as (st' & e' & Heq & Hrep & Ha' & Hcore & Hbut & Hnext & Hq); [done| |].
  { intros [] []. unfold core. simpl. by intros [= -> -> -> ->]. }
  pose proof (i_ok _ _ Hinv a e Ha) as Hok.
  exists st', e'. split_and!; try done.
  - unfold EventQ.schedule. rewrite (proj2 (Z.leb_le _ _) Hw). simpl assert_. rewrite Ok_bind.
    rewrite (deref_live _ _ _ Ha), Ok_bind, Hs. simpl assert_. rewrite Ok_bind.
    rewrite (proj1 Hok). simpl assert_. rewrite Ok_bind.
    unfold goes_async in Hg. rewrite Hg. revert Heq. rewrite (upd_event_live _ _ _ _ Ha), !Ok_bind.
    destruct (insert _ _) as [st2|]; [|done]. rewrite !Ok_bind. unfold flag_Scheduled.
    intros ->. rewrite Ok_bind. unfold acquire. by rewrite (deref_live _ _ _ Ha').
  - eapply (inv_change st st' l _ a e'); try done; try (by rewrite Hq); try (by eauto).
    + eapply core_ok; [symmetry; exact Hcore|]. by apply ev_ok_set.
    + intros x Hx. rewrite Hq, elem_of_enqueue. naive_solver.
    + rewrite elem_of_enqueue. split; [|by left; left]. intros _.
      eapply core_on_queue; [symmetry; exact Hcore|]. split; [apply isSet_set_Scheduled|done].
    + destruct (i_async _ _ Hinv) as (la & Hla & Hnd). exists la. rewrite Hq. split; [done|].
      rewrite enqueue_perm. rewrite <- Permutation_middle. constructor; [|done].
      rewrite Hla in Hna. rewrite elem_of_app. intros [?|?]; [|done]. apply Hna.
      apply list_elem_of_fmap. eauto.
    + intros x. rewrite elem_of_enqueue. naive_solver.
    + intros _. assert (_when e' = w) as ->; [|done]. unfold core in Hcore. simpl in Hcore. by inversion Hcore.
Qed.

(** From another thread's queue, or for a global event: the event waits on
    [async_queue]. *)
Lemma schedule_async_spec st l a e w g :
  inv st l → live st !! a = Some e → scheduled e = false → _curTick (eventq st) ≤ w →
  goes_async st g = true →
  ∃ st', schedule st (Some a) w g = Ok st' ∧ inv st' l ∧
    live st' !! a = Some (flag_Scheduled (setWhen e w (this (eventq st)))) ∧
    same_but a (live st) (live st') ∧
    eventq st' = with_async (eventq st) (async_queue (eventq st) ++ [Some a]).
Proof.
  intros Hinv Ha Hs Hw Hg. destruct (not_on_list _ _ _ _ Hinv Ha Hs) as [Hnl Hna].
  pose proof (i_ok _ _ Hinv a e Ha) as Hok.
  set (e1 := setWhen e w (this (eventq st))).
  assert (<[a := e1]> (live st) !! a = Some e1) as Ha1 by apply lookup_insert_eq.
  eexists. split.
  { unfold EventQ.schedule. rewrite (proj2 (Z.leb_le _ _) Hw). simpl assert_. rewrite Ok_bind.
    rewrite (deref_live _ _ _ Ha), Ok_bind, Hs. simpl assert_. rewrite Ok_bind.
    rewrite (proj1 Hok). simpl assert_. rewrite Ok_bind, (upd_event_live _ _ _ _ Ha), Ok_bind.
    unfold goes_async in Hg. rewrite Hg, Ok_bind.
    erewrite upd_event_live by (unfold asyncInsert; simpl; exact Ha1). rewrite Ok_bind.
    unfold acquire. erewrite deref_live by apply lookup_insert_eq. done. }
  unfold asyncInsert. cbn [events eventq cells next]. rewrite insert_insert_eq.
  split_and!; [|apply lookup_insert_eq|apply same_but_insert|done].
  eapply (inv_change st _ l l a (flag_Scheduled e1)); try done; cbn [events eventq cells next].
  - eapply rep_ext; [|apply Hinv]. intros x Hx. apply lookup_insert_ne. set_solver.
  - apply same_but_insert.
  - apply lookup_insert_eq.
  - by apply ev_ok_set.
  - intros x Hx. simpl. set_solver.
  - split; [|simpl; set_solver]. intros _. split; [apply isSet_set_Scheduled|done].
  - destruct (i_async _ _ Hinv) as (la & Hla & Hnd). exists (la ++ [a]). simpl.
    rewrite Hla, fmap_app. split; [done|]. rewrite <- app_assoc. simpl. rewrite <- Permutation_middle.
    constructor; [|done]. rewrite Hla in Hna. rewrite elem_of_app. intros [?|?]; [|done].
    apply Hna, list_elem_of_fmap. eauto.
Qed.

(** *** Descheduling *)
Definition flag_idle (e : Event) : Event :=
  with_flags e (Flags.clear (Flags.clear (flags e) Squashed) Scheduled).

Lemma on_list st l a :
  inv st l → a ∈ l → ∃ e, live st !! a = Some e ∧ on_queue (this (eventq st)) e ∧ ev_ok e.
Proof.
  intros Hinv Ha. destruct (proj1 (i_sched _ _ Hinv a)) as (e & He & Hon); [by left|].
  exists e. split_and!; try done. by apply (i_ok _ _ Hinv a).
Qed.

Definition own_thread (st : State) : bool :=
  negb inParallelMode || bool_decide (Some (this (eventq st)) = curEventQueue).

Lemma dequeue_inv st l a e m' p' f :
  inv st l → live st !! a = Some e → a ∈ l →
  eq_rep m' p' (dequeue a l) → same_core (live st) m' →
  (∃ e', m' !! a = Some e' ∧ core e' = core e) →
  ev_ok (with_flags e f) → scheduled (with_flags e f) = false →
  ∃ e1, m' !! a = Some e1 ∧ core e1 = core e ∧
    inv (MkState (Heap (<[a := with_flags e1 f]> m') (next (events st)))
      (with_head (eventq st) p')) (dequeue a l).
Proof.
  intros Hinv Ha Hin Hrep Hsc (e1 & Ha1 & Hc1) Hok Hs. exists e1. split_and!; try done.
  assert (core (with_flags e f) = core (with_flags e1 f)) as Hcf.
  { by apply core_with_flags. }
  eapply (inv_change st _ l _ a (with_flags e1 f)); try done; cbn [events eventq cells next].
  - eapply rep_upd; [done..|]. done.
  - eapply same_but_trans; [by apply same_but_core|apply same_but_insert].
  - apply lookup_insert_eq.
  - intros x Hx. rewrite elem_of_dequeue. simpl. naive_solver.
  - rewrite elem_of_dequeue. split; simpl.
    + intros [[? _]|Has]; [done|]. by destruct (not_async _ _ _ Hinv Hin).
    + intros Hon. eapply core_on_queue in Hon; [|by symmetry]. destruct Hon as [Hon _]. congruence.
  - destruct (i_async _ _ Hinv) as (la & Hla & Hnd). exists la. split; [done|].
    apply NoDup_app in Hnd as (? & Hd & ?). apply NoDup_app. split_and!; [done| |by apply dequeue_NoDup].
    intros x Hx. rewrite elem_of_dequeue. intros [_ ?]. by eapply Hd.
  - intros x. rewrite elem_of_dequeue. naive_solver.
  - rewrite elem_of_dequeue. naive_solver.
Qed.

Lemma deschedule_spec st l a e :
  inv st l → a ∈ l → live st !! a = Some e → own_thread st = true →
  ∃ st', deschedule st (Some a) = Ok st' ∧ inv st' (dequeue a l) ∧
    core <$> live st' !! a = (if isManaged e then None else Some (core (flag_idle e))) ∧
    same_but a (live st) (live st') ∧
    eventq st' = with_head (eventq st) (head (eventq st')).
Proof.
  intros Hinv Hin Ha Hown. destruct (on_list _ _ _ Hinv Hin) as (? & ? & [Hs Hq] & [Hi Hm]).
  simplify_eq. destruct (remove_rep st a e l Ha Hq (i_rep _ _ Hinv) Hin)
    as (m' & p' & Hrem & Hrep & Hsc & Hfr).
  set (f := Flags.clear (Flags.clear (flags e) Squashed) Scheduled).
  assert (scheduled (with_flags e f) = false) as Hs' by (apply isSet_clear_same; done).
  destruct (dequeue_inv st l a e m' p' f Hinv Ha Hin Hrep Hsc) as (e1 & Ha1 & Hc1 & Hinv1); [| |done|].
  { by apply (same_core_lookup (live st)). }
  { apply (ev_ok_clear (with_flags e (Flags.clear (flags e) Squashed))); [done..|]. by apply ev_ok_clear. }
  assert (flags e1 = flags e) as Hf1 by (unfold core in Hc1; by inversion Hc1).
  assert (isManaged (with_flags e1 f) = isManaged e) as Hmg.
  { unfold isManaged, Flags.isSet, f. simpl. by rewrite !land_clear_other. }
  set (st1 := MkState _ _) in Hinv1.
  assert (live st1 !! a = Some (with_flags e1 f)) as Hl1 by apply lookup_insert_eq.
  assert (deschedule st (Some a) = release st1 (Some a)) as ->.
  { unfold EventQ.deschedule. rewrite (deref_live _ _ _ Ha), Ok_bind, Hs, Hi. simpl assert_.
    rewrite !Ok_bind. unfold own_thread in Hown. rewrite Hown. simpl assert_.
    rewrite Ok_bind, Hrem, Ok_bind.
    erewrite upd_event_live by exact Ha1. rewrite Ok_bind.
    erewrite upd_event_live by apply lookup_insert_eq. rewrite Ok_bind. unfold relinked.
    cbn [events eventq cells next]. rewrite insert_insert_eq. unfold st1, f. by rewrite <- Hf1. }
  rewrite (release_eq _ _ _ Hl1), Hmg. change (scheduled (with_flags e1 f)) with (scheduled (with_flags e f)).
  rewrite Hs', andb_true_r. eexists. split; [done|]. destruct (isManaged e) eqn:Hme.
  - split_and!; [by eapply inv_delete| | |done]; cbn [events eventq cells next].
    + by rewrite lookup_delete_eq.
    + intros x Hx. rewrite lookup_delete_ne by done. unfold st1. cbn [events eventq cells next].
      rewrite lookup_insert_ne by done. apply Hsc.
  - split_and!; [done| | |done].
    + rewrite Hl1. simpl. f_equal. by apply core_with_flags.
    + apply (same_but_trans _ _ m'); [by apply same_but_core|apply same_but_insert].
Qed.

(** *** Rescheduling *)
Definition flag_resched (e : Event) : Event :=
  flag_Scheduled (with_flags e (Flags.clear (flags e) Squashed)).

Lemma flag_resched_core e e' : core e = core e' → core (flag_resched e) = core (flag_resched e').
Proof. destruct e, e'. unfold core. simpl. by intros [= -> -> -> ->]. Qed.

Lemma ev_ok_resched e : ev_ok e → ev_ok (flag_resched e).
Proof. intros. apply ev_ok_set; [done..|]. by apply ev_ok_clear. Qed.

Lemma upd_event_twice st a f g :
  (st1 ← upd_event st (Some a) f; upd_event st1 (Some a) g) = upd_event st (Some a) (λ e, g (f e)).
Proof.
  destruct (live st !! a) as [e|] eqn:Ha.
  - rewrite !(upd_event_live _ _ _ _ Ha), Ok_bind. erewrite upd_event_live by apply lookup_insert_eq.
    cbn [events eventq cells next]. by rewrite insert_insert_eq.
  - unfold upd_event. simpl. by rewrite Ha.
Qed.

(** The event is off the list before it is put back. *)
Lemma reschedule_remove st l a e :
  inv st l → live st !! a = Some e → (a ∈ l ∨ scheduled e = false) →
  ∃ m0 p0 e0, (if scheduled e then remove st (Some a) else acquire st (Some a)) =
      Ok (relinked st m0 p0) ∧
    eq_rep m0 p0 (dequeue a l) ∧ same_core (live st) m0 ∧ m0 !! a = Some e0 ∧ core e0 = core e.
Proof.
  intros Hinv Ha Hcase. destruct (scheduled e) eqn:Hs.
  - destruct Hcase as [Hin|]; [|done].
    destruct (on_list _ _ _ Hinv Hin) as (? & ? & [_ Hq] & _). simplify_eq.
    destruct (remove_rep st a e l Ha Hq (i_rep _ _ Hinv) Hin) as (m' & p' & Hrem & Hrep & Hsc & _).
    destruct (same_core_lookup _ _ _ _ Hsc Ha) as (e0 & ? & ?). by exists m', p', e0.
  - destruct (not_on_list _ _ _ _ Hinv Ha Hs) as [Hnl _].
    exists (live st), (head (eventq st)), e. unfold acquire.
    rewrite (deref_live _ _ _ Ha), Ok_bind, <- relinked_id, dequeue_notin by done.
    split_and!; [by destruct st as [[]]|apply Hinv|done..].
Qed.

Lemma resched_inv st st' l a e' k :
  inv st l → rep st' (enqueue k a (dequeue a l)) → is_Some (live st !! a) →
  Some a ∉ async_queue (eventq st) →
  same_but a (live st) (live st') → next (events st') = next (events st) →
  eventq st' = with_head (eventq st) (head (eventq st')) →
  live st' !! a = Some e' → ev_ok e' → on_queue (this (eventq st)) e' →
  _curTick (eventq st) ≤ _when e' →
  inv st' (enqueue k a (dequeue a l)).
Proof.
  intros Hinv Hrep Hsome Hna Hbut Hnext Hq Ha' Hok Hon Hw.
  eapply (inv_change st st' l _ a e'); try done; try (by rewrite Hq).
  - intros x Hx. rewrite Hq, elem_of_enqueue, elem_of_dequeue. simpl. naive_solver.
  - rewrite elem_of_enqueue. tauto.
  - destruct (i_async _ _ Hinv) as (la & Hla & Hnd). exists la. rewrite Hq. split; [done|].
    rewrite enqueue_perm, <- Permutation_middle. apply NoDup_app in Hnd as (Hnd1 & Hd & Hnd2).
    constructor.
    + rewrite elem_of_app, elem_of_dequeue. intros [Hx|[? _]]; [|done]. apply Hna. rewrite Hla.
      apply list_elem_of_fmap. eauto.
    + apply NoDup_app. split_and!; [done| |by apply dequeue_NoDup].
      intros x Hx. rewrite elem_of_dequeue. intros [_ ?]. by eapply Hd.
  - intros x. rewrite elem_of_enqueue, elem_of_dequeue. naive_solver.
Qed.

Lemma reschedule_spec st l a e w always :
  inv st l → live st !! a = Some e → _curTick (eventq st) ≤ w → own_thread st = true →
  (a ∈ l ∨ scheduled e = false ∧ always = true) →
  ∃ st' e', reschedule st (Some a) w always = Ok st' ∧
    inv st' (enqueue (rekey (live st) a w) a (dequeue a l)) ∧
    live st' !! a = Some e' ∧
    core e' = core (flag_Scheduled (with_flags (setWhen e w (this (eventq st)))
                                      (Flags.clear (flags e) Squashed))) ∧
    same_but a (live st) (live st') ∧
    eventq st' = with_head (eventq st) (head (eventq st')).
Proof.
  intros Hinv Ha Hw Hown Hcase. pose proof (i_ok _ _ Hinv a e Ha) as Hok.
  destruct (reschedule_remove st l a e Hinv Ha) as (m0 & p0 & e0 & Hrem & Hrep0 & Hsc0 & Ha0 & Hc0);
    [tauto|].
  assert (a ∉ dequeue a l) as Hnot by (rewrite elem_of_dequeue; naive_solver).
  destruct (set_and_insert (relinked st m0 p0) a e0 w (dequeue a l) flag_resched Ha0 Hrep0 Hnot)
    as (st' & e' & Heq & Hrep & Ha' & Hcore & Hbut & Hnext & Hq); [done|exact flag_resched_core|].
  assert (core e' = core (flag_resched (setWhen e w (this (eventq st))))) as Hcore'.
  { rewrite Hcore. apply flag_resched_core. destruct e0, e. unfold core in Hc0 |- *. simpl in *. congruence. }
  assert (same_but a (live st) (live st')) as Hbut'.
  { apply (same_but_trans _ _ m0); [by apply same_but_core|exact Hbut]. }
  assert (enqueue (rekey m0 a w) a (dequeue a l) = enqueue (rekey (live st) a w) a (dequeue a l)) as Henq.
  { apply enqueue_ext; unfold rekey; intros; by rewrite !(same_core_key _ _ Hsc0). }
  cbn [relinked events eventq cells next] in Hrep. rewrite Henq in Hrep.
  exists st', e'. split_and!; try done.
  - unfold EventQ.reschedule. rewrite (proj2 (Z.leb_le _ _) Hw). simpl assert_. rewrite Ok_bind.
    rewrite (deref_live _ _ _ Ha), Ok_bind.
    assert (always || scheduled e = true) as ->.
    { destruct Hcase as [Hin|[_ ->]]; [|done].
      destruct (on_list _ _ _ Hinv Hin) as (? & ? & [Hs _] & _). simplify_eq.
      by rewrite Hs, orb_true_r. }
    rewrite (proj1 Hok). unfold own_thread in Hown. rewrite Hown. simpl assert_. rewrite !Ok_bind.
    rewrite Hrem, Ok_bind. revert Heq. change (this (eventq (relinked st m0 p0))) with (this (eventq st)).
    destruct (upd_event (relinked st m0 p0) _ _) as [st1|]; [|done]. rewrite !Ok_bind.
    destruct (insert st1 _) as [st2|]; [|done]. rewrite !Ok_bind. intros <-. by rewrite upd_event_twice.
  - eapply (resched_inv st st' l a e'); try done.
    + destruct Hcase as [Hin|[Hs _]]; [by eapply not_async|]. by eapply not_on_list.
    + eapply core_ok; [symmetry; exact Hcore'|]. by apply ev_ok_resched.
    + eapply core_on_queue; [symmetry; exact Hcore'|]. split; [apply isSet_set_Scheduled|done].
    + assert (_when e' = w) as ->; [|done]. unfold core in Hcore'. simpl in Hcore'. by inversion Hcore'.
Qed.

(** *** Events that wait on [async_queue] *)
Lemma async_pending st l a :
  inv st l → Some a ∈ async_queue (eventq st) →
  a ∉ l ∧ ∃ e, live st !! a = Some e ∧ on_queue (this (eventq st)) e ∧ ev_ok e.
Proof.
  intros Hinv Has. split; [intros Hin; by eapply not_async|].
  destruct (proj1 (i_sched _ _ Hinv a)) as (e & He & Hon); [by right|].
  exists e. split_and!; try done. by apply (i_ok _ _ Hinv a).
Qed.

Lemma deschedule_pending st l a :
  inv st l → Some a ∈ async_queue (eventq st) → own_thread st = true →
  deschedule st (Some a) = Err (Panic "event not found!").
Proof.
  intros Hinv Has Hown. destruct (async_pending _ _ _ Hinv Has) as (Hnot & e & Ha & [Hs Hq] & [Hi _]).
  unfold EventQ.deschedule. rewrite (deref_live _ _ _ Ha), Ok_bind, Hs, Hi.
  unfold own_thread in Hown. rewrite Hown. simpl assert_. rewrite !Ok_bind.
  by rewrite (remove_absent st a e l Ha Hq (i_rep _ _ Hinv) Hnot).
Qed.

Lemma reschedule_pending st l a w always :
  inv st l → Some a ∈ async_queue (eventq st) → own_thread st = true →
  _curTick (eventq st) ≤ w →
  reschedule st (Some a) w always = Err (Panic "event not found!").
Proof.
  intros Hinv Has Hown Hw. destruct (async_pending _ _ _ Hinv Has) as (Hnot & e & Ha & [Hs Hq] & [Hi _]).
  unfold EventQ.reschedule. rewrite (proj2 (Z.leb_le _ _) Hw). simpl assert_. rewrite Ok_bind.
  rewrite (deref_live _ _ _ Ha), Ok_bind, Hs, Hi, orb_true_r.
  unfold own_thread in Hown. rewrite Hown. simpl assert_. rewrite !Ok_bind.
  by rewrite (remove_absent st a e l Ha Hq (i_rep _ _ Hinv) Hnot).
Qed.

(** One step of [handleAsyncInsertions]. *)
Lemma async_step st l a la :
  inv st l → async_queue (eventq st) = Some <$> (a :: la) →
  _curTick (eventq st) ≤ (key (live st) a).1 →
  ∃ st1, insert st (Some a) = Ok st1 ∧
    inv (MkState (events st1) (with_async (eventq st1) (Some <$> la)))
      (enqueue (key (live st)) a l) ∧
    same_core (live st) (live st1) ∧
    eventq st1 = with_head (eventq st) (head (eventq st1)).
Proof.
  intros Hinv Hla Ht. destruct (i_async _ _ Hinv) as (la' & Hla' & Hnd).
  rewrite Hla in Hla'. apply (inj (fmap Some)) in Hla' as <-. simpl in Hnd.
  apply NoDup_cons in Hnd as [Hna Hnd].
  destruct (async_pending st l a Hinv) as (Hnot & e & Ha & Hon & Hok); [rewrite Hla; simpl; set_solver|].
  destruct (insert_rep st a e l Ha (i_rep _ _ Hinv) Hnot) as (m' & p' & -> & Hrep & Hsc & Hfr).
  destruct (same_core_lookup _ _ _ _ Hsc Ha) as (e' & Ha' & Hc').
  eexists. split; [done|]. split_and!; [|done|done]. unfold relinked. cbn [events eventq].
  eapply (inv_change st _ l _ a e'); try done; cbn [events eventq cells next].
  - by apply same_but_core.
  - by eapply core_ok.
  - intros x Hx. simpl. rewrite Hla, elem_of_enqueue. simpl. rewrite elem_of_cons. naive_solver.
  - rewrite elem_of_enqueue. split; [|by left; left]. intros _. by eapply core_on_queue.
  - exists la. split; [done|]. rewrite enqueue_perm, <- Permutation_middle. by constructor.
  - intros x. rewrite elem_of_enqueue. naive_solver.
  - intros _. rewrite (key_Some _ _ _ Ha) in Ht. unfold core in Hc'. injection Hc' as Hw _ _ _.
    simpl in Ht. by rewrite Hw.
Qed.

Lemma insert_all_spec st l la k :
  inv st l → async_queue (eventq st) = Some <$> la → (∀ x, k x = key (live st) x) →
  Forall (λ a, _curTick (eventq st) ≤ (k a).1) la →
  ∃ st', insert_all st (Some <$> la) = Ok st' ∧
    inv st' (foldl (λ l a, enqueue k a l) l la) ∧ same_core (live st) (live st') ∧
    eventq st' = with_async (with_head (eventq st) (head (eventq st'))) [].
Proof.
  revert st l. induction la as [|a la IH]; intros st l Hinv Hla Hk Ht.
  - exists st. split_and!; try done. simpl in Hla. destruct st as [? []]. simpl in *. by subst.
  - apply Forall_cons in Ht as [Hta Ht]. rewrite Hk in Hta.
    destruct (async_step st l a la Hinv Hla Hta) as (st1 & Hins & Hinv1 & Hsc & Hq).
    simpl. rewrite Hins, Ok_bind. set (st2 := MkState _ _) in *.
    destruct (IH st2 (enqueue k a l)) as (st' & Heq & Hinv' & Hsc' & Hq').
    + rewrite (enqueue_ext k (key (live st))) by auto. done.
    + done.
    + intros x. rewrite Hk. symmetry. by apply same_core_key.
    + unfold st2. simpl. by rewrite Hq.
    + exists st'. split_and!; try done; [by etrans|]. rewrite Hq'. unfold st2. simpl. by rewrite Hq.
Qed.
End ops.

End EventQInv.
