(* ===== verification/EventQueueSpec.v ===== *)
(** * The event queue: what the simulator relies on

    Handlers reach the queue through its public operations ([op]); any sequence of
    those, of events serviced, of asynchronous merges and of settings of the clock
    keeps the queue in order; when merges are punctual and the clock is set forward
    only, time never moves back and no event is left in the past.  Checkpoints and the consistency check of
    the code are at the end. *)

From stdpp Require Import pretty.
From S2P Require Import Prelude EventQueue EventQueueRep EventQueueInv.

Module EventQSpec.
Import EventQ EventQRep EventQInv.

(** ** Operations as data *)
Inductive op :=
| OpSchedule (a : positive) (w : Z) (global : bool)
| OpDeschedule (a : positive)
| OpReschedule (a : positive) (w : Z) (always : bool)
| OpNew (p f : Z)
| OpDelete (a : positive)
| OpSquash (a : positive)
| OpSetFlags (a : positive) (f : Z)
| OpClearFlags (a : positive) (f : Z)
| OpClearAllFlags (a : positive).

(** [f] applied to the event in place, when it returns. *)
Definition try_event (st : State) (event : ptr) (f : Event → res Event) : res State :=
  e ← heap_deref (events st) event;
  e' ← f e;
  h ← heap_store (events st) event e';
  Ok (MkState h (eventq st)).

Section run.
Context (par : bool) (cur : ptr).

Definition run_op (o : op) (st : State) : res State :=
  match o with
  | OpSchedule a w g => schedule par cur st (Some a) w g
  | OpDeschedule a => deschedule par cur st (Some a)
  | OpReschedule a w b => reschedule par cur st (Some a) w b
  | OpNew p f => r ← new_event st p f; Ok r.2
  | OpDelete a => delete_event st (Some a)
  | OpSquash a => upd_event st (Some a) squash
  | OpSetFlags a f => try_event st (Some a) (λ e, setFlags e f)
  | OpClearFlags a f => try_event st (Some a) (λ e, clearFlags e f)
  | OpClearAllFlags a => upd_event st (Some a) clearAllFlags
  end.

Fixpoint run_ops (os : list op) (st : State) : res State :=
  match os with
  | [] => Ok st
  | o :: os => st ← run_op o st; run_ops os st
  end.

(** ** The invariant under operations *)
Lemma deref_inv {H} (h : heap H) a x : heap_deref h (Some a) = Ok x → cells h !! a = Some x.
Proof. simpl. destruct (cells h !! a); naive_solver. Qed.

(** The part of the queue that operations on events leave alone. *)
Definition same_clock (st st' : State) : Prop :=
  _curTick (eventq st') = _curTick (eventq st) ∧ this (eventq st') = this (eventq st).

#[local] Instance same_clock_preorder : PreOrder same_clock.
Proof. split; [done|]. intros ??? [] []. split; congruence. Qed.

Lemma new_inv st l e :
  inv st l → ev_ok e → scheduled e = false →
  inv (MkState (heap_new (events st) e).2 (eventq st)) l.
Proof.
  intros [Hrep Hsched Hasync Htime Hall Hfresh] Hok Hs.
  assert (live st !! next (events st) = None) as Hnone.
  { destruct (live st !! next (events st)) eqn:Hn; [|done].
    apply (mk_is_Some _ _), Hfresh in Hn. lia. }
  assert (∀ x, x ∈ l → x ≠ next (events st)) as Hne.
  { intros x Hx ->. apply rep_dom in Hrep. rewrite Forall_forall in Hrep.
    apply Hrep in Hx as [? ?]. congruence. }
  constructor; unfold heap_new; cbn [events eventq cells next fst snd].
  - eapply rep_ext; [|exact Hrep]. intros x Hx. apply lookup_insert_ne. symmetry. by apply Hne.
  - intros x. rewrite Hsched. destruct (decide (x = next (events st))) as [->|].
    + rewrite lookup_insert_eq, Hnone. split; [naive_solver|]. intros (? & [= <-] & Hon & _). congruence.
    + by rewrite lookup_insert_ne.
  - done.
  - eapply Forall_impl_in; [exact Htime|]. simpl. intros x Hx Hle.
    rewrite (key_ext (live st)); [done|]. apply lookup_insert_ne. symmetry. by apply Hne.
  - by apply map_Forall_insert_2.
  - intros x [y Hy]. apply lookup_insert_Some in Hy as [[<- _]|[_ Hy]]; [lia|].
    apply (mk_is_Some _ _), Hfresh in Hy. lia.
Qed.

Lemma user_flags st l a e f :
  inv st l → live st !! a = Some e → user_mask f →
  inv (MkState (Heap (<[a := with_flags e (Flags.set (flags e) f)]> (live st)) (next (events st))) (eventq st)) l ∧
  inv (MkState (Heap (<[a := with_flags e (Flags.clear (flags e) f)]> (live st)) (next (events st))) (eventq st)) l.
Proof.
  intros Hinv Ha (H1 & H2 & H3). pose proof (i_ok _ _ Hinv a e Ha) as Hok.
  split; (apply inv_flags; [done..|by eauto with evq|]); unfold scheduled, Flags.isSet; simpl.
  - by rewrite land_set_other.
  - by rewrite land_clear_other.
Qed.

Lemma try_event_inv st a f st' :
  try_event st (Some a) f = Ok st' → ∃ e e', live st !! a = Some e ∧ f e = Ok e' ∧
    st' = MkState (Heap (<[a := e']> (live st)) (next (events st))) (eventq st).
Proof.
  unfold try_event. intros H. bind_inv H. apply deref_inv in E.
  rewrite (store_live _ _ _ _ E) in E1. injection E1 as <-. injection H as <-. eauto.
Qed.

(** [remove] returns only for an event of the queue. *)
Lemma remove_Ok_in st l a e st' :
  rep st l → live st !! a = Some e → remove st (Some a) = Ok st' → a ∈ l.
Proof.
  intros Hrep Ha H. destruct (decide (a ∈ l)) as [|Hnot]; [done|]. exfalso.
  destruct (decide (queue e = Some (this (eventq st)))) as [Hq|Hq].
  - by rewrite (remove_absent st a e l Ha Hq Hrep Hnot) in H.
  - unfold remove in H. destruct (head (eventq st)); [|done].
    rewrite (deref_live _ _ _ Ha), Ok_bind, bool_decide_false in H by done. done.
Qed.

Lemma op_deschedule_inv st l a st' :
  inv st l → deschedule par cur st (Some a) = Ok st' → ∃ l', inv st' l' ∧ same_clock st st'.
Proof.
  intros Hinv H. pose proof H as H'. unfold deschedule in H'. bind_inv H'.
  apply deref_inv in E. apply assert_Ok in E2. eapply remove_Ok_in in E3; [|apply Hinv|done].
  destruct (deschedule_spec par cur st l a a0) as (? & Heq & Hi & _ & _ & Hq); try done.
  rewrite H in Heq. injection Heq as <-. eexists. split; [done|]. unfold same_clock. by rewrite Hq.
Qed.

Lemma op_reschedule_inv st l a w b st' :
  inv st l → reschedule par cur st (Some a) w b = Ok st' → ∃ l', inv st' l' ∧ same_clock st st'.
Proof.
  intros Hinv H. pose proof H as H'. unfold reschedule in H'. bind_inv H'.
  apply assert_Ok, Z.leb_le in E. apply deref_inv in E0. apply assert_Ok in E1. apply assert_Ok in E3.
  destruct (reschedule_spec par cur st l a a1 w b) as (? & ? & Heq & Hi & _ & _ & _ & Hq); try done.
  { destruct (scheduled a1); [left; by eapply remove_Ok_in in E4; [|apply Hinv|done]|right].
    by rewrite orb_false_r in E1. }
  rewrite H in Heq. injection Heq as <-. eexists. split; [done|]. unfold same_clock. by rewrite Hq.
Qed.

Lemma op_inv o st l st' :
  inv st l → run_op o st = Ok st' → ∃ l', inv st' l' ∧ same_clock st st'.
Proof.
  intros Hinv H. destruct o as [a w g|a|a w b|p f|a|a|a f|a f|a]; simpl in H.
  - pose proof H as H'. unfold schedule in H'. bind_inv H'. apply assert_Ok in E, E1.
    apply Z.leb_le in E. apply negb_true_iff in E1. apply deref_inv in E0.
    destruct (goes_async par cur st g) eqn:Hg.
    + destruct (schedule_async_spec par cur st l a a1 w g) as (? & Heq & Hi & _ & _ & Hq); try done.
      rewrite H in Heq. injection Heq as <-. exists l. split; [done|]. unfold same_clock. by rewrite Hq.
    + destruct (schedule_spec par cur st l a a1 w g) as (? & ? & Heq & Hi & _ & _ & _ & Hq); try done.
      rewrite H in Heq. injection Heq as <-. eexists. split; [done|]. unfold same_clock. by rewrite Hq.
  - by eapply op_deschedule_inv.
  - by eapply op_reschedule_inv.
  - unfold new_event in H. bind_inv H. bind_inv E. injection E as <-. injection H as <-.
    apply ev_ok_new in E0 as (? & ? & ?). exists l. split; [by apply new_inv|done].
  - unfold delete_event in H. bind_inv H. apply assert_Ok, negb_true_iff in E0. apply deref_inv in E.
    unfold heap_delete in E1. simpl in E1. rewrite E in E1. injection E1 as <-. injection H as <-.
    exists l. split; [by eapply inv_delete|done].
  - unfold upd_event in H. bind_inv H. apply deref_inv in E. rewrite (store_live _ _ _ _ E) in E0.
    injection E0 as <-. injection H as <-. exists l. split; [|done]. by eapply user_flags.
  - apply try_event_inv in H as (e & e' & Ha & He & ->). unfold setFlags in He. bind_inv He.
    injection He as <-. apply assert_Ok, user_mask_public in E. exists l. split; [|done].
    by eapply user_flags.
  - apply try_event_inv in H as (e & e' & Ha & He & ->). unfold clearFlags in He. bind_inv He.
    injection He as <-. apply assert_Ok, user_mask_public in E. exists l. split; [|done].
    by eapply user_flags.
  - unfold upd_event in H. bind_inv H. apply deref_inv in E. rewrite (store_live _ _ _ _ E) in E0.
    injection E0 as <-. injection H as <-. exists l. split; [|done]. by eapply user_flags.
Qed.

Lemma ops_inv os st l st' :
  inv st l → run_ops os st = Ok st' → ∃ l', inv st' l' ∧ same_clock st st'.
Proof.
  revert st l. induction os as [|o os IH]; intros st l Hinv H; simpl in H.
  - injection H as <-. by exists l.
  - bind_inv H. destruct (op_inv _ _ _ _ Hinv E) as (l1 & Hinv1 & Hc1).
    destruct (IH _ _ Hinv1 H) as (l2 & Hinv2 & Hc2). exists l2. split; [done|by etrans].
Qed.

(** ** Servicing *)
Lemma tick_inv st l t :
  inv st l → Forall (λ a, t ≤ (key (live st) a).1) l → inv (setCurTick st t) l.
Proof. intros [] Ht. by constructor. Qed.

(** The state in which the handler of the first event runs. *)
Lemma pop_inv st a l :
  inv st (a :: l) →
  ∃ e st' e', live st !! a = Some e ∧ on_queue (this (eventq st)) e ∧ ev_ok e ∧
    pop st = Ok (Some a, st') ∧ inv st' l ∧ live st' !! a = Some e' ∧
    core e' = core (with_flags e (Flags.clear (flags e) Scheduled)) ∧
    same_but a (live st) (live st') ∧ same_clock st st' ∧
    _curTick (eventq st) ≤ _when e ∧ Forall (λ x, _when e ≤ (key (live st') x).1) l.
Proof.
  intros Hinv. destruct (on_list _ _ a Hinv) as (e & Ha & Hon & Hok); [by left|].
  destruct (pop_rep st a l (i_rep _ _ Hinv)) as (? & m' & p' & Ha2 & Hpop & Hrep & Ha' & Hsc & Hfr).
  simplify_eq. set (e' := with_flags e _) in *.
  pose proof (rep_NoDup _ _ _ (i_rep _ _ Hinv)) as [Hnot Hnd]%NoDup_cons.
  assert (same_but a (live st) m') as Hbut.
  { eapply same_but_trans; [apply same_but_insert|by apply same_but_core]. }
  exists e, (relinked st m' p'), e'. split_and!; try done.
  - eapply (inv_change st _ (a :: l) l a e'); try done; cbn [relinked events eventq cells next].
    + by apply ev_ok_clear.
    + intros x Hx. simpl. set_solver.
    + assert (scheduled e' = false) as Hs by (by apply isSet_clear_same).
      split; [|intros [? _]; congruence].
      intros [?|Has]; [done|]. by destruct (not_async _ _ a Hinv ltac:(left)).
    + destruct (i_async _ _ Hinv) as (la & Hla & Hndl). exists la. split; [done|].
      rewrite <- Permutation_middle in Hndl. by apply NoDup_cons in Hndl as [_ ?].
    + set_solver.
  - pose proof (i_time _ _ Hinv) as Ht. apply Forall_inv in Ht. by rewrite (key_Some _ _ _ Ha) in Ht.
  - pose proof (rep_order _ _ _ (i_rep _ _ Hinv)) as Hord. inversion Hord as [|?? _ Hm]; simplify_eq.
    eapply Forall_impl_in; [exact Hm|]. simpl. intros x Hx. rewrite (key_Some _ _ _ Ha).
    erewrite (same_but_key a (live st) m') by (try done; set_solver). unfold klt, ekey. simpl. lia.
Qed.

Lemma release_keep st l a e :
  inv st l → live st !! a = Some e →
  ∃ st', release st (Some a) = Ok st' ∧ inv st' l ∧ eventq st' = eventq st ∧
    ∀ x, x ∈ l → live st' !! x = live st !! x.
Proof.
  intros Hinv Ha. pose proof (release_inv st l a e Hinv Ha) as Hr.
  rewrite (release_eq _ _ _ Ha) in Hr |- *. eexists. split; [done|]. split; [exact Hr|].
  destruct (isManaged e && negb (scheduled e)) eqn:Hm; [|done]. split; [done|].
  intros x Hx. apply lookup_delete_ne. intros <-. apply andb_true_iff in Hm as [_ Hs%negb_true_iff].
  by destruct (not_on_list _ _ _ _ Hinv Ha Hs).
Qed.

(** What [serviceOne] does after the handler has returned. *)
Definition finish (event : ptr) (st : State) : res (ptr * State) :=
  e ← heap_deref (events st) event;
  if isExitEvent e then
    _ ← assert_ (negb (Flags.isSet (flags e) Managed) ||
                 negb (Flags.isSet (flags e) IsMainQueue));
    Ok (event, st)
  else st ← release st event; Ok (None, st).

Lemma finish_spec st l a e :
  inv st l → live st !! a = Some e →
  ∃ st', finish (Some a) st = Ok (if isExitEvent e then Some a else None, st') ∧ inv st' l ∧
    eventq st' = eventq st ∧ ∀ x, x ∈ l → live st' !! x = live st !! x.
Proof.
  intros Hinv Ha. unfold finish. rewrite (deref_live _ _ _ Ha), Ok_bind.
  destruct (i_ok _ _ Hinv a e Ha) as [_ Hmain]. destruct (isExitEvent e).
  - rewrite Hmain, orb_true_r. by exists st.
  - destruct (release_keep st l a e Hinv Ha) as (st' & -> & ? & ? & ?). by exists st'.
Qed.

Section handlers.
Context (process : ptr → State → res State).

(** The first event is taken off the queue; if it is not squashed, time moves to it
    and its handler runs. *)
Lemma serviceOne_cases st a l :
  inv st (a :: l) →
  ∃ e st1 e1, live st !! a = Some e ∧ inv st1 l ∧ live st1 !! a = Some e1 ∧
    core e1 = core (with_flags e (Flags.clear (flags e) Scheduled)) ∧
    same_but a (live st) (live st1) ∧ this (eventq st1) = this (eventq st) ∧
    _curTick (eventq st) ≤ _when e ∧ _curTick (eventq st) ≤ _curTick (eventq st1) ≤ _when e ∧
    (squashed e = false → _curTick (eventq st1) = _when e ∧
       serviceOne process st = (st ← process (Some a) st1; finish (Some a) st)) ∧
    (squashed e = true → _curTick (eventq st1) = _curTick (eventq st) ∧
       serviceOne process st = (st ← upd_event st1 (Some a) (λ e, with_flags e (Flags.clear (flags e) Squashed));
                                st ← release st (Some a); Ok (None, st))).
Proof.
  intros Hinv. destruct (pop_inv st a l Hinv)
    as (e & st1 & e1 & Ha & Hon & Hok & Hpop & Hinv1 & Ha1 & Hc1 & Hbut & [Htk Hth] & Ht & Hmin).
  assert (squashed e1 = squashed e) as Hsq.
  { unfold core in Hc1. injection Hc1 as _ _ Hf _. simpl in Hf.
    unfold squashed, Flags.isSet. by rewrite Hf, land_clear_other. }
  assert (_when e1 = _when e) as Hw by (unfold core in Hc1; by injection Hc1).
  assert (∀ (b : bool), squashed e = b → serviceOne process st =
    if negb b then (st ← process (Some a) (setCurTick st1 (_when e)); finish (Some a) st)
    else (st ← upd_event st1 (Some a) (λ e, with_flags e (Flags.clear (flags e) Squashed));
          st ← release st (Some a); Ok (None, st))) as Heq.
  { intros b Hb. unfold serviceOne. rewrite Hpop, Ok_bind. cbn [fst snd].
    rewrite (deref_live _ _ _ Ha1), Ok_bind, Hsq, Hw, Hb. done. }
  destruct (squashed e) eqn:Hs.
  - exists e, st1, e1. rewrite Htk. split_and!; try done; try lia; rewrite Hs; [by intros [=]|].
    intros _. split; [done|]. by apply (Heq true).
  - exists e, (setCurTick st1 (_when e)), e1. split_and!; try done.
    + by apply tick_inv.
    + intros _. split; [done|]. by apply (Heq false).
    + rewrite Hs. by intros [=].
Qed.

Definition handler_ok : Prop :=
  ∀ p st st', process p st = Ok st' → ∃ os, run_ops os st = Ok st'.

Definition later (st st' : State) : Prop :=
  _curTick (eventq st) ≤ _curTick (eventq st') ∧ this (eventq st') = this (eventq st).

#[global] Instance later_preorder : PreOrder later.
Proof. split; [done|]. intros ??? [] []. split; [lia|congruence]. Qed.

Lemma serviceOne_step st a l r :
  handler_ok → inv st (a :: l) → serviceOne process st = Ok r →
  ∃ l', inv r.2 l' ∧ later st r.2 ∧ _curTick (eventq r.2) ≤ (key (live st) a).1.
Proof.
  intros Hproc Hinv H. destruct (serviceOne_cases st a l Hinv)
    as (e & st1 & e1 & Ha & Hinv1 & Ha1 & _ & _ & Hth & Ht & Ht1 & Hrun & Hsq).
  rewrite (key_Some _ _ _ Ha). simpl. destruct (squashed e).
  - destruct (Hsq eq_refl) as [Htk Heq]. rewrite Heq, (upd_event_live _ _ _ _ Ha1), Ok_bind in H.
    destruct (user_flags st1 l a e1 Squashed Hinv1 Ha1) as [_ Hinv2]; [done|].
    destruct (release_keep _ l a _ Hinv2 (lookup_insert_eq _ _ _)) as (st3 & Hr & Hinv3 & Hq3 & _).
    rewrite Hr in H. injection H as <-. exists l. unfold later. cbn [snd]. rewrite Hq3. simpl.
    split_and!; [done|lia|done|lia].
  - destruct (Hrun eq_refl) as [Htk Heq]. rewrite Heq in H. apply bind_Ok in H as (st2 & E & H).
    destruct (Hproc _ _ _ E) as [os Hos]. destruct (ops_inv os _ _ _ Hinv1 Hos) as (l2 & Hinv2 & Hc2 & Hth2).
    pose proof H as H'. unfold finish in H'. apply bind_Ok in H' as (e2 & He2%deref_inv & _).
    destruct (finish_spec _ _ _ _ Hinv2 He2) as (st3 & Hf & Hinv3 & Hq3 & _).
    rewrite Hf in H. injection H as <-. exists l2. unfold later. cbn [snd]. rewrite Hq3.
    split_and!; [done|lia|congruence|lia].
Qed.

Lemma serviceOne_nil st : inv st [] → ∀ r, serviceOne process st ≠ Ok r.
Proof.
  intros Hinv r H. pose proof (rep_head _ _ _ (i_rep _ _ Hinv)) as Hhd. simpl in Hhd.
  unfold serviceOne, pop in H. by rewrite Hhd in H.
Qed.

Lemma serviceOne_inv st l r :
  handler_ok → inv st l → serviceOne process st = Ok r →
  ∃ l', inv r.2 l' ∧ later st r.2.
Proof.
  intros Hproc Hinv H. destruct l as [|a l]; [by destruct (serviceOne_nil _ Hinv _ H)|].
  destruct (serviceOne_step _ _ _ _ Hproc Hinv H) as (l' & ? & ? & _). eauto.
Qed.

Lemma async_inv c st l st' :
  inv st l →
  (∀ a, Some a ∈ async_queue (eventq st) → _curTick (eventq st) ≤ (key (live st) a).1) →
  handleAsyncInsertions c st = Ok st' → ∃ l', inv st' l' ∧ later st st'.
Proof.
  intros Hinv Ht H. unfold handleAsyncInsertions in H. bind_inv H.
  destruct (i_async _ _ Hinv) as (la & Hla & _).
  destruct (insert_all_spec st l la (key (live st)) Hinv Hla) as (st2 & Heq & Hinv2 & _ & Hq); [done| |].
  { rewrite Forall_forall. intros x Hx. apply Ht. rewrite Hla. apply list_elem_of_fmap. eauto. }
  rewrite Hla, Heq in H. injection H as <-. eexists. split; [done|]. unfold later. by rewrite Hq.
Qed.

Lemma nextTick_inv st a l :
  inv st (a :: l) → ∃ e, live st !! a = Some e ∧ nextTick st = Ok (_when e) ∧
    _curTick (eventq st) ≤ _when e ∧ empty st = false.
Proof.
  intros Hinv. pose proof (rep_head _ _ _ (i_rep _ _ Hinv)) as Hhd. simpl in Hhd.
  destruct (on_list _ _ a Hinv) as (e & Ha & _); [by left|]. exists e.
  pose proof (i_time _ _ Hinv) as Ht. apply Forall_inv in Ht. rewrite (key_Some _ _ _ Ha) in Ht.
  unfold nextTick, empty. rewrite Hhd, (deref_live _ _ _ Ha). done.
Qed.

Lemma empty_inv st : inv st [] → empty st = true.
Proof.
  intros Hinv. pose proof (rep_head _ _ _ (i_rep _ _ Hinv)) as Hhd.
  unfold empty. by rewrite Hhd.
Qed.

Lemma serviceEvents_inv n st l w st' :
  handler_ok → inv st l → _curTick (eventq st) ≤ w → serviceEvents process n st w = Ok st' →
  ∃ l', inv st' l' ∧ later st st'.
Proof.
  intros Hproc. revert st l. induction n as [|n IH]; intros st l Hinv Ht H; [done|].
  cbn [serviceEvents] in H. destruct l as [|a l].
  { rewrite (empty_inv _ Hinv) in H. injection H as <-. exists []. split; [by apply tick_inv|done]. }
  destruct (nextTick_inv _ _ _ Hinv) as (e & Ha & Hn & Hte & He). rewrite Hn, He, Ok_bind in H.
  destruct (Z.ltb_spec w (_when e)) as [Hlt|Hge].
  - injection H as <-. exists (a :: l). split; [|done]. apply tick_inv; [done|].
    eapply Forall_impl; [exact (in_order_head _ _ _ (rep_order _ _ _ (i_rep _ _ Hinv)))|].
    simpl. intros x. rewrite (key_Some _ _ _ Ha). unfold klt, ekey. simpl. lia.
  - apply bind_Ok in H as (r & Hr & H).
    destruct (serviceOne_step _ _ _ _ Hproc Hinv Hr) as (l1 & Hinv1 & Hl1 & Hb).
    rewrite (key_Some _ _ _ Ha) in Hb. simpl in Hb.
    destruct (IH _ _ Hinv1 ltac:(lia) H) as (l2 & Hinv2 & Hl2). exists l2. split; [done|by etrans].
Qed.
End handlers.
End run.

(** ** Time that is not in order

    The operations look at the current tick only to refuse an event before it, so a
    run that returns also returns, with the same effect, under an earlier clock.
    The order of the queue can be followed through states whose clock has passed
    some of their events. *)
Definition moved (t : Z) (r : res State) : res State := st ← r; Ok (setCurTick st t).

Lemma moved_bind {A} t (m : res A) f g :
  (∀ x, f x = moved t (g x)) → m ≫= f = moved t (m ≫= g).
Proof. intros H. destruct m; simpl; [apply H|done]. Qed.

Ltac by_clock :=
  repeat (done || (apply moved_bind; intros ?; cbn zeta) || case_match).

Lemma insert_moved st p t : insert (setCurTick st t) p = moved t (insert st p).
Proof. unfold insert. cbn [setCurTick events eventq with_curTick head this]. by_clock. Qed.

Lemma remove_moved st p t : remove (setCurTick st t) p = moved t (remove st p).
Proof. unfold remove. cbn [setCurTick events eventq with_curTick head this]. by_clock. Qed.

Lemma upd_moved st p f t : upd_event (setCurTick st t) p f = moved t (upd_event st p f).
Proof. unfold upd_event. cbn [setCurTick events eventq]. by_clock. Qed.

Lemma release_moved st p t : release (setCurTick st t) p = moved t (release st p).
Proof. unfold release, delete_event. cbn [setCurTick events eventq]. by_clock. Qed.

Lemma pop_moved st t :
  pop (setCurTick st t) = (r ← pop st; Ok (r.1, setCurTick r.2 t)).
Proof.
  unfold pop. cbn [setCurTick eventq with_curTick head events].
  destruct (heap_deref (events st) (head (eventq st))); [simpl|done].
  rewrite upd_moved. unfold moved. destruct (upd_event st _ _); [simpl|done].
  case_match; [|done]. rewrite upd_moved. unfold moved. by destruct (upd_event _ _ _).
Qed.

Lemma bind_moved t (m : res State) f g :
  (∀ x, f (setCurTick x t) = moved t (g x)) → moved t m ≫= f = moved t (m ≫= g).
Proof. intros H. destruct m; simpl; [apply H|done]. Qed.

Lemma tick_tick st t u : setCurTick (setCurTick st t) u = setCurTick st u.
Proof. by destruct st as [? []]. Qed.

Lemma tick_same st : setCurTick st (_curTick (eventq st)) = st.
Proof. by destruct st as [? []]. Qed.

Lemma insert_all_moved la st t : insert_all (setCurTick st t) la = moved t (insert_all st la).
Proof.
  revert st. induction la as [|p la IH]; intros st; [done|]. cbn [insert_all].
  rewrite insert_moved. apply bind_moved. intros y. rewrite <- IH. by destruct y as [? []].
Qed.

Lemma finish_moved st p t :
  finish p (setCurTick st t) = (r ← finish p st; Ok (r.1, setCurTick r.2 t)).
Proof.
  unfold finish. cbn [setCurTick events]. destruct (heap_deref (events st) p) as [e|]; [simpl|done].
  destruct (isExitEvent e).
  - by destruct (assert_ _).
  - change (MkState _ _) with (setCurTick st t). rewrite release_moved. unfold moved.
    by destruct (release st p).
Qed.

Lemma release_eventq st p st' : release st p = Ok st' → eventq st' = eventq st.
Proof.
  unfold release, delete_event. intros H. bind_inv H. do 2 (case_match; [|by injection H as <-]).
  bind_inv H. by injection H as <-.
Qed.

Lemma finish_eventq p st r : finish p st = Ok r → eventq r.2 = eventq st.
Proof.
  unfold finish. intros H. bind_inv H. case_match; bind_inv H; injection H as <-; [done|].
  by eapply release_eventq.
Qed.

Lemma pop_clock st r : pop st = Ok r → same_clock st r.2.
Proof.
  unfold pop, upd_event. intros H. bind_inv H. bind_inv E0. injection E0 as <-.
  case_match; bind_inv H; [bind_inv E0; injection E0 as <-|]; by injection H as <-.
Qed.

Lemma insert_eventq st p st' : insert st p = Ok st' → same_clock st st'.
Proof. unfold insert. intros H. bind_inv H. case_match; bind_inv H; by injection H as <-. Qed.

Lemma insert_all_clock la st st' : insert_all st la = Ok st' → same_clock st st'.
Proof.
  revert st. induction la as [|p la IH]; intros st H; simpl in H; [by injection H as <-|].
  bind_inv H. apply insert_eventq in E as []. apply IH in H as []. split; simpl in *; congruence.
Qed.

Section moved.
Context (par : bool) (cur : ptr).

Lemma schedule_moved st p w g t :
  _curTick (eventq st) ≤ w → t ≤ w →
  schedule par cur (setCurTick st t) p w g = moved t (schedule par cur st p w g).
Proof.
  intros H1 H2. unfold schedule. cbn [setCurTick events eventq with_curTick this _curTick].
  rewrite (proj2 (Z.leb_le _ _) H1), (proj2 (Z.leb_le _ _) H2). simpl assert_. rewrite !Ok_bind.
  do 3 (apply moved_bind; intros ?). change (MkState _ _) with (setCurTick st t).
  rewrite upd_moved. apply bind_moved. intros s.
  assert (∀ (m : res State), moved t m ≫= (λ st, st ← upd_event st p (λ e, with_flags e (Flags.set (flags e) Scheduled)); acquire st p)
    = moved t (m ≫= (λ st, st ← upd_event st p (λ e, with_flags e (Flags.set (flags e) Scheduled)); acquire st p))) as Hend.
  { intros m. apply bind_moved. intros y. rewrite upd_moved. apply bind_moved. intros z.
    unfold acquire. by apply moved_bind. }
  rewrite <- Hend. f_equal. case_match; [done|apply insert_moved].
Qed.

Lemma deschedule_moved st p t :
  deschedule par cur (setCurTick st t) p = moved t (deschedule par cur st p).
Proof.
  unfold deschedule. cbn [setCurTick events eventq with_curTick this].
  do 4 (apply moved_bind; intros ?). change (MkState _ _) with (setCurTick st t).
  rewrite remove_moved. apply bind_moved. intros s.
  rewrite upd_moved. apply bind_moved. intros y. rewrite upd_moved. apply bind_moved. intros z.
  apply release_moved.
Qed.

Lemma reschedule_moved st p w b t :
  _curTick (eventq st) ≤ w → t ≤ w →
  reschedule par cur (setCurTick st t) p w b = moved t (reschedule par cur st p w b).
Proof.
  intros H1 H2. unfold reschedule. cbn [setCurTick events eventq with_curTick this _curTick].
  rewrite (proj2 (Z.leb_le _ _) H1), (proj2 (Z.leb_le _ _) H2). simpl assert_. rewrite !Ok_bind.
  do 4 (apply moved_bind; intros ?). change (MkState _ _) with (setCurTick st t).
  assert (∀ (c : bool), (if c then remove (setCurTick st t) p else acquire (setCurTick st t) p) =
    moved t (if c then remove st p else acquire st p)) as Hif.
  { intros []; [apply remove_moved|]. unfold acquire. by apply moved_bind. }
  rewrite Hif. apply bind_moved. intros y. rewrite upd_moved. apply bind_moved. intros z.
  rewrite insert_moved. apply bind_moved. intros u.
  rewrite upd_moved. apply bind_moved. intros v. apply upd_moved.
Qed.

Lemma op_moved o st st' t :
  t ≤ _curTick (eventq st) → run_op par cur o st = Ok st' →
  run_op par cur o (setCurTick st t) = Ok (setCurTick st' t).
Proof.
  intros Ht H. transitivity (moved t (run_op par cur o st)); [|by rewrite H].
  destruct o; simpl in *.
  - unfold schedule in H. bind_inv H. apply assert_Ok, Z.leb_le in E. apply schedule_moved; lia.
  - apply deschedule_moved.
  - unfold reschedule in H. bind_inv H. apply assert_Ok, Z.leb_le in E. apply reschedule_moved; lia.
  - unfold new_event. by destruct (Event_new p f).
  - unfold delete_event. cbn [setCurTick events eventq]. by_clock.
  - apply upd_moved.
  - unfold try_event. cbn [setCurTick events eventq]. by_clock.
  - unfold try_event. cbn [setCurTick events eventq]. by_clock.
  - apply upd_moved.
Qed.

(** The invariant, but for the clock. *)
Definition linv (st : State) (l : list positive) : Prop :=
  ∃ t, t ≤ _curTick (eventq st) ∧ inv (setCurTick st t) l.

Lemma inv_linv st l : inv st l → linv st l.
Proof. intros H. exists (_curTick (eventq st)). split; [lia|by rewrite tick_same]. Qed.

Lemma linv_tick st l w : linv st l → linv (setCurTick st w) l.
Proof.
  intros (t & Ht & Hinv). exists (Z.min t w). split; [simpl; lia|]. rewrite tick_tick.
  rewrite <- (tick_tick st t). apply tick_inv; [done|].
  eapply Forall_impl; [exact (i_time _ _ Hinv)|]. intros x. change (_curTick _) with t.
  change (live (setCurTick st t)) with (live st). cbn beta. lia.
Qed.

Lemma op_linv o st l st' :
  linv st l → run_op par cur o st = Ok st' → ∃ l', linv st' l' ∧ same_clock st st'.
Proof.
  intros (t & Ht & Hinv) H.
  destruct (op_inv _ _ _ _ _ _ Hinv (op_moved _ _ _ _ Ht H)) as (l' & Hinv' & _ & Hth).
  pose proof (op_moved _ _ _ _ (Z.le_refl _) H) as Hc.
  rewrite tick_same, H in Hc. injection Hc as Hc.
  assert (_curTick (eventq st') = _curTick (eventq st)) as Hq by (rewrite Hc; done).
  exists l'. split; [|done]. exists t. split; [lia|done].
Qed.

Lemma ops_linv os st l st' :
  linv st l → run_ops par cur os st = Ok st' → ∃ l', linv st' l' ∧ same_clock st st'.
Proof.
  revert st l. induction os as [|o os IH]; intros st l Hinv H; simpl in H.
  - injection H as <-. by exists l.
  - bind_inv H. destruct (op_linv _ _ _ _ Hinv E) as (l1 & Hinv1 & Hc1).
    destruct (IH _ _ Hinv1 H) as (l2 & Hinv2 & Hc2). exists l2. split; [done|].
    unfold same_clock in *. destruct Hc1, Hc2. split; congruence.
Qed.
End moved.

(** ** The simulation as a step relation

    Operations called from any thread, serviced events ([serviceOne] and the loop of
    [serviceEvents]), the merge of [async_queue] at the end of a quantum, and
    [setCurTick] called from outside.  The last three make no check on time in the
    code.  [strict] says whether their callers keep to what the simulator means: no
    event that waits on [async_queue] is overdue when it is merged (which is what
    the quantum is for), and time is set neither back nor past an event of the
    queue. *)
Definition punctual (st : State) : Prop :=
  ∀ a, Some a ∈ async_queue (eventq st) → _curTick (eventq st) ≤ (key (live st) a).1.

Definition may_set (st : State) (w : Z) : Prop :=
  _curTick (eventq st) ≤ w ∧
  ∀ l, dump st = Ok (Some <$> l) → Forall (λ a, w ≤ (key (live st) a).1) l.

Section steps.
Context (par : bool) (cur : ptr) (process : ptr → State → res State).

Inductive sim_step (strict : bool) : State → State → Prop :=
| step_op p c o st st' : run_op p c o st = Ok st' → sim_step strict st st'
| step_service st r : serviceOne process st = Ok r → sim_step strict st r.2
| step_events n w st st' :
    (strict = true → _curTick (eventq st) ≤ w) →
    serviceEvents process n st w = Ok st' → sim_step strict st st'
| step_tick w st : (strict = true → may_set st w) → sim_step strict st (setCurTick st w)
| step_async c st st' :
    (strict = true → punctual st) → handleAsyncInsertions c st = Ok st' → sim_step strict st st'.

Lemma step_inv st l st' :
  handler_ok par cur process → inv st l → sim_step true st st' → ∃ l', inv st' l' ∧ later st st'.
Proof.
  intros Hproc Hinv Hstep. destruct Hstep as [p c o st st' H|st r H|n w st st' Hw H|w st Hw|c st st' Hp H].
  - destruct (op_inv _ _ _ _ _ _ Hinv H) as (l' & ? & Hc & Hth). exists l'. split; [done|].
    split; [lia|done].
  - by eapply serviceOne_inv.
  - eapply serviceEvents_inv; eauto.
  - destruct (Hw eq_refl) as [Hle Hall]. exists l. split; [|done].
    apply tick_inv; [done|]. apply Hall, dump_rep, Hinv.
  - eapply async_inv; [done|by apply Hp|done].
Qed.

Lemma serviceOne_linv st l r :
  handler_ok par cur process → linv st l → serviceOne process st = Ok r →
  ∃ l', linv r.2 l' ∧ this (eventq r.2) = this (eventq st).
Proof.
  intros Hproc (t & Ht & Hinv) H. unfold serviceOne in H. apply bind_Ok in H as ([p st1] & Hpop & H).
  destruct (pop_clock _ _ Hpop) as [Htk Hth]. cbn [snd] in Htk, Hth.
  pose proof (pop_moved st t) as Hpm. rewrite Hpop in Hpm. simpl in Hpm. destruct l as [|a l].
  { pose proof (rep_head _ _ _ (i_rep _ _ Hinv)) as Hhd. unfold pop in Hpm. by rewrite Hhd in Hpm. }
  destruct (pop_inv _ _ _ Hinv)
    as (e & st1' & e1 & Ha & _ & _ & Hpop' & Hinv1 & Ha1 & Hc1 & _ & _ & Hte & _).
  rewrite Hpop' in Hpm. injection Hpm as <- ->. cbn [fst snd] in H.
  change (live (setCurTick st1 t)) with (live st1) in Ha1. change (_curTick _) with t in Hte.
  assert (_when e1 = _when e) as Hw by (unfold core in Hc1; by injection Hc1).
  rewrite (deref_live _ _ _ Ha1), Ok_bind, Hw in H. destruct (negb (squashed e1)).
  - apply bind_Ok in H as (st2 & Hp & H). destruct (Hproc _ _ _ Hp) as [os Hos].
    assert (linv (setCurTick st1 (_when e)) l) as Hl1 by (exists t; by rewrite tick_tick).
    destruct (ops_linv _ _ _ _ _ _ Hl1 Hos) as (l2 & (t2 & Ht2 & Hinv2) & _ & Hth2).
    change (finish (Some a) st2 = Ok r) in H. pose proof (finish_moved st2 (Some a) t2) as Hf.
    pose proof (finish_eventq _ _ _ H) as Hq. rewrite H in Hf. simpl in Hf.
    apply bind_Ok in H as (e2 & He2%deref_inv & _).
    destruct (finish_spec _ _ _ _ Hinv2 He2) as (st3 & Hf3 & Hinv3 & _).
    rewrite Hf3 in Hf. injection Hf as _ ->. exists l2. split; [|rewrite Hq; simpl in *; congruence].
    exists t2. by rewrite Hq.
  - apply bind_Ok in H as (st2 & Hu & H). apply bind_Ok in H as (st3 & Hr & [= <-]). cbn [snd].
    pose proof (release_eventq _ _ _ Hr) as Hq. pose proof (release_moved st2 (Some a) t) as Hrm.
    rewrite Hr in Hrm. unfold moved in Hrm. rewrite Ok_bind in Hrm.
    rewrite (upd_event_live _ _ _ _ Ha1) in Hu. injection Hu as <-.
    destruct (user_flags (setCurTick st1 t) l a e1 Squashed Hinv1 Ha1) as [_ Hinv2]; [done|].
    destruct (release_keep _ l a _ Hinv2 (lookup_insert_eq _ _ _)) as (st4 & Hr4 & Hinv3 & _).
    pose proof (eq_trans (eq_sym Hr4) Hrm) as Hst.
    injection Hst as ->. exists l. rewrite Hq. split; [|done]. exists t. rewrite Hq. cbn [eventq]. by rewrite Htk.
Qed.

Lemma serviceEvents_linv n st l w st' :
  handler_ok par cur process → linv st l → serviceEvents process n st w = Ok st' →
  ∃ l', linv st' l' ∧ this (eventq st') = this (eventq st).
Proof.
  intros Hproc. revert st l. induction n as [|n IH]; intros st l Hl H; [done|].
  cbn [serviceEvents] in H. destruct (empty st).
  { injection H as <-. exists l. split; [by apply linv_tick|done]. }
  apply bind_Ok in H as (x & _ & H). destruct (w <? x).
  { injection H as <-. exists l. split; [by apply linv_tick|done]. }
  apply bind_Ok in H as (r & Hr & H).
  destruct (serviceOne_linv _ _ _ Hproc Hl Hr) as (l1 & Hl1 & Hth1).
  destruct (IH _ _ Hl1 H) as (l2 & Hl2 & Hth2). exists l2. split; [done|congruence].
Qed.

(** No event of [la] is before the tick. *)
Lemma earliest (k : positive → Z * Z) la t : ∃ u, u ≤ t ∧ Forall (λ a, u ≤ (k a).1) la.
Proof.
  induction la as [|a la (u & Hu & Hall)]; [by exists t|].
  exists (Z.min u (k a).1). split; [lia|]. constructor; [lia|].
  eapply Forall_impl; [exact Hall|]. simpl. lia.
Qed.

Lemma async_linv c st l st' :
  linv st l → handleAsyncInsertions c st = Ok st' →
  ∃ l', linv st' l' ∧ this (eventq st') = this (eventq st).
Proof.
  intros (t & Ht & Hinv) H. unfold handleAsyncInsertions in H. bind_inv H.
  destruct (i_async _ _ Hinv) as (la & Hla & _). cbn [setCurTick eventq with_curTick async_queue] in Hla.
  destruct (earliest (key (live st)) la t) as (u & Hu & Hall).
  assert (inv (setCurTick st u) l) as Hinvu.
  { rewrite <- (tick_tick st t). apply tick_inv; [done|].
    eapply Forall_impl; [exact (i_time _ _ Hinv)|]. intros x. change (_curTick _) with t.
    change (live (setCurTick st t)) with (live st). cbn beta. lia. }
  destruct (insert_all_spec (setCurTick st u) l la (key (live st)) Hinvu Hla)
    as (st2 & Heq & Hinv2 & _ & Hq); [done..|].
  rewrite insert_all_moved, <- Hla, H in Heq. injection Heq as <-.
  destruct (insert_all_clock _ _ _ H) as [Htk Hth]. eexists. split; [|done].
  exists u. split; [lia|exact Hinv2].
Qed.

Lemma step_linv strict st l st' :
  handler_ok par cur process → linv st l → sim_step strict st st' →
  ∃ l', linv st' l' ∧ this (eventq st') = this (eventq st).
Proof.
  intros Hproc Hl Hstep. destruct Hstep as [p c o st st' H|st r H|n w st st' _ H|w st _|c st st' _ H].
  - destruct (op_linv _ _ _ _ _ _ Hl H) as (l' & ? & _ & ?). eauto.
  - by eapply serviceOne_linv.
  - by eapply serviceEvents_linv.
  - exists l. split; [by apply linv_tick|done].
  - by eapply async_linv.
Qed.

Lemma steps_linv strict st l st' :
  handler_ok par cur process → linv st l → rtc (sim_step strict) st st' →
  ∃ l', linv st' l' ∧ this (eventq st') = this (eventq st).
Proof.
  intros Hproc Hl Hs. revert l Hl. induction Hs as [st|st st1 st2 H1 _ IH]; intros l Hl; [by exists l|].
  destruct (step_linv _ _ _ _ Hproc Hl H1) as (l1 & Hl1 & Hth1).
  destruct (IH _ Hl1) as (l2 & Hl2 & Hth2). exists l2. split; [done|congruence].
Qed.

Lemma steps_inv st l st' :
  handler_ok par cur process → inv st l → rtc (sim_step true) st st' → ∃ l', inv st' l' ∧ later st st'.
Proof.
  intros Hproc Hinv Hs. revert l Hinv. induction Hs as [st|st st1 st2 H1 _ IH]; intros l Hinv.
  - by exists l.
  - destruct (step_inv _ _ _ Hproc Hinv H1) as (l1 & Hinv1 & Hl1).
    destruct (IH _ Hinv1) as (l2 & Hinv2 & Hl2). exists l2. split; [done|by etrans].
Qed.

Lemma ops_steps p c strict os st st' :
  run_ops p c os st = Ok st' → rtc (sim_step strict) st st'.
Proof.
  revert st. induction os as [|o os IH]; intros st H; simpl in H; [by injection H as <-|].
  apply bind_Ok in H as (st1 & H1 & H). eapply rtc_l; [by eapply step_op|by apply IH].
Qed.
End steps.


Definition fresh_queue (q : positive) (n : string) : State :=
  MkState heap_empty (EventQueue_new q n).

Lemma fresh_inv q n : inv (fresh_queue q n) [].
Proof.
  constructor; simpl.
  - exists []. split_and!; [done..|apply NoDup_nil_2].
  - intros a. split; [set_solver|]. intros (e & He & _). by rewrite lookup_empty in He.
  - exists []. split; [done|apply NoDup_nil_2].
  - done.
  - intros a e He. by rewrite lookup_empty in He.
  - intros a [e He]. by rewrite lookup_empty in He.
Qed.

(** ** A queue for examples *)
Lemma inv_dumped par cur os st0 l0 st l :
  inv st0 l0 → run_ops par cur os st0 = Ok st → dump st = Ok (Some <$> l) → inv st l.
Proof.
  intros Hinv0 Hos Hd. destruct (ops_inv _ _ _ _ _ _ Hinv0 Hos) as (l' & Hinv & _).
  rewrite (dump_rep _ _ (i_rep _ _ Hinv)) in Hd. injection Hd as Hd.
  by apply (inj (fmap Some)) in Hd as <-.
Qed.

Definition run_or (os : list op) (st : State) : State :=
  match run_ops false None os st with Ok st' => st' | Err _ => st end.

(** Four events: two at tick 10, one at tick 10 with a higher priority, and one that
    is not scheduled. *)
Definition demo_ops : list op :=
  [OpNew 0 0; OpNew 0 0; OpNew (-1) 0; OpNew 0 Managed;
   OpSchedule 1 10 false; OpSchedule 2 10 false; OpSchedule 3 10 false].
Definition demo : State := run_or demo_ops (fresh_queue 1 "demo").

Definition event_at (st : State) (a : positive) : Event :=
  default (MkEvent None None 0 0 0 None) (live st !! a).

Lemma demo_inv : inv demo [3; 2; 1]%positive.
Proof.
  apply (inv_dumped false None demo_ops (fresh_queue 1 "demo") []); [apply fresh_inv|..];
    vm_compute; reflexivity.
Qed.

(** The fourth event is scheduled from the thread of another queue. *)
Definition demo_async : State :=
  match schedule true (Some 2%positive) demo (Some 4%positive) 30 false with
  | Ok st => st
  | Err _ => demo
  end.

Lemma demo_async_inv : inv demo_async [3; 2; 1]%positive.
Proof.
  apply (inv_dumped true (Some 2%positive) [OpSchedule 4 30 false] demo [3; 2; 1]%positive);
    [apply demo_inv|..]; vm_compute; reflexivity.
Qed.
#[global] Opaque demo demo_async.

(** A handler that schedules its event again, ten ticks on. *)
Definition clock (p : ptr) (st : State) : res State :=
  reschedule false None st p (_curTick (eventq st) + 10) true.

Lemma clock_ok : handler_ok false None clock.
Proof.
  intros [a|] st st' H; [exists [OpReschedule a (_curTick (eventq st) + 10) true]; simpl|].
  - change (clock (Some a) st) with (reschedule false None st (Some a) (_curTick (eventq st) + 10) true) in H.
    by rewrite H.
  - unfold clock, reschedule in H. simpl in H. by destruct (assert_ _).
Qed.

(** ** Theorems *)

(** C9: the linked bins implement an ordered list of events.  [schedule] puts an
    event in front of the first one that is not earlier (time, then priority; the
    newest first among equals), [deschedule] takes it out, and [reschedule] moves
    it to its new place; each keeps the invariant of the queue and changes no other
    event. *)
Theorem eventq_operations par cur st l a e w g :
  inv st l → live st !! a = Some e →
  (scheduled e = false → _curTick (eventq st) ≤ w → goes_async par cur st g = false →
   ∃ st', run_op par cur (OpSchedule a w g) st = Ok st' ∧
     inv st' (enqueue (rekey (live st) a w) a l) ∧ same_but a (live st) (live st')) ∧
  (a ∈ l → own_thread par cur st = true →
   ∃ st', run_op par cur (OpDeschedule a) st = Ok st' ∧
     inv st' (dequeue a l) ∧ same_but a (live st) (live st') ∧
     (live st' !! a = None ↔ isManaged e = true)) ∧
  (a ∈ l ∨ scheduled e = false ∧ g = true → _curTick (eventq st) ≤ w →
   own_thread par cur st = true →
   ∃ st', run_op par cur (OpReschedule a w g) st = Ok st' ∧
     inv st' (enqueue (rekey (live st) a w) a (dequeue a l)) ∧
     same_but a (live st) (live st')).
Proof.
  intros Hinv Ha. split_and!.
  - intros Hs Hw Hg. destruct (schedule_spec par cur st l a e w g) as (st' & e' & ? & ? & _ & _ & ? & _); eauto.
  - intros Hin Hown. destruct (deschedule_spec par cur st l a e) as (st' & ? & ? & Hc & ? & _); try done.
    exists st'. split_and!; try done. destruct (isManaged e), (live st' !! a); naive_solver.
  - intros Hcase Hw Hown. destruct (reschedule_spec par cur st l a e w g) as (st' & e' & ? & ? & _ & _ & ? & _); eauto.
Qed.

Lemma eventq_operations_witness :
  (∃ st', schedule false None demo (Some 4%positive) 10 false = Ok st' ∧
     inv st' [3; 4; 2; 1]%positive) ∧
  (∃ st', deschedule false None demo (Some 2%positive) = Ok st' ∧ inv st' [3; 1]%positive) ∧
  (∃ st', reschedule false None demo (Some 3%positive) 20 false = Ok st' ∧
     inv st' [2; 1; 3]%positive).
Proof.
  split_and!.
  - destruct (eventq_operations false None demo [3; 2; 1]%positive 4 (event_at demo 4) 10 false demo_inv)
      as [(st' & H1 & H2 & _) _];
      [vm_compute; reflexivity|vm_compute; reflexivity|vm_compute; discriminate|vm_compute; reflexivity|].
    exists st'. split; [exact H1|].
    assert (enqueue (rekey (live demo) 4 10) 4 [3; 2; 1]%positive = [3; 4; 2; 1]%positive) as <-
      by (vm_compute; reflexivity). exact H2.
  - destruct (eventq_operations false None demo [3; 2; 1]%positive 2 (event_at demo 2) 10 false demo_inv)
      as [_ [(st' & H1 & H2 & _) _]]; [vm_compute; reflexivity|by right; left|vm_compute; reflexivity|].
    exists st'. split; [exact H1|exact H2].
  - destruct (eventq_operations false None demo [3; 2; 1]%positive 3 (event_at demo 3) 20 false demo_inv)
      as [_ [_ (st' & H1 & H2 & _)]];
      [vm_compute; reflexivity|by left; left|vm_compute; discriminate|vm_compute; reflexivity|].
    exists st'. split; [exact H1|].
    assert (enqueue (rekey (live demo) 3 20) 3 (dequeue 3 [3; 2; 1])%positive = [2; 1; 3]%positive) as <-
      by (vm_compute; reflexivity). exact H2.
Defined.

(** An event that another thread has scheduled and that still waits on
    [async_queue] says it is scheduled, but [deschedule] and [reschedule] stop the
    simulator on it. *)
Theorem eventq_pending_panics par cur st l a w always :
  inv st l → Some a ∈ async_queue (eventq st) → own_thread par cur st = true →
  _curTick (eventq st) ≤ w →
  (∃ e, live st !! a = Some e ∧ scheduled e = true) ∧
  run_op par cur (OpDeschedule a) st = Err (Panic "event not found!") ∧
  run_op par cur (OpReschedule a w always) st = Err (Panic "event not found!").
Proof.
  intros Hinv Has Hown Hw. split_and!.
  - destruct (async_pending _ _ _ Hinv Has) as (_ & e & Ha & [Hs _] & _). eauto.
  - by eapply deschedule_pending.
  - by eapply reschedule_pending.
Qed.

Lemma eventq_pending_panics_witness :
  Some 4%positive ∈ async_queue (eventq demo_async) ∧
  deschedule true (Some 1%positive) demo_async (Some 4%positive) = Err (Panic "event not found!").
Proof.
  assert (Some 4%positive ∈ async_queue (eventq demo_async)) as Hin by (vm_compute; by left).
  split; [exact Hin|].
  apply (eventq_pending_panics true (Some 1%positive) demo_async _ 4 50 false demo_async_inv Hin);
    vm_compute; [reflexivity|discriminate].
Defined.

(** [handleAsyncInsertions] puts the waiting events on the queue one after the
    other, each in its place, and leaves none waiting; if none of them is overdue
    the queue keeps its invariant. *)
Theorem eventq_async_merge st l la :
  inv st l → async_queue (eventq st) = Some <$> la →
  Forall (λ a, _curTick (eventq st) ≤ (key (live st) a).1) la →
  ∃ st', handleAsyncInsertions (Some (this (eventq st))) st = Ok st' ∧
    inv st' (foldl (λ l a, enqueue (key (live st)) a l) l la) ∧
    async_queue (eventq st') = [] ∧ same_core (live st) (live st') ∧ same_clock st st'.
Proof.
  intros Hinv Hla Ht.
  destruct (insert_all_spec st l la (key (live st)) Hinv Hla) as (st' & Heq & Hinv' & Hsc & Hq); [done..|].
  exists st'. split_and!; try done; [|by rewrite Hq|by unfold same_clock; rewrite Hq].
  unfold handleAsyncInsertions. rewrite bool_decide_true by done. simpl assert_.
  by rewrite Ok_bind, Hla.
Qed.

Lemma eventq_async_merge_witness :
  ∃ st', handleAsyncInsertions (Some (this (eventq demo_async))) demo_async = Ok st' ∧
    inv st' [3; 2; 1; 4]%positive ∧ async_queue (eventq st') = [].
Proof.
  destruct (eventq_async_merge demo_async _ [4%positive] demo_async_inv) as (st' & H1 & H2 & H3 & _).
  - vm_compute. reflexivity.
  - constructor; [vm_compute; discriminate|constructor].
  - exists st'. split; [exact H1|]. split; [|exact H3].
    assert (foldl (λ l a, enqueue (key (live demo_async)) a l) [3; 2; 1]%positive [4]%positive =
      [3; 2; 1; 4]%positive) as <- by (vm_compute; reflexivity). exact H2.
Defined.

(** C11: [serviceOne] takes the first event, which no other precedes.  A squashed one
    is dropped without moving time.  For any other, time moves to the event, never
    back, and its handler runs on a queue that no longer holds it; the handler may
    schedule it again. *)
Theorem eventq_service_order process st a l e :
  inv st (a :: l) → live st !! a = Some e →
  Forall (λ x, ¬ klt (key (live st) x) (ekey e)) l ∧ _curTick (eventq st) ≤ _when e ∧
  (squashed e = false →
   ∃ st1 e1, inv st1 l ∧ live st1 !! a = Some e1 ∧ scheduled e1 = false ∧
     _curTick (eventq st1) = _when e ∧ same_but a (live st) (live st1) ∧
     serviceOne process st = (st2 ← process (Some a) st1; finish (Some a) st2)) ∧
  (squashed e = true →
   ∃ st2, serviceOne process st = Ok (None, st2) ∧ inv st2 l ∧
     _curTick (eventq st2) = _curTick (eventq st)).
Proof.
  intros Hinv Ha. destruct (serviceOne_cases process st a l Hinv)
    as (e0 & st1 & e1 & Ha' & Hinv1 & Ha1 & Hc1 & Hbut & Hth & Ht & _ & Hrun & Hsq).
  assert (e0 = e) as -> by congruence.
  assert (scheduled e1 = false) as Hs1.
  { unfold core in Hc1. injection Hc1 as _ _ Hf _. unfold scheduled. rewrite Hf.
    by apply isSet_clear_same. }
  split_and!; [|done| |].
  - pose proof (rep_order _ _ _ (i_rep _ _ Hinv)) as Hord. inversion Hord; simplify_eq.
    by rewrite <- (key_Some _ _ _ Ha).
  - intros Hs. destruct (Hrun Hs) as [Htk Heq]. by exists st1, e1.
  - intros Hs. destruct (Hsq Hs) as [Htk Heq].
    destruct (user_flags st1 l a e1 Squashed Hinv1 Ha1) as [_ Hinv2]; [done|].
    destruct (release_keep _ l a _ Hinv2 (lookup_insert_eq _ _ _)) as (st3 & Hr & Hinv3 & Hq3 & _).
    exists st3. rewrite Heq, (upd_event_live _ _ _ _ Ha1), Ok_bind, Hr.
    split_and!; [done..|]. rewrite Hq3. simpl. lia.
Qed.

Lemma eventq_service_order_witness :
  ∃ st1, inv st1 [2; 1]%positive ∧ _curTick (eventq st1) = 10 ∧
    serviceOne clock demo = (st2 ← clock (Some 3%positive) st1; finish (Some 3%positive) st2).
Proof.
  destruct (eventq_service_order clock demo 3 [2; 1]%positive (event_at demo 3) demo_inv)
    as (_ & _ & H & _); [vm_compute; reflexivity|].
  destruct H as (st1 & e1 & H1 & _ & _ & H2 & _ & H3); [vm_compute; reflexivity|].
  exists st1. split; [exact H1|]. split; [|exact H3].
  rewrite H2. vm_compute. reflexivity.
Defined.

(** C10: from the construction of a queue on, under operations called from any
    thread, events serviced one by one or by [serviceEvents], merges of
    [async_queue] and calls of [setCurTick], with handlers that reach the queue
    through its operations, the bins hold a list in order, without duplicates; that
    list and [async_queue] hold exactly the events that are scheduled on this queue.
    If moreover ([strict]) no event merged from [async_queue] is overdue, no target
    of [serviceEvents] is before the current tick, and [setCurTick] moves time
    neither back nor past an event of the queue, none of which the code checks, then
    time never goes back and no event on the queue is in the past. *)
Theorem eventq_time_invariant par cur process strict q n st1 st2 :
  handler_ok par cur process →
  rtc (sim_step process strict) (fresh_queue q n) st1 → rtc (sim_step process strict) st1 st2 →
  ∃ l, dump st2 = Ok (Some <$> l) ∧ NoDup l ∧ in_order (key (live st2)) l ∧
    (∀ a, a ∈ l ∨ Some a ∈ async_queue (eventq st2) ↔
          ∃ e, live st2 !! a = Some e ∧ scheduled e = true ∧ queue e = Some q) ∧
    (strict = true →
     _curTick (eventq st1) ≤ _curTick (eventq st2) ∧
     Forall (λ a, _curTick (eventq st2) ≤ (key (live st2) a).1) l).
Proof.
  intros Hproc H1 H2. pose proof (inv_linv _ _ (fresh_inv q n)) as Hl0.
  destruct (steps_linv _ _ _ _ _ _ _ Hproc Hl0 H1) as (l1 & Hl1 & Hth1).
  destruct (steps_linv _ _ _ _ _ _ _ Hproc Hl1 H2) as (l2 & (t & Ht & Hinv2) & Hth2).
  exists l2. split_and!.
  - apply (dump_rep (setCurTick st2 t)), Hinv2.
  - eapply rep_NoDup, (i_rep _ _ Hinv2).
  - eapply rep_order, (i_rep _ _ Hinv2).
  - intros a. rewrite (i_sched _ _ Hinv2 a). unfold on_queue. simpl. by rewrite Hth2, Hth1.
  - intros ->. destruct (steps_inv _ _ _ _ _ _ Hproc (fresh_inv q n) H1) as (k1 & Hk1 & _).
    destruct (steps_inv _ _ _ _ _ _ Hproc Hk1 H2) as (k2 & Hk2 & Hlt & _). split; [done|].
    pose proof (dump_rep _ _ (i_rep _ _ Hk2)) as Hd.
    pose proof (dump_rep (setCurTick st2 t) _ (i_rep _ _ Hinv2)) as Hd'.
    change (dump (setCurTick st2 t)) with (dump st2) in Hd'. rewrite Hd in Hd'.
    injection Hd' as Hd'%(inj (fmap Some)). rewrite <- Hd'. apply Hk2.
Qed.

Lemma eventq_time_invariant_witness :
  ∃ r, serviceOne clock demo = Ok r ∧ _curTick (eventq demo) ≤ _curTick (eventq r.2).
Proof.
  destruct (serviceOne clock demo) as [r|e] eqn:H; [|vm_compute in H; discriminate].
  exists r. split; [reflexivity|].
  destruct (eventq_time_invariant false None clock true 1 "demo" demo r.2 clock_ok)
    as (l & _ & _ & _ & _ & Ht).
  - apply (ops_steps _ false None _ demo_ops). vm_compute. reflexivity.
  - eapply rtc_l; [by eapply step_service|apply rtc_refl].
  - apply Ht. reflexivity.
Defined.

(** Nothing in the code makes the merge punctual: the fourth event is scheduled for
    tick 5 by another thread while this queue is at tick 0, the queue services its
    event of tick 10, and after the merge the next event serviced takes time back
    from 10 to 5. *)
Definition late_ops : list op := [OpSchedule 4 5 false].

Theorem late_merge_moves_time_back :
  ∃ st1 st2 st3 st4,
    run_ops true (Some 2%positive) late_ops demo = Ok st1 ∧
    (∃ p, serviceOne (λ _ st, Ok st) st1 = Ok (p, st2)) ∧ _curTick (eventq st2) = 10 ∧
    handleAsyncInsertions (Some 1%positive) st2 = Ok st3 ∧ ¬ punctual st2 ∧
    (∃ p, serviceOne (λ _ st, Ok st) st3 = Ok (p, st4)) ∧ _curTick (eventq st4) = 5.
Proof.
  destruct (run_ops true (Some 2%positive) late_ops demo) as [st1|] eqn:H1;
    [|vm_compute in H1; discriminate].
  vm_compute in H1. injection H1 as <-. do 4 eexists. split; [reflexivity|].
  split; [eexists; vm_compute; reflexivity|]. split; [vm_compute; reflexivity|].
  split; [vm_compute; reflexivity|]. split; [|split; [eexists; vm_compute; reflexivity|vm_compute; reflexivity]].
  intros Hp. specialize (Hp 4%positive). vm_compute in Hp. apply Hp; [by left|reflexivity].
Qed.

End EventQSpec.
