(* ===== verification/EventQueueSim.v ===== *)
(** * The event queue: loops, checkpoints and checks

    The two loops that service events ([EventQueue::serviceEvents] and
    [doSimLoop]), the restoring of events from a checkpoint, the code's own
    consistency check and the table of main queues. *)

From stdpp Require Import pretty.
From S2P Require Import Prelude EventQueue EventQueueRep EventQueueInv EventQueueSpec.

Module EventQSim.
Import EventQ EventQRep EventQInv EventQSpec.

(** ** [serviceEvents] *)

(** Number of events of [l] that are due by [w]. *)
Definition due (w : Z) (st : State) (l : list positive) : nat :=
  length (filter (λ x, (key (live st) x).1 ≤ w) l).

Lemma due_ext w st st' l :
  (∀ x, x ∈ l → key (live st') x = key (live st) x) → due w st' l = due w st l.
Proof.
  intros Hk. unfold due. f_equal. induction l as [|x l IH]; [done|].
  rewrite !filter_cons, Hk, IH by set_solver. done.
Qed.

Lemma due_cons w st a l :
  (key (live st) a).1 ≤ w → due w st (a :: l) = S (due w st l).
Proof. intros. unfold due. by rewrite filter_cons, decide_True. Qed.

Section loop.
Context (process : ptr → State → res State).

(** What a handler must do for [serviceEvents w] to end: return, keep the queue and
    its clock in order, not destroy its own event, and leave no more events due by
    [w] than it found. *)
Definition handler_settles (w : Z) : Prop :=
  ∀ a st l e, inv st l → live st !! a = Some e → a ∉ l → _curTick (eventq st) ≤ w →
    returns (process (Some a) st) (λ st', ∃ l', inv st' l' ∧
      _curTick (eventq st') = _curTick (eventq st) ∧ is_Some (live st' !! a) ∧
      (due w st' l' ≤ due w st l)%nat).

Lemma serviceOne_settles w st a l e :
  handler_settles w → inv st (a :: l) → live st !! a = Some e → _when e ≤ w →
  returns (serviceOne process st) (λ r, ∃ l', inv r.2 l' ∧ _curTick (eventq r.2) ≤ w ∧
    (due w r.2 l' ≤ due w st l)%nat).
Proof.
  intros Hset Hinv Ha Hw. destruct (serviceOne_cases process st a l Hinv)
    as (e0 & st1 & e1 & Ha' & Hinv1 & Ha1 & Hc1 & Hbut & Hth & Ht & Ht1 & Hrun & Hsq).
  assert (e0 = e) as -> by congruence.
  pose proof (rep_NoDup _ _ _ (i_rep _ _ Hinv)) as [Hnot _]%NoDup_cons.
  assert (due w st1 l = due w st l) as Hd1.
  { apply due_ext. intros x Hx. eapply same_but_key; [done|]. set_solver. }
  destruct (squashed e).
  - destruct (Hsq eq_refl) as [Htk ->]. rewrite (upd_event_live _ _ _ _ Ha1), Ok_bind.
    destruct (user_flags st1 l a e1 Squashed Hinv1 Ha1) as [_ Hinv2]; [done|].
    destruct (release_keep _ l a _ Hinv2 (lookup_insert_eq _ _ _)) as (st3 & -> & Hinv3 & Hq3 & Hk3).
    simpl. exists l. split_and!; [done|rewrite Hq3; simpl; lia|].
    rewrite <- Hd1. apply Nat.eq_le_incl, due_ext. intros x Hx. apply key_ext.
    rewrite Hk3 by done. apply lookup_insert_ne. set_solver.
  - destruct (Hrun eq_refl) as [Htk ->].
    apply returns_bind. eapply returns_mono; [apply (Hset a st1 l e1); [done..|lia]|].
    intros st2 (l2 & Hinv2 & Htk2 & [e2 He2] & Hdue).
    destruct (finish_spec _ _ _ _ Hinv2 He2) as (st3 & -> & Hinv3 & Hq3 & Hk3). simpl.
    exists l2. split_and!; [done|rewrite Hq3; lia|].
    rewrite (due_ext w st2 st3); [lia|]. intros x Hx. by apply key_ext, Hk3.
Qed.

Lemma serviceEvents_ends w n st l :
  handler_settles w → inv st l → _curTick (eventq st) ≤ w → (due w st l < n)%nat →
  returns (serviceEvents process n st w) (λ st', ∃ l', inv st' l' ∧
    _curTick (eventq st') = w ∧ Forall (λ x, w < (key (live st') x).1) l').
Proof.
  intros Hset. revert st l. induction n as [|n IH]; intros st l Hinv Ht Hn; [lia|].
  cbn [serviceEvents]. destruct l as [|a l].
  { rewrite (empty_inv _ Hinv). simpl. exists []. split_and!; [|done..]. by apply tick_inv. }
  destruct (nextTick_inv _ _ _ Hinv) as (e & Ha & -> & Hte & ->). rewrite Ok_bind.
  destruct (Z.ltb_spec w (_when e)) as [Hlt|Hge].
  - simpl. assert (Forall (λ x, w < (key (live st) x).1) (a :: l)) as Hall.
    { eapply Forall_impl; [exact (in_order_head _ _ _ (rep_order _ _ _ (i_rep _ _ Hinv)))|].
      simpl. intros x. rewrite (key_Some _ _ _ Ha). unfold klt, ekey. simpl. lia. }
    exists (a :: l). split_and!; [|done..]. apply tick_inv; [done|].
    eapply Forall_impl; [exact Hall|]. simpl. lia.
  - apply returns_bind. eapply returns_mono; [by eapply serviceOne_settles|].
    intros r (l' & Hinv' & Ht' & Hd'). eapply IH; [done..|].
    rewrite due_cons in Hn; [lia|]. by rewrite (key_Some _ _ _ Ha).
Qed.
End loop.

(** ** [doSimLoop] *)
Section sim.
Context (par : bool) (cur : ptr) (process : ptr → State → res State)
  (async_poll : State → res (bool * State)).

(** The signal handling of the loop also reaches the queue by its operations. *)
Definition poll_ok : Prop :=
  ∀ st r, async_poll st = Ok r → ∃ os, run_ops par cur os st = Ok r.2.

(** The loop without its assertion on time. *)
Fixpoint sim_loop_unchecked (n : nat) (st : State) : res (ptr * State) :=
  match n with
  | O => Err Diverges
  | S n =>
      _ ← assert_ (negb (empty st));
      a ← async_poll st;
      if (a : bool * State).1 then Ok (None, a.2)
      else
        r ← serviceOne process a.2;
        match r.1 with
        | Some _ => Ok r
        | None => sim_loop_unchecked n r.2
        end
  end.

Lemma sim_loop_same n st l :
  handler_ok par cur process → poll_ok → inv st l →
  sim_loop process async_poll n st = sim_loop_unchecked n st.
Proof.
  intros Hproc Hpoll. revert st l. induction n as [|n IH]; intros st l Hinv; [done|].
  cbn [sim_loop sim_loop_unchecked]. destruct l as [|a l].
  { by rewrite (empty_inv _ Hinv). }
  destruct (nextTick_inv _ _ _ Hinv) as (e & Ha & -> & Hte & ->).
  simpl assert_. rewrite !Ok_bind, (proj2 (Z.leb_le _ _) Hte). simpl assert_. rewrite !Ok_bind.
  destruct (async_poll st) as [[b st1]|] eqn:Hp; [|done]. rewrite !Ok_bind. cbn [fst snd].
  destruct b; [done|]. destruct (Hpoll _ _ Hp) as [os Hos].
  destruct (ops_inv _ _ _ _ _ _ Hinv Hos) as (l1 & Hinv1 & _). cbn [snd] in Hinv1.
  destruct (serviceOne process st1) as [r|] eqn:Hr; [|done]. rewrite !Ok_bind.
  destruct (serviceOne_inv _ _ _ _ _ _ Hproc Hinv1 Hr) as (l2 & Hinv2 & _).
  destruct r as [[p|] st2]; [done|]. by eapply IH.
Qed.
End sim.

(** ** Checkpoints *)
Lemma init_flags_small f : is_u16 f → Z.land f InitMask = Initialized → f < 2 ^ 15.
Proof.
  intros Hf Hi. apply bits_bound; [lia|unfold is_u16 in Hf; lia|]. intros i Hi15.
  destruct (decide (i = 15)) as [->|].
  - apply (f_equal (λ z, Z.testbit z 15)) in Hi. rewrite Z.land_spec in Hi.
    change (Z.testbit InitMask 15) with true in Hi. by rewrite andb_true_r in Hi.
  - apply (bits_above f 16); [done|lia].
Qed.

(** Restoring an event in an event object that is not scheduled. *)
Lemma unserialize_serialize e0 e :
  is_u64 (_when e0) → is_i8 (_priority e0) → is_u16 (flags e0) → initialized e0 = true →
  scheduled e = false → initialized e = true →
  ∃ f, unserialize e (serialize e0) = Ok (with_key e (_when e0) (_priority e0) f) ∧
    Flags.isSet f Scheduled = scheduled e0 && squashed e0.
Proof.
  intros Hw Hp Hf Hi0 Hs Hi. unfold unserialize, serialize. cbn [c_when c_priority c_flags].
  rewrite Hs. simpl assert_. rewrite Ok_bind. unfold initialized in Hi0. apply Z.eqb_eq in Hi0.
  pose proof (init_flags_small _ Hf Hi0).
  rewrite i16_id by (unfold is_u16 in Hf; lia). unfold paramIn.
  unfold is_u64, is_i8, is_u16 in *.
  rewrite (proj2 (andb_true_iff (0 <=? _when e0) _)) by (rewrite !Z.leb_le; lia).
  rewrite (proj2 (andb_true_iff (- 2 ^ 7 <=? _priority e0) _)) by (rewrite !Z.leb_le; lia).
  rewrite (proj2 (andb_true_iff (0 <=? flags e0) _)) by (rewrite !Z.leb_le; lia).
  rewrite Hi. simpl assert_. simpl guard_. rewrite !Ok_bind.
  set (f1 := Flags.set (flags e0) Initialized).
  assert (Flags.isSet f1 Scheduled = scheduled e0) as Hsc.
  { unfold scheduled, Flags.isSet, f1. by rewrite land_set_other. }
  assert (Flags.isSet f1 Squashed = squashed e0) as Hsq.
  { unfold squashed, Flags.isSet, f1. by rewrite land_set_other. }
  rewrite Hsc, Hsq. eexists. split; [done|].
  destruct (scheduled e0), (squashed e0); simpl; try done.
  by apply isSet_clear_sub.
Qed.

(** ** Theorems *)

(** C39: [serviceEvents w] ends when no handler leaves more events due by [w] than it
    found: after at most one iteration per event that is due, the time is [w] and
    every event left on the queue is later than [w]. *)
Theorem serviceEvents_terminates process w st l :
  handler_settles process w → inv st l → _curTick (eventq st) ≤ w →
  ∃ st' l', serviceEvents process (S (due w st l)) st w = Ok st' ∧ inv st' l' ∧
    _curTick (eventq st') = w ∧ Forall (λ x, w < (key (live st') x).1) l'.
Proof.
  intros Hset Hinv Ht.
  pose proof (serviceEvents_ends process w (S (due w st l)) st l Hset Hinv Ht ltac:(lia)) as H.
  apply returns_iff in H as (st' & Heq & l' & Hl'). exists st', l'. done.
Qed.

(** A handler that does nothing. *)
Lemma idle_settles w : handler_settles (λ _ st, Ok st) w.
Proof. intros a st l e Hinv Ha _ Ht. simpl. exists l. split_and!; [done..|by exists e|done]. Qed.

Lemma serviceEvents_terminates_witness :
  ∃ st' l', serviceEvents (λ _ st, Ok st) (S (due 10 demo [3; 2; 1]%positive)) demo 10 = Ok st' ∧
    inv st' l' ∧ _curTick (eventq st') = 10.
Proof.
  destruct (serviceEvents_terminates (λ _ st, Ok st) 10 demo [3; 2; 1]%positive)
    as (st' & l' & H1 & H2 & H3 & _); [apply idle_settles|apply demo_inv|vm_compute; discriminate|].
  exists st', l'. split; [exact H1|]. split; [exact H2|exact H3].
Defined.

(** The assertion "event scheduled in the past" of [doSimLoop] never fires: on a
    queue that satisfies the invariant, with handlers and signal handling that use
    the queue's operations, the loop computes what it computes without it. *)
Theorem simloop_assertion_redundant par cur process poll n st l :
  handler_ok par cur process → poll_ok par cur poll → inv st l →
  sim_loop process poll n st = sim_loop_unchecked process poll n st.
Proof. intros. by eapply sim_loop_same. Qed.

Lemma no_signals : poll_ok false None (λ st, Ok (false, st)).
Proof. intros st r [= <-]. by exists []. Qed.

Lemma simloop_assertion_redundant_witness :
  sim_loop clock (λ st, Ok (false, st)) 5 demo =
  sim_loop_unchecked clock (λ st, Ok (false, st)) 5 demo.
Proof.
  apply (simloop_assertion_redundant false None clock _ 5 demo [3; 2; 1]%positive clock_ok no_signals).
  apply demo_inv.
Defined.

(** What [debugVerify] answers for a queue in order: whether the first event is not
    below time 0 and priority 0. *)
Definition verify_verdict (st : State) (l : list positive) : bool :=
  match l with
  | [] => true
  | a :: _ => bool_decide (¬ klt (key (live st) a) (0, 0))
  end.

(** The code's own consistency check accepts every queue that satisfies the
    invariant but one kind: it starts from time 0 and priority 0, so a queue whose
    first event is at tick 0 with a negative priority is reported as inverted. *)
Theorem debugVerify_exact st l :
  inv st l →
  debugVerify st = Ok (verify_verdict st l).
Proof. intros Hinv. apply debugVerify_rep, Hinv. Qed.

(** An event with the priority of a CPU switch, at tick 0. *)
Definition at_zero_ops : list op := [OpNew (-31) 0; OpSchedule 1 0 false].
Definition at_zero : State := run_or at_zero_ops (fresh_queue 1 "zero").

Lemma at_zero_inv : inv at_zero [1%positive].
Proof.
  apply (inv_dumped false None at_zero_ops (fresh_queue 1 "zero") []); [apply fresh_inv|..];
    vm_compute; reflexivity.
Qed.

Lemma debugVerify_exact_witness :
  debugVerify demo = Ok true ∧ debugVerify at_zero = Ok false.
Proof.
  split.
  - rewrite (debugVerify_exact demo _ demo_inv). vm_compute. reflexivity.
  - rewrite (debugVerify_exact at_zero _ at_zero_inv). vm_compute. reflexivity.
Defined.

(** An event whose fields are in the range of their types. *)
Definition well_typed (e : Event) : Prop :=
  is_u64 (_when e) ∧ is_i8 (_priority e) ∧ is_u16 (flags e) ∧ initialized e = true.

(** Restoring a checkpoint does not bring back the queue.  An event that was
    scheduled and not squashed gets its time and priority back but is not put on the
    queue: [unserialize] clears the flag that [checkpointReschedule] tests.  Only an
    event that was scheduled and squashed is put back. *)
Theorem checkpoint_loses_event st l a e e0 :
  inv st l → live st !! a = Some e → scheduled e = false →
  well_typed e0 → scheduled e0 = true →
  ∃ st' l', unserialize_event st (Some a) (serialize e0) = Ok st' ∧ rep st' l' ∧
    key (live st') a = (_when e0, _priority e0) ∧
    (if squashed e0 then a ∈ l' else l' = l ∧ eventq st' = eventq st).
Proof.
  intros Hinv Ha Hs (Hw & Hp & Hf & Hi0) Hs0. destruct (not_on_list _ _ _ _ Hinv Ha Hs) as [Hnl _].
  destruct (unserialize_serialize e0 e) as (f & Hun & Hsch); try done; [apply (i_ok _ _ Hinv a e Ha)|].
  unfold unserialize_event. rewrite (deref_live _ _ _ Ha), Ok_bind, Hun, Ok_bind.
  rewrite (store_live _ _ _ _ Ha), Ok_bind. unfold checkpointReschedule.
  set (e1 := with_key e _ _ f) in *. set (st1 := MkState _ _).
  assert (live st1 !! a = Some e1) as Ha1 by apply lookup_insert_eq.
  assert (rep st1 l) as Hrep1.
  { eapply rep_ext; [|apply Hinv]. intros x Hx. apply lookup_insert_ne. set_solver. }
  rewrite (deref_live _ _ _ Ha1), Ok_bind. change (flags e1) with f. rewrite Hsch, Hs0. simpl andb.
  destruct (squashed e0).
  - destruct (insert_rep st1 a e1 l Ha1 Hrep1 Hnl) as (m' & p' & -> & Hrep & Hsc & _).
    eexists _, _. split_and!; [done|exact Hrep| |by rewrite elem_of_enqueue; left].
    change (live (relinked st1 m' p')) with m'.
    by rewrite (same_core_key _ _ Hsc), (key_Some _ _ _ Ha1).
  - exists st1, l. split_and!; try done. by rewrite (key_Some _ _ _ Ha1).
Qed.

(** The first event of [demo], restored into the idle fourth one. *)
Lemma checkpoint_loses_event_witness :
  ∃ st', unserialize_event demo (Some 4%positive) (serialize (event_at demo 1)) = Ok st' ∧
    key (live st') 4 = (10, 0) ∧ eventq st' = eventq demo.
Proof.
  destruct (checkpoint_loses_event demo _ 4 (event_at demo 4) (event_at demo 1) demo_inv)
    as (st' & l' & H1 & _ & H2 & H3);
    [vm_compute; reflexivity|vm_compute; reflexivity| |vm_compute; reflexivity|].
  { repeat split; vm_compute; (reflexivity || discriminate). }
  exists st'. split; [exact H1|]. split; [rewrite H2; vm_compute; reflexivity|].
  assert (squashed (event_at demo 1) = false) as Hs by (vm_compute; reflexivity).
  rewrite Hs in H3. apply H3.
Defined.

(** ** Main queues *)
Lemma grow_spec n index l :
  ∃ l', grow n index l = l ++ l' ∧ length l' = n ∧ Forall (λ q, objName q = main_name index) l'.
Proof.
  revert l. induction n as [|n IH]; intros l; simpl.
  - exists []. by rewrite app_nil_r.
  - destruct (IH (l ++ [EventQueue_new (Pos.of_succ_nat (length l)) (main_name index)]))
      as (l' & -> & Hlen & Hall).
    eexists (_ :: l'). rewrite <- app_assoc. split_and!; [done|simpl; lia|by constructor].
Qed.

(** [getEventQueue] answers the queue of that index, creating it and those before it;
    all the queues it creates in one call get the name of the last one. *)
Theorem getEventQueue_names index l :
  0 ≤ index →
  ∃ q l', getEventQueue index l = Ok (q, l ++ l') ∧ (l ++ l') !! Z.to_nat index = Some q ∧
    vlen l' = Z.max 0 (index + 1 - vlen l) ∧ Forall (λ q, objName q = main_name index) l'.
Proof.
  intros Hi. unfold getEventQueue.
  destruct (grow_spec (Z.to_nat (index + 1 - vlen l)) index l) as (l' & -> & Hlen & Hall).
  assert (vlen l' = Z.max 0 (index + 1 - vlen l)) as Hv by (unfold vlen in *; lia).
  destruct ((l ++ l') !! Z.to_nat index) as [q|] eqn:Hq.
  - exists q, l'. rewrite (proj2 (vget_Ok _ _ _) (conj Hi Hq)). done.
  - apply lookup_ge_None in Hq. rewrite length_app in Hq. unfold vlen in *. lia.
Qed.

End EventQSim.
