(* ===== verification/StoreSet.v ===== *)
(** * The store set predictor

    [cpu/o3/store_set.hh] and [store_set.cc]: which store a memory instruction has
    to wait for.  A violation puts the load and the store into one store set
    ([SSIT]); [LFST] holds the last fetched store of each set, [storeList] the
    stores that were inserted and have neither issued nor been squashed, youngest
    first. *)

From S2P Require Import Prelude IntMath.

Module StoreSet.

(** ** State *)
Record t := mk {
  SSIT : list Z;
  validSSIT : list bool;
  LFST : list Z;
  validLFST : list bool;
  storeList : list (Z * Z);   (** sequence number and store set, in [ltseqnum] order *)
  clearPeriod : Z;
  SSITSize : Z;
  LFSTSize : Z;
  indexMask : Z;
  offsetBits : Z;
  memOpsPred : Z
}.

Definition with_SSIT (s : t) (v : list Z) (b : list bool) : t :=
  mk v b (LFST s) (validLFST s) (storeList s) (clearPeriod s) (SSITSize s) (LFSTSize s)
     (indexMask s) (offsetBits s) (memOpsPred s).
Definition with_LFST (s : t) (v : list Z) (b : list bool) : t :=
  mk (SSIT s) (validSSIT s) v b (storeList s) (clearPeriod s) (SSITSize s) (LFSTSize s)
     (indexMask s) (offsetBits s) (memOpsPred s).
Definition with_storeList (s : t) (l : list (Z * Z)) : t :=
  mk (SSIT s) (validSSIT s) (LFST s) (validLFST s) l (clearPeriod s) (SSITSize s) (LFSTSize s)
     (indexMask s) (offsetBits s) (memOpsPred s).
Definition with_memOpsPred (s : t) (n : Z) : t :=
  mk (SSIT s) (validSSIT s) (LFST s) (validLFST s) (storeList s) (clearPeriod s) (SSITSize s)
     (LFSTSize s) (indexMask s) (offsetBits s) n.

(** ** Operations *)

(** [std::vector::resize] *)
Definition resize {A} (l : list A) (n : Z) (d : A) : list A :=
  take (Z.to_nat n) l ++ replicate (Z.to_nat n - length l) d.

Definition init (s : t) (clear_period SSIT_size LFST_size : Z) : t :=
  mk (resize (SSIT s) SSIT_size 0) (replicate (Z.to_nat SSIT_size) false)
     (replicate (Z.to_nat LFST_size) 0) (replicate (Z.to_nat LFST_size) false)
     (storeList s) clear_period SSIT_size LFST_size (SSIT_size - 1) 2 0.

(** The constructor makes the same steps on empty vectors, with two checks. *)
Definition create (clear_period SSIT_size LFST_size : Z) : res t :=
  _ ← guard_ (isPowerOf2 SSIT_size) (Fatal "Invalid SSIT size!");
  _ ← guard_ (isPowerOf2 LFST_size) (Fatal "Invalid LFST size!");
  Ok (init (mk [] [] [] [] [] 0 0 0 0 0 0) clear_period SSIT_size LFST_size).

Definition calcIndex (s : t) (PC : Z) : res Z :=
  x ← shr64 PC (offsetBits s); Ok (Z.land x (indexMask s)).

Definition calcSSID (s : t) (PC : Z) : res Z :=
  x ← umod (Z.lxor PC (Z.shiftr PC 10)) (LFSTSize s); Ok (u32 x).

Definition clear (s : t) : t :=
  let s := with_SSIT s (SSIT s) (replicate (length (validSSIT s)) false) in
  let s := with_LFST s (LFST s) (replicate (length (validLFST s)) false) in
  with_storeList s [].

Definition checkClear (s : t) : t :=
  let s := with_memOpsPred s (i32 (memOpsPred s + 1)) in
  if clearPeriod s <? u64 (memOpsPred s) then clear (with_memOpsPred s 0) else s.

Definition violation (s : t) (store_PC load_PC : Z) : res t :=
  load_index ← calcIndex s load_PC;
  store_index ← calcIndex s store_PC;
  _ ← assert_ ((load_index <? SSITSize s) && (store_index <? SSITSize s));
  valid_load_SSID ← vget (validSSIT s) load_index;
  valid_store_SSID ← vget (validSSIT s) store_index;
  if negb valid_load_SSID && negb valid_store_SSID then
    new_set ← calcSSID s load_PC;
    b ← vset (validSSIT s) load_index true;
    v ← vset (SSIT s) load_index new_set;
    b ← vset b store_index true;
    v ← vset v store_index new_set;
    _ ← assert_ (new_set <? LFSTSize s);
    Ok (with_SSIT s v b)
  else if valid_load_SSID && negb valid_store_SSID then
    load_SSID ← vget (SSIT s) load_index;
    b ← vset (validSSIT s) store_index true;
    v ← vset (SSIT s) store_index load_SSID;
    _ ← assert_ (load_SSID <? LFSTSize s);
    Ok (with_SSIT s v b)
  else if negb valid_load_SSID && valid_store_SSID then
    store_SSID ← vget (SSIT s) store_index;
    b ← vset (validSSIT s) load_index true;
    v ← vset (SSIT s) load_index store_SSID;
    Ok (with_SSIT s v b)
  else
    load_SSID ← vget (SSIT s) load_index;
    store_SSID ← vget (SSIT s) store_index;
    _ ← assert_ ((load_SSID <? LFSTSize s) && (store_SSID <? LFSTSize s));
    v ← (if load_SSID <? store_SSID then vset (SSIT s) store_index load_SSID
         else vset (SSIT s) load_index store_SSID);
    Ok (with_SSIT s v (validSSIT s)).

Definition insertLoad (s : t) (load_PC load_seq_num : Z) : t := checkClear s.

(** [storeList[sn] = id]: the map is ordered by decreasing sequence number. *)
Fixpoint list_put (sn id : Z) (l : list (Z * Z)) : list (Z * Z) :=
  match l with
  | [] => [(sn, id)]
  | (n, i) :: l' =>
      if n <? sn then (sn, id) :: l
      else if n =? sn then (sn, id) :: l'
      else (n, i) :: list_put sn id l'
  end.

Definition insertStore (s : t) (store_PC store_seq_num tid : Z) : res t :=
  index ← calcIndex s store_PC;
  let s := checkClear s in
  _ ← assert_ (index <? SSITSize s);
  valid ← vget (validSSIT s) index;
  if negb valid then Ok s
  else
    store_SSID ← vget (SSIT s) index;
    _ ← assert_ (store_SSID <? LFSTSize s);
    v ← vset (LFST s) store_SSID store_seq_num;
    b ← vset (validLFST s) store_SSID true;
    Ok (with_storeList (with_LFST s v b) (list_put store_seq_num store_SSID (storeList s))).

Definition checkInst (s : t) (PC : Z) : res Z :=
  index ← calcIndex s PC;
  _ ← assert_ (index <? SSITSize s);
  valid ← vget (validSSIT s) index;
  if negb valid then Ok 0
  else
    inst_SSID ← vget (SSIT s) index;
    _ ← assert_ (inst_SSID <? LFSTSize s);
    valid ← vget (validLFST s) inst_SSID;
    if negb valid then Ok 0 else vget (LFST s) inst_SSID.

Definition issued (s : t) (issued_PC issued_seq_num : Z) (is_store : bool) : res t :=
  if negb is_store then Ok s
  else
    index ← calcIndex s issued_PC;
    _ ← assert_ (index <? SSITSize s);
    let s := with_storeList s (filter (λ p, p.1 ≠ issued_seq_num) (storeList s)) in
    valid ← vget (validSSIT s) index;
    if negb valid then Ok s
    else
      store_SSID ← vget (SSIT s) index;
      _ ← assert_ (store_SSID <? LFSTSize s);
      valid ← vget (validLFST s) store_SSID;
      last ← vget (LFST s) store_SSID;
      if valid && (last =? issued_seq_num) then
        b ← vset (validLFST s) store_SSID false;
        Ok (with_LFST s (LFST s) b)
      else Ok s.

(** The loop of [squash], over the part of [storeList] from the iterator on.  When the
    last store of the set is not younger than the squash, an iteration changes
    nothing and the loop goes on for ever. *)
Fixpoint squash_loop (squashed_num : Z) (lfst : list Z) (valid : list bool) (l : list (Z * Z)) :
    res (list bool * list (Z * Z)) :=
  match l with
  | [] => Ok (valid, [])
  | (sn, idx) :: l' =>
      if sn <=? squashed_num then Ok (valid, l)
      else
        last ← vget lfst idx;
        v ← vget valid idx;
        if squashed_num <? last then
          if (v : bool) then
            valid ← vset valid idx false;
            squash_loop squashed_num lfst valid l'
          else squash_loop squashed_num lfst valid l'
        else Err Diverges
  end.

Definition squash (s : t) (squashed_num tid : Z) : res t :=
  r ← squash_loop squashed_num (LFST s) (validLFST s) (storeList s);
  Ok (with_storeList (with_LFST s (LFST s) r.1) r.2).

(** ** Well-formedness *)
Definition params_ok (period ssit lfst : Z) : Prop :=
  0 ≤ period < 2 ^ 31 - 1 ∧ is_pow2 ssit ∧ ssit < 2 ^ 31 ∧ is_pow2 lfst ∧ lfst < 2 ^ 31.

Definition youngest_first (l : list (Z * Z)) : Prop := StronglySorted (λ p q, q.1 < p.1) l.

Record wf (s : t) : Prop := WF {
  w_ssit : vlen (SSIT s) = SSITSize s;
  w_vssit : vlen (validSSIT s) = SSITSize s;
  w_lfst : vlen (LFST s) = LFSTSize s;
  w_vlfst : vlen (validLFST s) = LFSTSize s;
  w_sizes : 0 < SSITSize s < 2 ^ 31 ∧ 0 < LFSTSize s < 2 ^ 31;
  w_mask : indexMask s = SSITSize s - 1;
  w_offset : offsetBits s = 2;
  w_ids : Forall (λ i, 0 ≤ i < LFSTSize s) (SSIT s);
  w_period : 0 ≤ memOpsPred s ≤ clearPeriod s ∧ clearPeriod s < 2 ^ 31 - 1;
  w_sorted : youngest_first (storeList s);
  (** stores were inserted in order: the last of a set is the youngest of it *)
  w_last : Forall (λ p, 0 ≤ p.2 < LFSTSize s ∧
             ∃ last, LFST s !! Z.to_nat p.2 = Some last ∧ p.1 ≤ last) (storeList s)
}.

Lemma create_wf period ssit lfst :
  params_ok period ssit lfst → returns (create period ssit lfst) wf.
Proof.
  intros (Hp & Hs & Hs31 & Hl & Hl31). unfold create.
  pose proof (is_pow2_pos _ Hs). pose proof (is_pow2_pos _ Hl).
  rewrite (proj2 (isPowerOf2_iff ssit ltac:(unfold is_u32; lia)) Hs).
  rewrite (proj2 (isPowerOf2_iff lfst ltac:(unfold is_u32; lia)) Hl). simpl.
  constructor; simpl; try done; try lia.
  - unfold resize. rewrite take_nil. unfold vlen. rewrite length_app, length_replicate. simpl. lia.
  - rewrite vlen_replicate; lia.
  - rewrite vlen_replicate; lia.
  - rewrite vlen_replicate; lia.
  - unfold resize. rewrite take_nil. simpl. apply Forall_replicate. lia.
  - constructor.
Qed.

(** ** Tables *)
Definition index (s : t) (PC : Z) : Z := Z.land (Z.shiftr PC 2) (SSITSize s - 1).

Lemma calcIndex_eq s PC : wf s → calcIndex s PC = Ok (index s PC).
Proof. intros H. unfold calcIndex. by rewrite (w_offset _ H), (w_mask _ H). Qed.

Lemma ssit_index_range s PC : wf s → 0 ≤ index s PC < SSITSize s.
Proof. intros H. apply land_size_bound. destruct (w_sizes _ H). lia. Qed.

Lemma calcSSID_range s PC : wf s → returns (calcSSID s PC) (λ i, 0 ≤ i < LFSTSize s).
Proof.
  intros H. destruct (w_sizes _ H) as [_ Hl]. unfold calcSSID, umod.
  destruct (Z.eqb_spec (LFSTSize s) 0); [lia|]. simpl.
  pose proof (Z.mod_pos_bound (Z.lxor PC (Z.shiftr PC 10)) (LFSTSize s) ltac:(lia)).
  rewrite u32_id by (unfold is_u32; lia). lia.
Qed.

(** The store set of an instruction. *)
Definition set_of (s : t) (PC : Z) : option Z :=
  v ← validSSIT s !! Z.to_nat (index s PC);
  if (v : bool) then SSIT s !! Z.to_nat (index s PC) else None.

Lemma ssid_range s PC i : wf s → set_of s PC = Some i → 0 ≤ i < LFSTSize s.
Proof.
  intros H E. unfold set_of in E. destruct (validSSIT s !! _) as [[]|]; simplify_eq/=.
  exact (Forall_lookup_1 _ _ _ _ (w_ids _ H) E).
Qed.

(** The entries [SSIT] and [validSSIT] hold for an instruction. *)
Lemma ssit_entry s PC :
  wf s → ∃ v i, vget (validSSIT s) (index s PC) = Ok v ∧ vget (SSIT s) (index s PC) = Ok i ∧
    0 ≤ i < LFSTSize s ∧ set_of s PC = if (v : bool) then Some i else None.
Proof.
  intros H. pose proof (ssit_index_range s PC H).
  destruct (vlookup_lt (validSSIT s) (index s PC)) as [v Hv]; [rewrite (w_vssit _ H); lia|].
  destruct (vlookup_lt (SSIT s) (index s PC)) as [i Hi]; [rewrite (w_ssit _ H); lia|].
  pose proof (Forall_lookup_1 _ _ _ _ (w_ids _ H) Hi) as Hr. simpl in Hr.
  exists v, i. rewrite !vget_Ok. split_and!; try done; try lia.
  unfold set_of. by rewrite Hv, Hi.
Qed.

Lemma lfst_entry s i :
  wf s → 0 ≤ i < LFSTSize s →
  ∃ v n, vget (validLFST s) i = Ok v ∧ vget (LFST s) i = Ok n ∧
    validLFST s !! Z.to_nat i = Some v ∧ LFST s !! Z.to_nat i = Some n.
Proof.
  intros H Hi.
  destruct (vlookup_lt (validLFST s) i) as [v Hv]; [by rewrite (w_vlfst _ H)|].
  destruct (vlookup_lt (LFST s) i) as [n Hn]; [by rewrite (w_lfst _ H)|].
  exists v, n. rewrite !vget_Ok. split_and!; done || lia.
Qed.

(** [checkInst] answers the last fetched store of the instruction's set, while that is
    valid. *)
Lemma checkInst_eq s PC :
  wf s →
  checkInst s PC = Ok (match set_of s PC with
                       | Some i => match validLFST s !! Z.to_nat i with
                                   | Some true => default 0 (LFST s !! Z.to_nat i)
                                   | _ => 0
                                   end
                       | None => 0
                       end).
Proof.
  intros H. unfold checkInst. rewrite (calcIndex_eq _ _ H). simpl.
  pose proof (ssit_index_range s PC H) as Hr. rewrite (proj2 (Z.ltb_lt _ _) (proj2 Hr)). simpl.
  destruct (ssit_entry s PC H) as (v & i & -> & Hi & Hir & ->). simpl.
  destruct v; simpl; [|done]. rewrite Hi. simpl. rewrite (proj2 (Z.ltb_lt _ _) (proj2 Hir)). simpl.
  destruct (lfst_entry s i H Hir) as (b & n & -> & Hn & -> & Hn'). simpl. rewrite Hn, Hn'.
  by destruct b.
Qed.

(** ** Preservation *)
Lemma with_SSIT_wf s v b :
  wf s → vlen v = SSITSize s → vlen b = SSITSize s → Forall (λ i, 0 ≤ i < LFSTSize s) v →
  wf (with_SSIT s v b).
Proof. intros [] ? ? ?. by constructor. Qed.

Lemma clear_wf s : wf s → wf (clear s).
Proof.
  intros []. constructor; simpl; try done.
  - unfold vlen in *. by rewrite length_replicate.
  - unfold vlen in *. by rewrite length_replicate.
  - constructor.
Qed.

Lemma checkClear_eq s :
  wf s → checkClear s = (if memOpsPred s =? clearPeriod s then clear (with_memOpsPred s 0)
                         else with_memOpsPred s (memOpsPred s + 1)).
Proof.
  intros H. destruct (w_period _ H) as [H1 H2]. unfold checkClear.
  rewrite i32_id by (unfold is_i32; lia). simpl. rewrite u64_id by (unfold is_u64; lia).
  destruct (Z.eqb_spec (memOpsPred s) (clearPeriod s)), (Z.ltb_spec (clearPeriod s) (memOpsPred s + 1));
    try done; lia.
Qed.

Lemma checkClear_wf s : wf s → wf (checkClear s).
Proof.
  intros H. rewrite checkClear_eq by done. destruct (Z.eqb_spec (memOpsPred s) (clearPeriod s)).
  - apply clear_wf. destruct H. constructor; simpl; try done. lia.
  - destruct H. constructor; simpl; try done. lia.
Qed.

Lemma checkClear_index s PC : index (checkClear s) PC = index s PC.
Proof. unfold checkClear. by destruct (_ <? _). Qed.

(** Writing store set [i] for the instruction [PC]. *)
Definition assign (s : t) (PC i : Z) : t :=
  with_SSIT s (<[Z.to_nat (index s PC) := i]> (SSIT s))
    (<[Z.to_nat (index s PC) := true]> (validSSIT s)).

Lemma assign_wf s PC i : wf s → 0 ≤ i < LFSTSize s → wf (assign s PC i).
Proof.
  intros H Hi. apply with_SSIT_wf; [done|by rewrite vlen_insert, (w_ssit _ H)|
    by rewrite vlen_insert, (w_vssit _ H)|].
  apply Forall_insert; [apply (w_ids _ H)|done].
Qed.

Lemma set_of_assign s PC i PC' :
  wf s →
  set_of (assign s PC i) PC' = if decide (index s PC' = index s PC) then Some i else set_of s PC'.
Proof.
  intros H. pose proof (ssit_index_range s PC H). pose proof (ssit_index_range s PC' H).
  unfold set_of, assign. change (index (with_SSIT _ _ _) PC') with (index s PC'). simpl.
  case_decide as Heq.
  - rewrite Heq. rewrite !vlookup_insert_eq by (rewrite ?(w_ssit _ H), ?(w_vssit _ H); lia). done.
  - rewrite !list_lookup_insert_ne by lia. done.
Qed.

(** Writing a store set for an instruction that has one already. *)
Lemma assign_valid s PC i :
  wf s → vget (validSSIT s) (index s PC) = Ok true →
  assign s PC i = with_SSIT s (<[Z.to_nat (index s PC) := i]> (SSIT s)) (validSSIT s).
Proof. intros H [_ Hv]%vget_Ok. unfold assign. by rewrite (list_insert_id (validSSIT s)). Qed.

(** [s'] is [s] with the load and the store in set [i]. *)
Definition joined (s s' : t) (store_PC load_PC i : Z) : Prop :=
  wf s' ∧ set_of s' load_PC = Some i ∧ set_of s' store_PC = Some i ∧
  (∀ PC, index s PC ≠ index s load_PC → index s PC ≠ index s store_PC →
         set_of s' PC = set_of s PC) ∧
  s' = with_SSIT s (SSIT s') (validSSIT s').

Lemma joined_store s store_PC load_PC i :
  wf s → 0 ≤ i < LFSTSize s → set_of s load_PC = Some i →
  joined s (assign s store_PC i) store_PC load_PC i.
Proof.
  intros H Hi Hl. split; [by apply assign_wf|]. rewrite !set_of_assign by done.
  split_and!; [by case_decide|by rewrite decide_True| |done].
  intros PC _ Hs. rewrite set_of_assign by done. by rewrite decide_False.
Qed.

Lemma joined_load s store_PC load_PC i :
  wf s → 0 ≤ i < LFSTSize s → set_of s store_PC = Some i →
  joined s (assign s load_PC i) store_PC load_PC i.
Proof.
  intros H Hi Hl. split; [by apply assign_wf|]. rewrite !set_of_assign by done.
  split_and!; [by rewrite decide_True|by case_decide| |done].
  intros PC Hs _. rewrite set_of_assign by done. by rewrite decide_False.
Qed.

Lemma joined_both s store_PC load_PC i :
  wf s → 0 ≤ i < LFSTSize s →
  joined s (assign (assign s load_PC i) store_PC i) store_PC load_PC i.
Proof.
  intros H Hi. pose proof (assign_wf s load_PC i H Hi) as H1.
  destruct (joined_store (assign s load_PC i) store_PC load_PC i H1 Hi) as (H2 & Hl & Hs & Ho & _).
  { rewrite set_of_assign by done. by rewrite decide_True. }
  split_and!; try done. intros PC Hpl Hps. rewrite Ho by done.
  rewrite set_of_assign by done. by rewrite decide_False.
Qed.

(** A violation puts both instructions into one set and touches no other index. *)
Lemma violation_spec s store_PC load_PC :
  wf s → returns (violation s store_PC load_PC) (λ s', ∃ i, joined s s' store_PC load_PC i).
Proof.
  intros H. unfold violation. rewrite !(calcIndex_eq _ _ H). simpl.
  pose proof (ssit_index_range s load_PC H) as Hl. pose proof (ssit_index_range s store_PC H) as Hs.
  rewrite (proj2 (Z.ltb_lt _ _) (proj2 Hl)), (proj2 (Z.ltb_lt _ _) (proj2 Hs)). simpl.
  destruct (ssit_entry s load_PC H) as (vl & il & Hvl & Hil & Hrl & Hsl).
  destruct (ssit_entry s store_PC H) as (vs & is_ & Hvs & His & Hrs & Hss).
  rewrite Hvl, Hvs. simpl.
  pose proof (w_vssit _ H) as Hv. pose proof (w_ssit _ H) as Hsz.
  destruct vl, vs; simpl.
  - rewrite Hil. simpl. rewrite His. simpl.
    rewrite (proj2 (Z.ltb_lt _ _) (proj2 Hrl)), (proj2 (Z.ltb_lt _ _) (proj2 Hrs)). simpl.
    destruct (il <? is_); rewrite vset_in by lia; simpl; rewrite <- assign_valid by done.
    + exists il. by apply joined_store.
    + exists is_. by apply joined_load.
  - rewrite Hil. simpl. rewrite vset_in by lia. simpl. rewrite vset_in by lia. simpl.
    rewrite (proj2 (Z.ltb_lt _ _) (proj2 Hrl)). simpl. exists il. by apply joined_store.
  - rewrite His. simpl. rewrite vset_in by lia. simpl. rewrite vset_in by lia. simpl.
    exists is_. by apply joined_load.
  - apply returns_bind. eapply returns_mono; [by apply calcSSID_range|]. intros n Hn. simpl.
    repeat (rewrite vset_in by (rewrite ?vlen_insert; lia); simpl).
    rewrite (proj2 (Z.ltb_lt _ _) (proj2 Hn)). simpl. exists n. by apply (joined_both s).
Qed.

(** ** Stores *)

(** Inserted in order: [sn] is younger than every store on the list. *)
Definition in_order (s : t) (sn : Z) : Prop := Forall (λ p, p.1 < sn) (storeList s).

Lemma list_put_front sn id l : Forall (λ p, p.1 < sn) l → list_put sn id l = (sn, id) :: l.
Proof.
  destruct l as [|[n i] l]; [done|]. intros Hl. apply Forall_inv in Hl. simpl in *.
  by rewrite (proj2 (Z.ltb_lt _ _) Hl).
Qed.

(** The state after a store of set [i] has been inserted. *)
Definition with_store (s : t) (sn i : Z) : t :=
  with_storeList (with_LFST s (<[Z.to_nat i := sn]> (LFST s)) (<[Z.to_nat i := true]> (validLFST s)))
    ((sn, i) :: storeList s).

Lemma with_store_wf s sn i :
  wf s → 0 ≤ i < LFSTSize s → in_order s sn → wf (with_store s sn i).
Proof.
  intros H Hi Ho. destruct H. constructor; simpl; try done; rewrite ?vlen_insert; try done.
  - by constructor.
  - unfold in_order in Ho. constructor; simpl.
    + split; [done|]. exists sn. split; [|lia]. apply vlookup_insert_eq. lia.
    + rewrite Forall_forall in Ho, w_last0 |- *. intros p Hp.
      destruct (w_last0 p Hp) as (Hr & last & Hl & Hle). split; [done|].
      destruct (decide (p.2 = i)) as [->|Hne].
      * exists sn. split; [apply vlookup_insert_eq; lia|]. pose proof (Ho p Hp). simpl in *. lia.
      * exists last. rewrite vlookup_insert_ne by lia. done.
Qed.

Lemma checkClear_in_order s sn : in_order s sn → in_order (checkClear s) sn.
Proof. unfold checkClear, in_order. by destruct (_ <? _). Qed.

Lemma insertStore_eq s PC sn tid :
  wf s → in_order s sn →
  insertStore s PC sn tid = Ok (match set_of (checkClear s) PC with
                                | Some i => with_store (checkClear s) sn i
                                | None => checkClear s
                                end).
Proof.
  intros H Ho. unfold insertStore. rewrite (calcIndex_eq _ _ H). simpl.
  pose proof (checkClear_wf s H) as H1. rewrite <- (checkClear_index s PC).
  apply checkClear_in_order in Ho. clear H. revert H1 Ho. generalize (checkClear s) as s1.
  intros s1 H1 Ho.
  pose proof (ssit_index_range _ PC H1) as Hr. rewrite (proj2 (Z.ltb_lt _ _) (proj2 Hr)). simpl.
  destruct (ssit_entry _ PC H1) as (v & i & -> & Hi & Hir & ->). simpl.
  destruct v; simpl; [|done]. rewrite Hi. simpl. rewrite (proj2 (Z.ltb_lt _ _) (proj2 Hir)). simpl.
  rewrite (vset_in (LFST s1)) by (rewrite (w_lfst _ H1); lia). simpl.
  rewrite (vset_in (validLFST s1)) by (rewrite (w_vlfst _ H1); lia). simpl. unfold with_store.
  by rewrite list_put_front.
Qed.

Lemma insertStore_wf s PC sn tid :
  wf s → in_order s sn → returns (insertStore s PC sn tid) wf.
Proof.
  intros H Ho. rewrite insertStore_eq by done. simpl. pose proof (checkClear_wf s H) as H1.
  destruct (set_of (checkClear s) PC) as [i|] eqn:Hi; [|done].
  apply with_store_wf; [done|by eapply ssid_range|by apply checkClear_in_order].
Qed.

Lemma StronglySorted_filter' (P : Z * Z → Prop) `{∀ x, Decision (P x)} l :
  youngest_first l → youngest_first (filter P l).
Proof. apply StronglySorted_filter. Qed.

Lemma with_list_wf s P `{∀ x : Z * Z, Decision (P x)} :
  wf s → wf (with_storeList s (filter P (storeList s))).
Proof.
  intros []. constructor; simpl; try done; [by apply StronglySorted_filter'|].
  apply Forall_forall. intros p [_ Hp]%list_elem_of_filter.
  rewrite Forall_forall in w_last0. by apply w_last0.
Qed.

Lemma with_valid_wf s b : wf s → vlen b = LFSTSize s → wf (with_LFST s (LFST s) b).
Proof. intros [] ?. by constructor. Qed.

(** The store that has issued is no longer waited for at its own address. *)
Lemma issued_spec s PC sn :
  wf s → returns (issued s PC sn true) (λ s', wf s' ∧
    storeList s' = filter (λ p : Z * Z, p.1 ≠ sn) (storeList s) ∧
    (∀ PC', set_of s' PC' = set_of s PC') ∧ LFST s' = LFST s ∧
    validLFST s' = match set_of s PC with
                   | Some i => if decide (LFST s !! Z.to_nat i = Some sn)
                               then <[Z.to_nat i := false]> (validLFST s) else validLFST s
                   | None => validLFST s
                   end ∧
    s' = with_storeList (with_LFST s (LFST s') (validLFST s')) (storeList s')).
Proof.
  intros H. unfold issued. cbn [negb]. rewrite (calcIndex_eq _ _ H). cbn [mbind res_bind].
  pose proof (ssit_index_range s PC H) as Hr. rewrite (proj2 (Z.ltb_lt _ _) (proj2 Hr)). cbn [assert_ mbind res_bind].
  pose proof (with_list_wf s (λ p, p.1 ≠ sn) H) as H1. set (s1 := with_storeList _ _) in *.
  change (validSSIT s1) with (validSSIT s). change (SSIT s1) with (SSIT s).
  change (LFST s1) with (LFST s). change (validLFST s1) with (validLFST s). change (LFSTSize s1) with (LFSTSize s).
  destruct (ssit_entry s PC H) as (v & i & -> & -> & Hir & ->). cbn [mbind res_bind].
  destruct v; [|done]. cbn [negb]. rewrite (proj2 (Z.ltb_lt _ _) (proj2 Hir)). cbn [assert_ mbind res_bind].
  destruct (lfst_entry s i H Hir) as (b & n & -> & -> & Hb & Hn). cbn [mbind res_bind]. rewrite Hn.
  destruct (Z.eqb_spec n sn) as [->|Hne].
  - rewrite decide_True by done. destruct b; simpl.
    + rewrite vset_in by (rewrite (w_vlfst _ H); lia). simpl. split_and!; try done.
      refine (with_valid_wf s1 _ H1 _). by rewrite vlen_insert, (w_vlfst _ H).
    + rewrite list_insert_id by done. done.
  - rewrite andb_false_r, decide_False by naive_solver. done.
Qed.

(** ** Squashing *)
Definition kill (valid : list bool) (l : list (Z * Z)) : list bool :=
  foldl (λ v p, <[Z.to_nat p.2 := false]> v) valid l.

Lemma kill_lookup valid l i :
  kill valid l !! i = if decide (i ∈ (λ p : Z * Z, Z.to_nat p.2) <$> l)
                      then (λ _, false) <$> valid !! i else valid !! i.
Proof.
  revert valid. induction l as [|p l IH]; intros valid; [done|].
  change (kill valid (p :: l)) with (kill (<[Z.to_nat p.2 := false]> valid) l).
  rewrite IH, fmap_cons. destruct (decide (i = Z.to_nat p.2)) as [->|Hne].
  - rewrite (decide_True (P := _ ∈ _ :: _)) by (by left).
    destruct (valid !! Z.to_nat p.2) as [b|] eqn:Hb.
    + rewrite list_lookup_insert_eq by (by eapply lookup_lt_Some). by case_decide.
    + rewrite (list_insert_ge valid) by (by apply lookup_ge_None). rewrite Hb. by case_decide.
  - rewrite list_lookup_insert_ne by done. destruct (decide (i ∈ _ <$> l)) as [Hin|Hin].
    + by rewrite decide_True by (by right).
    + rewrite decide_False; [done|]. rewrite elem_of_cons. naive_solver.
Qed.

Lemma vlen_kill valid l : vlen (kill valid l) = vlen valid.
Proof.
  revert valid. induction l as [|p l IH]; intros valid; [done|].
  unfold kill in *. simpl. by rewrite IH, vlen_insert.
Qed.

(** The younger stores go, and their sets lose their last fetched store. *)
Lemma squash_loop_spec n lfst l valid :
  youngest_first l →
  Forall (λ p, 0 ≤ p.2 < vlen lfst ∧ ∃ last, lfst !! Z.to_nat p.2 = Some last ∧ p.1 ≤ last) l →
  vlen valid = vlen lfst →
  squash_loop n lfst valid l =
    Ok (kill valid (filter (λ p, n < p.1) l), filter (λ p, p.1 ≤ n) l).
Proof.
  intros Hs Hl. revert valid. induction l as [|[sn id] l IH]; intros valid Hv; [done|].
  cbn [squash_loop]. apply Forall_cons in Hl as [[Hr (last & Hlast & Hle)] Hl].
  simpl in Hr, Hlast, Hle. inversion Hs as [|?? Hs' Hmax]; simplify_eq.
  rewrite !filter_cons. destruct (Z.leb_spec sn n) as [Hn|Hn].
  - rewrite decide_False, decide_True by (simpl; lia).
    rewrite filter_none, filter_all by (eapply Forall_impl; [exact Hmax|]; simpl; lia). done.
  - rewrite decide_True, decide_False by (simpl; lia).
    rewrite (vget_in lfst id last) by (try done; lia). cbn [mbind res_bind].
    destruct (vlookup_lt valid id) as [v Hvid]; [lia|].
    rewrite (vget_in valid id v) by (try done; lia). cbn [mbind res_bind].
    rewrite (proj2 (Z.ltb_lt n last)) by lia.
    change (kill valid ((sn, id) :: ?l)) with (kill (<[Z.to_nat id := false]> valid) l). destruct v.
    + rewrite vset_in by lia. cbn [mbind res_bind]. by rewrite IH by (try done; by rewrite vlen_insert).
    + by rewrite IH, list_insert_id.
Qed.

Lemma squash_eq s n tid :
  wf s → squash s n tid =
    Ok (with_storeList (with_LFST s (LFST s) (kill (validLFST s) (filter (λ p, n < p.1) (storeList s))))
          (filter (λ p, p.1 ≤ n) (storeList s))).
Proof.
  intros H. unfold squash. rewrite squash_loop_spec; [done|apply H| |].
  - rewrite (w_lfst _ H). apply H.
  - by rewrite (w_lfst _ H), (w_vlfst _ H).
Qed.

Lemma squash_wf s n tid : wf s → returns (squash s n tid) wf.
Proof.
  intros H. rewrite squash_eq by done. simpl.
  apply (with_list_wf (with_LFST s (LFST s) _)), with_valid_wf; [done|].
  by rewrite vlen_kill, (w_vlfst _ H).
Qed.

(** ** Runs *)
Inductive call :=
| Violation (store_PC load_PC : Z)
| InsertLoad (load_PC sn : Z)
| InsertStore (store_PC sn tid : Z)
| Issued (PC sn : Z) (is_store : bool)
| Squash (n tid : Z)
| Clear.

Definition run_call (c : call) (s : t) : res t :=
  match c with
  | Violation p l => violation s p l
  | InsertLoad p n => Ok (insertLoad s p n)
  | InsertStore p n tid => insertStore s p n tid
  | Issued p n b => issued s p n b
  | Squash n tid => squash s n tid
  | Clear => Ok (clear s)
  end.

Fixpoint run (cs : list call) (s : t) : res t :=
  match cs with
  | [] => Ok s
  | c :: cs => s ← run_call c s; run cs s
  end.

(** The sequence numbers of the inserted stores. *)
Definition inserted (cs : list call) : list Z :=
  omap (λ c, match c with InsertStore _ n _ => Some n | _ => None end) cs.

Lemma in_order_filter s (P : Z * Z → Prop) `{∀ x, Decision (P x)} m :
  in_order s m → Forall (λ p, p.1 < m) (filter P (storeList s)).
Proof.
  intros Ho. apply Forall_forall. intros p [_ Hp]%list_elem_of_filter.
  unfold in_order in Ho. rewrite Forall_forall in Ho. by apply Ho.
Qed.

Lemma call_wf c s :
  wf s → (∀ p n tid, c = InsertStore p n tid → in_order s n) →
  returns (run_call c s) (λ s', wf s' ∧ ∀ m, in_order s m →
    (∀ p n tid, c = InsertStore p n tid → n < m) → in_order s' m).
Proof.
  intros H Hc. destruct c as [p l|p n|p n tid|p n b|n tid|]; simpl.
  - eapply returns_mono; [by apply violation_spec|]. intros s' (i & Hw & _ & _ & _ & Heq).
    split; [done|]. intros m Hm _. rewrite Heq. exact Hm.
  - split; [by apply checkClear_wf|]. intros m Hm _. by apply checkClear_in_order.
  - specialize (Hc _ _ _ eq_refl). apply returns_and; [by apply insertStore_wf|].
    rewrite insertStore_eq by done. simpl. intros m Hm Hn. apply checkClear_in_order in Hm.
    destruct (set_of (checkClear s) p); [|done]. constructor; [by eapply Hn|done].
  - destruct b; [|done]. eapply returns_mono; [by apply issued_spec|].
    intros s' (Hw & Hl & _). split; [done|]. intros m Hm _. unfold in_order. rewrite Hl.
    by apply in_order_filter.
  - apply returns_and; [by apply squash_wf|]. rewrite squash_eq by done. simpl. intros m Hm _.
    by apply in_order_filter.
  - split; [by apply clear_wf|]. intros m _ _. constructor.
Qed.

(** The stores of [cs] arrive in program order. *)
Definition ordered (cs : list call) (s : t) : Prop :=
  StronglySorted Z.lt (inserted cs) ∧ Forall (in_order s) (inserted cs).

Lemma ordered_step c cs s :
  wf s → ordered (c :: cs) s → returns (run_call c s) (λ s', wf s' ∧ ordered cs s').
Proof.
  intros H [Hs Ho]. eapply returns_mono; [apply (call_wf c s H)|].
  - intros p n tid ->. cbn in Ho. by apply Forall_inv in Ho.
  - intros s' [Hw Hkeep]. split; [done|]. split.
    + destruct c; cbn in Hs; try done. by inversion Hs.
    + destruct c as [| |p n tid| | |]; cbn in Hs, Ho.
      3: { inversion Hs as [|?? _ Hlt]; simplify_eq. apply Forall_cons in Ho as [_ Ho].
           rewrite Forall_forall in Ho, Hlt |- *. intros m Hm. apply Hkeep; [by apply Ho|].
           intros ??? [= <- <- <-]. by apply Hlt. }
      all: eapply Forall_impl; [exact Ho|]; intros m Hm; apply Hkeep; [done|by intros].
Qed.

Lemma run_wf cs s :
  wf s → StronglySorted Z.lt (inserted cs) → Forall (in_order s) (inserted cs) →
  returns (run cs s) wf.
Proof.
  revert s. induction cs as [|c cs IH]; intros s H Hs Ho; [done|]. cbn [run].
  apply returns_bind. eapply returns_mono; [by apply (ordered_step c cs s H)|].
  intros s' [Hw []]. by apply IH.
Qed.

Lemma run_app cs1 cs2 s : run (cs1 ++ cs2) s = (s' ← run cs1 s; run cs2 s').
Proof.
  revert s. induction cs1 as [|c cs1 IH]; intros s; [done|]. cbn. destruct (run_call c s); [apply IH|done].
Qed.

(** [P] holds of every call of a run in the state it is made in. *)
Fixpoint along (P : call → t → Prop) (cs : list call) (s : t) : Prop :=
  match cs with
  | [] => True
  | c :: cs => P c s ∧ ∀ s', run_call c s = Ok s' → along P cs s'
  end.

(** The calls that [checkClear] counts. *)
Definition counts (c : call) : Z :=
  match c with InsertLoad _ _ | InsertStore _ _ _ => 1 | _ => 0 end.
Definition counted (cs : list call) : Z := foldr (λ c n, counts c + n) 0 cs.

Lemma counted_nonneg cs : 0 ≤ counted cs.
Proof. induction cs as [|[] cs IH]; simpl in *; lia. Qed.

Lemma counted_app cs1 cs2 : counted (cs1 ++ cs2) = counted cs1 + counted cs2.
Proof. induction cs1 as [|c cs1 IH]; simpl; [done|]. rewrite IH. lia. Qed.

(** ** What a violation teaches *)
Section pair.
Context (store_PC load_PC sn : Z).

(** The call leaves the two instructions in their common set. *)
Definition keeps_pair (c : call) (s : t) : Prop :=
  match c with
  | Violation p l => ∀ PC, PC = load_PC ∨ PC = store_PC → index s PC ≠ index s p ∧ index s PC ≠ index s l
  | Clear => False
  | _ => True
  end.

(** The call neither issues nor squashes the store [sn], and inserts no store of the
    set. *)
Definition keeps_last (c : call) (s : t) : Prop :=
  keeps_pair c s ∧
  match c with
  | InsertStore p _ _ => set_of s p ≠ set_of s load_PC
  | Issued _ n is_store => is_store = true → n ≠ sn
  | Squash n _ => sn ≤ n
  | _ => True
  end.

Definition paired (i : Z) (s : t) : Prop :=
  set_of s load_PC = Some i ∧ set_of s store_PC = Some i.

Definition pending (i : Z) (s : t) : Prop :=
  paired i s ∧ validLFST s !! Z.to_nat i = Some true ∧ LFST s !! Z.to_nat i = Some sn.

Lemma checkClear_counts s :
  wf s → memOpsPred s < clearPeriod s → checkClear s = with_memOpsPred s (memOpsPred s + 1).
Proof. intros H Hlt. rewrite checkClear_eq by done. by rewrite (proj2 (Z.eqb_neq _ _)) by lia. Qed.

(** The room that is left before the tables are cleared. *)
Lemma call_pair c s i :
  wf s → (∀ p n tid, c = InsertStore p n tid → in_order s n) →
  paired i s → keeps_pair c s → memOpsPred s + counts c ≤ clearPeriod s →
  returns (run_call c s) (λ s', paired i s' ∧ memOpsPred s' = memOpsPred s + counts c ∧
    clearPeriod s' = clearPeriod s).
Proof.
  intros H Hc [Hl Hs] Hk Hm. destruct c as [p l|p n|p n tid|p n b|n tid|]; simpl in Hm |- *; [..|done].
  - eapply returns_mono; [by apply violation_spec|]. intros s' (j & Hw & _ & _ & Ho & Heq).
    pose proof (Hk load_PC (or_introl eq_refl)) as []. pose proof (Hk store_PC (or_intror eq_refl)) as [].
    unfold paired. rewrite !Ho by done. split; [done|]. rewrite Heq. simpl. lia.
  - unfold insertLoad. rewrite checkClear_counts by (done || lia). done.
  - rewrite insertStore_eq by eauto. rewrite checkClear_counts by (done || lia). simpl.
    by destruct (set_of _ p).
  - destruct b; [|simpl; split_and!; done || lia]. eapply returns_mono; [by apply issued_spec|].
    intros s' (_ & _ & Hset & _ & _ & Heq). unfold paired. rewrite !Hset. rewrite Heq. simpl. split_and!; done || lia.
  - rewrite squash_eq by done. simpl. split_and!; done || lia.
Qed.

Lemma squash_keeps s i n :
  wf s → 0 ≤ i → LFST s !! Z.to_nat i = Some sn → sn ≤ n →
  kill (validLFST s) (filter (λ p, n < p.1) (storeList s)) !! Z.to_nat i = validLFST s !! Z.to_nat i.
Proof.
  intros H Hi Hl Hn. rewrite kill_lookup. rewrite decide_False; [done|].
  intros (p & Hpi & [Hlt Hp]%list_elem_of_filter)%list_elem_of_fmap.
  pose proof (w_last _ H) as Hw. rewrite Forall_forall in Hw.
  destruct (Hw p Hp) as (Hr & last & Hlast & Hle). rewrite <- Hpi, Hl in Hlast. simplify_eq. lia.
Qed.

Lemma call_pending c s i :
  wf s → (∀ p n tid, c = InsertStore p n tid → in_order s n) →
  pending i s → keeps_last c s → memOpsPred s + counts c ≤ clearPeriod s →
  returns (run_call c s) (λ s', pending i s').
Proof.
  intros H Hc (Hp & Hv & Hn) [Hk Hlast] Hm. pose proof (call_pair c s i H Hc Hp Hk Hm) as Hpair.
  pose proof (ssid_range _ _ _ H (proj1 Hp)) as Hir.
  unfold pending. eapply returns_mono;
    [apply (returns_and _ _ (λ s', validLFST s' !! Z.to_nat i = Some true ∧ LFST s' !! Z.to_nat i = Some sn) Hpair)
    |by intros s' [(? & _) ?]]. destruct c as [p l|p n|p n tid|p n b|n tid|]; simpl in Hm |- *; [..|done].
  - eapply returns_mono; [by apply violation_spec|]. intros s' (j & _ & _ & _ & _ & ->). done.
  - unfold insertLoad. rewrite checkClear_counts by (done || lia). done.
  - rewrite insertStore_eq by eauto. rewrite checkClear_counts by (done || lia). simpl.
    change (set_of (with_memOpsPred _ _) p) with (set_of s p). destruct (set_of s p) as [j|] eqn:Hj; [|done].
    pose proof (ssid_range _ _ _ H Hj). simpl in Hlast. rewrite (proj1 Hp) in Hlast.
    simpl. rewrite !list_lookup_insert_ne; [done|..]; intros He; apply Hlast; rewrite <- Hj, Hj; f_equal; lia.
  - destruct b; [|done]. eapply returns_mono; [by apply issued_spec|].
    intros s' (_ & _ & _ & -> & -> & _). split; [|done]. destruct (set_of s p) as [j|] eqn:Hj; [|done].
    case_decide as Hd; [|done]. rewrite list_lookup_insert_ne; [done|].
    intros He. rewrite He, Hn in Hd. simplify_eq. by apply Hlast.
  - rewrite squash_eq by done. simpl. split; [|done]. rewrite squash_keeps; (done || lia).
Qed.

Lemma first_in_order c cs s : ordered (c :: cs) s → ∀ p n tid, c = InsertStore p n tid → in_order s n.
Proof. intros [_ Ho] p n tid ->. cbn in Ho. by apply Forall_inv in Ho. Qed.

Lemma run_pair cs cs' s i :
  wf s → ordered (cs ++ cs') s → paired i s → along keeps_pair cs s →
  memOpsPred s + counted cs ≤ clearPeriod s →
  returns (run cs s) (λ s', wf s' ∧ ordered cs' s' ∧ paired i s' ∧
    memOpsPred s' = memOpsPred s + counted cs ∧ clearPeriod s' = clearPeriod s).
Proof.
  revert s. induction cs as [|c cs IH]; intros s H Ho Hp Hk Hm; [simpl in *; split_and!; done || lia|].
  destruct Hk as [Hk Hks]. cbn [run counted foldr app] in *. fold (counted cs) in *.
  pose proof (counted_nonneg cs). pose proof (ordered_step _ _ _ H Ho) as Hstep.
  pose proof (call_pair c s i H (first_in_order _ _ _ Ho) Hp Hk ltac:(lia)) as Hpair.
  destruct (run_call c s) as [s1|] eqn:Hr; [|done]. destruct Hstep as [Hw1 Ho1]. destruct Hpair as (Hp1 & Hm1 & Hc1).
  simpl. eapply returns_mono; [apply IH; try done; [by apply Hks|lia]|].
  intros s' (? & ? & ? & ? & ?). split_and!; try done; [lia|congruence].
Qed.

Lemma run_pending cs s i :
  wf s → ordered cs s → pending i s → along keeps_last cs s →
  memOpsPred s + counted cs ≤ clearPeriod s →
  returns (run cs s) (λ s', wf s' ∧ pending i s').
Proof.
  revert s. induction cs as [|c cs IH]; intros s H Ho Hp Hk Hm; [done|].
  destruct Hk as [Hk Hks]. cbn [run counted foldr] in *. fold (counted cs) in *.
  pose proof (counted_nonneg cs). pose proof (ordered_step _ _ _ H Ho) as Hstep.
  pose proof (call_pair c s i H (first_in_order _ _ _ Ho) (proj1 Hp) (proj1 Hk) ltac:(lia)) as Hpair.
  pose proof (call_pending c s i H (first_in_order _ _ _ Ho) Hp Hk ltac:(lia)) as Hpend.
  destruct (run_call c s) as [s1|] eqn:Hr; [|done]. destruct Hstep as [Hw1 Ho1]. destruct Hpair as (_ & Hm1 & Hc1).
  simpl. apply IH; try done; [by apply Hks|lia].
Qed.

(** The insertion of the store makes it the one the set waits for. *)
Lemma insert_pending s i tid :
  wf s → in_order s sn → paired i s → memOpsPred s < clearPeriod s →
  returns (insertStore s store_PC sn tid) (λ s', pending i s').
Proof.
  intros H Ho Hp Hm. rewrite insertStore_eq by done.
  pose proof (checkClear_wf s H) as Hc. rewrite checkClear_counts in * by done. simpl.
  change (set_of (with_memOpsPred _ _) store_PC) with (set_of s store_PC).
  pose proof Hp as [Hl ->]. pose proof (ssid_range _ _ _ H Hl) as Hir.
  split; [exact Hp|]. split; apply vlookup_insert_eq; simpl; [rewrite (w_vlfst _ H)|rewrite (w_lfst _ H)]; lia.
Qed.

Lemma pending_check s i PC :
  wf s → pending i s → PC = load_PC ∨ PC = store_PC → checkInst s PC = Ok sn.
Proof.
  intros H ([Hl Hs] & Hv & Hn) HPC. rewrite checkInst_eq by done.
  destruct HPC as [->| ->]; [rewrite Hl|rewrite Hs]; by rewrite Hv, Hn.
Qed.

Lemma pending_issued s i :
  wf s → pending i s →
  returns (issued s store_PC sn true) (λ s', checkInst s' load_PC = Ok 0).
Proof.
  intros H ([Hl Hs] & Hv & Hn). eapply returns_mono; [by apply issued_spec|].
  intros s' (Hw & _ & Hset & _ & Hval & _). rewrite checkInst_eq, Hset, Hl by done.
  rewrite Hs, Hn, decide_True in Hval by done. rewrite Hval, vlookup_insert_eq; [done|].
  pose proof (ssid_range _ _ _ H Hl). rewrite (w_vlfst _ H). lia.
Qed.
End pair.

(** ** Theorems *)

(** With stores inserted in program order, every sequence of calls on a store set
    predictor built with valid sizes returns, its loops included, and keeps the
    tables consistent. *)
Theorem storeset_safety period ssit lfst cs :
  params_ok period ssit lfst → StronglySorted Z.lt (inserted cs) →
  ∃ s0 s, create period ssit lfst = Ok s0 ∧ run cs s0 = Ok s ∧ wf s.
Proof.
  intros Hp Hs. pose proof (create_wf _ _ _ Hp) as Hc. apply returns_iff in Hc as (s0 & Hc & Hw).
  exists s0. assert (storeList s0 = []) as Hnil.
  { unfold create in Hc. res_inv. done. }
  pose proof (run_wf cs s0 Hw Hs) as Hr. apply returns_iff in Hr as (s & Hr & Hws); [by exists s|].
  apply Forall_forall. intros m _. unfold in_order. rewrite Hnil. constructor.
Qed.

(** C14: after a violation the load waits for the store.  Take any calls [cs1] after the
    violation, then the insertion of an instance [sn] of the store, then any calls
    [cs2], under these conditions: stores arrive in program order; fewer memory
    operations follow than are left before the periodic clearing of the tables, and
    nothing else clears them; no other violation at the indices of the two
    instructions moves them to another set; and [cs2] inserts no younger store of the
    same set and neither issues nor squashes [sn].  All calls return, [sn] is the
    answer for the load and for the store, and once [sn] has issued the load waits for
    nothing. *)
Theorem storeset_learns s store_PC load_PC :
  wf s →
  ∃ s1, violation s store_PC load_PC = Ok s1 ∧
  ∀ cs1 sn tid cs2,
    let cs := cs1 ++ InsertStore store_PC sn tid :: cs2 in
    ordered cs s1 → memOpsPred s1 + counted cs ≤ clearPeriod s1 →
    along (keeps_pair store_PC load_PC) cs1 s1 →
    (∀ s2, run (cs1 ++ [InsertStore store_PC sn tid]) s1 = Ok s2 →
           along (keeps_last store_PC load_PC sn) cs2 s2) →
    ∃ s2 s3, run cs s1 = Ok s2 ∧ checkInst s2 load_PC = Ok sn ∧ checkInst s2 store_PC = Ok sn ∧
      issued s2 store_PC sn true = Ok s3 ∧ checkInst s3 load_PC = Ok 0.
Proof.
  intros H. pose proof (violation_spec s store_PC load_PC H) as Hv.
  apply returns_iff in Hv as (s1 & Hv & i & Hw1 & Hl & Hst & _). exists s1. split; [done|].
  intros cs1 sn tid cs2 cs Ho Hm Hk1 Hk2. unfold cs in *. rewrite counted_app in Hm. cbn in Hm. fold (counted cs2) in Hm.
  pose proof (counted_nonneg cs1). pose proof (counted_nonneg cs2).
  pose proof (run_pair store_PC load_PC cs1 _ s1 i Hw1 Ho (conj Hl Hst) Hk1 ltac:(lia)) as Hr1.
  apply returns_iff in Hr1 as (u & Hr1 & Hwu & Hou & Hpu & Hmu & Hcu).
  pose proof (first_in_order _ _ _ Hou _ _ _ eq_refl) as Hsn.
  pose proof (ordered_step _ _ _ Hwu Hou) as Hs. pose proof (insert_pending _ _ _ _ i tid Hwu Hsn Hpu ltac:(lia)) as Hi.
  pose proof (call_pair store_PC load_PC (InsertStore store_PC sn tid) u i Hwu
    (first_in_order _ _ _ Hou) Hpu I ltac:(simpl; lia)) as Hp. simpl in Hs, Hp.
  destruct (insertStore u store_PC sn tid) as [v|] eqn:Hins; [|done].
  destruct Hs as [Hwv Hov], Hp as (_ & Hmv & Hcv).
  pose proof (run_pending store_PC load_PC sn cs2 v i Hwv Hov Hi) as Hr2.
  apply returns_iff in Hr2 as (s2 & Hr2 & Hw2 & Hp2); [| |lia].
  2: { apply Hk2. rewrite run_app, Hr1. simpl. by rewrite Hins. }
  pose proof (pending_issued _ _ _ _ _ Hw2 Hp2) as Hiss. apply returns_iff in Hiss as (s3 & Hiss & H3).
  exists s2, s3. split_and!; try done.
  - rewrite run_app, Hr1. simpl. rewrite Hins. done.
  - eapply pending_check; eauto.
  - eapply pending_check; eauto.
Qed.

(** [squash] ends when stores were inserted in program order: it drops exactly the
    younger stores. An instruction whose set has lost a store waits for nothing; for
    any other the answer is unchanged. *)
Theorem storeset_squash s n tid :
  wf s →
  ∃ s', squash s n tid = Ok s' ∧ wf s' ∧ storeList s' = filter (λ p, p.1 ≤ n) (storeList s) ∧
    ∀ PC, checkInst s' PC =
      if decide (Exists (λ p, n < p.1 ∧ set_of s PC = Some p.2) (storeList s)) then Ok 0
      else checkInst s PC.
Proof.
  intros H. eexists. split; [by apply squash_eq|].
  pose proof (squash_wf s n tid H) as Hw. rewrite squash_eq in Hw by done. simpl in Hw.
  set (s' := with_storeList _ _) in *. split_and!; [done..|]. intros PC.
  rewrite (checkInst_eq s' PC Hw), (checkInst_eq s PC H). change (set_of s' PC) with (set_of s PC).
  change (LFST s') with (LFST s).
  change (validLFST s') with (kill (validLFST s) (filter (λ p, n < p.1) (storeList s))).
  destruct (set_of s PC) as [i|] eqn:Hi.
  2: { by case_decide. }
  rewrite kill_lookup. destruct (decide (Exists _ (storeList s))) as [He|He].
  - rewrite decide_True; [by destruct (validLFST s !! Z.to_nat i)|].
    apply Exists_exists in He as (p & Hp & Hn & [= ->]). apply list_elem_of_fmap.
    exists p. by rewrite list_elem_of_filter.
  - rewrite decide_False; [done|]. intros (p & Hpi & [Hn Hp]%list_elem_of_filter)%list_elem_of_fmap.
    apply He, Exists_exists. exists p. split_and!; [done..|]. f_equal.
    pose proof (ssid_range _ _ _ H Hi). pose proof (w_last _ H) as Hl. rewrite Forall_forall in Hl.
    destruct (Hl p Hp) as [? _]. lia.
Qed.

(** [squash] never returns if the youngest store on the list is to be squashed but
    the last store of its set is not: its loop then neither removes an entry nor
    leaves. Stores of two threads that reach the predictor out of order of their
    sequence numbers bring this about. *)
Theorem storeset_squash_hangs s n tid sn i l last valid :
  storeList s = (sn, i) :: l → n < sn → vget (LFST s) i = Ok last →
  vget (validLFST s) i = Ok valid → last ≤ n →
  squash s n tid = Err Diverges.
Proof.
  intros Hl Hn Hlast Hv Hle. unfold squash. rewrite Hl. cbn [squash_loop].
  destruct (Z.leb_spec sn n); [lia|]. rewrite Hlast. cbn [mbind res_bind]. rewrite Hv. cbn [mbind res_bind].
  by destruct (Z.ltb_spec n last); [lia|].
Qed.

(** ** Examples *)
Lemma demo_params : params_ok 100 16 8.
Proof. split_and!; try lia; [by exists 4|by exists 3]. Qed.

Definition run_from (cs : list call) : t :=
  match (s ← create 100 16 8; run cs s) with
  | Ok s => s
  | Err _ => mk [] [] [] [] [] 0 0 0 0 0 0
  end.

(** A load at 64 was found to depend on a store at 128, and the store is inserted. *)
Definition demo_calls : list call := [Violation 128 64; InsertStore 128 10 0].

Lemma demo_wf : wf (run_from demo_calls).
Proof.
  pose proof (create_wf _ _ _ demo_params) as Hc. apply returns_iff in Hc as (s0 & Hc & Hw).
  unfold run_from. rewrite Hc. cbn [mbind res_bind].
  assert (storeList s0 = []) as Hnil by (unfold create in Hc; res_inv; done).
  pose proof (run_wf demo_calls s0 Hw) as Hr. apply returns_iff in Hr as (s & -> & Hws); [done| |].
  - repeat constructor.
  - repeat constructor. unfold in_order. rewrite Hnil. constructor.
Qed.

Lemma storeset_safety_witness :
  ∃ s0 s, create 100 16 8 = Ok s0 ∧ run demo_calls s0 = Ok s ∧ wf s.
Proof. apply (storeset_safety 100 16 8 demo_calls demo_params). repeat constructor. Defined.

(** Other stores and loads come and go between the violation, the insertion of the
    store 20 and its issue. *)
Definition before_calls : list call := [InsertLoad 64 18; InsertStore 4 19 0; Squash 18 0].
Definition after_calls : list call :=
  [InsertLoad 64 21; InsertStore 4 22 0; Issued 4 22 true; Violation 4 8; Squash 20 0].

Lemma storeset_learns_witness :
  ∃ s1 s2, violation (run_from demo_calls) 256 64 = Ok s1 ∧
    run (before_calls ++ InsertStore 256 20 0 :: after_calls) s1 = Ok s2 ∧ checkInst s2 64 = Ok 20.
Proof.
  destruct (storeset_learns (run_from demo_calls) 256 64 demo_wf) as (s1 & H1 & H2).
  exists s1. vm_compute in H1. injection H1 as <-.
  destruct (H2 before_calls 20 0 after_calls) as (s2 & s3 & H3 & H4 & _).
  - split; repeat constructor.
  - vm_compute. discriminate.
  - repeat (split; [exact I|]; intros ? [= <-]). exact I.
  - intros s2 Hs2. vm_compute in Hs2. injection Hs2 as <-.
    split; [split; exact I|]. intros ? Hs2. vm_compute in Hs2. injection Hs2 as <-.
    split; [split; [exact I|vm_compute; discriminate]|]. intros ? Hs2. vm_compute in Hs2. injection Hs2 as <-.
    split; [split; [exact I|simpl; lia]|]. intros ? Hs2. vm_compute in Hs2. injection Hs2 as <-.
    split; [split; [|exact I]|].
    { intros PC [->| ->]; vm_compute; split; discriminate. }
    intros ? Hs2. vm_compute in Hs2. injection Hs2 as <-.
    split; [split; [exact I|simpl; lia]|]. intros ? _. exact I.
  - exists s2. split; [vm_compute; reflexivity|]. split; [exact H3|exact H4].
Defined.

(** The condition on the clearing is needed: a violation when the next operation clears
    the tables teaches nothing. *)
Example cleared_before_learning :
  ∃ s1 s2, violation (with_memOpsPred (run_from demo_calls) 100) 256 64 = Ok s1 ∧
    insertStore s1 256 20 0 = Ok s2 ∧ checkInst s2 64 = Ok 0.
Proof.
  do 2 eexists. split; [vm_compute; reflexivity|]. split; vm_compute; reflexivity.
Qed.

Lemma storeset_squash_witness :
  checkInst (run_from demo_calls) 64 = Ok 10 ∧
  ∃ s', squash (run_from demo_calls) 9 0 = Ok s' ∧ storeList s' = [] ∧ checkInst s' 64 = Ok 0.
Proof.
  split; [vm_compute; reflexivity|].
  destruct (storeset_squash (run_from demo_calls) 9 0 demo_wf) as (s' & H1 & _ & H3 & H4).
  exists s'. split; [exact H1|]. split; [rewrite H3; vm_compute; reflexivity|].
  rewrite H4. vm_compute. reflexivity.
Defined.

(** The store 12 of one thread, then the store 10 of another, in one set. *)
Definition crossed : t := run_from [Violation 128 64; InsertStore 128 12 1; InsertStore 128 10 0].

Lemma storeset_squash_hangs_witness : squash crossed 11 1 = Err Diverges.
Proof.
  eapply (storeset_squash_hangs crossed 11 1 12 _ _ 10 true);
    [vm_compute; reflexivity|lia|vm_compute; reflexivity|vm_compute; reflexivity|lia].
Defined.

End StoreSet.
