(* ===== verification/Rename.v ===== *)
(** * Register renaming

    The structures of [cpu/o3] that rename architectural registers: register
    identifiers ([cpu/reg_class.hh], [PhysRegId] of [comm.hh]), the identifiers of
    the register file ([regfile.cc]), free lists ([free_list.hh]), rename maps
    ([rename_map.hh], [rename_map.cc]), the scoreboard ([scoreboard.hh]) and the
    history buffer with which [DefaultRename] undoes or commits renames
    ([rename_impl.hh]).  A squash by the branch prediction unit reaches them through
    [doSquash].

    A [PhysRegIdPtr] points to the one identifier object of a register, so pointers
    are modelled by the identifiers themselves; [None] is the null pointer. *)

From S2P Require Import Prelude.

Module Rename.

(** ** Registers *)
Inductive RegClass :=
| IntRegClass | FloatRegClass | VecRegClass | VecElemClass | CCRegClass | MiscRegClass.

#[global] Instance RegClass_eq_dec : EqDecision RegClass.
Proof. solve_decision. Defined.

(** The constants of [TheISA]. *)
Record Arch := mkArch {
  NumIntRegs : Z; NumFloatRegs : Z; NumVecRegs : Z; NumVecElemPerVecReg : Z;
  NumCCRegs : Z; NumMiscRegs : Z; ZeroReg : Z; is_ALPHA_ISA : bool
}.

Record RegId := mkRegId { regClass : RegClass; regIdx : Z; elemIdx : Z }.

#[global] Instance RegId_eq_dec : EqDecision RegId.
Proof. solve_decision. Defined.

(** The two constructors of [RegId]; the element index is [-1] in 16 bits when there
    is none. *)
Definition RegId_new (c : RegClass) (i : Z) : res RegId :=
  _ ← guard_ (bool_decide (c ≠ VecElemClass)) (Panic "Creating vector physical index w/o element index");
  Ok (mkRegId c i (2 ^ 16 - 1)).

Definition RegId_elem (c : RegClass) (i e : Z) : res RegId :=
  _ ← guard_ (bool_decide (c = VecElemClass)) (Panic "Creating non-vector physical index w/ element index");
  Ok (mkRegId c i e).

Record PhysRegId := mkPhys { rid : RegId; flatIdx : Z }.

#[global] Instance PhysRegId_eq_dec : EqDecision PhysRegId.
Proof. solve_decision. Defined.

Definition physPtr := option PhysRegId.

Definition deref (p : physPtr) : res PhysRegId :=
  match p with Some x => Ok x | None => Err BadPointer end.

Definition classOf (p : PhysRegId) : RegClass := regClass (rid p).

(** One member per class of registers that are renamed. *)
Record PerClass (A : Type) := mkPer { pInt : A; pFloat : A; pVec : A; pVecElem : A; pCC : A }.
Arguments mkPer {A} _ _ _ _ _.
Arguments pInt {A} _. Arguments pFloat {A} _. Arguments pVec {A} _.
Arguments pVecElem {A} _. Arguments pCC {A} _.

Definition pget {A} (p : PerClass A) (c : RegClass) : option A :=
  match c with
  | IntRegClass => Some (pInt p)
  | FloatRegClass => Some (pFloat p)
  | VecRegClass => Some (pVec p)
  | VecElemClass => Some (pVecElem p)
  | CCRegClass => Some (pCC p)
  | MiscRegClass => None
  end.

Definition pset {A} (p : PerClass A) (c : RegClass) (x : A) : PerClass A :=
  match c with
  | IntRegClass => mkPer x (pFloat p) (pVec p) (pVecElem p) (pCC p)
  | FloatRegClass => mkPer (pInt p) x (pVec p) (pVecElem p) (pCC p)
  | VecRegClass => mkPer (pInt p) (pFloat p) x (pVecElem p) (pCC p)
  | VecElemClass => mkPer (pInt p) (pFloat p) (pVec p) x (pCC p)
  | CCRegClass => mkPer (pInt p) (pFloat p) (pVec p) (pVecElem p) x
  | MiscRegClass => p
  end.

(** ** Free lists *)
Definition UnifiedFreeList := PerClass (list PhysRegId).

(** [SimpleFreeList::getReg] and [addReg]; the queue's front is the head. *)
Definition getReg (l : list PhysRegId) : res (PhysRegId * list PhysRegId) :=
  match l with [] => Err AssertFail | r :: l => Ok (r, l) end.

Definition addReg_simple (l : list PhysRegId) (r : PhysRegId) : list PhysRegId := l ++ [r].

(** [UnifiedFreeList::addReg] *)
Definition addReg (f : UnifiedFreeList) (p : physPtr) : res UnifiedFreeList :=
  r ← deref p;
  match pget f (classOf r) with
  | Some l => Ok (pset f (classOf r) (addReg_simple l r))
  | None => Err (Panic "Unexpected RegClass")
  end.

(** [UnifiedFreeList::addRegs] over the identifiers [rs]. *)
Definition addRegs (f : UnifiedFreeList) (rs : list PhysRegId) : res UnifiedFreeList :=
  match rs with
  | [] => Ok f
  | r :: _ =>
      _ ← guard_ (bool_decide (default MiscRegClass (classOf <$> last rs) = classOf r))
            (Panic "Attempt to add mixed type regs");
      match pget f (classOf r) with
      | Some l => Ok (pset f (classOf r) (l ++ rs))
      | None => Err (Panic "Unexpected RegClass")
      end
  end.

(** ** Rename maps *)
Inductive VecMode := Full | Elem.

#[global] Instance VecMode_eq_dec : EqDecision VecMode.
Proof. solve_decision. Defined.

Record SimpleRenameMap := mkMap { map : list physPtr; zeroReg : RegId }.

Record UnifiedRenameMap := mkUMap { maps : PerClass SimpleRenameMap; vecMode : VecMode }.

Section isa.
Context (a : Arch).

Definition isZeroReg (r : RegId) : bool :=
  (bool_decide (regClass r = IntRegClass) && (regIdx r =? ZeroReg a)) ||
  (is_ALPHA_ISA a && bool_decide (regClass r = FloatRegClass) && (regIdx r =? ZeroReg a)).

Definition flatIndex (r : RegId) : Z :=
  match regClass r with
  | VecElemClass => u16 (NumVecElemPerVecReg a * regIdx r + elemIdx r)
  | _ => regIdx r
  end.

(** [SimpleRenameMap::init] on a map that was not initialised. *)
Definition init_map (size zero : Z) : SimpleRenameMap :=
  mkMap (replicate (Z.to_nat size) None) (mkRegId IntRegClass (u16 zero) (2 ^ 16 - 1)).

(** [UnifiedRenameMap::init] *)
Definition init_maps (intZeroReg floatZeroReg : Z) (mode : VecMode) : UnifiedRenameMap :=
  mkUMap (mkPer (init_map (NumIntRegs a) intZeroReg) (init_map (NumFloatRegs a) floatZeroReg)
            (init_map (NumVecRegs a) (-1)) (init_map (NumVecRegs a * NumVecElemPerVecReg a) (-1))
            (init_map (NumCCRegs a) (-1)))
    mode.

(** [SimpleRenameMap::rename]; the result is the new and the previous register. *)
Definition rename_simple (m : SimpleRenameMap) (free : list PhysRegId) (arch_reg : RegId) :
    res (physPtr * physPtr * SimpleRenameMap * list PhysRegId) :=
  prev_reg ← vget (map m) (regIdx arch_reg);
  if decide (arch_reg ≠ zeroReg m) then
    rf ← getReg free;
    v ← vset (map m) (regIdx arch_reg) (Some rf.1);
    Ok (Some rf.1, prev_reg, mkMap v (zeroReg m), rf.2)
  else
    p ← deref prev_reg;
    _ ← assert_ (isZeroReg (rid p));
    Ok (prev_reg, prev_reg, m, free).

(** [SimpleRenameMap::lookup] and [setEntry]. *)
Definition lookup_simple (m : SimpleRenameMap) (arch_reg : RegId) : res physPtr :=
  _ ← assert_ (flatIndex arch_reg <=? vlen (map m));
  vget (map m) (flatIndex arch_reg).

Definition setEntry_simple (m : SimpleRenameMap) (arch_reg : RegId) (p : physPtr) : res SimpleRenameMap :=
  _ ← assert_ (flatIndex arch_reg <=? vlen (map m));
  v ← vset (map m) (flatIndex arch_reg) p;
  Ok (mkMap v (zeroReg m)).

(** The checks of the vector mode in the switches of [UnifiedRenameMap]. *)
Definition mode_ok (u : UnifiedRenameMap) (c : RegClass) : bool :=
  match c with
  | VecRegClass => bool_decide (vecMode u = Full)
  | VecElemClass => bool_decide (vecMode u = Elem)
  | _ => true
  end.

Context (miscRegIds : list PhysRegId).

Definition lookup (u : UnifiedRenameMap) (arch_reg : RegId) : res physPtr :=
  match pget (maps u) (regClass arch_reg) with
  | Some m => _ ← assert_ (mode_ok u (regClass arch_reg)); lookup_simple m arch_reg
  | None => p ← vget miscRegIds (flatIndex arch_reg); Ok (Some p)
  end.

Definition rename (u : UnifiedRenameMap) (f : UnifiedFreeList) (arch_reg : RegId) :
    res (physPtr * physPtr * UnifiedRenameMap * UnifiedFreeList) :=
  match pget (maps u) (regClass arch_reg), pget f (regClass arch_reg) with
  | Some m, Some l =>
      _ ← assert_ (mode_ok u (regClass arch_reg));
      r ← rename_simple m l arch_reg;
      let '(new, prev, m, l) := r in
      Ok (new, prev, mkUMap (pset (maps u) (regClass arch_reg) m) (vecMode u),
          pset f (regClass arch_reg) l)
  | _, _ => p ← lookup u arch_reg; Ok (p, p, u, f)
  end.

Definition setEntry (u : UnifiedRenameMap) (arch_reg : RegId) (p : physPtr) : res UnifiedRenameMap :=
  match pget (maps u) (regClass arch_reg) with
  | Some m =>
      r ← deref p;
      _ ← assert_ (bool_decide (classOf r = regClass arch_reg));
      _ ← assert_ (mode_ok u (regClass arch_reg));
      m ← setEntry_simple m arch_reg p;
      Ok (mkUMap (pset (maps u) (regClass arch_reg) m) (vecMode u))
  | None =>
      q ← lookup u arch_reg;
      _ ← assert_ (bool_decide (p = q));
      Ok u
  end.

(** [canRename] *)
Definition canRename (f : UnifiedFreeList) (need : PerClass Z) : bool :=
  (pInt need <=? vlen (pInt f)) && (pFloat need <=? vlen (pFloat f)) &&
  (pVec need <=? vlen (pVec f)) && (pVecElem need <=? vlen (pVecElem f)) &&
  (pCC need <=? vlen (pCC f)).

(** ** The scoreboard *)
Definition unsetReg (sb : list bool) (p : physPtr) : res (list bool) :=
  r ← deref p;
  _ ← assert_ (flatIdx r <? vlen sb);
  if decide (classOf r = MiscRegClass) then Ok sb
  else if isZeroReg (rid r) then Ok sb
  else vset sb (flatIdx r) false.

Definition setReg (sb : list bool) (p : physPtr) : res (list bool) :=
  r ← deref p;
  _ ← assert_ (flatIdx r <? vlen sb);
  if decide (classOf r = MiscRegClass) then Ok sb else vset sb (flatIdx r) true.

Definition getReady (sb : list bool) (p : physPtr) : res bool :=
  r ← deref p;
  _ ← assert_ (flatIdx r <? vlen sb);
  if decide (classOf r = MiscRegClass) then Ok true
  else
    ready ← vget sb (flatIdx r);
    _ ← assert_ (negb (isZeroReg (rid r)) || ready);
    Ok ready.

(** ** The rename stage's history *)
Record RenameHistory := mkHist {
  instSeqNum : Z; archReg : RegId; newPhysReg : physPtr; prevPhysReg : physPtr
}.

Record State := mkState {
  freeList : UnifiedFreeList;
  renameMap : list UnifiedRenameMap;
  historyBuffer : list (list RenameHistory);   (** youngest first *)
  scoreboard : list bool
}.

(** One iteration of [renameDestRegs], for a register that is flattened already. *)
Definition renameDestReg (st : State) (tid sn : Z) (arch_reg : RegId) : res State :=
  u ← vget (renameMap st) tid;
  r ← rename u (freeList st) arch_reg;
  let '(new, prev, u, f) := r in
  ms ← vset (renameMap st) tid u;
  sb ← unsetReg (scoreboard st) new;
  h ← vget (historyBuffer st) tid;
  hs ← vset (historyBuffer st) tid (mkHist sn arch_reg new prev :: h);
  Ok (mkState f ms hs sb).

Fixpoint renameDestRegs (st : State) (tid sn : Z) (dests : list RegId) : res State :=
  match dests with
  | [] => Ok st
  | r :: dests => st ← renameDestReg st tid sn r; renameDestRegs st tid sn dests
  end.

(** The sources of an instruction, flattened already: the registers and whether they
    are ready. *)
Fixpoint renameSrcRegs (st : State) (tid : Z) (srcs : list RegId) : res (list (physPtr * bool)) :=
  match srcs with
  | [] => Ok []
  | r :: srcs =>
      u ← vget (renameMap st) tid;
      p ← lookup u r;
      _ ← guard_ (bool_decide (regClass r ≠ VecElemClass)) (Panic "Invalid register class");
      b ← getReady (scoreboard st) p;
      l ← renameSrcRegs st tid srcs;
      Ok ((p, b) :: l)
  end.

(** [doSquash], from the youngest entry on. *)
Fixpoint squash_history (f : UnifiedFreeList) (u : UnifiedRenameMap) (n : Z)
    (h : list RenameHistory) : res (UnifiedFreeList * UnifiedRenameMap * list RenameHistory) :=
  match h with
  | [] => Ok (f, u, [])
  | e :: h' =>
      if n <? instSeqNum e then
        if decide (newPhysReg e ≠ prevPhysReg e) then
          u ← setEntry u (archReg e) (prevPhysReg e);
          f ← addReg f (newPhysReg e);
          squash_history f u n h'
        else squash_history f u n h'
      else Ok (f, u, h)
  end.

Definition doSquash (st : State) (squashed_seq_num tid : Z) : res State :=
  h ← vget (historyBuffer st) tid;
  u ← vget (renameMap st) tid;
  r ← squash_history (freeList st) u squashed_seq_num h;
  let '(f, u, h) := r in
  ms ← vset (renameMap st) tid u;
  hs ← vset (historyBuffer st) tid h;
  Ok (mkState f ms hs (scoreboard st)).

(** [removeFromHistory], from the oldest entry on; the list is oldest first. *)
Fixpoint commit_history (f : UnifiedFreeList) (n : Z) (h : list RenameHistory) :
    res (UnifiedFreeList * list RenameHistory) :=
  match h with
  | [] => Ok (f, [])
  | e :: h' =>
      if instSeqNum e <=? n then
        f ← (if decide (newPhysReg e ≠ prevPhysReg e) then addReg f (prevPhysReg e) else Ok f);
        commit_history f n h'
      else Ok (f, h)
  end.

Definition removeFromHistory (st : State) (inst_seq_num tid : Z) : res State :=
  h ← vget (historyBuffer st) tid;
  r ← commit_history (freeList st) inst_seq_num (reverse h);
  hs ← vset (historyBuffer st) tid (reverse r.2);
  Ok (mkState r.1 (renameMap st) hs (scoreboard st)).
End isa.

(** ** The register file's identifiers

    [PhysRegIndex] is a [short].  The counter of each loop is one, and is compared
    with an [unsigned] bound: after 2^15 rounds it is negative, which compares as a
    large number, and the loop ends.  The flat index, also a [short], wraps round. *)
Definition rounds (n : Z) : Z := Z.min n (2 ^ 15).

Definition scalar_ids (c : RegClass) (n flat : Z) : list PhysRegId :=
  (λ i : nat, mkPhys (mkRegId c (Z.of_nat i) (2 ^ 16 - 1)) (i16 (flat + Z.of_nat i)))
    <$> seq 0 (Z.to_nat (rounds n)).

Definition elem_ids (a : Arch) (n flat : Z) : list PhysRegId :=
  (λ i : nat, mkPhys (mkRegId VecElemClass (Z.of_nat i / NumVecElemPerVecReg a)
                        (Z.of_nat i mod NumVecElemPerVecReg a)) (i16 (flat + Z.of_nat i)))
    <$> seq 0 (Z.to_nat (rounds n * NumVecElemPerVecReg a)).

Record PhysRegFile := mkFile {
  ids : PerClass (list PhysRegId);
  miscIds : list PhysRegId;
  numPhysical : PerClass Z;
  fileMode : VecMode
}.

(** [PhysRegFile::PhysRegFile]: integer, floating-point, vector, vector element and
    condition-code registers, numbered through.  The miscellaneous registers are
    counted by the same [short] up to an [int] constant of the ISA, taken to be below
    2^15 (from there on that loop would not end). *)
Definition PhysRegFile_new (a : Arch) (nInt nFloat nVec nCC : Z) (mode : VecMode) : PhysRegFile :=
  let fFloat := rounds nInt in
  let fVec := fFloat + rounds nFloat in
  let fElem := fVec + rounds nVec in
  let fCC := fElem + rounds nVec * NumVecElemPerVecReg a in
  mkFile (mkPer (scalar_ids IntRegClass nInt 0) (scalar_ids FloatRegClass nFloat fFloat)
            (scalar_ids VecRegClass nVec fVec) (elem_ids a nVec fElem) (scalar_ids CCRegClass nCC fCC))
    ((λ i : nat, mkPhys (mkRegId MiscRegClass (Z.of_nat i) (2 ^ 16 - 1)) 0) <$> seq 0 (Z.to_nat (NumMiscRegs a)))
    (mkPer nInt nFloat nVec (u32 (nVec * NumVecElemPerVecReg a)) nCC) mode.

Definition totalNumRegs (rf : PhysRegFile) : Z :=
  let n := numPhysical rf in u32 (pInt n + pFloat n + pVec n + pVecElem n + pCC n).

(** The checking loops of [initFreeList]. *)
Fixpoint check_from (n : nat) (i : Z) (f : Z → res unit) : res unit :=
  match n with
  | O => Ok tt
  | S n => _ ← f i; check_from n (i + 1) f
  end.

Definition check_ids (rs : list PhysRegId) (n : Z) : res unit :=
  check_from (Z.to_nat n) 0 (λ i, p ← vget rs i; assert_ (regIdx (rid p) =? i)).

Definition check_vec_ids (a : Arch) (vecs elems : list PhysRegId) (n : Z) : res unit :=
  check_from (Z.to_nat n) 0 (λ i,
    p ← vget vecs i;
    _ ← assert_ (regIdx (rid p) =? i);
    check_from (Z.to_nat (NumVecElemPerVecReg a)) 0 (λ j,
      q ← vget elems (i * NumVecElemPerVecReg a + j);
      _ ← assert_ (regIdx (rid q) =? i);
      assert_ (elemIdx (rid q) =? j))).

(** [PhysRegFile::initFreeList] *)
Definition initFreeList (a : Arch) (rf : PhysRegFile) : res UnifiedFreeList :=
  _ ← check_ids (pInt (ids rf)) (pInt (numPhysical rf));
  f ← addRegs (mkPer [] [] [] [] []) (pInt (ids rf));
  _ ← check_ids (pFloat (ids rf)) (pFloat (numPhysical rf));
  f ← addRegs f (pFloat (ids rf));
  _ ← check_vec_ids a (pVec (ids rf)) (pVecElem (ids rf)) (pVec (numPhysical rf));
  f ← (match fileMode rf with Full => addRegs f (pVec (ids rf)) | Elem => addRegs f (pVecElem (ids rf)) end);
  _ ← check_ids (pCC (ids rf)) (pCC (numPhysical rf));
  addRegs f (pCC (ids rf)).

(** ** Construction

    The part of [FullO3CPU]'s constructor ([cpu.cc]) that gives the architectural
    registers of a thread their first physical registers. *)
Fixpoint init_entries (a : Arch) (misc : list PhysRegId) (f : UnifiedFreeList) (u : UnifiedRenameMap)
    (rs : list RegId) : res (UnifiedFreeList * UnifiedRenameMap) :=
  match rs with
  | [] => Ok (f, u)
  | r :: rs =>
      match pget f (regClass r) with
      | Some l =>
          x ← getReg l;
          u ← setEntry a misc u r (Some x.1);
          init_entries a misc (pset f (regClass r) x.2) u rs
      | None => Err BadPointer
      end
  end.

Definition scalar_regs (c : RegClass) (n : Z) : list RegId :=
  (λ i : nat, mkRegId c (Z.of_nat i) (2 ^ 16 - 1)) <$> seq 0 (Z.to_nat n).

Definition elem_regs (a : Arch) : list RegId :=
  (λ i : nat, mkRegId VecElemClass (Z.of_nat i / NumVecElemPerVecReg a) (Z.of_nat i mod NumVecElemPerVecReg a))
    <$> seq 0 (Z.to_nat (NumVecRegs a * NumVecElemPerVecReg a)).

(** The architectural registers, in the order of the loops. *)
Definition arch_regs (a : Arch) (mode : VecMode) : list RegId :=
  scalar_regs IntRegClass (NumIntRegs a) ++ scalar_regs FloatRegClass (NumFloatRegs a) ++
  (match mode with Full => scalar_regs VecRegClass (NumVecRegs a) | Elem => elem_regs a end) ++
  scalar_regs CCRegClass (NumCCRegs a).

(** [fpZeroReg]: the zero register of Alpha, an invalid index for the others. *)
Definition fpZeroReg (a : Arch) : Z :=
  if is_ALPHA_ISA a then ZeroReg a else NumFloatRegs a + 1.

Fixpoint init_threads (a : Arch) (rf : PhysRegFile) (f : UnifiedFreeList) (n : nat) :
    res (UnifiedFreeList * list UnifiedRenameMap) :=
  match n with
  | O => Ok (f, [])
  | S n =>
      r ← init_entries a (miscIds rf) f (init_maps a (ZeroReg a) (fpZeroReg a) (fileMode rf))
            (arch_regs a (fileMode rf));
      rest ← init_threads a rf r.1 n;
      Ok (rest.1, r.2 :: rest.2)
  end.

(** [numThreads] threads, all active. *)
Definition create (a : Arch) (rf : PhysRegFile) (numThreads : nat) : res State :=
  f ← initFreeList a rf;
  r ← init_threads a rf f numThreads;
  Ok (mkState r.1 r.2 (replicate numThreads [])
        (replicate (Z.to_nat (totalNumRegs rf)) true)).

End Rename.
