(* ===== verification/RenameInv.v ===== *)
(** * Conservation of physical registers

    The free list, the rename maps and the history buffers of [Rename] share out the
    physical registers.  [pool] collects what they hold; the operations of the rename
    stage permute it. *)

From S2P Require Import Prelude Rename.

Module RenameInv.
Import Rename.

(** ** Counting *)
Definition cnt (z : PhysRegId) (l : list PhysRegId) : nat := count_occ PhysRegId_eq_dec l z.
Definition one (x z : PhysRegId) : nat := cnt z [x].

Lemma cnt_nil z : cnt z [] = 0%nat.
Proof. done. Qed.

Lemma cnt_app z l k : cnt z (l ++ k) = (cnt z l + cnt z k)%nat.
Proof. apply count_occ_app. Qed.

Lemma cnt_cons z x l : cnt z (x :: l) = (one x z + cnt z l)%nat.
Proof. unfold one. by rewrite <-cnt_app. Qed.

Lemma perm_cnt l k : l ≡ₚ k ↔ ∀ z, cnt z l = cnt z k.
Proof. apply Permutation_count_occ. Qed.

(** Permutations of concatenations, by counting. *)
Ltac perm :=
  unfold physPtr in *; rewrite ?perm_cnt in *;
  let z := fresh "z" in intros z;
  repeat match goal with H : ∀ z : PhysRegId, cnt z _ = cnt z _ |- _ => specialize (H z) end;
  repeat (rewrite ?cnt_app, ?cnt_cons, ?cnt_nil in *); lia.

(** ** Members per class *)
Lemma pget_pset_eq {A} (p : PerClass A) c x y : pget p c = Some x → pget (pset p c y) c = Some y.
Proof. by destruct c. Qed.

Lemma pget_pset_ne {A} (p : PerClass A) c c' y : c ≠ c' → pget (pset p c y) c' = pget p c'.
Proof. by destruct c, c'. Qed.

Lemma pset_pset {A} (p : PerClass A) c x y : pset (pset p c x) c y = pset p c y.
Proof. by destruct c. Qed.

Lemma pset_pget {A} (p : PerClass A) c x : pget p c = Some x → pset p c x = p.
Proof. by destruct c, p; intros; simplify_eq/=. Qed.

Lemma pget_is_Some {A B} (p : PerClass A) (q : PerClass B) c x : pget p c = Some x → is_Some (pget q c).
Proof. destruct c; try done; eauto. Qed.

Definition flat {A} (g : A → list PhysRegId) (p : PerClass A) : list PhysRegId :=
  g (pInt p) ++ g (pFloat p) ++ g (pVec p) ++ g (pVecElem p) ++ g (pCC p).

Lemma flat_pset {A} (g : A → list PhysRegId) p c x y :
  pget p c = Some x → flat g (pset p c y) ++ g x ≡ₚ flat g p ++ g y.
Proof. intros H. destruct c; simplify_eq/=; unfold flat; simpl; perm. Qed.

Lemma flat_elem {A} (g : A → list PhysRegId) p z :
  z ∈ flat g p ↔ ∃ c x, pget p c = Some x ∧ z ∈ g x.
Proof.
  unfold flat. rewrite !elem_of_app. split.
  - intros [?|[?|[?|[?|?]]]]; [exists IntRegClass|exists FloatRegClass|exists VecRegClass
      |exists VecElemClass|exists CCRegClass]; eauto.
  - intros (c & x & Hx & ?). destruct c; simplify_eq/=; auto.
Qed.

(** ** The pool *)
Definition entries (m : SimpleRenameMap) : list PhysRegId := omap id (map m).

Definition held1 (e : RenameHistory) : list PhysRegId :=
  if decide (newPhysReg e ≠ prevPhysReg e) then option_list (prevPhysReg e) else [].

Definition held (h : list RenameHistory) : list PhysRegId := h ≫= held1.

Definition freed (f : UnifiedFreeList) : list PhysRegId := flat id f.
Definition mapped (u : UnifiedRenameMap) : list PhysRegId := flat entries (maps u).

(** What one thread and the free list have. *)
Definition share (f : UnifiedFreeList) (u : UnifiedRenameMap) (h : list RenameHistory) : list PhysRegId :=
  freed f ++ mapped u ++ held h.

Definition pool (st : State) : list PhysRegId :=
  freed (freeList st) ++ (renameMap st ≫= mapped) ++ (historyBuffer st ≫= held).

Lemma entries_mid (t d : list physPtr) y :
  omap id (t ++ y :: d) = omap id t ++ option_list y ++ omap id d.
Proof. rewrite omap_app. by destruct y. Qed.

Lemma omap_insert (l : list physPtr) i x y :
  l !! i = Some x → omap id (<[i := y]> l) ++ option_list x ≡ₚ omap id l ++ option_list y.
Proof.
  intros Hx. rewrite insert_take_drop by eauto using lookup_lt_Some.
  rewrite <-(take_drop_middle l i x Hx) at 3. rewrite !entries_mid. perm.
Qed.

Lemma bind_insert {A} (g : A → list PhysRegId) (l : list A) i x y :
  l !! i = Some x → (<[i := y]> l ≫= g) ++ g x ≡ₚ (l ≫= g) ++ g y.
Proof.
  intros Hx. rewrite insert_take_drop by eauto using lookup_lt_Some.
  rewrite <-(take_drop_middle l i x Hx) at 3. rewrite !bind_app, !bind_cons. perm.
Qed.

(** A thread that trades with the free list only. *)
Lemma pool_step st i u h f' u' h' sb :
  renameMap st !! i = Some u → historyBuffer st !! i = Some h →
  share f' u' h' ≡ₚ share (freeList st) u h →
  pool (mkState f' (<[i := u']> (renameMap st)) (<[i := h']> (historyBuffer st)) sb) ≡ₚ pool st.
Proof.
  intros Hu Hh Hs. unfold pool, share in *; simpl.
  pose proof (bind_insert mapped _ _ _ u' Hu). pose proof (bind_insert held _ _ _ h' Hh). perm.
Qed.

(** ** Free lists *)
Lemma addReg_share f p f' : addReg f (Some p) = Ok f' → freed f' ≡ₚ p :: freed f.
Proof.
  unfold addReg; simpl. destruct (pget f (classOf p)) as [l|] eqn:E; [|done]. intros; simplify_eq.
  pose proof (flat_pset id f _ l (addReg_simple l p) E) as H. unfold freed, addReg_simple, id in *. perm.
Qed.

Lemma addReg_total f p : classOf p ≠ MiscRegClass → ∃ f', addReg f (Some p) = Ok f'.
Proof. intros H. unfold addReg; simpl. destruct (classOf p); simpl; eauto; done. Qed.

(** ** Well-formed maps and histories *)
Section inv.
Context (a : Arch) (misc : list PhysRegId) (n : Z).

(** [n] is the number of physical registers, the size of the scoreboard. *)
Definition reg_ok (c : RegClass) (p : PhysRegId) : Prop := classOf p = c ∧ 0 ≤ flatIdx p < n.

Definition free_ok (f : UnifiedFreeList) : Prop :=
  ∀ c l p, pget f c = Some l → p ∈ l → reg_ok c p.

(** How many architectural registers a class has. *)
Definition num (c : RegClass) : Z :=
  match c with
  | IntRegClass => NumIntRegs a | FloatRegClass => NumFloatRegs a | VecRegClass => NumVecRegs a
  | VecElemClass => NumVecRegs a * NumVecElemPerVecReg a | CCRegClass => NumCCRegs a
  | MiscRegClass => NumMiscRegs a
  end.

(** Vectors are renamed as a whole; the elements' map is not in use. *)
Definition int_zero : RegId := mkRegId IntRegClass (u16 (ZeroReg a)) (2 ^ 16 - 1).

Definition shape_ok (u : UnifiedRenameMap) : Prop :=
  vecMode u = Full ∧ zeroReg (pInt (maps u)) = int_zero ∧
  ∀ c m, pget (maps u) c = Some m → c ≠ VecElemClass → vlen (map m) = num c.

Definition map_ok (u : UnifiedRenameMap) : Prop :=
  vecMode u = Full ∧ zeroReg (pInt (maps u)) = int_zero ∧
  ∀ c m, pget (maps u) c = Some m → c ≠ VecElemClass →
    vlen (map m) = num c ∧ ∀ i x, map m !! i = Some x → ∃ p, x = Some p ∧ reg_ok c p.

Definition dest_ok (r : RegId) : Prop :=
  regClass r ≠ VecElemClass ∧ elemIdx r = 2 ^ 16 - 1 ∧ 0 ≤ regIdx r < num (regClass r).

Definition ent (u : UnifiedRenameMap) (r : RegId) : option physPtr :=
  m ← pget (maps u) (regClass r); map m !! Z.to_nat (regIdx r).

Definition upd (u : UnifiedRenameMap) (r : RegId) (x : physPtr) : UnifiedRenameMap :=
  match pget (maps u) (regClass r) with
  | Some m =>
      mkUMap (pset (maps u) (regClass r) (mkMap (<[Z.to_nat (regIdx r) := x]> (map m)) (zeroReg m)))
        (vecMode u)
  | None => u
  end.

(** The mapping of the youngest entry is in the map, and undoing it leaves a map to
    which the older ones fit. *)
Fixpoint hist_ok (u : UnifiedRenameMap) (h : list RenameHistory) : Prop :=
  match h with
  | [] => True
  | e :: h' =>
      if decide (newPhysReg e ≠ prevPhysReg e) then
        dest_ok (archReg e) ∧
        ∃ p q, newPhysReg e = Some p ∧ prevPhysReg e = Some q ∧
          reg_ok (regClass (archReg e)) p ∧ reg_ok (regClass (archReg e)) q ∧
          ent u (archReg e) = Some (Some p) ∧ hist_ok (upd u (archReg e) (Some q)) h'
      else hist_ok u h'
  end.

Lemma ent_inv u r x :
  ent u r = Some x →
  ∃ m, pget (maps u) (regClass r) = Some m ∧ map m !! Z.to_nat (regIdx r) = Some x ∧
    regClass r ≠ MiscRegClass.
Proof.
  unfold ent. destruct (pget _ _) as [m|] eqn:E; [|done]. intros. exists m. split_and!; [done..|].
  intros Hc. by rewrite Hc in E.
Qed.

Lemma mapped_upd u r x y :
  ent u r = Some x → mapped (upd u r y) ++ option_list x ≡ₚ mapped u ++ option_list y.
Proof.
  intros (m & Hm & Hx & _)%ent_inv. unfold mapped, upd. rewrite Hm. simpl.
  pose proof (flat_pset entries _ _ _ (mkMap (<[Z.to_nat (regIdx r) := y]> (map m)) (zeroReg m)) Hm).
  pose proof (omap_insert _ _ _ y Hx). unfold entries in *; simpl in *. perm.
Qed.

Lemma upd_undo u r x y : ent u r = Some x → upd (upd u r y) r x = u.
Proof.
  intros (m & Hm & Hx & _)%ent_inv. unfold upd at 2. rewrite Hm. unfold upd; simpl.
  rewrite (pget_pset_eq _ _ _ _ Hm), pset_pset; simpl. rewrite list_insert_insert_eq, list_insert_id by done.
  destruct u as [us ?], m; simpl in *. by rewrite pset_pget.
Qed.

Lemma ent_upd_eq u r x y : ent u r = Some x → ent (upd u r y) r = Some y.
Proof.
  intros (m & Hm & Hx & _)%ent_inv. unfold ent, upd. rewrite Hm; simpl.
  rewrite (pget_pset_eq _ _ _ _ Hm); simpl. apply list_lookup_insert_eq; eauto using lookup_lt_Some.
Qed.

Lemma ent_total u r :
  map_ok u → dest_ok r → regClass r ≠ MiscRegClass →
  ∃ p, ent u r = Some (Some p) ∧ reg_ok (regClass r) p.
Proof.
  intros (_ & _ & Hu) (Hc & _ & Hr) Hm. unfold ent.
  destruct (pget (maps u) (regClass r)) as [m|] eqn:E; [|by destruct (regClass r)].
  destruct (Hu _ _ E Hc) as [Hl He]. destruct (lookup_lt_is_Some_2 (map m) (Z.to_nat (regIdx r))) as [x Hx].
  { unfold vlen in *. lia. }
  destruct (He _ _ Hx) as (p & -> & Hp). eauto.
Qed.

Lemma zero_upd u r x : zeroReg (pInt (maps (upd u r x))) = zeroReg (pInt (maps u)).
Proof. unfold upd. destruct (regClass r) eqn:E; simpl; rewrite ?E; done. Qed.

Lemma map_ok_upd u r p :
  map_ok u → dest_ok r → reg_ok (regClass r) p → map_ok (upd u r (Some p)).
Proof.
  intros (Hv & Hz & Hu) (Hc & _ & Hr) Hp. pose proof (zero_upd u r (Some p)) as Hz'.
  unfold upd in *. destruct (pget _ _) as [m|] eqn:E; [|done].
  split_and!; [done|by rewrite Hz'|]. intros c m' Hm' Hc'. simpl in Hm'.
  destruct (decide (regClass r = c)) as [<-|Hn]; [|rewrite pget_pset_ne in Hm' by done; by apply Hu].
  rewrite (pget_pset_eq _ _ _ _ E) in Hm'. simplify_eq/=. destruct (Hu _ _ E Hc) as [Hl He].
  rewrite vlen_insert. split; [done|]. intros i x [(_ & <- & _)|[_ ?]]%list_lookup_insert_Some; eauto.
Qed.

Lemma map_ok_shape u : map_ok u → shape_ok u.
Proof. intros (Hv & Hz & Hu). split_and!; [done..|]. intros c m Hm Hc. by apply Hu. Qed.

Lemma shape_ok_upd u r x : shape_ok u → shape_ok (upd u r x).
Proof.
  intros (Hv & Hz & Hu). pose proof (zero_upd u r x) as Hz'.
  unfold upd in *. destruct (pget _ _) as [m|] eqn:E; [|done].
  split_and!; [done|by rewrite Hz'|]. intros c m' Hm' Hc'. simpl in Hm'.
  destruct (decide (regClass r = c)) as [<-|Hn]; [|rewrite pget_pset_ne in Hm' by done; by apply Hu].
  rewrite (pget_pset_eq _ _ _ _ E) in Hm'. simplify_eq/=. rewrite vlen_insert. by apply Hu.
Qed.

Lemma flatIndex_dest r : dest_ok r → flatIndex a r = regIdx r.
Proof. intros (Hc & _). unfold flatIndex. by destruct (regClass r). Qed.

Lemma setEntry_upd u r p :
  shape_ok u → dest_ok r → regClass r ≠ MiscRegClass → reg_ok (regClass r) p →
  setEntry a misc u r (Some p) = Ok (upd u r (Some p)).
Proof.
  intros Hu Hr Hm [Hp _]. destruct Hu as (Hv & _ & Hu). unfold setEntry, upd.
  destruct (pget (maps u) (regClass r)) as [m|] eqn:E; [|by destruct (regClass r)].
  pose proof (Hu _ _ E (proj1 Hr)) as Hl. destruct Hr as (Hc & He & Hr).
  simpl. rewrite bool_decide_true by done. simpl.
  assert (mode_ok u (regClass r) = true) as ->.
  { destruct (regClass r); simpl; try done. by apply bool_decide_eq_true. }
  simpl. unfold setEntry_simple. rewrite flatIndex_dest by done.
  rewrite (proj2 (Z.leb_le _ _)) by lia. simpl. by rewrite vset_in by lia.
Qed.

(** ** Undoing and committing *)
Lemma free_ok_addReg f p f' c :
  free_ok f → reg_ok c p → addReg f (Some p) = Ok f' → free_ok f'.
Proof.
  intros Hf Hp H. unfold addReg in H; simpl in H. destruct (pget f (classOf p)) as [l|] eqn:E; [|done].
  simplify_eq. intros c' l' q Hl' Hq. destruct (decide (classOf p = c')) as [<-|Hn].
  - rewrite (pget_pset_eq _ _ _ _ E) in Hl'. simplify_eq. unfold addReg_simple in Hq.
    apply elem_of_app in Hq as [?| ->%list_elem_of_singleton]; [by eapply Hf|].
    destruct Hp as [? ?]. by split.
  - rewrite pget_pset_ne in Hl' by done. by eapply Hf.
Qed.

Lemma share_undo f f' u h e p q :
  newPhysReg e = Some p → prevPhysReg e = Some q → newPhysReg e ≠ prevPhysReg e →
  ent u (archReg e) = Some (Some p) → addReg f (Some p) = Ok f' →
  share f' (upd u (archReg e) (Some q)) h ≡ₚ share f u (e :: h).
Proof.
  intros Hp Hq Hne He Ha%addReg_share. unfold share, held. rewrite bind_cons.
  assert (held1 e = [q]) as -> by (unfold held1; rewrite decide_True by done; by rewrite Hq).
  pose proof (mapped_upd _ _ _ (Some q) He) as Hm. simpl in Hm. perm.
Qed.

Lemma share_special f u h e :
  newPhysReg e = prevPhysReg e → share f u (e :: h) = share f u h.
Proof.
  intros He. unfold share, held. rewrite bind_cons.
  assert (held1 e = []) as -> by (unfold held1; rewrite decide_False by tauto; done). done.
Qed.

Lemma ent_not_misc u r x : ent u r = Some x → regClass r ≠ MiscRegClass.
Proof. by intros (? & _ & _ & ?)%ent_inv. Qed.

(** [doSquash] on one thread always succeeds and trades within the thread's share. *)
Lemma squash_entries_ok k h f u :
  free_ok f → map_ok u → hist_ok u h →
  returns (squash_history a misc f u k h) (λ r, let '(f', u', h') := r in
    free_ok f' ∧ map_ok u' ∧ hist_ok u' h' ∧ share f' u' h' ≡ₚ share f u h).
Proof.
  revert f u. induction h as [|e h IH]; intros f u Hf Hu Hh; simpl; [done|].
  destruct (k <? instSeqNum e); [|done]. simpl in Hh.
  destruct (decide (newPhysReg e ≠ prevPhysReg e)) as [Hne|Heq].
  - destruct Hh as (Hd & p & q & Hp & Hq & Okp & Okq & He & Hh).
    pose proof (ent_not_misc _ _ _ He) as Hm. rewrite Hp, Hq, setEntry_upd by auto using map_ok_shape. simpl.
    destruct (addReg_total f p) as [f' Hf'].
    { by rewrite (proj1 Okp). }
    rewrite Hf'. simpl. eapply returns_mono; [apply IH|].
    + exact (free_ok_addReg _ _ _ _ Hf Okp Hf').
    + by apply map_ok_upd.
    + done.
    + intros [[f2 u2] h2] (? & ? & ? & Hs). split_and!; [done..|]. rewrite Hs.
      eapply share_undo; eauto.
  - eapply returns_mono; [by apply IH|]. intros [[f2 u2] h2] (? & ? & ? & Hs). split_and!; [done..|].
    rewrite share_special by (by apply dec_stable). done.
Qed.

Lemma hist_ok_prefix u h k : hist_ok u (h ++ k) → hist_ok u h.
Proof.
  revert u. induction h as [|e h IH]; intros u Hh; simpl in *; [done|].
  destruct (decide _); [|by apply IH]. naive_solver.
Qed.

(** What an entry gives back when it is committed. *)
Definition prev_ok (e : RenameHistory) : Prop :=
  newPhysReg e ≠ prevPhysReg e →
  ∃ q c, prevPhysReg e = Some q ∧ reg_ok c q ∧ c ≠ MiscRegClass.

Lemma hist_ok_prev u h : hist_ok u h → Forall prev_ok h.
Proof.
  revert u. induction h as [|e h IH]; intros u Hh; simpl in *; [done|]. destruct (decide _) as [Hne|Heq].
  - destruct Hh as (_ & p & q & _ & Hq & _ & Okq & He & Hh). constructor; [|by eapply IH].
    intros _. exists q, (regClass (archReg e)). eauto using ent_not_misc.
  - constructor; [by intros Hne|by eapply IH].
Qed.

Lemma commit_history_ok k h f :
  free_ok f → Forall prev_ok h →
  returns (commit_history f k h) (λ r,
    free_ok r.1 ∧ ∃ done_, h = done_ ++ r.2 ∧ freed r.1 ≡ₚ held done_ ++ freed f).
Proof.
  revert f. induction h as [|e h IH]; intros f Hf Hh; simpl.
  { split; [done|]. by exists []. }
  apply Forall_cons in Hh as [He Hh].
  destruct (instSeqNum e <=? k); [|by split; [|exists []]].
  destruct (decide (newPhysReg e ≠ prevPhysReg e)) as [Hne|Heq].
  - destruct (He Hne) as (q & c & Hq & Okq & Hc). rewrite Hq.
    destruct (addReg_total f q) as [f' Hf'].
    { by rewrite (proj1 Okq). }
    rewrite Hf'. simpl. eapply returns_mono; [apply IH; [exact (free_ok_addReg _ _ _ _ Hf Okq Hf')|done]|].
    intros [f2 h2] (? & d & -> & Hs). split; [done|]. exists (e :: d). split; [done|].
    apply addReg_share in Hf'. unfold held. rewrite bind_cons.
    assert (held1 e = [q]) as -> by (unfold held1; rewrite decide_True by done; by rewrite Hq).
    unfold held in Hs. simpl in *. perm.
  - simpl. eapply returns_mono; [by apply IH|]. intros [f2 h2] (? & d & -> & Hs). split; [done|].
    exists (e :: d). split; [done|]. unfold held. rewrite bind_cons.
    by assert (held1 e = []) as -> by (unfold held1; rewrite decide_False by tauto; done).
Qed.

Lemma held_reverse h : held (reverse h) ≡ₚ held h.
Proof. unfold held. by rewrite reverse_Permutation. Qed.

(** ** Renaming *)
Definition is_zero (u : UnifiedRenameMap) (r : RegId) : bool :=
  match pget (maps u) (regClass r) with Some m => bool_decide (r = zeroReg m) | None => false end.

Lemma mode_ok_full u r : map_ok u → dest_ok r → mode_ok u (regClass r) = true.
Proof.
  intros [Hv _] (Hc & _). destruct (regClass r); simpl; try done. by apply bool_decide_eq_true.
Qed.

Lemma vget_ent u r m x :
  dest_ok r → pget (maps u) (regClass r) = Some m → ent u r = Some x → vget (map m) (regIdx r) = Ok x.
Proof. intros (_ & _ & ?) Hm. unfold ent. rewrite Hm; simpl. intros. apply vget_in; [lia|done]. Qed.

Lemma rename_new u f r q l :
  map_ok u → dest_ok r → ent u r = Some (Some q) → is_zero u r = false → pget f (regClass r) = Some l →
  rename a misc u f r =
    match l with
    | [] => Err AssertFail
    | p :: l' => Ok (Some p, Some q, upd u r (Some p), pset f (regClass r) l')
    end.
Proof.
  intros Hu Hr He Hz Hf. destruct (ent_inv _ _ _ He) as (m & Hm & Hx & _).
  unfold rename, is_zero, upd in *. rewrite Hm in *. rewrite Hf, mode_ok_full by done. simpl.
  unfold rename_simple. rewrite (vget_ent _ _ _ _ Hr Hm He). simpl.
  apply bool_decide_eq_false in Hz. rewrite decide_True by done. destruct l as [|p l]; [done|]. simpl.
  rewrite vset_in; [done|]. destruct Hu as (_ & _ & Hu), Hr as (Hc & _ & ?).
  destruct (Hu _ _ Hm Hc) as [-> _]. lia.
Qed.

Lemma rename_zero u f r q :
  map_ok u → dest_ok r → ent u r = Some (Some q) → is_zero u r = true →
  rename a misc u f r = if isZeroReg a (rid q) then Ok (Some q, Some q, u, f) else Err AssertFail.
Proof.
  intros Hu Hr He Hz. destruct (ent_inv _ _ _ He) as (m & Hm & Hx & _).
  destruct (pget_is_Some _ f _ _ Hm) as [l Hf].
  unfold rename, is_zero in *. rewrite Hm in *. rewrite Hf, mode_ok_full by done. simpl.
  unfold rename_simple. rewrite (vget_ent _ _ _ _ Hr Hm He). simpl.
  apply bool_decide_eq_true in Hz. rewrite decide_False by tauto.
  destruct (isZeroReg a (rid q)); [|done]. simpl. rewrite !pset_pget by done. by destruct u.
Qed.

Lemma rename_misc u f r :
  regClass r = MiscRegClass → rename a misc u f r = (p ← vget misc (regIdx r); Ok (Some p, Some p, u, f)).
Proof.
  intros Hc. unfold rename, lookup, flatIndex. rewrite Hc. simpl. by destruct (vget misc (regIdx r)).
Qed.

(** Either the mapping stays or a free register takes its place. *)
Lemma rename_inv u f r new prev u' f' :
  map_ok u → dest_ok r → rename a misc u f r = Ok (new, prev, u', f') →
  (new = prev ∧ u' = u ∧ f' = f) ∨
  ∃ p q l, new = Some p ∧ prev = Some q ∧ ent u r = Some (Some q) ∧
    reg_ok (regClass r) q ∧ is_zero u r = false ∧
    pget f (regClass r) = Some (p :: l) ∧ u' = upd u r (Some p) ∧ f' = pset f (regClass r) l.
Proof.
  intros Hu Hr H. destruct (decide (regClass r = MiscRegClass)) as [Hc|Hc].
  { rewrite rename_misc in H by done. destruct (vget _ _); simplify_eq/=. by left. }
  destruct (ent_total _ _ Hu Hr Hc) as (q & He & Okq). destruct (is_zero u r) eqn:Hz.
  { rewrite (rename_zero _ _ _ q) in H by done. case_match; simplify_eq. by left. }
  right. destruct (ent_inv _ _ _ He) as (m & Hm & _). destruct (pget_is_Some _ f _ _ Hm) as [l Hf].
  rewrite (rename_new _ _ _ q l) in H by done. destruct l as [|p l]; simplify_eq. naive_solver.
Qed.

Lemma freed_pop f c p l : pget f c = Some (p :: l) → p :: freed (pset f c l) ≡ₚ freed f.
Proof. intros H. pose proof (flat_pset id _ _ _ l H). unfold freed, id in *. perm. Qed.

Lemma free_ok_pop f c p l : free_ok f → pget f c = Some (p :: l) → free_ok (pset f c l).
Proof.
  intros Hf H c' l' q Hl' Hq. destruct (decide (c = c')) as [<-|].
  - rewrite (pget_pset_eq _ _ _ _ H) in Hl'. simplify_eq. eapply Hf; [done|]. by right.
  - rewrite pget_pset_ne in Hl' by done. by eapply Hf.
Qed.

Lemma share_NoDup_ne f u h c p l r q :
  NoDup (share f u h) → pget f c = Some (p :: l) → ent u r = Some (Some q) → p ≠ q.
Proof.
  intros Hn Hf He ->. destruct (ent_inv _ _ _ He) as (m & Hm & Hx & _).
  apply NoDup_app in Hn as (_ & Hd & _). apply (Hd q).
  - apply flat_elem. exists c, (q :: l). split; [done|]. by left.
  - apply elem_of_app. left. apply flat_elem. exists (regClass r), m. split; [done|].
    apply list_elem_of_omap. exists (Some q). split; [|done]. by eapply list_elem_of_lookup_2.
Qed.

(** A rename trades within the thread's share, and its entry undoes it. *)
Lemma rename_ok u f h r sn new prev u' f' :
  free_ok f → map_ok u → hist_ok u h → NoDup (share f u h) → dest_ok r →
  rename a misc u f r = Ok (new, prev, u', f') →
  let h' := mkHist sn r new prev :: h in
  free_ok f' ∧ map_ok u' ∧ hist_ok u' h' ∧ share f' u' h' ≡ₚ share f u h.
Proof.
  intros Hf Hu Hh Hn Hr H. cbv zeta.
  destruct (rename_inv _ _ _ _ _ _ _ Hu Hr H) as [(-> & -> & ->)|Hx].
  { rewrite share_special by done. simpl. rewrite decide_False by tauto. done. }
  destruct Hx as (p & q & l & -> & -> & He & Okq & _ & Hl & -> & ->).
  pose proof (share_NoDup_ne _ _ _ _ _ _ _ _ Hn Hl He) as Hpq.
  assert (Okp : reg_ok (regClass r) p) by (eapply Hf; [done|by left]).
  split_and!; [by eapply free_ok_pop|by apply map_ok_upd|..].
  - simpl. rewrite decide_True by congruence. split; [done|]. exists p, q. split_and!; try done.
    + by eapply ent_upd_eq.
    + by rewrite upd_undo.
  - unfold share, held. rewrite bind_cons. unfold held1; simpl. rewrite decide_True by congruence.
    pose proof (mapped_upd _ _ _ (Some p) He) as Hm. pose proof (freed_pop _ _ _ _ Hl). simpl in *. perm.
Qed.

End inv.

End RenameInv.
