(* ===== verification/RenameSpec.v ===== *)
(** * What the rename stage promises

    Construction gives every architectural register of every thread a physical
    register of its own; from then on renames, squashes and commits keep each
    physical register in exactly one place. *)

From S2P Require Import Prelude Rename RenameInv.

Module RenameSpec.
Import Rename RenameInv.

(** ** Architectural registers *)
Definition count_class (c : RegClass) (rs : list RegId) : nat :=
  length (filter (λ r, regClass r = c) rs).

Lemma count_class_cons c r rs :
  count_class c (r :: rs) = ((if decide (regClass r = c) then 1 else 0) + count_class c rs)%nat.
Proof. unfold count_class. rewrite filter_cons. by destruct (decide _). Qed.

Lemma count_class_app c l k : count_class c (l ++ k) = (count_class c l + count_class c k)%nat.
Proof. unfold count_class. by rewrite filter_app, length_app. Qed.

Lemma scalar_regs_elem c k r :
  r ∈ scalar_regs c k ↔ regClass r = c ∧ elemIdx r = 2 ^ 16 - 1 ∧ 0 ≤ regIdx r < k.
Proof.
  unfold scalar_regs. rewrite list_elem_of_fmap. split.
  - intros (i & -> & Hi%elem_of_seq). simpl. split_and!; lia || done.
  - intros (Hc & He & Hi). exists (Z.to_nat (regIdx r)). rewrite elem_of_seq. split; [|lia].
    destruct r as [c' i e]; simpl in *. subst. f_equal. lia.
Qed.

Lemma scalar_regs_NoDup c k : NoDup (scalar_regs c k).
Proof. apply NoDup_fmap_2; [|apply NoDup_seq]. intros x y [= H]. lia. Qed.

Lemma scalar_regs_count c c' k :
  count_class c' (scalar_regs c k) = if decide (c = c') then Z.to_nat k else 0%nat.
Proof.
  unfold scalar_regs. generalize 0%nat at 1 as j. induction (Z.to_nat k) as [|q IH]; intros j; simpl.
  - by destruct (decide _).
  - rewrite count_class_cons, IH. simpl. by destruct (decide _).
Qed.

Section create.
Context (a : Arch) (n : Z).

Lemma arch_regs_elem r :
  r ∈ arch_regs a Full ↔ dest_ok a r ∧ regClass r ≠ MiscRegClass.
Proof.
  unfold arch_regs. rewrite !elem_of_app, !scalar_regs_elem. unfold dest_ok, num.
  destruct (regClass r); naive_solver.
Qed.

Lemma arch_regs_NoDup : NoDup (arch_regs a Full).
Proof.
  unfold arch_regs. rewrite !NoDup_app.
  split_and!; eauto using scalar_regs_NoDup;
    intros r Hr Hr'; rewrite ?elem_of_app, ?scalar_regs_elem in *;
    destruct Hr as [Hr _]; rewrite Hr in *; naive_solver.
Qed.

Lemma arch_regs_count c :
  count_class c (arch_regs a Full) =
    match c with VecElemClass | MiscRegClass => 0%nat | _ => Z.to_nat (num a c) end.
Proof.
  unfold arch_regs. rewrite !count_class_app, !scalar_regs_count. destruct c; simpl; lia.
Qed.

Lemma ent_upd_ne u r r' x :
  dest_ok a r → dest_ok a r' → r ≠ r' → ent (upd u r x) r' = ent u r'.
Proof.
  intros (_ & He & Hi) (_ & He' & Hi') Hne. unfold upd. destruct (pget _ _) as [m|] eqn:E; [|done].
  unfold ent; simpl. destruct (decide (regClass r = regClass r')) as [Hc|].
  - rewrite <-Hc, (pget_pset_eq _ _ _ _ E), E. simpl. apply list_lookup_insert_ne.
    intros Heq. apply Hne. destruct r, r'; simpl in *. f_equal; lia || congruence.
  - by rewrite pget_pset_ne.
Qed.

(** The loop that gives the registers [rs] of a thread, all unmapped, their first
    physical registers. *)
Lemma init_entries_ok misc rs f u :
  free_ok n f → shape_ok a u → NoDup rs →
  (∀ r, r ∈ rs → dest_ok a r ∧ ent u r = Some None) →
  (∀ c l, pget f c = Some l → (count_class c rs ≤ length l)%nat) →
  returns (init_entries a misc f u rs) (λ r, let '(f', u') := r in
    free_ok n f' ∧ shape_ok a u' ∧ freed f' ++ mapped u' ≡ₚ freed f ++ mapped u ∧
    (∀ r, r ∈ rs → ∃ p, ent u' r = Some (Some p) ∧ reg_ok n (regClass r) p) ∧
    (∀ r, r ∉ rs → dest_ok a r → ent u' r = ent u r) ∧
    (∀ c l, pget f c = Some l → ∃ l', pget f' c = Some l' ∧ length l = (length l' + count_class c rs)%nat)).
Proof.
  revert f u. induction rs as [|r rs IH]; intros f u Hf Hu Hn Hr Hc; simpl.
  { split_and!; try done; [by intros ? ?%elem_of_nil|]. intros c l Hl. exists l. split; [done|]. unfold count_class; simpl; lia. }
  apply NoDup_cons in Hn as [Hnot Hn]. destruct (Hr r) as [Hd He]; [by left|].
  pose proof (ent_not_misc _ _ _ He) as Hm. destruct (ent_inv _ _ _ He) as (m & Hpm & _).
  destruct (pget_is_Some _ f _ _ Hpm) as [l Hl]. rewrite Hl. pose proof (Hc _ _ Hl) as Hlen.
  rewrite count_class_cons, decide_True in Hlen by done. destruct l as [|p l]; simpl in Hlen; [lia|]. simpl.
  assert (Okp : reg_ok n (regClass r) p) by (eapply Hf; [done|by left]).
  rewrite (setEntry_upd a misc n) by done. simpl. eapply returns_mono; [apply IH|].
  - by eapply free_ok_pop.
  - by apply shape_ok_upd.
  - done.
  - intros r' Hr'. destruct (Hr r') as [Hd' He']; [by right|]. split; [done|].
    rewrite ent_upd_ne; [done..|]. intros ->. done.
  - intros c l' Hl'. destruct (decide (regClass r = c)) as [<-|Hne].
    + rewrite (pget_pset_eq _ _ _ _ Hl) in Hl'. simplify_eq. lia.
    + rewrite pget_pset_ne in Hl' by done. specialize (Hc _ _ Hl').
      rewrite count_class_cons, decide_False in Hc by done. lia.
  - intros [f' u'] (Hf' & Hu' & Hs & Hin & Hout & Hlen'). split_and!; try done.
    + pose proof (freed_pop _ _ _ _ Hl). pose proof (mapped_upd _ _ _ (Some p) He) as Hmu.
      simpl in Hmu. perm.
    + intros r' [->|Hr']%elem_of_cons; [|by apply Hin].
      rewrite Hout by done. exists p. split; [by eapply ent_upd_eq|done].
    + intros r' [Hne Hr']%not_elem_of_cons Hd'. rewrite Hout by done. by apply ent_upd_ne.
    + intros c l' Hl'. rewrite count_class_cons. destruct (decide (regClass r = c)) as [<-|Hne].
      * simplify_eq. destruct (Hlen' (regClass r) l) as (l2 & ? & ?); [by eapply pget_pset_eq|].
        exists l2. simpl. split; [done|lia].
      * destruct (Hlen' c l') as (l2 & ? & ?); [by rewrite pget_pset_ne|]. exists l2. split; [done|lia].
Qed.

(** A map before the first registers are entered. *)
Lemma entries_init k z : entries (init_map k z) = [].
Proof. unfold entries, init_map; simpl. by induction (Z.to_nat k). Qed.

Lemma init_maps_mapped z fz : mapped (init_maps a z fz Full) = [].
Proof. unfold mapped, flat, init_maps; simpl. by rewrite !entries_init. Qed.

Definition nums_ok : Prop :=
  0 ≤ NumIntRegs a ∧ 0 ≤ NumFloatRegs a ∧ 0 ≤ NumVecRegs a ∧ 0 ≤ NumVecElemPerVecReg a ∧
  0 ≤ NumCCRegs a ∧ 0 ≤ NumMiscRegs a < 2 ^ 15.

Lemma init_maps_shape fz : nums_ok → shape_ok a (init_maps a (ZeroReg a) fz Full).
Proof.
  intros (? & ? & ? & ? & ? & ?). split_and!; [done..|].
  intros [] m Hm Hc; simplify_eq/=; try done; by rewrite vlen_replicate by done.
Qed.

Lemma init_maps_ent z fz r :
  r ∈ arch_regs a Full → ent (init_maps a z fz Full) r = Some None.
Proof.
  rewrite arch_regs_elem. intros [(Hc & _ & Hi) Hm]. unfold ent, num in *.
  destruct (regClass r); try done; simpl; apply lookup_replicate_2; lia.
Qed.

Lemma map_ok_ent u :
  shape_ok a u →
  (∀ r, r ∈ arch_regs a Full → ∃ p, ent u r = Some (Some p) ∧ reg_ok n (regClass r) p) → map_ok a n u.
Proof.
  intros (Hv & Hz & Hu) He. split_and!; [done..|]. intros c m Hm Hc. pose proof (Hu _ _ Hm Hc) as Hl. split; [done|].
  intros i x Hx. destruct (He (mkRegId c (Z.of_nat i) (2 ^ 16 - 1))) as (p & Hp & Okp).
  - apply arch_regs_elem. apply lookup_lt_Some in Hx. unfold dest_ok, vlen, physPtr in *. simpl.
    split_and!; [done|done|lia|lia|]. intros ->. done.
  - unfold ent in Hp. simpl in *. rewrite Hm in Hp. simpl in Hp. rewrite Nat2Z.id in Hp. unfold physPtr in *; simplify_eq; eauto.
Qed.

(** Every class can serve [k] threads. *)
Definition enough (k : nat) (f : UnifiedFreeList) : Prop :=
  ∀ c l, pget f c = Some l → (k * count_class c (arch_regs a Full) ≤ length l)%nat.

Lemma init_threads_ok rf k f :
  nums_ok → fileMode rf = Full → free_ok n f → enough k f →
  returns (init_threads a rf f k) (λ r, free_ok n r.1 ∧ length r.2 = k ∧ Forall (map_ok a n) r.2 ∧
    freed r.1 ++ (r.2 ≫= mapped) ≡ₚ freed f).
Proof.
  intros Hnum Hmode. revert f. induction k as [|k IH]; intros f Hf He; simpl.
  { split_and!; try done. by rewrite app_nil_r. }
  rewrite Hmode. apply returns_bind. eapply returns_mono; [apply init_entries_ok|].
  - done.
  - by apply init_maps_shape.
  - apply arch_regs_NoDup.
  - intros r Hr. split; [by apply arch_regs_elem in Hr as [? _]|by apply init_maps_ent].
  - intros c l Hl. specialize (He c l Hl). lia.
  - intros [f' u'] (Hf' & Hu' & Hs & Hin & _ & Hlen). simpl. apply returns_bind.
    eapply returns_mono; [apply IH; [done|]|].
    + intros c l' Hl'. destruct (pget f c) as [l|] eqn:Hl; [|by destruct c].
      destruct (Hlen c l Hl) as (l2 & ? & ?). simplify_eq. specialize (He c l Hl). lia.
    + intros [f2 ms] (Hf2 & Hk & Hms & Hs2). rewrite init_maps_mapped in Hs. cbn [fst snd] in *.
      split_and!; [done|simpl; lia|constructor; [by apply map_ok_ent|done]|]. cbn [fst snd]. rewrite bind_cons. perm.
Qed.

End create.
(** ** Physical registers *)
Lemma scalar_ids_elem c k fl p :
  p ∈ scalar_ids c k fl ↔ rid p ∈ scalar_regs c (rounds k) ∧ flatIdx p = i16 (fl + regIdx (rid p)).
Proof.
  unfold scalar_ids, scalar_regs. rewrite !list_elem_of_fmap. split.
  - intros (i & -> & Hi). simpl. eauto.
  - intros [(i & Hr & Hi) Hf]. exists i. destruct p as [r x]; simpl in *. subst. done.
Qed.

Lemma rounds_id n : n ≤ 2 ^ 15 → rounds n = n.
Proof. unfold rounds. lia. Qed.

(** The checking loops. *)
Lemma check_from_ok n i f :
  (∀ j, i ≤ j < i + Z.of_nat n → f j = Ok tt) → check_from n i f = Ok tt.
Proof.
  revert i. induction n as [|n IH]; intros i H; [done|]. cbn [check_from].
  rewrite H by lia. apply IH. intros j Hj. apply H. lia.
Qed.

Lemma scalar_ids_get c k fl i :
  0 ≤ i < rounds k →
  vget (scalar_ids c k fl) i = Ok (mkPhys (mkRegId c i (2 ^ 16 - 1)) (i16 (fl + i))).
Proof.
  intros Hi. apply vget_Ok. split; [lia|]. unfold scalar_ids.
  rewrite list_lookup_fmap, lookup_seq_lt by lia. simpl. by rewrite Z2Nat.id by lia.
Qed.

Lemma elem_ids_get a k fl i :
  0 ≤ i < rounds k * NumVecElemPerVecReg a →
  vget (elem_ids a k fl) i =
    Ok (mkPhys (mkRegId VecElemClass (i / NumVecElemPerVecReg a) (i mod NumVecElemPerVecReg a)) (i16 (fl + i))).
Proof.
  intros Hi. apply vget_Ok. split; [lia|]. unfold elem_ids.
  rewrite list_lookup_fmap, lookup_seq_lt by lia. simpl. by rewrite Z2Nat.id by lia.
Qed.

Lemma check_ids_ok c k fl : k ≤ 2 ^ 15 → check_ids (scalar_ids c k fl) k = Ok tt.
Proof.
  intros Hk. apply check_from_ok. intros j Hj. rewrite scalar_ids_get by (rewrite rounds_id; lia).
  simpl. by rewrite Z.eqb_refl.
Qed.

Lemma check_vec_ids_ok a k fl fl' :
  k ≤ 2 ^ 15 → check_vec_ids a (scalar_ids VecRegClass k fl) (elem_ids a k fl') k = Ok tt.
Proof.
  intros Hk. apply check_from_ok. intros i Hi. rewrite scalar_ids_get by (rewrite rounds_id; lia).
  cbn -[check_from]. rewrite Z.eqb_refl. cbn -[check_from]. apply check_from_ok. intros j Hj.
  rewrite elem_ids_get by (rewrite rounds_id by done; nia). cbn.
  rewrite <-(Z.div_unique _ _ i j), <-(Z.mod_unique _ _ i j) by lia.
  by rewrite !Z.eqb_refl.
Qed.

Lemma scalar_ids_NoDup c k fl : NoDup (scalar_ids c k fl).
Proof. apply NoDup_fmap_2; [|apply NoDup_seq]. intros x y H. simplify_eq. lia. Qed.

Lemma scalar_ids_length c k fl : length (scalar_ids c k fl) = Z.to_nat (rounds k).
Proof. unfold scalar_ids. by rewrite length_fmap, length_seq. Qed.

(** The registers that are renamed when vectors are renamed as a whole. *)
Definition phys_regs (rf : PhysRegFile) : list PhysRegId :=
  pInt (ids rf) ++ pFloat (ids rf) ++ pVec (ids rf) ++ pCC (ids rf).

Definition file_size (rf : PhysRegFile) : nat := Z.to_nat (totalNumRegs rf).

Lemma addRegs_class f c l rs :
  pget f c = Some l → Forall (λ p, classOf p = c) rs → addRegs f rs = Ok (pset f c (l ++ rs)).
Proof.
  intros Hl Hrs. unfold addRegs. destruct rs as [|r rs].
  { by rewrite app_nil_r, pset_pget. }
  destruct (last (r :: rs)) as [z|] eqn:Hz; [|by apply last_None in Hz].
  assert (classOf z = c) as Hc.
  { rewrite Forall_forall in Hrs. apply Hrs. by apply last_Some_elem_of. }
  apply Forall_cons in Hrs as [Hr _]. simpl. rewrite Hc, Hr, bool_decide_true by done. simpl. by rewrite Hl.
Qed.

Section file.
Context (a : Arch) (nInt nFloat nVec nCC : Z).

Notation rf := (PhysRegFile_new a nInt nFloat nVec nCC Full).

Lemma scalar_ids_class c k fl : Forall (λ p, classOf p = c) (scalar_ids c k fl).
Proof. apply Forall_forall. intros p [[? _]%scalar_regs_elem _]%scalar_ids_elem. done. Qed.

(** The machine has [k] threads' worth of registers, and no more registers in all
    than a [short] numbers. *)
Definition sizes_ok (k : nat) : Prop :=
  nums_ok a ∧ Z.of_nat k * NumIntRegs a ≤ nInt ∧ Z.of_nat k * NumFloatRegs a ≤ nFloat ∧
  Z.of_nat k * NumVecRegs a ≤ nVec ∧ Z.of_nat k * NumCCRegs a ≤ nCC ∧
  nInt + nFloat + nVec + nVec * NumVecElemPerVecReg a + nCC ≤ 2 ^ 15.

Lemma sizes_bounds k :
  sizes_ok k →
  (0 ≤ nInt ≤ 2 ^ 15 ∧ 0 ≤ nFloat ≤ 2 ^ 15 ∧ 0 ≤ nVec ≤ 2 ^ 15 ∧ 0 ≤ nCC ≤ 2 ^ 15) ∧
  0 ≤ nVec * NumVecElemPerVecReg a ∧
  totalNumRegs rf = nInt + nFloat + nVec + nVec * NumVecElemPerVecReg a + nCC.
Proof.
  intros ((? & ? & ? & ? & ? & ?) & ? & ? & ? & ? & ?).
  assert (0 ≤ nInt ∧ 0 ≤ nFloat ∧ 0 ≤ nVec ∧ 0 ≤ nCC) as (? & ? & ? & ?) by nia.
  assert (0 ≤ nVec * NumVecElemPerVecReg a) by nia. split; [lia|]. split; [done|].
  unfold totalNumRegs; simpl. rewrite (u32_id (nVec * _)), u32_id by (unfold is_u32; lia). done.
Qed.

Lemma initFreeList_ok k :
  sizes_ok k →
  initFreeList a rf = Ok (mkPer (pInt (ids rf)) (pFloat (ids rf)) (pVec (ids rf)) [] (pCC (ids rf))).
Proof.
  intros (Hb & _)%sizes_bounds. unfold initFreeList, PhysRegFile_new.
  cbn [ids numPhysical fileMode pInt pFloat pVec pVecElem pCC].
  rewrite !check_ids_ok, check_vec_ids_ok by lia. cbn [mbind res_bind].
  rewrite (addRegs_class _ IntRegClass []) by (done || apply scalar_ids_class). simpl.
  rewrite (addRegs_class _ FloatRegClass []) by (done || apply scalar_ids_class). simpl.
  rewrite (addRegs_class _ VecRegClass []) by (done || apply scalar_ids_class). simpl.
  by rewrite (addRegs_class _ CCRegClass []) by (done || apply scalar_ids_class).
Qed.

Lemma phys_regs_NoDup : NoDup (phys_regs rf).
Proof.
  unfold phys_regs, PhysRegFile_new; simpl. rewrite !NoDup_app.
  split_and!; eauto using scalar_ids_NoDup;
    intros p Hp Hp'; rewrite ?elem_of_app, ?scalar_ids_elem, ?scalar_regs_elem in *;
    destruct Hp as [[Hp _] _]; rewrite Hp in *; naive_solver.
Qed.

Lemma initial_free_ok k :
  sizes_ok k →
  free_ok (Z.of_nat (file_size rf))
    (mkPer (pInt (ids rf)) (pFloat (ids rf)) (pVec (ids rf)) [] (pCC (ids rf))).
Proof.
  intros Hs c l p Hl Hp. destruct (sizes_bounds k Hs) as (Hb & He & Ht).
  destruct Hs as (_ & _ & _ & _ & _ & Htot). unfold reg_ok, file_size. rewrite Ht.
  unfold PhysRegFile_new in *; simpl in *.
  destruct c; simplify_eq/=; try (by apply elem_of_nil in Hp);
    apply scalar_ids_elem in Hp as [(? & _ & Hi)%scalar_regs_elem ->]; (split; [done|]);
    rewrite !rounds_id in * by lia; rewrite i16_id; lia.
Qed.

Lemma initial_enough k :
  sizes_ok k →
  enough a k (mkPer (pInt (ids rf)) (pFloat (ids rf)) (pVec (ids rf)) [] (pCC (ids rf))).
Proof.
  intros Hs c l Hl. destruct (sizes_bounds k Hs) as (Hb & _).
  destruct Hs as ((? & ? & ? & ? & ? & ?) & ? & ? & ? & ? & _). rewrite arch_regs_count.
  destruct c; simplify_eq/=; rewrite ?scalar_ids_length, ?rounds_id by lia; nia.
Qed.
End file.

(** ** The invariant *)
Definition wf (a : Arch) (regs : list PhysRegId) (st : State) : Prop :=
  let n := vlen (scoreboard st) in
  free_ok n (freeList st) ∧
  Forall2 (λ u h, map_ok a n u ∧ hist_ok a n u h) (renameMap st) (historyBuffer st) ∧
  pool st ≡ₚ regs.

Lemma rename_create_wf a nInt nFloat nVec nCC k :
  sizes_ok a nInt nFloat nVec nCC k →
  let rf := PhysRegFile_new a nInt nFloat nVec nCC Full in
  returns (create a rf k) (λ st, wf a (phys_regs rf) st ∧
    length (renameMap st) = k ∧ length (scoreboard st) = file_size rf).
Proof.
  intros Hs. cbv zeta. unfold create. rewrite (initFreeList_ok _ _ _ _ _ _ Hs).
  do 2 apply returns_bind. eapply returns_mono;
    [apply (init_threads_ok a (Z.of_nat (file_size (PhysRegFile_new a nInt nFloat nVec nCC Full))))|].
  - apply Hs.
  - done.
  - by eapply initial_free_ok.
  - by apply initial_enough.
  - intros [f ms] (Hf & Hk & Hms & Hp). cbn [fst snd] in *. simpl. unfold wf, vlen; simpl.
    rewrite length_replicate. split_and!; [done| | |done|done].
    + rewrite <-Hk. clear -Hms. induction Hms; simpl; constructor; done.
    + unfold pool; simpl. assert (replicate k [] ≫= held = []) as -> by (by clear; induction k).
      unfold freed, flat, phys_regs in *. simpl in *. perm.
Qed.

(** ** The rename stage's operations *)
Inductive action :=
| RenameDests (tid sn : Z) (dests : list RegId)
| SquashTo (tid sn : Z)
| CommitTo (tid sn : Z).

Section stage.
Context (a : Arch) (misc : list PhysRegId) (regs : list PhysRegId).

Definition act (st : State) (x : action) : res State :=
  match x with
  | RenameDests tid sn dests => renameDestRegs a misc st tid sn dests
  | SquashTo tid sn => doSquash a misc st sn tid
  | CommitTo tid sn => removeFromHistory st sn tid
  end.

Fixpoint run (st : State) (xs : list action) : res State :=
  match xs with [] => Ok st | x :: xs => st ← act st x; run st xs end.

Definition action_ok (x : action) : Prop :=
  match x with RenameDests _ _ dests => Forall (dest_ok a) dests | _ => True end.

Context (Hregs : NoDup regs).

Lemma pool_share st i u h :
  renameMap st !! i = Some u → historyBuffer st !! i = Some h →
  ∃ rest, share (freeList st) u h ++ rest ≡ₚ pool st.
Proof.
  intros Hu Hh. unfold pool, share.
  exists ((take i (renameMap st) ≫= mapped) ++ (drop (S i) (renameMap st) ≫= mapped) ++
          (take i (historyBuffer st) ≫= held) ++ (drop (S i) (historyBuffer st) ≫= held)).
  rewrite <-(take_drop_middle _ _ _ Hu) at 3. rewrite <-(take_drop_middle _ _ _ Hh) at 3.
  rewrite !bind_app, !bind_cons. perm.
Qed.

Lemma wf_share_NoDup st i u h :
  wf a regs st → renameMap st !! i = Some u → historyBuffer st !! i = Some h →
  NoDup (share (freeList st) u h).
Proof.
  intros (_ & _ & Hp) Hu Hh. destruct (pool_share _ _ _ _ Hu Hh) as [rest Hr].
  rewrite Hp in Hr. rewrite <-Hr in Hregs. by apply NoDup_app in Hregs as [? _].
Qed.

Lemma wf_thread st i u h :
  wf a regs st → renameMap st !! i = Some u → historyBuffer st !! i = Some h →
  map_ok a (vlen (scoreboard st)) u ∧ hist_ok a (vlen (scoreboard st)) u h.
Proof. intros (_ & H & _) Hu Hh. by eapply Forall2_lookup_lr in H. Qed.

(** One thread's part is replaced by another with the same share. *)
Lemma wf_update st i u h f' u' h' sb :
  wf a regs st → renameMap st !! i = Some u → historyBuffer st !! i = Some h →
  vlen sb = vlen (scoreboard st) →
  free_ok (vlen sb) f' → map_ok a (vlen sb) u' → hist_ok a (vlen sb) u' h' →
  share f' u' h' ≡ₚ share (freeList st) u h →
  wf a regs (mkState f' (<[i := u']> (renameMap st)) (<[i := h']> (historyBuffer st)) sb).
Proof.
  intros (Hf & Ht & Hp) Hu Hh Hsb ? ? ? Hs. split_and!; simpl; [done| |].
  - apply Forall2_insert; [|done]. by rewrite Hsb.
  - rewrite (pool_step _ _ _ _ _ _ _ _ Hu Hh Hs). done.
Qed.

Lemma unsetReg_vlen sb p sb' : unsetReg a sb p = Ok sb' → vlen sb' = vlen sb.
Proof.
  unfold unsetReg. intros H. res_inv. repeat case_decide; try case_match; res_inv; simplify_eq; try done.
  by rewrite vlen_insert.
Qed.

Lemma renameDestReg_inv st tid sn r st' :
  renameDestReg a misc st tid sn r = Ok st' →
  ∃ u h new prev u' f' sb, 0 ≤ tid ∧
    renameMap st !! Z.to_nat tid = Some u ∧ historyBuffer st !! Z.to_nat tid = Some h ∧
    rename a misc u (freeList st) r = Ok (new, prev, u', f') ∧ unsetReg a (scoreboard st) new = Ok sb ∧
    st' = mkState f' (<[Z.to_nat tid := u']> (renameMap st))
            (<[Z.to_nat tid := mkHist sn r new prev :: h]> (historyBuffer st)) sb.
Proof.
  intros H. unfold renameDestReg in H. bind_inv H.
  match goal with x : _ * _ * _ * _ |- _ => destruct x as [[[new prev] u'] f'] end.
  bind_inv H. res_inv. eauto 20.
Qed.

Lemma wf_renameDestReg st tid sn r st' :
  wf a regs st → dest_ok a r → renameDestReg a misc st tid sn r = Ok st' → wf a regs st'.
Proof.
  intros Hw Hr (u & h & new & prev & u' & f' & sb & Ht & Hu & Hh & Hn & Hsb & ->)%renameDestReg_inv.
  destruct (wf_thread _ _ _ _ Hw Hu Hh) as [Hm Hok]. pose proof (wf_share_NoDup _ _ _ _ Hw Hu Hh) as Hnd.
  pose proof (unsetReg_vlen _ _ _ Hsb) as Hl. pose proof Hw as (Hf & _ & _).
  destruct (rename_ok _ _ _ _ _ _ _ sn _ _ _ _ Hf Hm Hok Hnd Hr Hn) as (? & ? & ? & ?).
  eapply wf_update; eauto; by rewrite Hl.
Qed.

Lemma wf_renameDestRegs st tid sn dests st' :
  wf a regs st → Forall (dest_ok a) dests → renameDestRegs a misc st tid sn dests = Ok st' → wf a regs st'.
Proof.
  intros Hw Hd. revert st Hw. induction Hd as [|r dests Hr Hd IH]; intros st Hw H; simpl in H.
  - by simplify_eq.
  - apply bind_Ok in H as (st1 & H1 & H). eapply IH; [|done]. by eapply wf_renameDestReg.
Qed.

(** A squash never fails. *)
Lemma doSquash_total st sn tid :
  wf a regs st → 0 ≤ tid < vlen (renameMap st) →
  returns (doSquash a misc st sn tid) (λ st', wf a regs st' ∧ vlen (renameMap st') = vlen (renameMap st)).
Proof.
  intros Hw Ht. pose proof Hw as (Hf & Hth & _). pose proof (Forall2_length _ _ _ Hth) as Hlen.
  destruct (lookup_lt_is_Some_2 (renameMap st) (Z.to_nat tid)) as [u Hu]; [unfold vlen in *; lia|].
  destruct (lookup_lt_is_Some_2 (historyBuffer st) (Z.to_nat tid)) as [h Hh]; [unfold vlen in *; lia|].
  destruct (wf_thread _ _ _ _ Hw Hu Hh) as [Hm Hok]. unfold doSquash.
  rewrite (vget_in _ _ _ (proj1 Ht) Hh). apply returns_bind. cbn [returns].
  rewrite (vget_in _ _ _ (proj1 Ht) Hu). apply returns_bind. cbn [returns]. apply returns_bind.
  eapply returns_mono; [by apply squash_entries_ok|]. intros [[f' u'] h'] (? & ? & ? & ?).
  cbv beta iota. rewrite (vset_in _ tid u') by done. apply returns_bind. cbn [returns].
  rewrite vset_in by (unfold vlen in *; lia). simpl. rewrite vlen_insert. split; [|done].
  by eapply wf_update.
Qed.

(** Nor does a commit. *)
Lemma removeFromHistory_total st sn tid :
  wf a regs st → 0 ≤ tid < vlen (renameMap st) →
  returns (removeFromHistory st sn tid) (λ st', wf a regs st' ∧ vlen (renameMap st') = vlen (renameMap st)).
Proof.
  intros Hw Ht. pose proof Hw as (Hf & Hth & _). pose proof (Forall2_length _ _ _ Hth) as Hlen.
  destruct (lookup_lt_is_Some_2 (renameMap st) (Z.to_nat tid)) as [u Hu]; [unfold vlen in *; lia|].
  destruct (lookup_lt_is_Some_2 (historyBuffer st) (Z.to_nat tid)) as [h Hh]; [unfold vlen in *; lia|].
  destruct (wf_thread _ _ _ _ Hw Hu Hh) as [Hm Hok]. unfold removeFromHistory.
  rewrite (vget_in _ _ _ (proj1 Ht) Hh). apply returns_bind. cbn [returns]. apply returns_bind.
  eapply returns_mono; [apply (commit_history_ok (vlen (scoreboard st))); [done|]|].
  { apply Forall_reverse. by eapply hist_ok_prev. }
  intros [f' h'] (Hf' & d & Hd & Hs). cbn [fst snd] in *.
  rewrite vset_in by (unfold vlen in *; lia). simpl. split; [|done].
  assert (h = reverse h' ++ reverse d) as ->.
  { rewrite <-reverse_app, <-Hd. by rewrite reverse_involutive. }
  rewrite <-(list_insert_id (renameMap st) (Z.to_nat tid) u) by done.
  eapply wf_update; [done|done|done|done|done|done|by eapply hist_ok_prefix|].
  unfold share, held. rewrite bind_app. pose proof (held_reverse d). unfold held in *. perm.
Qed.

Lemma wf_tid st tid h :
  wf a regs st → vget (historyBuffer st) tid = Ok h → 0 ≤ tid < vlen (renameMap st).
Proof.
  intros (_ & Hth & _) [? Hh]%vget_Ok. apply lookup_lt_Some in Hh. apply Forall2_length in Hth.
  unfold vlen. lia.
Qed.

Lemma wf_run xs st st' :
  wf a regs st → Forall action_ok xs → run st xs = Ok st' → wf a regs st'.
Proof.
  intros Hw Hx. revert st Hw. induction Hx as [|x xs Hx Hxs IH]; intros st Hw H; simpl in H.
  { by simplify_eq. }
  apply bind_Ok in H as (st1 & H1 & H). eapply IH; [|done]. clear IH H. destruct x as [tid sn dests|tid sn|tid sn].
  - by eapply wf_renameDestRegs.
  - simpl in H1. pose proof H1 as Hs. apply bind_Ok in H1 as (h & Hh & _).
    pose proof (doSquash_total _ sn _ Hw (wf_tid _ _ _ Hw Hh)) as Ht. rewrite Hs in Ht. apply Ht.
  - simpl in H1. pose proof H1 as Hs. apply bind_Ok in H1 as (h & Hh & _).
    pose proof (removeFromHistory_total _ sn _ Hw (wf_tid _ _ _ Hw Hh)) as Ht. rewrite Hs in Ht. apply Ht.
Qed.
End stage.

(** ** One register, one owner *)
Lemma ent_mapped u r p : ent u r = Some (Some p) → p ∈ mapped u.
Proof.
  intros (m & Hm & Hx & _)%ent_inv. apply flat_elem. exists (regClass r), m. split; [done|].
  apply list_elem_of_omap. exists (Some p). split; [|done]. by eapply list_elem_of_lookup_2.
Qed.

(** Two mappings to one physical register are one mapping. *)
Lemma mapped_unique a (ms : list UnifiedRenameMap) i j u v r r' p :
  NoDup (ms ≫= mapped) → ms !! i = Some u → ms !! j = Some v → dest_ok a r → dest_ok a r' →
  ent u r = Some (Some p) → ent v r' = Some (Some p) → i = j ∧ r = r'.
Proof.
  intros Hn Hi Hj Hr Hr' Hu Hv. destruct (decide (i = j ∧ r = r')) as [|Hne]; [done|]. exfalso.
  assert (Hp : (<[i := upd u r None]> ms ≫= mapped) ++ [p] ≡ₚ ms ≫= mapped).
  { pose proof (bind_insert mapped _ _ _ (upd u r None) Hi). pose proof (mapped_upd _ _ _ None Hu) as H'.
    simpl in H'. perm. }
  rewrite <-Hp in Hn. apply NoDup_app in Hn as (_ & Hd & _). apply (Hd p); [|by left].
  apply list_elem_of_bind. destruct (decide (i = j)) as [->|Hij].
  - simplify_eq. exists (upd u r None). split.
    + apply (ent_mapped _ r'). rewrite (ent_upd_ne a); [done..|naive_solver].
    + eapply list_elem_of_lookup_2. by apply list_lookup_insert_eq; eapply lookup_lt_Some.
  - exists v. split; [by eapply ent_mapped|]. eapply list_elem_of_lookup_2. by rewrite list_lookup_insert_ne.
Qed.

Lemma wf_mapped_NoDup a regs st : NoDup regs → wf a regs st → NoDup (renameMap st ≫= mapped).
Proof.
  intros Hn (_ & _ & Hp). rewrite <-Hp in Hn. unfold pool in Hn.
  apply NoDup_app in Hn as (_ & _ & [? _]%NoDup_app). done.
Qed.

Lemma lookup_ent a misc n u r p :
  map_ok a n u → dest_ok a r → regClass r ≠ MiscRegClass →
  lookup a misc u r = Ok (Some p) → ent u r = Some (Some p).
Proof.
  intros Hu Hr Hm H. destruct (ent_total a n _ _ Hu Hr Hm) as (q & He & _).
  destruct (ent_inv _ _ _ He) as (m & Hpm & Hx & _). unfold lookup in H.
  rewrite Hpm in H. res_inv. unfold lookup_simple in H. rewrite (flatIndex_dest a) in H by done. res_inv.
  rewrite He. unfold physPtr in *. congruence.
Qed.

(** C12: In the mode in which vectors are renamed as a whole ([Full]), the rename stage
    never loses a physical register and never uses one twice.  When the register file
    has enough registers for the threads and at most 2^15 in all, which is what its
    [short] indices can tell apart, construction succeeds; after any sequence of
    renames, squashes and commits that returns, with destinations that are registers
    of the machine (no vector elements), the registers on the free list, in the rename
    maps and kept for undoing are together the registers of the file, each once, so
    two architectural registers, of one or of two threads, are never mapped to one
    physical register.  From there a squash and a commit at any sequence number
    succeed.  In the mode that renames elements this does not hold, see
    [elem_rename_not_seen]. *)
Theorem rename_conservation a nInt nFloat nVec nCC k :
  sizes_ok a nInt nFloat nVec nCC k →
  let rf := PhysRegFile_new a nInt nFloat nVec nCC Full in
  ∃ st0, create a rf k = Ok st0 ∧
  ∀ xs st, Forall (action_ok a) xs → run a (miscIds rf) st0 xs = Ok st →
    pool st ≡ₚ phys_regs rf ∧ NoDup (pool st) ∧
    (∀ i j u v r r' p, renameMap st !! i = Some u → renameMap st !! j = Some v →
       r ∈ arch_regs a Full → r' ∈ arch_regs a Full →
       lookup a (miscIds rf) u r = Ok (Some p) → lookup a (miscIds rf) v r' = Ok (Some p) →
       i = j ∧ r = r') ∧
    ∀ tid sn, 0 ≤ tid < vlen (renameMap st) →
      (∃ st', doSquash a (miscIds rf) st sn tid = Ok st') ∧
      (∃ st', removeFromHistory st sn tid = Ok st').
Proof.
  intros Hs rf. pose proof (phys_regs_NoDup a nInt nFloat nVec nCC) as Hn.
  destruct (proj1 (returns_iff _ _) (rename_create_wf _ _ _ _ _ _ Hs)) as (st0 & Hc & Hw & _).
  exists st0. split; [done|]. intros xs st Hx Hr.
  pose proof (wf_run _ _ _ Hn _ _ _ Hw Hx Hr) as Hw'. split_and!.
  - apply Hw'.
  - destruct Hw' as (_ & _ & ->). done.
  - intros i j u v r r' p Hu Hv Hi%arch_regs_elem Hj%arch_regs_elem H1 H2.
    destruct Hw' as (Hf & Hth & Hp). destruct Hi as [? ?], Hj as [? ?].
    destruct (Forall2_lookup_l _ _ _ _ _ Hth Hu) as (h1 & _ & Hm1 & _).
    destruct (Forall2_lookup_l _ _ _ _ _ Hth Hv) as (h2 & _ & Hm2 & _).
    eapply (mapped_unique a (renameMap st)); eauto using lookup_ent.
    by eapply wf_mapped_NoDup; [|split_and!].
  - intros tid sn Ht. split.
    + destruct (proj1 (returns_iff _ _) (doSquash_total a (miscIds rf) _ st sn tid Hw' Ht)) as (x & ? & _). eauto.
    + destruct (proj1 (returns_iff _ _) (removeFromHistory_total a _ st sn tid Hw' Ht)) as (x & ? & _). eauto.
Qed.

(** A small machine with two threads, and a run on it. *)
Definition small : Arch := mkArch 4 4 2 2 1 3 3 true.
Definition small_file : PhysRegFile := PhysRegFile_new small 16 12 6 4 Full.
Definition ireg (i : Z) : RegId := mkRegId IntRegClass i (2 ^ 16 - 1).
Definition freg (i : Z) : RegId := mkRegId FloatRegClass i (2 ^ 16 - 1).

Definition small_run : list action :=
  [RenameDests 0 1 [ireg 1; freg 2; ireg 3]; RenameDests 0 2 [ireg 1; ireg 0];
   RenameDests 1 3 [ireg 0; ireg 0]; SquashTo 0 1; CommitTo 1 3; CommitTo 0 1].

Definition is_ok {A} (m : res A) : bool := match m with Ok _ => true | Err _ => false end.

Lemma small_sizes : sizes_ok small 16 12 6 4 2.
Proof. unfold sizes_ok, nums_ok, small; simpl; lia. Qed.

Lemma small_run_ok : Forall (action_ok small) small_run.
Proof. repeat constructor; simpl; lia || done. Qed.

Lemma rename_conservation_witness :
  ∃ st, (st0 ← create small small_file 2; run small (miscIds small_file) st0 small_run) = Ok st ∧
    NoDup (pool st) ∧ length (pool st) = 38%nat.
Proof.
  destruct (rename_conservation small 16 12 6 4 2 small_sizes) as (st0 & Hc & H).
  fold small_file in *.
  assert (is_ok (st0 ← create small small_file 2; run small (miscIds small_file) st0 small_run) = true) as Hok
    by (vm_compute; reflexivity).
  rewrite Hc in *. change (is_ok (run small (miscIds small_file) st0 small_run) = true) in Hok.
  destruct (run small (miscIds small_file) st0 small_run) as [st|] eqn:Hr; [|discriminate Hok].
  destruct (H small_run st small_run_ok Hr) as (Hp & Hn & _).
  exists st. split; [exact Hr|]. split; [exact Hn|]. rewrite Hp. vm_compute. reflexivity.
Defined.

(** ** Undoing renames

    Free lists in which the registers wait in another order, and states that differ in
    the order and in the scoreboard only. *)
#[global] Instance free_equiv : Equiv UnifiedFreeList := λ f g,
  pInt f ≡ₚ pInt g ∧ pFloat f ≡ₚ pFloat g ∧ pVec f ≡ₚ pVec g ∧ pVecElem f ≡ₚ pVecElem g ∧ pCC f ≡ₚ pCC g.

#[global] Instance free_equivalence : Equivalence (≡@{UnifiedFreeList}).
Proof.
  split.
  - intros f. by split_and!.
  - intros f g (? & ? & ? & ? & ?). by split_and!.
  - intros f g h (? & ? & ? & ? & ?) (? & ? & ? & ? & ?). split_and!; by etrans.
Qed.

#[global] Instance state_equiv : Equiv State := λ s t,
  freeList s ≡ freeList t ∧ renameMap s = renameMap t ∧ historyBuffer s = historyBuffer t.

#[global] Instance state_equivalence : Equivalence (≡@{State}).
Proof.
  split.
  - intros s. by split_and!.
  - intros s t (? & ? & ?). by split_and!.
  - intros s t u (? & ? & ?) (? & ? & ?). split_and!; etrans; done.
Qed.

(** Results that agree up to an equivalence. *)
Definition res_equiv {A} (R : relation A) (x y : res A) : Prop :=
  match x, y with Ok x, Ok y => R x y | Err e, Err e' => e = e' | _, _ => False end.

Definition history_rel : relation (UnifiedFreeList * UnifiedRenameMap * list RenameHistory) :=
  λ x y, x.1.1 ≡ y.1.1 ∧ x.1.2 = y.1.2 ∧ x.2 = y.2.

Lemma pset_equiv (f g : UnifiedFreeList) c l k :
  f ≡ g → l ≡ₚ k → pset f c l ≡ pset g c k.
Proof. intros (? & ? & ? & ? & ?) ?. destruct c; by split_and!. Qed.

Lemma pget_equiv (f g : UnifiedFreeList) c l :
  f ≡ g → pget f c = Some l → ∃ k, pget g c = Some k ∧ l ≡ₚ k.
Proof. intros (? & ? & ? & ? & ?) ?. destruct c; simplify_eq/=; eauto. Qed.

#[global] Instance addReg_proper : Proper ((≡) ==> (=) ==> res_equiv (≡)) addReg.
Proof.
  intros f g Hfg x p ->. unfold addReg. destruct p as [p|]; simpl; [|done].
  destruct (pget f (classOf p)) as [l|] eqn:El.
  - destruct (pget_equiv _ _ _ _ Hfg El) as (k & -> & Hk). simpl.
    apply pset_equiv; [done|]. unfold addReg_simple. by rewrite Hk.
  - by destruct (classOf p).
Qed.

#[global] Instance squash_history_proper a misc :
  Proper ((≡) ==> (=) ==> (=) ==> (=) ==> res_equiv history_rel) (squash_history a misc).
Proof.
  intros f g Hfg u1 u -> n1 n -> h1 h ->. revert f g Hfg u. induction h as [|e h IH]; intros f g Hfg u.
  { by split_and!. }
  simpl. destruct (n <? instSeqNum e); [|by split_and!]. destruct (decide _); [|by apply IH].
  destruct (setEntry a misc u (archReg e) (prevPhysReg e)) as [u'|]; [|done]. simpl.
  pose proof (addReg_proper _ _ Hfg (newPhysReg e) _ eq_refl) as Ha.
  destruct (addReg f _), (addReg g _); simpl in *; try done. by apply IH.
Qed.

Section undo.
Context (a : Arch) (misc regs : list PhysRegId) (Hregs : NoDup regs).

(** The squash of a rename brings back the map, and the free list up to order. *)
Lemma squash_rename n u f h r sn k new prev u' f' :
  free_ok n f → map_ok a n u → hist_ok a n u h → NoDup (share f u h) → dest_ok a r →
  rename a misc u f r = Ok (new, prev, u', f') → k < sn →
  res_equiv history_rel (squash_history a misc f' u' k (mkHist sn r new prev :: h))
    (squash_history a misc f u k h).
Proof.
  intros Hf Hu Hh Hn Hr H Hk. simpl. rewrite (proj2 (Z.ltb_lt _ _) Hk).
  destruct (rename_inv _ _ _ _ _ _ _ _ _ _ Hu Hr H) as [(-> & -> & ->)|Hx].
  { rewrite decide_False by tauto. by apply squash_history_proper. }
  destruct Hx as (p & q & l & -> & -> & He & Okq & _ & Hl & -> & ->).
  pose proof (share_NoDup_ne _ _ _ _ _ _ _ _ Hn Hl He) as Hpq. rewrite decide_True by congruence.
  assert (Okp : reg_ok n (regClass r) p) by (eapply Hf; [done|by left]).
  rewrite (setEntry_upd a misc n);
    [|by apply (map_ok_shape a n), map_ok_upd|done|by eapply ent_not_misc|done].
  rewrite upd_undo by done. unfold addReg. simpl. destruct Okp as [-> _].
  rewrite (pget_pset_eq _ _ _ _ Hl). simpl. rewrite pset_pset. apply squash_history_proper; [|done..].
  rewrite <-(pset_pget f _ _ Hl) at 2. apply pset_equiv; [done|]. unfold addReg_simple.
  by rewrite Permutation_app_comm.
Qed.

(** The squash of a state to which a rename was added. *)
Lemma doSquash_rename st tid sn k r st' :
  wf a regs st → dest_ok a r → k < sn → renameDestReg a misc st tid sn r = Ok st' →
  res_equiv (≡) (doSquash a misc st' k tid) (doSquash a misc st k tid).
Proof.
  intros Hw Hr Hk (u & h & new & prev & u' & f' & sb & Ht & Hu & Hh & Hn & _ & ->)%renameDestReg_inv.
  destruct (wf_thread _ _ _ _ _ _ Hw Hu Hh) as [Hm Hok].
  pose proof (wf_share_NoDup _ _ Hregs _ _ _ _ Hw Hu Hh) as Hnd. pose proof Hw as (Hf & _ & _).
  pose proof (squash_rename _ _ _ _ _ sn k _ _ _ _ Hf Hm Hok Hnd Hr Hn Hk) as Hs.
  apply lookup_lt_Some in Hu as Hu'. apply lookup_lt_Some in Hh as Hh'.
  unfold doSquash; simpl.
  rewrite (vget_in (<[_:=_]> (historyBuffer st)) tid (mkHist sn r new prev :: h)), (vget_in _ _ _ Ht Hh)
    by (done || by apply list_lookup_insert_eq).
  rewrite (vget_in (<[_:=_]> (renameMap st)) tid u'), (vget_in _ _ _ Ht Hu)
    by (done || by apply list_lookup_insert_eq).
  simpl in *.
  destruct (if k <? sn then _ else _) as [[[f1 u1] h1]|], (squash_history a misc (freeList st) u k h)
    as [[[f2 u2] h2]|]; simpl in *; try done.
  destruct Hs as (Hff & Huu & Hhh). simpl in *. subst u2 h2.
  rewrite !vset_in by (rewrite ?vlen_insert; unfold vlen; lia). simpl.
  rewrite !list_insert_insert_eq. by split_and!.
Qed.

Lemma res_equiv_trans (x y z : res State) : res_equiv (≡) x y → res_equiv (≡) y z → res_equiv (≡) x z.
Proof. destruct x, y, z; simpl; try done; [intros; by etrans|congruence]. Qed.

Lemma doSquash_renames st tid sn k dests st' :
  wf a regs st → Forall (dest_ok a) dests → k < sn → renameDestRegs a misc st tid sn dests = Ok st' →
  res_equiv (≡) (doSquash a misc st' k tid) (doSquash a misc st k tid).
Proof.
  intros Hw Hd Hk. revert st Hw. induction Hd as [|r dests Hr Hd IH]; intros st Hw H; simpl in H.
  { simplify_eq. destruct (doSquash _ _ _ _ _); done. }
  apply bind_Ok in H as (st1 & H1 & H). eapply res_equiv_trans; [eapply IH, H|by eapply doSquash_rename].
  by eapply wf_renameDestReg.
Qed.

(** Instructions of one thread, each with its number and destinations. *)
Definition renames (tid : Z) (insts : list (Z * list RegId)) : list action :=
  (λ i, RenameDests tid i.1 i.2) <$> insts.

Lemma doSquash_run st tid k insts st' :
  wf a regs st → Forall (λ i, k < i.1 ∧ Forall (dest_ok a) i.2) insts →
  run a misc st (renames tid insts) = Ok st' →
  res_equiv (≡) (doSquash a misc st' k tid) (doSquash a misc st k tid).
Proof.
  intros Hw Hi. revert st Hw. induction Hi as [|[sn ds] insts [Hk Hd] Hi IH]; intros st Hw H; simpl in H.
  { simplify_eq. destruct (doSquash _ _ _ _ _); done. }
  apply bind_Ok in H as (st1 & H1 & H). eapply res_equiv_trans; [eapply IH, H|by eapply doSquash_renames].
  by eapply wf_renameDestRegs.
Qed.

(** Nothing is younger than the instruction squashed to. *)
Lemma doSquash_nothing st tid k h :
  0 ≤ tid < vlen (renameMap st) → historyBuffer st !! Z.to_nat tid = Some h →
  Forall (λ e, instSeqNum e ≤ k) h → doSquash a misc st k tid = Ok st.
Proof.
  intros Ht Hh Hk. unfold doSquash. destruct (lookup_lt_is_Some_2 (renameMap st) (Z.to_nat tid)) as [u Hu].
  { unfold vlen in *. lia. }
  rewrite (vget_in _ _ _ (proj1 Ht) Hh), (vget_in _ _ _ (proj1 Ht) Hu). simpl.
  assert (squash_history a misc (freeList st) u k h = Ok (freeList st, u, h)) as ->.
  { destruct Hk as [|e h He Hk]; [done|]. simpl. by rewrite (proj2 (Z.ltb_ge _ _)). }
  apply lookup_lt_Some in Hh as Hh'. simpl. rewrite !vset_in by (unfold vlen in *; lia). simpl.
  rewrite !list_insert_id by done. by destruct st.
Qed.
End undo.

(** C13: In the mode in which vectors are renamed as a whole ([Full]), with at most
    2^15 physical registers, a squash undoes renames.  Whatever instructions a thread
    renamed after the one it is squashed to, the squash gives the rename maps and
    history buffers that a squash would have given before they were renamed, and the
    free list up to the order of the registers; when the state had no younger entries,
    these are the state's own.  The scoreboard is not restored. *)
Theorem rename_squash_roundtrip a nInt nFloat nVec nCC nthreads xs st0 st tid k insts st' :
  let rf := PhysRegFile_new a nInt nFloat nVec nCC Full in
  sizes_ok a nInt nFloat nVec nCC nthreads → create a rf nthreads = Ok st0 →
  Forall (action_ok a) xs → run a (miscIds rf) st0 xs = Ok st →
  0 ≤ tid < vlen (renameMap st) →
  Forall (λ i, k < i.1 ∧ Forall (dest_ok a) i.2) insts →
  run a (miscIds rf) st (renames tid insts) = Ok st' →
  ∃ z z', doSquash a (miscIds rf) st k tid = Ok z ∧ doSquash a (miscIds rf) st' k tid = Ok z' ∧ z' ≡ z ∧
    (∀ h, historyBuffer st !! Z.to_nat tid = Some h → Forall (λ e, instSeqNum e ≤ k) h → z = st).
Proof.
  intros rf Hs Hc Hx Hr Ht Hi Hrun. pose proof (phys_regs_NoDup a nInt nFloat nVec nCC) as Hn.
  pose proof (rename_create_wf _ _ _ _ _ _ Hs) as Hw. cbv zeta in Hw. fold rf in Hw. rewrite Hc in Hw. destruct Hw as [Hw _].
  pose proof (wf_run _ _ _ Hn _ _ _ Hw Hx Hr) as Hw'.
  destruct (proj1 (returns_iff _ _) (doSquash_total a (miscIds rf) _ st k tid Hw' Ht)) as (z & Hz & _).
  pose proof (doSquash_run _ _ _ Hn _ _ _ _ _ Hw' Hi Hrun) as He. rewrite Hz in He.
  destruct (doSquash a (miscIds rf) st' k tid) as [z'|]; [|done].
  exists z, z'. split_and!; try done. intros h Hh Hk.
  rewrite (doSquash_nothing _ _ _ _ _ _ Ht Hh Hk) in Hz. by simplify_eq.
Qed.

Definition or_empty (m : res State) : State :=
  match m with Ok st => st | Err _ => mkState (mkPer [] [] [] [] []) [] [] [] end.

Definition small_insts : list (Z * list RegId) := [(1, [ireg 1; freg 2]); (2, [ireg 1; ireg 3])].

Definition small0 : State := Eval vm_compute in or_empty (create small small_file 2).
Definition small1 : State :=
  Eval vm_compute in or_empty (run small (miscIds small_file) small0 (renames 0 small_insts)).

Lemma small0_eq : create small small_file 2 = Ok small0.
Proof. vm_compute. reflexivity. Qed.

Lemma small1_eq : run small (miscIds small_file) small0 (renames 0 small_insts) = Ok small1.
Proof. vm_compute. reflexivity. Qed.

Lemma small_insts_ok : Forall (λ i, 0 < i.1 ∧ Forall (dest_ok small) i.2) small_insts.
Proof. repeat constructor; simpl; lia || done. Qed.

Lemma rename_squash_roundtrip_witness :
  ∃ z, doSquash small (miscIds small_file) small1 0 0 = Ok z ∧ z ≡ small0 ∧
    (length (freed (freeList small1)) < length (freed (freeList small0)))%nat.
Proof.
  destruct (rename_squash_roundtrip small 16 12 6 4 2 [] small0 small0 0 0 small_insts small1
    small_sizes small0_eq (List.Forall_nil _) eq_refl (conj (Z.le_refl 0) eq_refl) small_insts_ok small1_eq)
    as (z & z' & Hz & Hz' & He & Hn).
  exists z'. split; [exact Hz'|]. split; [|vm_compute; lia].
  rewrite <-(Hn [] eq_refl (List.Forall_nil _)). exact He.
Defined.

End RenameSpec.
