(* ===== verification/RenameLimits.v ===== *)
(** * When renaming succeeds

    [canRename] is the check the rename stage makes before it renames the destinations
    of an instruction.  It is sufficient as long as the zero register is mapped to the
    physical zero register, which only one thread can have. *)

From S2P Require Import Prelude Rename RenameInv RenameSpec.

Module RenameLimits.
Import Rename RenameInv RenameSpec.

(** The counts of destinations an instruction carries, by class. *)
Definition need (dests : list RegId) : PerClass Z :=
  let k c := Z.of_nat (count_class c dests) in
  mkPer (k IntRegClass) (k FloatRegClass) (k VecRegClass) (k VecElemClass) (k CCRegClass).

Lemma canRename_count f dests c l :
  canRename f (need dests) = true → pget f c = Some l → (count_class c dests ≤ length l)%nat.
Proof.
  unfold canRename. rewrite !andb_true_iff, !Z.leb_le. unfold need, vlen. simpl.
  intros ((((? & ?) & ?) & ?) & ?) Hl. destruct c; simplify_eq/=; lia.
Qed.

(** Where the zero register is a destination it has the physical zero register. *)
Definition zero_mapped (a : Arch) (u : UnifiedRenameMap) (dests : list RegId) : Prop :=
  ∀ r, r ∈ dests → is_zero u r = true → ∃ q, ent u r = Some (Some q) ∧ isZeroReg a (rid q) = true.

Lemma is_zero_upd u r x r' : is_zero (upd u r x) r' = is_zero u r'.
Proof.
  unfold is_zero, upd. destruct (pget (maps u) (regClass r)) as [m|] eqn:E; [|done]. simpl.
  destruct (decide (regClass r = regClass r')) as [Hc|Hc].
  - by rewrite <-Hc, (pget_pset_eq _ _ _ _ E), E.
  - by rewrite pget_pset_ne.
Qed.

Section limits.
Context (a : Arch) (misc regs : list PhysRegId) (Hregs : NoDup regs).

Definition misc_ok (n : Z) : Prop :=
  vlen misc = NumMiscRegs a ∧ ∀ p, p ∈ misc → classOf p = MiscRegClass ∧ 0 ≤ flatIdx p < n.

Lemma unsetReg_total sb p :
  0 ≤ flatIdx p < vlen sb → returns (unsetReg a sb (Some p)) (λ sb', vlen sb' = vlen sb).
Proof.
  intros Hp. unfold unsetReg. simpl. rewrite (proj2 (Z.ltb_lt _ _)) by lia. simpl.
  repeat case_decide; try done. case_match; [done|]. rewrite vset_in by lia. simpl. by rewrite vlen_insert.
Qed.

(** What one rename does to a thread's map and to the free list. *)
Definition renamed (f : UnifiedFreeList) (u : UnifiedRenameMap) (r : RegId)
    (f' : UnifiedFreeList) (u' : UnifiedRenameMap) : Prop :=
  (u' = u ∧ f' = f ∧ (regClass r = MiscRegClass ∨ is_zero u r = true)) ∨
  ∃ p l, pget f (regClass r) = Some (p :: l) ∧ is_zero u r = false ∧
    u' = upd u r (Some p) ∧ f' = pset f (regClass r) l.

Lemma rename_total n u f r :
  free_ok n f → map_ok a n u → misc_ok n → dest_ok a r → zero_mapped a u [r] →
  (∀ l, pget f (regClass r) = Some l → (1 ≤ length l)%nat) →
  returns (rename a misc u f r) (λ x, let '(new, prev, u', f') := x in
    renamed f u r f' u' ∧ ∃ p, new = Some p ∧ 0 ≤ flatIdx p < n).
Proof.
  intros Hf Hu [Hm Hmi] Hr Hz Hl. destruct (decide (regClass r = MiscRegClass)) as [Hc|Hc].
  { rewrite rename_misc by done. destruct Hr as (_ & _ & Hi). rewrite Hc in Hi. simpl in Hi.
    apply returns_bind, returns_vget; [lia|]. intros p Hp. simpl. split; [left; auto|].
    exists p. split; [done|]. by eapply Hmi, list_elem_of_lookup_2. }
  destruct (ent_total _ _ _ _ Hu Hr Hc) as (q & He & Okq). destruct (is_zero u r) eqn:Ez.
  { destruct (Hz r) as (q' & He' & Hq'); [by left|done|]. simplify_eq.
    rewrite (rename_zero a misc n _ _ _ q) by done. rewrite Hq'. simpl. split; [left; auto|].
    exists q. split; [done|apply Okq]. }
  destruct (ent_inv _ _ _ He) as (m & Hpm & _). destruct (pget_is_Some _ f _ _ Hpm) as [l Hfl].
  rewrite (rename_new a misc n _ _ _ q l) by done. specialize (Hl _ Hfl).
  destruct l as [|p l]; simpl in Hl; [lia|]. simpl. split; [right; eauto 10|]. exists p. split; [done|].
  eapply Hf; [done|by left].
Qed.

Lemma renameDestReg_total st tid sn r u :
  wf a regs st → 0 ≤ tid → renameMap st !! Z.to_nat tid = Some u →
  misc_ok (vlen (scoreboard st)) → dest_ok a r → zero_mapped a u [r] →
  (∀ l, pget (freeList st) (regClass r) = Some l → (1 ≤ length l)%nat) →
  returns (renameDestReg a misc st tid sn r) (λ st', wf a regs st' ∧
    vlen (scoreboard st') = vlen (scoreboard st) ∧
    ∃ u', renameMap st' !! Z.to_nat tid = Some u' ∧ renamed (freeList st) u r (freeList st') u').
Proof.
  intros Hw Ht Hu Hmi Hr Hz Hl. pose proof Hw as (Hf & Hth & _).
  destruct (Forall2_lookup_l _ _ _ _ _ Hth Hu) as (h & Hh & Hm & _).
  destruct (proj1 (returns_iff _ _) (rename_total _ _ _ _ Hf Hm Hmi Hr Hz Hl))
    as ([[[new prev] u'] f'] & Hn & Hren & p & -> & Hp).
  destruct (proj1 (returns_iff _ _) (unsetReg_total _ _ Hp)) as (sb & Hsb & Hlen).
  apply lookup_lt_Some in Hu as Hu'. apply lookup_lt_Some in Hh as Hh'.
  assert (H : renameDestReg a misc st tid sn r =
    Ok (mkState f' (<[Z.to_nat tid := u']> (renameMap st))
          (<[Z.to_nat tid := mkHist sn r (Some p) prev :: h]> (historyBuffer st)) sb)).
  { unfold renameDestReg. rewrite (vget_in _ _ _ Ht Hu). simpl. rewrite Hn. simpl.
    rewrite vset_in by (unfold vlen; lia). simpl. rewrite Hsb. simpl. rewrite (vget_in _ _ _ Ht Hh). simpl.
    by rewrite vset_in by (unfold vlen; lia). }
  pose proof (wf_renameDestReg _ _ _ Hregs _ _ _ _ _ Hw Hr H) as Hw'. rewrite H. simpl.
  split_and!; [done|done|]. exists u'. split; [|done]. by apply list_lookup_insert_eq.
Qed.

(** [renamed] leaves the other registers, takes from the free list at most one
    register of the class, and keeps the zero register's mapping. *)
Lemma renamed_ent f u r f' u' r' :
  renamed f u r f' u' → dest_ok a r → dest_ok a r' → r ≠ r' → ent u' r' = ent u r'.
Proof. intros [(-> & _)|(p & l & _ & _ & -> & _)] ? ? ?; [done|]. by apply (ent_upd_ne a). Qed.

Lemma renamed_freed f u r f' u' q : renamed f u r f' u' → q ∈ freed f' → q ∈ freed f.
Proof.
  intros [(_ & -> & _)|(p & l & Hl & _ & _ & ->)] Hq; [done|].
  rewrite <-(freed_pop _ _ _ _ Hl). by right.
Qed.

Lemma renamed_is_zero f u r f' u' r' : renamed f u r f' u' → is_zero u' r' = is_zero u r'.
Proof. intros [(-> & _)|(p & l & _ & _ & -> & _)]; [done|]. apply is_zero_upd. Qed.

Lemma renamed_count f u r f' u' rs :
  renamed f u r f' u' →
  (∀ c l, pget f c = Some l → (count_class c (r :: rs) ≤ length l)%nat) →
  ∀ c l, pget f' c = Some l → (count_class c rs ≤ length l)%nat.
Proof.
  intros Hren Hc c l Hl. destruct Hren as [(_ & -> & _)|(p & k & Hk & _ & _ & ->)].
  - specialize (Hc _ _ Hl). rewrite count_class_cons in Hc. lia.
  - destruct (decide (regClass r = c)) as [<-|Hne].
    + rewrite (pget_pset_eq _ _ _ _ Hk) in Hl. simplify_eq. specialize (Hc _ _ Hk).
      rewrite count_class_cons, decide_True in Hc by done. simpl in Hc. lia.
    + rewrite pget_pset_ne in Hl by done. specialize (Hc _ _ Hl). rewrite count_class_cons in Hc. lia.
Qed.

Lemma renamed_zero_mapped f u r f' u' rs :
  renamed f u r f' u' → dest_ok a r → Forall (dest_ok a) rs →
  zero_mapped a u (r :: rs) → zero_mapped a u' rs.
Proof.
  intros Hren Hr Hrs Hz z Hin Hzero. rewrite (renamed_is_zero _ _ _ _ _ _ Hren) in Hzero.
  destruct (Hz z) as (q & He & Hq); [by right|done|]. exists q. split; [|done].
  destruct (decide (r = z)) as [<-|Hne].
  - destruct Hren as [(-> & _)|(p & l & _ & Hn & _)]; [done|congruence].
  - rewrite (renamed_ent _ _ _ _ _ _ Hren Hr); [done| |done]. rewrite Forall_forall in Hrs. by apply Hrs.
Qed.

Lemma renameDestRegs_total tid sn dests st u :
  wf a regs st → 0 ≤ tid → renameMap st !! Z.to_nat tid = Some u →
  misc_ok (vlen (scoreboard st)) → Forall (dest_ok a) dests → zero_mapped a u dests →
  (∀ c l, pget (freeList st) c = Some l → (count_class c dests ≤ length l)%nat) →
  returns (renameDestRegs a misc st tid sn dests) (λ st',
    ∃ u', renameMap st' !! Z.to_nat tid = Some u' ∧
      (∀ r, dest_ok a r → r ∉ dests ∨ is_zero u r = true → ent u' r = ent u r) ∧
      (∀ r, r ∈ dests → regClass r ≠ MiscRegClass → is_zero u r = false →
         ∃ p, ent u' r = Some (Some p) ∧ p ∈ freed (freeList st))).
Proof.
  intros Hw Ht Hu Hmi Hd. revert st u Hw Hu Hmi.
  induction Hd as [|r rs Hr Hd IH]; intros st u Hw Hu Hmi Hz Hc; simpl.
  { exists u. split_and!; [done..|]. by intros r ?%elem_of_nil. }
  apply returns_bind. eapply returns_mono; [apply (renameDestReg_total st tid sn r u)|]; try done.
  { intros z ->%list_elem_of_singleton. apply Hz. by left. }
  { intros l Hl. specialize (Hc _ _ Hl). rewrite count_class_cons, decide_True in Hc by done. lia. }
  intros st1 (Hw1 & Hsb & u1 & Hu1 & Hren). eapply returns_mono; [apply (IH st1 u1)|]; try done.
  { by rewrite Hsb. }
  { by eapply renamed_zero_mapped. }
  { by eapply renamed_count. }
  intros st2 (u2 & Hu2 & Hout & Hin). exists u2. split; [done|].
  split.
  - intros z Hzd Hor. rewrite Hout; [|done|rewrite (renamed_is_zero _ _ _ _ _ _ Hren); set_solver].
    destruct (decide (r = z)) as [<-|Hne]; [|by eapply renamed_ent].
    destruct Hren as [(-> & _)|(p & l & _ & Hn & _)]; [done|]. destruct Hor; [set_solver|congruence].
  - intros z Hzin Hm Hzz. destruct (decide (z ∈ rs)) as [Hrs|Hrs].
    { destruct (Hin z) as (p & ? & ?); [done|done|by rewrite (renamed_is_zero _ _ _ _ _ _ Hren)|].
      exists p. split; [done|]. by eapply renamed_freed. }
    apply elem_of_cons in Hzin as [->|]; [|done]. rewrite Hout by auto.
    destruct Hren as [(_ & _ & [?|?])|(p & l & Hl & _ & -> & _)]; [done|congruence|]. exists p.
    destruct Hw as (_ & Hth & _). destruct (Forall2_lookup_l _ _ _ _ _ Hth Hu) as (h & _ & Hm' & _).
    destruct (ent_total _ _ _ _ Hm' Hr Hm) as (q & He & _). split; [by eapply ent_upd_eq|].
    apply flat_elem. exists (regClass r), (p :: l). split; [done|by left].
Qed.
End limits.

(** ** Reachable states *)
Definition reached (a : Arch) (rf : PhysRegFile) (k : nat) (xs : list action) (st : State) : Prop :=
  ∃ st0, create a rf k = Ok st0 ∧ run a (miscIds rf) st0 xs = Ok st.

Lemma renameDestRegs_scoreboard a misc st tid sn dests st' :
  renameDestRegs a misc st tid sn dests = Ok st' → vlen (scoreboard st') = vlen (scoreboard st).
Proof.
  revert st. induction dests as [|r rs IH]; intros st H; simpl in H; [by simplify_eq|].
  apply bind_Ok in H as (st1 & H1 & H). rewrite (IH _ H).
  apply renameDestReg_inv in H1 as (? & ? & ? & ? & ? & ? & sb & _ & _ & _ & _ & Hsb & ->).
  by eapply unsetReg_vlen.
Qed.

Lemma act_scoreboard a misc st x st' :
  act a misc st x = Ok st' → vlen (scoreboard st') = vlen (scoreboard st).
Proof.
  destruct x as [tid sn ds|tid sn|tid sn]; simpl.
  - apply renameDestRegs_scoreboard.
  - unfold doSquash. intros H. bind_inv H.
    match goal with x : _ * _ * _ |- _ => destruct x as [[? ?] ?] end. bind_inv H. by simplify_eq.
  - unfold removeFromHistory. intros H. bind_inv H. by simplify_eq.
Qed.

Lemma run_scoreboard a misc xs st st' :
  run a misc st xs = Ok st' → vlen (scoreboard st') = vlen (scoreboard st).
Proof.
  revert st. induction xs as [|x xs IH]; intros st H; simpl in H; [by simplify_eq|].
  apply bind_Ok in H as (st1 & H1 & H). rewrite (IH _ H). by eapply act_scoreboard.
Qed.

Section reach.
Context (a : Arch) (nInt nFloat nVec nCC : Z) (k : nat).
Notation rf := (PhysRegFile_new a nInt nFloat nVec nCC Full).
Context (Hs : sizes_ok a nInt nFloat nVec nCC k).

Lemma reached_wf xs st :
  Forall (action_ok a) xs → reached a rf k xs st →
  wf a (phys_regs rf) st ∧ vlen (scoreboard st) = Z.of_nat (file_size rf).
Proof.
  intros Hx (st0 & Hc & Hr). pose proof (rename_create_wf _ _ _ _ _ _ Hs) as Hw. cbv zeta in Hw.
  rewrite Hc in Hw. destruct Hw as (Hw & _ & Hsb). split.
  - exact (wf_run a (miscIds rf) _ (phys_regs_NoDup _ _ _ _ _) xs st0 st Hw Hx Hr).
  - rewrite (run_scoreboard _ _ _ _ _ Hr). unfold vlen. by rewrite Hsb.
Qed.

Lemma file_misc_ok : 0 < nInt → misc_ok a (miscIds rf) (Z.of_nat (file_size rf)).
Proof.
  intros Hpos. destruct (sizes_bounds _ _ _ _ _ _ Hs) as (? & ? & Ht). unfold file_size. rewrite Ht.
  destruct Hs as ((_ & _ & _ & _ & _ & ?) & _). unfold PhysRegFile_new; simpl. split.
  - unfold vlen. rewrite length_fmap, length_seq. lia.
  - intros p (i & -> & _)%list_elem_of_fmap. simpl. split; [done|lia].
Qed.

(** The physical zero register is one register. *)
Lemma phys_zero_unique p q :
  p ∈ phys_regs rf → q ∈ phys_regs rf → classOf p = IntRegClass → classOf q = IntRegClass →
  isZeroReg a (rid p) = true → isZeroReg a (rid q) = true → p = q.
Proof.
  assert (Hint : ∀ p, p ∈ phys_regs rf → classOf p = IntRegClass → isZeroReg a (rid p) = true →
    p = mkPhys (mkRegId IntRegClass (ZeroReg a) (2 ^ 16 - 1)) (i16 (0 + ZeroReg a))).
  { clear. intros p Hp Hc Hz. unfold phys_regs, PhysRegFile_new in Hp. simpl in Hp.
    rewrite !elem_of_app, !scalar_ids_elem, !scalar_regs_elem in Hp. unfold isZeroReg, classOf in *.
    destruct p as [[c i e] fl]; simpl in *. subst c.
    destruct Hp as [[(_ & -> & _) ->]|Hp]; [|naive_solver].
    rewrite bool_decide_true, bool_decide_false in Hz by done.
    rewrite andb_true_l, andb_false_r, andb_false_l, orb_false_r, Z.eqb_eq in Hz. by subst. }
  intros. rewrite (Hint p), (Hint q) by done. done.
Qed.
End reach.

(** [canRename] is enough.  In every reachable state, when the free lists have a
    register for every destination of an instruction by the counts that [canRename]
    compares, renaming the destinations succeeds, provided a zero register among them
    is mapped to the physical zero register.  Every destination that is neither the
    zero register nor a miscellaneous one is then mapped to a register that was free,
    and the zero register and the registers that are no destinations keep their
    mappings. *)
Theorem canRename_sufficient a nInt nFloat nVec nCC k xs st tid u sn dests :
  let rf := PhysRegFile_new a nInt nFloat nVec nCC Full in
  sizes_ok a nInt nFloat nVec nCC k → 0 < nInt → Forall (action_ok a) xs → reached a rf k xs st →
  0 ≤ tid → renameMap st !! Z.to_nat tid = Some u →
  Forall (dest_ok a) dests → zero_mapped a u dests → canRename (freeList st) (need dests) = true →
  ∃ st' u', renameDestRegs a (miscIds rf) st tid sn dests = Ok st' ∧
    renameMap st' !! Z.to_nat tid = Some u' ∧
    (∀ r, dest_ok a r → r ∉ dests ∨ is_zero u r = true → ent u' r = ent u r) ∧
    (∀ r, r ∈ dests → regClass r ≠ MiscRegClass → is_zero u r = false →
       ∃ p, ent u' r = Some (Some p) ∧ p ∈ freed (freeList st)).
Proof.
  intros rf Hs Hpos Hx Hr Ht Hu Hd Hz Hc. destruct (reached_wf _ _ _ _ _ _ Hs _ _ Hx Hr) as [Hw Hsb].
  assert (Hmi : misc_ok a (miscIds rf) (vlen (scoreboard st))) by (rewrite Hsb; by eapply file_misc_ok).
  destruct (proj1 (returns_iff _ _) (renameDestRegs_total a (miscIds rf) _ (phys_regs_NoDup _ _ _ _ _)
    tid sn dests st u Hw Ht Hu Hmi Hd Hz (λ c l, canRename_count _ _ c l Hc))) as (st' & Hrn & u' & ? & ? & ?).
  exists st', u'. done.
Qed.

Definition thread0 : UnifiedRenameMap := Eval vm_compute in
  match renameMap small0 with u :: _ => u | [] => init_maps small 0 0 Full end.

Lemma small0_reached : reached small small_file 2 [] small0.
Proof. exists small0. split; [exact small0_eq|reflexivity]. Qed.

Lemma canRename_sufficient_witness :
  ∃ st' u', renameDestRegs small (miscIds small_file) small0 0 7 [ireg 1; ireg 3; freg 2] = Ok st' ∧
    renameMap st' !! 0%nat = Some u' ∧ ent u' (ireg 3) = ent thread0 (ireg 3) ∧
    ∃ p, ent u' (ireg 1) = Some (Some p) ∧ p ∈ freed (freeList small0).
Proof.
  destruct (canRename_sufficient small 16 12 6 4 2 [] small0 0 thread0 7 [ireg 1; ireg 3; freg 2])
    as (st' & u' & Hr & Hu & Hout & Hin).
  - exact small_sizes.
  - lia.
  - constructor.
  - exact small0_reached.
  - lia.
  - reflexivity.
  - repeat constructor; simpl; lia || done.
  - intros r Hr Hz. rewrite !elem_of_cons in Hr. destruct Hr as [->|[->|[->|[]%elem_of_nil]]];
      vm_compute in Hz; try discriminate Hz. eexists. vm_compute. split; reflexivity.
  - vm_compute. reflexivity.
  - exists st', u'. split; [exact Hr|]. split; [exact Hu|]. split.
    + apply Hout; [unfold dest_ok; simpl; split_and!; lia || done|]. right. vm_compute. reflexivity.
    + apply Hin; [left|done|vm_compute; reflexivity].
Defined.

(** With two threads the zero register cannot be renamed in both.  In every
    reachable state, of two different threads one fails the assertion that the zero
    register is mapped to the physical zero register when it renames the zero register,
    since the constructor gives the zero registers of the threads different physical
    registers and there is one physical zero register. *)
Theorem smt_zero_register a nInt nFloat nVec nCC k xs st t1 t2 sn :
  let rf := PhysRegFile_new a nInt nFloat nVec nCC Full in
  sizes_ok a nInt nFloat nVec nCC k → Forall (action_ok a) xs → reached a rf k xs st →
  0 ≤ ZeroReg a < 2 ^ 16 → ZeroReg a < NumIntRegs a →
  0 ≤ t1 < vlen (renameMap st) → 0 ≤ t2 < vlen (renameMap st) → t1 ≠ t2 →
  renameDestReg a (miscIds rf) st t1 sn (int_zero a) = Err AssertFail ∨
  renameDestReg a (miscIds rf) st t2 sn (int_zero a) = Err AssertFail.
Proof.
  intros rf Hs Hx Hr Hz Hzn Ht1 Ht2 Hne. destruct (reached_wf _ _ _ _ _ _ Hs _ _ Hx Hr) as [Hw _].
  assert (Hd : dest_ok a (int_zero a)).
  { unfold int_zero, dest_ok; simpl. rewrite u16_id by (unfold is_u16; lia). split_and!; [done..|lia|lia]. }
  assert (Hthread : ∀ t, 0 ≤ t < vlen (renameMap st) → ∃ u q,
    renameMap st !! Z.to_nat t = Some u ∧ ent u (int_zero a) = Some (Some q) ∧
    q ∈ phys_regs rf ∧ classOf q = IntRegClass ∧
    (isZeroReg a (rid q) = false →
       renameDestReg a (miscIds rf) st t sn (int_zero a) = Err AssertFail)).
  { intros t Ht. destruct (lookup_lt_is_Some_2 (renameMap st) (Z.to_nat t)) as [u Hu].
    { unfold vlen in *. lia. }
    pose proof Hw as (_ & Hth & Hp). destruct (Forall2_lookup_l _ _ _ _ _ Hth Hu) as (h & Hh & Hm & _).
    destruct (ent_total _ _ _ _ Hm Hd) as (q & He & Hq & _); [done|]. exists u, q. split_and!; try done.
    - unfold rf. rewrite <-Hp. unfold pool. apply elem_of_app. right. apply elem_of_app. left.
      apply list_elem_of_bind. exists u. split; [by eapply ent_mapped|by eapply list_elem_of_lookup_2].
    - intros Hf. unfold renameDestReg. rewrite (vget_in _ _ _ (proj1 Ht) Hu). simpl.
      rewrite (rename_zero a (miscIds rf) _ _ _ _ q Hm Hd He), Hf; [done|].
      unfold is_zero. simpl. apply bool_decide_eq_true. symmetry. apply Hm. }
  destruct (Hthread t1 Ht1) as (u1 & q1 & Hu1 & He1 & Hp1 & Hc1 & Hf1).
  destruct (Hthread t2 Ht2) as (u2 & q2 & Hu2 & He2 & Hp2 & Hc2 & Hf2).
  destruct (isZeroReg a (rid q1)) eqn:Z1; [|by left; apply Hf1].
  destruct (isZeroReg a (rid q2)) eqn:Z2; [|by right; apply Hf2].
  exfalso. pose proof (phys_zero_unique _ _ _ _ _ _ _ Hp1 Hp2 Hc1 Hc2 Z1 Z2) as ->.
  destruct (mapped_unique a (renameMap st) _ _ _ _ _ _ _
    (wf_mapped_NoDup _ _ _ (phys_regs_NoDup _ _ _ _ _) Hw) Hu1 Hu2 Hd Hd He1 He2) as [? _]. lia.
Qed.

Lemma smt_zero_register_witness :
  renameDestReg small (miscIds small_file) small0 0 7 (int_zero small) = Err AssertFail ∨
  renameDestReg small (miscIds small_file) small0 1 7 (int_zero small) = Err AssertFail.
Proof.
  apply (smt_zero_register small 16 12 6 4 2 [] small0 0 1 7).
  - exact small_sizes.
  - constructor.
  - exact small0_reached.
  - simpl. lia.
  - simpl. lia.
  - vm_compute. split; [discriminate|reflexivity].
  - vm_compute. split; [discriminate|reflexivity].
  - lia.
Defined.

(** It is thread 1 that fails. *)
Example smt_second_thread_fails :
  is_ok (renameDestReg small (miscIds small_file) small0 0 7 (int_zero small)) = true ∧
  renameDestReg small (miscIds small_file) small0 1 7 (int_zero small) = Err AssertFail.
Proof. split; vm_compute; reflexivity. Qed.

(** ** Registers that are not recognised

    [SimpleRenameMap::init] builds the zero register of every map in the integer class,
    so the floating-point zero register of Alpha is renamed like any other. *)
Example float_zero_is_renamed :
  is_ALPHA_ISA small = true ∧ isZeroReg small (freg (ZeroReg small)) = true ∧
  ∃ st', renameDestReg small (miscIds small_file) small0 0 7 (freg (ZeroReg small)) = Ok st' ∧
    (u ← renameMap st' !! 0%nat; ent u (freg (ZeroReg small))) ≠ ent thread0 (freg (ZeroReg small)).
Proof.
  split; [done|]. split; [done|]. eexists. split; [vm_compute; reflexivity|]. vm_compute. discriminate.
Qed.

(** When vectors are renamed by element, [rename] writes the entry of the register's
    index and [lookup] reads the entry of the flat index: a source reads the old
    register after the rename. *)
Theorem elem_rename_not_seen a misc u f r m p l :
  regClass r = VecElemClass → vecMode u = Elem → pVecElem (maps u) = m → pVecElem f = p :: l →
  r ≠ zeroReg m → 0 ≤ regIdx r < vlen (map m) → 0 ≤ flatIndex a r → flatIndex a r ≠ regIdx r →
  ∃ prev u' f', rename a misc u f r = Ok (Some p, prev, u', f') ∧ lookup a misc u' r = lookup a misc u r.
Proof.
  intros Hc Hv Hm Hf Hz Hi Hfl Hne. destruct (vlookup_lt (map m) (regIdx r) Hi) as [x Hx].
  unfold rename. rewrite Hc. simpl. rewrite Hm, Hf. simpl. rewrite bool_decide_true by done. simpl.
  unfold rename_simple. rewrite (vget_in _ _ _ (proj1 Hi) Hx). simpl. rewrite decide_True by done.
  simpl. rewrite vset_in by done. simpl. eexists _, _, _. split; [done|].
  unfold lookup. rewrite Hc. simpl. rewrite Hm, !bool_decide_true by done. simpl.
  unfold lookup_simple. simpl. rewrite vlen_insert. destruct (flatIndex a r <=? vlen (map m)); [|done]. simpl.
  unfold vget. rewrite list_lookup_insert_ne by lia. done.
Qed.

End RenameLimits.
