(* ===== verification/Rob.v ===== *)
(** * The reorder buffer

    [ROB] of [cpu/o3/rob.hh] and [rob_impl.hh]: a list of instructions per thread,
    oldest first.  Instructions are shared objects, so the lists hold their addresses
    and [insts] the objects.  An iterator into a list is the address of the instruction
    it stands at, or [None] for [end()]; an instruction is in one list once.  The list
    of active threads belongs to the processor and is an argument. *)

From S2P Require Import Prelude.

Module ROB.

(** The part of an instruction ([cpu/base_dyn_inst.hh]) that the buffer uses. *)
Record DynInst := mkInst {
  seqNum : Z; threadNumber : Z;
  CanCommit : bool; Squashed : bool; RobEntry : bool; Committed : bool
}.

Definition setSquashed (i : DynInst) : DynInst :=
  mkInst (seqNum i) (threadNumber i) (CanCommit i) true (RobEntry i) (Committed i).
Definition setCanCommit (i : DynInst) : DynInst :=
  mkInst (seqNum i) (threadNumber i) true (Squashed i) (RobEntry i) (Committed i).
Definition setInROB (i : DynInst) : DynInst :=
  mkInst (seqNum i) (threadNumber i) (CanCommit i) (Squashed i) true (Committed i).
Definition clearInROB (i : DynInst) : DynInst :=
  mkInst (seqNum i) (threadNumber i) (CanCommit i) (Squashed i) false (Committed i).
Definition setCommitted (i : DynInst) : DynInst :=
  mkInst (seqNum i) (threadNumber i) (CanCommit i) (Squashed i) (RobEntry i) true.

Inductive ROBPolicy := Dynamic | Partitioned | Threshold.

#[global] Instance ROBPolicy_eq_dec : EqDecision ROBPolicy.
Proof. solve_decision. Defined.

Record Params := mkParams {
  numEntries : Z; squashWidth : Z; numThreads : Z; robPolicy : ROBPolicy; smtROBThreshold : Z
}.

Notation InstIt := (option positive).

Record t := mkROB {
  params : Params;
  maxEntries : list Z;
  threadEntries : list Z;
  instList : list (list positive);
  squashIt : list InstIt;
  squashedSeqNum : list Z;
  doneSquashing : list bool;
  numInstsInROB : Z;
  head : InstIt;
  tail : InstIt;
  insts : gmap positive DynInst
}.

Definition with_insts (s : t) m : t :=
  mkROB (params s) (maxEntries s) (threadEntries s) (instList s) (squashIt s) (squashedSeqNum s)
    (doneSquashing s) (numInstsInROB s) (head s) (tail s) m.
Definition with_head (s : t) h : t :=
  mkROB (params s) (maxEntries s) (threadEntries s) (instList s) (squashIt s) (squashedSeqNum s)
    (doneSquashing s) (numInstsInROB s) h (tail s) (insts s).
Definition with_tail (s : t) h : t :=
  mkROB (params s) (maxEntries s) (threadEntries s) (instList s) (squashIt s) (squashedSeqNum s)
    (doneSquashing s) (numInstsInROB s) (head s) h (insts s).
Definition with_max (s : t) m : t :=
  mkROB (params s) m (threadEntries s) (instList s) (squashIt s) (squashedSeqNum s)
    (doneSquashing s) (numInstsInROB s) (head s) (tail s) (insts s).
Definition with_squash (s : t) its sns ds : t :=
  mkROB (params s) (maxEntries s) (threadEntries s) (instList s) its sns ds (numInstsInROB s)
    (head s) (tail s) (insts s).
Definition with_lists (s : t) te il n : t :=
  mkROB (params s) (maxEntries s) te il (squashIt s) (squashedSeqNum s) (doneSquashing s) n
    (head s) (tail s) (insts s).

Definition deref (m : gmap positive DynInst) (p : InstIt) : res DynInst :=
  match p with
  | Some a => match m !! a with Some i => Ok i | None => Err BadPointer end
  | None => Err BadPointer
  end.

(** ** Construction *)
Definition threads (c : Params) : nat := Z.to_nat (numThreads c).

Definition initial_max (c : Params) : res Z :=
  match robPolicy c with
  | Dynamic => Ok (numEntries c)
  | Partitioned => udiv (numEntries c) (numThreads c)
  | Threshold => Ok (u32 (smtROBThreshold c))
  end.

(** [resetState] *)
Definition resetState (s : t) : t :=
  let n := threads (params s) in
  mkROB (params s) (maxEntries s) (replicate n 0) (instList s) (replicate n None) (replicate n 0)
    (replicate n true) 0 None None (insts s).

Definition create (c : Params) (m : gmap positive DynInst) : res t :=
  k ← initial_max c;
  Ok (resetState (mkROB c (replicate (threads c) k) [] (replicate (threads c) []) [] [] [] 0 None None m)).

Definition takeOverFrom (s : t) : t := resetState s.

(** [resetEntries] *)
Fixpoint reset_entries (c : Params) (n : Z) (ths : list Z) (m : list Z) : res (list Z) :=
  match ths with
  | [] => Ok m
  | tid :: ths =>
      m ← (match robPolicy c with
           | Partitioned => k ← udiv (numEntries c) n; vset m tid k
           | Threshold => if n =? 1 then vset m tid (numEntries c) else Ok m
           | Dynamic => Ok m
           end);
      reset_entries c n ths m
  end.

Definition resetEntries (s : t) (activeThreads : list Z) : res t :=
  if bool_decide (robPolicy (params s) ≠ Dynamic) || (1 <? numThreads (params s)) then
    m ← reset_entries (params s) (vlen activeThreads) activeThreads (maxEntries s);
    Ok (with_max s m)
  else Ok s.

Definition entryAmount (s : t) (num_threads : Z) : res Z :=
  if decide (robPolicy (params s) = Partitioned) then udiv (numEntries (params s)) num_threads else Ok 0.

(** ** Queries *)
Definition getThreadEntries (s : t) (tid : Z) : res Z := vget (threadEntries s) tid.
Definition getMaxEntries (s : t) (tid : Z) : res Z := vget (maxEntries s) tid.
Definition countInsts (s : t) (tid : Z) : res Z := l ← vget (instList s) tid; Ok (vlen l).

Definition numFreeEntries (s : t) : Z := u32 (numEntries (params s) - numInstsInROB s).

Definition numFreeEntries_of (s : t) (tid : Z) : res Z :=
  m ← vget (maxEntries s) tid; n ← vget (threadEntries s) tid; Ok (u32 (m - n)).

Definition isFull (s : t) : bool := numInstsInROB s =? numEntries (params s).
Definition isFull_of (s : t) (tid : Z) : res bool :=
  n ← vget (threadEntries s) tid; Ok (n =? numEntries (params s)).
Definition isEmpty (s : t) : bool := numInstsInROB s =? 0.
Definition isEmpty_of (s : t) (tid : Z) : res bool := n ← vget (threadEntries s) tid; Ok (n =? 0).

Fixpoint all_empty (ls : list (list positive)) : res unit :=
  match ls with
  | [] => Ok tt
  | l :: ls => _ ← assert_ (match l with [] => true | _ => false end); all_empty ls
  end.

Definition drainSanityCheck (s : t) : res unit :=
  _ ← all_empty (take (threads (params s)) (instList s)); assert_ (isEmpty s).

Definition isDoneSquashing (s : t) (tid : Z) : res bool := vget (doneSquashing s) tid.

Definition isHeadReady (s : t) (tid : Z) : res bool :=
  n ← vget (threadEntries s) tid;
  if negb (n =? 0) then
    l ← vget (instList s) tid;
    match l with
    | p :: _ => i ← deref (insts s) (Some p); Ok (CanCommit i)
    | [] => Err EmptyAccess
    end
  else Ok false.

Fixpoint canCommit (s : t) (activeThreads : list Z) : res bool :=
  match activeThreads with
  | [] => Ok false
  | tid :: ths => b ← isHeadReady s tid; if (b : bool) then Ok true else canCommit s ths
  end.

(** The instruction, or [None] for the dummy instruction. *)
Definition readHeadInst (s : t) (tid : Z) : res InstIt :=
  n ← vget (threadEntries s) tid;
  if negb (n =? 0) then
    l ← vget (instList s) tid;
    match l with
    | p :: _ => i ← deref (insts s) (Some p); _ ← assert_ (RobEntry i); Ok (Some p)
    | [] => Err EmptyAccess
    end
  else Ok None.

Definition readTailInst (s : t) (tid : Z) : res InstIt :=
  l ← vget (instList s) tid;
  match last l with Some p => Ok (Some p) | None => Err EmptyAccess end.

Fixpoint find_inst (m : gmap positive DynInst) (l : list positive) (sn : Z) : res InstIt :=
  match l with
  | [] => Ok None
  | p :: l => i ← deref m (Some p); if seqNum i =? sn then Ok (Some p) else find_inst m l sn
  end.

Definition findInst (s : t) (tid squash_inst : Z) : res InstIt :=
  l ← vget (instList s) tid; find_inst (insts s) l squash_inst.

(** ** Insertion *)
(** The first instruction in the buffer becomes the head. *)
Definition insert_head (s : t) (l : list positive) (inst : positive) : res InstIt :=
  if numInstsInROB s =? 0 then
    let h := match l with p :: _ => Some p | [] => None end in
    _ ← assert_ (bool_decide (h = Some inst)); Ok h
  else Ok (head s).

Definition insertInst (s : t) (inst : positive) : res t :=
  i ← deref (insts s) (Some inst);
  _ ← assert_ (negb (numInstsInROB s =? numEntries (params s)));
  let tid := threadNumber i in
  l ← vget (instList s) tid;
  il ← vset (instList s) tid (l ++ [inst]);
  h ← insert_head s (l ++ [inst]) inst;
  n ← vget (threadEntries s) tid;
  te ← vset (threadEntries s) tid (u32 (n + 1));
  let s := with_insts s (<[inst := setInROB i]> (insts s)) in
  Ok (with_tail (with_head (with_lists s te il (numInstsInROB s + 1)) h) (Some inst)).

(** ** Retirement *)

(** The loop of [updateHead] over the threads; [cur] is the head found so far with its
    sequence number. *)
Fixpoint update_head (s : t) (ths : list Z) (cur : option (positive * Z)) : res InstIt :=
  match ths with
  | [] => Ok (fst <$> cur)
  | tid :: ths =>
      l ← vget (instList s) tid;
      match l with
      | [] => update_head s ths cur
      | p :: _ =>
          i ← deref (insts s) (Some p);
          match cur with
          | None => update_head s ths (Some (p, seqNum i))
          | Some (_, lowest_num) =>
              if seqNum i <? lowest_num then update_head s ths (Some (p, seqNum i))
              else update_head s ths cur
          end
      end
  end.

Definition updateHead (s : t) (activeThreads : list Z) : res t :=
  h ← update_head s activeThreads None; Ok (with_head s h).

Fixpoint update_tail (s : t) (ths : list Z) (cur : InstIt) : res InstIt :=
  match ths with
  | [] => Ok cur
  | tid :: ths =>
      l ← vget (instList s) tid;
      match last l with
      | None => update_tail s ths cur
      | Some p =>
          match cur with
          | None => update_tail s ths (Some p)
          | Some q =>
              i ← deref (insts s) (Some p);
              j ← deref (insts s) (Some q);
              if seqNum j <? seqNum i then update_tail s ths (Some p) else update_tail s ths cur
          end
      end
  end.

Definition updateTail (s : t) (activeThreads : list Z) : res t :=
  h ← update_tail s activeThreads None; Ok (with_tail s h).

(** [retireHead]; the removal from the processor's own list of instructions is not
    part of the buffer. *)
Definition retireHead (s : t) (activeThreads : list Z) (tid : Z) : res t :=
  _ ← assert_ (0 <? numInstsInROB s);
  l ← vget (instList s) tid;
  match l with
  | [] => Err EmptyAccess
  | p :: l =>
      i ← deref (insts s) (Some p);
      _ ← assert_ (CanCommit i);
      n ← vget (threadEntries s) tid;
      te ← vset (threadEntries s) tid (u32 (n - 1));
      il ← vset (instList s) tid l;
      let s := with_insts s (<[p := setCommitted (clearInROB i)]> (insts s)) in
      updateHead (with_lists s te il (numInstsInROB s - 1)) activeThreads
  end.

(** ** Squashing *)

(** The instruction before [p] in a list. *)
Fixpoint prev_of (l : list positive) (p : positive) : InstIt :=
  match l with
  | a :: ((b :: _) as l') => if decide (b = p) then Some a else prev_of l' p
  | _ => None
  end.

Record walk := mkWalk {
  w_insts : gmap positive DynInst; w_it : InstIt; w_tail : bool; w_head : bool
}.

(** The loop of [doSquash], for [n] instructions at most; [w_tail] is [robTailUpdate]
    and [w_head] tells that the loop returned at the head of the list. *)
Fixpoint squash_loop (n : nat) (l : list positive) (sn : Z) (m : gmap positive DynInst) (it : InstIt)
    (robTailUpdate : bool) : res walk :=
  match n, it with
  | O, _ | _, None => Ok (mkWalk m it robTailUpdate false)
  | S n, Some p =>
      i ← deref m (Some p);
      if sn <? seqNum i then
        let m := <[p := setCanCommit (setSquashed i)]> m in
        match l with
        | [] => Err EmptyAccess
        | a :: _ =>
            if decide (p = a) then Ok (mkWalk m None robTailUpdate true)
            else
              let u := robTailUpdate || bool_decide (last l = Some p) in
              squash_loop n l sn m (prev_of l p) u
        end
      else Ok (mkWalk m it robTailUpdate false)
  end.

Definition set_squash (s : t) (tid : Z) (it : InstIt) (isdone : bool) : res t :=
  its ← vset (squashIt s) tid it;
  ds ← vset (doneSquashing s) tid isdone;
  Ok (with_squash s its (squashedSeqNum s) ds).

Definition doSquash (s : t) (activeThreads : list Z) (tid : Z) : res t :=
  it ← vget (squashIt s) tid;
  l ← vget (instList s) tid;
  sn ← vget (squashedSeqNum s) tid;
  d ← vget (doneSquashing s) tid;
  _ ← assert_ (bool_decide (it ≠ None));
  i ← deref (insts s) it;
  if seqNum i <? sn then set_squash s tid None true
  else
    w ← squash_loop (Z.to_nat (squashWidth (params s))) l sn (insts s) it false;
    let s := with_insts s (w_insts w) in
    if w_head w then set_squash s tid None true
    else
      i ← deref (w_insts w) (w_it w);
      s ← (if seqNum i <=? sn then set_squash s tid None true else set_squash s tid (w_it w) d);
      if w_tail w then updateTail s activeThreads else Ok s.

Definition squash (s : t) (activeThreads : list Z) (squash_num tid : Z) : res t :=
  n ← vget (threadEntries s) tid;
  if n =? 0 then Ok s
  else
    ds ← vset (doneSquashing s) tid false;
    sns ← vset (squashedSeqNum s) tid squash_num;
    let s := with_squash s (squashIt s) sns ds in
    l ← vget (instList s) tid;
    match last l with
    | None => Ok s
    | Some p =>
        its ← vset (squashIt s) tid (Some p);
        doSquash (with_squash s its (squashedSeqNum s) (doneSquashing s)) activeThreads tid
    end.
End ROB.
