(* ===== verification/RobInv.v ===== *)
(** * The reorder buffer's invariant

    Well-formed buffers, the walk of a squash, and the specification of each operation. *)

From S2P Require Import Prelude Rob.

Module ROBInv.
Import ROB.

(** ** Marking *)
Definition sn (m : gmap positive DynInst) (p : positive) : Z := default 0 (seqNum <$> m !! p).

Definition mark (i : DynInst) : DynInst := setCanCommit (setSquashed i).

Definition mark_all (m : gmap positive DynInst) (ps : list positive) : gmap positive DynInst :=
  foldr (alter mark) m ps.

Lemma mark_idemp i : mark (mark i) = mark i.
Proof. done. Qed.

Lemma mark_all_lookup m ps q :
  mark_all m ps !! q = if decide (q ∈ ps) then mark <$> m !! q else m !! q.
Proof.
  induction ps as [|p ps IH]; [by rewrite decide_False by apply not_elem_of_nil|]. simpl.
  destruct (decide (p = q)) as [->|Hne].
  - rewrite lookup_alter_eq, IH. rewrite (decide_True (P := q ∈ q :: ps)) by left.
    destruct (decide _); [|done]. by destruct (m !! q).
  - rewrite lookup_alter_ne, IH by done. destruct (decide (q ∈ ps)), (decide (q ∈ p :: ps)); set_solver.
Qed.

Lemma mark_all_app m ps qs : mark_all m (ps ++ qs) = mark_all (mark_all m qs) ps.
Proof. unfold mark_all. by rewrite foldr_app. Qed.

Lemma mark_all_sn m ps q : sn (mark_all m ps) q = sn m q.
Proof. unfold sn. rewrite mark_all_lookup. destruct (decide _); [|done]. by destruct (m !! q). Qed.

Lemma mark_insert m p i : m !! p = Some i → <[p := mark i]> m = mark_all m [p].
Proof.
  intros H. simpl. apply map_eq. intros q. destruct (decide (p = q)) as [<-|Hne].
  - by rewrite lookup_insert_eq, lookup_alter_eq, H.
  - by rewrite lookup_insert_ne, lookup_alter_ne.
Qed.

(** ** Positions in a list *)
Lemma prev_of_middle l1 a b l2 : NoDup (l1 ++ a :: b :: l2) → prev_of (l1 ++ a :: b :: l2) b = Some a.
Proof.
  induction l1 as [|c l1 IH]; intros Hn; simpl.
  - by rewrite decide_True.
  - apply NoDup_cons in Hn as [Hc Hn]. specialize (IH Hn).
    destruct l1 as [|d l1]; simpl in *.
    + rewrite decide_False; [done|]. intros ->. apply NoDup_cons in Hn as [Hn _]. set_solver.
    + rewrite decide_False; [done|]. intros ->. apply NoDup_cons in Hn as [Hn _]. set_solver.
Qed.

Lemma last_app_ne {A} (l k : list A) : k ≠ [] → last (l ++ k) = last k.
Proof.
  intros Hk. destruct k as [|x k _] using rev_ind; [done|]. by rewrite app_assoc, !last_snoc.
Qed.

Lemma prev_of_last keep todo p marked :
  NoDup (keep ++ (todo ++ [p]) ++ marked) → keep ++ todo ≠ [] →
  prev_of (keep ++ (todo ++ [p]) ++ marked) p = last (keep ++ todo).
Proof.
  intros Hn Hne. revert Hn. rewrite <-!app_assoc, app_assoc. simpl.
  destruct (keep ++ todo) as [|a l _] using rev_ind; [done|]. rewrite last_snoc, <-app_assoc. simpl.
  apply prev_of_middle.
Qed.
(** ** The walk *)

(** The list of a thread that is squashed down to [n]: instructions that stay, those
    still to be marked, and those that are marked. *)
Record split_at (m : gmap positive DynInst) (n : Z) (l keep todo marked : list positive) : Prop := {
  sa_list : l = keep ++ todo ++ marked;
  sa_live : ∀ p, p ∈ l → is_Some (m !! p);
  sa_keep : ∀ p, p ∈ keep → sn m p ≤ n;
  sa_young : ∀ p, p ∈ todo ++ marked → n < sn m p
}.

Lemma rob_deref_live m p : is_Some (m !! p) → ∃ i, deref m (Some p) = Ok i ∧ m !! p = Some i ∧ seqNum i = sn m p.
Proof. intros [i Hi]. exists i. unfold deref, sn. rewrite Hi. done. Qed.

Lemma split_mark m n l keep todo p marked :
  split_at m n l keep (todo ++ [p]) marked → split_at (mark_all m [p]) n l keep todo (p :: marked).
Proof.
  intros [Hl Hlive Hkeep Hy]. split.
  - rewrite Hl. by rewrite <-!app_assoc.
  - intros q Hq. rewrite mark_all_lookup. destruct (Hlive q Hq) as [i ->]. destruct (decide _); simpl; eauto.
  - intros q Hq. rewrite mark_all_sn. auto.
  - intros q Hq. rewrite mark_all_sn. apply Hy. set_solver.
Qed.

(** What the loop leaves when it has marked the youngest [j] of [todo]. *)
Definition after_walk (m : gmap positive DynInst) (keep rest now : list positive) (w : walk) : Prop :=
  w_insts w = mark_all m now ∧
  match keep ++ rest with
  | [] => w_head w = true ∧ w_it w = None
  | _ => w_head w = false ∧ w_it w = last (keep ++ rest)
  end.

Lemma rob_squash_loop_stop w l n m it u i :
  deref m it = Ok i → seqNum i ≤ n →
  squash_loop w l n m it u = Ok (mkWalk m it u false).
Proof.
  intros Hi Hn. destruct w as [|w], it as [p|]; try done. cbn [squash_loop]. rewrite Hi. simpl.
  by rewrite (proj2 (Z.ltb_ge _ _)).
Qed.

Lemma rob_squash_loop_spec w l n m keep todo marked u :
  NoDup l → split_at m n l keep todo marked → todo ≠ [] →
  ∃ rest now, todo = rest ++ now ∧ length now = Nat.min w (length todo) ∧
    returns (squash_loop w l n m (last todo) u) (after_walk m keep rest now).
Proof.
  intros Hnd. revert m todo marked u. induction w as [|w IH]; intros m todo marked u Hsp Hne.
  { exists todo, []. rewrite app_nil_r. split_and!; [done|done|]. simpl. split; [done|].
    destruct (keep ++ todo) eqn:E; [by apply app_nil in E as [_ ?]|]. rewrite <-E. simpl.
    by rewrite last_app_ne. }
  destruct todo as [|p todo _] using rev_ind; [done|]. clear Hne. rewrite last_snoc.
  pose proof Hsp as [Hl Hlive _ Hy]. cbn [squash_loop].
  destruct (rob_deref_live m p) as (i & Hi & Hpi & Hsn); [apply Hlive; rewrite Hl; set_solver|].
  rewrite Hi. cbn [mbind res_bind].
  rewrite (proj2 (Z.ltb_lt _ _)) by (rewrite Hsn; apply Hy; set_solver).
  fold (mark i). rewrite (mark_insert _ _ _ Hpi). pose proof (split_mark _ _ _ _ _ _ _ Hsp) as Hsp'.
  destruct l as [|a l0] eqn:El.
  { exfalso. destruct keep, todo; discriminate Hl. }
  rewrite <-El in *. destruct (decide (keep ++ todo = [])) as [Hnil|Hnil].
  { apply app_nil in Hnil as [-> ->]. simpl in Hl.
    rewrite decide_True by (rewrite El in Hl; by injection Hl).
    exists [], [p]. split_and!; [done|simpl; lia|]. simpl. done. }
  rewrite decide_False; [|intros ->; rewrite Hl in Hnd, El; rewrite <-app_assoc, app_assoc in Hnd, El;
    destruct (keep ++ todo) as [|b k]; [done|]; injection El as -> _;
    apply NoDup_cons in Hnd as [Hnd _]; set_solver].
  assert (Hprev : prev_of l p = last (keep ++ todo)) by (rewrite Hl in *; by apply prev_of_last).
  rewrite Hprev. destruct (decide (todo = [])) as [->|Hne].
  - exists [], [p]. split_and!; [done|simpl; lia|]. rewrite app_nil_r in *.
    destruct keep as [|q keep _] using rev_ind; [done|]. rewrite last_snoc.
    destruct (rob_deref_live (mark_all m [p]) q) as (j & Hj & _ & Hjs).
    { apply Hsp'. rewrite Hl. set_solver. }
    rewrite (rob_squash_loop_stop _ _ _ _ _ _ j Hj) by (rewrite Hjs; apply Hsp'; set_solver).
    split; [done|]. rewrite app_nil_r. destruct (keep ++ [q]) eqn:E; [by destruct keep|].
    rewrite <-E, last_snoc. done.
  - rewrite last_app_ne by done.
    destruct (IH _ todo (p :: marked) (u || bool_decide (last l = Some p)) Hsp' Hne)
      as (rest & now & Htodo & Hlen & Hret).
    exists rest, (now ++ [p]). split_and!; [by rewrite Htodo, app_assoc|rewrite !length_app; cbn [length]; lia|].
    eapply returns_mono; [exact Hret|]. intros r [Hr Hit]. split; [|done]. by rewrite mark_all_app.
Qed.
(** ** Heads and tails *)
Definition lists_live (s : t) : Prop :=
  ∀ i l p, instList s !! i = Some l → p ∈ l → is_Some (insts s !! p).

Definition acts_ok (s : t) (act : list Z) : Prop := Forall (λ tid, 0 ≤ tid < vlen (instList s)) act.

Definition live_it (s : t) (it : InstIt) : Prop := ∀ p, it = Some p → is_Some (insts s !! p).

Lemma update_tail_total s act cur :
  lists_live s → acts_ok s act → live_it s cur → ∃ it, update_tail s act cur = Ok it.
Proof.
  intros Hl Ha. revert cur. induction Ha as [|tid act Ht Ha IH]; intros cur Hc; cbn [update_tail]; [eauto|].
  destruct (vlookup_lt (instList s) tid Ht) as [l Hlk]. rewrite (vget_in _ _ _ (proj1 Ht) Hlk). cbn [mbind res_bind].
  destruct (last l) as [p|] eqn:El; [|by apply IH].
  assert (Hp : is_Some (insts s !! p)) by (eapply Hl; [done|by apply last_Some_elem_of]).
  destruct cur as [q|]; [|apply IH; intros ? [= <-]; done].
  destruct (rob_deref_live _ _ Hp) as (x & -> & _ & _). destruct (rob_deref_live _ _ (Hc q eq_refl)) as (y & -> & _ & _).
  cbn [mbind res_bind]. destruct (seqNum y <? seqNum x); apply IH; [intros ? [= <-]; done|done].
Qed.

(** The head found is the oldest of the threads' first instructions. *)
Definition oldest (s : t) (act : list Z) (h : InstIt) : Prop :=
  (∀ tid p l, tid ∈ act → instList s !! Z.to_nat tid = Some (p :: l) →
     ∃ q, h = Some q ∧ sn (insts s) q ≤ sn (insts s) p) ∧
  (∀ q, h = Some q → ∃ tid l, tid ∈ act ∧ instList s !! Z.to_nat tid = Some (q :: l)).

Lemma update_head_spec s act cur :
  lists_live s → acts_ok s act →
  (∀ q k, cur = Some (q, k) → k = sn (insts s) q) →
  returns (update_head s act cur) (λ h,
    (∀ q k, cur = Some (q, k) → ∃ q', h = Some q' ∧ sn (insts s) q' ≤ k) ∧
    (∀ tid p l, tid ∈ act → instList s !! Z.to_nat tid = Some (p :: l) →
       ∃ q, h = Some q ∧ sn (insts s) q ≤ sn (insts s) p) ∧
    (∀ q, h = Some q → (∃ k, cur = Some (q, k)) ∨
       ∃ tid l, tid ∈ act ∧ instList s !! Z.to_nat tid = Some (q :: l))).
Proof.
  intros Hl Ha. revert cur. induction Ha as [|tid act Ht Ha IH]; intros cur Hc; cbn [update_head].
  { simpl. split_and!.
    - intros q k ->. exists q. split; [done|]. by rewrite (Hc q k eq_refl).
    - by intros ? ? ? ?%elem_of_nil.
    - intros q Hq. left. destruct cur as [[q' k]|]; [|done]. simplify_eq/=. eauto. }
  destruct (vlookup_lt (instList s) tid Ht) as [l Hlk]. rewrite (vget_in _ _ _ (proj1 Ht) Hlk). cbn [mbind res_bind].
  destruct l as [|p l].
  { eapply returns_mono; [by apply IH|]. intros h (H1 & H2 & H3). split_and!; [done| |].
    - intros tid' p l [->|?]%elem_of_cons ?; [congruence|by eapply H2].
    - intros q Hq. destruct (H3 q Hq) as [|(t' & l' & ? & ?)]; [by left|]. right. exists t', l'.
      split; [by right|done]. }
  destruct (rob_deref_live (insts s) p) as (x & -> & _ & Hx); [eapply Hl; [done|by left]|]. cbn [mbind res_bind].
  assert (Hstep : ∀ cur', (∀ q k, cur' = Some (q, k) → k = sn (insts s) q) →
    (∃ q k, cur' = Some (q, k) ∧ k ≤ sn (insts s) p ∧ (∀ q0 k0, cur = Some (q0, k0) → k ≤ k0) ∧
       (cur = Some (q, k) ∨ q = p)) →
    returns (update_head s act cur') (λ h,
      (∀ q k, cur = Some (q, k) → ∃ q', h = Some q' ∧ sn (insts s) q' ≤ k) ∧
      (∀ tid' p0 l0, tid' ∈ tid :: act → instList s !! Z.to_nat tid' = Some (p0 :: l0) →
         ∃ q, h = Some q ∧ sn (insts s) q ≤ sn (insts s) p0) ∧
      (∀ q, h = Some q → (∃ k, cur = Some (q, k)) ∨
         ∃ tid' l0, tid' ∈ tid :: act ∧ instList s !! Z.to_nat tid' = Some (q :: l0)))).
  { intros cur' Hc' (q & k & -> & Hkp & Hk & Hor). eapply returns_mono; [by apply IH|].
    intros h (H1 & H2 & H3). destruct (H1 q k eq_refl) as (q' & -> & Hq'). split_and!.
    - intros q0 k0 Hq0. exists q'. split; [done|]. specialize (Hk _ _ Hq0). lia.
    - intros tid' p0 l0 [->|?]%elem_of_cons Hlk'; [|by eapply H2].
      assert (p0 = p) as -> by congruence. exists q'. split; [done|lia].
    - intros z [= <-]. destruct (H3 q' eq_refl) as [(k' & Hk')|(t' & l' & ? & ?)].
      + simplify_eq. destruct Hor as [|<-]; [eauto|]. right. exists tid, l. split; [by left|done].
      + right. exists t', l'. split; [by right|done]. }
  destruct cur as [[q k]|].
  - pose proof (Hc q k eq_refl) as Hk. destruct (Z.ltb_spec (seqNum x) k); apply Hstep.
    + intros ? ? [= <- <-]. done.
    + exists p, (seqNum x). split_and!; [done|lia|intros ? ? [= <- <-]; lia|by right].
    + done.
    + exists q, k. split_and!; [done|lia|intros ? ? [= <- <-]; lia|by left].
  - apply Hstep.
    + intros ? ? [= <- <-]. done.
    + exists p, (seqNum x). split_and!; [done|lia|done|by right].
Qed.

Lemma updateHead_spec s act :
  lists_live s → acts_ok s act →
  ∃ h, updateHead s act = Ok (with_head s h) ∧ oldest s act h.
Proof.
  intros Hl Ha. destruct (proj1 (returns_iff _ _) (update_head_spec s act None Hl Ha ltac:(done)))
    as (h & Hh & _ & H2 & H3).
  exists h. unfold updateHead. rewrite Hh. split; [done|]. split; [done|].
  intros q Hq. destruct (H3 q Hq) as [[? ?]|]; done.
Qed.

Lemma updateTail_total s act :
  lists_live s → acts_ok s act → ∃ h, updateTail s act = Ok (with_tail s h).
Proof.
  intros Hl Ha. destruct (update_tail_total s act None Hl Ha ltac:(done)) as [h Hh].
  exists h. unfold updateTail. by rewrite Hh.
Qed.
(** ** Well-formed buffers *)
Record thread_ok (m : gmap positive DynInst) (i : nat) (l : list positive) (te : Z) (it : InstIt) (n : Z)
    (d : bool) : Prop := {
  to_count : te = vlen l;
  to_insts : ∀ p, p ∈ l → ∃ x, m !! p = Some x ∧ threadNumber x = Z.of_nat i ∧ RobEntry x = true;
  to_sorted : StronglySorted (λ p q, sn m p < sn m q) l;
  to_squash : (d = true ∧ it = None) ∨
    (d = false ∧ ∃ keep todo marked, split_at m n l keep todo marked ∧ todo ≠ [] ∧ it = last todo ∧
       ∀ p, p ∈ marked → ∃ x, m !! p = Some x ∧ Squashed x = true)
}.

Definition total (ls : list (list positive)) : Z := Z.of_nat (sum_list_with length ls).

Record wf (s : t) : Prop := {
  wf_params : 0 < squashWidth (params s) ∧ 0 ≤ numEntries (params s) < 2 ^ 32;
  wf_len : length (threadEntries s) = threads (params s) ∧ length (instList s) = threads (params s) ∧
    length (squashIt s) = threads (params s) ∧ length (squashedSeqNum s) = threads (params s) ∧
    length (doneSquashing s) = threads (params s) ∧ length (maxEntries s) = threads (params s);
  wf_threads : ∀ i l te it n d, instList s !! i = Some l → threadEntries s !! i = Some te →
    squashIt s !! i = Some it → squashedSeqNum s !! i = Some n → doneSquashing s !! i = Some d →
    thread_ok (insts s) i l te it n d;
  wf_total : numInstsInROB s = total (instList s) ∧ numInstsInROB s ≤ numEntries (params s)
}.

Lemma sorted_NoDup m l : StronglySorted (λ p q, sn m p < sn m q) l → NoDup l.
Proof.
  induction 1 as [|p l Hs IH HF]; [constructor|]. constructor; [|done]. intros Hp.
  rewrite Forall_forall in HF. specialize (HF p Hp). lia.
Qed.

(** What the invariant uses of an instruction. *)
Definition core (x : DynInst) : Z * Z * bool * bool := (seqNum x, threadNumber x, RobEntry x, Squashed x).

Lemma thread_ok_core m m' i l te it n d :
  (∀ p x, p ∈ l → m !! p = Some x → ∃ y, m' !! p = Some y ∧ core y = core x) →
  thread_ok m i l te it n d → thread_ok m' i l te it n d.
Proof.
  intros Hm [Hc Hi Hs Hsq]. assert (Hsn : ∀ p, p ∈ l → sn m' p = sn m p).
  { intros p Hp. destruct (Hi p Hp) as (x & Hx & _). destruct (Hm p x Hp Hx) as (y & Hy & [=]). unfold sn.
    rewrite Hx, Hy. simpl. congruence. }
  split; [done| | |].
  - intros p Hp. destruct (Hi p Hp) as (x & Hx & ? & ?). destruct (Hm p x Hp Hx) as (y & Hy & [=]).
    exists y. split_and!; congruence.
  - clear -Hs Hsn. induction Hs as [|p l Hs IH HF]; [constructor|]. constructor; [apply IH; set_solver|].
    rewrite Forall_forall in *. intros q Hq. rewrite !Hsn by set_solver. by apply HF.
  - destruct Hsq as [|(Hd & keep & todo & marked & [Hl Hlive Hk Hy] & Hne & Hit & Hmk)]; [by left|].
    right. split; [done|]. exists keep, todo, marked. split_and!; [split|done|done|].
    + done.
    + intros p Hp. destruct (Hlive p Hp) as [x Hx]. destruct (Hm p x Hp Hx) as (y & ? & _). eauto.
    + intros p Hp. rewrite Hsn by set_solver. auto.
    + intros p Hp. rewrite Hsn by set_solver. auto.
    + intros p Hp. destruct (Hmk p Hp) as (x & Hx & ?). destruct (Hm p x) as (y & ? & [=]); [set_solver|done|].
      exists y. split; congruence.
Qed.

(** A thread whose instructions did not change. *)
Lemma thread_ok_frame m m' i l te it n d :
  (∀ p, p ∈ l → m' !! p = m !! p) → thread_ok m i l te it n d → thread_ok m' i l te it n d.
Proof. intros Hm. apply thread_ok_core. intros p x Hp Hx. exists x. by rewrite Hm. Qed.

(** Changes to the objects that no list depends on. *)
Lemma wf_insts s m' :
  wf s →
  (∀ i l p x, instList s !! i = Some l → p ∈ l → insts s !! p = Some x → ∃ y, m' !! p = Some y ∧ core y = core x) →
  wf (with_insts s m').
Proof.
  intros [Hp Hlen Ht Htot] Hm. split; simpl; [done|done| |done]. intros i l te it n d H1 H2 H3 H4 H5.
  eapply (thread_ok_core (insts s)); [|by apply Ht]. intros p x. by apply (Hm i l).
Qed.

(** The state of one thread, by its number. *)
Record thread_at (s : t) (tid : Z) (l : list positive) (te : Z) (it : InstIt) (n : Z) (d : bool) : Prop := {
  ta_list : instList s !! Z.to_nat tid = Some l;
  ta_entries : threadEntries s !! Z.to_nat tid = Some te;
  ta_it : squashIt s !! Z.to_nat tid = Some it;
  ta_sn : squashedSeqNum s !! Z.to_nat tid = Some n;
  ta_done : doneSquashing s !! Z.to_nat tid = Some d
}.

Lemma wf_thread_at s tid :
  wf s → 0 ≤ tid < vlen (instList s) →
  ∃ l te it n d, thread_at s tid l te it n d ∧ thread_ok (insts s) (Z.to_nat tid) l te it n d.
Proof.
  intros [_ (L1 & L2 & L3 & L4 & L5 & _) Ht _] Htid. unfold vlen in Htid.
  destruct (lookup_lt_is_Some_2 (instList s) (Z.to_nat tid)) as [l ?]; [lia|].
  destruct (lookup_lt_is_Some_2 (threadEntries s) (Z.to_nat tid)) as [te ?]; [lia|].
  destruct (lookup_lt_is_Some_2 (squashIt s) (Z.to_nat tid)) as [it ?]; [lia|].
  destruct (lookup_lt_is_Some_2 (squashedSeqNum s) (Z.to_nat tid)) as [n ?]; [lia|].
  destruct (lookup_lt_is_Some_2 (doneSquashing s) (Z.to_nat tid)) as [d ?]; [lia|].
  exists l, te, it, n, d. split; [by split|by apply Ht].
Qed.

Lemma wf_live s : wf s → lists_live s.
Proof.
  intros Hw i l p Hl Hp. destruct (wf_thread_at s (Z.of_nat i) Hw) as (l' & te & it & n & d & [Hl' _ _ _ _] & Hok).
  { apply lookup_lt_Some in Hl. unfold vlen. lia. }
  rewrite Nat2Z.id in *. simplify_eq. destruct Hok as [_ Hi _ _]. destruct (Hi p Hp) as (x & ? & _). eauto.
Qed.

(** Lists of different threads share no instruction. *)
Lemma wf_disjoint s i j l k p :
  wf s → instList s !! i = Some l → instList s !! j = Some k → p ∈ l → p ∈ k → i = j.
Proof.
  intros Hw Hi Hj Hp Hp'.
  destruct (wf_thread_at s (Z.of_nat i) Hw) as (l1 & ? & ? & ? & ? & [? _ _ _ _] & [_ H1 _ _]).
  { apply lookup_lt_Some in Hi. unfold vlen. lia. }
  destruct (wf_thread_at s (Z.of_nat j) Hw) as (l2 & ? & ? & ? & ? & [? _ _ _ _] & [_ H2 _ _]).
  { apply lookup_lt_Some in Hj. unfold vlen. lia. }
  rewrite Nat2Z.id in *. simplify_eq. destruct (H1 p Hp) as (px & ? & ? & _), (H2 p Hp') as (py & ? & ? & _).
  simplify_eq. lia.
Qed.

(** A buffer in which one thread changed, and instructions of that thread only. *)
Lemma rob_wf_update s s' tid l te it n d l' te' it' n' d' :
  wf s → 0 ≤ tid → thread_at s tid l te it n d →
  params s' = params s → length (maxEntries s') = length (maxEntries s) →
  instList s' = <[Z.to_nat tid := l']> (instList s) →
  threadEntries s' = <[Z.to_nat tid := te']> (threadEntries s) →
  squashIt s' = <[Z.to_nat tid := it']> (squashIt s) →
  squashedSeqNum s' = <[Z.to_nat tid := n']> (squashedSeqNum s) →
  doneSquashing s' = <[Z.to_nat tid := d']> (doneSquashing s) →
  (∀ i k p, i ≠ Z.to_nat tid → instList s !! i = Some k → p ∈ k → insts s' !! p = insts s !! p) →
  thread_ok (insts s') (Z.to_nat tid) l' te' it' n' d' →
  numInstsInROB s' = total (instList s') → numInstsInROB s' ≤ numEntries (params s) →
  wf s'.
Proof.
  intros [Hp Hlen Ht _] Htid [A1 A2 A3 A4 A5] Ep Em El Ee Ei En Ed Hframe Hok Htot Hle. split.
  - by rewrite Ep.
  - rewrite El, Ee, Ei, En, Ed, Em, Ep, !length_insert. done.
  - rewrite El, Ee, Ei, En, Ed. intros i k te0 it0 n0 d0 H1 H2 H3 H4 H5.
    destruct (decide (i = Z.to_nat tid)) as [->|Hne].
    + apply lookup_lt_Some in A1, A2, A3, A4, A5. rewrite !list_lookup_insert_eq in * by done. by simplify_eq.
    + rewrite !list_lookup_insert_ne in * by done. eapply (thread_ok_frame (insts s)); [|by apply Ht].
      intros q Hq. by eapply Hframe.
  - by rewrite Ep.
Qed.
Lemma vlen_lookup {A} (l : list A) i x : 0 ≤ i → l !! Z.to_nat i = Some x → 0 ≤ i < vlen l.
Proof. intros Hi Hx%lookup_lt_Some. unfold vlen. lia. Qed.

(** ** Counting *)
Lemma total_insert ls i l l' : ls !! i = Some l → total (<[i := l']> ls) = total ls - vlen l + vlen l'.
Proof.
  unfold total, vlen. revert i. induction ls as [|k ls IH]; intros [|i] H; simplify_eq/=; [lia|].
  specialize (IH i H). lia.
Qed.

Lemma total_le ls i l : ls !! i = Some l → vlen l ≤ total ls.
Proof.
  unfold total, vlen. revert i. induction ls as [|k ls IH]; intros [|i] H; simplify_eq/=; [lia|].
  specialize (IH i H). lia.
Qed.

Lemma sn_insert m p x y q : m !! p = Some x → seqNum y = seqNum x → sn (<[p := y]> m) q = sn m q.
Proof.
  intros Hp Hy. unfold sn. destruct (decide (p = q)) as [<-|]; [by rewrite lookup_insert_eq, Hp; simpl|].
  by rewrite lookup_insert_ne.
Qed.

Lemma sorted_ext (R R' : positive → positive → Prop) l :
  (∀ p q, R p q → R' p q) → StronglySorted R l → StronglySorted R' l.
Proof.
  intros H. induction 1 as [|p l Hs IH HF]; [constructor|]. constructor; [done|].
  eapply Forall_impl; [exact HF|]. eauto.
Qed.

Lemma sorted_snoc (R : positive → positive → Prop) l p :
  StronglySorted R l → (∀ q, q ∈ l → R q p) → StronglySorted R (l ++ [p]).
Proof.
  induction 1 as [|a l Hs IH HF]; intros Hp; simpl; [by repeat constructor|].
  constructor; [apply IH; set_solver|]. rewrite Forall_app. split; [done|]. constructor; [|done].
  apply Hp. by left.
Qed.

(** ** Insertion and retirement *)
Definition can_insert (s : t) (p : positive) : Prop :=
  ∃ x l te it n, insts s !! p = Some x ∧ RobEntry x = false ∧ 0 ≤ threadNumber x ∧
    thread_at s (threadNumber x) l te it n true ∧ (∀ q, q ∈ l → sn (insts s) q < seqNum x) ∧
    numInstsInROB s < numEntries (params s).

Lemma insertInst_spec s p :
  wf s → can_insert s p →
  ∃ s' x l, insertInst s p = Ok s' ∧ wf s' ∧ insts s !! p = Some x ∧
    instList s !! Z.to_nat (threadNumber x) = Some l ∧
    instList s' = <[Z.to_nat (threadNumber x) := l ++ [p]]> (instList s) ∧
    insts s' = <[p := setInROB x]> (insts s) ∧ params s' = params s ∧ tail s' = Some p ∧
    squashedSeqNum s' = squashedSeqNum s ∧ doneSquashing s' = doneSquashing s ∧ maxEntries s' = maxEntries s.
Proof.
  intros Hw (x & l & te & it & n & Hx & Hrob & Htid & Hta & Hyoung & Hroom).
  set (tid := threadNumber x) in *. pose proof Hta as [A1 A2 A3 A4 A5]. pose proof Hw as [(_ & Hmax) _ Hth [Htot Hcap]].
  pose proof (Hth _ _ _ _ _ _ A1 A2 A3 A4 A5) as [Hc Hi Hso Hsq]. pose proof (total_le _ _ _ A1).
  assert (Hfresh : ∀ i k, instList s !! i = Some k → p ∉ k).
  { intros i k Hk Hp. destruct (wf_thread_at s (Z.of_nat i) Hw) as (l1 & ? & ? & ? & ? & [? _ _ _ _] & [_ H1 _ _]).
    { apply lookup_lt_Some in Hk. unfold vlen. lia. }
    rewrite Nat2Z.id in *. simplify_eq. destruct (H1 p Hp) as (y & ? & _ & ?). simplify_eq. congruence. }
  eexists _, x, l. split.
  { unfold insertInst, deref. rewrite Hx. cbn [mbind res_bind].
    rewrite (proj2 (Z.eqb_neq (numInstsInROB s) (numEntries (params s)))) by lia. cbn [mbind res_bind negb assert_]. fold tid.
    rewrite (vget_in _ _ _ Htid A1). cbn [mbind res_bind].
    rewrite (vset_in (instList s) tid) by (by eapply vlen_lookup). cbn [mbind res_bind].
    assert (Hhead : insert_head s (l ++ [p]) p = Ok (if numInstsInROB s =? 0 then Some p else head s)).
    { unfold insert_head. destruct (Z.eqb_spec (numInstsInROB s) 0) as [H0|]; [|done].
      destruct l; [|unfold vlen in *; simpl in *; lia]. simpl. by rewrite bool_decide_true. }
    rewrite Hhead. cbn [mbind res_bind]. rewrite (vget_in _ _ _ Htid A2). cbn [mbind res_bind].
    rewrite (vset_in (threadEntries s) tid) by (by eapply vlen_lookup). done. }
  split; [|by split_and!].
  { eapply (rob_wf_update s _ tid l te it n true (l ++ [p]) (te + 1) it n true); try done; simpl.
    + rewrite u32_id; [done|]. unfold is_u32. unfold vlen in *. lia.
    + symmetry. by apply list_insert_id.
    + symmetry. by apply list_insert_id.
    + symmetry. by apply list_insert_id.
    + intros i k q Hne Hk Hq. rewrite lookup_insert_ne; [done|]. intros ->. by apply (Hfresh i k).
    + split.
      * rewrite Hc. unfold vlen. rewrite length_app. simpl. lia.
      * intros q [Hq| ->%list_elem_of_singleton]%elem_of_app.
        -- destruct (Hi q Hq) as (y & Hy & ?). exists y. rewrite lookup_insert_ne; [done|]. intros ->.
           by apply (Hfresh _ _ A1).
        -- exists (setInROB x). rewrite lookup_insert_eq. split_and!; [done|simpl; lia|done].
      * apply sorted_snoc.
        -- eapply sorted_ext; [|exact Hso]. intros a b Hab. by rewrite !(sn_insert _ _ _ _ _ Hx).
        -- intros q Hq. rewrite !(sn_insert _ _ _ _ _ Hx) by done. unfold sn at 2. rewrite Hx. simpl. auto.
      * left. destruct Hsq as [|[? _]]; done.
    + rewrite (total_insert _ _ _ _ A1). unfold vlen in *. rewrite length_app. simpl. lia.
    + lia. }
Qed.
(** The thread is not squashing and its oldest instruction is ready. *)
Definition can_retire (s : t) (tid : Z) : Prop :=
  ∃ p x l te it n, 0 ≤ tid ∧ thread_at s tid (p :: l) te it n true ∧ insts s !! p = Some x ∧ CanCommit x = true.

Lemma retireHead_spec s act tid :
  wf s → acts_ok s act → can_retire s tid →
  ∃ s' p x l, retireHead s act tid = Ok s' ∧ wf s' ∧
    instList s !! Z.to_nat tid = Some (p :: l) ∧ insts s !! p = Some x ∧
    instList s' = <[Z.to_nat tid := l]> (instList s) ∧
    insts s' = <[p := setCommitted (clearInROB x)]> (insts s) ∧ params s' = params s ∧
    squashedSeqNum s' = squashedSeqNum s ∧ doneSquashing s' = doneSquashing s ∧ maxEntries s' = maxEntries s ∧
    oldest s' act (head s').
Proof.
  intros Hw Ha (p & x & l & te & it & n & Htid & Hta & Hx & Hcc).
  pose proof Hta as [A1 A2 A3 A4 A5]. pose proof Hw as [(_ & Hmax) _ Hth [Htot Hcap]].
  pose proof (Hth _ _ _ _ _ _ A1 A2 A3 A4 A5) as [Hc Hi Hso Hsq]. pose proof (total_le _ _ _ A1).
  assert (Hvl : vlen (p :: l) = vlen l + 1 ∧ 0 ≤ vlen l) by (unfold vlen; simpl; lia).
  apply StronglySorted_inv in Hso as [Hso Hlt]. rewrite Forall_forall in Hlt.
  assert (Hpl : p ∉ l) by (intros Hp; specialize (Hlt p Hp); lia).
  set (s1 := with_lists (with_insts s (<[p := setCommitted (clearInROB x)]> (insts s)))
    (<[Z.to_nat tid := te - 1]> (threadEntries s)) (<[Z.to_nat tid := l]> (instList s)) (numInstsInROB s - 1)).
  assert (Hw1 : wf s1).
  { eapply (rob_wf_update s _ tid (p :: l) te it n true l (te - 1) it n true); try done; simpl.
    + symmetry. by apply list_insert_id.
    + symmetry. by apply list_insert_id.
    + symmetry. by apply list_insert_id.
    + intros i k q Hne Hk Hq. rewrite lookup_insert_ne; [done|]. intros <-. apply Hne.
      eapply (wf_disjoint s); [done|done|done|done|by left].
    + split.
      * lia.
      * intros q Hq. destruct (Hi q) as (y & ? & ?); [by right|]. exists y.
        rewrite lookup_insert_ne; [done|]. by intros <-.
      * eapply sorted_ext; [|exact Hso]. intros b c Hbc. by rewrite !(sn_insert _ _ _ _ _ Hx).
      * left. destruct Hsq as [|[? _]]; done.
    + rewrite (total_insert _ _ _ _ A1). lia.
    + lia. }
  destruct (updateHead_spec s1 act (wf_live _ Hw1)) as (h & Hh & Hold).
  { unfold acts_ok, s1 in *. simpl. by rewrite vlen_insert. }
  exists (with_head s1 h), p, x, l. split; [|split_and!; try done].
  - unfold retireHead. rewrite (proj2 (Z.ltb_lt 0 (numInstsInROB s))) by lia. cbn [mbind res_bind assert_].
    rewrite (vget_in _ _ _ Htid A1). cbn [mbind res_bind]. unfold deref. rewrite Hx. cbn [mbind res_bind].
    rewrite Hcc. cbn [mbind res_bind assert_]. rewrite (vget_in _ _ _ Htid A2). cbn [mbind res_bind].
    rewrite (vset_in (threadEntries s) tid) by (by eapply vlen_lookup). cbn [mbind res_bind].
    rewrite (vset_in (instList s) tid) by (by eapply vlen_lookup). cbn [mbind res_bind].
    rewrite u32_id by (unfold is_u32; lia). exact Hh.
  - destruct Hw1 as [? ? ? ?]. by split.
Qed.

(** ** Squashing *)
Lemma set_squash_eq s tid it d b :
  0 ≤ tid → squashIt s !! Z.to_nat tid = Some it → doneSquashing s !! Z.to_nat tid = Some d →
  ∀ it', set_squash s tid it' b = Ok (with_squash s (<[Z.to_nat tid := it']> (squashIt s)) (squashedSeqNum s)
    (<[Z.to_nat tid := b]> (doneSquashing s))).
Proof.
  intros Ht Hi Hd it'. unfold set_squash. rewrite (vset_in (squashIt s)) by (by eapply vlen_lookup).
  cbn [mbind res_bind]. by rewrite (vset_in (doneSquashing s)) by (by eapply vlen_lookup).
Qed.

(** The buffer after [now] was marked and [rest] is still to do. *)
Definition squashed_to (s : t) (tid : Z) (rest now : list positive) (s' : t) : Prop :=
  ∃ tl, s' = with_tail (with_squash (with_insts s (mark_all (insts s) now))
    (<[Z.to_nat tid := last rest]> (squashIt s)) (squashedSeqNum s)
    (<[Z.to_nat tid := bool_decide (rest = [])]> (doneSquashing s))) tl.

Lemma lists_live_mark s m' its sns ds :
  lists_live s → (∀ p, is_Some (insts s !! p) → is_Some (m' !! p)) →
  lists_live (with_squash (with_insts s m') its sns ds).
Proof. intros Hl Hm i l p Hi Hp. apply Hm. by eapply Hl. Qed.

Lemma mark_all_live m ps p : is_Some (m !! p) → is_Some (mark_all m ps !! p).
Proof. intros [x Hx]. rewrite mark_all_lookup, Hx. destruct (decide _); simpl; eauto. Qed.

Lemma doSquash_spec s act tid l te n keep todo marked :
  wf s → acts_ok s act → 0 ≤ tid → thread_at s tid l te (last todo) n false →
  split_at (insts s) n l keep todo marked → todo ≠ [] →
  ∃ s' rest now, doSquash s act tid = Ok s' ∧ todo = rest ++ now ∧
    length now = Nat.min (Z.to_nat (squashWidth (params s))) (length todo) ∧ squashed_to s tid rest now s'.
Proof.
  intros Hw Ha Htid Hta Hsp Hne. pose proof Hta as [A1 A2 A3 A4 A5]. pose proof (wf_live _ Hw) as Hlive.
  pose proof Hw as [_ _ Hth _]. pose proof (Hth _ _ _ _ _ _ A1 A2 A3 A4 A5) as [_ _ Hso _].
  assert (Hnd : NoDup l) by (by eapply sorted_NoDup).
  assert (∃ p, last todo = Some p) as [p Hp].
  { destruct (last todo) eqn:E; [eauto|]. by apply last_None in E. }
  assert (Hpin : p ∈ todo) by (by apply last_Some_elem_of).
  destruct (rob_deref_live (insts s) p) as (x & Hx & _ & Hxs); [apply Hsp; destruct Hsp as [-> _ _ _]; set_solver|].
  destruct (rob_squash_loop_spec (Z.to_nat (squashWidth (params s))) l n (insts s) keep todo marked false Hnd Hsp Hne)
    as (rest & now & Htodo & Hlen & Hret).
  apply returns_iff in Hret as (w & Hw' & Hins & Hit).
  unfold doSquash. rewrite (vget_in _ _ _ Htid A3). cbn [mbind res_bind].
  rewrite (vget_in _ _ _ Htid A1). cbn [mbind res_bind]. rewrite (vget_in _ _ _ Htid A4). cbn [mbind res_bind].
  rewrite (vget_in _ _ _ Htid A5). cbn [mbind res_bind]. rewrite Hp. rewrite bool_decide_true by done.
  cbn [mbind res_bind assert_]. rewrite Hx. cbn [mbind res_bind].
  rewrite (proj2 (Z.ltb_ge (seqNum x) n)).
  2: { rewrite Hxs. destruct Hsp as [_ _ _ Hy]. specialize (Hy p). set_solver by lia. }
  rewrite <-Hp, Hw'. cbn [mbind res_bind].
  assert (Hset : ∀ it' b, set_squash (with_insts s (w_insts w)) tid it' b =
    Ok (with_squash (with_insts s (mark_all (insts s) now)) (<[Z.to_nat tid := it']> (squashIt s))
      (squashedSeqNum s) (<[Z.to_nat tid := b]> (doneSquashing s)))).
  { intros it' b. rewrite Hins.
    exact (set_squash_eq (with_insts s (mark_all (insts s) now)) tid (last todo) false b Htid A3 A5 it'). }
  assert (Hupd : ∀ it' b, ∃ tl, (if w_tail w then updateTail (with_squash (with_insts s (mark_all (insts s) now))
       (<[Z.to_nat tid := it']> (squashIt s)) (squashedSeqNum s) (<[Z.to_nat tid := b]> (doneSquashing s))) act
     else Ok (with_squash (with_insts s (mark_all (insts s) now)) (<[Z.to_nat tid := it']> (squashIt s))
       (squashedSeqNum s) (<[Z.to_nat tid := b]> (doneSquashing s)))) =
     Ok (with_tail (with_squash (with_insts s (mark_all (insts s) now)) (<[Z.to_nat tid := it']> (squashIt s))
       (squashedSeqNum s) (<[Z.to_nat tid := b]> (doneSquashing s))) tl)).
  { intros it' b. destruct (w_tail w); [apply updateTail_total|exists (tail s); done].
    - apply lists_live_mark; [done|]. intros. by apply mark_all_live.
    - done. }
  destruct (keep ++ rest) as [|a kr] eqn:Ekr.
  - destruct Hit as [-> _]. apply app_nil in Ekr as [-> ->]. rewrite Hset.
    eexists _, [], now. split; [done|]. split_and!; [done|done|]. exists (tail s). done.
  - destruct Hit as [-> Hit]. rewrite <-Ekr in Hit.
    destruct (decide (rest = [])) as [->|Hrest].
    + rewrite app_nil_r in *. assert (∃ q, last keep = Some q) as [q Hq].
      { destruct (last keep) eqn:E; [eauto|]. apply last_None in E. by rewrite E in Ekr. }
      assert (Hqin : q ∈ keep) by (by apply last_Some_elem_of).
      destruct (rob_deref_live (w_insts w) q) as (y & Hy & _ & Hys).
      { rewrite Hins. apply mark_all_live, Hsp. destruct Hsp as [-> _ _ _]. set_solver. }
      rewrite Hit, Hq, Hy. cbn [mbind res_bind].
      rewrite (proj2 (Z.leb_le (seqNum y) n)) by (rewrite Hys, Hins, mark_all_sn; by apply Hsp).
      rewrite Hset. cbn [mbind res_bind]. destruct (Hupd None true) as [tl Htl]. rewrite Htl.
      eexists _, [], now. split; [done|]. split_and!; [done|done|]. exists tl. done.
    + rewrite last_app_ne in Hit by done. assert (∃ q, last rest = Some q) as [q Hq].
      { destruct (last rest) eqn:E; [eauto|]. by apply last_None in E. }
      assert (Hqin : q ∈ rest) by (by apply last_Some_elem_of).
      destruct (rob_deref_live (w_insts w) q) as (y & Hy & _ & Hys).
      { rewrite Hins. apply mark_all_live, Hsp. destruct Hsp as [-> _ _ _]. set_solver. }
      rewrite Hit, Hq, Hy. cbn [mbind res_bind].
      rewrite (proj2 (Z.leb_gt (seqNum y) n)).
      2: { rewrite Hys, Hins, mark_all_sn. apply Hsp. set_solver. }
      rewrite Hset. cbn [mbind res_bind]. destruct (Hupd (Some q) false) as [tl Htl]. rewrite Htl.
      eexists _, rest, now. split; [done|]. split_and!; [done|done|]. exists tl.
      by rewrite Hq, bool_decide_false.
Qed.
Lemma split_marks m n l keep rest now marked :
  split_at m n l keep (rest ++ now) marked →
  split_at (mark_all m now) n l keep rest (now ++ marked).
Proof.
  intros [Hl Hlive Hk Hy]. split.
  - by rewrite Hl, <-app_assoc.
  - intros p Hp. by apply mark_all_live, Hlive.
  - intros p Hp. rewrite mark_all_sn. auto.
  - intros p Hp. rewrite mark_all_sn. apply Hy. set_solver.
Qed.

Lemma mark_all_squashed m ps p x : m !! p = Some x → p ∈ ps → ∃ y, mark_all m ps !! p = Some y ∧ Squashed y = true.
Proof. intros Hx Hp. exists (mark x). rewrite mark_all_lookup, decide_True, Hx by done. done. Qed.

Lemma squashed_wf s s' tid l te n keep rest now marked :
  wf s → 0 ≤ tid → thread_at s tid l te (last (rest ++ now)) n false →
  split_at (insts s) n l keep (rest ++ now) marked →
  (∀ p, p ∈ marked → ∃ x, insts s !! p = Some x ∧ Squashed x = true) →
  squashed_to s tid rest now s' →
  wf s' ∧ thread_at s' tid l te (last rest) n (bool_decide (rest = [])) ∧
  split_at (insts s') n l keep rest (now ++ marked) ∧
  (∀ p, p ∈ now ++ marked → ∃ x, insts s' !! p = Some x ∧ Squashed x = true).
Proof.
  intros Hw Htid Hta Hsp Hmk [tl ->]. pose proof Hta as [A1 A2 A3 A4 A5]. simpl.
  pose proof Hw as [_ _ Hth [Htot Hcap]]. pose proof (Hth _ _ _ _ _ _ A1 A2 A3 A4 A5) as [Hc Hi Hso _].
  pose proof (split_marks _ _ _ _ _ _ _ Hsp) as Hsp'.
  assert (Hmk' : ∀ p, p ∈ now ++ marked → ∃ x, mark_all (insts s) now !! p = Some x ∧ Squashed x = true).
  { intros p Hp. destruct (decide (p ∈ now)) as [Hn|Hn].
    - destruct (sa_live _ _ _ _ _ _ Hsp p) as [x Hx]; [destruct Hsp as [-> _ _ _]; set_solver|].
      by eapply mark_all_squashed.
    - destruct (Hmk p) as (x & ? & ?); [set_solver|]. exists x. by rewrite mark_all_lookup, decide_False. }
  split; [|split_and!; [split; simpl; try done; by apply list_lookup_insert_eq; eauto using lookup_lt_Some|done|done]].
  eapply (rob_wf_update s _ tid l te _ n false l te (last rest) n (bool_decide (rest = []))); try done; simpl.
  - symmetry. by apply list_insert_id.
  - symmetry. by apply list_insert_id.
  - symmetry. by apply list_insert_id.
  - intros i k p Hne Hk Hp. rewrite mark_all_lookup, decide_False; [done|]. intros Hn. apply Hne.
    eapply (wf_disjoint s); [done|done|exact A1|done|]. destruct Hsp as [-> _ _ _]. set_solver.
  - split.
    + done.
    + intros p Hp. destruct (Hi p Hp) as (x & Hx & ? & ?). rewrite mark_all_lookup, Hx.
      destruct (decide _); simpl; eauto.
    + eapply sorted_ext; [|exact Hso]. intros b c. by rewrite !mark_all_sn.
    + destruct (decide (rest = [])) as [->|Hne]; [by left|]. right. rewrite bool_decide_false by done.
      split; [done|]. exists keep, rest, (now ++ marked). done.
Qed.

(** An ordered list splits at a sequence number. *)
Lemma sorted_split m l n :
  StronglySorted (λ p q, sn m p < sn m q) l →
  ∃ keep young, l = keep ++ young ∧ (∀ p, p ∈ keep → sn m p ≤ n) ∧ (∀ p, p ∈ young → n < sn m p).
Proof.
  induction 1 as [|p l Hs IH HF]; [exists [], []; set_solver|]. destruct IH as (keep & young & -> & Hk & Hy).
  destruct (Z.le_gt_cases (sn m p) n).
  - exists (p :: keep), young. set_solver.
  - exists [], (p :: keep ++ young). split_and!; [done|set_solver|]. intros q Hq. rewrite Forall_forall in HF.
    apply elem_of_cons in Hq as [->|Hq]; [lia|]. specialize (HF q Hq). lia.
Qed.
(** A thread set up for a squash down to [n] that starts at its youngest instruction. *)
Definition start_squash (s : t) (tid : Z) (l : list positive) (n : Z) : t :=
  with_squash s (<[Z.to_nat tid := last l]> (squashIt s)) (<[Z.to_nat tid := n]> (squashedSeqNum s))
    (<[Z.to_nat tid := false]> (doneSquashing s)).

Lemma start_thread_at s tid l te it n0 d n :
  thread_at s tid l te it n0 d → thread_at (start_squash s tid l n) tid l te (last l) n false.
Proof.
  intros [A1 A2 A3 A4 A5]. split; simpl; try done; apply list_lookup_insert_eq; by eapply lookup_lt_Some.
Qed.

Lemma start_wf s tid l te it n0 d n keep young :
  wf s → 0 ≤ tid → thread_at s tid l te it n0 d → split_at (insts s) n l keep young [] → young ≠ [] →
  wf (start_squash s tid l n).
Proof.
  intros Hw Htid Hta Hsp Hne. pose proof Hta as [A1 A2 A3 A4 A5]. pose proof Hw as [_ _ Hth [Htot Hcap]].
  pose proof (Hth _ _ _ _ _ _ A1 A2 A3 A4 A5) as [Hc Hi Hso _].
  eapply (rob_wf_update s _ tid l te it n0 d l te (last l) n false); try done; simpl.
  - symmetry. by apply list_insert_id.
  - symmetry. by apply list_insert_id.
  - split; [done|done|done|]. right. split; [done|]. exists keep, young, [].
    split_and!; [done|done| |by intros ? ?%elem_of_nil].
    destruct Hsp as [-> _ _ _]. rewrite app_nil_r. by apply last_app_ne.
Qed.

(** A squash that finds nothing younger is over in its first cycle. *)
Lemma rob_doSquash_nothing s act tid l te n p :
  0 ≤ tid → thread_at s tid l te (Some p) n false → is_Some (insts s !! p) → sn (insts s) p ≤ n →
  doSquash s act tid = set_squash s tid None true.
Proof.
  intros Htid [A1 A2 A3 A4 A5] Hp Hn. destruct (rob_deref_live _ _ Hp) as (x & Hx & _ & Hxs).
  unfold doSquash. rewrite (vget_in _ _ _ Htid A3). cbn [mbind res_bind].
  rewrite (vget_in _ _ _ Htid A1). cbn [mbind res_bind]. rewrite (vget_in _ _ _ Htid A4). cbn [mbind res_bind].
  rewrite (vget_in _ _ _ Htid A5). cbn [mbind res_bind]. rewrite bool_decide_true by done.
  cbn [mbind res_bind assert_]. rewrite Hx. cbn [mbind res_bind].
  destruct (Z.ltb_spec (seqNum x) n); [done|].
  rewrite (rob_squash_loop_stop _ _ _ _ _ _ x Hx) by lia. cbn [mbind res_bind w_head w_insts w_it w_tail].
  rewrite Hx. cbn [mbind res_bind]. rewrite (proj2 (Z.leb_le _ _)) by lia.
  assert (with_insts s (insts s) = s) as -> by (by destruct s). by destruct (set_squash s tid None true).
Qed.

(** What a squash of a thread down to [n] leaves after its first cycle. *)
Record squash_begun (s : t) (tid n : Z) (keep rest now : list positive) (s' : t) : Prop := {
  sb_list : instList s !! Z.to_nat tid = Some (keep ++ rest ++ now);
  sb_keep : ∀ p, p ∈ keep → sn (insts s) p ≤ n;
  sb_young : ∀ p, p ∈ rest ++ now → n < sn (insts s) p;
  sb_width : length now = Nat.min (Z.to_nat (squashWidth (params s))) (length (rest ++ now));
  sb_insts : insts s' = mark_all (insts s) now;
  sb_lists : instList s' = instList s ∧ params s' = params s ∧ maxEntries s' = maxEntries s;
  sb_done : doneSquashing s' = <[Z.to_nat tid := bool_decide (rest = [])]> (doneSquashing s);
  sb_num : squashedSeqNum s' =
    if decide (keep ++ rest ++ now = []) then squashedSeqNum s else <[Z.to_nat tid := n]> (squashedSeqNum s);
  sb_it : squashIt s' !! Z.to_nat tid = Some (last rest)
}.

Lemma set_squash_spec s tid l te it n0 d n :
  wf s → 0 ≤ tid → thread_at s tid l te it n0 d →
  ∃ s', set_squash (start_squash s tid l n) tid None true = Ok s' ∧ wf s' ∧ insts s' = insts s ∧
    instList s' = instList s ∧ (params s' = params s ∧ maxEntries s' = maxEntries s) ∧ squashIt s' !! Z.to_nat tid = Some None ∧
    squashedSeqNum s' = <[Z.to_nat tid := n]> (squashedSeqNum s) ∧
    doneSquashing s' = <[Z.to_nat tid := true]> (doneSquashing s).
Proof.
  intros Hw Htid Hta. pose proof (start_thread_at s tid l te it n0 d n Hta) as [_ _ B3 _ B5].
  pose proof Hta as [A1 A2 A3 A4 A5]. pose proof Hw as [_ _ Hth [Htot Hcap]].
  pose proof (Hth _ _ _ _ _ _ A1 A2 A3 A4 A5) as [Hc Hi Hso _].
  eexists. split; [by apply (set_squash_eq _ _ _ _ _ Htid B3 B5)|]. simpl. rewrite !list_insert_insert_eq.
  split; [|split_and!; try done; apply list_lookup_insert_eq; by eapply lookup_lt_Some].
  eapply (rob_wf_update s _ tid l te it n0 d l te None n true); try done; simpl.
  - symmetry. by apply list_insert_id.
  - symmetry. by apply list_insert_id.
  - split; [done|done|done|by left].
Qed.

Lemma squash_spec s act n tid :
  wf s → acts_ok s act → 0 ≤ tid < vlen (instList s) →
  ∃ s' keep rest now, squash s act n tid = Ok s' ∧ wf s' ∧ squash_begun s tid n keep rest now s'.
Proof.
  intros Hw Ha Htid. destruct (wf_thread_at s tid Hw Htid) as (l & te & it & n0 & d & Hta & Hok).
  destruct Htid as [Htid _]. pose proof Hta as [A1 A2 A3 A4 A5]. pose proof Hok as [Hc Hi Hso Hsq].
  unfold squash. rewrite (vget_in _ _ _ Htid A2). cbn [mbind res_bind].
  destruct (Z.eqb_spec te 0) as [H0|H0].
  { assert (l = []) as -> by (destruct l; [done|unfold vlen in Hc; simpl in Hc; lia]).
    exists s, [], [], []. split_and!; [done|done|]. destruct Hsq as [[-> ->]|(_ & k & td & mk & [Hl _ _ _] & Hne & _)].
    - split; try done; try by intros ? ?%elem_of_nil. simpl. by rewrite Nat.min_0_r.
      by symmetry; apply list_insert_id.
    - exfalso. destruct k, td; done. }
  rewrite (vset_in (doneSquashing s)) by (by eapply vlen_lookup). cbn [mbind res_bind].
  rewrite (vset_in (squashedSeqNum s)) by (by eapply vlen_lookup). cbn [mbind res_bind].
  cbn [instList squashIt with_squash]. rewrite (vget_in _ _ _ Htid A1). cbn [mbind res_bind].
  assert (∃ p, last l = Some p) as [p Hp].
  { destruct (last l) eqn:E; [eauto|]. apply last_None in E as ->. unfold vlen in Hc. simpl in Hc. lia. }
  rewrite Hp, (vset_in (squashIt s)) by (by eapply vlen_lookup). cbn [mbind res_bind].
  rewrite <-Hp. change (with_squash _ _ _ _) with (start_squash s tid l n).
  pose proof (start_thread_at s tid l te it n0 d n Hta) as Hta1.
  assert (Hpl : p ∈ l) by (by apply last_Some_elem_of).
  destruct (sorted_split (insts s) l n Hso) as (keep & young & Hl & Hk & Hy).
  destruct (decide (young = [])) as [->|Hne].
  - rewrite app_nil_r in Hl. subst keep. destruct (set_squash_spec s tid l te it n0 d n Hw Htid Hta)
      as (s' & Hs' & Hw' & E1 & E2 & E3 & E4 & E5 & E6).
    exists s', l, [], []. split_and!; [|done|].
    + rewrite Hp in Hta1. rewrite (rob_doSquash_nothing _ act tid l te n p Htid Hta1); [done| |by apply Hk].
      destruct (Hi p Hpl) as (x & ? & _). simpl. eauto.
    + split; try done; simpl; rewrite ?app_nil_r; try done; [lia|]. by rewrite decide_False by (by intros ->).
  - assert (Hsp : split_at (insts s) n l keep young []).
    { split; [by rewrite app_nil_r| |done|by rewrite app_nil_r]. intros q Hq. destruct (Hi q Hq) as (x & ? & _). eauto. }
    assert (Hlast : last l = last young) by (rewrite Hl; by apply last_app_ne).
    pose proof (start_wf _ _ _ _ _ _ _ _ _ _ Hw Htid Hta Hsp Hne) as Hw1. rewrite Hlast in Hta1.
    destruct (doSquash_spec (start_squash s tid l n) act tid l te n keep young [] Hw1 Ha Htid Hta1 Hsp Hne)
      as (s' & rest & now & Hs' & Hyo & Hlen & Hto).
    subst young. destruct (squashed_wf (start_squash s tid l n) s' tid l te n keep rest now [])
      as (Hw' & [_ _ C3 _ _] & _); try done; [by intros ? ?%elem_of_nil|]. destruct Hto as [tl ->].
    eexists _, keep, rest, now. split_and!; [done|done|]. split; simpl; try done.
    + by rewrite <-Hl.
    + by rewrite list_insert_insert_eq.
    + rewrite decide_False; [done|]. intros [_ Hnil]%app_nil. done.
Qed.
End ROBInv.
