(* ===== verification/RobSpec.v ===== *)
(** * The reorder buffer as queues

    The buffer refines one queue per thread whose entries carry a sequence number and
    whether they are squashed.  In the abstract machine a squash is one step; the code
    takes a cycle for every [squashWidth] instructions, and an instruction that the walk
    has still to reach counts as squashed. *)

From S2P Require Import Prelude Rob RobInv.

Module ROBSpec.
Import ROB ROBInv.

(** ** Operations *)

(** Fetch creates an instruction, rename hands it to the buffer, execution completes it,
    commit retires it; a squash starts and, cycle by cycle, goes on. *)
Inductive op :=
| Allocate (p : positive) (i : DynInst)
| Insert (p : positive)
| Complete (p : positive)
| Retire (tid : Z)
| Squash (n tid : Z)
| Continue (tid : Z).

(** Commit goes on with a squash that is not over. *)
Definition continue (s : t) (act : list Z) (tid : Z) : res t :=
  d ← isDoneSquashing s tid; if (d : bool) then Ok s else doSquash s act tid.

Definition step (act : list Z) (s : t) (o : op) : res t :=
  match o with
  | Allocate p i => Ok (with_insts s (<[p := i]> (insts s)))
  | Insert p => insertInst s p
  | Complete p => i ← deref (insts s) (Some p); Ok (with_insts s (<[p := setCanCommit i]> (insts s)))
  | Retire tid => retireHead s act tid
  | Squash n tid => squash s act n tid
  | Continue tid => continue s act tid
  end.

(** What the stages around the buffer guarantee.  A squash that starts while another
    one of its thread goes on reaches at least as far back. *)
Definition enabled (s : t) (o : op) : Prop :=
  match o with
  | Allocate p i => insts s !! p = None ∧ RobEntry i = false
  | Insert p => can_insert s p
  | Complete p => is_Some (insts s !! p)
  | Retire tid => can_retire s tid
  | Squash n tid => 0 ≤ tid < vlen (instList s) ∧
      ∀ k, squashedSeqNum s !! Z.to_nat tid = Some k → doneSquashing s !! Z.to_nat tid = Some false → n ≤ k
  | Continue tid => 0 ≤ tid < vlen (instList s)
  end.

(** ** The abstract machine *)
Definition squashed (m : gmap positive DynInst) (p : positive) : bool := default false (Squashed <$> m !! p).

(** An entry: its sequence number, and whether it is squashed or about to be. *)
Definition entry (m : gmap positive DynInst) (n : Z) (d : bool) (p : positive) : Z * bool :=
  (sn m p, squashed m p || (negb d && (n <? sn m p))).

Definition abs_thread (s : t) (i : nat) (l : list positive) : list (Z * bool) :=
  entry (insts s) (default 0 (squashedSeqNum s !! i)) (default true (doneSquashing s !! i)) <$> l.

Definition abs (s : t) : list (list (Z * bool)) := imap (abs_thread s) (instList s).

Definition relabel (n : Z) (e : Z * bool) : Z * bool := (fst e, snd e || (n <? fst e)).

(** The operations of the queues. *)
Inductive aop :=
| AInsert (i : nat) (e : Z * bool)
| ARetire (i : nat)
| ASquash (i : nat) (n : Z)
| ANone.

Definition astep (a : list (list (Z * bool))) (o : aop) : list (list (Z * bool)) :=
  match o with
  | AInsert i e => alter (λ q, q ++ [e]) i a
  | ARetire i => alter (drop 1) i a
  | ASquash i n => alter (fmap (relabel n)) i a
  | ANone => a
  end.

Definition abs_op (s : t) (o : op) : aop :=
  match o with
  | Insert p =>
      match insts s !! p with
      | Some x => AInsert (Z.to_nat (threadNumber x)) (seqNum x, Squashed x)
      | None => ANone
      end
  | Retire tid => ARetire (Z.to_nat tid)
  | Squash n tid => ASquash (Z.to_nat tid) n
  | Allocate _ _ | Complete _ | Continue _ => ANone
  end.

(** ** The view of a thread *)
Lemma abs_lookup s i : abs s !! i = abs_thread s i <$> instList s !! i.
Proof. apply list_lookup_imap. Qed.

Lemma abs_alter s s' i l l' f :
  instList s !! i = Some l → instList s' = <[i := l']> (instList s) →
  (∀ j k, j ≠ i → instList s !! j = Some k → abs_thread s' j k = abs_thread s j k) →
  abs_thread s' i l' = f (abs_thread s i l) →
  abs s' = alter f i (abs s).
Proof.
  intros Hl Hl' Hframe Hf. apply list_eq. intros j. rewrite abs_lookup, Hl'. destruct (decide (j = i)) as [->|Hne].
  - rewrite list_lookup_insert_eq by (by eapply lookup_lt_Some).
    rewrite list_lookup_alter_eq, abs_lookup, Hl. simpl. by rewrite Hf.
  - rewrite list_lookup_insert_ne, list_lookup_alter_ne, abs_lookup by done.
    destruct (instList s !! j) eqn:E; [|done]. simpl. by rewrite Hframe.
Qed.

Lemma abs_same s s' :
  instList s' = instList s →
  (∀ j k, instList s !! j = Some k → abs_thread s' j k = abs_thread s j k) → abs s' = abs s.
Proof.
  intros Hl Hf. apply list_eq. intros j. rewrite !abs_lookup, Hl.
  destruct (instList s !! j) eqn:E; [|done]. simpl. by rewrite Hf.
Qed.

(** A thread whose squash state and whose instructions did not change. *)
Lemma abs_thread_frame s s' j k :
  squashedSeqNum s' !! j = squashedSeqNum s !! j → doneSquashing s' !! j = doneSquashing s !! j →
  (∀ p, p ∈ k → sn (insts s') p = sn (insts s) p ∧ squashed (insts s') p = squashed (insts s) p) →
  abs_thread s' j k = abs_thread s j k.
Proof.
  intros E1 E2 Hp. unfold abs_thread. rewrite E1, E2. apply list_fmap_ext. intros i p Hi.
  apply list_elem_of_lookup_2 in Hi. destruct (Hp p Hi) as [E3 E4]. unfold entry. by rewrite E3, E4.
Qed.

Lemma squashed_insert m p x y q :
  m !! p = Some x → Squashed y = Squashed x → squashed (<[p := y]> m) q = squashed m q.
Proof.
  intros Hp Hy. unfold squashed. destruct (decide (p = q)) as [<-|]; [by rewrite lookup_insert_eq, Hp; simpl|].
  by rewrite lookup_insert_ne.
Qed.

Lemma view_fresh m p y q :
  q ≠ p → sn (<[p := y]> m) q = sn m q ∧ squashed (<[p := y]> m) q = squashed m q.
Proof. intros Hq. unfold sn, squashed. by rewrite lookup_insert_ne. Qed.

(** What marking does to an entry, while or after a squash down to [n]. *)
Lemma entry_marked m n0 d0 n d now p :
  is_Some (m !! p) → (d0 = false → n ≤ n0) → (p ∈ now → n < sn m p) →
  (d = true → n < sn m p → p ∈ now ∨ squashed m p = true) →
  entry (mark_all m now) n d p = relabel n (entry m n0 d0 p).
Proof.
  intros [x Hx] Hn Hnow Hd. unfold entry, relabel. simpl. rewrite mark_all_sn. f_equal.
  assert (Hsq : squashed (mark_all m now) p = (squashed m p || bool_decide (p ∈ now))%bool).
  { unfold squashed. rewrite mark_all_lookup, Hx. destruct (decide (p ∈ now)).
    - rewrite (bool_decide_true (p ∈ now)) by done. simpl. by destruct (Squashed x).
    - rewrite (bool_decide_false (p ∈ now)) by done. simpl. by destruct (Squashed x). }
  rewrite Hsq. destruct (squashed m p); [done|]. simpl.
  destruct (Z.ltb_spec n (sn m p)) as [Hlt|Hge].
  - rewrite orb_true_r. destruct d; simpl; [|by rewrite orb_true_r].
    destruct (Hd eq_refl Hlt) as [?|?]; [|done]. by rewrite bool_decide_true.
  - rewrite andb_false_r, orb_false_r. rewrite bool_decide_false by (intros ?%Hnow; lia).
    destruct d0; simpl; [done|]. specialize (Hn eq_refl). rewrite orb_false_r.
    symmetry. apply Z.ltb_ge. lia.
Qed.

Lemma relabel_idemp m n p : relabel n (entry m n false p) = entry m n false p.
Proof. unfold relabel, entry. simpl. f_equal. by destruct (squashed m p), (n <? sn m p). Qed.

(** ** Simulation, operation by operation *)
Definition simulates (act : list Z) (s : t) (o : op) : Prop :=
  ∃ s', step act s o = Ok s' ∧ wf s' ∧ (params s' = params s ∧ maxEntries s' = maxEntries s) ∧
    vlen (instList s') = vlen (instList s) ∧ abs s' = astep (abs s) (abs_op s o).

Lemma not_listed s i l p : wf s → insts s !! p = None → instList s !! i = Some l → p ∉ l.
Proof. intros Hw Hp Hl Hin. destruct (wf_live s Hw i l p Hl Hin). congruence. Qed.

Lemma sim_allocate act s p x : wf s → enabled s (Allocate p x) → simulates act s (Allocate p x).
Proof.
  intros Hw [Hp _]. eexists. split; [done|].
  assert (Hfr : ∀ i l q, instList s !! i = Some l → q ∈ l → q ≠ p).
  { intros i l q Hl Hq ->. by eapply not_listed. }
  split_and!; [|done|done|done|].
  - apply wf_insts; [done|]. intros i l q y Hl Hq Hy. exists y.
    rewrite lookup_insert_ne by (symmetry; by eapply Hfr). done.
  - apply abs_same; [done|]. intros j k Hk. apply abs_thread_frame; [done|done|]. intros q Hq.
    apply view_fresh. by eapply Hfr.
Qed.

Lemma sim_complete act s p : wf s → enabled s (Complete p) → simulates act s (Complete p).
Proof.
  intros Hw [x Hx]. eexists. split; [simpl; unfold deref; by rewrite Hx|]. split_and!; [|done|done|done|].
  - apply wf_insts; [done|]. intros i l q y Hl Hq Hy. destruct (decide (p = q)) as [<-|Hne].
    + exists (setCanCommit x). rewrite lookup_insert_eq. split; [done|]. by simplify_eq.
    + exists y. by rewrite lookup_insert_ne.
  - apply abs_same; [done|]. intros j k Hk. apply abs_thread_frame; [done|done|]. intros q Hq. simpl.
    by rewrite (sn_insert _ _ _ _ _ Hx), (squashed_insert _ _ _ _ _ Hx).
Qed.

Lemma sim_insert act s p : wf s → enabled s (Insert p) → simulates act s (Insert p).
Proof.
  intros Hw Hen. pose proof Hen as (x & l & te & it & n & Hx & Hrob & Htid & [A1 _ _ A4 A5] & Hy & _).
  destruct (insertInst_spec s p Hw Hen) as (s' & x' & l' & Hs' & Hw' & Hx' & Hl' & E1 & E2 & E3 & _ & E4 & E5 & E6).
  simplify_eq. exists s'. split_and!; [done|done|done|done|by rewrite E1, vlen_insert|].
  simpl. rewrite Hx. apply (abs_alter s s' _ l (l ++ [p])); [done|done| |].
  - intros j k Hne Hk. apply abs_thread_frame; [by rewrite E4|by rewrite E5|]. intros q Hq. rewrite E2.
    by rewrite (sn_insert _ _ _ _ _ Hx), (squashed_insert _ _ _ _ _ Hx).
  - unfold abs_thread. rewrite fmap_app. f_equal.
    + apply abs_thread_frame; [by rewrite E4|by rewrite E5|]. intros q Hq. rewrite E2.
      by rewrite (sn_insert _ _ _ _ _ Hx), (squashed_insert _ _ _ _ _ Hx).
    + simpl. rewrite E5, A5. simpl. unfold entry. rewrite E2.
      rewrite (sn_insert _ _ _ _ _ Hx), (squashed_insert _ _ _ _ _ Hx) by done. unfold sn, squashed.
      rewrite Hx. simpl. by rewrite orb_false_r.
Qed.

Lemma sim_retire act s tid :
  wf s → acts_ok s act → enabled s (Retire tid) → simulates act s (Retire tid).
Proof.
  intros Hw Ha Hen.
  destruct (retireHead_spec s act tid Hw Ha Hen) as (s' & p & x & l & Hs' & Hw' & Hl & Hx & E1 & E2 & E3 & E4 & E5 & E6 & _).
  assert (Hfr : ∀ j k, abs_thread s' j k = abs_thread s j k).
  { intros j k. apply abs_thread_frame; [by rewrite E4|by rewrite E5|]. intros q Hq. rewrite E2.
    by rewrite (sn_insert _ _ _ _ _ Hx), (squashed_insert _ _ _ _ _ Hx). }
  exists s'. split_and!; [done|done|done|done|by rewrite E1, vlen_insert|].
  apply (abs_alter s s' _ (p :: l) l); [done|done|by intros|]. by rewrite Hfr.
Qed.

(** Marking in one thread leaves the view of the others. *)
Lemma view_marked s s' i l now j k :
  wf s → instList s !! i = Some l → (∀ p, p ∈ now → p ∈ l) → insts s' = mark_all (insts s) now →
  squashedSeqNum s' !! j = squashedSeqNum s !! j → doneSquashing s' !! j = doneSquashing s !! j →
  j ≠ i → instList s !! j = Some k → abs_thread s' j k = abs_thread s j k.
Proof.
  intros Hw Hl Hnow Hi E1 E2 Hne Hk. apply abs_thread_frame; [done|done|]. intros p Hp.
  rewrite Hi, mark_all_sn. split; [done|]. unfold squashed. rewrite mark_all_lookup, decide_False; [done|].
  intros Hin. apply Hne. by eapply (wf_disjoint s j i k l p); auto.
Qed.

Lemma sim_squash act s n tid :
  wf s → acts_ok s act → enabled s (Squash n tid) → simulates act s (Squash n tid).
Proof.
  intros Hw Ha [Htid Hn].
  destruct (squash_spec s act n tid Hw Ha Htid) as (s' & keep & rest & now & Hs' & Hw' & [B1 B2 B3 B4 B5 (B6 & B7 & B7') B8 B9 B10]).
  destruct (wf_thread_at s tid Hw Htid) as (l & te & it & n0 & d & [A1 A2 A3 A4 A5] & Hok).
  simplify_eq. exists s'. split_and!; [done|done|done|done|by rewrite B6|].
  apply (abs_alter s s' _ (keep ++ rest ++ now) (keep ++ rest ++ now)); [done|by rewrite list_insert_id| |].
  - intros j k Hne Hk. eapply (view_marked s s' (Z.to_nat tid) (keep ++ rest ++ now) now); try done.
    + intros p Hp. set_solver.
    + rewrite B9. destruct (decide _); [done|]. by rewrite list_lookup_insert_ne.
    + by rewrite B8, list_lookup_insert_ne.
  - unfold abs_thread. rewrite B9. destruct (decide (keep ++ rest ++ now = [])) as [->|Hne]; [done|].
    rewrite B8, !list_lookup_insert_eq by (by eapply lookup_lt_Some). rewrite A4, A5. simpl.
    rewrite <-list_fmap_compose. apply list_fmap_ext. intros i p Hp%list_elem_of_lookup_2. simpl. rewrite B5.
    apply entry_marked.
    + by eapply (wf_live s).
    + intros ->. by apply Hn.
    + intros Hp'. apply B3. set_solver.
    + intros Hd%bool_decide_eq_true Hlt. subst rest. left.
      apply elem_of_app in Hp as [Hp|]; [|done]. specialize (B2 p Hp). lia.
Qed.

Lemma sim_continue act s tid :
  wf s → acts_ok s act → enabled s (Continue tid) → simulates act s (Continue tid).
Proof.
  intros Hw Ha Htid. destruct (wf_thread_at s tid Hw Htid) as (l & te & it & n & d & Hta & Hok).
  simpl in Htid. destruct Htid as [Htid _]. pose proof Hta as [A1 A2 A3 A4 A5]. unfold simulates.
  simpl. unfold continue, isDoneSquashing. rewrite (vget_in _ _ _ Htid A5). simpl.
  destruct Hok as [_ _ _ [[-> ->]|(-> & keep & todo & marked & Hsp & Hne & -> & Hmk)]]; [by exists s|].
  destruct (doSquash_spec s act tid l te n keep todo marked Hw Ha Htid Hta Hsp Hne) as (s' & rest & now & Hs' & -> & _ & Hto).
  destruct (squashed_wf s s' tid l te n keep rest now marked Hw Htid Hta Hsp Hmk Hto) as (Hw' & Hta' & _ & _).
  destruct Hto as [tl ->]. eexists. split_and!; [done|done|done|done|done|]. destruct Hsp as [Hl Hlive Hk Hy].
  apply abs_same; [done|]. intros j k Hkj. destruct (decide (j = Z.to_nat tid)) as [->|Hne'].
  - simplify_eq. unfold abs_thread. simpl. rewrite list_lookup_insert_eq by (by eapply lookup_lt_Some).
    rewrite A4, A5. simpl. apply list_fmap_ext. intros i p Hp%list_elem_of_lookup_2.
    rewrite <-relabel_idemp. apply entry_marked; [by apply Hlive|done| |].
    + intros Hp'. apply Hy. set_solver.
    + intros Hd%bool_decide_eq_true Hlt. subst rest. rewrite app_nil_l in Hp.
      apply elem_of_app in Hp as [Hp|[Hp|Hp]%elem_of_app]; [specialize (Hk p Hp); lia|by left|].
      right. destruct (Hmk p Hp) as (x & Hx & Hsx). unfold squashed. by rewrite Hx.
  - eapply (view_marked s _ (Z.to_nat tid) l now); try done; simpl.
    + intros p Hp. rewrite Hl. set_solver.
    + by rewrite list_lookup_insert_ne.
Qed.

Lemma simulation act s o : wf s → acts_ok s act → enabled s o → simulates act s o.
Proof.
  intros Hw Ha. destruct o; [by apply sim_allocate|by apply sim_insert|by apply sim_complete|
    by apply sim_retire|by apply sim_squash|by apply sim_continue].
Qed.

(** ** Runs *)

(** The guards of [enabled] as a test, with the check for room as an argument: commit
    may look at the whole buffer or, as rename does, at the thread's free entries. *)
Definition whole_room (s : t) (tid : Z) : bool := numInstsInROB s <? numEntries (params s).
Definition thread_room (s : t) (tid : Z) : bool :=
  match numFreeEntries_of s tid with Ok k => 0 <? k | Err _ => false end.

Definition idle (s : t) (tid : Z) : bool := bool_decide (doneSquashing s !! Z.to_nat tid = Some true).

Definition ready (room : t → Z → bool) (s : t) (o : op) : bool :=
  match o with
  | Allocate p i => bool_decide (insts s !! p = None) && negb (RobEntry i)
  | Insert p =>
      match insts s !! p with
      | Some x =>
          let tid := threadNumber x in
          negb (RobEntry x) && (0 <=? tid) && idle s tid && room s tid &&
          match instList s !! Z.to_nat tid with
          | Some l => forallb (λ q, sn (insts s) q <? seqNum x) l
          | None => false
          end
      | None => false
      end
  | Complete p => bool_decide (is_Some (insts s !! p))
  | Retire tid =>
      (0 <=? tid) && idle s tid &&
      match instList s !! Z.to_nat tid with
      | Some (p :: _) => match insts s !! p with Some x => CanCommit x | None => false end
      | _ => false
      end
  | Squash n tid =>
      (0 <=? tid) && (tid <? vlen (instList s)) &&
      (idle s tid || match squashedSeqNum s !! Z.to_nat tid with Some k => n <=? k | None => true end)
  | Continue tid => (0 <=? tid) && (tid <? vlen (instList s))
  end.

Lemma idle_thread s tid l :
  wf s → 0 ≤ tid → instList s !! Z.to_nat tid = Some l → idle s tid = true →
  ∃ te it n, thread_at s tid l te it n true.
Proof.
  intros Hw Ht Hl Hd%bool_decide_eq_true.
  destruct (wf_thread_at s tid Hw) as (l' & te & it & n & d & [A1 A2 A3 A4 A5] & _).
  { split; [done|]. apply lookup_lt_Some in Hl. unfold vlen. lia. }
  simplify_eq. exists te, it, n. by split.
Qed.

Lemma ready_enabled room s o :
  (∀ tid, room s tid = true → numInstsInROB s < numEntries (params s)) →
  wf s → ready room s o = true → enabled s o.
Proof.
  intros Hroom Hw. destruct o as [p i|p|p|tid|n tid|tid]; cbn [ready enabled].
  - intros [H1%bool_decide_eq_true H2%negb_true_iff]%andb_prop. done.
  - destruct (insts s !! p) as [x|] eqn:Hx; [|done]. cbv zeta.
    destruct (instList s !! _) as [l|] eqn:Hl; [|by rewrite andb_false_r].
    intros [[[[H1 H2]%andb_prop H3]%andb_prop H4]%andb_prop H5]%andb_prop. apply Z.leb_le in H2.
    destruct (idle_thread s _ l Hw H2 Hl H3) as (te & it & n & Hta). rewrite forallb_forall in H5.
    exists x, l, te, it, n. split_and!; [done|by apply negb_true_iff|done|done| |by eapply Hroom].
    intros q Hq. apply Z.ltb_lt, H5. by apply list_elem_of_In.
  - by intros ?%bool_decide_eq_true.
  - destruct (instList s !! _) as [[|p l]|] eqn:Hl; [by rewrite andb_false_r| |by rewrite andb_false_r].
    destruct (insts s !! p) as [x|] eqn:Hx; [|by rewrite andb_false_r].
    intros [[H1%Z.leb_le H2]%andb_prop H3]%andb_prop.
    destruct (idle_thread s tid _ Hw H1 Hl H2) as (te & it & n & Hta). by exists p, x, l, te, it, n.
  - intros [[H1%Z.leb_le H2%Z.ltb_lt]%andb_prop H3]%andb_prop. split; [done|]. intros k Hk Hd. rewrite Hk in H3.
    apply orb_prop in H3 as [H3%bool_decide_eq_true|H3%Z.leb_le]; [congruence|done].
  - intros [H1%Z.leb_le H2%Z.ltb_lt]%andb_prop. done.
Qed.

(** Runs record the operations of the queues. *)
Fixpoint run (act : list Z) (s : t) (os : list op) : res (t * list aop) :=
  match os with
  | [] => Ok (s, [])
  | o :: os => s' ← step act s o; '(s2, tr) ← run act s' os; Ok (s2, abs_op s o :: tr)
  end.

Fixpoint legal (room : t → Z → bool) (act : list Z) (s : t) (os : list op) : bool :=
  match os with
  | [] => true
  | o :: os => ready room s o && match step act s o with Ok s' => legal room act s' os | Err _ => true end
  end.

(** Invariants that hold along a run under which the check for room is sound. *)
Lemma rob_run_refines (I : t → Prop) room act s os :
  (∀ s tid, I s → wf s → room s tid = true → numInstsInROB s < numEntries (params s)) →
  (∀ s o s', I s → wf s → ready room s o = true → step act s o = Ok s' → wf s' →
     params s' = params s → maxEntries s' = maxEntries s → abs s' = astep (abs s) (abs_op s o) → I s') →
  I s → wf s → acts_ok s act → legal room act s os = true →
  ∃ s' tr, run act s os = Ok (s', tr) ∧ wf s' ∧ I s' ∧ acts_ok s' act ∧ params s' = params s ∧
    abs s' = foldl astep (abs s) tr.
Proof.
  intros Hroom Hstep. revert s. induction os as [|o os IH]; intros s HI Hw Ha Hleg; cbn [run legal] in *.
  { by exists s, []. }
  apply andb_prop in Hleg as [Hr Hleg].
  destruct (simulation act s o Hw Ha) as (s1 & Hs1 & Hw1 & [Hp1 Hm1] & Hl1 & Habs).
  { eapply ready_enabled; [|done|done]. intros tid. by apply Hroom. }
  rewrite Hs1 in Hleg |- *. cbn [mbind res_bind].
  destruct (IH s1) as (s2 & tr & Hrun & Hw2 & HI2 & Ha2 & Hp2 & Habs2); [by eapply Hstep|done| |done|].
  { unfold acts_ok. by rewrite Hl1. }
  rewrite Hrun. cbn [mbind res_bind]. exists s2, (abs_op s o :: tr). split_and!; try done; [congruence|].
  simpl. by rewrite <-Habs.
Qed.

(** ** Construction *)
Definition config_ok (c : Params) : Prop :=
  0 < squashWidth c ∧ 0 ≤ numEntries c < 2 ^ 32 ∧ 0 < numThreads c.

Lemma sum_replicate_nil n : sum_list_with length (replicate n ([] : list positive)) = O.
Proof. by induction n. Qed.

Lemma rob_create_wf c m :
  config_ok c →
  ∃ s k, create c m = Ok s ∧ initial_max c = Ok k ∧ wf s ∧ params s = c ∧ maxEntries s = replicate (threads c) k ∧
    instList s = replicate (threads c) [] ∧ abs s = replicate (threads c) [] ∧ insts s = m.
Proof.
  intros (H1 & H2 & H3). assert (∃ k, initial_max c = Ok k) as [k Hk].
  { unfold initial_max, udiv. destruct (robPolicy c); [eauto| |eauto].
    rewrite (proj2 (Z.eqb_neq (numThreads c) 0)) by lia. simpl. eauto. }
  unfold create. rewrite Hk. eexists _, k. split; [done|]. split_and!; try done.
  - split; simpl; [done|by rewrite !length_replicate| |].
    + intros i l te it n d [-> _]%lookup_replicate [-> _]%lookup_replicate [-> _]%lookup_replicate
        [-> _]%lookup_replicate [-> _]%lookup_replicate.
      split; [done|by intros ? ?%elem_of_nil|constructor|by left].
    + unfold total. rewrite sum_replicate_nil. lia.
  - apply list_eq. intros i. rewrite abs_lookup. simpl.
    destruct (decide (i < threads c)%nat).
    + by rewrite !lookup_replicate_2.
    + by rewrite !lookup_ge_None_2 by (rewrite length_replicate; lia).
Qed.

(** ** Shares *)

(** Of the threads [ths] none is over its share, the other threads have no entries, and
    the shares of [ths] fit into the buffer. *)
Definition zsum (ms : list Z) : Z := Z.of_nat (sum_list_with Z.to_nat ms).

Definition masked (ths : list Z) (ms : list Z) : list Z :=
  imap (λ i m, if decide (Z.of_nat i ∈ ths) then m else 0) ms.

Definition shares_ok (ths : list Z) (s : t) : Prop :=
  (∀ i q m, abs s !! i = Some q → masked ths (maxEntries s) !! i = Some m → vlen q ≤ m) ∧
  zsum (masked ths (maxEntries s)) ≤ numEntries (params s).

(** The thread has a free entry, and its share was set for it. *)
Definition covered_room (ths : list Z) (s : t) (tid : Z) : bool :=
  thread_room s tid && bool_decide (tid ∈ ths).

Lemma masked_lookup ths ms i m :
  masked ths ms !! i = Some m ↔
    ∃ m0, ms !! i = Some m0 ∧ m = if decide (Z.of_nat i ∈ ths) then m0 else 0.
Proof. unfold masked. rewrite list_lookup_imap, fmap_Some. naive_solver. Qed.

Lemma total_shares ls ms :
  length ls = length ms → (∀ i l m, ls !! i = Some l → ms !! i = Some m → vlen l ≤ m) →
  total ls ≤ zsum ms ∧
  ∀ i l m, ls !! i = Some l → ms !! i = Some m → vlen l < m → total ls < zsum ms.
Proof.
  unfold total, zsum, vlen. revert ms. induction ls as [|l ls IH]; intros [|m ms] Hlen Hle; simplify_eq/=; [split; [lia|done]|].
  destruct (IH ms) as [IH1 IH2]; [done|by intros i; apply (Hle (S i))|].
  pose proof (Hle O l m eq_refl eq_refl) as H0. split; [lia|].
  intros [|i] l' m' H1 H2 Hlt; simplify_eq/=; [lia|]. specialize (IH2 i l' m' H1 H2 Hlt). lia.
Qed.

Lemma abs_vlen s i l : instList s !! i = Some l → ∃ q, abs s !! i = Some q ∧ vlen q = vlen l.
Proof.
  intros Hl. exists (abs_thread s i l). rewrite abs_lookup, Hl. split; [done|].
  unfold vlen, abs_thread. by rewrite length_fmap.
Qed.

Lemma covered_room_spec ths s tid l m :
  wf s → shares_ok ths s → covered_room ths s tid = true → instList s !! Z.to_nat tid = Some l →
  masked ths (maxEntries s) !! Z.to_nat tid = Some m → vlen l < m.
Proof.
  intros Hw [Hsh _] [Hr Hin%bool_decide_eq_true]%andb_prop Hl Hm. destruct (abs_vlen s _ l Hl) as (q & Hq & Hql).
  pose proof (Hsh _ _ _ Hq Hm) as Hle. unfold thread_room, numFreeEntries_of in Hr.
  destruct (vget (maxEntries s) tid) as [m'|] eqn:Em; [|done]. simpl in Hr.
  apply vget_Ok in Em as [Ht Em]. apply masked_lookup in Hm as (m0 & Hm0 & Hm).
  rewrite Z2Nat.id, decide_True in Hm by done. simplify_eq.
  destruct (wf_thread_at s tid Hw) as (l' & te & it & n & d & [A1 A2 A3 A4 A5] & [Hte _ _ _]).
  { apply lookup_lt_Some in Hl. unfold vlen in *. lia. }
  simplify_eq. rewrite (vget_in _ _ _ Ht A2) in Hr. simpl in Hr. apply Z.ltb_lt in Hr.
  destruct (Z.eq_dec (vlen l) m') as [<-|]; [by rewrite Z.sub_diag in Hr|lia].
Qed.

Lemma shares_room ths s tid :
  wf s → shares_ok ths s → covered_room ths s tid = true → numInstsInROB s < numEntries (params s).
Proof.
  intros Hw Hsh Hr. pose proof Hsh as [Hle Hsum]. pose proof Hw as [[_ Hcap] (L1 & L2 & _ & _ & _ & L3) _ [Htot _]].
  assert (∃ m, masked ths (maxEntries s) !! Z.to_nat tid = Some m) as [m Hm].
  { apply andb_prop in Hr as [Hr _]. unfold thread_room, numFreeEntries_of in Hr.
    destruct (vget (maxEntries s) tid) eqn:E; [|done]. apply vget_Ok in E as [_ E].
    eexists. apply masked_lookup. eauto. }
  assert (length (masked ths (maxEntries s)) = length (maxEntries s)) as Hlen by apply length_imap.
  destruct (lookup_lt_is_Some_2 (instList s) (Z.to_nat tid)) as [l Hl]; [apply lookup_lt_Some in Hm; lia|].
  pose proof (covered_room_spec ths s tid l m Hw Hsh Hr Hl Hm).
  destruct (total_shares (instList s) (masked ths (maxEntries s))) as [_ Hlt];
    [lia| |specialize (Hlt _ _ _ Hl Hm); lia].
  intros i l' m' Hl' Hm'. destruct (abs_vlen s i l' Hl') as (q & Hq & <-). by eapply Hle.
Qed.

Lemma shares_step ths act s o s' :
  shares_ok ths s → wf s → ready (covered_room ths) s o = true → step act s o = Ok s' → wf s' →
  params s' = params s → maxEntries s' = maxEntries s → abs s' = astep (abs s) (abs_op s o) → shares_ok ths s'.
Proof.
  intros Hsh Hw Hr Hs Hw' Hp Hm Habs. split; [|rewrite Hm, Hp; apply Hsh]. rewrite Habs, Hm.
  set (ms := masked ths (maxEntries s)) in *.
  assert (Halter : ∀ (f : list (Z * bool) → list (Z * bool)) j, (∀ q m, abs s !! j = Some q → ms !! j = Some m →
      vlen q ≤ m → vlen (f q) ≤ m) →
    ∀ i q m, alter f j (abs s) !! i = Some q → ms !! i = Some m → vlen q ≤ m).
  { intros f j Hf i q m Hq Hmi. destruct (decide (j = i)) as [<-|Hne].
    - rewrite list_lookup_alter_eq in Hq. apply fmap_Some in Hq as (q0 & Hq0 & ->).
      eapply Hf; [done|done|by eapply Hsh].
    - rewrite list_lookup_alter_ne in Hq by done. by eapply Hsh. }
  destruct o as [p i|p|p|tid|n tid|tid]; simpl; try apply Hsh.
  - cbn [ready] in Hr. destruct (insts s !! p) as [x|]; [|done]. simpl. apply Halter. intros q m Hq Hmi Hle. cbv zeta in Hr.
    destruct (instList s !! _) as [l|] eqn:Hl; [|by rewrite andb_false_r in Hr].
    apply andb_prop in Hr as [[_ Hr]%andb_prop _]. pose proof (covered_room_spec ths s _ l m Hw Hsh Hr Hl Hmi).
    destruct (abs_vlen s _ l Hl) as (q' & Hq' & Hlen). simplify_eq. unfold vlen in *. rewrite length_app. simpl. lia.
  - apply Halter. intros q m _ _ Hle. unfold vlen in *. rewrite length_drop. lia.
  - apply Halter. intros q m _ _ Hle. unfold vlen in *. by rewrite length_fmap.
Qed.

(** [resetEntries] with the partitioned policy. *)
Lemma reset_entries_spec c n ths m :
  robPolicy c = Partitioned → 0 < n → Forall (λ tid, 0 ≤ tid < vlen m) ths →
  ∃ m', reset_entries c n ths m = Ok m' ∧ length m' = length m ∧
    ∀ i, m' !! i = if decide (Z.of_nat i ∈ ths) then (λ _, numEntries c / n) <$> m !! i else m !! i.
Proof.
  intros Hpol Hn. revert m. induction ths as [|tid ths IH]; intros m Ht; cbn [reset_entries].
  { exists m. split_and!; [done..|]. intros i. by rewrite decide_False by set_solver. }
  apply Forall_cons in Ht as [Ht Hts]. rewrite Hpol. unfold udiv.
  rewrite (proj2 (Z.eqb_neq n 0)) by lia. simpl. rewrite vset_in by done. simpl.
  destruct (IH (<[Z.to_nat tid := numEntries c / n]> m)) as (m' & -> & Hlen & Hget).
  { eapply Forall_impl; [exact Hts|]. simpl. intros x. by rewrite vlen_insert. }
  exists m'. rewrite length_insert in Hlen. split_and!; [done..|]. intros i. rewrite Hget.
  destruct (decide (i = Z.to_nat tid)) as [->|Hne].
  - rewrite (decide_True (P := _ ∈ tid :: _)) by (rewrite Z2Nat.id by lia; by left).
    destruct (lookup_lt_is_Some_2 m (Z.to_nat tid)) as [x Hx]; [unfold vlen in *; lia|].
    rewrite list_lookup_insert_eq by (unfold vlen in *; lia). rewrite Hx. by case_decide.
  - rewrite list_lookup_insert_ne by done. destruct (decide (Z.of_nat i ∈ ths)) as [Hin|Hin].
    + by rewrite decide_True by (by right).
    + rewrite decide_False; [done|]. intros [He|?]%elem_of_cons; [lia|done].
Qed.

Lemma zsum_masked (ths : list Z) (k : Z) (ms : list Z) (j : nat) :
  (∀ i m, ms !! i = Some m → Z.of_nat (j + i) ∈ ths → m = k) →
  sum_list_with Z.to_nat (imap (λ i m, if decide (Z.of_nat (j + i) ∈ ths) then m else 0) ms) =
  (Z.to_nat k * length (filter (λ i, Z.of_nat i ∈ ths) (seq j (length ms))))%nat.
Proof.
  revert j. induction ms as [|m ms IH]; intros j Hk; [simpl; lia|]. cbn [imap length seq].
  rewrite filter_cons. simpl sum_list_with.
  rewrite (imap_ext _ (λ i m, if decide (Z.of_nat (S j + i) ∈ ths) then m else 0))
    by (intros i x _; simpl; by rewrite Nat.add_succ_r).
  rewrite (IH (S j)) by (intros i x Hx Hin; apply (Hk (S i) x Hx); by rewrite Nat.add_succ_r).
  pose proof (Hk O m eq_refl) as H0. rewrite Nat.add_0_r in *.
  destruct (decide (Z.of_nat j ∈ ths)) as [Hin|Hin]; simpl; [rewrite (H0 Hin)|]; lia.
Qed.

Lemma covered_count (ths : list Z) (n : nat) :
  (length (filter (λ i, Z.of_nat i ∈ ths) (seq 0 n)) ≤ length ths)%nat.
Proof.
  rewrite <- (length_fmap Z.of_nat). apply submseteq_length, NoDup_submseteq.
  - apply NoDup_fmap_2; [apply _|]. apply NoDup_filter, NoDup_seq.
  - intros x (i & -> & [Hi _]%list_elem_of_filter)%list_elem_of_fmap. done.
Qed.

(** [DefaultCommit::startupStage]: the new buffer with its entries reset for the threads
    that are active then. *)
Definition startup (c : Params) (m : gmap positive DynInst) (ths : list Z) : res t :=
  s ← create c m; resetEntries s ths.

Lemma shares_startup c m ths :
  config_ok c → robPolicy c = Partitioned → Forall (λ tid, 0 ≤ tid < numThreads c) ths →
  ∃ s, startup c m ths = Ok s ∧ wf s ∧ params s = c ∧ instList s = replicate (threads c) [] ∧ shares_ok ths s.
Proof.
  intros Hc Hpol Hths. destruct (rob_create_wf c m Hc) as (s0 & k & Hs0 & Hk & Hw0 & Hp0 & Hm0 & Hl0 & Habs0 & _).
  destruct Hc as (_ & Hn & Ht). unfold startup, resetEntries. rewrite Hs0. cbn [mbind res_bind].
  rewrite Hp0, Hpol. cbn [bool_decide decide_rel orb]. rewrite bool_decide_true by done. simpl orb. cbv iota.
  assert (∃ m', reset_entries c (vlen ths) ths (maxEntries s0) = Ok m' ∧ length m' = threads c ∧
    ∀ i x, m' !! i = Some x → Z.of_nat i ∈ ths → x = numEntries c / vlen ths) as (m' & -> & Hlen & Hget).
  { destruct ths as [|tid ths]; [exists (maxEntries s0)|].
    { split_and!; [done|by rewrite Hm0, length_replicate|]. intros i x _ Hin. by apply elem_of_nil in Hin. }
    destruct (reset_entries_spec c (vlen (tid :: ths)) (tid :: ths) (maxEntries s0)) as (m' & -> & Hlen & Hget);
      [done|unfold vlen; simpl; lia| |].
    { eapply Forall_impl; [exact Hths|]. simpl. intros x. rewrite Hm0. unfold vlen. rewrite length_replicate.
      unfold threads. lia. }
    exists m'. rewrite Hm0, length_replicate in Hlen. split_and!; [done..|]. intros i x Hx Hin.
    rewrite Hget, decide_True in Hx by done. apply fmap_Some in Hx as (? & _ & ->). done. }
  cbn [mbind res_bind]. eexists. split; [done|]. split; [|split; [done|split; [done|split]]].
  - destruct Hw0 as [? (?&?&?&?&?&?) ? ?]. constructor; simpl; try done. split_and!; try done. by rewrite Hp0.
  - intros i q x Hq Hx. change (abs (with_max s0 m')) with (abs s0) in Hq. rewrite Habs0 in Hq.
    apply lookup_replicate in Hq as [-> _]. apply masked_lookup in Hx as (x0 & Hx0 & ->).
    change (vlen []) with 0. case_decide as Hin; [|done]. rewrite (Hget i x0 Hx0 Hin).
    apply Z.div_pos; [lia|]. unfold vlen. destruct ths; [by apply elem_of_nil in Hin|simpl; lia].
  - change (maxEntries (with_max s0 m')) with m'. change (params (with_max s0 m')) with (params s0). rewrite Hp0.
    pose proof (zsum_masked ths (numEntries c / vlen ths) m' 0 Hget) as Hsum. simpl in Hsum.
    unfold zsum, masked. rewrite Hsum.
    pose proof (covered_count ths (length m')) as Hcount. destruct (decide (ths = [])) as [->|Hne].
    { simpl in Hcount. assert (length (filter (λ i, Z.of_nat i ∈ []) (seq 0 (length m'))) = 0%nat) as -> by lia. lia. }
    assert (0 < vlen ths) by (unfold vlen; destruct ths; [done|simpl; lia]).
    assert (0 ≤ numEntries c / vlen ths) by (apply Z.div_pos; lia).
    pose proof (Z.mul_div_le (numEntries c) (vlen ths)). unfold vlen in *. nia.
Qed.

(** ** Squashing over several cycles *)
Fixpoint squash_cycles (k : nat) (act : list Z) (s : t) (tid : Z) : res t :=
  match k with
  | O => Ok s
  | S k => s ← continue s act tid; squash_cycles k act s tid
  end.

Lemma cycles_spec k act s tid l te n keep todo marked :
  wf s → acts_ok s act → 0 ≤ tid → thread_at s tid l te (last todo) n (bool_decide (todo = [])) →
  split_at (insts s) n l keep todo marked →
  (∀ p, p ∈ marked → ∃ x, insts s !! p = Some x ∧ Squashed x = true) →
  ∃ s' rest now, squash_cycles k act s tid = Ok s' ∧ wf s' ∧ todo = rest ++ now ∧
    length rest = (length todo - k * Z.to_nat (squashWidth (params s)))%nat ∧
    insts s' = mark_all (insts s) now ∧ instList s' = instList s ∧
    doneSquashing s' !! Z.to_nat tid = Some (bool_decide (rest = [])).
Proof.
  revert s todo marked. induction k as [|k IH]; intros s todo marked Hw Ha Htid Hta Hsp Hmk.
  { exists s, todo, []. rewrite app_nil_r. split_and!; try done; [lia|apply Hta]. }
  cbn [squash_cycles]. unfold continue, isDoneSquashing. rewrite (vget_in _ _ _ Htid (ta_done _ _ _ _ _ _ _ Hta)).
  cbn [mbind res_bind]. destruct (decide (todo = [])) as [->|Hne].
  { rewrite bool_decide_true by done. destruct (IH s [] marked) as (s' & rest & now & ? & ? & Hnil & ? & ? & ? & ?); try done.
    symmetry in Hnil. apply app_nil in Hnil as [-> ->]. exists s', [], []. by split_and!. }
  rewrite bool_decide_false by done. rewrite bool_decide_false in Hta by done.
  destruct (doSquash_spec s act tid l te n keep todo marked Hw Ha Htid Hta Hsp Hne) as (s1 & rest & now & -> & -> & Hlen & Hto).
  destruct (squashed_wf s s1 tid l te n keep rest now marked Hw Htid Hta Hsp Hmk Hto) as (Hw1 & Hta1 & Hsp1 & Hmk1).
  destruct Hto as [tl Es1]. cbn [mbind res_bind].
  destruct (IH s1 rest (now ++ marked)) as (s' & rest' & now' & Hs' & Hw' & -> & Hl' & Hi' & Hil' & Hd'); try done.
  { by rewrite Es1. }
  exists s', rest', (now' ++ now). split_and!; try done.
  - by rewrite app_assoc.
  - rewrite Hl', Es1. simpl. rewrite !length_app in *. lia.
  - rewrite Hi', Es1. simpl. by rewrite mark_all_app.
  - by rewrite Hil', Es1.
Qed.

Lemma squash_run k act s n tid :
  wf s → acts_ok s act → 0 ≤ tid < vlen (instList s) →
  ∃ s' keep young, instList s !! Z.to_nat tid = Some (keep ++ young) ∧
    (∀ p, p ∈ keep → sn (insts s) p ≤ n) ∧ (∀ p, p ∈ young → n < sn (insts s) p) ∧
    (s1 ← squash s act n tid; squash_cycles k act s1 tid) = Ok s' ∧ wf s' ∧ instList s' = instList s ∧
    ∃ rest now, young = rest ++ now ∧ insts s' = mark_all (insts s) now ∧
      length rest = (length young - S k * Z.to_nat (squashWidth (params s)))%nat ∧
      isDoneSquashing s' tid = Ok (bool_decide (rest = [])).
Proof.
  intros Hw Ha Htid.
  destruct (squash_spec s act n tid Hw Ha Htid) as (s1 & keep & rest & now & -> & Hw1 & [B1 B2 B3 B4 B5 (B6 & B7 & _) B8 B9 B10]).
  cbn [mbind res_bind].
  destruct (wf_thread_at s tid Hw Htid) as (l & te & it & n0 & d & [A1 A2 A3 A4 A5] & Hok0).
  destruct (wf_thread_at s1 tid Hw1) as (l1 & te1 & it1 & n1 & d1 & Hta1 & Hok1); [by rewrite B6|].
  pose proof Hta1 as [C1 C2 C3 C4 C5]. rewrite B6 in C1. rewrite B10 in C3. rewrite B8 in C5.
  rewrite list_lookup_insert_eq in C5 by (by eapply lookup_lt_Some). simplify_eq.
  assert (Hsp : split_at (insts s1) n1 (keep ++ rest ++ now) keep rest now).
  { assert (Hn : keep ++ rest ++ now ≠ [] → n1 = n).
    { intros Hne. rewrite B9, decide_False, list_lookup_insert_eq in C4 by eauto using lookup_lt_Some. congruence. }
    assert (Hin : ∀ p, p ∈ keep ++ rest ++ now → n1 = n) by (intros p Hp; apply Hn; by intros E; rewrite E in Hp; apply elem_of_nil in Hp).
    split; [done| | |].
    - intros p Hp. rewrite B5. apply mark_all_live. by eapply (wf_live s).
    - intros p Hp. rewrite (Hin p) by set_solver. rewrite B5, mark_all_sn. auto.
    - intros p Hp. rewrite (Hin p) by set_solver. rewrite B5, mark_all_sn. auto. }
  destruct (cycles_spec k act s1 tid (keep ++ rest ++ now) te1 n1 keep rest now Hw1) as (s' & rest' & now' & Hs' & Hw' & -> & Hlen & Hi & Hil & Hd).
  { unfold acts_ok. by rewrite B6. }
  { apply Htid. }
  { done. }
  { done. }
  { intros p Hp. rewrite B5. destruct (wf_live s Hw _ _ p B1) as [x Hx]; [set_solver|]. by eapply mark_all_squashed. }
  exists s', keep, ((rest' ++ now') ++ now). split_and!; try done; [by rewrite Hil|].
  exists rest', (now' ++ now). split_and!.
  - by rewrite app_assoc.
  - by rewrite Hi, B5, mark_all_app.
  - rewrite B7 in Hlen. rewrite !length_app in *. lia.
  - unfold isDoneSquashing. by rewrite (vget_in _ _ _ (proj1 Htid) Hd).
Qed.

(** ** Sessions: a new buffer and the operations on it *)
Definition play (c : Params) (m : gmap positive DynInst) (act : list Z) (os : list op) : res (t * list aop) :=
  s ← create c m; run act s os.

Definition session (room : t → Z → bool) (c : Params) (m : gmap positive DynInst) (act : list Z) (os : list op) : bool :=
  match create c m with Ok s => legal room act s os | Err _ => false end.

Definition config (c : Params) (act : list Z) : Prop :=
  config_ok c ∧ Forall (λ tid, 0 ≤ tid < numThreads c) act.

Lemma play_refines c m act os :
  config c act → session whole_room c m act os = true →
  ∃ s tr, play c m act os = Ok (s, tr) ∧ wf s ∧ acts_ok s act ∧ params s = c ∧
    abs s = foldl astep (replicate (threads c) []) tr.
Proof.
  intros [Hc Ha] Hs. destruct (rob_create_wf c m Hc) as (s0 & k & Hs0 & _ & Hw0 & Hp0 & _ & Hl0 & Habs0 & _).
  unfold session in Hs. unfold play. rewrite Hs0 in *. cbn [mbind res_bind].
  destruct (rob_run_refines (λ _, True) whole_room act s0 os) as (s & tr & Hr & Hw & _ & Ha' & Hp & Habs); try done.
  - intros s tid _ _. apply Z.ltb_lt.
  - unfold acts_ok. rewrite Hl0. unfold vlen. rewrite length_replicate. unfold threads. eapply Forall_impl; [exact Ha|].
    simpl. lia.
  - exists s, tr. split_and!; try done; [congruence|]. by rewrite Habs, Habs0.
Qed.

Lemma sorted_entries m n d l :
  StronglySorted (λ p q, sn m p < sn m q) l → StronglySorted Z.lt (fst <$> (entry m n d <$> l)).
Proof.
  induction 1 as [|p l Hs IH HF]; simpl; constructor; [done|].
  rewrite Forall_forall in HF. apply Forall_forall. intros z Hz.
  apply list_elem_of_fmap in Hz as (e & -> & He). apply list_elem_of_fmap in He as (q & -> & Hq). by apply HF.
Qed.

Lemma imap_lengths (f : nat → list positive → list (Z * bool)) ls :
  (∀ i l, length (f i l) = length l) → sum_list_with length (imap f ls) = sum_list_with length ls.
Proof.
  revert f. induction ls as [|l ls IH]; intros f Hf; simpl; [done|]. rewrite Hf. f_equal.
  apply IH. intros i k. apply Hf.
Qed.

Lemma total_abs s : total (instList s) = Z.of_nat (sum_list_with length (abs s)).
Proof. unfold total, abs. rewrite imap_lengths; [done|]. intros i l. apply length_fmap. Qed.

(** C15: the reorder buffer refines one queue of instructions per thread.  After every
    sequence of operations that the pipeline may issue (creation of an instruction,
    insertion with room in the buffer, completion, retirement of a ready head, the start
    of a squash and its continuation) no assertion has failed and no bad iterator was
    followed, the queues are those of the abstract machine, in which a squash is a
    single step, each thread's queue is in increasing order of sequence numbers, and
    the counters are the lengths of the queues and within the buffer's size. *)
Theorem rob_refines_queues c m act os :
  config c act → session whole_room c m act os = true →
  ∃ s tr, play c m act os = Ok (s, tr) ∧ abs s = foldl astep (replicate (threads c) []) tr ∧
    numInstsInROB s = Z.of_nat (sum_list_with length (abs s)) ∧ numInstsInROB s ≤ numEntries c ∧
    ∀ i q, abs s !! i = Some q → threadEntries s !! i = Some (vlen q) ∧ StronglySorted Z.lt (fst <$> q).
Proof.
  intros Hc Hs. destruct (play_refines c m act os Hc Hs) as (s & tr & Hp & Hw & _ & Hpar & Habs).
  exists s, tr. pose proof Hw as [_ _ _ [Htot Hcap]]. rewrite <-total_abs. split_and!; try done; [by rewrite <-Hpar|].
  intros i q Hq. rewrite abs_lookup in Hq. apply fmap_Some in Hq as (l & Hl & ->).
  destruct (wf_thread_at s (Z.of_nat i) Hw) as (l' & te & it & n & d & [A1 A2 _ _ _] & [Hte _ Hso _]).
  { apply lookup_lt_Some in Hl. unfold vlen. lia. }
  rewrite Nat2Z.id in *. simplify_eq. split; [|by apply sorted_entries].
  rewrite A2. f_equal. unfold vlen, abs_thread. by rewrite length_fmap.
Qed.

(** Two threads, room for four, one instruction squashed per cycle. *)
Definition demo (pol : ROBPolicy) : Params := mkParams 4 1 2 pol 3.
Definition fetched (n tid : Z) : DynInst := mkInst n tid false false false false.
Definition demo_insts : gmap positive DynInst :=
  {[ 1%positive := fetched 10 0; 2%positive := fetched 11 1; 3%positive := fetched 12 0; 4%positive := fetched 13 0;
     5%positive := fetched 14 0 ]}.
Definition demo_ops : list op :=
  [Insert 1; Insert 2; Insert 3; Insert 4; Squash 10 0; Complete 1; Continue 0; Continue 0; Retire 0; Retire 0].

Lemma demo_config pol : config (demo pol) [0; 1].
Proof. split; [done|]. repeat constructor; done. Qed.

Lemma rob_refines_queues_witness :
  ∃ s tr, play (demo Dynamic) demo_insts [0; 1] demo_ops = Ok (s, tr) ∧ abs s = foldl astep (replicate 2 []) tr.
Proof.
  destruct (rob_refines_queues (demo Dynamic) demo_insts [0; 1] demo_ops (demo_config _) ltac:(vm_compute; reflexivity))
    as (s & tr & H1 & H2 & _).
  exists s, tr. split; [exact H1|exact H2].
Defined.

(** C18: the data of the buffer is well formed in every state it reaches: each vector has
    an element per thread, an instruction in a thread's list exists, belongs to that
    thread and is flagged as being in the buffer, no instruction is in a list twice or
    in two lists, and a squash iterator points into its own thread's list and is
    [end()] exactly when the thread is not squashing. *)
Theorem rob_well_formed c m act os s tr :
  config c act → session whole_room c m act os = true → play c m act os = Ok (s, tr) →
  length (instList s) = threads c ∧ length (threadEntries s) = threads c ∧ length (maxEntries s) = threads c ∧
  length (squashIt s) = threads c ∧ length (squashedSeqNum s) = threads c ∧ length (doneSquashing s) = threads c ∧
  (∀ i l, instList s !! i = Some l → NoDup l ∧
     (∀ p, p ∈ l → ∃ x, insts s !! p = Some x ∧ threadNumber x = Z.of_nat i ∧ RobEntry x = true) ∧
     ∀ it d, squashIt s !! i = Some it → doneSquashing s !! i = Some d →
       (d = true ↔ it = None) ∧ ∀ p, it = Some p → p ∈ l) ∧
  ∀ i j l k p, instList s !! i = Some l → instList s !! j = Some k → p ∈ l → p ∈ k → i = j.
Proof.
  intros Hc Hs Hp. destruct (play_refines c m act os Hc Hs) as (s' & tr' & Hp' & Hw & _ & Hpar & _).
  rewrite Hp in Hp'. simplify_eq. pose proof Hw as [_ (L1 & L2 & L3 & L4 & L5 & L6) _ _]. split_and!; try done.
  - intros i l Hl. destruct (wf_thread_at s' (Z.of_nat i) Hw) as (l' & te & it & n & d & [A1 A2 A3 A4 A5] & [Hte Hi Hso Hsq]).
    { apply lookup_lt_Some in Hl. unfold vlen. lia. }
    rewrite Nat2Z.id in *. simplify_eq. split_and!; [by eapply sorted_NoDup|done|].
    intros it' d' E1 E2. simplify_eq. destruct Hsq as [[-> ->]|(-> & keep & todo & marked & [Hlk _ _ _] & Hne & -> & _)]; [done|].
    split.
    + split; [done|]. by intros E%last_None.
    + intros p Hpl%last_Some_elem_of. rewrite Hlk. set_solver.
  - intros i j l k p. by apply wf_disjoint.
Qed.

Lemma rob_well_formed_witness :
  ∃ s tr, play (demo Dynamic) demo_insts [0; 1] demo_ops = Ok (s, tr) ∧ length (instList s) = 2%nat.
Proof.
  destruct (play (demo Dynamic) demo_insts [0; 1] demo_ops) as [[s tr]|e] eqn:E; [|vm_compute in E; discriminate E].
  exists s, tr. split; [reflexivity|].
  exact (proj1 (rob_well_formed (demo Dynamic) demo_insts [0; 1] demo_ops s tr (demo_config _) ltac:(vm_compute; reflexivity) E)).
Defined.

(** C16: a squash ends, after exactly as many cycles as it needs, and squashes exactly the
    younger instructions.  In any state the buffer reaches, [squash] followed by [k]
    further cycles of [doSquash] returns; the thread's list splits into instructions at
    or below the sequence number and younger ones; the squash is over if and only if
    [k + 1] times the squash width covers the younger ones, and then each of them is
    marked squashed and ready to commit, every other instruction is untouched, and the
    lists are as before. *)
Theorem rob_squash_exact c m act os s tr n tid k :
  config c act → session whole_room c m act os = true → play c m act os = Ok (s, tr) → 0 ≤ tid < numThreads c →
  ∃ s' keep young, instList s !! Z.to_nat tid = Some (keep ++ young) ∧
    (∀ p, p ∈ keep → sn (insts s) p ≤ n) ∧ (∀ p, p ∈ young → n < sn (insts s) p) ∧
    (s1 ← squash s act n tid; squash_cycles k act s1 tid) = Ok s' ∧ instList s' = instList s ∧
    (isDoneSquashing s' tid = Ok true ↔ vlen young ≤ (Z.of_nat k + 1) * squashWidth c) ∧
    (isDoneSquashing s' tid = Ok true →
       ∀ p, insts s' !! p = if decide (p ∈ young) then mark <$> insts s !! p else insts s !! p).
Proof.
  intros Hc Hs Hp Htid. destruct (play_refines c m act os Hc Hs) as (s' & tr' & Hp' & Hw & Ha & Hpar & _).
  rewrite Hp in Hp'. simplify_eq. pose proof Hw as [[Hwid _] (_ & L2 & _) _ _].
  destruct (squash_run k act s' n tid Hw Ha) as (s2 & keep & young & H1 & H2 & H3 & H4 & _ & H5 & rest & now & -> & H6 & H7 & H8).
  { unfold vlen. rewrite L2. unfold threads. lia. }
  exists s2, keep, (rest ++ now). split_and!; try done; rewrite H8.
  - unfold vlen. split.
    + intros [= Hd%bool_decide_eq_true]. subst rest. simpl in *. nia.
    + intros Hle. rewrite bool_decide_true; [done|]. apply nil_length_inv. nia.
  - intros [= Hd%bool_decide_eq_true] p. subst rest. by rewrite H6, mark_all_lookup.
Qed.

Lemma rob_squash_exact_witness :
  ∃ s tr s', play (demo Dynamic) demo_insts [0; 1] [Insert 1; Insert 2; Insert 3; Insert 4] = Ok (s, tr) ∧
    (s1 ← squash s [0; 1] 10 0; squash_cycles 1 [0; 1] s1 0) = Ok s'.
Proof.
  destruct (play (demo Dynamic) demo_insts [0; 1] [Insert 1; Insert 2; Insert 3; Insert 4]) as [[s tr]|e] eqn:E;
    [|vm_compute in E; discriminate E].
  destruct (rob_squash_exact (demo Dynamic) demo_insts [0; 1] [Insert 1; Insert 2; Insert 3; Insert 4] s tr 10 0 1%nat
    (demo_config _) ltac:(vm_compute; reflexivity) E ltac:(cbn; lia)) as (s' & keep & young & _ & _ & _ & H & _).
  exists s, tr, s'. split; [reflexivity|exact H].
Defined.

(** C17: with the partitioned policy the free entries of a thread are really free.  After
    construction and the [resetEntries] that commit makes at startup for the threads
    [ths] active then, a pipeline that inserts an instruction of one of these threads
    whenever [numFreeEntries(tid)] is positive, and never looks at the buffer as a
    whole, never fails the assertion in [insertInst] (nor any other), and keeps each
    thread within its share; the shares of [ths] fit into the buffer.  For a thread
    that was not active at startup this fails, see [rob_late_thread_overcommits]. *)
Theorem rob_partition_sound c m ths act os :
  config c act → robPolicy c = Partitioned → Forall (λ tid, 0 ≤ tid < numThreads c) ths →
  ∃ s0, startup c m ths = Ok s0 ∧
  (legal (covered_room ths) act s0 os = true →
   ∃ s tr, run act s0 os = Ok (s, tr) ∧ shares_ok ths s ∧ numInstsInROB s ≤ numEntries c).
Proof.
  intros [Hc Ha] Hpol Hths. destruct (shares_startup c m ths Hc Hpol Hths) as (s0 & Hs0 & Hw0 & Hp0 & Hl0 & Hsh0).
  exists s0. split; [done|]. intros Hleg.
  destruct (rob_run_refines (shares_ok ths) (covered_room ths) act s0 os) as (s & tr & Hr & Hw & Hsh & _ & Hp & _); try done.
  - intros s tid Hsh Hw. by apply shares_room.
  - intros s o s'. apply shares_step.
  - unfold acts_ok. rewrite Hl0. unfold vlen. rewrite length_replicate. unfold threads. eapply Forall_impl; [exact Ha|].
    simpl. lia.
  - exists s, tr. split_and!; try done. destruct Hw as [_ _ _ [_ Hcap]]. congruence.
Qed.

Lemma rob_partition_sound_witness :
  ∃ s0 s tr, startup (demo Partitioned) demo_insts [0] = Ok s0 ∧
    run [0; 1] s0 [Insert 1; Insert 3; Insert 4; Insert 5] = Ok (s, tr) ∧ numInstsInROB s = 4.
Proof.
  destruct (rob_partition_sound (demo Partitioned) demo_insts [0] [0; 1] [Insert 1; Insert 3; Insert 4; Insert 5]
    (demo_config _) eq_refl) as (s0 & H0 & H).
  - constructor; [simpl; lia|constructor].
  - exists s0. vm_compute in H0. injection H0 as <-.
    destruct H as (s & tr & H & _); [vm_compute; reflexivity|].
    exists s, tr. split; [vm_compute; reflexivity|]. split; [exact H|].
    vm_compute in H. injection H as <- _. reflexivity.
Defined.

(** A thread that becomes active after startup.  With one thread active then, that
    thread's share is the whole buffer, and the other thread keeps the share it got at
    construction: when the first has filled the buffer of four entries, the second has
    two free entries by [numFreeEntries(tid)], and its insertion fails the assertion. *)
Theorem rob_late_thread_overcommits :
  ∃ s0 s tr, startup (demo Partitioned) demo_insts [0] = Ok s0 ∧
    run [0; 1] s0 [Insert 1; Insert 3; Insert 4; Insert 5] = Ok (s, tr) ∧
    numFreeEntries_of s 1 = Ok 2 ∧ step [0; 1] s (Insert 2) = Err AssertFail.
Proof. do 3 eexists. split; [vm_compute; reflexivity|]. split; [vm_compute; reflexivity|]. split; vm_compute; reflexivity. Qed.

(** With the other two policies they are not.  The dynamic policy gives every thread
    the whole buffer and the threshold policy the threshold, so with two threads the
    free entries of a thread can be positive in a full buffer: in a buffer of four
    entries, five insertions, each with a positive [numFreeEntries(tid)], fail the
    assertion in [insertInst]. *)
Theorem rob_policies_overcommit pol :
  pol ≠ Partitioned →
  session thread_room (demo pol) (<[5%positive := fetched 14 1]> demo_insts) [0; 1]
    [Insert 1; Insert 2; Insert 3; Insert 4; Insert 5] = true ∧
  play (demo pol) (<[5%positive := fetched 14 1]> demo_insts) [0; 1]
    [Insert 1; Insert 2; Insert 3; Insert 4; Insert 5] = Err AssertFail.
Proof. destruct pol; [|done|]; intros _; vm_compute; done. Qed.

Lemma rob_policies_overcommit_witness :
  play (demo Threshold) (<[5%positive := fetched 14 1]> demo_insts) [0; 1]
    [Insert 1; Insert 2; Insert 3; Insert 4; Insert 5] = Err AssertFail.
Proof. exact (proj2 (rob_policies_overcommit Threshold ltac:(discriminate))). Defined.

(** The tail is not moved by a retirement: it may stand at an instruction that has left
    a buffer in which there are others. *)
Lemma rob_tail_stale :
  ∃ s tr, play (demo Dynamic) demo_insts [0; 1] [Insert 1; Insert 2; Complete 2; Retire 1] = Ok (s, tr) ∧
    tail s = Some 2%positive ∧ instList s = [[1%positive]; []].
Proof. eexists _, _. split; [vm_compute; reflexivity|done]. Qed.

(** The sanity check on a drained buffer passes exactly when the queues are empty. *)
Lemma drainSanityCheck_empty c m act os s tr :
  config c act → session whole_room c m act os = true → play c m act os = Ok (s, tr) →
  drainSanityCheck s = Ok tt ↔ ∀ i q, abs s !! i = Some q → q = [].
Proof.
  intros Hc Hs Hp. destruct (play_refines c m act os Hc Hs) as (s' & tr' & Hp' & Hw & _ & Hpar & _).
  rewrite Hp in Hp'. simplify_eq. destruct Hw as [_ (_ & L2 & _) _ [Htot _]]. unfold drainSanityCheck.
  rewrite take_ge by lia.
  assert (Hall : all_empty (instList s') = Ok tt ↔ ∀ i l, instList s' !! i = Some l → l = []).
  { generalize (instList s') as ls. induction ls as [|l ls IH]; simpl; [done|]. destruct l as [|p l]; simpl.
    - rewrite IH. split; [intros H [|i] l Hl; simplify_eq/=; [done|by eapply H]|intros H i; apply (H (S i))].
    - split; [done|]. intros H. by specialize (H O _ eq_refl). }
  assert (Habs : (∀ i q, abs s' !! i = Some q → q = []) ↔ ∀ i l, instList s' !! i = Some l → l = []).
  { split; intros H i l Hl.
    - specialize (H i (abs_thread s' i l)). rewrite abs_lookup, Hl in H. by apply fmap_nil_inv in H.
    - rewrite abs_lookup in Hl. apply fmap_Some in Hl as (k & Hk & ->). by rewrite (H _ _ Hk). }
  rewrite Habs, <-Hall. destruct (all_empty (instList s')) as [[]|e] eqn:E; simpl; [|done].
  split; [done|]. intros _. unfold isEmpty. rewrite Htot.
  assert (total (instList s') = 0) as ->; [|done]. pose proof (proj1 Hall eq_refl) as Hnil. unfold total.
  clear -Hnil. induction (instList s') as [|l ls IH]; [done|]. rewrite (Hnil O l eq_refl). simpl. apply IH.
  intros i. apply (Hnil (S i)).
Qed.
End ROBSpec.
