(* ===== verification/TimeBuf.v ===== *)
(** * Time buffers and the activity recorder

    [TimeBuffer] of [cpu/timebuf.hh], the circular buffer through which the pipeline
    stages communicate, and [ActivityRecorder] of [cpu/activity.hh] and [activity.cc],
    which counts active stages and cycles to decide whether the processor may sleep. *)

From S2P Require Import Prelude.

(** ** Time buffers *)
Module TimeBuffer.
Section TimeBuffer.
Context {A : Type} (dflt : A).   (** the value of a new element *)

(** The vector [index] of element addresses never changes; element [i] of [data] is
    the object at [index[i]]. *)
Record t := mkTB { past : Z; future : Z; size : Z; base : Z; data : list A }.

Definition create (p f : Z) : res t :=
  let n := u32 (p + f + 1) in
  _ ← assert_ ((0 <=? p) && (0 <=? f));
  Ok (mkTB p f n 0 (replicate (Z.to_nat n) dflt)).

Definition valid (b : t) (idx : Z) : res unit := assert_ ((- past b <=? idx) && (idx <=? future b)).

Definition advance (b : t) : res t :=
  let k := u32 (base b + 1) in
  let k := if size b <=? k then 0 else k in
  let ptr := i32 (k + future b) in
  let ptr := if i32 (size b) <=? ptr then i32 (ptr - size b) else ptr in
  d ← vset (data b) ptr dflt;
  Ok (mkTB (past b) (future b) (size b) k d).

Definition calculateVectorIndex (b : t) (idx : Z) : res Z :=
  _ ← valid b idx;
  let vector_index := i32 (idx + base b) in
  Ok (if i32 (size b) <=? vector_index then i32 (vector_index - size b)
      else if vector_index <? 0 then i32 (vector_index + size b)
      else vector_index).

(** Reading and writing through the reference that [access] and [operator[]] return. *)
Definition access (b : t) (idx : Z) : res A := i ← calculateVectorIndex b idx; vget (data b) i.
Definition write (b : t) (idx : Z) (x : A) : res t :=
  i ← calculateVectorIndex b idx;
  d ← vset (data b) i x;
  Ok (mkTB (past b) (future b) (size b) (base b) d).

Definition getSize (b : t) : Z := size b.

(** A wire is a position relative to now, of a given buffer. *)
Definition wire := Z.
Definition wire_set (b : t) (idx : Z) : res wire := _ ← valid b idx; Ok idx.
Definition getWire (b : t) (idx : Z) : res wire := _ ← valid b idx; Ok idx.
Definition zero (b : t) : wire := 0.
Definition wire_add (b : t) (w : wire) (offset : Z) : res wire := wire_set b (i32 (w + offset)).
Definition wire_sub (b : t) (w : wire) (offset : Z) : res wire := wire_set b (i32 (w - offset)).
Definition wire_deref (b : t) (w : wire) : res A := access b w.

(** ** The sliding window *)
Record ok (b : t) : Prop := {
  ok_past : 0 ≤ past b;
  ok_future : 0 ≤ future b;
  ok_size : size b = past b + future b + 1;
  ok_width : size b < 2 ^ 30;
  ok_base : 0 ≤ base b < size b;
  ok_data : vlen (data b) = size b
}.

Definition inside (b : t) (i : Z) : Prop := - past b ≤ i ≤ future b.

(** The element that position [i] stands for. *)
Definition slot (b : t) (i : Z) : Z :=
  if size b <=? i + base b then i + base b - size b
  else if i + base b <? 0 then i + base b + size b
  else i + base b.

Lemma window_slot_range b i : ok b → inside b i → 0 ≤ slot b i < vlen (data b).
Proof.
  intros [H1 H2 H3 H4 H5 H6] Hi. unfold inside, slot in *. rewrite H6.
  destruct (Z.leb_spec (size b) (i + base b)), (Z.ltb_spec (i + base b) 0); lia.
Qed.

Lemma slot_inj b i j : ok b → inside b i → inside b j → slot b i = slot b j → i = j.
Proof.
  intros [H1 H2 H3 H4 H5 H6] Hi Hj. unfold inside, slot in *.
  destruct (Z.leb_spec (size b) (i + base b)), (Z.ltb_spec (i + base b) 0),
    (Z.leb_spec (size b) (j + base b)), (Z.ltb_spec (j + base b) 0); lia.
Qed.

Lemma calculateVectorIndex_slot b i : ok b → inside b i → calculateVectorIndex b i = Ok (slot b i).
Proof.
  intros [H1 H2 H3 H4 H5 H6] Hi. unfold inside, calculateVectorIndex, valid, slot in *.
  rewrite (proj2 (Z.leb_le (- past b) i)), (proj2 (Z.leb_le i (future b))) by lia. simpl.
  rewrite (i32_id (i + base b)), (i32_id (size b)) by (unfold is_i32; lia).
  destruct (Z.leb_spec (size b) (i + base b)), (Z.ltb_spec (i + base b) 0); simpl;
    rewrite ?i32_id by (unfold is_i32; lia); done.
Qed.

Lemma valid_inside b i : valid b i = Ok tt ↔ inside b i.
Proof.
  unfold valid, inside, assert_. destruct (Z.leb_spec (- past b) i), (Z.leb_spec i (future b)); simpl; naive_solver lia.
Qed.

(** A time line: the current time and the value of every cycle. *)
Record timeline := mkLine { now : Z; line : Z → A }.
Definition put (l : timeline) (i : Z) (x : A) : timeline :=
  mkLine (now l) (λ j, if j =? now l + i then x else line l j).
Definition tick (l : timeline) : timeline := mkLine (now l + 1) (line l).

(** Time lines are functions: two are equivalent if they agree at every cycle. *)
#[global] Instance timeline_equiv : Equiv timeline := λ l k, now l = now k ∧ ∀ j, line l j = line k j.

#[global] Instance timeline_equivalence : Equivalence (≡@{timeline}).
Proof.
  split.
  - by intros l.
  - intros l k [H1 H2]. by split.
  - intros l k m [H1 H2] [H3 H4]. split; [congruence|]. intros j. by rewrite H2.
Qed.

(** The buffer shows the time line around now, and nothing is written beyond. *)
Definition shows (b : t) (l : timeline) : Prop :=
  ok b ∧ (∀ i, inside b i → data b !! Z.to_nat (slot b i) = Some (line l (now l + i))) ∧
  (∀ j, now l + future b < j → line l j = dflt).

#[global] Instance shows_proper : Proper ((=) ==> (≡) ==> iff) shows.
Proof.
  assert (Himp : ∀ b l k, l ≡ k → shows b l → shows b k).
  { intros b l k [H1 H2] (Hok & Hd & Hf). split_and!; [done| |].
    - intros i Hi. rewrite <-H1, <-H2. auto.
    - intros j Hj. rewrite <-H2. apply Hf. by rewrite H1. }
  intros b ? <- l k Hlk. split; [by apply Himp|]. apply Himp. by symmetry.
Qed.

(** Writing what is there changes nothing. *)
Lemma put_same l i x : line l (now l + i) = x → put l i x ≡ l.
Proof. intros Hx. split; [done|]. intros j. simpl. by destruct (Z.eqb_spec j (now l + i)) as [->|]. Qed.

Lemma access_shows b l i : shows b l → inside b i → access b i = Ok (line l (now l + i)).
Proof.
  intros (Hok & Hd & _) Hi. unfold access. rewrite calculateVectorIndex_slot by done. simpl.
  apply vget_in; [apply window_slot_range; done|auto].
Qed.

Lemma create_shows p f :
  0 ≤ p → 0 ≤ f → p + f + 1 < 2 ^ 30 →
  ∃ b, create p f = Ok b ∧ shows b (mkLine 0 (λ _, dflt)) ∧ past b = p ∧ future b = f.
Proof.
  intros Hp Hf Hs. unfold create. rewrite (u32_id (p + f + 1)) by (unfold is_u32; lia).
  rewrite (proj2 (Z.leb_le 0 p)), (proj2 (Z.leb_le 0 f)) by done. simpl. eexists. split; [done|].
  assert (Hok : ok (mkTB p f (p + f + 1) 0 (replicate (Z.to_nat (p + f + 1)) dflt))).
  { split; simpl; try lia. unfold vlen. rewrite length_replicate. lia. }
  split; [|done]. split_and!; [done| |done]. intros i Hi. simpl.
  pose proof (window_slot_range _ i Hok Hi) as Hr. unfold vlen in Hr. simpl in Hr. rewrite length_replicate in Hr.
  apply lookup_replicate_2. lia.
Qed.

Lemma write_shows b l i x :
  shows b l → inside b i →
  ∃ b', write b i x = Ok b' ∧ shows b' (put l i x) ∧ past b' = past b ∧ future b' = future b.
Proof.
  intros (Hok & Hd & Hf) Hi. unfold write. rewrite calculateVectorIndex_slot by done. simpl.
  pose proof (window_slot_range b i Hok Hi) as Hr. rewrite vset_in by done. simpl.
  eexists. split; [done|]. split; [|done]. split_and!.
  - destruct Hok. split; simpl; try done. by rewrite vlen_insert.
  - intros j Hj. simpl. change (slot _ j) with (slot b j). destruct (Z.eqb_spec (now l + j) (now l + i)) as [E|E].
    + assert (j = i) as -> by lia. apply list_lookup_insert_eq. unfold vlen in Hr. lia.
    + rewrite list_lookup_insert_ne; [by apply Hd|]. intros Hs. apply E.
      rewrite (slot_inj b i j); [done|done|done|done|]. pose proof (window_slot_range b j Hok Hj). lia.
  - intros j Hj. simpl in *. rewrite (proj2 (Z.eqb_neq j (now l + i))) by (unfold inside in Hi; lia). by apply Hf.
Qed.

Lemma advance_shows b l :
  shows b l → ∃ b', advance b = Ok b' ∧ shows b' (tick l) ∧ past b' = past b ∧ future b' = future b.
Proof.
  intros (Hok & Hd & Hf). pose proof Hok as [H1 H2 H3 H4 H5 H6]. unfold advance.
  rewrite (u32_id (base b + 1)) by (unfold is_u32; lia).
  set (k := if size b <=? base b + 1 then 0 else base b + 1).
  assert (Hk : 0 ≤ k < size b) by (unfold k; destruct (Z.leb_spec (size b) (base b + 1)); lia).
  set (b1 := mkTB (past b) (future b) (size b) k (data b)).
  assert (Hok1 : ok b1) by (split; simpl; done || lia).
  assert (Hin : inside b1 (future b)) by (unfold inside; simpl; lia).
  rewrite (i32_id (k + future b)), (i32_id (size b)) by (unfold is_i32; lia).
  assert (Hptr : (if size b <=? k + future b then i32 (k + future b - size b) else k + future b) = slot b1 (future b)).
  { unfold slot. simpl. rewrite (Z.add_comm k). destruct (Z.leb_spec (size b) (future b + k)).
    - apply i32_id. unfold is_i32. lia.
    - by rewrite (proj2 (Z.ltb_ge (future b + k) 0)) by lia. }
  rewrite Hptr. pose proof (window_slot_range b1 (future b) Hok1 Hin) as Hr. rewrite vset_in by done. simpl.
  eexists. split; [done|]. split; [|done]. split_and!.
  - split; simpl; try done. by rewrite vlen_insert.
  - intros i Hi. simpl. change (slot _ i) with (slot b1 i). destruct (Z.eq_dec i (future b)) as [->|Hne].
    + rewrite list_lookup_insert_eq by (unfold vlen in Hr; simpl in Hr; lia). f_equal. symmetry. apply Hf. lia.
    + assert (Hi1 : inside b1 i) by done. pose proof (window_slot_range b1 i Hok1 Hi1).
      rewrite list_lookup_insert_ne by (intros E; apply Hne, (slot_inj b1); [done|done|done|lia]).
      assert (Hs : slot b1 i = slot b (i + 1)).
      { unfold slot, k, inside in *. simpl in *. clear -H3 H5 Hi Hne H1 H2.
        destruct (Z.leb_spec (size b) (base b + 1)).
        - rewrite (proj2 (Z.leb_gt (size b) (i + 0))) by lia.
          destruct (Z.ltb_spec (i + 0) 0), (Z.leb_spec (size b) (i + 1 + base b)), (Z.ltb_spec (i + 1 + base b) 0); lia.
        - destruct (Z.leb_spec (size b) (i + (base b + 1))), (Z.ltb_spec (i + (base b + 1)) 0),
            (Z.leb_spec (size b) (i + 1 + base b)), (Z.ltb_spec (i + 1 + base b) 0); lia. }
      rewrite Hs, Hd by (unfold inside in *; simpl in *; lia). do 2 f_equal. lia.
  - intros j Hj. simpl in *. apply Hf. lia.
Qed.

(** ** Runs *)
Inductive op := Write (i : Z) (x : A) | Advance.

Definition step (b : t) (o : op) : res t := match o with Write i x => write b i x | Advance => advance b end.
Definition line_step (l : timeline) (o : op) : timeline :=
  match o with Write i x => put l i x | Advance => tick l end.

Fixpoint run (b : t) (os : list op) : res t :=
  match os with [] => Ok b | o :: os => b ← step b o; run b os end.

Definition op_inside (p f : Z) (o : op) : Prop := match o with Write i _ => - p ≤ i ≤ f | Advance => True end.

Lemma run_shows b l os :
  shows b l → Forall (op_inside (past b) (future b)) os →
  ∃ b', run b os = Ok b' ∧ shows b' (foldl line_step l os) ∧ past b' = past b ∧ future b' = future b.
Proof.
  intros Hs Ho. revert b l Hs Ho. induction os as [|o os IH]; intros b l Hs Ho; [by exists b|].
  apply Forall_cons in Ho as [Ho Hos]. assert (∃ b1, step b o = Ok b1 ∧ shows b1 (line_step l o) ∧
    past b1 = past b ∧ future b1 = future b) as (b1 & E & Hs1 & Hp & Hf).
  { destruct o; [by apply write_shows|by apply advance_shows]. }
  destruct (IH b1 (line_step l o)) as (b2 & E2 & Hs2 & Hp2 & Hf2); [done|by rewrite Hp, Hf|].
  exists b2. simpl. rewrite E. simpl. split_and!; [done|done|congruence|congruence].
Qed.

(** C31: a time buffer is a window that slides along a time line.  After any writes
    within the window and any advances, reading position [i] gives the value last written
    for the cycle [i] away from the current one, and a default value if there was none;
    positions outside the window fail the assertion. *)
Theorem timebuffer_timeline p f os :
  0 ≤ p → 0 ≤ f → p + f + 1 < 2 ^ 30 → Forall (op_inside p f) os →
  ∃ b, (b ← create p f; run b os) = Ok b ∧
    let l := foldl line_step (mkLine 0 (λ _, dflt)) os in
    ∀ i, access b i = if bool_decide (- p ≤ i ≤ f) then Ok (line l (now l + i)) else Err AssertFail.
Proof.
  intros Hp Hf Hs Ho. destruct (create_shows p f Hp Hf Hs) as (b0 & -> & Hs0 & Hp0 & Hf0).
  destruct (run_shows b0 _ os Hs0) as (b & Hr & Hsb & Hpb & Hfb); [by rewrite Hp0, Hf0|].
  exists b. split; [done|]. intros l i. case_bool_decide as Hi.
  - apply access_shows; [done|]. unfold inside. by rewrite Hpb, Hfb, Hp0, Hf0.
  - unfold access, calculateVectorIndex. pose proof (valid_inside b i) as Hv. unfold valid, inside in *.
    rewrite Hpb, Hfb, Hp0, Hf0 in *. destruct (_ && _); simpl in *; [by destruct Hi; apply Hv|done].
Qed.
End TimeBuffer.

Lemma timebuffer_timeline_witness :
  ∃ b, (b ← create 0 2 1; run 0 b [Write 1 7; Advance; Write 0 8; Write 1 9; Advance; Advance]) = Ok b ∧
    access b (-2) = Ok 8 ∧ access b (-1) = Ok 9 ∧ access b 0 = Ok 0.
Proof.
  destruct (timebuffer_timeline 0 2 1 [Write 1 7; Advance; Write 0 8; Write 1 9; Advance; Advance]
    ltac:(lia) ltac:(lia) ltac:(lia) ltac:(repeat constructor; simpl; lia)) as (b & Hb & Ha).
  exists b. split; [exact Hb|]. split; [exact (Ha (-2))|]. split; [exact (Ha (-1))|exact (Ha 0)].
Defined.
End TimeBuffer.

(** ** The activity recorder *)
Module ActivityRecorder.
Record t := mkAR {
  activityBuffer : TimeBuffer.t (A := bool); longestLatency : Z; activityCount : Z; numStages : Z;
  stageActive : list bool
}.

Definition with_buffer (s : t) b : t := mkAR b (longestLatency s) (activityCount s) (numStages s) (stageActive s).
Definition with_count (s : t) c : t := mkAR (activityBuffer s) (longestLatency s) c (numStages s) (stageActive s).
Definition with_stages (s : t) l : t := mkAR (activityBuffer s) (longestLatency s) (activityCount s) (numStages s) l.

Definition create (num_stages longest_latency activity : Z) : res t :=
  b ← TimeBuffer.create false longest_latency 0;
  Ok (mkAR b longest_latency activity num_stages (replicate (Z.to_nat num_stages) false)).

Definition activity (s : t) : res t :=
  x ← TimeBuffer.access (activityBuffer s) 0;
  if (x : bool) then Ok s
  else
    b ← TimeBuffer.write (activityBuffer s) 0 true;
    Ok (with_count (with_buffer s b) (i32 (activityCount s + 1))).

Definition advance (s : t) : res t :=
  x ← TimeBuffer.access (activityBuffer s) (- longestLatency s);
  s ← (if (x : bool) then
         let c := i32 (activityCount s - 1) in
         _ ← assert_ (0 <=? c); Ok (with_count s c)
       else Ok s);
  b ← TimeBuffer.advance false (activityBuffer s);
  Ok (with_buffer s b).

Definition activateStage (s : t) (idx : Z) : res t :=
  a ← vget (stageActive s) idx;
  if (a : bool) then Ok s
  else l ← vset (stageActive s) idx true; Ok (with_stages (with_count s (i32 (activityCount s + 1))) l).

Definition deactivateStage (s : t) (idx : Z) : res t :=
  a ← vget (stageActive s) idx;
  s ← (if (a : bool) then
         l ← vset (stageActive s) idx false; Ok (with_stages (with_count s (i32 (activityCount s - 1))) l)
       else Ok s);
  _ ← assert_ (0 <=? activityCount s);
  Ok s.

Definition getStageActive (s : t) (idx : Z) : res bool := vget (stageActive s) idx.
Definition setActivityCount (s : t) (count : Z) : t := with_count s count.
Definition active (s : t) : bool := negb (activityCount s =? 0).

Fixpoint advance_buffer (n : nat) (b : TimeBuffer.t) : res TimeBuffer.t :=
  match n with O => Ok b | S n => b ← TimeBuffer.advance false b; advance_buffer n b end.

Definition reset (s : t) : res t :=
  let s := with_stages (with_count s 0) (replicate (Z.to_nat (numStages s)) false) in
  b ← advance_buffer (Z.to_nat (longestLatency s + 1)) (activityBuffer s);
  Ok (with_buffer s b).

(** The two loops of [validate]. *)
Fixpoint count_cycles (b : TimeBuffer.t) (n : nat) : res Z :=
  match n with
  | O => Ok 0
  | S n => c ← count_cycles b n; x ← TimeBuffer.access b (- Z.of_nat n); Ok (if (x : bool) then i32 (c + 1) else c)
  end.

Fixpoint count_stages (l : list bool) (count : Z) : Z :=
  match l with [] => count | a :: l => count_stages l (if (a : bool) then i32 (count + 1) else count) end.

Definition validate (s : t) : res unit :=
  c ← count_cycles (activityBuffer s) (Z.to_nat (longestLatency s + 1));
  assert_ (count_stages (take (Z.to_nat (numStages s)) (stageActive s)) c =? activityCount s).

(** ** What the recorder stands for *)

(** The current cycle, the cycles with activity, and the active stages. *)
Record log := mkLog { cycles : TimeBuffer.timeline (A := bool); stages : list bool }.

Inductive op := Activity | Advance | Activate (idx : Z) | Deactivate (idx : Z) | Reset.

Definition step (s : t) (o : op) : res t :=
  match o with
  | Activity => activity s
  | Advance => advance s
  | Activate idx => activateStage s idx
  | Deactivate idx => deactivateStage s idx
  | Reset => reset s
  end.

(** A reset moves to a cycle by which all earlier activity has left the buffer. *)
Definition log_step (latency : Z) (g : log) (o : op) : log :=
  match o with
  | Activity => mkLog (TimeBuffer.put (cycles g) 0 true) (stages g)
  | Advance => mkLog (TimeBuffer.tick (cycles g)) (stages g)
  | Activate idx => mkLog (cycles g) (<[Z.to_nat idx := true]> (stages g))
  | Deactivate idx => mkLog (cycles g) (<[Z.to_nat idx := false]> (stages g))
  | Reset => mkLog (Nat.iter (Z.to_nat (latency + 1)) TimeBuffer.tick (cycles g)) (replicate (length (stages g)) false)
  end.

Fixpoint run (s : t) (os : list op) : res t :=
  match os with [] => Ok s | o :: os => s ← step s o; run s os end.

Definition stage_ok (n : Z) (o : op) : Prop :=
  match o with Activate idx | Deactivate idx => 0 ≤ idx < n | _ => True end.

(** Active cycles among the last [n], and active stages. *)
Fixpoint marks (l : TimeBuffer.timeline) (n : nat) : Z :=
  match n with O => 0 | S n => marks l n + Z.b2z (TimeBuffer.line l (TimeBuffer.now l - Z.of_nat n)) end.

Fixpoint trues (l : list bool) : Z := match l with [] => 0 | a :: l => Z.b2z a + trues l end.

Lemma marks_bounds l n : 0 ≤ marks l n ≤ Z.of_nat n.
Proof. induction n as [|n IH]; cbn [marks]; [lia|]. destruct (TimeBuffer.line _ _); simpl; lia. Qed.

Lemma trues_bounds l : 0 ≤ trues l ≤ vlen l.
Proof. unfold vlen. induction l as [|[] l IH]; simpl in *; lia. Qed.

Lemma marks_zero l n :
  marks l n = 0 ↔ ∀ k, 0 ≤ k < Z.of_nat n → TimeBuffer.line l (TimeBuffer.now l - k) = false.
Proof.
  induction n as [|n IH]; cbn [marks]; [naive_solver lia|]. pose proof (marks_bounds l n). split.
  - intros Hm k Hk. destruct (TimeBuffer.line l (TimeBuffer.now l - Z.of_nat n)) eqn:E; simpl in Hm; [lia|].
    destruct (Z.eq_dec k (Z.of_nat n)) as [->|]; [done|]. apply IH; lia.
  - intros Hk. rewrite (proj2 IH) by (intros k ?; apply Hk; lia). by rewrite Hk by lia.
Qed.

Lemma trues_zero l : trues l = 0 ↔ ∀ i, l !! i ≠ Some true.
Proof.
  induction l as [|a l IH]; simpl; [done|]. pose proof (trues_bounds l). split.
  - intros Ht [|i]; simpl; destruct a; simpl in Ht; try (done || lia). apply IH. lia.
  - intros Hi. rewrite (proj2 IH) by (intros i; apply (Hi (S i))). destruct a; [by specialize (Hi O)|done].
Qed.

Lemma trues_insert l i a b : l !! i = Some a → trues (<[i := b]> l) = trues l - Z.b2z a + Z.b2z b.
Proof.
  revert i. induction l as [|x l IH]; intros [|i] Hi; simplify_eq/=; [lia|]. rewrite (IH i Hi). lia.
Qed.

Lemma trues_replicate n : trues (replicate n false) = 0.
Proof. induction n; simpl; lia. Qed.

(** The oldest cycle leaves, the new one is inactive. *)
Lemma marks_tick l n :
  TimeBuffer.line l (TimeBuffer.now l + 1) = false → marks (TimeBuffer.tick l) (S n) = marks l n.
Proof.
  intros Hnew. induction n as [|n IH].
  - cbn [marks TimeBuffer.tick TimeBuffer.line TimeBuffer.now]. rewrite Z.sub_0_r, Hnew. done.
  - change (marks (TimeBuffer.tick l) (S (S n))) with (marks (TimeBuffer.tick l) (S n) +
      Z.b2z (TimeBuffer.line l (TimeBuffer.now l + 1 - Z.of_nat (S n)))).
    rewrite IH. cbn [marks]. do 2 f_equal. f_equal. lia.
Qed.

Lemma marks_put l n :
  TimeBuffer.line l (TimeBuffer.now l) = false → marks (TimeBuffer.put l 0 true) (S n) = marks l (S n) + 1.
Proof.
  intros Hnow. induction n as [|n IH].
  - cbn [marks TimeBuffer.put TimeBuffer.line TimeBuffer.now]. rewrite Z.sub_0_r, Z.add_0_r, Z.eqb_refl, Hnow. done.
  - change (marks (TimeBuffer.put l 0 true) (S (S n))) with (marks (TimeBuffer.put l 0 true) (S n) +
      Z.b2z (TimeBuffer.line (TimeBuffer.put l 0 true) (TimeBuffer.now l - Z.of_nat (S n)))).
    rewrite IH. cbn [marks TimeBuffer.put TimeBuffer.line].
    rewrite (proj2 (Z.eqb_neq _ (TimeBuffer.now l + 0))) by lia. lia.
Qed.

(** The recorder agrees with the log. *)
Record records (n lat : Z) (s : t) (g : log) : Prop := {
  re_cfg : 0 ≤ lat ∧ 0 ≤ n ∧ lat + n + 1 < 2 ^ 30;
  re_latency : longestLatency s = lat ∧ numStages s = n;
  re_buffer : TimeBuffer.shows false (activityBuffer s) (cycles g);
  re_window : TimeBuffer.past (activityBuffer s) = lat ∧ TimeBuffer.future (activityBuffer s) = 0;
  re_stages : stageActive s = stages g ∧ vlen (stages g) = n;
  re_count : activityCount s = marks (cycles g) (Z.to_nat (lat + 1)) + trues (stages g)
}.

Lemma records_bounds n lat s g : records n lat s g → 0 ≤ activityCount s < 2 ^ 30.
Proof.
  intros [(?&?&?) _ _ _ [_ ?] ->]. pose proof (marks_bounds (cycles g) (Z.to_nat (lat + 1))).
  pose proof (trues_bounds (stages g)). lia.
Qed.

#[global] Instance marks_proper : Proper ((≡) ==> (=) ==> (=)) marks.
Proof.
  intros l k [H1 H2] n ? <-. induction n as [|n IH]; cbn [marks]; [done|]. by rewrite IH, H1, H2.
Qed.

Lemma activity_records n lat s g :
  records n lat s g → ∃ s', activity s = Ok s' ∧ records n lat s' (log_step lat g Activity).
Proof.
  intros Hr. pose proof (records_bounds _ _ _ _ Hr) as Hb. destruct Hr as [Hc Hl Hs [Hp Hf] Hst Hcount]. unfold activity.
  assert (Hin : TimeBuffer.inside (activityBuffer s) 0) by (unfold TimeBuffer.inside; lia).
  rewrite (TimeBuffer.access_shows false _ (cycles g) 0 Hs Hin). cbn [mbind res_bind].
  destruct (TimeBuffer.line (cycles g) (TimeBuffer.now (cycles g) + 0)) eqn:E.
  - exists s. split; [done|]. pose proof (TimeBuffer.put_same (cycles g) 0 true E) as Hput.
    split; cbn [log_step cycles stages]; try done.
    + by rewrite Hput.
    + by rewrite Hput.
  - destruct (TimeBuffer.write_shows false _ (cycles g) 0 true Hs Hin) as (b & -> & Hs' & Hp' & Hf').
    cbn [mbind res_bind]. eexists. split; [done|]. split; cbn [log_step cycles stages]; simpl; try done; [lia|].
    rewrite i32_id by (unfold is_i32; lia). rewrite Z.add_0_r in E.
    replace (Z.to_nat (lat + 1)) with (S (Z.to_nat lat)) in * by lia. rewrite (marks_put (cycles g)) by done. lia.
Qed.

Lemma buffer_tick n lat s g b :
  records n lat s g → TimeBuffer.shows false b (TimeBuffer.tick (cycles g)) →
  marks (TimeBuffer.tick (cycles g)) (Z.to_nat (lat + 1)) =
  marks (cycles g) (Z.to_nat (lat + 1)) - Z.b2z (TimeBuffer.line (cycles g) (TimeBuffer.now (cycles g) - lat)).
Proof.
  intros [Hc _ (_ & _ & Hfut) [_ Hf] _ _] _. replace (Z.to_nat (lat + 1)) with (S (Z.to_nat lat)) by lia.
  rewrite marks_tick by (apply Hfut; lia). cbn [marks]. rewrite Z2Nat.id by lia. lia.
Qed.

Lemma advance_records n lat s g :
  records n lat s g → ∃ s', advance s = Ok s' ∧ records n lat s' (log_step lat g Advance).
Proof.
  intros Hr. pose proof (records_bounds _ _ _ _ Hr) as Hb. pose proof Hr as [Hc Hl Hs [Hp Hf] Hst Hcount]. unfold advance.
  destruct Hl as [Hl Hn]. rewrite Hl.
  rewrite (TimeBuffer.access_shows false _ (cycles g) (- lat) Hs) by (unfold TimeBuffer.inside; lia). cbn [mbind res_bind].
  destruct (TimeBuffer.advance_shows false _ (cycles g) Hs) as (b & Hadv & Hs' & Hp' & Hf').
  pose proof (buffer_tick _ _ _ _ _ Hr Hs') as Hm. rewrite Z.add_opp_r.
  destruct (TimeBuffer.line (cycles g) (TimeBuffer.now (cycles g) - lat)) eqn:E; cbn [Z.b2z] in Hm.
  - assert (Hpos : 0 ≤ activityCount s - 1).
    { pose proof (marks_bounds (TimeBuffer.tick (cycles g)) (Z.to_nat (lat + 1))). pose proof (trues_bounds (stages g)). lia. }
    rewrite i32_id by (unfold is_i32; lia). rewrite (proj2 (Z.leb_le 0 _)) by done. cbn [mbind res_bind assert_].
    simpl. rewrite Hadv. simpl. eexists. split; [done|]. split; simpl; try done; lia.
  - simpl. rewrite Hadv. simpl. eexists. split; [done|]. split; simpl; try done; lia.
Qed.

Lemma activate_records n lat s g idx :
  records n lat s g → 0 ≤ idx < n →
  ∃ s', activateStage s idx = Ok s' ∧ records n lat s' (log_step lat g (Activate idx)).
Proof.
  intros Hr Hidx. pose proof (records_bounds _ _ _ _ Hr) as Hb. pose proof Hr as [Hc Hl Hs Hw [Hst Hlen] Hcount].
  destruct (vlookup_lt (stages g) idx) as [a Ha]; [lia|]. unfold activateStage. rewrite Hst.
  rewrite (vget_in _ _ _ (proj1 Hidx) Ha). cbn [mbind res_bind]. destruct a.
  - exists s. split; [done|]. split; simpl; try done; rewrite list_insert_id by done; done.
  - rewrite vset_in by lia. cbn [mbind res_bind]. eexists. split; [done|]. split; simpl; try done.
    + by rewrite vlen_insert.
    + rewrite (trues_insert _ _ _ _ Ha). rewrite i32_id by (unfold is_i32; lia). simpl. lia.
Qed.

Lemma deactivate_records n lat s g idx :
  records n lat s g → 0 ≤ idx < n →
  ∃ s', deactivateStage s idx = Ok s' ∧ records n lat s' (log_step lat g (Deactivate idx)).
Proof.
  intros Hr Hidx. pose proof (records_bounds _ _ _ _ Hr) as Hb. pose proof Hr as [Hc Hl Hs Hw [Hst Hlen] Hcount].
  destruct (vlookup_lt (stages g) idx) as [a Ha]; [lia|]. unfold deactivateStage. rewrite Hst.
  rewrite (vget_in _ _ _ (proj1 Hidx) Ha). cbn [mbind res_bind]. destruct a.
  - rewrite vset_in by lia. cbn [mbind res_bind]. pose proof (trues_insert _ _ _ false Ha) as Ht. simpl in Ht.
    pose proof (trues_bounds (<[Z.to_nat idx := false]> (stages g))). pose proof (marks_bounds (cycles g) (Z.to_nat (lat + 1))).
    rewrite i32_id by (unfold is_i32; lia). simpl. rewrite (proj2 (Z.leb_le 0 _)) by lia. simpl.
    eexists. split; [done|]. split; simpl; try done; [by rewrite vlen_insert|lia].
  - simpl. rewrite (proj2 (Z.leb_le 0 _)) by lia. simpl. exists s. split; [done|].
    split; simpl; try done; rewrite list_insert_id by done; done.
Qed.

Lemma iter_tick k (l : TimeBuffer.timeline) :
  TimeBuffer.now (Nat.iter k TimeBuffer.tick l) = TimeBuffer.now l + Z.of_nat k ∧
  ∀ j, TimeBuffer.line (Nat.iter k TimeBuffer.tick l) j = TimeBuffer.line (A := bool) l j.
Proof. induction k as [|k [IH1 IH2]]; simpl; split; [lia|done|lia|done]. Qed.

Lemma advance_buffer_shows k b l :
  TimeBuffer.shows false b l →
  ∃ b', advance_buffer k b = Ok b' ∧ TimeBuffer.shows false b' (Nat.iter k TimeBuffer.tick l) ∧
    TimeBuffer.past b' = TimeBuffer.past b ∧ TimeBuffer.future b' = TimeBuffer.future b.
Proof.
  revert b l. induction k as [|k IH]; intros b l Hs; [by exists b|]. cbn [advance_buffer].
  destruct (TimeBuffer.advance_shows false b l Hs) as (b1 & -> & Hs1 & Hp & Hf). cbn [mbind res_bind].
  destruct (IH b1 _ Hs1) as (b2 & -> & Hs2 & Hp2 & Hf2). exists b2. rewrite Nat.iter_succ_r.
  split_and!; [done|done|congruence|congruence].
Qed.

Lemma reset_records n lat s g :
  records n lat s g → ∃ s', reset s = Ok s' ∧ records n lat s' (log_step lat g Reset).
Proof.
  intros [Hc [Hl Hn] Hs [Hp Hf] [Hst Hlen] Hcount]. unfold reset. simpl. rewrite Hl, Hn.
  destruct (advance_buffer_shows (Z.to_nat (lat + 1)) _ _ Hs) as (b & -> & Hs' & Hp' & Hf'). simpl.
  eexists. split; [done|]. unfold vlen in Hlen. split; cbn [log_step cycles stages]; simpl; try done.
  - lia.
  - split; [f_equal; lia|]. unfold vlen. by rewrite length_replicate.
  - rewrite trues_replicate, Z.add_0_r. symmetry. apply marks_zero. intros k Hk.
    destruct (iter_tick (Z.to_nat (lat + 1)) (cycles g)) as [E1 E2]. rewrite E1, E2. apply Hs. lia.
Qed.

Lemma step_records n lat s g o :
  records n lat s g → stage_ok n o → ∃ s', step s o = Ok s' ∧ records n lat s' (log_step lat g o).
Proof.
  intros Hr Ho. destruct o; cbn [step stage_ok] in *; [by apply activity_records|by apply advance_records|
    by apply activate_records|by apply deactivate_records|by apply reset_records].
Qed.

Lemma run_records n lat s g os :
  records n lat s g → Forall (stage_ok n) os →
  ∃ s', run s os = Ok s' ∧ records n lat s' (foldl (log_step lat) g os).
Proof.
  intros Hr Ho. revert s g Hr. induction Ho as [|o os Ho Hos IH]; intros s g Hr; [by exists s|].
  destruct (step_records n lat s g o Hr Ho) as (s1 & E & Hr1). cbn [run foldl]. rewrite E. by apply IH.
Qed.

(** ** [validate] *)
Lemma count_cycles_marks b l n :
  TimeBuffer.shows false b l → Z.of_nat n ≤ TimeBuffer.past b + 1 → Z.of_nat n < 2 ^ 30 → count_cycles b n = Ok (marks l n).
Proof.
  intros Hs. induction n as [|n IH]; intros Hn Hm; [done|]. cbn [count_cycles]. rewrite IH by lia. cbn [mbind res_bind].
  pose proof Hs as ([_ ? _ _ _ _] & _ & _).
  rewrite (TimeBuffer.access_shows false b l _ Hs) by (unfold TimeBuffer.inside; lia). cbn [mbind res_bind marks].
  rewrite Z.add_opp_r. pose proof (marks_bounds l n). destruct (TimeBuffer.line l _); simpl; [|by rewrite Z.add_0_r].
  by rewrite i32_id by (unfold is_i32; lia).
Qed.

Lemma count_stages_trues l c : 0 ≤ c → c + vlen l < 2 ^ 30 → count_stages l c = c + trues l.
Proof.
  unfold vlen. revert c. induction l as [|[] l IH]; intros c Hc Hl; simpl in *; [lia| |].
  - rewrite i32_id by (unfold is_i32; lia). rewrite IH by lia. lia.
  - rewrite IH by lia. lia.
Qed.

Lemma validate_records n lat s g : records n lat s g → validate s = Ok tt.
Proof.
  intros [Hc [Hl Hn] Hs [Hp Hf] [Hst Hlen] Hcount]. unfold validate. rewrite Hl, Hn, Hst.
  rewrite (count_cycles_marks _ (cycles g)) by (done || lia). cbn [mbind res_bind].
  rewrite take_ge by (unfold vlen in Hlen; lia). pose proof (marks_bounds (cycles g) (Z.to_nat (lat + 1))).
  rewrite count_stages_trues by lia. by rewrite (proj2 (Z.eqb_eq _ _)) by lia.
Qed.

Definition start (num_stages : Z) : log := mkLog (TimeBuffer.mkLine 0 (λ _, false)) (replicate (Z.to_nat num_stages) false).

(** The recorder knows exactly when the processor may sleep.  From a recorder created
    with count 0, after any recorded activity, advances, stage changes and resets, no
    assertion has failed, [validate] confirms the count, and [active()] is false if and
    only if no stage is active and no activity was recorded in the current cycle or the
    [longestLatency] cycles before it. *)
Theorem activity_recorder_exact n lat os :
  0 ≤ lat → 0 ≤ n → lat + n + 1 < 2 ^ 30 → Forall (stage_ok n) os →
  ∃ s, (s ← create n lat 0; run s os) = Ok s ∧ validate s = Ok tt ∧
    let g := foldl (log_step lat) (start n) os in
    (active s = false ↔
       (∀ i, stages g !! i ≠ Some true) ∧
       ∀ k, 0 ≤ k ≤ lat → TimeBuffer.line (cycles g) (TimeBuffer.now (cycles g) - k) = false).
Proof.
  intros Hlat Hn Hsum Ho. unfold create.
  destruct (TimeBuffer.create_shows false lat 0) as (b & -> & Hs & Hp & Hf); [done|done|lia|]. cbn [mbind res_bind].
  destruct (run_records n lat (mkAR b lat 0 n (replicate (Z.to_nat n) false)) (start n) os) as (s & Hr & Hrec); [|done|].
  { split; simpl; try done.
    - split; [done|]. unfold vlen. rewrite length_replicate. lia.
    - rewrite trues_replicate, Z.add_0_r. symmetry. by apply marks_zero. }
  exists s. split; [exact Hr|]. split; [by eapply validate_records|].
  set (g := foldl (log_step lat) (start n) os) in *. cbv zeta.
  destruct Hrec as [_ _ _ _ _ Hcount]. pose proof (marks_bounds (cycles g) (Z.to_nat (lat + 1))). pose proof (trues_bounds (stages g)).
  unfold active. rewrite negb_false_iff, Z.eqb_eq, Hcount, <-trues_zero.
  assert (Hmarks := marks_zero (cycles g) (Z.to_nat (lat + 1))). split.
  - intros Hzero. split; [lia|]. intros k Hk. apply Hmarks; lia.
  - intros [-> Hk]. rewrite Z.add_0_r. apply Hmarks. intros k Hk'. apply Hk. lia.
Qed.

Lemma activity_recorder_exact_witness :
  ∃ s, (s ← create 3 2 0; run s [Activate 1; Activity; Advance; Deactivate 1; Advance; Advance]) = Ok s ∧ active s = false.
Proof.
  destruct (activity_recorder_exact 3 2 [Activate 1; Activity; Advance; Deactivate 1; Advance; Advance]
    ltac:(lia) ltac:(lia) ltac:(lia) ltac:(repeat constructor; simpl; lia)) as (s & Hs & _ & Ha).
  exists s. split; [exact Hs|]. apply Ha. split; [|intros k Hk].
  - apply trues_zero. reflexivity.
  - assert (k = 0 ∨ k = 1 ∨ k = 2) as [->|[->| ->]] by lia; reflexivity.
Defined.

(** With another starting count [validate] fails at once. *)
Lemma validate_needs_zero : (s ← create 3 2 1; validate s) = Err AssertFail.
Proof. done. Qed.
End ActivityRecorder.
