(* ===== verification/DepGraph.v ===== *)
(** * The dependency graph

    [DependencyGraph] of [cpu/o3/dep_graph.hh]: per physical register the instruction
    that will produce it and a linked list of the instructions that wait for it.  The
    nodes of the lists are on a heap; an instruction is its address. *)

From S2P Require Import Prelude.

Module DependencyGraph.

Record DepEntry := mkEntry { inst : ptr; link : ptr }.
Definition DepEntry_new : DepEntry := mkEntry None None.

Record t := mkGraph {
  dependGraph : list DepEntry; nodes : heap DepEntry; numEntries : Z; memAllocCounter : Z;
  nodesTraversed : Z; nodesRemoved : Z
}.

Definition default : t := mkGraph [] heap_empty 0 0 0 0.

Definition resize (g : t) (num_entries : Z) : t :=
  mkGraph (replicate (Z.to_nat num_entries) DepEntry_new) (nodes g) num_entries (memAllocCounter g)
    (nodesTraversed g) (nodesRemoved g).

Definition with_heads (g : t) dg h c : t := mkGraph dg h (numEntries g) c (nodesTraversed g) (nodesRemoved g).

Definition insert (g : t) (idx : Z) (new_inst : positive) : res t :=
  e ← vget (dependGraph g) idx;
  let '(new_entry, h) := heap_new (nodes g) (mkEntry (Some new_inst) (link e)) in
  dg ← vset (dependGraph g) idx (mkEntry (inst e) new_entry);
  Ok (with_heads g dg h (u32 (memAllocCounter g + 1))).

Definition setInst (g : t) (idx : Z) (new_inst : positive) : res t :=
  e ← vget (dependGraph g) idx;
  dg ← vset (dependGraph g) idx (mkEntry (Some new_inst) (link e));
  Ok (with_heads g dg (nodes g) (memAllocCounter g)).

Definition clearInst (g : t) (idx : Z) : res t :=
  e ← vget (dependGraph g) idx;
  dg ← vset (dependGraph g) idx (mkEntry None (link e));
  Ok (with_heads g dg (nodes g) (memAllocCounter g)).

Definition empty_of (g : t) (idx : Z) : res bool :=
  e ← vget (dependGraph g) idx; Ok (bool_decide (link e = None)).

Fixpoint empty_upto (g : t) (n : nat) (i : Z) : res bool :=
  match n with
  | O => Ok true
  | S n => b ← empty_of g i; if (b : bool) then empty_upto g n (i + 1) else Ok false
  end.
Definition empty (g : t) : res bool := empty_upto g (Z.to_nat (numEntries g)) 0.

(** The search of [remove]; [prev] is [None] at the head of the list.  Yields the node
    before, the node, and the number of nodes passed. *)
Fixpoint find_node (fuel : nat) (h : heap DepEntry) (inst_to_remove : positive) (prev curr : ptr) (passed : Z)
    : res (ptr * ptr * Z) :=
  match fuel with
  | O => Err Diverges
  | S fuel =>
      n ← heap_deref h curr;
      if decide (inst n = Some inst_to_remove) then Ok (prev, curr, passed)
      else
        _ ← assert_ (bool_decide (link n ≠ None));
        find_node fuel h inst_to_remove curr (link n) (u64 (passed + 1))
  end.

Definition unlink (g : t) (idx : Z) (prev : ptr) (target : ptr) : res (list DepEntry * heap DepEntry) :=
  match prev with
  | None => e ← vget (dependGraph g) idx; dg ← vset (dependGraph g) idx (mkEntry (inst e) target); Ok (dg, nodes g)
  | _ => n ← heap_deref (nodes g) prev; h ← heap_store (nodes g) prev (mkEntry (inst n) target); Ok (dependGraph g, h)
  end.

Definition remove (g : t) (idx : Z) (inst_to_remove : positive) : res t :=
  e ← vget (dependGraph g) idx;
  match link e with
  | None => Ok g
  | curr =>
      '(prev, curr, passed) ←
        find_node (S (size (cells (nodes g)))) (nodes g) inst_to_remove None curr (nodesTraversed g);
      n ← heap_deref (nodes g) curr;
      '(dg, h) ← unlink g idx prev (link n);
      h ← heap_delete h curr;
      Ok (mkGraph dg h (numEntries g) (u32 (memAllocCounter g - 1)) passed (u64 (nodesRemoved g + 1)))
  end.

Definition pop (g : t) (idx : Z) : res (ptr * t) :=
  e ← vget (dependGraph g) idx;
  match link e with
  | None => Ok (None, g)
  | node =>
      n ← heap_deref (nodes g) node;
      dg ← vset (dependGraph g) idx (mkEntry (inst e) (link n));
      h ← heap_delete (nodes g) node;
      Ok (inst n, with_heads g dg h (u32 (memAllocCounter g - 1)))
  end.

(** The loops of [reset]. *)
Fixpoint free_list (fuel : nat) (h : heap DepEntry) (c : Z) (curr : ptr) : res (heap DepEntry * Z) :=
  match fuel, curr with
  | _, None => Ok (h, c)
  | O, _ => Err Diverges
  | S fuel, _ =>
      n ← heap_deref h curr;
      h ← heap_delete h curr;
      free_list fuel h (u32 (c - 1)) (link n)
  end.

Fixpoint reset_upto (g : t) (n : nat) (i : Z) : res t :=
  match n with
  | O => Ok g
  | S n =>
      e ← vget (dependGraph g) i;
      '(h, c) ← free_list (S (size (cells (nodes g)))) (nodes g) (memAllocCounter g) (link e);
      dg ← vset (dependGraph g) i DepEntry_new;
      reset_upto (with_heads g dg h c) n (i + 1)
  end.

Definition reset (g : t) : res t := reset_upto g (Z.to_nat (numEntries g)) 0.

(** ** List segments *)

(** From [p] to [q] run the nodes of [l], each with its instruction. *)
Fixpoint seg (h : heap DepEntry) (p : ptr) (l : list (positive * positive)) (q : ptr) : Prop :=
  match l with
  | [] => p = q
  | (a, x) :: l => p = Some a ∧ ∃ n, cells h !! a = Some (mkEntry (Some x) n) ∧ seg h n l q
  end.

Lemma seg_app h p l1 l2 q : seg h p (l1 ++ l2) q ↔ ∃ r, seg h p l1 r ∧ seg h r l2 q.
Proof.
  revert p. induction l1 as [|[a x] l1 IH]; intros p; simpl; [naive_solver|]. setoid_rewrite IH. naive_solver.
Qed.

Lemma seg_frame h h' p l q :
  (∀ a, a ∈ l.*1 → cells h' !! a = cells h !! a) → seg h p l q → seg h' p l q.
Proof.
  revert p. induction l as [|[a x] l IH]; intros p Hf; simpl; [done|]. intros (-> & n & Hn & Hs). split; [done|].
  exists n. rewrite Hf by (simpl; set_solver). split; [done|]. apply IH; [|done]. intros b Hb. apply Hf. simpl. set_solver.
Qed.

(** ** Representation *)
Record rep (g : t) (ls : list (list (positive * positive))) : Prop := {
  rep_len : length (dependGraph g) = length ls ∧ numEntries g = vlen ls;
  rep_seg : ∀ i e l, dependGraph g !! i = Some e → ls !! i = Some l → seg (nodes g) (link e) l None;
  rep_heap : heap_tracks (nodes g) (Some <$> (concat ls).*1);
  rep_count : memAllocCounter g = u32 (vlen (concat ls))
}.

Lemma concat_perm {A} (ls : list (list A)) i l l' :
  ls !! i = Some l → concat (<[i := l']> ls) ++ l ≡ₚ concat ls ++ l'.
Proof.
  revert i. induction ls as [|k ls IH]; intros [|i] Hi; simplify_eq/=.
  - rewrite <-!app_assoc. rewrite (Permutation_app_comm l'), (Permutation_app_comm l).
    rewrite <-!app_assoc. apply Permutation_app_head, Permutation_app_comm.
  - rewrite <-!app_assoc. apply Permutation_app_head. by apply IH.
Qed.

Lemma tracks_nodup {H} (h : heap H) ps : heap_tracks h (Some <$> ps) → NoDup ps ∧ dom (cells h) = list_to_set ps.
Proof.
  intros (ps' & E & Hn & Hd & _). apply (inj (fmap Some)) in E as ->. done.
Qed.

Lemma tracks_size {H} (h : heap H) ps : heap_tracks h (Some <$> ps) → size (cells h) = length ps.
Proof.
  intros [Hn Hd]%tracks_nodup. rewrite <-size_dom, Hd. by apply size_list_to_set.
Qed.

(** Nodes of different lists are different. *)
Lemma rep_disjoint g ls i j l k a :
  rep g ls → ls !! i = Some l → ls !! j = Some k → i ≠ j → a ∈ l.*1 → a ∉ k.*1.
Proof.
  intros [_ _ Hh _] Hi Hj Hne Ha Hk. apply tracks_nodup in Hh as [Hn _].
  pose proof (concat_perm ls i l [] Hi) as Hp. rewrite app_nil_r in Hp. rewrite <-Hp, fmap_app in Hn.
  apply NoDup_app in Hn as (_ & Hd & _). apply (Hd a); [|done].
  apply list_elem_of_fmap in Hk as (y & -> & Hy). apply list_elem_of_fmap. exists y. split; [done|].
  apply list_elem_of_In, in_concat. exists k. split; [|by apply list_elem_of_In].
  apply list_elem_of_In, (list_elem_of_lookup_2 _ j). by rewrite list_lookup_insert_ne.
Qed.

Lemma rep_list_nodup g ls i l : rep g ls → ls !! i = Some l → NoDup l.*1 ∧ (length l ≤ size (cells (nodes g)))%nat.
Proof.
  intros [_ _ Hh _] Hi. pose proof (tracks_size _ _ Hh) as ->. apply tracks_nodup in Hh as [Hn _].
  pose proof (concat_perm ls i l [] Hi) as Hp. rewrite app_nil_r in Hp. rewrite length_fmap, <-Hp, length_app.
  rewrite <-Hp, fmap_app in Hn. apply NoDup_app in Hn as (_ & _ & ?). split; [done|lia].
Qed.

(** One list changed, and no node of another. *)
Lemma rep_update g g' ls i e' l l' :
  rep g ls → ls !! i = Some l →
  dependGraph g' = <[i := e']> (dependGraph g) → numEntries g' = numEntries g →
  seg (nodes g') (link e') l' None →
  (∀ a, a ∉ l.*1 → is_Some (cells (nodes g) !! a) → cells (nodes g') !! a = cells (nodes g) !! a) →
  heap_tracks (nodes g') (Some <$> (concat (<[i := l']> ls)).*1) →
  memAllocCounter g' = u32 (vlen (concat (<[i := l']> ls))) →
  rep g' (<[i := l']> ls).
Proof.
  intros Hr Hi Hg Hn Hs Hf Hh Hc. pose proof Hr as [[Hlen Hnum] Hseg Hheap _]. split; [|clear Hh Hc|done|done].
  - rewrite Hg, Hn, length_insert. unfold vlen in *. by rewrite length_insert.
  - intros j e k He Hk. rewrite Hg in He. destruct (decide (j = i)) as [->|Hne].
    + apply lookup_lt_Some in Hi. 
      rewrite list_lookup_insert_eq in Hk by lia. rewrite list_lookup_insert_eq in He by lia. by simplify_eq.
    + rewrite list_lookup_insert_ne in Hk by done. rewrite list_lookup_insert_ne in He by done. eapply seg_frame; [|by eapply Hseg].
      intros a Ha. apply Hf; [by eapply (rep_disjoint g ls j i)|].
      apply tracks_nodup in Hheap as [_ Hd]. apply elem_of_dom. rewrite Hd. apply elem_of_list_to_set.
      apply list_elem_of_fmap in Ha as (y & -> & Hy). apply list_elem_of_fmap. exists y. split; [done|].
      apply list_elem_of_In, in_concat. exists k. split; [|by apply list_elem_of_In].
      by apply list_elem_of_In, (list_elem_of_lookup_2 _ j).
Qed.

Lemma concat_cons {A} (ls : list (list A)) i l1 y l2 :
  ls !! i = Some (l1 ++ y :: l2) → concat ls ≡ₚ y :: concat (<[i := l1 ++ l2]> ls).
Proof.
  intros Hi. pose proof (concat_perm ls i _ (l1 ++ l2) Hi) as Hp. symmetry in Hp.
  apply (Permutation_app_inv_r (l1 ++ l2)). rewrite Hp. simpl. rewrite <-!Permutation_middle. done.
Qed.

Lemma concat_push {A} (ls : list (list A)) i y l :
  ls !! i = Some l → concat (<[i := y :: l]> ls) ≡ₚ y :: concat ls.
Proof.
  intros Hi. rewrite (concat_cons (<[i := y :: l]> ls) i [] y l).
  - by rewrite list_insert_insert_eq, app_nil_l, list_insert_id.
  - apply list_lookup_insert_eq. by eapply lookup_lt_Some.
Qed.

Lemma u32_add a b : u32 (u32 a + b) = u32 (a + b).
Proof. unfold u32. by rewrite Zplus_mod_idemp_l. Qed.
Lemma u32_sub a b : u32 (u32 a - b) = u32 (a - b).
Proof. unfold u32. by rewrite Zminus_mod_idemp_l. Qed.

Lemma vlen_perm {A} (l k : list A) : l ≡ₚ k → vlen l = vlen k.
Proof. intros Hp. unfold vlen. by rewrite Hp. Qed.

Lemma rep_lookup g ls idx e :
  rep g ls → vget (dependGraph g) idx = Ok e →
  ∃ l, 0 ≤ idx < vlen (dependGraph g) ∧ dependGraph g !! Z.to_nat idx = Some e ∧ ls !! Z.to_nat idx = Some l ∧
    seg (nodes g) (link e) l None.
Proof.
  intros [[Hlen _] Hs _ _] [Hi He]%vget_Ok. destruct (lookup_lt_is_Some_2 ls (Z.to_nat idx)) as [l Hl].
  { apply lookup_lt_Some in He. lia. }
  exists l. split_and!; [done|apply lookup_lt_Some in He; unfold vlen; lia|done|done|by eapply Hs].
Qed.

Lemma dep_insert_rep g ls idx x e :
  rep g ls → vget (dependGraph g) idx = Ok e →
  ∃ g' l p, insert g idx x = Ok g' ∧ ls !! Z.to_nat idx = Some l ∧ rep g' (<[Z.to_nat idx := (p, x) :: l]> ls) ∧
    ∃ k, dependGraph g' = <[Z.to_nat idx := mkEntry (inst e) k]> (dependGraph g).
Proof.
  intros Hr Hg. destruct (rep_lookup g ls idx e Hr Hg) as (l & Hi & He & Hl & Hs).
  unfold insert. rewrite Hg. cbn [mbind res_bind heap_new]. rewrite vset_in by done. cbn [mbind res_bind].
  eexists _, l, (next (nodes g)). split; [done|]. split; [done|]. split; [|eauto].
  pose proof Hr as [_ _ Hh Hc]. pose proof (heap_tracks_fresh _ _ Hh) as Hfresh.
  eapply (rep_update g _ ls _ _ l); [done|done|done|done| | | |]; simpl.
  - split; [done|]. exists (link e). rewrite lookup_insert_eq. split; [done|]. eapply seg_frame; [|done].
    intros a Ha. simpl. rewrite lookup_insert_ne; [done|]. intros <-.
    apply tracks_nodup in Hh as [_ Hd]. apply not_elem_of_dom in Hfresh. apply Hfresh. rewrite Hd.
    apply elem_of_list_to_set. pose proof (concat_perm ls _ l [] Hl) as Hp. rewrite app_nil_r in Hp. rewrite <-Hp.
    rewrite fmap_app. set_solver.
  - intros a _ [y Hy]. rewrite lookup_insert_ne; [done|]. intros <-. congruence.
  - rewrite (concat_push ls _ _ l Hl). exact (heap_tracks_new (nodes g) _ (mkEntry (Some x) (link e)) Hh).
  - rewrite Hc, u32_add. f_equal. rewrite (vlen_perm _ _ (concat_push ls _ _ l Hl)). unfold vlen. simpl. lia.
Qed.

(** Changing the producer only. *)
Lemma producer_rep g ls idx e x :
  rep g ls → vget (dependGraph g) idx = Ok e →
  rep (with_heads g (<[Z.to_nat idx := mkEntry x (link e)]> (dependGraph g)) (nodes g) (memAllocCounter g)) ls.
Proof.
  intros Hr Hg. destruct (rep_lookup g ls idx e Hr Hg) as (l & Hi & He & Hl & Hs). pose proof Hr as [_ _ Hh Hc].
  rewrite <-(list_insert_id ls (Z.to_nat idx) l Hl). eapply (rep_update g _ ls _ _ l); try done;
    by rewrite (list_insert_id ls _ l Hl).
Qed.

(** The heap and the counter without one node. *)
Lemma delete_tracks g ls i l1 a x l2 (h : heap DepEntry) :
  rep g ls → ls !! i = Some (l1 ++ (a, x) :: l2) → dom (cells h) = dom (cells (nodes g)) → next h = next (nodes g) →
  heap_tracks (Heap (delete a (cells h)) (next h)) (Some <$> (concat (<[i := l1 ++ l2]> ls)).*1) ∧
  u32 (memAllocCounter g - 1) = u32 (vlen (concat (<[i := l1 ++ l2]> ls))).
Proof.
  intros [_ _ Hh Hc] Hl Hd Hn. pose proof (concat_cons ls i l1 (a, x) l2 Hl) as Hp. split.
  - apply heap_tracks_delete. change (heap_tracks h (Some <$> ((a, x) :: concat (<[i := l1 ++ l2]> ls)).*1)).
    rewrite <-Hp. destruct Hh as (ps & E & H1 & H2 & H3). exists ps. rewrite Hd, Hn. done.
  - rewrite Hc, u32_sub. f_equal. rewrite (vlen_perm _ _ Hp). unfold vlen. simpl. lia.
Qed.

Lemma dep_pop_rep g ls idx e a x l :
  rep g ls → vget (dependGraph g) idx = Ok e → ls !! Z.to_nat idx = Some ((a, x) :: l) →
  ∃ g', pop g idx = Ok (Some x, g') ∧ rep g' (<[Z.to_nat idx := l]> ls) ∧
    ∃ k, dependGraph g' = <[Z.to_nat idx := mkEntry (inst e) k]> (dependGraph g).
Proof.
  intros Hr Hg Hl. destruct (rep_lookup g ls idx e Hr Hg) as (l' & Hi & He & Hl' & Hs). simplify_eq.
  destruct Hs as (Hlink & n & Hn & Hs). unfold pop. rewrite Hg. cbn [mbind res_bind]. rewrite Hlink.
  cbn [heap_deref]. rewrite Hn. cbn [mbind res_bind link inst]. rewrite vset_in by done. cbn [mbind res_bind].
  unfold heap_delete. cbn [heap_deref]. rewrite Hn. cbn [mbind res_bind]. eexists. split; [done|]. split; [|eauto].
  destruct (rep_list_nodup g ls _ _ Hr Hl) as [Hnd _]. simpl in Hnd. apply NoDup_cons in Hnd as [Hna _].
  destruct (delete_tracks g ls _ [] a x l (nodes g) Hr Hl eq_refl eq_refl) as [Hh Hc].
  eapply (rep_update g _ ls _ _ ((a, x) :: l)); [done|done|done|done| | |done|done]; simpl.
  - eapply seg_frame; [|done]. intros b Hb. simpl. rewrite lookup_delete_ne; [done|]. intros <-. done.
  - intros b Hb _. rewrite lookup_delete_ne; [done|]. intros <-. set_solver.
Qed.

(** ** Removal *)
Definition last_node (l : list (positive * positive)) (prev : ptr) : ptr :=
  match last l with Some b => Some b.1 | None => prev end.

Lemma find_node_spec fuel h x l : ∀ prev curr passed,
  seg h curr l None → l ≠ [] → (length l ≤ fuel)%nat →
  if decide (x ∈ l.*2) then
    ∃ l1 a l2 k, l = l1 ++ (a, x) :: l2 ∧ x ∉ l1.*2 ∧
      find_node fuel h x prev curr passed = Ok (last_node l1 prev, Some a, k)
  else find_node fuel h x prev curr passed = Err AssertFail.
Proof.
  induction fuel as [|fuel IH] in l |- *; intros prev curr passed Hs Hne Hlen; destruct l as [|[a y] l]; try done;
    simpl in Hlen; [lia|]. destruct Hs as (-> & n & Hn & Hs). cbn [find_node heap_deref]. rewrite Hn. cbn [mbind res_bind inst link].
  destruct (decide (y = x)) as [->|Hyx].
  { rewrite (decide_True (P := x ∈ _)) by (simpl; by left). exists [], a, l, passed.
    split_and!; [done|apply not_elem_of_nil|]. by rewrite decide_True. }
  rewrite (decide_False (P := Some y = Some x)) by congruence. destruct l as [|[b z] l].
  - simpl in Hs. subst n. rewrite decide_False; [done|]. simpl. set_solver.
  - pose proof Hs as (-> & _). rewrite bool_decide_true by done. cbn [mbind res_bind assert_].
    specialize (IH ((b, z) :: l) (Some a) (Some b) (u64 (passed + 1)) Hs ltac:(done) ltac:(lia)).
    destruct (decide (x ∈ ((b, z) :: l).*2)) as [Hin|Hin].
    + rewrite decide_True by (simpl in *; by right). destruct IH as (l1 & c & l2 & k & El & Hnin & Hf).
      exists ((a, y) :: l1), c, l2, k. split; [simpl; by f_equal|]. split; [simpl; set_solver|].
      rewrite Hf. unfold last_node. by destruct l1 as [|? l1 _] using rev_ind; [|rewrite app_comm_cons, !last_snoc].
    + rewrite decide_False; [done|]. simpl in *. set_solver.
Qed.

(** Taking node [a] out of its list, before it is deleted. *)
Lemma unlink_spec g ls idx e l1 a x l2 :
  rep g ls → vget (dependGraph g) idx = Ok e → ls !! Z.to_nat idx = Some (l1 ++ (a, x) :: l2) →
  ∃ n dg h k, cells (nodes g) !! a = Some n ∧
    unlink g idx (last_node l1 None) (link n) = Ok (dg, h) ∧
    dg = <[Z.to_nat idx := mkEntry (inst e) k]> (dependGraph g) ∧ seg h k (l1 ++ l2) None ∧
    dom (cells h) = dom (cells (nodes g)) ∧ next h = next (nodes g) ∧ cells h !! a = Some n ∧
    ∀ c, c ∉ (l1 ++ (a, x) :: l2).*1 → cells h !! c = cells (nodes g) !! c.
Proof.
  intros Hr Hg Hl. destruct (rep_lookup g ls idx e Hr Hg) as (l' & Hi & He & Hl' & Hs). simplify_eq.
  destruct (rep_list_nodup g ls _ _ Hr Hl) as [Hnd _].
  apply seg_app in Hs as (r & Hs1 & -> & n & Hn & Hs2). exists (mkEntry (Some x) n).
  destruct l1 as [|[b y] l1 _] using rev_ind.
  - simpl in Hs1. simpl. rewrite Hg. cbn [mbind res_bind]. rewrite vset_in by done. cbn [mbind res_bind].
    eexists _, (nodes g), n. split; [done|]. split; [done|]. by split_and!.
  - unfold last_node. rewrite last_snoc. apply seg_app in Hs1 as (r & Hs1 & -> & m & Hm & ->). cbn [unlink heap_deref link fst].
    unfold heap_store. cbn [heap_deref]. rewrite Hm. cbn [mbind res_bind inst].
    eexists _, _, (link e). split; [done|]. split; [done|].
    split; [by destruct e; rewrite list_insert_id|].
    rewrite !fmap_app, !fmap_cons, fmap_nil in Hnd. simpl in Hnd.
    assert (Hba : b ≠ a) by (intros ->; apply NoDup_app in Hnd as (_ & Hd & _); apply (Hd a); set_solver).
    assert (Hb1 : b ∉ l1.*1).
    { intros Hb. apply NoDup_app in Hnd as (Hnd & _ & _). apply NoDup_app in Hnd as (_ & Hd & _). apply (Hd b); set_solver. }
    assert (Hb2 : b ∉ l2.*1) by (intros Hb; apply NoDup_app in Hnd as (_ & Hd & _); apply (Hd b); set_solver).
    split_and!; simpl.
    + rewrite <-app_assoc. apply seg_app. exists (Some b). split.
      * eapply seg_frame; [|done]. intros c Hc. simpl. rewrite lookup_insert_ne; [done|]. by intros <-.
      * split; [done|]. exists n. simpl. rewrite lookup_insert_eq. split; [done|]. eapply seg_frame; [|done].
        intros c Hc. simpl. rewrite lookup_insert_ne; [done|]. by intros <-.
    + rewrite dom_insert_L. assert (b ∈ dom (cells (nodes g))) by (by apply elem_of_dom_2 in Hm). set_solver.
    + done.
    + by rewrite lookup_insert_ne.
    + intros c Hc. rewrite lookup_insert_ne; [done|]. intros <-. apply Hc. rewrite !fmap_app. set_solver.
Qed.

Lemma dep_remove_rep g ls idx e l x :
  rep g ls → vget (dependGraph g) idx = Ok e → ls !! Z.to_nat idx = Some l → x ∈ l.*2 →
  ∃ g' l1 a l2, l = l1 ++ (a, x) :: l2 ∧ x ∉ l1.*2 ∧ remove g idx x = Ok g' ∧
    rep g' (<[Z.to_nat idx := l1 ++ l2]> ls) ∧
    ∃ k, dependGraph g' = <[Z.to_nat idx := mkEntry (inst e) k]> (dependGraph g).
Proof.
  intros Hr Hg Hl Hx. destruct (rep_lookup g ls idx e Hr Hg) as (l' & Hi & He & Hl' & Hs). simplify_eq.
  assert (Hne : l ≠ []) by (intros ->; by apply elem_of_nil in Hx).
  destruct (rep_list_nodup g ls _ _ Hr Hl) as [Hnd Hsz].
  pose proof (find_node_spec (S (size (cells (nodes g)))) (nodes g) x l None (link e) (nodesTraversed g) Hs Hne ltac:(lia)) as Hf.
  rewrite decide_True in Hf by done. destruct Hf as (l1 & a & l2 & k & -> & Hnin & Hf).
  destruct (unlink_spec g ls idx e l1 a x l2 Hr Hg Hl) as (n & dg & h & k' & Hn & Hu & -> & Hseg & Hdom & Hnext & Hha & Hframe).
  assert (Hlink : link e ≠ None) by (destruct l1 as [|[b y] l1]; simpl in Hs; naive_solver).
  eexists _, l1, a, l2. split; [done|]. split; [done|]. split.
  { unfold remove. rewrite Hg. cbn [mbind res_bind]. destruct (link e) eqn:El; [|by exfalso]. rewrite Hf. cbn [mbind res_bind heap_deref].
    rewrite Hn. cbn [mbind res_bind]. rewrite Hu. cbn [mbind res_bind]. unfold heap_delete. cbn [heap_deref]. rewrite Hha. cbn [mbind res_bind]. reflexivity. }
  split; [|eauto]. destruct (delete_tracks g ls _ l1 a x l2 h Hr Hl Hdom Hnext) as [Hh Hc].
  rewrite fmap_app in Hnd. simpl in Hnd.
  assert (Ha : a ∉ (l1 ++ l2).*1).
  { rewrite fmap_app. intros [Hin|Hin]%elem_of_app.
    - apply NoDup_app in Hnd as (_ & Hd & _). apply (Hd a); set_solver.
    - apply NoDup_app in Hnd as (_ & _ & Hnd). apply NoDup_cons in Hnd as [Hna _]. done. }
  eapply (rep_update g _ ls _ _ (l1 ++ (a, x) :: l2)); [done|done|done|done| | |done|done]; simpl.
  - eapply seg_frame; [|done]. intros c Hc'. simpl. rewrite lookup_delete_ne; [done|]. by intros <-.
  - intros c Hc' _. rewrite lookup_delete_ne; [by apply Hframe|]. intros <-. apply Hc'. rewrite fmap_app. set_solver.
Qed.

(** ** Reset *)
Lemma free_list_spec fuel l : ∀ h c p rest,
  seg h p l None → NoDup l.*1 → (length l ≤ fuel)%nat → heap_tracks h (Some <$> (l.*1 ++ rest)) →
  ∃ h', free_list fuel h (u32 c) p = Ok (h', u32 (c - vlen l)) ∧ heap_tracks h' (Some <$> rest) ∧
    ∀ a, a ∉ l.*1 → cells h' !! a = cells h !! a.
Proof.
  induction fuel as [|fuel IH] in l |- *; intros h c p rest Hs Hnd Hlen Hh; destruct l as [|[a x] l]; simpl in Hlen; try lia.
  1, 2: simpl in Hs; subst p; exists h; unfold vlen; simpl; rewrite Z.sub_0_r; done.
  destruct Hs as (-> & n & Hn & Hs). cbn [free_list heap_deref]. rewrite Hn. cbn [mbind res_bind link].
  unfold heap_delete. cbn [heap_deref]. rewrite Hn. cbn [mbind res_bind]. simpl in Hnd, Hh. apply NoDup_cons in Hnd as [Hna Hnd].
  rewrite u32_sub. destruct (IH l (Heap (delete a (cells h)) (next h)) (c - 1) n rest) as (h' & -> & Hh' & Hf).
  - eapply seg_frame; [|done]. intros b Hb. simpl. rewrite lookup_delete_ne; [done|]. by intros <-.
  - done.
  - lia.
  - by apply heap_tracks_delete.
  - exists h'. split_and!; [|done|].
    + do 3 f_equal. unfold vlen. simpl. lia.
    + intros b Hb. simpl in Hb. rewrite Hf by set_solver. simpl. rewrite lookup_delete_ne; [done|]. intros <-. set_solver.
Qed.

Lemma reset_one g ls i e l :
  rep g ls → vget (dependGraph g) (Z.of_nat i) = Ok e → ls !! i = Some l →
  ∃ h c, free_list (S (size (cells (nodes g)))) (nodes g) (memAllocCounter g) (link e) = Ok (h, c) ∧
    rep (with_heads g (<[i := DepEntry_new]> (dependGraph g)) h c) (<[i := []]> ls).
Proof.
  intros Hr Hg Hl. destruct (rep_lookup g ls _ e Hr Hg) as (l0 & Hi & He & Hl0 & Hs). rewrite Nat2Z.id in *.
  rewrite Hl in Hl0. injection Hl0 as <-.
  destruct (rep_list_nodup g ls i l Hr Hl) as [Hnd Hsz]. pose proof Hr as [_ _ Hh Hc].
  pose proof (concat_perm ls i l [] Hl) as Hp. rewrite app_nil_r in Hp.
  destruct (free_list_spec (S (size (cells (nodes g)))) l (nodes g) (vlen (concat ls)) (link e) ((concat (<[i := []]> ls)).*1))
    as (h & Hf & Hh' & Hframe); [done|done|lia| |].
  { rewrite Permutation_app_comm, <-fmap_app. by rewrite Hp. }
  rewrite Hc, Hf. eexists _, _. split; [done|].
  eapply (rep_update g _ ls i DepEntry_new l []); try done.
  - intros a Ha _. simpl. by apply Hframe.
  - simpl. f_equal. rewrite <-(vlen_perm _ _ Hp). unfold vlen. rewrite length_app. lia.
Qed.

Lemma reset_upto_spec n : ∀ g ls i,
  rep g ls → (i + n = length ls)%nat →
  (∀ j l e, (j < i)%nat → ls !! j = Some l → dependGraph g !! j = Some e → l = [] ∧ e = DepEntry_new) →
  ∃ g', reset_upto g n (Z.of_nat i) = Ok g' ∧ rep g' (replicate (length ls) []) ∧
    dependGraph g' = replicate (length ls) DepEntry_new.
Proof.
  induction n as [|n IH]; intros g ls i Hr Hn Hpre; cbn [reset_upto].
  - exists g. assert (ls = replicate (length ls) []) as E.
    { apply list_eq. intros j. destruct (decide (j < length ls)%nat) as [Hj|].
      - rewrite lookup_replicate_2 by done. destruct (lookup_lt_is_Some_2 ls j Hj) as [l Hl].
        pose proof (rep_len _ _ Hr) as [Hlen _]. destruct (lookup_lt_is_Some_2 (dependGraph g) j) as [e He]; [lia|].
        destruct (Hpre j l e) as [-> _]; [lia|done|done|done].
      - rewrite !lookup_ge_None_2; [done|rewrite length_replicate; lia|lia]. }
    split_and!; [done|by rewrite <-E|]. pose proof (rep_len _ _ Hr) as [Hlen _]. apply list_eq. intros j.
    destruct (decide (j < length ls)%nat) as [Hj|].
    + rewrite lookup_replicate_2 by done. destruct (lookup_lt_is_Some_2 ls j Hj) as [l Hl].
      destruct (lookup_lt_is_Some_2 (dependGraph g) j) as [e He]; [lia|].
      destruct (Hpre j l e) as [_ ->]; [lia|done|done|done].
    + rewrite !lookup_ge_None_2; [done|rewrite length_replicate; lia|lia].
  - pose proof (rep_len _ _ Hr) as [Hlen _]. destruct (lookup_lt_is_Some_2 ls i) as [l Hl]; [lia|].
    destruct (lookup_lt_is_Some_2 (dependGraph g) i) as [e He]; [lia|].
    assert (Hg : vget (dependGraph g) (Z.of_nat i) = Ok e) by (apply vget_in; [lia|by rewrite Nat2Z.id]).
    rewrite Hg. cbn [mbind res_bind]. destruct (reset_one g ls i e l Hr Hg Hl) as (h & c & -> & Hr').
    cbn [mbind res_bind]. rewrite vset_in by (unfold vlen; lia). cbn [mbind res_bind]. rewrite Nat2Z.id.
    replace (Z.of_nat i + 1) with (Z.of_nat (S i)) by lia.
    destruct (IH _ _ (S i) Hr') as (g' & Hg' & Hrg' & Hdg').
    + rewrite length_insert. lia.
    + intros j l0 e0 Hj Hlj Hej. simpl in Hej. destruct (decide (j = i)) as [->|Hne].
      * rewrite list_lookup_insert_eq in Hlj by lia. rewrite list_lookup_insert_eq in Hej by lia. by simplify_eq.
      * rewrite list_lookup_insert_ne in Hlj by done. rewrite list_lookup_insert_ne in Hej by done. apply (Hpre j); [lia|done|done].
    + rewrite length_insert in *. by exists g'.
Qed.

(** ** The abstract graph: a producer and the waiting instructions, newest first *)
Notation agraph := (list (ptr * list positive)).

Fixpoint remove_first (x : positive) (l : list positive) : list positive :=
  match l with [] => [] | y :: l => if decide (y = x) then l else y :: remove_first x l end.

Lemma remove_first_app x l1 l2 : x ∉ l1 → remove_first x (l1 ++ x :: l2) = l1 ++ l2.
Proof.
  induction l1 as [|y l1 IH]; intros Hx; simpl; [by rewrite decide_True|].
  rewrite decide_False by set_solver. rewrite IH by set_solver. done.
Qed.

Inductive op :=
| Insert (idx : Z) (x : positive) | SetInst (idx : Z) (x : positive) | ClearInst (idx : Z)
| Remove (idx : Z) (x : positive) | Pop (idx : Z) | Reset.

Definition step (g : t) (o : op) : res (ptr * t) :=
  match o with
  | Insert idx x => g ← insert g idx x; Ok (None, g)
  | SetInst idx x => g ← setInst g idx x; Ok (None, g)
  | ClearInst idx => g ← clearInst g idx; Ok (None, g)
  | Remove idx x => g ← remove g idx x; Ok (None, g)
  | Pop idx => pop g idx
  | Reset => g ← reset g; Ok (None, g)
  end.

Definition astep (a : agraph) (o : op) : res (ptr * agraph) :=
  match o with
  | Insert idx x => '(p, l) ← vget a idx; a ← vset a idx (p, x :: l); Ok (None, a)
  | SetInst idx x => '(_, l) ← vget a idx; a ← vset a idx (Some x, l); Ok (None, a)
  | ClearInst idx => '(_, l) ← vget a idx; a ← vset a idx (None, l); Ok (None, a)
  | Remove idx x =>
      '(p, l) ← vget a idx;
      if decide (l = []) then Ok (None, a)
      else
        _ ← assert_ (bool_decide (x ∈ l));
        a ← vset a idx (p, remove_first x l); Ok (None, a)
  | Pop idx =>
      '(p, l) ← vget a idx;
      match l with [] => Ok (None, a) | x :: l => a ← vset a idx (p, l); Ok (Some x, a) end
  | Reset => Ok (None, replicate (length a) (None, []))
  end.

Definition view (e : DepEntry) (l : list (positive * positive)) : ptr * list positive := (inst e, l.*2).

(** The graph represents [a]: the lists are linked as [a] has them, the nodes on the
    heap are exactly theirs, and the counter counts them. *)
Definition sim (g : t) (a : agraph) : Prop := ∃ ls, rep g ls ∧ a = zip_with view (dependGraph g) ls.

Lemma sim_vget g ls idx :
  rep g ls →
  vget (zip_with view (dependGraph g) ls) idx =
  (e ← vget (dependGraph g) idx; l ← vget ls idx; Ok (view e l)).
Proof.
  intros [[Hlen _] _ _ _]. unfold vget. destruct (0 <=? idx); [|done]. rewrite lookup_zip_with.
  destruct (dependGraph g !! Z.to_nat idx) eqn:E; [|done]. simpl. by destruct (ls !! Z.to_nat idx).
Qed.

Lemma rep_in_range g ls idx : rep g ls → 0 ≤ idx < vlen (dependGraph g) ↔ 0 ≤ idx < vlen ls.
Proof. intros [[Hlen _] _ _ _]. unfold vlen. by rewrite Hlen. Qed.

Lemma sim_intro g g' ls i e' l' :
  rep g' (<[i := l']> ls) → dependGraph g' = <[i := e']> (dependGraph g) →
  sim g' (<[i := view e' l']> (zip_with view (dependGraph g) ls)).
Proof. intros Hr Hd. exists (<[i := l']> ls). split; [done|]. by rewrite Hd, insert_zip_with. Qed.

(** What a step of the graph does to the abstract one. *)
Definition matches (g : t) (a : agraph) (o : op) : Prop :=
  match astep a o with
  | Ok (r, a') => ∃ g', step g o = Ok (r, g') ∧ sim g' a'
  | Err e => step g o = Err e
  end.

Lemma zip_vset g ls idx y :
  rep g ls → 0 ≤ idx < vlen (dependGraph g) →
  vset (zip_with view (dependGraph g) ls) idx y = Ok (<[Z.to_nat idx := y]> (zip_with view (dependGraph g) ls)).
Proof.
  intros [[Hlen _] _ _ _] Hi. apply vset_in. unfold vlen in *. rewrite length_zip_with. lia.
Qed.

(** A register out of range is an error of both; within range both have an entry. *)
Lemma entry_cases g ls idx :
  rep g ls →
  (∃ er, vget (dependGraph g) idx = Err er ∧ vget (zip_with view (dependGraph g) ls) idx = Err er) ∨
  ∃ e l, vget (dependGraph g) idx = Ok e ∧ ls !! Z.to_nat idx = Some l ∧ 0 ≤ idx < vlen (dependGraph g) ∧
    seg (nodes g) (link e) l None ∧ vget (zip_with view (dependGraph g) ls) idx = Ok (inst e, l.*2).
Proof.
  intros Hr. rewrite (sim_vget g ls idx Hr). destruct (vget (dependGraph g) idx) as [e|er] eqn:Hg; [right|left; by exists er].
  destruct (rep_lookup g ls idx e Hr Hg) as (l & Hi & He & Hl & Hs). exists e, l. split_and!; try done; try apply Hi.
  cbn [mbind res_bind]. by rewrite (vget_in _ _ _ (proj1 Hi) Hl).
Qed.

Lemma match_insert g ls idx x : rep g ls → matches g (zip_with view (dependGraph g) ls) (Insert idx x).
Proof.
  intros Hr. unfold matches. cbn [astep step].
  destruct (entry_cases g ls idx Hr) as [(er & H1 & ->)|(e & l & Hg & Hl & Hi & Hs & ->)]; cbn [mbind res_bind].
  { unfold insert. by rewrite H1. }
  rewrite (zip_vset g ls idx _ Hr Hi). cbn [mbind res_bind].
  destruct (dep_insert_rep g ls idx x e Hr Hg) as (g' & l' & p & -> & Hl' & Hr' & k & Hd). simplify_eq. cbn [mbind res_bind].
  exists g'. split; [done|]. exact (sim_intro g g' ls _ (mkEntry (inst e) k) _ Hr' Hd).
Qed.

Lemma match_producer g ls idx y o :
  rep g ls → (o = match y with Some x => SetInst idx x | None => ClearInst idx end) →
  matches g (zip_with view (dependGraph g) ls) o.
Proof.
  intros Hr ->. unfold matches.
  destruct (entry_cases g ls idx Hr) as [(er & H1 & H2)|(e & l & Hg & Hl & Hi & Hs & H2)].
  { by destruct y; cbn [astep step]; unfold setInst, clearInst; rewrite H1, H2. }
  pose proof (producer_rep g ls idx e y Hr Hg) as Hr'. rewrite <-(list_insert_id ls _ l Hl) in Hr'.
  eassert (Hsim := sim_intro g _ ls (Z.to_nat idx) (mkEntry y (link e)) l Hr' eq_refl).
  destruct y as [x|]; cbn [astep step]; unfold setInst, clearInst; rewrite Hg, H2; cbn [mbind res_bind];
    rewrite (zip_vset g ls idx _ Hr Hi), vset_in by done; cbn [mbind res_bind]; eexists; split; done.
Qed.

Lemma match_pop g ls idx : rep g ls → matches g (zip_with view (dependGraph g) ls) (Pop idx).
Proof.
  intros Hr. unfold matches. cbn [astep step].
  destruct (entry_cases g ls idx Hr) as [(er & H1 & ->)|(e & l & Hg & Hl & Hi & Hs & ->)]; cbn [mbind res_bind].
  { unfold pop. by rewrite H1. }
  destruct l as [|[a x] l].
  - simpl in Hs. unfold pop. rewrite Hg. cbn [mbind res_bind fmap list_fmap]. rewrite Hs. exists g. split; [done|]. by exists ls.
  - cbn [fmap list_fmap snd]. rewrite (zip_vset g ls idx _ Hr Hi). cbn [mbind res_bind].
    destruct (dep_pop_rep g ls idx e a x l Hr Hg Hl) as (g' & -> & Hr' & k & Hd). exists g'. split; [done|].
    exact (sim_intro g g' ls _ (mkEntry (inst e) k) _ Hr' Hd).
Qed.

Lemma match_remove g ls idx x : rep g ls → matches g (zip_with view (dependGraph g) ls) (Remove idx x).
Proof.
  intros Hr. unfold matches. cbn [astep step].
  destruct (entry_cases g ls idx Hr) as [(er & H1 & ->)|(e & l & Hg & Hl & Hi & Hs & ->)]; cbn [mbind res_bind].
  { unfold remove. by rewrite H1. }
  destruct (decide (l.*2 = [])) as [Hnil|Hnil].
  { apply fmap_nil_inv in Hnil as ->. simpl in Hs. unfold remove. rewrite Hg. cbn [mbind res_bind]. rewrite Hs.
    exists g. split; [done|]. by exists ls. }
  destruct (decide (x ∈ l.*2)) as [Hx|Hx].
  - rewrite bool_decide_true by done. cbn [mbind res_bind assert_]. rewrite (zip_vset g ls idx _ Hr Hi). cbn [mbind res_bind].
    destruct (dep_remove_rep g ls idx e l x Hr Hg Hl Hx) as (g' & l1 & a & l2 & -> & Hnin & -> & Hr' & k & Hd).
    cbn [mbind res_bind]. exists g'. split; [done|]. rewrite fmap_app. cbn [fmap list_fmap snd]. rewrite remove_first_app by done.
    rewrite <-fmap_app. exact (sim_intro g g' ls _ (mkEntry (inst e) k) _ Hr' Hd).
  - rewrite bool_decide_false by done. cbn [mbind res_bind assert_ guard_].
    destruct (rep_list_nodup g ls _ _ Hr Hl) as [_ Hsz]. assert (Hne : l ≠ []) by (by intros ->).
    pose proof (find_node_spec (S (size (cells (nodes g)))) (nodes g) x l None (link e) (nodesTraversed g) Hs Hne ltac:(lia)) as Hf.
    rewrite decide_False in Hf by done. unfold remove. rewrite Hg. cbn [mbind res_bind].
    destruct (link e) eqn:El; [by rewrite Hf|]. destruct l as [|[b y] l]; [done|]. by destruct Hs.
Qed.

Lemma match_reset g ls : rep g ls → matches g (zip_with view (dependGraph g) ls) Reset.
Proof.
  intros Hr. unfold matches. cbn [astep step]. pose proof Hr as [[Hlen Hnum] _ _ _].
  destruct (reset_upto_spec (Z.to_nat (numEntries g)) g ls 0 Hr) as (g' & Hg' & Hr' & Hd).
  { unfold vlen in Hnum. lia. }
  { intros. lia. }
  unfold reset. change (Z.of_nat 0) with 0 in Hg'. rewrite Hg'. cbn [mbind res_bind]. exists g'. split; [done|].
  exists (replicate (length ls) []). split; [done|]. rewrite Hd, length_zip_with, Hlen, Nat.min_id.
  generalize (length ls). induction n as [|n IH]; [done|]. simpl. by rewrite IH.
Qed.

Lemma step_matches g a o : sim g a → matches g a o.
Proof.
  intros (ls & Hr & ->). destruct o as [idx x|idx x|idx|idx x|idx|].
  - by apply match_insert.
  - by apply (match_producer g ls idx (Some x)).
  - by apply (match_producer g ls idx None).
  - by apply match_remove.
  - by apply match_pop.
  - by apply match_reset.
Qed.

(** ** Runs: the instructions that are returned, and the graph *)
Fixpoint run (g : t) (os : list op) : res (list ptr * t) :=
  match os with
  | [] => Ok ([], g)
  | o :: os => '(r, g) ← step g o; '(rs, g) ← run g os; Ok (r :: rs, g)
  end.

Fixpoint arun (a : agraph) (os : list op) : res (list ptr * agraph) :=
  match os with
  | [] => Ok ([], a)
  | o :: os => '(r, a) ← astep a o; '(rs, a) ← arun a os; Ok (r :: rs, a)
  end.

Lemma run_matches g a os :
  sim g a →
  match arun a os with
  | Ok (rs, a') => ∃ g', run g os = Ok (rs, g') ∧ sim g' a'
  | Err e => run g os = Err e
  end.
Proof.
  revert g a. induction os as [|o os IH]; intros g a Hs; cbn [run arun]; [by exists g|].
  pose proof (step_matches g a o Hs) as Hm. unfold matches in Hm. destruct (astep a o) as [[r a1]|e]; [|by rewrite Hm].
  destruct Hm as (g1 & -> & Hs1). cbn [mbind res_bind]. specialize (IH g1 a1 Hs1).
  destruct (arun a1 os) as [[rs a2]|e]; cbn [mbind res_bind]; [|by rewrite IH].
  destruct IH as (g2 & -> & Hs2). by exists g2.
Qed.

Lemma resize_sim n : 0 ≤ n → sim (resize default n) (replicate (Z.to_nat n) (None, [])).
Proof.
  intros Hn. exists (replicate (Z.to_nat n) []). assert (Hc : concat (replicate (Z.to_nat n) ([] : list (positive * positive))) = []).
  { generalize (Z.to_nat n). induction n0; [done|]. simpl. done. }
  split; [split|]; simpl.
  - unfold vlen. rewrite !length_replicate. lia.
  - intros i e l [-> _]%lookup_replicate [-> _]%lookup_replicate. done.
  - rewrite Hc. apply heap_tracks_empty.
  - by rewrite Hc.
  - generalize (Z.to_nat n). induction n0 as [|k IH]; [done|]. simpl. by rewrite IH.
Qed.

Lemma empty_upto_spec g ls n : ∀ i,
  rep g ls → (i + n = length ls)%nat →
  empty_upto g n (Z.of_nat i) = Ok (bool_decide (Forall (λ l, l = []) (drop i ls))).
Proof.
  induction n as [|n IH]; intros i Hr Hi; cbn [empty_upto].
  - rewrite drop_ge by lia. rewrite bool_decide_true; [done|constructor].
  - pose proof (rep_len _ _ Hr) as [Hlen _]. destruct (lookup_lt_is_Some_2 ls i) as [l Hl]; [lia|].
    destruct (lookup_lt_is_Some_2 (dependGraph g) i) as [e He]; [lia|]. unfold empty_of.
    rewrite (vget_in _ (Z.of_nat i) e) by (lia || by rewrite Nat2Z.id). cbn [mbind res_bind].
    pose proof (rep_seg _ _ Hr i e l He Hl) as Hs. rewrite (drop_S ls l i Hl).
    replace (Z.of_nat i + 1) with (Z.of_nat (S i)) by lia. destruct l as [|[a x] l].
    + simpl in Hs. rewrite Hs, bool_decide_true by done. rewrite IH by (done || lia). f_equal. apply bool_decide_ext.
      rewrite Forall_cons. naive_solver.
    + destruct Hs as [-> _]. rewrite bool_decide_false by done. rewrite (bool_decide_false (Forall _ _)); [done|].
      rewrite Forall_cons. by intros [? _].
Qed.

Lemma sim_counts g a :
  sim g a →
  memAllocCounter g = u32 (Z.of_nat (sum_list_with (λ e, length (snd e)) a)) ∧
  size (cells (nodes g)) = sum_list_with (λ e, length (snd e)) a ∧
  empty g = Ok (bool_decide (Forall (λ e, snd e = []) a)).
Proof.
  intros (ls & Hr & ->). pose proof Hr as [[Hlen Hnum] _ Hh Hc].
  assert (Hsum : length (concat ls) = sum_list_with (λ e, length (snd e)) (zip_with view (dependGraph g) ls)).
  { clear -Hlen. revert Hlen. generalize (dependGraph g). induction ls as [|l ls IH]; intros [|e dg] Hlen; simplify_eq/=; [done|].
    rewrite length_app, length_fmap. by rewrite (IH dg). }
  split_and!.
  - rewrite Hc. unfold vlen. by rewrite Hsum.
  - rewrite (tracks_size _ _ Hh), length_fmap. done.
  - unfold empty. change 0 with (Z.of_nat 0). rewrite (empty_upto_spec g ls) by (done || unfold vlen in Hnum; lia).
    f_equal. apply bool_decide_ext. clear -Hlen. revert Hlen. generalize (dependGraph g).
    induction ls as [|l ls IH]; intros [|e dg] Hlen; simplify_eq/=; [done|]. rewrite !Forall_cons. rewrite (IH dg Hlen).
    unfold view. simpl. split; intros [H1 H2]; split; try done; [by subst|by apply fmap_nil_inv in H1].
Qed.

(** The dependency graph refines, per register, a producer and a stack of waiting
    instructions.  Whatever operations are performed on a new graph, the results,
    assertion failures and range errors included, are those of the abstract graph: an
    insertion pushes, [pop] returns the newest waiting instruction, [remove] takes the
    newest occurrence out and fails its assertion exactly when others wait but not this
    one.  No node is leaked, freed twice or shared: the live nodes are those in the
    lists, which [memAllocCounter] counts, and [empty()] tells that there are none. *)
Theorem depgraph_refines_stacks n os :
  0 ≤ n →
  match arun (replicate (Z.to_nat n) (None, [])) os with
  | Ok (rs, a) =>
      ∃ g, run (resize default n) os = Ok (rs, g) ∧
        (∀ i, dependGraph g !! i = None ↔ a !! i = None) ∧ (∀ i e, dependGraph g !! i = Some e → inst e = from_option fst None (a !! i)) ∧
        memAllocCounter g = u32 (Z.of_nat (sum_list_with (λ e, length (snd e)) a)) ∧
        size (cells (nodes g)) = sum_list_with (λ e, length (snd e)) a ∧
        empty g = Ok (bool_decide (Forall (λ e, snd e = []) a))
  | Err e => run (resize default n) os = Err e
  end.
Proof.
  intros Hn. pose proof (run_matches _ _ os (resize_sim n Hn)) as Hm.
  destruct (arun _ os) as [[rs a]|e]; [|done]. destruct Hm as (g & Hg & Hs). exists g. split; [done|].
  destruct (sim_counts g a Hs) as (H1 & H2 & H3). destruct Hs as (ls & [[Hlen _] _ _ _] & ->). split_and!; try done.
  - intros i. rewrite !lookup_ge_None, length_zip_with. lia.
  - intros i e He. rewrite lookup_zip_with, He. simpl. destruct (lookup_lt_is_Some_2 ls i) as [l ->]; [|done].
    apply lookup_lt_Some in He. lia.
Qed.

Lemma depgraph_refines_stacks_witness :
  ∃ g, run (resize default 2) [Insert 1 7; Insert 1 8; Insert 0 7; Remove 1 7; Pop 1; Pop 1] = Ok ([None; None; None; None; Some 8; None]%positive, g) ∧
    size (cells (nodes g)) = 1%nat.
Proof.
  destruct (depgraph_refines_stacks 2 [Insert 1 7; Insert 1 8; Insert 0 7; Remove 1 7; Pop 1; Pop 1] ltac:(lia))
    as (g & H1 & _ & _ & _ & H2 & _).
  exists g. split; [exact H1|exact H2].
Defined.
End DependencyGraph.
