(* ===== verification/FuPool.v ===== *)
(** * Functional units

    [FUPool] of [cpu/o3/fu_pool.hh] and [fu_pool.cc]: which units are busy and, per
    class of operations, a circular queue of the units that perform it.  The [FuncUnit]
    objects, which only carry names for printing and copies of the capabilities, are
    left out; [Num_OpClasses], the size of a generated enumeration, is an argument. *)

From S2P Require Import Prelude.

Module FUPool.

(** The parameters ([cpu/func_unit.hh]). *)
Record OpDesc := mkOp { opClass : Z; opLat : Z; op_pipelined : bool }.
Record FUDesc := mkFU { opDescList : list OpDesc; number : Z }.

Record FUIdxQueue := mkQueue { idx : Z; size : Z; funcUnitsIdx : list Z }.
Definition FUIdxQueue_new : FUIdxQueue := mkQueue 0 0 [].

Definition addFU (q : FUIdxQueue) (fu_idx : Z) : FUIdxQueue :=
  mkQueue (idx q) (size q + 1) (funcUnitsIdx q ++ [fu_idx]).

Definition getFU (q : FUIdxQueue) : res (Z * FUIdxQueue) :=
  retval ← vget (funcUnitsIdx q) (idx q);
  let i := idx q + 1 in
  Ok (retval, mkQueue (if i =? size q then 0 else i) (size q) (funcUnitsIdx q)).

Record t := mkPool {
  maxOpLatencies : list Z; pipelined : list bool; capabilityList : list bool; unitBusy : list bool;
  unitsToBeFreed : list Z; fuPerCapList : list FUIdxQueue; numFU : Z
}.

Definition with_caps (p : t) lat pip cap fus n : t := mkPool lat pip cap (unitBusy p) (unitsToBeFreed p) fus n.
Definition with_units (p : t) busy fr fus : t :=
  mkPool (maxOpLatencies p) (pipelined p) (capabilityList p) busy fr fus (numFU p).

(** ** Construction *)
Fixpoint add_units (q : FUIdxQueue) (first : Z) (n : nat) : FUIdxQueue :=
  match n with O => q | S n => add_units (addFU q first) (first + 1) n end.

(** One operation of a description. *)
Definition add_op (p : t) (n : Z) (o : OpDesc) : res t :=
  cap ← vset (capabilityList p) (opClass o) true;
  q ← vget (fuPerCapList p) (opClass o);
  fus ← vset (fuPerCapList p) (opClass o) (add_units q (numFU p) (Z.to_nat n));
  l ← vget (maxOpLatencies p) (opClass o);
  lat ← vset (maxOpLatencies p) (opClass o) (if l <? opLat o then opLat o else l);
  b ← vget (pipelined p) (opClass o);
  pip ← vset (pipelined p) (opClass o) (if op_pipelined o then b else false);
  Ok (with_caps p lat pip cap fus (numFU p)).

Fixpoint add_ops (p : t) (n : Z) (os : list OpDesc) : res t :=
  match os with [] => Ok p | o :: os => p ← add_op p n o; add_ops p n os end.

Fixpoint add_descs (p : t) (ds : list FUDesc) : res t :=
  match ds with
  | [] => Ok p
  | d :: ds =>
      p ← (if negb (number d =? 0) then
             p ← add_ops p (number d) (opDescList d);
             Ok (with_caps p (maxOpLatencies p) (pipelined p) (capabilityList p) (fuPerCapList p) (numFU p + number d))
           else Ok p);
      add_descs p ds
  end.

Definition no_units (numOpClasses : nat) : t :=
  mkPool (replicate numOpClasses 0) (replicate numOpClasses true) (replicate numOpClasses false) [] []
    (replicate numOpClasses FUIdxQueue_new) 0.

Definition create (numOpClasses : nat) (FUList : list FUDesc) : res t :=
  p ← add_descs (no_units numOpClasses) FUList;
  Ok (with_units p (replicate (Z.to_nat (numFU p)) false) (unitsToBeFreed p) (fuPerCapList p)).

(** ** Operations *)
Definition NoCapableFU : Z := -2.
Definition NoFreeFU : Z := -1.

(** The search of [getUnit]: a free unit, or [None] when it is back at the first one. *)
Fixpoint search (fuel : nat) (busy : list bool) (start_idx fu_idx : Z) (q : FUIdxQueue) : res (option Z * FUIdxQueue) :=
  match fuel with
  | O => Err Diverges
  | S fuel =>
      b ← vget busy fu_idx;
      if (b : bool) then
        '(fu_idx, q) ← getFU q;
        if fu_idx =? start_idx then Ok (None, q) else search fuel busy start_idx fu_idx q
      else Ok (Some fu_idx, q)
  end.

Definition getUnit (p : t) (capability : Z) : res (Z * t) :=
  c ← vget (capabilityList p) capability;
  if negb c then Ok (NoCapableFU, p)
  else
    q ← vget (fuPerCapList p) capability;
    '(start_idx, q) ← getFU q;
    '(r, q) ← search (S (length (funcUnitsIdx q))) (unitBusy p) start_idx start_idx q;
    fus ← vset (fuPerCapList p) capability q;
    match r with
    | None => Ok (NoFreeFU, with_units p (unitBusy p) (unitsToBeFreed p) fus)
    | Some fu_idx =>
        _ ← assert_ (fu_idx <? numFU p);
        busy ← vset (unitBusy p) fu_idx true;
        Ok (fu_idx, with_units p busy (unitsToBeFreed p) fus)
    end.

Definition freeUnitNextCycle (p : t) (fu_idx : Z) : res t :=
  b ← vget (unitBusy p) fu_idx;
  _ ← assert_ b;
  Ok (with_units p (unitBusy p) (unitsToBeFreed p ++ [fu_idx]) (fuPerCapList p)).

(** Units are freed from the back of the list. *)
Fixpoint free_units (busy : list bool) (fr : list Z) : res (list bool) :=
  match fr with
  | [] => Ok busy
  | fu_idx :: fr => b ← vget busy fu_idx; _ ← assert_ b; busy ← vset busy fu_idx false; free_units busy fr
  end.

Definition processFreeUnits (p : t) : res t :=
  busy ← free_units (unitBusy p) (rev (unitsToBeFreed p));
  Ok (with_units p busy [] (fuPerCapList p)).

Definition getOpLatency (p : t) (capability : Z) : res Z := vget (maxOpLatencies p) capability.
Definition isPipelined (p : t) (capability : Z) : res bool := vget (pipelined p) capability.
Definition isDrained (p : t) : bool := forallb negb (take (Z.to_nat (numFU p)) (unitBusy p)).

(** ** The circular queue *)
Record queue_ok (q : FUIdxQueue) : Prop := {
  qo_size : size q = vlen (funcUnitsIdx q);
  qo_idx : 0 ≤ idx q < size q
}.

(** The units in the order in which they come next. *)
Definition rotation (q : FUIdxQueue) : list Z :=
  drop (Z.to_nat (idx q)) (funcUnitsIdx q) ++ take (Z.to_nat (idx q)) (funcUnitsIdx q).

Lemma rotation_perm q : rotation q ≡ₚ funcUnitsIdx q.
Proof. unfold rotation. by rewrite Permutation_app_comm, take_drop. Qed.

Lemma getFU_spec q :
  queue_ok q → ∃ x r q', rotation q = x :: r ∧ getFU q = Ok (x, q') ∧ queue_ok q' ∧ rotation q' = r ++ [x] ∧
    funcUnitsIdx q' = funcUnitsIdx q.
Proof.
  intros [Hs Hi]. destruct (vlookup_lt (funcUnitsIdx q) (idx q)) as [x Hx]; [lia|].
  exists x. unfold rotation, getFU. rewrite (drop_S _ x) by done. eexists _, _. split; [done|].
  rewrite (vget_in _ _ _ (proj1 Hi) Hx). cbn [mbind res_bind]. split; [done|]. unfold vlen in Hs.
  destruct (Z.eqb_spec (idx q + 1) (size q)) as [E|E]; (split; [split; simpl; unfold vlen; lia|]); simpl; (split; [|done]).
  - rewrite (drop_ge _ (S (Z.to_nat (idx q)))) by lia. change (Z.to_nat 0) with O. rewrite drop_0, take_0, app_nil_r. simpl.
    rewrite <-(take_S_r _ _ _ Hx). by rewrite take_ge by lia.
  - replace (Z.to_nat (idx q + 1)) with (S (Z.to_nat (idx q))) by lia. rewrite (take_S_r _ _ _ Hx). by rewrite app_assoc.
Qed.

(** ** The search *)
Definition is_free (busy : list bool) (u : Z) : bool := bool_decide (busy !! Z.to_nat u = Some false).
Definition units_ok (busy : list bool) (us : list Z) : Prop := Forall (λ u, 0 ≤ u < vlen busy) us.

Lemma search_spec fuel busy start q : ∀ fu r dn,
  queue_ok q → rotation q = r ++ start :: dn → start ∉ r → units_ok busy (fu :: r) → (length r < fuel)%nat →
  ∃ q', queue_ok q' ∧ funcUnitsIdx q' = funcUnitsIdx q ∧
    search fuel busy start fu q = Ok (List.find (is_free busy) (fu :: r), q').
Proof.
  revert q. induction fuel as [|fuel IH]; intros q fu r dn Hq Hrot Hnin Hok Hlen; [lia|].
  apply Forall_cons in Hok as [Hfu Hok]. destruct (vlookup_lt busy fu Hfu) as [b Hb].
  cbn [search List.find]. rewrite (vget_in _ _ _ (proj1 Hfu) Hb). cbn [mbind res_bind]. unfold is_free at 1. rewrite Hb.
  destruct b; [|rewrite bool_decide_true by done; by exists q].
  rewrite bool_decide_false by done. destruct (getFU_spec q Hq) as (x & r' & q' & Hr & -> & Hq' & Hrot' & Hfu').
  cbn [mbind res_bind]. rewrite Hr in Hrot. destruct r as [|y r]; simplify_eq/=.
  - rewrite Z.eqb_refl. by exists q'.
  - apply not_elem_of_cons in Hnin as [Hne Hnin]. rewrite (proj2 (Z.eqb_neq y start)) by done.
    destruct (IH q' y r (dn ++ [y])) as (q2 & Hq2 & Hf2 & Hs2); [done| |done|done|lia|].
    + rewrite Hrot'. by rewrite <-app_assoc.
    + exists q2. split_and!; [done|congruence|done].
Qed.

(** ** The units of a class *)
Definition classes (d : FUDesc) : list Z := opClass <$> opDescList d.

(** The units that a list of descriptions, numbered from [first], gives a class. *)
Fixpoint units (ds : list FUDesc) (first c : Z) : list Z :=
  match ds with
  | [] => []
  | d :: ds => (if decide (c ∈ classes d) then seqZ first (number d) else []) ++ units ds (first + number d) c
  end.

Fixpoint count (ds : list FUDesc) : Z := match ds with [] => 0 | d :: ds => number d + count ds end.

(** A description lists valid classes, each once. *)
Definition desc_ok (numOpClasses : nat) (d : FUDesc) : Prop :=
  0 ≤ number d ∧ NoDup (classes d) ∧ Forall (λ c, 0 ≤ c < Z.of_nat numOpClasses) (classes d).

Lemma count_app ds ds' : count (ds ++ ds') = count ds + count ds'.
Proof. induction ds as [|d ds IH]; simpl; [done|]. rewrite IH. lia. Qed.

Lemma units_app ds ds' b c : units (ds ++ ds') b c = units ds b c ++ units ds' (b + count ds) c.
Proof.
  revert b. induction ds as [|d ds IH]; intros b; simpl; [by rewrite Z.add_0_r|]. rewrite IH, app_assoc. do 2 f_equal. lia.
Qed.

Lemma count_nonneg n ds : Forall (desc_ok n) ds → 0 ≤ count ds.
Proof. induction 1 as [|d ds [? _] _ IH]; simpl; lia. Qed.

Lemma units_range n ds b c : Forall (desc_ok n) ds → Forall (λ u, b ≤ u < b + count ds) (units ds b c).
Proof.
  intros Hd. revert b. induction Hd as [|d ds [Hn _] Hds IH]; intros b; simpl; [constructor|].
  pose proof (count_nonneg n ds Hds). apply Forall_app. split.
  - destruct (decide _); [|constructor]. apply Forall_forall. intros u Hu%elem_of_seqZ. lia.
  - eapply Forall_impl; [apply IH|]. simpl. lia.
Qed.

Lemma units_nodup n ds b c : Forall (desc_ok n) ds → NoDup (units ds b c).
Proof.
  intros Hd. revert b. induction Hd as [|d ds [Hn _] Hds IH]; intros b; simpl; [constructor|].
  apply NoDup_app. split_and!; [destruct (decide _); [apply NoDup_seqZ|constructor]| |done].
  intros u Hu Hu'. pose proof (units_range n ds (b + number d) c Hds) as Hr. rewrite Forall_forall in Hr. specialize (Hr u Hu').
  destruct (decide _); [|by apply elem_of_nil in Hu]. apply elem_of_seqZ in Hu. lia.
Qed.

(** ** Construction *)
Lemma add_units_spec q first n :
  add_units q first n = mkQueue (idx q) (size q + Z.of_nat n) (funcUnitsIdx q ++ seqZ first (Z.of_nat n)).
Proof.
  revert q first. induction n as [|n IH]; intros q first; cbn [add_units].
  - destruct q. simpl. by rewrite Z.add_0_r, app_nil_r.
  - rewrite IH. unfold addFU. cbn [idx size funcUnitsIdx]. rewrite (seqZ_cons first) by lia. rewrite <-app_assoc. simpl.
    f_equal; [lia|]. do 3 f_equal; lia.
Qed.

(** Class by class the pool offers the units [f]. *)
Record caps (n : nat) (p : t) (f : Z → list Z) : Prop := {
  ca_len : length (maxOpLatencies p) = n ∧ length (pipelined p) = n ∧ length (capabilityList p) = n ∧
    length (fuPerCapList p) = n;
  ca_units : ∀ c, 0 ≤ c < Z.of_nat n → ∃ q, fuPerCapList p !! Z.to_nat c = Some q ∧ funcUnitsIdx q = f c ∧
    size q = vlen (f c) ∧ idx q = 0 ∧ capabilityList p !! Z.to_nat c = Some (bool_decide (f c ≠ []))
}.

Lemma caps_ext n p f f' : (∀ c, 0 ≤ c < Z.of_nat n → f c = f' c) → caps n p f → caps n p f'.
Proof. intros He [H1 H2]. split; [done|]. intros c Hc. rewrite <-He by done. by apply H2. Qed.

Lemma add_op_caps n p f k o :
  caps n p f → 0 < k → 0 ≤ opClass o < Z.of_nat n →
  ∃ p', add_op p k o = Ok p' ∧ numFU p' = numFU p ∧ unitsToBeFreed p' = unitsToBeFreed p ∧
    caps n p' (λ c, f c ++ if decide (c = opClass o) then seqZ (numFU p) k else []).
Proof.
  intros [(L1 & L2 & L3 & L4) Hu] Hk Hc. destruct (Hu _ Hc) as (q & Hq & Hf & Hs & Hi & Hcap). unfold add_op.
  rewrite vset_in by (unfold vlen; lia). cbn [mbind res_bind]. rewrite (vget_in _ _ _ (proj1 Hc) Hq). cbn [mbind res_bind].
  rewrite vset_in by (unfold vlen; lia). cbn [mbind res_bind].
  destruct (vlookup_lt (maxOpLatencies p) (opClass o)) as [l Hl]; [unfold vlen; lia|].
  rewrite (vget_in _ _ _ (proj1 Hc) Hl). cbn [mbind res_bind]. rewrite vset_in by (unfold vlen; lia). cbn [mbind res_bind].
  destruct (vlookup_lt (pipelined p) (opClass o)) as [b Hb]; [unfold vlen; lia|].
  rewrite (vget_in _ _ _ (proj1 Hc) Hb). cbn [mbind res_bind]. rewrite vset_in by (unfold vlen; lia). cbn [mbind res_bind].
  eexists. split; [done|]. split; [done|]. split; [done|]. split; simpl; [by rewrite !length_insert|].
  intros c Hc'. destruct (decide (c = opClass o)) as [->|Hne].
  - exists (add_units q (numFU p) (Z.to_nat k)). rewrite !list_lookup_insert_eq by lia. rewrite add_units_spec, Z2Nat.id by lia.
    simpl. split_and!; [done|by rewrite Hf|unfold vlen; rewrite Hs, length_app, length_seqZ; unfold vlen; lia|done|].
    f_equal. symmetry. apply bool_decide_eq_true. rewrite seqZ_cons by lia. by destruct (f (opClass o)).
  - destruct (Hu c Hc') as (q' & ?). exists q'. rewrite app_nil_r.
    rewrite !list_lookup_insert_ne by lia. done.
Qed.

Lemma add_ops_caps n k os : ∀ p f,
  caps n p f → 0 < k → NoDup (opClass <$> os) → Forall (λ c, 0 ≤ c < Z.of_nat n) (opClass <$> os) →
  ∃ p', add_ops p k os = Ok p' ∧ numFU p' = numFU p ∧ unitsToBeFreed p' = unitsToBeFreed p ∧
    caps n p' (λ c, f c ++ if decide (c ∈ opClass <$> os) then seqZ (numFU p) k else []).
Proof.
  induction os as [|o os IH]; intros p f Hc Hk Hnd Hr; cbn [add_ops].
  { exists p. split_and!; try done. eapply caps_ext; [|done]. intros c _.
    destruct (decide _) as [Hin|]; [by apply elem_of_nil in Hin|by rewrite app_nil_r]. }
  simpl in Hnd, Hr. apply NoDup_cons in Hnd as [Hno Hnd]. apply Forall_cons in Hr as [Ho Hr].
  destruct (add_op_caps n p f k o Hc Hk Ho) as (p1 & -> & Hn1 & Hf1 & Hc1). cbn [mbind res_bind].
  destruct (IH p1 _ Hc1 Hk Hnd Hr) as (p2 & -> & Hn2 & Hf2 & Hc2). exists p2. split_and!; try congruence.
  eapply caps_ext; [|exact Hc2]. intros c _. simpl. rewrite Hn1, <-app_assoc. f_equal.
  destruct (decide (c = opClass o)) as [->|Hne].
  - rewrite (decide_False (P := opClass o ∈ opClass <$> os)) by done. rewrite app_nil_r.
    by rewrite decide_True by left.
  - destruct (decide (c ∈ opClass <$> os)) as [Hi|Hi]; [by rewrite decide_True by (by right)|].
    rewrite decide_False; [done|]. by intros [->|?]%elem_of_cons.
Qed.

Lemma add_descs_caps n ds : ∀ p pre,
  caps n p (units pre 0) → numFU p = count pre → unitsToBeFreed p = [] → Forall (desc_ok n) ds →
  ∃ p', add_descs p ds = Ok p' ∧ numFU p' = count (pre ++ ds) ∧ unitsToBeFreed p' = [] ∧ caps n p' (units (pre ++ ds) 0).
Proof.
  induction ds as [|d ds IH]; intros p pre Hc Hn Hf Hd; cbn [add_descs].
  { exists p. by rewrite app_nil_r. }
  apply Forall_cons in Hd as [(Hnum & Hnd & Hr) Hd].
  assert (∃ p1, (if negb (number d =? 0) then
             p ← add_ops p (number d) (opDescList d);
             Ok (with_caps p (maxOpLatencies p) (pipelined p) (capabilityList p) (fuPerCapList p) (numFU p + number d))
           else Ok p) = Ok p1 ∧ numFU p1 = count (pre ++ [d]) ∧ unitsToBeFreed p1 = [] ∧ caps n p1 (units (pre ++ [d]) 0))
    as (p1 & -> & Hn1 & Hf1 & Hc1).
  { rewrite count_app. simpl. destruct (Z.eqb_spec (number d) 0) as [E|E]; simpl.
    - exists p. split_and!; [done|lia|done|]. eapply caps_ext; [|done]. intros c _. rewrite units_app. simpl. rewrite E.
      by destruct (decide _); simpl; rewrite app_nil_r.
    - destruct (add_ops_caps n (number d) (opDescList d) p _ Hc) as (p1 & -> & Hn1 & Hf1 & Hc1); [lia|done|done|].
      eexists. split; [done|]. simpl. split_and!; [lia|congruence|]. destruct Hc1 as [Hl Hu]. split; [done|]. simpl.
      intros c Hc'. destruct (Hu c Hc') as (q & Hq). exists q. rewrite units_app. simpl. rewrite app_nil_r, <-Hn. exact Hq. }
  cbn [mbind res_bind]. destruct (IH p1 (pre ++ [d]) Hc1 Hn1 Hf1 Hd) as (p2 & Hp2 & H1 & H2 & H3).
  rewrite <-app_assoc in H1, H3. by exists p2.
Qed.

(** ** The pool's invariant *)
Record pool_ok (n : nat) (ds : list FUDesc) (p : t) : Prop := {
  po_units : vlen (unitBusy p) = count ds ∧ numFU p = count ds;
  po_caps : length (capabilityList p) = n ∧ length (fuPerCapList p) = n ∧ length (maxOpLatencies p) = n ∧
    length (pipelined p) = n;
  po_queue : ∀ c, 0 ≤ c < Z.of_nat n → ∃ q, fuPerCapList p !! Z.to_nat c = Some q ∧ funcUnitsIdx q = units ds 0 c ∧
    (units ds 0 c ≠ [] → queue_ok q) ∧ capabilityList p !! Z.to_nat c = Some (bool_decide (units ds 0 c ≠ []));
  po_freed : NoDup (unitsToBeFreed p) ∧ Forall (λ u, 0 ≤ u ∧ unitBusy p !! Z.to_nat u = Some true) (unitsToBeFreed p)
}.

Lemma create_ok n ds : Forall (desc_ok n) ds → ∃ p, create n ds = Ok p ∧ pool_ok n ds p.
Proof.
  intros Hd. unfold create. destruct (add_descs_caps n ds (no_units n) []) as (p & -> & Hn & Hf & [(L1 & L2 & L3 & L4) Hu]); [|done|done|exact Hd|].
  { split; simpl; [by rewrite !length_replicate|]. intros c Hc. exists FUIdxQueue_new.
    by rewrite !lookup_replicate_2 by lia. }
  cbn [mbind res_bind]. eexists. split; [done|]. pose proof (count_nonneg n ds Hd). simpl in Hn. split; simpl.
  - unfold vlen. rewrite length_replicate. lia.
  - done.
  - intros c Hc. destruct (Hu c Hc) as (q & Hq & Hqu & Hqs & Hqi & Hcap). exists q. split_and!; try done.
    intros Hne. split; [by rewrite Hqu|]. rewrite Hqi, Hqs. simpl. unfold vlen. destruct (units ds 0 c); [done|]. simpl. lia.
  - rewrite Hf. split; [constructor|done].
Qed.

(** The outcome of asking for a unit of a class whose units are [us]. *)
Inductive served (us : list Z) (busy : list bool) : Z → list bool → Prop :=
| served_incapable : us = [] → served us busy NoCapableFU busy
| served_busy : us ≠ [] → (∀ u, u ∈ us → busy !! Z.to_nat u = Some true) → served us busy NoFreeFU busy
| served_unit u : u ∈ us → 0 ≤ u → busy !! Z.to_nat u = Some false → served us busy u (<[Z.to_nat u := true]> busy).

Lemma find_free busy us :
  units_ok busy us →
  match List.find (is_free busy) us with
  | Some u => u ∈ us ∧ busy !! Z.to_nat u = Some false
  | None => ∀ u, u ∈ us → busy !! Z.to_nat u = Some true
  end.
Proof.
  induction 1 as [|u us Hu Hus IH]; simpl; [by intros ? ?%elem_of_nil|]. destruct (vlookup_lt busy u Hu) as [b Hb].
  unfold is_free at 1. rewrite Hb. destruct b.
  - rewrite bool_decide_false by done. destruct (List.find (is_free busy) us); [destruct IH; split; [by right|done]|].
    intros v [->|Hv]%elem_of_cons; auto.
  - rewrite bool_decide_true by done. split; [by left|done].
Qed.

Lemma getUnit_served n ds p c :
  Forall (desc_ok n) ds → pool_ok n ds p → 0 ≤ c < Z.of_nat n →
  ∃ r p', getUnit p c = Ok (r, p') ∧ pool_ok n ds p' ∧ unitsToBeFreed p' = unitsToBeFreed p ∧
    served (units ds 0 c) (unitBusy p) r (unitBusy p').
Proof.
  intros Hd [[Hb Hn] (Lc & Lf & Lm & Lp) Hq [Hfn Hff]] Hc. destruct (Hq c Hc) as (q & Hqc & Hqu & Hqok & Hcap). unfold getUnit.
  rewrite (vget_in _ _ _ (proj1 Hc) Hcap). cbn [mbind res_bind].
  destruct (decide (units ds 0 c = [])) as [Hnil|Hne].
  { rewrite bool_decide_false by (by intros []). simpl. exists NoCapableFU, p. split_and!; try done. by constructor. }
  rewrite bool_decide_true by done. cbn [negb]. rewrite (vget_in _ _ _ (proj1 Hc) Hqc). cbn [mbind res_bind].
  destruct (getFU_spec q (Hqok Hne)) as (x & r & q1 & Hrot & -> & Hq1 & Hrot1 & Hu1). cbn [mbind res_bind].
  pose proof (units_nodup n ds 0 c Hd) as Hnd. rewrite <-Hqu, <-(rotation_perm q), Hrot in Hnd. apply NoDup_cons in Hnd as [Hxr _].
  pose proof (units_range n ds 0 c Hd) as Hrange. rewrite <-Hqu, <-(rotation_perm q), Hrot in Hrange.
  assert (Hok : units_ok (unitBusy p) (x :: r)) by (eapply Forall_impl; [exact Hrange|]; simpl; lia).
  destruct (search_spec (S (length (funcUnitsIdx q1))) (unitBusy p) x q1 x r [] Hq1 Hrot1 Hxr Hok) as (q2 & Hq2 & Hu2 & ->).
  { rewrite Hu1, <-(rotation_perm q), Hrot. simpl. lia. }
  cbn [mbind res_bind]. rewrite vset_in by (unfold vlen; lia). cbn [mbind res_bind].
  pose proof (find_free (unitBusy p) (x :: r) Hok) as Hfind.
  assert (Hin : ∀ u, u ∈ x :: r ↔ u ∈ units ds 0 c) by (intros u; by rewrite <-Hrot, rotation_perm, Hqu).
  assert (Hqueue : ∀ c', 0 ≤ c' < Z.of_nat n → ∃ q', <[Z.to_nat c := q2]> (fuPerCapList p) !! Z.to_nat c' = Some q' ∧
    funcUnitsIdx q' = units ds 0 c' ∧ (units ds 0 c' ≠ [] → queue_ok q') ∧
    capabilityList p !! Z.to_nat c' = Some (bool_decide (units ds 0 c' ≠ []))).
  { intros c' Hc'. destruct (decide (c' = c)) as [->|Hcc].
    - exists q2. rewrite list_lookup_insert_eq by lia. split_and!; [done|congruence|done|].
      rewrite Hcap. by rewrite bool_decide_true.
    - rewrite list_lookup_insert_ne by lia. by apply Hq. }
  destruct (List.find (is_free (unitBusy p)) (x :: r)) as [u|].
  - destruct Hfind as [Hu Hub]. rewrite Forall_forall in Hrange. pose proof (Hrange u Hu) as Hur. simpl in Hur.
    rewrite (proj2 (Z.ltb_lt u (numFU p))) by lia. cbn [mbind res_bind assert_]. rewrite vset_in by lia. cbn [mbind res_bind].
    eexists _, _. split; [done|]. split; [|split; [done|]; simpl; constructor; [by apply Hin|lia|done]].
    split; simpl; [by rewrite vlen_insert|by rewrite length_insert|done|]. split; [done|]. eapply Forall_impl; [exact Hff|].
    intros v [Hv Hvb]. split; [done|]. destruct (decide (v = u)) as [->|]; [congruence|]. by rewrite list_lookup_insert_ne by lia.
  - eexists _, _. split; [done|]. split; [|split; [done|]; simpl; constructor; [done|intros v Hv; by apply Hfind, Hin]].
    split; simpl; [done|by rewrite length_insert|done|done].
Qed.

Lemma freeUnitNextCycle_ok n ds p u :
  pool_ok n ds p → 0 ≤ u → unitBusy p !! Z.to_nat u = Some true → u ∉ unitsToBeFreed p →
  ∃ p', freeUnitNextCycle p u = Ok p' ∧ pool_ok n ds p' ∧ unitBusy p' = unitBusy p ∧ unitsToBeFreed p' = unitsToBeFreed p ++ [u].
Proof.
  intros [H1 H2 H3 [H4 H5]] Hu Hb Hn. unfold freeUnitNextCycle. rewrite (vget_in _ _ _ Hu Hb). cbn [mbind res_bind assert_].
  eexists. split; [done|]. split; [|done]. split; simpl; [done|done|done|]. split.
  - apply NoDup_app. split_and!; [done|set_solver|apply NoDup_singleton].
  - apply Forall_app. split; [done|]. by constructor.
Qed.

Lemma free_units_spec fr : ∀ busy,
  NoDup fr → Forall (λ u, 0 ≤ u ∧ busy !! Z.to_nat u = Some true) fr →
  ∃ busy', free_units busy fr = Ok busy' ∧ length busy' = length busy ∧
    ∀ u, 0 ≤ u → busy' !! Z.to_nat u = if decide (u ∈ fr) then Some false else busy !! Z.to_nat u.
Proof.
  induction fr as [|v fr IH]; intros busy Hnd Hf; cbn [free_units].
  { exists busy. split_and!; [done|done|]. intros u _. by rewrite decide_False by apply not_elem_of_nil. }
  apply NoDup_cons in Hnd as [Hv Hnd]. apply Forall_cons in Hf as [[Hv0 Hvb] Hf].
  rewrite (vget_in _ _ _ Hv0 Hvb). cbn [mbind res_bind assert_].
  assert (Hvl : (Z.to_nat v < length busy)%nat) by (by eapply lookup_lt_Some).
  rewrite vset_in by (unfold vlen; lia). cbn [mbind res_bind].
  destruct (IH (<[Z.to_nat v := false]> busy)) as (busy' & -> & Hl & Hb); [done| |].
  { apply Forall_forall. intros u Hu. rewrite Forall_forall in Hf. destruct (Hf u Hu) as [Hu0 Hub]. split; [done|].
    rewrite list_lookup_insert_ne; [done|]. intros E. assert (v = u) as -> by lia. done. }
  exists busy'. rewrite length_insert in Hl. split_and!; [done|done|]. intros u Hu. rewrite Hb by done.
  destruct (decide (u = v)) as [->|Hne].
  - rewrite decide_False by done. rewrite list_lookup_insert_eq by done. by rewrite decide_True by left.
  - rewrite list_lookup_insert_ne by lia. destruct (decide (u ∈ fr)) as [Hi|Hi]; [by rewrite decide_True by (by right)|].
    rewrite decide_False; [done|]. by intros [?|?]%elem_of_cons.
Qed.

Lemma processFreeUnits_ok n ds p :
  pool_ok n ds p →
  ∃ p', processFreeUnits p = Ok p' ∧ pool_ok n ds p' ∧ unitsToBeFreed p' = [] ∧
    ∀ u, 0 ≤ u → unitBusy p' !! Z.to_nat u = if decide (u ∈ unitsToBeFreed p) then Some false else unitBusy p !! Z.to_nat u.
Proof.
  intros [[H1 H1'] H2 H3 [H4 H5]]. unfold processFreeUnits.
  destruct (free_units_spec (rev (unitsToBeFreed p)) (unitBusy p)) as (busy & -> & Hl & Hb).
  { by rewrite <-Permutation_rev. }
  { by rewrite <-Permutation_rev. }
  cbn [mbind res_bind]. eexists. split; [done|]. split_and!; [|done|].
  - split; simpl; [unfold vlen in *; by rewrite Hl|done|done|]. split; [constructor|done].
  - intros u Hu. simpl. rewrite Hb by done. destruct (decide (u ∈ rev (unitsToBeFreed p))) as [Hi|Hi];
      rewrite <-Permutation_rev in Hi; [by rewrite decide_True|by rewrite decide_False].
Qed.

(** ** Runs *)
Inductive op := Get (c : Z) | FreeNext (u : Z) | Process.

Definition step (p : t) (o : op) : res t :=
  match o with
  | Get c => '(_, p) ← getUnit p c; Ok p
  | FreeNext u => freeUnitNextCycle p u
  | Process => processFreeUnits p
  end.

(** A unit is freed when it is busy, and once. *)
Definition legal_op (n : nat) (p : t) (o : op) : bool :=
  match o with
  | Get c => (0 <=? c) && (c <? Z.of_nat n)
  | FreeNext u => (0 <=? u) && bool_decide (unitBusy p !! Z.to_nat u = Some true) && bool_decide (u ∉ unitsToBeFreed p)
  | Process => true
  end.

Fixpoint run (p : t) (os : list op) : res t := match os with [] => Ok p | o :: os => p ← step p o; run p os end.

Fixpoint legal (n : nat) (p : t) (os : list op) : bool :=
  match os with
  | [] => true
  | o :: os => legal_op n p o && match step p o with Ok p => legal n p os | Err _ => true end
  end.

Definition play (n : nat) (ds : list FUDesc) (os : list op) : res t := p ← create n ds; run p os.
Definition session (n : nat) (ds : list FUDesc) (os : list op) : bool :=
  match create n ds with Ok p => legal n p os | Err _ => true end.

Lemma pool_step_ok n ds p o :
  Forall (desc_ok n) ds → pool_ok n ds p → legal_op n p o = true → ∃ p', step p o = Ok p' ∧ pool_ok n ds p'.
Proof.
  intros Hd Hp. destruct o as [c|u|]; cbn [legal_op step].
  - intros [Hc1%Z.leb_le Hc2%Z.ltb_lt]%andb_prop.
    destruct (getUnit_served n ds p c Hd Hp) as (r & p' & -> & Hp' & _); [lia|]. by exists p'.
  - intros [[Hu%Z.leb_le Hb%bool_decide_eq_true]%andb_prop Hn%bool_decide_eq_true]%andb_prop.
    destruct (freeUnitNextCycle_ok n ds p u Hp Hu Hb Hn) as (p' & -> & Hp' & _). by exists p'.
  - intros _. destruct (processFreeUnits_ok n ds p Hp) as (p' & -> & Hp' & _). by exists p'.
Qed.

Lemma pool_run_ok n ds os : ∀ p,
  Forall (desc_ok n) ds → pool_ok n ds p → legal n p os = true → ∃ p', run p os = Ok p' ∧ pool_ok n ds p'.
Proof.
  induction os as [|o os IH]; intros p Hd Hp Hl; cbn [run legal] in *; [by exists p|].
  apply andb_prop in Hl as [Ho Hl]. destruct (pool_step_ok n ds p o Hd Hp Ho) as (p1 & E & Hp1). rewrite E in *. by apply IH.
Qed.

Lemma pool_play_ok n ds os :
  Forall (desc_ok n) ds → session n ds os = true → ∃ p, play n ds os = Ok p ∧ pool_ok n ds p.
Proof.
  intros Hd Hs. destruct (create_ok n ds Hd) as (p & E & Hp). unfold session, play in *. rewrite E in *. by apply pool_run_ok.
Qed.

(** The pool hands out functional units correctly.  In every state it reaches,
    [getUnit] returns: [NoCapableFU] exactly when no described unit performs the class,
    [NoFreeFU] when all that do are busy, and otherwise a unit that performs the class
    and was free, which alone becomes busy; the circular search always ends.  The end of
    the cycle frees the units announced for it and no others. *)
Theorem fupool_serves n ds os c :
  Forall (desc_ok n) ds → session n ds os = true → 0 ≤ c < Z.of_nat n →
  ∃ p r p1 p2, play n ds os = Ok p ∧ getUnit p c = Ok (r, p1) ∧
    served (units ds 0 c) (unitBusy p) r (unitBusy p1) ∧
    processFreeUnits p = Ok p2 ∧
    ∀ u, 0 ≤ u → unitBusy p2 !! Z.to_nat u = if decide (u ∈ unitsToBeFreed p) then Some false else unitBusy p !! Z.to_nat u.
Proof.
  intros Hd Hs Hc. destruct (pool_play_ok n ds os Hd Hs) as (p & E & Hp).
  destruct (getUnit_served n ds p c Hd Hp Hc) as (r & p1 & H1 & _ & _ & H2).
  destruct (processFreeUnits_ok n ds p Hp) as (p2 & H3 & _ & _ & H4).
  exists p, r, p1, p2. split_and!; done.
Qed.

(** Two units for class 0, and one for classes 0 and 1, of three classes. *)
Definition demo : list FUDesc := [mkFU [mkOp 0 1 true] 2; mkFU [mkOp 0 2 true; mkOp 1 3 false] 1].

Lemma demo_ok : Forall (desc_ok 3) demo.
Proof.
  repeat constructor; simpl; try lia; set_solver.
Qed.

Lemma fupool_serves_witness :
  ∃ p r p1, play 3 demo [Get 0; Get 0; Get 0] = Ok p ∧ getUnit p 1 = Ok (r, p1) ∧
    served (units demo 0 1) (unitBusy p) r (unitBusy p1).
Proof.
  destruct (fupool_serves 3 demo [Get 0; Get 0; Get 0] 1 demo_ok ltac:(vm_compute; reflexivity) ltac:(lia))
    as (p & r & p1 & p2 & H1 & H2 & H3 & _).
  exists p, r, p1. split; [exact H1|]. split; [exact H2|exact H3].
Defined.

(** With a class listed twice in a description, the search stops at the repeated unit
    and misses a free one. *)
Lemma repeated_class_misses_unit :
  ∃ p, play 1 [mkFU [mkOp 0 1 true; mkOp 0 1 true] 1; mkFU [mkOp 0 1 true] 1] [Get 0; Get 0; FreeNext 1; Process] = Ok p ∧
    is_free (unitBusy p) 1 = true ∧ fst <$> match getUnit p 0 with Ok r => Some r | Err _ => None end = Some NoFreeFU.
Proof. eexists. split; [vm_compute; reflexivity|]. vm_compute. done. Qed.
End FUPool.
