(* ===== verification/InstQueue.v ===== *)
(** * The issue logic of the instruction queue

    The ready queues, the age-ordered list of operation classes and the issue loop of
    [InstructionQueue] in [cpu/o3/inst_queue.hh] and [inst_queue_impl.hh].  A node of
    the list [listOrder] has an identity, since iterators to it are kept while other
    nodes come and go.  A [std::priority_queue] is the list of its elements, oldest
    first.  Memory instructions leave through the memory dependence unit, which is not
    modelled: the ones handed to it are recorded. *)

From S2P Require Import Prelude FuPool.

Module IQ.

(** The part of an instruction that the issue logic uses ([cpu/base_dyn_inst.hh]). *)
Record DynInst := mkInst {
  seqNum : Z; threadNumber : Z; opClass : Z; MemRef : bool;
  Squashed : bool; Issued : bool; IqEntry : bool
}.
Definition setIssued (i : DynInst) : DynInst :=
  mkInst (seqNum i) (threadNumber i) (opClass i) (MemRef i) (Squashed i) true (IqEntry i).
Definition clearInIQ (i : DynInst) : DynInst :=
  mkInst (seqNum i) (threadNumber i) (opClass i) (MemRef i) (Squashed i) (Issued i) false.

(** The first value of the enumeration of operation classes. *)
Definition No_OpClass : Z := 0.

Definition deref (m : gmap positive DynInst) (p : positive) : res DynInst :=
  match m !! p with Some i => Ok i | None => Err BadPointer end.

(** ** Ready queues and their order *)
Record ListOrderEntry := mkEntry { queueType : Z; oldestInst : Z }.
Notation node := (positive * ListOrderEntry)%type.
Notation ListOrderIt := (option positive).   (** [None] is [end()] *)

Record order := mkOrder {
  readyInsts : list (list positive);
  listOrder : list node;
  readyIt : list ListOrderIt;
  queueOnList : list bool;
  fresh : positive   (** the identity of the next node *)
}.

(** A queue of each class empty. *)
Definition order_new (numOpClasses : nat) : order :=
  mkOrder (replicate numOpClasses []) [] (replicate numOpClasses None) (replicate numOpClasses false) 1.

(** Insertion into a priority queue. *)
Fixpoint push (m : gmap positive DynInst) (p : positive) (sn : Z) (q : list positive) : res (list positive) :=
  match q with
  | [] => Ok [p]
  | x :: q =>
      i ← deref m x;
      if sn <? seqNum i then Ok (p :: x :: q) else q ← push m p sn q; Ok (x :: q)
  end.

Definition top (m : gmap positive DynInst) (q : list positive) : res (positive * DynInst) :=
  match q with [] => Err EmptyAccess | p :: _ => i ← deref m p; Ok (p, i) end.

(** Insertion of a node before the first one that is older than allowed. *)
Fixpoint insert_before (stop : ListOrderEntry → bool) (n : node) (l : list node) : list node :=
  match l with
  | [] => [n]
  | e :: l => if stop (snd e) then n :: e :: l else e :: insert_before stop n l
  end.

Definition addToOrderList (m : gmap positive DynInst) (o : order) (op_class : Z) : res order :=
  q ← vget (readyInsts o) op_class;
  _ ← assert_ (match q with [] => false | _ => true end);
  '(_, i) ← top m q;
  let e := mkEntry op_class (seqNum i) in
  let l := insert_before (λ x, oldestInst e <? oldestInst x) (fresh o, e) (listOrder o) in
  it ← vset (readyIt o) op_class (Some (fresh o));
  on ← vset (queueOnList o) op_class true;
  Ok (mkOrder (readyInsts o) l it on (Pos.succ (fresh o))).

(** The node with identity [id], and the nodes from there on. *)
Fixpoint from_node (id : positive) (l : list node) : list node :=
  match l with [] => [] | e :: l' => if decide (fst e = id) then l else from_node id l' end.

Definition erase (id : positive) (l : list node) : list node := filter (λ e, fst e ≠ id) l.

Definition next_it (id : positive) (l : list node) : ListOrderIt :=
  match from_node id l with _ :: e :: _ => Some (fst e) | _ => None end.

(** Insertion after the node [id], past the nodes that are older than [n]. *)
Fixpoint insert_after (id : positive) (n : node) (l : list node) : list node :=
  match l with
  | [] => []
  | e :: l =>
      if decide (fst e = id) then e :: insert_before (λ x, negb (oldestInst x <? oldestInst (snd n))) n l
      else e :: insert_after id n l
  end.

Definition moveToYoungerInst (m : gmap positive DynInst) (o : order) (list_order_it : positive) : res order :=
  match from_node list_order_it (listOrder o) with
  | [] => Err BadPointer
  | (_, e) :: _ =>
      let op_class := queueType e in
      q ← vget (readyInsts o) op_class;
      '(_, i) ← top m q;
      let n := (fresh o, mkEntry op_class (seqNum i)) in
      it ← vset (readyIt o) op_class (Some (fresh o));
      Ok (mkOrder (readyInsts o) (insert_after list_order_it n (listOrder o)) it (queueOnList o) (Pos.succ (fresh o)))
  end.

(** [addReadyMemInst], and the end of [addIfReady]: the instruction enters its queue. *)
Definition addReady (m : gmap positive DynInst) (o : order) (ready_inst : positive) : res order :=
  i ← deref m ready_inst;
  let op_class := opClass i in
  q ← vget (readyInsts o) op_class;
  q ← push m ready_inst (seqNum i) q;
  qs ← vset (readyInsts o) op_class q;
  let o := mkOrder qs (listOrder o) (readyIt o) (queueOnList o) (fresh o) in
  on ← vget (queueOnList o) op_class;
  if negb on then addToOrderList m o op_class
  else
    '(_, oldest) ← top m q;
    it ← vget (readyIt o) op_class;
    match it with
    | None => Err BadPointer
    | Some id =>
        match from_node id (listOrder o) with
        | [] => Err BadPointer
        | (_, e) :: _ =>
            if seqNum oldest <? oldestInst e then
              addToOrderList m (mkOrder (readyInsts o) (erase id (listOrder o)) (readyIt o) (queueOnList o) (fresh o)) op_class
            else Ok o
        end
    end.

Definition hasReadyInsts (o : order) : bool :=
  match listOrder o with [] => existsb (λ q, match q with [] => false | _ => true end) (readyInsts o) | _ => true end.

(** ** Issue *)

(** A unit in use: the instruction, the unit, the cycles to go, and whether the unit is
    freed at the end ([FUCompletion]). *)
Record FUCompletion := mkCompletion { fc_inst : positive; fuIdx : Z; fc_cycles : Z; freeFU : bool }.

Record core := mkCore {
  insts : gmap positive DynInst;
  fuPool : FUPool.t;
  instsToExecute : list positive;
  i2e_size : Z;
  wbOutstanding : Z;
  completions : list FUCompletion;
  freeEntries : Z;
  count : list Z;
  mem_issued : list positive   (** handed to the memory dependence unit *)
}.

(** A functional unit for the instruction: its index and the latency. *)
Definition get_fu (c : core) (op_class : Z) : res (Z * Z * FUPool.t) :=
  if op_class =? No_OpClass then Ok (FUPool.NoCapableFU, 1, fuPool c)
  else
    '(idx, p) ← FUPool.getUnit (fuPool c) op_class;
    lat ← (if FUPool.NoFreeFU <? idx then FUPool.getOpLatency p op_class else Ok 1);
    Ok (idx, lat, p).

(** Sending the instruction to the unit. *)
Definition execute (c : core) (p : positive) (op_class idx op_latency : Z) : res core :=
  if op_latency =? 1 then
    pool ← (if 0 <=? idx then FUPool.freeUnitNextCycle (fuPool c) idx else Ok (fuPool c));
    Ok (mkCore (insts c) pool (instsToExecute c ++ [p]) (i2e_size c + 1) (wbOutstanding c) (completions c) (freeEntries c)
          (count c) (mem_issued c))
  else
    pip ← FUPool.isPipelined (fuPool c) op_class;
    pool ← (if (pip : bool) then FUPool.freeUnitNextCycle (fuPool c) idx else Ok (fuPool c));
    Ok (mkCore (insts c) pool (instsToExecute c) (i2e_size c) (i32 (wbOutstanding c + 1))
          (completions c ++ [mkCompletion p idx (op_latency - 1) (negb pip)]) (freeEntries c) (count c) (mem_issued c)).

(** The instruction leaves the queue, unless it accesses memory. *)
Definition leave (c : core) (p : positive) (i : DynInst) : res core :=
  if MemRef i then
    Ok (mkCore (<[p := setIssued i]> (insts c)) (fuPool c) (instsToExecute c) (i2e_size c) (wbOutstanding c) (completions c)
          (freeEntries c) (count c) (mem_issued c ++ [p]))
  else
    n ← vget (count c) (threadNumber i);
    cnt ← vset (count c) (threadNumber i) (u32 (n - 1));
    Ok (mkCore (<[p := clearInIQ (setIssued i)]> (insts c)) (fuPool c) (instsToExecute c) (i2e_size c) (wbOutstanding c)
          (completions c) (u32 (freeEntries c + 1)) cnt (mem_issued c)).

Definition with_pool (c : core) p : core :=
  mkCore (insts c) p (instsToExecute c) (i2e_size c) (wbOutstanding c) (completions c) (freeEntries c) (count c) (mem_issued c).

(** Issuing instruction [p]; [false] when all units for it are busy. *)
Definition issue (c : core) (p : positive) (i : DynInst) (op_class : Z) : res (bool * core) :=
  '(idx, lat, pool) ← get_fu c op_class;
  let c := with_pool c pool in
  if negb (idx =? FUPool.NoFreeFU) then
    c ← execute c p op_class idx lat;
    c ← leave c p i;
    Ok (true, c)
  else Ok (false, c).

(** The oldest instruction of the class at [id] is taken out: the class moves to the
    place of its next instruction, or off the list.  Yields the iterator that follows. *)
Definition pop_class (m : gmap positive DynInst) (o : order) (id : positive) (op_class : Z) (q : list positive)
    : res (ListOrderIt * order) :=
  qs ← vset (readyInsts o) op_class q;
  let o := mkOrder qs (listOrder o) (readyIt o) (queueOnList o) (fresh o) in
  o ← (match q with
       | _ :: _ => moveToYoungerInst m o id
       | [] =>
           it ← vset (readyIt o) op_class None;
           on ← vset (queueOnList o) op_class false;
           Ok (mkOrder (readyInsts o) (listOrder o) it on (fresh o))
       end);
  Ok (next_it id (listOrder o), mkOrder (readyInsts o) (erase id (listOrder o)) (readyIt o) (queueOnList o) (fresh o)).

(** The loop of [scheduleReadyInsts]. *)
Fixpoint issue_loop (fuel : nat) (totalWidth total_issued : Z) (it : ListOrderIt) (o : order) (c : core)
    : res (Z * order * core) :=
  match fuel with
  | O => Err Diverges
  | S fuel =>
      match it with
      | None => Ok (total_issued, o, c)
      | Some id =>
          if negb (total_issued <? totalWidth) then Ok (total_issued, o, c)
          else
            match from_node id (listOrder o) with
            | [] => Err BadPointer
            | (_, e) :: _ =>
                let op_class := queueType e in
                q ← vget (readyInsts o) op_class;
                _ ← assert_ (match q with [] => false | _ => true end);
                '(p, i) ← top (insts c) q;
                _ ← assert_ (seqNum i =? oldestInst e);
                if Squashed i then
                  '(it, o) ← pop_class (insts c) o id op_class (drop 1 q);
                  issue_loop fuel totalWidth total_issued it o c
                else
                  '(ok, c) ← issue c p i op_class;
                  if (ok : bool) then
                    '(it, o) ← pop_class (insts c) o id op_class (drop 1 q);
                    issue_loop fuel totalWidth (total_issued + 1) it o c
                  else issue_loop fuel totalWidth total_issued (next_it id (listOrder o)) o c
            end
      end
  end.

(** A multi-cycle operation completes; [fu_idx] is -1 unless the unit is to be freed. *)
Definition processFUCompletion (c : core) (inst : positive) (fu_idx : Z) : res core :=
  p ← (if -1 <? fu_idx then FUPool.freeUnitNextCycle (fuPool c) fu_idx else Ok (fuPool c));
  Ok (mkCore (insts c) p (instsToExecute c ++ [inst]) (i2e_size c + 1) (i32 (wbOutstanding c - 1)) (completions c) (freeEntries c)
        (count c) (mem_issued c)).

Definition FUCompletion_process (c : core) (f : FUCompletion) : res core :=
  processFUCompletion c (fc_inst f) (if freeFU f then fuIdx f else -1).

Definition getInstToExecute (c : core) : res (positive * core) :=
  match instsToExecute c with
  | [] => Err AssertFail
  | p :: l =>
      Ok (p, mkCore (insts c) (fuPool c) l (i2e_size c) (wbOutstanding c) (completions c) (freeEntries c) (count c) (mem_issued c))
  end.

Definition ready_count (qs : list (list positive)) : nat := sum_list_with length qs.

Definition begin_it (l : list node) : ListOrderIt := match l with [] => None | e :: _ => Some (fst e) end.

Fixpoint add_all (m : gmap positive DynInst) (o : order) (ps : list positive) : res order :=
  match ps with [] => Ok o | p :: ps => o ← addReady m o p; add_all m o ps end.

(** [mem_insts] are the memory instructions that the loops over
    [getDeferredMemInstToExecute] and [getBlockedMemInstToExecute] yield. *)
Definition scheduleReadyInsts (totalWidth : Z) (mem_insts : list positive) (o : order) (c : core) : res (Z * order * core) :=
  o ← add_all (insts c) o mem_insts;
  issue_loop (S (ready_count (readyInsts o))) totalWidth 0 (begin_it (listOrder o)) o c.
End IQ.
