(* ===== verification/InstQueueInv.v ===== *)
(** * The order of the ready queues

    Well-formed ready queues: the list of classes is in the order of their oldest ready
    instructions, with one node per class that has any. *)

From S2P Require Import Prelude FuPool InstQueue.

Module IQInv.
Import IQ.

Definition age (m : gmap positive DynInst) (p : positive) : Z := default 0 (seqNum <$> m !! p).

(** What the order depends on. *)
Definition core_of (i : DynInst) : Z * Z * Z := (seqNum i, threadNumber i, opClass i).
Definition same (m m' : gmap positive DynInst) : Prop := ∀ p, core_of <$> m !! p = core_of <$> m' !! p.

Lemma same_age m m' p : same m m' → age m' p = age m p.
Proof. intros Hs. specialize (Hs p). unfold age. destruct (m !! p), (m' !! p); simplify_eq/=; congruence. Qed.

Lemma same_lookup m m' p i : same m m' → m !! p = Some i → ∃ j, m' !! p = Some j ∧ core_of j = core_of i.
Proof. intros Hs Hp. specialize (Hs p). rewrite Hp in Hs. destruct (m' !! p) as [j|]; [|done]. exists j.
  split; [done|]. cbn in Hs. congruence. Qed.

Definition older (e e' : node) : Prop := oldestInst (snd e) < oldestInst (snd e').

(** ** Lists of nodes *)
Lemma from_node_spec id pre e post : id ∉ pre.*1 → from_node id (pre ++ (id, e) :: post) = (id, e) :: post.
Proof.
  induction pre as [|[a x] pre IH]; simpl; intros Hn; [by rewrite decide_True|]. rewrite decide_False by set_solver. apply IH. set_solver.
Qed.

Lemma erase_spec id pre e post : id ∉ pre.*1 → id ∉ post.*1 → erase id (pre ++ (id, e) :: post) = pre ++ post.
Proof.
  assert (Hall : ∀ l : list node, id ∉ l.*1 → filter (λ x, fst x ≠ id) l = l).
  { induction l as [|[a x] l IH]; simpl; intros Hl; [done|]. rewrite filter_cons_True by set_solver. rewrite IH by set_solver. done. }
  intros H1 H2. unfold erase. rewrite filter_app, filter_cons, !Hall by done. rewrite decide_False; [done|]. by intros [].
Qed.

Lemma insert_after_spec id n pre e post :
  id ∉ pre.*1 →
  insert_after id n (pre ++ (id, e) :: post) =
  pre ++ (id, e) :: insert_before (λ x, negb (oldestInst x <? oldestInst (snd n))) n post.
Proof.
  induction pre as [|[a x] pre IH]; simpl; intros Hn; [by rewrite decide_True|]. rewrite decide_False by set_solver.
  rewrite IH by set_solver. done.
Qed.

Lemma next_it_spec id pre e post : id ∉ pre.*1 → next_it id (pre ++ (id, e) :: post) = begin_it post.
Proof. intros Hn. unfold next_it. rewrite from_node_spec by done. by destruct post. Qed.

Lemma insert_before_perm stop (n : node) l : insert_before stop n l ≡ₚ n :: l.
Proof. induction l as [|e l IH]; simpl; [done|]. destruct (stop (snd e)); [done|]. rewrite IH. apply Permutation_swap. Qed.

Lemma insert_before_sorted (stop : ListOrderEntry → bool) (n : node) (l : list node) :
  (∀ e : node, e ∈ l → if stop (snd e) then older n e else older e n) → StronglySorted older l → StronglySorted older (insert_before stop n l).
Proof.
  intros Hstop Hs. induction Hs as [|e l Hs IH HF]; simpl; [by repeat constructor|].
  pose proof (Hstop e ltac:(by left)) as He. destruct (stop (snd e)).
  - constructor; [by constructor|]. constructor; [done|]. eapply Forall_impl; [exact HF|]. unfold older in *. simpl. lia.
  - constructor; [apply IH; intros x Hx; apply Hstop; by right|].
    rewrite insert_before_perm. by constructor.
Qed.

(** ** Well-formed ready queues *)
(** The place of class [c], whose ready instructions are [q], in the list [l]. *)
Definition entry_ok (m : gmap positive DynInst) (c : nat) (q : list positive) (it : ListOrderIt) (on : bool) (l : list node) : Prop :=
  match q with
  | [] => it = None ∧ on = false ∧ ∀ e : node, e ∈ l → queueType (snd e) ≠ Z.of_nat c
  | p :: _ => on = true ∧ ∃ id, it = Some id ∧ (id, mkEntry (Z.of_nat c) (age m p)) ∈ l ∧
      ∀ e : node, e ∈ l → queueType (snd e) = Z.of_nat c → fst e = id
  end.

Record wf (n : nat) (m : gmap positive DynInst) (o : order) : Prop := {
  wf_len : length (readyInsts o) = n ∧ length (readyIt o) = n ∧ length (queueOnList o) = n;
  wf_insts : ∀ c q p, readyInsts o !! c = Some q → p ∈ q → ∃ i, m !! p = Some i ∧ opClass i = Z.of_nat c;
  wf_queues : ∀ c q, readyInsts o !! c = Some q → StronglySorted (λ p p', age m p < age m p') q;
  wf_ages : ∀ c c' q q' p p', readyInsts o !! c = Some q → readyInsts o !! c' = Some q' → p ∈ q → p' ∈ q' →
    age m p = age m p' → p = p';
  wf_ids : NoDup (listOrder o).*1 ∧ Forall (λ e, fst e < fresh o)%positive (listOrder o);
  wf_sorted : StronglySorted older (listOrder o);
  wf_types : Forall (λ e, 0 ≤ queueType (snd e) < Z.of_nat n) (listOrder o);
  wf_entries : ∀ c q it on, readyInsts o !! c = Some q → readyIt o !! c = Some it → queueOnList o !! c = Some on →
    entry_ok m c q it on (listOrder o)
}.

Lemma order_new_wf n m : wf n m (order_new n).
Proof.
  split; simpl.
  - by rewrite !length_replicate.
  - intros c q p [-> _]%lookup_replicate ?%elem_of_nil. done.
  - intros c q [-> _]%lookup_replicate. constructor.
  - intros c c' q q' p p' [-> _]%lookup_replicate _ ?%elem_of_nil. done.
  - split; constructor.
  - constructor.
  - constructor.
  - intros c q it on [-> _]%lookup_replicate [-> _]%lookup_replicate [-> _]%lookup_replicate.
    split_and!; [done|done|]. by intros e ?%elem_of_nil.
Qed.

(** The order does not depend on the flags that issuing sets. *)
Lemma wf_same n m m' o : same m m' → wf n m o → wf n m' o.
Proof.
  intros Hs [H1 H2 H3 H4 H5 H6 H7 H8]. split; try done.
  - intros c q p Hq Hp. destruct (H2 c q p Hq Hp) as (i & Hi & Hc). destruct (same_lookup m m' p i Hs Hi) as (j & ? & E).
    exists j. split; [done|]. unfold core_of in E. congruence.
  - intros c q Hq. specialize (H3 c q Hq). clear -H3 Hs. induction H3 as [|p q Hq IH HF]; constructor; [done|].
    eapply Forall_impl; [exact HF|]. simpl. intros p'. by rewrite !(same_age m m').
  - intros c c' q q' p p' Hq Hq' Hp Hp'. rewrite !(same_age m m') by done. exact (H4 c c' q q' p p' Hq Hq' Hp Hp').
  - intros c q it on Hq Hit Hon. specialize (H8 c q it on Hq Hit Hon). destruct q as [|p q]; [done|].
    unfold entry_ok in *. by rewrite (same_age m m').
Qed.

(** The state of one class. *)
Lemma wf_class n m o c :
  wf n m o → 0 ≤ c < Z.of_nat n →
  ∃ q it on, readyInsts o !! Z.to_nat c = Some q ∧ readyIt o !! Z.to_nat c = Some it ∧ queueOnList o !! Z.to_nat c = Some on ∧
    entry_ok m (Z.to_nat c) q it on (listOrder o).
Proof.
  intros [(L1 & L2 & L3) _ _ _ _ _ _ He] Hc.
  destruct (lookup_lt_is_Some_2 (readyInsts o) (Z.to_nat c)) as [q Hq]; [lia|].
  destruct (lookup_lt_is_Some_2 (readyIt o) (Z.to_nat c)) as [it Hit]; [lia|].
  destruct (lookup_lt_is_Some_2 (queueOnList o) (Z.to_nat c)) as [on Hon]; [lia|].
  exists q, it, on. split_and!; try done. by eapply He.
Qed.

(** Two nodes of the list with one identity are the same. *)
Lemma wf_node_eq n m o e e' : wf n m o → e ∈ listOrder o → e' ∈ listOrder o → fst e = fst e' → e = e'.
Proof.
  intros Hw He He' E. apply list_elem_of_lookup in He as [i Hi]. apply list_elem_of_lookup in He' as [j Hj].
  destruct (wf_ids _ _ _ Hw) as [Hnd _]. assert (i = j) as ->; [|congruence].
  eapply (NoDup_lookup _ _ _ (fst e) Hnd); rewrite list_lookup_fmap.
  - by rewrite Hi.
  - rewrite Hj. simpl. by rewrite E.
Qed.

(** A node stands for the oldest instruction of its class. *)
Lemma wf_entry_head n m o e :
  wf n m o → e ∈ listOrder o →
  ∃ p q, readyInsts o !! Z.to_nat (queueType (snd e)) = Some (p :: q) ∧ oldestInst (snd e) = age m p ∧
    0 ≤ queueType (snd e) < Z.of_nat n ∧ readyIt o !! Z.to_nat (queueType (snd e)) = Some (Some (fst e)) ∧
    queueOnList o !! Z.to_nat (queueType (snd e)) = Some true.
Proof.
  intros Hw He. pose proof (wf_types _ _ _ Hw) as Ht. rewrite Forall_forall in Ht. specialize (Ht e He).
  destruct (wf_class n m o _ Hw Ht) as (q & it & on & Hq & Hit & Hon & Hok). destruct q as [|p q]; simpl in Hok.
  - destruct Hok as (_ & _ & Hno). exfalso. apply (Hno e He). lia.
  - destruct Hok as (-> & id & -> & Hin & Huniq). assert (Hid : fst e = id) by (apply Huniq; [done|lia]).
    assert (e = (id, mkEntry (Z.of_nat (Z.to_nat (queueType (snd e)))) (age m p))) as E by (by eapply wf_node_eq).
    exists p, q. rewrite Hid. split_and!; try done; try lia. by rewrite E.
Qed.

Lemma sorted_inj m q p p' :
  StronglySorted (λ p p', age m p < age m p') q → p ∈ q → p' ∈ q → age m p = age m p' → p = p'.
Proof.
  induction 1 as [|x q Hs IH HF]; [by intros ?%elem_of_nil|]. rewrite Forall_forall in HF.
  intros [->|Hp]%elem_of_cons [->|Hp']%elem_of_cons Ha; [done| | |by apply IH].
  - specialize (HF p' Hp'). lia.
  - specialize (HF p Hp). lia.
Qed.

(** One class changed, with its node. *)
Lemma wf_change n m o c q q' it' on' l' f' :
  wf n m o → (c < n)%nat → readyInsts o !! c = Some q →
  (∀ p, p ∈ q' → ∃ i, m !! p = Some i ∧ opClass i = Z.of_nat c) →
  StronglySorted (λ p p', age m p < age m p') q' →
  (∀ c' k p p', c' ≠ c → readyInsts o !! c' = Some k → p ∈ q' → p' ∈ k → age m p ≠ age m p') →
  NoDup l'.*1 → Forall (λ e, fst e < f')%positive l' → StronglySorted older l' →
  (∀ e : node, queueType (snd e) ≠ Z.of_nat c → e ∈ l' ↔ e ∈ listOrder o) →
  entry_ok m c q' it' on' l' →
  wf n m (mkOrder (<[c := q']> (readyInsts o)) l' (<[c := it']> (readyIt o)) (<[c := on']> (queueOnList o)) f').
Proof.
  intros Hw Hc Hq Hlive Hso Hages Hnd Hfr Hsl Hl Hok. pose proof Hw as [(L1 & L2 & L3) H2 H3 H4 _ _ H7 H8].
  split; simpl; try done.
  - by rewrite !length_insert.
  - intros d k p Hk Hp. destruct (decide (d = c)) as [->|Hne].
    + rewrite list_lookup_insert_eq in Hk by lia. simplify_eq. by apply Hlive.
    + rewrite list_lookup_insert_ne in Hk by done. by eapply H2.
  - intros d k Hk. destruct (decide (d = c)) as [->|Hne].
    + rewrite list_lookup_insert_eq in Hk by lia. by simplify_eq.
    + rewrite list_lookup_insert_ne in Hk by done. by apply (H3 d).
  - intros d d' k k' p p' Hk Hk' Hp Hp' Ha. destruct (decide (d = c)) as [->|Hne], (decide (d' = c)) as [->|Hne'].
    + rewrite list_lookup_insert_eq in Hk, Hk' by lia. simplify_eq. by eapply sorted_inj.
    + rewrite list_lookup_insert_eq in Hk by lia. rewrite list_lookup_insert_ne in Hk' by done. simplify_eq.
      exfalso. by eapply (Hages d').
    + rewrite list_lookup_insert_ne in Hk by done. rewrite list_lookup_insert_eq in Hk' by lia. simplify_eq.
      exfalso. by eapply (Hages d).
    + rewrite list_lookup_insert_ne in Hk by done. rewrite list_lookup_insert_ne in Hk' by done.
      exact (H4 d d' k k' p p' Hk Hk' Hp Hp' Ha).
  - apply Forall_forall. intros e He. destruct (decide (queueType (snd e) = Z.of_nat c)) as [->|Hne]; [lia|].
    rewrite Forall_forall in H7. apply H7. by apply Hl.
  - intros d k it on Hk Hit Hon. destruct (decide (d = c)) as [->|Hne].
    + rewrite list_lookup_insert_eq in Hk by lia. rewrite list_lookup_insert_eq in Hit by lia.
      rewrite list_lookup_insert_eq in Hon by lia. by simplify_eq.
    + rewrite list_lookup_insert_ne in Hk by done. rewrite list_lookup_insert_ne in Hit by done.
      rewrite list_lookup_insert_ne in Hon by done. specialize (H8 d k it on Hk Hit Hon).
      destruct k as [|p k]; simpl in *.
      * destruct H8 as (-> & -> & Hno). split_and!; [done|done|]. intros e He E. apply (Hno e); [|done]. apply Hl; [lia|done].
      * destruct H8 as (-> & id & -> & Hin & Hu). split; [done|]. exists id. split_and!; [done|apply Hl; [simpl; lia|done]|].
        intros e He E. apply Hu; [|done]. apply Hl; [lia|done].
Qed.

(** ** Entering a queue *)
Lemma push_spec m p sn q :
  (∀ x, x ∈ q → is_Some (m !! x)) → (∀ x, x ∈ q → age m x ≠ sn) → sn = age m p →
  StronglySorted (λ p p', age m p < age m p') q →
  ∃ q', push m p sn q = Ok q' ∧ q' ≡ₚ p :: q ∧ StronglySorted (λ p p', age m p < age m p') q' ∧
    match q with
    | [] => q' = [p]
    | x :: q0 => if sn <? age m x then q' = p :: q else ∃ k, q' = x :: k
    end.
Proof.
  intros Hlive Hne ->. induction 1 as [|x q Hs IH HF]; cbn [push].
  { exists [p]. split_and!; try done. by repeat constructor. }
  destruct (Hlive x ltac:(by left)) as [i Hi]. unfold deref. rewrite Hi. cbn [mbind res_bind].
  assert (Hx : age m x = seqNum i) by (unfold age; by rewrite Hi). rewrite <-Hx. rewrite Forall_forall in HF.
  destruct (Z.ltb_spec (age m p) (age m x)) as [Hlt|Hge].
  - exists (p :: x :: q). split_and!; try done. constructor; [constructor; [done|by apply Forall_forall]|].
    constructor; [done|]. apply Forall_forall. intros y Hy. specialize (HF y Hy). lia.
  - destruct IH as (q' & -> & Hp & Hs' & _); [intros y Hy; apply Hlive; by right|intros y Hy; apply Hne; by right|].
    cbn [mbind res_bind]. exists (x :: q'). split_and!; [done|rewrite Hp; apply Permutation_swap| |by exists q'].
    constructor; [done|]. rewrite Hp. constructor; [|by apply Forall_forall]. specialize (Hne x ltac:(by left)). lia.
Qed.

(** A ready instruction that is in no queue yet. *)
Definition can_add (n : nat) (m : gmap positive DynInst) (o : order) (p : positive) : Prop :=
  ∃ i, m !! p = Some i ∧ 0 ≤ opClass i < Z.of_nat n ∧
    ∀ c q x, readyInsts o !! c = Some q → x ∈ q → age m x ≠ age m p.

Lemma addToOrderList_eq m o c p q i :
  0 ≤ c < vlen (readyInsts o) → readyInsts o !! Z.to_nat c = Some (p :: q) → m !! p = Some i →
  length (readyIt o) = length (readyInsts o) → length (queueOnList o) = length (readyInsts o) →
  addToOrderList m o c = Ok (mkOrder (readyInsts o)
    (insert_before (λ x, seqNum i <? oldestInst x) (fresh o, mkEntry c (seqNum i)) (listOrder o))
    (<[Z.to_nat c := Some (fresh o)]> (readyIt o)) (<[Z.to_nat c := true]> (queueOnList o)) (Pos.succ (fresh o))).
Proof.
  intros Hc Hq Hi L1 L2. unfold addToOrderList. rewrite (vget_in _ _ _ (proj1 Hc) Hq). cbn [mbind res_bind assert_ top].
  unfold deref. rewrite Hi. cbn [mbind res_bind]. unfold vlen in Hc. rewrite vset_in by (unfold vlen; lia). cbn [mbind res_bind].
  by rewrite vset_in by (unfold vlen; lia).
Qed.

(** A list of nodes that can take a new one. *)
Record nodes_ok (l : list node) (f : positive) : Prop := {
  no_ids : NoDup l.*1;
  no_fresh : Forall (λ e, fst e < f)%positive l;
  no_sorted : StronglySorted older l
}.

Lemma add_node stop l f (e : ListOrderEntry) :
  nodes_ok l f → (∀ x : node, x ∈ l → oldestInst (snd x) ≠ oldestInst e) →
  (∀ x : node, x ∈ l → stop (snd x) = (oldestInst e <? oldestInst (snd x))) →
  nodes_ok (insert_before stop (f, e) l) (Pos.succ f).
Proof.
  intros [H1 H2 H3] Hne Hstop. split.
  - rewrite insert_before_perm. simpl. constructor; [|done]. intros Hf. apply list_elem_of_fmap in Hf as (x & Hx & Hin).
    rewrite Forall_forall in H2. specialize (H2 x Hin). lia.
  - rewrite insert_before_perm. constructor; [simpl; lia|]. eapply Forall_impl; [exact H2|]. simpl. lia.
  - apply insert_before_sorted; [|done]. intros x Hx. rewrite Hstop by done. specialize (Hne x Hx). unfold older. simpl.
    destruct (Z.ltb_spec (oldestInst e) (oldestInst (snd x))); lia.
Qed.

Lemma nodes_sub l pre e post f : nodes_ok l f → l = pre ++ e :: post → nodes_ok (pre ++ post) f.
Proof.
  intros [H1 H2 H3] ->. split.
  - rewrite !fmap_app in *. simpl in H1. rewrite <-Permutation_middle in H1. by apply NoDup_cons in H1 as [_ ?].
  - rewrite !Forall_app in *. destruct H2 as [? ?%Forall_cons]. naive_solver.
  - clear H1 H2. induction pre as [|x pre IH]; simpl in *; [by apply StronglySorted_inv in H3 as [? _]|].
    apply StronglySorted_inv in H3 as [H3 HF]. constructor; [by apply IH|].
    rewrite !Forall_app in *. destruct HF as [? HF%Forall_cons]. naive_solver.
Qed.

Lemma wf_nodes n m o : wf n m o → nodes_ok (listOrder o) (fresh o).
Proof. intros [_ _ _ _ [H1 H2] H3 _ _]. by split. Qed.

(** The node of a class, and the list around it. *)
Lemma wf_split n m o e :
  wf n m o → e ∈ listOrder o → ∃ pre post, listOrder o = pre ++ e :: post ∧ fst e ∉ pre.*1 ∧ fst e ∉ post.*1.
Proof.
  intros Hw He. apply list_elem_of_split in He as (pre & post & E). exists pre, post. split; [done|].
  destruct (wf_ids _ _ _ Hw) as [Hnd _]. rewrite E, fmap_app in Hnd. simpl in Hnd. apply NoDup_app in Hnd as (_ & Hd & Hnd).
  apply NoDup_cons in Hnd as [Hnp _]. split; [|done]. intros Hin. apply (Hd _ Hin). by left.
Qed.

(** Nodes of other classes are those without node [e]. *)
Lemma without_node n m o pre e post x :
  wf n m o → listOrder o = pre ++ e :: post → x ∈ pre ++ post ↔ x ∈ listOrder o ∧ queueType (snd x) ≠ queueType (snd e).
Proof.
  intros Hw E. assert (He : e ∈ listOrder o) by (rewrite E; set_solver).
  assert (Huniq : ∀ y, y ∈ listOrder o → queueType (snd y) = queueType (snd e) → y = e).
  { intros y Hy Ht. destruct (wf_entry_head n m o y Hw Hy) as (p & q & _ & _ & _ & H1 & _).
    destruct (wf_entry_head n m o e Hw He) as (p' & q' & _ & _ & _ & H2 & _). rewrite Ht in H1.
    eapply wf_node_eq; [done|done|done|congruence]. }
  destruct (wf_ids _ _ _ Hw) as [Hnd _]. rewrite E, fmap_app in Hnd. simpl in Hnd. rewrite <-Permutation_middle in Hnd.
  apply NoDup_cons in Hnd as [Hn _]. split.
  - intros Hx. split; [rewrite E; set_solver|]. intros Ht. apply Hn. rewrite <-fmap_app.
    rewrite <-(Huniq x); [|rewrite E; set_solver|done]. apply list_elem_of_fmap. by exists x.
  - intros [Hx Ht]. rewrite E in Hx. apply elem_of_app in Hx as [Hx|[->|Hx]%elem_of_cons]; [set_solver|done|set_solver].
Qed.

Lemma addReady_wf n m o p :
  wf n m o → can_add n m o p →
  ∃ o' i q, addReady m o p = Ok o' ∧ wf n m o' ∧ m !! p = Some i ∧ readyInsts o !! Z.to_nat (opClass i) = Some q ∧
    ∃ q', q' ≡ₚ p :: q ∧ readyInsts o' = <[Z.to_nat (opClass i) := q']> (readyInsts o).
Proof.
  intros Hw (i & Hi & Hc & Hnew). pose proof Hw as [(L1 & L2 & L3) H2 H3 H4 _ _ _ _].
  set (c := opClass i) in *. destruct (wf_class n m o c Hw Hc) as (q & it & on & Hq & Hit & Hon & Hok).
  assert (Hcn : (Z.to_nat c < n)%nat) by lia. assert (Hcz : Z.of_nat (Z.to_nat c) = c) by lia.
  assert (Hage : seqNum i = age m p) by (unfold age; by rewrite Hi).
  destruct (push_spec m p (seqNum i) q) as (q' & Hpush & Hperm & Hso & Hhead).
  { intros x Hx. destruct (H2 _ _ _ Hq Hx) as (j & ? & _). eauto. }
  { intros x Hx. rewrite Hage. by eapply Hnew. }
  { done. }
  { by eapply H3. }
  assert (Hlive' : ∀ x, x ∈ q' → ∃ j, m !! x = Some j ∧ opClass j = Z.of_nat (Z.to_nat c)).
  { intros x Hx. rewrite Hperm in Hx. apply elem_of_cons in Hx as [->|Hx]; [exists i; by rewrite Hcz|by eapply H2]. }
  assert (Hages' : ∀ c' k x x', c' ≠ Z.to_nat c → readyInsts o !! c' = Some k → x ∈ q' → x' ∈ k → age m x ≠ age m x').
  { intros c' k x x' Hne Hk Hx Hx' Ha. rewrite Hperm in Hx. apply elem_of_cons in Hx as [->|Hx]; [by eapply Hnew|].
    assert (x = x') as -> by exact (H4 _ _ _ _ _ _ Hq Hk Hx Hx' Ha).
    destruct (H2 _ _ _ Hq Hx) as (j & ? & ?), (H2 _ _ _ Hk Hx') as (j' & ? & ?). simplify_eq. lia. }
  assert (Hold : ∀ e, e ∈ listOrder o → oldestInst (snd e) ≠ seqNum i).
  { intros e He. destruct (wf_entry_head n m o e Hw He) as (x & k & Hk & -> & _). rewrite Hage. eapply Hnew; [done|by left]. }
  unfold addReady, deref. rewrite Hi. cbn [mbind res_bind]. fold c. rewrite (vget_in _ _ _ (proj1 Hc) Hq). cbn [mbind res_bind].
  rewrite Hpush. cbn [mbind res_bind]. rewrite vset_in by (unfold vlen; lia). cbn [mbind res_bind queueOnList].
  rewrite (vget_in _ _ _ (proj1 Hc) Hon). cbn [mbind res_bind].
  destruct q as [|x q]; simpl in Hok.
  - destruct Hok as (-> & -> & Hno). subst q'. cbn [negb].
    rewrite (addToOrderList_eq m _ c p [] i); [|simpl; rewrite vlen_insert; unfold vlen; lia|simpl; apply list_lookup_insert_eq; lia|
      done|simpl; rewrite length_insert; lia|simpl; rewrite length_insert; lia].
    eexists _, i, []. split; [done|]. split; [|split_and!; [done|done|by exists [p]]].
    destruct (add_node (λ y, seqNum i <? oldestInst y) (listOrder o) (fresh o) (mkEntry c (seqNum i)) (wf_nodes _ _ _ Hw) Hold)
      as [N1 N2 N3]; [done|].
    apply (wf_change n m o (Z.to_nat c) [] [p]); try done.
    + intros e He. rewrite insert_before_perm, elem_of_cons. split; [|by right]. intros [->|?]; [|done]. simpl in He. lia.
    + split; [done|]. exists (fresh o). split_and!; [done| |].
      * rewrite insert_before_perm, Hage, Hcz. by left.
      * intros e He Ht. rewrite insert_before_perm in He. apply elem_of_cons in He as [->|He]; [done|]. exfalso. by apply (Hno e).
  - destruct Hok as (-> & id & -> & Hin & Huniq). cbn [negb]. rewrite Hcz in Hin. setoid_rewrite Hcz in Huniq.
    destruct (wf_split n m o _ Hw Hin) as (pre & post & E & Hpre & Hpost).
    assert (Hx : ∃ j, m !! x = Some j ∧ seqNum j = age m x).
    { destruct (H2 _ _ x Hq ltac:(by left)) as (j & Hj & _). exists j. split; [done|]. unfold age. by rewrite Hj. }
    destruct (Z.ltb_spec (seqNum i) (age m x)) as [Hlt|Hge].
    + subst q'. cbn [top]. unfold deref. rewrite Hi. cbn [mbind res_bind readyIt]. rewrite (vget_in _ _ _ (proj1 Hc) Hit).
      cbn [mbind res_bind listOrder]. rewrite E, from_node_spec by done. simpl oldestInst.
      rewrite (proj2 (Z.ltb_lt _ _)) by done.
      rewrite erase_spec by done.
      rewrite (addToOrderList_eq m _ c p (x :: q) i); [|simpl; rewrite vlen_insert; unfold vlen; lia|simpl; apply list_lookup_insert_eq; lia|
        done|simpl; rewrite length_insert; lia|simpl; rewrite length_insert; lia].
      eexists _, i, (x :: q). split; [done|]. split; [|split_and!; [done|done|by exists (p :: x :: q)]].
      pose proof (λ y, without_node n m o pre (id, mkEntry c (age m x)) post y Hw E) as Hwo.
      destruct (add_node (λ y, seqNum i <? oldestInst y) (pre ++ post) (fresh o) (mkEntry c (seqNum i)))
        as [N1 N2 N3]; [by eapply nodes_sub; [eapply wf_nodes|]|intros y Hy; apply Hold; rewrite E; set_solver|done|].
      apply (wf_change n m o (Z.to_nat c) (x :: q) (p :: x :: q)); try done.
      * intros e He. rewrite insert_before_perm, elem_of_cons. rewrite (Hwo e). simpl.
        split; [intros [->|?]; [simpl in He; lia|naive_solver]|]. intros ?. right. split; [done|lia].
      * split; [done|]. exists (fresh o). split_and!; [done| |].
        -- rewrite insert_before_perm, Hage, Hcz. by left.
        -- intros e He Ht. rewrite insert_before_perm in He. apply elem_of_cons in He as [->|He]; [done|].
           apply (Hwo e) in He as [_ He]. simpl in He. lia.
    + destruct Hhead as [k ->]. cbn [top]. destruct Hx as (j & Hj & Hja). unfold deref. rewrite Hj. cbn [mbind res_bind readyIt].
      rewrite (vget_in _ _ _ (proj1 Hc) Hit). cbn [mbind res_bind listOrder]. rewrite E, from_node_spec by done. simpl oldestInst.
      rewrite (proj2 (Z.ltb_ge _ _)) by lia. rewrite <-E.
      eexists _, i, (x :: q). split; [done|]. split; [|split_and!; [done|done|by exists (x :: k)]].
      destruct (wf_nodes _ _ _ Hw) as [N1 N2 N3].
      rewrite <-(list_insert_id (readyIt o) _ _ Hit), <-(list_insert_id (queueOnList o) _ _ Hon).
      apply (wf_change n m o (Z.to_nat c) (x :: q) (x :: k)); try done.
      split; [done|]. exists id. rewrite Hcz. done.
Qed.

(** ** Leaving a queue *)
Lemma insert_before_app (stop : ListOrderEntry → bool) n (pre post : list node) :
  (∀ x : node, x ∈ pre → stop (snd x) = false) → insert_before stop n (pre ++ post) = pre ++ insert_before stop n post.
Proof.
  induction pre as [|x pre IH]; intros Hs; simpl; [done|]. rewrite (Hs x) by left. f_equal. apply IH. intros y Hy. apply Hs. by right.
Qed.

Lemma sorted_before pre e post x : StronglySorted older (pre ++ e :: post) → x ∈ pre → older x e.
Proof.
  induction pre as [|y pre IH]; simpl; intros Hs; [by intros ?%elem_of_nil|]. apply StronglySorted_inv in Hs as [Hs HF].
  intros [->|Hx]%elem_of_cons; [|by apply IH]. rewrite Forall_forall in HF. apply HF. set_solver.
Qed.

Lemma sorted_after pre e post x : StronglySorted older (pre ++ e :: post) → x ∈ post → older e x.
Proof.
  induction pre as [|y pre IH]; simpl; intros [Hs HF]%StronglySorted_inv Hx; [|by apply IH].
  rewrite Forall_forall in HF. by apply HF.
Qed.

Lemma pop_class_wf n m o pre id e post p q :
  wf n m o → listOrder o = pre ++ (id, e) :: post → readyInsts o !! Z.to_nat (queueType e) = Some (p :: q) →
  ∃ o' post', pop_class m o id (queueType e) q = Ok (begin_it post', o') ∧ wf n m o' ∧ listOrder o' = pre ++ post' ∧
    readyInsts o' = <[Z.to_nat (queueType e) := q]> (readyInsts o).
Proof.
  intros Hw E Hq. pose proof Hw as [(L1 & L2 & L3) H2 H3 H4 _ Hsorted _ _].
  assert (Hin : (id, e) ∈ listOrder o) by (rewrite E; set_solver).
  destruct (wf_entry_head n m o (id, e) Hw Hin) as (p' & q' & Hq' & Hold & Hc & Hit & Hon). simpl in Hq', Hold, Hc, Hit, Hon.
  rewrite Hq in Hq'. injection Hq' as <- <-.
  assert (Hnd : NoDup (pre ++ (id, e) :: post).*1) by (rewrite <-E; apply Hw).
  rewrite fmap_app in Hnd. simpl in Hnd. rewrite <-Permutation_middle in Hnd. apply NoDup_cons in Hnd as [Hid _].
  apply not_elem_of_app in Hid as [Hpre Hpost].
  set (c := queueType e) in *. assert (Hcz : Z.of_nat (Z.to_nat c) = c) by lia.
  pose proof (λ y, without_node n m o pre (id, e) post y Hw E) as Hwo. simpl in Hwo. fold c in Hwo.
  pose proof (H3 _ _ Hq) as Hso. apply StronglySorted_inv in Hso as [Hso Hlt]. rewrite Forall_forall in Hlt.
  assert (Hlive' : ∀ x, x ∈ q → ∃ j, m !! x = Some j ∧ opClass j = Z.of_nat (Z.to_nat c)).
  { intros x Hx. eapply H2; [done|by right]. }
  assert (Hages' : ∀ c' k x x', c' ≠ Z.to_nat c → readyInsts o !! c' = Some k → x ∈ q → x' ∈ k → age m x ≠ age m x').
  { intros c' k x x' Hne Hk Hx Hx' Ha. assert (x = x') as -> by (eapply (H4 _ _ _ _ _ _ Hq Hk); [by right|done|done]).
    destruct (H2 _ _ x' Hq ltac:(by right)) as (j & ? & ?), (H2 _ _ _ Hk Hx') as (j' & ? & ?). simplify_eq. lia. }
  unfold pop_class. rewrite vset_in by (unfold vlen; lia). cbn [mbind res_bind].
  destruct q as [|y q].
  - cbn [readyIt queueOnList]. rewrite vset_in by (unfold vlen; lia). cbn [mbind res_bind]. rewrite vset_in by (unfold vlen; lia).
    cbn [mbind res_bind listOrder readyInsts readyIt queueOnList fresh]. rewrite E, next_it_spec, erase_spec by done.
    eexists _, post. split; [done|]. split; [|done].
    destruct (nodes_sub _ pre (id, e) post _ (wf_nodes _ _ _ Hw) E) as [N1 N2 N3].
    apply (wf_change n m o (Z.to_nat c) [p] []); try done; [lia| |].
    + intros x Hx. rewrite Hwo. split; [naive_solver|]. intros ?. split; [done|lia].
    + split_and!; [done|done|]. intros x Hx. apply Hwo in Hx as [_ Hx]. lia.
  - destruct (Hlive' y ltac:(by left)) as (i & Hi & _). assert (Hage : seqNum i = age m y) by (unfold age; by rewrite Hi).
    pose proof (Hlt y ltac:(by left)) as Hpy.
    unfold moveToYoungerInst. cbn [listOrder readyInsts readyIt queueOnList fresh]. rewrite E, from_node_spec by done. fold c.
    rewrite (vget_in _ c (y :: q)) by (lia || (apply list_lookup_insert_eq; lia)). cbn [mbind res_bind top]. unfold deref. rewrite Hi.
    cbn [mbind res_bind]. rewrite vset_in by (unfold vlen; lia). cbn [mbind res_bind listOrder readyInsts readyIt queueOnList fresh].
    rewrite insert_after_spec, next_it_spec by done. cbn [snd oldestInst].
    set (stop := λ x : ListOrderEntry, negb (oldestInst x <? seqNum i)).
    set (nd := (fresh o, mkEntry c (seqNum i))).
    assert (Hid' : id ∉ (insert_before stop nd post).*1).
    { rewrite insert_before_perm. simpl. apply not_elem_of_cons. split; [|done]. intros ->.
      destruct (wf_ids _ _ _ Hw) as [_ Hf]. rewrite Forall_forall in Hf. specialize (Hf _ Hin). simpl in Hf. lia. }
    rewrite erase_spec by done. eexists _, (insert_before stop nd post). split; [done|]. split; [|done].
    assert (Hpold : ∀ x, x ∈ pre → oldestInst (snd x) < seqNum i).
    { intros x Hx. rewrite E in Hsorted. pose proof (sorted_before _ _ _ x Hsorted Hx) as Hlt'. unfold older in Hlt'. simpl in Hlt'. lia. }
    rewrite <-(insert_before_app stop nd pre post).
    2: { intros x Hx. unfold stop. rewrite (proj2 (Z.ltb_lt _ _)) by (by apply Hpold). done. }
    assert (Hdist : ∀ x, x ∈ pre ++ post → oldestInst (snd x) ≠ seqNum i).
    { intros x Hx. apply Hwo in Hx as [Hx Ht]. destruct (wf_entry_head n m o x Hw Hx) as (z & k & Hk & -> & Hcx & _).
      rewrite Hage. intros Ha. symmetry in Ha. revert Ha. eapply Hages'; [|done|by left|by left]. lia. }
    destruct (add_node stop (pre ++ post) (fresh o) (mkEntry c (seqNum i))) as [N1 N2 N3]; [by eapply nodes_sub; [eapply wf_nodes|]|done| |].
    { intros x Hx. specialize (Hdist x Hx). unfold stop. simpl. destruct (Z.ltb_spec (oldestInst (snd x)) (seqNum i)),
        (Z.ltb_spec (seqNum i) (oldestInst (snd x))); simpl; try done; lia. }
    fold nd in N1, N2, N3. rewrite <-(list_insert_id (queueOnList o) _ _ Hon).
    apply (wf_change n m o (Z.to_nat c) (p :: y :: q) (y :: q)); try done; [lia| |].
    + intros x Hx. rewrite insert_before_perm, elem_of_cons, Hwo. split; [intros [->|?]; [simpl in Hx; lia|naive_solver]|].
      intros ?. right. split; [done|lia].
    + split; [done|]. exists (fresh o). split_and!; [done| |].
      * rewrite insert_before_perm, <-Hage, Hcz. by left.
      * intros x Hx Ht. rewrite insert_before_perm in Hx. apply elem_of_cons in Hx as [->|Hx]; [done|].
        apply Hwo in Hx as [_ Hx]. lia.
Qed.
End IQInv.
