(* ===== verification/InstQueueSpec.v ===== *)
(** * Issue in age order

    The issue loop takes, again and again, the oldest ready instruction of a class whose
    units were not found busy in this cycle. *)

From S2P Require Import Prelude FuPool InstQueue InstQueueInv.

Module IQSpec.
Import IQ IQInv.

(** ** The greedy choice *)
(** Class [k] is not blocked and [p] is its oldest ready instruction. *)
Definition candidate (qs : list (list positive)) (B : list nat) (k : nat) (p : positive) (q : list positive) : Prop :=
  k ∉ B ∧ qs !! k = Some (p :: q).

Definition oldest (m : gmap positive DynInst) (qs : list (list positive)) (B : list nat) (k : nat) (p : positive)
    (q : list positive) : Prop :=
  candidate qs B k p q ∧ ∀ k' p' q', candidate qs B k' p' q' → age m p ≤ age m p'.

(** One cycle of width [w]: [n] issued so far, classes [B] found busy, queues and state
    before; then the instructions issued in order, queues and state after. *)
Inductive greedy (w : Z) : Z → list nat → list (list positive) → core → list positive → list (list positive) → core → Prop :=
| greedy_width n B qs c : w ≤ n → greedy w n B qs c [] qs c
| greedy_empty n B qs c : (∀ k p q, ¬ candidate qs B k p q) → greedy w n B qs c [] qs c
| greedy_squashed n B qs c k p q i tr qs' c' :
    n < w → oldest (insts c) qs B k p q → insts c !! p = Some i → Squashed i = true →
    greedy w n B (<[k := q]> qs) c tr qs' c' → greedy w n B qs c tr qs' c'
| greedy_issue n B qs c k p q i c1 tr qs' c' :
    n < w → oldest (insts c) qs B k p q → insts c !! p = Some i → Squashed i = false →
    issue c p i (Z.of_nat k) = Ok (true, c1) →
    greedy w (n + 1) B (<[k := q]> qs) c1 tr qs' c' → greedy w n B qs c (p :: tr) qs' c'
| greedy_busy n B qs c k p q i c1 tr qs' c' :
    n < w → oldest (insts c) qs B k p q → insts c !! p = Some i → Squashed i = false →
    issue c p i (Z.of_nat k) = Ok (false, c1) →
    greedy w n (k :: B) qs c1 tr qs' c' → greedy w n B qs c tr qs' c'.

(** ** Issuing one instruction *)
(** The units that completions to come will free: busy, and not freed already. *)
Definition held_units (fs : list FUCompletion) : list Z := fuIdx <$> filter (λ f, freeFU f = true) fs.

Definition held_ok (p : FUPool.t) (us : list Z) : Prop :=
  NoDup us ∧
  Forall (λ u, 0 ≤ u ∧ FUPool.unitBusy p !! Z.to_nat u = Some true ∧ u ∉ FUPool.unitsToBeFreed p) us.

Lemma held_units_app fs gs : held_units (fs ++ gs) = held_units fs ++ held_units gs.
Proof. unfold held_units. by rewrite filter_app, fmap_app. Qed.

Lemma held_ok_perm p us vs : us ≡ₚ vs → held_ok p us → held_ok p vs.
Proof. unfold held_ok. by intros ->. Qed.

Record core_ok (n nt : nat) (ds : list FUPool.FUDesc) (c : core) : Prop := {
  co_pool : FUPool.pool_ok n ds (fuPool c);
  co_count : length (count c) = nt;
  co_held : held_ok (fuPool c) (held_units (completions c))
}.

(** The unit just obtained is busy and not yet to be freed. *)
Lemma new_unit_free n ds p us r busy p' hs :
  FUPool.pool_ok n ds p → FUPool.pool_ok n ds p' → FUPool.unitsToBeFreed p' = FUPool.unitsToBeFreed p →
  FUPool.unitBusy p' = busy → FUPool.served us (FUPool.unitBusy p) r busy → held_ok p hs →
  held_ok p' hs ∧
  (FUPool.NoFreeFU < r → held_ok p' (r :: hs) ∧
     ∃ p2, FUPool.freeUnitNextCycle p' r = Ok p2 ∧ FUPool.pool_ok n ds p2 ∧ held_ok p2 hs).
Proof.
  intros Hp Hp' Hf Hb Hs [Hnd Hh]. rewrite Forall_forall in Hh.
  assert (held_ok p' hs) as Hok.
  { split; [done|]. apply Forall_forall. intros h Hin. destruct (Hh h Hin) as (H0 & Hbz & Hnf). rewrite Hf, Hb. split_and!; [done| |done].
    destruct Hs as [_|_ _|u Hu Hu0 Hfree]; [done|done|]. destruct (decide (Z.to_nat u = Z.to_nat h)) as [E|E]; [|by rewrite list_lookup_insert_ne].
    rewrite E in Hfree. congruence. }
  split; [done|]. intros Hr.
  destruct Hs as [_|_ _|u Hu H0 Hfree]; [unfold FUPool.NoFreeFU, FUPool.NoCapableFU in Hr; lia|unfold FUPool.NoFreeFU in *; lia|].
  assert (FUPool.unitBusy p' !! Z.to_nat u = Some true) as Hbu by (rewrite Hb; apply list_lookup_insert_eq; by eapply lookup_lt_Some).
  assert (u ∉ FUPool.unitsToBeFreed p') as Hnf.
  { rewrite Hf. intros Hin. destruct (FUPool.po_freed _ _ _ Hp) as [_ Hbusy]. rewrite Forall_forall in Hbusy.
    destruct (Hbusy u Hin) as [_ ?]. congruence. }
  assert (u ∉ hs) as Hnh by (intros Hin; destruct (Hh u Hin) as (_ & ? & _); congruence).
  split.
  - split; [by constructor|]. constructor; [done|apply Hok].
  - destruct (FUPool.freeUnitNextCycle_ok n ds p' u Hp' H0 Hbu Hnf) as (p2 & E & Hok2 & Eb & Ef). exists p2. split_and!; [done|done|].
    destruct Hok as [? Hall]. split; [done|]. rewrite Eb, Ef. rewrite Forall_forall in Hall |- *. intros h Hin.
    destruct (Hall h Hin) as (? & ? & ?). split_and!; [done|done|]. rewrite elem_of_app, list_elem_of_singleton.
    intros [?| ->]; done.
Qed.

Lemma get_fu_ok n nt ds c k :
  Forall (FUPool.desc_ok n) ds → core_ok n nt ds c → 0 ≤ k < Z.of_nat n →
  let hs := held_units (completions c) in
  ∃ idx lat p, get_fu c k = Ok (idx, lat, p) ∧ FUPool.pool_ok n ds p ∧ held_ok p hs ∧
    (lat ≠ 1 → FUPool.NoFreeFU < idx) ∧ FUPool.NoCapableFU ≤ idx ∧
    (FUPool.NoFreeFU < idx → held_ok p (idx :: hs) ∧
       ∃ p2, FUPool.freeUnitNextCycle p idx = Ok p2 ∧ FUPool.pool_ok n ds p2 ∧ held_ok p2 hs).
Proof.
  intros Hd [Hp _ Hh] Hk hs. unfold get_fu. destruct (Z.eqb_spec k No_OpClass) as [->|Hne].
  { exists FUPool.NoCapableFU, 1, (fuPool c). by split_and!. }
  destruct (FUPool.getUnit_served n ds (fuPool c) k Hd Hp Hk) as (r & p & -> & Hp' & Hf & Hs). cbn [mbind res_bind].
  pose proof Hp' as [_ (_ & _ & Hl & _) _ _].
  assert (Hr : FUPool.NoCapableFU ≤ r) by (destruct Hs; unfold FUPool.NoCapableFU, FUPool.NoFreeFU; lia).
  destruct (new_unit_free n ds (fuPool c) _ r _ p hs Hp Hp' Hf eq_refl Hs Hh) as [Hh' Hnew].
  destruct (Z.ltb_spec FUPool.NoFreeFU r).
  - unfold FUPool.getOpLatency. destruct (vlookup_lt (FUPool.maxOpLatencies p) k) as [lat Hlat]; [unfold vlen; lia|].
    rewrite (vget_in _ _ _ (proj1 Hk) Hlat). cbn [mbind res_bind]. exists r, lat, p. by split_and!.
  - cbn [mbind res_bind]. exists r, 1, p. split_and!; try done.
Qed.

Lemma issue_ok n nt ds c p i k :
  Forall (FUPool.desc_ok n) ds → core_ok n nt ds c → insts c !! p = Some i → 0 ≤ k < Z.of_nat n →
  0 ≤ threadNumber i < Z.of_nat nt →
  ∃ b c', issue c p i k = Ok (b, c') ∧ core_ok n nt ds c' ∧ same (insts c) (insts c') ∧
    (∀ x j, insts c !! x = Some j → Issued j = true → ∃ j', insts c' !! x = Some j' ∧ Issued j' = true) ∧
    (b = true → ∃ j, insts c' !! p = Some j ∧ Issued j = true).
Proof.
  intros Hd Hc Hp Hk Ht. unfold issue.
  destruct (get_fu_ok n nt ds c k Hd Hc Hk) as (idx & lat & pool & -> & Hpool & Hheld & Hlat & Hidx & Hfree). cbn [mbind res_bind].
  destruct Hc as [_ Hcount _]. destruct (Z.eqb_spec idx FUPool.NoFreeFU) as [->|Hne]; cbn [negb].
  { exists false, (with_pool c pool). split_and!; try done. intros x j Hx Hs. by exists j. }
  assert (∃ c1, execute (with_pool c pool) p k idx lat = Ok c1 ∧ FUPool.pool_ok n ds (fuPool c1) ∧ insts c1 = insts c ∧ count c1 = count c ∧
      held_ok (fuPool c1) (held_units (completions c1)))
    as (c1 & -> & Hp1 & Hi1 & Hc1 & Hh1).
  { unfold execute. destruct (Z.eqb_spec lat 1) as [->|Hl1].
    - destruct (Z.leb_spec 0 idx) as [H0|H0]; simpl fuPool.
      + destruct Hfree as (_ & p2 & -> & Hp2 & Hh2); [unfold FUPool.NoFreeFU; lia|]. cbn [mbind res_bind]. eexists. by split_and!.
      + cbn [mbind res_bind]. eexists. by split_and!.
    - pose proof Hpool as [_ (_ & _ & _ & Hl) _ _]. unfold FUPool.isPipelined. simpl fuPool.
      destruct (vlookup_lt (FUPool.pipelined pool) k) as [pip Hpip]; [unfold vlen; lia|].
      rewrite (vget_in _ _ _ (proj1 Hk) Hpip). cbn [mbind res_bind]. destruct pip.
      + destruct (Hfree (Hlat Hl1)) as (_ & p2 & -> & Hp2 & Hh2). cbn [mbind res_bind]. eexists. split_and!; try done.
        simpl. by rewrite held_units_app, app_nil_r.
      + destruct (Hfree (Hlat Hl1)) as (Hh2 & _). cbn [mbind res_bind]. eexists. split_and!; try done.
        simpl. rewrite held_units_app. simpl. eapply held_ok_perm; [|exact Hh2]. apply Permutation_cons_append. }
  cbn [mbind res_bind]. assert (Hmark : ∀ i', core_of i' = core_of i → Squashed i' = Squashed i → Issued i' = true →
    same (insts c) (<[p := i']> (insts c)) ∧
    ∀ x j, insts c !! x = Some j → Issued j = true → ∃ j', <[p := i']> (insts c) !! x = Some j' ∧ Issued j' = true).
  { intros i' Hci Hsq Hiss. split.
    - intros x. destruct (decide (p = x)) as [<-|]; [rewrite lookup_insert_eq, Hp; simpl; congruence|by rewrite lookup_insert_ne].
    - intros x j Hx Hs. destruct (decide (p = x)) as [<-|]; [|exists j; by rewrite lookup_insert_ne].
      exists i'. by rewrite lookup_insert_eq. }
  unfold leave. rewrite Hi1. destruct (MemRef i).
  - eexists true, _. destruct (Hmark (setIssued i)) as [Hsame Hmono]; [done|done|done|]. split; [done|]. split_and!; simpl; try done.
    + split; simpl; [done|by rewrite Hc1|done].
    + intros _. exists (setIssued i). by rewrite lookup_insert_eq.
  - rewrite Hc1. destruct (vlookup_lt (count c) (threadNumber i)) as [cnt Hcnt]; [unfold vlen; lia|].
    rewrite (vget_in _ _ _ (proj1 Ht) Hcnt). cbn [mbind res_bind]. rewrite vset_in by (unfold vlen; lia). cbn [mbind res_bind].
    eexists true, _. destruct (Hmark (clearInIQ (setIssued i))) as [Hsame Hmono]; [done|done|done|]. split; [done|]. split_and!; simpl; try done.
    + split; simpl; [done|by rewrite length_insert|done].
    + intros _. eexists. by rewrite lookup_insert_eq.
Qed.

(** ** Termination: ready instructions of classes that are not blocked *)
Fixpoint left_from (B : list nat) (i : nat) (qs : list (list positive)) : nat :=
  match qs with [] => 0 | q :: qs => (if decide (i ∈ B) then 0 else length q) + left_from B (S i) qs end.

Lemma left_from_ready i qs : left_from [] i qs = ready_count qs.
Proof.
  revert i. induction qs as [|q qs IH]; intros i; [done|].
  cbn [left_from]. by rewrite IH, decide_False by apply not_elem_of_nil.
Qed.

Lemma left_from_pop B i qs k p q :
  qs !! k = Some (p :: q) → (i + k)%nat ∉ B → left_from B i qs = S (left_from B i (<[k := q]> qs)).
Proof.
  revert i k. induction qs as [|x qs IH]; intros i [|k] Hk HB; simplify_eq/=.
  - rewrite Nat.add_0_r in HB. by rewrite !decide_False by done.
  - rewrite (IH (S i) k) by (done || by rewrite Nat.add_succ_comm). lia.
Qed.

Lemma left_from_block_le B i qs k : (left_from (k :: B) i qs ≤ left_from B i qs)%nat.
Proof.
  revert i. induction qs as [|x qs IH]; intros i; simpl; [done|]. specialize (IH (S i)).
  destruct (decide (i ∈ B)) as [Hin|Hin]; [rewrite decide_True by (by right); lia|].
  destruct (decide (i ∈ k :: B)); lia.
Qed.

Lemma left_from_block B i qs k p q :
  qs !! k = Some (p :: q) → (i + k)%nat ∉ B → (left_from ((i + k) :: B) i qs < left_from B i qs)%nat.
Proof.
  revert i k. induction qs as [|x qs IH]; intros i [|k] Hk HB; simplify_eq/=.
  - rewrite Nat.add_0_r in *. rewrite decide_True by left. rewrite decide_False by done.
    pose proof (left_from_block_le B (S i) qs i). simpl. lia.
  - rewrite <-Nat.add_succ_comm in *. specialize (IH (S i) k Hk HB).
    destruct (decide (i ∈ B)) as [Hin|Hin]; [rewrite decide_True by (by right); lia|]. destruct (decide (i ∈ (S i + k)%nat :: B)); lia.
Qed.

(** ** The head of the remaining list *)
(** Classes [B] are those of the nodes the loop has passed. *)
Definition passed (pre : list node) (B : list nat) : Prop :=
  ∀ k, k ∈ B ↔ ∃ e : node, e ∈ pre ∧ queueType (snd e) = Z.of_nat k.

Lemma candidate_node n m o B k p q :
  wf n m o → candidate (readyInsts o) B k p q → ∃ id, (id, mkEntry (Z.of_nat k) (age m p)) ∈ listOrder o.
Proof.
  intros Hw [_ Hk]. assert (Hkn : (k < n)%nat) by (destruct Hw as [(L1 & _) _ _ _ _ _ _ _]; apply lookup_lt_Some in Hk; lia).
  destruct (wf_class n m o (Z.of_nat k) Hw) as (q' & it & on & Hq & _ & _ & Hok); [lia|]. rewrite Nat2Z.id in *.
  simplify_eq. destruct Hok as (_ & id & _ & Hin & _). by exists id.
Qed.

Lemma head_oldest n m o pre id e post B :
  wf n m o → listOrder o = pre ++ (id, e) :: post → passed pre B →
  ∃ p q i, oldest m (readyInsts o) B (Z.to_nat (queueType e)) p q ∧ m !! p = Some i ∧ seqNum i = oldestInst e ∧
    0 ≤ queueType e < Z.of_nat n.
Proof.
  intros Hw E HB. assert (Hin : (id, e) ∈ listOrder o) by (rewrite E; set_solver).
  destruct (wf_entry_head n m o _ Hw Hin) as (p & q & Hq & Hold & Hc & _). simpl in Hq, Hold, Hc.
  destruct (wf_insts _ _ _ Hw _ _ p Hq ltac:(by left)) as (i & Hi & _).
  exists p, q, i. split_and!; [|done|unfold age in Hold; rewrite Hi in Hold; done|lia|lia]. split.
  - split; [|done]. intros HBk. apply HB in HBk as (x & Hx & Ht).
    assert (Hx' : x ∈ pre ++ post) by set_solver. apply (without_node n m o pre (id, e) post x Hw E) in Hx' as [_ Hx'].
    simpl in Hx'. lia.
  - intros k' p' q' Hcand. destruct (candidate_node n m o B k' p' q' Hw Hcand) as (id' & Hin'). rewrite E in Hin'.
    pose proof (wf_sorted _ _ _ Hw) as Hs. rewrite E in Hs. apply elem_of_app in Hin' as [Hin'|[Heq|Hin']%elem_of_cons].
    + destruct Hcand as [HnB _]. exfalso. apply HnB, HB. eexists. split; [exact Hin'|]. done.
    + injection Heq as _ <-. simpl in Hold. lia.
    + pose proof (sorted_after _ _ _ _ Hs Hin') as Hlt. unfold older in Hlt. simpl in Hlt. lia.
Qed.

(** The threads of the ready instructions exist. *)
Definition threads_ok (nt : nat) (m : gmap positive DynInst) (qs : list (list positive)) : Prop :=
  ∀ k q p i, qs !! k = Some q → p ∈ q → m !! p = Some i → 0 ≤ threadNumber i < Z.of_nat nt.

Lemma threads_pop nt m qs k p q : threads_ok nt m qs → qs !! k = Some (p :: q) → threads_ok nt m (<[k := q]> qs).
Proof.
  intros Ht Hk d x y i Hd Hy. destruct (decide (d = k)) as [->|Hne].
  - rewrite list_lookup_insert_eq in Hd by (by eapply lookup_lt_Some). simplify_eq. eapply Ht; [done|by right].
  - rewrite list_lookup_insert_ne in Hd by done. by eapply Ht.
Qed.

Lemma threads_same nt m m' qs : same m m' → threads_ok nt m qs → threads_ok nt m' qs.
Proof.
  intros Hs Ht k q p i Hk Hp Hi. specialize (Hs p). rewrite Hi in Hs. destruct (m !! p) as [j|] eqn:Hj; [|done].
  pose proof (Ht k q p j Hk Hp Hj) as Hj'. cbn in Hs. unfold core_of in Hs. simplify_eq. lia.
Qed.

(** ** The loop *)
Lemma issue_loop_greedy n nt ds w fuel : ∀ total o c pre suf B,
  Forall (FUPool.desc_ok n) ds → wf n (insts c) o → core_ok n nt ds c → threads_ok nt (insts c) (readyInsts o) →
  listOrder o = pre ++ suf → passed pre B → (left_from B 0 (readyInsts o) < fuel)%nat →
  ∃ o' c' tr, issue_loop fuel w total (begin_it suf) o c = Ok (total + vlen tr, o', c') ∧ wf n (insts c') o' ∧
    core_ok n nt ds c' ∧ threads_ok nt (insts c') (readyInsts o') ∧
    greedy w total B (readyInsts o) c tr (readyInsts o') c'.
Proof.
  induction fuel as [|fuel IH]; intros total o c pre suf B Hd Hw Hc Ht E HB Hf; [lia|]. cbn [issue_loop].
  destruct suf as [|[id e] post]; cbn [begin_it fst].
  { exists o, c, []. unfold vlen. simpl. rewrite Z.add_0_r. split_and!; try done. apply greedy_empty.
    intros k p q Hcand. destruct (candidate_node n (insts c) o B k p q Hw Hcand) as (id & Hin). rewrite E, app_nil_r in Hin.
    destruct Hcand as [HnB _]. apply HnB, HB. eexists. split; [exact Hin|]. done. }
  destruct (Z.ltb_spec total w) as [Hlt|Hge]; cbn [negb].
  2: { exists o, c, []. unfold vlen. simpl. rewrite Z.add_0_r. split_and!; try done. by apply greedy_width. }
  destruct (head_oldest n (insts c) o pre id e post B Hw E HB) as (p & q & i & Hold & Hi & Hsn & Hk).
  pose proof Hold as [[HnB Hq] _]. set (k := Z.to_nat (queueType e)) in *.
  assert (Hids : id ∉ pre.*1).
  { assert (Hnd : NoDup (pre ++ (id, e) :: post).*1) by (rewrite <-E; apply Hw). rewrite fmap_app in Hnd. simpl in Hnd.
    rewrite <-Permutation_middle in Hnd. apply NoDup_cons in Hnd as [Hid _]. set_solver. }
  rewrite E, from_node_spec by done. rewrite (vget_in _ _ _ (proj1 Hk) Hq). cbn [mbind res_bind assert_ top]. unfold deref. rewrite Hi.
  cbn [mbind res_bind]. rewrite (proj2 (Z.eqb_eq _ _)) by done. cbn [mbind res_bind assert_]. change (drop 1 (p :: q)) with q.
  destruct (Squashed i) eqn:Hsq.
  - destruct (pop_class_wf n (insts c) o pre id e post p q Hw E Hq) as (o1 & post' & -> & Hw1 & E1 & Hr1). cbn [mbind res_bind].
    fold k in Hr1. destruct (IH total o1 c pre post' B Hd Hw1 Hc) as (o' & c' & tr & Hrun & H1 & H2 & H3 & Hg).
    + rewrite Hr1. by eapply threads_pop.
    + done.
    + done.
    + rewrite Hr1. rewrite (left_from_pop B 0 _ k p q Hq) in Hf by done. lia.
    + exists o', c', tr. split_and!; try done. eapply greedy_squashed; try done. by rewrite <-Hr1.
  - destruct (issue_ok n nt ds c p i (queueType e) Hd Hc Hi Hk) as (b & c1 & Hiss & Hc1 & Hsame & _ & _).
    { eapply Ht; [exact Hq|by left|done]. }
    assert (Hiss' : issue c p i (Z.of_nat k) = Ok (b, c1)) by (unfold k; by rewrite Z2Nat.id by lia).
    rewrite Hiss. cbn [mbind res_bind]. pose proof (wf_same _ _ _ _ Hsame Hw) as Hw1.
    pose proof (threads_same _ _ _ _ Hsame Ht) as Ht1. destruct b.
    + destruct (pop_class_wf n (insts c1) o pre id e post p q Hw1 E Hq) as (o1 & post' & -> & Hw2 & E1 & Hr1). cbn [mbind res_bind].
      fold k in Hr1. destruct (IH (total + 1) o1 c1 pre post' B Hd Hw2 Hc1) as (o' & c' & tr & Hrun & H1 & H2 & H3 & Hg).
      * rewrite Hr1. by eapply threads_pop.
      * done.
      * done.
      * rewrite Hr1. rewrite (left_from_pop B 0 _ k p q Hq) in Hf by done. lia.
      * exists o', c', (p :: tr). split_and!; try done.
        -- assert (total + 1 + vlen tr = total + vlen (p :: tr)) as <- by (unfold vlen; simpl; lia). exact Hrun.
        -- eapply greedy_issue; try done. by rewrite <-Hr1.
    + rewrite next_it_spec by done. destruct (IH total o c1 (pre ++ [(id, e)]) post (k :: B) Hd Hw1 Hc1 Ht1) as (o' & c' & tr & Hrun & H1 & H2 & H3 & Hg).
      * by rewrite <-app_assoc.
      * intros d. rewrite elem_of_cons, (HB d). split.
        -- intros [->|(x & Hx & Hxt)]; [exists (id, e); split; [set_solver|simpl; lia]|]. exists x. split; [set_solver|done].
        -- intros (x & Hx & Hxt). apply elem_of_app in Hx as [Hx| ->%list_elem_of_singleton]; [right; by exists x|left; simpl in Hxt; lia].
      * pose proof (left_from_block B 0 (readyInsts o) k p q Hq HnB). simpl in *. lia.
      * exists o', c', tr. split_and!; try done. by eapply greedy_busy.
Qed.

(** ** What the greedy choice gives *)
Record queues_ok (nt : nat) (m : gmap positive DynInst) (qs : list (list positive)) : Prop := {
  qo_sorted : ∀ k q, qs !! k = Some q → StronglySorted (λ p p', age m p < age m p') q;
  qo_distinct : ∀ k k' q q' p p', k ≠ k' → qs !! k = Some q → qs !! k' = Some q' → p ∈ q → p' ∈ q' → age m p ≠ age m p';
  qo_threads : threads_ok nt m qs
}.

Lemma queues_pop nt m qs k p q : queues_ok nt m qs → qs !! k = Some (p :: q) → queues_ok nt m (<[k := q]> qs).
Proof.
  intros [H1 H2 H3] Hk. assert (Hsub : ∀ d x, <[k := q]> qs !! d = Some x → ∃ y, qs !! d = Some y ∧ ∀ z, z ∈ x → z ∈ y).
  { intros d x Hd. destruct (decide (d = k)) as [->|Hne].
    - rewrite list_lookup_insert_eq in Hd by (by eapply lookup_lt_Some). simplify_eq. eexists. split; [exact Hk|]. set_solver.
    - rewrite list_lookup_insert_ne in Hd by done. by exists x. }
  split.
  - intros d x Hd. destruct (decide (d = k)) as [->|Hne].
    + rewrite list_lookup_insert_eq in Hd by (by eapply lookup_lt_Some). simplify_eq. specialize (H1 k _ Hk).
      by apply StronglySorted_inv in H1 as [? _].
    + rewrite list_lookup_insert_ne in Hd by done. by apply (H1 d).
  - intros d d' x x' y y' Hne Hd Hd' Hy Hy'. destruct (Hsub d x Hd) as (z & Hz & Hzs), (Hsub d' x' Hd') as (z' & Hz' & Hzs').
    eapply (H2 d d'); [done|done|done|auto|auto].
  - by eapply threads_pop.
Qed.

Lemma queues_same nt m m' qs : same m m' → queues_ok nt m qs → queues_ok nt m' qs.
Proof.
  intros Hs [H1 H2 H3]. split.
  - intros k q Hk. specialize (H1 k q Hk). clear -H1 Hs. induction H1 as [|p q Hq IH HF]; constructor; [done|].
    eapply Forall_impl; [exact HF|]. simpl. intros p'. by rewrite !(same_age m m').
  - intros k k' q q' p p'. rewrite !(same_age m m') by done. apply H2.
  - by eapply threads_same.
Qed.

Lemma wf_queues_ok n nt m o : wf n m o → threads_ok nt m (readyInsts o) → queues_ok nt m (readyInsts o).
Proof.
  intros [_ H2 H3 H4 _ _ _ _] Ht. split; [done| |done]. intros k k' q q' p p' Hne Hk Hk' Hp Hp' Ha.
  assert (p = p') as -> by exact (H4 k k' q q' p p' Hk Hk' Hp Hp' Ha).
  destruct (H2 k q p' Hk Hp) as (i & ? & ?), (H2 k' q' p' Hk' Hp') as (i' & ? & ?). simplify_eq. lia.
Qed.

Lemma greedy_persists n nt ds w k B qs c tr qs' c' :
  Forall (FUPool.desc_ok n) ds → greedy w k B qs c tr qs' c' → core_ok n nt ds c → (length qs ≤ n)%nat → queues_ok nt (insts c) qs →
  same (insts c) (insts c') ∧
  (∀ x j, insts c !! x = Some j → Issued j = true → ∃ j', insts c' !! x = Some j' ∧ Issued j' = true) ∧
  (∀ x, x ∈ tr → ∃ j, insts c' !! x = Some j ∧ Issued j = true).
Proof.
  intros Hd Hg. induction Hg as [k B qs c Hw|k B qs c Hw|k B qs c d p q i tr qs' c' Hlt Hold Hi Hsq Hg IH
    |k B qs c d p q i c1 tr qs' c' Hlt Hold Hi Hsq Hiss Hg IH|k B qs c d p q i c1 tr qs' c' Hlt Hold Hi Hsq Hiss Hg IH];
    intros Hc Hl Hq; try (split_and!; [done|by eauto|by intros ? ?%elem_of_nil]);
    pose proof Hold as [[HnB Hdq] _]; pose proof (lookup_lt_Some _ _ _ Hdq) as Hdl.
  - apply IH; [done|by rewrite length_insert|by eapply queues_pop].
  - destruct (issue_ok n nt ds c p i (Z.of_nat d) Hd Hc Hi) as (b & c2 & E & Hc2 & Hs & Hp & Hm); [lia|eapply Hq; [done|by left|done]|].
    rewrite Hiss in E. simplify_eq. destruct IH as (H1 & H2 & H3); [done|by rewrite length_insert|eapply queues_same; [done|by eapply queues_pop]|].
    split_and!.
    + intros x. by rewrite Hs.
    + intros x j Hx Hj. destruct (Hp x j Hx Hj) as (j' & ? & ?). by eapply H2.
    + intros x [->|Hx]%elem_of_cons; [|by apply H3]. destruct (Hm eq_refl) as (j & ? & ?). by eapply H2.
  - destruct (issue_ok n nt ds c p i (Z.of_nat d) Hd Hc Hi) as (b & c2 & E & Hc2 & Hs & Hp & Hm); [lia|eapply Hq; [done|by left|done]|].
    rewrite Hiss in E. simplify_eq. destruct IH as (H1 & H2 & H3); [done|done|by eapply queues_same|].
    split_and!; [intros x; by rewrite Hs| |done]. intros x j Hx Hj. destruct (Hp x j Hx Hj) as (j' & ? & ?). by eapply H2.
Qed.

(** What is issued was ready, and comes in the order of age. *)
Lemma greedy_in_order n nt ds w k B qs c tr qs' c' :
  Forall (FUPool.desc_ok n) ds → greedy w k B qs c tr qs' c' → core_ok n nt ds c → (length qs ≤ n)%nat → queues_ok nt (insts c) qs →
  StronglySorted (λ p p', age (insts c) p < age (insts c) p') tr ∧ (tr = [] ∨ k + vlen tr ≤ w) ∧
  (∀ x, x ∈ tr → ∃ d q, d ∉ B ∧ qs !! d = Some q ∧ x ∈ q).
Proof.
  intros Hd Hg. induction Hg as [k B qs c Hw|k B qs c Hw|k B qs c d p q i tr qs' c' Hlt Hold Hi Hsq Hg IH
    |k B qs c d p q i c1 tr qs' c' Hlt Hold Hi Hsq Hiss Hg IH|k B qs c d p q i c1 tr qs' c' Hlt Hold Hi Hsq Hiss Hg IH];
    intros Hc Hl Hq; try (split_and!; [constructor|by left|by intros ? ?%elem_of_nil]);
    pose proof Hold as [[HnB Hdq] Hmin]; pose proof (lookup_lt_Some _ _ _ Hdq) as Hdl.
  - destruct IH as (H1 & H2 & H3); [done|by rewrite length_insert|by eapply queues_pop|]. split_and!; [done|done|].
    intros x Hx. destruct (H3 x Hx) as (e & r & HB & He & Hr). destruct (decide (e = d)) as [->|Hne].
    + rewrite list_lookup_insert_eq in He by done. simplify_eq. exists d, (p :: r). split_and!; [done|done|by right].
    + rewrite list_lookup_insert_ne in He by done. by exists e, r.
  - destruct (issue_ok n nt ds c p i (Z.of_nat d) Hd Hc Hi) as (b & c2 & E & Hc2 & Hs & _ & _); [lia|eapply Hq; [done|by left|done]|].
    rewrite Hiss in E. simplify_eq.
    destruct IH as (H1 & H2 & H3); [done|by rewrite length_insert|eapply queues_same; [done|by eapply queues_pop]|].
    assert (Hsub : ∀ x, x ∈ tr → ∃ e r, e ∉ B ∧ qs !! e = Some r ∧ x ∈ r ∧ age (insts c) p < age (insts c) x).
    { intros x Hx. destruct (H3 x Hx) as (e & r & HB & He & Hr). destruct (decide (e = d)) as [->|Hne].
      - rewrite list_lookup_insert_eq in He by done. simplify_eq. exists d, (p :: r). split_and!; [done|done|by right|].
        pose proof (qo_sorted _ _ _ Hq d _ Hdq) as Hso. apply StronglySorted_inv in Hso as [_ HF]. rewrite Forall_forall in HF. by apply HF.
      - rewrite list_lookup_insert_ne in He by done. exists e, r. split_and!; [done|done|done|].
        destruct r as [|h r]; [by apply elem_of_nil in Hr|]. specialize (Hmin e h r (conj HB He)).
        pose proof (qo_distinct _ _ _ Hq d e _ _ p x ltac:(done) Hdq He ltac:(by left) Hr).
        pose proof (qo_sorted _ _ _ Hq e _ He) as Hso. apply StronglySorted_inv in Hso as [_ HF]. rewrite Forall_forall in HF.
        apply elem_of_cons in Hr as [->|Hr]; [lia|]. specialize (HF x Hr). lia. }
    split_and!.
    + constructor; [|apply Forall_forall; intros x Hx; by destruct (Hsub x Hx) as (? & ? & _ & _ & _ & ?)].
      clear -H1 Hs. induction H1 as [|y l Hl IH HF]; constructor; [done|]. eapply Forall_impl; [exact HF|]. simpl. intros z.
      by rewrite !(same_age (insts c) (insts c2)).
    + right. unfold vlen in *. simpl. destruct H2 as [->|H2]; [simpl; lia|lia].
    + intros x [->|Hx]%elem_of_cons; [exists d, (p :: q); split_and!; [done|done|by left]|].
      destruct (Hsub x Hx) as (e & r & ? & ? & ? & _). by exists e, r.
  - destruct (issue_ok n nt ds c p i (Z.of_nat d) Hd Hc Hi) as (b & c2 & E & Hc2 & Hs & _ & _); [lia|eapply Hq; [done|by left|done]|].
    rewrite Hiss in E. simplify_eq. destruct IH as (H1 & H2 & H3); [done|done|by eapply queues_same|]. split_and!; [|done|].
    + clear -H1 Hs. induction H1 as [|y l Hl IH HF]; constructor; [done|]. eapply Forall_impl; [exact HF|]. simpl. intros z.
      by rewrite !(same_age (insts c) (insts c2)).
    + intros x Hx. destruct (H3 x Hx) as (e & r & HB & He & Hr). exists e, r. set_solver.
Qed.

(** ** Sessions *)
(** An instruction becomes ready, is squashed, a cycle issues, the units to be freed are
    freed at its end, an operation of several cycles completes (the [j]-th of those
    outstanding, whichever is due), an instruction is taken to be executed. *)
Inductive op :=
| Enter (p : positive) | Kill (p : positive) | Cycle (mem_insts : list positive) | EndCycle
| Completion (j : nat) | Execute.

Definition setSquashed (i : DynInst) : DynInst :=
  mkInst (seqNum i) (threadNumber i) (opClass i) (MemRef i) true (Issued i) (IqEntry i).

Definition with_insts (c : core) m : core :=
  mkCore m (fuPool c) (instsToExecute c) (i2e_size c) (wbOutstanding c) (completions c) (freeEntries c) (count c) (mem_issued c).

Definition with_completions (c : core) fs : core :=
  mkCore (insts c) (fuPool c) (instsToExecute c) (i2e_size c) (wbOutstanding c) fs (freeEntries c) (count c) (mem_issued c).

(** The [j]-th outstanding event happens: it leaves the event queue and is processed. *)
Definition complete (c : core) (j : nat) : res core :=
  match completions c !! j with
  | Some f => FUCompletion_process (with_completions c (delete j (completions c))) f
  | None => Err BadPointer
  end.

Definition step (w : Z) (s : order * core) (x : op) : res (order * core) :=
  let '(o, c) := s in
  match x with
  | Enter p => o ← addReady (insts c) o p; Ok (o, c)
  | Kill p => i ← deref (insts c) p; Ok (o, with_insts c (<[p := setSquashed i]> (insts c)))
  | Cycle mem_insts => '(_, o, c) ← scheduleReadyInsts w mem_insts o c; Ok (o, c)
  | EndCycle => p ← FUPool.processFreeUnits (fuPool c); Ok (o, with_pool c p)
  | Completion j => c ← complete c j; Ok (o, c)
  | Execute => '(_, c) ← getInstToExecute c; Ok (o, c)
  end.

(** The instruction exists, its class and thread too, and no queue has one of its age. *)
Definition can_enter (n nt : nat) (c : core) (o : order) (p : positive) : bool :=
  match insts c !! p with
  | Some i =>
      (0 <=? opClass i) && (opClass i <? Z.of_nat n) && (0 <=? threadNumber i) && (threadNumber i <? Z.of_nat nt) &&
      forallb (λ q, forallb (λ x, negb (age (insts c) x =? age (insts c) p)) q) (readyInsts o)
  | None => false
  end.

Fixpoint can_enter_all (n nt : nat) (c : core) (o : order) (ps : list positive) : bool :=
  match ps with
  | [] => true
  | p :: ps => can_enter n nt c o p && match addReady (insts c) o p with Ok o => can_enter_all n nt c o ps | Err _ => true end
  end.

Definition legal_op (n nt : nat) (s : order * core) (x : op) : bool :=
  let '(o, c) := s in
  match x with
  | Enter p => can_enter n nt c o p
  | Kill p => bool_decide (is_Some (insts c !! p))
  | Cycle mem_insts => can_enter_all n nt c o mem_insts
  | EndCycle => true
  | Completion j => bool_decide (is_Some (completions c !! j))
  | Execute => negb (bool_decide (instsToExecute c = []))
  end.

Definition state_ok (n nt : nat) (ds : list FUPool.FUDesc) (s : order * core) : Prop :=
  wf n (insts (snd s)) (fst s) ∧ core_ok n nt ds (snd s) ∧ threads_ok nt (insts (snd s)) (readyInsts (fst s)).

Lemma can_enter_ok n nt c o p :
  can_enter n nt c o p = true → can_add n (insts c) o p ∧ ∀ i, insts c !! p = Some i → 0 ≤ threadNumber i < Z.of_nat nt.
Proof.
  unfold can_enter, can_add. destruct (insts c !! p) as [i|] eqn:Hi; [|done].
  intros [[[[H1%Z.leb_le H2%Z.ltb_lt]%andb_prop H3%Z.leb_le]%andb_prop H4%Z.ltb_lt]%andb_prop H5]%andb_prop.
  split; [|intros j [= <-]; lia]. exists i. split_and!; [done|done|done|]. intros k q x Hk Hx. rewrite forallb_forall in H5.
  specialize (H5 q ltac:(apply list_elem_of_In; by eapply list_elem_of_lookup_2)). rewrite forallb_forall in H5.
  specialize (H5 x ltac:(by apply list_elem_of_In)). apply negb_true_iff, Z.eqb_neq in H5. done.
Qed.

Lemma enter_ok n nt ds o c p :
  state_ok n nt ds (o, c) → can_enter n nt c o p = true → ∃ o', addReady (insts c) o p = Ok o' ∧ state_ok n nt ds (o', c).
Proof.
  intros (Hw & Hc & Ht) [Hadd Hth]%can_enter_ok. simpl in *.
  destruct (addReady_wf n (insts c) o p Hw Hadd) as (o' & i & q & -> & Hw' & Hi & Hq & q' & Hp & Hr).
  exists o'. split; [done|]. split_and!; simpl; try done. rewrite Hr. intros k x y j Hk Hy Hj.
  destruct (decide (k = Z.to_nat (opClass i))) as [->|Hne].
  - rewrite list_lookup_insert_eq in Hk by (by eapply lookup_lt_Some). simplify_eq. rewrite Hp in Hy.
    apply elem_of_cons in Hy as [->|Hy]; [by apply Hth|by eapply Ht].
  - rewrite list_lookup_insert_ne in Hk by done. by eapply Ht.
Qed.

Lemma add_all_ok n nt ds c ps : ∀ o,
  state_ok n nt ds (o, c) → can_enter_all n nt c o ps = true → ∃ o', add_all (insts c) o ps = Ok o' ∧ state_ok n nt ds (o', c).
Proof.
  induction ps as [|p ps IH]; intros o Hs Hl; cbn [add_all can_enter_all] in *; [by exists o|].
  apply andb_prop in Hl as [Hp Hl]. destruct (enter_ok n nt ds o c p Hs Hp) as (o1 & E & Hs1). rewrite E in *. by apply IH.
Qed.

Lemma schedule_ok n nt ds w o c mem_insts :
  Forall (FUPool.desc_ok n) ds → state_ok n nt ds (o, c) → can_enter_all n nt c o mem_insts = true →
  ∃ o1 o' c' tr, add_all (insts c) o mem_insts = Ok o1 ∧ state_ok n nt ds (o1, c) ∧
    scheduleReadyInsts w mem_insts o c = Ok (vlen tr, o', c') ∧ state_ok n nt ds (o', c') ∧
    greedy w 0 [] (readyInsts o1) c tr (readyInsts o') c'.
Proof.
  intros Hd Hs Hl. destruct (add_all_ok n nt ds c mem_insts o Hs Hl) as (o1 & E & Hs1). pose proof Hs1 as (Hw & Hc & Ht). simpl in *.
  destruct (issue_loop_greedy n nt ds w (S (ready_count (readyInsts o1))) 0 o1 c [] (listOrder o1) [] Hd Hw Hc Ht)
    as (o' & c' & tr & Hrun & Hw' & Hc' & Ht' & Hg); [done| |rewrite left_from_ready; lia|].
  { intros k. split; [by intros ?%elem_of_nil|]. by intros (e & ?%elem_of_nil & _). }
  exists o1, o', c', tr. unfold scheduleReadyInsts. rewrite E. cbn [mbind res_bind]. by split_and!.
Qed.

(** Freeing the units to be freed leaves the others busy. *)
Lemma end_cycle_held n ds p p' hs :
  FUPool.pool_ok n ds p → FUPool.processFreeUnits p = Ok p' → held_ok p hs → held_ok p' hs.
Proof.
  intros Hp E [Hnd Hh]. destruct (FUPool.processFreeUnits_ok n ds p Hp) as (q & E' & _ & Hf & Hb). rewrite E in E'. injection E' as <-.
  split; [done|]. rewrite Forall_forall in Hh |- *. intros u Hu. destruct (Hh u Hu) as (H0 & Hbz & Hn).
  rewrite (Hb u H0), decide_False, Hf by done. split_and!; [done|done|]. apply not_elem_of_nil.
Qed.

(** A completion frees its unit if it is to, and only that one. *)
Lemma complete_ok n nt ds c j :
  core_ok n nt ds c → is_Some (completions c !! j) →
  ∃ c', complete c j = Ok c' ∧ core_ok n nt ds c' ∧ insts c' = insts c.
Proof.
  intros [Hp Hn Hh] [f Hf]. unfold complete. rewrite Hf.
  assert (held_units (completions c) ≡ₚ (if freeFU f then [fuIdx f] else []) ++ held_units (delete j (completions c))) as Hperm.
  { unfold held_units. rewrite (delete_Permutation _ _ _ Hf) at 1. rewrite filter_cons. by destruct (freeFU f). }
  apply (held_ok_perm _ _ _ Hperm) in Hh. unfold FUCompletion_process, processFUCompletion. destruct (freeFU f).
  - destruct Hh as [[Hnot Hnd]%NoDup_cons [(H0 & Hb & Hnf) Hall]%Forall_cons].
    rewrite (proj2 (Z.ltb_lt (-1) (fuIdx f))) by lia.
    destruct (FUPool.freeUnitNextCycle_ok n ds (fuPool c) (fuIdx f) Hp H0 Hb Hnf) as (p2 & E & Hp2 & Eb & Ef).
    cbn [with_completions fuPool]. rewrite E. cbn [mbind res_bind]. eexists. split; [done|]. split; [|done].
    split; simpl; [done|done|]. split; [done|]. rewrite Eb, Ef. rewrite Forall_forall in Hall |- *. intros u Hu.
    destruct (Hall u Hu) as (? & ? & ?). split_and!; [done|done|]. rewrite elem_of_app, list_elem_of_singleton. intros [?| ->]; done.
  - simpl. eexists. split; [done|]. split; [|done]. by split.
Qed.

Lemma iq_step_ok n nt ds w s x :
  Forall (FUPool.desc_ok n) ds → state_ok n nt ds s → legal_op n nt s x = true → ∃ s', step w s x = Ok s' ∧ state_ok n nt ds s'.
Proof.
  intros Hd Hs. destruct s as [o c]. destruct x as [p|p|mem_insts| |j|]; cbn [legal_op step].
  - intros Hl. destruct (enter_ok n nt ds o c p Hs Hl) as (o' & -> & Hs'). by exists (o', c).
  - intros [i Hi]%bool_decide_eq_true. unfold deref. rewrite Hi. cbn [mbind res_bind]. eexists. split; [done|].
    destruct Hs as (Hw & [Hp Hn Hh] & Ht). simpl in *.
    assert (Hsame : same (insts c) (<[p := setSquashed i]> (insts c))).
    { intros x. destruct (decide (p = x)) as [<-|]; [by rewrite lookup_insert_eq, Hi|by rewrite lookup_insert_ne]. }
    split_and!; simpl; [by eapply wf_same|by split|by eapply threads_same].
  - intros Hl. destruct (schedule_ok n nt ds w o c mem_insts Hd Hs Hl) as (o1 & o' & c' & tr & _ & _ & -> & Hs' & _). by exists (o', c').
  - intros _. destruct Hs as (Hw & [Hp Hn Hh] & Ht). simpl in *.
    destruct (FUPool.processFreeUnits_ok n ds (fuPool c) Hp) as (pool & E & Hp' & _). pose proof (end_cycle_held _ _ _ _ _ Hp E Hh).
    rewrite E. cbn [mbind res_bind]. eexists. split; [done|]. by split_and!.
  - intros Hj%bool_decide_eq_true. destruct Hs as (Hw & Hc & Ht). simpl in *.
    destruct (complete_ok n nt ds c j Hc Hj) as (c' & -> & Hc' & Hi). cbn [mbind res_bind]. eexists. split; [done|].
    unfold state_ok. simpl. by rewrite Hi.
  - intros He. destruct Hs as (Hw & [Hp Hn Hh] & Ht). unfold getInstToExecute. simpl in *.
    destruct (instsToExecute c); [done|]. cbn [mbind res_bind]. eexists. split; [done|]. by split_and!.
Qed.

Fixpoint run (w : Z) (s : order * core) (xs : list op) : res (order * core) :=
  match xs with [] => Ok s | x :: xs => s ← step w s x; run w s xs end.

Fixpoint legal (n nt : nat) (w : Z) (s : order * core) (xs : list op) : bool :=
  match xs with
  | [] => true
  | x :: xs => legal_op n nt s x && match step w s x with Ok s => legal n nt w s xs | Err _ => true end
  end.

(** An empty queue of [entries] entries over a new pool of units. *)
Definition start (n nt : nat) (entries : Z) (m : gmap positive DynInst) (ds : list FUPool.FUDesc) : res (order * core) :=
  p ← FUPool.create n ds; Ok (order_new n, mkCore m p [] 0 0 [] entries (replicate nt 0) []).

Lemma iq_run_ok n nt ds w xs : ∀ s,
  Forall (FUPool.desc_ok n) ds → state_ok n nt ds s → legal n nt w s xs = true → ∃ s', run w s xs = Ok s' ∧ state_ok n nt ds s'.
Proof.
  induction xs as [|x xs IH]; intros s Hd Hs Hl; cbn [run legal] in *; [by exists s|].
  apply andb_prop in Hl as [Hx Hl]. destruct (iq_step_ok n nt ds w s x Hd Hs Hx) as (s1 & E & Hs1). rewrite E in *. by apply IH.
Qed.

Definition play (n nt : nat) (w entries : Z) (m : gmap positive DynInst) (ds : list FUPool.FUDesc) (xs : list op) : res (order * core) :=
  s ← start n nt entries m ds; run w s xs.
Definition session (n nt : nat) (w entries : Z) (m : gmap positive DynInst) (ds : list FUPool.FUDesc) (xs : list op) : bool :=
  match start n nt entries m ds with Ok s => legal n nt w s xs | Err _ => true end.

Lemma iq_play_ok n nt w entries m ds xs :
  Forall (FUPool.desc_ok n) ds → session n nt w entries m ds xs = true →
  ∃ s, play n nt w entries m ds xs = Ok s ∧ state_ok n nt ds s.
Proof.
  intros Hd Hs. unfold session, play, start in *. destruct (FUPool.create_ok n ds Hd) as (p & E & Hp). rewrite E in *. cbn [mbind res_bind] in *.
  apply iq_run_ok; [done| |done]. split_and!; simpl; [apply order_new_wf| |].
  - split; simpl; [done|by rewrite length_replicate|]. split; [apply NoDup_nil_2|constructor].
  - intros k q x i [-> _]%lookup_replicate ?%elem_of_nil. done.
Qed.

(** C22: the instruction queue issues greedily, oldest first.  Take any sequence of
    instructions becoming ready, squashes, issue cycles, ends of cycles, completions of
    operations of several cycles in any order, which free the units that are not
    pipelined, and instructions taken to execute; the instructions that become ready
    exist, have a class and a thread of the machine and an age that no queued
    instruction has.  No operation fails an assertion, those on the units included, and
    an issue cycle then returns: its list of classes always points at the oldest ready
    instructions.  What it does is the greedy choice: again and again the oldest ready
    instruction among the classes not found busy in this cycle is dropped if squashed,
    issued if a unit is to be had, and otherwise its class waits for the next cycle;
    this goes on until the issue width is used up or nothing is left.  The instructions
    issued are in the order of age, no more than the width, and marked as issued. *)
Theorem iq_issues_oldest_first n nt w entries m ds xs :
  Forall (FUPool.desc_ok n) ds → 0 ≤ w → session n nt w entries m ds xs = true →
  ∃ o c, play n nt w entries m ds xs = Ok (o, c) ∧
    ∀ mem_insts, can_enter_all n nt c o mem_insts = true →
    ∃ o1 o' c' tr, add_all (insts c) o mem_insts = Ok o1 ∧ scheduleReadyInsts w mem_insts o c = Ok (vlen tr, o', c') ∧
      greedy w 0 [] (readyInsts o1) c tr (readyInsts o') c' ∧
      StronglySorted (λ p p', age (insts c) p < age (insts c) p') tr ∧ vlen tr ≤ w ∧
      ∀ p, p ∈ tr → ∃ i, insts c' !! p = Some i ∧ Issued i = true.
Proof.
  intros Hd Hw Hs. destruct (iq_play_ok n nt w entries m ds xs Hd Hs) as ([o c] & E & Hst). exists o, c. split; [done|]. intros mem_insts Hmem.
  destruct (schedule_ok n nt ds w o c mem_insts Hd Hst Hmem) as (o1 & o' & c' & tr & H1 & (Hw1 & Hc1 & Ht1) & H2 & _ & Hg). simpl in *.
  pose proof (wf_queues_ok n nt _ _ Hw1 Ht1) as Hq. assert (Hl : (length (readyInsts o1) ≤ n)%nat) by (destruct (wf_len _ _ _ Hw1) as [-> _]; done).
  destruct (greedy_in_order n nt ds w 0 [] _ c tr _ c' Hd Hg Hc1 Hl Hq) as (H3 & H4 & _).
  destruct (greedy_persists n nt ds w 0 [] _ c tr _ c' Hd Hg Hc1 Hl Hq) as (_ & _ & H5).
  exists o1, o', c', tr. split_and!; try done. destruct H4 as [->|H4]; [done|lia].
Qed.

(** Four ready instructions, of classes 1, 2, 1 and 1, over the units of [FUPool.demo]. *)
Definition demo_insts : gmap positive DynInst :=
  {[ 1%positive := mkInst 14 0 1 false false false true; 2%positive := mkInst 11 0 2 false false false true;
     3%positive := mkInst 12 1 1 false false false true; 4%positive := mkInst 13 1 1 false false false true ]}.

(** A cycle, the completion of its long operation, and the ends of both cycles. *)
Definition demo_session : list op :=
  [Enter 1; Enter 2; Enter 3; Kill 3; Enter 4; Cycle []; EndCycle; Execute; Completion 0; EndCycle].

Lemma iq_issues_oldest_first_witness :
  ∃ o c, play 3 2 2 8 demo_insts FUPool.demo demo_session = Ok (o, c) ∧
    ∃ o' c' (tr : list positive), scheduleReadyInsts 2 [] o c = Ok (vlen tr, o', c') ∧ vlen tr = 1.
Proof.
  destruct (iq_issues_oldest_first 3 2 2 8 demo_insts FUPool.demo demo_session
    FUPool.demo_ok ltac:(lia) ltac:(vm_compute; reflexivity)) as (o & c & H1 & H2).
  exists o, c. split; [exact H1|]. destruct (H2 [] eq_refl) as (o1 & o' & c' & tr & _ & H3 & _).
  exists o', c', tr. split; [exact H3|].
  vm_compute in H1. injection H1 as <- <-. vm_compute in H3. injection H3 as H3 _ _. symmetry. exact H3.
Defined.

(** There: class 2 has no unit and issues at once, the squashed instruction is dropped,
    and the one unit of class 1 goes to the older of the two that are left. *)
Lemma demo_cycle :
  match play 3 2 2 8 demo_insts FUPool.demo [Enter 1; Enter 2; Enter 3; Kill 3; Enter 4; Cycle []] with
  | Ok (o, c) => instsToExecute c = [2%positive] ∧ fc_inst <$> completions c = [4%positive] ∧ readyInsts o = [[]; [1%positive]; []]
  | Err _ => False
  end.
Proof. vm_compute. done. Qed.

(** Without the completion the unit stays busy and the next cycle issues nothing. *)
Lemma demo_unit_busy :
  match play 3 2 2 8 demo_insts FUPool.demo [Enter 1; Enter 2; Enter 3; Kill 3; Enter 4; Cycle []; EndCycle; Cycle []] with
  | Ok (o, c) => readyInsts o = [[]; [1%positive]; []]
  | Err _ => False
  end.
Proof. vm_compute. done. Qed.
End IQSpec.
