(* ===== verification/Wakeup.v ===== *)
(** * Waiting and waking in the instruction queue

    How instructions enter the queue, wait for their source registers, become ready,
    complete, commit and are squashed: [insert], [insertNonSpec], [insertBarrier],
    [scheduleNonSpec], [wakeDependents], [completeMemInst], [commit] and [squash] of
    [cpu/o3/inst_queue_impl.hh], with the dependency graph and the queue's own
    scoreboard.  Instructions are on a store and shared by their address.  What the queue
    hands on, to its ready queues (module [IQ]) or to the memory dependence unit, is
    recorded in [calls], in order.  Statistics are left out. *)

From S2P Require Import Prelude DepGraph.

Module Wakeup.

(** A physical register: its flat index, and whether its mapping is fixed. *)
Record reg := mkReg { flatIndex : Z; isFixedMapping : bool }.

Global Instance reg_eq_dec : EqDecision reg.
Proof. solve_decision. Defined.

(** The flags of the static instruction. *)
Record StaticInst := mkStatic {
  isMemRef : bool; isLoad : bool; isStore : bool; isStoreConditional : bool;
  isNonSpeculative : bool; isMemBarrier : bool; isWriteBarrier : bool
}.

(** The bits of [status] and [instFlags] that are read or written here; [Fault] tells that
    [getFault()] is not [NoFault]. *)
Record Status := mkStatus {
  CanIssue : bool; Issued : bool; Completed : bool; CanCommit : bool; AtCommit : bool; Squashed : bool;
  IqEntry : bool; SquashedInIQ : bool; MemOpDone : bool; Fault : bool
}.

Record DynInst := mkInst {
  staticInst : StaticInst; seqNum : Z; threadNumber : Z; srcRegs : list reg; destRegs : list reg;
  readySrcRegIdx : list bool; readyRegs : Z; status : Status
}.

Definition numSrcRegs (i : DynInst) : Z := vlen (srcRegs i).

Definition with_status (i : DynInst) (b : Status) : DynInst :=
  mkInst (staticInst i) (seqNum i) (threadNumber i) (srcRegs i) (destRegs i) (readySrcRegIdx i) (readyRegs i) b.
Definition with_sources (i : DynInst) (l : list bool) (n : Z) : DynInst :=
  mkInst (staticInst i) (seqNum i) (threadNumber i) (srcRegs i) (destRegs i) l n (status i).

Definition setCanIssue (i : DynInst) : DynInst :=
  let b := status i in
  with_status i (mkStatus true (Issued b) (Completed b) (CanCommit b) (AtCommit b) (Squashed b) (IqEntry b) (SquashedInIQ b) (MemOpDone b) (Fault b)).
Definition setIssued (i : DynInst) : DynInst :=
  let b := status i in
  with_status i (mkStatus (CanIssue b) true (Completed b) (CanCommit b) (AtCommit b) (Squashed b) (IqEntry b) (SquashedInIQ b) (MemOpDone b) (Fault b)).
Definition setCanCommit (i : DynInst) : DynInst :=
  let b := status i in
  with_status i (mkStatus (CanIssue b) (Issued b) (Completed b) true (AtCommit b) (Squashed b) (IqEntry b) (SquashedInIQ b) (MemOpDone b) (Fault b)).
Definition setAtCommit (i : DynInst) : DynInst :=
  let b := status i in
  with_status i (mkStatus (CanIssue b) (Issued b) (Completed b) (CanCommit b) true (Squashed b) (IqEntry b) (SquashedInIQ b) (MemOpDone b) (Fault b)).
Definition setInIQ (i : DynInst) : DynInst :=
  let b := status i in
  with_status i (mkStatus (CanIssue b) (Issued b) (Completed b) (CanCommit b) (AtCommit b) (Squashed b) true (SquashedInIQ b) (MemOpDone b) (Fault b)).
Definition clearInIQ (i : DynInst) : DynInst :=
  let b := status i in
  with_status i (mkStatus (CanIssue b) (Issued b) (Completed b) (CanCommit b) (AtCommit b) (Squashed b) false (SquashedInIQ b) (MemOpDone b) (Fault b)).
Definition setSquashedInIQ (i : DynInst) : DynInst :=
  let b := status i in
  with_status i (mkStatus (CanIssue b) (Issued b) (Completed b) (CanCommit b) (AtCommit b) true (IqEntry b) true (MemOpDone b) (Fault b)).
Definition memOpDone (i : DynInst) (f : bool) : DynInst :=
  let b := status i in
  with_status i (mkStatus (CanIssue b) (Issued b) (Completed b) (CanCommit b) (AtCommit b) (Squashed b) (IqEntry b) (SquashedInIQ b) f (Fault b)).

Definition readyToIssue (i : DynInst) : bool := CanIssue (status i).

Definition markSrcRegReady (i : DynInst) : DynInst :=
  let k := u8 (readyRegs i + 1) in
  let i := with_sources i (readySrcRegIdx i) k in
  if k =? numSrcRegs i then setCanIssue i else i.

Definition markSrcRegReady_idx (i : DynInst) (src_idx : Z) : res DynInst :=
  b ← vset (readySrcRegIdx i) src_idx true;
  Ok (markSrcRegReady (with_sources i b (readyRegs i))).

(** What the queue asks of its ready queues and of the memory dependence unit of the
    instruction's thread.  The unit's [insert] reads whether the registers are ready. *)
Inductive call :=
| ReadyPush (x : positive)
| MemInsert (x : positive) (ready : bool) | MemInsertNonSpec (x : positive) | MemInsertBarrier (x : positive)
| MemRegsReady (x : positive) | MemNonSpecReady (x : positive)
| MemWake (x : positive) | MemCompleted (x : positive) | MemCompleteBarrier (x : positive)
| MemSquash (squashed_num tid : Z).

Record t := mkState {
  dependGraph : DependencyGraph.t; regScoreboard : list bool; insts : gmap positive DynInst;
  instList : list (list positive); nonSpecInsts : gmap Z positive; count : list Z; freeEntries : Z; numEntries : Z;
  squashedSeqNum : list Z; calls : list call
}.

Definition deref (s : t) (p : positive) : res DynInst :=
  match insts s !! p with Some i => Ok i | None => Err BadPointer end.

Definition with_graph (s : t) g : t :=
  mkState g (regScoreboard s) (insts s) (instList s) (nonSpecInsts s) (count s) (freeEntries s) (numEntries s) (squashedSeqNum s) (calls s).
Definition with_board (s : t) b : t :=
  mkState (dependGraph s) b (insts s) (instList s) (nonSpecInsts s) (count s) (freeEntries s) (numEntries s) (squashedSeqNum s) (calls s).
Definition with_inst (s : t) p i : t :=
  mkState (dependGraph s) (regScoreboard s) (<[p := i]> (insts s)) (instList s) (nonSpecInsts s) (count s) (freeEntries s) (numEntries s) (squashedSeqNum s) (calls s).
Definition with_list (s : t) l : t :=
  mkState (dependGraph s) (regScoreboard s) (insts s) l (nonSpecInsts s) (count s) (freeEntries s) (numEntries s) (squashedSeqNum s) (calls s).
Definition with_nonspec (s : t) m : t :=
  mkState (dependGraph s) (regScoreboard s) (insts s) (instList s) m (count s) (freeEntries s) (numEntries s) (squashedSeqNum s) (calls s).
Definition with_counts (s : t) c f : t :=
  mkState (dependGraph s) (regScoreboard s) (insts s) (instList s) (nonSpecInsts s) c f (numEntries s) (squashedSeqNum s) (calls s).
Definition with_squashed (s : t) l : t :=
  mkState (dependGraph s) (regScoreboard s) (insts s) (instList s) (nonSpecInsts s) (count s) (freeEntries s) (numEntries s) l (calls s).
Definition do_call (s : t) (c : call) : t :=
  mkState (dependGraph s) (regScoreboard s) (insts s) (instList s) (nonSpecInsts s) (count s) (freeEntries s) (numEntries s) (squashedSeqNum s) (calls s ++ [c]).

(** The queue as the constructor and [resetState] leave it. *)
Definition create (numThreads numPhysRegs numIQEntries : Z) (m : gmap positive DynInst) : t :=
  mkState (DependencyGraph.resize DependencyGraph.default numPhysRegs) (replicate (Z.to_nat numPhysRegs) false) m
    (replicate (Z.to_nat numThreads) []) ∅ (replicate (Z.to_nat numThreads) 0) numIQEntries numIQEntries
    (replicate (Z.to_nat numThreads) 0) [].

(** ** Dependences *)

(** The body of the loop over the source registers; the flag tells that the instruction
    was added to the graph. *)
Definition addSource (s : t) (new_inst : positive) (src_idx : Z) (return_val : bool) : res (t * bool) :=
  i ← deref s new_inst;
  r ← vget (readySrcRegIdx i) src_idx;
  if negb r then
    src_reg ← vget (srcRegs i) src_idx;
    if isFixedMapping src_reg then Ok (s, return_val)
    else
      b ← vget (regScoreboard s) (flatIndex src_reg);
      if negb b then
        g ← DependencyGraph.insert (dependGraph s) (flatIndex src_reg) new_inst;
        Ok (with_graph s g, true)
      else
        i ← markSrcRegReady_idx i src_idx;
        Ok (with_inst s new_inst i, return_val)
  else Ok (s, return_val).

Fixpoint addSources (s : t) (new_inst : positive) (src_idx : Z) (n : nat) (return_val : bool) : res (t * bool) :=
  match n with
  | O => Ok (s, return_val)
  | S n => '(s, return_val) ← addSource s new_inst src_idx return_val; addSources s new_inst (src_idx + 1) n return_val
  end.

Definition addToDependents (s : t) (new_inst : positive) : res (t * bool) :=
  i ← deref s new_inst; addSources s new_inst 0 (length (srcRegs i)) false.

Fixpoint addDests (s : t) (new_inst : positive) (rs : list reg) : res t :=
  match rs with
  | [] => Ok s
  | dest_reg :: rs =>
      s ← (if isFixedMapping dest_reg then Ok s
           else
             e ← DependencyGraph.empty_of (dependGraph s) (flatIndex dest_reg);
             if negb e then Err (Panic "Dependency graph not empty!")
             else
               g ← DependencyGraph.setInst (dependGraph s) (flatIndex dest_reg) new_inst;
               b ← vset (regScoreboard s) (flatIndex dest_reg) false;
               Ok (with_board (with_graph s g) b));
      addDests s new_inst rs
  end.

Definition addToProducers (s : t) (new_inst : positive) : res t :=
  i ← deref s new_inst; addDests s new_inst (destRegs i).

Definition addIfReady (s : t) (inst : positive) : res t :=
  i ← deref s inst;
  if readyToIssue i then
    if isMemRef (staticInst i) then Ok (do_call s (MemRegsReady inst)) else Ok (do_call s (ReadyPush inst))
  else Ok s.

(** ** Entering *)

(** [countInsts], whose result is converted to an unsigned value where it is used. *)
Definition countInsts (s : t) : Z := u32 (numEntries s - freeEntries s).

(** Both insertions begin and end alike. *)
Definition enter (s : t) (new_inst : positive) : res t :=
  i ← deref s new_inst;
  _ ← assert_ (negb (freeEntries s =? 0));
  l ← vget (instList s) (threadNumber i);
  ls ← vset (instList s) (threadNumber i) (l ++ [new_inst]);
  let s := with_counts (with_list s ls) (count s) (u32 (freeEntries s - 1)) in
  Ok (with_inst s new_inst (setInIQ i)).

Definition counted (s : t) (new_inst : positive) : res t :=
  i ← deref s new_inst;
  c ← vget (count s) (threadNumber i);
  cs ← vset (count s) (threadNumber i) (u32 (c + 1));
  let s := with_counts s cs (freeEntries s) in
  _ ← assert_ (freeEntries s =? u32 (numEntries s - countInsts s));
  Ok s.

Definition insert (s : t) (new_inst : positive) : res t :=
  s ← enter s new_inst;
  '(s, _) ← addToDependents s new_inst;
  s ← addToProducers s new_inst;
  i ← deref s new_inst;
  s ← (if isMemRef (staticInst i) then Ok (do_call s (MemInsert new_inst (readyToIssue i))) else addIfReady s new_inst);
  counted s new_inst.

Definition insertNonSpec (s : t) (new_inst : positive) : res t :=
  i ← deref s new_inst;
  let s := with_nonspec s (<[seqNum i := new_inst]> (nonSpecInsts s)) in
  s ← enter s new_inst;
  s ← addToProducers s new_inst;
  let s := if isMemRef (staticInst i) then do_call s (MemInsertNonSpec new_inst) else s in
  counted s new_inst.

Definition insertBarrier (s : t) (barr_inst : positive) : res t :=
  insertNonSpec (do_call s (MemInsertBarrier barr_inst)) barr_inst.

Definition scheduleNonSpec (s : t) (inst : Z) : res t :=
  match nonSpecInsts s !! inst with
  | None => Err AssertFail
  | Some x =>
      i ← deref s x;
      let i := setCanIssue (setAtCommit i) in
      let s := with_inst s x i in
      s ← (if negb (isMemRef (staticInst i)) then addIfReady s x else Ok (do_call s (MemNonSpecReady x)));
      Ok (with_nonspec s (delete inst (nonSpecInsts s)))
  end.

(** ** Completion *)
Definition completeMemInst (s : t) (completed_inst : positive) : res t :=
  i ← deref s completed_inst;
  let s := with_counts s (count s) (u32 (freeEntries s + 1)) in
  let s := do_call (with_inst s completed_inst (memOpDone i true)) (MemCompleted completed_inst) in
  c ← vget (count s) (threadNumber i);
  cs ← vset (count s) (threadNumber i) (u32 (c - 1));
  Ok (with_counts s cs (freeEntries s)).

(** The loop over the dependents of a register. *)
Fixpoint wake (fuel : nat) (s : t) (r : Z) (dependents : Z) : res (t * Z) :=
  match fuel with
  | O => Err Diverges
  | S fuel =>
      '(dep_inst, g) ← DependencyGraph.pop (dependGraph s) r;
      let s := with_graph s g in
      match dep_inst with
      | None => Ok (s, dependents)
      | Some p =>
          i ← deref s p;
          s ← addIfReady (with_inst s p (markSrcRegReady i)) p;
          wake fuel s r (dependents + 1)
      end
  end.

Fixpoint wakeDests (s : t) (rs : list reg) (dependents : Z) : res (t * Z) :=
  match rs with
  | [] => Ok (s, dependents)
  | dest_reg :: rs =>
      '(s, dependents) ←
        (if isFixedMapping dest_reg then Ok (s, dependents)
         else
           '(s, dependents) ← wake (S (size (cells (DependencyGraph.nodes (dependGraph s))))) s (flatIndex dest_reg) dependents;
           e ← DependencyGraph.empty_of (dependGraph s) (flatIndex dest_reg);
           _ ← assert_ e;
           g ← DependencyGraph.clearInst (dependGraph s) (flatIndex dest_reg);
           b ← vset (regScoreboard s) (flatIndex dest_reg) true;
           Ok (with_board (with_graph s g) b, dependents));
      wakeDests s rs dependents
  end.

Definition wakeDependents (s : t) (completed_inst : positive) : res (t * Z) :=
  i ← deref s completed_inst;
  _ ← assert_ (negb (Squashed (status i)));
  s ← (if isMemRef (staticInst i) then completeMemInst (do_call s (MemWake completed_inst)) completed_inst
       else if isMemBarrier (staticInst i) || isWriteBarrier (staticInst i) then Ok (do_call s (MemCompleteBarrier completed_inst))
       else Ok s);
  wakeDests s (destRegs i) 0.

(** ** Commit *)
Fixpoint pop_committed (s : t) (l : list positive) (inst : Z) : res (list positive) :=
  match l with
  | [] => Ok []
  | x :: l' => i ← deref s x; if seqNum i <=? inst then pop_committed s l' inst else Ok l
  end.

Definition commit (s : t) (inst tid : Z) : res t :=
  l ← vget (instList s) tid;
  l ← pop_committed s l inst;
  ls ← vset (instList s) tid l;
  let s := with_list s ls in
  _ ← assert_ (freeEntries s =? u32 (numEntries s - countInsts s));
  Ok s.

(** ** Squash *)

(** The loop over the source registers of a squashed instruction. *)
Fixpoint removeSources (s : t) (squashed_inst : positive) (src_idx : Z) (n : nat) : res t :=
  match n with
  | O => Ok s
  | S n =>
      i ← deref s squashed_inst;
      src_reg ← vget (srcRegs i) src_idx;
      r ← vget (readySrcRegIdx i) src_idx;
      s ← (if negb r && negb (isFixedMapping src_reg) then
             g ← DependencyGraph.remove (dependGraph s) (flatIndex src_reg) squashed_inst; Ok (with_graph s g)
           else Ok s);
      removeSources s squashed_inst (src_idx + 1) n
  end.

Definition is_acq_rel (f : StaticInst) : bool := isMemBarrier f && (isLoad f || isStore f && negb (isStoreConditional f)).

(** The instructions that [doSquash] takes to have been inserted by [insert]. *)
Definition speculative (f : StaticInst) : bool :=
  is_acq_rel f || negb (isNonSpeculative f) && negb (isStoreConditional f) && negb (isMemBarrier f) && negb (isWriteBarrier f).

(** An instruction that still has its entry when it is squashed. *)
Definition squash_one (s : t) (squashed_inst : positive) : res t :=
  i ← deref s squashed_inst;
  s ← (if speculative (staticInst i) then removeSources s squashed_inst 0 (length (srcRegs i))
       else if negb (isStoreConditional (staticInst i)) || negb (Completed (status i)) then
         match nonSpecInsts s !! seqNum i with
         | None => _ ← assert_ (Fault (status i) || isMemRef (staticInst i)); Ok s
         | Some _ => Ok (with_nonspec s (delete (seqNum i) (nonSpecInsts s)))
         end
       else Ok s);
  let s := with_inst s squashed_inst (clearInIQ (setCanCommit (setIssued (setSquashedInIQ i)))) in
  c ← vget (count s) (threadNumber i);
  cs ← vset (count s) (threadNumber i) (u32 (c - 1));
  Ok (with_counts s cs (u32 (freeEntries s + 1))).

Definition holds_entry (i : DynInst) : bool :=
  negb (Issued (status i)) || isMemRef (staticInst i) && negb (MemOpDone (status i)).

(** The loops of the alternative code of [countInsts], which is disabled: instructions
    that are marked squashed, here or elsewhere, do not count.  (The code tests
    [memOpDone] without calling it; the value is meant.) *)
Fixpoint brute_list (s : t) (l : list positive) (total_insts : Z) : res Z :=
  match l with
  | [] => Ok total_insts
  | x :: l =>
      i ← deref s x;
      let total_insts :=
        if negb (Squashed (status i)) && negb (SquashedInIQ (status i)) then
          if negb (Issued (status i)) then total_insts + 1
          else if isMemRef (staticInst i) && negb (MemOpDone (status i)) then total_insts + 1
          else total_insts
        else total_insts in
      brute_list s l total_insts
  end.

Fixpoint brute_lists (s : t) (ls : list (list positive)) (total_insts : Z) : res Z :=
  match ls with
  | [] => Ok total_insts
  | l :: ls => total_insts ← brute_list s l total_insts; brute_lists s ls total_insts
  end.

Definition brute_count (s : t) : res Z := brute_lists s (instList s) 0.

(** The loop of [doSquash] from the tail of the list, which is given youngest first; going
    back from the first element ends the loop.  Yields the instructions that stay. *)
Fixpoint squash_loop (s : t) (tid : Z) (seq : Z) (l : list positive) : res (t * list positive) :=
  match l with
  | [] => Ok (s, [])
  | x :: l' =>
      i ← deref s x;
      if seq <? seqNum i then
        if negb (threadNumber i =? tid) || SquashedInIQ (status i) then
          '(s, k) ← squash_loop s tid seq l'; Ok (s, x :: k)
        else
          s ← (if holds_entry i then squash_one s x else Ok s);
          squash_loop s tid seq l'
      else Ok (s, l)
  end.

Definition doSquash (s : t) (tid : Z) : res t :=
  seq ← vget (squashedSeqNum s) tid;
  l ← vget (instList s) tid;
  '(s, k) ← squash_loop s tid seq (rev l);
  ls ← vset (instList s) tid (rev k);
  Ok (with_list s ls).

Definition squash (s : t) (tid : Z) (doneSeqNum : Z) : res t :=
  q ← vset (squashedSeqNum s) tid doneSeqNum;
  s ← doSquash (with_squashed s q) tid;
  Ok (do_call s (MemSquash doneSeqNum tid)).
End Wakeup.
