(* ===== verification/WakeupInv.v ===== *)
(** * Registers, waiting lists and ready instructions

    The invariant that ties the dependency graph, the scoreboard and the instructions of
    the queue together, and that entering, waking and squashing keep it. *)

From S2P Require Import Prelude DepGraph Wakeup.

Module WakeupInv.
Import Wakeup.
Module DG := DependencyGraph.

Notation agraph := (list (ptr * list positive)).

(** ** The graph through its abstraction *)
Lemma graph_insert g (a : agraph) r x pr l :
  DG.sim g a → 0 ≤ r → a !! Z.to_nat r = Some (pr, l) →
  ∃ g', DG.insert g r x = Ok g' ∧ DG.sim g' (<[Z.to_nat r := (pr, x :: l)]> a).
Proof.
  intros Hs Hr Ha. pose proof (DG.step_matches g a (DG.Insert r x) Hs) as Hm. unfold DG.matches in Hm. cbn [DG.astep] in Hm.
  rewrite (vget_in _ _ _ Hr Ha) in Hm. cbn [mbind res_bind] in Hm.
  rewrite vset_in in Hm by (apply lookup_lt_Some in Ha; unfold vlen; lia). cbn [mbind res_bind] in Hm.
  destruct Hm as (g' & Hg & Hs'). cbn [DG.step] in Hg. destruct (DG.insert g r x) as [g1|]; [|done]. simplify_eq/=. by exists g'.
Qed.

Lemma graph_producer g (a : agraph) r y pr l :
  DG.sim g a → 0 ≤ r → a !! Z.to_nat r = Some (pr, l) →
  ∃ g', match y with Some x => DG.setInst g r x | None => DG.clearInst g r end = Ok g' ∧ DG.sim g' (<[Z.to_nat r := (y, l)]> a).
Proof.
  intros Hs Hr Ha. assert (Hlt : (Z.to_nat r < length a)%nat) by (by eapply lookup_lt_Some).
  destruct y as [x|].
  - pose proof (DG.step_matches g a (DG.SetInst r x) Hs) as Hm. unfold DG.matches in Hm. cbn [DG.astep] in Hm.
    rewrite (vget_in _ _ _ Hr Ha) in Hm. cbn [mbind res_bind] in Hm. rewrite vset_in in Hm by (unfold vlen; lia). cbn [mbind res_bind] in Hm.
    destruct Hm as (g' & Hg & Hs'). cbn [DG.step] in Hg. destruct (DG.setInst g r x) as [g1|]; [|done]. simplify_eq/=. by exists g'.
  - pose proof (DG.step_matches g a (DG.ClearInst r) Hs) as Hm. unfold DG.matches in Hm. cbn [DG.astep] in Hm.
    rewrite (vget_in _ _ _ Hr Ha) in Hm. cbn [mbind res_bind] in Hm. rewrite vset_in in Hm by (unfold vlen; lia). cbn [mbind res_bind] in Hm.
    destruct Hm as (g' & Hg & Hs'). cbn [DG.step] in Hg. destruct (DG.clearInst g r) as [g1|]; [|done]. simplify_eq/=. by exists g'.
Qed.

Lemma graph_pop g (a : agraph) r pr l :
  DG.sim g a → 0 ≤ r → a !! Z.to_nat r = Some (pr, l) →
  match l with
  | [] => ∃ g', DG.pop g r = Ok (None, g') ∧ DG.sim g' a
  | x :: l => ∃ g', DG.pop g r = Ok (Some x, g') ∧ DG.sim g' (<[Z.to_nat r := (pr, l)]> a)
  end.
Proof.
  intros Hs Hr Ha. pose proof (DG.step_matches g a (DG.Pop r) Hs) as Hm. unfold DG.matches in Hm. cbn [DG.astep DG.step] in Hm.
  rewrite (vget_in _ _ _ Hr Ha) in Hm. cbn [mbind res_bind] in Hm. destruct l as [|x l]; [done|].
  rewrite vset_in in Hm by (apply lookup_lt_Some in Ha; unfold vlen; lia). done.
Qed.

Lemma graph_empty g (a : agraph) r pr l :
  DG.sim g a → 0 ≤ r → a !! Z.to_nat r = Some (pr, l) → DG.empty_of g r = Ok (bool_decide (l = [])).
Proof.
  intros (ls & Hrep & ->) Hr Ha. rewrite lookup_zip_with in Ha. destruct (DG.dependGraph g !! Z.to_nat r) as [e|] eqn:He; [|done].
  destruct (ls !! Z.to_nat r) as [k|] eqn:Hk; [|done]. simpl in Ha. injection Ha as _ <-.
  unfold DG.empty_of. rewrite (vget_in _ _ _ Hr He). cbn [mbind res_bind].
  pose proof (DG.rep_seg _ _ Hrep _ _ _ He Hk) as Hs. destruct k as [|[b y] k]; simpl in Hs.
  - by rewrite Hs.
  - destruct Hs as [-> _]. by rewrite !bool_decide_false.
Qed.

(** ** How often an instruction waits *)
Definition times (x : positive) (l : list positive) : Z := vlen (filter (eq x) l).
Fixpoint waits (a : agraph) (x : positive) : Z := match a with [] => 0 | e :: a => times x (snd e) + waits a x end.

Lemma times_cons x y l : times x (y :: l) = (if decide (x = y) then 1 else 0) + times x l.
Proof. unfold times, vlen. rewrite filter_cons. destruct (decide (x = y)); simpl; lia. Qed.

Lemma times_nonneg x l : 0 ≤ times x l.
Proof. unfold times, vlen. lia. Qed.

Lemma times_pos x l : 0 < times x l ↔ x ∈ l.
Proof.
  induction l as [|y l IH]; [split; [done|by intros ?%elem_of_nil]|]. rewrite times_cons, elem_of_cons. pose proof (times_nonneg x l).
  destruct (decide (x = y)); naive_solver lia.
Qed.

Lemma waits_nonneg a x : 0 ≤ waits a x.
Proof. induction a as [|e a IH]; simpl; [done|]. pose proof (times_nonneg x (snd e)). lia. Qed.

Lemma waits_insert a r e e' x :
  a !! r = Some e → waits (<[r := e']> a) x = waits a x - times x (snd e) + times x (snd e').
Proof.
  revert r. induction a as [|y a IH]; intros [|r] Hr; simplify_eq/=; [lia|]. rewrite (IH r Hr). lia.
Qed.

Lemma waits_pos a x : 0 < waits a x ↔ ∃ r e, a !! r = Some e ∧ x ∈ snd e.
Proof.
  induction a as [|y a IH]; simpl; [split; [done|by intros (? & ? & ? & _)]|]. pose proof (times_nonneg x (snd y)). pose proof (waits_nonneg a x). split.
  - intros Hp. destruct (Z.eq_dec (times x (snd y)) 0) as [E|E].
    + destruct IH as [IH _]. destruct IH as (r & e & ? & ?); [lia|]. by exists (S r), e.
    + exists O, y. split; [done|]. apply times_pos. lia.
  - intros ([|r] & e & Hr & Hx); simplify_eq/=; [apply times_pos in Hx; lia|]. assert (0 < waits a x) by (apply IH; by exists r, e). lia.
Qed.


Lemma graph_remove g (a : agraph) r x pr l :
  DG.sim g a → 0 ≤ r → a !! Z.to_nat r = Some (pr, l) → l = [] ∨ x ∈ l →
  ∃ g', DG.remove g r x = Ok g' ∧ DG.sim g' (<[Z.to_nat r := (pr, DG.remove_first x l)]> a).
Proof.
  intros Hs Hr Ha Hx. pose proof (DG.step_matches g a (DG.Remove r x) Hs) as Hm. unfold DG.matches in Hm. cbn [DG.astep DG.step] in Hm.
  rewrite (vget_in _ _ _ Hr Ha) in Hm. cbn [mbind res_bind] in Hm. destruct (decide (l = [])) as [->|Hl].
  - destruct Hm as (g' & Hg & Hs'). destruct (DG.remove g r x) as [g1|]; [|done]. simplify_eq/=. exists g'. by rewrite list_insert_id.
  - destruct Hx as [?|Hx]; [done|]. rewrite bool_decide_true in Hm by done. cbn [mbind res_bind assert_] in Hm.
    rewrite vset_in in Hm by (apply lookup_lt_Some in Ha; unfold vlen; lia). cbn [mbind res_bind] in Hm.
    destruct Hm as (g' & Hg & Hs'). destruct (DG.remove g r x) as [g1|]; [|done]. simplify_eq/=. by exists g'.
Qed.

Lemma times_remove_first x y l : x ∈ l → times y (DG.remove_first x l) = times y l - if decide (y = x) then 1 else 0.
Proof.
  induction l as [|z l IH]; [by intros ?%elem_of_nil|]. intros Hx. simpl. destruct (decide (z = x)) as [->|Hne].
  - rewrite times_cons. lia.
  - rewrite !times_cons, IH by set_solver. lia.
Qed.

(** ** Instructions: what waiting changes *)
Definition src (i : DynInst) : list (reg * bool) := zip (srcRegs i) (readySrcRegIdx i).
Definition unmet (l : list (reg * bool)) : Z := vlen (filter (λ q, q.2 = false) l).
Definition reads (r : nat) (l : list (reg * bool)) : Z := vlen (filter (eq (mkReg (Z.of_nat r) false, false)) l).

(** All of an instruction but the number of its ready registers and [CanIssue]. *)
Definition core (i : DynInst) : DynInst := with_sources (setCanIssue i) (readySrcRegIdx i) 0.

(** All of the queue but the graph, the scoreboard and what waiting changes. *)
Definition same (s s' : t) : Prop :=
  instList s' = instList s ∧ nonSpecInsts s' = nonSpecInsts s ∧ count s' = count s ∧ freeEntries s' = freeEntries s ∧
  numEntries s' = numEntries s ∧ squashedSeqNum s' = squashedSeqNum s ∧ calls s `prefix_of` calls s' ∧ ∀ y, core <$> insts s' !! y = core <$> insts s !! y.

Global Instance same_preorder : PreOrder same.
Proof.
  split; [done|]. intros s1 s2 s3 (? & ? & ? & ? & ? & ? & ? & H) (? & ? & ? & ? & ? & ? & ? & K).
  split_and!; try congruence. by etrans.
Qed.

(** The instructions that have been handed on as ready, in order. *)
Definition told_one (c : call) : option positive :=
  match c with
  | ReadyPush x | MemInsert x true | MemRegsReady x | MemNonSpecReady x => Some x
  | _ => None
  end.
Definition told (s : t) : list positive := omap told_one (calls s).

Lemma told_call s c : told (do_call s c) = told s ++ option_list (told_one c).
Proof. unfold told. simpl. rewrite omap_app. simpl. by destruct (told_one c). Qed.

Definition in_board (n : Z) (r : reg) : bool := isFixedMapping r || (0 <=? flatIndex r) && (flatIndex r <? n).

(** Instruction [i], of which the sources from the [k]th on are still to be looked at. *)
Record waiting (n : Z) (a : agraph) (x : positive) (i : DynInst) (k : nat) : Prop := {
  w_len : (length (srcRegs i) ≤ length (readySrcRegIdx i))%nat;
  w_num : numSrcRegs i < 128;
  w_ready : 0 ≤ readyRegs i;
  w_sum : readyRegs i + waits a x + unmet (drop k (src i)) = numSrcRegs i;
  w_can : readyToIssue i = bool_decide (readyRegs i = numSrcRegs i);
  w_src : ∀ r, (r, false) ∈ src i → isFixedMapping r = false ∧ in_board n r = true
}.

(** ** The invariant *)

(** [inl] are the speculative instructions in the queue, [seen] all that ever entered;
    [new] is being inserted or squashed. *)
Record inv (s : t) (a : agraph) (inl seen : gset positive) (new : option positive) : Prop := {
  i_sim : DG.sim (dependGraph s) a;
  i_len : length (regScoreboard s) = length a;
  i_board : ∀ r pr l, regScoreboard s !! r = Some true → a !! r = Some (pr, l) → l = [];
  i_wait : ∀ r pr l x, a !! r = Some (pr, l) → x ∈ l → (x ∈ inl ∨ new = Some x) ∧
    ∃ i, insts s !! x = Some i ∧ mkReg (Z.of_nat r) false ∈ srcRegs i;
  i_inst : ∀ x, x ∈ inl → ∃ i, insts s !! x = Some i ∧ waiting (vlen (regScoreboard s)) a x i (length (srcRegs i));
  i_told : ∀ x, x ∈ inl → x ∈ told s ↔ waits a x = 0;
  i_nodup : NoDup (told s);
  i_seen : ∀ x, x ∈ told s ∨ x ∈ inl → x ∈ seen;
  i_non : ∀ q x, nonSpecInsts s !! q = Some x → x ∉ told s ∧ x ∉ inl ∧ x ∈ seen
}.

(** Per register that is to be produced, an instruction is on its list once for each
    source that reads it. *)
Definition exact (s : t) (a : agraph) (inl : gset positive) : Prop :=
  ∀ x i r pr l, x ∈ inl → insts s !! x = Some i → a !! r = Some (pr, l) → regScoreboard s !! r = Some false → times x l = reads r (src i).

Lemma src_drop i k : (length (srcRegs i) ≤ k)%nat → drop k (src i) = [].
Proof. intros Hk. apply drop_ge. unfold src. rewrite length_zip_with. lia. Qed.

Lemma waiting_done n a x i : waiting n a x i (length (srcRegs i)) → readyRegs i + waits a x = numSrcRegs i ∧ readyToIssue i = bool_decide (waits a x = 0).
Proof.
  intros [_ _ _ Hs Hc _]. rewrite src_drop in Hs by done. change (unmet []) with 0 in Hs. split; [lia|].
  rewrite Hc. apply bool_decide_ext. lia.
Qed.

(** What waiting depends on. *)
Definition wkey (i : DynInst) := (srcRegs i, readySrcRegIdx i, readyRegs i, readyToIssue i).

Lemma waiting_key n a x i i' k : wkey i' = wkey i → waiting n a x i k → waiting n a x i' k.
Proof.
  unfold wkey. intros E [H1 H2 H3 H4 H5 H6]. injection E as E1 E2 E3 E4.
  assert (src i' = src i) as E5 by (unfold src; congruence). assert (numSrcRegs i' = numSrcRegs i) as E6 by (unfold numSrcRegs; congruence).
  split; rewrite ?E1, ?E2, ?E3, ?E4, ?E5, ?E6; done.
Qed.

Lemma inv_frame s s' a inl seen new :
  dependGraph s' = dependGraph s → regScoreboard s' = regScoreboard s → told s' = told s → nonSpecInsts s' = nonSpecInsts s →
  (∀ y i, insts s !! y = Some i → ∃ i', insts s' !! y = Some i' ∧ wkey i' = wkey i) →
  inv s a inl seen new → inv s' a inl seen new.
Proof.
  intros E1 E2 E3 E4 Hk [H1 H2 H3 H4 H5 H6 H7 H8 H9]. split; rewrite ?E1, ?E2, ?E3, ?E4; try done.
  - intros r pr l x Hr Hx. destruct (H4 r pr l x Hr Hx) as [? (i & Hi & Hs)]. split; [done|].
    destruct (Hk x i Hi) as (i' & Hi' & E). exists i'. split; [done|]. unfold wkey in E. by injection E as -> _ _ _.
  - intros x Hx. destruct (H5 x Hx) as (i & Hi & Hw). destruct (Hk x i Hi) as (i' & Hi' & E). exists i'. split; [done|].
    assert (srcRegs i' = srcRegs i) as -> by (unfold wkey in E; congruence). by eapply waiting_key.
Qed.

Lemma exact_frame s s' a inl :
  regScoreboard s' = regScoreboard s → (∀ y, src <$> insts s' !! y = src <$> insts s !! y) → exact s a inl → exact s' a inl.
Proof.
  intros E1 Hk He x i r pr l Hx Hi Ha Hb. rewrite E1 in Hb. specialize (Hk x). rewrite Hi in Hk. simpl in Hk.
  destruct (insts s !! x) as [j|] eqn:Hj; [|done]. simpl in Hk. injection Hk as ->. by eapply He.
Qed.

Lemma core_src i j : core i = core j → src i = src j.
Proof. unfold core, src, with_sources. simpl. intros E. by injection E as _ _ _ -> _ -> _. Qed.

Lemma same_src s s' y : same s s' → src <$> insts s' !! y = src <$> insts s !! y.
Proof.
  intros (_ & _ & _ & _ & _ & _ & _ & H). specialize (H y). destruct (insts s' !! y), (insts s !! y); try done.
  apply (inj Some) in H. simpl. f_equal. by apply core_src.
Qed.

(** Only the producer of a register changes. *)
Lemma waits_producer a r pr pr' l x : a !! r = Some (pr, l) → waits (<[r := (pr', l)]> a) x = waits a x.
Proof. intros Ha. rewrite (waits_insert a r _ _ x Ha). simpl. lia. Qed.

Lemma waiting_waits n a a' x i k : waits a' x = waits a x → waiting n a x i k → waiting n a' x i k.
Proof. intros E [H1 H2 H3 H4 H5 H6]. split; try done. by rewrite E. Qed.

Lemma inv_producer s a inl seen new r pr pr' g :
  inv s a inl seen new → a !! r = Some (pr, []) → DG.sim g (<[r := (pr', [])]> a) →
  ∀ b, inv (with_board (with_graph s g) (<[r := b]> (regScoreboard s))) (<[r := (pr', [])]> a) inl seen new.
Proof.
  intros [H1 H2 H3 H4 H5 H6 H7 H8 H9] Ha Hg b. split; simpl; try done.
  - by rewrite !length_insert.
  - intros d p l Hd Hl. destruct (decide (d = r)) as [->|Hne].
    + rewrite list_lookup_insert_eq in Hl by (by eapply lookup_lt_Some). by simplify_eq.
    + rewrite list_lookup_insert_ne in Hd by done. rewrite list_lookup_insert_ne in Hl by done. by eapply H3.
  - intros d p l x Hd Hx. destruct (decide (d = r)) as [->|Hne].
    + rewrite list_lookup_insert_eq in Hd by (by eapply lookup_lt_Some). simplify_eq. by apply elem_of_nil in Hx.
    + rewrite list_lookup_insert_ne in Hd by done. by eapply H4.
  - intros x Hx. destruct (H5 x Hx) as (i & Hi & Hw). exists i. split; [done|]. unfold vlen. rewrite length_insert.
    eapply waiting_waits; [|exact Hw]. by apply (waits_producer a r pr).
  - intros x. rewrite (waits_producer a r pr pr' [] x Ha). apply H6.
Qed.

(** ** Waking the dependents of a register *)
Lemma mark_core i : core (markSrcRegReady i) = core i.
Proof. unfold markSrcRegReady. by destruct (_ =? _). Qed.

Lemma mark_fields i :
  is_u8 (readyRegs i + 1) →
  readyRegs (markSrcRegReady i) = readyRegs i + 1 ∧ srcRegs (markSrcRegReady i) = srcRegs i ∧
  readySrcRegIdx (markSrcRegReady i) = readySrcRegIdx i ∧ destRegs (markSrcRegReady i) = destRegs i ∧
  staticInst (markSrcRegReady i) = staticInst i ∧
  readyToIssue (markSrcRegReady i) = (readyRegs i + 1 =? numSrcRegs i) || readyToIssue i.
Proof.
  intros Hu. unfold markSrcRegReady. rewrite (u8_id _ Hu). change (numSrcRegs (with_sources _ _ _)) with (numSrcRegs i).
  by destruct (_ =? _).
Qed.

(** One awaited source became ready. *)
Lemma waiting_mark n a a' x i :
  waiting n a x i (length (srcRegs i)) → waits a' x = waits a x - 1 → 0 < waits a x →
  waiting n a' x (markSrcRegReady i) (length (srcRegs i)).
Proof.
  intros Hw Ea Hp. pose proof (waiting_done _ _ _ _ Hw) as [Hsum _]. destruct Hw as [H1 H2 H3 H4 H5 H6].
  destruct (mark_fields i) as (M1 & M2 & M3 & _ & _ & M4). { unfold is_u8. lia. }
  assert (src (markSrcRegReady i) = src i) as M5 by (unfold src; congruence).
  assert (numSrcRegs (markSrcRegReady i) = numSrcRegs i) as M6 by (unfold numSrcRegs; congruence).
  split; rewrite ?M1, ?M2, ?M3, ?M5, ?M6; try done; try lia.
  rewrite M4, H5. rewrite (bool_decide_false (readyRegs i = _)) by lia. rewrite orb_false_r.
  apply Bool.eq_true_iff_eq. rewrite bool_decide_eq_true. lia.
Qed.

(** The instruction [x] at the head of the list of [r] is marked and leaves the list. *)
Lemma inv_marked s a inl seen r pr x l g i :
  inv s a inl seen None → a !! r = Some (pr, x :: l) → DG.sim g (<[r := (pr, l)]> a) → insts s !! x = Some i →
  let s1 := with_inst (with_graph s g) x (markSrcRegReady i) in
  let s2 := if bool_decide (waits a x = 1) then do_call s1 (if isMemRef (staticInst i) then MemRegsReady x else ReadyPush x) else s1 in
  inv s2 (<[r := (pr, l)]> a) inl seen None.
Proof.
  intros [H1 H2 H3 H4 H5 H6 H7 H8 H9] Ha Hg Hi s1 s2. set (a' := <[r := (pr, l)]> a) in *.
  destruct (H4 r pr (x :: l) x Ha ltac:(by left)) as [[Hin|] _]; [|done].
  destruct (H5 x Hin) as (i0 & Hi0 & Hw). simplify_eq.
  assert (Hwa : ∀ y, waits a' y = waits a y - if decide (y = x) then 1 else 0).
  { intros y. unfold a'. rewrite (waits_insert a r _ _ y Ha). simpl. rewrite times_cons. lia. }
  assert (Hwx : 0 < waits a x) by (apply waits_pos; exists r, (pr, x :: l); split; [done|by left]).
  assert (Hnr : x ∉ told s) by (intros ?%H6; [lia|done]).
  assert (Hsrc : srcRegs (markSrcRegReady i) = srcRegs i) by (unfold markSrcRegReady; by destruct (_ =? _)).
  assert (E : ∀ P : t → Prop, P s1 → (∀ c, P (do_call s1 c)) → P s2) by (intros P ? ?; unfold s2; by case_bool_decide).
  assert (dependGraph s2 = g ∧ regScoreboard s2 = regScoreboard s ∧ nonSpecInsts s2 = nonSpecInsts s ∧
          insts s2 = <[x := markSrcRegReady i]> (insts s)) as (F1 & F2 & F3 & F4) by (by apply E).
  assert (F5 : told s2 = told s ++ if bool_decide (waits a x = 1) then [x] else []).
  { unfold s2. case_bool_decide; [|unfold told; by rewrite app_nil_r]. rewrite told_call. by destruct (isMemRef _). }
  clearbody s2. clear E s1. split; rewrite ?F1, ?F2, ?F3, ?F4; try done.
  - unfold a'. by rewrite length_insert.
  - intros d p k Hd Hk. destruct (decide (d = r)) as [->|Hne].
    + pose proof (H3 r _ _ Hd Ha). done.
    + unfold a' in Hk. rewrite list_lookup_insert_ne in Hk by done. by eapply H3.
  - intros d p k y Hd Hy. assert (∃ p' k', a !! d = Some (p', k') ∧ y ∈ k') as (p' & k' & Hd' & Hy').
    { unfold a' in Hd. destruct (decide (d = r)) as [->|Hne].
      - rewrite list_lookup_insert_eq in Hd by (by eapply lookup_lt_Some). simplify_eq. eexists _, _. split; [exact Ha|]. by right.
      - rewrite list_lookup_insert_ne in Hd by done. eauto. }
    destruct (H4 d p' k' y Hd' Hy') as [Hyin (j & Hj & Hjs)]. split; [done|]. destruct (decide (y = x)) as [->|Hne].
    + exists (markSrcRegReady i). rewrite lookup_insert_eq. split; [done|]. simplify_eq. by rewrite Hsrc.
    + exists j. by rewrite lookup_insert_ne.
  - intros y Hy. destruct (decide (y = x)) as [->|Hne].
    + exists (markSrcRegReady i). rewrite lookup_insert_eq. split; [done|]. rewrite Hsrc. eapply waiting_mark; [done| |done].
      rewrite Hwa, decide_True by done. done.
    + rewrite lookup_insert_ne by done. destruct (H5 y Hy) as (j & Hj & Hjw). exists j. split; [done|]. eapply waiting_waits; [|exact Hjw].
      rewrite Hwa, decide_False by done. lia.
  - intros y Hy. rewrite F5, elem_of_app, H6, Hwa by done. destruct (decide (y = x)) as [->|]; case_bool_decide; rewrite ?list_elem_of_singleton, ?elem_of_nil; naive_solver lia.
  - rewrite F5. case_bool_decide; [|by rewrite app_nil_r]. apply NoDup_app. split_and!; [done|set_solver|apply NoDup_singleton].
  - intros y [Hy|Hy]; [|by apply H8; right]. rewrite F5 in Hy. apply elem_of_app in Hy as [Hy|Hy]; [by apply H8; left|].
    case_bool_decide; [|by apply elem_of_nil in Hy]. apply list_elem_of_singleton in Hy as ->. apply H8. by right.
  - intros q y Hq. destruct (H9 q y Hq) as (K1 & K2 & K3). split_and!; [|done|done]. rewrite F5, elem_of_app. intros [?|Hy]; [done|].
    case_bool_decide; [|by apply elem_of_nil in Hy]. apply list_elem_of_singleton in Hy as ->. done.
Qed.

Lemma wake_one s a inl seen r pr x l g :
  inv s a inl seen None → a !! r = Some (pr, x :: l) → DG.sim g (<[r := (pr, l)]> a) →
  ∃ i s', insts s !! x = Some i ∧ addIfReady (with_inst (with_graph s g) x (markSrcRegReady i)) x = Ok s' ∧
    inv s' (<[r := (pr, l)]> a) inl seen None ∧ regScoreboard s' = regScoreboard s ∧ same s s'.
Proof.
  intros Hinv Ha Hg. destruct (i_wait _ _ _ _ _ Hinv r pr (x :: l) x Ha ltac:(by left)) as [[Hin|] _]; [|done].
  destruct (i_inst _ _ _ _ _ Hinv x Hin) as (i & Hi & Hw).
  assert (Hwx : 0 < waits a x) by (apply waits_pos; exists r, (pr, x :: l); split; [done|by left]).
  pose proof (inv_marked s a inl seen r pr x l g i Hinv Ha Hg Hi) as Hinv'. cbv zeta in Hinv'.
  pose proof (waiting_done _ _ _ _ Hw) as [Hsum Hrd]. destruct (mark_fields i) as (_ & _ & _ & _ & M5 & M6).
  { pose proof (w_num _ _ _ _ _ Hw). pose proof (w_ready _ _ _ _ _ Hw). unfold is_u8. lia. }
  rewrite bool_decide_false in Hrd by lia. rewrite Hrd, orb_false_r in M6.
  assert (Hsame : ∀ c, same s (with_inst (with_graph s g) x (markSrcRegReady i)) ∧ same s (do_call (with_inst (with_graph s g) x (markSrcRegReady i)) c)).
  { intros c. unfold same. simpl. split; split_and!; try done; try (by apply prefix_app_r); intros y; (destruct (decide (y = x)) as [->|];
      [by rewrite lookup_insert_eq, Hi; simpl; rewrite mark_core|by rewrite lookup_insert_ne]). }
  exists i. unfold addIfReady, deref. simpl insts. rewrite lookup_insert_eq. cbn [mbind res_bind]. rewrite M6, M5.
  eexists. split; [done|]. split; [|split; [exact Hinv'|]].
  - case_bool_decide.
    + destruct (Z.eqb_spec (readyRegs i + 1) (numSrcRegs i)); [by destruct (isMemRef _)|lia].
    + destruct (Z.eqb_spec (readyRegs i + 1) (numSrcRegs i)); [lia|done].
  - case_bool_decide; [|by split; [|apply (Hsame (ReadyPush x))]]. split; [done|]. apply Hsame.
Qed.

(** The loop pops every waiting instruction of the register. *)
Lemma wake_spec l : ∀ fuel s a inl seen r pr n,
  inv s a inl seen None → 0 ≤ r → a !! Z.to_nat r = Some (pr, l) → (length l < fuel)%nat →
  ∃ s', wake fuel s r n = Ok (s', n + vlen l) ∧ inv s' (<[Z.to_nat r := (pr, [])]> a) inl seen None ∧
    regScoreboard s' = regScoreboard s ∧ same s s'.
Proof.
  induction l as [|x l IH]; intros [|fuel] s a inl seen r pr n Hinv Hr Ha Hf; try (simpl in Hf; lia); cbn [wake].
  all: destruct (graph_pop _ _ r _ _ (i_sim _ _ _ _ _ Hinv) Hr Ha) as (g & -> & Hg); cbn [mbind res_bind].
  - exists (with_graph s g). rewrite list_insert_id by done. split_and!; [by rewrite Z.add_0_r| |done|done].
    destruct Hinv. by split.
  - destruct (wake_one s a inl seen _ pr x l g Hinv Ha Hg) as (i & s1 & Hi & Hadd & Hinv1 & Hb & Hs1).
    unfold deref. simpl insts. rewrite Hi. cbn [mbind res_bind]. rewrite Hadd. cbn [mbind res_bind].
    destruct (IH fuel s1 _ inl seen r pr (n + 1) Hinv1 Hr) as (s2 & Hw & Hinv2 & Hb2 & Hs2).
    { apply list_lookup_insert_eq. by eapply lookup_lt_Some. }
    { simpl in Hf. lia. }
    exists s2. rewrite list_insert_insert_eq in Hinv2. split_and!; [|done|congruence|by etrans].
    rewrite Hw. f_equal. f_equal. unfold vlen. simpl. lia.
Qed.

(** A list is no longer than the heap of nodes. *)
Lemma sim_fuel g (a : agraph) r pr l : DG.sim g a → a !! r = Some (pr, l) → (length l ≤ size (cells (DG.nodes g)))%nat.
Proof.
  intros Hs Ha. destruct (DG.sim_counts g a Hs) as (_ & -> & _). clear Hs.
  revert r Ha. induction a as [|e a IH]; intros [|r] Ha; simplify_eq/=; [lia|]. specialize (IH r Ha). lia.
Qed.

Lemma board_entry s a inl seen new (r : reg) :
  inv s a inl seen new → in_board (vlen (regScoreboard s)) r = true → isFixedMapping r = false →
  0 ≤ flatIndex r < vlen (regScoreboard s) ∧ ∃ pr l, a !! Z.to_nat (flatIndex r) = Some (pr, l).
Proof.
  intros Hinv Hb Hf. unfold in_board in Hb. rewrite Hf in Hb. simpl in Hb. split; [lia|].
  destruct (lookup_lt_is_Some_2 a (Z.to_nat (flatIndex r))) as [[pr l] ?]; [|eauto].
  pose proof (i_len _ _ _ _ _ Hinv). unfold vlen in Hb. lia.
Qed.

(** A register is produced, or is to be produced and nobody reads it. *)
Lemma exact_insert s s' a inl r e b :
  exact s a inl → (∀ y, src <$> insts s' !! y = src <$> insts s !! y) → regScoreboard s' = <[r := b]> (regScoreboard s) →
  (r < length (regScoreboard s))%nat → (r < length a)%nat → snd e = [] →
  b = true ∨ (∀ y i, y ∈ inl → insts s !! y = Some i → reads r (src i) = 0) →
  exact s' (<[r := e]> a) inl.
Proof.
  intros He Hk Hb Hr Hra Hnil Hor x i d pr l Hx Hi Ha Hd. rewrite Hb in Hd.
  specialize (Hk x). rewrite Hi in Hk. simpl in Hk. destruct (insts s !! x) as [j|] eqn:Hj; [|done]. simpl in Hk. injection Hk as ->.
  destruct (decide (d = r)) as [->|Hne].
  - rewrite list_lookup_insert_eq in Hd by done. rewrite list_lookup_insert_eq in Ha by done. simplify_eq. simpl in Hnil. subst l.
    destruct Hor as [?|Hz]; [done|]. by rewrite (Hz x j).
  - rewrite list_lookup_insert_ne in Hd by done. rewrite list_lookup_insert_ne in Ha by done. by eapply He.
Qed.

Lemma wakeDests_spec rs : ∀ s a inl seen n,
  inv s a inl seen None → exact s a inl → forallb (in_board (vlen (regScoreboard s))) rs = true →
  ∃ s' n' a', wakeDests s rs n = Ok (s', n') ∧ inv s' a' inl seen None ∧ exact s' a' inl ∧
    length (regScoreboard s') = length (regScoreboard s) ∧ same s s'.
Proof.
  induction rs as [|r rs IH]; intros s a inl seen n Hinv Hex Hb; cbn [wakeDests]; [by exists s, n, a|].
  simpl in Hb. apply andb_true_iff in Hb as [Hr Hrs].
  destruct (isFixedMapping r) eqn:Hf; cbn [mbind res_bind]; [by apply (IH _ _ _ _ _ Hinv)|].
  destruct (board_entry s a inl seen None r Hinv Hr Hf) as ([H0 H1] & pr & l & Ha).
  pose proof (sim_fuel _ _ _ _ _ (i_sim _ _ _ _ _ Hinv) Ha) as Hfuel.
  destruct (wake_spec l (S (size (cells (DG.nodes (dependGraph s))))) s a inl seen _ pr n Hinv H0 Ha ltac:(lia)) as (s1 & Hw & Hinv1 & Hb1 & Hs1).
  rewrite Hw. cbn [mbind res_bind].
  assert (Ha1 : <[Z.to_nat (flatIndex r) := (pr, [])]> a !! Z.to_nat (flatIndex r) = Some (pr, [])).
  { apply list_lookup_insert_eq. by eapply lookup_lt_Some. }
  rewrite (graph_empty _ _ _ pr [] (i_sim _ _ _ _ _ Hinv1) H0 Ha1), bool_decide_true by done. cbn [mbind res_bind assert_ guard_].
  destruct (graph_producer _ _ _ None pr [] (i_sim _ _ _ _ _ Hinv1) H0 Ha1) as (g & -> & Hg). cbn [mbind res_bind].
  rewrite vset_in by (rewrite Hb1; lia). cbn [mbind res_bind].
  pose proof (inv_producer s1 _ inl seen None _ pr None g Hinv1 Ha1 Hg true) as Hinv2. rewrite list_insert_insert_eq in Hinv2.
  set (s2 := with_board _ _) in *. assert (Hs2 : same s s2) by exact Hs1.
  assert (Hex2 : exact s2 (<[Z.to_nat (flatIndex r) := (None, [])]> a) inl).
  { eapply (exact_insert s s2 a inl _ _ true); try done; [by intros y; apply same_src|simpl; by rewrite Hb1|unfold vlen in H1; lia| |by left].
    by eapply lookup_lt_Some. }
  destruct (IH s2 _ inl seen (n + vlen l) Hinv2 Hex2) as (s' & n' & a' & Hd & Hinv' & Hex' & Hlen & Hs').
  { unfold vlen. simpl. by rewrite length_insert, Hb1. }
  exists s', n', a'. split_and!; [done|done|done| |by etrans]. rewrite Hlen. simpl. by rewrite length_insert, Hb1.
Qed.

(** ** Insertion *)
Lemma unmet_step l k r b : l !! k = Some (r, b) → unmet (drop k l) = (if (b : bool) then 0 else 1) + unmet (drop (S k) l).
Proof. intros Hl. rewrite (drop_S _ (r, b) k Hl). unfold unmet, vlen. rewrite filter_cons. simpl. destruct b; simpl; lia. Qed.

Lemma reads_step l k q d :
  l !! k = Some q → reads d (drop k l) = (if decide ((mkReg (Z.of_nat d) false, false) = q) then 1 else 0) + reads d (drop (S k) l).
Proof. intros Hl. rewrite (drop_S _ q k Hl). unfold reads, vlen. rewrite filter_cons. destruct (decide _); simpl; lia. Qed.

Lemma unmet_nonneg l : 0 ≤ unmet l.
Proof. unfold unmet, vlen. lia. Qed.
Lemma reads_nonneg d l : 0 ≤ reads d l.
Proof. unfold reads, vlen. lia. Qed.

(** Source [k] of [x] is the next one that [addToDependents] looks at. *)
Record inserting (s : t) (a : agraph) (inl seen : gset positive) (x : positive) (i : DynInst) (k : nat) : Prop := {
  n_inv : inv s a inl seen (Some x);
  n_exact : exact s a inl;
  n_new : x ∉ seen;
  n_inst : insts s !! x = Some i;
  n_wait : waiting (vlen (regScoreboard s)) a x i k;
  n_mine : ∀ r pr l, a !! r = Some (pr, l) → regScoreboard s !! r = Some false → times x l + reads r (drop k (src i)) = reads r (src i)
}.

Lemma inv_push s a inl seen x i r pr l g :
  inv s a inl seen (Some x) → x ∉ inl → a !! r = Some (pr, l) → regScoreboard s !! r = Some false →
  insts s !! x = Some i → mkReg (Z.of_nat r) false ∈ srcRegs i → DG.sim g (<[r := (pr, x :: l)]> a) →
  inv (with_graph s g) (<[r := (pr, x :: l)]> a) inl seen (Some x).
Proof.
  intros [H1 H2 H3 H4 H5 H6 H7 H8 H9] Hx Ha Hb Hi Hsrc Hg.
  assert (Hw : ∀ y, y ∈ inl → waits (<[r := (pr, x :: l)]> a) y = waits a y).
  { intros y Hy. rewrite (waits_insert a r _ _ y Ha). simpl. rewrite times_cons, decide_False by (by intros ->). lia. }
  split; simpl; try done.
  - by rewrite length_insert.
  - intros d p k Hd Hk. destruct (decide (d = r)) as [->|Hne]; [congruence|].
    rewrite list_lookup_insert_ne in Hk by done. by eapply H3.
  - intros d p k y Hd Hy. destruct (decide (d = r)) as [->|Hne].
    + rewrite list_lookup_insert_eq in Hd by (by eapply lookup_lt_Some). simplify_eq.
      apply elem_of_cons in Hy as [->|Hy]; [|by eapply H4]. split; [by right|eauto].
    + rewrite list_lookup_insert_ne in Hd by done. by eapply H4.
  - intros y Hy. destruct (H5 y Hy) as (j & Hj & Hjw). exists j. split; [done|]. eapply waiting_waits; [|done]. by apply Hw.
  - intros y Hy. rewrite Hw by done. by apply H6.
Qed.

(** Lists change for [x] only. *)
Lemma exact_list s s' a inl r e e' :
  exact s a inl → insts s' = insts s → regScoreboard s' = regScoreboard s → a !! r = Some e →
  (∀ y, y ∈ inl → times y (snd e') = times y (snd e)) → exact s' (<[r := e']> a) inl.
Proof.
  intros He Ei Eb Ha Ht y i d pr l Hy Hi Hd Hb. rewrite Ei in Hi. rewrite Eb in Hb. destruct (decide (d = r)) as [->|Hne].
  - rewrite list_lookup_insert_eq in Hd by (by eapply lookup_lt_Some). simplify_eq. specialize (Ht y Hy). simpl in Ht. rewrite Ht.
    destruct e as [pr' l']. by eapply He.
  - rewrite list_lookup_insert_ne in Hd by done. by eapply He.
Qed.

(** An instruction that is not in the queue proper changes. *)
Lemma inv_other s a inl seen new x i i' :
  inv s a inl seen new → x ∉ inl → insts s !! x = Some i → srcRegs i' = srcRegs i → inv (with_inst s x i') a inl seen new.
Proof.
  intros [H1 H2 H3 H4 H5 H6 H7 H8 H9] Hx Hi Hs. split; simpl; try done.
  - intros r pr l y Hr Hy. destruct (H4 r pr l y Hr Hy) as [? (j & Hj & Hsrc)]. split; [done|].
    destruct (decide (y = x)) as [->|Hne].
    + exists i'. rewrite lookup_insert_eq, Hs. by simplify_eq.
    + exists j. by rewrite lookup_insert_ne.
  - intros y Hy. rewrite lookup_insert_ne by (by intros ->). by apply H5.
Qed.

Lemma exact_other s a inl x i' : exact s a inl → x ∉ inl → exact (with_inst s x i') a inl.
Proof. intros He Hx y i r pr l Hy Hi. simpl in Hi. rewrite lookup_insert_ne in Hi by (by intros ->). by eapply He. Qed.

Lemma reads_insert l k q q' d :
  l !! k = Some q → q ≠ (mkReg (Z.of_nat d) false, false) → q' ≠ (mkReg (Z.of_nat d) false, false) → reads d (<[k := q']> l) = reads d l.
Proof.
  intros Hk Hq Hq'. pose proof (take_drop_middle l k q Hk) as E. rewrite insert_take_drop by (by eapply lookup_lt_Some).
  rewrite <-E at 3. unfold reads, vlen. rewrite !filter_app, !filter_cons. rewrite !decide_False by congruence. done.
Qed.

Lemma src_lookup i k r b : srcRegs i !! k = Some r → readySrcRegIdx i !! k = Some b → src i !! k = Some (r, b).
Proof. intros Hr Hb. unfold src. rewrite lookup_zip_with, Hr. simpl. by rewrite Hb. Qed.

Lemma src_set i k r b n :
  srcRegs i !! k = Some r → src (with_sources i (<[k := b]> (readySrcRegIdx i)) n) = <[k := (r, b)]> (src i).
Proof. intros Hr. unfold src. simpl. rewrite insert_zip_with. by rewrite (list_insert_id (srcRegs i) k r Hr). Qed.

Lemma mark_src i : src (markSrcRegReady i) = src i.
Proof. unfold src, markSrcRegReady. by destruct (_ =? _). Qed.

Lemma waiting_idx n a x i k r :
  waiting n a x i k → srcRegs i !! k = Some r → readySrcRegIdx i !! k = Some false →
  let i' := markSrcRegReady (with_sources i (<[k := true]> (readySrcRegIdx i)) (readyRegs i)) in
  waiting n a x i' (S k) ∧ srcRegs i' = srcRegs i ∧ destRegs i' = destRegs i ∧ src i' = <[k := (r, true)]> (src i).
Proof.
  intros [H1 H2 H3 H4 H5 H6] Hr Hb i'. rewrite (unmet_step _ _ _ _ (src_lookup i k r false Hr Hb)) in H4.
  pose proof (unmet_nonneg (drop (S k) (src i))). pose proof (waits_nonneg a x).
  set (i0 := with_sources i _ _) in *. destruct (mark_fields i0) as (M1 & M2 & M3 & M4 & M5 & M6). { unfold is_u8, i0. simpl. lia. }
  assert (Hsrc : src i' = <[k := (r, true)]> (src i)) by (unfold i'; rewrite mark_src; by apply src_set).
  assert (numSrcRegs i' = numSrcRegs i) as M7 by (unfold numSrcRegs, i'; by rewrite M2).
  split; [|done]. split; rewrite ?M7; try done.
  - unfold i'. rewrite M2, M3. simpl. by rewrite length_insert.
  - unfold i'. rewrite M1. simpl. lia.
  - rewrite Hsrc, drop_insert_lt by lia. unfold i'. rewrite M1. simpl. lia.
  - unfold i'. rewrite M6, M1. unfold i0. simpl. change (numSrcRegs (with_sources _ _ _)) with (numSrcRegs i). change (readyToIssue (with_sources _ _ _)) with (readyToIssue i). rewrite H5.
    rewrite (bool_decide_false (readyRegs i = _)) by lia. rewrite orb_false_r. apply Bool.eq_true_iff_eq. rewrite bool_decide_eq_true. lia.
  - intros q Hq. apply H6. rewrite Hsrc in Hq. apply list_elem_of_lookup in Hq as [j Hj]. apply list_lookup_insert_Some in Hj as [(? & ? & _)|[_ Hj]]; [done|].
    by eapply list_elem_of_lookup_2.
Qed.

(** What an instruction is, and the flags that decide whether it has an entry. *)
Definition acore (i : DynInst) : DynInst :=
  let b := status i in
  with_sources (with_status i (mkStatus true (Issued b) true true true true true (SquashedInIQ b) (MemOpDone b) true)) [] 0.

Definition alike (s s' : t) : Prop :=
  instList s' = instList s ∧ nonSpecInsts s' = nonSpecInsts s ∧ count s' = count s ∧ freeEntries s' = freeEntries s ∧
  numEntries s' = numEntries s ∧ squashedSeqNum s' = squashedSeqNum s ∧ calls s `prefix_of` calls s' ∧ ∀ y, acore <$> insts s' !! y = acore <$> insts s !! y.

Global Instance alike_preorder : PreOrder alike.
Proof.
  split; [done|]. intros s1 s2 s3 (? & ? & ? & ? & ? & ? & ? & H) (? & ? & ? & ? & ? & ? & ? & K).
  split_and!; try congruence. by etrans.
Qed.

Lemma core_acore i j : core i = core j → acore i = acore j.
Proof. intros E. change (acore (core i) = acore (core j)). by rewrite E. Qed.

Lemma same_alike s s' : same s s' → alike s s'.
Proof.
  intros (? & ? & ? & ? & ? & ? & ? & H). split_and!; try done. intros y. specialize (H y). destruct (insts s' !! y), (insts s !! y); try done.
  apply (inj Some) in H. simpl. f_equal. by apply core_acore.
Qed.

Lemma mark_acore i : acore (markSrcRegReady i) = acore i.
Proof. unfold markSrcRegReady. by destruct (_ =? _). Qed.

(** What stays while sources are added: the registers, and the lists of registers that
    are not read. *)
Definition kept (s s' : t) (a a' : agraph) (i i' : DynInst) : Prop :=
  regScoreboard s' = regScoreboard s ∧ told s' = told s ∧ alike s s' ∧ srcRegs i' = srcRegs i ∧ destRegs i' = destRegs i ∧
  ∀ r e, a !! r = Some e → mkReg (Z.of_nat r) false ∉ srcRegs i → a' !! r = Some e.

Lemma kept_trans s1 s2 s3 a1 a2 a3 i1 i2 i3 :
  kept s1 s2 a1 a2 i1 i2 → kept s2 s3 a2 a3 i2 i3 → kept s1 s3 a1 a3 i1 i3.
Proof.
  intros (H1 & H2 & H3 & H4 & H5 & H6) (K1 & K2 & K3 & K4 & K5 & K6). split_and!; [congruence|congruence|by etrans|congruence..|].
  intros r e Ha Hn. apply K6; [by apply H6|by rewrite H4].
Qed.

(** The source is marked: its register was produced meanwhile. *)
Lemma insert_marked s a inl seen x i k r :
  inserting s a inl seen x i k → srcRegs i !! k = Some r → readySrcRegIdx i !! k = Some false →
  0 ≤ flatIndex r → regScoreboard s !! Z.to_nat (flatIndex r) = Some true →
  let i' := markSrcRegReady (with_sources i (<[k := true]> (readySrcRegIdx i)) (readyRegs i)) in
  inserting (with_inst s x i') a inl seen x i' (S k) ∧ kept s (with_inst s x i') a a i i'.
Proof.
  intros [Hinv Hex Hnew Hi Hw Hmine] Hr Hb H0 Hbd i'. destruct (waiting_idx _ _ _ _ _ _ Hw Hr Hb) as (Hw' & M1 & M2 & M3). fold i' in Hw', M1, M2, M3.
  assert (Hxl : x ∉ inl) by (intros ?; apply Hnew, (i_seen _ _ _ _ _ Hinv); by right). split.
  - split; try done.
    + by eapply inv_other.
    + by apply exact_other.
    + simpl. by rewrite lookup_insert_eq.
    + simpl. intros d pr l Ha Hd. specialize (Hmine d pr l Ha Hd).
      rewrite (reads_step _ _ _ _ (src_lookup i k r false Hr Hb)) in Hmine.
      assert (Hne : (mkReg (Z.of_nat d) false, false) ≠ (r, false)).
      { intros E. injection E as E. rewrite <-E in Hbd. simpl in Hbd. rewrite Nat2Z.id in Hbd. congruence. }
      rewrite decide_False in Hmine by done. rewrite M3, drop_insert_lt by lia.
      rewrite (reads_insert _ _ _ _ _ (src_lookup i k r false Hr Hb)); [lia|congruence|congruence].
  - unfold kept, alike. split_and!; try done. intros y. simpl. destruct (decide (y = x)) as [->|]; [|by rewrite lookup_insert_ne].
    rewrite lookup_insert_eq, Hi. simpl. f_equal. unfold i'. by rewrite mark_acore.
Qed.

Lemma addSource_spec s a inl seen x i k v :
  inserting s a inl seen x i k → (k < length (srcRegs i))%nat →
  ∃ s' v' a' i', addSource s x (Z.of_nat k) v = Ok (s', v') ∧ inserting s' a' inl seen x i' (S k) ∧ kept s s' a a' i i'.
Proof.
  intros Hins Hk. pose proof Hins as [Hinv Hex Hnew Hi Hw Hmine]. unfold addSource, deref. rewrite Hi. cbn [mbind res_bind].
  assert (Hxl : x ∉ inl) by (intros ?; apply Hnew, (i_seen _ _ _ _ _ Hinv); by right).
  destruct (lookup_lt_is_Some_2 (readySrcRegIdx i) k) as [b Hb]; [pose proof (w_len _ _ _ _ _ Hw); lia|].
  destruct (lookup_lt_is_Some_2 (srcRegs i) k) as [r Hr]; [done|]. pose proof (src_lookup i k r b Hr Hb) as Hsk.
  rewrite (vget_in _ (Z.of_nat k) b) by (lia || by rewrite Nat2Z.id). cbn [mbind res_bind]. destruct b; cbn [negb].
  { exists s, v, a, i. split; [done|]. split; [|done]. split; try done.
    - destruct Hw as [W1 W2 W3 W4 W5 W6]. split; try done. by rewrite (unmet_step _ _ _ _ Hsk) in W4.
    - intros d pr l Ha Hd. specialize (Hmine d pr l Ha Hd). rewrite (reads_step _ _ _ _ Hsk), decide_False in Hmine by congruence. lia. }
  destruct (w_src _ _ _ _ _ Hw r ltac:(by eapply list_elem_of_lookup_2)) as [Hfix Hin].
  rewrite (vget_in _ (Z.of_nat k) r) by (lia || by rewrite Nat2Z.id).
  cbn [mbind res_bind]. rewrite Hfix. destruct (board_entry s a inl seen _ r Hinv Hin Hfix) as ([H0 H1] & pr & l & Ha).
  destruct (lookup_lt_is_Some_2 (regScoreboard s) (Z.to_nat (flatIndex r))) as [bd Hbd]; [unfold vlen in H1; lia|].
  rewrite (vget_in _ _ _ H0 Hbd). cbn [mbind res_bind]. destruct bd; cbn [negb].
  - unfold markSrcRegReady_idx. rewrite vset_in by (apply lookup_lt_Some in Hb; unfold vlen; lia). cbn [mbind res_bind]. rewrite Nat2Z.id.
    destruct (insert_marked s a inl seen x i k r Hins Hr Hb H0 Hbd) as [K1 K2]. eexists _, v, a, _. split; [done|]. split; [exact K1|exact K2].
  - destruct (graph_insert _ _ _ x pr l (i_sim _ _ _ _ _ Hinv) H0 Ha) as (g & -> & Hg). cbn [mbind res_bind].
    assert (Hreg : r = mkReg (Z.of_nat (Z.to_nat (flatIndex r))) false).
    { rewrite Z2Nat.id by lia. destruct r; simpl in *. by subst. }
    assert (Hmem : mkReg (Z.of_nat (Z.to_nat (flatIndex r))) false ∈ srcRegs i).
    { rewrite <-Hreg. by eapply list_elem_of_lookup_2. }
    exists (with_graph s g), true, (<[Z.to_nat (flatIndex r) := (pr, x :: l)]> a), i. split; [done|]. split; [split|]; try done; simpl.
    + by eapply inv_push.
    + eapply (exact_list s); try done. intros y Hy. simpl. rewrite times_cons, decide_False by (by intros ->). lia.
    + destruct Hw as [W1 W2 W3 W4 W5 W6]. split; try done. rewrite (waits_insert a _ _ _ x Ha). simpl.
      rewrite times_cons, decide_True by done. rewrite (unmet_step _ _ _ _ Hsk) in W4. lia.
    + intros d p k' Hd Hbd'. destruct (decide (d = Z.to_nat (flatIndex r))) as [->|Hne].
      * rewrite list_lookup_insert_eq in Hd by (by eapply lookup_lt_Some). simplify_eq. specialize (Hmine _ _ _ Ha Hbd).
        rewrite (reads_step _ _ _ _ Hsk), decide_True in Hmine by (by rewrite <-Hreg). rewrite times_cons, decide_True by done. lia.
      * rewrite list_lookup_insert_ne in Hd by done. specialize (Hmine _ _ _ Hd Hbd').
        rewrite (reads_step _ _ _ _ Hsk), decide_False in Hmine; [lia|]. intros E. injection E as E. apply Hne. rewrite <-E. simpl. by rewrite Nat2Z.id.
    + unfold kept. split_and!; try done. intros d e Hd Hn. rewrite list_lookup_insert_ne; [done|]. by intros <-.
Qed.

Lemma addSources_spec m : ∀ s a inl seen x i k v,
  inserting s a inl seen x i k → (k + m = length (srcRegs i))%nat →
  ∃ s' v' a' i', addSources s x (Z.of_nat k) m v = Ok (s', v') ∧ inserting s' a' inl seen x i' (k + m) ∧ kept s s' a a' i i'.
Proof.
  induction m as [|m IH]; intros s a inl seen x i k v Hins Hk; cbn [addSources].
  - exists s, v, a, i. rewrite Nat.add_0_r. done.
  - destruct (addSource_spec s a inl seen x i k v Hins ltac:(lia)) as (s1 & v1 & a1 & i1 & -> & Hins1 & Hk1). cbn [mbind res_bind].
    replace (Z.of_nat k + 1) with (Z.of_nat (S k)) by lia.
    destruct (IH s1 a1 inl seen x i1 (S k) v1 Hins1) as (s2 & v2 & a2 & i2 & -> & Hins2 & Hk2).
    { destruct Hk1 as (_ & _ & _ & -> & _). lia. }
    exists s2, v2, a2, i2. replace (k + S m)%nat with (S k + m)%nat by lia. split_and!; [done|done|by eapply kept_trans].
Qed.

Lemma addDests_spec x rs : ∀ s a inl seen new X,
  inv s a inl seen new → exact s a X →
  (∀ r, r ∈ rs → isFixedMapping r = false → 0 ≤ flatIndex r < vlen (regScoreboard s) ∧
    (∃ pr, a !! Z.to_nat (flatIndex r) = Some (pr, [])) ∧
    ∀ y i, y ∈ X → insts s !! y = Some i → reads (Z.to_nat (flatIndex r)) (src i) = 0) →
  ∃ s' a', addDests s x rs = Ok s' ∧ inv s' a' inl seen new ∧ exact s' a' X ∧ insts s' = insts s ∧ calls s' = calls s ∧ alike s s' ∧
    length (regScoreboard s') = length (regScoreboard s) ∧ ∀ y, waits a' y = waits a y.
Proof.
  induction rs as [|r rs IH]; intros s a inl seen new X Hinv Hex Hrs; cbn [addDests]; [by exists s, a|].
  destruct (isFixedMapping r) eqn:Hf; cbn [mbind res_bind].
  { apply IH; [done|done|]. intros q Hq. apply Hrs. by right. }
  destruct (Hrs r ltac:(by left) Hf) as ([H0 H1] & (pr & Ha) & Hrd).
  rewrite (graph_empty _ _ _ pr [] (i_sim _ _ _ _ _ Hinv) H0 Ha), bool_decide_true by done. cbn [mbind res_bind negb].
  destruct (graph_producer _ _ _ (Some x) pr [] (i_sim _ _ _ _ _ Hinv) H0 Ha) as (g & -> & Hg). cbn [mbind res_bind].
  rewrite vset_in by done. cbn [mbind res_bind].
  pose proof (inv_producer s a inl seen new _ pr (Some x) g Hinv Ha Hg false) as Hinv1. set (s1 := with_board _ _) in *.
  assert (Hex1 : exact s1 (<[Z.to_nat (flatIndex r) := (Some x, [])]> a) X).
  { eapply (exact_insert s s1 a X _ _ false); try done; [unfold vlen in H1; lia|by eapply lookup_lt_Some|by right]. }
  destruct (IH s1 _ inl seen new X Hinv1 Hex1) as (s' & a' & -> & Hinv' & Hex' & Hi & Hc & Hal & Hl & Hw).
  { intros q Hq Hqf. unfold s1. simpl. unfold vlen. rewrite length_insert. destruct (Hrs q ltac:(by right) Hqf) as (Hq1 & (p & Hp) & Hq2).
    split; [done|]. split; [|done]. destruct (decide (Z.to_nat (flatIndex q) = Z.to_nat (flatIndex r))) as [->|Hne].
    - exists (Some x). apply list_lookup_insert_eq. by eapply lookup_lt_Some.
    - exists p. by rewrite list_lookup_insert_ne. }
  exists s', a'. split_and!; try done.
  - rewrite Hl. unfold s1. simpl. apply length_insert.
  - intros y. rewrite Hw. by apply (waits_producer a _ pr).
Qed.

(** ** Squashing *)

(** Source [k] of [x] is the next one that [removeSources] looks at. *)
Record removing (s : t) (a : agraph) (inl seen : gset positive) (x : positive) (i : DynInst) (k : nat) : Prop := {
  v_inv : inv s a inl seen (Some x);
  v_exact : exact s a inl;
  v_new : x ∉ inl;
  v_inst : insts s !! x = Some i;
  v_len : (length (srcRegs i) ≤ length (readySrcRegIdx i))%nat;
  v_src : ∀ r, (r, false) ∈ src i → isFixedMapping r = false ∧ in_board (vlen (regScoreboard s)) r = true;
  v_mine : ∀ r pr l, a !! r = Some (pr, l) → regScoreboard s !! r = Some false → times x l = reads r (drop k (src i))
}.

(** An occurrence of [x] leaves the list of [r]. *)
Lemma inv_drop s a inl seen x r pr l g :
  inv s a inl seen (Some x) → x ∉ inl → a !! r = Some (pr, l) → x ∈ l → DG.sim g (<[r := (pr, DG.remove_first x l)]> a) →
  inv (with_graph s g) (<[r := (pr, DG.remove_first x l)]> a) inl seen (Some x).
Proof.
  intros [H1 H2 H3 H4 H5 H6 H7 H8 H9] Hx Ha Hxl Hg.
  assert (Hw : ∀ y, y ∈ inl → waits (<[r := (pr, DG.remove_first x l)]> a) y = waits a y).
  { intros y Hy. rewrite (waits_insert a r _ _ y Ha). simpl. rewrite times_remove_first, decide_False by (done || by intros ->). lia. }
  split; simpl; try done.
  - by rewrite length_insert.
  - intros d p k Hd Hk. destruct (decide (d = r)) as [->|Hne].
    + rewrite (H3 _ _ _ Hd Ha) in Hxl. by apply elem_of_nil in Hxl.
    + rewrite list_lookup_insert_ne in Hk by done. by eapply H3.
  - intros d p k y Hd Hy. destruct (decide (d = r)) as [->|Hne].
    + rewrite list_lookup_insert_eq in Hd by (by eapply lookup_lt_Some). simplify_eq. eapply H4; [done|].
      apply times_pos. apply times_pos in Hy. rewrite times_remove_first in Hy by done. destruct (decide (y = x)); lia.
    + rewrite list_lookup_insert_ne in Hd by done. by eapply H4.
  - intros y Hy. destruct (H5 y Hy) as (j & Hj & Hjw). exists j. split; [done|]. eapply waiting_waits; [|done]. by apply Hw.
  - intros y Hy. rewrite Hw by done. by apply H6.
Qed.

Lemma inv_graph s a inl seen new g : inv s a inl seen new → DG.sim g a → inv (with_graph s g) a inl seen new.
Proof. intros [H1 H2 H3 H4 H5 H6 H7 H8 H9] Hg. by split. Qed.

Definition removed (s s' : t) : Prop :=
  insts s' = insts s ∧ calls s' = calls s ∧ regScoreboard s' = regScoreboard s ∧ alike s s'.

Lemma remove_one s a inl seen x i k r :
  removing s a inl seen x i k → src i !! k = Some (r, false) →
  ∃ g a', DG.remove (dependGraph s) (flatIndex r) x = Ok g ∧ removing (with_graph s g) a' inl seen x i (S k).
Proof.
  intros [Hinv Hex Hnew Hi Hlen Hsrc Hmine] Hk. destruct (Hsrc r ltac:(by eapply list_elem_of_lookup_2)) as [Hfix Hin].
  destruct (board_entry s a inl seen _ r Hinv Hin Hfix) as ([H0 H1] & pr & l & Ha).
  assert (Hreg : r = mkReg (Z.of_nat (Z.to_nat (flatIndex r))) false).
  { rewrite Z2Nat.id by lia. destruct r; simpl in *. by subst. }
  assert (Hother : ∀ d, d ≠ Z.to_nat (flatIndex r) → reads d (drop k (src i)) = reads d (drop (S k) (src i))).
  { intros d Hd. rewrite (reads_step _ _ _ _ Hk), decide_False; [lia|]. intros E. injection E as E. apply Hd. rewrite <-E. simpl. by rewrite Nat2Z.id. }
  destruct (lookup_lt_is_Some_2 (regScoreboard s) (Z.to_nat (flatIndex r))) as [bd Hbd]; [unfold vlen in H1; lia|]. destruct bd.
  - pose proof (i_board _ _ _ _ _ Hinv _ _ _ Hbd Ha) as ->.
    destruct (graph_remove _ _ _ x pr [] (i_sim _ _ _ _ _ Hinv) H0 Ha ltac:(by left)) as (g & Hg & Hs). simpl in Hs. rewrite list_insert_id in Hs by done.
    exists g, a. split; [done|]. split; try done; [by apply inv_graph|]. intros d p q Hd Hb. simpl in Hb. rewrite (Hmine d p q Hd Hb). apply Hother. congruence.
  - pose proof (Hmine _ _ _ Ha Hbd) as Ht. rewrite (reads_step _ _ _ _ Hk), decide_True in Ht by (by rewrite <-Hreg).
    pose proof (reads_nonneg (Z.to_nat (flatIndex r)) (drop (S k) (src i))). assert (Hxl : x ∈ l) by (apply times_pos; lia).
    destruct (graph_remove _ _ _ x pr l (i_sim _ _ _ _ _ Hinv) H0 Ha ltac:(by right)) as (g & Hg & Hs).
    exists g, (<[Z.to_nat (flatIndex r) := (pr, DG.remove_first x l)]> a). split; [done|]. split; try done; simpl.
    + by apply inv_drop.
    + eapply (exact_list s); try done. intros y Hy. simpl. rewrite times_remove_first, decide_False by (done || by intros ->). lia.
    + intros d p q Hd Hb. destruct (decide (d = Z.to_nat (flatIndex r))) as [->|Hne].
      * rewrite list_lookup_insert_eq in Hd by (by eapply lookup_lt_Some). simplify_eq. rewrite times_remove_first, decide_True by done. lia.
      * rewrite list_lookup_insert_ne in Hd by done. rewrite (Hmine d p q Hd Hb). by apply Hother.
Qed.

Lemma removeSources_spec m : ∀ s a inl seen x i k,
  removing s a inl seen x i k → (k + m = length (srcRegs i))%nat →
  ∃ s' a', removeSources s x (Z.of_nat k) m = Ok s' ∧ removing s' a' inl seen x i (k + m) ∧ removed s s'.
Proof.
  induction m as [|m IH]; intros s a inl seen x i k Hrem Hk; cbn [removeSources].
  { exists s, a. rewrite Nat.add_0_r. done. }
  pose proof Hrem as [Hinv Hex Hnew Hi Hlen Hsrc Hmine]. unfold deref. rewrite Hi. cbn [mbind res_bind].
  destruct (lookup_lt_is_Some_2 (readySrcRegIdx i) k) as [b Hb]; [lia|]. destruct (lookup_lt_is_Some_2 (srcRegs i) k) as [r Hr]; [lia|].
  pose proof (src_lookup i k r b Hr Hb) as Hsk. rewrite (vget_in _ (Z.of_nat k) r) by (lia || by rewrite Nat2Z.id). cbn [mbind res_bind].
  rewrite (vget_in _ (Z.of_nat k) b) by (lia || by rewrite Nat2Z.id). cbn [mbind res_bind].
  replace (Z.of_nat k + 1) with (Z.of_nat (S k)) by lia. replace (k + S m)%nat with (S k + m)%nat by lia. destruct b; cbn [negb andb mbind res_bind].
  - apply (IH s a); [|lia]. split; try done. intros d pr l Hd Hbd. rewrite (Hmine d pr l Hd Hbd), (reads_step _ _ _ _ Hsk), decide_False by congruence. lia.
  - destruct (Hsrc r ltac:(by eapply list_elem_of_lookup_2)) as [-> _]. cbn [negb].
    destruct (remove_one s a inl seen x i k r Hrem Hsk) as (g & a1 & -> & Hrem1). cbn [mbind res_bind].
    destruct (IH (with_graph s g) a1 inl seen x i (S k) Hrem1 ltac:(lia)) as (s' & a' & Hs' & Hrem' & Hk1 & Hk2 & Hk3 & Hk4).
    exists s', a'. split_and!; try done.
Qed.

(** [x] is on no list any more. *)
Lemma removing_done s a inl seen x i : removing s a inl seen x i (length (srcRegs i)) → inv s a inl seen None.
Proof.
  intros [[H1 H2 H3 H4 H5 H6 H7 H8 H9] Hex Hnew Hi Hlen Hsrc Hmine]. split; try done.
  intros r pr l y Hr Hy. destruct (H4 r pr l y Hr Hy) as [[Hin|E] Hj]; [split; [by left|done]|]. injection E as <-.
  destruct (lookup_lt_is_Some_2 (regScoreboard s) r) as [[] Hb]; [rewrite H2; by eapply lookup_lt_Some| |].
  - rewrite (H3 r pr l Hb Hr) in Hy. by apply elem_of_nil in Hy.
  - specialize (Hmine r pr l Hr Hb). rewrite src_drop in Hmine by done. change (reads r []) with 0 in Hmine. apply times_pos in Hy. lia.
Qed.

(** Squashing [x] starts. *)
Lemma removing_start s a inl seen x i :
  inv s a inl seen None → exact s a inl → x ∈ inl → insts s !! x = Some i → removing s a (inl ∖ {[x]}) seen x i 0.
Proof.
  intros [H1 H2 H3 H4 H5 H6 H7 H8 H9] Hex Hx Hi. destruct (H5 x Hx) as (i0 & Hi0 & Hw). simplify_eq. split; try done.
  - split; try done.
    + intros r pr l y Hr Hy. destruct (H4 r pr l y Hr Hy) as [[Hin|?] Hj]; [|done]. split; [|done].
      destruct (decide (y = x)) as [->|]; [by right|left; set_solver].
    + intros y Hy. apply H5. set_solver.
    + intros y Hy. apply H6. set_solver.
    + intros y Hy. apply H8. set_solver.
    + intros q y Hq. destruct (H9 q y Hq) as (? & ? & ?). split_and!; [done|set_solver|done].
  - intros y j r pr l Hy. apply Hex. set_solver.
  - set_solver.
  - by destruct Hw.
  - by destruct Hw.
  - intros r pr l Hr Hb. rewrite drop_0. by eapply Hex.
Qed.

(** An instruction that waits for nothing leaves. *)
Lemma inv_leave s a inl seen x : inv s a inl seen None → exact s a inl → waits a x = 0 → inv s a (inl ∖ {[x]}) seen None ∧ exact s a (inl ∖ {[x]}).
Proof.
  intros [H1 H2 H3 H4 H5 H6 H7 H8 H9] Hex Hw. split; [|intros y j r pr l Hy; apply Hex; set_solver]. split; try done.
  - intros r pr l y Hr Hy. destruct (H4 r pr l y Hr Hy) as [[Hin|?] Hj]; [|done]. split; [|done].
    destruct (decide (y = x)) as [->|]; [|left; set_solver]. assert (0 < waits a x) by (apply waits_pos; eexists _, _; done). lia.
  - intros y Hy. apply H5. set_solver.
  - intros y Hy. apply H6. set_solver.
  - intros y Hy. apply H8. set_solver.
  - intros q y Hq. destruct (H9 q y Hq) as (? & ? & ?). split_and!; [done|set_solver|done].
Qed.

(** ** Entering completes *)
Lemma inserting_done s a inl seen x i c :
  inserting s a inl seen x i (length (srcRegs i)) → x ∉ told s → (told_one c = if readyToIssue i then Some x else None) →
  inv (do_call s c) a ({[x]} ∪ inl) ({[x]} ∪ seen) None ∧ exact (do_call s c) a ({[x]} ∪ inl).
Proof.
  intros [[H1 H2 H3 H4 H5 H6 H7 H8 H9] Hex Hnew Hi Hw Hmine] Hxt Hc. pose proof (waiting_done _ _ _ _ Hw) as [Hsum Hrd].
  assert (Ht : told (do_call s c) = told s ++ if bool_decide (waits a x = 0) then [x] else []).
  { rewrite told_call, Hc, Hrd. by case_bool_decide. }
  split; [split; rewrite ?Ht; try done|]; simpl.
  - intros r pr l y Hr Hy. destruct (H4 r pr l y Hr Hy) as [[?|E] ?]; [|injection E as <-]; (split; [left; set_solver|done]).
  - intros y Hy. destruct (decide (y = x)) as [->|]; [by exists i|]. apply H5. set_solver.
  - intros y Hy. rewrite elem_of_app. destruct (decide (y = x)) as [->|Hne].
    + case_bool_decide; rewrite ?list_elem_of_singleton, ?elem_of_nil; naive_solver.
    + rewrite H6 by set_solver. case_bool_decide; rewrite ?list_elem_of_singleton, ?elem_of_nil; naive_solver.
  - case_bool_decide; [|by rewrite app_nil_r]. apply NoDup_app. split_and!; [done|set_solver|apply NoDup_singleton].
  - intros y. rewrite elem_of_app. specialize (H8 y). case_bool_decide; set_solver.
  - intros q y Hq. destruct (H9 q y Hq) as (K1 & K2 & K3). assert (y ≠ x) by (by intros ->). rewrite elem_of_app. case_bool_decide; set_solver.
  - intros y j r pr l Hy Hj Hr Hb. simpl in Hj, Hb. destruct (decide (y = x)) as [->|].
    + simplify_eq. specialize (Hmine r pr l Hr Hb). rewrite src_drop in Hmine by done. change (reads r []) with 0 in Hmine. lia.
    + eapply Hex; [set_solver|done..].
Qed.
End WakeupInv.
