(* ===== verification/WakeupAcct.v ===== *)
(** * Entries of the instruction queue

    The lists of instructions per thread, the counts of entries in use and the free
    entries agree, and entering, leaving, committing and squashing keep it so. *)

From stdpp Require Import sorting.
From S2P Require Import Prelude DepGraph Wakeup WakeupInv.

Module WakeupAcct.
Import Wakeup WakeupInv.

Definition inst_of {A} (f : DynInst → A) (d : A) (s : t) (x : positive) : A := from_option f d (insts s !! x).
Notation seq_of := (inst_of seqNum 0).
Notation holds := (inst_of holds_entry false).

(** The entries that the instructions of a list hold. *)
Definition held (s : t) (l : list positive) : Z := vlen (filter (λ x, holds s x = true) l).

(** The entries that all instructions of the lists hold. *)
Definition entries_held (s : t) : Z := held s (concat (instList s)).

(** What instructions are, apart from what waiting changes. *)
Record acct (s : t) (inl seen : gset positive) : Prop := {
  c_len : length (instList s) = length (count s) ∧ length (squashedSeqNum s) = length (instList s);
  c_nodup : NoDup (concat (instList s));
  c_seen : ∀ x, x ∈ concat (instList s) → x ∈ seen;
  c_inst : ∀ tid l x, instList s !! tid = Some l → x ∈ l →
    ∃ i, insts s !! x = Some i ∧ threadNumber i = Z.of_nat tid ∧ SquashedInIQ (status i) = false ∧
      (Issued (status i) = true → x ∈ told s);
  c_count : ∀ tid l, instList s !! tid = Some l → count s !! tid = Some (held s l);
  c_free : 0 ≤ freeEntries s ∧ freeEntries s + entries_held s = numEntries s ∧ is_u32 (numEntries s);
  c_inl : ∀ x, x ∈ inl ↔ x ∈ concat (instList s) ∧ inst_of (λ i, speculative (staticInst i)) false s x = true;
  c_sorted : ∀ tid l, instList s !! tid = Some l → StronglySorted (λ x y, seq_of s x < seq_of s y) l
}.

(** ** The lists *)
Lemma elem_concat {A} (ls : list (list A)) x : x ∈ concat ls ↔ ∃ k l, ls !! k = Some l ∧ x ∈ l.
Proof.
  rewrite list_elem_of_In, in_concat. split.
  - intros (l & Hl & Hx). apply list_elem_of_In in Hl, Hx. apply list_elem_of_lookup in Hl as [k Hk]. eauto.
  - intros (k & l & Hk & Hx). exists l. rewrite <-!list_elem_of_In. split; [by eapply list_elem_of_lookup_2|done].
Qed.

Lemma held_app s l k : held s (l ++ k) = held s l + held s k.
Proof. unfold held, vlen. rewrite filter_app, length_app. lia. Qed.

Lemma held_perm s l k : l ≡ₚ k → held s l = held s k.
Proof. intros Hp. unfold held, vlen. by rewrite Hp. Qed.

Lemma held_nonneg s l : 0 ≤ held s l.
Proof. unfold held, vlen. lia. Qed.

Lemma held_ext s s' l : (∀ x, x ∈ l → holds s' x = holds s x) → held s' l = held s l.
Proof.
  intros H. induction l as [|x l IH]; [done|]. change (x :: l) with ([x] ++ l). rewrite !held_app, IH by set_solver. f_equal.
  unfold held. rewrite !filter_cons, !filter_nil. rewrite H by set_solver. done.
Qed.

Lemma held_one s x : held s [x] = if holds s x then 1 else 0.
Proof. unfold held. rewrite filter_cons, filter_nil. by destruct (holds s x). Qed.

(** One list is replaced. *)
Lemma brute_replace s ls k l l' :
  ls !! k = Some l → held s (concat (<[k := l']> ls)) + held s l = held s (concat ls) + held s l'.
Proof. intros Hk. rewrite <-!held_app. apply held_perm. by apply DependencyGraph.concat_perm. Qed.

Lemma brute_split s ls k l : ls !! k = Some l → held s l ≤ held s (concat ls).
Proof.
  intros Hk. pose proof (brute_replace s ls k l [] Hk) as E. pose proof (held_nonneg s (concat (<[k := []]> ls))).
  change (held s []) with 0 in E. lia.
Qed.

(** An instruction is on one list, once. *)
Lemma nodup_one s inl seen k k' l l' x :
  acct s inl seen → instList s !! k = Some l → instList s !! k' = Some l' → x ∈ l → x ∈ l' → k = k'.
Proof.
  intros Ha Hk Hk' Hx Hx'. destruct (c_inst _ _ _ Ha k l x Hk Hx) as (i & Hi & Ht & _).
  destruct (c_inst _ _ _ Ha k' l' x Hk' Hx') as (j & Hj & Ht' & _). simplify_eq. lia.
Qed.

Lemma wk_sorted_ext s s' l :
  (∀ x, x ∈ l → seq_of s' x = seq_of s x) → StronglySorted (λ x y, seq_of s x < seq_of s y) l → StronglySorted (λ x y, seq_of s' x < seq_of s' y) l.
Proof.
  intros Hq Hs. induction Hs as [|x k Hk IH Hx]; constructor; [apply IH; set_solver|].
  rewrite Forall_forall in Hx |- *. intros y Hy. rewrite !Hq by set_solver. by apply Hx.
Qed.

(** ** Steps that the account does not see *)
Lemma alike_inst {A} (f : DynInst → A) d s s' x :
  (∀ i j, acore i = acore j → f i = f j) → alike s s' → inst_of f d s' x = inst_of f d s x.
Proof.
  intros Hf (_ & _ & _ & _ & _ & _ & _ & H). specialize (H x). unfold inst_of.
  destruct (insts s' !! x), (insts s !! x); try done. apply (inj Some) in H. simpl. by apply Hf.
Qed.

Lemma acore_fields i j :
  acore i = acore j → staticInst i = staticInst j ∧ seqNum i = seqNum j ∧ threadNumber i = threadNumber j ∧
  Issued (status i) = Issued (status j) ∧ SquashedInIQ (status i) = SquashedInIQ (status j) ∧ holds_entry i = holds_entry j.
Proof.
  destruct i as [? ? ? ? ? ? ? []], j as [? ? ? ? ? ? ? []]. unfold acore, with_sources, setCanIssue, with_status, holds_entry. simpl.
  intros [=]; subst. done.
Qed.

Lemma told_prefix s s' x : calls s `prefix_of` calls s' → x ∈ told s → x ∈ told s'.
Proof. intros [k E] Hx. unfold told. rewrite E, omap_app. set_solver. Qed.

Lemma acct_alike s s' inl seen : alike s s' → acct s inl seen → acct s' inl seen.
Proof.
  intros Hal [H1 H2 H3 H4 H5 H6 H7 H8].
  assert (Hh : ∀ l, held s' l = held s l).
  { intros l. apply held_ext. intros x _. apply alike_inst; [|done]. by intros i j (? & ? & ? & ? & ? & ?)%acore_fields. }
  assert (Hq : ∀ x, seq_of s' x = seq_of s x) by (intros x; apply alike_inst; [|done]; by intros i j (? & ? & ? & ? & ? & ?)%acore_fields).
  pose proof (λ x, alike_inst (λ i, speculative (staticInst i)) false s s' x (λ i j E, f_equal speculative (proj1 (acore_fields i j E))) Hal) as Hsp.
  pose proof Hal as (E1 & E2 & E3 & E4 & E5 & E6 & E7 & E8).
  split; unfold entries_held; rewrite ?E1, ?E3, ?E4, ?E5, ?E6; try done.
  - intros tid l x Hl Hx. destruct (H4 tid l x Hl Hx) as (i & Hi & Ht & Hs & Htold). specialize (E8 x). rewrite Hi in E8. simpl in E8.
    destruct (insts s' !! x) as [j|]; [|done]. apply (inj Some) in E8. apply acore_fields in E8 as (_ & _ & Ft & Fi & Fs & _).
    exists j. split_and!; [done|congruence|congruence|]. rewrite Fi. intros ?. eapply told_prefix; [done|by apply Htold].
  - intros tid l Hl. rewrite Hh. by apply H5.
  - rewrite Hh. done.
  - intros x. rewrite Hsp. done.
  - intros tid l Hl. eapply wk_sorted_ext; [|by eapply H8]. done.
Qed.

(** ** Steps of one instruction *)
Definition others (s s' : t) (x : positive) : Prop :=
  numEntries s' = numEntries s ∧ squashedSeqNum s' = squashedSeqNum s ∧ calls s `prefix_of` calls s' ∧
  ∀ y, y ≠ x → acore <$> insts s' !! y = acore <$> insts s !! y.

Lemma others_inst {A} (f : DynInst → A) d s s' x y :
  (∀ i j, acore i = acore j → f i = f j) → others s s' x → y ≠ x → inst_of f d s' y = inst_of f d s y.
Proof.
  intros Hf (_ & _ & _ & H) Hy. specialize (H y Hy). unfold inst_of.
  destruct (insts s' !! y), (insts s !! y); try done. apply (inj Some) in H. simpl. by apply Hf.
Qed.

Lemma others_fields s s' x y :
  others s s' x → y ≠ x →
  holds s' y = holds s y ∧ seq_of s' y = seq_of s y ∧
  inst_of (λ i, speculative (staticInst i)) false s' y = inst_of (λ i, speculative (staticInst i)) false s y.
Proof.
  intros Ho Hy. split_and!; (eapply others_inst; [|done|done]); intros i j (E & ? & ? & ? & ? & ?)%acore_fields; try done. by rewrite E.
Qed.

Lemma others_thread s s' x y k :
  others s s' x → y ≠ x →
  (∃ i, insts s !! y = Some i ∧ threadNumber i = k ∧ SquashedInIQ (status i) = false ∧ (Issued (status i) = true → y ∈ told s)) →
  ∃ i, insts s' !! y = Some i ∧ threadNumber i = k ∧ SquashedInIQ (status i) = false ∧ (Issued (status i) = true → y ∈ told s').
Proof.
  intros (_ & _ & Hc & H) Hy (i & Hi & Ht & Hs & Htold). specialize (H y Hy). rewrite Hi in H. simpl in H.
  destruct (insts s' !! y) as [j|]; [|done]. apply (inj Some) in H. apply acore_fields in H as (_ & _ & F1 & F2 & F3 & _).
  exists j. split_and!; [done|congruence|congruence|]. rewrite F2. intros ?. eapply told_prefix; [done|by apply Htold].
Qed.

Lemma others_held s s' x l : others s s' x → x ∉ l → held s' l = held s l.
Proof. intros Ho Hx. apply held_ext. intros y Hy. apply (others_fields s s' x); [done|]. by intros ->. Qed.

Lemma others_sorted s s' x l :
  others s s' x → x ∉ l → StronglySorted (λ x y, seq_of s x < seq_of s y) l → StronglySorted (λ x y, seq_of s' x < seq_of s' y) l.
Proof. intros Ho Hx. apply wk_sorted_ext. intros y Hy. apply (others_fields s s' x); [done|]. by intros ->. Qed.

(** Elements of an updated list of lists. *)
Lemma elem_concat_insert (ls : list (list positive)) k l l' y :
  ls !! k = Some l → NoDup (concat ls) → y ∈ concat (<[k := l']> ls) ↔ y ∈ l' ∨ (y ∈ concat ls ∧ y ∉ l).
Proof.
  intros Hk Hn. rewrite !elem_concat. split.
  - intros (j & m & Hj & Hy). apply list_lookup_insert_Some in Hj as [(-> & <- & _)|[Hne Hj]]; [by left|right]. split; [eauto|].
    intros Hyl. pose proof (DependencyGraph.concat_perm ls k l [] Hk) as Hp. rewrite app_nil_r in Hp. rewrite <-Hp in Hn.
    apply NoDup_app in Hn as (_ & Hd & _). apply (Hd y); [|done]. apply elem_concat. exists j, m. by rewrite list_lookup_insert_ne.
  - intros [Hy|[(j & m & Hj & Hy) Hyl]].
    + exists k, l'. rewrite list_lookup_insert_eq by (by eapply lookup_lt_Some). done.
    + exists j, m. rewrite list_lookup_insert_ne; [done|]. by intros <-; simplify_eq.
Qed.

Lemma concat_snoc (ls : list (list positive)) k l x : ls !! k = Some l → concat (<[k := l ++ [x]]> ls) ≡ₚ x :: concat ls.
Proof.
  intros Hk. rewrite (DependencyGraph.concat_cons (<[k := l ++ [x]]> ls) k l x []).
  - by rewrite list_insert_insert_eq, app_nil_r, list_insert_id.
  - apply list_lookup_insert_eq. by eapply lookup_lt_Some.
Qed.

(** *** Entering *)
Lemma acct_enter s s' inl seen k l x i' :
  acct s inl seen → x ∉ seen → instList s !! k = Some l → others s s' x →
  insts s' !! x = Some i' → threadNumber i' = Z.of_nat k → SquashedInIQ (status i') = false → Issued (status i') = false →
  Forall (λ y, seq_of s y < seqNum i') l → freeEntries s ≠ 0 →
  instList s' = <[k := l ++ [x]]> (instList s) → count s' = <[k := held s l + 1]> (count s) → freeEntries s' = freeEntries s - 1 →
  acct s' (if speculative (staticInst i') then {[x]} ∪ inl else inl) ({[x]} ∪ seen).
Proof.
  intros Ha Hx Hk Ho Hi' Ht Hs Hnis Hseq Hf El Ec Ef. pose proof Ha as [H1 H2 H3 H4 H5 H6 H7 H8]. pose proof Ho as (E1 & E2 & E3 & _).
  assert (Hxc : x ∉ concat (instList s)) by (by intros ?%H3).
  assert (Hxl : ∀ j m, instList s !! j = Some m → x ∉ m) by (intros j m Hj Hm; apply Hxc, elem_concat; eauto).
  assert (Hh : holds s' x = true) by (unfold inst_of; rewrite Hi'; simpl; unfold holds_entry; by rewrite Hnis).
  assert (Hlen : (k < length (instList s))%nat) by (by eapply lookup_lt_Some).
  split; unfold entries_held; rewrite ?El, ?Ec, ?Ef, ?E1, ?E2, ?length_insert; try done.
  - rewrite concat_snoc by done. by apply NoDup_cons.
  - intros y. rewrite concat_snoc by done. rewrite elem_of_cons. specialize (H3 y). set_solver.
  - intros j m y Hj Hy. assert (y = x ∧ j = k ∨ y ≠ x ∧ ∃ m', instList s !! j = Some m' ∧ y ∈ m') as [[-> ->]|[Hne (m' & Hm' & Hy')]].
    { apply list_lookup_insert_Some in Hj as [(-> & <- & _)|[Hne Hj]].
      - apply elem_of_app in Hy as [Hy| ->%list_elem_of_singleton]; [|by left]. right. split; [by intros ->; eapply Hxl|eauto].
      - right. split; [by intros ->; eapply Hxl|eauto]. }
    + exists i'. split_and!; try done. by rewrite Hnis.
    + eapply others_thread; [done|done|by eapply H4].
  - intros j m Hj. apply list_lookup_insert_Some in Hj as [(-> & <- & _)|[Hne Hj]].
    + rewrite list_lookup_insert_eq by lia. rewrite held_app, held_one, Hh, (others_held s s' x) by (done || by eapply Hxl). done.
    + rewrite list_lookup_insert_ne by done. rewrite (others_held s s' x) by (done || by eapply Hxl). by apply H5.
  - rewrite (held_perm _ _ _ (concat_snoc _ _ _ x Hk)). change (x :: ?q) with ([x] ++ q). rewrite held_app, held_one, Hh, (others_held s s' x) by done.
    unfold entries_held in H6. destruct H6 as (? & ? & ?). split_and!; [lia|lia|done].
  - intros y. rewrite concat_snoc, elem_of_cons by done. destruct (decide (y = x)) as [->|Hne].
    + unfold inst_of. rewrite Hi'. simpl. destruct (speculative _) eqn:Hsp; [set_solver|]. rewrite H7. naive_solver.
    + destruct (others_fields s s' x y Ho Hne) as (_ & _ & ->). specialize (H7 y). destruct (speculative _); set_solver.
  - intros j m Hj. apply list_lookup_insert_Some in Hj as [(-> & <- & _)|[Hne Hj]].
    + apply StronglySorted_app_2; [|by eapply others_sorted; eauto|repeat constructor].
      intros y z Hy ->%list_elem_of_singleton. rewrite Forall_forall in Hseq. destruct (others_fields s s' x y Ho) as (_ & -> & _).
      { intros ->. by eapply Hxl. }
      unfold inst_of at 2. rewrite Hi'. by apply Hseq.
    + eapply others_sorted; eauto.
Qed.

Definition b2z (b : bool) : Z := if b then 1 else 0.

Lemma held_member s s' inl seen k l x :
  acct s inl seen → instList s !! k = Some l → x ∈ l → others s s' x →
  held s' l = held s l - b2z (holds s x) + b2z (holds s' x).
Proof.
  intros Ha Hk Hx Ho. pose proof (c_nodup _ _ _ Ha) as Hn.
  pose proof (DependencyGraph.concat_perm (instList s) k l [] Hk) as Hp. rewrite app_nil_r in Hp. rewrite <-Hp in Hn.
  apply NoDup_app in Hn as (_ & _ & Hn). apply list_elem_of_split in Hx as (l1 & l2 & ->).
  apply NoDup_app in Hn as (_ & Hd & Hn). apply NoDup_cons in Hn as [Hx2 _].
  assert (Hx1 : x ∉ l1) by (intros ?; by eapply Hd; [|left]).
  change (x :: l2) with ([x] ++ l2). rewrite !held_app, !held_one, !(others_held s s' x) by done. unfold b2z. lia.
Qed.

Lemma held_elsewhere s s' inl seen k l j m x :
  acct s inl seen → instList s !! k = Some l → x ∈ l → others s s' x → instList s !! j = Some m → j ≠ k → held s' m = held s m.
Proof.
  intros Ha Hk Hx Ho Hj Hne. eapply others_held; [done|]. intros Hm. by pose proof (nodup_one s inl seen k j l m x Ha Hk Hj Hx Hm).
Qed.

Lemma brute_member s s' inl seen k l x :
  acct s inl seen → instList s !! k = Some l → x ∈ l → others s s' x →
  held s' (concat (instList s)) = entries_held s - b2z (holds s x) + b2z (holds s' x).
Proof.
  intros Ha Hk Hx Ho. pose proof (held_member s s' inl seen k l x Ha Hk Hx Ho) as Hm.
  pose proof (brute_replace s _ k l [] Hk) as E. pose proof (brute_replace s' _ k l [] Hk) as E'.
  change (held s []) with 0 in E. change (held s' []) with 0 in E'. rewrite (others_held s s' x) in E'.
  - unfold entries_held. lia.
  - done.
  - rewrite (elem_concat_insert _ k l) by (done || by destruct Ha). intros [?%elem_of_nil|[_ ?]]; done.
Qed.

(** *** An instruction of the queue changes *)
Lemma acct_change s s' inl seen k l x i i' :
  acct s inl seen → instList s !! k = Some l → x ∈ l → others s s' x →
  insts s !! x = Some i → insts s' !! x = Some i' →
  staticInst i' = staticInst i → seqNum i' = seqNum i → threadNumber i' = threadNumber i → SquashedInIQ (status i') = false →
  (Issued (status i') = true → x ∈ told s') →
  instList s' = instList s → count s' = <[k := held s l - b2z (holds_entry i) + b2z (holds_entry i')]> (count s) →
  freeEntries s' = freeEntries s + b2z (holds_entry i) - b2z (holds_entry i') → (holds_entry i = false → holds_entry i' = false) →
  acct s' inl seen.
Proof.
  intros Ha Hk Hx Ho Hi Hi' F1 F2 F3 F4 Htold El Ec Ef Hmon. pose proof Ha as [H1 H2 H3 H4 H5 H6 H7 H8]. pose proof Ho as (E1 & E2 & E3 & _).
  assert (holds s x = holds_entry i ∧ holds s' x = holds_entry i') as [Hhx Hhx'] by (unfold inst_of; by rewrite Hi, Hi').
  assert (Hf : ∀ y, seq_of s' y = seq_of s y ∧ inst_of (λ i, speculative (staticInst i)) false s' y = inst_of (λ i, speculative (staticInst i)) false s y).
  { intros y. destruct (decide (y = x)) as [->|Hne]; [|by destruct (others_fields s s' x y Ho Hne) as (_ & ? & ?)].
    unfold inst_of. rewrite Hi, Hi'. simpl. by rewrite F1, F2. }
  split; unfold entries_held; rewrite ?El, ?Ec, ?Ef, ?E1, ?E2, ?length_insert; try done.
  - intros j m y Hj Hy. destruct (decide (y = x)) as [->|Hne]; [|eapply others_thread; [done|done|by eapply H4]].
    exists i'. destruct (H4 j m x Hj Hy) as (i0 & Hi0 & Ht & _). simplify_eq. split_and!; try done. congruence.
  - intros j m Hj. destruct (decide (j = k)) as [->|Hne].
    + simplify_eq. assert (Hkc : (k < length (count s))%nat) by (destruct H1 as [<- _]; by eapply lookup_lt_Some).
      rewrite list_lookup_insert_eq by done. rewrite (held_member s s' inl seen k l x), Hhx, Hhx' by done. done.
    + rewrite list_lookup_insert_ne by done. rewrite (held_elsewhere s s' inl seen k l j m x) by done. by apply H5.
  - rewrite (brute_member s s' inl seen k l x Ha Hk Hx Ho), Hhx, Hhx'. destruct H6 as (? & ? & ?). split_and!; [|lia|done].
    unfold b2z. destruct (holds_entry i), (holds_entry i'); try lia; naive_solver.
  - intros y. rewrite (proj2 (Hf y)). done.
  - intros j m Hj. eapply wk_sorted_ext; [|by eapply H8]. intros y _. apply Hf.
Qed.

(** *** An instruction leaves its list *)
Lemma acct_drop s s' inl seen k l1 x l2 :
  acct s inl seen → instList s !! k = Some (l1 ++ x :: l2) → others s s' x →
  instList s' = <[k := l1 ++ l2]> (instList s) → count s' = <[k := held s (l1 ++ x :: l2) - b2z (holds s x)]> (count s) →
  freeEntries s' = freeEntries s + b2z (holds s x) →
  acct s' (inl ∖ {[x]}) seen.
Proof.
  intros Ha Hk Ho El Ec Ef. pose proof Ha as [H1 H2 H3 H4 H5 H6 H7 H8]. pose proof Ho as (E1 & E2 & E3 & _).
  pose proof (DependencyGraph.concat_cons (instList s) k l1 x l2 Hk) as Hp. set (ls' := <[k := l1 ++ l2]> (instList s)) in *.
  assert (Hn : x ∉ concat ls' ∧ NoDup (concat ls')) by (rewrite Hp in H2; by apply NoDup_cons in H2).
  assert (Hsub : ∀ j m, ls' !! j = Some m → x ∉ m ∧ ∃ m', instList s !! j = Some m' ∧ ∀ y, y ∈ m → y ∈ m').
  { intros j m Hj. split; [intros Hm; apply (proj1 Hn), elem_concat; eauto|].
    apply list_lookup_insert_Some in Hj as [(<- & <- & _)|[_ Hj]]; [|by exists m].
    eexists. split; [done|]. intros y. rewrite !elem_of_app, elem_of_cons. naive_solver. }
  split; unfold entries_held; rewrite ?El, ?Ec, ?Ef, ?E1, ?E2; try (by destruct Hn).
  - unfold ls'. by rewrite !length_insert.
  - intros y Hy. apply H3. rewrite Hp. by right.
  - intros j m y Hj Hy. destruct (Hsub j m Hj) as [Hxm (m' & Hj' & Hm)]. eapply others_thread; [done|by intros ->|]. eapply H4; [done|by apply Hm].
  - intros j m Hj. destruct (Hsub j m Hj) as [Hxm _]. rewrite (others_held s s' x) by done.
    apply list_lookup_insert_Some in Hj as [(<- & <- & _)|[Hne Hj]].
    + assert (Hkc : (k < length (count s))%nat) by (destruct H1 as [<- _]; by eapply lookup_lt_Some). rewrite list_lookup_insert_eq by done. f_equal.
      change (x :: l2) with ([x] ++ l2). rewrite !held_app, held_one. unfold b2z. lia.
    + rewrite list_lookup_insert_ne by done. by apply H5.
  - rewrite (others_held s s' x) by (done || by destruct Hn). destruct H6 as (? & Hb & ?). unfold entries_held in Hb. rewrite (held_perm _ _ _ Hp) in Hb.
    change (x :: ?q) with ([x] ++ q) in Hb. rewrite held_app, held_one in Hb. unfold b2z. destruct (holds s x); split_and!; try done; lia.
  - intros y. rewrite elem_of_difference, H7, Hp, elem_of_cons, elem_of_singleton. destruct (decide (y = x)) as [->|Hne]; [naive_solver|].
    destruct (others_fields s s' x y Ho Hne) as (_ & _ & ->). naive_solver.
  - intros j m Hj. destruct (Hsub j m Hj) as [Hxm _]. eapply others_sorted; [done|done|].
    apply list_lookup_insert_Some in Hj as [(<- & <- & _)|[_ Hj]]; [|by eapply H8]. specialize (H8 k _ Hk).
    apply StronglySorted_app in H8 as (Hall & Hs1 & Hs2). apply StronglySorted_inv in Hs2 as [Hs2 _].
    apply StronglySorted_app_2; [|done|done]. intros y z Hy Hz. apply Hall; [done|by right].
Qed.
End WakeupAcct.
