(* ===== verification/WakeupOps.v ===== *)
(** * Operations of the instruction queue

    Each operation, under what the stages around the queue ensure, returns and keeps the
    invariant of the registers ([WakeupInv]) and the account of the entries
    ([WakeupAcct]). *)

From stdpp Require Import sorting.
From S2P Require Import Prelude DepGraph Wakeup WakeupInv WakeupAcct.

Module WakeupOps.
Import Wakeup WakeupInv WakeupAcct.
Notation seq_of := (inst_of seqNum 0).
Notation holds := (inst_of holds_entry false).

(** Non-speculative instructions are filed under their sequence numbers. *)
Definition filed (s : t) : Prop := ∀ q x, nonSpecInsts s !! q = Some x → seq_of s x = q.

Record ok (s : t) (a : agraph) (inl seen : gset positive) : Prop := {
  o_inv : inv s a inl seen None; o_exact : exact s a inl; o_acct : acct s inl seen; o_filed : filed s
}.

(** ** What the stages around the queue ensure *)

(** A destination is a register of the machine that no instruction in the queue reads,
    this one neither. *)
Definition reads_reg (s : t) (r : reg) (x : positive) : bool :=
  inst_of (λ i, bool_decide (mkReg (flatIndex r) false ∈ srcRegs i)) false s x.

Definition dest_free (s : t) (x : positive) (r : reg) : bool :=
  isFixedMapping r ||
  in_board (vlen (regScoreboard s)) r && forallb (λ y, negb (reads_reg s r y)) (x :: concat (instList s)).

(** The sources that renaming found ready are marked and counted, registers with a fixed
    mapping among them. *)
Definition renamed (n : Z) (i : DynInst) : bool :=
  (length (srcRegs i) <=? length (readySrcRegIdx i))%nat && (numSrcRegs i <? 128) && (0 <=? readyRegs i) &&
  (readyRegs i + unmet (src i) =? numSrcRegs i) && Bool.eqb (readyToIssue i) (readyRegs i =? numSrcRegs i) &&
  forallb (λ q, q.2 || negb (isFixedMapping q.1) && in_board n q.1) (src i).

(** There is a free entry, and the instruction is new and the youngest of its thread. *)
Definition can_enter (s : t) (seen : gset positive) (x : positive) : bool :=
  bool_decide (x ∉ seen) && negb (freeEntries s =? 0) &&
  match insts s !! x with
  | Some i =>
      negb (Issued (status i)) && negb (SquashedInIQ (status i)) && (0 <=? threadNumber i) &&
      match instList s !! Z.to_nat (threadNumber i) with
      | Some l => forallb (λ y, seq_of s y <? seqNum i) l
      | None => false
      end && forallb (dest_free s x) (destRegs i)
  | None => false
  end.

Definition can_insert (s : t) (seen : gset positive) (x : positive) : bool :=
  can_enter s seen x && inst_of (λ i, speculative (staticInst i) && renamed (vlen (regScoreboard s)) i) false s x.

Definition can_insert_nonspec (s : t) (seen : gset positive) (x : positive) : bool :=
  can_enter s seen x && inst_of (λ i, negb (speculative (staticInst i))) false s x.

Definition can_schedule (s : t) (q : Z) : bool :=
  match nonSpecInsts s !! q with Some x => bool_decide (is_Some (insts s !! x)) | None => false end.

Definition can_issue (s : t) (x : positive) : bool :=
  bool_decide (x ∈ concat (instList s)) && bool_decide (x ∈ told s) && inst_of (λ i, negb (Issued (status i)) && negb (MemOpDone (status i))) false s x.

(** A memory instruction completes once, after it issued. *)
Definition can_complete (s : t) (x : positive) : bool :=
  inst_of (λ i, negb (Squashed (status i)) && forallb (in_board (vlen (regScoreboard s))) (destRegs i) &&
    (negb (isMemRef (staticInst i)) || bool_decide (x ∈ concat (instList s)) && Issued (status i) && negb (MemOpDone (status i)))) false s x.

(** Instructions that commit were ready and have given up their entries. *)
Definition can_commit (s : t) (q tid : Z) : bool :=
  (0 <=? tid) &&
  match instList s !! Z.to_nat tid with
  | Some l => forallb (λ x, (q <? seq_of s x) || bool_decide (x ∈ told s) && negb (holds s x)) l
  | None => false
  end.

(** A non-speculative instruction that has been scheduled and not issued is squashed
    because of a fault only. *)
Definition can_squash (s : t) (tid q : Z) : bool :=
  (0 <=? tid) &&
  match instList s !! Z.to_nat tid with
  | Some l =>
      forallb (λ x, (seq_of s x <=? q) || negb (holds s x) ||
        inst_of (λ i, speculative (staticInst i) || (isStoreConditional (staticInst i) && Completed (status i)) ||
          bool_decide (is_Some (nonSpecInsts s !! seqNum i)) || Fault (status i) || isMemRef (staticInst i)) false s x) l
  | None => false
  end.

(** ** The bookkeeping of both insertions *)
Lemma free_assert n f : is_u32 f → f =? u32 (n - u32 (n - f)) = true.
Proof.
  intros Hf. apply Z.eqb_eq. transitivity (u32 f); [by rewrite u32_id|]. unfold u32. rewrite Zminus_mod_idemp_r. f_equal. lia.
Qed.

Lemma counted_spec s x i c :
  insts s !! x = Some i → 0 ≤ threadNumber i → count s !! Z.to_nat (threadNumber i) = Some c → is_u32 (c + 1) → is_u32 (freeEntries s) →
  counted s x = Ok (with_counts s (<[Z.to_nat (threadNumber i) := c + 1]> (count s)) (freeEntries s)).
Proof.
  intros Hi Ht Hc Hu Hf. unfold counted, deref. rewrite Hi. cbn [mbind res_bind]. rewrite (vget_in _ _ _ Ht Hc). cbn [mbind res_bind].
  rewrite vset_in by (apply lookup_lt_Some in Hc; unfold vlen; lia). cbn [mbind res_bind]. rewrite (u32_id _ Hu).
  unfold countInsts. simpl freeEntries. simpl numEntries. by rewrite free_assert.
Qed.

Lemma enter_spec s x i l :
  insts s !! x = Some i → freeEntries s ≠ 0 → is_u32 (freeEntries s) → 0 ≤ threadNumber i → instList s !! Z.to_nat (threadNumber i) = Some l →
  enter s x = Ok (with_inst (with_counts (with_list s (<[Z.to_nat (threadNumber i) := l ++ [x]]> (instList s))) (count s) (freeEntries s - 1)) x (setInIQ i)).
Proof.
  intros Hi Hf Hu Ht Hl. unfold enter, deref. rewrite Hi. cbn [mbind res_bind]. destruct (Z.eqb_spec (freeEntries s) 0); [done|].
  cbn [negb assert_ mbind res_bind]. rewrite (vget_in _ _ _ Ht Hl). cbn [mbind res_bind].
  rewrite vset_in by (apply lookup_lt_Some in Hl; unfold vlen; lia). cbn [mbind res_bind]. rewrite u32_id; [done|]. unfold is_u32 in *. lia.
Qed.

Lemma others_alike s s1 s2 x : others s s1 x → alike s1 s2 → others s s2 x.
Proof.
  intros (H1 & H2 & H3 & H4) (K1 & K2 & K3 & K4 & K5 & K6 & K7 & K8). split_and!; [congruence|congruence|by etrans|].
  intros y Hy. rewrite K8. by apply H4.
Qed.

(** The fields that entering needs. *)
Lemma can_enter_spec s a inl seen x :
  ok s a inl seen → can_enter s seen x = true →
  ∃ i l, insts s !! x = Some i ∧ x ∉ seen ∧ freeEntries s ≠ 0 ∧ 0 ≤ threadNumber i ∧ instList s !! Z.to_nat (threadNumber i) = Some l ∧
    Issued (status i) = false ∧ SquashedInIQ (status i) = false ∧ Forall (λ y, seq_of s y < seqNum i) l ∧
    forallb (dest_free s x) (destRegs i) = true ∧ is_u32 (freeEntries s) ∧
    count s !! Z.to_nat (threadNumber i) = Some (held s l) ∧ is_u32 (held s l + 1).
Proof.
  intros [Hinv Hex Hacct _] Hc. unfold can_enter in Hc. rewrite !andb_true_iff in Hc. destruct Hc as [[Hx Hf] Hc]. apply bool_decide_eq_true in Hx.
  destruct (insts s !! x) as [i|]; [|done]. rewrite !andb_true_iff in Hc. destruct Hc as [[[[Hi Hs] Ht] Hl] Hd].
  destruct (instList s !! Z.to_nat (threadNumber i)) as [l|] eqn:El; [|done]. pose proof (c_free _ _ _ Hacct) as (F1 & F2 & F3).
  pose proof (brute_split s _ _ _ El) as Hsp. pose proof (held_nonneg s l). unfold entries_held in F2. unfold is_u32 in F3.
  exists i, l. split_and!; try done; try (by destruct (Issued _), (SquashedInIQ _)); try (unfold is_u32; lia); try lia.
  - apply Forall_forall. intros y Hy. rewrite forallb_forall in Hl. apply list_elem_of_In, Hl in Hy. lia.
  - by apply (c_count _ _ _ Hacct).
Qed.

(** ** Destinations *)
Lemma reads_zero i r : mkReg (Z.of_nat r) false ∉ srcRegs i → reads r (src i) = 0.
Proof.
  intros Hn. unfold reads. assert (filter (eq (mkReg (Z.of_nat r) false, false)) (src i) = []) as ->; [|done].
  destruct (filter _ _) as [|q k] eqn:E; [done|]. assert (Hq : q ∈ filter (eq (mkReg (Z.of_nat r) false, false)) (src i)) by (rewrite E; by left).
  apply list_elem_of_filter in Hq as [<- Hq]. destruct Hn. unfold src in Hq. by apply elem_of_zip_l in Hq.
Qed.

Lemma dest_ready s a inl seen x i rs r :
  ok s a inl seen → insts s !! x = Some i → forallb (dest_free s x) rs = true → r ∈ rs → isFixedMapping r = false →
  0 ≤ flatIndex r < vlen (regScoreboard s) ∧ (∃ pr, a !! Z.to_nat (flatIndex r) = Some (pr, [])) ∧
  mkReg (flatIndex r) false ∉ srcRegs i ∧ ∀ y j, y ∈ inl → insts s !! y = Some j → mkReg (flatIndex r) false ∉ srcRegs j.
Proof.
  intros [Hinv Hex Hacct _] Hi Hd Hr Hf. rewrite forallb_forall in Hd. apply list_elem_of_In, Hd in Hr. unfold dest_free in Hr.
  rewrite Hf, orb_false_l, andb_true_iff in Hr. destruct Hr as [Hb Hn]. rewrite forallb_forall in Hn.
  destruct (board_entry s a inl seen None r Hinv Hb Hf) as (Hr & pr & l & Ha).
  assert (Hno : ∀ y j, y = x ∨ y ∈ inl → insts s !! y = Some j → mkReg (flatIndex r) false ∉ srcRegs j).
  { intros y j Hy Hj Hin. assert (Hy' : y ∈ x :: concat (instList s)).
    { destruct Hy as [->|Hy]; [by left|right]. by apply (c_inl _ _ _ Hacct) in Hy as [? _]. }
    apply list_elem_of_In, Hn in Hy'. unfold reads_reg, inst_of in Hy'. rewrite Hj in Hy'. simpl in Hy'. by rewrite bool_decide_true in Hy'. }
  split; [done|]. split; [|split; [by eapply Hno; [left|]|intros y j Hy; by eapply Hno; right]].
  exists pr. rewrite Ha. destruct l as [|y l]; [done|]. destruct (i_wait _ _ _ _ _ Hinv _ _ _ y Ha ltac:(by left)) as [[Hy|?] (j & Hj & Hsrc)]; [|done].
  rewrite Z2Nat.id in Hsrc by lia. exfalso. by eapply Hno; [right|..].
Qed.

Lemma alike_srcRegs s s' y j : alike s s' → insts s' !! y = Some j → ∃ j', insts s !! y = Some j' ∧ srcRegs j = srcRegs j'.
Proof.
  intros (_ & _ & _ & _ & _ & _ & _ & H) Hj. specialize (H y). rewrite Hj in H. destruct (insts s !! y) as [j'|]; [|done]. exists j'. split; [done|].
  apply (inj Some) in H. change (srcRegs (acore j) = srcRegs (acore j')). by rewrite H.
Qed.

(** ** Insertion *)
Definition entered (s : t) (x : positive) (i : DynInst) (l : list positive) : t :=
  with_inst (with_counts (with_list s (<[Z.to_nat (threadNumber i) := l ++ [x]]> (instList s))) (count s) (freeEntries s - 1)) x (setInIQ i).

Lemma entered_inv s a inl seen x i l :
  inv s a inl seen None → exact s a inl → insts s !! x = Some i → inv (entered s x i l) a inl seen None ∧ exact (entered s x i l) a inl.
Proof.
  intros Hinv Hex Hi. split.
  - eapply inv_frame; [..|exact Hinv]; try done. intros y j Hj. simpl. destruct (decide (y = x)) as [->|Hne].
    + exists (setInIQ i). simplify_eq. by rewrite lookup_insert_eq.
    + exists j. by rewrite lookup_insert_ne.
  - eapply exact_frame; [..|exact Hex]; [done|]. intros y. simpl. destruct (decide (y = x)) as [->|Hne]; [by rewrite lookup_insert_eq, Hi|by rewrite lookup_insert_ne].
Qed.

Lemma entered_others s x i l : insts s !! x = Some i → others s (entered s x i l) x.
Proof. intros Hi. unfold others. simpl. split_and!; try done. intros y Hy. by rewrite lookup_insert_ne. Qed.

Lemma filed_alike s s' : alike s s' → filed s → filed s'.
Proof.
  intros Hal Hf q x Hq. pose proof Hal as (_ & E & _). rewrite E in Hq. rewrite (alike_inst seqNum 0 s s' x); [by apply Hf| |done].
  by intros i j (? & ? & ? & ? & ? & ?)%acore_fields.
Qed.

Lemma filed_inst s x i i' : insts s !! x = Some i → seqNum i' = seqNum i → filed s → filed (with_inst s x i').
Proof.
  intros Hi E Hf q y Hq. specialize (Hf q y Hq). unfold inst_of in *. simpl. destruct (decide (y = x)) as [->|Hne].
  - rewrite lookup_insert_eq. rewrite Hi in Hf. simpl in *. by rewrite E.
  - by rewrite lookup_insert_ne.
Qed.

Lemma filed_entered s x i l : insts s !! x = Some i → filed s → filed (entered s x i l).
Proof. intros Hi Hf. by eapply (filed_inst (with_counts (with_list s _) _ _)). Qed.

Lemma inserting_start s a inl seen x i :
  inv s a inl seen None → exact s a inl → x ∉ seen → insts s !! x = Some i → renamed (vlen (regScoreboard s)) i = true →
  inserting s a inl seen x i 0.
Proof.
  intros Hinv Hex Hx Hi Hr. pose proof Hinv as [H1 H2 H3 H4 H5 H6 H7 H8 H9]. unfold renamed in Hr. rewrite !andb_true_iff in Hr.
  destruct Hr as [[[[[R1 R2] R3] R4] R5] R6]. apply Nat.leb_le in R1. apply eqb_prop in R5.
  assert (Hnl : ∀ r pr l, a !! r = Some (pr, l) → x ∉ l).
  { intros r pr l Hr Hl. destruct (H4 r pr l x Hr Hl) as [[?|?] _]; [|done]. apply Hx, H8. by right. }
  assert (Hw : waits a x = 0).
  { pose proof (waits_nonneg a x). destruct (Z.eq_dec (waits a x) 0); [done|]. destruct (proj1 (waits_pos a x) ltac:(lia)) as (r & [pr l] & Hr & Hl).
    by pose proof (Hnl r pr l Hr). }
  split; try done.
  - split; try done. intros r pr l y Hr Hy. destruct (H4 r pr l y Hr Hy) as [[?|?] ?]; [|done]. split; [by left|done].
  - split; try done; try lia.
    + rewrite drop_0. lia.
    + rewrite R5. apply Bool.eq_true_iff_eq. rewrite Z.eqb_eq, bool_decide_eq_true. done.
    + intros r Hr. rewrite forallb_forall in R6. apply list_elem_of_In, R6 in Hr. simpl in Hr. apply andb_true_iff in Hr as [Hr ?].
      split; [by destruct (isFixedMapping r)|done].
  - intros r pr l Hr Hb. rewrite drop_0. assert (times x l = 0); [|lia]. pose proof (times_nonneg x l).
    destruct (Z.eq_dec (times x l) 0); [done|]. assert (x ∈ l) by (apply times_pos; lia). by pose proof (Hnl r pr l Hr).
Qed.

(** Sources, then destinations. *)
Lemma dependences_spec s a inl seen x i l :
  ok s a inl seen → insts s !! x = Some i → x ∉ seen → renamed (vlen (regScoreboard s)) i = true → forallb (dest_free s x) (destRegs i) = true →
  ∃ s2 v s3 a' i', addToDependents (entered s x i l) x = Ok (s2, v) ∧ addToProducers s2 x = Ok s3 ∧
    inserting s3 a' inl seen x i' (length (srcRegs i')) ∧ alike (entered s x i l) s3 ∧ told s3 = told s.
Proof.
  intros Hok Hi Hx Hr Hd. destruct (entered_inv s a inl seen x i l (o_inv _ _ _ _ Hok) (o_exact _ _ _ _ Hok) Hi) as [Hinv1 Hex1]. set (s1 := entered s x i l) in *.
  assert (Hi1 : insts s1 !! x = Some (setInIQ i)) by (simpl; by rewrite lookup_insert_eq).
  pose proof (inserting_start s1 a inl seen x (setInIQ i) Hinv1 Hex1 Hx Hi1 Hr) as Hins.
  destruct (addSources_spec (length (srcRegs i)) s1 a inl seen x _ 0 false Hins eq_refl) as (s2 & v & a2 & i2 & Hs2 & Hins2 & Hb2 & Ht2 & Hal2 & Hsrc2 & Hd2 & Hk2).
  exists s2, v. unfold addToDependents, deref. rewrite Hi1. cbn [mbind res_bind]. change (srcRegs (setInIQ i)) with (srcRegs i). change (Z.of_nat 0) with 0 in Hs2. rewrite Hs2.
  pose proof Hins2 as [Hinv2 Hex2 _ Hi2 Hw2 Hmine2]. unfold addToProducers, deref. rewrite Hi2. cbn [mbind res_bind]. rewrite Hd2.
  simpl in Hsrc2. rewrite Nat.add_0_l in *. rewrite <-Hsrc2 in Hw2, Hmine2.
  assert (HexX : exact s2 a2 ({[x]} ∪ inl)).
  { intros y j r pr k Hy Hj Hr' Hb. destruct (decide (y = x)) as [->|]; [|eapply Hex2; [set_solver|done..]]. simplify_eq.
    specialize (Hmine2 r pr k Hr' Hb). rewrite src_drop in Hmine2 by done. change (reads r []) with 0 in Hmine2. lia. }
  destruct (addDests_spec x (destRegs i) s2 a2 inl seen _ _ Hinv2 HexX) as (s3 & a3 & Hs3 & Hinv3 & Hex3 & Hi3 & Hc3 & Hal3 & Hl3 & Hw3).
  { intros r Hrin Hf. destruct (dest_ready s a inl seen x i _ r Hok Hi Hd Hrin Hf) as (Hr1 & (pr & Ha) & Hn & Hny).
    assert (Hz : Z.of_nat (Z.to_nat (flatIndex r)) = flatIndex r) by lia. rewrite Hb2. split; [done|]. split.
    - exists pr. apply Hk2; [done|]. by rewrite Hz.
    - intros y j Hy Hj. apply reads_zero. rewrite Hz. destruct (alike_srcRegs s1 s2 y j Hal2 Hj) as (j' & Hj' & ->). simpl in Hj'.
      destruct (decide (y = x)) as [->|Hne].
      + rewrite lookup_insert_eq in Hj'. by injection Hj' as <-.
      + rewrite lookup_insert_ne in Hj' by done. apply (Hny y); [set_solver|done]. }
  exists s3, a3, i2. split; [done|]. split; [done|]. split; [|split; [by etrans|]].
  - split; try done.
    + intros y j r pr k Hy. apply Hex3. set_solver.
    + by rewrite Hi3.
    + unfold vlen. rewrite Hl3. eapply waiting_waits; [apply Hw3|]. exact Hw2.
    + intros r pr k Hr' Hb. rewrite src_drop by done. change (reads r []) with 0. rewrite Z.add_0_r. eapply Hex3; [set_solver| |done..]. by rewrite Hi3.
  - unfold told. by rewrite Hc3.
Qed.

(** The instruction is handed on when it is ready. *)
Lemma hand_on s a inl seen x i :
  inserting s a inl seen x i (length (srcRegs i)) → x ∉ told s →
  ∃ s', (if isMemRef (staticInst i) then Ok (do_call s (MemInsert x (readyToIssue i))) else addIfReady s x) = Ok s' ∧
    inv s' a ({[x]} ∪ inl) ({[x]} ∪ seen) None ∧ exact s' a ({[x]} ∪ inl) ∧ alike s s'.
Proof.
  intros Hins Hx. assert (Hal : ∀ c, alike s (do_call s c)) by (intros c; unfold alike; simpl; split_and!; try done; by apply prefix_app_r).
  destruct (isMemRef (staticInst i)) eqn:Hm.
  - destruct (inserting_done s a inl seen x i (MemInsert x (readyToIssue i)) Hins Hx) as [H1 H2]; [by destruct (readyToIssue i)|].
    eexists. split; [done|]. split_and!; done.
  - unfold addIfReady, deref. rewrite (n_inst _ _ _ _ _ _ _ Hins). cbn [mbind res_bind]. rewrite Hm. destruct (readyToIssue i) eqn:Hr.
    + destruct (inserting_done s a inl seen x i (ReadyPush x) Hins Hx) as [H1 H2]; [by rewrite Hr|]. eexists. split; [done|]. split_and!; done.
    + destruct (inserting_done s a inl seen x i (MemWake x) Hins Hx) as [H1 H2]; [by rewrite Hr|]. exists s. split; [done|]. split_and!; [|done|done].
      eapply inv_frame; [..|exact H1]; try done; [|eauto]. rewrite told_call. simpl. by rewrite app_nil_r.
Qed.

Lemma acct_fields s s' x i :
  alike s s' → insts s !! x = Some i → ∃ j, insts s' !! x = Some j ∧ acore j = acore i.
Proof.
  intros (_ & _ & _ & _ & _ & _ & _ & H) Hi. specialize (H x). rewrite Hi in H. destruct (insts s' !! x) as [j|]; [|done].
  exists j. split; [done|]. by apply (inj Some) in H.
Qed.

(** The count goes up, and the account holds again. *)
Lemma counted_acct s s4 inl seen x i l :
  acct s inl seen → insts s !! x = Some i → x ∉ seen → freeEntries s ≠ 0 → 0 ≤ threadNumber i → instList s !! Z.to_nat (threadNumber i) = Some l →
  Issued (status i) = false → SquashedInIQ (status i) = false → Forall (λ y, seq_of s y < seqNum i) l → alike (entered s x i l) s4 →
  ∃ s5, counted s4 x = Ok s5 ∧ acct s5 (if speculative (staticInst i) then {[x]} ∪ inl else inl) ({[x]} ∪ seen) ∧
    dependGraph s5 = dependGraph s4 ∧ regScoreboard s5 = regScoreboard s4 ∧ insts s5 = insts s4 ∧ told s5 = told s4 ∧ nonSpecInsts s5 = nonSpecInsts s4.
Proof.
  intros Hacct Hi Hx Hf Ht Hl Hnis Hsq Hseq Hal. pose proof Hal as (E1 & E2 & E3 & E4 & E5 & E6 & E7 & E8). simpl in E1, E2, E3, E4, E5, E6.
  destruct (acct_fields _ _ x (setInIQ i) Hal) as (j & Hj & Hac); [simpl; by rewrite lookup_insert_eq|].
  apply acore_fields in Hac as (A1 & A2 & A3 & A4 & A5 & _). simpl in A1, A2, A3, A4, A5.
  pose proof (c_free _ _ _ Hacct) as (F1 & F2 & F3). pose proof (brute_split s _ _ _ Hl) as Hsp. pose proof (held_nonneg s l). unfold entries_held in F2. unfold is_u32 in F3.
  assert (Hc : count s4 !! Z.to_nat (threadNumber j) = Some (held s l)) by (rewrite E3, A3; by apply (c_count _ _ _ Hacct)).
  rewrite (counted_spec s4 x j (held s l) Hj ltac:(lia) Hc ltac:(unfold is_u32; lia) ltac:(rewrite E4; unfold is_u32; lia)).
  eexists. split; [done|]. split; [|done]. rewrite <-A1. eapply (acct_enter s _ inl seen (Z.to_nat (threadNumber i)) l x j); simpl; try done; try congruence.
  - destruct (others_alike _ _ _ _ (entered_others s x i l Hi) Hal) as (? & ? & ? & ?). done.
  - lia.
  - by rewrite A2.
Qed.

Lemma ok_frame s s' a inl' seen' :
  inv s a inl' seen' None → exact s a inl' → filed s → acct s' inl' seen' →
  dependGraph s' = dependGraph s → regScoreboard s' = regScoreboard s → insts s' = insts s → told s' = told s → nonSpecInsts s' = nonSpecInsts s →
  ok s' a inl' seen'.
Proof.
  intros Hinv Hex Hfl Hacct E1 E2 E3 E4 E5. split; [|by eapply exact_frame; [done|intros y; by rewrite E3|]|done|].
  2: { intros q x. unfold inst_of. rewrite E5, E3. apply Hfl. }
  eapply inv_frame; [..|exact Hinv]; try done. intros y i Hi. rewrite E3. eauto.
Qed.

Lemma insert_spec s a inl seen x :
  ok s a inl seen → can_insert s seen x = true → ∃ s' a', insert s x = Ok s' ∧ ok s' a' ({[x]} ∪ inl) ({[x]} ∪ seen).
Proof.
  intros Hok Hc. unfold can_insert in Hc. apply andb_true_iff in Hc as [He Hr].
  destruct (can_enter_spec s a inl seen x Hok He) as (i & l & Hi & Hx & Hf & Ht & Hl & Hnis & Hsq & Hseq & Hd & Hu & Hcnt & Hu').
  unfold inst_of in Hr. rewrite Hi in Hr. simpl in Hr. apply andb_true_iff in Hr as [Hsp Hr].
  unfold insert. rewrite (enter_spec s x i l) by done. cbn [mbind res_bind]. fold (entered s x i l).
  destruct (dependences_spec s a inl seen x i l Hok Hi Hx Hr Hd) as (s2 & v & s3 & a' & i' & -> & Hp & Hins & Hal & Ht3).
  cbn [mbind res_bind]. rewrite Hp. cbn [mbind res_bind]. unfold deref. rewrite (n_inst _ _ _ _ _ _ _ Hins). cbn [mbind res_bind].
  destruct (hand_on s3 a' inl seen x i' Hins) as (s4 & -> & Hinv4 & Hex4 & Hal4).
  { rewrite Ht3. intros Hin. apply Hx, (i_seen _ _ _ _ _ (o_inv _ _ _ _ Hok)). by left. }
  cbn [mbind res_bind].
  assert (Hal1 : alike (entered s x i l) s4) by (by etrans).
  destruct (counted_acct s s4 inl seen x i l (o_acct _ _ _ _ Hok) Hi Hx Hf Ht Hl Hnis Hsq Hseq Hal1) as (s5 & Hs5 & Hacct5 & F1 & F2 & F3 & F4 & F5).
  exists s5, a'. split; [done|]. rewrite Hsp in Hacct5. eapply (ok_frame s4); try done. eapply filed_alike; [done|]. by apply filed_entered, Hok.
Qed.

Lemma inv_nonspec s a inl seen x q :
  inv s a inl seen None → x ∉ seen → inv (with_nonspec s (<[q := x]> (nonSpecInsts s))) a inl ({[x]} ∪ seen) None.
Proof.
  intros [H1 H2 H3 H4 H5 H6 H7 H8 H9] Hx. split; try done.
  - intros y Hy. apply elem_of_union. right. by apply H8.
  - intros p y Hp. simpl in Hp. apply lookup_insert_Some in Hp as [[_ <-]|[_ Hp]].
    + split_and!; [intros ?; apply Hx, H8; by left|intros ?; apply Hx, H8; by right|set_solver].
    + destruct (H9 p y Hp) as (? & ? & ?). split_and!; [done|done|set_solver].
Qed.

Lemma alike_call s c : alike s (do_call s c).
Proof. unfold alike. simpl. split_and!; try done. by apply prefix_app_r. Qed.

Lemma inv_call s a inl seen new c : told_one c = None → inv s a inl seen new → inv (do_call s c) a inl seen new.
Proof. intros Hc Hinv. eapply inv_frame; [..|exact Hinv]; try done; [|eauto]. rewrite told_call, Hc. by rewrite app_nil_r. Qed.

Lemma ok_call s a inl seen c : told_one c = None → ok s a inl seen → ok (do_call s c) a inl seen.
Proof. intros Hc [H1 H2 H3 H4]. split; [by apply inv_call|done| |done]. by eapply acct_alike; [apply alike_call|]. Qed.

Lemma insertNonSpec_spec s a inl seen x :
  ok s a inl seen → can_insert_nonspec s seen x = true → ∃ s' a', insertNonSpec s x = Ok s' ∧ ok s' a' inl ({[x]} ∪ seen).
Proof.
  intros Hok Hc. unfold can_insert_nonspec in Hc. apply andb_true_iff in Hc as [He Hsp].
  destruct (can_enter_spec s a inl seen x Hok He) as (i & l & Hi & Hx & Hf & Ht & Hl & Hnis & Hsq & Hseq & Hd & Hu & Hcnt & Hu').
  unfold inst_of in Hsp. rewrite Hi in Hsp. simpl in Hsp. apply negb_true_iff in Hsp.
  unfold insertNonSpec, deref. rewrite Hi. cbn [mbind res_bind]. set (s0 := with_nonspec s _).
  rewrite (enter_spec s0 x i l) by done. cbn [mbind res_bind]. fold (entered s0 x i l).
  pose proof Hok as [Hinv Hex Hacct Hfl]. destruct (entered_inv s a inl seen x i l Hinv Hex Hi) as [Hinv1 Hex1].
  pose proof (inv_nonspec _ _ _ _ x (seqNum i) Hinv1 Hx) as Hinv2. change (with_nonspec _ _) with (entered s0 x i l) in Hinv2.
  unfold addToProducers, deref. replace (insts (entered s0 x i l) !! x) with (Some (setInIQ i)) by (simpl; by rewrite lookup_insert_eq). cbn [mbind res_bind].
  destruct (addDests_spec x (destRegs i) (entered s0 x i l) a inl ({[x]} ∪ seen) None inl Hinv2 Hex1) as (s3 & a3 & Hs3 & Hinv3 & Hex3 & Hi3 & Hc3 & Hal3 & _).
  { intros r Hrin Hfx. destruct (dest_ready s a inl seen x i _ r Hok Hi Hd Hrin Hfx) as (Hr1 & (pr & Ha) & Hn & Hny).
    split; [done|]. split; [eauto|]. intros y j Hy Hj. apply reads_zero. rewrite Z2Nat.id by lia. simpl in Hj.
    assert (y ≠ x) by (intros ->; apply Hx, (i_seen _ _ _ _ _ Hinv); by right). rewrite lookup_insert_ne in Hj by done. by apply (Hny y). }
  change (destRegs (setInIQ i)) with (destRegs i). rewrite Hs3. cbn [mbind res_bind]. set (s4 := if isMemRef (staticInst i) then _ else _).
  assert (inv s4 a3 inl ({[x]} ∪ seen) None ∧ exact s4 a3 inl ∧ alike (entered s0 x i l) s4) as (Hinv4 & Hex4 & Hal4).
  { unfold s4. destruct (isMemRef _); [|done]. split_and!; [by apply inv_call|done|]. etrans; [exact Hal3|apply alike_call]. }
  assert (Hacct0 : acct s0 inl seen) by (destruct Hacct; by split).
  destruct (counted_acct s0 s4 inl seen x i l Hacct0 Hi Hx Hf Ht Hl Hnis Hsq Hseq Hal4) as (s5 & Hs5 & Hacct5 & F1 & F2 & F3 & F4 & F5).
  exists s5, a3. split; [done|]. rewrite Hsp in Hacct5. eapply (ok_frame s4); try done. eapply filed_alike; [done|].
  apply filed_entered; [done|]. intros q y Hq. simpl in Hq. apply lookup_insert_Some in Hq as [[<- <-]|[_ Hq]]; [unfold inst_of; simpl; by rewrite Hi|by apply Hfl].
Qed.

Lemma insertBarrier_spec s a inl seen x :
  ok s a inl seen → can_insert_nonspec s seen x = true → ∃ s' a', insertBarrier s x = Ok s' ∧ ok s' a' inl ({[x]} ∪ seen).
Proof. intros Hok Hc. unfold insertBarrier. eapply insertNonSpec_spec; [by apply ok_call|done]. Qed.

(** ** Changes of one instruction *)
Lemma alike_flags s x i i' : insts s !! x = Some i → acore i' = acore i → alike s (with_inst s x i').
Proof.
  intros Hi E. unfold alike. simpl. split_and!; try done. intros y. destruct (decide (y = x)) as [->|Hne].
  - by rewrite lookup_insert_eq, Hi; simpl; rewrite E.
  - by rewrite lookup_insert_ne.
Qed.

Lemma wk_inv_flags s a inl seen new x i i' : insts s !! x = Some i → wkey i' = wkey i → inv s a inl seen new → inv (with_inst s x i') a inl seen new.
Proof.
  intros Hi E Hinv. eapply inv_frame; [..|exact Hinv]; try done. intros y j Hj. simpl. destruct (decide (y = x)) as [->|Hne].
  - exists i'. rewrite lookup_insert_eq. split; [done|]. congruence.
  - exists j. by rewrite lookup_insert_ne.
Qed.

Lemma exact_flags s a inl x i i' : insts s !! x = Some i → src i' = src i → exact s a inl → exact (with_inst s x i') a inl.
Proof.
  intros Hi E Hex. eapply exact_frame; [..|exact Hex]; [done|]. intros y. simpl. destruct (decide (y = x)) as [->|Hne].
  - by rewrite lookup_insert_eq, Hi; simpl; rewrite E.
  - by rewrite lookup_insert_ne.
Qed.

Lemma wkey_src i i' : wkey i' = wkey i → src i' = src i.
Proof. unfold wkey, src. intros E. by injection E as -> -> _ _. Qed.

(** ** Non-speculative instructions *)
Lemma inv_tell s a inl seen x q c :
  inv s a inl seen None → filed s → nonSpecInsts s !! q = Some x → told_one c = Some x →
  inv (with_nonspec (do_call s c) (delete q (nonSpecInsts s))) a inl seen None.
Proof.
  intros [H1 H2 H3 H4 H5 H6 H7 H8 H9] Hf Hq Hc. destruct (H9 q x Hq) as (K1 & K2 & K3).
  assert (Ht : told (with_nonspec (do_call s c) (delete q (nonSpecInsts s))) = told s ++ [x]).
  { change (told (do_call s c) = told s ++ [x]). by rewrite told_call, Hc. }
  split; rewrite ?Ht; try done.
  - intros y Hy. rewrite elem_of_app, list_elem_of_singleton, <-H6 by done. assert (y ≠ x) by (by intros ->). naive_solver.
  - apply NoDup_app. split_and!; [done|set_solver|apply NoDup_singleton].
  - intros y. rewrite elem_of_app, list_elem_of_singleton. specialize (H8 y). naive_solver.
  - intros p y Hp. simpl in Hp. apply lookup_delete_Some in Hp as [Hne Hp]. destruct (H9 p y Hp) as (? & ? & ?). split_and!; try done.
    rewrite elem_of_app, list_elem_of_singleton. intros [?| ->]; [done|]. apply Hne. by rewrite <-(Hf q x Hq), <-(Hf p x Hp).
Qed.

Lemma scheduleNonSpec_spec s a inl seen q :
  ok s a inl seen → can_schedule s q = true → ∃ s', scheduleNonSpec s q = Ok s' ∧ ok s' a inl seen.
Proof.
  intros [Hinv Hex Hacct Hfl] Hc. unfold can_schedule in Hc. unfold scheduleNonSpec. destruct (nonSpecInsts s !! q) as [x|] eqn:Hq; [|done].
  apply bool_decide_eq_true in Hc as [i Hi]. unfold deref. rewrite Hi. cbn [mbind res_bind]. set (i' := setCanIssue (setAtCommit i)).
  destruct (i_non _ _ _ _ _ Hinv q x Hq) as (K1 & K2 & K3). set (s1 := with_inst s x i').
  assert (Hinv1 : inv s1 a inl seen None) by (by eapply inv_other). assert (Hex1 : exact s1 a inl) by (by apply exact_other).
  assert (Hal1 : alike s s1) by (by eapply alike_flags).
  set (c := if isMemRef (staticInst i) then MemNonSpecReady x else ReadyPush x).
  assert (Hc : told_one c = Some x) by (unfold c; by destruct (isMemRef _)).
  exists (with_nonspec (do_call s1 c) (delete q (nonSpecInsts s1))). split.
  - change (staticInst i') with (staticInst i). unfold c. destruct (isMemRef (staticInst i)) eqn:Hm; cbn [negb]; [done|].
    unfold addIfReady, deref. simpl insts. rewrite lookup_insert_eq. cbn [mbind res_bind]. simpl. by rewrite Hm.
  - assert (Hfl1 : filed s1) by (by eapply filed_inst).
    pose proof (inv_tell s1 a inl seen x q c Hinv1 Hfl1 Hq Hc) as Hinv2. split; [done|done| |].
    + assert (Hacct1 : acct (do_call s1 c) inl seen) by (eapply acct_alike; [apply alike_call|]; by eapply acct_alike). destruct Hacct1. by split.
    + intros p y Hp. simpl in Hp. apply lookup_delete_Some in Hp as [_ Hp]. by apply Hfl1.
Qed.

(** ** Issue, as [scheduleReadyInsts] does it, and what other stages set *)
Definition issue (s : t) (x : positive) : res t :=
  i ← deref s x;
  if isMemRef (staticInst i) then Ok (with_inst s x (setIssued i))
  else
    c ← vget (count s) (threadNumber i);
    cs ← vset (count s) (threadNumber i) (u32 (c - 1));
    Ok (with_inst (with_counts s cs (u32 (freeEntries s + 1))) x (clearInIQ (setIssued i))).

Definition touch (s : t) (x : positive) (squashed completed fault : bool) : res t :=
  i ← deref s x;
  let b := status i in
  Ok (with_inst s x (with_status i (mkStatus (CanIssue b) (Issued b) completed (CanCommit b) (AtCommit b) squashed (IqEntry b) (SquashedInIQ b) (MemOpDone b) fault))).

Lemma touch_spec s a inl seen x b1 b2 b3 :
  ok s a inl seen → is_Some (insts s !! x) → ∃ s', touch s x b1 b2 b3 = Ok s' ∧ ok s' a inl seen.
Proof.
  intros [Hinv Hex Hacct Hfl] [i Hi]. unfold touch, deref. rewrite Hi. cbn [mbind res_bind]. eexists. split; [done|].
  split; [by eapply wk_inv_flags|by eapply exact_flags| |by eapply filed_inst]. eapply acct_alike; [|done]. by eapply alike_flags.
Qed.

(** The thread of an instruction in the queue, its list and its count. *)
Lemma in_queue s inl seen x :
  acct s inl seen → x ∈ concat (instList s) →
  ∃ i l, insts s !! x = Some i ∧ 0 ≤ threadNumber i ∧ instList s !! Z.to_nat (threadNumber i) = Some l ∧ x ∈ l ∧
    SquashedInIQ (status i) = false ∧ (Issued (status i) = true → x ∈ told s) ∧
    vget (count s) (threadNumber i) = Ok (held s l) ∧ threadNumber i < vlen (count s) ∧
    0 ≤ freeEntries s ∧ freeEntries s + held s l < 2 ^ 32 ∧ 0 ≤ held s l ∧ (holds_entry i = true → 1 ≤ held s l).
Proof.
  intros Ha Hx. apply elem_concat in Hx as (k & l & Hk & Hx). destruct (c_inst _ _ _ Ha k l x Hk Hx) as (i & Hi & Ht & Hs & Htold).
  pose proof (c_free _ _ _ Ha) as (F1 & F2 & F3). pose proof (brute_split s _ _ _ Hk). unfold entries_held in F2. unfold is_u32 in F3.
  pose proof (c_count _ _ _ Ha k l Hk) as Hc. pose proof (held_nonneg s l). assert (Z.to_nat (threadNumber i) = k) as E by lia.
  exists i, l. rewrite E. split_and!; try done; try lia.
  - apply vget_in; [lia|]. by rewrite E.
  - apply lookup_lt_Some in Hc. unfold vlen. lia.
  - intros Hh. unfold held. assert (x ∈ filter (λ x, holds s x = true) l) as Hin.
    { apply list_elem_of_filter. split; [|done]. unfold inst_of. by rewrite Hi. }
    apply list_elem_of_lookup in Hin as [j Hj]. apply lookup_lt_Some in Hj. unfold vlen. lia.
Qed.

(** An instruction of the queue changes and gives up its entry, or keeps it. *)
Lemma acct_update s s' inl seen x i i' l :
  acct s inl seen → insts s !! x = Some i → 0 ≤ threadNumber i → instList s !! Z.to_nat (threadNumber i) = Some l → x ∈ l →
  insts s' = <[x := i']> (insts s) → numEntries s' = numEntries s → squashedSeqNum s' = squashedSeqNum s → calls s `prefix_of` calls s' →
  staticInst i' = staticInst i → seqNum i' = seqNum i → threadNumber i' = threadNumber i → SquashedInIQ (status i') = false →
  (Issued (status i') = true → x ∈ told s') → instList s' = instList s → holds_entry i = true →
  (if holds_entry i' then count s' = count s ∧ freeEntries s' = freeEntries s
   else count s' = <[Z.to_nat (threadNumber i) := held s l - 1]> (count s) ∧ freeEntries s' = freeEntries s + 1) →
  acct s' inl seen.
Proof.
  intros Ha Hi Ht Hl Hx Ei En Es Ep F1 F2 F3 F4 Htold El Hh Hc.
  eapply (acct_change s s' inl seen (Z.to_nat (threadNumber i)) l x i i'); try done.
  - split_and!; try done. intros y Hy. by rewrite Ei, lookup_insert_ne.
  - by rewrite Ei, lookup_insert_eq.
  - rewrite Hh. simpl. destruct (holds_entry i'); destruct Hc as [-> _]; simpl; [|by rewrite Z.add_0_r].
    rewrite list_insert_id; [done|]. rewrite (c_count _ _ _ Ha _ _ Hl). f_equal. lia.
  - rewrite Hh. simpl. destruct (holds_entry i'); destruct Hc as [_ ->]; simpl; lia.
  - congruence.
Qed.

Lemma issue_spec s a inl seen x : ok s a inl seen → can_issue s x = true → ∃ s', issue s x = Ok s' ∧ ok s' a inl seen.
Proof.
  intros [Hinv Hex Hacct Hfl] Hc. unfold can_issue in Hc. rewrite !andb_true_iff in Hc. destruct Hc as [[Hx Ht] Hf].
  apply bool_decide_eq_true in Hx, Ht. destruct (in_queue s inl seen x Hacct Hx) as (i & l & Hi & Ht0 & Hl & Hxl & Hsq & _ & Hv & Hlt & F0 & F1 & F2 & F3).
  unfold inst_of in Hf. rewrite Hi in Hf. simpl in Hf. apply andb_true_iff in Hf as [Hni Hmd]. apply negb_true_iff in Hni, Hmd.
  assert (Hh : holds_entry i = true) by (unfold holds_entry; by rewrite Hni). specialize (F3 Hh).
  unfold issue, deref. rewrite Hi. cbn [mbind res_bind]. destruct (isMemRef (staticInst i)) eqn:Hm.
  - eexists. split; [done|]. split; [by eapply wk_inv_flags|by eapply exact_flags| |by eapply filed_inst].
    eapply (acct_update s _ inl seen x i (setIssued i) l); try done. unfold holds_entry. simpl. by rewrite Hm, Hmd.
  - rewrite Hv. cbn [mbind res_bind]. rewrite vset_in by lia. cbn [mbind res_bind]. eexists. split; [done|].
    rewrite !u32_id by (unfold is_u32; lia). set (s1 := with_counts s _ _).
    assert (Hinv1 : inv s1 a inl seen None) by (destruct Hinv; by split).
    split; [by eapply wk_inv_flags|by eapply (exact_flags s1)| |by eapply (filed_inst s1)].
    eapply (acct_update s _ inl seen x i (clearInIQ (setIssued i)) l); try done. unfold holds_entry. simpl. by rewrite Hm.
Qed.

(** ** Completion *)
Lemma completeMem_spec s a inl seen x i :
  ok s a inl seen → insts s !! x = Some i → isMemRef (staticInst i) = true → x ∈ concat (instList s) → Issued (status i) = true → MemOpDone (status i) = false →
  ∃ s', completeMemInst s x = Ok s' ∧ ok s' a inl seen ∧ regScoreboard s' = regScoreboard s.
Proof.
  intros [Hinv Hex Hacct Hfl] Hi0 Hm Hx Hiss Hmd.
  destruct (in_queue s inl seen x Hacct Hx) as (i1 & l & Hi & Ht0 & Hl & Hxl & Hsq & Htold & Hv & Hlt & F0 & F1 & F2 & F3).
  rewrite Hi0 in Hi. injection Hi as <-. rename Hi0 into Hi.
  assert (Hh : holds_entry i = true) by (unfold holds_entry; by rewrite Hm, Hmd, orb_true_r). specialize (F3 Hh).
  unfold completeMemInst, deref. rewrite Hi. cbn [mbind res_bind]. simpl count. rewrite Hv. cbn [mbind res_bind]. rewrite vset_in by lia. cbn [mbind res_bind].
  eexists. split; [done|]. split; [|done]. simpl freeEntries. rewrite !u32_id by (unfold is_u32; lia).
  assert (Hinv1 : inv (do_call (with_inst s x (memOpDone i true)) (MemCompleted x)) a inl seen None) by (apply inv_call; [done|]; by eapply wk_inv_flags).
  split; [destruct Hinv1; by split|by eapply (exact_flags s)| |by eapply (filed_inst s)].
  eapply (acct_update s _ inl seen x i (memOpDone i true) l); try done.
  - simpl. by apply prefix_app_r.
  - intros _. eapply (told_prefix s); [simpl; by apply prefix_app_r|by apply Htold].
  - unfold holds_entry. simpl. rewrite Hm, Hiss. simpl. done.
Qed.

Lemma wakeDependents_spec s a inl seen x :
  ok s a inl seen → can_complete s x = true → ∃ s' n a', wakeDependents s x = Ok (s', n) ∧ ok s' a' inl seen.
Proof.
  intros Hok Hc. unfold can_complete, inst_of in Hc. destruct (insts s !! x) as [i|] eqn:Hi; [|done]. simpl in Hc. rewrite !andb_true_iff in Hc.
  destruct Hc as [[Hsq Hd] Hm]. unfold wakeDependents, deref. rewrite Hi. cbn [mbind res_bind]. rewrite Hsq. cbn [assert_ mbind res_bind].
  match goal with |- context [mbind _ ?m] => assert (∃ s1, m = Ok s1 ∧ ok s1 a inl seen ∧ regScoreboard s1 = regScoreboard s) as (s1 & -> & Hok1 & Hb1) end.
  { destruct (isMemRef (staticInst i)) eqn:Hmem; cbn [negb orb] in Hm.
    - rewrite !andb_true_iff in Hm. destruct Hm as [[Hx Hiss] Hmd]. apply bool_decide_eq_true in Hx. apply negb_true_iff in Hmd.
      by apply (completeMem_spec (do_call s (MemWake x)) a inl seen x i); [apply ok_call|..].
    - destruct (isMemBarrier _ || isWriteBarrier _); eexists; (split; [done|]); split; try done. by apply ok_call. }
  cbn [mbind res_bind]. destruct Hok1 as [Hinv1 Hex1 Hacct1 Hfl1]. rewrite <-Hb1 in Hd.
  destruct (wakeDests_spec (destRegs i) s1 a inl seen 0 Hinv1 Hex1 Hd) as (s' & n & a' & Hw & Hinv' & Hex' & _ & Hsame).
  exists s', n, a'. split; [done|]. pose proof (same_alike _ _ Hsame) as Hal. split; [done|done|by eapply acct_alike|by eapply filed_alike].
Qed.

(** ** Commit *)
Lemma waits_zero s a inl seen x : inv s a inl seen None → (x ∈ inl → x ∈ told s) → waits a x = 0.
Proof.
  intros Hinv Hx. destruct (decide (x ∈ inl)) as [Hin|Hin]; [by apply (i_told _ _ _ _ _ Hinv); auto|].
  pose proof (waits_nonneg a x). destruct (Z.eq_dec (waits a x) 0); [done|]. destruct (proj1 (waits_pos a x) ltac:(lia)) as (r & [pr l] & Hr & Hl).
  by destruct (i_wait _ _ _ _ _ Hinv r pr l x Hr Hl) as [[?|?] _].
Qed.

(** The list [ls] of lists stands for that of [s]. *)
Record ok_with (s : t) (ls : list (list positive)) (a : agraph) (inl seen : gset positive) : Prop := {
  ow_inv : inv s a inl seen None; ow_exact : exact s a inl; ow_acct : acct (with_list s ls) inl seen; ow_filed : filed s
}.

Lemma ok_with_ok s ls a inl seen : ok_with s ls a inl seen ↔ ok (with_list s ls) a inl seen.
Proof.
  split; intros [[H1 H2 H3 H4 H5 H6 H7 H8 H9] Hex Hacct Hfl]; (split; [by split|done|done|done]).
Qed.

(** An instruction that has no entry leaves its list. *)
Lemma leave_list s ls a inl seen k l1 x l2 :
  ok_with s ls a inl seen → ls !! k = Some (l1 ++ x :: l2) → holds s x = false → (x ∈ inl → x ∈ told s) →
  ok_with s (<[k := l1 ++ l2]> ls) a (inl ∖ {[x]}) seen.
Proof.
  intros [Hinv Hex Hacct Hfl] Hk Hh Ht. destruct (inv_leave s a inl seen x Hinv Hex (waits_zero s a inl seen x Hinv Ht)) as [Hinv' Hex'].
  split; [done|done| |done]. eapply (acct_drop (with_list s ls) _ inl seen k l1 x l2); try done; simpl.
  - change (holds (with_list s ls) x) with (holds s x). rewrite Hh. rewrite list_insert_id; [done|].
    pose proof (c_count _ _ _ Hacct k _ Hk) as Hc. simpl in Hc. rewrite Hc. f_equal. simpl. lia.
  - change (holds (with_list s ls) x) with (holds s x). rewrite Hh. simpl. lia.
Qed.

Lemma pop_committed_spec s q k l : ∀ ls a inl seen,
  ok_with s ls a inl seen → ls !! k = Some l →
  Forall (λ x, seq_of s x ≤ q → x ∈ told s ∧ holds s x = false) l →
  ∃ inl', pop_committed s l q = Ok (filter (λ x, q < seq_of s x) l) ∧ ok_with s (<[k := filter (λ x, q < seq_of s x) l]> ls) a inl' seen.
Proof.
  induction l as [|x l IH]; intros ls a inl seen Hok Hk Hall; cbn [pop_committed].
  { exists inl. rewrite filter_nil, list_insert_id by done. done. }
  apply Forall_cons in Hall as [Hx Hall]. destruct (c_inst _ _ _ (ow_acct _ _ _ _ _ Hok) k _ x Hk ltac:(by left)) as (i & Hi & _).
  unfold deref. simpl in Hi. rewrite Hi. cbn [mbind res_bind]. assert (Hs : seq_of s x = seqNum i) by (unfold inst_of; by rewrite Hi).
  rewrite <-Hs. destruct (Z.leb_spec (seq_of s x) q) as [Hle|Hlt].
  - destruct (Hx Hle) as [Ht Hh]. pose proof (leave_list s ls a inl seen k [] x l Hok Hk Hh ltac:(done)) as Hok'.
    destruct (IH _ a _ seen Hok') as (inl' & Hp & Hok2); [apply list_lookup_insert_eq; by eapply lookup_lt_Some|done|].
    exists inl'. rewrite filter_cons_False by lia. rewrite list_insert_insert_eq in Hok2. done.
  - pose proof (c_sorted _ _ _ (ow_acct _ _ _ _ _ Hok) k _ Hk) as Hsort. apply StronglySorted_inv in Hsort as [_ Hsort].
    assert (Hf : filter (λ x, q < seq_of s x) (x :: l) = x :: l).
    { apply filter_all. apply Forall_cons. split; [done|]. eapply Forall_impl; [exact Hsort|]. simpl. intros y Hy. change (seq_of s x < seq_of s y) in Hy. lia. }
    exists inl. rewrite Hf, list_insert_id by done. done.
Qed.

Lemma commit_spec s a inl seen q tid :
  ok s a inl seen → can_commit s q tid = true →
  ∃ s' l inl', commit s q tid = Ok s' ∧ ok s' a inl' seen ∧ instList s !! Z.to_nat tid = Some l ∧
    instList s' = <[Z.to_nat tid := filter (λ x, q < seq_of s x) l]> (instList s).
Proof.
  intros Hok Hc. unfold can_commit in Hc. apply andb_true_iff in Hc as [Ht Hc]. destruct (instList s !! Z.to_nat tid) as [l|] eqn:Hl; [|done].
  rewrite forallb_forall in Hc. apply Z.leb_le in Ht.
  assert (Hok0 : ok_with s (instList s) a inl seen) by (destruct Hok as [[] ? [] ?]; split; [by split|done|by split|done]).
  destruct (pop_committed_spec s q (Z.to_nat tid) l (instList s) a inl seen Hok0 Hl) as (inl' & Hp & Hok').
  { apply Forall_forall. intros x Hx Hle. apply list_elem_of_In, Hc in Hx. apply orb_true_iff in Hx as [Hx|Hx]; [lia|].
    apply andb_true_iff in Hx as [Hx Hh]. apply bool_decide_eq_true in Hx. by apply negb_true_iff in Hh. }
  unfold commit. rewrite (vget_in _ _ _ Ht Hl). cbn [mbind res_bind]. rewrite Hp. cbn [mbind res_bind].
  rewrite vset_in by (apply lookup_lt_Some in Hl; unfold vlen; lia). cbn [mbind res_bind].
  unfold countInsts. simpl freeEntries. simpl numEntries. rewrite free_assert.
  2: { pose proof (c_free _ _ _ (o_acct _ _ _ _ Hok)) as (? & ? & ?). pose proof (held_nonneg s (concat (instList s))). unfold entries_held, is_u32 in *. lia. }
  cbn [assert_ mbind res_bind]. eexists _, l, inl'. split; [done|]. split; [by apply ok_with_ok|done].
Qed.
End WakeupOps.
