(* ===== verification/WakeupSquash.v ===== *)
(** * Squashing in the instruction queue

    [squash] removes exactly the younger instructions of its thread from the queue and from
    every list of the dependency graph. *)

From stdpp Require Import sorting.
From S2P Require Import Prelude DepGraph Wakeup WakeupInv WakeupAcct WakeupOps.

Module WakeupSquash.
Import Wakeup WakeupInv WakeupAcct WakeupOps.

(** What squashing [x] leaves of the rest. *)
Record squashed_one (s s' : t) (x : positive) : Prop := {
  q_others : others s s' x;
  q_list : instList s' = instList s;
  q_calls : calls s' = calls s;
  q_seq : ∀ y, seq_of s' y = seq_of s y;
  q_insts : ∀ y, y ≠ x → insts s' !! y = insts s !! y;
  q_non : ∀ p, p ≠ seq_of s x → nonSpecInsts s' !! p = nonSpecInsts s !! p
}.

Lemma inv_nonspec_delete s a inl seen q : inv s a inl seen None → inv (with_nonspec s (delete q (nonSpecInsts s))) a inl seen None.
Proof.
  intros [H1 H2 H3 H4 H5 H6 H7 H8 H9]. split; try done. intros p x Hp. simpl in Hp. apply lookup_delete_Some in Hp as [_ Hp]. by eapply H9.
Qed.

Definition squashable (s : t) (i : DynInst) : bool :=
  speculative (staticInst i) || (isStoreConditional (staticInst i) && Completed (status i)) ||
  bool_decide (is_Some (nonSpecInsts s !! seqNum i)) || Fault (status i) || isMemRef (staticInst i).

(** The part of [squash_one] before the flags are set. *)
Lemma wk_unlink_spec s a inl seen x i :
  inv s a inl seen None → exact s a inl → filed s → insts s !! x = Some i → (x ∈ inl ↔ speculative (staticInst i) = true) → squashable s i = true →
  ∃ s1 a1, (if speculative (staticInst i) then removeSources s x 0 (length (srcRegs i))
            else if negb (isStoreConditional (staticInst i)) || negb (Completed (status i)) then
              match nonSpecInsts s !! seqNum i with
              | None => _ ← assert_ (Fault (status i) || isMemRef (staticInst i)); Ok s
              | Some _ => Ok (with_nonspec s (delete (seqNum i) (nonSpecInsts s)))
              end
            else Ok s) = Ok s1 ∧
    inv s1 a1 (inl ∖ {[x]}) seen None ∧ exact s1 a1 (inl ∖ {[x]}) ∧ filed s1 ∧ insts s1 = insts s ∧ calls s1 = calls s ∧
    instList s1 = instList s ∧ count s1 = count s ∧ freeEntries s1 = freeEntries s ∧ numEntries s1 = numEntries s ∧
    squashedSeqNum s1 = squashedSeqNum s ∧ ∀ p, p ≠ seqNum i → nonSpecInsts s1 !! p = nonSpecInsts s !! p.
Proof.
  intros Hinv Hex Hfl Hi Hspec Hg. destruct (speculative (staticInst i)) eqn:Hsp.
  - pose proof (removing_start s a inl seen x i Hinv Hex ltac:(by apply Hspec) Hi) as Hrem.
    destruct (removeSources_spec (length (srcRegs i)) s a _ seen x i 0 Hrem eq_refl) as (s1 & a1 & Hr & Hrem1 & E1 & E2 & E3 & Hal).
    exists s1, a1. change (Z.of_nat 0) with 0 in Hr. pose proof Hal as (A1 & A2 & A3 & A4 & A5 & A6 & _). split_and!; try done.
    + by eapply removing_done.
    + by destruct Hrem1.
    + by eapply filed_alike.
    + intros p _. by rewrite A2.
  - assert (Hx : x ∉ inl) by (intros ?%Hspec; done). replace (inl ∖ {[x]}) with inl by set_solver.
    destruct (negb _ || negb _) eqn:Hsc.
    + destruct (nonSpecInsts s !! seqNum i) as [y|] eqn:Hn.
      * exists (with_nonspec s (delete (seqNum i) (nonSpecInsts s))), a. split_and!; try done; [by apply inv_nonspec_delete| |].
        -- intros p z Hp. simpl in Hp. apply lookup_delete_Some in Hp as [_ Hp]. by apply Hfl.
        -- intros p Hp. simpl. by rewrite lookup_delete_ne.
      * exists s, a. unfold squashable in Hg. rewrite Hsp, Hn, bool_decide_false in Hg by (by intros [??]).
        assert (isStoreConditional (staticInst i) && Completed (status i) = false) as E by (by destruct (isStoreConditional _), (Completed _)).
        rewrite E in Hg. cbn [orb] in Hg. rewrite Hg. cbn [assert_ mbind res_bind]. done.
    + exists s, a. done.
Qed.

Lemma squash_one_spec s ls a inl seen k l x i :
  ok_with s ls a inl seen → ls !! k = Some (l ++ [x]) → insts s !! x = Some i → holds_entry i = true → squashable s i = true →
  ∃ s1 a1, squash_one s x = Ok s1 ∧ ok_with s1 (<[k := l]> ls) a1 (inl ∖ {[x]}) seen ∧ squashed_one s s1 x.
Proof.
  intros [Hinv Hex Hacct Hfl] Hk Hi Hh Hg. assert (Hxc : x ∈ concat ls) by (apply elem_concat; exists k, (l ++ [x]); set_solver).
  destruct (in_queue (with_list s ls) inl seen x Hacct Hxc) as (i1 & l1 & Hi1 & Ht0 & Hl1 & Hxl & Hsq & Htold & Hv & Hlt & F0 & F1 & F2 & F3).
  simpl in Hi1. rewrite Hi in Hi1. injection Hi1 as <-. specialize (F3 Hh).
  destruct (c_inst _ _ _ Hacct k _ x Hk ltac:(set_solver)) as (i2 & Hi2 & Ht2 & _). simpl in Hi2. rewrite Hi in Hi2. injection Hi2 as <-.
  assert (E : Z.to_nat (threadNumber i) = k) by lia. simpl in Hl1. rewrite E in Hl1. rewrite Hk in Hl1. injection Hl1 as <-. simpl in Hv, Hlt, F0, F1.
  assert (Hspec : x ∈ inl ↔ speculative (staticInst i) = true).
  { rewrite (c_inl _ _ _ Hacct). unfold inst_of. simpl. rewrite Hi. simpl. naive_solver. }
  destruct (wk_unlink_spec s a inl seen x i Hinv Hex Hfl Hi Hspec Hg) as (s1 & a1 & Hu & Hinv1 & Hex1 & Hfl1 & E1 & E2 & E3 & E4 & E5 & E6 & E7 & E8).
  unfold squash_one, deref. rewrite Hi. cbn [mbind res_bind]. rewrite Hu. cbn [mbind res_bind]. simpl count. rewrite E4, Hv. cbn [mbind res_bind].
  rewrite vset_in by lia. cbn [mbind res_bind]. simpl freeEntries. rewrite E5, !u32_id by (unfold is_u32; lia). rewrite E.
  set (i' := clearInIQ _). set (c := <[k := _]> (count s)). eexists _, a1. split; [done|].
  assert (Hx : x ∉ inl ∖ {[x]}) by set_solver. rewrite <-E1 in Hi.
  pose proof (inv_other s1 a1 _ seen None x i i' Hinv1 Hx Hi eq_refl) as Hinv2. pose proof (exact_other s1 a1 _ x i' Hex1 Hx) as Hex2.
  rewrite E1 in Hi. assert (Hseq : ∀ y, seq_of (with_inst s1 x i') y = seq_of s y).
  { intros y. unfold inst_of. simpl. rewrite E1. destruct (decide (y = x)) as [->|]; [by rewrite lookup_insert_eq, Hi|by rewrite lookup_insert_ne]. }
  assert (Hins : ∀ y, y ≠ x → <[x := i']> (insts s1) !! y = insts s !! y) by (intros y Hy; by rewrite lookup_insert_ne, E1).
  assert (Ho : others s (with_counts (with_inst s1 x i') c (freeEntries s + 1)) x).
  { unfold others. simpl. split_and!; [done|done|by rewrite E2|]. intros y Hy. by rewrite Hins. }
  assert (Hhx : holds (with_list s ls) x = true) by (unfold inst_of; simpl; by rewrite Hi).
  split; [split; [destruct Hinv2; by split|done| |]|split; try done].
  - eapply (acct_drop (with_list s ls) _ inl seen k l x []); try done; simpl; rewrite ?app_nil_r, ?Hhx; done.
  - eapply (filed_inst s1); [by rewrite E1|done|done].
  - intros p Hp. simpl. apply E8. unfold inst_of in Hp. by rewrite Hi in Hp.
Qed.

(** What [can_squash] asks of an instruction that is younger than [q]. *)
Definition may_go (s : t) (q : Z) (x : positive) : Prop :=
  q < seq_of s x → holds s x = true → ∃ i, insts s !! x = Some i ∧ squashable s i = true.

Lemma may_go_other s s' q x y :
  squashed_one s s' x → y ≠ x → seq_of s y ≠ seq_of s x → may_go s q y → may_go s' q y.
Proof.
  intros [Ho _ _ Hq Hi Hn] Hy Hs Hg Hlt Hh. rewrite Hq in Hlt. destruct (others_fields s s' x y Ho Hy) as (Hh' & _). rewrite Hh' in Hh.
  destruct (Hg Hlt Hh) as (i & Hiy & Hsq). exists i. split; [by rewrite Hi|]. unfold squashable in *. rewrite Hn; [done|].
  intros E. apply Hs. unfold inst_of at 1. by rewrite Hiy.
Qed.

Lemma may_go_back s s' q x y :
  squashed_one s s' x → y ≠ x → seq_of s y ≠ seq_of s x → may_go s' q y → may_go s q y.
Proof.
  intros [Ho _ _ Hq Hi Hn] Hy Hs Hg Hlt Hh. destruct (others_fields s s' x y Ho Hy) as (Hh' & _).
  destruct Hg as (i & Hiy & Hsq); [by rewrite Hq|by rewrite Hh'|]. rewrite Hi in Hiy by done.
  exists i. split; [done|]. unfold squashable in *. rewrite <-Hn; [done|].
  intros E. apply Hs. unfold inst_of at 1. by rewrite Hiy.
Qed.

(** The assertion of [doSquash] fails. *)
Lemma squash_one_fails s x i :
  insts s !! x = Some i → squashable s i = false → squash_one s x = Err AssertFail.
Proof.
  intros Hi Hg. unfold squash_one, deref. rewrite Hi. cbn [mbind res_bind]. unfold squashable in Hg.
  rewrite !orb_false_iff in Hg. destruct Hg as [[[[-> Hsc] Hn] Hf] Hm]. rewrite <-negb_andb, Hsc. cbn [negb].
  destruct (nonSpecInsts s !! seqNum i); [by rewrite bool_decide_true in Hn|]. by rewrite Hf, Hm.
Qed.

(** The effect of the loop as a whole. *)
Record squashed_all (s s' : t) : Prop := {
  qa_list : instList s' = instList s;
  qa_calls : calls s' = calls s;
  qa_seq : ∀ y, seq_of s' y = seq_of s y
}.

Lemma wk_squash_loop_spec q k rl : ∀ s ls a inl seen,
  ok_with s ls a inl seen → ls !! k = Some (rev rl) → Forall (may_go s q) rl →
  ∃ s' kept a' inl', squash_loop s (Z.of_nat k) q rl = Ok (s', kept) ∧ rev kept = filter (λ x, seq_of s x ≤ q) (rev rl) ∧
    ok_with s' (<[k := rev kept]> ls) a' inl' seen ∧ squashed_all s s'.
Proof.
  induction rl as [|x rl IH]; intros s ls a inl seen Hok Hk Hall; cbn [squash_loop].
  { exists s, [], a, inl. rewrite list_insert_id by done. done. }
  apply Forall_cons in Hall as [Hx Hall]. simpl rev in Hk. assert (Hxl : x ∈ rev rl ++ [x]) by set_solver.
  pose proof Hok as [Hinv Hex Hacct Hfl]. destruct (c_inst _ _ _ Hacct k _ x Hk Hxl) as (i & Hi & Ht & Hsq & Htold). simpl in Hi.
  pose proof (c_sorted _ _ _ Hacct k _ Hk) as Hsort. apply StronglySorted_app in Hsort as (Hsort & _ & _).
  assert (Hlt : ∀ y, y ∈ rl → seq_of s y < seq_of s x).
  { intros y Hy. apply (Hsort y x); [|set_solver]. apply list_elem_of_In, (proj1 (in_rev rl y)). by apply list_elem_of_In. }
  assert (Hs : seq_of s x = seqNum i) by (unfold inst_of; by rewrite Hi). simpl rev. rewrite filter_app.
  unfold deref. rewrite Hi. cbn [mbind res_bind]. rewrite <-Hs, Hsq, Ht, Z.eqb_refl. cbn [negb orb]. destruct (Z.ltb_spec q (seq_of s x)) as [Hq|Hq].
  - rewrite filter_cons_False, filter_nil, app_nil_r by lia.
    match goal with |- context [mbind _ ?m] => assert (∃ s1 a1, m = Ok s1 ∧ ok_with s1 (<[k := rev rl]> ls) a1 (inl ∖ {[x]}) seen ∧ squashed_one s s1 x)
      as (s1 & a1 & -> & Hok1 & Hsq1) end.
    { destruct (holds_entry i) eqn:Hh.
      - destruct (Hx Hq) as (j & Hj & Hg); [unfold inst_of; by rewrite Hi|]. rewrite Hi in Hj. injection Hj as <-. by eapply squash_one_spec.
      - exists s, a. split; [done|]. split; [|by split]. rewrite <-(app_nil_r (rev rl)). eapply leave_list; [done|done|unfold inst_of; by rewrite Hi|].
        intros _. apply Htold. unfold holds_entry in Hh. by destruct (Issued (status i)). }
    cbn [mbind res_bind]. destruct (IH s1 _ a1 _ seen Hok1) as (s' & kept & a' & inl' & Hl & Hkept & Hok' & Hqa).
    { apply list_lookup_insert_eq. by eapply lookup_lt_Some. }
    { rewrite Forall_forall in Hall |- *. intros y Hy. specialize (Hlt y Hy). eapply (may_go_other s s1 q x y); [done|intros ->; lia|lia|by apply Hall]. }
    rewrite Hl. exists s', kept, a', inl'. rewrite list_insert_insert_eq in Hok'. destruct Hsq1 as [_ G1 G2 G3 _ _], Hqa as [K1 K2 K3].
    split_and!; [done| |done|split; [congruence|congruence|intros y; by rewrite K3]].
    rewrite Hkept. apply list_filter_iff. intros y. by rewrite G3.
  - exists s, (x :: rl), a, inl. split; [done|]. simpl rev. rewrite list_insert_id by done. split; [|done].
    rewrite (filter_all _ (rev rl)), (filter_all _ [x]); [done|by constructor|]. apply Forall_forall. intros y Hy.
    assert (Hy' : y ∈ rl) by (apply list_elem_of_In, in_rev, list_elem_of_In; done). specialize (Hlt y Hy'). lia.
Qed.

(** An instruction that may not go stops the loop at its assertion. *)
Lemma squash_loop_fails q k rl : ∀ s ls a inl seen,
  ok_with s ls a inl seen → ls !! k = Some (rev rl) → ¬ Forall (may_go s q) rl →
  squash_loop s (Z.of_nat k) q rl = Err AssertFail.
Proof.
  induction rl as [|x rl IH]; intros s ls a inl seen Hok Hk Hall; cbn [squash_loop]; [by destruct Hall|].
  simpl rev in Hk. assert (Hxl : x ∈ rev rl ++ [x]) by set_solver.
  pose proof Hok as [Hinv Hex Hacct Hfl]. destruct (c_inst _ _ _ Hacct k _ x Hk Hxl) as (i & Hi & Ht & Hsq & Htold). simpl in Hi.
  pose proof (c_sorted _ _ _ Hacct k _ Hk) as Hsort. apply StronglySorted_app in Hsort as (Hsort & _ & _).
  assert (Hlt : ∀ y, y ∈ rl → seq_of s y < seq_of s x).
  { intros y Hy. apply (Hsort y x); [|set_solver]. apply list_elem_of_In, (proj1 (in_rev rl y)). by apply list_elem_of_In. }
  assert (Hs : seq_of s x = seqNum i) by (unfold inst_of; by rewrite Hi).
  unfold deref. rewrite Hi. cbn [mbind res_bind]. rewrite <-Hs, Hsq, Ht, Z.eqb_refl. cbn [negb orb]. destruct (Z.ltb_spec q (seq_of s x)) as [Hq|Hq].
  2: { destruct Hall. constructor; [intros ?; lia|]. apply Forall_forall. intros y Hy Hqy. specialize (Hlt y Hy). lia. }
  destruct (holds_entry i) eqn:Hh.
  - destruct (squashable s i) eqn:Hg; [|by rewrite (squash_one_fails s x i)].
    destruct (squash_one_spec s ls a inl seen k (rev rl) x i Hok Hk Hi Hh Hg) as (s1 & a1 & -> & Hok1 & Hsq1). cbn [mbind res_bind].
    apply (IH s1 _ a1 _ seen Hok1); [apply list_lookup_insert_eq; by eapply lookup_lt_Some|].
    intros Hrl. apply Hall. constructor; [intros _ _; eauto|]. rewrite Forall_forall in Hrl |- *. intros y Hy. specialize (Hlt y Hy).
    eapply (may_go_back s s1 q x y); [done|intros ->; lia|lia|by apply Hrl].
  - cbn [mbind res_bind]. eapply (IH s (<[k := rev rl]> ls) a _ seen).
    + rewrite <-(app_nil_r (rev rl)). eapply leave_list; [done|done|unfold inst_of; by rewrite Hi|].
      intros _. apply Htold. unfold holds_entry in Hh. by destruct (Issued (status i)).
    + apply list_lookup_insert_eq. by eapply lookup_lt_Some.
    + intros Hrl. apply Hall. constructor; [|done]. intros _ Hhx. unfold inst_of in Hhx. rewrite Hi in Hhx. simpl in Hhx. congruence.
Qed.

Lemma can_squash_iff s tid q l :
  0 ≤ tid → instList s !! Z.to_nat tid = Some l → (∀ x, x ∈ l → is_Some (insts s !! x)) →
  can_squash s tid q = true ↔ Forall (may_go s q) l.
Proof.
  intros Ht Hl Hall. unfold can_squash. rewrite Hl, (proj2 (Z.leb_le _ _) Ht). cbn [andb].
  rewrite forallb_forall, Forall_forall. setoid_rewrite <-list_elem_of_In. apply forall_proper. intros x.
  split; intros H Hx; specialize (H Hx); destruct (Hall x Hx) as [i Hi]; unfold may_go, inst_of in *; rewrite Hi in *; simpl in *.
  - intros Hq Hh. exists i. split; [done|]. rewrite Hh in H. destruct (Z.leb_spec (seqNum i) q); [lia|]. done.
  - destruct (Z.leb_spec (seqNum i) q); [done|]. destruct (holds_entry i); [|done].
    destruct H as (j & Hj & Hsq); [done|done|]. injection Hj as <-. done.
Qed.

Lemma can_squash_spec s tid q l :
  can_squash s tid q = true → instList s !! Z.to_nat tid = Some l → Forall (may_go s q) l.
Proof.
  intros Hc Hl. unfold can_squash in Hc. rewrite Hl in Hc. apply andb_true_iff in Hc as [_ Hc]. rewrite forallb_forall in Hc.
  apply Forall_forall. intros x Hx Hq Hh. apply list_elem_of_In, Hc in Hx. rewrite Hh in Hx. unfold inst_of at 2 in Hx.
  destruct (insts s !! x) as [i|]; [|simpl in Hx; lia]. exists i. split; [done|]. simpl in Hx. unfold squashable.
  destruct (Z.leb_spec (seq_of s x) q); [lia|]. done.
Qed.

Lemma wk_squash_spec s a inl seen tid q :
  ok s a inl seen → can_squash s tid q = true →
  ∃ s' a' inl' l, squash s tid q = Ok s' ∧ ok s' a' inl' seen ∧ instList s !! Z.to_nat tid = Some l ∧
    instList s' = <[Z.to_nat tid := filter (λ x, seq_of s x ≤ q) l]> (instList s) ∧ told s' = told s.
Proof.
  intros Hok Hc. assert (0 ≤ tid ∧ ∃ l, instList s !! Z.to_nat tid = Some l) as [Ht (l & Hl)].
  { unfold can_squash in Hc. apply andb_true_iff in Hc as [Ht Hc]. destruct (instList s !! _) as [l|]; [|done]. split; [lia|eauto]. }
  pose proof (can_squash_spec s tid q l Hc Hl) as Hall. pose proof (o_acct _ _ _ _ Hok) as Hacct. pose proof (c_len _ _ _ Hacct) as [_ Hlen].
  assert (Hlt : (Z.to_nat tid < length (instList s))%nat) by (by eapply lookup_lt_Some).
  unfold squash. rewrite vset_in by (unfold vlen; lia). cbn [mbind res_bind]. set (s0 := with_squashed s _). unfold doSquash.
  rewrite (vget_in _ tid q); [|done|simpl; by rewrite list_lookup_insert_eq by lia]. cbn [mbind res_bind].
  rewrite (vget_in (instList s0) tid l Ht Hl). cbn [mbind res_bind].
  assert (Hok0 : ok_with s0 (instList s0) a inl seen).
  { destruct Hok as [[] ? [] ?]. split; [by split|done| |done]. split; simpl; try done. by rewrite length_insert. }
  destruct (wk_squash_loop_spec q (Z.to_nat tid) (rev l) s0 (instList s0) a inl seen Hok0) as (s1 & kept & a' & inl' & Hsl & Hkept & Hok1 & [K1 K2 K3]).
  { by rewrite rev_involutive. }
  { rewrite Forall_forall in Hall |- *. intros x Hx. apply Hall. apply list_elem_of_In, in_rev, list_elem_of_In. done. }
  rewrite Z2Nat.id in Hsl by done. rewrite Hsl. cbn [mbind res_bind]. rewrite K1. rewrite vset_in by (unfold vlen; simpl; lia). cbn [mbind res_bind].
  rewrite rev_involutive in Hkept. eexists _, a', inl', l. split; [done|]. split; [apply ok_call; [done|]; by apply ok_with_ok|].
  split; [done|]. simpl. split; [by rewrite Hkept|]. rewrite told_call. simpl. rewrite app_nil_r. unfold told. simpl. by rewrite K2.
Qed.

Lemma wk_squash_fails s a inl seen tid q :
  ok s a inl seen → 0 ≤ tid < vlen (instList s) → can_squash s tid q = false → squash s tid q = Err AssertFail.
Proof.
  intros Hok Ht Hc. pose proof (o_acct _ _ _ _ Hok) as Hacct. pose proof (c_len _ _ _ Hacct) as [_ Hlen].
  destruct (lookup_lt_is_Some_2 (instList s) (Z.to_nat tid)) as [l Hl]; [unfold vlen in *; lia|].
  assert (Hlt : (Z.to_nat tid < length (instList s))%nat) by (by eapply lookup_lt_Some).
  unfold squash. rewrite vset_in by (unfold vlen in *; lia). cbn [mbind res_bind]. set (s0 := with_squashed s _). unfold doSquash.
  rewrite (vget_in _ tid q); [|lia|simpl; by rewrite list_lookup_insert_eq by lia]. cbn [mbind res_bind].
  rewrite (vget_in (instList s0) tid l (proj1 Ht) Hl). cbn [mbind res_bind].
  assert (Hok0 : ok_with s0 (instList s0) a inl seen).
  { destruct Hok as [[] ? [] ?]. split; [by split|done| |done]. split; simpl; try done. by rewrite length_insert. }
  pose proof (squash_loop_fails q (Z.to_nat tid) (rev l) s0 (instList s0) a inl seen Hok0) as Hf.
  rewrite Z2Nat.id in Hf by lia. rewrite Hf; [done|by rewrite rev_involutive|].
  intros Hall. assert (can_squash s tid q = true) as E; [|congruence].
  apply (can_squash_iff s tid q l); [lia|done| |].
  - intros x Hx. destruct (c_inst _ _ _ Hacct _ l x Hl Hx) as (i & -> & _). eauto.
  - rewrite Forall_forall in Hall |- *. intros x Hx. apply (Hall x). apply list_elem_of_In, (proj1 (in_rev l x)). by apply list_elem_of_In.
Qed.
End WakeupSquash.
