(* ===== verification/WakeupSpec.v ===== *)
(** * Sessions of the instruction queue

    Whatever the stages around the queue do, within what they ensure: no wake-up is lost,
    the entries are accounted for, and a squash removes exactly the younger instructions. *)

From stdpp Require Import sorting.
From S2P Require Import Prelude DepGraph Wakeup WakeupInv WakeupAcct WakeupOps WakeupSquash.

Module WakeupSpec.
Import Wakeup WakeupInv WakeupAcct WakeupOps WakeupSquash.

Inductive event :=
| Insert (x : positive) | InsertNonSpec (x : positive) | InsertBarrier (x : positive)
| ScheduleNonSpec (q : Z) | Issue (x : positive) | Complete (x : positive)
| Commit (q tid : Z) | Squash (tid q : Z) | Touch (x : positive) (squashed completed fault : bool).

Definition step (s : t) (e : event) : res t :=
  match e with
  | Insert x => insert s x
  | InsertNonSpec x => insertNonSpec s x
  | InsertBarrier x => insertBarrier s x
  | ScheduleNonSpec q => scheduleNonSpec s q
  | Issue x => issue s x
  | Complete x => '(s, _) ← wakeDependents s x; Ok s
  | Commit q tid => commit s q tid
  | Squash tid q => squash s tid q
  | Touch x b1 b2 b3 => touch s x b1 b2 b3
  end.

Definition enters (e : event) : gset positive :=
  match e with Insert x | InsertNonSpec x | InsertBarrier x => {[x]} | _ => ∅ end.

Definition allowed (s : t) (seen : gset positive) (e : event) : bool :=
  match e with
  | Insert x => can_insert s seen x
  | InsertNonSpec x | InsertBarrier x => can_insert_nonspec s seen x
  | ScheduleNonSpec q => can_schedule s q
  | Issue x => can_issue s x
  | Complete x => can_complete s x
  | Commit q tid => can_commit s q tid
  | Squash tid q => can_squash s tid q
  | Touch x _ _ _ => bool_decide (is_Some (insts s !! x))
  end.

Fixpoint play (s : t) (es : list event) : res t :=
  match es with [] => Ok s | e :: es => s ← step s e; play s es end.

Fixpoint legal (s : t) (seen : gset positive) (es : list event) : bool :=
  match es with
  | [] => true
  | e :: es => allowed s seen e && match step s e with Ok s => legal s (enters e ∪ seen) es | Err _ => true end
  end.

Lemma wk_step_ok s a inl seen e :
  ok s a inl seen → allowed s seen e = true → ∃ s' a' inl', step s e = Ok s' ∧ ok s' a' inl' (enters e ∪ seen).
Proof.
  intros Hok Ha. destruct e; cbn [allowed step enters] in *; rewrite ?(left_id_L ∅ (∪)).
  - destruct (insert_spec s a inl seen x Hok Ha) as (? & ? & ? & ?). eauto.
  - destruct (insertNonSpec_spec s a inl seen x Hok Ha) as (? & ? & ? & ?). eauto.
  - destruct (insertBarrier_spec s a inl seen x Hok Ha) as (? & ? & ? & ?). eauto.
  - destruct (scheduleNonSpec_spec s a inl seen q Hok Ha) as (? & ? & ?). eauto.
  - destruct (issue_spec s a inl seen x Hok Ha) as (? & ? & ?). eauto.
  - destruct (wakeDependents_spec s a inl seen x Hok Ha) as (? & ? & ? & -> & ?). cbn [mbind res_bind]. eauto.
  - destruct (commit_spec s a inl seen q tid Hok Ha) as (? & ? & ? & ? & ? & _). eauto.
  - destruct (wk_squash_spec s a inl seen tid q Hok Ha) as (? & ? & ? & ? & ? & ? & _). eauto.
  - apply bool_decide_eq_true in Ha. destruct (touch_spec s a inl seen x squashed completed fault Hok Ha) as (? & ? & ?). eauto.
Qed.

Lemma play_ok es : ∀ s a inl seen, ok s a inl seen → legal s seen es = true → ∃ s' a' inl' seen', play s es = Ok s' ∧ ok s' a' inl' seen'.
Proof.
  induction es as [|e es IH]; intros s a inl seen Hok Hl; cbn [play]; [by exists s, a, inl, seen|].
  cbn [legal] in Hl. apply andb_true_iff in Hl as [He Hl]. destruct (wk_step_ok s a inl seen e Hok He) as (s1 & a1 & inl1 & Hs & Hok1).
  rewrite Hs in Hl |- *. cbn [mbind res_bind]. by apply (IH s1 a1 inl1 _ Hok1).
Qed.

Lemma wk_create_ok nt nr n m : 0 ≤ nr → is_u32 n → ok (create nt nr n m) (replicate (Z.to_nat nr) (None, [])) ∅ ∅.
Proof.
  intros Hr Hn. assert (Hnil : ∀ (r : nat) (pr : ptr) (l : list positive), replicate (Z.to_nat nr) (None, []) !! r = Some (pr, l) → l = []).
  { intros r pr l [E _]%lookup_replicate. by simplify_eq. }
  assert (Hc : ∀ k, concat (replicate k ([] : list positive)) = []) by (induction k; [done|]; simpl; done). split.
  - split; simpl; try done.
    + by apply DG.resize_sim.
    + by rewrite !length_replicate.
    + intros r pr l _. apply Hnil.
    + intros r pr l x Hr' Hx. rewrite (Hnil r pr l Hr') in Hx. by apply elem_of_nil in Hx.
    + apply NoDup_nil_2.
    + intros x [Hx|Hx]; [by apply elem_of_nil in Hx|done].
  - intros x i r pr l Hx. set_solver.
  - split; unfold entries_held; simpl; rewrite ?Hc; try done.
    + by rewrite !length_replicate.
    + apply NoDup_nil_2.
    + intros x Hx. by apply elem_of_nil in Hx.
    + intros tid l x [-> _]%lookup_replicate Hx. by apply elem_of_nil in Hx.
    + intros tid l [-> Hlt]%lookup_replicate. apply lookup_replicate. done.
    + change (held _ []) with 0. unfold is_u32 in *. lia.
    + intros x. rewrite elem_of_nil. set_solver.
    + intros tid l [-> _]%lookup_replicate. constructor.
  - intros q x Hq. simpl in Hq. by rewrite lookup_empty in Hq.
Qed.

(** ** Waiting *)

(** A heap represents one abstract graph only. *)
Lemma seg_unique h p l k : DG.seg h p l None → DG.seg h p k None → l = k.
Proof. revert p k. induction l as [|[b y] l IH]; intros p [|[c z] k] Hl Hk; simpl in *; naive_solver. Qed.

Lemma sim_unique g (a a' : agraph) : DG.sim g a → DG.sim g a' → a = a'.
Proof.
  intros (ls & Hr & ->) (ks & Hk & ->). f_equal. apply list_eq. intros i.
  destruct (DG.rep_len _ _ Hr) as [E1 _], (DG.rep_len _ _ Hk) as [E2 _].
  destruct (DG.dependGraph g !! i) as [e|] eqn:He.
  - destruct (lookup_lt_is_Some_2 ls i) as [l Hl]; [apply lookup_lt_Some in He; lia|].
    destruct (lookup_lt_is_Some_2 ks i) as [k Hk']; [apply lookup_lt_Some in He; lia|].
    rewrite Hl, Hk'. f_equal. eapply seg_unique; [by eapply (DG.rep_seg _ _ Hr)|by eapply (DG.rep_seg _ _ Hk)].
  - apply lookup_ge_None in He. rewrite !lookup_ge_None_2 by lia. done.
Qed.

(** [x] is in the list of register [r] of the graph, and [r] has not been produced. *)
Definition awaits (s : t) (x : positive) (r : Z) : Prop :=
  vget (regScoreboard s) r = Ok false ∧ ∃ a pr l, DG.sim (dependGraph s) a ∧ vget a r = Ok (pr, l) ∧ x ∈ l.

Lemma awaits_in s a inl seen x r : ok s a inl seen → awaits s x r → x ∈ concat (instList s) ∧ 0 < waits a x.
Proof.
  intros [Hinv _ Hacct _] (_ & a' & pr & l & Hs & [_ Ha]%vget_Ok & Hx). rewrite (sim_unique _ _ _ Hs (i_sim _ _ _ _ _ Hinv)) in Ha. split.
  - destruct (i_wait _ _ _ _ _ Hinv _ _ _ x Ha Hx) as [[Hin|?] _]; [|done]. by apply (c_inl _ _ _ Hacct) in Hin as [? _].
  - apply waits_pos. eexists _, _. done.
Qed.

(** A speculative instruction of the queue is ready or waits. *)
Lemma ready_or_waits s a inl seen x i :
  ok s a inl seen → x ∈ concat (instList s) → insts s !! x = Some i → speculative (staticInst i) = true →
  (x ∈ told s ∧ readyToIssue i = true ∧ readyRegs i = numSrcRegs i ∧ ∀ r, ¬ awaits s x r) ∨
  (x ∉ told s ∧ readyToIssue i = false ∧ readyRegs i < numSrcRegs i ∧ ∃ r, mkReg r false ∈ srcRegs i ∧ awaits s x r).
Proof.
  intros Hok Hx Hi Hsp. pose proof Hok as [Hinv _ Hacct _]. pose proof Hinv as [H1 H2 H3 H4 H5 H6 H7 H8 H9].
  assert (Hin : x ∈ inl) by (apply (c_inl _ _ _ Hacct); split; [done|]; unfold inst_of; by rewrite Hi).
  destruct (H5 x Hin) as (j & Hj & Hw). rewrite Hi in Hj. injection Hj as <-. apply waiting_done in Hw as [Hsum Hrd].
  destruct (Z.eq_dec (waits a x) 0) as [E|E]; [left|right].
  - rewrite bool_decide_true in Hrd by done. split_and!; [by apply H6|done|lia|]. intros r Haw. apply (awaits_in s a inl seen x r Hok) in Haw as [_ ?]. lia.
  - rewrite bool_decide_false in Hrd by done. pose proof (waits_nonneg a x). split_and!; [by intros ?%H6|done|lia|].
    destruct (proj1 (waits_pos a x) ltac:(lia)) as (r & [pr l] & Hr & Hxl).
    destruct (H4 r pr l x Hr Hxl) as [_ (j & Hj & Hsrc)]. rewrite Hi in Hj. injection Hj as <-. exists (Z.of_nat r). split; [done|]. split.
    + destruct (lookup_lt_is_Some_2 (regScoreboard s) r) as [b Hb]; [rewrite H2; by eapply lookup_lt_Some|].
      rewrite (vget_in _ _ b) by (lia || by rewrite Nat2Z.id). destruct b; [|done]. pose proof (H3 r pr l Hb Hr) as ->. by apply elem_of_nil in Hxl.
    + exists a, pr, l. split; [done|]. split; [|done]. by rewrite (vget_in _ _ (pr, l)) by (lia || by rewrite Nat2Z.id).
Qed.

(** C19: no wake-up is lost and none happens twice.  Whatever instructions enter the queue,
    are scheduled, issue, complete, commit and are squashed, within what the stages around
    it ensure (renaming marked the sources that were ready and allocated destinations that
    no instruction in the queue reads), every operation returns: no assertion or panic is
    hit and every loop ends.  A speculative instruction in the queue has been handed on as
    ready, exactly once and with all its sources counted, or else it is on the list of a
    source register that has yet to be produced, never both: the completion of its last
    producer makes it ready.  Only instructions in the queue are on the lists. *)
Theorem iq_no_lost_wakeup nt nr n m es :
  0 ≤ nr → is_u32 n → legal (create nt nr n m) ∅ es = true →
  ∃ s, play (create nt nr n m) es = Ok s ∧ NoDup (told s) ∧ (∀ x r, awaits s x r → x ∈ concat (instList s)) ∧
    ∀ x, x ∈ concat (instList s) → ∃ i, insts s !! x = Some i ∧ (speculative (staticInst i) = true →
      (x ∈ told s ∧ readyToIssue i = true ∧ readyRegs i = numSrcRegs i ∧ ∀ r, ¬ awaits s x r) ∨
      (x ∉ told s ∧ readyToIssue i = false ∧ readyRegs i < numSrcRegs i ∧ ∃ r, mkReg r false ∈ srcRegs i ∧ awaits s x r)).
Proof.
  intros Hr Hn Hl. destruct (play_ok es _ _ _ _ (wk_create_ok nt nr n m Hr Hn) Hl) as (s & a & inl & seen & Hp & Hok).
  exists s. split; [done|]. split; [by destruct Hok as [[]]|]. split.
  - intros x r Haw. by apply (awaits_in s a inl seen x r Hok) in Haw as [? _].
  - intros x Hx. destruct (in_queue s inl seen x (o_acct _ _ _ _ Hok) Hx) as (i & l & Hi & _). exists i. split; [done|].
    intros Hsp. by eapply ready_or_waits.
Qed.

(** Instructions of the lists that hold an entry and are marked squashed. *)
Definition squashed_holders (s : t) : Z :=
  vlen (filter (λ x, holds s x = true ∧ inst_of (λ i, Squashed (status i)) false s x = true) (concat (instList s))).

Lemma brute_list_spec s l n :
  (∀ x, x ∈ l → ∃ i, insts s !! x = Some i ∧ SquashedInIQ (status i) = false) →
  brute_list s l n = Ok (n + held s l -
    vlen (filter (λ x, holds s x = true ∧ inst_of (λ i, Squashed (status i)) false s x = true) l)).
Proof.
  revert n. induction l as [|x l IH]; intros n Hl; cbn [brute_list]; [f_equal; unfold held, vlen; simpl; lia|].
  destruct (Hl x) as (i & Hi & Hsq); [by left|]. unfold deref. rewrite Hi. cbn [mbind res_bind]. rewrite IH by set_solver. f_equal.
  change (x :: l) with ([x] ++ l). rewrite held_app, held_one, filter_app. unfold vlen. rewrite length_app.
  assert (holds s x = holds_entry i ∧ inst_of (λ i, Squashed (status i)) false s x = Squashed (status i)) as [Eh Es]
    by (unfold inst_of; by rewrite Hi).
  rewrite filter_cons, filter_nil, Eh, Es, Hsq. unfold holds_entry.
  destruct (Squashed (status i)), (Issued (status i)), (isMemRef (staticInst i)), (MemOpDone (status i)); simpl; lia.
Qed.

Lemma brute_lists_spec s ls n :
  (∀ x, x ∈ concat ls → ∃ i, insts s !! x = Some i ∧ SquashedInIQ (status i) = false) →
  brute_lists s ls n = Ok (n + held s (concat ls) -
    vlen (filter (λ x, holds s x = true ∧ inst_of (λ i, Squashed (status i)) false s x = true) (concat ls))).
Proof.
  revert n. induction ls as [|l ls IH]; intros n Hl; cbn [brute_lists concat]; [f_equal; unfold held, vlen; simpl; lia|].
  simpl in Hl. rewrite brute_list_spec by set_solver. cbn [mbind res_bind]. rewrite IH by set_solver. f_equal.
  rewrite held_app, filter_app. unfold vlen. rewrite length_app. lia.
Qed.

Lemma brute_count_spec s a inl seen :
  ok s a inl seen → brute_count s = Ok (entries_held s - squashed_holders s).
Proof.
  intros Hok. unfold brute_count. rewrite brute_lists_spec; [done|].
  intros x Hx. destruct (in_queue s inl seen x (o_acct _ _ _ _ Hok) Hx) as (i & l & Hi & _ & _ & _ & Hsq & _). eauto.
Qed.

Lemma countInsts_held s a inl seen : ok s a inl seen → countInsts s = entries_held s ∧ entries_held s ≤ numEntries s.
Proof.
  intros [_ _ Hacct _]. pose proof (c_free _ _ _ Hacct) as (F1 & F2 & F3). pose proof (held_nonneg s (concat (instList s))) as F4.
  split; [|lia]. unfold countInsts. rewrite u32_id; [lia|]. unfold entries_held, is_u32 in *. lia.
Qed.

(** C21: the entries are accounted for.  After any session that the stages around the queue
    may produce ([legal]), the number that [countInsts] computes by subtraction, on which
    the queue's assertions rely, is the number of instructions on the lists that have not
    issued, or are memory operations that are not done; it is within the queue's size,
    and each thread's [count] is that of its own list.  The alternative, disabled code of
    [countInsts] counts those of them that are not marked squashed: it returns, and is
    less by exactly the instructions marked squashed that still hold an entry, so the two
    agree when there is none. *)
Theorem iq_entries_exact nt nr n m es :
  0 ≤ nr → is_u32 n → legal (create nt nr n m) ∅ es = true →
  ∃ s, play (create nt nr n m) es = Ok s ∧ countInsts s = entries_held s ∧ entries_held s ≤ numEntries s ∧
    brute_count s = Ok (countInsts s - squashed_holders s) ∧
    ∀ tid l, instList s !! tid = Some l → count s !! tid = Some (held s l) ∧ Forall (λ x, inst_of threadNumber (-1) s x = Z.of_nat tid) l.
Proof.
  intros Hr Hn Hl. destruct (play_ok es _ _ _ _ (wk_create_ok nt nr n m Hr Hn) Hl) as (s & a & inl & seen & Hp & Hok).
  destruct (countInsts_held _ _ _ _ Hok) as [Hci Hle]. pose proof (o_acct _ _ _ _ Hok) as Hacct.
  exists s. split_and!; [done|done|done|by rewrite Hci, (brute_count_spec _ _ _ _ Hok)|].
  intros tid l Htl. split; [by apply (c_count _ _ _ Hacct)|]. apply Forall_forall. intros x Hx.
  destruct (c_inst _ _ _ Hacct tid l x Htl Hx) as (i & Hi & Ht & _). unfold inst_of. by rewrite Hi.
Qed.

(** C20: a squash is exact.  After any session that the stages around the queue may produce
    ([legal]), squashing thread [tid] down to sequence number [q] returns if and only if
    [can_squash]: every younger instruction that still holds its entry and is not
    speculative has not been scheduled yet, or has a fault, or is a memory operation, or
    is a store conditional that completed.  Otherwise the assertion that [doSquash] makes
    on this fails; no other assertion does, neither its own nor those of the dependency
    graph.  A squash that returns leaves on the thread's list exactly the instructions
    that are not younger than [q], in order; the other threads' lists are untouched,
    nothing becomes ready, the entries stay accounted for, and no squashed instruction is
    left waiting on any register, so that its registers can be allocated again. *)
Theorem iq_squash_exact nt nr n m es :
  0 ≤ nr → is_u32 n → legal (create nt nr n m) ∅ es = true →
  ∃ s, play (create nt nr n m) es = Ok s ∧ ∀ tid q, 0 ≤ tid < vlen (instList s) →
    if can_squash s tid q then
      ∃ s' l, squash s tid q = Ok s' ∧ instList s !! Z.to_nat tid = Some l ∧
        instList s' = <[Z.to_nat tid := filter (λ x, seq_of s x ≤ q) l]> (instList s) ∧ told s' = told s ∧
        countInsts s' = entries_held s' ∧ ∀ x r, x ∈ l → q < seq_of s x → ¬ awaits s' x r
    else squash s tid q = Err AssertFail.
Proof.
  intros Hr Hn Hl. destruct (play_ok es _ _ _ _ (wk_create_ok nt nr n m Hr Hn) Hl) as (s & a & inl & seen & Hp & Hok).
  exists s. split; [done|]. intros tid q Ht. destruct (can_squash s tid q) eqn:Hc; [|by eapply wk_squash_fails].
  destruct (wk_squash_spec s a inl seen tid q Hok Hc) as (s' & a' & inl' & l & Hs & Hok' & Hlt & Hlist & Htold).
  exists s', l. split_and!; try done.
  - by apply (countInsts_held _ _ _ _ Hok').
  - intros x r Hx Hq Haw. apply (awaits_in s' a' inl' seen x r Hok') in Haw as [Hin _]. rewrite Hlist in Hin.
    apply (elem_concat_insert _ _ l) in Hin; [|done|by destruct Hok as [_ _ []]]. destruct Hin as [Hin|[_ ?]]; [|done].
    apply list_elem_of_filter in Hin as [? _]. lia.
Qed.

(** ** An example *)
Definition demo_static (mem nonspec : bool) : StaticInst := mkStatic mem mem false false nonspec false false.
Definition demo_status : Status := mkStatus false false false false false false false false false false.
Definition demo_ready : Status := mkStatus true false false false false false false false false false.

(** 1 is ready and produces register 0, 2 needs it twice and produces register 1, the load
    3 needs both, 4 is not speculative. *)
Definition demo_insts : gmap positive DynInst :=
  list_to_map [(1%positive, mkInst (demo_static false false) 10 0 [mkReg 9 true] [mkReg 0 false] [true; false] 1 demo_ready);
               (2%positive, mkInst (demo_static false false) 11 0 [mkReg 0 false; mkReg 0 false] [mkReg 1 false] [false; false] 0 demo_status);
               (3%positive, mkInst (demo_static true false) 12 0 [mkReg 0 false; mkReg 1 false] [mkReg 2 false] [false; false] 0 demo_status);
               (4%positive, mkInst (demo_static false true) 13 0 [mkReg 0 false] [mkReg 8 true] [false; false] 0 demo_status)].

Definition demo_start : list event :=
  [Insert 1; Insert 2; Insert 3; InsertNonSpec 4; Issue 1; Complete 1].
Definition demo_rest : list event :=
  demo_start ++ [Issue 2; Complete 2; Issue 3; Complete 3; Commit 12 0; ScheduleNonSpec 13; Issue 4; Commit 13 0].

Lemma demo_runs :
  (s ← play (create 1 4 8 demo_insts) demo_rest; Ok (told s, countInsts s)) = Ok ([1; 2; 3; 4]%positive, 0) ∧
  (s ← play (create 1 4 8 demo_insts) demo_start; s' ← squash s 0 11; Ok (told s, instList s', countInsts s')) =
    Ok ([1; 2]%positive, [[1; 2]]%positive, 1).
Proof. split; vm_compute; reflexivity. Qed.

Lemma iq_no_lost_wakeup_witness : ∃ s, play (create 1 4 8 demo_insts) demo_rest = Ok s ∧ NoDup (told s).
Proof.
  destruct (iq_no_lost_wakeup 1 4 8 demo_insts demo_rest ltac:(lia) ltac:(unfold is_u32; lia) ltac:(vm_compute; reflexivity)) as (s & H1 & H2 & _).
  exists s. split; [exact H1|exact H2].
Defined.

Lemma iq_entries_exact_witness :
  ∃ s, play (create 1 4 8 demo_insts) (demo_start ++ [Touch 3 true false false]) = Ok s ∧ countInsts s = entries_held s ∧
    countInsts s = 3 ∧ brute_count s = Ok 2.
Proof.
  destruct (iq_entries_exact 1 4 8 demo_insts (demo_start ++ [Touch 3 true false false])
    ltac:(lia) ltac:(unfold is_u32; lia) ltac:(vm_compute; reflexivity)) as (s & H1 & H2 & _ & H3 & _).
  exists s. split; [exact H1|]. split; [exact H2|]. rewrite H3. vm_compute in H1. injection H1 as <-. split; vm_compute; reflexivity.
Defined.

(** Down to 11 the squash returns; the non-speculative instruction 4 has not been
    scheduled.  Once it has been, with no fault, the assertion fails. *)
Lemma iq_squash_exact_witness :
  (∃ s s', play (create 1 4 8 demo_insts) demo_start = Ok s ∧ squash s 0 11 = Ok s') ∧
  (∃ s, play (create 1 4 8 demo_insts) (demo_start ++ [ScheduleNonSpec 13]) = Ok s ∧ squash s 0 11 = Err AssertFail).
Proof.
  split.
  - destruct (iq_squash_exact 1 4 8 demo_insts demo_start ltac:(lia) ltac:(unfold is_u32; lia) ltac:(vm_compute; reflexivity)) as (s & H1 & H2).
    assert (Hc : (s ← play (create 1 4 8 demo_insts) demo_start; Ok (can_squash s 0 11, vlen (instList s))) = Ok (true, 1)) by (vm_compute; reflexivity).
    rewrite H1 in Hc. injection Hc as Hc Hv. specialize (H2 0 11 ltac:(lia)). rewrite Hc in H2.
    destruct H2 as (s' & l & H3 & _). exists s, s'. split; [exact H1|exact H3].
  - destruct (iq_squash_exact 1 4 8 demo_insts (demo_start ++ [ScheduleNonSpec 13]) ltac:(lia) ltac:(unfold is_u32; lia) ltac:(vm_compute; reflexivity)) as (s & H1 & H2).
    assert (Hc : (s ← play (create 1 4 8 demo_insts) (demo_start ++ [ScheduleNonSpec 13]); Ok (can_squash s 0 11, vlen (instList s))) = Ok (false, 1)) by (vm_compute; reflexivity).
    rewrite H1 in Hc. injection Hc as Hc Hv. specialize (H2 0 11 ltac:(lia)). rewrite Hc in H2.
    exists s. split; [exact H1|exact H2].
Defined.
End WakeupSpec.
