(* ===== verification/MemDep.v ===== *)
(** * The memory dependence unit

    [cpu/o3/mem_dep_unit.hh] and [mem_dep_unit_impl.hh]: memory instructions wait here
    for an older store that the predictor names, or for a barrier, besides for their
    registers.  The predictor is a parameter of the template; here it is any instance of
    the class [DepPred], of which the store sets are one.  Entries are shared objects on a
    heap; instructions handed to the instruction queue are recorded in [ready], in
    order. *)

From S2P Require Import Prelude StoreSet.

(** ** The predictor *)
Class DepPred (P : Type) := {
  dp_checkInst : P → Z → res Z;
  dp_insertStore : P → Z → Z → Z → res P;
  dp_issued : P → Z → Z → bool → res P;
  dp_squash : P → Z → Z → res P;
  dp_violation : P → Z → Z → res P;
  dp_clear : P → P
}.

#[global] Instance storeset_DepPred : DepPred StoreSet.t := {|
  dp_checkInst := StoreSet.checkInst;
  dp_insertStore := StoreSet.insertStore;
  dp_issued := StoreSet.issued;
  dp_squash := StoreSet.squash;
  dp_violation := StoreSet.violation;
  dp_clear := StoreSet.clear
|}.

Module MemDepUnit.

(** The part of an instruction that the unit uses. *)
Record DynInst := mkInst {
  seqNum : Z; threadNumber : Z; instAddr : Z; isLoad : bool; isStore : bool; isMemBarrier : bool; isWriteBarrier : bool;
  CanIssue : bool
}.
Definition clearCanIssue (i : DynInst) : DynInst :=
  mkInst (seqNum i) (threadNumber i) (instAddr i) (isLoad i) (isStore i) (isMemBarrier i) (isWriteBarrier i) false.

(** An entry; the node of the instruction in the list, [listIt], has the identity of the
    entry. *)
Record MemDepEntry := mkEntry { inst : positive; dependInsts : list positive; regsReady_ : bool; memDepReady : bool; squashed : bool }.
Definition MemDepEntry_new (x : positive) : MemDepEntry := mkEntry x [] false false false.

Section unit.
Context {P : Type} `{DepPred P}.

Record t := mkUnit {
  memDepHash : gmap Z positive; instList : list (list (positive * positive)); instsToReplay : list positive; depPred : P;
  loadBarrier : bool; loadBarrierSN : Z; storeBarrier : bool; storeBarrierSN : Z;
  entries : heap MemDepEntry; insts : gmap positive DynInst; ready : list positive
}.

Definition with_hash (s : t) h : t :=
  mkUnit h (instList s) (instsToReplay s) (depPred s) (loadBarrier s) (loadBarrierSN s) (storeBarrier s) (storeBarrierSN s) (entries s) (insts s) (ready s).
Definition with_list (s : t) l : t :=
  mkUnit (memDepHash s) l (instsToReplay s) (depPred s) (loadBarrier s) (loadBarrierSN s) (storeBarrier s) (storeBarrierSN s) (entries s) (insts s) (ready s).
Definition with_replay (s : t) l : t :=
  mkUnit (memDepHash s) (instList s) l (depPred s) (loadBarrier s) (loadBarrierSN s) (storeBarrier s) (storeBarrierSN s) (entries s) (insts s) (ready s).
Definition with_pred (s : t) p : t :=
  mkUnit (memDepHash s) (instList s) (instsToReplay s) p (loadBarrier s) (loadBarrierSN s) (storeBarrier s) (storeBarrierSN s) (entries s) (insts s) (ready s).
Definition with_load_barrier (s : t) b n : t :=
  mkUnit (memDepHash s) (instList s) (instsToReplay s) (depPred s) b n (storeBarrier s) (storeBarrierSN s) (entries s) (insts s) (ready s).
Definition with_store_barrier (s : t) b n : t :=
  mkUnit (memDepHash s) (instList s) (instsToReplay s) (depPred s) (loadBarrier s) (loadBarrierSN s) b n (entries s) (insts s) (ready s).
Definition with_entries (s : t) h : t :=
  mkUnit (memDepHash s) (instList s) (instsToReplay s) (depPred s) (loadBarrier s) (loadBarrierSN s) (storeBarrier s) (storeBarrierSN s) h (insts s) (ready s).
Definition with_inst (s : t) p i : t :=
  mkUnit (memDepHash s) (instList s) (instsToReplay s) (depPred s) (loadBarrier s) (loadBarrierSN s) (storeBarrier s) (storeBarrierSN s) (entries s) (<[p := i]> (insts s)) (ready s).
Definition with_ready (s : t) l : t :=
  mkUnit (memDepHash s) (instList s) (instsToReplay s) (depPred s) (loadBarrier s) (loadBarrierSN s) (storeBarrier s) (storeBarrierSN s) (entries s) (insts s) l.

Definition create (maxThreads : nat) (p : P) (m : gmap positive DynInst) : t :=
  mkUnit ∅ (replicate maxThreads []) [] p false 0 false 0 heap_empty m [].

Definition deref (s : t) (p : positive) : res DynInst :=
  match insts s !! p with Some i => Ok i | None => Err BadPointer end.

Definition isDrained (s : t) : bool :=
  bool_decide (instsToReplay s = []) && bool_decide (memDepHash s = ∅) && forallb (λ l, bool_decide (l = [])) (instList s).

Definition takeOverFrom (s : t) : t :=
  let s := with_store_barrier (with_load_barrier s false 0) false 0 in
  with_pred s (dp_clear (depPred s)).

(** [iqPtr->addReadyMemInst] *)
Definition moveToReady (s : t) (woken_inst_entry : positive) : res t :=
  e ← heap_deref (entries s) (Some woken_inst_entry);
  _ ← assert_ (negb (squashed e));
  Ok (with_ready s (ready s ++ [inst e])).

Definition findInHash (s : t) (x : positive) : res positive :=
  i ← deref s x;
  match memDepHash s !! seqNum i with Some e => Ok e | None => Err AssertFail end.

Definition upd_entry (s : t) (e : positive) (f : MemDepEntry → MemDepEntry) : res t :=
  x ← heap_deref (entries s) (Some e); h ← heap_store (entries s) (Some e) (f x); Ok (with_entries s h).

Definition set_regsReady (e : MemDepEntry) : MemDepEntry := mkEntry (inst e) (dependInsts e) true (memDepReady e) (squashed e).
Definition set_memDepReady (e : MemDepEntry) : MemDepEntry := mkEntry (inst e) (dependInsts e) (regsReady_ e) true (squashed e).
Definition set_squashed (e : MemDepEntry) : MemDepEntry := mkEntry (inst e) (dependInsts e) (regsReady_ e) (memDepReady e) true.
Definition push_dependent (d : positive) (e : MemDepEntry) : MemDepEntry :=
  mkEntry (inst e) (dependInsts e ++ [d]) (regsReady_ e) (memDepReady e) (squashed e).
Definition clear_dependents (e : MemDepEntry) : MemDepEntry := mkEntry (inst e) [] (regsReady_ e) (memDepReady e) (squashed e).

(** The new entry, in the hash unless its number is there, and on the list. *)
Definition add_entry (s : t) (x : positive) (i : DynInst) : res (positive * t) :=
  let e := next (entries s) in
  let h := snd (heap_new (entries s) (MemDepEntry_new x)) in
  let s := with_entries s h in
  let s := match memDepHash s !! seqNum i with Some _ => s | None => with_hash s (<[seqNum i := e]> (memDepHash s)) end in
  l ← vget (instList s) (threadNumber i);
  ls ← vset (instList s) (threadNumber i) (l ++ [(e, x)]);
  Ok (e, with_list s ls).

(** The end of both insertions of memory instructions. *)
Definition tell_pred (s : t) (i : DynInst) : res t :=
  if isStore i then
    p ← dp_insertStore (depPred s) (instAddr i) (seqNum i) (threadNumber i); Ok (with_pred s p)
  else if isLoad i then Ok s
  else Err (Panic "Unknown type! (most likely a barrier).").

Definition producer_of (s : t) (i : DynInst) : res Z :=
  if isLoad i && loadBarrier s then Ok (loadBarrierSN s)
  else if isStore i && storeBarrier s then Ok (storeBarrierSN s)
  else dp_checkInst (depPred s) (instAddr i).

Definition insert (s : t) (x : positive) : res t :=
  i ← deref s x;
  '(inst_entry, s) ← add_entry s x i;
  producing_store ← producer_of s i;
  let store_entry := if producing_store =? 0 then None else memDepHash s !! producing_store in
  s ← match store_entry with
      | None =>
          s ← upd_entry s inst_entry set_memDepReady;
          if CanIssue i then s ← upd_entry s inst_entry set_regsReady; moveToReady s inst_entry else Ok s
      | Some store_entry =>
          s ← (if CanIssue i then upd_entry s inst_entry set_regsReady else Ok s);
          let s := with_inst s x (clearCanIssue i) in
          upd_entry s store_entry (push_dependent inst_entry)
      end;
  tell_pred s i.

Definition insertNonSpec (s : t) (x : positive) : res t :=
  i ← deref s x;
  '(_, s) ← add_entry s x i;
  tell_pred s i.

Definition insertBarrier (s : t) (x : positive) : res t :=
  i ← deref s x;
  let s := if isMemBarrier i then with_store_barrier (with_load_barrier s true (seqNum i)) true (seqNum i)
           else if isWriteBarrier i then with_store_barrier s true (seqNum i) else s in
  '(_, s) ← add_entry s x i;
  Ok s.

Definition regsReady (s : t) (x : positive) : res t :=
  inst_entry ← findInHash s x;
  s ← upd_entry s inst_entry set_regsReady;
  e ← heap_deref (entries s) (Some inst_entry);
  if memDepReady e then moveToReady s inst_entry else Ok s.

Definition nonSpecInstReady (s : t) (x : positive) : res t :=
  inst_entry ← findInHash s x; moveToReady s inst_entry.

Definition reschedule (s : t) (x : positive) : t := with_replay s (instsToReplay s ++ [x]).

Fixpoint replay_loop (s : t) (l : list positive) : res t :=
  match l with
  | [] => Ok s
  | x :: l =>
      inst_entry ← findInHash s x;
      s ← moveToReady s inst_entry;
      replay_loop (with_replay s l) l
  end.
Definition replay (s : t) : res t := replay_loop s (instsToReplay s).

(** [instList[tid].erase(listIt)] *)
Definition erase_node (l : list (positive * positive)) (node : positive) : res (list (positive * positive)) :=
  if existsb (λ q, bool_decide (q.1 = node)) l then Ok (filter (λ q, q.1 ≠ node) l) else Err BadPointer.

Definition completed (s : t) (x : positive) : res t :=
  i ← deref s x;
  match memDepHash s !! seqNum i with
  | None => Err AssertFail
  | Some e =>
      _ ← heap_deref (entries s) (Some e);
      l ← vget (instList s) (threadNumber i);
      l ← erase_node l e;
      ls ← vset (instList s) (threadNumber i) l;
      Ok (with_hash (with_list s ls) (delete (seqNum i) (memDepHash s)))
  end.

(** The loop of [wakeDependents].  An entry always has its instruction, so none is
    passed over for lack of it. *)
Fixpoint wake_loop (s : t) (l : list positive) : res t :=
  match l with
  | [] => Ok s
  | woken_inst :: l =>
      e ← heap_deref (entries s) (Some woken_inst);
      s ← (if regsReady_ e && negb (squashed e) then moveToReady s woken_inst else upd_entry s woken_inst set_memDepReady);
      wake_loop s l
  end.

Definition wakeDependents (s : t) (x : positive) : res t :=
  i ← deref s x;
  if negb (isStore i) && negb (isMemBarrier i) && negb (isWriteBarrier i) then Ok s
  else
    inst_entry ← findInHash s x;
    e ← heap_deref (entries s) (Some inst_entry);
    s ← wake_loop s (dependInsts e);
    upd_entry s inst_entry clear_dependents.

Definition completeBarrier (s : t) (x : positive) : res t :=
  s ← wakeDependents s x;
  s ← completed s x;
  i ← deref s x;
  let barr_sn := seqNum i in
  if isMemBarrier i then
    let s := if loadBarrierSN s =? barr_sn then with_load_barrier s false (loadBarrierSN s) else s in
    Ok (if storeBarrierSN s =? barr_sn then with_store_barrier s false (storeBarrierSN s) else s)
  else if isWriteBarrier i then
    Ok (if storeBarrierSN s =? barr_sn then with_store_barrier s false (storeBarrierSN s) else s)
  else Ok s.

(** The instructions of the thread that are younger leave the list of replays. *)
Fixpoint squash_replays (s : t) (squashed_num tid : Z) (l : list positive) : res (list positive) :=
  match l with
  | [] => Ok []
  | x :: l =>
      i ← deref s x;
      l ← squash_replays s squashed_num tid l;
      Ok (if (threadNumber i =? tid) && (squashed_num <? seqNum i) then l else x :: l)
  end.

(** The loop of [squash], on the list youngest first. *)
Fixpoint squash_list (s : t) (squashed_num : Z) (l : list (positive * positive)) : res (t * list (positive * positive)) :=
  match l with
  | [] => Ok (s, [])
  | (node, x) :: l' =>
      i ← deref s x;
      if squashed_num <? seqNum i then
        let s := if seqNum i =? loadBarrierSN s then with_load_barrier s false (loadBarrierSN s) else s in
        let s := if seqNum i =? storeBarrierSN s then with_store_barrier s false (storeBarrierSN s) else s in
        match memDepHash s !! seqNum i with
        | None => Err AssertFail
        | Some e =>
            s ← upd_entry s e set_squashed;
            squash_list (with_hash s (delete (seqNum i) (memDepHash s))) squashed_num l'
        end
      else Ok (s, l)
  end.

Definition squash (s : t) (squashed_num tid : Z) : res t :=
  r ← squash_replays s squashed_num tid (instsToReplay s);
  let s := with_replay s r in
  l ← vget (instList s) tid;
  '(s, l) ← squash_list s squashed_num (rev l);
  ls ← vset (instList s) tid (rev l);
  let s := with_list s ls in
  p ← dp_squash (depPred s) squashed_num tid;
  Ok (with_pred s p).

Definition violation (s : t) (store_inst violating_load : positive) : res t :=
  i ← deref s store_inst;
  j ← deref s violating_load;
  p ← dp_violation (depPred s) (instAddr i) (instAddr j);
  Ok (with_pred s p).

Definition issue (s : t) (x : positive) : res t :=
  i ← deref s x;
  p ← dp_issued (depPred s) (instAddr i) (seqNum i) (isStore i);
  Ok (with_pred s p).

(** What the instruction queue does when a memory instruction has completed. *)
Definition complete (s : t) (x : positive) : res t := s ← wakeDependents s x; completed s x.
End unit.
Arguments t : clear implicits.
End MemDepUnit.
