(* ===== verification/MemDepInv.v ===== *)
(** * The memory dependence unit: invariant

    An instruction of the unit has been handed to the queue, or its registers are not
    ready, or it waits for one older store or barrier that is still in the unit. *)

From stdpp Require Import sorting.
From S2P Require Import Prelude StoreSet MemDep.

(** ** What the unit relies on of the predictor: it returns, and names no store that was
    not inserted.  [S] are the numbers of the stores so far. *)
Class DepPredLaws (P : Type) `{DepPred P} := {
  dp_inv : P → gset Z → Prop;
  dp_checkInst_ok p S pc : dp_inv p S → ∃ n, dp_checkInst p pc = Ok n ∧ (n = 0 ∨ n ∈ S);
  dp_insertStore_ok p S pc sn tid :
    dp_inv p S → (∀ m, m ∈ S → m < sn) → ∃ p', dp_insertStore p pc sn tid = Ok p' ∧ dp_inv p' ({[sn]} ∪ S);
  dp_issued_ok p S pc sn b : dp_inv p S → ∃ p', dp_issued p pc sn b = Ok p' ∧ dp_inv p' S;
  dp_squash_ok p S n tid : dp_inv p S → ∃ p', dp_squash p n tid = Ok p' ∧ dp_inv p' S;
  dp_violation_ok p S a b : dp_inv p S → ∃ p', dp_violation p a b = Ok p' ∧ dp_inv p' S
}.

Module MemDepInv.
Import MemDepUnit.

Section inv.
Context {P : Type} `{DepPredLaws P}.
Implicit Types (s : t P).

(** Entry [e] of number [sn] is in the unit, for instruction [x]. *)
Definition live s (sn : Z) (e : positive) (n : MemDepEntry) (i : DynInst) : Prop :=
  memDepHash s !! sn = Some e ∧ cells (entries s) !! e = Some n ∧ insts s !! inst n = Some i ∧ seqNum i = sn.

(** [d] waits for an entry of the unit. *)
Definition waits_for s (d : positive) (sn : Z) (p : positive) : Prop :=
  memDepHash s !! sn = Some p ∧ ∃ n, cells (entries s) !! p = Some n ∧ d ∈ dependInsts n.
Definition waiting s (d : positive) : Prop := ∃ sn p, waits_for s d sn p.

Definition wakes (i : DynInst) : bool := isStore i || isMemBarrier i || isWriteBarrier i.

(** *** Structure *)

(** [l] is the list of the unit's thread [tid], [S] the numbers of stores, all numbers so
    far are below [hi], [seen] entered. *)
Record sinv (tid : Z) s (l : list (positive * positive)) (S : gset Z) (hi : Z) (seen : gset positive) : Prop := {
  m_tid : 0 ≤ tid ∧ instList s !! Z.to_nat tid = Some l;
  m_next : ∀ e, is_Some (cells (entries s) !! e) → (e < next (entries s))%positive;
  m_hash : ∀ sn e, memDepHash s !! sn = Some e →
    ∃ n i, live s sn e n i ∧ (e, inst n) ∈ l ∧ squashed n = false ∧ sn < hi ∧ threadNumber i = tid ∧ inst n ∈ seen;
  m_list : ∀ e x, (e, x) ∈ l → ∃ n i, live s (seqNum i) e n i ∧ inst n = x;
  m_sorted : StronglySorted (λ q r, from_option seqNum 0 (insts s !! q.2) < from_option seqNum 0 (insts s !! r.2)) l;
  m_pred : dp_inv (depPred s) S ∧ (∀ sn, sn ∈ S → sn < hi) ∧ ∀ sn e n i, sn ∈ S → live s sn e n i → isStore i = true;
  m_load : loadBarrierSN s < hi ∧ (loadBarrier s = true → ∀ e n i, live s (loadBarrierSN s) e n i → wakes i = true);
  m_store : storeBarrierSN s < hi ∧ (storeBarrier s = true → ∀ e n i, live s (storeBarrierSN s) e n i → wakes i = true);
  m_replay : ∀ x, x ∈ instsToReplay s → ∃ e n i, live s (seqNum i) e n i ∧ inst n = x
}.

(** *** Dependences *)

(** [spec] entered by [insert]; [base] were handed on other than by a replay, [rep] were
    replayed. *)
Record dinv s (spec seen : gset positive) (base rep : list positive) : Prop := {
  m_dep : ∀ d sn p, waits_for s d sn p →
    (∃ n i, live s sn p n i ∧ wakes i = true) ∧
    ∃ nd, cells (entries s) !! d = Some nd ∧ (squashed nd = false → ∃ snd id, live s snd d nd id ∧ sn < snd ∧ inst nd ∈ spec);
  m_nodup : ∀ sn p n i, live s sn p n i → NoDup (dependInsts n);
  m_one : ∀ d sn p sn' p', waits_for s d sn p → waits_for s d sn' p' → sn = sn';
  m_spec : ∀ sn e n i, live s sn e n i → inst n ∈ spec →
    (inst n ∈ base ↔ regsReady_ n = true ∧ ¬ waiting s e) ∧ (memDepReady n = true → ¬ waiting s e) ∧
    (regsReady_ n = false → ¬ waiting s e → memDepReady n = true);
  m_out : ready s ≡ₚ base ++ rep ∧ NoDup base ∧ (∀ x, x ∈ base ∨ x ∈ spec → x ∈ seen)
}.

Lemma live_fun s sn e n i e' n' i' : live s sn e n i → live s sn e' n' i' → e = e' ∧ n = n' ∧ i = i'.
Proof. intros (H1 & H2 & H3 & _) (K1 & K2 & K3 & _). by simplify_eq. Qed.

Lemma heap_deref_cell {A} (h : heap A) e n : cells h !! e = Some n → heap_deref h (Some e) = Ok n.
Proof. intros E. simpl. by rewrite E. Qed.

Lemma upd_entry_eq s e n f :
  cells (entries s) !! e = Some n → upd_entry s e f = Ok (with_entries s (Heap (<[e := f n]> (cells (entries s))) (next (entries s)))).
Proof. intros E. unfold upd_entry. rewrite (heap_deref_cell _ _ _ E). cbn [mbind res_bind]. unfold heap_store. by rewrite (heap_deref_cell _ _ _ E). Qed.

Lemma moveToReady_eq s e n :
  cells (entries s) !! e = Some n → squashed n = false → moveToReady s e = Ok (with_ready s (ready s ++ [inst n])).
Proof. intros E Hs. unfold moveToReady. rewrite (heap_deref_cell _ _ _ E). cbn [mbind res_bind]. by rewrite Hs. Qed.

Lemma findInHash_eq s sn e n i : live s sn e n i → findInHash s (inst n) = Ok e.
Proof. intros (H1 & H2 & H3 & H4). unfold findInHash, deref. rewrite H3. cbn [mbind res_bind]. by rewrite H4, H1. Qed.

(** Each instruction has one entry. *)
Lemma live_inst s sn e n i sn' e' n' i' : live s sn e n i → live s sn' e' n' i' → inst n = inst n' → sn = sn' ∧ e = e' ∧ n = n'.
Proof. intros L L' E. destruct L as (H1 & H2 & H3 & H4), L' as (K1 & K2 & K3 & K4). rewrite E in H3. by simplify_eq. Qed.

(** ** Steps that keep the structure *)
Definition sk (n : MemDepEntry) : positive * bool := (inst n, squashed n).

Record skel s s' : Prop := {
  k_hash : memDepHash s' = memDepHash s; k_list : instList s' = instList s; k_replay : instsToReplay s' = instsToReplay s;
  k_pred : depPred s' = depPred s; k_lb : loadBarrier s' = loadBarrier s; k_lsn : loadBarrierSN s' = loadBarrierSN s;
  k_sb : storeBarrier s' = storeBarrier s; k_ssn : storeBarrierSN s' = storeBarrierSN s; k_next : next (entries s') = next (entries s);
  k_cells : ∀ e, sk <$> cells (entries s') !! e = sk <$> cells (entries s) !! e;
  k_insts : ∀ x, clearCanIssue <$> insts s' !! x = clearCanIssue <$> insts s !! x
}.

Lemma skel_sym s s' : skel s s' → skel s' s.
Proof. intros []. by split. Qed.

Lemma skel_trans s1 s2 s3 : skel s1 s2 → skel s2 s3 → skel s1 s3.
Proof. intros [] []. split; congruence. Qed.

Lemma sk_static i i' : clearCanIssue i = clearCanIssue i' → seqNum i = seqNum i' ∧ threadNumber i = threadNumber i' ∧ isStore i = isStore i' ∧ wakes i = wakes i'.
Proof. destruct i, i'. unfold clearCanIssue, wakes. simpl. intros [=]; subst. done. Qed.

Lemma skel_live s s' sn e n i :
  skel s s' → live s sn e n i →
  ∃ n' i', live s' sn e n' i' ∧ inst n' = inst n ∧ squashed n' = squashed n ∧ seqNum i' = seqNum i ∧ threadNumber i' = threadNumber i ∧
    isStore i' = isStore i ∧ wakes i' = wakes i.
Proof.
  intros [Kh _ _ _ _ _ _ _ _ Kc Ki] (H1 & H2 & H3 & H4). specialize (Kc e). rewrite H2 in Kc. simpl in Kc.
  destruct (cells (entries s') !! e) as [n'|] eqn:En; [|done]. simpl in Kc. unfold sk in Kc. injection Kc as Kc1 Kc2.
  specialize (Ki (inst n)). rewrite H3 in Ki. simpl in Ki. destruct (insts s' !! inst n) as [i'|] eqn:Ei; [|done]. apply (inj Some) in Ki.
  apply sk_static in Ki as (S1 & S2 & S3 & S4). exists n', i'. split_and!; try done. unfold live. rewrite Kh, Kc1. split_and!; try done. congruence.
Qed.

Lemma skel_seq s s' x : skel s s' → from_option seqNum 0 (insts s' !! x) = from_option seqNum 0 (insts s !! x).
Proof.
  intros [_ _ _ _ _ _ _ _ _ _ Ki]. specialize (Ki x). destruct (insts s' !! x), (insts s !! x); try done. apply (inj Some) in Ki. by apply sk_static in Ki as (? & _).
Qed.

Lemma skel_sinv tid s s' l S hi seen : skel s s' → sinv tid s l S hi seen → sinv tid s' l S hi seen.
Proof.
  intros K [H1 H2 H3 H4 H5 H6 H7 H8 H9]. pose proof (skel_sym _ _ K) as K'.
  assert (Hback : ∀ sn e n' i', live s' sn e n' i' → ∃ n i, live s sn e n i ∧ isStore i' = isStore i ∧ wakes i' = wakes i).
  { intros sn e n' i' L. destruct (skel_live s' s _ _ _ _ K' L) as (n & i & L' & _ & _ & _ & _ & E1 & E2). exists n, i. done. }
  pose proof K as [K1 K2 K3 K4 K5 K6 K7 K8 K9 K10 K11]. split; rewrite ?K2, ?K3, ?K4, ?K5, ?K6, ?K7, ?K8, ?K9; try done.
  - intros e [n He]. apply H2. specialize (K10 e). rewrite He in K10. destruct (cells (entries s) !! e); [by eexists|done].
  - intros sn e Hh. rewrite K1 in Hh. destruct (H3 sn e Hh) as (n & i & L & Hl & Hs & Hlt & Ht & Hsn).
    destruct (skel_live s s' _ _ _ _ K L) as (n' & i' & L' & E1 & E2 & E3 & E4 & _). exists n', i'. rewrite E1, E2, E4. done.
  - intros e x Hl. destruct (H4 e x Hl) as (n & i & L & Hx). destruct (skel_live s s' _ _ _ _ K L) as (n' & i' & L' & E1 & E2 & E3 & _).
    exists n', i'. rewrite E3. split; [done|congruence].
  - clear -H5 K. induction H5 as [|q k Hk IH Hq]; constructor; [done|]. eapply Forall_impl; [exact Hq|]. simpl. intros r. by rewrite !(skel_seq s s' _ K).
  - destruct H6 as (? & ? & Hst). split_and!; try done. intros sn e n' i' Hsn L. destruct (Hback _ _ _ _ L) as (n & i & L' & -> & _). by eapply Hst.
  - destruct H7 as [? Hb]. split; [done|]. intros Hl e n' i' L. destruct (Hback _ _ _ _ L) as (n & i & L' & _ & ->). by eapply Hb.
  - destruct H8 as [? Hb]. split; [done|]. intros Hl e n' i' L. destruct (Hback _ _ _ _ L) as (n & i & L' & _ & ->). by eapply Hb.
  - intros x Hx. destruct (H9 x Hx) as (e & n & i & L & Ex). destruct (skel_live s s' _ _ _ _ K L) as (n' & i' & L' & E1 & E2 & E3 & _).
    exists e, n', i'. rewrite E3. split; [done|congruence].
Qed.

(** ** Flags change, instructions are handed on *)
Definition same_deps s s' : Prop := ∀ e, dependInsts <$> cells (entries s') !! e = dependInsts <$> cells (entries s) !! e.

Lemma same_deps_waits s s' d sn p : memDepHash s' = memDepHash s → same_deps s s' → waits_for s' d sn p ↔ waits_for s d sn p.
Proof.
  intros Kh Hd. unfold waits_for. rewrite Kh. specialize (Hd p). split; intros (H1 & n & H2 & H3); split; try done; rewrite H2 in Hd; simpl in Hd.
  - destruct (cells (entries s) !! p) as [n'|]; [|done]. simpl in Hd. exists n'. split; [done|congruence].
  - destruct (cells (entries s') !! p) as [n'|]; [|done]. simpl in Hd. exists n'. split; [done|congruence].
Qed.

Lemma same_deps_waiting s s' d : memDepHash s' = memDepHash s → same_deps s s' → waiting s' d ↔ waiting s d.
Proof. intros Kh Hd. unfold waiting. by setoid_rewrite (same_deps_waits s s' _ _ _ Kh Hd). Qed.

Lemma dinv_flags s s' (spec spec' seen seen' : gset positive) base base' rep rep' :
  skel s s' → same_deps s s' → dinv s spec seen base rep →
  ready s' ≡ₚ base' ++ rep' → NoDup base' → (∀ x, x ∈ base' ∨ x ∈ spec' → x ∈ seen') → spec ⊆ spec' →
  (∀ sn e n i, live s' sn e n i → inst n ∈ spec' →
    (inst n ∈ base' ↔ regsReady_ n = true ∧ ¬ waiting s e) ∧ (memDepReady n = true → ¬ waiting s e) ∧
    (regsReady_ n = false → ¬ waiting s e → memDepReady n = true)) →
  dinv s' spec' seen' base' rep'.
Proof.
  intros K Hd [D1 D2 D3 D4 D5] Hr Hn Hs Hsub Hspec. pose proof K as [Kh _ _ _ _ _ _ _ _ Kc _].
  assert (Hw : ∀ d sn p, waits_for s' d sn p ↔ waits_for s d sn p) by (intros; by apply same_deps_waits).
  assert (Hwt : ∀ d, waiting s' d ↔ waiting s d) by (intros; by apply same_deps_waiting).
  split; [| | | |done].
  - intros d sn p W. apply Hw in W. destruct (D1 d sn p W) as [(n & i & L & Hwk) (nd & Hnd & Hlive)]. split.
    + destruct (skel_live s s' _ _ _ _ K L) as (n' & i' & L' & _ & _ & _ & _ & _ & E). exists n', i'. by rewrite E.
    + specialize (Kc d). rewrite Hnd in Kc. destruct (cells (entries s') !! d) as [nd'|] eqn:Hnd'; [|done]. simpl in Kc. unfold sk in Kc. injection Kc as Kc1 Kc2.
      exists nd'. split; [done|]. rewrite Kc1, Kc2. intros Hsq. destruct (Hlive Hsq) as (snd & id & Ld & Hlt & Hin).
      destruct (skel_live s s' _ _ _ _ K Ld) as (n' & i' & L' & _). exists snd, i'. split_and!; [|done|by apply Hsub].
      destruct L' as (L1 & L2 & L3 & L4). rewrite Hnd' in L2. injection L2 as <-. done.
  - intros sn p n' i' L. destruct (skel_live s' s _ _ _ _ (skel_sym _ _ K) L) as (n & i & L' & _). specialize (Hd p).
    destruct L as (_ & L2 & _), L' as (L1' & L2' & L3' & L4'). rewrite L2, L2' in Hd. simpl in Hd. injection Hd as ->. eapply D2. done.
  - intros d sn p sn' p' W W'. apply Hw in W, W'. by eapply D3.
  - intros sn e n i L Hin. rewrite Hwt. by eapply Hspec.
Qed.

(** Entry [e] changes, but neither its instruction nor its dependents. *)
Lemma skel_upd s e n n' :
  cells (entries s) !! e = Some n → sk n' = sk n → skel s (with_entries s (Heap (<[e := n']> (cells (entries s))) (next (entries s)))).
Proof.
  intros E K. split; try done. intros d. simpl. destruct (decide (d = e)) as [->|]; [by rewrite lookup_insert_eq, E; simpl; rewrite K|by rewrite lookup_insert_ne].
Qed.

Lemma deps_upd s e n n' :
  cells (entries s) !! e = Some n → dependInsts n' = dependInsts n → same_deps s (with_entries s (Heap (<[e := n']> (cells (entries s))) (next (entries s)))).
Proof.
  intros E K d. simpl. destruct (decide (d = e)) as [->|]; [by rewrite lookup_insert_eq, E; simpl; rewrite K|by rewrite lookup_insert_ne].
Qed.

Lemma live_upd s e n' sn d m i :
  live (with_entries s (Heap (<[e := n']> (cells (entries s))) (next (entries s)))) sn d m i →
  (d = e ∧ m = n') ∨ (d ≠ e ∧ live s sn d m i).
Proof.
  intros (L1 & L2 & L3 & L4). simpl in L2. destruct (decide (d = e)) as [->|Hne].
  - rewrite lookup_insert_eq in L2. injection L2 as <-. by left.
  - rewrite lookup_insert_ne in L2 by done. right. split; done.
Qed.

(** ** A new entry *)
Definition added s (x : positive) (i : DynInst) (l : list (positive * positive)) : t P :=
  with_list (with_hash (with_entries s (Heap (<[next (entries s) := MemDepEntry_new x]> (cells (entries s))) (Pos.succ (next (entries s)))))
    (<[seqNum i := next (entries s)]> (memDepHash s))) (<[Z.to_nat (threadNumber i) := l ++ [(next (entries s), x)]]> (instList s)).

Lemma add_entry_eq tid s l S hi seen x i :
  sinv tid s l S hi seen → threadNumber i = tid → hi ≤ seqNum i → add_entry s x i = Ok (next (entries s), added s x i l).
Proof.
  intros [[T0 Hl] _ Hh _ _ _ _ _ _] Ht Hi. unfold add_entry. simpl memDepHash.
  destruct (memDepHash s !! seqNum i) as [e|] eqn:E; [destruct (Hh _ _ E) as (? & ? & _ & _ & _ & ? & _); lia|].
  simpl instList. rewrite Ht. rewrite (vget_in _ _ _ T0 Hl). cbn [mbind res_bind].
  rewrite vset_in by (apply lookup_lt_Some in Hl; unfold vlen; lia). cbn [mbind res_bind]. unfold added. by rewrite Ht.
Qed.

Lemma fresh_cell tid s l S hi seen : sinv tid s l S hi seen → cells (entries s) !! next (entries s) = None.
Proof.
  intros [_ Hn _ _ _ _ _ _ _]. destruct (cells (entries s) !! next (entries s)) eqn:E; [|done].
  pose proof (Hn (next (entries s)) ltac:(by eexists)). lia.
Qed.

Lemma added_live tid s l S hi seen x i :
  sinv tid s l S hi seen → insts s !! x = Some i → hi ≤ seqNum i → ∀ sn e n j,
  live (added s x i l) sn e n j ↔ (sn = seqNum i ∧ e = next (entries s) ∧ n = MemDepEntry_new x ∧ j = i) ∨ live s sn e n j.
Proof.
  intros Hs Hi Hhi sn e n j. pose proof (fresh_cell _ _ _ _ _ _ Hs) as Hf. unfold live. simpl. split.
  - intros (H1 & H2 & H3 & H4). destruct (decide (sn = seqNum i)) as [->|Hne].
    + rewrite lookup_insert_eq in H1. injection H1 as <-. rewrite lookup_insert_eq in H2. injection H2 as <-. left. simpl in H3. split_and!; congruence.
    + rewrite lookup_insert_ne in H1 by done. right. rewrite lookup_insert_ne in H2; [done|]. intros <-.
      destruct (m_hash _ _ _ _ _ _ Hs _ _ H1) as (? & ? & (_ & ? & _) & _). congruence.
  - intros [(-> & -> & -> & ->)|(H1 & H2 & H3 & H4)].
    + rewrite !lookup_insert_eq. done.
    + assert (sn ≠ seqNum i). { intros ->. destruct (m_hash _ _ _ _ _ _ Hs _ _ H1) as (? & ? & _ & _ & _ & ? & _). lia. }
      rewrite !lookup_insert_ne by congruence. done.
Qed.

Lemma added_waits tid s l S hi seen x i d sn p :
  sinv tid s l S hi seen → insts s !! x = Some i → hi ≤ seqNum i → waits_for (added s x i l) d sn p ↔ waits_for s d sn p.
Proof.
  intros Hs Hi Hhi. pose proof (fresh_cell _ _ _ _ _ _ Hs) as Hf. unfold waits_for. simpl. split; intros (H1 & n & H2 & H3).
  - destruct (decide (sn = seqNum i)) as [->|Hne].
    + rewrite lookup_insert_eq in H1. injection H1 as <-. rewrite lookup_insert_eq in H2. injection H2 as <-. by apply elem_of_nil in H3.
    + rewrite lookup_insert_ne in H1 by done. split; [done|]. exists n. split; [|done]. rewrite lookup_insert_ne in H2; [done|]. intros <-.
      destruct (m_hash _ _ _ _ _ _ Hs _ _ H1) as (? & ? & (_ & ? & _) & _). congruence.
  - assert (sn ≠ seqNum i). { intros ->. destruct (m_hash _ _ _ _ _ _ Hs _ _ H1) as (? & ? & _ & _ & _ & ? & _). lia. }
    rewrite lookup_insert_ne by done. split; [done|]. exists n. by rewrite lookup_insert_ne by congruence.
Qed.

Lemma added_sinv tid s l S hi seen x i :
  sinv tid s l S hi seen → insts s !! x = Some i → threadNumber i = tid → hi ≤ seqNum i →
  sinv tid (added s x i l) (l ++ [(next (entries s), x)]) S (seqNum i + 1) ({[x]} ∪ seen).
Proof.
  intros Hs Hi Ht Hhi. pose proof (added_live _ _ _ _ _ _ x i Hs Hi Hhi) as Hlv. pose proof Hs as [[T0 H1] H2 H3 H4 H5 H6 H7 H8 H9]. split; simpl.
  - split; [done|]. rewrite Ht. apply list_lookup_insert_eq. by eapply lookup_lt_Some.
  - intros e. destruct (decide (e = next (entries s))) as [->|Hne]; [lia|]. rewrite lookup_insert_ne by done. intros He%H2. lia.
  - intros sn e He. destruct (decide (sn = seqNum i)) as [->|Hne].
    + rewrite lookup_insert_eq in He. injection He as <-. exists (MemDepEntry_new x), i. split_and!; try done; [apply Hlv; by left|set_solver|lia|set_solver].
    + rewrite lookup_insert_ne in He by done. destruct (H3 sn e He) as (n & j & L & ? & ? & ? & ? & ?). exists n, j.
      split_and!; try done; [apply Hlv; by right|set_solver|lia|set_solver].
  - intros e y [Hl|Hl]%elem_of_app.
    + destruct (H4 e y Hl) as (n & j & L & ?). exists n, j. split; [apply Hlv; by right|done].
    + apply list_elem_of_singleton in Hl. injection Hl as -> ->. exists (MemDepEntry_new x), i. split; [apply Hlv; by left|done].
  - apply StronglySorted_app_2; [|done|repeat constructor]. intros [e y] r Hl ->%list_elem_of_singleton. simpl. rewrite Hi. simpl.
    destruct (H4 e y Hl) as (n & j & L & <-). pose proof L as (L1 & _ & L3 & _). rewrite L3. simpl. destruct (H3 _ _ L1) as (? & ? & _ & _ & _ & ? & _). lia.
  - destruct H6 as (? & Hlt & Hst). split_and!; [done|intros sn Hsn; specialize (Hlt sn Hsn); lia|]. intros sn e n j Hsn L. apply Hlv in L as [(-> & _)|L]; [|by eapply Hst].
    specialize (Hlt _ Hsn). lia.
  - destruct H7 as [Hlt Hb]. split; [lia|]. intros Hl e n j L. apply Hlv in L as [(E & _)|L]; [lia|]. by eapply Hb.
  - destruct H8 as [Hlt Hb]. split; [lia|]. intros Hl e n j L. apply Hlv in L as [(E & _)|L]; [lia|]. by eapply Hb.
  - intros y Hy. destruct (H9 y Hy) as (e & n & j & L & ?). exists e, n, j. split; [apply Hlv; by right|done].
Qed.

Lemma added_dinv tid s l S hi seen spec base rep x i :
  sinv tid s l S hi seen → dinv s spec seen base rep → insts s !! x = Some i → hi ≤ seqNum i → x ∉ seen →
  dinv (added s x i l) spec ({[x]} ∪ seen) base rep ∧ ¬ waiting (added s x i l) (next (entries s)).
Proof.
  intros Hs [D1 D2 D3 D4 D5] Hi Hhi Hx. pose proof (added_live _ _ _ _ _ _ x i Hs Hi Hhi) as Hlv.
  assert (Hw : ∀ d sn p, waits_for (added s x i l) d sn p ↔ waits_for s d sn p) by (intros; by eapply added_waits).
  assert (Hwt : ∀ d, waiting (added s x i l) d ↔ waiting s d) by (intros d; unfold waiting; by setoid_rewrite Hw).
  pose proof (fresh_cell _ _ _ _ _ _ Hs) as Hf. split; [split|].
  - intros d sn p W. apply Hw in W. destruct (D1 d sn p W) as [(n & j & L & Hwk) (nd & Hnd & Hlive)]. split.
    + exists n, j. split; [apply Hlv; by right|done].
    + exists nd. simpl. rewrite lookup_insert_ne by congruence. split; [done|]. intros Hsq. destruct (Hlive Hsq) as (snd & id & Ld & ? & ?).
      exists snd, id. split_and!; try done. apply Hlv. by right.
  - intros sn p n j L. apply Hlv in L as [(_ & _ & -> & _)|L]; [constructor|by eapply D2].
  - intros d sn p sn' p' W W'. apply Hw in W, W'. by eapply D3.
  - intros sn e n j L Hin. rewrite Hwt. apply Hlv in L as [(_ & _ & -> & _)|L]; [|by eapply D4]. simpl in Hin.
    destruct D5 as (_ & _ & Hsub). destruct Hx. apply Hsub. by right.
  - destruct D5 as (? & ? & Hsub). split_and!; try done. intros y Hy. apply elem_of_union. right. by apply Hsub.
  - rewrite Hwt. intros (sn & p & W). destruct (D1 _ _ _ W) as [_ (nd & Hnd & _)]. congruence.
Qed.
End inv.
End MemDepInv.
