(* ===== verification/MemDepOps.v ===== *)
(** * The memory dependence unit: operations

    Every operation, under what the instruction queue ensures, returns and keeps the
    invariant. *)

From stdpp Require Import sorting.
From S2P Require Import Prelude StoreSet MemDep MemDepInv.

Module MemDepOps.
Import MemDepUnit MemDepInv.

Section ops.
Context {P : Type} {HP : DepPred P} {HL : DepPredLaws P}.
Implicit Types (s : t P).

(** What has entered the unit and been replayed so far, and a bound of the numbers. *)
Record hist := mkHist { h_hi : Z; h_spec : gset positive; h_seen : gset positive; h_rep : list positive }.
Definition enter (g : hist) (x : positive) (sn : Z) (speculative : bool) : hist :=
  mkHist (sn + 1) (if speculative then {[x]} ∪ h_spec g else h_spec g) ({[x]} ∪ h_seen g) (h_rep g).
Definition replayed (g : hist) (l : list positive) : hist := mkHist (h_hi g) (h_spec g) (h_seen g) (h_rep g ++ l).

Record okl (tid : Z) s (l : list (positive * positive)) (S : gset Z) (base : list positive) (g : hist) : Prop := {
  o_s : sinv tid s l S (h_hi g) (h_seen g); o_d : dinv s (h_spec g) (h_seen g) base (h_rep g);
  o_rep : ∀ x, x ∈ h_rep g ∨ x ∈ instsToReplay s → x ∈ base
}.
Definition ok (tid : Z) s (g : hist) : Prop := ∃ l S base, okl tid s l S base g.

(** ** An instruction becomes dependent on an older one *)
Lemma depend_waits s p np e d sn q :
  cells (entries s) !! p = Some np → 
  waits_for (with_entries s (Heap (<[p := push_dependent e np]> (cells (entries s))) (next (entries s)))) d sn q ↔
  waits_for s d sn q ∨ (memDepHash s !! sn = Some q ∧ q = p ∧ d = e).
Proof.
  intros Hp. unfold waits_for. simpl. split.
  - intros (H1 & n & H2 & H3). destruct (decide (q = p)) as [->|Hne].
    + rewrite lookup_insert_eq in H2. injection H2 as <-. simpl in H3. apply elem_of_app in H3 as [H3|H3]; [left; eauto|].
      right. apply list_elem_of_singleton in H3 as ->. done.
    + rewrite lookup_insert_ne in H2 by done. left. eauto.
  - intros [(H1 & n & H2 & H3)|(H1 & -> & ->)].
    + split; [done|]. destruct (decide (q = p)) as [->|Hne].
      * rewrite lookup_insert_eq. eexists. split; [done|]. simpl. apply elem_of_app. left. congruence.
      * rewrite lookup_insert_ne by done. eauto.
    + split; [done|]. rewrite lookup_insert_eq. eexists. split; [done|]. simpl. set_solver.
Qed.

(** An address is the entry of one number. *)
Lemma addr_sn tid s l S hi seen k sn e n i : sinv tid s l S hi seen → live s sn e n i → memDepHash s !! k = Some e → k = sn.
Proof. intros Hs (_ & L2 & L3 & L4) Hk. destruct (m_hash _ _ _ _ _ _ Hs _ _ Hk) as (n' & i' & (_ & K2 & K3 & K4) & _). by simplify_eq. Qed.

Lemma depend_dinv tid l S hi s spec seen base rep sn e n i snp p np ip :
  sinv tid s l S hi seen → dinv s spec seen base rep →
  live s sn e n i → inst n ∉ spec → inst n ∈ seen → inst n ∉ base → ¬ waiting s e → memDepReady n = false →
  live s snp p np ip → wakes ip = true → snp < sn →
  dinv (with_entries s (Heap (<[p := push_dependent e np]> (cells (entries s))) (next (entries s)))) ({[inst n]} ∪ spec) seen base rep.
Proof.
  intros Hs [D1 D2 D3 D4 D5] Le Hns Hse Hnb Hnw Hm Lp Hwk Hlt. set (s' := with_entries _ _).
  pose proof Lp as (P1 & P2 & P3 & P4). pose proof Le as (E1 & E2 & E3 & E4).
  assert (Hne : e ≠ p) by (intros ->; simplify_eq; lia).
  assert (Hw : ∀ d sn q, waits_for s' d sn q ↔ waits_for s d sn q ∨ (memDepHash s !! sn = Some q ∧ q = p ∧ d = e)) by (intros; by apply depend_waits).
  assert (Hwe : waiting s' e) by (exists snp, p; apply Hw; by right).
  assert (Hwd : ∀ d, d ≠ e → waiting s' d ↔ waiting s d).
  { intros d Hd. unfold waiting. setoid_rewrite Hw. split; intros (a & b & W); exists a, b; [destruct W as [W|(_ & _ & ?)]; done|by left]. }
  assert (Hlv : ∀ k d m j, live s k d m j → ∃ m', live s' k d m' j ∧ inst m' = inst m ∧ squashed m' = squashed m ∧ (d ≠ p → m' = m)).
  { intros k d m j (L1 & L2 & L3 & L4). destruct (decide (d = p)) as [->|Hd].
    - exists (push_dependent e np). simplify_eq. split_and!; try done. unfold live, s'. simpl. rewrite lookup_insert_eq. by split_and!.
    - exists m. split_and!; try done. unfold live, s'. simpl. by rewrite lookup_insert_ne by done. }
  split.
  - intros d k q W. apply Hw in W as [W|(Hk & -> & ->)].
    + destruct (D1 _ _ _ W) as [(m & j & L & Hwj) (nd & Hnd & Hld)]. split.
      { destruct (Hlv _ _ _ _ L) as (m' & L' & _). by exists m', j. }
      destruct (decide (d = p)) as [->|Hd].
      * exists (push_dependent e np). simplify_eq. simpl. rewrite lookup_insert_eq. split; [done|]. intros Hq. destruct (Hld Hq) as (sd & id & Ld & Hl & Hin).
        exists sd, id. split_and!; [|done|set_solver]. destruct Ld as (L1 & L2 & L3 & L4). unfold live, s'. simpl. by rewrite lookup_insert_eq.
      * exists nd. simpl. rewrite lookup_insert_ne by done. split; [done|]. intros Hq. destruct (Hld Hq) as (sd & id & Ld & Hl & Hin).
        exists sd, id. destruct (Hlv _ _ _ _ Ld) as (m' & L' & _ & _ & Em). rewrite Em in L' by done. split_and!; [done|done|set_solver].
    + rewrite (addr_sn _ _ _ _ _ _ _ _ _ _ _ Hs Lp Hk) in *. split.
      { destruct (Hlv _ _ _ _ Lp) as (m' & L' & _). by exists m', ip. }
      exists n. simpl. rewrite lookup_insert_ne by done. split; [done|]. intros _. exists sn, i. destruct (Hlv _ _ _ _ Le) as (m' & L' & _ & _ & Em).
      rewrite Em in L' by done. split_and!; [done|done|set_solver].
  - intros k q m j L. apply live_upd in L as [[-> ->]|[_ L]]; [|by eapply D2]. simpl. apply NoDup_app. split_and!; [by eapply D2| |apply NoDup_singleton].
    intros d Hd ->%list_elem_of_singleton. apply Hnw. exists snp, p. split; [done|]. eauto.
  - intros d k q k' q' W W'. apply Hw in W, W'. destruct W as [W|(Hk & -> & ->)], W' as [W'|(Hk' & -> & Hd)]; subst.
    + by eapply D3.
    + destruct Hnw. by exists k, q.
    + destruct Hnw. by exists k', q'.
    + pose proof (addr_sn _ _ _ _ _ _ _ _ _ _ _ Hs Lp Hk). pose proof (addr_sn _ _ _ _ _ _ _ _ _ _ _ Hs Lp Hk'). congruence.
  - intros k d m j L Hin. destruct (decide (d = e)) as [->|Hd].
    + apply live_upd in L as [[-> _]|[_ L]]; [done|]. destruct L as (_ & L2 & _). rewrite E2 in L2. injection L2 as <-. rewrite Hm. split_and!; [|done|done].
      split; [done|]. intros [_ []]. done.
    + rewrite (Hwd d Hd). assert (∃ m0, live s k d m0 j ∧ inst m0 = inst m ∧ regsReady_ m0 = regsReady_ m ∧ memDepReady m0 = memDepReady m) as (m0 & L0 & Em & <- & <-).
      { pose proof L as L'. apply live_upd in L as [[-> ->]|[_ L]]; [|by exists m]. exists np. destruct L' as (L1 & L2 & L3 & L4). simpl in *. split; [|done]. by split_and!. }
      rewrite <-Em in *. eapply D4; [done|]. apply elem_of_union in Hin as [Hin%elem_of_singleton|]; [|done].
      destruct Hd. by destruct (live_inst _ _ _ _ _ _ _ _ _ L0 Le Hin) as (_ & -> & _).
  - destruct D5 as (? & ? & Hsub). split_and!; try done. intros y [Hy|Hy]; [apply Hsub; by left|]. apply elem_of_union in Hy as [->%elem_of_singleton|]; [done|]. apply Hsub. by right.
Qed.

(** ** Changes that no dependence sees *)
Lemma dinv_same s s' spec seen base rep :
  memDepHash s' = memDepHash s → entries s' = entries s → insts s' = insts s → ready s' = ready s → dinv s spec seen base rep → dinv s' spec seen base rep.
Proof. destruct s, s'. simpl. intros -> -> -> -> []. by split. Qed.

Lemma skel_inst s x i : insts s !! x = Some i → skel s (with_inst s x (clearCanIssue i)).
Proof.
  intros E. split; try done. intros y. simpl. destruct (decide (y = x)) as [->|]; [|by rewrite lookup_insert_ne].
  rewrite lookup_insert_eq, E. by destruct i.
Qed.

Lemma dinv_inst s x i spec seen base rep :
  insts s !! x = Some i → dinv s spec seen base rep → dinv (with_inst s x (clearCanIssue i)) spec seen base rep.
Proof.
  intros E D. pose proof D as [_ _ _ D4 (R1 & R2 & R3)]. apply (dinv_flags s _ spec spec seen seen base base rep rep); try done; [by apply skel_inst|].
  intros sn e n j L Hin. destruct (skel_live _ s _ _ _ _ (skel_sym _ _ (skel_inst _ _ _ E)) L) as (n' & j' & L' & _).
  assert (n' = n) as ->; [|by eapply D4]. destruct L as (_ & L2 & _), L' as (_ & L2' & _). simpl in L2. congruence.
Qed.

(** ** Insertion *)
Lemma producer_of_spec tid s l S hi seen i :
  sinv tid s l S hi seen →
  ∃ n, producer_of s i = Ok n ∧ (n = 0 ∨ n < hi) ∧ ∀ p np ip, n ≠ 0 → live s n p np ip → wakes ip = true.
Proof.
  intros [_ _ _ _ _ (Hp & Hlt & Hst) [Hl Hlb] [Hs Hsb] _]. unfold producer_of.
  destruct (isLoad i && loadBarrier s) eqn:E1; [apply andb_true_iff in E1 as [_ E1]; eauto 10|].
  destruct (isStore i && storeBarrier s) eqn:E2; [apply andb_true_iff in E2 as [_ E2]; eauto 10|].
  destruct (dp_checkInst_ok _ _ (instAddr i) Hp) as (n & -> & Hn). exists n. split_and!; [done|naive_solver|].
  intros p np ip Hn0 L. destruct Hn as [?|Hn]; [done|]. unfold wakes. by rewrite (Hst _ _ _ _ Hn L).
Qed.

Lemma tell_pred_spec tid s l S hi seen i e n j :
  sinv tid s l S hi seen → live s (seqNum i) e n j → isStore j = isStore i → (∀ m, m ∈ S → m < seqNum i) → isLoad i || isStore i = true →
  ∃ p S', tell_pred s i = Ok (with_pred s p) ∧ sinv tid (with_pred s p) l S' hi seen.
Proof.
  intros Hs L Hj Hm Hi. unfold tell_pred. destruct (isStore i) eqn:Est.
  - destruct Hs as [H1 H2 H3 H4 H5 (Hp & Hlt & Hst) H7 H8 H9].
    destruct (dp_insertStore_ok _ _ (instAddr i) (seqNum i) (threadNumber i) Hp Hm) as (p & -> & Hp'). exists p, ({[seqNum i]} ∪ S). split; [done|].
    split; try done. simpl. split_and!; [done| |].
    + intros sn [->%elem_of_singleton|]%elem_of_union; [|by apply Hlt]. destruct L as (L1 & _). by destruct (H3 _ _ L1) as (? & ? & _ & _ & _ & ? & _).
    + intros sn d m k [->%elem_of_singleton|Hsn]%elem_of_union L'; [|by eapply Hst]. destruct (live_fun s _ _ _ _ _ _ _ L L') as (_ & _ & <-). congruence.
  - rewrite orb_false_r in Hi. rewrite Hi. exists (depPred s), S. by destruct s.
Qed.

(** An entry that was not handed on gets its flags, and is handed on when they say so. *)
Definition settled s (e : positive) (n' : MemDepEntry) (hand : bool) : t P :=
  with_ready (with_entries s (Heap (<[e := n']> (cells (entries s))) (next (entries s)))) (ready s ++ (if hand then [inst n'] else [])).

Lemma settled_skel s e n n' hand : cells (entries s) !! e = Some n → sk n' = sk n → skel s (settled s e n' hand).
Proof. intros E K. destruct (skel_upd s e n n' E K). by split. Qed.

Lemma dinv_settle s spec spec' seen base rep sn e n i n' hand :
  dinv s spec seen base rep → live s sn e n i → sk n' = sk n → dependInsts n' = dependInsts n → inst n ∈ seen → inst n ∉ base →
  spec' = {[inst n]} ∪ spec →
  (hand = true ↔ regsReady_ n' = true ∧ ¬ waiting s e) → (memDepReady n' = true → ¬ waiting s e) → (regsReady_ n' = false → ¬ waiting s e → memDepReady n' = true) →
  dinv (settled s e n' hand) spec' seen (base ++ (if hand then [inst n] else [])) rep.
Proof.
  intros D L Hk Hd Hse Hnb -> Hh Hm Hr. pose proof D as [_ _ _ D4 (R1 & R2 & R3)]. pose proof L as (_ & L2 & _). pose proof Hk as [= Hk1 Hk2].
  eapply (dinv_flags s _ spec _ seen); [by eapply settled_skel|by eapply (deps_upd s e n n')|done|..].
  - simpl. rewrite Hk1, R1. rewrite <-!(assoc_L (++)). f_equiv. apply Permutation_app_comm.
  - destruct hand; [|by rewrite app_nil_r]. apply NoDup_app. split_and!; [done| |apply NoDup_singleton]. intros y Hy ->%list_elem_of_singleton. done.
  - intros y [Hy|Hy]; [|set_solver]. apply elem_of_app in Hy as [Hy|Hy]; [apply R3; by left|]. destruct hand; [|by apply elem_of_nil in Hy]. by apply list_elem_of_singleton in Hy as ->.
  - set_solver.
  - intros k d m j Lm Hin. apply (live_upd s e n') in Lm as [[-> ->]|[Hne Lm]].
    + split_and!; [|done|done]. rewrite Hk1, <-Hh. destruct hand; rewrite ?app_nil_r; set_solver.
    + assert (inst m ≠ inst n). { intros E. destruct Hne. by destruct (live_inst _ _ _ _ _ _ _ _ _ Lm L E) as (_ & -> & _). }
      assert (inst m ∈ base ++ (if hand then [inst n] else []) ↔ inst m ∈ base) as -> by (destruct hand; set_solver). eapply D4; [done|set_solver].
Qed.

Lemma tell_pred_ext s s' i p : tell_pred s i = Ok (with_pred s p) → depPred s' = depPred s → tell_pred s' i = Ok (with_pred s' p).
Proof.
  intros Ht E. unfold tell_pred in *. rewrite E. destruct (isStore i).
  - destruct (dp_insertStore _ _ _ _); [|done]. simpl in *. injection Ht as Ht. by rewrite Ht.
  - destruct (isLoad i); [|done]. injection Ht as Ht. assert (depPred s = p) as <- by (by rewrite Ht). destruct s'. simpl in *. by subst.
Qed.

Lemma insert_none s x i e p n :
  cells (entries s) !! e = Some n → n = MemDepEntry_new x → insts s !! x = Some i → tell_pred s i = Ok (with_pred s p) →
  let n' := mkEntry x [] (CanIssue i) true false in
  (s ← (s ← upd_entry s e set_memDepReady;
        if CanIssue i then s ← upd_entry s e set_regsReady; moveToReady s e else Ok s); tell_pred s i) = Ok (with_pred (settled s e n' (CanIssue i)) p).
Proof.
  intros E -> Hi Ht. simpl. rewrite (upd_entry_eq s e _ _ E). cbn [mbind res_bind].
  destruct (CanIssue i).
  - erewrite upd_entry_eq by (simpl; apply lookup_insert_eq). cbn [mbind res_bind]. erewrite moveToReady_eq by (simpl; apply lookup_insert_eq || done). cbn [mbind res_bind].
    rewrite (tell_pred_ext s) with (p := p) by done. unfold settled. simpl. by rewrite insert_insert_eq.
  - cbn [mbind res_bind]. rewrite (tell_pred_ext s) with (p := p) by done. unfold settled. simpl. by rewrite app_nil_r.
Qed.

Lemma dinv_outside s spec seen base rep sn e n i n' :
  dinv s spec seen base rep → live s sn e n i → sk n' = sk n → dependInsts n' = dependInsts n → inst n ∉ spec →
  dinv (settled s e n' false) spec seen base rep.
Proof.
  intros D L Hk Hd Hns. pose proof D as [_ _ _ D4 (R1 & R2 & R3)]. pose proof L as (_ & L2 & _). pose proof Hk as [= Hk1 Hk2].
  apply (dinv_flags s _ spec spec seen seen base base rep rep); try done; [by eapply settled_skel|by eapply (deps_upd s e n n')|simpl; by rewrite app_nil_r|].
  intros k d m j Lm Hin. apply (live_upd s e n') in Lm as [[-> ->]|[_ Lm]]; [congruence|by eapply D4].
Qed.

Definition depended s x i e p np : t P :=
  let s := with_inst (settled s e (mkEntry x [] (CanIssue i) false false) false) x (clearCanIssue i) in
  with_entries s (Heap (<[p := push_dependent e np]> (cells (entries s))) (next (entries s))).

Lemma insert_some s x i e n p np q :
  cells (entries s) !! e = Some n → n = MemDepEntry_new x → insts s !! x = Some i → tell_pred s i = Ok (with_pred s q) → cells (entries s) !! p = Some np → p ≠ e →
  (s ← (s ← (if CanIssue i then upd_entry s e set_regsReady else Ok s);
        let s := with_inst s x (clearCanIssue i) in upd_entry s p (push_dependent e)); tell_pred s i) = Ok (with_pred (depended s x i e p np) q).
Proof.
  intros E -> Hi Ht Hp Hne. unfold depended. destruct (CanIssue i) eqn:Ec.
  - rewrite (upd_entry_eq s e _ _ E). cbn [mbind res_bind]. erewrite upd_entry_eq by (simpl; rewrite lookup_insert_ne by done; exact Hp). cbn [mbind res_bind].
    rewrite (tell_pred_ext s) with (p := q) by done. unfold settled. simpl. by rewrite app_nil_r.
  - cbn [mbind res_bind]. rewrite (upd_entry_eq _ p np) by done. cbn [mbind res_bind]. rewrite (tell_pred_ext s) with (p := q) by done. unfold settled. simpl.
    rewrite app_nil_r. unfold MemDepEntry_new in E. by rewrite (insert_id _ _ _ E).
Qed.

Lemma depended_ok tid s l S hi seen spec base rep x i e p np snp ip :
  sinv tid s l S hi seen → dinv s spec seen base rep → live s (seqNum i) e (MemDepEntry_new x) i → x ∉ spec → x ∈ seen → x ∉ base → ¬ waiting s e →
  live s snp p np ip → wakes ip = true → snp < seqNum i →
  sinv tid (depended s x i e p np) l S hi seen ∧ dinv (depended s x i e p np) ({[x]} ∪ spec) seen base rep ∧ skel s (depended s x i e p np).
Proof.
  intros Hs D L Hns Hse Hnb Hnw Lp Hwk Hlt. pose proof L as (L1 & L2 & L3 & L4). pose proof Lp as (P1 & P2 & P3 & P4). simpl in L3.
  set (n' := mkEntry x [] (CanIssue i) false false). set (s2 := settled s e n' false). set (s3 := with_inst s2 x (clearCanIssue i)).
  assert (Hne : p ≠ e). { intros ->. rewrite L2 in P2. injection P2 as <-. simpl in P3. rewrite L3 in P3. injection P3 as <-. lia. }
  assert (K2 : skel s s2) by (by eapply settled_skel).
  assert (K3 : skel s s3) by (eapply skel_trans; [exact K2|by apply skel_inst]).
  assert (K4 : skel s (depended s x i e p np)).
  { eapply skel_trans; [exact K3|]. apply (skel_upd s3 p np); [|done]. simpl. by rewrite lookup_insert_ne. }
  assert (D3 : dinv s3 spec seen base rep) by (apply dinv_inst; [done|]; by eapply (dinv_outside s _ _ _ _ _ _ _ _ n')).
  assert (Hsd : same_deps s s3) by (by apply (deps_upd s e (MemDepEntry_new x) n')).
  assert (Hlp : ∃ jp, live s3 snp p np jp ∧ wakes jp = true).
  { destruct (skel_live s s3 _ _ _ _ K3 Lp) as (m & j & Lm & _ & _ & _ & _ & _ & Ew). exists j. split; [|by rewrite Ew].
    assert (m = np) as <-; [|done]. destruct Lm as (_ & M2 & _). simpl in M2. rewrite lookup_insert_ne in M2 by done. congruence. }
  destruct Hlp as (jp & Ljp & Hjp). split_and!; [by apply (skel_sinv _ s)| |done].
  apply (depend_dinv tid l S hi s3 spec seen base rep (seqNum i) e n' (clearCanIssue i) snp p np jp); try done.
  - by apply (skel_sinv _ s).
  - unfold live. simpl. rewrite !lookup_insert_eq. by destruct i.
  - by rewrite (same_deps_waiting s s3).
Qed.

(** An instruction may enter that is not in the unit yet and younger than all. *)
Definition may_enter (tid : Z) s (g : hist) (x : positive) (i : DynInst) : Prop :=
  insts s !! x = Some i ∧ threadNumber i = tid ∧ h_hi g ≤ seqNum i ∧ x ∉ h_seen g.

Lemma enter_okl tid s l S base g x i :
  okl tid s l S base g → may_enter tid s g x i →
  let s1 := added s x i l in let e := next (entries s) in
  add_entry s x i = Ok (e, s1) ∧ sinv tid s1 (l ++ [(e, x)]) S (seqNum i + 1) ({[x]} ∪ h_seen g) ∧
  dinv s1 (h_spec g) ({[x]} ∪ h_seen g) base (h_rep g) ∧ ¬ waiting s1 e ∧ live s1 (seqNum i) e (MemDepEntry_new x) i ∧
  x ∉ base ∧ x ∉ h_spec g ∧ (∀ m, m ∈ S → m < seqNum i) ∧ insts s1 = insts s.
Proof.
  intros [Hs D _] (Hi & Ht & Hlt & Hx). simpl. pose proof D as [_ _ _ _ (_ & _ & Hsub)].
  destruct (added_dinv _ _ _ _ _ _ _ _ _ _ _ Hs D Hi Hlt Hx) as [D' Hnw]. split_and!; try done.
  - by eapply add_entry_eq.
  - by apply (added_sinv _ _ _ _ _ _ _ _ Hs).
  - apply (added_live _ _ _ _ _ _ _ _ Hs Hi Hlt). by left.
  - intros Hb. apply Hx, Hsub. by left.
  - intros Hb. apply Hx, Hsub. by right.
  - intros m Hm. pose proof (m_pred _ _ _ _ _ _ Hs) as (_ & Hp & _). specialize (Hp m Hm). lia.
Qed.

Lemma tell_okl tid s l S S' base g p :
  okl tid s l S base g → sinv tid (with_pred s p) l S' (h_hi g) (h_seen g) → okl tid (with_pred s p) l S' base g.
Proof. intros [Hs D Hr] Hs'. split; [done|by apply (dinv_same s)|done]. Qed.

Lemma md_insert_spec tid s g x i :
  ok tid s g → may_enter tid s g x i → isLoad i || isStore i = true →
  ∃ s' k, insert s x = Ok s' ∧ ok tid s' (enter g x (seqNum i) true) ∧ producer_of s i = Ok k ∧ memDepHash s' !! seqNum i = Some (next (entries s)) ∧
    match (if k =? 0 then None else memDepHash s !! k) with
    | None => ready s' = ready s ++ (if CanIssue i then [x] else [])
    | Some p => waits_for s' (next (entries s)) k p ∧ ready s' = ready s
    end.
Proof.
  intros (l & S & base & Ho) Hm Hty. pose proof Ho as [Hs _ Hrep]. pose proof Hm as (Hi & Ht & Hlt & Hx).
  destruct (enter_okl _ _ _ _ _ _ _ _ Ho Hm) as (Ea & Hs1 & D1 & Hnw & L & Hnb & Hns & HS & Hii).
  set (s1 := added s x i l) in *. set (e := next (entries s)) in *.
  unfold insert, deref. rewrite Hi. cbn [mbind res_bind]. rewrite Ea. cbn [mbind res_bind].
  destruct (producer_of_spec _ _ _ _ _ _ i Hs) as (k & Ek & Hk & Hkw). change (producer_of s1 i) with (producer_of s i). rewrite Ek. cbn [mbind res_bind].
  destruct (tell_pred_spec _ _ _ _ _ _ i _ _ _ Hs1 L eq_refl HS Hty) as (q & S' & Eq & Hs1q).
  assert (Hls : live s1 (seqNum i) e (MemDepEntry_new x) i) by done. destruct L as (L1 & L2 & L3 & L4).
  assert (Est' : (if k =? 0 then None else memDepHash s1 !! k) = (if k =? 0 then None else memDepHash s !! k)).
  { destruct (Z.eqb_spec k 0); [done|]. unfold s1. simpl. rewrite lookup_insert_ne; [done|]. destruct Hk; [done|lia]. }
  destruct (if k =? 0 then None else memDepHash s1 !! k) as [p|] eqn:Est; symmetry in Est'.
  - assert (Hk0 : k ≠ 0) by (intros ->; done). rewrite (proj2 (Z.eqb_neq k 0) Hk0) in Est. assert (Hki : k < seqNum i) by (destruct Hk; [done|lia]).
    destruct (m_hash _ _ _ _ _ _ Hs1 _ _ Est) as (np & ip & Lp & _).
    assert (Lp0 : live s k p np ip). { apply (added_live _ _ _ _ _ _ _ _ Hs Hi Hlt) in Lp as [(-> & _)|]; [lia|done]. }
    assert (Hpe : p ≠ e). { intros ->. pose proof (addr_sn _ _ _ _ _ _ k _ _ _ _ Hs1 Hls Est). lia. }
    assert (Hpc : cells (entries s1) !! p = Some np) by (by destruct Lp as (_ & ? & _)).
    eexists _, k. rewrite Est'. split; [exact (insert_some s1 x i e _ p np q L2 eq_refl Hi Eq Hpc Hpe)|]. split_and!; [|done|exact L1| |simpl; by rewrite app_nil_r].
    2:{ split; [exact Est|]. exists (push_dependent e np). simpl. rewrite lookup_insert_eq. split; [done|]. simpl. set_solver. }
    destruct (depended_ok tid s1 _ S _ _ (h_spec g) base (h_rep g) x i e p np k ip Hs1 D1 Hls) as (_ & Dd & Kd); try done; [set_solver|by eapply Hkw|].
    exists (l ++ [(e, x)]), S', base. split; [|by apply (dinv_same (depended s1 x i e p np))|done].
    eapply (skel_sinv _ (with_pred s1 q)); [|exact Hs1q]. destruct Kd. by split.
  - eexists _, k. rewrite Est'. split; [exact (insert_none s1 x i e q _ L2 eq_refl Hi Eq)|]. split_and!; [|done|exact L1|by simpl]. exists (l ++ [(e, x)]), S', (base ++ (if CanIssue i then [x] else [])). split.
    + eapply (skel_sinv _ (with_pred s1 q)); [|exact Hs1q]. set (n' := mkEntry x [] (CanIssue i) true false).
      destruct (settled_skel s1 e (MemDepEntry_new x) n' (CanIssue i) L2 eq_refl). by split.
    + eapply dinv_same; [..|eapply (dinv_settle s1 _ _ _ _ _ _ _ _ _ _ _ D1 Hls)]; try done; [set_solver|]. simpl. naive_solver.
    + intros y Hy. apply elem_of_app. left. by apply Hrep.
Qed.

Lemma md_insertNonSpec_spec tid s g x i :
  ok tid s g → may_enter tid s g x i → isLoad i || isStore i = true → ∃ s', insertNonSpec s x = Ok s' ∧ ok tid s' (enter g x (seqNum i) false).
Proof.
  intros (l & S & base & Ho) Hm Hty. pose proof Ho as [Hs _ Hrep]. pose proof Hm as (Hi & Ht & Hlt & Hx).
  destruct (enter_okl _ _ _ _ _ _ _ _ Ho Hm) as (Ea & Hs1 & D1 & Hnw & L & Hnb & Hns & HS & Hii).
  unfold insertNonSpec, deref. rewrite Hi. cbn [mbind res_bind]. rewrite Ea. cbn [mbind res_bind].
  destruct (tell_pred_spec _ _ _ _ _ _ i _ _ _ Hs1 L eq_refl HS Hty) as (q & S' & Eq & Hs1q). rewrite Eq. eexists. split; [done|].
  exists (l ++ [(next (entries s), x)]), S', base. eapply tell_okl; [|exact Hs1q]. by split.
Qed.

Lemma add_entry_barriers s x i a n b m e s1 :
  add_entry s x i = Ok (e, s1) →
  add_entry (with_store_barrier (with_load_barrier s a n) b m) x i = Ok (e, with_store_barrier (with_load_barrier s1 a n) b m).
Proof.
  unfold add_entry. simpl. destruct (memDepHash s !! seqNum i); simpl.
  all: destruct (vget (instList s) (threadNumber i)) as [k|]; simpl; [|done]; destruct (vset _ _ _) as [ls|]; simpl; [|done]; by intros [= <- <-].
Qed.

(** A barrier counts that is in the unit. *)
Lemma sinv_barriers tid s l S hi seen a n b m :
  sinv tid s l S hi seen → n < hi → m < hi → (a = true → ∀ e k i, live s n e k i → wakes i = true) → (b = true → ∀ e k i, live s m e k i → wakes i = true) →
  sinv tid (with_store_barrier (with_load_barrier s a n) b m) l S hi seen.
Proof. intros [] Hn Hm Ha Hb. by split. Qed.

Lemma okl_barriers tid s l S base g a n b m :
  okl tid s l S base g → n < h_hi g → m < h_hi g → (a = true → ∀ e k i, live s n e k i → wakes i = true) → (b = true → ∀ e k i, live s m e k i → wakes i = true) →
  okl tid (with_store_barrier (with_load_barrier s a n) b m) l S base g.
Proof. intros [Hs D Hr] Hn Hm Ha Hb. split; [by apply sinv_barriers|by apply (dinv_same s)|done]. Qed.

Lemma md_insertBarrier_spec tid s g x i :
  ok tid s g → may_enter tid s g x i → isMemBarrier i || isWriteBarrier i = true → ∃ s', insertBarrier s x = Ok s' ∧ ok tid s' (enter g x (seqNum i) false).
Proof.
  intros (l & S & base & Ho) Hm Hty. pose proof Ho as [Hs _ Hrep]. pose proof Hm as (Hi & Ht & Hlt & Hx).
  destruct (enter_okl _ _ _ _ _ _ _ _ Ho Hm) as (Ea & Hs1 & D1 & Hnw & L & Hnb & Hns & HS & Hii). set (s1 := added s x i l) in *.
  assert (Ho1 : okl tid s1 (l ++ [(next (entries s), x)]) S base (enter g x (seqNum i) false)) by (by split).
  assert (Hwk : wakes i = true) by (unfold wakes; destruct (isStore i), (isMemBarrier i); done).
  assert (Hw : ∀ e k j, live s1 (seqNum i) e k j → wakes j = true).
  { intros e k j Lk. by destruct (live_fun s1 _ _ _ _ _ _ _ L Lk) as (_ & _ & <-). }
  pose proof (m_load _ _ _ _ _ _ Hs1) as [Hl1 Hl2]. unfold insertBarrier, deref. rewrite Hi. cbn [mbind res_bind].
  destruct (isMemBarrier i).
  - erewrite add_entry_barriers by exact Ea. eexists. split; [done|]. exists (l ++ [(next (entries s), x)]), S, base.
    apply (okl_barriers tid s1); simpl; try done; lia.
  - simpl in Hty. rewrite Hty. pose proof (add_entry_barriers s x i (loadBarrier s) (loadBarrierSN s) true (seqNum i) _ _ Ea) as E.
    change (with_store_barrier s true (seqNum i)) with (with_store_barrier (with_load_barrier s (loadBarrier s) (loadBarrierSN s)) true (seqNum i)).
    rewrite E. eexists. split; [done|]. exists (l ++ [(next (entries s), x)]), S, base. apply (okl_barriers tid s1); simpl; try done; lia.
Qed.

(** ** Instructions become ready *)
Lemma settled_okl tid s l S base g sn e n i n' hand :
  okl tid s l S base g → live s sn e n i → sk n' = sk n → dependInsts n' = dependInsts n → inst n ∈ h_spec g → inst n ∉ base →
  (hand = true ↔ regsReady_ n' = true ∧ ¬ waiting s e) → (memDepReady n' = true → ¬ waiting s e) → (regsReady_ n' = false → ¬ waiting s e → memDepReady n' = true) →
  okl tid (settled s e n' hand) l S (base ++ (if hand then [inst n] else [])) g.
Proof.
  intros [Hs D Hr] L Hk Hd Hin Hnb Hh Hm Hrg. pose proof D as [_ _ _ _ (_ & _ & Hsub)]. split.
  - eapply skel_sinv; [|exact Hs]. destruct L as (_ & L2 & _). by eapply settled_skel.
  - eapply dinv_settle; try done; [apply Hsub; by right|set_solver].
  - intros y Hy. apply elem_of_app. left. by apply Hr.
Qed.

Lemma regsReady_spec tid s g sn e n i :
  ok tid s g → live s sn e n i → inst n ∈ h_spec g → regsReady_ n = false → ∃ s', regsReady s (inst n) = Ok s' ∧ ok tid s' g.
Proof.
  intros (l & S & base & Ho) L Hin Hrg. pose proof Ho as [Hs [_ _ _ D4 _] _]. pose proof L as (L1 & L2 & L3 & L4).
  destruct (D4 _ _ _ _ L Hin) as (Hb & Hm & Hw). unfold regsReady. rewrite (findInHash_eq _ _ _ _ _ L). cbn [mbind res_bind].
  rewrite (upd_entry_eq s e _ _ L2). cbn [mbind res_bind]. rewrite (heap_deref_cell _ _ (set_regsReady n)) by (simpl; apply lookup_insert_eq). cbn [mbind res_bind].
  assert (Hnb : inst n ∉ base) by (rewrite Hb; intros [? _]; congruence).
  pose proof (settled_okl tid s l S base g sn e n i (set_regsReady n) (memDepReady n) Ho L eq_refl eq_refl Hin Hnb) as Hset. simpl in Hset.
  destruct (m_hash _ _ _ _ _ _ Hs _ _ L1) as (n' & ? & (_ & N2 & _) & _ & Hsq & _). assert (n' = n) as -> by congruence.
  assert (Hmd : memDepReady n = true ↔ True ∧ ¬ waiting s e) by (destruct (memDepReady n) eqn:E; naive_solver).
  simpl. destruct (memDepReady n) eqn:Em.
  - erewrite moveToReady_eq by (simpl; apply lookup_insert_eq || done). eexists. split; [done|]. exists l, S, (base ++ [inst n]). apply Hset; naive_solver.
  - eexists. split; [done|]. exists l, S, base. unfold settled in Hset. rewrite !app_nil_r in Hset. apply Hset; naive_solver.
Qed.

Lemma dinv_ready s spec seen base rep base' rep' r :
  dinv s spec seen base rep → r ≡ₚ base' ++ rep' → NoDup base' → (∀ x, x ∈ base' → x ∈ seen) → (∀ x, x ∈ spec → x ∈ base' ↔ x ∈ base) →
  dinv (with_ready s r) spec seen base' rep'.
Proof.
  intros D Hr Hn Hse Hsp. pose proof D as [_ _ _ D4 (_ & _ & Hsub)].
  apply (dinv_flags s _ spec spec seen seen base base' rep rep'); try done; [naive_solver|]. intros sn e n i L Hin. rewrite (Hsp _ Hin). by eapply D4.
Qed.

(** What was handed on, replays aside. *)
Lemma okl_handed tid s l S base g x : okl tid s l S base g → x ∈ ready s ↔ x ∈ base.
Proof. intros [_ [_ _ _ _ (-> & _)] Hr]. rewrite elem_of_app. naive_solver. Qed.

Lemma live_unsquashed tid s l S hi seen sn e n i : sinv tid s l S hi seen → live s sn e n i → squashed n = false ∧ inst n ∈ seen ∧ (e, inst n) ∈ l ∧ threadNumber i = tid ∧ sn < hi.
Proof.
  intros Hs (L1 & L2 & L3 & L4). destruct (m_hash _ _ _ _ _ _ Hs _ _ L1) as (n' & i' & (_ & N2 & N3 & _) & ? & ? & ? & ? & ?).
  rewrite L2 in N2. injection N2 as <-. rewrite L3 in N3. by injection N3 as <-.
Qed.

Lemma nonSpecInstReady_spec tid s g sn e n i :
  ok tid s g → live s sn e n i → inst n ∉ h_spec g → inst n ∉ ready s → ∃ s', nonSpecInstReady s (inst n) = Ok s' ∧ ok tid s' g.
Proof.
  intros (l & S & base & Ho) L Hns Hnr. rewrite (okl_handed _ _ _ _ _ _ _ Ho) in Hnr. pose proof Ho as [Hs D Hr]. pose proof L as (L1 & L2 & L3 & L4).
  pose proof D as [_ _ _ _ (R1 & R2 & R3)]. destruct (live_unsquashed _ _ _ _ _ _ _ _ _ _ Hs L) as (Hsq & Hse & _).
  unfold nonSpecInstReady. rewrite (findInHash_eq _ _ _ _ _ L). cbn [mbind res_bind]. rewrite (moveToReady_eq s e n) by done. eexists. split; [done|].
  exists l, S, (base ++ [inst n]). split.
  - apply (skel_sinv _ s); [by split|done].
  - apply (dinv_ready s _ _ _ _ _ _ _ D).
    + rewrite R1, <-!(assoc_L (++)). f_equiv. apply Permutation_app_comm.
    + apply NoDup_app. split_and!; [done| |apply NoDup_singleton]. intros y Hy ->%list_elem_of_singleton. done.
    + intros y [Hy| ->%list_elem_of_singleton]%elem_of_app; [apply R3; by left|done].
    + set_solver.
  - intros y Hy. apply elem_of_app. left. by apply Hr.
Qed.

(** ** Replays *)
Lemma md_reschedule_spec tid s g sn e n i : ok tid s g → live s sn e n i → inst n ∈ ready s → ok tid (reschedule s (inst n)) g.
Proof.
  intros (l & S & base & Ho) L Hnr. rewrite (okl_handed _ _ _ _ _ _ _ Ho) in Hnr. destruct Ho as [[] D Hr]. exists l, S, base. split.
  - split; try done. simpl. intros y [Hy| ->%list_elem_of_singleton]%elem_of_app; [by auto|]. exists e, n, i. split; [|done]. destruct L as (? & ? & ? & L4). by split_and!; rewrite ?L4.
  - by apply (dinv_same s).
  - simpl. intros y [Hy|[Hy| ->%list_elem_of_singleton]%elem_of_app]; [apply Hr; by left|apply Hr; by right|done].
Qed.

Lemma replay_loop_eq k s :
  (∀ x, x ∈ k → ∃ sn e n i, live s sn e n i ∧ inst n = x ∧ squashed n = false) → replay_loop s k = Ok (with_replay (with_ready s (ready s ++ k)) (if k is [] then instsToReplay s else [])).
Proof.
  revert s. induction k as [|x k IH]; intros s Hk; [simpl; rewrite app_nil_r; by destruct s|].
  destruct (Hk x ltac:(left)) as (sn & e & n & i & L & <- & Hsq). cbn [replay_loop]. rewrite (findInHash_eq _ _ _ _ _ L). cbn [mbind res_bind].
  destruct L as (L1 & L2 & L3 & L4). rewrite (moveToReady_eq s e n L2 Hsq). cbn [mbind res_bind]. rewrite IH; [|intros y Hy; apply (Hk y); by right].
  simpl. rewrite <-(assoc_L (++)). by destruct k.
Qed.

Lemma replay_spec tid s g : ok tid s g → ∃ s', replay s = Ok s' ∧ ok tid s' (replayed g (instsToReplay s)) ∧ instsToReplay s' = [].
Proof.
  intros (l & S & base & [Hs D Hr]). unfold replay. rewrite replay_loop_eq.
  2:{ intros x Hx. destruct (m_replay _ _ _ _ _ _ Hs x Hx) as (e & n & i & L & <-). exists (seqNum i), e, n, i. split_and!; try done. by destruct (live_unsquashed _ _ _ _ _ _ _ _ _ _ Hs L). }
  assert (match instsToReplay s with [] => instsToReplay s | _ => [] end = []) as -> by (by destruct (instsToReplay s)).
  eexists. split_and!; [done| |done]. pose proof D as [_ _ _ _ (R1 & R2 & R3)]. exists l, S, base. split; simpl.
  - destruct Hs. split; try done. simpl. by intros x ?%elem_of_nil.
  - apply (dinv_same (with_ready s (ready s ++ instsToReplay s))); try done. apply (dinv_ready s _ _ _ _ _ _ _ D); try done; [by rewrite R1, (assoc_L (++))|naive_solver].
  - intros y [[Hy|Hy]%elem_of_app|Hy]; [apply Hr; by left|apply Hr; by right|by apply elem_of_nil in Hy].
Qed.

(** ** The predictor learns *)
Lemma okl_pred tid s l S base g p : okl tid s l S base g → dp_inv p S → okl tid (with_pred s p) l S base g.
Proof.
  intros Ho Hp. eapply tell_okl; [done|]. destruct Ho as [[H1 H2 H3 H4 H5 (_ & Hlt & Hst) H7 H8 H9] _ _]. by split.
Qed.

Lemma md_violation_spec tid s g x y : ok tid s g → is_Some (insts s !! x) → is_Some (insts s !! y) → ∃ s', violation s x y = Ok s' ∧ ok tid s' g.
Proof.
  intros (l & S & base & Ho) [i Hi] [j Hj]. unfold violation, deref. rewrite Hi, Hj. cbn [mbind res_bind].
  pose proof (m_pred _ _ _ _ _ _ (o_s _ _ _ _ _ _ Ho)) as (Hp & _). destruct (dp_violation_ok _ _ (instAddr i) (instAddr j) Hp) as (p & -> & Hp').
  eexists. split; [done|]. exists l, S, base. by apply okl_pred.
Qed.

Lemma md_issue_spec tid s g x : ok tid s g → is_Some (insts s !! x) → ∃ s', issue s x = Ok s' ∧ ok tid s' g.
Proof.
  intros (l & S & base & Ho) [i Hi]. unfold issue, deref. rewrite Hi. cbn [mbind res_bind].
  pose proof (m_pred _ _ _ _ _ _ (o_s _ _ _ _ _ _ Ho)) as (Hp & _). destruct (dp_issued_ok _ _ (instAddr i) (seqNum i) (isStore i) Hp) as (p & -> & Hp').
  eexists. split; [done|]. exists l, S, base. by apply okl_pred.
Qed.
End ops.
End MemDepOps.
