(* ===== verification/MemDepDone.v ===== *)
(** * The memory dependence unit: completion and squash

    An instruction that completes wakes the instructions that wait for it; a squash
    drops the young ones, youngest first. *)

From stdpp Require Import sorting.
From S2P Require Import Prelude StoreSet MemDep MemDepInv MemDepOps.

Module MemDepDone.
Import MemDepUnit MemDepInv MemDepOps.

Section done.
Context {P : Type} {HP : DepPred P} {HL : DepPredLaws P}.
Implicit Types (s : t P).

(** ** Waking the dependents *)
Definition goes (n : MemDepEntry) : bool := regsReady_ n && negb (squashed n).
Definition wake (n : MemDepEntry) : MemDepEntry := if goes n then n else set_memDepReady n.
Definition handed s (ds : list positive) : list positive :=
  omap (λ d, n ← cells (entries s) !! d; if goes n then Some (inst n) else None) ds.
Definition wake_all (c : gmap positive MemDepEntry) (ds : list positive) : gmap positive MemDepEntry :=
  map_imap (λ d n, Some (if decide (d ∈ ds) then wake n else n)) c.
Definition woken s (ds : list positive) : t P :=
  with_ready (with_entries s (Heap (wake_all (cells (entries s)) ds) (next (entries s)))) (ready s ++ handed s ds).

Lemma wake_all_lookup c ds d : wake_all c ds !! d = (λ n, if decide (d ∈ ds) then wake n else n) <$> c !! d.
Proof. unfold wake_all. rewrite map_lookup_imap. by destruct (c !! d). Qed.

Lemma wake_idem n : wake (wake n) = wake n.
Proof. unfold wake. destruct (goes n) eqn:E; [by rewrite E|]. change (goes (set_memDepReady n)) with (goes n). by rewrite E. Qed.

Lemma wake_sk n : sk (wake n) = sk n ∧ dependInsts (wake n) = dependInsts n ∧ inst (wake n) = inst n ∧ regsReady_ (wake n) = regsReady_ n ∧ goes (wake n) = goes n.
Proof. unfold wake. by destruct (goes n) eqn:E. Qed.

Lemma wake_loop_eq ds s : Forall (λ d, is_Some (cells (entries s) !! d)) ds → wake_loop s ds = Ok (woken s ds).
Proof.
  revert s. induction ds as [|d ds IH]; intros s Hd.
  - simpl. f_equal. unfold woken, handed. simpl. rewrite app_nil_r. destruct s as [? ? ? ? ? ? ? ? [c nx] ? ?]. unfold with_ready, with_entries. simpl. do 2 f_equal.
    apply map_eq. intros d. rewrite wake_all_lookup. by destruct (c !! d).
  - apply Forall_cons in Hd as [[n Hn] Hd]. cbn [wake_loop]. rewrite (heap_deref_cell _ _ _ Hn). cbn [mbind res_bind]. unfold woken, handed. cbn [omap list_omap]. rewrite Hn. cbn [mbind option_bind]. fold (goes n).
    assert (Hall : ∀ c, (c = cells (entries s) ∧ goes n = true) ∨ (c = <[d := set_memDepReady n]> (cells (entries s)) ∧ goes n = false) → wake_all c ds = wake_all (cells (entries s)) (d :: ds)).
    { intros c Hc. apply map_eq. intros q. rewrite !wake_all_lookup. destruct (decide (q = d)) as [->|Hq].
      - destruct Hc as [[-> Hg]|[-> Hg]]; rewrite ?lookup_insert_eq, ?Hn; simpl; f_equal; rewrite (decide_True (P := d ∈ d :: ds)) by left.
        + destruct (decide _); [done|]. unfold wake. by rewrite Hg.
        + assert (E : wake n = set_memDepReady n) by (unfold wake; by rewrite Hg). rewrite <-E, wake_idem. by destruct (decide _).
      - assert (c !! q = cells (entries s) !! q) as -> by (destruct Hc as [[-> _]|[-> _]]; [done|by rewrite lookup_insert_ne]).
        destruct (cells (entries s) !! q); simpl; [|done]. f_equal. destruct (decide (q ∈ ds)), (decide (q ∈ d :: ds)); set_solver. }
    destruct (goes n) eqn:Hg.
    + rewrite (moveToReady_eq s d n Hn) by (unfold goes in Hg; apply andb_true_iff in Hg as [_ Hg]; by destruct (squashed n)). cbn [mbind res_bind].
      rewrite IH by done. unfold woken. simpl. rewrite (Hall (cells (entries s))) by (by left). by rewrite <-(assoc_L (++)).
    + rewrite (upd_entry_eq s d _ _ Hn). cbn [mbind res_bind]. rewrite IH.
      * unfold woken. simpl. rewrite Hall by (by right). do 3 f_equal. unfold handed. apply list_omap_ext. apply Forall_Forall2_diag. apply Forall_forall. intros q _. simpl.
        destruct (decide (q = d)) as [->|Hq]; [rewrite lookup_insert_eq, Hn|by rewrite lookup_insert_ne]. simpl. by change (goes (set_memDepReady n)) with (goes n).
      * eapply Forall_impl; [exact Hd|]. simpl. intros q Hq. destruct (decide (q = d)) as [->|Hne]; [rewrite lookup_insert_eq; by eexists|by rewrite lookup_insert_ne].
Qed.

(** The unit after an entry has woken its dependents. *)
Definition woke s (p : positive) (np : MemDepEntry) : t P :=
  let s := woken s (dependInsts np) in with_entries s (Heap (<[p := clear_dependents np]> (cells (entries s))) (next (entries s))).

Section woke.
Context (tid : Z) (s : t P) (l : list (positive * positive)) (S : gset Z) (base : list positive) (g : hist).
Context (Ho : okl tid s l S base g) (sn : Z) (p : positive) (np : MemDepEntry) (ip : DynInst) (Lp : live s sn p np ip).

Lemma dep_waits d : d ∈ dependInsts np → waits_for s d sn p.
Proof. intros Hd. destruct Lp as (L1 & L2 & _). split; [done|]. by exists np. Qed.

Lemma dep_live d nd : d ∈ dependInsts np → cells (entries s) !! d = Some nd → squashed nd = false → ∃ k i, live s k d nd i ∧ sn < k ∧ inst nd ∈ h_spec g.
Proof.
  intros Hd Hn Hs. destruct (m_dep _ _ _ _ _ (o_d _ _ _ _ _ _ Ho) _ _ _ (dep_waits d Hd)) as [_ (nd' & Hn' & Hl)].
  assert (nd' = nd) as -> by congruence. by apply Hl.
Qed.

Lemma dep_self : p ∉ dependInsts np.
Proof.
  intros Hd. pose proof Lp as (L1 & L2 & L3 & L4). destruct (live_unsquashed _ _ _ _ _ _ _ _ _ _ (o_s _ _ _ _ _ _ Ho) Lp) as (Hs & _).
  destruct (dep_live p np Hd L2 Hs) as (k & i & (K1 & K2 & K3 & K4) & Hlt & _). rewrite L3 in K3. injection K3 as <-. lia.
Qed.

Lemma woke_cell d : cells (entries (woke s p np)) !! d =
  if decide (d = p) then Some (clear_dependents np) else (λ n, if decide (d ∈ dependInsts np) then wake n else n) <$> cells (entries s) !! d.
Proof. simpl. destruct (decide (d = p)) as [->|Hne]; [by rewrite lookup_insert_eq|]. by rewrite lookup_insert_ne, wake_all_lookup. Qed.

Lemma woke_skel : skel s (woke s p np).
Proof.
  pose proof Lp as (_ & L2 & _). split; try done. intros d. rewrite woke_cell. destruct (decide (d = p)) as [->|Hne]; [by rewrite L2|].
  destruct (cells (entries s) !! d) as [n|]; [|done]. simpl. f_equal. destruct (decide _); [|done]. apply wake_sk.
Qed.

Lemma woke_waits d k q : waits_for (woke s p np) d k q ↔ waits_for s d k q ∧ q ≠ p.
Proof.
  unfold waits_for. change (memDepHash (woke s p np)) with (memDepHash s). setoid_rewrite woke_cell. destruct (decide (q = p)) as [->|Hne].
  - split; [|naive_solver]. intros (_ & n & [= <-] & Hd). by apply elem_of_nil in Hd.
  - split.
    + intros (H1 & n & H2 & H3). split; [|done]. split; [done|]. destruct (cells (entries s) !! q) as [m|]; [|done]. exists m. split; [done|].
      simpl in H2. injection H2 as <-. destruct (decide _); [|done]. by destruct (wake_sk m) as (_ & <- & _).
    + intros [(H1 & n & H2 & H3) _]. split; [done|]. rewrite H2. simpl. eexists. split; [done|]. destruct (decide _); [|done]. by destruct (wake_sk n) as (_ & -> & _).
Qed.

Lemma woke_waiting d : waiting (woke s p np) d ↔ waiting s d ∧ d ∉ dependInsts np.
Proof.
  unfold waiting. setoid_rewrite woke_waits. split.
  - intros (k & q & W & Hq). split; [by exists k, q|]. intros Hd.
    pose proof (m_one _ _ _ _ _ (o_d _ _ _ _ _ _ Ho) _ _ _ _ _ W (dep_waits d Hd)) as ->. destruct W as (W1 & _), Lp as (L1 & _). congruence.
  - intros [(k & q & W) Hd]. exists k, q. split; [done|]. intros ->. destruct Lp as (_ & L2 & _), W as (_ & n & Hn & Hdn). congruence.
Qed.

(** Those handed on have an entry that waited. *)
Lemma handed_in x : x ∈ handed s (dependInsts np) ↔ ∃ d n k i, d ∈ dependInsts np ∧ live s k d n i ∧ inst n = x ∧ regsReady_ n = true ∧ inst n ∈ h_spec g.
Proof.
  unfold handed. rewrite list_elem_of_omap. split.
  - intros (d & Hd & E). destruct (cells (entries s) !! d) as [n|] eqn:En; [|done]. simpl in E. destruct (goes n) eqn:Eg; [|done]. injection E as <-.
    apply andb_true_iff in Eg as [Er Es]. destruct (dep_live d n Hd En ltac:(by destruct (squashed n))) as (k & i & L & _ & Hin). by exists d, n, k, i.
  - intros (d & n & k & i & Hd & L & <- & Hr & _). exists d. split; [done|]. pose proof L as (_ & L2 & _). rewrite L2. simpl.
    destruct (live_unsquashed _ _ _ _ _ _ _ _ _ _ (o_s _ _ _ _ _ _ Ho) L) as (Hs & _). unfold goes. by rewrite Hr, Hs.
Qed.

Lemma handed_nodup : NoDup (handed s (dependInsts np)).
Proof.
  pose proof (m_nodup _ _ _ _ _ (o_d _ _ _ _ _ _ Ho) _ _ _ _ Lp) as Hn. assert (Hsub : ∀ d, d ∈ dependInsts np → d ∈ dependInsts np) by done.
  revert Hn Hsub. generalize (dependInsts np) at 1 2 4. intros ds. induction ds as [|d ds IH]; intros Hn Hsub; [constructor|].
  apply NoDup_cons in Hn as [Hd Hn]. unfold handed. cbn [omap list_omap]. destruct (cells (entries s) !! d) as [n|] eqn:En; cbn [mbind option_bind].
  2:{ apply IH; [done|]. intros; apply Hsub. by right. }
  destruct (goes n) eqn:Eg; [|apply IH; [done|]; intros; apply Hsub; by right]. constructor; [|apply IH; [done|]; intros; apply Hsub; by right].
  rewrite list_elem_of_omap. intros (d' & Hd' & E). destruct (cells (entries s) !! d') as [n'|] eqn:En'; [|done]. simpl in E. destruct (goes n') eqn:Eg'; [|done]. injection E as E.
  apply andb_true_iff in Eg as [_ Es], Eg' as [_ Es']. apply negb_true_iff in Es, Es'.
  destruct (dep_live d n ltac:(apply Hsub; left) En Es) as (k & i & L & _). destruct (dep_live d' n' ltac:(apply Hsub; by right) En' Es') as (k' & i' & L' & _).
  destruct (live_inst _ _ _ _ _ _ _ _ _ L' L E) as (_ & -> & _). done.
Qed.

Lemma woke_live k d n' i' : live (woke s p np) k d n' i' →
  ∃ n, live s k d n i' ∧ inst n' = inst n ∧ regsReady_ n' = regsReady_ n ∧
    (d ∉ dependInsts np → memDepReady n' = memDepReady n) ∧ (d ∈ dependInsts np → regsReady_ n = false → memDepReady n' = true) ∧
    NoDup (dependInsts n').
Proof.
  intros (L1 & L2 & L3 & L4). rewrite woke_cell in L2. destruct (decide (d = p)) as [->|Hne].
  - injection L2 as <-. exists np. destruct Lp as (P1 & P2 & P3 & P4). split_and!; try done; [|constructor]. intros Hd. by destruct dep_self.
  - destruct (cells (entries s) !! d) as [n|] eqn:En; [|done]. simpl in L2. injection L2 as <-. exists n.
    assert (Ei : inst (if decide (d ∈ dependInsts np) then wake n else n) = inst n) by (destruct (decide _); [apply wake_sk|done]). rewrite Ei in L3.
    assert (L : live s k d n i') by (by split_and!). split_and!; try done.
    + destruct (decide _); [apply wake_sk|done].
    + intros Hd. by rewrite decide_False.
    + intros Hd Hr. rewrite decide_True by done. unfold wake, goes. by rewrite Hr.
    + pose proof (m_nodup _ _ _ _ _ (o_d _ _ _ _ _ _ Ho) _ _ _ _ L). destruct (decide _); [|done]. by destruct (wake_sk n) as (_ & -> & _).
Qed.

Lemma woke_dinv : dinv (woke s p np) (h_spec g) (h_seen g) (base ++ handed s (dependInsts np)) (h_rep g).
Proof.
  pose proof (o_d _ _ _ _ _ _ Ho) as [D1 D2 D3 D4 (R1 & R2 & R3)]. pose proof woke_skel as K. split.
  - intros d k q W. apply woke_waits in W as [W Hq]. destruct (D1 _ _ _ W) as [(n & i & L & Hwk) (nd & Hnd & Hlive)]. split.
    + destruct (skel_live _ _ _ _ _ _ K L) as (n' & i' & L' & _ & _ & _ & _ & _ & E). exists n', i'. by rewrite E.
    + pose proof (k_cells _ _ K d) as Kc. rewrite Hnd in Kc. destruct (cells (entries (woke s p np)) !! d) as [nd'|] eqn:Hnd'; [|done]. injection Kc as Kc1 Kc2.
      exists nd'. split; [done|]. rewrite Kc1, Kc2. intros Hsq. destruct (Hlive Hsq) as (kd & id & Ld & Hlt & Hin).
      destruct (skel_live _ _ _ _ _ _ K Ld) as (n' & i' & L' & _). exists kd, i'. split_and!; try done. destruct L' as (X1 & X2 & X3 & X4).
      rewrite Hnd' in X2. injection X2 as <-. done.
  - intros k q n' i' L. by destruct (woke_live _ _ _ _ L) as (n & _ & _ & _ & _ & _ & ?).
  - intros d k q k' q' W W'. apply woke_waits in W as [W _], W' as [W' _]. by eapply D3.
  - intros k d n' i' L Hin. destruct (woke_live _ _ _ _ L) as (n & L0 & Ei & Er & Em & Em' & _). rewrite Ei, Er in *. rewrite woke_waiting.
    destruct (D4 _ _ _ _ L0 Hin) as (Hb & Hm & Hw). rewrite elem_of_app, handed_in. destruct (decide (d ∈ dependInsts np)) as [Hd|Hd].
    + assert (Hwt : waiting s d) by (exists sn, p; by apply dep_waits). split_and!; [|naive_solver|naive_solver]. rewrite Hb. split; [|naive_solver].
      intros [[? ?]|(d' & m & k' & j & Hd' & L' & E & Hr & _)]; [done|]. destruct (live_inst _ _ _ _ _ _ _ _ _ L' L0 E) as (_ & _ & ->). naive_solver.
    + rewrite (Em Hd). split_and!; [|naive_solver|naive_solver]. rewrite Hb. split; [|naive_solver].
      intros [[? ?]|(d' & m & k' & j & Hd' & L' & E & Hr & _)]; [naive_solver|]. destruct (live_inst _ _ _ _ _ _ _ _ _ L' L0 E) as (_ & -> & _). done.
  - split_and!.
    + simpl. rewrite R1, <-!(assoc_L (++)). f_equiv. apply Permutation_app_comm.
    + apply NoDup_app. split_and!; [done| |apply handed_nodup]. intros x Hx (d & n & k & i & Hd & L & E & Hr & Hin)%handed_in.
      destruct (D4 _ _ _ _ L Hin) as ([Hb _] & _ & _). rewrite E in Hb. destruct (Hb Hx) as [_ Hw]. apply Hw. exists sn, p. by apply dep_waits.
    + intros x [[Hx|(d & n & k & i & Hd & L & <- & Hr & Hin)%handed_in]%elem_of_app|Hx]; apply R3; by auto.
Qed.

Lemma woke_okl : okl tid (woke s p np) l S (base ++ handed s (dependInsts np)) g.
Proof.
  split; [apply (skel_sinv _ s); [apply woke_skel|by destruct Ho]|apply woke_dinv|]. intros x Hx. apply elem_of_app. left. by apply (o_rep _ _ _ _ _ _ Ho).
Qed.

Lemma wakeDependents_eq : wakeDependents s (inst np) = Ok (if wakes ip then woke s p np else s) ∧ (wakes ip = false → dependInsts np = []).
Proof.
  pose proof Lp as (L1 & L2 & L3 & L4). unfold wakeDependents, deref. rewrite L3. cbn [mbind res_bind].
  assert (negb (isStore ip) && negb (isMemBarrier ip) && negb (isWriteBarrier ip) = negb (wakes ip)) as ->.
  { unfold wakes. by destruct (isStore ip), (isMemBarrier ip), (isWriteBarrier ip). }
  split.
  - destruct (wakes ip); [|done]. simpl negb. cbv iota. rewrite (findInHash_eq _ _ _ _ _ Lp). cbn [mbind res_bind]. rewrite (heap_deref_cell _ _ _ L2). cbn [mbind res_bind].
    rewrite wake_loop_eq.
    + cbn [mbind res_bind]. apply upd_entry_eq. simpl. rewrite wake_all_lookup, L2. simpl. by rewrite decide_False by apply dep_self.
    + apply Forall_forall. intros d Hd%dep_waits. destruct (m_dep _ _ _ _ _ (o_d _ _ _ _ _ _ Ho) _ _ _ Hd) as [_ (nd & -> & _)]. by eexists.
  - intros Hw. destruct (dependInsts np) as [|d ds] eqn:Ed; [done|]. assert (W : waits_for s d sn p) by (apply dep_waits; rewrite Ed; left).
    destruct (m_dep _ _ _ _ _ (o_d _ _ _ _ _ _ Ho) _ _ _ W) as [(n & i & L & Hwk) _]. destruct (live_fun _ _ _ _ _ _ _ _ L Lp) as (_ & _ & ->). congruence.
Qed.
End woke.

(** ** An entry leaves *)
Section drop.
Context (tid : Z) (s : t P) (l : list (positive * positive)) (S : gset Z) (base : list positive) (g : hist).
Context (Ho : okl tid s l S base g) (sn : Z) (e : positive) (n : MemDepEntry) (i : DynInst) (L : live s sn e n i).
(** The cells may change at the entry, which is then squashed. *)
Context (c : gmap positive MemDepEntry) (Hc : ∀ d, d ≠ e → c !! d = cells (entries s) !! d).
Context (He : (c !! e = Some n ∧ ¬ waiting s e) ∨ c !! e = Some (set_squashed n)).

Definition dropped : t P := with_hash (with_entries s (Heap c (next (entries s)))) (delete sn (memDepHash s)).

Lemma dropped_addr k d : k ≠ sn → memDepHash s !! k = Some d → d ≠ e.
Proof. intros Hk Hd ->. destruct Hk. by apply (addr_sn _ _ _ _ _ _ _ _ _ _ _ (o_s _ _ _ _ _ _ Ho) L). Qed.

Lemma dropped_live k d m j : live dropped k d m j ↔ live s k d m j ∧ k ≠ sn.
Proof.
  unfold live. simpl. destruct (decide (k = sn)) as [->|Hk].
  - rewrite lookup_delete_eq. naive_solver.
  - rewrite lookup_delete_ne by done. split; [intros (L1 & L2 & L3)|intros [(L1 & L2 & L3) _]].
    + rewrite Hc in L2 by (by eapply dropped_addr). done.
    + rewrite Hc by (by eapply dropped_addr). done.
Qed.

Lemma dropped_waits d k q : waits_for dropped d k q ↔ waits_for s d k q ∧ k ≠ sn.
Proof.
  unfold waits_for. simpl. destruct (decide (k = sn)) as [->|Hk].
  - rewrite lookup_delete_eq. naive_solver.
  - rewrite lookup_delete_ne by done. split; [intros (L1 & L2)|intros [(L1 & L2) _]].
    + rewrite Hc in L2 by (by eapply dropped_addr). done.
    + rewrite Hc by (by eapply dropped_addr). done.
Qed.

Lemma dropped_sinv l' :
  (∀ q, q ∈ l' ↔ q ∈ l ∧ q.1 ≠ e) → StronglySorted (λ q r, from_option seqNum 0 (insts s !! q.2) < from_option seqNum 0 (insts s !! r.2)) l' → inst n ∉ instsToReplay s →
  sinv tid (with_list dropped (<[Z.to_nat tid := l']> (instList s))) l' S (h_hi g) (h_seen g).
Proof.
  intros Hl Hsort Hr. destruct (o_s _ _ _ _ _ _ Ho) as [[T0 H1] H2 H3 H4 H5 (H6 & H6b & H6c) [H7 H7b] [H8 H8b] H9].
  assert (Hlv : ∀ k d m j, live (with_list dropped (<[Z.to_nat tid := l']> (instList s))) k d m j ↔ live s k d m j ∧ k ≠ sn) by exact dropped_live.
  split; simpl.
  - split; [done|]. apply list_lookup_insert_eq. by eapply lookup_lt_Some.
  - intros d [m Hm]. apply H2. destruct (decide (d = e)) as [->|Hne]; [destruct L as (_ & -> & _); by eexists|]. rewrite Hc in Hm by done. by eexists.
  - intros k d Hk. apply lookup_delete_Some in Hk as [Hk Hd]. destruct (H3 _ _ Hd) as (m & j & Lm & ? & ?). exists m, j. split; [apply Hlv; auto|].
    split; [|done]. apply Hl. split; [done|]. by eapply dropped_addr.
  - intros d x Hd. apply Hl in Hd as [Hd Hne]. destruct (H4 _ _ Hd) as (m & j & Lm & ?). exists m, j. split; [|done]. apply Hlv. split; [done|].
    intros E. destruct Lm as (M1 & _), L as (L1 & _). simpl in Hne. congruence.
  - done.
  - split_and!; [done|done|]. intros k d m j Hk [Lm _]%Hlv. by eapply H6c.
  - split; [done|]. intros Hb d m j [Lm _]%Hlv. by eapply H7b.
  - split; [done|]. intros Hb d m j [Lm _]%Hlv. by eapply H8b.
  - intros x Hx. destruct (H9 x Hx) as (d & m & j & Lm & E). exists d, m, j. split; [|done]. apply Hlv. split; [done|]. intros E'. rewrite E' in Lm.
    destruct (live_fun _ _ _ _ _ _ _ _ Lm L) as (_ & -> & _). congruence.
Qed.

Lemma dropped_dinv :
  (∀ d nd, waits_for s d sn e → cells (entries s) !! d = Some nd → squashed nd = true) → dinv dropped (h_spec g) (h_seen g) base (h_rep g).
Proof.
  intros Hq. destruct (o_d _ _ _ _ _ _ Ho) as [D1 D2 D3 D4 D5]. split; [| | | |done].
  - intros d k q [W Hk]%dropped_waits. destruct (D1 _ _ _ W) as [(m & j & Lm & Hwk) (nd & Hnd & Hlive)]. split; [exists m, j; split; [by apply dropped_live|done]|].
    destruct (decide (d = e)) as [->|Hne].
    + destruct He as [[_ Hnw]|Hs]; [destruct Hnw; by exists k, q|]. exists (set_squashed n). by split.
    + exists nd. simpl. rewrite Hc by done. split; [done|]. intros Hsq. destruct (Hlive Hsq) as (kd & id & Ld & Hlt & Hin). exists kd, id. split_and!; try done.
      apply dropped_live. split; [done|]. intros ->. destruct Ld as (X1 & _), L as (L1 & _). congruence.
  - intros k q m j [Lm _]%dropped_live. by eapply D2.
  - intros d k q k' q' [W _]%dropped_waits [W' _]%dropped_waits. by eapply D3.
  - intros k d m j [Lm Hk]%dropped_live Hin. assert (Hw : waiting dropped d ↔ waiting s d).
    { unfold waiting. setoid_rewrite dropped_waits. split; [naive_solver|]. intros (k' & q & W). exists k', q. split; [done|]. intros ->.
      assert (q = e) as -> by (destruct W as (W1 & _), L as (L1 & _); congruence). pose proof Lm as (_ & M2 & _).
      destruct (live_unsquashed _ _ _ _ _ _ _ _ _ _ (o_s _ _ _ _ _ _ Ho) Lm) as (Hs & _). pose proof (Hq _ _ W M2). congruence. }
    rewrite Hw. by eapply D4.
Qed.
End drop.

(** ** Completion *)
Lemma sorted_filter {A} (R : relation A) (Q : A → Prop) `{∀ x, Decision (Q x)} (k : list A) : StronglySorted R k → StronglySorted R (filter Q k).
Proof.
  induction 1 as [|x k Hk IH Hx]; [constructor|]. rewrite filter_cons. destruct (decide (Q x)); [|done]. constructor; [done|].
  rewrite Forall_forall in *. intros y [_ Hy]%list_elem_of_filter. by apply Hx.
Qed.

Lemma handed_not_waiting tid s l S base g sn e n i :
  okl tid s l S base g → live s sn e n i → inst n ∈ ready s ∨ inst n ∉ h_spec g → ¬ waiting s e.
Proof.
  intros Ho L Hr (k & q & W). pose proof (o_d _ _ _ _ _ _ Ho) as [D1 _ _ D4 _]. destruct (D1 _ _ _ W) as [_ (nd & Hnd & Hlive)].
  destruct (live_unsquashed _ _ _ _ _ _ _ _ _ _ (o_s _ _ _ _ _ _ Ho) L) as (Hs & _). pose proof L as (_ & L2 & _). assert (nd = n) as -> by congruence.
  destruct (Hlive Hs) as (_ & _ & _ & _ & Hin). destruct Hr as [Hr|]; [|done]. rewrite (okl_handed _ _ _ _ _ _ _ Ho) in Hr.
  apply (D4 _ _ _ _ L Hin) in Hr as [_ Hr]. apply Hr. by exists k, q.
Qed.

Lemma completed_okl tid s l S base g sn e n i :
  okl tid s l S base g → live s sn e n i → ¬ waiting s e → dependInsts n = [] → inst n ∉ instsToReplay s →
  ∃ s' l', completed s (inst n) = Ok s' ∧ okl tid s' l' S base g ∧
    s' = with_hash (with_list s (<[Z.to_nat tid := l']> (instList s))) (delete sn (memDepHash s)).
Proof.
  intros Ho L Hnw Hd Hr. pose proof (o_s _ _ _ _ _ _ Ho) as Hs. pose proof L as (L1 & L2 & L3 & L4). pose proof (m_tid _ _ _ _ _ _ Hs) as [T0 Hl].
  destruct (live_unsquashed _ _ _ _ _ _ _ _ _ _ Hs L) as (_ & _ & Hin & Ht & _). unfold completed, deref. rewrite L3. cbn [mbind res_bind]. rewrite L4, L1, (heap_deref_cell _ _ _ L2), Ht.
  cbn [mbind res_bind]. rewrite (vget_in _ _ _ T0 Hl). cbn [mbind res_bind]. unfold erase_node.
  assert (existsb (λ q, bool_decide (q.1 = e)) l = true) as ->.
  { apply existsb_exists. exists (e, inst n). split; [by apply list_elem_of_In|by apply bool_decide_eq_true]. }
  cbn [mbind res_bind]. rewrite vset_in by (apply lookup_lt_Some in Hl; unfold vlen; lia). set (l' := filter _ l). cbn [mbind res_bind]. do 2 eexists. split_and!; [done| |done].
  assert (Hc : ∀ d, d ≠ e → cells (entries s) !! d = cells (entries s) !! d) by done.
  split; [|eapply (dinv_same (dropped s sn (cells (entries s))));
    [..|eapply (dropped_dinv tid s l S base g Ho sn e n i L _ Hc)]; try done|exact (o_rep _ _ _ _ _ _ Ho)].
  - eapply (skel_sinv _ (with_list (dropped s sn (cells (entries s))) (<[Z.to_nat tid := l']> (instList s)))); [by split|].
    apply (dropped_sinv tid s l S base g Ho sn e n i L _ Hc); [|by apply sorted_filter, (m_sorted _ _ _ _ _ _ Hs)|done].
    intros q. unfold l'. rewrite list_elem_of_filter. naive_solver.
  - simpl. by destruct (entries s).
  - by left.
  - intros d nd (_ & m & Hm & Hdm) _. assert (m = n) as -> by congruence. rewrite Hd in Hdm. by apply elem_of_nil in Hdm.
Qed.

Lemma gone_waiting s sn e n d ls :
  memDepHash s !! sn = Some e → cells (entries s) !! e = Some n → dependInsts n = [] →
  waiting (with_hash (with_list s ls) (delete sn (memDepHash s))) d ↔ waiting s d.
Proof.
  intros H1 H2 H3. unfold waiting, waits_for. simpl. split.
  - intros (k & q & Hk & Hq). apply lookup_delete_Some in Hk as [_ Hk]. by exists k, q.
  - intros (k & q & Hk & m & Hm & Hd). exists k, q. split; [|by exists m]. rewrite lookup_delete_ne; [done|]. intros ->.
    assert (q = e) as -> by congruence. assert (m = n) as -> by congruence. rewrite H3 in Hd. by apply elem_of_nil in Hd.
Qed.

Lemma complete_okl tid s l S base g sn e n i :
  okl tid s l S base g → live s sn e n i → inst n ∈ ready s ∨ inst n ∉ h_spec g → inst n ∉ instsToReplay s →
  ∃ s' l' base', complete s (inst n) = Ok s' ∧ okl tid s' l' S base' g ∧ insts s' = insts s ∧ memDepHash s' = delete sn (memDepHash s) ∧
    ready s' = ready s ++ handed s (dependInsts n) ∧ ∀ d, waiting s' d ↔ waiting s d ∧ d ∉ dependInsts n.
Proof.
  intros Ho L Hr Hrep. pose proof (handed_not_waiting _ _ _ _ _ _ _ _ _ _ Ho L Hr) as Hnw.
  destruct (wakeDependents_eq _ _ _ _ _ _ Ho _ _ _ _ L) as [E Hd]. unfold complete. rewrite E. cbn [mbind res_bind]. destruct (wakes i).
  - destruct L as (L1 & L2 & L3 & L4). assert (L' : live (woke s e n) sn e (clear_dependents n) i).
    { unfold live. rewrite woke_cell, decide_True by done. done. }
    destruct (completed_okl _ _ _ _ _ _ _ _ _ _ (woke_okl _ _ _ _ _ _ Ho sn e n i ltac:(by split_and!)) L') as (s' & l' & E' & Ho' & ->); try done.
    { rewrite (woke_waiting _ _ _ _ _ _ Ho sn e n i ltac:(by split_and!)). naive_solver. }
    do 3 eexists. split_and!; [done..|]. intros d. rewrite <-(woke_waiting _ _ _ _ _ _ Ho sn e n i) by (by split_and!). apply (gone_waiting (woke s e n) sn e (clear_dependents n)); by destruct L' as (? & ? & _).
  - rewrite (Hd eq_refl). destruct (completed_okl _ _ _ _ _ _ _ _ _ _ Ho L Hnw (Hd eq_refl) Hrep) as (s' & l' & E' & Ho' & ->).
    do 3 eexists. split_and!; [done..|simpl; by rewrite app_nil_r|]. intros d. destruct L as (L1 & L2 & _). rewrite (gone_waiting s sn e n d _ L1 L2 (Hd eq_refl)). set_solver.
Qed.

Lemma complete_spec tid s g sn e n i :
  ok tid s g → live s sn e n i → inst n ∈ ready s ∨ inst n ∉ h_spec g → inst n ∉ instsToReplay s → ∃ s', complete s (inst n) = Ok s' ∧ ok tid s' g.
Proof.
  intros (l & S & base & Ho) L Hr Hrep. destruct (complete_okl _ _ _ _ _ _ _ _ _ _ Ho L Hr Hrep) as (s' & l' & base' & E & Ho' & _). exists s'. split; [done|]. by exists l', S, base'.
Qed.

Lemma okl_clear tid s l S base g (a b : bool) :
  okl tid s l S base g →
  okl tid (let s := if a then with_load_barrier s false (loadBarrierSN s) else s in if b then with_store_barrier s false (storeBarrierSN s) else s) l S base g.
Proof.
  intros Ho. pose proof (o_s _ _ _ _ _ _ Ho) as Hs. destruct (m_load _ _ _ _ _ _ Hs), (m_store _ _ _ _ _ _ Hs).
  destruct a, b; [..|done].
  - by apply (okl_barriers tid s l S base g false (loadBarrierSN s) false (storeBarrierSN s)).
  - by apply (okl_barriers tid s l S base g false (loadBarrierSN s) (storeBarrier s) (storeBarrierSN s)).
  - by apply (okl_barriers tid s l S base g (loadBarrier s) (loadBarrierSN s) false (storeBarrierSN s)).
Qed.

Lemma completeBarrier_spec tid s g sn e n i :
  ok tid s g → live s sn e n i → inst n ∉ h_spec g → inst n ∉ instsToReplay s → ∃ s', completeBarrier s (inst n) = Ok s' ∧ ok tid s' g.
Proof.
  intros (l & S & base & Ho) L Hr Hrep. destruct (complete_okl _ _ _ _ _ _ _ _ _ _ Ho L (or_intror Hr) Hrep) as (s' & l' & base' & E & Ho' & Hi & _ & _).
  unfold completeBarrier. unfold complete in E. destruct (wakeDependents s (inst n)) as [s1|]; [|done]. cbn [mbind res_bind] in *. rewrite E. cbn [mbind res_bind].
  unfold deref. rewrite Hi. pose proof L as (_ & _ & -> & _). cbn [mbind res_bind].
  assert (Hk : ∀ a b : bool, ok tid (let s := if a then with_load_barrier s' false (loadBarrierSN s') else s' in if b then with_store_barrier s false (storeBarrierSN s) else s) g).
  { intros a b. exists l', S, base'. by apply okl_clear. }
  destruct (isMemBarrier i); [|destruct (isWriteBarrier i)]; eexists; (split; [done|]); [exact (Hk _ _)|exact (Hk false _)|exact (Hk false false)].
Qed.

(** ** Squash *)
Lemma squash_replays_spec s num tid k :
  (∀ x, x ∈ k → is_Some (insts s !! x)) →
  ∃ r, squash_replays s num tid k = Ok r ∧ ∀ x, x ∈ r ↔ x ∈ k ∧ ∃ i, insts s !! x = Some i ∧ (threadNumber i = tid → seqNum i ≤ num).
Proof.
  induction k as [|x k IH]; intros Hk; [exists []; split; [done|]; set_solver|].
  destruct (Hk x ltac:(left)) as [i Hi]. destruct IH as (r & Er & Hr); [intros y Hy; apply Hk; by right|]. simpl. unfold deref. rewrite Hi. cbn [mbind res_bind]. rewrite Er. cbn [mbind res_bind].
  eexists. split; [done|]. intros y. destruct (_ && _) eqn:E.
  - apply andb_true_iff in E as [E1%Z.eqb_eq E2%Z.ltb_lt]. rewrite Hr, elem_of_cons. split; [naive_solver|]. intros [[->|Hy] (j & Hj & Hle)]; [|naive_solver].
    assert (j = i) as -> by congruence. specialize (Hle E1). lia.
  - rewrite !elem_of_cons, Hr. split; [|naive_solver]. intros [->|]; [|naive_solver]. split; [by left|]. exists i. split; [done|]. intros Ht.
    rewrite Ht, Z.eqb_refl in E. apply Z.ltb_ge in E. done.
Qed.

Section squash.
Context (tid num : Z).
Definition relist s (l : list (positive * positive)) : t P := with_list s (<[Z.to_nat tid := l]> (instList s)).

(** The youngest entry goes: what waits for it has gone before. *)
Lemma drop_youngest s k S base g e x :
  okl tid (relist s (k ++ [(e, x)])) (k ++ [(e, x)]) S base g → x ∉ instsToReplay s →
  ∃ n i, live s (seqNum i) e n i ∧ inst n = x ∧ (∀ sn d, memDepHash s !! sn = Some d → sn ≤ seqNum i) ∧
    okl tid (relist (dropped s (seqNum i) (<[e := set_squashed n]> (cells (entries s)))) k) k S base g.
Proof.
  intros Ho Hx. pose proof (o_s _ _ _ _ _ _ Ho) as Hs. pose proof (m_sorted _ _ _ _ _ _ Hs) as Hsort.
  destruct (m_list _ _ _ _ _ _ Hs e x) as (n & i & L & <-); [set_solver|]. exists n, i. pose proof L as (L1 & L2 & L3 & L4).
  assert (Hold : ∀ q, q ∈ k → from_option seqNum 0 (insts s !! q.2) < seqNum i).
  { intros q Hq. pose proof (StronglySorted_app_1_elem_of _ _ _ q (e, inst n) Hsort Hq ltac:(left)) as R. simpl in R, L3. rewrite L3 in R. done. }
  assert (Hle : ∀ sn d m j, live (relist s (k ++ [(e, inst n)])) sn d m j → d = e ∨ sn < seqNum i).
  { intros sn d m j Lm. destruct (live_unsquashed _ _ _ _ _ _ _ _ _ _ Hs Lm) as (_ & _ & Hin & _). apply elem_of_app in Hin as [Hin|Hin].
    - right. specialize (Hold _ Hin). destruct Lm as (_ & _ & M3 & <-). simpl in Hold, M3. by rewrite M3 in Hold.
    - left. apply list_elem_of_singleton in Hin. by injection Hin. }
  split_and!; [done|done| |].
  { intros sn d Hd. destruct (m_hash _ _ _ _ _ _ Hs sn d Hd) as (m & j & Lm & _). destruct (Hle _ _ _ _ Lm) as [->|]; [|lia].
    rewrite (addr_sn _ _ _ _ _ _ _ _ _ _ _ Hs L Hd). lia. }
  set (c := <[e := set_squashed n]> (cells (entries s))). assert (Hc : ∀ d, d ≠ e → c !! d = cells (entries s) !! d) by (intros d Hd; unfold c; by rewrite lookup_insert_ne).
  assert (He : c !! e = Some (set_squashed n)) by apply lookup_insert_eq. split.
  - assert (Hk : sinv tid (with_list (dropped (relist s (k ++ [(e, inst n)])) (seqNum i) c) (<[Z.to_nat tid := k]> (instList (relist s (k ++ [(e, inst n)]))))) k S (h_hi g) (h_seen g)).
    { apply (dropped_sinv tid _ _ S base g Ho (seqNum i) e n i L c Hc); [|by apply StronglySorted_app_1_l in Hsort|done].
      intros [d y]. rewrite elem_of_app, list_elem_of_singleton. split; [|naive_solver]. intros Hq. split; [by left|]. simpl. intros ->.
      destruct (m_list _ _ _ _ _ _ Hs e y ltac:(set_solver)) as (m & j & (_ & M2 & M3 & _) & <-). simpl in M2, M3. specialize (Hold _ Hq). simpl in Hold, L2. rewrite L2 in M2. injection M2 as <-. simpl in L3.
      rewrite L3 in Hold. simpl in Hold. lia. }
    simpl in Hk. rewrite list_insert_insert_eq in Hk. exact Hk.
  - eapply dinv_same; [..|eapply (dropped_dinv tid _ _ S base g Ho (seqNum i) e n i L c Hc (or_intror He))]; try done.
    intros d nd W Hnd. destruct (squashed nd) eqn:Hsq; [done|]. destruct (m_dep _ _ _ _ _ (o_d _ _ _ _ _ _ Ho) _ _ _ W) as [_ (nd' & Hnd' & Hlive)].
    assert (nd' = nd) as -> by congruence. destruct (Hlive Hsq) as (sd & id & Ld & Hlt & _). destruct (Hle _ _ _ _ Ld) as [->|]; [|lia].
    pose proof (addr_sn _ _ _ _ _ _ _ _ _ _ _ Hs L (proj1 Ld)). lia.
  - exact (o_rep _ _ _ _ _ _ Ho).
Qed.

Lemma squash_list_spec k s S base g :
  okl tid (relist s (rev k)) (rev k) S base g → (∀ x i, x ∈ instsToReplay s → insts s !! x = Some i → seqNum i ≤ num) →
  ∃ s' k', squash_list s num k = Ok (s', k') ∧ okl tid (relist s' (rev k')) (rev k') S base g ∧ instList s' = instList s ∧ insts s' = insts s ∧ ready s' = ready s ∧
    (∀ sn e, memDepHash s' !! sn = Some e ↔ memDepHash s !! sn = Some e ∧ sn ≤ num) ∧
    (loadBarrier s = false ∨ (num < loadBarrierSN s ∧ is_Some (memDepHash s !! loadBarrierSN s)) → loadBarrier s' = false).
Proof.
  revert s. induction k as [|[e x] k IH]; intros s Ho Hr.
  - assert (Hno : ∀ sn e, memDepHash s !! sn ≠ Some e).
    { intros sn e He. destruct (m_hash _ _ _ _ _ _ (o_s _ _ _ _ _ _ Ho) sn e He) as (n & i & _ & Hin & _). by apply elem_of_nil in Hin. }
    exists s, []. split_and!; try done; [naive_solver|]. intros [?|[_ [e He]]]; [done|]. by destruct (Hno _ _ He).
  - cbn [squash_list]. destruct (m_list _ _ _ _ _ _ (o_s _ _ _ _ _ _ Ho) e x) as (n & i & L & Ex); [simpl; set_solver|]. pose proof L as (L1 & L2 & L3 & L4). rewrite Ex in L3.
    simpl in L3. unfold deref. rewrite L3. cbn [mbind res_bind]. destruct (num <? seqNum i) eqn:Elt.
    + apply Z.ltb_lt in Elt. set (s1 := if seqNum i =? loadBarrierSN s then _ else s). set (s0 := if seqNum i =? storeBarrierSN s1 then _ else s1).
      assert (Ho0 : okl tid (relist s0 (rev k ++ [(e, x)])) (rev k ++ [(e, x)]) S base g).
      { pose proof (okl_clear _ _ _ _ _ _ (seqNum i =? loadBarrierSN s) (seqNum i =? storeBarrierSN s1) Ho) as Hcl. unfold s0, s1 in *. clear -Hcl.
        destruct (seqNum i =? loadBarrierSN s); simpl in *; destruct (seqNum i =? storeBarrierSN s); exact Hcl. }
      assert (Hsame : entries s0 = entries s ∧ memDepHash s0 = memDepHash s ∧ insts s0 = insts s ∧ instsToReplay s0 = instsToReplay s ∧ instList s0 = instList s ∧ ready s0 = ready s).
      { unfold s0, s1. repeat case_match; done. }
      destruct Hsame as (E1 & E2 & E3 & E4 & E5 & E6).
      destruct (drop_youngest s0 (rev k) S base g e x Ho0) as (n' & i' & (M1 & M2 & M3 & _) & Ex' & Hmax & Ho').
      { rewrite E4. intros Hx. specialize (Hr x i Hx L3). lia. }
      rewrite Ex', E3, L3 in M3. injection M3 as <-. rewrite M1. rewrite (upd_entry_eq s0 e _ _ M2). cbn [mbind res_bind].
      destruct (IH (dropped s0 (seqNum i) (<[e := set_squashed n']> (cells (entries s0))))) as (s' & k' & Es & Hos & EL & EI & ER & Hh & Hb).
      { exact Ho'. }
      { simpl. rewrite E3, E4. exact Hr. }
      exists s', k'. split_and!; [exact Es|done|by rewrite EL|by rewrite EI|by rewrite ER| |].
      { intros sn d. rewrite Hh. simpl. rewrite lookup_delete_Some, E2. split; [naive_solver|]. intros [? ?]. split_and!; try done. lia. }
      intros Hcase. apply Hb. simpl. assert (loadBarrierSN s0 = loadBarrierSN s ∧ loadBarrier s0 = (if seqNum i =? loadBarrierSN s then false else loadBarrier s)) as [-> ->]
        by (unfold s0, s1; repeat case_match; done). rewrite E2. destruct (Z.eqb_spec (seqNum i) (loadBarrierSN s)) as [|Hne]; [by left|].
      destruct Hcase as [|[? ?]]; [by left|]. right. by rewrite lookup_delete_ne.
    + apply Z.ltb_ge in Elt.
      assert (Hall : ∀ sn d, memDepHash s !! sn = Some d → sn ≤ num).
      2:{ exists s, ((e, x) :: k). split_and!; try done; [naive_solver|]. intros [?|[? [d Hd]]]; [done|]. specialize (Hall _ _ Hd). lia. }
      intros sn d Hd.
      assert (Hnum : ∀ q, q ∈ rev ((e, x) :: k) → from_option seqNum 0 (insts s !! q.2) ≤ seqNum i).
      { simpl. intros q [Hq|Hq]%elem_of_app; [|apply list_elem_of_singleton in Hq as ->; simpl; rewrite L3; simpl; lia].
        pose proof (m_sorted _ _ _ _ _ _ (o_s _ _ _ _ _ _ Ho)) as Hsort.
        pose proof (StronglySorted_app_1_elem_of _ _ _ q (e, x) Hsort Hq ltac:(left)) as R. simpl in R. rewrite L3 in R. simpl in R. lia. }
      destruct (m_hash _ _ _ _ _ _ (o_s _ _ _ _ _ _ Ho) sn d Hd) as (m & j & (_ & _ & M3 & M4) & Hin & _). specialize (Hnum _ Hin). simpl in Hnum, M3. rewrite M3 in Hnum. simpl in Hnum. lia.
Qed.

Lemma md_squash_spec s g :
  ok tid s g → ∃ s', squash s num tid = Ok s' ∧ ok tid s' g ∧ ready s' = ready s ∧
    (∀ sn e, memDepHash s' !! sn = Some e ↔ memDepHash s !! sn = Some e ∧ sn ≤ num) ∧ insts s' = insts s ∧
    (num < loadBarrierSN s → is_Some (memDepHash s !! loadBarrierSN s) → loadBarrier s' = false).
Proof.
  intros (l & S & base & Ho). pose proof (o_s _ _ _ _ _ _ Ho) as Hs. pose proof (m_tid _ _ _ _ _ _ Hs) as [T0 Hl]. unfold squash.
  destruct (squash_replays_spec s num tid (instsToReplay s)) as (r & -> & Hr).
  { intros x Hx. destruct (m_replay _ _ _ _ _ _ Hs x Hx) as (e & n & i & (_ & _ & L3 & _) & <-). by eexists. }
  cbn [mbind res_bind]. simpl instList. rewrite (vget_in _ _ _ T0 Hl). cbn [mbind res_bind].
  assert (Hil : <[Z.to_nat tid := l]> (instList s) = instList s) by (by apply list_insert_id).
  destruct (squash_list_spec (rev l) (with_replay s r) S base g) as (s' & k & -> & Ho' & EL & EI & ER & Hh & Hb).
  { rewrite rev_involutive. unfold relist. simpl. rewrite Hil. destruct Ho as [[] D Hrep]. split; [split; try done| |].
    - simpl. intros x [Hx _]%Hr. by auto.
    - by apply (dinv_same s).
    - simpl. intros x [Hx|[Hx _]%Hr]; apply Hrep; by auto. }
  { simpl. intros x i [Hx (j & Hj & Hle)]%Hr Hi. assert (j = i) as -> by congruence. apply Hle.
    destruct (m_replay _ _ _ _ _ _ Hs x Hx) as (e & n & i' & L & <-). destruct (live_unsquashed _ _ _ _ _ _ _ _ _ _ Hs L) as (_ & _ & _ & Ht & _).
    destruct L as (_ & _ & L3 & _). rewrite Hi in L3. by injection L3 as <-. }
  cbn [mbind res_bind]. rewrite vset_in by (rewrite EL; simpl; apply lookup_lt_Some in Hl; unfold vlen; lia). cbn [mbind res_bind].
  pose proof (m_pred _ _ _ _ _ _ (o_s _ _ _ _ _ _ Ho')) as (Hp & _). destruct (dp_squash_ok _ _ num tid Hp) as (p & Ep & Hp').
  change (depPred (with_list s' (<[Z.to_nat tid := rev k]> (instList s')))) with (depPred (relist s' (rev k))). rewrite Ep. cbn [mbind res_bind].
  eexists. split_and!; [done| |exact ER|exact Hh|exact EI|intros ? ?; apply Hb; by right]. exists (rev k), S, base. by apply okl_pred.
Qed.
End squash.
End done.
End MemDepDone.
