(* ===== verification/MemDepSpec.v ===== *)
(** * The memory dependence unit: theorems

    Sessions of calls that the instruction queue may make, and what the unit ensures of
    them for every predictor that keeps the laws; the store sets keep them. *)

From stdpp Require Import sorting.
From S2P Require Import Prelude IntMath StoreSet MemDep MemDepInv MemDepOps MemDepDone.

(** ** The store sets name only stores that were inserted *)
Module StoreSetLaws.
Import StoreSet.

Record inv (s : t) (S : gset Z) : Prop := {
  i_wf : wf s;
  i_last : ∀ j sn, validLFST s !! j = Some true → LFST s !! j = Some sn → sn ∈ S;
  i_list : ∀ p, p ∈ storeList s → p.1 ∈ S
}.

Lemma inv_mono s S S' : inv s S → S ⊆ S' → inv s S'.
Proof. intros [] Hsub. split; [done|naive_solver|naive_solver]. Qed.

Lemma inv_check s S PC : inv s S → ∃ n, checkInst s PC = Ok n ∧ (n = 0 ∨ n ∈ S).
Proof.
  intros [Hw Hl _]. rewrite (checkInst_eq _ _ Hw). eexists. split; [done|]. destruct (set_of s PC) as [i|]; [|by left].
  destruct (validLFST s !! Z.to_nat i) as [[]|] eqn:Ev; [|by left..]. destruct (LFST s !! Z.to_nat i) as [sn|] eqn:El; [|by left]. right. by eapply Hl.
Qed.

Lemma inv_checkClear s S : inv s S → inv (checkClear s) S.
Proof.
  intros [Hw Hl Hs]. split; [by apply checkClear_wf|..]; rewrite (checkClear_eq _ Hw); destruct (_ =? _); simpl; try done.
  - intros j sn Hj. apply lookup_replicate in Hj as [? _]. done.
  - intros p Hp. by apply elem_of_nil in Hp.
Qed.

Lemma inv_order s S sn : inv s S → (∀ m, m ∈ S → m < sn) → in_order s sn.
Proof. intros [_ _ Hs] Hm. apply Forall_forall. intros p Hp. apply Hm, Hs, Hp. Qed.

Lemma inv_insertStore s S PC sn tid : inv s S → (∀ m, m ∈ S → m < sn) → ∃ s', insertStore s PC sn tid = Ok s' ∧ inv s' ({[sn]} ∪ S).
Proof.
  intros Hi Hm. pose proof Hi as [Hw _ _]. pose proof (inv_order _ _ _ Hi Hm) as Ho. rewrite insertStore_eq by done. eexists. split; [done|].
  apply inv_checkClear in Hi. pose proof Hi as [Hw1 Hl1 Hs1]. destruct (set_of (checkClear s) PC) as [i|] eqn:Ei; [|eapply inv_mono; [done|set_solver]].
  split; [apply with_store_wf; [done|by eapply ssid_range|by apply checkClear_in_order]|..]; simpl.
  - intros j n Hv Hn. destruct (decide (j = Z.to_nat i)) as [->|Hne].
    + rewrite list_lookup_insert_eq in Hn by (apply lookup_lt_Some in Hn; by rewrite length_insert in Hn). set_solver.
    + rewrite list_lookup_insert_ne in Hv by done. rewrite list_lookup_insert_ne in Hn by done. apply elem_of_union_r. by eapply Hl1.
  - intros p [->|Hp]%elem_of_cons; [set_solver|]. apply elem_of_union_r. by apply Hs1.
Qed.

Lemma inv_issued s S PC sn b : inv s S → ∃ s', issued s PC sn b = Ok s' ∧ inv s' S.
Proof.
  intros Hi. pose proof Hi as [Hw Hl Hs]. destruct b; [|by exists s]. pose proof (issued_spec s PC sn Hw) as Hr. apply returns_iff in Hr as (s' & E & Hw' & Hsl & _ & Hlf & Hv & _).
  exists s'. split; [done|]. split; [done| |].
  - intros j n Hj. rewrite Hlf. apply Hl. rewrite Hv in Hj. destruct (set_of s PC) as [i|]; [|done]. destruct (decide _); [|done].
    apply list_lookup_insert_Some in Hj as [(_ & ? & _)|[_ ?]]; done.
  - rewrite Hsl. intros p [_ Hp]%list_elem_of_filter. by apply Hs.
Qed.

Lemma inv_squash s S n tid : inv s S → ∃ s', squash s n tid = Ok s' ∧ inv s' S.
Proof.
  intros [Hw Hl Hs]. pose proof (squash_wf s n tid Hw) as Hr. apply returns_iff in Hr as (s' & E & Hw'). exists s'. split; [done|]. rewrite squash_eq in E by done. injection E as <-.
  split; [done| |]; simpl.
  - intros j m Hj. apply Hl. rewrite kill_lookup in Hj. destruct (decide _); [|done]. by destruct (validLFST s !! j).
  - intros p [_ Hp]%list_elem_of_filter. by apply Hs.
Qed.

Lemma inv_violation s S a b : inv s S → ∃ s', violation s a b = Ok s' ∧ inv s' S.
Proof.
  intros [Hw Hl Hs]. pose proof (violation_spec s a b Hw) as Hr. apply returns_iff in Hr as (s' & E & i & Hw' & _ & _ & _ & Es). exists s'. split; [done|].
  rewrite Es in *. by split.
Qed.

Lemma inv_create period ssit lfst s : params_ok period ssit lfst → create period ssit lfst = Ok s → inv s ∅.
Proof.
  intros Hp E. pose proof (create_wf _ _ _ Hp) as Hr. rewrite E in Hr. unfold create in E. res_inv. split; [done| |]; simpl.
  - intros j sn Hj. apply lookup_replicate in Hj as [? _]. done.
  - intros p Hp'. by apply elem_of_nil in Hp'.
Qed.
End StoreSetLaws.

#[global] Program Instance storeset_laws : DepPredLaws StoreSet.t := {| dp_inv := StoreSetLaws.inv |}.
Next Obligation. intros. by apply StoreSetLaws.inv_check. Qed.
Next Obligation. intros. by apply StoreSetLaws.inv_insertStore. Qed.
Next Obligation. intros. by apply StoreSetLaws.inv_issued. Qed.
Next Obligation. intros. by apply StoreSetLaws.inv_squash. Qed.
Next Obligation. intros. by apply StoreSetLaws.inv_violation. Qed.

Module MemDepSpec.
Import MemDepUnit MemDepInv MemDepOps MemDepDone.

(** ** Sessions *)
Inductive op :=
  | Insert (x : positive) | InsertNonSpec (x : positive) | InsertBarrier (x : positive)
  | RegsReady (x : positive) | NonSpecReady (x : positive) | Reschedule (x : positive) | Replay
  | Complete (x : positive) | CompleteBarrier (x : positive) | Squash (num : Z)
  | Violation (store_inst violating_load : positive) | Issue (x : positive).

Section session.
Context {P : Type} {HP : DepPred P} {HL : DepPredLaws P} (tid : Z).
Implicit Types (s : t P) (g : hist).

Definition exec (o : op) s : res (t P) :=
  match o with
  | Insert x => insert s x
  | InsertNonSpec x => insertNonSpec s x
  | InsertBarrier x => insertBarrier s x
  | RegsReady x => regsReady s x
  | NonSpecReady x => nonSpecInstReady s x
  | Reschedule x => Ok (reschedule s x)
  | Replay => replay s
  | Complete x => complete s x
  | CompleteBarrier x => completeBarrier s x
  | Squash num => squash s num tid
  | Violation x y => violation s x y
  | Issue x => issue s x
  end.

Definition number s (x : positive) : Z := from_option seqNum 0 (insts s !! x).

(** The history after a call. *)
Definition after (o : op) s g : hist :=
  match o with
  | Insert x => enter g x (number s x) true
  | InsertNonSpec x | InsertBarrier x => enter g x (number s x) false
  | Replay => replayed g (instsToReplay s)
  | _ => g
  end.

(** Instruction [x] is in the unit, with entry [n]. *)
Definition inside s (x : positive) (Q : MemDepEntry → Prop) : Prop := ∃ sn e n i, live s sn e n i ∧ inst n = x ∧ Q n.

(** What the queue ensures of a call: new instructions are in program order; registers
    become ready once; a non-speculative instruction is handed on once; only what was handed on is
    put off; what completes was handed on or is not speculative, and is not put off. *)
Definition legal (o : op) s g : Prop :=
  match o with
  | Insert x | InsertNonSpec x => ∃ i, may_enter tid s g x i ∧ isLoad i || isStore i = true
  | InsertBarrier x => ∃ i, may_enter tid s g x i ∧ isMemBarrier i || isWriteBarrier i = true
  | RegsReady x => x ∈ h_spec g ∧ inside s x (λ n, regsReady_ n = false)
  | NonSpecReady x => x ∉ h_spec g ∧ x ∉ ready s ∧ inside s x (λ _, True)
  | Reschedule x => x ∈ ready s ∧ inside s x (λ _, True)
  | Replay | Squash _ => True
  | Complete x => (x ∈ ready s ∨ x ∉ h_spec g) ∧ x ∉ instsToReplay s ∧ inside s x (λ _, True)
  | CompleteBarrier x => x ∉ h_spec g ∧ x ∉ instsToReplay s ∧ inside s x (λ _, True)
  | Violation x y => is_Some (insts s !! x) ∧ is_Some (insts s !! y)
  | Issue x => is_Some (insts s !! x)
  end.

Lemma exec_ok o s g : ok tid s g → legal o s g → ∃ s', exec o s = Ok s' ∧ ok tid s' (after o s g).
Proof.
  intros Ho Hl. destruct o; simpl in *.
  - destruct Hl as (i & Hm & Hty). unfold number. pose proof Hm as (-> & _). simpl. destruct (md_insert_spec _ _ _ _ _ Ho Hm Hty) as (s' & k & ? & ? & _). by exists s'.
  - destruct Hl as (i & Hm & Hty). unfold number. pose proof Hm as (-> & _). by apply md_insertNonSpec_spec.
  - destruct Hl as (i & Hm & Hty). unfold number. pose proof Hm as (-> & _). by apply md_insertBarrier_spec.
  - destruct Hl as (Hs & sn & e & n & i & L & <- & Hr). by eapply regsReady_spec.
  - destruct Hl as (Hs & Hr & sn & e & n & i & L & <- & _). by eapply nonSpecInstReady_spec.
  - destruct Hl as (Hr & sn & e & n & i & L & <- & _). eexists. split; [done|]. by eapply md_reschedule_spec.
  - destruct (replay_spec _ _ _ Ho) as (s' & ? & ? & _). by exists s'.
  - destruct Hl as (Hr & Hp & sn & e & n & i & L & <- & _). by eapply complete_spec.
  - destruct Hl as (Hr & Hp & sn & e & n & i & L & <- & _). by eapply completeBarrier_spec.
  - destruct (md_squash_spec tid num _ _ Ho) as (s' & ? & ? & _). by exists s'.
  - destruct Hl as [? ?]. by apply md_violation_spec.
  - by apply md_issue_spec.
Qed.

Fixpoint run (os : list op) s g : res (t P * hist) :=
  match os with
  | [] => Ok (s, g)
  | o :: os => s' ← exec o s; run os s' (after o s g)
  end.

(** Each call is legal where it is made. *)
Fixpoint legal_run (os : list op) s g : Prop :=
  match os with
  | [] => True
  | o :: os => legal o s g ∧ ∀ s', exec o s = Ok s' → legal_run os s' (after o s g)
  end.

Lemma run_ok os s g : ok tid s g → legal_run os s g → ∃ s' g', run os s g = Ok (s', g') ∧ ok tid s' g'.
Proof.
  revert s g. induction os as [|o os IH]; intros s g Ho Hl; [by exists s, g|]. destruct Hl as [Hl Hr].
  destruct (exec_ok _ _ _ Ho Hl) as (s1 & E & Ho1). simpl. rewrite E. cbn [mbind res_bind]. apply IH; [done|]. by apply Hr.
Qed.

Lemma md_create_ok n p m : 0 ≤ tid < Z.of_nat n → dp_inv p ∅ → ok tid (create n p m) (mkHist 1 ∅ ∅ []).
Proof.
  intros Ht Hp. exists [], ∅, []. split; [split|split|]; simpl; try done; try set_solver.
  - split; [lia|]. apply lookup_replicate_2. lia.
  - by intros e [? ?].
  - constructor.
  - by intros d sn p' (? & _).
  - by intros sn p' k i (? & _).
  - by intros d sn p' sn' q (? & _).
  - split_and!; [done|constructor|set_solver].
Qed.

(** The number of times [x] was handed on, not counting replays. *)
Definition times s g (x : positive) : nat := count_occ Pos.eq_dec (ready s) x - count_occ Pos.eq_dec (h_rep g) x.

Lemma times_base l S base g s x :
  okl tid s l S base g → times s g x = (if decide (x ∈ base) then 1%nat else 0%nat) ∧ count_occ Pos.eq_dec (ready s) x = (times s g x + count_occ Pos.eq_dec (h_rep g) x)%nat.
Proof.
  intros [_ [_ _ _ _ (R1 & R2 & _)] _].
  assert (E : count_occ Pos.eq_dec (ready s) x = (count_occ Pos.eq_dec base x + count_occ Pos.eq_dec (h_rep g) x)%nat).
  { rewrite <-count_occ_app. by apply (Permutation_count_occ Pos.eq_dec). }
  assert (count_occ Pos.eq_dec base x = if decide (x ∈ base) then 1%nat else 0%nat) as Eb.
  { destruct (decide (x ∈ base)) as [Hx|Hx].
    - apply NoDup_count_occ'; [by apply NoDup_ListNoDup|by apply list_elem_of_In].
    - apply count_occ_not_In. by rewrite <-list_elem_of_In. }
  unfold times. rewrite E, Eb. lia.
Qed.

(** Each speculative instruction in the unit was handed on once if its registers are ready and it
    does not wait, and not at all otherwise; one that waits does so for one older store
    or barrier in the unit; the oldest waits for none. *)
Definition accounted s g : Prop :=
  (∀ sn e n i, live s sn e n i → inst n ∈ h_spec g →
    (times s g (inst n) = 1%nat ∧ regsReady_ n = true ∧ ¬ waiting s e) ∨ (times s g (inst n) = 0%nat ∧ (regsReady_ n = false ∨ waiting s e))) ∧
  (∀ sn e n i, live s sn e n i → waiting s e →
    ∃ snp p np ip, live s snp p np ip ∧ wakes ip = true ∧ snp < sn ∧ ∀ snq q, waits_for s e snq q ↔ snq = snp ∧ q = p) ∧
  (∀ sn e n i, live s sn e n i → (∀ sn', is_Some (memDepHash s !! sn') → sn ≤ sn') → ¬ waiting s e).

Lemma waiting_dec s e : Decision (waiting s e).
Proof.
  destruct (decide (map_Exists (λ _ p, from_option (λ n, bool_decide (e ∈ dependInsts n)) false (cells (entries s) !! p) = true) (memDepHash s))) as [Hd|Hd]; [left|right].
  - destruct Hd as (sn & p & Hp & Hn). destruct (cells (entries s) !! p) as [n|] eqn:En; [|done]. exists sn, p. split; [done|]. exists n. by apply bool_decide_eq_true in Hn.
  - intros (sn & p & Hp & n & Hn & He). destruct Hd. exists sn, p. split; [done|]. rewrite Hn. by apply bool_decide_eq_true.
Qed.

Lemma ok_accounted s g : ok tid s g → accounted s g.
Proof.
  intros (l & S & base & Ho). pose proof (o_d _ _ _ _ _ _ Ho) as [D1 D2 D3 D4 D5].
  assert (Hone : ∀ sn e n i, live s sn e n i → waiting s e →
    ∃ snp p np ip, live s snp p np ip ∧ wakes ip = true ∧ snp < sn ∧ ∀ snq q, waits_for s e snq q ↔ snq = snp ∧ q = p).
  { intros sn e n i L (snp & p & W). destruct (D1 _ _ _ W) as [(np & ip & Lp & Hwk) (nd & Hnd & Hlive)]. pose proof L as (L1 & L2 & L3 & L4).
    assert (nd = n) as -> by congruence. destruct (live_unsquashed _ _ _ _ _ _ _ _ _ _ (o_s _ _ _ _ _ _ Ho) L) as (Hsq & _).
    destruct (Hlive Hsq) as (sd & id & Ld & Hlt & _). assert (sd = sn) as -> by (by eapply addr_sn; [apply Ho|exact L|apply Ld]).
    exists snp, p, np, ip. split_and!; try done. intros snq q. split; [|by intros [-> ->]]. intros W'. assert (snq = snp) as -> by (by eapply D3). split; [done|].
    destruct W as (W1 & _), W' as (W1' & _). congruence. }
  split_and!; [|exact Hone|].
  - intros sn e n i L Hin. destruct (times_base _ _ _ _ _ (inst n) Ho) as [-> _]. destruct (D4 _ _ _ _ L Hin) as (Hb & _ & _).
    destruct (decide (inst n ∈ base)) as [Hx|Hx]; [left; naive_solver|right]. split; [done|]. rewrite Hb in Hx.
    destruct (regsReady_ n); [|by left]. right. destruct (waiting_dec s e); [done|naive_solver].
  - intros sn e n i L Hmin Hw. destruct (Hone _ _ _ _ L Hw) as (snp & p & np & ip & (P1 & _) & _ & Hlt & _). specialize (Hmin snp ltac:(by eexists)). lia.
Qed.

(** ** Legality, decided *)
Definition insideb s (x : positive) (Q : MemDepEntry → bool) : bool :=
  match memDepHash s !! number s x with
  | Some e => match cells (entries s) !! e with Some n => bool_decide (inst n = x) && bool_decide (is_Some (insts s !! x)) && Q n | None => false end
  | None => false
  end.
Definition may_enterb s g (x : positive) (Q : DynInst → bool) : bool :=
  match insts s !! x with
  | Some i => (threadNumber i =? tid) && (h_hi g <=? seqNum i) && bool_decide (x ∉ h_seen g) && Q i
  | None => false
  end.
Definition legalb (o : op) s g : bool :=
  match o with
  | Insert x | InsertNonSpec x => may_enterb s g x (λ i, isLoad i || isStore i)
  | InsertBarrier x => may_enterb s g x (λ i, isMemBarrier i || isWriteBarrier i)
  | RegsReady x => bool_decide (x ∈ h_spec g) && insideb s x (λ n, negb (regsReady_ n))
  | NonSpecReady x => bool_decide (x ∉ h_spec g) && bool_decide (x ∉ ready s) && insideb s x (λ _, true)
  | Reschedule x => bool_decide (x ∈ ready s) && insideb s x (λ _, true)
  | Replay | Squash _ => true
  | Complete x => (bool_decide (x ∈ ready s) || bool_decide (x ∉ h_spec g)) && bool_decide (x ∉ instsToReplay s) && insideb s x (λ _, true)
  | CompleteBarrier x => bool_decide (x ∉ h_spec g) && bool_decide (x ∉ instsToReplay s) && insideb s x (λ _, true)
  | Violation x y => bool_decide (is_Some (insts s !! x)) && bool_decide (is_Some (insts s !! y))
  | Issue x => bool_decide (is_Some (insts s !! x))
  end.
Fixpoint legal_runb (os : list op) s g : bool :=
  match os with
  | [] => true
  | o :: os => legalb o s g && match exec o s with Ok s' => legal_runb os s' (after o s g) | Err _ => true end
  end.

Lemma insideb_spec s x Q : insideb s x Q = true → inside s x (λ n, Q n = true).
Proof.
  unfold insideb, number. destruct (memDepHash s !! _) as [e|] eqn:Eh; [|done]. destruct (cells (entries s) !! e) as [n|] eqn:Ec; [|done].
  intros [[Ex%bool_decide_eq_true [i Hi]%bool_decide_eq_true]%andb_true_iff HQ]%andb_true_iff. rewrite Hi in Eh. exists (seqNum i), e, n, i. split_and!; try done.
  unfold live. rewrite Ex. done.
Qed.

Lemma may_enterb_spec s g x Q : may_enterb s g x Q = true → ∃ i, may_enter tid s g x i ∧ Q i = true.
Proof.
  unfold may_enterb, may_enter. destruct (insts s !! x) as [i|]; [|done].
  intros [[[E1%Z.eqb_eq E2%Z.leb_le]%andb_true_iff E3%bool_decide_eq_true]%andb_true_iff HQ]%andb_true_iff. by exists i.
Qed.

Lemma legalb_spec o s g : legalb o s g = true → legal o s g.
Proof.
  destruct o; simpl; rewrite ?andb_true_iff, ?orb_true_iff, ?bool_decide_eq_true; try done; try apply may_enterb_spec.
  - intros [? (? & ? & ? & ? & ? & ? & ?%negb_true_iff)%insideb_spec]. split; [done|]. by do 4 eexists.
  - intros [[? ?] (? & ? & ? & ? & ? & ? & _)%insideb_spec]. split_and!; [done..|]. by do 4 eexists.
  - intros [? (? & ? & ? & ? & ? & ? & _)%insideb_spec]. split_and!; [done..|]. by do 4 eexists.
  - intros [[? ?] (? & ? & ? & ? & ? & ? & _)%insideb_spec]. split_and!; [done..|]. by do 4 eexists.
  - intros [[? ?] (? & ? & ? & ? & ? & ? & _)%insideb_spec]. split_and!; [done..|]. by do 4 eexists.
Qed.

Lemma legal_runb_spec os s g : legal_runb os s g = true → legal_run os s g.
Proof.
  revert s g. induction os as [|o os IH]; intros s g; [done|]. simpl. intros [Hl Hr]%andb_true_iff. split; [by apply legalb_spec|].
  intros s' E. rewrite E in Hr. by apply IH.
Qed.
End session.

(** ** Theorems *)
Definition start : hist := mkHist 1 ∅ ∅ [].

Section theorems.
Context {P : Type} {HP : DepPred P} {HL : DepPredLaws P}.
Implicit Types (s : t P).

(** C23: from a new unit, every sequence of calls that the queue may make returns, and
    then each speculative instruction in the unit has been handed on exactly once (replays aside) if
    its registers are ready and it waits for no store or barrier, and not at all
    otherwise; one that waits does so for exactly one entry, of an older store or
    barrier in the unit; the oldest instruction waits for none. *)
Theorem memdep_no_lost_wakeup tid maxThreads (p : P) m os :
  0 ≤ tid < Z.of_nat maxThreads → dp_inv p ∅ → legal_run tid os (create maxThreads p m) start →
  ∃ s g, run tid os (create maxThreads p m) start = Ok (s, g) ∧ accounted s g.
Proof.
  intros Ht Hp Hl. destruct (run_ok tid _ _ _ (md_create_ok tid _ p m Ht Hp) Hl) as (s & g & E & Ho). exists s, g. split; [done|]. by eapply ok_accounted.
Qed.

(** C24: an instruction that enters waits for the entry of the barrier in flight of its
    kind, or of the store that the predictor names, when that is in the unit; then it is
    not handed on.  Otherwise it is handed on at once exactly if it can issue. *)
Theorem memdep_insert_waits tid s g x i :
  ok tid s g → may_enter tid s g x i → isLoad i || isStore i = true →
  ∃ s' named, insert s x = Ok s' ∧ dp_checkInst (depPred s) (instAddr i) = Ok named ∧ memDepHash s' !! seqNum i = Some (next (entries s)) ∧
    let k := if isLoad i && loadBarrier s then loadBarrierSN s else if isStore i && storeBarrier s then storeBarrierSN s else named in
    match (if k =? 0 then None else memDepHash s !! k) with
    | None => ready s' = ready s ++ (if CanIssue i then [x] else [])
    | Some p => waits_for s' (next (entries s)) k p ∧ ready s' = ready s
    end.
Proof.
  intros Ho Hm Ht. pose proof Ho as (l & S & base & Ho'). destruct (m_pred _ _ _ _ _ _ (o_s _ _ _ _ _ _ Ho')) as (Hp & _).
  destruct (dp_checkInst_ok _ _ (instAddr i) Hp) as (named & En & _). destruct (md_insert_spec _ _ _ _ _ Ho Hm Ht) as (s' & k & E & _ & Ek & Eh & R).
  exists s', named. split_and!; try done. unfold producer_of in Ek. rewrite En in Ek. simpl.
  replace (if isLoad i && loadBarrier s then _ else _) with k; [done|]. destruct (isLoad i && loadBarrier s), (isStore i && storeBarrier s); congruence.
Qed.

(** C25: completion removes the instruction, hands on, in the order in which they came,
    the instructions that waited for it and have their registers, and nobody that waited
    for it waits any more, while all others wait as before. *)
Theorem memdep_complete_wakes tid s g sn e n i :
  ok tid s g → live s sn e n i → inst n ∈ ready s ∨ inst n ∉ h_spec g → inst n ∉ instsToReplay s →
  ∃ s', complete s (inst n) = Ok s' ∧ ok tid s' g ∧ memDepHash s' = delete sn (memDepHash s) ∧
    ready s' = ready s ++ handed s (dependInsts n) ∧ ∀ d, waiting s' d ↔ waiting s d ∧ d ∉ dependInsts n.
Proof.
  intros (l & S & base & Ho) L Hr Hp. destruct (complete_okl _ _ _ _ _ _ _ _ _ _ Ho L Hr Hp) as (s' & l' & base' & E & Ho' & _ & R). exists s'. split; [done|].
  split; [by exists l', S, base'|done].
Qed.

(** A squash that drops the last memory barrier takes out exactly the younger
    instructions, and leaves no load barrier in flight even if an older memory barrier is
    still in the unit: a later load does not wait for that one. *)
Theorem memdep_squash_forgets_barrier tid num s g snb eb nb ib :
  ok tid s g → is_Some (memDepHash s !! loadBarrierSN s) → num < loadBarrierSN s → live s snb eb nb ib → isMemBarrier ib = true → snb ≤ num →
  ∃ s', squash s num tid = Ok s' ∧ (∀ sn e, memDepHash s' !! sn = Some e ↔ memDepHash s !! sn = Some e ∧ sn ≤ num) ∧ ready s' = ready s ∧
    memDepHash s' !! snb = Some eb ∧ ∀ i, isLoad i = true → isStore i = false → producer_of s' i = dp_checkInst (depPred s') (instAddr i).
Proof.
  intros Ho Hs Hlt L Hb Hle. destruct (md_squash_spec tid num s g Ho) as (s' & E & _ & Hr & Hh & _ & Hlb). exists s'. split_and!; try done.
  - apply Hh. by destruct L as (? & _).
  - intros i Hi Hst. unfold producer_of. by rewrite (Hlb Hlt Hs), Hst, andb_false_r.
Qed.
End theorems.

(** ** A session with the store sets *)
Definition demo_insts : gmap positive DynInst :=
  list_to_map [ (1%positive, mkInst 10 0 128 false true false false true); (2%positive, mkInst 11 0 64 true false false false true);
    (3%positive, mkInst 12 0 256 false false true false true); (4%positive, mkInst 13 0 260 true false false false false);
    (5%positive, mkInst 14 0 264 false false true false true); (6%positive, mkInst 15 0 268 true false false false true) ].
Definition demo_pred : StoreSet.t := match StoreSet.create 100 16 8 with Ok p => p | Err _ => StoreSet.mk [] [] [] [] [] 0 0 0 0 0 0 end.
Definition demo_unit : t StoreSet.t := create 1 demo_pred demo_insts.

(** The load waits for the store of its set, is woken, put off and replayed; another
    waits for a barrier, and gets its registers meanwhile. *)
Definition demo_ops : list op :=
  [Violation 1 2; Insert 1; Insert 2; InsertBarrier 3; Insert 4; Issue 1; RegsReady 4; Complete 1; Reschedule 2; Replay; Complete 2; CompleteBarrier 3; InsertBarrier 5; Squash 13].

Definition ended (os : list op) : t StoreSet.t * hist := match run 0 os demo_unit start with Ok r => r | Err _ => (demo_unit, start) end.

Lemma md_demo_inv : dp_inv demo_pred ∅.
Proof. apply (StoreSetLaws.inv_create 100 16 8); [apply StoreSet.demo_params|reflexivity]. Qed.

Lemma ended_ok os : legal_runb 0 os demo_unit start = true → ok 0 (ended os).1 (ended os).2.
Proof.
  intros Hl%legal_runb_spec. destruct (run_ok 0 os _ _ (md_create_ok 0 1 demo_pred demo_insts ltac:(lia) md_demo_inv) Hl) as (s & g & E & Ho).
  unfold ended, demo_unit, start. by rewrite E.
Qed.

Lemma memdep_no_lost_wakeup_witness : ∃ s g, run 0 demo_ops demo_unit start = Ok (s, g) ∧ accounted s g.
Proof. apply (memdep_no_lost_wakeup 0 1 demo_pred demo_insts demo_ops); [lia|exact md_demo_inv|apply legal_runb_spec; vm_compute; reflexivity]. Defined.

Example demo_handed_on : ready (ended demo_ops).1 = [1; 2; 2; 4]%positive.
Proof. vm_compute. reflexivity. Qed.

Definition store_in := ended [Violation 1 2; Insert 1].
Definition load_waits := ended [Violation 1 2; Insert 1; Insert 2].
Definition two_barriers := ended [InsertBarrier 3; InsertBarrier 5].

Lemma memdep_insert_waits_witness :
  ∃ s' named, insert store_in.1 2 = Ok s' ∧ dp_checkInst (depPred store_in.1) 64 = Ok named ∧ memDepHash s' !! 11 = Some (next (entries store_in.1)) ∧
    let k := if true && loadBarrier store_in.1 then loadBarrierSN store_in.1 else if false && storeBarrier store_in.1 then storeBarrierSN store_in.1 else named in
    match (if k =? 0 then None else memDepHash store_in.1 !! k) with
    | None => ready s' = ready store_in.1 ++ [2%positive]
    | Some p => waits_for s' (next (entries store_in.1)) k p ∧ ready s' = ready store_in.1
    end.
Proof.
  apply (memdep_insert_waits 0 store_in.1 store_in.2 2 (mkInst 11 0 64 true false false false true)); [apply ended_ok; vm_compute; reflexivity| |reflexivity].
  split_and!; [vm_compute; reflexivity|reflexivity|vm_compute; discriminate|apply (bool_decide_unpack _); vm_compute; exact I].
Defined.

Lemma memdep_complete_wakes_witness :
  ∃ s', complete load_waits.1 1 = Ok s' ∧ ok 0 s' load_waits.2 ∧ memDepHash s' = delete 10 (memDepHash load_waits.1) ∧
    ready s' = ready load_waits.1 ++ handed load_waits.1 [2%positive] ∧ ∀ d, waiting s' d ↔ waiting load_waits.1 d ∧ d ∉ [2%positive].
Proof.
  apply (memdep_complete_wakes 0 load_waits.1 load_waits.2 10 1 (mkEntry 1 [2%positive] true true false) (mkInst 10 0 128 false true false false true)).
  - apply ended_ok. vm_compute. reflexivity.
  - split_and!; vm_compute; reflexivity.
  - left. apply (bool_decide_unpack _). vm_compute. exact I.
  - apply (bool_decide_unpack _). vm_compute. exact I.
Defined.

Lemma memdep_squash_forgets_barrier_witness :
  ∃ s', squash two_barriers.1 13 0 = Ok s' ∧ (∀ sn e, memDepHash s' !! sn = Some e ↔ memDepHash two_barriers.1 !! sn = Some e ∧ sn ≤ 13) ∧
    ready s' = ready two_barriers.1 ∧ memDepHash s' !! 12 = Some 1%positive ∧
    ∀ i, isLoad i = true → isStore i = false → producer_of s' i = dp_checkInst (depPred s') (instAddr i).
Proof.
  apply (memdep_squash_forgets_barrier 0 13 two_barriers.1 two_barriers.2 12 1 (mkEntry 3 [] false false false) (mkInst 12 0 256 false false true false true)).
  - apply ended_ok. vm_compute. reflexivity.
  - exists 2%positive. vm_compute. reflexivity.
  - vm_compute. reflexivity.
  - split_and!; vm_compute; reflexivity.
  - reflexivity.
  - lia.
Defined.

(** A load that enters then is handed on at once, with the older barrier in the unit. *)
Example load_passes_barrier :
  let s := (ended [InsertBarrier 3; InsertBarrier 5; Squash 13; Insert 6]).1 in memDepHash s !! 12 = Some 1%positive ∧ ready s = [6%positive].
Proof. vm_compute. by split. Qed.
End MemDepSpec.
