(* ===== verification/Lsq.v ===== *)
(** * The load-store queue unit

    [cpu/o3/lsq_unit.hh] and [lsq_unit_impl.hh], as compiled for an instruction set without
    unaligned accesses ([HasUnalignedMemAcc] false), so that no access is split in two.
    Instructions are shared objects, named by positive numbers.  What the unit asks of the
    rest of the machine is recorded, in order, in [log]; the answers of the data port, of
    the lock monitor and of the instruction are parameters. *)

From S2P Require Import Prelude.

Module LSQUnit.

(** ** Instructions *)
Inductive Fault := M5PanicFault | ReExec | OtherFault.

Record Kind := mkKind { seqNum : Z; isLoad : bool; isStore : bool; isMemRef : bool; isStoreConditional : bool; isDataPrefetch : bool }.
Record Access := mkAccess {
  effAddr : Z; effSize : Z; effAddrValid : bool; strictlyOrdered : bool; physEffAddrLow : Z; physEffAddrHigh : Z; memReqLLSC : bool
}.
Record Status := mkStatus { isSquashed : bool; isExecuted : bool; isCompleted : bool; isIssued : bool; isAtCommit : bool; isInLSQ : bool }.
Record DynInst := mkInst {
  kind : Kind; access : Access; status : Status; lqIdx : Z; sqIdx : Z; hitExternalSnoop : bool; possibleLoadViolation : bool;
  fault : option Fault; memData : option (list Z); readPredicate : bool; isTranslationDelayed : bool; hasRequest : bool
}.
Definition sn (i : DynInst) : Z := seqNum (kind i).

Definition with_status (i : DynInst) s : DynInst :=
  mkInst (kind i) (access i) s (lqIdx i) (sqIdx i) (hitExternalSnoop i) (possibleLoadViolation i) (fault i) (memData i) (readPredicate i) (isTranslationDelayed i) (hasRequest i).
Definition setSquashed (i : DynInst) : DynInst :=
  let s := status i in with_status i (mkStatus true (isExecuted s) (isCompleted s) (isIssued s) (isAtCommit s) (isInLSQ s)).
Definition setExecuted (i : DynInst) : DynInst :=
  let s := status i in with_status i (mkStatus (isSquashed s) true (isCompleted s) (isIssued s) (isAtCommit s) (isInLSQ s)).
Definition setCompleted (i : DynInst) : DynInst :=
  let s := status i in with_status i (mkStatus (isSquashed s) (isExecuted s) true (isIssued s) (isAtCommit s) (isInLSQ s)).
Definition clearIssued (i : DynInst) : DynInst :=
  let s := status i in with_status i (mkStatus (isSquashed s) (isExecuted s) (isCompleted s) false (isAtCommit s) (isInLSQ s)).
Definition setInLSQ (i : DynInst) : DynInst :=
  let s := status i in with_status i (mkStatus (isSquashed s) (isExecuted s) (isCompleted s) (isIssued s) (isAtCommit s) true).
Definition set_idx (lq sq : Z) (i : DynInst) : DynInst :=
  mkInst (kind i) (access i) (status i) lq sq (hitExternalSnoop i) (possibleLoadViolation i) (fault i) (memData i) (readPredicate i) (isTranslationDelayed i) (hasRequest i).
Definition set_hitExternalSnoop (i : DynInst) : DynInst :=
  mkInst (kind i) (access i) (status i) (lqIdx i) (sqIdx i) true (possibleLoadViolation i) (fault i) (memData i) (readPredicate i) (isTranslationDelayed i) (hasRequest i).
Definition set_possibleLoadViolation (i : DynInst) : DynInst :=
  mkInst (kind i) (access i) (status i) (lqIdx i) (sqIdx i) (hitExternalSnoop i) true (fault i) (memData i) (readPredicate i) (isTranslationDelayed i) (hasRequest i).
Definition set_fault (f : Fault) (i : DynInst) : DynInst :=
  mkInst (kind i) (access i) (status i) (lqIdx i) (sqIdx i) (hitExternalSnoop i) (possibleLoadViolation i) (Some f) (memData i) (readPredicate i) (isTranslationDelayed i) (hasRequest i).
Definition set_memData (d : list Z) (i : DynInst) : DynInst :=
  mkInst (kind i) (access i) (status i) (lqIdx i) (sqIdx i) (hitExternalSnoop i) (possibleLoadViolation i) (fault i) (Some d) (readPredicate i) (isTranslationDelayed i) (hasRequest i).

(** The address of an access, once it is translated. *)
Definition set_access (a : Access) (i : DynInst) : DynInst :=
  mkInst (kind i) a (status i) (lqIdx i) (sqIdx i) (hitExternalSnoop i) (possibleLoadViolation i) (fault i) (memData i) (readPredicate i) (isTranslationDelayed i) (hasRequest i).

(** ** Requests, packets, entries *)
Record Request := mkReq { getVaddr : Z; getSize : Z; isStrictlyOrdered : bool; isLLSC : bool; isMmappedIpr : bool; isBlockZero : bool }.

(** A packet with its sender state; for a packet that is forwarded, with the instruction of
    the event that carries it and the index of the load. *)
Record Packet := mkPkt { p_req : Request; p_inst : positive; p_idx : Z; p_isLoad : bool; p_noWB : bool; p_data : list Z }.

Record SQEntry := mkSQ { inst : ptr; req : option Request; size : Z; data : list Z; canWB : bool; committed : bool; completed : bool; isAllZeros : bool }.
Definition SQEntry_default : SQEntry := mkSQ None None 0 (replicate 16 0) false false false false.
Definition SQEntry_new (x : positive) : SQEntry := mkSQ (Some x) None 0 (replicate 16 0) false false false false.

Definition set_canWB (e : SQEntry) : SQEntry := mkSQ (inst e) (req e) (size e) (data e) true (committed e) (completed e) (isAllZeros e).
Definition set_committed (e : SQEntry) : SQEntry := mkSQ (inst e) (req e) (size e) (data e) (canWB e) true (completed e) (isAllZeros e).
Definition set_completed (e : SQEntry) : SQEntry := mkSQ (inst e) (req e) (size e) (data e) (canWB e) (committed e) true (isAllZeros e).
Definition clear_entry (e : SQEntry) : SQEntry := mkSQ None None (size e) (data e) false (committed e) (completed e) (isAllZeros e).

(** What the unit does to the rest of the machine. *)
Inductive action :=
  | Send (p : Packet) (accepted : bool) | ScheduleWriteback (p : Packet) | Reschedule (x : positive) | ReplayInst (x : positive) | BlockMemInst (x : positive)
  | InstToCommit (x : positive) | Activity | WakeCPU | CheckMisprediction (x : positive) | CompleteAcc (x : positive) (p : Packet) | ForwardOldRegs (x : positive)
  | LockedRead (x : positive) (r : Request) | LockedSnoop (addr : Z) | LockedSnoopHit (x : positive) | IprRead (p : Packet) | IprWrite (p : Packet)
  | UpdateLSQNextCycle | AccessComplete (x : positive) (p : Packet) | CacheUnblocked.

(** ** State *)
Record LQ := mkLQ { loadQueue : list ptr; LQEntries : Z; loads : Z; loadHead : Z; loadTail : Z }.
Record SQ := mkStoreQ { storeQueue : list SQEntry; SQEntries : Z; stores : Z; storesToWB : Z; storeHead : Z; storeWBIdx : Z; storeTail : Z }.
Record Stall := mkStall { stalled : bool; stallingStoreIsn : Z; stallingLoadIdx : Z }.
Record Port := mkPort { usedStorePorts : Z; retryPkt : option Packet; isStoreBlocked : bool; storeInFlight : bool }.
Record Params := mkParams { depCheckShift : Z; checkLoads : bool; cacheStorePorts : Z; needsTSO : bool; cacheLineSize : Z }.
Record t := mkUnit { lq : LQ; sq : SQ; stall : Stall; port : Port; memDepViolator : ptr; insts : gmap positive DynInst; log : list action }.

Definition with_lq (s : t) q : t := mkUnit q (sq s) (stall s) (port s) (memDepViolator s) (insts s) (log s).
Definition with_sq (s : t) q : t := mkUnit (lq s) q (stall s) (port s) (memDepViolator s) (insts s) (log s).
Definition with_stall (s : t) q : t := mkUnit (lq s) (sq s) q (port s) (memDepViolator s) (insts s) (log s).
Definition with_port (s : t) q : t := mkUnit (lq s) (sq s) (stall s) q (memDepViolator s) (insts s) (log s).
Definition with_violator (s : t) v : t := mkUnit (lq s) (sq s) (stall s) (port s) v (insts s) (log s).
Definition with_insts (s : t) m : t := mkUnit (lq s) (sq s) (stall s) (port s) (memDepViolator s) m (log s).
Definition say (s : t) (l : list action) : t := mkUnit (lq s) (sq s) (stall s) (port s) (memDepViolator s) (insts s) (log s ++ l).

Definition with_used (p : Port) n : Port := mkPort n (retryPkt p) (isStoreBlocked p) (storeInFlight p).
Definition with_inFlight (p : Port) b : Port := mkPort (usedStorePorts p) (retryPkt p) (isStoreBlocked p) b.
Definition with_entries (q : SQ) l : SQ := mkStoreQ l (SQEntries q) (stores q) (storesToWB q) (storeHead q) (storeWBIdx q) (storeTail q).
Definition with_toWB (q : SQ) n : SQ := mkStoreQ (storeQueue q) (SQEntries q) (stores q) n (storeHead q) (storeWBIdx q) (storeTail q).
Definition with_WBIdx (q : SQ) k : SQ := mkStoreQ (storeQueue q) (SQEntries q) (stores q) (storesToWB q) (storeHead q) k (storeTail q).

Definition deref (s : t) (x : positive) : res DynInst := match insts s !! x with Some i => Ok i | None => Err BadPointer end.
Definition upd (s : t) (x : positive) (f : DynInst → DynInst) : res t := i ← deref s x; Ok (with_insts s (<[x := f i]> (insts s))).
Definition thePtr (p : ptr) : res positive := match p with Some x => Ok x | None => Err BadPointer end.
Definition mod_entry (s : t) (k : Z) (f : SQEntry → SQEntry) : res t :=
  l ← vmod f (storeQueue (sq s)) k; Ok (with_sq s (with_entries (sq s) l)).

(** ** Indices *)
Definition incrStIdx (q : SQ) (k : Z) : Z := if SQEntries q <=? k + 1 then 0 else k + 1.
Definition decrStIdx (q : SQ) (k : Z) : Z := if k - 1 <? 0 then k - 1 + SQEntries q else k - 1.
Definition incrLdIdx (q : LQ) (k : Z) : Z := if LQEntries q <=? k + 1 then 0 else k + 1.
Definition decrLdIdx (q : LQ) (k : Z) : Z := if k - 1 <? 0 then k - 1 + LQEntries q else k - 1.

Section unit.
Context (par : Params).
(** The data port takes a packet, after what was done so far. *)
Context (accepts : list action → Packet → bool).
(** [TheISA::handleLockedWrite] *)
Context (handleLockedWrite : list action → positive → Request → bool).
(** [TheISA::handleIprRead]: the bytes read. *)
Context (handleIprRead : list action → positive → Request → list Z).
(** The content of memory that was allocated and not written. *)
Context (uninit : Z).
(** [DynInst::initiateAcc], which calls [read] or [write] once the address is translated. *)
Context (initiateAcc : t → positive → res (option Fault * t)).

(** [indet] is the content of fields that are not initialised. *)
Definition init (maxLQEntries maxSQEntries indet : Z) (m : gmap positive DynInst) : res t :=
  let LQEntries := u32 (maxLQEntries + 1) in
  let SQEntries := u32 (maxSQEntries + 1) in
  _ ← assert_ (LQEntries <=? 256);
  _ ← assert_ (SQEntries <=? 256);
  Ok (mkUnit (mkLQ (replicate (Z.to_nat LQEntries) None) LQEntries 0 0 0) (mkStoreQ (replicate (Z.to_nat SQEntries) SQEntry_default) SQEntries 0 0 0 0 0)
        (mkStall false indet indet) (mkPort 0 None false false) None m []).

(** The line size is [unsigned]: the mask is computed in 32 bits. *)
Definition cacheBlockMask : Z := not32 (u32 (cacheLineSize par - 1)).

Definition resetState (s : t) : t :=
  mkUnit (mkLQ (loadQueue (lq s)) (LQEntries (lq s)) 0 0 0) (mkStoreQ (storeQueue (sq s)) (SQEntries (sq s)) 0 0 0 0 0)
    (mkStall false (stallingStoreIsn (stall s)) (stallingLoadIdx (stall s))) (mkPort 0 None (isStoreBlocked (port s)) (storeInFlight (port s))) None (insts s) (log s).
Definition takeOverFrom (s : t) : t := resetState s.

(** *** Queries *)
Definition lqFull (s : t) : bool := u32 (LQEntries (lq s) - 1) <=? u32 (loads (lq s)).
Definition sqFull (s : t) : bool := u32 (SQEntries (sq s) - 1) <=? u32 (stores (sq s)).
Definition isFull (s : t) : bool := lqFull s || sqFull s.
Definition lqEmpty (s : t) : bool := loads (lq s) =? 0.
Definition sqEmpty (s : t) : bool := stores (sq s) =? 0.
Definition isEmpty (s : t) : bool := lqEmpty s && sqEmpty s.
Definition getCount (s : t) : Z := u32 (loads (lq s) + stores (sq s)).
Definition numFreeLoadEntries (s : t) : Z := u32 (LQEntries (lq s) - loads (lq s) - 1).
Definition numFreeStoreEntries (s : t) : Z := u32 (SQEntries (sq s) - stores (sq s) - 1).
Definition willWB (s : t) : res bool :=
  e ← vget (storeQueue (sq s)) (storeWBIdx (sq s)); Ok (canWB e && negb (completed e) && negb (isStoreBlocked (port s))).
Definition getLoadHeadSeqNum (s : t) : res Z :=
  p ← vget (loadQueue (lq s)) (loadHead (lq s)); match p with Some x => i ← deref s x; Ok (sn i) | None => Ok 0 end.
Definition getStoreHeadSeqNum (s : t) : res Z :=
  e ← vget (storeQueue (sq s)) (storeHead (sq s)); match inst e with Some x => i ← deref s x; Ok (sn i) | None => Ok 0 end.
Definition hasStoresToWB (s : t) : bool := negb (storesToWB (sq s) =? 0).
Definition isStalled (s : t) : bool := stalled (stall s).
Definition violation (s : t) : bool := bool_decide (memDepViolator s ≠ None).
Definition getMemDepViolator (s : t) : ptr * t := (memDepViolator s, with_violator s None).
Definition drainSanityCheck (s : t) : res unit :=
  _ ← assert_ (forallb (λ p, bool_decide (p = None)) (loadQueue (lq s)));
  _ ← assert_ (storesToWB (sq s) =? 0);
  assert_ (bool_decide (retryPkt (port s) = None)).
Definition clearLQ (s : t) : t := let q := lq s in with_lq s (mkLQ [] (LQEntries q) (loads q) (loadHead q) (loadTail q)).
Definition clearSQ (s : t) : t := with_sq s (with_entries (sq s) []).
Definition tick (s : t) : t := with_port s (with_used (port s) 0).

(** *** Insertion *)
Definition insertLoad (s : t) (load_inst : positive) : res t :=
  let q := lq s in
  k ← umod (u32 (loadTail q + 1)) (LQEntries q);
  _ ← assert_ (negb (k =? loadHead q));
  _ ← assert_ (u32 (loads q) <? LQEntries q);
  s ← upd s load_inst (set_idx (loadTail q) (if stores (sq s) =? 0 then -1 else storeTail (sq s)));
  l ← vset (loadQueue q) (loadTail q) (Some load_inst);
  Ok (with_lq s (mkLQ l (LQEntries q) (loads q + 1) (loadHead q) (incrLdIdx q (loadTail q)))).

Definition insertStore (s : t) (store_inst : positive) : res t :=
  let q := sq s in
  k ← umod (u32 (storeTail q + 1)) (SQEntries q);
  _ ← assert_ (negb (k =? storeHead q));
  _ ← assert_ (u32 (stores q) <? SQEntries q);
  s ← upd s store_inst (set_idx (loadTail (lq s)) (storeTail q));
  l ← vset (storeQueue q) (storeTail q) (SQEntry_new store_inst);
  Ok (with_sq s (mkStoreQ l (SQEntries q) (stores q + 1) (storesToWB q) (storeHead q) (storeWBIdx q) (incrStIdx q (storeTail q)))).

Definition insert (s : t) (x : positive) : res t :=
  i ← deref s x;
  _ ← assert_ (isMemRef (kind i));
  _ ← assert_ (isLoad (kind i) || isStore (kind i));
  s ← (if isLoad (kind i) then insertLoad s x else insertStore s x);
  upd s x setInLSQ.

(** *** Ordering violations *)
Definition last_byte (a : Access) : Z := u64 (effAddr a + effSize a - 1).

Fixpoint violations_loop (fuel : nat) (s : t) (load_idx : Z) (i : DynInst) (inst_eff_addr1 inst_eff_addr2 : Z) : res (option Fault * t) :=
  match fuel with
  | O => Err Diverges
  | S fuel =>
      if load_idx =? loadTail (lq s) then Ok (None, s)
      else
        p ← vget (loadQueue (lq s)) load_idx;
        ld_inst ← thePtr p;
        ld ← deref s ld_inst;
        let next s := violations_loop fuel s (incrLdIdx (lq s) load_idx) i inst_eff_addr1 inst_eff_addr2 in
        if negb (effAddrValid (access ld)) || strictlyOrdered (access ld) then next s
        else
          ld_eff_addr1 ← shr64 (effAddr (access ld)) (depCheckShift par);
          ld_eff_addr2 ← shr64 (last_byte (access ld)) (depCheckShift par);
          if (ld_eff_addr1 <=? inst_eff_addr2) && (inst_eff_addr1 <=? ld_eff_addr2) then
            v ← match memDepViolator s with Some v => i ← deref s v; Ok (Some (sn i)) | None => Ok None end;
            if isLoad (kind i) then
              if hitExternalSnoop ld && match v with Some n => sn ld <? n | None => true end then Ok (Some M5PanicFault, with_violator s (Some ld_inst))
              else s ← upd s ld_inst set_possibleLoadViolation; next s
            else
              if match v with Some n => n <? sn ld | None => false end then Ok (None, s)
              else Ok (Some M5PanicFault, with_violator s (Some ld_inst))
          else next s
  end.

Definition checkViolations (s : t) (load_idx : Z) (x : positive) : res (option Fault * t) :=
  i ← deref s x;
  a1 ← shr64 (effAddr (access i)) (depCheckShift par);
  a2 ← shr64 (last_byte (access i)) (depCheckShift par);
  violations_loop (S (Z.to_nat (LQEntries (lq s)))) s load_idx i a1 a2.

(** An invalidation of the block of [addr]. *)
Fixpoint snoop_loop (fuel : nat) (s : t) (load_idx : Z) (invalidate_addr : Z) (force_squash : bool) : res t :=
  match fuel with
  | O => Err Diverges
  | S fuel =>
      if load_idx =? loadTail (lq s) then Ok s
      else
        p ← vget (loadQueue (lq s)) load_idx;
        ld_inst ← thePtr p;
        ld ← deref s ld_inst;
        let a := access ld in
        if negb (effAddrValid a) || strictlyOrdered a then snoop_loop fuel s (incrLdIdx (lq s) load_idx) invalidate_addr force_squash
        else
          let low := Z.land (physEffAddrLow a) cacheBlockMask in
          let high := Z.land (physEffAddrHigh a) cacheBlockMask in
          if (low =? invalidate_addr) || (high =? invalidate_addr) || force_squash then
            let force_squash := force_squash || needsTSO par in
            s ← (if possibleLoadViolation ld || force_squash then upd s ld_inst (set_fault ReExec)
                 else upd (if memReqLLSC a then say s [LockedSnoopHit ld_inst] else s) ld_inst set_hitExternalSnoop);
            snoop_loop fuel s (incrLdIdx (lq s) load_idx) invalidate_addr force_squash
          else snoop_loop fuel s (incrLdIdx (lq s) load_idx) invalidate_addr force_squash
  end.

Definition checkSnoop (s : t) (addr : Z) : res t :=
  let load_idx := loadHead (lq s) in
  let s := say s [LockedSnoop addr] in
  let invalidate_addr := Z.land addr cacheBlockMask in
  p ← vget (loadQueue (lq s)) load_idx;
  s ← match p with
      | Some ld_inst =>
          ld ← deref s ld_inst;
          let a := access ld in
          let low := Z.land (physEffAddrLow a) cacheBlockMask in
          let high := Z.land (physEffAddrHigh a) cacheBlockMask in
          Ok (if effAddrValid a && ((low =? invalidate_addr) || (high =? invalidate_addr)) && memReqLLSC a then say s [LockedSnoopHit ld_inst] else s)
      | None => Ok s
      end;
  if load_idx =? loadTail (lq s) then Ok s
  else snoop_loop (S (Z.to_nat (LQEntries (lq s)))) s (incrLdIdx (lq s) load_idx) invalidate_addr false.

(** *** Execution *)
Definition executeLoad (s : t) (x : positive) : res (option Fault * t) :=
  i ← deref s x;
  _ ← assert_ (negb (isSquashed (status i)));
  '(load_fault, s) ← initiateAcc s x;
  i ← deref s x;
  if isTranslationDelayed i && bool_decide (load_fault = None) then Ok (load_fault, s)
  else if negb (bool_decide (load_fault = None)) || negb (readPredicate i) then
    let s := if negb (readPredicate i) then say s [ForwardOldRegs x] else s in
    s ← (if negb (hasRequest i && strictlyOrdered (access i)) || isAtCommit (status i) then upd s x setExecuted else Ok s);
    Ok (load_fault, say s [InstToCommit x; Activity])
  else
    _ ← assert_ (effAddrValid (access i));
    if checkLoads par then checkViolations s (incrLdIdx (lq s) (lqIdx i)) x else Ok (load_fault, s).

Definition executeStore (s : t) (store_inst : positive) : res (option Fault * t) :=
  _ ← assert_ (negb (stores (sq s) =? 0));
  i ← deref s store_inst;
  let store_idx := sqIdx i in
  _ ← assert_ (negb (isSquashed (status i)));
  let load_idx := lqIdx i in
  '(store_fault, s) ← initiateAcc s store_inst;
  i ← deref s store_inst;
  if isTranslationDelayed i && bool_decide (store_fault = None) then Ok (store_fault, s)
  else
    let s := if negb (readPredicate i) then say s [ForwardOldRegs store_inst] else s in
    e ← vget (storeQueue (sq s)) store_idx;
    if size e =? 0 then Ok (store_fault, s)
    else if negb (readPredicate i) then Ok (store_fault, s)
    else
      _ ← assert_ (bool_decide (store_fault = None));
      s ← (if isStoreConditional (kind i) then
             s ← mod_entry s store_idx set_canWB; Ok (with_sq s (with_toWB (sq s) (storesToWB (sq s) + 1)))
           else Ok s);
      checkViolations s load_idx store_inst.

(** *** Commit *)
Definition commitLoad (s : t) : res t :=
  let q := lq s in
  p ← vget (loadQueue q) (loadHead q);
  _ ← assert_ (bool_decide (p ≠ None));
  l ← vset (loadQueue q) (loadHead q) None;
  Ok (with_lq s (mkLQ l (LQEntries q) (loads q - 1) (incrLdIdx q (loadHead q)) (loadTail q))).

Fixpoint commitLoads_loop (fuel : nat) (s : t) (youngest_inst : Z) : res t :=
  match fuel with
  | O => Err Diverges
  | S fuel =>
      if loads (lq s) =? 0 then Ok s
      else
        p ← vget (loadQueue (lq s)) (loadHead (lq s));
        x ← thePtr p;
        i ← deref s x;
        if sn i <=? youngest_inst then s ← commitLoad s; commitLoads_loop fuel s youngest_inst else Ok s
  end.
Definition commitLoads (s : t) (youngest_inst : Z) : res t :=
  p ← vget (loadQueue (lq s)) (loadHead (lq s));
  _ ← assert_ ((loads (lq s) =? 0) || bool_decide (p ≠ None));
  commitLoads_loop (S (Z.to_nat (LQEntries (lq s)))) s youngest_inst.

Fixpoint commitStores_loop (fuel : nat) (s : t) (store_idx youngest_inst : Z) : res t :=
  match fuel with
  | O => Err Diverges
  | S fuel =>
      if store_idx =? storeTail (sq s) then Ok s
      else
        e ← vget (storeQueue (sq s)) store_idx;
        _ ← assert_ (bool_decide (inst e ≠ None));
        if canWB e then commitStores_loop fuel s (incrStIdx (sq s) store_idx) youngest_inst
        else
          x ← thePtr (inst e);
          i ← deref s x;
          if youngest_inst <? sn i then Ok s
          else
            s ← mod_entry s store_idx set_canWB;
            let s := with_sq s (with_toWB (sq s) (storesToWB (sq s) + 1)) in
            commitStores_loop fuel s (incrStIdx (sq s) store_idx) youngest_inst
  end.
Definition commitStores (s : t) (youngest_inst : Z) : res t :=
  e ← vget (storeQueue (sq s)) (storeHead (sq s));
  _ ← assert_ ((stores (sq s) =? 0) || bool_decide (inst e ≠ None));
  commitStores_loop (S (Z.to_nat (SQEntries (sq s)))) s (storeHead (sq s)) youngest_inst.

(** *** Stores leave *)
Definition unstall (s : t) : res t :=
  let st := stall s in
  p ← vget (loadQueue (lq s)) (stallingLoadIdx st);
  x ← thePtr p;
  Ok (say (with_stall s (mkStall false 0 (stallingLoadIdx st))) [ReplayInst x]).

(** [do { incrStIdx(storeHead); --stores; } while (...)] *)
Fixpoint release_loop (fuel : nat) (q : SQ) : res SQ :=
  match fuel with
  | O => Err Diverges
  | S fuel =>
      let q := mkStoreQ (storeQueue q) (SQEntries q) (stores q - 1) (storesToWB q) (incrStIdx q (storeHead q)) (storeWBIdx q) (storeTail q) in
      e ← vget (storeQueue q) (storeHead q);
      if completed e && negb (storeHead q =? storeTail q) then release_loop fuel q else Ok q
  end.

Definition completeStore (s : t) (store_idx : Z) : res t :=
  e ← vget (storeQueue (sq s)) store_idx;
  x ← (match inst e with Some x => Ok x | None => Err AssertFail end);
  s ← mod_entry s store_idx set_completed;
  let s := with_sq s (with_toWB (sq s) (storesToWB (sq s) - 1)) in
  let s := say s [WakeCPU; Activity] in
  s ← (if store_idx =? storeHead (sq s) then
         q ← release_loop (S (Z.to_nat (SQEntries (sq s)))) (sq s); Ok (say (with_sq s q) [UpdateLSQNextCycle])
       else Ok s);
  i ← deref s x;
  s ← (if stalled (stall s) && (sn i =? stallingStoreIsn (stall s)) then unstall s else Ok s);
  s ← upd s x setCompleted;
  Ok (if needsTSO par then with_port s (with_inFlight (port s) false) else s).

Definition storePostSend (s : t) : res t :=
  e ← vget (storeQueue (sq s)) (storeWBIdx (sq s));
  x ← thePtr (inst e);
  i ← deref s x;
  s ← (if stalled (stall s) && (sn i =? stallingStoreIsn (stall s)) then unstall s else Ok s);
  s ← (if negb (isStoreConditional (kind i)) then upd s x setCompleted else Ok s);
  let s := if needsTSO par then with_port s (with_inFlight (port s) true) else s in
  Ok (with_sq s (with_WBIdx (sq s) (incrStIdx (sq s) (storeWBIdx (sq s))))).

Definition sendStore (s : t) (data_pkt : Packet) : res (bool * t) :=
  let ok := accepts (log s) data_pkt in
  let s := say s [Send data_pkt ok] in
  if ok then Ok (true, s)
  else
    _ ← assert_ (bool_decide (retryPkt (port s) = None));
    Ok (false, with_port s (mkPort (usedStorePorts (port s)) (Some data_pkt) true (storeInFlight (port s)))).

Definition recvRetry (s : t) : res t :=
  if isStoreBlocked (port s) then
    match retryPkt (port s) with
    | None => Err AssertFail
    | Some pkt =>
        let ok := accepts (log s) pkt in
        let s := say s [Send pkt ok] in
        if ok then
          s ← storePostSend s; Ok (with_port s (mkPort (usedStorePorts (port s)) None false (storeInFlight (port s))))
        else Ok s
    end
  else Ok s.

(** The bytes a store writes. *)
Definition store_bytes (e : SQEntry) (n : Z) : res (list Z) :=
  if isAllZeros e then Ok (replicate (Z.to_nat n) 0)
  else _ ← guard_ (n <=? vlen (data e)) OutOfRange; Ok (take (Z.to_nat n) (data e)).

Definition next_WB (s : t) : t := with_sq s (with_WBIdx (sq s) (incrStIdx (sq s) (storeWBIdx (sq s)))).

(** One store, from the store port on. *)
Definition writeback_one (s : t) (e : SQEntry) (x : positive) (i : DynInst) : res t :=
  r ← (match req e with Some r => Ok r | None => Err AssertFail end);
  _ ← assert_ (negb (committed e));
  s ← mod_entry s (storeWBIdx (sq s)) set_committed;
  _ ← assert_ (bool_decide (memData i = None));
  d ← store_bytes e (getSize r);
  s ← upd s x (set_memData d);
  let pkt := mkPkt r x (u8 (storeWBIdx (sq s))) false (negb (isStoreConditional (kind i))) d in
  if isStoreConditional (kind i) && negb (handleLockedWrite (log s) x r) then
    s ← completeStore (say s [ScheduleWriteback pkt]) (storeWBIdx (sq s)); Ok (next_WB s)
  else if isMmappedIpr r then
    _ ← assert_ (negb (isStoreConditional (kind i)));
    s ← completeStore (say s [IprWrite pkt]) (storeWBIdx (sq s)); Ok (next_WB s)
  else
    '(ok, s) ← sendStore s pkt;
    if (ok : bool) then storePostSend s else Ok s.

Fixpoint writeback_loop (fuel : nat) (s : t) : res t :=
  match fuel with
  | O => Err Diverges
  | S fuel =>
      let q := sq s in
      if (0 <? storesToWB q) && negb (storeWBIdx q =? storeTail q) then
        e ← vget (storeQueue q) (storeWBIdx q);
        match inst e with
        | None => Ok s
        | Some x =>
            if canWB e && (negb (needsTSO par) || negb (storeInFlight (port s))) && (usedStorePorts (port s) <? cacheStorePorts par) then
              if isStoreBlocked (port s) then Ok s
              else if size e =? 0 then s ← completeStore s (storeWBIdx q); writeback_loop fuel (next_WB s)
              else
                let s := with_port s (with_used (port s) (usedStorePorts (port s) + 1)) in
                i ← deref s x;
                if isDataPrefetch (kind i) then writeback_loop fuel (next_WB s)
                else s ← writeback_one s e x i; writeback_loop fuel s
            else Ok s
        end
      else Ok s
  end.

Definition writebackStores (s : t) : res t :=
  s ← writeback_loop (S (S (Z.to_nat (SQEntries (sq s))))) s;
  let s := with_port s (with_used (port s) 0) in
  _ ← assert_ ((0 <=? stores (sq s)) && (0 <=? storesToWB (sq s)));
  Ok s.

(** *** Squash *)
Fixpoint squash_loads (fuel : nat) (s : t) (load_idx squashed_num : Z) : res t :=
  match fuel with
  | O => Err Diverges
  | S fuel =>
      let q := lq s in
      if loads q =? 0 then Ok s
      else
        p ← vget (loadQueue q) load_idx;
        x ← thePtr p;
        i ← deref s x;
        if squashed_num <? sn i then
          let s := if stalled (stall s) && (load_idx =? stallingLoadIdx (stall s)) then with_stall s (mkStall false 0 0) else s in
          s ← upd s x setSquashed;
          l ← vset (loadQueue q) load_idx None;
          let s := with_lq s (mkLQ l (LQEntries q) (loads q - 1) (loadHead q) load_idx) in
          squash_loads fuel s (decrLdIdx q load_idx) squashed_num
        else Ok s
  end.

Fixpoint squash_stores (fuel : nat) (s : t) (store_idx squashed_num : Z) : res t :=
  match fuel with
  | O => Err Diverges
  | S fuel =>
      let q := sq s in
      if stores q =? 0 then Ok s
      else
        e ← vget (storeQueue q) store_idx;
        x ← thePtr (inst e);
        i ← deref s x;
        if squashed_num <? sn i then
          if canWB e then Ok s
          else if stalled (stall s) && (sn i =? stallingStoreIsn (stall s)) then Err (Panic "Is stalled should have been cleared by stalling load!")
          else
            s ← upd s x setSquashed;
            l ← vset (storeQueue q) store_idx (clear_entry e);
            let s := with_sq s (mkStoreQ l (SQEntries q) (stores q - 1) (storesToWB q) (storeHead q) (storeWBIdx q) store_idx) in
            squash_stores fuel s (decrStIdx q store_idx) squashed_num
        else Ok s
  end.

Definition squash (s : t) (squashed_num : Z) : res t :=
  s ← squash_loads (S (Z.to_nat (LQEntries (lq s)))) s (decrLdIdx (lq s) (loadTail (lq s))) squashed_num;
  s ← (match memDepViolator s with
       | Some v => i ← deref s v; Ok (if squashed_num <? sn i then with_violator s None else s)
       | None => Ok s
       end);
  squash_stores (S (Z.to_nat (SQEntries (sq s)))) s (decrStIdx (sq s) (storeTail (sq s))) squashed_num.

(** *** Loads: forwarding *)

(** Bytes are written to the load's buffer, which is allocated the first time. *)
Definition fill_memData (i : DynInst) (d : list Z) : res DynInst :=
  match memData i with
  | None => Ok (set_memData d i)
  | Some old => _ ← guard_ (length d <=? length old)%nat OutOfRange; Ok (set_memData (d ++ drop (length d) old) i)
  end.

(** [n] bytes of a store's data, from [shift_amt] on. *)
Definition forwarded_bytes (e : SQEntry) (shift_amt n : Z) : res (list Z) :=
  if isAllZeros e then Ok (replicate (Z.to_nat n) 0)
  else
    _ ← guard_ ((0 <=? shift_amt) && (shift_amt + n <=? vlen (data e))) OutOfRange;
    Ok (take (Z.to_nat n) (drop (Z.to_nat shift_amt) (data e))).

Definition has_lower_limit (r : Request) (st : DynInst) : bool := effAddr (access st) <=? getVaddr r.
Definition has_upper_limit (r : Request) (st : DynInst) (store_size : Z) : bool := u64 (getVaddr r + getSize r) <=? u64 (effAddr (access st) + store_size).
Definition lower_part (r : Request) (st : DynInst) (store_size : Z) : bool := getVaddr r <? u64 (effAddr (access st) + store_size).
Definition upper_part (r : Request) (st : DynInst) : bool := effAddr (access st) <? u64 (getVaddr r + getSize r).

Definition partial_match (r : Request) (st : DynInst) (n : Z) : bool :=
  (negb (isLLSC r) &&
   ((has_lower_limit r st && lower_part r st n) || (has_upper_limit r st n && upper_part r st) || (lower_part r st n && upper_part r st))) ||
  (isLLSC r && ((has_lower_limit r st || upper_part r st) && (has_upper_limit r st n || lower_part r st n))).

Definition forward (s : t) (x : positive) (load_idx : Z) (r : Request) (e : SQEntry) (st : DynInst) : res t :=
  d ← forwarded_bytes e (getVaddr r - effAddr (access st)) (getSize r);
  i ← deref s x;
  i ← fill_memData i d;
  let s := with_insts s (<[x := i]> (insts s)) in
  Ok (say s [ScheduleWriteback (mkPkt r x (u8 load_idx) true false d)]).

Definition put_off (s : t) (x : positive) (load_idx : Z) (st : DynInst) : res t :=
  i ← deref s x;
  older ← (if stalled (stall s) then
             p ← vget (loadQueue (lq s)) (stallingLoadIdx (stall s)); y ← thePtr p; j ← deref s y; Ok (sn i <? sn j)
           else Ok true);
  let s := if (older : bool) then with_stall s (mkStall true (sn st) load_idx) else s in
  upd (say s [Reschedule x]) x clearIssued.

(** The search among the older stores; [None] when it ends without a match. *)
Fixpoint forward_loop (fuel : nat) (s : t) (x : positive) (load_idx : Z) (r : Request) (store_idx : Z) : res (option t) :=
  match fuel with
  | O => Err Diverges
  | S fuel =>
      if store_idx =? storeWBIdx (sq s) then Ok None
      else
        let store_idx := decrStIdx (sq s) store_idx in
        e ← vget (storeQueue (sq s)) store_idx;
        match inst e with
        | None => Err AssertFail
        | Some y =>
            if size e =? 0 then forward_loop fuel s x load_idx r store_idx
            else
              st ← deref s y;
              if strictlyOrdered (access st) then forward_loop fuel s x load_idx r store_idx
              else
                _ ← assert_ (effAddrValid (access st));
                if has_lower_limit r st && has_upper_limit r st (size e) && negb (isLLSC r) then s ← forward s x load_idx r e st; Ok (Some s)
                else if partial_match r st (size e) then
                  if completed e then Err (Panic "Should not check one of these")
                  else s ← put_off s x load_idx st; Ok (Some s)
                else forward_loop fuel s x load_idx r store_idx
        end
  end.

Definition access_memory (s : t) (x : positive) (load_idx : Z) (r : Request) : res t :=
  i ← deref s x;
  let d := match memData i with Some d => d | None => replicate (Z.to_nat (getSize r)) uninit end in
  let s := with_insts s (<[x := set_memData d i]> (insts s)) in
  let pkt := mkPkt r x (u8 load_idx) true false d in
  let ok := accepts (log s) pkt in
  let s := say s [Send pkt ok] in
  Ok (if ok then s else say s [BlockMemInst x]).

Definition read (s : t) (r : Request) (load_idx : Z) : res (option Fault * t) :=
  p ← vget (loadQueue (lq s)) load_idx;
  x ← (match p with Some x => Ok x | None => Err AssertFail end);
  i ← deref s x;
  _ ← assert_ (negb (isExecuted (status i)));
  if isStrictlyOrdered r && (negb (load_idx =? loadHead (lq s)) || negb (isAtCommit (status i))) then
    Ok (Some M5PanicFault, say s [Reschedule x])
  else
    let s := if isLLSC r then say s [LockedRead x r] else s in
    if isMmappedIpr r then
      _ ← assert_ (bool_decide (memData i = None));
      let d := handleIprRead (log s) x r in
      let pkt := mkPkt r x (u8 load_idx) true false d in
      s ← upd s x (set_memData d);
      Ok (None, say s [IprRead pkt; ScheduleWriteback pkt])
    else
      f ← (if sqIdx i =? -1 then Ok None else forward_loop (S (Z.to_nat (SQEntries (sq s)))) s x load_idx r (sqIdx i));
      match f with
      | Some s => Ok (None, s)
      | None => s ← access_memory s x load_idx r; Ok (None, s)
      end.

(** *** Stores: data *)
Definition write (s : t) (r : Request) (bytes : list Z) (store_idx : Z) : res (option Fault * t) :=
  e ← vget (storeQueue (sq s)) store_idx;
  _ ← assert_ (bool_decide (inst e ≠ None));
  let n := getSize r in
  _ ← assert_ ((n <=? vlen (data e)) || isBlockZero r);
  d ← (if isBlockZero r then Ok (data e)
       else _ ← guard_ (n <=? vlen bytes) OutOfRange; Ok (take (Z.to_nat n) bytes ++ drop (Z.to_nat n) (data e)));
  l ← vset (storeQueue (sq s)) store_idx (mkSQ (inst e) (Some r) (u8 n) d (canWB e) (committed e) (completed e) (isBlockZero r));
  Ok (None, with_sq s (with_entries (sq s) l)).

(** *** Answers of the memory *)
Definition writeback (s : t) (x : positive) (pkt : Packet) : res t :=
  let s := say s [WakeCPU] in
  i ← deref s x;
  if isSquashed (status i) then _ ← assert_ (negb (isStore (kind i))); Ok s
  else
    s ← (if negb (isExecuted (status i)) then
           s ← upd s x setExecuted;
           match fault i with
           | None => Ok (say s [CompleteAcc x pkt])
           | Some ReExec => Ok s
           | Some _ => Err AssertFail
           end
         else Ok s);
    Ok (say s [InstToCommit x; Activity; CheckMisprediction x]).

(** [WritebackEvent::process] *)
Definition process (s : t) (pkt : Packet) : res t := writeback s (p_inst pkt) pkt.

Definition completeDataAccess (s : t) (pkt : Packet) : res t :=
  let x := p_inst pkt in
  i ← deref s x;
  s ← (if negb (isSquashed (status i)) then
         s ← (if negb (p_noWB pkt) then writeback s x pkt else Ok s);
         if isStore (kind i) then completeStore s (p_idx pkt) else Ok s
       else Ok s);
  Ok (say s [AccessComplete x pkt]).

(** *** Size *)
Definition resizeLQ (s : t) (n : Z) : res t :=
  let m := u32 (n + 1) in
  let q := lq s in
  _ ← assert_ (LQEntries q <=? m);
  let k := (Z.to_nat m - length (loadQueue q))%nat in
  let q' := if LQEntries q <? m then mkLQ (loadQueue q ++ replicate k None) (LQEntries q + Z.of_nat k) (loads q) (loadHead q) (loadTail q) else mkLQ (loadQueue q) m (loads q) (loadHead q) (loadTail q) in
  _ ← assert_ (LQEntries q' <=? 256);
  Ok (with_lq s q').

Definition resizeSQ (s : t) (n : Z) : res t :=
  let m := u32 (n + 1) in
  let q := sq s in
  let k := (Z.to_nat m - length (storeQueue q))%nat in
  let q' := if SQEntries q <? m
            then mkStoreQ (storeQueue q ++ replicate k SQEntry_default) (SQEntries q + Z.of_nat k) (stores q) (storesToWB q) (storeHead q) (storeWBIdx q) (storeTail q)
            else mkStoreQ (storeQueue q) m (stores q) (storesToWB q) (storeHead q) (storeWBIdx q) (storeTail q) in
  _ ← assert_ (SQEntries q' <=? 256);
  Ok (with_sq s q').
End unit.
End LSQUnit.
