(* ===== verification/LsqRing.v ===== *)
(** * The load-store queue unit: circular queues

    Both queues are arrays with a head and a tail, in which one slot stays free.  They
    represent lists, oldest first, and the operations are operations on the lists. *)

From stdpp Require Import sorting.
From S2P Require Import Prelude Lsq.

Module LsqRing.
Import LSQUnit.

(** ** Slots *)
Definition slot (n h : Z) (k : Z) : Z := (h + k) mod n.

Lemma lsq_slot_range n h k : 0 < n → 0 ≤ slot n h k < n.
Proof. intros. apply Z.mod_pos_bound. lia. Qed.

Lemma slot_0 n h : 0 ≤ h < n → slot n h 0 = h.
Proof. intros. unfold slot. rewrite Z.add_0_r. by apply Z.mod_small. Qed.

Lemma slot_slot n h a b : slot n (slot n h a) b = slot n h (a + b).
Proof. unfold slot. rewrite Zplus_mod_idemp_l. f_equal. lia. Qed.

Lemma lsq_slot_inj n h a b : 0 ≤ a < n → 0 ≤ b < n → slot n h a = slot n h b → a = b.
Proof.
  unfold slot. intros Ha Hb E. pose proof (Z.mod_eq (h + a) n ltac:(lia)). pose proof (Z.mod_eq (h + b) n ltac:(lia)).
  assert (a - b = n * ((h + a) / n - (h + b) / n)) by lia. assert ((h + a) / n - (h + b) / n = 0 ∨ n ≤ Z.abs (a - b)) as [E0|]; [nia|nia|lia].
Qed.

Lemma slot_incr n h k : 0 < n → (if n <=? slot n h k + 1 then 0 else slot n h k + 1) = slot n h (k + 1).
Proof.
  intros Hn. pose proof (lsq_slot_range n h k Hn). rewrite <-(slot_slot n h k 1). generalize dependent (slot n h k). intros a Ha. unfold slot. destruct (Z.leb_spec n (a + 1)).
  - assert (a + 1 = n) as -> by lia. by rewrite Z.mod_same by lia.
  - by rewrite Z.mod_small by lia.
Qed.

Lemma slot_decr n h k : 0 < n → (if slot n h k - 1 <? 0 then slot n h k - 1 + n else slot n h k - 1) = slot n h (k - 1).
Proof.
  intros Hn. pose proof (lsq_slot_range n h k Hn). change (k - 1) with (k + -1). rewrite <-(slot_slot n h k (-1)). generalize dependent (slot n h k). intros a Ha. unfold slot. destruct (Z.ltb_spec (a - 1) 0).
  - assert (a = 0) as -> by lia. rewrite <-(Z.mod_unique_pos (0 + -1) n (-1) (n - 1)) by lia. lia.
  - rewrite Z.mod_small by lia. lia.
Qed.

Lemma slot_empty n h k : 0 ≤ h < n → 0 ≤ k < n → slot n h k = h ↔ k = 0.
Proof. intros Hh Hk. split; [|intros ->; by apply slot_0]. intros E. apply (lsq_slot_inj n h); [lia..|]. by rewrite slot_0. Qed.

(** ** Rings *)
Section ring.
Context {A : Type}.
Implicit Types (l es : list A).

(** The slots from [h] on hold [es]. *)
Definition ring l (h : Z) es : Prop :=
  0 ≤ h < vlen l ∧ vlen es < vlen l ∧ ∀ k e, es !! k = Some e → l !! Z.to_nat (slot (vlen l) h (Z.of_nat k)) = Some e.

Lemma ring_get l h es k e : ring l h es → es !! k = Some e → vget l (slot (vlen l) h (Z.of_nat k)) = Ok e.
Proof. intros (Hh & _ & Hr) Hk. apply vget_in; [apply lsq_slot_range; lia|by apply Hr]. Qed.

Lemma vlen_insert_at l (k : nat) (e : A) : vlen (<[k := e]> l) = vlen l.
Proof. unfold vlen. by rewrite length_insert. Qed.

Lemma slot_ne l h (a b : Z) : 0 ≤ h < vlen l → 0 ≤ a < vlen l → 0 ≤ b < vlen l → a ≠ b → Z.to_nat (slot (vlen l) h a) ≠ Z.to_nat (slot (vlen l) h b).
Proof.
  intros Hh Ha Hb Hne E. apply Hne, (lsq_slot_inj (vlen l) h); [done..|]. pose proof (lsq_slot_range (vlen l) h a ltac:(lia)). pose proof (lsq_slot_range (vlen l) h b ltac:(lia)). lia.
Qed.

Lemma vset_slot l h k e : 0 ≤ h < vlen l → vset l (slot (vlen l) h k) e = Ok (<[Z.to_nat (slot (vlen l) h k) := e]> l).
Proof. intros Hh. apply vset_in. apply lsq_slot_range. lia. Qed.

Lemma slot_lookup l h k e : 0 ≤ h < vlen l → <[Z.to_nat (slot (vlen l) h k) := e]> l !! Z.to_nat (slot (vlen l) h k) = Some e.
Proof. intros Hh. apply list_lookup_insert_eq. pose proof (lsq_slot_range (vlen l) h k ltac:(lia)). unfold vlen in *. lia. Qed.

Lemma ring_push l h es e : ring l h es → vlen es + 1 < vlen l → ring (<[Z.to_nat (slot (vlen l) h (vlen es)) := e]> l) h (es ++ [e]).
Proof.
  intros (Hh & Hn & Hr) Hlt. unfold ring. rewrite vlen_insert_at. split; [done|]. split; [unfold vlen in *; rewrite length_app; simpl; lia|].
  intros k x Hk. apply lookup_app_Some in Hk as [Hk|[Hle Hk]].
  - rewrite list_lookup_insert_ne; [by apply Hr|]. apply lookup_lt_Some in Hk. apply slot_ne; unfold vlen in *; lia.
  - apply list_lookup_singleton_Some in Hk as [Hk <-]. assert (Z.of_nat k = vlen es) as -> by (unfold vlen; lia). by apply slot_lookup.
Qed.

Lemma ring_update l h es k e : ring l h es → (k < length es)%nat → ring (<[Z.to_nat (slot (vlen l) h (Z.of_nat k)) := e]> l) h (<[k := e]> es).
Proof.
  intros (Hh & Hn & Hr) Hk. unfold ring. rewrite !vlen_insert_at. split; [done|]. split; [done|]. intros j x Hj.
  destruct (decide (j = k)) as [->|Hne].
  - rewrite list_lookup_insert_eq in Hj by done. injection Hj as <-. by apply slot_lookup.
  - rewrite list_lookup_insert_ne in Hj by done. rewrite list_lookup_insert_ne; [by apply Hr|]. apply lookup_lt_Some in Hj. apply slot_ne; unfold vlen in *; lia.
Qed.

Lemma ring_pop l h e es : ring l h (e :: es) → ring l (slot (vlen l) h 1) es.
Proof.
  intros (Hh & Hn & Hr). split; [apply lsq_slot_range; lia|]. split; [unfold vlen in *; simpl in Hn; lia|]. intros k x Hk. rewrite slot_slot.
  replace (1 + Z.of_nat k) with (Z.of_nat (S k)) by lia. by apply Hr.
Qed.

Lemma ring_shorter l h es k : ring l h es → ring l h (take k es).
Proof. intros (Hh & Hn & Hr). split; [done|]. split; [unfold vlen in *; rewrite length_take; lia|]. intros j x Hj. apply lookup_take_Some in Hj as [Hj _]. by apply Hr. Qed.

(** A slot outside may change. *)
Lemma ring_outside l h es k e : ring l h es → vlen es ≤ k < vlen l → ring (<[Z.to_nat (slot (vlen l) h k) := e]> l) h es.
Proof.
  intros (Hh & Hn & Hr) Hk. unfold ring. rewrite vlen_insert_at. split; [done|]. split; [done|]. intros j x Hj.
  rewrite list_lookup_insert_ne; [by apply Hr|]. apply lookup_lt_Some in Hj. apply slot_ne; unfold vlen in *; lia.
Qed.

Lemma ring_clear_head l h e es x : ring l h (e :: es) → ring (<[Z.to_nat h := x]> l) (slot (vlen l) h 1) es.
Proof.
  intros Hr. pose proof Hr as (Hh & Hn & _). assert (h = slot (vlen l) (slot (vlen l) h 1) (vlen l - 1)) as E.
  { rewrite slot_slot. unfold slot. replace (h + (1 + (vlen l - 1))) with (h + 1 * vlen l) by lia. rewrite Z.mod_add, Z.mod_small by lia. done. }
  rewrite E at 1. apply ring_outside; [by eapply ring_pop|]. unfold vlen in *. simpl in Hn. lia.
Qed.
End ring.
End LsqRing.
