(* ===== verification/LsqQueues.v ===== *)
(** * The load-store queue unit: what its queues hold

    [rep s ls st w]: the load queue holds the loads [ls] and the store queue the entries
    [st], oldest first; the next store to be written back is number [w]. *)

From stdpp Require Import sorting.
From S2P Require Import Prelude Lsq LsqRing.

Module LsqQueues.
Import LSQUnit LsqRing.

Record lrep (q : LQ) (ls : list positive) : Prop := {
  l_n : LQEntries q = vlen (loadQueue q) ∧ LQEntries q ≤ 256;
  l_ring : ring (loadQueue q) (loadHead q) (Some <$> ls);
  l_count : loads q = vlen ls;
  l_tail : loadTail q = slot (LQEntries q) (loadHead q) (vlen ls)
}.
Record srep (q : SQ) (st : list SQEntry) (w : Z) : Prop := {
  s_n : SQEntries q = vlen (storeQueue q) ∧ SQEntries q ≤ 256;
  s_ring : ring (storeQueue q) (storeHead q) st;
  s_count : stores q = vlen st;
  s_tail : storeTail q = slot (SQEntries q) (storeHead q) (vlen st);
  s_wb : storeWBIdx q = slot (SQEntries q) (storeHead q) w
}.

(** The number of an instruction, and of the store of an entry. *)
Definition num (m : gmap positive DynInst) (x : positive) : Z := from_option sn 0 (m !! x).
Definition enum (m : gmap positive DynInst) (e : SQEntry) : Z := from_option (num m) 0 (inst e).

Record known (m : gmap positive DynInst) (ls : list positive) (st : list SQEntry) : Prop := {
  k_loads : ∀ x, x ∈ ls → is_Some (m !! x);
  k_stores : ∀ e, e ∈ st → ∃ y, inst e = Some y ∧ is_Some (m !! y);
  k_lsorted : StronglySorted (λ x y, num m x < num m y) ls;
  k_ssorted : StronglySorted (λ e f, enum m e < enum m f) st
}.

Record rep (s : t) (ls : list positive) (st : list SQEntry) (w : Z) : Prop := {
  r_lq : lrep (lq s) ls; r_sq : srep (sq s) st w; r_known : known (insts s) ls st
}.

(** Instructions change, but not what they are. *)
Definition same_kinds (m m' : gmap positive DynInst) : Prop := ∀ x, kind <$> m' !! x = kind <$> m !! x.

Lemma same_kinds_num m m' x : same_kinds m m' → num m' x = num m x.
Proof. intros H. unfold num, sn. specialize (H x). destruct (m' !! x), (m !! x); try done. simpl in *. congruence. Qed.

Lemma same_kinds_some m m' x : same_kinds m m' → is_Some (m !! x) → is_Some (m' !! x).
Proof. intros H [i Hi]. specialize (H x). rewrite Hi in H. destruct (m' !! x); [by eexists|done]. Qed.

Lemma known_kinds m m' ls st : same_kinds m m' → known m ls st → known m' ls st.
Proof.
  intros H [H1 H2 H3 H4].
  assert (He : ∀ e, enum m' e = enum m e) by (intros e; unfold enum; destruct (inst e); simpl; [by apply same_kinds_num|done]). split.
  - intros x Hx. eapply same_kinds_some; eauto.
  - intros e Hex. destruct (H2 e Hex) as (y & ? & ?). exists y. split; [done|]. eapply same_kinds_some; eauto.
  - clear -H3 H. induction H3 as [|x k Hk IH Hx]; constructor; [done|]. eapply Forall_impl; [exact Hx|]. simpl. intros y. by rewrite !(same_kinds_num m m') by done.
  - clear -H4 He. induction H4 as [|x k Hk IH Hx]; constructor; [done|]. eapply Forall_impl; [exact Hx|]. simpl. intros y. by rewrite !He.
Qed.

Lemma same_kinds_upd m x i (f : DynInst → DynInst) : m !! x = Some i → kind (f i) = kind i → same_kinds m (<[x := f i]> m).
Proof. intros Hx Hf y. destruct (decide (y = x)) as [->|]; [rewrite lookup_insert_eq, Hx; simpl; by rewrite Hf|by rewrite lookup_insert_ne]. Qed.

Lemma same_kinds_trans m1 m2 m3 : same_kinds m1 m2 → same_kinds m2 m3 → same_kinds m1 m3.
Proof. intros H1 H2 x. by rewrite H2, H1. Qed.

Lemma upd_eq s x i f : insts s !! x = Some i → upd s x f = Ok (with_insts s (<[x := f i]> (insts s))).
Proof. intros H. unfold upd, deref. by rewrite H. Qed.

(** ** Changes of instructions that the invariant does not see *)
Record gentle (m m' : gmap positive DynInst) : Prop := {
  y_kinds : same_kinds m m';
  y_inst : ∀ x i', m' !! x = Some i' → ∃ i, m !! x = Some i ∧ access i' = access i ∧ sqIdx i' = sqIdx i ∧ (isExecuted (status i') = false → isExecuted (status i) = false);
  y_lq : ∀ x i', m' !! x = Some i' → ∃ i, m !! x = Some i ∧ lqIdx i' = lqIdx i
}.

Lemma gentle_refl m : gentle m m.
Proof. split; [done|..]; intros x i Hi; by exists i. Qed.

#[export] Hint Resolve gentle_refl : core.

Lemma gentle_upd m x i i' :
  m !! x = Some i → kind i' = kind i → access i' = access i → sqIdx i' = sqIdx i → (isExecuted (status i') = false → isExecuted (status i) = false) → lqIdx i' = lqIdx i → gentle m (<[x := i']> m).
Proof.
  intros Hx Hk Ha Hq He Hlq. split.
  - intros y. destruct (decide (y = x)) as [->|]; [rewrite lookup_insert_eq, Hx; simpl; by rewrite Hk|by rewrite lookup_insert_ne].
  - intros y j Hj. destruct (decide (y = x)) as [->|]; [rewrite lookup_insert_eq in Hj; injection Hj as <-; by exists i|rewrite lookup_insert_ne in Hj by done; by exists j].
  - intros y j Hj. destruct (decide (y = x)) as [->|]; [rewrite lookup_insert_eq in Hj; injection Hj as <-; by exists i|rewrite lookup_insert_ne in Hj by done; by exists j].
Qed.

Lemma gentle_trans m1 m2 m3 : gentle m1 m2 → gentle m2 m3 → gentle m1 m3.
Proof.
  intros [A1 A2 A3] [B1 B2 B3]. split; [by eapply same_kinds_trans|..]; intros x i3 H3; [|destruct (B3 _ _ H3) as (i2 & H2 & X1); destruct (A3 _ _ H2) as (i1 & H1 & X2); exists i1; split; [done|congruence]]. destruct (B2 _ _ H3) as (i2 & H2 & X1 & X2 & X3). destruct (A2 _ _ H2) as (i1 & H1 & Y1 & Y2 & Y3).
  exists i1. split_and!; [done|congruence|congruence|auto].
Qed.

Lemma lincr q ls k : lrep q ls → incrLdIdx q (slot (LQEntries q) (loadHead q) k) = slot (LQEntries q) (loadHead q) (k + 1).
Proof. intros [[Hn _] [Hh _] _ _]. apply slot_incr. rewrite Hn. lia. Qed.
Lemma ldecr q ls k : lrep q ls → decrLdIdx q (slot (LQEntries q) (loadHead q) k) = slot (LQEntries q) (loadHead q) (k - 1).
Proof. intros [[Hn _] [Hh _] _ _]. apply slot_decr. rewrite Hn. lia. Qed.
Lemma sincr q st w k : srep q st w → incrStIdx q (slot (SQEntries q) (storeHead q) k) = slot (SQEntries q) (storeHead q) (k + 1).
Proof. intros [[Hn _] [Hh _] _ _ _]. apply slot_incr. rewrite Hn. lia. Qed.
Lemma sdecr q st w k : srep q st w → decrStIdx q (slot (SQEntries q) (storeHead q) k) = slot (SQEntries q) (storeHead q) (k - 1).
Proof. intros [[Hn _] [Hh _] _ _ _]. apply slot_decr. rewrite Hn. lia. Qed.

Lemma lget q ls k x : lrep q ls → ls !! k = Some x → vget (loadQueue q) (slot (LQEntries q) (loadHead q) (Z.of_nat k)) = Ok (Some x).
Proof. intros [[Hn _] Hr _ _] Hk. rewrite Hn. eapply ring_get; [done|]. by rewrite list_lookup_fmap, Hk. Qed.
Lemma sget q st w k e : srep q st w → st !! k = Some e → vget (storeQueue q) (slot (SQEntries q) (storeHead q) (Z.of_nat k)) = Ok e.
Proof. intros [[Hn _] Hr _ _ _] Hk. rewrite Hn. by eapply ring_get. Qed.

Lemma lhead q ls : lrep q ls → 0 ≤ loadHead q < LQEntries q ∧ vlen ls < LQEntries q ∧ slot (LQEntries q) (loadHead q) 0 = loadHead q.
Proof. intros [[Hn _] (Hh & Hl & _) _ _]. rewrite Hn. unfold vlen in *. rewrite length_fmap in Hl. split_and!; [lia..|]. apply slot_0. lia. Qed.
Lemma shead q st w : srep q st w → 0 ≤ storeHead q < SQEntries q ∧ vlen st < SQEntries q ∧ slot (SQEntries q) (storeHead q) 0 = storeHead q.
Proof. intros [[Hn _] (Hh & Hl & _) _ _ _]. rewrite Hn. split_and!; [lia..|]. apply slot_0. lia. Qed.

(** Whether an index is the tail. *)
Lemma ltail_eq q ls k : lrep q ls → 0 ≤ k ≤ vlen ls → (slot (LQEntries q) (loadHead q) k =? loadTail q) = (k =? vlen ls).
Proof.
  intros Hr Hk. destruct (lhead _ _ Hr) as (? & ? & _). rewrite (l_tail _ _ Hr). destruct (Z.eqb_spec k (vlen ls)) as [->|Hne]; [apply Z.eqb_refl|].
  apply Z.eqb_neq. intros E. apply Hne. eapply lsq_slot_inj; [..|exact E]; lia.
Qed.
Lemma stail_eq q st w k : srep q st w → 0 ≤ k ≤ vlen st → (slot (SQEntries q) (storeHead q) k =? storeTail q) = (k =? vlen st).
Proof.
  intros Hr Hk. destruct (shead _ _ _ Hr) as (? & ? & _). rewrite (s_tail _ _ _ Hr). destruct (Z.eqb_spec k (vlen st)) as [->|Hne]; [apply Z.eqb_refl|].
  apply Z.eqb_neq. intros E. apply Hne. eapply lsq_slot_inj; [..|exact E]; lia.
Qed.

Lemma lsq_sorted_snoc {A} (R : relation A) l x : StronglySorted R l → (∀ y, y ∈ l → R y x) → StronglySorted R (l ++ [x]).
Proof. intros Hl Hx. apply StronglySorted_app_2; [|done|repeat constructor]. intros y z Hy ->%list_elem_of_singleton. by apply Hx. Qed.

(** ** Insertion *)
Lemma full_tail n h k : 0 ≤ h < n → n ≤ 256 → 0 ≤ k → k + 1 < n →
  umod (u32 (slot n h k + 1)) n = Ok (slot n h (k + 1)) ∧ negb (slot n h (k + 1) =? h) = true.
Proof.
  intros Hh Hn Hk Hlt. pose proof (lsq_slot_range n h k ltac:(lia)). unfold umod. rewrite (proj2 (Z.eqb_neq n 0)) by lia. simpl. unfold u32. rewrite (Z.mod_small (slot n h k + 1) (2 ^ 32)) by lia. split.
  - f_equal. rewrite <-(slot_slot n h k 1). reflexivity.
  - apply negb_true_iff, Z.eqb_neq. rewrite slot_empty by lia. lia.
Qed.

Lemma insertLoad_rep s ls st w x i :
  rep s ls st w → insts s !! x = Some i → vlen ls + 1 < LQEntries (lq s) → (∀ y, y ∈ ls → num (insts s) y < sn i) →
  ∃ q, let s' := with_lq (with_insts s (<[x := set_idx (loadTail (lq s)) (if stores (sq s) =? 0 then -1 else storeTail (sq s)) i]> (insts s))) q in
    insertLoad s x = Ok s' ∧ rep s' (ls ++ [x]) st w ∧ loadHead q = loadHead (lq s) ∧ LQEntries q = LQEntries (lq s).
Proof.
  intros [Hl Hs Hk] Hx Hlt Hy. pose proof (lhead _ _ Hl) as (Hh & _ & _). pose proof Hl as [[Hn H256] Hr Hc Ht].
  destruct (full_tail (LQEntries (lq s)) (loadHead (lq s)) (vlen ls) Hh H256 ltac:(unfold vlen; lia) Hlt) as [E1 E2].
  unfold insertLoad. rewrite Ht, E1. cbn [mbind res_bind]. rewrite E2. cbn [mbind res_bind assert_].
  rewrite Hc. unfold u32 at 1. rewrite Z.mod_small by (unfold vlen in *; lia). rewrite (proj2 (Z.ltb_lt _ _)) by lia. cbn [mbind res_bind assert_].
  rewrite (upd_eq _ _ _ _ Hx). cbn [mbind res_bind]. rewrite Hn, vset_slot by lia. cbn [mbind res_bind]. rewrite <-Hn.
  eexists. split; [done|]. split; [|done]. split; simpl.
  - assert (@vlen ptr (@fmap list _ _ ptr Some ls) = vlen ls) as Ev by (unfold vlen; by rewrite length_fmap). split; simpl.
    + by rewrite vlen_insert_at.
    + rewrite fmap_app. simpl. rewrite <-Ev, Hn. apply ring_push; [done|]. unfold vlen in *. rewrite length_fmap. lia.
    + unfold vlen. rewrite length_app. simpl. lia.
    + replace (vlen (ls ++ [x])) with (vlen ls + 1) by (unfold vlen; rewrite length_app; simpl; lia). by eapply lincr.
  - done.
  - assert (Hsk : same_kinds (insts s) (<[x := set_idx (loadTail (lq s)) (if stores (sq s) =? 0 then -1 else storeTail (sq s)) i]> (insts s))) by (by apply same_kinds_upd).
    rewrite Ht in Hsk. eapply known_kinds; [exact Hsk|]. destruct Hk as [K1 K2 K3 K4]. split; try done.
    + intros y [Hin| ->%list_elem_of_singleton]%elem_of_app; [by apply K1|by eexists].
    + apply lsq_sorted_snoc; [done|]. intros y Hin. unfold num at 2. rewrite Hx. by apply Hy.
Qed.

Lemma insertStore_rep s ls st w x i :
  rep s ls st w → insts s !! x = Some i → vlen st + 1 < SQEntries (sq s) → (∀ e, e ∈ st → enum (insts s) e < sn i) →
  ∃ q, let s' := with_sq (with_insts s (<[x := set_idx (loadTail (lq s)) (storeTail (sq s)) i]> (insts s))) q in
    insertStore s x = Ok s' ∧ rep s' ls (st ++ [SQEntry_new x]) w ∧ storeHead q = storeHead (sq s) ∧ SQEntries q = SQEntries (sq s) ∧ storesToWB q = storesToWB (sq s).
Proof.
  intros [Hl Hs Hk] Hx Hlt Hy. pose proof (shead _ _ _ Hs) as (Hh & _ & _). pose proof Hs as [[Hn H256] Hr Hc Ht Hw].
  destruct (full_tail (SQEntries (sq s)) (storeHead (sq s)) (vlen st) Hh H256 ltac:(unfold vlen; lia) Hlt) as [E1 E2].
  unfold insertStore. rewrite Ht, E1. cbn [mbind res_bind]. rewrite E2. cbn [mbind res_bind assert_].
  rewrite Hc. unfold u32 at 1. rewrite Z.mod_small by (unfold vlen in *; lia). rewrite (proj2 (Z.ltb_lt _ _)) by lia. cbn [mbind res_bind assert_].
  rewrite (upd_eq _ _ _ _ Hx). cbn [mbind res_bind]. rewrite Hn, vset_slot by lia. cbn [mbind res_bind]. rewrite <-Hn.
  eexists. split; [done|]. split; [|done]. split; simpl.
  - done.
  - split; simpl.
    + by rewrite vlen_insert_at.
    + rewrite Hn. apply ring_push; [done|]. lia.
    + unfold vlen. rewrite length_app. simpl. lia.
    + replace (vlen (st ++ [SQEntry_new x])) with (vlen st + 1) by (unfold vlen; rewrite length_app; simpl; lia). by eapply sincr.
    + done.
  - assert (Hsk : same_kinds (insts s) (<[x := set_idx (loadTail (lq s)) (storeTail (sq s)) i]> (insts s))) by (by apply same_kinds_upd).
    rewrite Ht in Hsk. eapply known_kinds; [exact Hsk|]. destruct Hk as [K1 K2 K3 K4]. split; try done.
    + intros e [Hin| ->%list_elem_of_singleton]%elem_of_app; [by apply K2|]. exists x. split; [done|by eexists].
    + apply lsq_sorted_snoc; [done|]. intros e Hin. unfold enum at 2. simpl. unfold num. rewrite Hx. by apply Hy.
Qed.

(** ** Loads commit *)
Lemma commitLoad_rep s x ls st w :
  rep s (x :: ls) st w → ∃ q, commitLoad s = Ok (with_lq s q) ∧ rep (with_lq s q) ls st w ∧ loadTail q = loadTail (lq s) ∧ LQEntries q = LQEntries (lq s).
Proof.
  intros [Hl Hs Hk]. pose proof (lhead _ _ Hl) as (Hh & _ & E0). pose proof Hl as [[Hn H256] Hr Hc Ht]. unfold commitLoad.
  pose proof (lget _ _ 0 x Hl eq_refl) as Eg. change (Z.of_nat 0) with 0 in Eg. rewrite E0 in Eg. rewrite Eg. cbn [mbind res_bind]. rewrite bool_decide_eq_true_2 by done.
  cbn [mbind res_bind assert_]. rewrite vset_in by lia. cbn [mbind res_bind]. eexists. split; [done|]. split; [|done]. split; [|done|]; simpl.
  - assert (Ei : incrLdIdx (lq s) (loadHead (lq s)) = slot (LQEntries (lq s)) (loadHead (lq s)) 1) by (rewrite <-E0 at 1; apply (lincr _ _ 0 Hl)).
    split; simpl.
    + by rewrite vlen_insert_at.
    + rewrite Ei, Hn. by eapply ring_clear_head.
    + rewrite Hc. unfold vlen. simpl. lia.
    + rewrite Ei, slot_slot, Ht. f_equal. unfold vlen. simpl. lia.
  - destruct Hk as [K1 K2 K3 K4]. split; try done; [intros y Hy; apply K1; by right|by inversion K3].
Qed.

Lemma lsq_filter_all {A} (P : A → Prop) `{∀ x, Decision (P x)} (l : list A) : (∀ x, x ∈ l → P x) → filter P l = l.
Proof. intros Hl. by apply filter_all, Forall_forall. Qed.

Lemma commitLoads_loop_rep fuel s ls st w y :
  rep s ls st w → (length ls < fuel)%nat →
  ∃ q, commitLoads_loop fuel s y = Ok (with_lq s q) ∧ rep (with_lq s q) (filter (λ x, y < num (insts s) x) ls) st w ∧ loadTail q = loadTail (lq s) ∧ LQEntries q = LQEntries (lq s).
Proof.
  revert s ls. induction fuel as [|fuel IH]; intros s ls Hr Hf; [lia|]. cbn [commitLoads_loop]. rewrite (l_count _ _ (r_lq _ _ _ _ Hr)). destruct ls as [|x ls].
  - simpl. exists (lq s). split_and!; [by destruct s|by destruct s|done..].
  - rewrite (proj2 (Z.eqb_neq _ 0)) by (unfold vlen; simpl; lia). pose proof (lhead _ _ (r_lq _ _ _ _ Hr)) as (_ & _ & E0).
    pose proof (lget _ _ 0 x (r_lq _ _ _ _ Hr) eq_refl) as Eg. change (Z.of_nat 0) with 0 in Eg. rewrite E0 in Eg. rewrite Eg. cbn [mbind res_bind thePtr].
    destruct (k_loads _ _ _ (r_known _ _ _ _ Hr) x ltac:(left)) as [i Hi]. unfold deref. rewrite Hi. cbn [mbind res_bind].
    assert (En : num (insts s) x = sn i) by (unfold num; by rewrite Hi). destruct (Z.leb_spec (sn i) y).
    + destruct (commitLoad_rep _ _ _ _ _ Hr) as (q & -> & Hq & T1 & T2). cbn [mbind res_bind]. destruct (IH _ _ Hq ltac:(simpl in Hf; lia)) as (q' & E & Hq' & T3 & T4).
      simpl in E, Hq', T3, T4. exists q'. rewrite filter_cons_False by lia. split_and!; [exact E|exact Hq'|congruence..].
    + exists (lq s). rewrite lsq_filter_all; [split_and!; [by destruct s|by destruct s|done..]|]. intros z [->|Hz]%elem_of_cons; [lia|].
      pose proof (k_lsorted _ _ _ (r_known _ _ _ _ Hr)) as Hso. apply StronglySorted_inv in Hso as [_ Hso]. rewrite Forall_forall in Hso. specialize (Hso z Hz). simpl in Hso. lia.
Qed.

Lemma commitLoads_rep s ls st w y :
  rep s ls st w →
  ∃ q, commitLoads s y = Ok (with_lq s q) ∧ rep (with_lq s q) (filter (λ x, y < num (insts s) x) ls) st w ∧ loadTail q = loadTail (lq s) ∧ LQEntries q = LQEntries (lq s).
Proof.
  intros Hr. pose proof (lhead _ _ (r_lq _ _ _ _ Hr)) as (Hh & Hlt & E0). pose proof (l_n _ _ (r_lq _ _ _ _ Hr)) as [Hn _]. unfold commitLoads.
  destruct (lookup_lt_is_Some_2 (loadQueue (lq s)) (Z.to_nat (loadHead (lq s))) ltac:(unfold vlen in *; lia)) as [p Hp]. rewrite (vget_in _ _ p) by (done || lia). cbn [mbind res_bind].
  match goal with |- context [assert_ ?b] => assert (b = true) as -> end.
  { rewrite (l_count _ _ (r_lq _ _ _ _ Hr)). destruct ls as [|x ls]; [done|]. pose proof (lget _ _ 0 x (r_lq _ _ _ _ Hr) eq_refl) as Eg. change (Z.of_nat 0) with 0 in Eg.
    rewrite E0, (vget_in _ _ p) in Eg by (done || lia). injection Eg as ->. by rewrite orb_true_r. }
  cbn [mbind res_bind assert_]. apply commitLoads_loop_rep; [done|]. unfold vlen in *. lia.
Qed.

(** ** Squash *)

(** What a squash leaves alone. *)
Record frame (s s' : t) : Prop := {
  f_port : port s' = port s; f_viol : memDepViolator s' = memDepViolator s; f_log : log s' = log s; f_kinds : same_kinds (insts s) (insts s');
  f_flags : ∀ x i', insts s' !! x = Some i' → ∃ i, insts s !! x = Some i ∧ (i' = i ∨ i' = setSquashed i)
}.

Lemma lsq_frame_refl s : frame s s.
Proof. split; try done. intros x i Hi. exists i. auto. Qed.

Lemma lsq_frame_trans s1 s2 s3 : frame s1 s2 → frame s2 s3 → frame s1 s3.
Proof.
  intros [A1 A2 A3 A4 A5] [B1 B2 B3 B4 B5]. split; [congruence..|by eapply same_kinds_trans|]. intros x i3 H3.
  destruct (B5 _ _ H3) as (i2 & H2 & E2), (A5 _ _ H2) as (i1 & H1 & E1). exists i1. split; [done|]. destruct E1, E2; subst; auto.
Qed.

Lemma known_prefix m ls st ls' st' : ls' `prefix_of` ls → st' `prefix_of` st → known m ls st → known m ls' st'.
Proof.
  intros [lr ->] [sr ->] [K1 K2 K3 K4]. split; [intros x Hx; apply K1; set_solver|intros e He; apply K2; set_solver| |]; by eapply StronglySorted_app_1_l.
Qed.

Lemma sorted_last {A} (f : A → Z) l x : StronglySorted (λ a b, f a < f b) (l ++ [x]) → ∀ y, y ∈ l ++ [x] → f y ≤ f x.
Proof.
  intros Hs y [Hy| ->%list_elem_of_singleton]%elem_of_app; [|lia]. pose proof (StronglySorted_app_1_elem_of _ _ _ y x Hs Hy ltac:(left)) as R. simpl in R. lia.
Qed.

Lemma with_stall_same (b : bool) s q : lq (if b then with_stall s q else s) = lq s ∧ sq (if b then with_stall s q else s) = sq s ∧ insts (if b then with_stall s q else s) = insts s ∧
  port (if b then with_stall s q else s) = port s ∧ memDepViolator (if b then with_stall s q else s) = memDepViolator s ∧ log (if b then with_stall s q else s) = log s ∧
  stall (if b then with_stall s q else s) = (if b then q else stall s).
Proof. by destruct b. Qed.

Lemma squash_loads_rep n ls fuel s st w :
  rep s ls st w → (length ls < fuel)%nat →
  ∃ s', squash_loads fuel s (slot (LQEntries (lq s)) (loadHead (lq s)) (vlen ls - 1)) n = Ok s' ∧ rep s' (filter (λ x, num (insts s) x ≤ n) ls) st w ∧
    frame s s' ∧ sq s' = sq s ∧ LQEntries (lq s') = LQEntries (lq s) ∧ loadHead (lq s') = loadHead (lq s) ∧
    (stalled (stall s') = true → stall s' = stall s ∧
      ∀ k x, ls !! k = Some x → n < num (insts s) x → stallingLoadIdx (stall s) ≠ slot (LQEntries (lq s)) (loadHead (lq s)) (Z.of_nat k)).
Proof.
  revert fuel s. induction ls as [|x ls IH] using rev_ind; intros fuel s Hr Hf; destruct fuel as [|fuel]; try lia; cbn [squash_loads].
  - rewrite (l_count _ _ (r_lq _ _ _ _ Hr)). simpl. exists s. split_and!; try done; [apply lsq_frame_refl].
  - pose proof Hr as [Hl Hs Hk]. pose proof (l_n _ _ Hl) as [Hn H256]. pose proof (lhead _ _ Hl) as (Hh & Hlt & _). rewrite length_app in Hf. simpl in Hf.
    assert (Ev : vlen (ls ++ [x]) = vlen ls + 1) by (unfold vlen; rewrite length_app; simpl; lia).
    rewrite (l_count _ _ Hl), (proj2 (Z.eqb_neq _ 0)) by (unfold vlen in *; lia). rewrite Ev. replace (vlen ls + 1 - 1) with (Z.of_nat (length ls)) by (unfold vlen; lia).
    assert (Hx : (ls ++ [x]) !! length ls = Some x) by (by rewrite lookup_app_r, Nat.sub_diag by lia). rewrite (lget _ _ _ _ Hl Hx). cbn [mbind res_bind thePtr].
    destruct (k_loads _ _ _ Hk x ltac:(set_solver)) as [i Hi]. unfold deref. rewrite Hi. cbn [mbind res_bind]. assert (En : num (insts s) x = sn i) by (unfold num; by rewrite Hi).
    destruct (Z.ltb_spec n (sn i)).
    + set (b := stalled (stall s) && _). destruct (with_stall_same b s (mkStall false 0 0)) as (W1 & W2 & W3 & W4 & W5 & W6 & W7). set (s0 := if b then with_stall s _ else s) in *.
      rewrite (upd_eq s0 x i) by (by rewrite W3). cbn [mbind res_bind]. rewrite Hn, vset_slot by lia. cbn [mbind res_bind]. rewrite <-Hn.
      rewrite (ldecr _ _ _ Hl). set (s1 := with_lq _ _).
      assert (Hsk : same_kinds (insts s) (insts s1)) by (unfold s1; simpl; rewrite W3; by apply same_kinds_upd).
      assert (Hr1 : rep s1 ls st w).
      { split; [|unfold s1; simpl; by rewrite W2|eapply known_kinds; [exact Hsk|]; eapply known_prefix; [by exists [x]|done|exact Hk]]. split; simpl.
        - by rewrite vlen_insert_at.
        - rewrite Hn. pose proof (l_ring _ _ Hl) as Hrg. rewrite fmap_app in Hrg. apply (ring_shorter _ _ _ (length ls)) in Hrg. rewrite take_app_length' in Hrg by (by rewrite length_fmap).
          apply ring_outside; [done|]. unfold vlen in *. rewrite length_fmap. lia.
        - unfold vlen in *. lia.
        - done. }
      destruct (IH fuel s1 Hr1 ltac:(lia)) as (s' & E & Hr' & Hf' & E2 & E3 & E4 & Hst). exists s'.
      assert (Hnum : ∀ y, num (insts s1) y = num (insts s) y) by (intros y; by apply same_kinds_num).
      assert (Hfil : filter (λ y, num (insts s1) y ≤ n) ls = filter (λ y, num (insts s) y ≤ n) (ls ++ [x])).
      { rewrite filter_app. rewrite (filter_cons_False _ x) by lia. simpl. rewrite filter_nil, app_nil_r. apply list_filter_iff. intros y. by rewrite Hnum. }
      rewrite Hfil in Hr'. split_and!; [exact E|done| |by rewrite E2; unfold s1; simpl|by rewrite E3|by rewrite E4|].
      { eapply lsq_frame_trans; [|exact Hf']. split; [exact W4|exact W5|exact W6|done|]. intros y j Hj. unfold s1 in Hj. simpl in Hj. rewrite W3 in Hj.
        destruct (decide (y = x)) as [->|]; [rewrite lookup_insert_eq in Hj; injection Hj as <-; eauto|rewrite lookup_insert_ne in Hj by done; eauto]. }
      intros Hst'. destruct (Hst Hst') as [Es Hks]. assert (Est : stall s1 = (if b then mkStall false 0 0 else stall s)) by exact W7.
      assert (Hb : b = false). { apply not_true_is_false. intros Eb. rewrite Es, Est, Eb in Hst'. done. }
      rewrite Hb in Est. rewrite Est in *. split; [done|].
      intros k y Hy Hny. apply lookup_app_Some in Hy as [Hy|[Hle Hy]].
      * eapply Hks; [done|by rewrite Hnum].
      * apply list_lookup_singleton_Some in Hy as [Hk0 <-]. assert (k = length ls) as -> by lia. unfold b in Hb. rewrite Es in Hst'. rewrite Hst' in Hb. simpl in Hb. by apply Z.eqb_neq in Hb.
    + pose proof (sorted_last (num (insts s)) _ _ (k_lsorted _ _ _ Hk)) as Hmax. exists s. rewrite lsq_filter_all.
      2:{ intros y Hy. specialize (Hmax y Hy). lia. }
      split_and!; try done; [apply lsq_frame_refl|]. intros _. split; [done|]. intros k y Hy Hny. specialize (Hmax y ltac:(by eapply list_elem_of_lookup_2)). lia.
Qed.

Lemma squash_stores_rep n st fuel s ls w :
  rep s ls st w → (length st < fuel)%nat →
  (∀ e, e ∈ st → n < enum (insts s) e → canWB e = false ∧ (stalled (stall s) = true → enum (insts s) e ≠ stallingStoreIsn (stall s))) →
  ∃ s', squash_stores fuel s (slot (SQEntries (sq s)) (storeHead (sq s)) (vlen st - 1)) n = Ok s' ∧ rep s' ls (filter (λ e, enum (insts s) e ≤ n) st) w ∧
    frame s s' ∧ lq s' = lq s ∧ stall s' = stall s ∧ SQEntries (sq s') = SQEntries (sq s) ∧ storeHead (sq s') = storeHead (sq s) ∧ storesToWB (sq s') = storesToWB (sq s).
Proof.
  revert fuel s. induction st as [|e st IH] using rev_ind; intros fuel s Hr Hf Hwb; destruct fuel as [|fuel]; try lia; cbn [squash_stores].
  - rewrite (s_count _ _ _ (r_sq _ _ _ _ Hr)). simpl. exists s. split_and!; try done; [apply lsq_frame_refl].
  - pose proof Hr as [Hl Hs Hk]. pose proof (s_n _ _ _ Hs) as [Hn H256]. pose proof (shead _ _ _ Hs) as (Hh & Hlt & _). rewrite length_app in Hf. simpl in Hf.
    assert (Ev : vlen (st ++ [e]) = vlen st + 1) by (unfold vlen; rewrite length_app; simpl; lia).
    rewrite (s_count _ _ _ Hs), (proj2 (Z.eqb_neq _ 0)) by (unfold vlen in *; lia). rewrite Ev. replace (vlen st + 1 - 1) with (Z.of_nat (length st)) by (unfold vlen; lia).
    assert (Hx : (st ++ [e]) !! length st = Some e) by (by rewrite lookup_app_r, Nat.sub_diag by lia). rewrite (sget _ _ _ _ _ Hs Hx). cbn [mbind res_bind].
    destruct (k_stores _ _ _ Hk e ltac:(set_solver)) as (x & Ex & [i Hi]). rewrite Ex. cbn [mbind res_bind thePtr]. unfold deref. rewrite Hi. cbn [mbind res_bind].
    assert (En : enum (insts s) e = sn i) by (unfold enum, num; rewrite Ex; simpl; by rewrite Hi). destruct (Z.ltb_spec n (sn i)).
    + destruct (Hwb e ltac:(set_solver) ltac:(lia)) as [Hcw Hsl]. rewrite Hcw.
      assert (stalled (stall s) && (sn i =? stallingStoreIsn (stall s)) = false) as ->.
      { destruct (stalled (stall s)); [|done]. apply Z.eqb_neq. rewrite <-En. by apply Hsl. }
      rewrite (upd_eq s x i) by done. cbn [mbind res_bind]. rewrite Hn, vset_slot by lia. cbn [mbind res_bind]. rewrite <-Hn, (sdecr _ _ _ _ Hs). set (s1 := with_sq _ _).
      assert (Hsk : same_kinds (insts s) (insts s1)) by (by apply same_kinds_upd).
      assert (Hr1 : rep s1 ls st w).
      { split; [done| |eapply known_kinds; [exact Hsk|]; eapply known_prefix; [done|by exists [e]|exact Hk]]. split; simpl.
        - by rewrite vlen_insert_at.
        - rewrite Hn. pose proof (s_ring _ _ _ Hs) as Hrg. apply (ring_shorter _ _ _ (length st)) in Hrg. rewrite take_app_length' in Hrg by done.
          apply ring_outside; [done|]. unfold vlen in *. lia.
        - unfold vlen in *. lia.
        - done.
        - apply Hs. }
      assert (Hnum : ∀ f, enum (insts s1) f = enum (insts s) f) by (intros f; unfold enum; destruct (inst f); simpl; [by apply (same_kinds_num (insts s))|done]).
      destruct (IH fuel s1 Hr1 ltac:(lia)) as (s' & E & Hr' & Hf' & E2 & E3 & E4 & E5 & E6).
      { intros f Hfin. rewrite Hnum. apply Hwb. set_solver. }
      exists s'.
      assert (Hfil : filter (λ f, enum (insts s1) f ≤ n) st = filter (λ f, enum (insts s) f ≤ n) (st ++ [e])).
      { rewrite filter_app. rewrite (filter_cons_False _ e) by lia. simpl. rewrite filter_nil, app_nil_r. apply list_filter_iff. intros f. by rewrite Hnum. }
      rewrite Hfil in Hr'. split_and!; [exact E|done| |done..].
      eapply lsq_frame_trans; [|exact Hf']. split; try done. intros y j Hj. unfold s1 in Hj. simpl in Hj.
      destruct (decide (y = x)) as [->|]; [rewrite lookup_insert_eq in Hj; injection Hj as <-; eauto|rewrite lookup_insert_ne in Hj by done; eauto].
    + pose proof (sorted_last (enum (insts s)) _ _ (k_ssorted _ _ _ Hk)) as Hmax. exists s. rewrite lsq_filter_all.
      2:{ intros f Hfin. specialize (Hmax f Hfin). lia. }
      split_and!; try done; apply lsq_frame_refl.
Qed.

(** ** Stores commit *)
Fixpoint mark (m : gmap positive DynInst) (y : Z) (st : list SQEntry) : list SQEntry :=
  match st with
  | [] => []
  | e :: st => if canWB e then e :: mark m y st else if y <? enum m e then e :: st else set_canWB e :: mark m y st
  end.

(** Stores that may be written back and are not complete. *)
Definition pending (e : SQEntry) : bool := canWB e && negb (completed e).
Definition toWB (st : list SQEntry) : Z := vlen (filter pending st).

Lemma toWB_cons e st : toWB (e :: st) = (if pending e then 1 else 0) + toWB st.
Proof. unfold toWB, vlen. rewrite filter_cons. destruct (pending e); simpl; [lia|done]. Qed.

Lemma srep_update q st w k e : srep q st w → (k < length st)%nat →
  srep (with_entries q (<[Z.to_nat (slot (SQEntries q) (storeHead q) (Z.of_nat k)) := e]> (storeQueue q))) (<[k := e]> st) w.
Proof.
  intros [[Hn H256] Hr Hc Ht Hw] Hk. split; simpl; rewrite ?vlen_insert_at; try done. rewrite Hn. by apply ring_update.
Qed.

Lemma known_update m ls st k e e' : known m ls st → st !! k = Some e → inst e' = inst e → known m ls (<[k := e']> st).
Proof.
  intros [K1 K2 K3 K4] Hk He. assert (Henum : enum m e' = enum m e) by (unfold enum; by rewrite He). split; try done.
  - intros f Hf. apply list_elem_of_lookup in Hf as [j Hj]. destruct (decide (j = k)) as [->|].
    + rewrite list_lookup_insert_eq in Hj by (by eapply lookup_lt_Some). injection Hj as <-. rewrite He. apply K2. by eapply list_elem_of_lookup_2.
    + rewrite list_lookup_insert_ne in Hj by done. apply K2. by eapply list_elem_of_lookup_2.
  - clear -K4 Hk Henum. revert k Hk. induction K4 as [|f st Hst IH Hf]; intros k Hk; [done|]. rewrite Forall_forall in Hf. destruct k as [|k]; simpl in *.
    + injection Hk as ->. constructor; [done|]. apply Forall_forall. intros g Hg. rewrite Henum. by apply Hf.
    + constructor; [by apply IH|]. apply Forall_forall. intros g Hg. apply list_elem_of_lookup in Hg as [j Hj]. destruct (decide (j = k)) as [->|].
      * rewrite list_lookup_insert_eq in Hj by (by eapply lookup_lt_Some). injection Hj as <-. rewrite Henum. apply Hf. by eapply list_elem_of_lookup_2.
      * rewrite list_lookup_insert_ne in Hj by done. apply Hf. by eapply list_elem_of_lookup_2.
Qed.

Lemma mod_entry_rep s ls st w k e f :
  rep s ls st w → st !! k = Some e → inst (f e) = inst e →
  ∃ q, mod_entry s (slot (SQEntries (sq s)) (storeHead (sq s)) (Z.of_nat k)) f = Ok (with_sq s q) ∧ rep (with_sq s q) ls (<[k := f e]> st) w ∧
    storesToWB q = storesToWB (sq s) ∧ storeHead q = storeHead (sq s) ∧ SQEntries q = SQEntries (sq s) ∧ storeTail q = storeTail (sq s) ∧ storeWBIdx q = storeWBIdx (sq s).
Proof.
  intros [Hl Hs Hk] He Hf. unfold mod_entry, vmod. rewrite (sget _ _ _ _ _ Hs He). cbn [mbind res_bind].
  pose proof (s_n _ _ _ Hs) as [Hn _]. pose proof (shead _ _ _ Hs) as (Hh & _ & _). rewrite Hn, vset_slot by lia. cbn [mbind res_bind]. rewrite <-Hn.
  eexists. split; [done|]. split; [|done]. split; simpl; [done|apply srep_update; [done|by eapply lookup_lt_Some]|by eapply known_update].
Qed.

Lemma rep_toWB s ls st w n : rep s ls st w → rep (with_sq s (with_toWB (sq s) n)) ls st w.
Proof. intros [Hl [] Hk]. by split. Qed.

Definition same_place (q q' : SQ) : Prop :=
  storeHead q' = storeHead q ∧ SQEntries q' = SQEntries q ∧ storeTail q' = storeTail q ∧ storeWBIdx q' = storeWBIdx q.

Lemma commitStores_loop_rep y rest d fuel s ls w :
  rep s ls (d ++ rest) w → (length rest < fuel)%nat → (∀ e, e ∈ rest → completed e = true → canWB e = true) →
  ∃ q, commitStores_loop fuel s (slot (SQEntries (sq s)) (storeHead (sq s)) (vlen d)) y = Ok (with_sq s q) ∧ rep (with_sq s q) ls (d ++ mark (insts s) y rest) w ∧
    storesToWB q = storesToWB (sq s) + (toWB (mark (insts s) y rest) - toWB rest) ∧ same_place (sq s) q.
Proof.
  revert d fuel s. induction rest as [|e rest IH]; intros d fuel s Hr Hf Hc; destruct fuel as [|fuel]; try (simpl in Hf; lia); cbn [commitStores_loop].
  - pose proof (r_sq _ _ _ _ Hr) as Hs. rewrite app_nil_r in Hs. rewrite (stail_eq _ _ _ _ Hs) by (unfold vlen; lia). rewrite Z.eqb_refl. exists (sq s).
    split_and!; [by destruct s|by destruct s|simpl; lia|done..].
  - pose proof Hr as [Hl Hs Hk]. assert (Hlen : vlen (d ++ e :: rest) = vlen d + vlen (e :: rest)) by (unfold vlen; rewrite length_app; lia).
    rewrite (stail_eq _ _ _ _ Hs) by (unfold vlen in *; lia). rewrite (proj2 (Z.eqb_neq _ _)) by (rewrite Hlen; unfold vlen; simpl; lia).
    assert (He : (d ++ e :: rest) !! length d = Some e) by (by apply list_lookup_middle). change (vlen d) with (Z.of_nat (length d)).
    rewrite (sget _ _ _ _ _ Hs He). cbn [mbind res_bind]. destruct (k_stores _ _ _ Hk e ltac:(set_solver)) as (x & Ex & [i Hi]). rewrite Ex.
    rewrite bool_decide_eq_true_2 by done. cbn [mbind res_bind assert_ thePtr]. cbn [mark].
    assert (Hnext : ∀ s1, sq s1 = sq s → incrStIdx (sq s1) (slot (SQEntries (sq s)) (storeHead (sq s)) (Z.of_nat (length d))) = slot (SQEntries (sq s)) (storeHead (sq s)) (vlen (d ++ [e]))).
    { intros s1 ->. rewrite (sincr _ _ _ _ Hs). f_equal. unfold vlen. rewrite length_app. simpl. lia. }
    destruct (canWB e) eqn:Ecw.
    + rewrite (Hnext s eq_refl). destruct (IH (d ++ [e]) fuel s) as (q & E & Hr' & Hn & Hp); [by rewrite <-(assoc_L (++))|simpl in Hf; lia|intros; apply Hc; [by right|done]|].
      exists q. rewrite <-(assoc_L (++)) in Hr'. split_and!; try done; [|apply Hp..]. rewrite Hn, !toWB_cons. lia.
    + unfold deref. rewrite Hi. cbn [mbind res_bind]. assert (En : enum (insts s) e = sn i) by (unfold enum, num; rewrite Ex; simpl; by rewrite Hi). rewrite En.
      destruct (y <? sn i); [exists (sq s); split_and!; [by destruct s|by destruct s|lia|done..]|].
      destruct (mod_entry_rep s ls _ w (length d) e set_canWB Hr He eq_refl) as (q1 & -> & Hr1 & T1 & T2 & T3 & T4 & T5). cbn [mbind res_bind].
      assert (Em : <[length d := set_canWB e]> (d ++ e :: rest) = d ++ set_canWB e :: rest) by (rewrite <-(Nat.add_0_r (length d)) at 1; by rewrite insert_app_r).
      rewrite Em in Hr1. apply (rep_toWB _ _ _ _ (storesToWB q1 + 1)) in Hr1. set (s1 := with_sq (with_sq s q1) _) in Hr1.
      match goal with |- context [commitStores_loop fuel ?z] => change z with s1 end.
      assert (Ei : incrStIdx (sq s1) (slot (SQEntries (sq s)) (storeHead (sq s)) (Z.of_nat (length d))) = slot (SQEntries (sq s1)) (storeHead (sq s1)) (vlen (d ++ [set_canWB e]))).
      { assert (SQEntries (sq s1) = SQEntries (sq s) ∧ storeHead (sq s1) = storeHead (sq s)) as [<- <-] by done. rewrite (sincr _ _ _ _ (r_sq _ _ _ _ Hr1)).
        f_equal. unfold vlen. rewrite length_app. simpl. lia. }
      change (sq (with_sq s q1)) with q1 in Ei. rewrite Ei.
      destruct (IH (d ++ [set_canWB e]) fuel s1) as (q & E & Hr' & Hn & Hp); [by rewrite <-(assoc_L (++))|simpl in Hf; lia|intros; apply Hc; [by right|done]|].
      exists q. rewrite <-(assoc_L (++)) in Hr'. change (insts s1) with (insts s) in *. split_and!; [exact E|exact Hr'| |].
      * rewrite Hn. simpl. rewrite T1, !toWB_cons. unfold pending. simpl. rewrite Ecw. destruct (completed e) eqn:Eco; [|simpl; lia]. specialize (Hc e ltac:(left) Eco). congruence.
      * destruct Hp as (P1 & P2 & P3 & P4). simpl in *. split_and!; congruence.
Qed.

Lemma commitStores_rep s ls st w y :
  rep s ls st w → (∀ e, e ∈ st → completed e = true → canWB e = true) →
  ∃ q, commitStores s y = Ok (with_sq s q) ∧ rep (with_sq s q) ls (mark (insts s) y st) w ∧ storesToWB q = storesToWB (sq s) + (toWB (mark (insts s) y st) - toWB st) ∧ same_place (sq s) q.
Proof.
  intros Hr Hc. pose proof (r_sq _ _ _ _ Hr) as Hs. pose proof (shead _ _ _ Hs) as (Hh & Hlt & E0). pose proof (s_n _ _ _ Hs) as [Hn _]. unfold commitStores.
  destruct (lookup_lt_is_Some_2 (storeQueue (sq s)) (Z.to_nat (storeHead (sq s))) ltac:(unfold vlen in *; lia)) as [e He]. rewrite (vget_in _ _ e) by (done || lia). cbn [mbind res_bind].
  match goal with |- context [assert_ ?b] => assert (b = true) as -> end.
  { rewrite (s_count _ _ _ Hs). destruct st as [|e' st]; [done|]. pose proof (sget _ _ _ 0 e' Hs eq_refl) as Eg. change (Z.of_nat 0) with 0 in Eg.
    rewrite E0, (vget_in _ _ e) in Eg by (done || lia). injection Eg as ->. destruct (k_stores _ _ _ (r_known _ _ _ _ Hr) e' ltac:(left)) as (x & -> & _). by rewrite orb_true_r. }
  cbn [mbind res_bind assert_]. assert (Hf : (length st < S (Z.to_nat (SQEntries (sq s))))%nat) by (unfold vlen in *; lia).
  pose proof (commitStores_loop_rep y st [] _ s ls w Hr Hf Hc) as HH. change (vlen []) with 0 in HH. rewrite E0 in HH. exact HH.
Qed.
End LsqQueues.
