(* ===== verification/LsqForward.v ===== *)
(** * The load-store queue unit: forwarding and ordering violations *)

From stdpp Require Import sorting.
From S2P Require Import Prelude Lsq LsqRing LsqQueues.

Module LsqForward.
Import LSQUnit LsqRing LsqQueues.

(** ** What memory holds after the stores that are known

    [read] skips the stores of which the size is still 0, which have not executed, so
    that their address and data are not known, and those whose access is strictly
    ordered.  They do not count here either: a load that goes ahead of a store that
    executes later is caught then ([checkViolations]). *)
Definition eaccess (m : gmap positive DynInst) (e : SQEntry) : option Access := y ← inst e; access <$> m !! y.

(** A store that has executed, so that its data is known, and is not strictly ordered
    writes the byte at [a]. *)
Definition covers (m : gmap positive DynInst) (e : SQEntry) (a : Z) : bool :=
  match eaccess m e with
  | Some ac => negb (size e =? 0) && negb (strictlyOrdered ac) && (effAddr ac <=? a) && (a <? effAddr ac + size e)
  | None => false
  end.
Definition byte_at (m : gmap positive DynInst) (e : SQEntry) (a : Z) : Z :=
  if isAllZeros e then 0 else match eaccess m e with Some ac => nth (Z.to_nat (a - effAddr ac)) (data e) 0 | None => 0 end.

(** Memory after those of the stores [es], oldest first, that are known. *)
Definition view (m : gmap positive DynInst) (mem : Z → Z) (es : list SQEntry) : Z → Z :=
  foldl (λ f e a, if covers m e a then byte_at m e a else f a) mem es.

Lemma view_app m mem es es' : view m mem (es ++ es') = view m (view m mem es) es'.
Proof. apply foldl_app. Qed.

Lemma view_none m es mem a : (∀ e, e ∈ es → covers m e a = false) → view m mem es a = mem a.
Proof.
  revert mem. induction es as [|e es IH]; intros mem Hc; [done|]. simpl. unfold view in *. simpl. rewrite IH by (intros; apply Hc; by right). by rewrite Hc by left.
Qed.

Lemma view_last m es1 e es2 mem a : covers m e a = true → (∀ f, f ∈ es2 → covers m f a = false) → view m mem (es1 ++ e :: es2) a = byte_at m e a.
Proof.
  intros Hc Hn. change (e :: es2) with ([e] ++ es2). rewrite !view_app, view_none by done. unfold view at 1. simpl. by rewrite Hc.
Qed.

(** ** Entries *)
Record entry_ok (m : gmap positive DynInst) (e : SQEntry) : Prop := {
  e_inst : ∃ y i, inst e = Some y ∧ m !! y = Some i ∧
    (size e ≠ 0 → strictlyOrdered (access i) = false → effAddrValid (access i) = true ∧ 0 ≤ effAddr (access i) ∧ effAddr (access i) + size e < 2 ^ 64);
  e_size : 0 ≤ size e;
  e_data : isAllZeros e = false → size e ≤ vlen (data e)
}.

(** A request that does not wrap around the address space. *)
Definition req_ok (r : Request) : Prop := 0 ≤ getVaddr r ∧ 0 < getSize r ∧ getVaddr r + getSize r < 2 ^ 64.

Section limits.
Context (r : Request) (st : DynInst) (n : Z) (Hr : req_ok r) (Ha : 0 ≤ effAddr (access st)) (Hn : 0 < n) (Hw : effAddr (access st) + n < 2 ^ 64).

Lemma limits_covered : has_lower_limit r st && has_upper_limit r st n = true ↔ effAddr (access st) ≤ getVaddr r ∧ getVaddr r + getSize r ≤ effAddr (access st) + n.
Proof.
  destruct Hr as (H1 & H2 & H3). unfold has_lower_limit, has_upper_limit. rewrite !u64_id by (unfold is_u64; lia). rewrite andb_true_iff, !Z.leb_le. done.
Qed.

Lemma limits_partial : has_lower_limit r st && has_upper_limit r st n && negb (isLLSC r) = false →
  partial_match r st n = true ↔ getVaddr r < effAddr (access st) + n ∧ effAddr (access st) < getVaddr r + getSize r.
Proof.
  destruct Hr as (H1 & H2 & H3). unfold partial_match, has_lower_limit, has_upper_limit, lower_part, upper_part. rewrite !u64_id by (unfold is_u64; lia). intros Hf.
  destruct (isLLSC r); simpl;
    destruct (Z.leb_spec (effAddr (access st)) (getVaddr r)), (Z.leb_spec (getVaddr r + getSize r) (effAddr (access st) + n)),
      (Z.ltb_spec (getVaddr r) (effAddr (access st) + n)), (Z.ltb_spec (effAddr (access st)) (getVaddr r + getSize r)); simpl in *; try done; try lia; split; try lia; try done.
Qed.
End limits.

(** The stores older than the load of which the data is not sent yet. *)
Definition segment (st : list SQEntry) (w k : nat) : list SQEntry := drop w (take k st).

Lemma segment_snoc st w k e : (w ≤ k)%nat → st !! k = Some e → segment st w (S k) = segment st w k ++ [e].
Proof. intros Hw He. unfold segment. rewrite (take_S_r _ _ _ He), drop_app_le; [done|]. rewrite length_take. apply lookup_lt_Some in He. lia. Qed.

Definition meets (m : gmap positive DynInst) (r : Request) (e : SQEntry) : Prop := ∃ a, getVaddr r ≤ a < getVaddr r + getSize r ∧ covers m e a = true.

(** What the search finds: the youngest store that meets the request. *)
Inductive finds (m : gmap positive DynInst) (r : Request) (es : list SQEntry) : option (SQEntry * bool) → Prop :=
  | finds_none : (∀ e, e ∈ es → ¬ meets m r e) → finds m r es None
  | finds_store es1 e es2 (whole : bool) :
      es = es1 ++ e :: es2 → meets m r e → (∀ f, f ∈ es2 → ¬ meets m r f) →
      (whole = true ↔ isLLSC r = false ∧ ∀ a, getVaddr r ≤ a < getVaddr r + getSize r → covers m e a = true) → finds m r es (Some (e, whole)).

Lemma covers_iff m e y i a : inst e = Some y → m !! y = Some i →
  covers m e a = true ↔ size e ≠ 0 ∧ strictlyOrdered (access i) = false ∧ effAddr (access i) ≤ a < effAddr (access i) + size e.
Proof.
  intros E1 E2. unfold covers, eaccess. rewrite E1. simpl. rewrite E2. simpl. rewrite !andb_true_iff, !negb_true_iff, Z.eqb_neq, Z.leb_le, Z.ltb_lt. naive_solver.
Qed.

Lemma finds_snoc m r es e o : finds m r es o → ¬ meets m r e → finds m r (es ++ [e]) o.
Proof.
  intros Hf He. destruct Hf as [Hn|es1 f es2 b -> Hm Hn Hb].
  - constructor. intros f [Hf| ->%list_elem_of_singleton]%elem_of_app; [by apply Hn|done].
  - apply (finds_store m r _ es1 f (es2 ++ [e])); [by rewrite <-(assoc_L (++))|done| |done]. intros g [Hg| ->%list_elem_of_singleton]%elem_of_app; [by apply Hn|done].
Qed.

Lemma meets_iff m r e y i : inst e = Some y → m !! y = Some i → 0 ≤ size e → req_ok r →
  meets m r e ↔ size e ≠ 0 ∧ strictlyOrdered (access i) = false ∧ getVaddr r < effAddr (access i) + size e ∧ effAddr (access i) < getVaddr r + getSize r.
Proof.
  intros E1 E2 Hsz (R1 & R2 & R3). unfold meets. split.
  - intros (a & Ha & Hc). apply (covers_iff m e y i a E1 E2) in Hc. lia || (destruct Hc as (? & ? & ?); split_and!; try done; lia).
  - intros (H1 & H2 & H3 & H4). exists (Z.max (getVaddr r) (effAddr (access i))). split; [lia|]. apply (covers_iff m e y i _ E1 E2). split_and!; try done; lia.
Qed.

Lemma whole_iff m r e y i : inst e = Some y → m !! y = Some i → 0 ≤ size e → req_ok r → size e ≠ 0 → strictlyOrdered (access i) = false →
  (∀ a, getVaddr r ≤ a < getVaddr r + getSize r → covers m e a = true) ↔ effAddr (access i) ≤ getVaddr r ∧ getVaddr r + getSize r ≤ effAddr (access i) + size e.
Proof.
  intros E1 E2 Hsz (R1 & R2 & R3) H1 H2. split.
  - intros Hc. pose proof (proj1 (covers_iff m e y i _ E1 E2) (Hc (getVaddr r) ltac:(lia))). pose proof (proj1 (covers_iff m e y i _ E1 E2) (Hc (getVaddr r + getSize r - 1) ltac:(lia))). lia.
  - intros [? ?] a Ha. apply (covers_iff m e y i a E1 E2). split_and!; try done; lia.
Qed.

(** What [read] does with what was found. *)
Definition act (s : t) (x : positive) (load_idx : Z) (r : Request) (o : option (SQEntry * bool)) : res (option t) :=
  match o with
  | None => Ok None
  | Some (e, whole) =>
      y ← thePtr (inst e); st ← deref s y;
      if (whole : bool) then s' ← forward s x load_idx r e st; Ok (Some s') else s' ← put_off s x load_idx st; Ok (Some s')
  end.

Lemma forward_loop_finds s ls st w x load_idx r : 
  rep s ls st (Z.of_nat w) → req_ok r → (∀ e, e ∈ st → entry_ok (insts s) e) → (∀ j e, (w ≤ j)%nat → st !! j = Some e → completed e = false) →
  ∀ d k fuel, k = (w + d)%nat → (k ≤ length st)%nat → (d < fuel)%nat →
  ∃ o, finds (insts s) r (segment st w k) o ∧ forward_loop fuel s x load_idx r (slot (SQEntries (sq s)) (storeHead (sq s)) (Z.of_nat k)) = act s x load_idx r o.
Proof.
  intros Hr Hq Hok Hnc. pose proof (r_sq _ _ _ _ Hr) as Hs. pose proof (shead _ _ _ Hs) as (Hh & Hlen & _).
  induction d as [|d IH]; intros k fuel -> Hk Hf; (destruct fuel as [|fuel]; [lia|]); cbn [forward_loop]; rewrite (s_wb _ _ _ Hs).
  - rewrite Nat.add_0_r, Z.eqb_refl. exists None. split; [|done]. constructor. unfold segment. intros e He.
    assert (drop w (take w st) = []) as E by (apply drop_ge; rewrite length_take; lia). rewrite E in He. by apply elem_of_nil in He.
  - rewrite (proj2 (Z.eqb_neq _ _)); [|intros E; apply lsq_slot_inj in E; unfold vlen in *; lia].
    rewrite (sdecr _ _ _ _ Hs). replace (Z.of_nat (w + S d) - 1) with (Z.of_nat (w + d)) by lia.
    destruct (lookup_lt_is_Some_2 st (w + d) ltac:(lia)) as [e He]. rewrite (sget _ _ _ _ _ Hs He). cbn [mbind res_bind].
    destruct (Hok e ltac:(by eapply list_elem_of_lookup_2)) as [(y & i & Ey & Hi & Hw) Hsz Hdata]. rewrite Ey.
    replace (w + S d)%nat with (S (w + d)) by lia. rewrite (segment_snoc st w (w + d) e) by (done || lia).
    destruct (IH (w + d)%nat fuel eq_refl ltac:(lia) ltac:(lia)) as (o & Ho & Eo). pose proof (meets_iff (insts s) r e y i Ey Hi Hsz Hq) as Hmeet.
    assert (Hskip : ¬ meets (insts s) r e → ∃ o, finds (insts s) r (segment st w (w + d) ++ [e]) o ∧
      forward_loop fuel s x load_idx r (slot (SQEntries (sq s)) (storeHead (sq s)) (Z.of_nat (w + d))) = act s x load_idx r o).
    { intros Hm. exists o. split; [by apply finds_snoc|done]. }
    destruct (Z.eqb_spec (size e) 0) as [Hz|Hz]; [apply Hskip; naive_solver|]. unfold deref. rewrite Hi. cbn [mbind res_bind].
    destruct (strictlyOrdered (access i)) eqn:Est; [apply Hskip; naive_solver|]. destruct (Hw Hz eq_refl) as (Hv & Ha & Hb). rewrite Hv. cbn [mbind res_bind assert_].
    pose proof (limits_covered r i (size e) Hq Ha ltac:(lia) Hb) as Hcov. pose proof (limits_partial r i (size e) Hq Ha ltac:(lia) Hb) as Hpart.
    pose proof (whole_iff (insts s) r e y i Ey Hi Hsz Hq Hz Est) as Hwhole. destruct Hq as (Q1 & Q2 & Q3).
    assert (Hact : ∀ b : bool, meets (insts s) r e → (b = true ↔ isLLSC r = false ∧ ∀ a, getVaddr r ≤ a < getVaddr r + getSize r → covers (insts s) e a = true) →
      finds (insts s) r (segment st w (w + d) ++ [e]) (Some (e, b))).
    { intros b Hm Hb'. apply (finds_store _ _ _ (segment st w (w + d)) e []); try done. by intros f ?%elem_of_nil. }
    destruct (has_lower_limit r i && has_upper_limit r i (size e) && negb (isLLSC r)) eqn:Ef.
    + apply andb_true_iff in Ef as [Ef Ell%negb_true_iff]. apply Hcov in Ef. exists (Some (e, true)). split.
      * apply Hact; [apply Hmeet; split_and!; try done; lia|]. rewrite Hwhole. naive_solver.
      * simpl. rewrite Ey. simpl. unfold deref. by rewrite Hi.
    + specialize (Hpart eq_refl). destruct (partial_match r i (size e)) eqn:Ep.
      * assert (Hm : meets (insts s) r e) by (apply Hmeet; split_and!; try done; naive_solver).
        rewrite (Hnc (w + d)%nat e ltac:(lia) He). exists (Some (e, false)). split.
        -- apply Hact; [done|]. split; [done|]. intros [Hll Hall]. rewrite Hwhole in Hall. apply Hcov in Hall. rewrite Hall, Hll in Ef. done.
        -- simpl. rewrite Ey. simpl. unfold deref. by rewrite Hi.
      * apply Hskip. rewrite Hmeet. intros (_ & _ & Hlt). apply Hpart in Hlt. done.
Qed.

(** ** A load reads *)

(** Where the search starts: [k] stores are older than the load. *)
Definition starts (s : t) (w k : nat) (st : list SQEntry) (i : DynInst) : Prop :=
  (w ≤ k ≤ length st)%nat ∧ (sqIdx i = slot (SQEntries (sq s)) (storeHead (sq s)) (Z.of_nat k) ∨ (sqIdx i = -1 ∧ k = w)).

(** The load that stalls is in the queue. *)
Definition stall_ok (s : t) (ls : list positive) : Prop :=
  stalled (stall s) = true → ∃ k x, ls !! k = Some x ∧ stallingLoadIdx (stall s) = slot (LQEntries (lq s)) (loadHead (lq s)) (Z.of_nat k).

Definition buffer_ok (r : Request) (i : DynInst) : Prop := from_option (λ old, getSize r ≤ vlen old) True (memData i).

Lemma rep_say s ls st w l : rep s ls st w → rep (say s l) ls st w.
Proof. intros []. by split. Qed.

(** The bytes that are forwarded. *)
Lemma forwarded_bytes_ok m r e y i :
  inst e = Some y → m !! y = Some i → entry_ok m e → req_ok r → (∀ a, getVaddr r ≤ a < getVaddr r + getSize r → covers m e a = true) →
  ∃ d, forwarded_bytes e (getVaddr r - effAddr (access i)) (getSize r) = Ok d ∧ vlen d = getSize r ∧
    ∀ j, 0 ≤ j < getSize r → nth (Z.to_nat j) d 0 = byte_at m e (getVaddr r + j).
Proof.
  intros E1 E2 [_ Hsz Hd] Hq Hall. pose proof Hq as (Q1 & Q2 & Q3). pose proof (proj1 (covers_iff m e y i _ E1 E2) (Hall (getVaddr r) ltac:(lia))) as (Hz & Hst & _).
  apply (whole_iff m r e y i E1 E2 Hsz Hq Hz Hst) in Hall as [H1 H2]. unfold forwarded_bytes, byte_at, eaccess. rewrite E1. simpl. rewrite E2. simpl. destruct (isAllZeros e).
  - eexists. split; [done|]. split; [unfold vlen; rewrite length_replicate; lia|]. intros j Hj. rewrite nth_lookup, lookup_replicate_2 by lia. done.
  - specialize (Hd eq_refl). rewrite (proj2 (andb_true_iff _ _)) by (split; apply Z.leb_le; lia). cbn [mbind res_bind guard_]. eexists. split; [done|].
    unfold vlen in *. split; [rewrite length_take, length_drop; lia|]. intros j Hj. rewrite !nth_lookup. rewrite lookup_take_lt by lia. rewrite lookup_drop. do 2 f_equal. lia.
Qed.

Lemma put_off_ok s ls st w x i load_idx y j :
  rep s ls st w → insts s !! x = Some i → insts s !! y = Some j → stall_ok s ls →
  ∃ s', put_off s x load_idx j = Ok s' ∧ log s' = log s ++ [Reschedule x] ∧ stalled (stall s') = true ∧ lq s' = lq s ∧ sq s' = sq s ∧ gentle (insts s) (insts s') ∧
    memDepViolator s' = memDepViolator s ∧ (stall s' = stall s ∨ stall s' = mkStall true (sn j) load_idx).
Proof.
  intros Hr Hi Hj Hst. unfold put_off, deref. rewrite Hi. cbn [mbind res_bind].
  assert (Hgo : ∀ b : bool, (b = false → stalled (stall s) = true) → let s1 := if b then with_stall s (mkStall true (sn j) load_idx) else s in
    ∃ s', upd (say s1 [Reschedule x]) x clearIssued = Ok s' ∧ log s' = log s ++ [Reschedule x] ∧ stalled (stall s') = true ∧ lq s' = lq s ∧ sq s' = sq s ∧ gentle (insts s) (insts s') ∧
    memDepViolator s' = memDepViolator s ∧ (stall s' = stall s ∨ stall s' = mkStall true (sn j) load_idx)).
  { intros b Hb. destruct b; simpl; (erewrite upd_eq by exact Hi); eexists; (split; [done|]); simpl; split_and!; try done; try (by eapply gentle_upd); auto. }
  destruct (stalled (stall s)) eqn:Es; [|by apply (Hgo true)]. destruct (Hst Es) as (k & z & Hz & Ez). rewrite Ez, (lget _ _ _ _ (r_lq _ _ _ _ Hr) Hz). cbn [mbind res_bind thePtr].
  destruct (k_loads _ _ _ (r_known _ _ _ _ Hr) z ltac:(by eapply list_elem_of_lookup_2)) as [jz ->]. cbn [mbind res_bind]. by apply Hgo.
Qed.

Section read.
Context (accepts : list action → Packet → bool) (handleIprRead : list action → positive → Request → list Z) (uninit : Z).

(** The outcomes of a load, by the youngest known older store that meets it: the store
    has all its bytes; it has not, or the load is locked; or there is no such store. *)
Inductive outcome (m : gmap positive DynInst) (older : list SQEntry) (r : Request) (x : positive) (load_idx : Z) (before : list action) (s' : t) : Prop :=
  | Forwarded es1 e es2 d :
      older = es1 ++ e :: es2 → (∀ a, getVaddr r ≤ a < getVaddr r + getSize r → covers m e a = true) → (∀ f, f ∈ es2 → ¬ meets m r f) →
      log s' = before ++ [ScheduleWriteback (mkPkt r x (u8 load_idx) true false d)] → vlen d = getSize r → isLLSC r = false →
      (∀ mem j, 0 ≤ j < getSize r → nth (Z.to_nat j) d 0 = view m mem older (getVaddr r + j)) → outcome m older r x load_idx before s'
  | PutOff es1 e es2 :
      older = es1 ++ e :: es2 → meets m r e → (∀ f, f ∈ es2 → ¬ meets m r f) →
      (isLLSC r = true ∨ ∃ a, getVaddr r ≤ a < getVaddr r + getSize r ∧ covers m e a = false) →
      log s' = before ++ [Reschedule x] → stalled (stall s') = true → outcome m older r x load_idx before s'
  | FromMemory d ok :
      (∀ e, e ∈ older → ¬ meets m r e) →
      log s' = before ++ Send (mkPkt r x (u8 load_idx) true false d) ok :: (if ok then [] else [BlockMemInst x]) →
      (∀ mem a, getVaddr r ≤ a < getVaddr r + getSize r → view m mem older a = mem a) → outcome m older r x load_idx before s'.

Definition locked (r : Request) (x : positive) : list action := if isLLSC r then [LockedRead x r] else [].

Lemma view_whole m es1 e es2 mem a r : getVaddr r ≤ a < getVaddr r + getSize r → covers m e a = true → (∀ f, f ∈ es2 → ¬ meets m r f) →
  view m mem (es1 ++ e :: es2) a = byte_at m e a.
Proof. intros Ha Hc Hn. apply view_last; [done|]. intros f Hf. apply not_true_is_false. intros Hcf. apply (Hn f Hf). by exists a. Qed.

(** A store that meets the load and has not all its bytes lacks one of them. *)
Lemma not_whole m r e :
  entry_ok m e → req_ok r → meets m r e → ¬ (∀ a, getVaddr r ≤ a < getVaddr r + getSize r → covers m e a = true) →
  ∃ a, getVaddr r ≤ a < getVaddr r + getSize r ∧ covers m e a = false.
Proof.
  intros [(y & i & Ey & Hi & _) Hsz _] Hq Hm Hn. pose proof Hq as (Q1 & Q2 & Q3).
  apply (meets_iff m r e y i Ey Hi Hsz Hq) in Hm as (Hz & Hst & _). rewrite (whole_iff m r e y i Ey Hi Hsz Hq Hz Hst) in Hn.
  destruct (decide (effAddr (access i) ≤ getVaddr r)).
  - exists (getVaddr r + getSize r - 1). split; [lia|]. apply not_true_is_false. rewrite (covers_iff m e y i _ Ey Hi). lia.
  - exists (getVaddr r). split; [lia|]. apply not_true_is_false. rewrite (covers_iff m e y i _ Ey Hi). lia.
Qed.

(** One step of the analysis: what was found decides. *)
Lemma act_outcome s ls st w x i load_idx r older o :
  rep s ls st w → insts s !! x = Some i → stall_ok s ls → buffer_ok r i → req_ok r → (∀ e, e ∈ older → entry_ok (insts s) e) → finds (insts s) r older o →
  match o with
  | None => (∀ e, e ∈ older → ¬ meets (insts s) r e) ∧ ∀ mem a, getVaddr r ≤ a < getVaddr r + getSize r → view (insts s) mem older a = mem a
  | Some _ => ∃ s', act s x load_idx r o = Ok (Some s') ∧ outcome (insts s) older r x load_idx (log s) s' ∧ lq s' = lq s ∧ sq s' = sq s ∧ gentle (insts s) (insts s') ∧
      memDepViolator s' = memDepViolator s ∧ (stall s' = stall s ∨ ∃ e, e ∈ older ∧ stall s' = mkStall true (enum (insts s) e) load_idx)
  end.
Proof.
  intros Hr Hi Hst Hbuf Hq Hok Hf. destruct Hf as [Hn|es1 e es2 b -> Hm Hn Hb].
  - split; [done|]. intros mem a Ha. apply view_none. intros e He. apply not_true_is_false. intros Hc. apply (Hn e He). by exists a.
  - assert (Hin : e ∈ es1 ++ e :: es2) by set_solver. pose proof (Hok e Hin) as He. destruct (e_inst _ _ He) as (y & j & Ey & Hj & _). simpl. rewrite Ey. simpl. unfold deref. rewrite Hj. cbn [mbind res_bind].
    destruct b.
    + destruct Hb as [Hb _]. destruct (Hb eq_refl) as [Hll Hall]. destruct (forwarded_bytes_ok _ _ _ _ _ Ey Hj He Hq Hall) as (d & Ed & Hlen & Hbytes).
      unfold forward. rewrite Ed. cbn [mbind res_bind]. unfold deref. rewrite Hi. cbn [mbind res_bind].
      assert (∃ i', fill_memData i d = Ok i' ∧ gentle (insts s) (<[x := i']> (insts s))) as (i' & -> & Hk).
      { unfold fill_memData. unfold buffer_ok in Hbuf. destruct (memData i) as [old|]; [|eexists; split; [done|]; by eapply gentle_upd]. simpl in Hbuf.
        rewrite (proj2 (Nat.leb_le _ _)) by (unfold vlen in *; lia). eexists; split; [done|]; by eapply gentle_upd. }
      cbn [mbind res_bind]. eexists. split; [done|]. split; [|split_and!; try done; by left].
      apply (Forwarded _ _ _ _ _ _ _ es1 e es2 d); try done. intros mem k Hk'. rewrite (view_whole _ es1 e es2 mem _ r) by (done || lia || (apply Hall; lia)). by apply Hbytes.
    + destruct (put_off_ok _ _ _ _ _ _ load_idx _ _ Hr Hi Hj Hst) as (s' & -> & Hlog & Hs' & E1 & E2 & Hk & E3 & E4). cbn [mbind res_bind]. exists s'. split; [done|].
      split. { apply (PutOff _ _ _ _ _ _ _ es1 e es2); try done. destruct (isLLSC r); [by left|right]. apply not_whole; try done. intros Hall. by destruct Hb as [_ Hb]; discriminate Hb. }
      split_and!; try done. destruct E4 as [|E4]; [by left|right]. exists e. split; [done|]. unfold enum, num. rewrite Ey. simpl. by rewrite Hj.
Qed.

Lemma segment_sub st w k e : e ∈ segment st w k → e ∈ st.
Proof. unfold segment. intros He. eapply elem_of_subseteq; [|exact He]. intros f Hf. apply list_elem_of_lookup in Hf as [j Hj]. rewrite lookup_drop in Hj. apply lookup_take_Some in Hj as [Hj _]. by eapply list_elem_of_lookup_2. Qed.

Lemma read_spec s ls st w k kl x i r :
  rep s ls st (Z.of_nat w) → ls !! kl = Some x → insts s !! x = Some i → isExecuted (status i) = false → isStrictlyOrdered r = false → isMmappedIpr r = false →
  starts s w k st i → stall_ok s ls → buffer_ok r i → req_ok r → (∀ e, e ∈ st → entry_ok (insts s) e) → (∀ j e, (w ≤ j)%nat → st !! j = Some e → completed e = false) →
  let load_idx := slot (LQEntries (lq s)) (loadHead (lq s)) (Z.of_nat kl) in
  ∃ s', read accepts handleIprRead uninit s r load_idx = Ok (None, s') ∧ outcome (insts s) (segment st w k) r x load_idx (log s ++ locked r x) s' ∧
    lq s' = lq s ∧ sq s' = sq s ∧ gentle (insts s) (insts s') ∧
    memDepViolator s' = memDepViolator s ∧ (stall s' = stall s ∨ ∃ e, e ∈ segment st w k ∧ stall s' = mkStall true (enum (insts s) e) load_idx).
Proof.
  intros Hr Hx Hi Hex Hso Hipr [Hwk Hstart] Hst Hbuf Hq Hok Hnc. simpl. unfold read. rewrite (lget _ _ _ _ (r_lq _ _ _ _ Hr) Hx). cbn [mbind res_bind].
  unfold deref at 1. rewrite Hi. cbn [mbind res_bind]. rewrite Hex. cbn [mbind res_bind assert_ negb]. rewrite Hso, Hipr. simpl andb. cbv iota.
  set (s1 := if isLLSC r then say s [LockedRead x r] else s).
  assert (E1 : lq s1 = lq s ∧ sq s1 = sq s ∧ insts s1 = insts s ∧ stall s1 = stall s ∧ log s1 = log s ++ locked r x ∧ memDepViolator s1 = memDepViolator s) by (unfold s1, locked; destruct (isLLSC r); [done|by rewrite app_nil_r]).
  destruct E1 as (L1 & L2 & L3 & L4 & L5 & L6). assert (Hr1 : rep s1 ls st (Z.of_nat w)) by (unfold s1; destruct (isLLSC r); [by apply rep_say|done]).
  assert (∃ o, finds (insts s1) r (segment st w k) o ∧
    (if sqIdx i =? -1 then Ok None else forward_loop (S (Z.to_nat (SQEntries (sq s1)))) s1 x (slot (LQEntries (lq s)) (loadHead (lq s)) (Z.of_nat kl)) r (sqIdx i)) =
    act s1 x (slot (LQEntries (lq s)) (loadHead (lq s)) (Z.of_nat kl)) r o) as (o & Ho & ->).
  { pose proof (shead _ _ _ (r_sq _ _ _ _ Hr1)) as (Hh & Hlen & _). destruct Hstart as [E|[-> ->]].
    - rewrite E. pose proof (lsq_slot_range (SQEntries (sq s)) (storeHead (sq s)) (Z.of_nat k)) as Hrg. rewrite L2 in *. rewrite (proj2 (Z.eqb_neq _ _)) by lia. rewrite <-L2.
      apply (forward_loop_finds s1 ls st w _ _ _ Hr1 Hq) with (d := (k - w)%nat); rewrite ?L3; try done; [lia|lia|rewrite L2; unfold vlen in *; lia].
    - exists None. split; [|done]. constructor. unfold segment. intros e He. rewrite drop_ge in He by (rewrite length_take; lia). by apply elem_of_nil in He. }
  pose proof (act_outcome s1 ls st _ x i (slot (LQEntries (lq s)) (loadHead (lq s)) (Z.of_nat kl)) r (segment st w k) o Hr1 ltac:(by rewrite L3)) as Hact.
  specialize (Hact ltac:(unfold stall_ok; rewrite L4, L1; exact Hst) Hbuf Hq ltac:(intros e He; rewrite L3; by eapply Hok, segment_sub) Ho). destruct o as [p|].
  - destruct Hact as (s' & -> & Hout & E2 & E3 & Hk & E4 & E5). cbn [mbind res_bind]. exists s'. rewrite L3 in *. rewrite L5 in Hout. rewrite L4 in E5. split_and!; [done|done|congruence|congruence|done|congruence|done].
  - cbn [mbind res_bind act]. unfold access_memory, deref. rewrite L3, Hi. cbn [mbind res_bind]. eexists. split; [done|]. rewrite L3 in Hact.
    set (b := accepts _ _). split.
    + eapply (FromMemory _ _ _ _ _ _ _ _ b); [apply Hact| |apply Hact]. destruct b; simpl; rewrite L5; [done|by rewrite <-(assoc_L (++))].
    + destruct b; simpl; split_and!; try done; try (by eapply gentle_upd); by left.
Qed.
End read.

(** ** Ordering violations *)
Section violations.
Context (par : Params) (Hsh : 0 ≤ depCheckShift par < 64).

(** Two accesses touch a common block of [2 ^ depCheckShift] bytes. *)
Definition block (a : Z) : Z := Z.shiftr a (depCheckShift par).
Definition conflicts (ld : DynInst) (a1 a2 : Z) : bool :=
  negb (negb (effAddrValid (access ld)) || strictlyOrdered (access ld)) && ((block (effAddr (access ld)) <=? a2) && (a1 <=? block (last_byte (access ld)))).

Lemma shr64_block a : shr64 a (depCheckShift par) = Ok (block a).
Proof. unfold shr64. rewrite (proj2 (Z.leb_le _ _)), (proj2 (Z.ltb_lt _ _)) by lia. done. Qed.

Lemma block_mono a b : a ≤ b → block a ≤ block b.
Proof. intros. unfold block. rewrite !Z.shiftr_div_pow2 by lia. apply Z.div_le_mono; [|done]. apply Z.pow_pos_nonneg; lia. Qed.

(** What a store reports: nothing, or the oldest load that conflicts. *)
Record reported (s s' : t) (ls : list positive) (a1 a2 : Z) (k : nat) (f : option Fault) : Prop := {
  v_caught : ∀ j x ld, (k ≤ j)%nat → ls !! j = Some x → insts s !! x = Some ld → conflicts ld a1 a2 = true →
    ∃ v, memDepViolator s' = Some v ∧ num (insts s) v ≤ num (insts s) x;
  v_none : f = None → s' = s;
  v_some : f ≠ None → f = Some M5PanicFault ∧ ∃ j x ld, (k ≤ j)%nat ∧ ls !! j = Some x ∧ insts s !! x = Some ld ∧ conflicts ld a1 a2 = true ∧
    s' = with_violator s (Some x) ∧ ∀ v, memDepViolator s = Some v → num (insts s) x ≤ num (insts s) v
}.

Lemma violations_loop_spec s ls st w i a1 a2 :
  rep s ls st w → isLoad (kind i) = false → (∀ v, memDepViolator s = Some v → is_Some (insts s !! v)) →
  ∀ d k fuel, (k + d)%nat = length ls → (d < fuel)%nat →
  ∃ f s', violations_loop par fuel s (slot (LQEntries (lq s)) (loadHead (lq s)) (Z.of_nat k)) i a1 a2 = Ok (f, s') ∧ reported s s' ls a1 a2 k f.
Proof.
  intros Hr Hst Hv. pose proof (r_lq _ _ _ _ Hr) as Hl. induction d as [|d IH]; intros k fuel Hk Hf; (destruct fuel as [|fuel]; [lia|]); cbn [violations_loop].
  - rewrite (ltail_eq _ _ _ Hl) by (unfold vlen; lia). rewrite (proj2 (Z.eqb_eq _ _)) by (unfold vlen; lia). exists None, s. split; [done|]. split; [|done|done].
    intros j x ld Hj Hx. apply lookup_lt_Some in Hx. lia.
  - rewrite (ltail_eq _ _ _ Hl) by (unfold vlen; lia). rewrite (proj2 (Z.eqb_neq _ _)) by (unfold vlen; lia).
    destruct (lookup_lt_is_Some_2 ls k ltac:(lia)) as [x Hx]. rewrite (lget _ _ _ _ Hl Hx). cbn [mbind res_bind thePtr].
    destruct (k_loads _ _ _ (r_known _ _ _ _ Hr) x ltac:(by eapply list_elem_of_lookup_2)) as [ld Hld]. assert (deref s x = Ok ld) as -> by (unfold deref; by rewrite Hld). cbn [mbind res_bind].
    rewrite (lincr _ _ _ Hl). replace (Z.of_nat k + 1) with (Z.of_nat (S k)) by lia. destruct (IH (S k) fuel ltac:(lia) ltac:(lia)) as (f & s' & E & [V1 V2 V3]).
    assert (Hsk : conflicts ld a1 a2 = false → ∃ f s', violations_loop par fuel s (slot (LQEntries (lq s)) (loadHead (lq s)) (Z.of_nat (S k))) i a1 a2 = Ok (f, s') ∧ reported s s' ls a1 a2 k f).
    { intros Hc. exists f, s'. split; [done|]. split; [|done|].
      - intros j y ld' Hj Hy Hld' Hc'. destruct (decide (j = k)) as [->|]; [congruence|]. eapply (V1 j); [lia|done..].
      - intros Hn. destruct (V3 Hn) as (? & j & y & ld' & Hj & ?). split; [done|]. exists j, y, ld'. split; [lia|done]. }
    unfold conflicts in Hsk. destruct (negb (effAddrValid (access ld)) || strictlyOrdered (access ld)) eqn:Eva; [by apply Hsk|]. rewrite !shr64_block. cbn [mbind res_bind]. simpl in Hsk.
    destruct ((block (effAddr (access ld)) <=? a2) && (a1 <=? block (last_byte (access ld)))) eqn:Ec; [|by apply Hsk].
    assert (Hc : conflicts ld a1 a2 = true) by (unfold conflicts; rewrite Eva, Ec; done). rewrite Hst.
    assert (Hmin : ∀ j y, (k ≤ j)%nat → ls !! j = Some y → num (insts s) x ≤ num (insts s) y).
    { intros j y Hj Hy. destruct (decide (j = k)) as [->|]; [assert (y = x) as -> by congruence; lia|].
      pose proof (k_lsorted _ _ _ (r_known _ _ _ _ Hr)) as Hso. rewrite <-(take_drop_middle _ _ _ Hx) in Hso. apply StronglySorted_app_1_r, StronglySorted_inv in Hso as [_ Hso].
      rewrite Forall_forall in Hso. assert (y ∈ drop (S k) ls) as Hin; [|specialize (Hso y Hin); simpl in Hso; lia].
      apply list_elem_of_lookup. exists (j - S k)%nat. rewrite lookup_drop. by replace (S k + (j - S k))%nat with j by lia. }
    assert (Hnew : (∀ v, memDepViolator s = Some v → num (insts s) x ≤ num (insts s) v) → reported s (with_violator s (Some x)) ls a1 a2 k (Some M5PanicFault)).
    { intros Hold. split; [|done|]. { intros j y ld' Hj Hy _ _. exists x. split; [done|]. by eapply Hmin. } intros _. split; [done|]. by exists k, x, ld. }
    assert (Enx : num (insts s) x = sn ld) by (unfold num; by rewrite Hld).
    destruct (memDepViolator s) as [v|] eqn:Ev.
    + destruct (Hv v eq_refl) as [iv Hiv]. unfold deref. rewrite Hiv. cbn [mbind res_bind]. assert (Env : num (insts s) v = sn iv) by (unfold num; by rewrite Hiv).
      destruct (Z.ltb_spec (sn iv) (sn ld)).
      * exists None, s. split; [done|]. split; [|done|done]. intros j y ld' Hj Hy _ _. exists v. split; [done|]. specialize (Hmin j y Hj Hy). lia.
      * do 2 eexists. split; [done|]. apply Hnew. intros v' [= <-]. lia.
    + cbn [mbind res_bind]. do 2 eexists. split; [done|]. by apply Hnew.
Qed.
End violations.
End LsqForward.
