(* ===== verification/LsqStores.v ===== *)
(** * The load-store queue unit: stores leave

    Stores are sent to memory in order and complete in any order; an entry is freed when it
    and all older ones are complete. *)

From stdpp Require Import sorting.
From S2P Require Import Prelude Lsq LsqRing LsqQueues LsqForward.

Module LsqStores.
Import LSQUnit LsqRing LsqQueues LsqForward.

(** The completed entries at the head are freed. *)
Fixpoint release (st : list SQEntry) : list SQEntry :=
  match st with e :: st' => if completed e then release st' else st | [] => [] end.

Lemma release_suffix st : ∃ d, st = d ++ release st ∧ Forall (λ e, completed e = true) d.
Proof.
  induction st as [|e st (d & E & Hd)]; [by exists []|]. simpl. destruct (completed e) eqn:Ec; [|by exists []]. exists (e :: d). split; [simpl; by f_equal|by constructor].
Qed.

Lemma release_length st : vlen (release st) ≤ vlen st.
Proof. destruct (release_suffix st) as (d & E & _). rewrite E at 2. unfold vlen. rewrite length_app. lia. Qed.

(** The unit with the head one further. *)
Definition advance_head (q : SQ) : SQ :=
  mkStoreQ (storeQueue q) (SQEntries q) (stores q - 1) (storesToWB q) (incrStIdx q (storeHead q)) (storeWBIdx q) (storeTail q).

Lemma advance_srep q e st w : srep q (e :: st) w → srep (advance_head q) st (w - 1).
Proof.
  intros Hs. pose proof (shead _ _ _ Hs) as (Hh & _ & E0). pose proof Hs as [[Hn H256] Hr Hc Ht Hw].
  assert (Ei : incrStIdx q (storeHead q) = slot (SQEntries q) (storeHead q) 1) by (rewrite <-E0 at 1; apply (sincr _ _ _ 0 Hs)).
  split; simpl; [done|rewrite Ei, Hn; by eapply ring_pop|rewrite Hc; unfold vlen; simpl; lia|rewrite Ei, slot_slot, Ht; f_equal; unfold vlen; simpl; lia|].
  rewrite Ei, slot_slot, Hw. f_equal. lia.
Qed.

Lemma release_loop_rep st fuel q e w :
  srep q (e :: st) w → (length st < fuel)%nat →
  ∃ q', release_loop fuel q = Ok q' ∧ srep q' (release st) (w - (1 + vlen st - vlen (release st))) ∧
    storesToWB q' = storesToWB q ∧ SQEntries q' = SQEntries q ∧ storeTail q' = storeTail q ∧ storeWBIdx q' = storeWBIdx q.
Proof.
  revert fuel q e w. induction st as [|e' st IH]; intros fuel q e w Hs Hf; (destruct fuel as [|fuel]; [simpl in Hf; lia|]); cbn [release_loop];
    pose proof (advance_srep _ _ _ _ Hs) as Ha; fold (advance_head q); pose proof (shead _ _ _ Ha) as (Hh & Hlen & E0).
  - pose proof (s_n _ _ _ Ha) as [Hn _]. destruct (lookup_lt_is_Some_2 (storeQueue (advance_head q)) (Z.to_nat (storeHead (advance_head q))) ltac:(unfold vlen in *; lia)) as [f Hf'].
    rewrite (vget_in _ _ f) by (done || lia). cbn [mbind res_bind]. pose proof (s_tail _ _ _ Ha) as Ht. change (vlen []) with 0 in Ht. rewrite E0 in Ht. rewrite Ht, Z.eqb_refl, andb_false_r.
    eexists. split; [done|]. split; [|done]. simpl. replace (w - (1 + vlen [] - vlen [])) with (w - 1) by (unfold vlen; simpl; lia). done.
  - pose proof (sget _ _ _ 0 e' Ha eq_refl) as Eg. change (Z.of_nat 0) with 0 in Eg. rewrite E0 in Eg. rewrite Eg. cbn [mbind res_bind].
    pose proof (stail_eq _ _ _ 0 Ha ltac:(unfold vlen; lia)) as Et. rewrite E0 in Et. rewrite Et. rewrite (proj2 (Z.eqb_neq 0 _)) by (unfold vlen; simpl; lia). simpl negb. rewrite andb_true_r. simpl release.
    destruct (completed e') eqn:Ec.
    + destruct (IH fuel _ _ _ Ha ltac:(simpl in Hf; lia)) as (q' & E & Hs' & R). exists q'. split; [done|]. split; [|done].
      replace (w - (1 + vlen (e' :: st) - vlen (release st))) with (w - 1 - (1 + vlen st - vlen (release st))) by (unfold vlen; simpl; lia). done.
    + eexists. split; [done|]. split; [|done]. replace (w - (1 + vlen (e' :: st) - vlen (e' :: st))) with (w - 1) by lia. done.
Qed.

Lemma unstall_ok s ls st w : rep s ls st w → stall_ok s ls → stalled (stall s) = true →
  ∃ x, unstall s = Ok (say (with_stall s (mkStall false 0 (stallingLoadIdx (stall s)))) [ReplayInst x]).
Proof.
  intros Hr Hst Hs. destruct (Hst Hs) as (k & x & Hx & E). unfold unstall. rewrite E, (lget _ _ _ _ (r_lq _ _ _ _ Hr) Hx). cbn [mbind res_bind thePtr]. by exists x.
Qed.

(** What completion and sending change besides the store queue. *)
Record effect (s s' : t) : Prop := {
  x_lq : lq s' = lq s; x_kinds : gentle (insts s) (insts s'); x_viol : memDepViolator s' = memDepViolator s;
  x_stall : stall s' = stall s ∨ stalled (stall s') = false; x_log : log s `prefix_of` log s'
}.

Lemma rep_effect s s' ls st w : rep s ls st w → lq s' = lq s → sq s' = sq s → same_kinds (insts s) (insts s') → rep s' ls st w.
Proof. intros [Hl Hs Hk] E1 E2 Hsk. split; [by rewrite E1|by rewrite E2|by eapply known_kinds]. Qed.

(** The load that waited for store [i] is replayed. *)
Lemma wake_load s ls st w i : rep s ls st w → stall_ok s ls →
  ∃ s', (if stalled (stall s) && (sn i =? stallingStoreIsn (stall s)) then unstall s else Ok s) = Ok s' ∧ effect s s' ∧ sq s' = sq s ∧ insts s' = insts s ∧ port s' = port s.
Proof.
  intros Hr Hst. destruct (stalled (stall s) && (sn i =? stallingStoreIsn (stall s))) eqn:E.
  - apply andb_true_iff in E as [E _]. destruct (unstall_ok _ _ _ _ Hr Hst E) as (x & ->). eexists. split; [done|]. split; [|done]. split; try done; [by right|by eexists].
  - exists s. split; [done|]. split; [|done]. split; try done. by left.
Qed.

Lemma effect_trans s1 s2 s3 : effect s1 s2 → effect s2 s3 → effect s1 s3.
Proof.
  intros [A1 A2 A3 A4 A5] [B1 B2 B3 B4 B5]. split; [congruence|by eapply gentle_trans|congruence| |by etrans].
  destruct B4 as [->|]; [done|by right].
Qed.

(** The stores in the queue after entry [k] has completed. *)
Definition after_complete (st : list SQEntry) (k : nat) (e : SQEntry) : list SQEntry :=
  let st1 := <[k := set_completed e]> st in if (k =? 0)%nat then release st1 else st1.

Section ops.
Context (par : Params).

Lemma completeStore_rep s ls st w k e :
  rep s ls st w → st !! k = Some e → stall_ok s ls →
  ∃ s', completeStore par s (slot (SQEntries (sq s)) (storeHead (sq s)) (Z.of_nat k)) = Ok s' ∧
    rep s' ls (after_complete st k e) (w - (vlen st - vlen (after_complete st k e))) ∧ effect s s' ∧
    storesToWB (sq s') = storesToWB (sq s) - 1 ∧ SQEntries (sq s') = SQEntries (sq s) ∧ storeWBIdx (sq s') = storeWBIdx (sq s).
Proof.
  intros Hr He Hst. pose proof Hr as [Hl Hs Hk]. pose proof (shead _ _ _ Hs) as (Hh & Hlen & E0). unfold completeStore.
  rewrite (sget _ _ _ _ _ Hs He). cbn [mbind res_bind]. destruct (k_stores _ _ _ Hk e ltac:(by eapply list_elem_of_lookup_2)) as (x & Ex & [i Hi]). rewrite Ex. cbn [mbind res_bind].
  destruct (mod_entry_rep s ls st w k e set_completed Hr He eq_refl) as (q1 & -> & Hr1 & T1 & T2 & T3 & T4 & T5). cbn [mbind res_bind].
  set (s1 := say _ [WakeCPU; Activity]). assert (Hr1' : rep s1 ls (<[k := set_completed e]> st) w) by (apply rep_say, rep_toWB, Hr1).
  assert (X1 : effect s s1) by (split; try done; [by left|by exists [WakeCPU; Activity]]).
  assert (∃ s2, (if slot (SQEntries (sq s)) (storeHead (sq s)) (Z.of_nat k) =? storeHead (sq s1)
      then q ← release_loop (S (Z.to_nat (SQEntries (sq s1)))) (sq s1); Ok (say (with_sq s1 q) [UpdateLSQNextCycle]) else Ok s1) = Ok s2 ∧
    rep s2 ls (after_complete st k e) (w - (vlen st - vlen (after_complete st k e))) ∧ effect s1 s2 ∧ insts s2 = insts s ∧
    storesToWB (sq s2) = storesToWB (sq s) - 1 ∧ SQEntries (sq s2) = SQEntries (sq s) ∧ storeWBIdx (sq s2) = storeWBIdx (sq s) ∧ stall s2 = stall s) as (s2 & -> & Hr2 & X2 & Ei2 & T6 & T7 & T8 & T9).
  { change (storeHead (sq s1)) with (storeHead q1). rewrite T2. apply lookup_lt_Some in He as Hlt. destruct k as [|k].
    - change (Z.of_nat 0) with 0. rewrite E0, Z.eqb_refl. destruct st as [|e0 st]; [done|]. injection He as ->. change (after_complete (e :: st) 0 e) with (release st). simpl in Hr1'.
      destruct (release_loop_rep st (S (Z.to_nat (SQEntries (sq s1)))) (sq s1) _ w (r_sq _ _ _ _ Hr1')) as (q2 & -> & Hs2 & U1 & U2 & U3 & U4).
      { change (SQEntries (sq s1)) with (SQEntries q1). unfold vlen in *. simpl in Hlen. rewrite T3. lia. }
      cbn [mbind res_bind]. eexists. split; [done|]. split_and!; try done; simpl.
      + apply rep_say. split; [done| |].
        * replace (w - (vlen (e :: st) - vlen (release st))) with (w - (1 + vlen st - vlen (release st))) by (unfold vlen; simpl; lia). done.
        * destruct (r_known _ _ _ _ Hr1') as [K1 K2 K3 K4]. destruct (release_suffix st) as (d & Ed & _). simpl in K2, K4. split; try done.
          -- intros f Hf. apply K2. right. rewrite Ed. set_solver.
          -- apply StronglySorted_inv in K4 as [K4 _]. rewrite Ed in K4. by apply StronglySorted_app_1_r in K4.
      + split; try done; [by left|by exists [UpdateLSQNextCycle]].
      + rewrite U1. simpl. lia.
      + rewrite U2. done.
      + rewrite U4. done.
    - rewrite (proj2 (Z.eqb_neq _ _)) by (rewrite slot_empty; unfold vlen in *; lia). exists s1. split; [done|]. change (after_complete st (S k) e) with (<[S k := set_completed e]> st).
      replace (w - _) with w by (rewrite vlen_insert_at; lia). split_and!; try done; [split; try done; by left|simpl; lia]. }
  cbn [mbind res_bind]. unfold deref. rewrite Ei2, Hi. cbn [mbind res_bind].
  assert (Hst2 : stall_ok s2 ls). { unfold stall_ok. rewrite T9, (x_lq _ _ X2). exact Hst. }
  destruct (wake_load s2 ls _ _ i Hr2 Hst2) as (s3 & -> & X3 & E3 & Ei3 & _). cbn [mbind res_bind]. rewrite (upd_eq s3 x i) by (by rewrite Ei3, Ei2). cbn [mbind res_bind].
  set (s4 := with_insts _ _). assert (X4 : effect s3 s4) by (split; try done; [simpl; rewrite Ei3, Ei2; by eapply gentle_upd|by left]).
  eexists. split; [done|].
  assert (X : effect s s4) by exact (effect_trans _ _ _ X1 (effect_trans _ _ _ X2 (effect_trans _ _ _ X3 X4))).
  assert (Hr4 : rep s4 ls (after_complete st k e) (w - (vlen st - vlen (after_complete st k e)))).
  { apply (rep_effect s2); [done|by rewrite (x_lq _ _ X4), (x_lq _ _ X3)|simpl; by rewrite E3|]. eapply same_kinds_trans; [apply X3|apply X4]. }
  change (sq s4) with (sq s3). destruct (needsTSO par); simpl; rewrite E3; split_and!; try done; [split; try done; apply Hr4|split; try done; apply X].
Qed.

(** ** A store is sent *)
Lemma storePostSend_rep s ls st w e :
  rep s ls st (Z.of_nat w) → st !! w = Some e → stall_ok s ls →
  ∃ s', storePostSend par s = Ok s' ∧ rep s' ls st (Z.of_nat (S w)) ∧ effect s s' ∧ storesToWB (sq s') = storesToWB (sq s) ∧ SQEntries (sq s') = SQEntries (sq s) ∧
    storeHead (sq s') = storeHead (sq s).
Proof.
  intros Hr He Hst. pose proof Hr as [Hl Hs Hk]. unfold storePostSend. rewrite (s_wb _ _ _ Hs), (sget _ _ _ _ _ Hs He). cbn [mbind res_bind].
  destruct (k_stores _ _ _ Hk e ltac:(by eapply list_elem_of_lookup_2)) as (x & Ex & [i Hi]). rewrite Ex. cbn [mbind res_bind thePtr]. unfold deref. rewrite Hi. cbn [mbind res_bind].
  destruct (wake_load s ls _ _ i Hr Hst) as (s1 & -> & X1 & E1 & Ei1 & _). cbn [mbind res_bind].
  assert (∃ s2, (if negb (isStoreConditional (kind i)) then upd s1 x setCompleted else Ok s1) = Ok s2 ∧ effect s1 s2 ∧ sq s2 = sq s1) as (s2 & -> & X2 & E2).
  { destruct (isStoreConditional (kind i)); simpl; [exists s1; split; [done|]; split; [|done]; split; try done; by left|].
    rewrite (upd_eq s1 x i) by (by rewrite Ei1). eexists. split; [done|]. split; [|done]. split; try done; [simpl; rewrite Ei1; by eapply gentle_upd|by left]. }
  cbn [mbind res_bind]. set (s3 := if needsTSO par then _ else s2). assert (E3 : sq s3 = sq s2 ∧ lq s3 = lq s2 ∧ insts s3 = insts s2 ∧ effect s2 s3).
  { unfold s3. destruct (needsTSO par); split_and!; try done; split; try done; by left. }
  destruct E3 as (E3 & E4 & E5 & X3). assert (Hr3 : rep s3 ls st (Z.of_nat w)).
  { apply (rep_effect s); [done|by rewrite E4, (x_lq _ _ X2), (x_lq _ _ X1)|by rewrite E3, E2, E1|]. rewrite E5. eapply same_kinds_trans; [apply X1|apply X2]. }
  eexists. split; [done|]. rewrite E3, E2, E1. split_and!; [|split; simpl; try done|done|done|done].
  - pose proof Hr3 as [Hl3 _ Hk3]. pose proof Hs as [S1 S2 S3 S4 S5]. split; simpl; [done| |done]. split; simpl; try done. rewrite S5, (sincr _ _ _ _ Hs). f_equal. lia.
  - by rewrite E4, (x_lq _ _ X2), (x_lq _ _ X1).
  - rewrite E5. eapply gentle_trans; [apply X1|apply X2].
  - by rewrite (x_viol _ _ X3), (x_viol _ _ X2), (x_viol _ _ X1).
  - exact (x_stall _ _ (effect_trans _ _ _ X1 (effect_trans _ _ _ X2 X3))).
  - exact (x_log _ _ (effect_trans _ _ _ X1 (effect_trans _ _ _ X2 X3))).
Qed.

(** ** A store gets its data *)
Definition written (e : SQEntry) (r : Request) (bytes : list Z) : SQEntry :=
  mkSQ (inst e) (Some r) (u8 (getSize r)) (if isBlockZero r then data e else take (Z.to_nat (getSize r)) bytes ++ drop (Z.to_nat (getSize r)) (data e))
    (canWB e) (committed e) (completed e) (isBlockZero r).

Lemma write_rep s ls st w k e r bytes :
  rep s ls st w → st !! k = Some e → getSize r ≤ vlen (data e) ∨ isBlockZero r = true → getSize r ≤ vlen bytes ∨ isBlockZero r = true →
  ∃ s', write s r bytes (slot (SQEntries (sq s)) (storeHead (sq s)) (Z.of_nat k)) = Ok (None, s') ∧ rep s' ls (<[k := written e r bytes]> st) w ∧
    storesToWB (sq s') = storesToWB (sq s) ∧ SQEntries (sq s') = SQEntries (sq s) ∧ storeHead (sq s') = storeHead (sq s) ∧
    lq s' = lq s ∧ insts s' = insts s ∧ stall s' = stall s ∧ memDepViolator s' = memDepViolator s ∧ log s' = log s.
Proof.
  intros Hr He H1 H2. pose proof Hr as [Hl Hs Hk]. unfold write. rewrite (sget _ _ _ _ _ Hs He). cbn [mbind res_bind].
  destruct (k_stores _ _ _ Hk e ltac:(by eapply list_elem_of_lookup_2)) as (x & Ex & _). match goal with |- context [assert_ ?b] => assert (b = true) as -> by (rewrite Ex; done) end. cbn [mbind res_bind assert_].
  rewrite (proj2 (orb_true_iff _ _)) by (rewrite Z.leb_le; tauto). cbn [mbind res_bind assert_].
  assert (∃ d, (if isBlockZero r then Ok (data e) else _ ← guard_ (getSize r <=? vlen bytes) OutOfRange; Ok (take (Z.to_nat (getSize r)) bytes ++ drop (Z.to_nat (getSize r)) (data e))) = Ok d ∧
    d = if isBlockZero r then data e else take (Z.to_nat (getSize r)) bytes ++ drop (Z.to_nat (getSize r)) (data e)) as (d & -> & ->).
  { destruct (isBlockZero r); [by eexists|]. rewrite (proj2 (Z.leb_le _ _)) by (destruct H2; [lia|done]). by eexists. }
  cbn [mbind res_bind]. pose proof (s_n _ _ _ Hs) as [Hn _]. pose proof (shead _ _ _ Hs) as (Hh & _ & _). rewrite Hn, vset_slot by lia. cbn [mbind res_bind]. rewrite <-Hn.
  eexists. split; [done|]. split; [|done]. split; simpl; [done| |by eapply known_update]. apply srep_update; [done|by eapply lookup_lt_Some].
Qed.
End ops.
End LsqStores.
