(* ===== verification/LsqInv.v ===== *)
(** * The load-store queue unit: invariant

    A load that has not executed starts its search after the stores older than it, none of
    the younger stores may be written back, and the load that stalls is in the queue. *)

From stdpp Require Import sorting.
From S2P Require Import Prelude Lsq LsqRing LsqQueues LsqForward LsqStores.

Module LsqInv.
Import LSQUnit LsqRing LsqQueues LsqForward LsqStores.

(** The number of stores older than instruction [x]. *)
Definition older (m : gmap positive DynInst) (st : list SQEntry) (x : positive) : nat := length (filter (λ e, enum m e < num m x) st).

(** Stores: [w] were sent; sent and complete ones may be written back; the first is not
    complete. *)
Record stores_ok (m : gmap positive DynInst) (st : list SQEntry) (w : nat) (toWB_ : Z) : Prop := {
  t_sent : (w ≤ length st)%nat;
  t_canWB : ∀ j e, st !! j = Some e → (j < w)%nat → canWB e = true;
  t_done : ∀ j e, st !! j = Some e → completed e = true → (j < w)%nat;
  t_head : ∀ e, st !! 0%nat = Some e → completed e = false;
  t_count : toWB_ = toWB st;
  t_entry : ∀ e, e ∈ st → entry_ok m e
}.

Record loads_ok (s : t) (ls : list positive) (st : list SQEntry) (w : nat) : Prop := {
  g_start : ∀ x i, x ∈ ls → insts s !! x = Some i → isExecuted (status i) = false → starts s w (older (insts s) st x) st i;
  g_young : ∀ x i e, x ∈ ls → insts s !! x = Some i → isExecuted (status i) = false → e ∈ st → num (insts s) x < enum (insts s) e → canWB e = false;
  g_distinct : ∀ x e, x ∈ ls → e ∈ st → num (insts s) x ≠ enum (insts s) e;
  g_stall : stalled (stall s) = true → ∃ k x, ls !! k = Some x ∧ stallingLoadIdx (stall s) = slot (LQEntries (lq s)) (loadHead (lq s)) (Z.of_nat k) ∧
    stallingStoreIsn (stall s) < num (insts s) x;
  g_viol : ∀ v, memDepViolator s = Some v → is_Some (insts s !! v)
}.

(** The loads older than the store of an entry; a store that may not be written back
    knows where the younger ones start. *)
Definition before (m : gmap positive DynInst) (ls : list positive) (e : SQEntry) : nat := length (filter (λ x, num m x < enum m e) ls).
Definition marks (s : t) (ls : list positive) (st : list SQEntry) : Prop :=
  ∀ e y i, e ∈ st → canWB e = false → inst e = Some y → insts s !! y = Some i → lqIdx i = slot (LQEntries (lq s)) (loadHead (lq s)) (Z.of_nat (before (insts s) ls e)).

Record inv (s : t) (ls : list positive) (st : list SQEntry) (w : nat) : Prop := {
  n_rep : rep s ls st (Z.of_nat w); n_stores : stores_ok (insts s) st w (storesToWB (sq s)); n_loads : loads_ok s ls st w;
  n_marks : marks s ls st
}.

(** ** Older stores come first *)
Lemma older_prefix m st x : StronglySorted (λ e f, enum m e < enum m f) st → filter (λ e, enum m e < num m x) st = take (older m st x) st.
Proof.
  unfold older. induction 1 as [|e st Hst IH He]; [done|]. rewrite filter_cons. destruct (decide (enum m e < num m x)) as [Hlt|Hge].
  - simpl. f_equal. exact IH.
  - assert (filter (λ e, enum m e < num m x) st = []) as ->; [|done].
    rewrite Forall_forall in He. clear IH Hst. induction st as [|f st IH]; [done|]. rewrite filter_cons_False; [apply IH; intros g Hg; apply He; by right|].
    specialize (He f ltac:(left)). simpl in He. lia.
Qed.

Lemma older_le m st x : (older m st x ≤ length st)%nat.
Proof. unfold older. apply length_filter. Qed.

Lemma older_lt m st x j e : StronglySorted (λ e f, enum m e < enum m f) st → st !! j = Some e → (j < older m st x)%nat ↔ enum m e < num m x.
Proof.
  intros Hs Hj. pose proof (older_prefix m st x Hs) as Hp. split.
  - intros Hlt. assert (e ∈ filter (λ e, enum m e < num m x) st) as [? _]%list_elem_of_filter; [|done]. rewrite Hp. apply list_elem_of_lookup. exists j. by rewrite lookup_take_lt.
  - intros Hlt. assert (e ∈ take (older m st x) st) as Hin by (rewrite <-Hp; apply list_elem_of_filter; split; [done|by eapply list_elem_of_lookup_2]).
    apply list_elem_of_lookup in Hin as [k Hk]. apply lookup_take_Some in Hk as [Hk Hklt]. destruct (decide (k = j)) as [->|Hne]; [done|].
    exfalso. assert (Hirr : ∀ a b f h, st !! a = Some f → st !! b = Some h → (a < b)%nat → enum m f < enum m h).
    { intros a b f h Ha Hb Hab. rewrite <-(take_drop_middle _ _ _ Ha) in Hs. apply StronglySorted_app_1_r, StronglySorted_inv in Hs as [_ Hs]. rewrite Forall_forall in Hs. apply Hs.
      apply list_elem_of_lookup. exists (b - S a)%nat. rewrite lookup_drop. by replace (S a + (b - S a))%nat with b by lia. }
    destruct (decide (k < j)%nat); [specialize (Hirr k j e e Hk Hj ltac:(lia))|specialize (Hirr j k e e Hj Hk ltac:(lia))]; lia.
Qed.

(** ** A new load, a new store *)
Lemma slot_m n h k j : slot n h (k + j) = slot n (slot n h k) j.
Proof. by rewrite slot_slot. Qed.

(** Slots seen from another head. *)
Lemma slot_shift n h h' a a' j : slot n h' a' = slot n h a → slot n h' (a' + j) = slot n h (a + j).
Proof. intros E. by rewrite !slot_m, E. Qed.

Lemma enum_kinds m m' e : same_kinds m m' → enum m' e = enum m e.
Proof. intros H. unfold enum. destruct (inst e); simpl; [by apply same_kinds_num|done]. Qed.

Lemma older_kinds m m' st x : same_kinds m m' → older m' st x = older m st x.
Proof. intros H. unfold older. f_equal. apply list_filter_iff. intros e. by rewrite (enum_kinds m m'), (same_kinds_num m m') by done. Qed.

Lemma entry_ok_gentle m m' e : gentle m m' → entry_ok m e → entry_ok m' e.
Proof.
  intros [Hk Hg] [(y & i & Ey & Hi & Hw) H2 H3]. split; [|done|done]. destruct (same_kinds_some m m' y Hk ltac:(by eexists)) as [i' Hi']. destruct (Hg _ _ Hi') as (i0 & Hi0 & Ha & _).
  assert (i0 = i) as -> by congruence. exists y, i'. split_and!; [done|done|]. by rewrite Ha.
Qed.

Lemma stores_ok_gentle m m' st w n : gentle m m' → stores_ok m st w n → stores_ok m' st w n.
Proof. intros Hg []. split; try done. intros e He. eapply entry_ok_gentle; [done|auto]. Qed.

(** The loads see of the instructions only where they start and whether they executed. *)
Lemma loads_ok_mild s s' ls st w :
  loads_ok s ls st w → same_kinds (insts s) (insts s') →
  (∀ x i', insts s' !! x = Some i' → ∃ i, insts s !! x = Some i ∧ sqIdx i' = sqIdx i ∧ (isExecuted (status i') = false → isExecuted (status i) = false)) →
  LQEntries (lq s') = LQEntries (lq s) → loadHead (lq s') = loadHead (lq s) → SQEntries (sq s') = SQEntries (sq s) →
  storeHead (sq s') = storeHead (sq s) → stall s' = stall s ∨ stalled (stall s') = false → (∀ v, memDepViolator s' = Some v → is_Some (insts s !! v)) → loads_ok s' ls st w.
Proof.
  intros [G1 G2 G3 G4 G5] Hk Hg E1 E2 E3 E4 E5 E6. split.
  - intros x i' Hx Hi' He. destruct (Hg _ _ Hi') as (i & Hi & Hq & Hex). rewrite (older_kinds (insts s)) by done. unfold starts. rewrite E3, E4, Hq. exact (G1 x i Hx Hi (Hex He)).
  - intros x i' e Hx Hi' He Hin. destruct (Hg _ _ Hi') as (i & Hi & _ & Hex). rewrite (same_kinds_num (insts s)), (enum_kinds (insts s)) by done. by apply (G2 x i); auto.
  - intros x e Hx He. rewrite (same_kinds_num (insts s)), (enum_kinds (insts s)) by done. by apply G3.
  - intros Hst. destruct E5 as [E5|E5]; [|congruence]. rewrite E5 in *. destruct (G4 Hst) as (k & x & Hx & Hi & Hlt). exists k, x. rewrite E1, E2, (same_kinds_num (insts s)) by done. done.
  - intros v Hv. eapply same_kinds_some; [done|]. by apply E6.
Qed.

Lemma loads_ok_gentle s s' ls st w :
  loads_ok s ls st w → gentle (insts s) (insts s') → LQEntries (lq s') = LQEntries (lq s) → loadHead (lq s') = loadHead (lq s) → SQEntries (sq s') = SQEntries (sq s) →
  storeHead (sq s') = storeHead (sq s) → stall s' = stall s ∨ stalled (stall s') = false → memDepViolator s' = memDepViolator s → loads_ok s' ls st w.
Proof.
  intros Hl [Hk Hg] E1 E2 E3 E4 E5 E6. apply (loads_ok_mild s); try done; [|rewrite E6; apply Hl].
  intros x i' Hi'. destruct (Hg _ _ Hi') as (i & ? & _ & ? & ?). by exists i.
Qed.

Lemma before_kinds m m' ls e : same_kinds m m' → before m' ls e = before m ls e.
Proof. intros H. unfold before. f_equal. apply list_filter_iff. intros x. by rewrite (enum_kinds m m'), (same_kinds_num m m') by done. Qed.

Lemma marks_mild s s' ls st st' :
  marks s ls st → same_kinds (insts s) (insts s') → (∀ x i', insts s' !! x = Some i' → ∃ i, insts s !! x = Some i ∧ lqIdx i' = lqIdx i) →
  LQEntries (lq s') = LQEntries (lq s) → loadHead (lq s') = loadHead (lq s) → (∀ e', e' ∈ st' → canWB e' = false → ∃ e, e ∈ st ∧ canWB e = false ∧ inst e' = inst e) → marks s' ls st'.
Proof.
  intros Hm Hk Hq E1 E2 Hst e' y i' He' Hc Ey Hi'. destruct (Hq _ _ Hi') as (i & Hi & ->). destruct (Hst e' He' Hc) as (e & He & Hce & E). rewrite E in Ey.
  rewrite E1, E2, (before_kinds (insts s)), (Hm e y i He Hce Ey Hi) by done. unfold before, enum. by rewrite E.
Qed.

Lemma marks_gentle s s' ls st st' :
  marks s ls st → gentle (insts s) (insts s') → LQEntries (lq s') = LQEntries (lq s) → loadHead (lq s') = loadHead (lq s) →
  (∀ e', e' ∈ st' → canWB e' = false → ∃ e, e ∈ st ∧ canWB e = false ∧ inst e' = inst e) → marks s' ls st'.
Proof. intros Hm [Hk _ Hq]. by apply marks_mild. Qed.

Lemma inv_gentle s s' ls st w :
  inv s ls st w → gentle (insts s) (insts s') → lq s' = lq s → sq s' = sq s → stall s' = stall s ∨ stalled (stall s') = false → memDepViolator s' = memDepViolator s → inv s' ls st w.
Proof.
  intros [Hr Hs Hl Hm] Hg E1 E2 E3 E4. split; [eapply rep_effect; [done..|apply Hg]|rewrite E2; by eapply stores_ok_gentle|eapply loads_ok_gentle; try done; by rewrite ?E1, ?E2|].
  eapply marks_gentle; try done; rewrite ?E1; eauto.
Qed.

Lemma stall_ok_inv s ls st w : inv s ls st w → stall_ok s ls.
Proof. intros [_ _ Hl _] Hs. destruct (g_stall _ _ _ _ Hl Hs) as (k & x & ? & ? & _). eauto. Qed.

(** ** One instruction changes *)
Definition changed (m m' : gmap positive DynInst) (x : positive) : Prop := ∃ i i', m !! x = Some i ∧ m' = <[x := i']> m ∧ kind i' = kind i.

Lemma changed_kinds m m' x : changed m m' x → same_kinds m m'.
Proof. intros (i & i' & Hx & -> & Hk). intros y. destruct (decide (y = x)) as [->|]; [rewrite lookup_insert_eq, Hx; simpl; by rewrite Hk|by rewrite lookup_insert_ne]. Qed.

(** ** Insertion *)
Lemma fresh_num m x i y : m !! x = Some i → num m y < sn i → y ≠ x.
Proof. intros Hx Hlt ->. unfold num in Hlt. rewrite Hx in Hlt. simpl in Hlt. lia. Qed.

Lemma inv_insertLoad s ls st w x i :
  inv s ls st w → insts s !! x = Some i → vlen ls + 1 < LQEntries (lq s) → (∀ y, y ∈ ls → num (insts s) y < sn i) → (∀ e, e ∈ st → enum (insts s) e < sn i) →
  ∃ s', insertLoad s x = Ok s' ∧ inv s' (ls ++ [x]) st w ∧ changed (insts s) (insts s') x ∧ LQEntries (lq s') = LQEntries (lq s) ∧ SQEntries (sq s') = SQEntries (sq s).
Proof.
  intros [Hr Hs Hl Hma] Hx Hlt Hy He. destruct (insertLoad_rep _ _ _ _ _ _ Hr Hx Hlt Hy) as (q & E & Hr' & Hh & Hn). set (i' := set_idx _ _ i) in *.
  set (s' := with_lq _ q) in *. assert (Hsk : same_kinds (insts s) (insts s')) by (by apply same_kinds_upd).
  assert (Hne : ∀ y, y ∈ ls → insts s' !! y = insts s !! y). { intros y Hin. simpl. apply lookup_insert_ne. intros ->. by apply (fresh_num (insts s) y i y Hx (Hy y Hin)). }
  exists s'. split_and!; [done| |by exists i, i'|exact Hn|done]. split; [done|..].
  - destruct Hs as [S1 S2 S3 S4 S5 S6]. split; try done. intros e Hin. destruct (S6 e Hin) as [(y & j & Ey & Hj & Hw) H2 H3]. split; [|done|done]. exists y, j. split_and!; [done| |done].
    simpl. rewrite lookup_insert_ne; [done|]. intros ->. apply (fresh_num (insts s) y i y Hx); [|done]. specialize (He e Hin). unfold enum in He. by rewrite Ey in He.
  - destruct Hl as [G1 G2 G3 G4 G5]. pose proof (r_sq _ _ _ _ Hr) as Hsr. split.
    + intros y j [Hin| ->%list_elem_of_singleton]%elem_of_app Hj Hex.
      * rewrite Hne in Hj by done. rewrite (older_kinds (insts s)) by done. exact (G1 y j Hin Hj Hex).
      * simpl in Hj. rewrite lookup_insert_eq in Hj. injection Hj as <-. rewrite (older_kinds (insts s)) by done.
        assert (older (insts s) st x = length st) as ->.
        { unfold older. rewrite lsq_filter_all; [done|]. intros e Hin. unfold num. rewrite Hx. by apply He. }
        unfold starts. pose proof (t_sent _ _ _ _ Hs). split; [lia|]. simpl. rewrite (s_count _ _ _ Hsr). destruct (Z.eqb_spec (vlen st) 0) as [E0|E0]; [right|left].
        -- split; [done|]. unfold vlen in E0. lia.
        -- apply (s_tail _ _ _ Hsr).
    + intros y j e [Hin| ->%list_elem_of_singleton]%elem_of_app Hj Hex Hine; rewrite (same_kinds_num (insts s)), (enum_kinds (insts s)) by done.
      * rewrite Hne in Hj by done. by apply (G2 y j).
      * specialize (He e Hine). unfold num. rewrite Hx. simpl. lia.
    + intros y e [Hin| ->%list_elem_of_singleton]%elem_of_app Hine; rewrite (same_kinds_num (insts s)), (enum_kinds (insts s)) by done; [by apply G3|].
      specialize (He e Hine). unfold num. rewrite Hx. simpl. lia.
    + intros Hst. destruct (G4 Hst) as (k & y & Hk & Hi & Hlt'). exists k, y. split; [by apply lookup_app_l_Some|]. rewrite (same_kinds_num (insts s)) by done. simpl. by rewrite Hn, Hh.
    + intros v Hv. eapply same_kinds_some; [done|]. by apply G5.
  - intros e y j Hin Hc Ey Hj. specialize (He e Hin). rewrite (before_kinds (insts s)) by done. simpl in Hj. rewrite lookup_insert_ne in Hj.
    + rewrite (Hma e y j Hin Hc Ey Hj). simpl. rewrite Hn, Hh. unfold before. rewrite filter_app, filter_cons_False, filter_nil, app_nil_r; [done|]. unfold num at 1. rewrite Hx. simpl. lia.
    + intros ->. apply (fresh_num (insts s) y i y Hx); [|done]. unfold enum in He. by rewrite Ey in He.
Qed.

Lemma toWB_snoc st e : toWB (st ++ [e]) = toWB st + (if pending e then 1 else 0).
Proof. unfold toWB, vlen. rewrite filter_app, length_app, filter_cons. destruct (pending e); simpl; lia. Qed.

Lemma older_snoc m st e x : ¬ enum m e < num m x → older m (st ++ [e]) x = older m st x.
Proof. intros Hn. unfold older. rewrite filter_app, filter_cons_False by done. by rewrite filter_nil, app_nil_r. Qed.

Lemma lsq_inv_insertStore s ls st w x i :
  inv s ls st w → insts s !! x = Some i → vlen st + 1 < SQEntries (sq s) → (∀ y, y ∈ ls → num (insts s) y < sn i) → (∀ e, e ∈ st → enum (insts s) e < sn i) →
  ∃ s', insertStore s x = Ok s' ∧ inv s' ls (st ++ [SQEntry_new x]) w ∧ changed (insts s) (insts s') x ∧ LQEntries (lq s') = LQEntries (lq s) ∧ SQEntries (sq s') = SQEntries (sq s).
Proof.
  intros [Hr Hs Hl Hma] Hx Hlt Hy He. destruct (insertStore_rep _ _ _ _ _ _ Hr Hx Hlt He) as (q & E & Hr' & Hh & Hn & Ht). set (i' := set_idx _ _ i) in *.
  set (s' := with_sq _ q) in *. assert (Hsk : same_kinds (insts s) (insts s')) by (by apply same_kinds_upd).
  assert (Hne : ∀ y, y ∈ ls → insts s' !! y = insts s !! y). { intros y Hin. simpl. apply lookup_insert_ne. intros ->. by apply (fresh_num (insts s) y i y Hx (Hy y Hin)). }
  assert (Hnew : enum (insts s) (SQEntry_new x) = sn i) by (unfold enum, num; simpl; by rewrite Hx).
  exists s'. split_and!; [done| |by exists i, i'|done|exact Hn]. split; [done|..].
  - destruct Hs as [S1 S2 S3 S4 S5 S6]. split.
    + rewrite length_app. simpl. lia.
    + intros j e Hj Hlt'. apply (S2 j); [|done]. rewrite lookup_app_l in Hj by lia. done.
    + intros j e Hj Hc. apply lookup_app_Some in Hj as [Hj|[_ Hj]]; [by eapply S3|]. by apply list_lookup_singleton_Some in Hj as [_ <-].
    + intros e Hj. destruct st as [|f st]; [by injection Hj as <-|by apply S4].
    + simpl. rewrite Ht, S5, toWB_snoc. unfold pending. simpl. lia.
    + intros e [Hin| ->%list_elem_of_singleton]%elem_of_app.
      * destruct (S6 e Hin) as [(y & j & Ey & Hj & Hw) H2 H3]. split; [|done|done]. exists y, j. split_and!; [done| |done].
        simpl. rewrite lookup_insert_ne; [done|]. intros ->. apply (fresh_num (insts s) y i y Hx); [|done]. specialize (He e Hin). unfold enum in He. by rewrite Ey in He.
      * split; [exists x, i'|done|done]. split_and!; [done|simpl; apply lookup_insert_eq|done].
  - destruct Hl as [G1 G2 G3 G4 G5]. split.
    + intros y j Hin Hj Hex. rewrite Hne in Hj by done. rewrite (older_kinds (insts s)) by done. rewrite older_snoc by (rewrite Hnew; specialize (Hy y Hin); lia).
      destruct (G1 y j Hin Hj Hex) as [Hrg Hq]. split; [rewrite length_app; simpl; lia|]. simpl. by rewrite Hh, Hn.
    + intros y j e Hin Hj Hex [Hine| ->%list_elem_of_singleton]%elem_of_app; [|done]. rewrite (same_kinds_num (insts s)), (enum_kinds (insts s)) by done. rewrite Hne in Hj by done. by apply (G2 y j).
    + intros y e Hin [Hine| ->%list_elem_of_singleton]%elem_of_app; rewrite (same_kinds_num (insts s)), (enum_kinds (insts s)) by done; [by apply G3|]. rewrite Hnew. specialize (Hy y Hin). lia.
    + intros Hst. destruct (G4 Hst) as (k & y & Hk & Hi & Hlt'). exists k, y. by rewrite (same_kinds_num (insts s)) by done.
    + intros v Hv. eapply same_kinds_some; [done|]. by apply G5.
  - intros e y j Hin Hc Ey Hj. rewrite (before_kinds (insts s)) by done. simpl in Hj. apply elem_of_app in Hin as [Hin| ->%list_elem_of_singleton].
    + specialize (He e Hin). rewrite lookup_insert_ne in Hj; [exact (Hma e y j Hin Hc Ey Hj)|]. intros ->. apply (fresh_num (insts s) y i y Hx); [|done]. unfold enum in He. by rewrite Ey in He.
    + injection Ey as <-. rewrite lookup_insert_eq in Hj. injection Hj as <-. simpl. rewrite (l_tail _ _ (r_lq _ _ _ _ Hr)). unfold before. rewrite lsq_filter_all; [done|].
      intros z Hz. rewrite Hnew. by apply Hy.
Qed.

(** ** Commit *)
Lemma commit_suffix m ls y : StronglySorted (λ a b, num m a < num m b) ls → ∃ d, ls = d ++ filter (λ x, y < num m x) ls ∧ ∀ x, x ∈ d → num m x ≤ y.
Proof.
  induction 1 as [|x ls Hso IH Hx]; [exists []; split; [done|]; by intros x ?%elem_of_nil|]. rewrite filter_cons. destruct (decide _) as [Hy|Hy].
  - exists []. split; [|by intros z ?%elem_of_nil]. simpl. f_equal. symmetry. apply lsq_filter_all. intros z Hz. rewrite Forall_forall in Hx. specialize (Hx z Hz). simpl in Hx. lia.
  - destruct IH as (d & E & Hd). exists (x :: d). split; [simpl; by f_equal|]. intros z [->|Hz]%elem_of_cons; [lia|by apply Hd].
Qed.

(** The slots of the loads that stay. *)
Lemma commit_slot q q' d l k :
  lrep q (d ++ l) → lrep q' l → loadTail q' = loadTail q → LQEntries q' = LQEntries q → slot (LQEntries q') (loadHead q') k = slot (LQEntries q) (loadHead q) (vlen d + k).
Proof.
  intros R1 R2 Ht Hn. pose proof (l_tail _ _ R1) as T1. pose proof (l_tail _ _ R2) as T2. rewrite Ht, Hn, T1 in T2. rewrite Hn.
  replace k with (vlen l + (k - vlen l)) at 1 by lia. replace (vlen d + k) with (vlen (d ++ l) + (k - vlen l)) by (unfold vlen; rewrite length_app; lia). by apply slot_shift.
Qed.

Lemma inv_commitLoads s ls st w y :
  inv s ls st w → (∀ k x, stalled (stall s) = true → ls !! k = Some x → stallingLoadIdx (stall s) = slot (LQEntries (lq s)) (loadHead (lq s)) (Z.of_nat k) → y < num (insts s) x) →
  (∀ e, e ∈ st → canWB e = false → y < enum (insts s) e) →
  ∃ s', commitLoads s y = Ok s' ∧ inv s' (filter (λ x, y < num (insts s) x) ls) st w ∧ insts s' = insts s ∧ LQEntries (lq s') = LQEntries (lq s) ∧ sq s' = sq s ∧ stall s' = stall s.
Proof.
  intros [Hr Hs Hl Hma] Hst Hyc. destruct (commitLoads_rep _ _ _ _ y Hr) as (q & E & Hr' & Ht & Hn). exists (with_lq s q). split_and!; try done.
  pose proof (k_lsorted _ _ _ (r_known _ _ _ _ Hr)) as Hso. destruct (commit_suffix _ _ y Hso) as (d & Ed & Hd). set (l' := filter _ ls) in *.
  pose proof (r_lq _ _ _ _ Hr) as R1. rewrite Ed in R1. pose proof (λ k, commit_slot _ _ d l' k R1 (r_lq _ _ _ _ Hr') Ht Hn) as Hslot. simpl in Hslot.
  split; [done|done| |]; [destruct Hl as [G1 G2 G3 G4 G5]; split; try done|].
  - intros x i [_ Hx]%list_elem_of_filter. by apply G1.
  - intros x i e [_ Hx]%list_elem_of_filter. by apply G2.
  - intros x e [_ Hx]%list_elem_of_filter. by apply G3.
  - intros Hs'. destruct (G4 Hs') as (k & x & Hx & Hi & Hlt). specialize (Hst k x Hs' Hx Hi). simpl. assert (Hkd : (length d ≤ k)%nat).
    { destruct (decide (k < length d)%nat) as [Hlt'|]; [|lia]. exfalso. rewrite Ed, lookup_app_l in Hx by done. specialize (Hd x ltac:(by eapply list_elem_of_lookup_2)). lia. }
    exists (k - length d)%nat, x. split_and!; [|rewrite Hi, Hslot; f_equal; unfold vlen; lia|done]. rewrite Ed, lookup_app_r in Hx by done. done.
  - intros e z i He Hc Ez Hz. rewrite (Hma e z i He Hc Ez Hz). simpl. rewrite Hslot. f_equal. specialize (Hyc e He Hc).
    assert (before (insts s) ls e = length d + before (insts s) l' e)%nat as ->; [|unfold vlen; lia]. unfold before. rewrite Ed at 1. rewrite filter_app, length_app, (lsq_filter_all _ d); [done|].
    intros x Hx. specialize (Hd x Hx). lia.
Qed.

(** ** Entries change, but not their instructions *)
Definition same_insts (st st' : list SQEntry) : Prop := Forall2 (λ e e', inst e' = inst e) st st'.

Lemma older_same m st st' x : same_insts st st' → older m st' x = older m st x.
Proof.
  unfold older. induction 1 as [|e e' st st' He _ IH]; [done|]. assert (enum m e' = enum m e) as E by (unfold enum; by rewrite He).
  rewrite !filter_cons, E. destruct (decide _); simpl; [by rewrite IH|done].
Qed.

Lemma same_insts_insert st k e e' : st !! k = Some e → inst e' = inst e → same_insts st (<[k := e']> st).
Proof.
  intros Hk He. revert k Hk. induction st as [|f st IH]; intros k Hk; [done|]. destruct k as [|k]; simpl in *.
  - injection Hk as ->. constructor; [done|]. clear. induction st; by constructor.
  - constructor; [done|]. by apply IH.
Qed.

Lemma mark_lookup m y st j e' : mark m y st !! j = Some e' → ∃ e, st !! j = Some e ∧ (e' = e ∨ (e' = set_canWB e ∧ enum m e ≤ y)).
Proof.
  revert j. induction st as [|e st IH]; intros j Hj; [done|]. cbn [mark] in Hj. destruct (canWB e); [|destruct (Z.ltb_spec y (enum m e)) as [Hlt|Hge]].
  - destruct j as [|j]; [injection Hj as <-; exists e; auto|by apply IH].
  - exists e'. auto.
  - destruct j as [|j]; [injection Hj as <-; exists e; auto|by apply IH].
Qed.

Lemma mark_same m y st : same_insts st (mark m y st).
Proof.
  assert (Hrefl : ∀ l, same_insts l l) by (intros l; induction l; by constructor).
  induction st as [|e st IH]; [constructor|]. cbn [mark]. destruct (canWB e); [by constructor|]. destruct (y <? enum m e); [apply Hrefl|by constructor].
Qed.

Lemma same_insts_elem st st' e' : same_insts st st' → e' ∈ st' → ∃ e, e ∈ st ∧ inst e' = inst e.
Proof.
  induction 1 as [|e f st st' He _ IH]; intros Hin; [by apply elem_of_nil in Hin|]. apply elem_of_cons in Hin as [->|Hin]; [exists e; split; [left|done]|].
  destruct (IH Hin) as (g & ? & ?). exists g. split; [by right|done].
Qed.

(** The loads do not see entries that change, unless a young store may be written back. *)
Lemma loads_ok_stores s s' ls st st' w :
  loads_ok s ls st w → same_insts st st' → insts s' = insts s → lq s' = lq s → SQEntries (sq s') = SQEntries (sq s) → storeHead (sq s') = storeHead (sq s) →
  stall s' = stall s → memDepViolator s' = memDepViolator s →
  (∀ x i e, x ∈ ls → insts s !! x = Some i → isExecuted (status i) = false → e ∈ st' → num (insts s) x < enum (insts s) e → canWB e = false) → loads_ok s' ls st' w.
Proof.
  intros [G1 G2 G3 G4 G5] Hsi Ei El E1 E2 E3 E4 Hnew. pose proof (Forall2_length _ _ _ Hsi) as Hlen. split; rewrite ?Ei, ?El, ?E3, ?E4; try done.
  - intros x i Hx Hi He. rewrite (older_same _ st) by done. destruct (G1 x i Hx Hi He) as [Hrg Hq]. unfold starts. rewrite E1, E2, <-Hlen. done.
  - intros x e' Hx He'. destruct (same_insts_elem _ _ _ Hsi He') as (e & He & E). unfold enum. rewrite E. by apply G3.
Qed.

Lemma done_canWB m st w n e : stores_ok m st w n → e ∈ st → completed e = true → canWB e = true.
Proof. intros [_ S2 S3 _ _ _] He Hc. apply list_elem_of_lookup in He as [j Hj]. eapply S2; [done|by eapply S3]. Qed.

Lemma inv_commitStores s ls st w y :
  inv s ls st w → (∀ x i, x ∈ ls → insts s !! x = Some i → isExecuted (status i) = false → y < sn i) →
  ∃ s', commitStores s y = Ok s' ∧ inv s' ls (mark (insts s) y st) w ∧ insts s' = insts s ∧ lq s' = lq s ∧ SQEntries (sq s') = SQEntries (sq s) ∧ stall s' = stall s.
Proof.
  intros [Hr Hs Hl Hma] Hy. destruct (commitStores_rep _ _ _ _ y Hr) as (q & E & Hr' & Hn & (P1 & P2 & P3 & P4)).
  { intros e He. by eapply done_canWB. }
  exists (with_sq s q). split_and!; try done. split; [done|..].
  - pose proof Hs as [S1 S2 S3 S4 S5 S6]. pose proof (Forall2_length _ _ _ (mark_same (insts s) y st)) as Hlen. split; simpl; try lia.
    + intros j e' Hj Hlt. destruct (mark_lookup _ _ _ _ _ Hj) as (e & He & [->|[-> _]]); [by eapply S2|done].
    + intros j e' Hj Hc. destruct (mark_lookup _ _ _ _ _ Hj) as (e & He & [->|[-> _]]); by eapply S3.
    + intros e' Hj. destruct (mark_lookup _ _ _ _ _ Hj) as (e & He & [->|[-> _]]); exact (S4 e He).
    + intros e' He'. apply list_elem_of_lookup in He' as [j Hj]. destruct (mark_lookup _ _ _ _ _ Hj) as (e & He & Hcase).
      pose proof (S6 e ltac:(by eapply list_elem_of_lookup_2)) as Hok. destruct Hcase as [->|[-> _]]; [done|]. destruct Hok. by split.
  - eapply (loads_ok_stores s); try done; [apply mark_same|]. intros x i e' Hx Hi He Hin Hlt. apply list_elem_of_lookup in Hin as [j Hj].
    destruct (mark_lookup _ _ _ _ _ Hj) as (e & Hj' & [->|[-> Hle]]); [by eapply (g_young _ _ _ _ Hl); [..|by eapply list_elem_of_lookup_2|]|].
    specialize (Hy x i Hx Hi He). assert (enum (insts s) (set_canWB e) = enum (insts s) e) as E' by done. rewrite E' in Hlt. unfold num in Hlt. rewrite Hi in Hlt. simpl in Hlt. lia.
  - apply (marks_gentle s _ _ st); try done. intros e' Hin Hc. apply list_elem_of_lookup in Hin as [j Hj]. destruct (mark_lookup _ _ _ _ _ Hj) as (e & Hj' & [->|[-> _]]); [|done].
    exists e. split; [by eapply list_elem_of_lookup_2|done].
Qed.

(** ** An entry changes *)
Lemma inv_update s s' ls st w k e e' :
  inv s ls st w → rep s' ls (<[k := e']> st) (Z.of_nat w) → st !! k = Some e → inst e' = inst e → canWB e' = canWB e → completed e' = completed e → entry_ok (insts s) e' →
  storesToWB (sq s') = storesToWB (sq s) → SQEntries (sq s') = SQEntries (sq s) → storeHead (sq s') = storeHead (sq s) →
  lq s' = lq s → insts s' = insts s → stall s' = stall s → memDepViolator s' = memDepViolator s → inv s' ls (<[k := e']> st) w.
Proof.
  intros [Hr Hs Hl Hma] Hr' He Ei Ecw Eco Hok T1 T2 T3 T4 T5 T6 T7. pose proof (same_insts_insert st k e e' He Ei) as Hsi.
  assert (Hlk : ∀ j f, <[k := e']> st !! j = Some f → (j = k ∧ f = e') ∨ (j ≠ k ∧ st !! j = Some f)).
  { intros j f Hj. destruct (decide (j = k)) as [->|]; [left|right; split; [done|by rewrite list_lookup_insert_ne in Hj]]. rewrite list_lookup_insert_eq in Hj by (by eapply lookup_lt_Some). by injection Hj as <-. }
  assert (Hfrom : ∀ f, f ∈ <[k := e']> st → ∃ g, g ∈ st ∧ inst f = inst g ∧ canWB f = canWB g).
  { intros f Hf. apply list_elem_of_lookup in Hf as [j Hj]. destruct (Hlk _ _ Hj) as [[-> ->]|[_ Hj']]; [exists e|exists f]; (split; [by eapply list_elem_of_lookup_2|done]). }
  split; [done|..].
  - rewrite T5, T1. destruct Hs as [S1 S2 S3 S4 S5 S6]. split.
    + by rewrite length_insert.
    + intros j f Hj Hlt. destruct (Hlk _ _ Hj) as [[-> ->]|[_ Hj']]; [rewrite Ecw; exact (S2 k e He Hlt)|by eapply S2].
    + intros j f Hj Hc. destruct (Hlk _ _ Hj) as [[-> ->]|[_ Hj']]; [rewrite Eco in Hc; exact (S3 k e He Hc)|by eapply S3].
    + intros f Hj. destruct (Hlk _ _ Hj) as [[<- ->]|[_ Hj']]; [rewrite Eco; exact (S4 e He)|by apply S4].
    + rewrite S5. clear -He Ecw Eco. revert k He. induction st as [|f st IH]; intros k He; [done|]. destruct k as [|k]; simpl in *; rewrite !toWB_cons; [|by rewrite <-(IH k He)].
      injection He as ->. unfold pending. by rewrite Ecw, Eco.
    + intros f Hf. apply list_elem_of_lookup in Hf as [j Hj]. destruct (Hlk _ _ Hj) as [[_ ->]|[_ Hj']]; [done|]. apply S6. by eapply list_elem_of_lookup_2.
  - eapply (loads_ok_stores s); try done. intros x i f Hx Hi Hex Hf Hlt. destruct (Hfrom f Hf) as (g & Hg & E1 & ->). eapply (g_young _ _ _ _ Hl); [done..|]. unfold enum in *. by rewrite <-E1.
  - apply (marks_gentle s _ _ st); rewrite ?T4, ?T5; try done. intros f Hf Hc. destruct (Hfrom f Hf) as (g & Hg & E1 & E2). exists g. by rewrite <-E2.
Qed.

Lemma inv_write s ls st w k e r bytes :
  inv s ls st w → st !! k = Some e → getSize r ≤ vlen (data e) ∨ isBlockZero r = true → getSize r ≤ vlen bytes ∨ isBlockZero r = true → entry_ok (insts s) (written e r bytes) →
  ∃ s', write s r bytes (slot (SQEntries (sq s)) (storeHead (sq s)) (Z.of_nat k)) = Ok (None, s') ∧ inv s' ls (<[k := written e r bytes]> st) w ∧
    insts s' = insts s ∧ lq s' = lq s ∧ SQEntries (sq s') = SQEntries (sq s) ∧ stall s' = stall s.
Proof.
  intros Hi He H1 H2 Hok. destruct (write_rep _ _ _ _ _ _ r bytes (n_rep _ _ _ _ Hi) He H1 H2) as (s' & E & Hr' & T1 & T2 & T3 & T4 & T5 & T6 & T7 & T8).
  exists s'. split_and!; try done. by eapply inv_update.
Qed.

(** A store is handed to the memory system. *)
Lemma inv_committed s ls st w k e :
  inv s ls st w → st !! k = Some e →
  ∃ s', mod_entry s (slot (SQEntries (sq s)) (storeHead (sq s)) (Z.of_nat k)) set_committed = Ok s' ∧ inv s' ls (<[k := set_committed e]> st) w ∧
    insts s' = insts s ∧ lq s' = lq s ∧ port s' = port s ∧ log s' = log s ∧ SQEntries (sq s') = SQEntries (sq s) ∧ storeHead (sq s') = storeHead (sq s) ∧ storeWBIdx (sq s') = storeWBIdx (sq s).
Proof.
  intros Hi He. destruct (mod_entry_rep s ls st _ k e set_committed (n_rep _ _ _ _ Hi) He eq_refl) as (q1 & E & Hr1 & T1 & T2 & T3 & T4 & T5). eexists. split; [exact E|].
  split_and!; try done. eapply inv_update; try done. destruct (t_entry _ _ _ _ (n_stores _ _ _ _ Hi) e ltac:(by eapply list_elem_of_lookup_2)). by split.
Qed.

(** An instruction of another unit changes. *)
Lemma inv_elsewhere s s' ls st w x :
  inv s ls st w → changed (insts s) (insts s') x → x ∉ ls → (∀ e, e ∈ st → inst e ≠ Some x) → lq s' = lq s → sq s' = sq s → stall s' = stall s → memDepViolator s' = memDepViolator s → inv s' ls st w.
Proof.
  intros [Hr Hs Hl Hma] Hch Hx Hex E1 E2 E3 E4. pose proof (changed_kinds _ _ _ Hch) as Hk. destruct Hch as (i & i' & Hi & Em & _).
  assert (Hne : ∀ y, y ≠ x → insts s' !! y = insts s !! y) by (intros y Hy; by rewrite Em, lookup_insert_ne). assert (Hlx : ∀ y, y ∈ ls → y ≠ x) by (intros y Hy ->; done). split.
  - by eapply rep_effect.
  - rewrite E2. destruct Hs as [S1 S2 S3 S4 S5 S6]. split; try done. intros e He. destruct (S6 e He) as [(y & j & Ey & Hj & Hw) H2 H3]. split; [|done|done]. exists y, j. rewrite Hne; [done|]. intros ->. by apply (Hex e He).
  - destruct Hl as [G1 G2 G3 G4 G5]. split.
    + intros y j Hy Hj He. rewrite Hne in Hj by auto. rewrite (older_kinds (insts s)) by done. unfold starts. rewrite E2. by apply G1.
    + intros y j e Hy Hj He Hin. rewrite Hne in Hj by auto. rewrite (same_kinds_num (insts s)), (enum_kinds (insts s)) by done. by apply (G2 y j).
    + intros y e Hy He. rewrite (same_kinds_num (insts s)), (enum_kinds (insts s)) by done. by apply G3.
    + rewrite E3, E1. intros Hst. destruct (G4 Hst) as (k & y & ? & ? & ?). exists k, y. by rewrite (same_kinds_num (insts s)) by done.
    + rewrite E4. intros v Hv. eapply same_kinds_some; [done|]. by apply G5.
  - intros e y j He Hc Ey Hj. rewrite Hne in Hj by (intros ->; by apply (Hex e He)). rewrite (before_kinds (insts s)), E1 by done. by apply (Hma e y j).
Qed.
End LsqInv.
