(* ===== verification/LsqSteps.v ===== *)
(** * The load-store queue unit: the remaining operations keep the invariant *)

From stdpp Require Import sorting.
From S2P Require Import Prelude Lsq LsqRing LsqQueues LsqForward LsqStores LsqInv.

Module LsqSteps.
Import LSQUnit LsqRing LsqQueues LsqForward LsqStores LsqInv.

(** A store that may be written back is older than every load that has not executed. *)
Lemma canWB_older s ls st w x i e :
  loads_ok s ls st w → x ∈ ls → insts s !! x = Some i → isExecuted (status i) = false → e ∈ st → canWB e = true → enum (insts s) e < num (insts s) x.
Proof.
  intros Hl Hx Hi Hex He Hc. pose proof (g_distinct _ _ _ _ Hl x e Hx He). destruct (decide (num (insts s) x < enum (insts s) e)) as [Hlt|]; [|lia].
  pose proof (g_young _ _ _ _ Hl x i e Hx Hi Hex He Hlt). congruence.
Qed.

(** ** A store is sent *)
Lemma inv_sent par s ls st w e :
  inv s ls st w → st !! w = Some e → canWB e = true →
  ∃ s', storePostSend par s = Ok s' ∧ inv s' ls st (S w) ∧ effect s s' ∧ SQEntries (sq s') = SQEntries (sq s).
Proof.
  intros Hi He Hc. pose proof Hi as [Hr Hs Hl Hma]. destruct (storePostSend_rep par _ _ _ _ _ Hr He (stall_ok_inv _ _ _ _ Hi)) as (s' & E & Hr' & X & T1 & T2 & T3).
  exists s'. split_and!; try done. split; [done|..].
  - rewrite T1. apply (stores_ok_gentle (insts s)); [apply X|]. destruct Hs as [S1 S2 S3 S4 S5 S6]. split; try done.
    + apply lookup_lt_Some in He. lia.
    + intros j f Hj Hlt. destruct (decide (j = w)) as [->|]; [congruence|]. eapply S2; [done|lia].
    + intros j f Hj Hd. specialize (S3 j f Hj Hd). lia.
  - apply (loads_ok_gentle s); [|apply X|by rewrite (x_lq _ _ X)|by rewrite (x_lq _ _ X)|done|done|apply X|apply X]. pose proof Hl as [G1 G2 G3 G4 G5]. split; try done.
    intros x i Hx Hi' Hex. destruct (G1 x i Hx Hi' Hex) as [Hrg Hq]. assert (Hlt : (w < older (insts s) st x)%nat).
    { apply (older_lt _ _ _ _ e); [apply Hr|done|]. by eapply canWB_older; [..|by eapply list_elem_of_lookup_2|]. }
    split; [lia|]. destruct Hq as [Hq|[_ Hq]]; [by left|lia].
  - apply (marks_gentle s _ _ st); rewrite ?(x_lq _ _ X); try done; [apply X|]. intros e' ? ?. by exists e'.
Qed.

(** ** A store completes *)
Lemma toWB_update st k e e' : st !! k = Some e → toWB (<[k := e']> st) = toWB st - (if pending e then 1 else 0) + (if pending e' then 1 else 0).
Proof.
  revert k. induction st as [|f st IH]; intros k Hk; [done|]. destruct k as [|k]; simpl in *; rewrite !toWB_cons; [injection Hk as ->; lia|]. rewrite (IH k Hk). lia.
Qed.

Lemma toWB_done d : Forall (λ e, completed e = true) d → ∀ st, toWB (d ++ st) = toWB st.
Proof.
  induction 1 as [|e d He Hd IH]; intros st; [done|]. simpl. rewrite toWB_cons, IH. unfold pending. rewrite He, andb_false_r. lia.
Qed.

Lemma older_app m d st x : (∀ e, e ∈ d → enum m e < num m x) → older m (d ++ st) x = (length d + older m st x)%nat.
Proof. intros Hd. unfold older. rewrite filter_app, length_app, lsq_filter_all; [done|]. exact Hd. Qed.

(** The entries that remain, seen from the old ones. *)
Record remains (s : t) (ls : list positive) (st st' : list SQEntry) (d w w' : nat) : Prop := {
  z_len : length st = (d + length st')%nat; z_w : w = (d + w')%nat;
  z_older : ∀ x i, x ∈ ls → insts s !! x = Some i → isExecuted (status i) = false → older (insts s) st x = (d + older (insts s) st' x)%nat;
  z_from : ∀ e', e' ∈ st' → ∃ e, e ∈ st ∧ inst e' = inst e ∧ canWB e' = canWB e
}.

Lemma loads_ok_remains s s' ls st st' d w w' :
  loads_ok s ls st w → remains s ls st st' d w w' → gentle (insts s) (insts s') → lq s' = lq s → SQEntries (sq s') = SQEntries (sq s) → 
  slot (SQEntries (sq s)) (storeHead (sq s')) (Z.of_nat w') = slot (SQEntries (sq s)) (storeHead (sq s)) (Z.of_nat w) →
  stall s' = stall s ∨ stalled (stall s') = false → memDepViolator s' = memDepViolator s → loads_ok s' ls st' w'.
Proof.
  intros [G1 G2 G3 G4 G5] [Z1 Z2 Z3 Z4] Hg El E1 E2 E3 E4. pose proof (y_kinds _ _ Hg) as Hk. split.
  - intros x i' Hx Hi' He. destruct (y_inst _ _ Hg _ _ Hi') as (i & Hi & _ & Hq & Hex). specialize (Hex He). rewrite (older_kinds (insts s)) by done.
    destruct (G1 x i Hx Hi Hex) as [Hrg Hst]. rewrite (Z3 x i Hx Hi Hex) in Hrg, Hst. split; [lia|]. rewrite E1, Hq. destruct Hst as [Hst|[Hst Hw]]; [left|right; split; [done|lia]].
    rewrite Hst. set (k := older (insts s) st' x) in *. replace (Z.of_nat (d + k)) with (Z.of_nat w + (Z.of_nat k - Z.of_nat w')) by lia.
    replace (Z.of_nat k) with (Z.of_nat w' + (Z.of_nat k - Z.of_nat w')) at 2 by lia. symmetry. by apply slot_shift.
  - intros x i' e' Hx Hi' He He' Hlt. destruct (y_inst _ _ Hg _ _ Hi') as (i & Hi & _ & _ & Hex). destruct (Z4 e' He') as (e & Hin & E & ->).
    rewrite (same_kinds_num (insts s)), (enum_kinds (insts s)) in Hlt by done. unfold enum in Hlt. rewrite E in Hlt. by apply (G2 x i e); auto.
  - intros x e' Hx He'. destruct (Z4 e' He') as (e & Hin & E & _). rewrite (same_kinds_num (insts s)), (enum_kinds (insts s)) by done. unfold enum. rewrite E. by apply G3.
  - intros Hst. destruct E3 as [E3|E3]; [|congruence]. rewrite E3 in *. destruct (G4 Hst) as (k & x & Hx & Hi & Hlt). exists k, x. rewrite El, (same_kinds_num (insts s)) by done. done.
  - rewrite E4. intros v Hv. eapply same_kinds_some; [done|]. by apply G5.
Qed.

Lemma complete_remains s ls st w k e :
  inv s ls st w → st !! k = Some e → (k < w)%nat → completed e = false →
  ∃ d w', remains s ls st (after_complete st k e) d w w' ∧ stores_ok (insts s) (after_complete st k e) w' (toWB st - 1).
Proof.
  intros [Hr Hs Hl _] Hk Hlt Hd. pose proof Hs as [S1 S2 S3 S4 S5 S6]. pose proof (S2 k e Hk Hlt) as Hc. unfold after_complete. destruct k as [|k].
  - destruct st as [|e0 st]; [done|]. injection Hk as ->. simpl. destruct (release_suffix st) as (dd & Ed & Hdd). set (st' := release st) in *.
    assert (Hhd : ∀ f, st' !! 0%nat = Some f → completed f = false).
    { intros f Hj. clear -Hj. unfold st' in Hj. induction st as [|g st IH]; [done|]. simpl in Hj. destruct (completed g) eqn:Eg; [by apply IH|]. by injection Hj as <-. }
    clearbody st'. pose proof (f_equal length Ed) as Hle. rewrite length_app in Hle.
    assert (Hpos : (S (length dd) ≤ w)%nat).
    { destruct (decide (dd = [])) as [->|Hne]; [simpl; lia|]. destruct (lookup_lt_is_Some_2 dd (length dd - 1)) as [f Hf]; [destruct dd; [done|simpl; lia]|].
      rewrite Forall_forall in Hdd. pose proof (Hdd f ltac:(by eapply list_elem_of_lookup_2)) as Hfc. assert ((e :: st) !! S (length dd - 1) = Some f) as Hj by (simpl; rewrite Ed; by apply lookup_app_l_Some).
      specialize (S3 _ _ Hj Hfc). lia. }
    assert (Hall : ∀ f, f ∈ e :: dd → f ∈ e :: st ∧ canWB f = true).
    { intros f Hf. assert (f ∈ e :: st) as Hin by (rewrite Ed; set_solver). split; [done|]. apply elem_of_cons in Hf as [->|Hf]; [done|].
      rewrite Forall_forall in Hdd. by eapply (done_canWB _ _ _ _ f Hs Hin), Hdd. }
    assert (Est : e :: st = (e :: dd) ++ st') by (simpl; by rewrite <-Ed). exists (S (length dd)), (w - S (length dd))%nat. split; [split|split].
    + simpl. lia.
    + lia.
    + intros x i Hx Hi Hex. rewrite Est, older_app; [done|]. intros f Hf. destruct (Hall f Hf) as [Hin Hcf]. by eapply canWB_older.
    + intros f Hf. exists f. split; [|done]. rewrite Est. set_solver.
    + simpl in S1. lia.
    + intros j f Hj Hlt'. apply (S2 (S (length dd) + j)%nat); [|lia]. rewrite Est, lookup_app_r by (simpl; lia). simpl. replace (length dd + j - length dd)%nat with j by lia. done.
    + intros j f Hj Hcf. assert ((e :: st) !! (S (length dd) + j)%nat = Some f) as Hj' by (rewrite Est, lookup_app_r by (simpl; lia); simpl; by replace (length dd + j - length dd)%nat with j by lia).
      specialize (S3 _ _ Hj' Hcf). lia.
    + exact Hhd.
    + rewrite toWB_cons, Ed, (toWB_done dd Hdd). unfold pending. rewrite Hc, Hd. simpl. lia.
    + intros f Hf. apply S6. rewrite Est. set_solver.
  - change (S k =? 0)%nat with false. cbv iota. exists 0%nat, w. pose proof (same_insts_insert st (S k) e (set_completed e) Hk eq_refl) as Hsi.
    assert (Hlk : ∀ j f, <[S k := set_completed e]> st !! j = Some f → (j = S k ∧ f = set_completed e) ∨ (j ≠ S k ∧ st !! j = Some f)).
    { intros j f Hj. destruct (decide (j = S k)) as [->|]; [left|right; split; [done|by rewrite list_lookup_insert_ne in Hj]]. rewrite list_lookup_insert_eq in Hj by (by eapply lookup_lt_Some). by injection Hj as <-. }
    split; [split|split].
    + by rewrite length_insert.
    + done.
    + intros. symmetry. exact (older_same _ _ _ _ Hsi).
    + intros f Hf. apply list_elem_of_lookup in Hf as [j Hj]. destruct (Hlk _ _ Hj) as [[-> ->]|[_ Hj']]; [exists e|exists f]; (split; [by eapply list_elem_of_lookup_2|done]).
    + by rewrite length_insert.
    + intros j f Hj Hlt'. destruct (Hlk _ _ Hj) as [[-> ->]|[_ Hj']]; [exact Hc|by eapply S2].
    + intros j f Hj Hcf. destruct (Hlk _ _ Hj) as [[-> ->]|[_ Hj']]; [done|by eapply S3].
    + intros f Hj. destruct (Hlk _ _ Hj) as [[? _]|[_ Hj']]; [done|by apply S4].
    + rewrite (toWB_update _ _ _ _ Hk). unfold pending. simpl. rewrite Hc, Hd. simpl. lia.
    + intros f Hf. apply list_elem_of_lookup in Hf as [j Hj]. destruct (Hlk _ _ Hj) as [[_ ->]|[_ Hj']]; [|apply S6; by eapply list_elem_of_lookup_2].
      destruct (S6 e ltac:(by eapply list_elem_of_lookup_2)). by split.
Qed.

Lemma inv_complete par s ls st w k e :
  inv s ls st w → st !! k = Some e → (k < w)%nat → completed e = false →
  ∃ s' w', completeStore par s (slot (SQEntries (sq s)) (storeHead (sq s)) (Z.of_nat k)) = Ok s' ∧ inv s' ls (after_complete st k e) w' ∧ effect s s' ∧ SQEntries (sq s') = SQEntries (sq s) ∧
    w' = (w - (length st - length (after_complete st k e)))%nat.
Proof.
  intros Hi Hk Hlt Hd. pose proof Hi as [Hr Hs Hl Hma]. destruct (completeStore_rep par _ _ _ _ _ _ Hr Hk (stall_ok_inv _ _ _ _ Hi)) as (s' & E & Hr' & X & T1 & T2 & T3).
  destruct (complete_remains _ _ _ _ _ _ Hi Hk Hlt Hd) as (d & w' & Hz & Hs'). assert (Ew : Z.of_nat w - (vlen st - vlen (after_complete st k e)) = Z.of_nat w') by (destruct Hz; unfold vlen; lia).
  rewrite Ew in Hr'. exists s', w'. split_and!; try done; [|destruct Hz; lia]. split; [done|rewrite T1, (t_count _ _ _ _ Hs); by apply (stores_ok_gentle (insts s)); [apply X|]|..].
  2:{ apply (marks_gentle s _ _ st); rewrite ?(x_lq _ _ X); try done; [apply X|]. intros e' He' Hc. destruct (z_from _ _ _ _ _ _ _ Hz e' He') as (f & Hf & Ef & Ec). exists f. by rewrite <-Ec. }
  eapply (loads_ok_remains s); try done; [apply X..| |apply X|apply X]. pose proof (s_wb _ _ _ (r_sq _ _ _ _ Hr)) as W1. pose proof (s_wb _ _ _ (r_sq _ _ _ _ Hr')) as W2. rewrite T2, T3 in W2. congruence.
Qed.

(** ** Squash *)
Lemma sorted_filter_prefix {A} (f : A → Z) n (l : list A) : StronglySorted (λ a b, f a < f b) l → ∃ r, l = filter (λ a, f a ≤ n) l ++ r ∧ ∀ a, a ∈ r → n < f a.
Proof.
  induction 1 as [|a l Hl (r & E & Hr) Ha]; [exists []; split; [done|]; by intros a ?%elem_of_nil|]. rewrite Forall_forall in Ha. rewrite filter_cons. destruct (decide (f a ≤ n)) as [Hle|Hgt].
  - exists r. split; [simpl; by f_equal|done].
  - assert (filter (λ a, f a ≤ n) l = []) as Enil.
    { clear -Ha Hgt. induction l as [|b l IH]; [done|]. rewrite filter_cons_False; [apply IH; intros c Hc; apply Ha; by right|]. specialize (Ha b ltac:(left)). simpl in Ha. lia. }
    rewrite Enil. exists (a :: l). split; [done|]. intros b [->|Hb]%elem_of_cons; [lia|]. specialize (Ha b Hb). simpl in Ha. lia.
Qed.

Lemma frame_gentle s s' : frame s s' → gentle (insts s) (insts s').
Proof. intros []. split; [done|..]; intros x i' Hi'; destruct (f_flags0 x i' Hi') as (i & Hi & [->| ->]); exists i; done. Qed.

Lemma toWB_app st st' : toWB (st ++ st') = toWB st + toWB st'.
Proof. unfold toWB, vlen. rewrite filter_app, length_app. lia. Qed.

Lemma toWB_none st : (∀ e, e ∈ st → canWB e = false) → toWB st = 0.
Proof.
  induction st as [|e st IH]; intros H; [done|]. rewrite toWB_cons, IH by (intros; apply H; by right). unfold pending. by rewrite (H e) by left.
Qed.

Lemma squash_stores_ok m st w n k :
  stores_ok m st w k → StronglySorted (λ e f, enum m e < enum m f) st → (∀ e, e ∈ st → canWB e = true → enum m e ≤ n) → stores_ok m (filter (λ e, enum m e ≤ n) st) w k.
Proof.
  intros [S1 S2 S3 S4 S5 S6] Hso Hc. destruct (sorted_filter_prefix (enum m) n st Hso) as (r & E & Hr). set (st' := filter _ st) in *.
  assert (Hlk : ∀ j e, st' !! j = Some e → st !! j = Some e) by (intros j e Hj; rewrite E; by apply lookup_app_l_Some). split.
  - destruct (decide (w ≤ length st')%nat) as [|Hgt]; [done|]. exfalso. destruct (lookup_lt_is_Some_2 st (length st') ltac:(lia)) as [e He]. pose proof (S2 _ _ He ltac:(lia)) as Hcw.
    specialize (Hc e ltac:(by eapply list_elem_of_lookup_2) Hcw). assert (e ∈ r) as Hin.
    { rewrite E, lookup_app_r, Nat.sub_diag in He by done. by eapply list_elem_of_lookup_2. }
    specialize (Hr e Hin). lia.
  - intros j e Hj. by apply S2, Hlk.
  - intros j e Hj. by apply S3, Hlk.
  - intros e Hj. by apply S4, Hlk.
  - rewrite S5, E at 1. rewrite toWB_app, (toWB_none r); [lia|]. intros e He. destruct (canWB e) eqn:Ee; [|done]. specialize (Hr e He). specialize (Hc e ltac:(rewrite E; set_solver) Ee). lia.
  - intros e [_ He]%list_elem_of_filter. by apply S6.
Qed.

Lemma older_filter m st x n : num m x ≤ n → older m (filter (λ e, enum m e ≤ n) st) x = older m st x.
Proof. intros Hn. unfold older. f_equal. rewrite list_filter_filter. apply list_filter_iff. intros e. lia. Qed.

Lemma lsq_inv_squash s ls st w n :
  inv s ls st w → (∀ e, e ∈ st → canWB e = true → enum (insts s) e ≤ n) →
  ∃ s', squash s n = Ok s' ∧ inv s' (filter (λ x, num (insts s) x ≤ n) ls) (filter (λ e, enum (insts s) e ≤ n) st) w ∧
    LQEntries (lq s') = LQEntries (lq s) ∧ SQEntries (sq s') = SQEntries (sq s) ∧ log s' = log s ∧ gentle (insts s) (insts s').
Proof.
  intros [Hr Hs Hl Hma] Hc. pose proof Hl as [G1 G2 G3 G4 G5]. pose proof (lhead _ _ (r_lq _ _ _ _ Hr)) as (_ & Hll & _). pose proof (shead _ _ _ (r_sq _ _ _ _ Hr)) as (_ & Hsl & _). unfold squash.
  rewrite (l_tail _ _ (r_lq _ _ _ _ Hr)), (ldecr _ _ _ (r_lq _ _ _ _ Hr)).
  destruct (squash_loads_rep n ls (S (Z.to_nat (LQEntries (lq s)))) s st _ Hr ltac:(unfold vlen in *; lia)) as (s1 & -> & Hr1 & F1 & E1 & E2 & E3 & Hst1). cbn [mbind res_bind].
  set (ls' := filter _ ls) in *. set (st' := filter _ st).
  assert (∃ s2, match memDepViolator s1 with Some v => i ← deref s1 v; Ok (if n <? sn i then with_violator s1 None else s1) | None => Ok s1 end = Ok s2 ∧
    lq s2 = lq s1 ∧ sq s2 = sq s1 ∧ insts s2 = insts s1 ∧ stall s2 = stall s1 ∧ log s2 = log s1 ∧ (memDepViolator s2 = None ∨ memDepViolator s2 = memDepViolator s1)) as (s2 & -> & U1 & U2 & U3 & U4 & U5 & U6).
  { destruct (memDepViolator s1) as [v|] eqn:Ev; [|exists s1; rewrite Ev; split_and!; auto]. pose proof Ev as Ev0. rewrite (f_viol _ _ F1) in Ev. destruct (same_kinds_some _ _ v (f_kinds _ _ F1) (G5 v Ev)) as [i Hi].
    unfold deref. rewrite Hi. cbn [mbind res_bind]. eexists. split; [done|]. destruct (n <? sn i); simpl; split_and!; auto. }
  cbn [mbind res_bind]. assert (Hr2 : rep s2 ls' st (Z.of_nat w)) by (eapply rep_effect; [exact Hr1|done|done|by rewrite U3]).
  assert (Hk1 : same_kinds (insts s) (insts s2)) by (rewrite U3; apply F1). assert (Hen : ∀ e, enum (insts s2) e = enum (insts s) e) by (intros; by apply enum_kinds).
  rewrite (s_tail _ _ _ (r_sq _ _ _ _ Hr2)), (sdecr _ _ _ _ (r_sq _ _ _ _ Hr2)).
  assert (Hstall : stalled (stall s2) = true → ∃ k x, ls' !! k = Some x ∧ stallingLoadIdx (stall s2) = slot (LQEntries (lq s)) (loadHead (lq s)) (Z.of_nat k) ∧
    stallingStoreIsn (stall s2) < num (insts s) x ∧ num (insts s) x ≤ n).
  { rewrite U4. intros Hs1. destruct (Hst1 Hs1) as [Es Hno]. rewrite Es in *. destruct (G4 Hs1) as (k & x & Hx & Hi & Hlt).
    assert (num (insts s) x ≤ n) as Hle by (destruct (decide (num (insts s) x ≤ n)); [done|]; exfalso; by apply (Hno k x Hx ltac:(lia))).
    destruct (sorted_filter_prefix (num (insts s)) n ls (k_lsorted _ _ _ (r_known _ _ _ _ Hr))) as (r & El & Hrr). fold ls' in El. exists k, x. split_and!; try done.
    destruct (decide (k < length ls')%nat); [by rewrite El, lookup_app_l in Hx|]. exfalso. rewrite El, lookup_app_r in Hx by lia. specialize (Hrr x ltac:(by eapply list_elem_of_lookup_2)). lia. }
  destruct (squash_stores_rep n st (S (Z.to_nat (SQEntries (sq s2)))) s2 ls' _ Hr2) as (s' & -> & Hr3 & F3 & E4 & E5 & E6 & E7 & E8).
  { rewrite U2, E1. unfold vlen in *. lia. }
  { intros e He Hlt. rewrite Hen in *. split; [destruct (canWB e) eqn:Ee; [specialize (Hc e He Ee); lia|done]|]. intros Hs2. destruct (Hstall Hs2) as (k & x & _ & _ & ? & ?). lia. }
  assert (Efil : filter (λ e, enum (insts s2) e ≤ n) st = st') by (unfold st'; apply list_filter_iff; intros e; by rewrite Hen). rewrite Efil in Hr3.
  assert (Hg : gentle (insts s) (insts s')). { eapply gentle_trans; [apply (frame_gentle _ _ F1)|]. rewrite <-U3. by apply frame_gentle. }
  eexists. split; [done|]. split_and!; [|by rewrite E4, U1, E2|by rewrite E6, U2, E1|by rewrite (f_log _ _ F3), U5, (f_log _ _ F1)|exact Hg]. split; [done|..].
  - rewrite E8, U2, E1. apply (stores_ok_gentle (insts s)); [done|]. apply squash_stores_ok; [done|apply Hr|done].
  - pose proof (y_kinds _ _ Hg) as Hk. split.
    + intros x i' [Hle Hx]%list_elem_of_filter Hi' Hex. destruct (y_inst _ _ Hg _ _ Hi') as (i & Hi & _ & Hq & He). rewrite (older_kinds (insts s)) by done. unfold st'. rewrite older_filter by done.
      destruct (G1 x i Hx Hi (He Hex)) as [Hrg Hst]. split.
      * split; [apply Hrg|]. rewrite <-(older_filter _ _ x n Hle). apply older_le.
      * rewrite E6, E7, U2, E1, Hq. done.
    + intros x i' e [_ Hx]%list_elem_of_filter Hi' Hex [_ He]%list_elem_of_filter. destruct (y_inst _ _ Hg _ _ Hi') as (i & Hi & _ & _ & He'). rewrite (same_kinds_num (insts s)), (enum_kinds (insts s)) by done. by apply (G2 x i); auto.
    + intros x e [_ Hx]%list_elem_of_filter [_ He]%list_elem_of_filter. rewrite (same_kinds_num (insts s)), (enum_kinds (insts s)) by done. by apply G3.
    + rewrite E5. intros Hs2. destruct (Hstall Hs2) as (k & x & ? & ? & ? & _). exists k, x. rewrite E4, U1, E2, E3, (same_kinds_num (insts s)) by done. done.
    + rewrite (f_viol _ _ F3). intros v Hv. destruct U6 as [U6|U6]; [congruence|]. rewrite U6, (f_viol _ _ F1) in Hv. eapply same_kinds_some; [done|]. by apply G5.
  - intros e y i' [Hle He]%list_elem_of_filter Hce Ey Hi'. destruct (y_lq _ _ Hg _ _ Hi') as (i & Hi & ->). rewrite (before_kinds (insts s)) by apply Hg. rewrite E4, U1, E2, E3.
    rewrite (Hma e y i He Hce Ey Hi). do 2 f_equal. unfold before, ls'. f_equal. rewrite list_filter_filter. apply list_filter_iff. intros x. lia.
Qed.

(** ** A load reads *)
Lemma segment_older m st w x e : StronglySorted (λ e f, enum m e < enum m f) st → e ∈ segment st w (older m st x) → enum m e < num m x.
Proof.
  intros Hso He. unfold segment in He. apply list_elem_of_lookup in He as [j Hj]. rewrite lookup_drop in Hj. apply lookup_take_Some in Hj as [Hj Hlt]. by apply (older_lt m st x (w + j) e).
Qed.

Lemma inv_read accepts handleIprRead uninit s ls st w kl x i r :
  inv s ls st w → ls !! kl = Some x → insts s !! x = Some i → isExecuted (status i) = false → isStrictlyOrdered r = false → isMmappedIpr r = false → buffer_ok r i → req_ok r →
  let load_idx := slot (LQEntries (lq s)) (loadHead (lq s)) (Z.of_nat kl) in
  ∃ s', read accepts handleIprRead uninit s r load_idx = Ok (None, s') ∧ inv s' ls st w ∧
    outcome (insts s) (segment st w (older (insts s) st x)) r x load_idx (log s ++ locked r x) s' ∧ lq s' = lq s ∧ sq s' = sq s ∧ gentle (insts s) (insts s').
Proof.
  intros Hi Hx Hxi Hex Hso Hipr Hb Hq load_idx. pose proof Hi as [Hr Hs Hl Hma]. assert (Hin : x ∈ ls) by (by eapply list_elem_of_lookup_2).
  destruct (read_spec accepts handleIprRead uninit s ls st w _ kl x i r Hr Hx Hxi Hex Hso Hipr (g_start _ _ _ _ Hl x i Hin Hxi Hex) (stall_ok_inv _ _ _ _ Hi) Hb Hq) as (s' & E & Hout & E1 & E2 & Hg & E3 & E4).
  { apply Hs. } { intros j e Hj He. destruct (completed e) eqn:Ec; [|done]. pose proof (t_done _ _ _ _ Hs j e He Ec). lia. }
  exists s'. split_and!; try done. split; [by eapply rep_effect; [..|apply Hg]|rewrite E2; by apply (stores_ok_gentle (insts s))| |apply (marks_gentle s _ _ st); rewrite ?E1; try done; intros e' ? ?; by exists e'].
  destruct E4 as [E4|(e & He & E4)].
  - eapply (loads_ok_gentle s); try done; [by rewrite E1|by rewrite E1|by rewrite E2|by rewrite E2|by left].
  - apply (loads_ok_gentle (with_stall s (stall s'))); try done; [|by rewrite E1|by rewrite E1|by rewrite E2|by rewrite E2|by left].
    destruct Hl as [G1 G2 G3 G4 G5]. split; try done. simpl. intros _. exists kl, x. rewrite E4. split_and!; try done. simpl. eapply segment_older; [apply Hr|done].
Qed.
End LsqSteps.
