(* ===== verification/LsqWriteback.v ===== *)
(** * The load-store queue unit: stores leave for the memory system

    [writebackStores] for plain stores: which packets it sends, in which order, and
    where it stops. *)

From stdpp Require Import sorting.
From S2P Require Import Prelude Lsq LsqRing LsqQueues LsqForward LsqStores LsqInv LsqSteps.

Module LsqWriteback.
Import LSQUnit LsqRing LsqQueues LsqForward LsqStores LsqInv LsqSteps.

(** ** Packets *)
Definition sends (l : list action) : list (Packet * bool) := omap (λ a, match a with Send p ok => Some (p, ok) | _ => None end) l.

(** The packet of a store at index [k] of the array. *)
Definition packet_of (k : Z) (e : SQEntry) : Packet :=
  let r := default (mkReq 0 0 false false false false) (req e) in
  mkPkt r (default 1%positive (inst e)) (u8 k) false true (if isAllZeros e then replicate (Z.to_nat (getSize r)) 0 else take (Z.to_nat (getSize r)) (data e)).

(** A store with data, whose address is that of plain memory. *)
Record plain_store (m : gmap positive DynInst) (e : SQEntry) (x : positive) (i : DynInst) (r : Request) : Prop := {
  b_inst : inst e = Some x; b_known : m !! x = Some i; b_req : req e = Some r; b_size : size e ≠ 0; b_new : committed e = false; b_buffer : memData i = None;
  b_kind : isDataPrefetch (kind i) = false ∧ isStoreConditional (kind i) = false; b_ipr : isMmappedIpr r = false; b_data : isAllZeros e = false → getSize r ≤ vlen (data e)
}.
Definition ready (m : gmap positive DynInst) (e : SQEntry) : Prop := ∃ x i r, plain_store m e x i r.

Lemma sends_app l l' : sends (l ++ l') = sends l ++ sends l'.
Proof. apply omap_app. Qed.

Lemma store_bytes_ok e r : (isAllZeros e = false → getSize r ≤ vlen (data e)) →
  store_bytes e (getSize r) = Ok (if isAllZeros e then replicate (Z.to_nat (getSize r)) 0 else take (Z.to_nat (getSize r)) (data e)).
Proof. intros H. unfold store_bytes. destruct (isAllZeros e); [done|]. by rewrite (proj2 (Z.leb_le _ _)) by (by apply H). Qed.

Section writeback.
Context (par : Params) (accepts : list action → Packet → bool) (handleLockedWrite : list action → positive → Request → bool).

(** ** After a packet was taken *)
Lemma postSend_rest s s' : storePostSend par s = Ok s' →
  sends (log s') = sends (log s) ∧ port s' = (if needsTSO par then with_inFlight (port s) true else port s) ∧ storeHead (sq s') = storeHead (sq s) ∧
  ∀ x i, insts s !! x = Some i → ∃ i', insts s' !! x = Some i' ∧ kind i' = kind i ∧ memData i' = memData i.
Proof.
  unfold storePostSend. destruct (vget _ _) as [e|]; [|done]. cbn [mbind res_bind]. destruct (inst e) as [x|]; [|done]. cbn [mbind res_bind thePtr]. destruct (deref s x) as [i|] eqn:Ei; [|done]. cbn [mbind res_bind].
  assert (H1 : ∀ s1, (if stalled (stall s) && (sn i =? stallingStoreIsn (stall s)) then unstall s else Ok s) = Ok s1 → sends (log s1) = sends (log s) ∧ port s1 = port s ∧ sq s1 = sq s ∧ insts s1 = insts s).
  { intros s1 E. destruct (_ && _); [|by injection E as <-]. unfold unstall in E. destruct (vget _ _) as [[y|]|]; [|done..]. cbn in E. injection E as <-. simpl. rewrite sends_app. by rewrite app_nil_r. }
  destruct (if stalled (stall s) && _ then _ else _) as [s1|]; [|done]. destruct (H1 s1 eq_refl) as (L1 & P1 & Q1 & I1). cbn [mbind res_bind].
  assert (H2 : ∀ s2, (if negb (isStoreConditional (kind i)) then upd s1 x setCompleted else Ok s1) = Ok s2 → log s2 = log s1 ∧ port s2 = port s1 ∧ sq s2 = sq s1 ∧
    ∀ y j, insts s1 !! y = Some j → ∃ j', insts s2 !! y = Some j' ∧ kind j' = kind j ∧ memData j' = memData j).
  { intros s2 E. destruct (isStoreConditional _); simpl in E; [injection E as <-; split_and!; try done; eauto|]. unfold deref in Ei. destruct (insts s !! x) as [i0|] eqn:Hx; [|done]. injection Ei as ->.
    rewrite (upd_eq s1 x i) in E by (by rewrite I1). injection E as <-. split_and!; try done. intros y j Hy. simpl. destruct (decide (y = x)) as [->|]; [|rewrite lookup_insert_ne by done; eauto].
    rewrite lookup_insert_eq. eexists. split; [done|]. by assert (i = j) as -> by congruence. }
  destruct (if negb (isStoreConditional (kind i)) then _ else _) as [s2|]; [|done]. destruct (H2 s2 eq_refl) as (L2 & P2 & Q2 & I2). cbn [mbind res_bind]. intros [= <-].
  rewrite <-I1. destruct (needsTSO par); simpl; rewrite L2, Q2, P2, Q1, P1, L1; done.
Qed.

(** ** One store *)
Definition after_send (p : Port) (pkt : Packet) (ok : bool) : Port :=
  if ok then if needsTSO par then with_inFlight p true else p else mkPort (usedStorePorts p) (Some pkt) true (storeInFlight p).

(** What stays when the store of instruction [x] is sent. *)
Record stays (s s' : t) (x : positive) : Prop := {
  c_lq : lq s' = lq s; c_n : SQEntries (sq s') = SQEntries (sq s); c_head : storeHead (sq s') = storeHead (sq s); c_kinds : same_kinds (insts s) (insts s');
  c_insts : ∀ y j, y ≠ x → insts s !! y = Some j → ∃ j', insts s' !! y = Some j' ∧ kind j' = kind j ∧ memData j' = memData j
}.

Lemma writeback_one_step s ls st w e x i r :
  inv s ls st w → st !! w = Some e → canWB e = true → plain_store (insts s) e x i r → retryPkt (port s) = None →
  let pkt := packet_of (slot (SQEntries (sq s)) (storeHead (sq s)) (Z.of_nat w)) e in
  let ok := accepts (log s) pkt in
  ∃ s', writeback_one par accepts handleLockedWrite s e x i = Ok s' ∧ inv s' ls (<[w := set_committed e]> st) (if ok then S w else w) ∧ stays s s' x ∧
    sends (log s') = sends (log s) ++ [(pkt, ok)] ∧ port s' = after_send (port s) pkt ok.
Proof.
  intros Hi He Hc [B1 B2 B3 B4 B5 B6 [B7 B7'] B8 B9] Hret pkt ok. unfold writeback_one. rewrite B3, B5. cbn [mbind res_bind assert_ negb].
  rewrite (s_wb _ _ _ (r_sq _ _ _ _ (n_rep _ _ _ _ Hi))). destruct (inv_committed s ls st w w e Hi He) as (s1 & -> & Hi1 & I1 & L1 & P1 & G1 & N1 & H1 & W1). cbn [mbind res_bind].
  rewrite B6, bool_decide_true by done. cbn [mbind res_bind assert_]. rewrite (store_bytes_ok _ _ B9). cbn [mbind res_bind]. set (d := if isAllZeros e then _ else _).
  rewrite (upd_eq s1 x i) by (by rewrite I1). cbn [mbind res_bind]. set (s2 := with_insts s1 _). rewrite B7'. cbn [andb negb]. rewrite B8. cbv zeta iota.
  assert (Epk : mkPkt r x (u8 (storeWBIdx (sq s2))) false true d = pkt).
  { unfold pkt, packet_of. rewrite B1, B3. simpl. by rewrite W1, (s_wb _ _ _ (r_sq _ _ _ _ (n_rep _ _ _ _ Hi))). }
  rewrite Epk. assert (Hg : gentle (insts s1) (insts s2)) by (simpl; eapply gentle_upd; [by rewrite I1|done..]).
  assert (Hst : ∀ s', lq s' = lq s2 → SQEntries (sq s') = SQEntries (sq s2) → storeHead (sq s') = storeHead (sq s2) → same_kinds (insts s2) (insts s') →
    (∀ y j, insts s2 !! y = Some j → ∃ j', insts s' !! y = Some j' ∧ kind j' = kind j ∧ memData j' = memData j) → stays s s' x).
  { intros s' E1 E2 E3 E4 E5. split; [by rewrite E1|by rewrite E2|by rewrite E3| |].
    - rewrite <-I1. eapply same_kinds_trans; [apply Hg|done].
    - intros y j Hne Hy. apply E5. simpl. by rewrite lookup_insert_ne, I1 by done. }
  unfold sendStore. change (log s2) with (log s1). rewrite G1. fold ok. set (s3 := say s2 [Send pkt ok]).
  assert (Hi3 : inv s3 ls (<[w := set_committed e]> st) w) by (eapply inv_gentle; try done; by left).
  assert (Hs3 : sends (log s3) = sends (log s) ++ [(pkt, ok)]) by (simpl; by rewrite sends_app, G1). destruct ok.
  - cbn [mbind res_bind]. destruct (inv_sent par s3 ls _ w (set_committed e) Hi3 ltac:(apply list_lookup_insert_eq; by eapply lookup_lt_Some) Hc) as (s4 & E4 & Hi4 & X4 & N4).
    destruct (postSend_rest _ _ E4) as (L4 & P4 & H4 & I4). exists s4. split_and!; [done|done| |by rewrite L4|rewrite P4; simpl; by rewrite P1].
    apply Hst; [apply X4|done|done|apply X4|done].
  - change (retryPkt (port s3)) with (retryPkt (port s1)). rewrite P1, Hret, bool_decide_true by done. cbn [mbind res_bind assert_]. eexists. split; [done|].
    split_and!; [eapply inv_gentle; try done; by left| |done|simpl; by rewrite P1]. apply Hst; try done. eauto.
Qed.

(** ** The loop *)

(** From store [w] on, [n] stores were sent, and if [refused] the next one was refused. *)
Record drained (s s' : t) (st : list SQEntry) (w n : nat) (refused : bool) : Prop := {
  d_len : (w + n ≤ length st)%nat;
  d_sent : ∀ j e, (w ≤ j < w + n)%nat → st !! j = Some e → canWB e = true;
  d_log : sends (log s') = sends (log s) ++ imap (λ j e, (packet_of (slot (SQEntries (sq s)) (storeHead (sq s)) (Z.of_nat (w + j))) e, true)) (take n (drop w st)) ++
    (if refused then match st !! (w + n)%nat with Some e => [(packet_of (slot (SQEntries (sq s)) (storeHead (sq s)) (Z.of_nat (w + n))) e, false)] | None => [] end else []);
  d_used : usedStorePorts (port s') = usedStorePorts (port s) + Z.of_nat n + (if refused then 1 else 0) ∧ usedStorePorts (port s') ≤ Z.max (usedStorePorts (port s)) (cacheStorePorts par);
  d_port : isStoreBlocked (port s') = refused ∧
    retryPkt (port s') = if refused then packet_of (slot (SQEntries (sq s)) (storeHead (sq s)) (Z.of_nat (w + n))) <$> st !! (w + n)%nat else None;
  d_stop : ∀ e, st !! (w + n)%nat = Some e → if refused then canWB e = true
    else canWB e = false ∨ (needsTSO par = true ∧ storeInFlight (port s') = true) ∨ cacheStorePorts par ≤ usedStorePorts (port s')
}.

(** Entries that were handed over. *)
Definition handed (st st' : list SQEntry) : Prop := Forall2 (λ e e', e' = e ∨ e' = set_committed e) st st'.

Lemma handed_refl st : handed st st.
Proof. induction st; constructor; auto. Qed.

Lemma handed_insert st k e : st !! k = Some e → handed st (<[k := set_committed e]> st).
Proof.
  revert k. induction st as [|f st IH]; intros k Hk; [done|]. destruct k as [|k]; simpl in *; [injection Hk as ->; constructor; [by right|apply handed_refl]|constructor; [by left|by apply IH]].
Qed.

Lemma handed_trans st1 st2 st3 : handed st1 st2 → handed st2 st3 → handed st1 st3.
Proof.
  intros H. revert st3. induction H as [|e f l l' Hef _ IH]; intros l3 H3; inversion H3; subst; constructor; [|by apply IH].
  destruct Hef as [->| ->]; [done|]. right. naive_solver.
Qed.

Lemma drained_S s s1 s' st w e n b :
  st !! w = Some e → canWB e = true → SQEntries (sq s1) = SQEntries (sq s) → storeHead (sq s1) = storeHead (sq s) → usedStorePorts (port s1) = usedStorePorts (port s) + 1 →
  usedStorePorts (port s) < cacheStorePorts par → sends (log s1) = sends (log s) ++ [(packet_of (slot (SQEntries (sq s)) (storeHead (sq s)) (Z.of_nat w)) e, true)] →
  drained s1 s' (<[w := set_committed e]> st) (S w) n b → drained s s' st w (S n) b.
Proof.
  intros He Hc E1 E2 E3 Hlt E4 [D1 D2 D3 D4 D5 D6]. assert (Hlk : ∀ j, (w < j)%nat → <[w := set_committed e]> st !! j = st !! j) by (intros j Hj; apply list_lookup_insert_ne; lia).
  rewrite length_insert in D1. rewrite E1, E2 in D3, D5. replace (w + S n)%nat with (S w + n)%nat by lia. rewrite Hlk in D3, D5, D6 by lia. split.
  - lia.
  - intros j f Hj Hf. destruct (decide (j = w)) as [->|]; [congruence|]. apply (D2 j); [lia|]. by rewrite Hlk by lia.
  - replace (w + S n)%nat with (S w + n)%nat by lia. rewrite D3, E4, (drop_S _ _ _ He). simpl. rewrite Nat.add_0_r, drop_insert_lt by lia. rewrite <-(assoc_L (++)). simpl. do 3 f_equal. apply imap_ext. intros j f _.
    simpl. by replace (w + S j)%nat with (S (w + j)) by lia.
  - lia.
  - by replace (w + S n)%nat with (S w + n)%nat by lia.
  - replace (w + S n)%nat with (S w + n)%nat by lia. exact D6.
Qed.

Lemma drained_stop s st w : (w ≤ length st)%nat → isStoreBlocked (port s) = false → retryPkt (port s) = None →
  (∀ e, st !! w = Some e → canWB e = false ∨ (needsTSO par = true ∧ storeInFlight (port s) = true) ∨ cacheStorePorts par ≤ usedStorePorts (port s)) → drained s s st w 0 false.
Proof.
  intros Hw H1 H2 H3. split; rewrite ?Nat.add_0_r; try done; [intros; lia| |lia]. rewrite take_0. simpl. by rewrite !app_nil_r.
Qed.

Lemma toWB_pos st e : e ∈ st → pending e = true → 0 < toWB st.
Proof.
  intros He Hp. unfold toWB, vlen. assert (e ∈ filter pending st) as Hin by (apply list_elem_of_filter; split; [by rewrite Hp|done]). destruct (filter pending st); [by apply elem_of_nil in Hin|simpl; lia].
Qed.

Lemma sorted_lookup {A} (f : A → Z) l j k a b : StronglySorted (λ a b, f a < f b) l → l !! j = Some a → l !! k = Some b → (j < k)%nat → f a < f b.
Proof.
  intros Hs Ha Hb Hlt. rewrite <-(take_drop_middle _ _ _ Ha) in Hs. apply StronglySorted_app_1_r, StronglySorted_inv in Hs as [_ Hs]. rewrite Forall_forall in Hs. apply Hs.
  apply list_elem_of_lookup. exists (k - S j)%nat. rewrite lookup_drop. by replace (S j + (k - S j))%nat with k by lia.
Qed.

(** The other stores stay ready. *)
Lemma ready_stays s s' ls st w e x i r j f :
  inv s ls st w → st !! w = Some e → plain_store (insts s) e x i r → stays s s' x → (w < j)%nat → st !! j = Some f → ready (insts s) f → ready (insts s') f.
Proof.
  intros Hi He Hp Hs Hj Hf (y & iy & ry & [B1 B2 B3 B4 B5 B6 B7 B8 B9]). assert (Hne : y ≠ x).
  { intros ->. pose proof (sorted_lookup (enum (insts s)) st w j e f (k_ssorted _ _ _ (r_known _ _ _ _ (n_rep _ _ _ _ Hi))) He Hf Hj) as Hlt. unfold enum in Hlt. rewrite B1, (b_inst _ _ _ _ _ Hp) in Hlt. simpl in Hlt. lia. }
  destruct (c_insts _ _ _ Hs y iy Hne B2) as (iy' & Hy' & Ek & Em). exists y, iy', ry. split; try done; [by rewrite Em|by rewrite Ek].
Qed.

Lemma loop_stalled s ls st w fuel : inv s ls st w → isStoreBlocked (port s) = true → writeback_loop par accepts handleLockedWrite (S fuel) s = Ok s.
Proof.
  intros [Hr Hs _ _] Hb. cbn [writeback_loop]. rewrite (s_wb _ _ _ (r_sq _ _ _ _ Hr)), (stail_eq _ _ _ _ (r_sq _ _ _ _ Hr)) by (pose proof (t_sent _ _ _ _ Hs); unfold vlen; lia).
  destruct (0 <? storesToWB (sq s)), (Z.eqb_spec (Z.of_nat w) (vlen st)) as [|Hne]; try done. simpl. pose proof (t_sent _ _ _ _ Hs).
  destruct (lookup_lt_is_Some_2 st w) as [e He]; [unfold vlen in Hne; lia|]. rewrite (sget _ _ _ _ _ (r_sq _ _ _ _ Hr) He). cbn [mbind res_bind]. destruct (inst e); [|done]. destruct (_ && _); [|done]. by rewrite Hb.
Qed.

Lemma writeback_loop_spec d ls : ∀ s st w fuel,
  (length st - w = d)%nat → (d + 2 ≤ fuel)%nat → inv s ls st w → isStoreBlocked (port s) = false → retryPkt (port s) = None →
  (∀ j e, (w ≤ j)%nat → st !! j = Some e → canWB e = true → ready (insts s) e) →
  ∃ s' st' n b, writeback_loop par accepts handleLockedWrite fuel s = Ok s' ∧ drained s s' st w n b ∧ handed st st' ∧ inv s' ls st' (w + n) ∧
    lq s' = lq s ∧ SQEntries (sq s') = SQEntries (sq s) ∧ same_kinds (insts s) (insts s').
Proof.
  induction d as [d IH] using lt_wf_ind. intros s st w fuel Hd Hf Hi Hb Hret Hrd. destruct fuel as [|fuel]; [lia|]. pose proof Hi as [Hr Hs Hl _]. pose proof (r_sq _ _ _ _ Hr) as Hsr. pose proof (t_sent _ _ _ _ Hs) as Hw.
  assert (Hend : (∀ e, st !! w = Some e → canWB e = false ∨ (needsTSO par = true ∧ storeInFlight (port s) = true) ∨ cacheStorePorts par ≤ usedStorePorts (port s)) →
    ∃ s' st' n b, Ok s = Ok s' ∧ drained s s' st w n b ∧ handed st st' ∧ inv s' ls st' (w + n) ∧ lq s' = lq s ∧ SQEntries (sq s') = SQEntries (sq s) ∧ same_kinds (insts s) (insts s')).
  { intros H. exists s, st, 0%nat, false. split_and!; try done; [by apply drained_stop|apply handed_refl|by rewrite Nat.add_0_r]. }
  cbn [writeback_loop]. rewrite (s_wb _ _ _ Hsr), (stail_eq _ _ _ _ Hsr) by (unfold vlen; lia). destruct (decide (w = length st)) as [->|Hne].
  { rewrite (proj2 (Z.eqb_eq _ _)) by done. rewrite andb_false_r. apply Hend. intros e He. apply lookup_lt_Some in He. lia. }
  rewrite (proj2 (Z.eqb_neq _ _)) by (unfold vlen; lia). rewrite andb_true_r. destruct (lookup_lt_is_Some_2 st w ltac:(lia)) as [e He]. assert (Hin : e ∈ st) by (by eapply list_elem_of_lookup_2).
  assert (Hnc : completed e = false) by (destruct (completed e) eqn:E; [pose proof (t_done _ _ _ _ Hs w e He E); lia|done]).
  destruct (Z.ltb_spec 0 (storesToWB (sq s))) as [Hpos|Hnp].
  2:{ apply Hend. intros f Hf'. assert (f = e) as -> by congruence. left. destruct (canWB e) eqn:Ec; [|done]. rewrite (t_count _ _ _ _ Hs) in Hnp. pose proof (toWB_pos st e Hin ltac:(unfold pending; by rewrite Ec, Hnc)). lia. }
  rewrite (sget _ _ _ _ _ Hsr He). cbn [mbind res_bind]. destruct (e_inst _ _ (t_entry _ _ _ _ Hs e Hin)) as (x & i & Ex & Hx & _). rewrite Ex.
  destruct (canWB e) eqn:Ec; [|apply Hend; intros f Hf'; left; congruence]. destruct (needsTSO par && storeInFlight (port s)) eqn:Et.
  { rewrite <-negb_andb, Et. simpl. apply andb_prop in Et. apply Hend. auto. }
  rewrite <-negb_andb, Et. simpl. destruct (Z.ltb_spec (usedStorePorts (port s)) (cacheStorePorts par)) as [Hu|Hu]; [|apply Hend; auto]. rewrite Hb.
  destruct (Hrd w e ltac:(lia) He Ec) as (x' & i' & r & Hp). pose proof Hp as [B1 B2 B3 B4 B5 B6 [B7 B7'] B8 B9]. assert (x' = x) as -> by congruence. assert (i' = i) as -> by congruence.
  rewrite (proj2 (Z.eqb_neq _ _)) by done. set (sa := with_port s _). unfold deref. change (insts sa) with (insts s). rewrite Hx. cbn [mbind res_bind]. rewrite B7.
  assert (Hia : inv sa ls st w) by (eapply inv_gentle; try done; by left).
  destruct (writeback_one_step sa ls st w e x i r Hia He Ec Hp Hret) as (s1 & -> & Hi1 & Hs1 & L1 & P1). cbn [mbind res_bind]. change (sq sa) with (sq s) in *. change (log sa) with (log s) in *.
  set (pkt := packet_of _ e) in *. pose proof Hs1 as [C1 C2 C3 C4 C5]. destruct (accepts (log s) pkt) eqn:Ea.
  - destruct (IH (length (<[w := set_committed e]> st) - S w)%nat ltac:(rewrite length_insert; lia) s1 (<[w := set_committed e]> st) (S w) fuel eq_refl ltac:(rewrite length_insert; lia) Hi1) as (s' & st' & n & b & E & D & Hh & Hi' & El & En & Hk).
    { rewrite P1. unfold after_send. by destruct (needsTSO par). } { rewrite P1. unfold after_send. by destruct (needsTSO par). }
    { intros j f Hj Hfj Hcf. rewrite list_lookup_insert_ne in Hfj by lia. apply (ready_stays sa s1 ls st w e x i r j f Hia He Hp Hs1); [lia|done|]. by apply (Hrd j); [lia|..]. }
    exists s', st', (S n), b. split_and!; [done| |by eapply handed_trans; [by apply handed_insert|]|by replace (w + S n)%nat with (S w + n)%nat by lia|by rewrite El, C1|by rewrite En, C2|by eapply same_kinds_trans].
    eapply (drained_S s s1); try done. rewrite P1. unfold after_send. destruct (needsTSO par); simpl; lia.
  - destruct fuel as [|fuel]; [lia|]. rewrite (loop_stalled s1 ls _ w fuel Hi1) by (by rewrite P1). exists s1, (<[w := set_committed e]> st), 0%nat, true. rewrite Nat.add_0_r.
    split_and!; [done| |by apply handed_insert|done|done|done|done]. split; rewrite ?Nat.add_0_r, ?He; try done; [intros; lia|..].
    + rewrite P1. simpl. lia.
    + by rewrite P1.
    + by intros f [= <-].
Qed.
End writeback.
End LsqWriteback.
