(* ===== verification/LsqSpec.v ===== *)
(** * The load-store queue unit: theorems

    Sessions of the unit, on the one hand on the arrays and indices, on the other on two
    lists; what a load gets; which loads a store catches. *)

From stdpp Require Import sorting.
From S2P Require Import Prelude Lsq LsqRing LsqQueues LsqForward LsqStores LsqInv LsqSteps LsqWriteback.

Module LsqSpec.
Import LSQUnit LsqRing LsqQueues LsqForward LsqStores LsqInv LsqSteps LsqWriteback.

(** ** Sessions *)
Inductive op :=
  | Insert (x : positive) | Translate (x : positive) (a : Access) | Write (k : nat) (r : Request) (bytes : list Z) | Read (k : nat) (r : Request)
  | Executed (x : positive) (p : Packet) | CommitStores (y : Z) | CommitLoads (y : Z) | Sent | Complete (k : nat) | Squash (n : Z) | Check (x : positive).

(** The two queues: loads, stores, and how many of these were sent. *)
Record queues := mkQueues { q_loads : list positive; q_stores : list SQEntry; q_sent : nat }.

Section session.
Context (par : Params) (accepts : list action → Packet → bool) (handleIprRead : list action → positive → Request → list Z) (uninit : Z).

(** Positions in the queues as indices of the arrays. *)
Definition st_idx (s : t) (k : nat) : Z := slot (SQEntries (sq s)) (storeHead (sq s)) (Z.of_nat k).
Definition ld_idx (s : t) (k : nat) : Z := slot (LQEntries (lq s)) (loadHead (lq s)) (Z.of_nat k).

Definition exec (o : op) (s : t) : res t :=
  match o with
  | Insert x => insert s x
  | Translate x a => upd s x (set_access a)
  | Write k r bytes => '(_, s) ← write s r bytes (st_idx s k); Ok s
  | Read k r => '(_, s) ← read accepts handleIprRead uninit s r (ld_idx s k); Ok s
  | Executed x p => writeback s x p
  | CommitStores y => commitStores s y
  | CommitLoads y => commitLoads s y
  | Sent => storePostSend par s
  | Complete k => completeStore par s (st_idx s k)
  | Squash n => squash s n
  | Check x => i ← deref s x; '(_, s) ← checkViolations par s (lqIdx i) x; Ok s
  end.

(** The same on the lists; [m] gives the numbers. *)
Definition step (m : gmap positive DynInst) (o : op) (q : queues) : queues :=
  let 'mkQueues ls st w := q in
  match o with
  | Insert x => if from_option (λ i, isLoad (kind i)) false (m !! x) then mkQueues (ls ++ [x]) st w else mkQueues ls (st ++ [SQEntry_new x]) w
  | Write k r bytes => match st !! k with Some e => mkQueues ls (<[k := written e r bytes]> st) w | None => q end
  | CommitStores y => mkQueues ls (mark m y st) w
  | CommitLoads y => mkQueues (filter (λ x, y < num m x) ls) st w
  | Sent => mkQueues ls st (S w)
  | Complete k => match st !! k with Some e => let st' := after_complete st k e in mkQueues ls st' (w - (length st - length st')) | None => q end
  | Squash n => mkQueues (filter (λ x, num m x ≤ n) ls) (filter (λ e, enum m e ≤ n) st) w
  | _ => q
  end.

Definition fresh (s : t) (q : queues) (n : Z) : Prop :=
  (∀ y, y ∈ q_loads q → num (insts s) y < n) ∧ (∀ e, e ∈ q_stores q → enum (insts s) e < n).

(** What the pipeline ensures: instructions enter in order, and only where there is room; addresses
    do not wrap around and a store keeps its address once it has data; stores commit
    after older loads have executed, loads with the older stores; a load that is put off is not committed; only what may be
    written back is sent, only what was sent completes; what may be written back is not squashed. *)
Definition legal (o : op) (s : t) (q : queues) : Prop :=
  match o with
  | Insert x => ∃ i, insts s !! x = Some i ∧ isMemRef (kind i) = true ∧ fresh s q (sn i) ∧
      ((isLoad (kind i) = true ∧ vlen (q_loads q) + 1 < LQEntries (lq s)) ∨ (isLoad (kind i) = false ∧ isStore (kind i) = true ∧ vlen (q_stores q) + 1 < SQEntries (sq s)))
  | Translate x a => is_Some (insts s !! x) ∧ ∀ e, e ∈ q_stores q → inst e = Some x → size e = 0
  | Write k r bytes => ∃ e y i, q_stores q !! k = Some e ∧ inst e = Some y ∧ insts s !! y = Some i ∧ canWB e = false ∧ 0 ≤ getSize r < 256 ∧
      (isBlockZero r = true ∨ (getSize r ≤ vlen (data e) ∧ getSize r ≤ vlen bytes)) ∧
      (strictlyOrdered (access i) = false → effAddrValid (access i) = true ∧ 0 ≤ effAddr (access i) ∧ effAddr (access i) + getSize r < 2 ^ 64)
  | Read k r => ∃ x i, q_loads q !! k = Some x ∧ insts s !! x = Some i ∧ isExecuted (status i) = false ∧ isStrictlyOrdered r = false ∧ isMmappedIpr r = false ∧
      buffer_ok r i ∧ req_ok r
  | Executed x p => ∃ i, insts s !! x = Some i ∧ isSquashed (status i) = false ∧ fault i = None
  | CommitStores y => ∀ x i, x ∈ q_loads q → insts s !! x = Some i → isExecuted (status i) = false → y < sn i
  | CommitLoads y => (∀ e, e ∈ q_stores q → canWB e = false → y < enum (insts s) e) ∧
      ∀ k x, stalled (stall s) = true → q_loads q !! k = Some x → stallingLoadIdx (stall s) = ld_idx s k → y < num (insts s) x
  | Sent => ∃ e, q_stores q !! q_sent q = Some e ∧ canWB e = true
  | Complete k => ∃ e, q_stores q !! k = Some e ∧ (k < q_sent q)%nat ∧ completed e = false
  | Squash n => ∀ e, e ∈ q_stores q → canWB e = true → enum (insts s) e ≤ n
  | Check x => ∃ e i, e ∈ q_stores q ∧ canWB e = false ∧ inst e = Some x ∧ insts s !! x = Some i ∧ isLoad (kind i) = false
  end.

(** The arrays, of [nl] and [ns] entries, hold the two queues. *)
Record holds (m : gmap positive DynInst) (nl ns : Z) (s : t) (q : queues) : Prop := {
  h_inv : inv s (q_loads q) (q_stores q) (q_sent q); h_kinds : same_kinds m (insts s); h_lq : LQEntries (lq s) = nl; h_sq : SQEntries (sq s) = ns
}.

(** ** Every call keeps the invariant *)
Lemma mark_kinds m m' y st : same_kinds m m' → mark m' y st = mark m y st.
Proof. intros Hk. induction st as [|e st IH]; [done|]. cbn [mark]. rewrite IH, (enum_kinds m m') by done. done. Qed.

(** Which instructions a call changes in a way that the invariant sees. *)
Definition quiet (o : op) (m m' : gmap positive DynInst) : Prop := gentle m m' ∨ ∃ x, (o = Insert x ∨ ∃ a, o = Translate x a) ∧ changed m m' x.

Lemma quiet_same o m m' : m' = m → quiet o m m'.
Proof. intros ->. by left. Qed.

(** [insertLoad] or [insertStore], as the instruction is a load. *)
Definition enter (s : t) (x : positive) : res t := i ← deref s x; if isLoad (kind i) then insertLoad s x else insertStore s x.

Lemma holds_enter m nl ns s q x : holds m nl ns s q → legal (Insert x) s q → ∃ s', enter s x = Ok s' ∧ holds m nl ns s' (step m (Insert x) q) ∧ changed (insts s) (insts s') x.
Proof.
  intros [Hi Hm N1 N2] (i & Hx & _ & [F1 F2] & Hcase). destruct q as [ls st w]. simpl in *. unfold enter, deref. rewrite Hx. cbn [mbind res_bind].
  assert (Hkind : from_option (λ i, isLoad (kind i)) false (m !! x) = isLoad (kind i)).
  { specialize (Hm x). rewrite Hx in Hm. destruct (m !! x) as [j|]; [|done]. simpl in *. congruence. }
  rewrite Hkind. destruct Hcase as [[Hl Hlt]|(Hl & _ & Hlt)]; rewrite Hl.
  - destruct (inv_insertLoad _ _ _ _ _ _ Hi Hx Hlt F1 F2) as (s1 & -> & H1 & Hk & M1 & M2). exists s1. split_and!; [done| |done]. split; [done| |congruence..]. eapply same_kinds_trans; [exact Hm|by eapply changed_kinds].
  - destruct (lsq_inv_insertStore _ _ _ _ _ _ Hi Hx Hlt F1 F2) as (s1 & -> & H1 & Hk & M1 & M2). exists s1. split_and!; [done| |done]. split; [done| |congruence..]. eapply same_kinds_trans; [exact Hm|by eapply changed_kinds].
Qed.

Lemma holds_insert m nl ns s q x : holds m nl ns s q → legal (Insert x) s q → ∃ s', insert s x = Ok s' ∧ holds m nl ns s' (step m (Insert x) q) ∧ quiet (Insert x) (insts s) (insts s').
Proof.
  intros Hh Hl. pose proof Hl as (i & Hx & Hmr & _ & Hcase). destruct (holds_enter _ _ _ _ _ _ Hh Hl) as (s1 & E & [Hi Hm N1 N2] & Hch). unfold insert. unfold enter, deref in *. rewrite Hx in *. cbn [mbind res_bind] in *.
  rewrite Hmr. cbn [mbind res_bind assert_]. assert (isLoad (kind i) || isStore (kind i) = true) as -> by (destruct Hcase as [[-> _]|(_ & -> & _)]; [done|by rewrite orb_true_r]).
  cbn [mbind res_bind assert_]. rewrite E. cbn [mbind res_bind]. destruct Hch as (i0 & i1 & H0 & Em & Hk). assert (H1 : insts s1 !! x = Some i1) by (rewrite Em; apply lookup_insert_eq).
  rewrite (upd_eq s1 x i1) by done. eexists. split; [done|]. assert (Hg : gentle (insts s1) (<[x := setInLSQ i1]> (insts s1))) by (by eapply gentle_upd). split.
  - split; [eapply inv_gentle; try done; by left| |done..]. eapply same_kinds_trans; [exact Hm|apply Hg].
  - right. exists x. split; [by left|]. exists i0, (setInLSQ i1). split_and!; [done| |done]. simpl. by rewrite Em, insert_insert_eq.
Qed.

Lemma holds_translate m nl ns s q x a : holds m nl ns s q → legal (Translate x a) s q → ∃ s', upd s x (set_access a) = Ok s' ∧ holds m nl ns s' q ∧ changed (insts s) (insts s') x.
Proof.
  intros [[Hr Hs Hl Hma] Hm N1 N2] [[i Hx] Hsz]. rewrite (upd_eq s x i) by done. eexists. split; [done|].
  assert (Hk : same_kinds (insts s) (<[x := set_access a i]> (insts s))) by (by apply same_kinds_upd). split; [|by exists i, (set_access a i)]. split; [|by eapply same_kinds_trans|done|done]. split.
  - by eapply rep_effect.
  - destruct Hs as [S1 S2 S3 S4 S5 S6]. split; try done. intros e He. destruct (S6 e He) as [(y & j & Ey & Hj & Hw) H2 H3]. split; [|done|done]. simpl.
    destruct (decide (y = x)) as [->|Hne]; [|exists y, j; by rewrite lookup_insert_ne]. exists x, (set_access a i). rewrite lookup_insert_eq. split_and!; [done|done|]. by rewrite (Hsz e He Ey).
  - apply (loads_ok_mild s); try done; [|by left|apply Hl]. intros y j Hj. simpl in Hj. destruct (decide (y = x)) as [->|Hne].
    + rewrite lookup_insert_eq in Hj. injection Hj as <-. by exists i.
    + rewrite lookup_insert_ne in Hj by done. by exists j.
  - eapply (marks_mild s); try done; [|eauto]. intros y j Hj. simpl in Hj. destruct (decide (y = x)) as [->|Hne].
    + rewrite lookup_insert_eq in Hj. injection Hj as <-. by exists i.
    + rewrite lookup_insert_ne in Hj by done. by exists j.
Qed.

Lemma holds_write m nl ns s q k r bytes :
  holds m nl ns s q → legal (Write k r bytes) s q → ∃ s', write s r bytes (st_idx s k) = Ok (None, s') ∧ holds m nl ns s' (step m (Write k r bytes) q) ∧ insts s' = insts s.
Proof.
  intros [Hi Hm N1 N2] (e & y & i & He & Ey & Hy & Hc & Hsz & Hb & Ha). destruct q as [ls st w]. simpl in *. rewrite He.
  assert (Hok : entry_ok (insts s) (written e r bytes)).
  { split; simpl.
    - exists y, i. split_and!; [done|done|]. intros _ Hst. rewrite u8_id by (unfold is_u8; lia). by apply Ha.
    - rewrite u8_id by (unfold is_u8; lia). lia.
    - intros Hz. rewrite Hz in *. destruct Hb as [|[H1 H2]]; [done|]. rewrite u8_id by (unfold is_u8; lia). unfold vlen in *. rewrite length_app, length_take, length_drop. lia. }
  destruct (inv_write s ls st w k e r bytes Hi He ltac:(tauto) ltac:(tauto) Hok) as (s' & E & Hi' & Em & El & Es & _). exists s'. split_and!; [exact E| |done]. split; [done|by rewrite Em|congruence..].
Qed.

Lemma holds_executed m nl ns s q x p : holds m nl ns s q → legal (Executed x p) s q → ∃ s', writeback s x p = Ok s' ∧ holds m nl ns s' q ∧ gentle (insts s) (insts s').
Proof.
  intros [Hi Hm N1 N2] (i & Hx & Hsq & Hf). unfold writeback, deref. simpl insts. rewrite Hx. cbn [mbind res_bind]. rewrite Hsq. destruct (isExecuted (status i)) eqn:Ee; simpl negb; cbv iota.
  - cbn [mbind res_bind]. eexists. split; [done|]. split; [|done]. split; [|done..]. eapply inv_gentle; try done. by left.
  - rewrite (upd_eq _ x i) by done. cbn [mbind res_bind]. rewrite Hf. cbn [mbind res_bind]. eexists. split; [done|].
    assert (Hg : gentle (insts s) (<[x := setExecuted i]> (insts s))) by (by eapply gentle_upd). split; [|exact Hg]. split; [eapply inv_gentle; try done; by left| |done..]. eapply same_kinds_trans; [done|apply Hg].
Qed.

Lemma holds_check m nl ns s q e x i : 0 ≤ depCheckShift par < 64 → holds m nl ns s q → e ∈ q_stores q → canWB e = false → inst e = Some x → insts s !! x = Some i → isLoad (kind i) = false →
  ∃ f s', checkViolations par s (lqIdx i) x = Ok (f, s') ∧ holds m nl ns s' q ∧ insts s' = insts s ∧
    reported par s s' (q_loads q) (block par (effAddr (access i))) (block par (last_byte (access i))) (before (insts s) (q_loads q) e) f.
Proof.
  intros Hsh [Hi Hm N1 N2] He Hc Ex Hx Hl. unfold checkViolations, deref. rewrite Hx. cbn [mbind res_bind]. rewrite !(shr64_block par Hsh). cbn [mbind res_bind].
  rewrite (n_marks _ _ _ _ Hi e x i He Hc Ex Hx). set (k := before (insts s) (q_loads q) e). assert (Hk : (k ≤ length (q_loads q))%nat) by apply length_filter.
  pose proof (n_rep _ _ _ _ Hi) as Hr. pose proof (lhead _ _ (r_lq _ _ _ _ Hr)) as (_ & Hll & _).
  destruct (violations_loop_spec par Hsh s _ _ _ i (block par (effAddr (access i))) (block par (last_byte (access i))) Hr Hl (g_viol _ _ _ _ (n_loads _ _ _ _ Hi))
    (length (q_loads q) - k) k (S (Z.to_nat (LQEntries (lq s)))) ltac:(lia) ltac:(unfold vlen in *; lia)) as (f & s' & E & Hrep).
  exists f, s'. split; [exact E|]. rewrite (assoc and). split; [|done]. destruct f as [f|]; [|by rewrite (v_none _ _ _ _ _ _ _ _ Hrep eq_refl)].
  destruct (v_some _ _ _ _ _ _ _ _ Hrep ltac:(done)) as (_ & j & z & ld & _ & _ & Hz & _ & -> & _). split; [|done]. split; [|done..]. destruct Hi as [H1 H2 H3 H4]. split; [by eapply rep_effect|done| |done].
  apply (loads_ok_mild s); try done; [|by left|]; [intros y iy Hy; by exists iy|]. intros v [= <-]. by eexists.
Qed.

Lemma exec_step m nl ns o s q :
  0 ≤ depCheckShift par < 64 → holds m nl ns s q → legal o s q → ∃ s', exec o s = Ok s' ∧ holds m nl ns s' (step m o q) ∧ quiet o (insts s) (insts s').
Proof.
  intros Hsh Hh Hl. pose proof Hh as [Hi Hm N1 N2]. assert (Hnum : ∀ y, num (insts s) y = num m y) by (intros; by apply same_kinds_num). assert (Hen : ∀ e, enum (insts s) e = enum m e) by (intros; by apply enum_kinds).
  destruct q as [ls st w]. destruct o; simpl exec.
  - by apply holds_insert.
  - destruct (holds_translate _ _ _ _ _ _ _ Hh Hl) as (s' & E & H' & Hc). exists s'. split_and!; [done..|]. right. eauto.
  - destruct (holds_write _ _ _ _ _ _ _ _ Hh Hl) as (s' & E & H' & Em). exists s'. rewrite E. split_and!; [done..|by apply quiet_same].
  - destruct Hl as (x & i & Hx & Hxi & Hex & Hso & Hip & Hb & Hq). destruct (inv_read accepts handleIprRead uninit _ _ _ _ k x i r Hi Hx Hxi Hex Hso Hip Hb Hq) as (s' & E & Hi' & _ & El & Es & Hg).
    unfold ld_idx. rewrite E. cbn [mbind res_bind]. exists s'. split_and!; [done| |by left]. split; [done| |congruence..]. eapply same_kinds_trans; [done|apply Hg].
  - destruct (holds_executed _ _ _ _ _ _ _ Hh Hl) as (s' & E & H' & Hg). exists s'. split_and!; [done..|by left].
  - destruct (inv_commitStores _ _ _ _ y Hi Hl) as (s' & E & Hi' & Em & El & Es & _). exists s'. split_and!; [done| |by apply quiet_same]. split; [|by rewrite Em|congruence..]. simpl. by rewrite (mark_kinds m (insts s)) in Hi'.
  - destruct (inv_commitLoads _ _ _ _ y Hi (proj2 Hl) (proj1 Hl)) as (s' & E & Hi' & Em & El & Es & _). exists s'. split_and!; [done| |by apply quiet_same]. split; [|by rewrite Em|congruence..]. simpl.
    rewrite (list_filter_iff (λ x, y < num (insts s) x) (λ x, y < num m x)) in Hi' by (intros x; by rewrite Hnum). done.
  - destruct Hl as (e & He & Hc). destruct (inv_sent par _ _ _ _ e Hi He Hc) as (s' & E & Hi' & X & Es). exists s'. pose proof (x_lq _ _ X). pose proof (x_kinds _ _ X) as Hg.
    split_and!; [done| |by left]. split; [done| |congruence..]. eapply same_kinds_trans; [done|apply Hg].
  - destruct Hl as (e & He & Hlt & Hd). simpl in *. rewrite He. destruct (inv_complete par _ _ _ _ _ e Hi He Hlt Hd) as (s' & w' & E & Hi' & X & Es & Ew). exists s'. pose proof (x_lq _ _ X). pose proof (x_kinds _ _ X) as Hg.
    split_and!; [exact E| |by left]. split; [simpl; by rewrite <-Ew| |congruence..]. eapply same_kinds_trans; [done|apply Hg].
  - destruct (lsq_inv_squash _ _ _ _ n Hi Hl) as (s' & E & Hi' & El & Es & _ & Hg). exists s'. split_and!; [done| |by left]. split; [|eapply same_kinds_trans; [done|apply Hg]|congruence..]. simpl.
    rewrite (list_filter_iff (λ x, num (insts s) x ≤ n) (λ x, num m x ≤ n)) in Hi' by (intros x; by rewrite Hnum).
    rewrite (list_filter_iff (λ e, enum (insts s) e ≤ n) (λ e, enum m e ≤ n)) in Hi' by (intros e; by rewrite Hen). done.
  - destruct Hl as (e & i & He & Hc & Ex & Hx & Hk). destruct (holds_check _ _ _ _ _ _ _ _ Hsh Hh He Hc Ex Hx Hk) as (f & s' & E & H' & Em & _).
    unfold deref. rewrite Hx. cbn [mbind res_bind]. rewrite E. cbn [mbind res_bind]. exists s'. split_and!; [done..|by apply quiet_same].
Qed.

Fixpoint run (os : list op) (s : t) : res t := match os with [] => Ok s | o :: os => s ← exec o s; run os s end.
Fixpoint steps (m : gmap positive DynInst) (os : list op) (q : queues) : queues := match os with [] => q | o :: os => steps m os (step m o q) end.

(** Each call is legal where it is made. *)
Fixpoint legal_run (m : gmap positive DynInst) (os : list op) (s : t) (q : queues) : Prop :=
  match os with
  | [] => True
  | o :: os => legal o s q ∧ ∀ s', exec o s = Ok s' → legal_run m os s' (step m o q)
  end.

Lemma run_holds m nl ns os s q : 0 ≤ depCheckShift par < 64 → holds m nl ns s q → legal_run m os s q → ∃ s', run os s = Ok s' ∧ holds m nl ns s' (steps m os q).
Proof.
  intros Hsh. revert s q. induction os as [|o os IH]; intros s q Hh Hl; [by exists s|]. destruct Hl as [Hl Hr]. destruct (exec_step _ _ _ _ _ _ Hsh Hh Hl) as (s1 & E & H1 & _).
  cbn [run steps]. rewrite E. cbn [mbind res_bind]. apply IH; [done|]. by apply Hr.
Qed.
End session.

Lemma init_holds maxLQ maxSQ indet m :
  0 ≤ maxLQ < 256 → 0 ≤ maxSQ < 256 → ∃ s, init maxLQ maxSQ indet m = Ok s ∧ holds m (maxLQ + 1) (maxSQ + 1) s (mkQueues [] [] 0).
Proof.
  intros H1 H2. unfold init. rewrite !u32_id by (unfold is_u32; lia). rewrite !(proj2 (Z.leb_le _ _)) by lia. cbn [mbind res_bind assert_]. eexists. split; [done|].
  split; [|done..].
  assert (Hrep : ∀ A n (a : A), 0 ≤ n → vlen (replicate (Z.to_nat n) a) = n) by (intros A n a Hn; unfold vlen; rewrite length_replicate; lia).
  split; [split; [split|split|split]|split|split|]; simpl; try done; try (by constructor); try set_solver.
  - rewrite Hrep by lia. lia.
  - split; [rewrite Hrep; lia|]. split; [|done]. rewrite Hrep by lia. unfold vlen. simpl. lia.
  - rewrite Hrep by lia. lia.
  - split; [rewrite Hrep; lia|]. split; [|done]. rewrite Hrep by lia. unfold vlen. simpl. lia.
  - by intros e y i ?%elem_of_nil.
Qed.

(** ** Legality is checked *)
Definition legalb (o : op) (s : t) (q : queues) : bool :=
  let m := insts s in
  let is_inst x (P : DynInst → bool) := from_option P false (m !! x) in
  match o with
  | Insert x => is_inst x (λ i, isMemRef (kind i) && forallb (λ y, num m y <? sn i) (q_loads q) && forallb (λ e, enum m e <? sn i) (q_stores q) &&
      if isLoad (kind i) then vlen (q_loads q) + 1 <? LQEntries (lq s) else isStore (kind i) && (vlen (q_stores q) + 1 <? SQEntries (sq s)))
  | Translate x a => is_inst x (λ _, true) && forallb (λ e, negb (bool_decide (inst e = Some x)) || (size e =? 0)) (q_stores q)
  | Write k r bytes =>
      match q_stores q !! k with
      | Some e => negb (canWB e) && (0 <=? getSize r) && (getSize r <? 256) && (isBlockZero r || ((getSize r <=? vlen (data e)) && (getSize r <=? vlen bytes))) &&
          from_option (λ y, is_inst y (λ i, let a := access i in strictlyOrdered a || (effAddrValid a && (0 <=? effAddr a) && (effAddr a + getSize r <? 2 ^ 64)))) false (inst e)
      | None => false
      end
  | Read k r => from_option (λ x, is_inst x (λ i, negb (isExecuted (status i)) && negb (isStrictlyOrdered r) && negb (isMmappedIpr r) &&
      from_option (λ old, getSize r <=? vlen old) true (memData i) && (0 <=? getVaddr r) && (0 <? getSize r) && (getVaddr r + getSize r <? 2 ^ 64))) false (q_loads q !! k)
  | Executed x p => is_inst x (λ i, negb (isSquashed (status i)) && bool_decide (fault i = None))
  | CommitStores y => forallb (λ x, from_option (λ i, isExecuted (status i) || (y <? sn i)) true (m !! x)) (q_loads q)
  | CommitLoads y => forallb (λ e, canWB e || (y <? enum m e)) (q_stores q) &&
      (negb (stalled (stall s)) || forallb (λ k, negb (stallingLoadIdx (stall s) =? ld_idx s k) || from_option (λ x, y <? num m x) true (q_loads q !! k)) (seq 0 (length (q_loads q))))
  | Sent => from_option canWB false (q_stores q !! q_sent q)
  | Complete k => from_option (λ e, (k <? q_sent q)%nat && negb (completed e)) false (q_stores q !! k)
  | Squash n => forallb (λ e, negb (canWB e) || (enum m e <=? n)) (q_stores q)
  | Check x => is_inst x (λ i, negb (isLoad (kind i))) && existsb (λ e, negb (canWB e) && bool_decide (inst e = Some x)) (q_stores q)
  end.

Lemma lsq_legalb_spec o s q : legalb o s q = true → legal o s q.
Proof.
  assert (Hall : ∀ A (f : A → bool) l, forallb f l = true → ∀ a, a ∈ l → f a = true) by (intros A f l H a Ha; apply (proj1 (forallb_forall f l) H); by apply list_elem_of_In).
  destruct o; cbn [legalb legal].
  - destruct (insts s !! x) as [i|]; [|done]. simpl. intros (((H1 & H2)%andb_prop & H3)%andb_prop & H4)%andb_prop. exists i. split_and!; [done..| |].
    + split; intros a Ha; [apply (Hall _ _ _ H2) in Ha|apply (Hall _ _ _ H3) in Ha]; lia.
    + destruct (isLoad (kind i)); [left; split; [done|lia]|right]. apply andb_prop in H4 as [-> ?]. split_and!; [done..|lia].
  - intros [H1 H2]%andb_prop. destruct (insts s !! x); [|done]. split; [by eexists|]. intros e He Ex. pose proof (Hall _ _ _ H2 e He) as H. simpl in H. rewrite bool_decide_true in H by done. simpl in H. lia.
  - destruct (q_stores q !! k) as [e|]; [|done]. intros ((((H1 & H2)%andb_prop & H3)%andb_prop & H4)%andb_prop & H5)%andb_prop. destruct (inst e) as [y|] eqn:Ey; [|done]. simpl in H5.
    destruct (insts s !! y) as [i|] eqn:Hy; [|done]. simpl in H5. exists e, y, i. split_and!; try done; try lia; [by destruct (canWB e)| |].
    + apply orb_prop in H4 as [H4|[? ?]%andb_prop]; [by left|right; lia].
    + intros Hst. rewrite Hst in H5. simpl in H5. apply andb_prop in H5 as [[? ?]%andb_prop ?]. split_and!; [done|lia|lia].
  - destruct (q_loads q !! k) as [x|]; [|done]. simpl. destruct (insts s !! x) as [i|] eqn:Hx; [|done]. simpl.
    intros ((((((H1 & H2)%andb_prop & H3)%andb_prop & H4)%andb_prop & H5)%andb_prop & H6)%andb_prop & H7)%andb_prop. rewrite negb_true_iff in H1, H2, H3. exists x, i. split_and!; try done.
    + unfold buffer_ok. destruct (memData i); [simpl in *; lia|done].
    + unfold req_ok. lia.
  - destruct (insts s !! x) as [i|]; [|done]. simpl. intros [H1 H2]%andb_prop. exists i. split_and!; [done|by destruct (isSquashed _)|by apply bool_decide_eq_true in H2].
  - intros H x i Hx Hi He. pose proof (Hall _ _ _ H x Hx) as Hb. simpl in Hb. rewrite Hi in Hb. simpl in Hb. rewrite He in Hb. simpl in Hb. lia.
  - intros [H1 H2]%andb_prop. split.
    + intros e He Hc. pose proof (Hall _ _ _ H1 e He) as Hb. simpl in Hb. rewrite Hc in Hb. simpl in Hb. lia.
    + intros k x Hst Hk E. rewrite Hst in H2. simpl in H2. pose proof (Hall _ _ _ H2 k ltac:(apply elem_of_seq; apply lookup_lt_Some in Hk; lia)) as Hb. simpl in Hb.
      rewrite Hk, E, Z.eqb_refl in Hb. simpl in Hb. lia.
  - destruct (q_stores q !! q_sent q) as [e|]; [|done]. intros H. by exists e.
  - destruct (q_stores q !! k) as [e|]; [|done]. simpl. intros [H1 H2]%andb_prop. exists e. split_and!; [done|by apply Nat.ltb_lt|by destruct (completed e)].
  - intros H e He Hc. pose proof (Hall _ _ _ H e He) as Hb. simpl in Hb. rewrite Hc in Hb. simpl in Hb. lia.
  - intros [H1 H2]%andb_prop. destruct (insts s !! x) as [i|]; [|done]. simpl in H1. apply existsb_exists in H2 as (e & He%list_elem_of_In & [Hc Ex]%andb_prop). exists e, i.
    split_and!; [done|by destruct (canWB e)|by apply bool_decide_eq_true in Ex|done|by destruct (isLoad _)].
Qed.

Section check.
Context (par : Params) (accepts : list action → Packet → bool) (handleIprRead : list action → positive → Request → list Z) (uninit : Z) (m : gmap positive DynInst).

Fixpoint legal_runb (os : list op) (s : t) (q : queues) : bool :=
  match os with
  | [] => true
  | o :: os => legalb o s q && match exec par accepts handleIprRead uninit o s with Ok s' => legal_runb os s' (step m o q) | Err _ => false end
  end.

Lemma lsq_legal_runb_spec os s q : legal_runb os s q = true → legal_run par accepts handleIprRead uninit m os s q.
Proof.
  revert s q. induction os as [|o os IH]; intros s q; [done|]. cbn [legal_runb legal_run]. intros [H1%lsq_legalb_spec H2]%andb_prop. split; [done|]. intros s' E. rewrite E in H2. by apply IH.
Qed.
End check.

(** ** The theorems *)

(** What the unit shows of its queues: entries in order of age at consecutive indices,
    counts, free entries, the next store to be sent. *)
Record shows (m : gmap positive DynInst) (maxLQ maxSQ : Z) (s : t) (q : queues) : Prop := {
  w_load : ∀ k x, q_loads q !! k = Some x → vget (loadQueue (lq s)) (ld_idx s k) = Ok (Some x);
  w_store : ∀ k e, q_stores q !! k = Some e → vget (storeQueue (sq s)) (st_idx s k) = Ok e;
  w_loads : loads (lq s) = vlen (q_loads q) ∧ loadTail (lq s) = ld_idx s (length (q_loads q));
  w_stores : stores (sq s) = vlen (q_stores q) ∧ storeTail (sq s) = st_idx s (length (q_stores q));
  w_toWB : storesToWB (sq s) = toWB (q_stores q) ∧ storeWBIdx (sq s) = st_idx s (q_sent q);
  w_free : numFreeLoadEntries s = maxLQ - vlen (q_loads q) ∧ numFreeStoreEntries s = maxSQ - vlen (q_stores q);
  w_full : (lqFull s = true ↔ vlen (q_loads q) = maxLQ) ∧ (sqFull s = true ↔ vlen (q_stores q) = maxSQ);
  w_age : StronglySorted (λ x y, num m x < num m y) (q_loads q) ∧ StronglySorted (λ e f, enum m e < enum m f) (q_stores q);
  w_sent : (q_sent q ≤ length (q_stores q))%nat ∧ ∀ k e, q_stores q !! k = Some e → ((k < q_sent q)%nat → canWB e = true) ∧ (completed e = true → (0 < k < q_sent q)%nat)
}.

Lemma holds_shows m maxLQ maxSQ s q : holds m (maxLQ + 1) (maxSQ + 1) s q → shows m maxLQ maxSQ s q.
Proof.
  intros [[Hr [S1 S2 S3 S4 S5 S6] Hl _] Hm N1 N2]. pose proof (r_lq _ _ _ _ Hr) as R1. pose proof (r_sq _ _ _ _ Hr) as R2. destruct (lhead _ _ R1) as (_ & L1 & _). destruct (shead _ _ _ R2) as (_ & L2 & _).
  pose proof (l_n _ _ R1) as [_ B1]. pose proof (s_n _ _ _ R2) as [_ B2]. pose proof (l_count _ _ R1) as C1. pose proof (s_count _ _ _ R2) as C2.
  assert (0 ≤ vlen (q_loads q) ∧ 0 ≤ vlen (q_stores q)) as [P1 P2] by (unfold vlen; lia). split.
  - intros k x Hk. by eapply lget.
  - intros k e Hk. by eapply sget.
  - split; [done|]. apply (l_tail _ _ R1).
  - split; [done|]. apply (s_tail _ _ _ R2).
  - split; [done|]. apply (s_wb _ _ _ R2).
  - unfold numFreeLoadEntries, numFreeStoreEntries. rewrite C1, C2, !u32_id by (unfold is_u32; lia). lia.
  - unfold lqFull, sqFull. rewrite C1, C2, !u32_id by (unfold is_u32; lia). rewrite !Z.leb_le. lia.
  - pose proof (known_kinds (insts s) m _ _ ltac:(intros x; symmetry; apply Hm) (r_known _ _ _ _ Hr)) as Hk. split; apply Hk.
  - split; [done|]. intros k e Hk. split; [by eapply S2|]. intros Hc. split; [|by eapply S3]. destruct k; [|lia]. rewrite (S4 e Hk) in Hc. done.
Qed.

Section theorems.
Context (par : Params) (accepts : list action → Packet → bool) (handleIprRead : list action → positive → Request → list Z) (uninit : Z).
Context (Hsh : 0 ≤ depCheckShift par < 64).

(** C26: a session of legal calls on a new unit never fails, and the circular arrays with
    their heads, tails and counters are two queues in order of age, of which the first
    stores were sent: the calls act on them as on lists. *)
Theorem lsq_refines_queues maxLQ maxSQ indet m os :
  0 ≤ maxLQ < 256 → 0 ≤ maxSQ < 256 → (∀ s, init maxLQ maxSQ indet m = Ok s → legal_run par accepts handleIprRead uninit m os s (mkQueues [] [] 0)) →
  ∃ s0 s, init maxLQ maxSQ indet m = Ok s0 ∧ run par accepts handleIprRead uninit os s0 = Ok s ∧ shows m maxLQ maxSQ s (steps m os (mkQueues [] [] 0)).
Proof.
  intros H1 H2 Hl. destruct (init_holds maxLQ maxSQ indet m H1 H2) as (s0 & E0 & Hh). destruct (run_holds _ _ _ _ _ _ _ _ _ _ Hsh Hh (Hl s0 E0)) as (s & E & Hs).
  exists s0, s. split_and!; [done..|]. by apply holds_shows.
Qed.

(** The stores older than [x] that were not sent. *)
Definition unsent (m : gmap positive DynInst) (q : queues) (x : positive) : list SQEntry := drop (q_sent q) (filter (λ e, enum m e < num m x) (q_stores q)).

(** C27: what a load does once it has its address, for a load that is neither executed nor
    strictly ordered nor memory mapped and whose bytes do not wrap around.  Of the older
    stores that were not sent, those count whose data is known (they have executed, with
    a size that is not 0) and that are not strictly ordered.  If the youngest of these
    that shares a byte with the load holds all its bytes and the load is not locked, the
    bytes are forwarded, and are those that memory would hold after all these stores; if
    that store lacks a byte of the load, or the load is locked, the load is rescheduled
    and the unit stalls; if there is no such store, none changes its bytes, and the
    request goes to memory (or is blocked, when the port refuses).  The queues stay as
    they are. *)
Theorem lsq_forwarding_correct m nl ns s q kl x i r :
  holds m nl ns s q → q_loads q !! kl = Some x → insts s !! x = Some i → isExecuted (status i) = false →
  isStrictlyOrdered r = false → isMmappedIpr r = false → buffer_ok r i → req_ok r →
  ∃ s', read accepts handleIprRead uninit s r (ld_idx s kl) = Ok (None, s') ∧ lq s' = lq s ∧ sq s' = sq s ∧
    outcome (insts s) (unsent (insts s) q x) r x (ld_idx s kl) (log s ++ locked r x) s'.
Proof.
  intros Hh Hx Hi Hex Hso Hip Hb Hq. pose proof (h_inv _ _ _ _ _ Hh) as Hinv. destruct (inv_read accepts handleIprRead uninit _ _ _ _ _ _ _ _ Hinv Hx Hi Hex Hso Hip Hb Hq) as (s' & E & _ & Hout & E1 & E2 & _).
  exists s'. split_and!; try done. unfold unsent. rewrite older_prefix; [done|]. apply (n_rep _ _ _ _ Hinv).
Qed.

Lemma before_le m ls e j z : StronglySorted (λ x y, num m x < num m y) ls → ls !! j = Some z → enum m e ≤ num m z → (before m ls e ≤ j)%nat.
Proof.
  intros Hso Hj Hle. destruct (sorted_filter_prefix (num m) (enum m e - 1) ls Hso) as (r & E & _). unfold before.
  rewrite (list_filter_iff (λ x, num m x < enum m e) (λ x, num m x ≤ enum m e - 1)) by (intros; lia). set (l := filter _ ls) in *. destruct (decide (j < length l)%nat) as [Hlt|]; [|lia].
  exfalso. rewrite E, lookup_app_l in Hj by done. apply list_elem_of_lookup_2, list_elem_of_filter in Hj as [? _]. lia.
Qed.

Lemma before_ge m ls e j z : StronglySorted (λ x y, num m x < num m y) ls → ls !! j = Some z → (before m ls e ≤ j)%nat → enum m e ≤ num m z.
Proof.
  intros Hso Hj Hle. destruct (sorted_filter_prefix (num m) (enum m e - 1) ls Hso) as (r & E & Hr). unfold before in Hle.
  rewrite (list_filter_iff (λ x, num m x < enum m e) (λ x, num m x ≤ enum m e - 1)) in Hle by (intros; lia). set (l := filter _ ls) in *.
  destruct (decide (enum m e ≤ num m z)) as [|Hn]; [done|]. exfalso. assert (z ∈ r) as Hz.
  { rewrite E, lookup_app_r in Hj by done. by eapply list_elem_of_lookup_2. }
  specialize (Hr z Hz). lia.
Qed.

(** An access that does not wrap around the address space; a byte of it. *)
Definition plain (a : Access) : Prop := 0 ≤ effAddr a ∧ 0 < effSize a ∧ effAddr a + effSize a ≤ 2 ^ 64.
Definition touches (a : Access) (b : Z) : Prop := effAddr a ≤ b < effAddr a + effSize a.

Lemma touch_conflict i ld b : plain (access i) → plain (access ld) → touches (access i) b → touches (access ld) b → effAddrValid (access ld) = true → strictlyOrdered (access ld) = false →
  conflicts par ld (block par (effAddr (access i))) (block par (last_byte (access i))) = true.
Proof.
  intros (P1 & P2 & P3) (Q1 & Q2 & Q3) [T1 T2] [U1 U2] Hv Hs. unfold conflicts, last_byte. rewrite Hv, Hs, !u64_id by (unfold is_u64; lia). simpl.
  pose proof (block_mono par Hsh (effAddr (access ld)) b ltac:(lia)). pose proof (block_mono par Hsh b (effAddr (access i) + effSize (access i) - 1) ltac:(lia)).
  pose proof (block_mono par Hsh (effAddr (access i)) b ltac:(lia)). pose proof (block_mono par Hsh b (effAddr (access ld) + effSize (access ld) - 1) ltac:(lia)). lia.
Qed.

Context (initiateAcc : t → positive → res (option Fault * t)).

(** C28: a store that executes catches the younger loads that went ahead of it.  The store
    is one whose access starts without a fault or a delayed translation, whose predicate
    holds, which has data, is no store conditional and may not be written back yet; the
    loads are those of the queue with a valid address that are not strictly ordered.
    For every such load that is younger and shares a byte with the store, the violating
    instruction afterwards is that load or an older one.  Without a fault nothing has
    changed; a fault names a load of the queue that is younger than the store and has a
    block in common with it, the oldest violating instruction known. *)
Theorem lsq_violation_caught m nl ns s i0 s1 q k e x i :
  insts s !! x = Some i0 → isSquashed (status i0) = false → stores (sq s) ≠ 0 → initiateAcc s x = Ok (None, s1) → holds m nl ns s1 q →
  q_stores q !! k = Some e → inst e = Some x → canWB e = false → size e ≠ 0 → insts s1 !! x = Some i → sqIdx i0 = st_idx s1 k → lqIdx i0 = lqIdx i →
  isLoad (kind i) = false → isStoreConditional (kind i) = false → isTranslationDelayed i = false → readPredicate i = true → plain (access i) →
  ∃ f s', executeStore par initiateAcc s x = Ok (f, s') ∧ holds m nl ns s' q ∧
    (∀ z ld b, z ∈ q_loads q → insts s1 !! z = Some ld → sn i < sn ld → effAddrValid (access ld) = true → strictlyOrdered (access ld) = false →
       plain (access ld) → touches (access i) b → touches (access ld) b → ∃ v, memDepViolator s' = Some v ∧ num (insts s1) v ≤ sn ld) ∧
    match f with
    | None => s' = s1
    | Some g => g = M5PanicFault ∧ ∃ z ld, z ∈ q_loads q ∧ insts s1 !! z = Some ld ∧ sn i < sn ld ∧ conflicts par ld (block par (effAddr (access i))) (block par (last_byte (access i))) = true ∧
        s' = with_violator s1 (Some z) ∧ ∀ v, memDepViolator s1 = Some v → sn ld ≤ num (insts s1) v
    end.
Proof.
  intros Hi0 Hsq Hst Hacc Hh Hk Ex Hc Hsz Hi Esq Elq Hl Hsc Htd Hrp Hpl. assert (He : e ∈ q_stores q) by (by eapply list_elem_of_lookup_2).
  destruct (holds_check par _ _ _ _ _ _ _ _ Hsh Hh He Hc Ex Hi Hl) as (f & s' & E & Hh' & _ & [V1 V2 V3]). exists f, s'. split; [|split; [done|split]].
  - assert (Ed : deref s x = Ok i0) by (unfold deref; by rewrite Hi0). assert (Ed1 : deref s1 x = Ok i) by (unfold deref; by rewrite Hi).
    unfold executeStore. rewrite (proj2 (Z.eqb_neq _ _)) by done. cbn. rewrite Ed. cbn. rewrite Hsq, Hacc. cbn. rewrite Ed1. cbn. rewrite Htd, Hrp, Hsc. cbn. rewrite Esq, Elq.
    unfold st_idx. rewrite (sget _ _ _ _ _ (r_sq _ _ _ _ (n_rep _ _ _ _ (h_inv _ _ _ _ _ Hh))) Hk). cbn. rewrite (proj2 (Z.eqb_neq _ _)) by done. exact E.
  - intros z ld b Hz Hld Hlt Hv Hs Hpd T1 T2. apply list_elem_of_lookup in Hz as [j Hj]. assert (En : num (insts s1) z = sn ld) by (unfold num; by rewrite Hld).
    rewrite <-En. eapply V1; [|done..|by eapply touch_conflict]. apply (before_le _ _ _ _ z); [apply (n_rep _ _ _ _ (h_inv _ _ _ _ _ Hh))|done|].
    unfold enum. rewrite Ex. simpl. unfold num at 1. rewrite Hi. simpl. lia.
  - destruct f as [g|]; [|by apply V2]. destruct (V3 ltac:(done)) as (Hg & j & z & ld & Hbj & Hj & Hld & Hcf & -> & Hold). split; [congruence|]. exists z, ld.
    assert (Hz : z ∈ q_loads q) by (by eapply list_elem_of_lookup_2).
    assert (Hyounger : sn i < sn ld).
    { pose proof (before_ge _ _ _ _ _ (k_lsorted _ _ _ (r_known _ _ _ _ (n_rep _ _ _ _ (h_inv _ _ _ _ _ Hh)))) Hj Hbj) as Hge.
      pose proof (g_distinct _ _ _ _ (n_loads _ _ _ _ (h_inv _ _ _ _ _ Hh)) z e Hz He) as Hne.
      assert (num (insts s1) z = sn ld ∧ enum (insts s1) e = sn i) as [E1 E2] by (unfold enum, num; rewrite Ex; simpl; by rewrite Hld, Hi). lia. }
    split_and!; [done..|]. unfold num at 1 in Hold. rewrite Hld in Hold. exact Hold.
Qed.

Context (handleLockedWrite : list action → positive → Request → bool).

(** C29: the stores that may be written back, if they are plain stores with data, leave in
    program order, each packet with the store's bytes, until one is refused (its packet
    is kept for a retry and the unit is blocked), the next store may not leave, a store is
    in flight where stores are totally ordered, or the ports are used up; the call ends,
    and changes the queues only in what it handed over. *)
Theorem lsq_writeback_in_order m nl ns s q :
  holds m nl ns s q → isStoreBlocked (port s) = false → retryPkt (port s) = None →
  (∀ j e, (q_sent q ≤ j)%nat → q_stores q !! j = Some e → canWB e = true → ready (insts s) e) →
  ∃ s1 st' n refused, writebackStores par accepts handleLockedWrite s = Ok (with_port s1 (with_used (port s1) 0)) ∧ drained par s s1 (q_stores q) (q_sent q) n refused ∧
    handed (q_stores q) st' ∧ holds m nl ns (with_port s1 (with_used (port s1) 0)) (mkQueues (q_loads q) st' (q_sent q + n)).
Proof.
  intros [Hi Hm N1 N2] Hb Hr Hrd. pose proof (shead _ _ _ (r_sq _ _ _ _ (n_rep _ _ _ _ Hi))) as (_ & Hlen & _).
  destruct (writeback_loop_spec par accepts handleLockedWrite _ (q_loads q) s (q_stores q) (q_sent q) (S (S (Z.to_nat (SQEntries (sq s))))) eq_refl ltac:(unfold vlen in *; lia) Hi Hb Hr Hrd)
    as (s1 & st' & n & b & E & D & Hh & Hi' & El & En & Hk). exists s1, st', n, b. unfold writebackStores. rewrite E. cbn [mbind res_bind]. cbv zeta.
  assert (0 ≤ stores (sq s1) ∧ 0 ≤ storesToWB (sq s1)) as [P1 P2].
  { rewrite (s_count _ _ _ (r_sq _ _ _ _ (n_rep _ _ _ _ Hi'))), (t_count _ _ _ _ (n_stores _ _ _ _ Hi')). unfold toWB, vlen. lia. }
  cbn [sq with_port]. rewrite !(proj2 (Z.leb_le 0 _)) by done. cbn [mbind res_bind assert_ andb]. split_and!; [done..|]. split; simpl; [|by eapply same_kinds_trans|congruence..].
  eapply inv_gentle; try done. by left.
Qed.
End theorems.

(** ** Limits *)

(** The mask of a cache block has 32 bits: an invalidation hits the loads of every block
    with the same lower address bits. *)
Theorem lsq_snoop_mask_truncated par a : Z.land (a + 2 ^ 32) (cacheBlockMask par) = Z.land a (cacheBlockMask par).
Proof.
  unfold cacheBlockMask. assert (∃ z, not32 (u32 (cacheLineSize par - 1)) = z mod 2 ^ 32) as (z & ->) by
    (exists (not32 (u32 (cacheLineSize par - 1))); symmetry; apply Z.mod_small; unfold not32, u32; pose proof (Z.mod_pos_bound (cacheLineSize par - 1) (2 ^ 32) ltac:(lia)); lia).
  apply Z.bits_inj'. intros n Hn. rewrite !Z.land_spec. destruct (decide (n < 32)) as [Hlt|Hge].
  - f_equal. rewrite <-(Z.mod_pow2_bits_low (a + 2 ^ 32) 32), <-(Z.mod_pow2_bits_low a 32) by lia. f_equal. rewrite <-(Z.mul_1_l (2 ^ 32)) at 1. apply Z_mod_plus_full.
  - rewrite Z.mod_pow2_bits_high by lia. by rewrite !andb_false_r.
Qed.

(** A store queue that was made smaller does not grow again within its array. *)
Theorem lsq_resize_keeps_small s n : 0 ≤ n < 256 → SQEntries (sq s) < n + 1 ≤ vlen (storeQueue (sq s)) → SQEntries (sq s) ≤ 256 → resizeSQ s n = Ok s.
Proof.
  intros Hn [H1 H2] H3. unfold resizeSQ. rewrite u32_id by (unfold is_u32; lia). cbv zeta. rewrite (proj2 (Z.ltb_lt _ _)) by lia.
  replace (Z.to_nat (n + 1) - length (storeQueue (sq s)))%nat with 0%nat by (unfold vlen in *; lia). simpl. rewrite Z.add_0_r, app_nil_r, (proj2 (Z.leb_le _ _)) by lia.
  by destruct s as [? [] ? ? ? ? ?].
Qed.

(** ** A session: two stores and two loads, alternating *)
Definition demo_inst (n : Z) (load : bool) : DynInst :=
  mkInst (mkKind n load (negb load) true false false) (mkAccess 0 0 false false 0 0 false) (mkStatus false false false true false false) 0 0 false false None None true false true.
Definition demo_insts : gmap positive DynInst := {[1%positive := demo_inst 10 false; 2%positive := demo_inst 11 true; 3%positive := demo_inst 12 false; 4%positive := demo_inst 13 true]}.
Definition demo_access (a n : Z) : Access := mkAccess a n true false a a false.
Definition demo_req (a n : Z) : Request := mkReq a n false false false false.
Definition demo_par : Params := mkParams 4 true 2 false 64.
Definition demo_accepts (l : list action) (p : Packet) : bool := true.
Definition demo_ipr (l : list action) (x : positive) (r : Request) : list Z := [].
Definition demo_pkt (a n : Z) (x : positive) : Packet := mkPkt (demo_req a n) x 0 true false [].

Definition demo_start : list op :=
  [Insert 1; Insert 2; Insert 3; Insert 4; Translate 1 (demo_access 0x1000 8); Write 0 (demo_req 0x1000 8) [1; 2; 3; 4; 5; 6; 7; 8];
   Translate 4 (demo_access 0x2000 4); Read 1 (demo_req 0x2000 4); Translate 2 (demo_access 0x1004 4)].
Definition demo_store : list op := demo_start ++ [Translate 3 (demo_access 0x2002 2); Write 1 (demo_req 0x2002 2) [7; 9]].
Definition demo_all : list op :=
  demo_store ++ [Read 0 (demo_req 0x1004 4); Check 3; Squash 12; Executed 2 (demo_pkt 0x1004 4 2); CommitStores 11; CommitLoads 11; Sent; CommitStores 12; Sent; Complete 1; Complete 0].

Definition demo_unit : t := match init 3 3 0 demo_insts with Ok s => s | Err _ => mkUnit (mkLQ [] 0 0 0 0) (mkStoreQ [] 0 0 0 0 0 0) (mkStall false 0 0) (mkPort 0 None false false) None ∅ [] end.
Definition demo_run (os : list op) : t := match run demo_par demo_accepts demo_ipr 0 os demo_unit with Ok s => s | Err _ => demo_unit end.
Definition demo_queues (os : list op) : queues := steps demo_insts os (mkQueues [] [] 0).

Lemma demo_holds os : legal_runb demo_par demo_accepts demo_ipr 0 demo_insts os demo_unit (mkQueues [] [] 0) = true → holds demo_insts 4 4 (demo_run os) (demo_queues os).
Proof.
  intros Hl%lsq_legal_runb_spec. destruct (init_holds 3 3 0 demo_insts ltac:(lia) ltac:(lia)) as (s0 & E0 & Hh). assert (demo_unit = s0) as E by (unfold demo_unit; by rewrite E0). rewrite E in Hl.
  destruct (run_holds demo_par demo_accepts demo_ipr 0 _ _ _ _ _ _ ltac:(simpl; lia) Hh Hl) as (s & Er & Hs). unfold demo_run. rewrite E, Er. exact Hs.
Qed.

Example demo_ends_empty : demo_queues demo_all = mkQueues [] [] 0 ∧ stores (sq (demo_run demo_all)) = 0 ∧ memDepViolator (demo_run demo_all) = None.
Proof. vm_compute. done. Qed.

Lemma lsq_refines_queues_witness :
  ∃ s0 s, init 3 3 0 demo_insts = Ok s0 ∧ run demo_par demo_accepts demo_ipr 0 demo_all s0 = Ok s ∧ shows demo_insts 3 3 s (steps demo_insts demo_all (mkQueues [] [] 0)).
Proof.
  apply (lsq_refines_queues demo_par demo_accepts demo_ipr 0); [simpl; lia|lia|lia|].
  intros s E. apply lsq_legal_runb_spec. vm_compute in E. injection E as <-. vm_compute. reflexivity.
Defined.

(** The load gets the upper half of the first store's data. *)
Lemma lsq_forwarding_correct_witness :
  let s := demo_run demo_store in
  ∃ s', read demo_accepts demo_ipr 0 s (demo_req 0x1004 4) (ld_idx s 0) = Ok (None, s') ∧ lq s' = lq s ∧ sq s' = sq s ∧
    outcome (insts s) (unsent (insts s) (demo_queues demo_store) 2) (demo_req 0x1004 4) 2 (ld_idx s 0) (log s ++ locked (demo_req 0x1004 4) 2) s'.
Proof.
  cbv zeta. eapply (lsq_forwarding_correct demo_accepts demo_ipr 0 demo_insts 4 4 _ (demo_queues demo_store)).
  - apply demo_holds. vm_compute. reflexivity.
  - vm_compute. reflexivity.
  - vm_compute. reflexivity.
  - reflexivity.
  - reflexivity.
  - reflexivity.
  - exact I.
  - unfold req_ok. simpl. lia.
Defined.

(** The second store finds that the second load went ahead. *)
Definition demo_initiate (s : t) (x : positive) : res (option Fault * t) := s ← upd s x (set_access (demo_access 0x2002 2)); write s (demo_req 0x2002 2) [7; 9] 1.

Definition demo_get (s : t) (x : positive) : DynInst := default (demo_inst 0 false) (insts s !! x).

Lemma lsq_violation_caught_witness : ∃ f s' v, executeStore demo_par demo_initiate (demo_run demo_start) 3 = Ok (f, s') ∧ memDepViolator s' = Some v ∧ num (insts (demo_run demo_store)) v ≤ 13.
Proof.
  destruct (lsq_violation_caught demo_par ltac:(simpl; lia) demo_initiate demo_insts 4 4 (demo_run demo_start) (demo_get (demo_run demo_start) 3)
    (demo_run demo_store) (demo_queues demo_store) 1 (written (SQEntry_new 3) (demo_req 0x2002 2) [7; 9]) 3 (demo_get (demo_run demo_store) 3)) as (f & s' & E & _ & Hv & _);
    [vm_compute; reflexivity|vm_compute; reflexivity|vm_compute; discriminate|vm_compute; reflexivity|apply demo_holds; vm_compute; reflexivity|vm_compute; reflexivity|reflexivity|reflexivity|
     vm_compute; discriminate|vm_compute; reflexivity..| |].
  - unfold plain. vm_compute. split_and!; congruence.
  - destruct (Hv 4%positive (demo_get (demo_run demo_store) 4) 0x2002) as (v & Ev & Hle).
    + vm_compute. right. left.
    + vm_compute. reflexivity.
    + vm_compute. reflexivity.
    + vm_compute. reflexivity.
    + vm_compute. reflexivity.
    + unfold plain. vm_compute. split_and!; congruence.
    + unfold touches. vm_compute. split; congruence.
    + unfold touches. vm_compute. split; congruence.
    + exists f, s', v. split_and!; [exact E|exact Ev|exact Hle].
Defined.

(** Both stores are committed and leave in one cycle. *)
Definition demo_committed : list op := demo_store ++ [Read 0 (demo_req 0x1004 4); Executed 2 (demo_pkt 0x1004 4 2); CommitStores 12].
Definition demo_locked (l : list action) (x : positive) (r : Request) : bool := true.

Lemma lsq_writeback_in_order_witness :
  let s := demo_run demo_committed in let q := demo_queues demo_committed in
  ∃ s1 st' n refused, writebackStores demo_par demo_accepts demo_locked s = Ok (with_port s1 (with_used (port s1) 0)) ∧ drained demo_par s s1 (q_stores q) (q_sent q) n refused ∧
    handed (q_stores q) st' ∧ holds demo_insts 4 4 (with_port s1 (with_used (port s1) 0)) (mkQueues (q_loads q) st' (q_sent q + n)).
Proof.
  cbv zeta. apply (lsq_writeback_in_order demo_par demo_accepts demo_locked).
  - apply demo_holds. vm_compute. reflexivity.
  - vm_compute. reflexivity.
  - vm_compute. reflexivity.
  - intros j e _ Hj _. destruct j as [|[|j]]; vm_compute in Hj; [injection Hj as <-..|discriminate].
    + exists 1%positive, (demo_get (demo_run demo_committed) 1), (demo_req 0x1000 8). split; try (vm_compute; reflexivity); [discriminate|split; vm_compute; reflexivity|intros _; vm_compute; discriminate].
    + exists 3%positive, (demo_get (demo_run demo_committed) 3), (demo_req 0x2002 2). split; try (vm_compute; reflexivity); [discriminate|split; vm_compute; reflexivity|intros _; vm_compute; discriminate].
Defined.

Example demo_drains :
  sends <$> (log <$> match writebackStores demo_par demo_accepts demo_locked (demo_run demo_committed) with Ok s => Some s | Err _ => None end) =
  Some [(mkPkt (demo_req 0x2000 4) 4 1 true false [0; 0; 0; 0], true); (mkPkt (demo_req 0x1000 8) 1 0 false true [1; 2; 3; 4; 5; 6; 7; 8], true); (mkPkt (demo_req 0x2002 2) 3 1 false true [7; 9], true)].
Proof. vm_compute. reflexivity. Qed.
End LsqSpec.
