(* ===== verification/LsqTop.v ===== *)
(** * The load-store queue

    [cpu/o3/lsq.hh] and [lsq_impl.hh]: one unit per hardware thread, a policy that shares
    the entries, and the calls that the other stages and the data port make.  The units
    work on the same instructions and on the same record of actions. *)

From Stdlib Require Import Ascii String.
From S2P Require Import Prelude Lsq.

Module LSQ.

(** ** Parameters and state *)
Inductive LSQPolicy := Dynamic | Partitioned | Threshold.

#[global] Instance LSQPolicy_eq_dec : EqDecision LSQPolicy.
Proof. solve_decision. Defined.

Definition tolower (a : ascii) : ascii := let n := N_of_ascii a in if ((65 <=? n) && (n <=? 90))%N then ascii_of_N (n + 32) else a.
Fixpoint lowercase (s : string) : string := match s with EmptyString => EmptyString | String a s => String (tolower a) (lowercase s) end.

Record Params := mkParams { LQEntries : Z; SQEntries : Z; numThreads : Z; smtLSQPolicy : string; smtLSQThreshold : Z; MaxThreads : Z; unit_params : LSQUnit.Params }.

Record t := mkLSQ {
  params : Params; lsqPolicy : LSQPolicy; maxLQEntries : Z; maxSQEntries : Z; thread : list LSQUnit.t; activeThreads : list Z;
  insts : gmap positive LSQUnit.DynInst; log : list LSQUnit.action
}.
Definition with_threads (g : t) l m a : t := mkLSQ (params g) (lsqPolicy g) (maxLQEntries g) (maxSQEntries g) l (activeThreads g) m a.
Definition setActiveThreads (g : t) (at_ptr : list Z) : t := mkLSQ (params g) (lsqPolicy g) (maxLQEntries g) (maxSQEntries g) (thread g) at_ptr (insts g) (log g).
Definition say (g : t) (l : list LSQUnit.action) : t := with_threads g (thread g) (insts g) (log g ++ l).

(** A unit with the instructions and the actions so far. *)
Definition share (u : LSQUnit.t) (m : gmap positive LSQUnit.DynInst) (a : list LSQUnit.action) : LSQUnit.t :=
  LSQUnit.mkUnit (LSQUnit.lq u) (LSQUnit.sq u) (LSQUnit.stall u) (LSQUnit.port u) (LSQUnit.memDepViolator u) m a.
Definition unit_at (g : t) (tid : Z) : res LSQUnit.t := u ← vget (thread g) tid; Ok (share u (insts g) (log g)).
Definition put (g : t) (tid : Z) (u : LSQUnit.t) : res t := l ← vset (thread g) tid u; Ok (with_threads g l (LSQUnit.insts u) (LSQUnit.log u)).

(** [thread[tid].f()] *)
Definition on (g : t) (tid : Z) (f : LSQUnit.t → res LSQUnit.t) : res t := u ← unit_at g tid; u ← f u; put g tid u.
Definition on_val {A} (g : t) (tid : Z) (f : LSQUnit.t → res (A * LSQUnit.t)) : res (A * t) := u ← unit_at g tid; '(a, u) ← f u; g ← put g tid u; Ok (a, g).

(** Loops over threads. *)
Fixpoint for_each (ths : list Z) (f : t → Z → res t) (g : t) : res t := match ths with [] => Ok g | tid :: ths => g ← f g tid; for_each ths f g end.
Fixpoint all_of (ths : list Z) (f : Z → res bool) : res bool := match ths with [] => Ok true | tid :: ths => b ← f tid; if (b : bool) then all_of ths f else Ok false end.
Fixpoint any_of (ths : list Z) (f : Z → res bool) : res bool := match ths with [] => Ok false | tid :: ths => b ← f tid; if (b : bool) then Ok true else any_of ths f end.
Fixpoint sum_of (ths : list Z) (f : Z → res Z) (total : Z) : res Z := match ths with [] => Ok total | tid :: ths => n ← f tid; sum_of ths f (u32 (total + n)) end.
Definition ask {A} (g : t) (f : LSQUnit.t → A) (tid : Z) : res A := u ← unit_at g tid; Ok (f u).
Definition all_threads (g : t) : list Z := Z.of_nat <$> seq 0 (length (thread g)).

(** ** Construction *)
Definition policy_of (s : string) : res LSQPolicy :=
  let p := lowercase s in
  if (p =? "dynamic")%string then Ok Dynamic else if (p =? "partitioned")%string then Ok Partitioned else if (p =? "threshold")%string then Ok Threshold else Err AssertFail.

Definition initial_max (p : Params) (pol : LSQPolicy) : res (Z * Z) :=
  match pol with
  | Dynamic => Ok (LQEntries p, SQEntries p)
  | Partitioned => a ← udiv (LQEntries p) (numThreads p); b ← udiv (SQEntries p) (numThreads p); Ok (a, b)
  | Threshold =>
      _ ← assert_ (LQEntries p <? u32 (smtLSQThreshold p));
      _ ← assert_ (SQEntries p <? u32 (smtLSQThreshold p));
      Ok (u32 (smtLSQThreshold p), u32 (smtLSQThreshold p))
  end.

(** [indet tid]: what the fields of unit [tid] that are not initialised hold. *)
Fixpoint make_units (n : nat) (a b : Z) (indet : nat → Z) (m : gmap positive LSQUnit.DynInst) : res (list LSQUnit.t) :=
  match n with O => Ok [] | S n => l ← make_units n a b indet m; u ← LSQUnit.init a b (indet n) m; Ok (l ++ [u]) end.

Definition create (p : Params) (indet : nat → Z) (m : gmap positive LSQUnit.DynInst) : res t :=
  _ ← assert_ ((0 <? numThreads p) && (numThreads p <=? MaxThreads p));
  pol ← policy_of (smtLSQPolicy p);
  '(a, b) ← initial_max p pol;
  l ← make_units (Z.to_nat (numThreads p)) a b indet m;
  Ok (mkLSQ p pol a b l [] m []).

Definition takeOverFrom (g : t) : res t := for_each (all_threads g) (λ g tid, on g tid (λ u, Ok (LSQUnit.takeOverFrom u))) g.

(** ** Sizes *)
Definition entryAmount (g : t) (num_threads : Z) : res Z := match lsqPolicy g with Partitioned => udiv (LQEntries (params g)) num_threads | _ => Ok 0 end.
Definition resizeEntries (g : t) (size tid : Z) : res t := g ← on g tid (λ u, LSQUnit.resizeLQ u size); on g tid (λ u, LSQUnit.resizeSQ u size).
Definition resetEntries (g : t) : res t :=
  if bool_decide (lsqPolicy g ≠ Dynamic) || (1 <? numThreads (params g)) then
    n ← (match lsqPolicy g with Partitioned => udiv (LQEntries (params g)) (vlen (activeThreads g)) | _ => Ok (LQEntries (params g)) end);
    for_each (activeThreads g) (λ g tid, resizeEntries g n tid) g
  else Ok g.
Definition removeEntries (g : t) (tid : Z) : res t := g ← on g tid (λ u, Ok (LSQUnit.clearLQ u)); on g tid (λ u, Ok (LSQUnit.clearSQ u)).

(** ** Queries *)
Definition lqEmpty (g : t) : res bool := all_of (activeThreads g) (ask g LSQUnit.lqEmpty).
Definition sqEmpty (g : t) : res bool := all_of (activeThreads g) (ask g LSQUnit.sqEmpty).
Definition isEmpty (g : t) : res bool := b ← lqEmpty g; if (b : bool) then sqEmpty g else Ok false.
Definition isDrained (g : t) : res bool := a ← lqEmpty g; b ← sqEmpty g; Ok (a && b).
Definition drainSanityCheck (g : t) : res unit :=
  b ← isDrained g;
  _ ← assert_ b;
  foldr (λ tid r, u ← unit_at g tid; _ ← LSQUnit.drainSanityCheck u; r) (Ok tt) (all_threads g).

Definition lqFull (g : t) : res bool := all_of (activeThreads g) (ask g LSQUnit.lqFull).
Definition lqFull_tid (g : t) (tid : Z) : res bool := if decide (lsqPolicy g = Dynamic) then lqFull g else ask g LSQUnit.lqFull tid.

(** [sqFull()] asks [sqFull(tid)], which may ask [sqFull()]. *)
Fixpoint sqFull (fuel : nat) (g : t) : res bool :=
  match fuel with O => Err Diverges | S fuel => all_of (activeThreads g) (sqFull_tid fuel g) end
with sqFull_tid (fuel : nat) (g : t) (tid : Z) : res bool :=
  match fuel with O => Err Diverges | S fuel => if decide (lsqPolicy g = Dynamic) then sqFull fuel g else ask g LSQUnit.sqFull tid end.

Definition isFull (g : t) : res bool := all_of (activeThreads g) (ask g LSQUnit.isFull).
Definition isFull_tid (g : t) (tid : Z) : res bool := if decide (lsqPolicy g = Dynamic) then isFull g else ask g LSQUnit.isFull tid.
Definition isStalled (g : t) : res bool := all_of (activeThreads g) (ask g LSQUnit.isStalled).
Definition isStalled_tid (g : t) (tid : Z) : res bool := if decide (lsqPolicy g = Dynamic) then isStalled g else ask g LSQUnit.isStalled tid.
Definition hasStoresToWB (g : t) : res bool := any_of (activeThreads g) (ask g LSQUnit.hasStoresToWB).
Definition willWB (g : t) : res bool := any_of (activeThreads g) (λ tid, u ← unit_at g tid; LSQUnit.willWB u).
Definition violation (g : t) : res bool := any_of (activeThreads g) (ask g LSQUnit.violation).
Definition violation_tid (g : t) (tid : Z) : res bool := ask g LSQUnit.violation tid.

Definition getCount (g : t) : res Z := sum_of (activeThreads g) (ask g LSQUnit.getCount) 0.
Definition numLoads (g : t) : res Z := sum_of (activeThreads g) (ask g (λ u, LSQUnit.loads (LSQUnit.lq u))) 0.
Definition numStores (g : t) : res Z := sum_of (activeThreads g) (ask g (λ u, LSQUnit.stores (LSQUnit.sq u))) 0.
Definition numFreeLoadEntries (g : t) : res Z := sum_of (activeThreads g) (ask g LSQUnit.numFreeLoadEntries) 0.
Definition numFreeStoreEntries (g : t) : res Z := sum_of (activeThreads g) (ask g LSQUnit.numFreeStoreEntries) 0.
Definition numFreeLoadEntries_tid (g : t) (tid : Z) : res Z := ask g LSQUnit.numFreeLoadEntries tid.
Definition numFreeStoreEntries_tid (g : t) (tid : Z) : res Z := ask g LSQUnit.numFreeStoreEntries tid.

(** ** Calls *)
Section calls.
Context (accepts : list LSQUnit.action → LSQUnit.Packet → bool) (handleLockedWrite : list LSQUnit.action → positive → LSQUnit.Request → bool).
Context (handleIprRead : list LSQUnit.action → positive → LSQUnit.Request → list Z) (uninit : Z).
Context (initiateAcc : LSQUnit.t → positive → res (option LSQUnit.Fault * LSQUnit.t)).
(** The thread of an instruction, and of a request. *)
Context (threadNumber : positive → Z) (contextToThread : LSQUnit.Request → Z).

Definition tick (g : t) : res t := for_each (activeThreads g) (λ g tid, on g tid (λ u, Ok (LSQUnit.tick u))) g.
Definition insertLoad (g : t) (x : positive) : res t := on g (threadNumber x) (λ u, LSQUnit.insertLoad u x).
Definition insertStore (g : t) (x : positive) : res t := on g (threadNumber x) (λ u, LSQUnit.insertStore u x).
Definition executeLoad (g : t) (x : positive) : res (option LSQUnit.Fault * t) := on_val g (threadNumber x) (λ u, LSQUnit.executeLoad (unit_params (params g)) initiateAcc u x).
Definition executeStore (g : t) (x : positive) : res (option LSQUnit.Fault * t) := on_val g (threadNumber x) (λ u, LSQUnit.executeStore (unit_params (params g)) initiateAcc u x).
Definition commitLoads (g : t) (youngest_inst tid : Z) : res t := on g tid (λ u, LSQUnit.commitLoads u youngest_inst).
Definition commitStores (g : t) (youngest_inst tid : Z) : res t := on g tid (λ u, LSQUnit.commitStores u youngest_inst).
Definition writebackStores (g : t) : res t := for_each (activeThreads g) (λ g tid, on g tid (LSQUnit.writebackStores (unit_params (params g)) accepts handleLockedWrite)) g.
Definition squash (g : t) (squashed_num tid : Z) : res t := on g tid (λ u, LSQUnit.squash u squashed_num).
Definition getMemDepViolator (g : t) (tid : Z) : res (ptr * t) := on_val g tid (λ u, Ok (LSQUnit.getMemDepViolator u)).
Definition recvReqRetry (g : t) : res t :=
  for_each (activeThreads g) (λ g tid, on g tid (LSQUnit.recvRetry (unit_params (params g)) accepts)) (say g [LSQUnit.CacheUnblocked]).

Definition snoop_all (g : t) (addr : Z) : res t := for_each (all_threads g) (λ g tid, on g tid (λ u, LSQUnit.checkSnoop (unit_params (params g)) u addr)) g.
(** The response [pkt], with its address, and whether it also invalidates. *)
Definition recvTimingResp (g : t) (pkt : LSQUnit.Packet) (addr : Z) (isInvalidate : bool) : res t :=
  g ← on g (contextToThread (LSQUnit.p_req pkt)) (λ u, LSQUnit.completeDataAccess (unit_params (params g)) u pkt);
  if isInvalidate then snoop_all g addr else Ok g.
Definition recvTimingSnoopReq (g : t) (addr : Z) (isInvalidate : bool) : res t := if isInvalidate then snoop_all g addr else Ok g.

Definition read (g : t) (r : LSQUnit.Request) (load_idx : Z) : res (option LSQUnit.Fault * t) :=
  on_val g (contextToThread r) (λ u, LSQUnit.read accepts handleIprRead uninit u r load_idx).
Definition write (g : t) (r : LSQUnit.Request) (bytes : list Z) (store_idx : Z) : res (option LSQUnit.Fault * t) := on_val g (contextToThread r) (λ u, LSQUnit.write u r bytes store_idx).
End calls.
End LSQ.
