(* ===== verification/LsqTopSpec.v ===== *)
(** * The load-store queue: theorems

    The units of the threads do not disturb each other; how the entries are shared; the
    queries that do not answer. *)

From stdpp Require Import sorting.
From S2P Require Import Prelude Lsq LsqRing LsqQueues LsqForward LsqStores LsqInv LsqSteps LsqWriteback LsqSpec LsqTop.

Module LsqTopSpec.
Import LSQUnit LsqRing LsqQueues LsqStores LsqInv LsqSpec.

(** ** Units *)
Lemma unit_at_nat g (tid : nat) : LSQ.unit_at g (Z.of_nat tid) = match LSQ.thread g !! tid with Some u => Ok (LSQ.share u (LSQ.insts g) (LSQ.log g)) | None => Err OutOfRange end.
Proof. unfold LSQ.unit_at, vget. rewrite (proj2 (Z.leb_le _ _)) by lia. rewrite Nat2Z.id. by destruct (LSQ.thread g !! tid). Qed.

Lemma put_nat g (tid : nat) u u0 : LSQ.thread g !! tid = Some u0 → LSQ.put g (Z.of_nat tid) u = Ok (LSQ.with_threads g (<[tid := u]> (LSQ.thread g)) (insts u) (log u)).
Proof. intros Hu. unfold LSQ.put, vset. apply lookup_lt_Some in Hu. rewrite (proj2 (Z.leb_le _ _)), (proj2 (Z.ltb_lt _ _)) by (unfold vlen; lia). by rewrite Nat2Z.id. Qed.

(** ** Sessions of several threads *)
Section session.
Context (accepts : list action → Packet → bool) (handleIprRead : list action → positive → Request → list Z) (uninit : Z).
Context (threadNumber : positive → Z) (contextToThread : Request → Z).

(** A call for thread [tid]; those that are a part of [executeStore], [writebackStores]
    or [recvTimingResp] go to the unit. *)
Definition exec_top (tid : nat) (o : op) (g : LSQ.t) : res LSQ.t :=
  match o with
  | Insert x => match LSQ.insts g !! x with Some i => if isLoad (kind i) then LSQ.insertLoad threadNumber g x else LSQ.insertStore threadNumber g x | None => Err BadPointer end
  | Write k r bytes => u ← LSQ.unit_at g (Z.of_nat tid); '(_, g) ← LSQ.write contextToThread g r bytes (st_idx u k); Ok g
  | Read k r => u ← LSQ.unit_at g (Z.of_nat tid); '(_, g) ← LSQ.read accepts handleIprRead uninit contextToThread g r (ld_idx u k); Ok g
  | CommitStores y => LSQ.commitStores g y (Z.of_nat tid)
  | CommitLoads y => LSQ.commitLoads g y (Z.of_nat tid)
  | Squash n => LSQ.squash g n (Z.of_nat tid)
  | Translate _ _ | Executed _ _ | Sent | Complete _ | Check _ => LSQ.on g (Z.of_nat tid) (exec (LSQ.unit_params (LSQ.params g)) accepts handleIprRead uninit o)
  end.

(** Instructions and requests belong to the thread. *)
Definition own (tid : nat) (o : op) : Prop :=
  match o with
  | Insert x | Translate x _ => threadNumber x = Z.of_nat tid
  | Write _ r _ | Read _ r => contextToThread r = Z.of_nat tid
  | _ => True
  end.
Definition owned (tid : nat) (q : queues) : Prop :=
  (∀ x, x ∈ q_loads q → threadNumber x = Z.of_nat tid) ∧ (∀ e x, e ∈ q_stores q → inst e = Some x → threadNumber x = Z.of_nat tid).

Definition unit_step (par : Params) (o : op) (u : t) : res t := match o with Insert x => enter u x | _ => exec par accepts handleIprRead uninit o u end.

Lemma exec_top_on tid o g : own tid o → exec_top tid o g = LSQ.on g (Z.of_nat tid) (unit_step (LSQ.unit_params (LSQ.params g)) o) ∨ LSQ.thread g !! tid = None ∨ ∃ x, o = Insert x ∧ LSQ.insts g !! x = None.
Proof.
  intros Ho. destruct (LSQ.thread g !! tid) as [u|] eqn:Hu; [|by right; left]. destruct o; cbn [exec_top unit_step own] in *; try by left.
  - destruct (LSQ.insts g !! x) as [i|] eqn:Hx; [left|right; right; by exists x]. unfold LSQ.insertLoad, LSQ.insertStore. rewrite Ho. unfold LSQ.on. rewrite unit_at_nat, Hu. cbn [mbind res_bind].
    unfold unit_step, enter, deref. cbn [LSQ.share insts]. rewrite Hx. cbn [mbind res_bind]. by destruct (isLoad (kind i)).
  - left. unfold LSQ.write, LSQ.on_val, LSQ.on. rewrite Ho, unit_at_nat, Hu. unfold unit_step. cbn [mbind res_bind exec]. destruct (write _ _ _ _) as [[f u']|]; [|done]. cbn [mbind res_bind]. by destruct (LSQ.put _ _ _).
  - left. unfold LSQ.read, LSQ.on_val, LSQ.on. rewrite Ho, unit_at_nat, Hu. unfold unit_step. cbn [mbind res_bind exec]. destruct (read _ _ _ _ _ _) as [[f u']|]; [|done]. cbn [mbind res_bind]. by destruct (LSQ.put _ _ _).
Qed.

(** ** The invariant *)
Record ok (m : gmap positive DynInst) (nl ns : Z) (g : LSQ.t) (qs : list queues) : Prop := {
  a_len : length qs = length (LSQ.thread g);
  a_unit : ∀ tid q u, qs !! tid = Some q → LSQ.thread g !! tid = Some u → holds m nl ns (LSQ.share u (LSQ.insts g) (LSQ.log g)) q;
  a_own : ∀ tid q, qs !! tid = Some q → owned tid q
}.

Lemma unit_step_holds par m nl ns o u q :
  0 ≤ depCheckShift par < 64 → holds m nl ns u q → legal o u q → ∃ u', unit_step par o u = Ok u' ∧ holds m nl ns u' (step m o q) ∧ quiet o (insts u) (insts u').
Proof.
  intros Hsh Hh Hl. destruct o; try by apply exec_step. destruct (holds_enter _ _ _ _ _ _ Hh Hl) as (u' & E & H' & Hc). exists u'. split_and!; [done..|]. right. eauto.
Qed.

(** The other units are not disturbed. *)
Lemma holds_other m nl ns u m1 l1 m2 l2 q tid tid' o :
  holds m nl ns (LSQ.share u m1 l1) q → owned tid' q → tid' ≠ tid → own tid o → quiet o m1 m2 → holds m nl ns (LSQ.share u m2 l2) q.
Proof.
  intros [Hi Hk N1 N2] [O1 O2] Hne Ho Hq. simpl in Hk. destruct Hq as [Hg|(x & Hx & Hc)].
  - split; [eapply inv_gentle; try done; by left| |done..]. eapply same_kinds_trans; [exact Hk|apply Hg].
  - assert (Hxt : threadNumber x = Z.of_nat tid) by (destruct Hx as [->|[a ->]]; exact Ho). split; [|eapply same_kinds_trans; [exact Hk|by eapply changed_kinds]|done..].
    eapply inv_elsewhere; try done; [intros Hin; specialize (O1 x Hin); lia|]. intros e He E. specialize (O2 e x He E). lia.
Qed.

Lemma release_in e st : e ∈ release st → e ∈ st.
Proof. destruct (release_suffix st) as (d & E & _). rewrite E at 2. set_solver. Qed.

Lemma owned_step m tid o q : own tid o → owned tid q → owned tid (step m o q).
Proof.
  intros Ho [H1 H2]. destruct q as [ls st w]. simpl in *. destruct o; cbn [step]; try by split.
  - destruct (from_option _ _ _); (split; simpl; [|intros e y]).
    + intros y [Hy| ->%list_elem_of_singleton]%elem_of_app; [by apply H1|done].
    + by apply H2.
    + done.
    + intros [He| ->%list_elem_of_singleton]%elem_of_app; [by apply H2|]. by intros [= <-].
  - destruct (st !! k) as [e|] eqn:He; [|by split]. split; simpl; [done|]. intros f y Hf. apply list_elem_of_lookup in Hf as [j Hj].
    apply list_lookup_insert_Some in Hj as [(-> & <- & _)|[_ Hj]]; [apply (H2 e); by eapply list_elem_of_lookup_2|apply H2; by eapply list_elem_of_lookup_2].
  - split; simpl; [done|]. intros e' x He'. apply list_elem_of_lookup in He' as [j Hj]. destruct (mark_lookup _ _ _ _ _ Hj) as (e & He & [->|[-> _]]); apply (H2 e); by eapply list_elem_of_lookup_2.
  - split; simpl; [|done]. intros x [_ Hx]%list_elem_of_filter. by apply H1.
  - destruct (st !! k) as [e|] eqn:He; [|by split]. split; simpl; [done|]. intros f x Hf. assert (Hf' : f ∈ <[k := set_completed e]> st) by (unfold after_complete in Hf; destruct (k =? 0)%nat; [by apply release_in|done]).
    apply list_elem_of_lookup in Hf' as [j Hj]. apply list_lookup_insert_Some in Hj as [(-> & <- & _)|[_ Hj]]; [apply (H2 e); by eapply list_elem_of_lookup_2|apply H2; by eapply list_elem_of_lookup_2].
  - split; simpl; [intros x [_ Hx]%list_elem_of_filter; by apply H1|]. intros e x [_ He]%list_elem_of_filter. by apply H2.
Qed.

Lemma top_step m nl ns tid o g qs q u :
  0 ≤ depCheckShift (LSQ.unit_params (LSQ.params g)) < 64 → ok m nl ns g qs → qs !! tid = Some q → LSQ.thread g !! tid = Some u → legal o (LSQ.share u (LSQ.insts g) (LSQ.log g)) q → own tid o →
  ∃ g', exec_top tid o g = Ok g' ∧ ok m nl ns g' (<[tid := step m o q]> qs) ∧ LSQ.params g' = LSQ.params g.
Proof.
  intros Hsh [A1 A2 A3] Hq Hu Hl Ho. destruct (unit_step_holds _ _ _ _ _ _ _ Hsh (A2 _ _ _ Hq Hu) Hl) as (u' & E & Hh & Hqu). exists (LSQ.with_threads g (<[tid := u']> (LSQ.thread g)) (insts u') (log u')).
  split_and!; [|split|done].
  - destruct (exec_top_on tid o g Ho) as [->|[Hn|(x & -> & Hn)]]; [|congruence|].
    + unfold LSQ.on. rewrite unit_at_nat, Hu. cbn [mbind res_bind]. rewrite E. cbn [mbind res_bind]. by eapply put_nat.
    + destruct Hl as (i & Hx & _). simpl in Hx. congruence.
  - simpl. by rewrite !length_insert.
  - intros tid' q' v Hq' Hv. simpl in Hv. apply list_lookup_insert_Some in Hv as [(-> & <- & _)|[Hne Hv]].
    + rewrite list_lookup_insert_eq in Hq' by (by eapply lookup_lt_Some). injection Hq' as <-. by destruct u'.
    + rewrite list_lookup_insert_ne in Hq' by done. eapply holds_other; [by eapply A2|by apply A3|by apply not_eq_sym|exact Ho|exact Hqu].
  - intros tid' q' Hq'. apply list_lookup_insert_Some in Hq' as [(-> & <- & _)|[_ Hq']]; [|by apply A3]. apply owned_step; [done|by apply A3].
Qed.

Fixpoint run_top (os : list (nat * op)) (g : LSQ.t) : res LSQ.t := match os with [] => Ok g | (tid, o) :: os => g ← exec_top tid o g; run_top os g end.

(** Each call is legal for the unit of its thread, where it is made. *)
Fixpoint legal_top (m : gmap positive DynInst) (os : list (nat * op)) (g : LSQ.t) (qs : list queues) : Prop :=
  match os with
  | [] => True
  | (tid, o) :: os => own tid o ∧ ∃ q u, qs !! tid = Some q ∧ LSQ.thread g !! tid = Some u ∧ legal o (LSQ.share u (LSQ.insts g) (LSQ.log g)) q ∧
      ∀ g', exec_top tid o g = Ok g' → legal_top m os g' (<[tid := step m o q]> qs)
  end.

(** The calls for one thread. *)
Definition ops_of (tid : nat) (os : list (nat * op)) : list op := omap (λ p, if decide (p.1 = tid) then Some p.2 else None) os.

Lemma run_top_ok m nl ns os : ∀ g qs,
  0 ≤ depCheckShift (LSQ.unit_params (LSQ.params g)) < 64 → ok m nl ns g qs → legal_top m os g qs →
  ∃ g' qs', run_top os g = Ok g' ∧ ok m nl ns g' qs' ∧ length qs' = length qs ∧ ∀ tid q, qs !! tid = Some q → qs' !! tid = Some (steps m (ops_of tid os) q).
Proof.
  induction os as [|[tid o] os IH]; intros g qs Hsh Hok; [intros _; exists g, qs; by split_and!|]. intros (Ho & q & u & Hq & Hu & Hl & Hr).
  destruct (top_step m nl ns tid o g qs q u Hsh Hok Hq Hu Hl Ho) as (g1 & E & Hok1 & Ep). cbn [run_top]. rewrite E. cbn [mbind res_bind]. rewrite <-Ep in Hsh.
  destruct (IH g1 _ Hsh Hok1 (Hr g1 E)) as (g' & qs' & E' & Hok' & Hlen & Hqs). exists g', qs'. split_and!; [done..|by rewrite Hlen, length_insert|]. intros tid' q' Hq'. cbn [ops_of omap list_omap fst snd].
  destruct (decide (tid = tid')) as [->|Hne].
  - apply Hqs. rewrite list_lookup_insert_eq by (by eapply lookup_lt_Some). congruence.
  - apply Hqs. by rewrite list_lookup_insert_ne.
Qed.
End session.

(** ** Construction *)
Lemma init_rest a b k m s : init a b k m = Ok s → insts s = m ∧ log s = [].
Proof. unfold init. cbv zeta. destruct (assert_ (u32 (a + 1) <=? 256)); cbn [mbind res_bind]; [|done]. destruct (assert_ (u32 (b + 1) <=? 256)); cbn [mbind res_bind]; [|done]. by intros [= <-]. Qed.

Lemma make_units_holds n a b indet m : 0 ≤ a < 256 → 0 ≤ b < 256 →
  ∃ l, LSQ.make_units n a b indet m = Ok l ∧ length l = n ∧ ∀ u, u ∈ l → holds m (a + 1) (b + 1) u (mkQueues [] [] 0) ∧ insts u = m ∧ log u = [].
Proof.
  intros Ha Hb. induction n as [|n (l & El & Hlen & Hl)]; [exists []; split_and!; try done; by intros u ?%elem_of_nil|]. cbn [LSQ.make_units]. rewrite El. cbn [mbind res_bind].
  destruct (init_holds a b (indet n) m Ha Hb) as (u & Eu & Hu). rewrite Eu. cbn [mbind res_bind]. eexists. split; [done|]. split; [rewrite length_app; simpl; lia|].
  intros v [Hv| ->%list_elem_of_singleton]%elem_of_app; [by apply Hl|]. split; [done|by eapply init_rest].
Qed.

Definition sum_with (f : t → Z) (l : list t) : Z := foldr (λ u n, f u + n) 0 l.

Lemma sum_with_le f l k : (∀ u, u ∈ l → f u ≤ k) → sum_with f l ≤ Z.of_nat (length l) * k.
Proof. induction l as [|u l IH]; intros H; [simpl; lia|]. specialize (H u ltac:(left)) as Hu. specialize (IH (λ v Hv, H v ltac:(by right))). simpl in *. lia. Qed.

Section theorems.
Context (accepts : list action → Packet → bool) (handleIprRead : list action → positive → Request → list Z) (uninit : Z).
Context (threadNumber : positive → Z) (contextToThread : Request → Z).

(** A queue with its policy, and the entries of each thread. *)
Record config_ok (p : LSQ.Params) (pol : LSQ.LSQPolicy) (a b : Z) : Prop := {
  o_threads : 0 < LSQ.numThreads p ≤ LSQ.MaxThreads p; o_policy : LSQ.policy_of (LSQ.smtLSQPolicy p) = Ok pol; o_max : LSQ.initial_max p pol = Ok (a, b);
  o_size : 0 ≤ a < 256 ∧ 0 ≤ b < 256; o_shift : 0 ≤ depCheckShift (LSQ.unit_params p) < 64
}.

Lemma top_create_ok p pol a b indet m : config_ok p pol a b →
  ∃ g, LSQ.create p indet m = Ok g ∧ ok threadNumber m (a + 1) (b + 1) g (replicate (Z.to_nat (LSQ.numThreads p)) (mkQueues [] [] 0)) ∧ LSQ.params g = p ∧ length (LSQ.thread g) = Z.to_nat (LSQ.numThreads p).
Proof.
  intros [H1 H2 H3 [H4 H5] _]. unfold LSQ.create. rewrite (proj2 (andb_true_iff _ _)) by (rewrite Z.ltb_lt, Z.leb_le; lia). cbn [mbind res_bind assert_]. rewrite H2. cbn [mbind res_bind]. rewrite H3. cbn [mbind res_bind].
  destruct (make_units_holds (Z.to_nat (LSQ.numThreads p)) a b indet m H4 H5) as (l & -> & Hlen & Hl). cbn [mbind res_bind]. eexists. split; [done|]. split_and!; [split|done|done]; simpl.
  - by rewrite length_replicate.
  - intros tid q u [-> _]%lookup_replicate Hu. destruct (Hl u ltac:(by eapply list_elem_of_lookup_2)) as (Hh & <- & <-). by destruct u.
  - intros tid q [-> _]%lookup_replicate. by split; [intros x ?%elem_of_nil|intros e x ?%elem_of_nil].
Qed.

(** C30: a session of calls of several threads on a new load-store queue, each call legal
    for the unit of its thread in the state it is made in (as for C26; in particular an
    insertion is made only when that unit has room, which the queue's own checks do not
    ensure, see [lsq_dynamic_lets_through]), never fails, and the unit of each thread holds what the calls of
    that thread alone put there: the threads do not disturb each other, although they
    share instructions and ports.  Where the entries are partitioned, the loads and the
    stores of all threads together never exceed the entries of the queue. *)
Theorem lsq_threads_refine_queues p pol a b indet m os :
  config_ok p pol a b →
  (∀ g, LSQ.create p indet m = Ok g → legal_top accepts handleIprRead uninit threadNumber contextToThread m os g (replicate (Z.to_nat (LSQ.numThreads p)) (mkQueues [] [] 0))) →
  ∃ g0 g, LSQ.create p indet m = Ok g0 ∧ run_top accepts handleIprRead uninit threadNumber contextToThread os g0 = Ok g ∧
    (∀ tid, (tid < Z.to_nat (LSQ.numThreads p))%nat → ∃ u, LSQ.unit_at g (Z.of_nat tid) = Ok u ∧ shows m a b u (steps m (ops_of tid os) (mkQueues [] [] 0))) ∧
    (pol = LSQ.Partitioned → sum_with (λ u, loads (lq u)) (LSQ.thread g) ≤ LSQ.LQEntries p ∧ sum_with (λ u, stores (sq u)) (LSQ.thread g) ≤ LSQ.SQEntries p).
Proof.
  intros Hc Hl. destruct (top_create_ok p pol a b indet m Hc) as (g0 & E0 & Hok0 & Ep & Hlen0). destruct Hc as [H1 H2 H3 [H4 H5] H6].
  destruct (run_top_ok accepts handleIprRead uninit threadNumber contextToThread m _ _ os g0 _ ltac:(by rewrite Ep) Hok0 (Hl g0 E0)) as (g & qs & E & Hok & Hlen & Hqs). rewrite length_replicate in Hlen.
  assert (Hu : ∀ tid u, LSQ.thread g !! tid = Some u → shows m a b (LSQ.share u (LSQ.insts g) (LSQ.log g)) (steps m (ops_of tid os) (mkQueues [] [] 0))).
  { intros tid u Hu. apply holds_shows. eapply (a_unit _ _ _ _ _ _ Hok); [|done]. apply Hqs, lookup_replicate_2. apply lookup_lt_Some in Hu. rewrite <-(a_len _ _ _ _ _ _ Hok), Hlen in Hu. done. }
  exists g0, g. split_and!; [done..| |].
  - intros tid Ht. destruct (lookup_lt_is_Some_2 (LSQ.thread g) tid) as [u Hut]; [by rewrite <-(a_len _ _ _ _ _ _ Hok), Hlen|]. exists (LSQ.share u (LSQ.insts g) (LSQ.log g)). rewrite unit_at_nat, Hut. split; [done|by apply Hu].
  - intros ->. unfold LSQ.initial_max, udiv in H3. rewrite (proj2 (Z.eqb_neq _ _)) in H3 by lia. cbn [mbind res_bind guard_ negb] in H3. injection H3 as <- <-.
    pose proof (Z.mul_div_le (LSQ.LQEntries p) (LSQ.numThreads p) ltac:(lia)). pose proof (Z.mul_div_le (LSQ.SQEntries p) (LSQ.numThreads p) ltac:(lia)).
    assert (Z.of_nat (length (LSQ.thread g)) = LSQ.numThreads p) as Hn by (rewrite <-(a_len _ _ _ _ _ _ Hok), Hlen; lia).
    assert (Hle : ∀ u, u ∈ LSQ.thread g → loads (lq u) ≤ LSQ.LQEntries p / LSQ.numThreads p ∧ stores (sq u) ≤ LSQ.SQEntries p / LSQ.numThreads p).
    { intros u [tid Hut]%list_elem_of_lookup. destruct (Hu _ _ Hut) as [_ _ [W1 _] [W2 _] _ [F1 F2] _ _ _]. simpl in W1, W2. rewrite W1, W2.
      pose proof (Z.mod_pos_bound (LQEntries (lq u) - vlen (q_loads (steps m (ops_of tid os) (mkQueues [] [] 0))) - 1) (2 ^ 32) ltac:(lia)).
      pose proof (Z.mod_pos_bound (SQEntries (sq u) - vlen (q_stores (steps m (ops_of tid os) (mkQueues [] [] 0))) - 1) (2 ^ 32) ltac:(lia)).
      unfold numFreeLoadEntries, numFreeStoreEntries, u32 in F1, F2. simpl in F1, F2. rewrite W1 in F1. rewrite W2 in F2. lia. }
    pose proof (sum_with_le (λ u, loads (lq u)) _ _ (λ u H, proj1 (Hle u H))). pose proof (sum_with_le (λ u, stores (sq u)) _ _ (λ u H, proj2 (Hle u H))). rewrite Hn in *. lia.
Qed.
End theorems.

(** ** Policies *)

(** Under the dynamic policy [sqFull()] and [sqFull(tid)] call each other for ever, as
    soon as a thread is active; a dispatch of a store asks for it. *)
Theorem lsq_sqFull_diverges g tid ths fuel : LSQ.lsqPolicy g = LSQ.Dynamic → LSQ.activeThreads g = tid :: ths → LSQ.sqFull fuel g = Err Diverges ∧ ∀ k, LSQ.sqFull_tid fuel g k = Err Diverges.
Proof.
  intros Hd Ha. induction fuel as [|fuel [IH1 IH2]]; [done|]. split.
  - cbn [LSQ.sqFull]. rewrite Ha. cbn [LSQ.all_of]. by rewrite IH2.
  - intros k. cbn [LSQ.sqFull_tid]. by rewrite decide_True.
Qed.

(** Under the other policies two calls are enough, and answer for the thread. *)
Theorem lsq_sqFull_answers g (tid : nat) u fuel :
  LSQ.lsqPolicy g ≠ LSQ.Dynamic → LSQ.thread g !! tid = Some u → LSQ.sqFull_tid (S fuel) g (Z.of_nat tid) = Ok (sqFull u).
Proof. intros Hd Hu. cbn [LSQ.sqFull_tid]. rewrite decide_False by done. unfold LSQ.ask. by rewrite unit_at_nat, Hu. Qed.

(** Under the dynamic policy [lqFull(tid)] is false when some other thread has room, also
    if the thread has none; the insertion that follows fails its assertion. *)
Theorem lsq_dynamic_lets_through g (tid tid' : nat) u v m q :
  LSQ.lsqPolicy g = LSQ.Dynamic → LSQ.activeThreads g = [Z.of_nat tid'; Z.of_nat tid] → LSQ.thread g !! tid = Some u → LSQ.thread g !! tid' = Some v → lqFull v = false →
  holds m (vlen (q_loads q) + 1) (SQEntries (sq u)) (LSQ.share u (LSQ.insts g) (LSQ.log g)) q →
  LSQ.lqFull_tid g (Z.of_nat tid) = Ok false ∧ ∀ x, LSQ.insertLoad (λ _, Z.of_nat tid) g x = Err AssertFail.
Proof.
  intros Hd Ha Hu Hv Hf Hh. split.
  - unfold LSQ.lqFull_tid. rewrite decide_True by done. unfold LSQ.lqFull. rewrite Ha. cbn [LSQ.all_of]. assert (LSQ.ask g lqFull (Z.of_nat tid') = Ok false) as ->; [|done].
    unfold LSQ.ask. rewrite unit_at_nat, Hv. cbn [mbind res_bind]. change (lqFull (LSQ.share v _ _)) with (lqFull v). by rewrite Hf.
  - intros x. unfold LSQ.insertLoad, LSQ.on. rewrite unit_at_nat, Hu. cbn [mbind res_bind]. set (s := LSQ.share u _ _) in *. pose proof (r_lq _ _ _ _ (n_rep _ _ _ _ (h_inv _ _ _ _ _ Hh))) as Hr.
    pose proof (h_lq _ _ _ _ _ Hh) as Hn. pose proof (l_n _ _ Hr) as [_ Hb]. destruct (lhead _ _ Hr) as (Hhd & _ & E0). assert (0 ≤ vlen (q_loads q)) by (unfold vlen; lia).
    unfold insertLoad, umod. rewrite (proj2 (Z.eqb_neq (LQEntries (lq s)) 0)) by lia. cbn [mbind res_bind guard_ negb]. assert (u32 (loadTail (lq s) + 1) mod LQEntries (lq s) = loadHead (lq s)) as ->; [|by rewrite Z.eqb_refl].
    rewrite (l_tail _ _ Hr). unfold slot. pose proof (Z.mod_pos_bound (loadHead (lq s) + vlen (q_loads q)) (LQEntries (lq s)) ltac:(lia)). rewrite u32_id by (unfold is_u32; lia). rewrite Zplus_mod_idemp_l.
    replace (loadHead (lq s) + vlen (q_loads q) + 1) with (loadHead (lq s) + 1 * LQEntries (lq s)) by lia. rewrite Z_mod_plus_full. by apply Z.mod_small.
Qed.

(** When a thread is added, the partitioned queue does not give up entries: the entries of
    a thread may not become fewer, and the reset fails its assertion. *)
Theorem lsq_reset_cannot_shrink g (tid : nat) ths u :
  LSQ.lsqPolicy g = LSQ.Partitioned → LSQ.activeThreads g = Z.of_nat tid :: ths → LSQ.thread g !! tid = Some u → 0 ≤ LSQ.LQEntries (LSQ.params g) < 256 →
  LSQ.LQEntries (LSQ.params g) / vlen (LSQ.activeThreads g) + 1 < LQEntries (lq u) → LSQ.resetEntries g = Err AssertFail.
Proof.
  intros Hp Ha Hu Hn Hlt. unfold LSQ.resetEntries. rewrite Hp. rewrite bool_decide_true by done. cbn [orb]. assert (1 ≤ vlen (LSQ.activeThreads g)) by (rewrite Ha; unfold vlen; simpl; lia).
  unfold udiv. rewrite (proj2 (Z.eqb_neq (vlen (LSQ.activeThreads g)) 0)) by lia. cbn [mbind res_bind guard_ negb]. set (n := LSQ.LQEntries (LSQ.params g) / vlen (LSQ.activeThreads g)) in *.
  assert (0 ≤ n < 256) by (unfold n; pose proof (Z.div_le_upper_bound (LSQ.LQEntries (LSQ.params g)) (vlen (LSQ.activeThreads g)) (LSQ.LQEntries (LSQ.params g)) ltac:(lia) ltac:(nia));
    pose proof (Z.div_pos (LSQ.LQEntries (LSQ.params g)) (vlen (LSQ.activeThreads g)) ltac:(lia) ltac:(lia)); lia).
  rewrite Ha. cbn [LSQ.for_each]. unfold LSQ.resizeEntries, LSQ.on. rewrite unit_at_nat, Hu. cbn [mbind res_bind]. unfold resizeLQ. rewrite u32_id by (unfold is_u32; lia).
  cbn [lq LSQ.share]. rewrite (proj2 (Z.leb_gt (LQEntries (lq u)) (n + 1))) by lia. done.
Qed.

(** ** A session of two threads *)
Section check.
Context (accepts : list action → Packet → bool) (handleIprRead : list action → positive → Request → list Z) (uninit : Z).
Context (threadNumber : positive → Z) (contextToThread : Request → Z).

Definition ownb (tid : nat) (o : op) : bool :=
  match o with Insert x | Translate x _ => threadNumber x =? Z.of_nat tid | Write _ r _ | Read _ r => contextToThread r =? Z.of_nat tid | _ => true end.

Fixpoint legal_topb (m : gmap positive DynInst) (os : list (nat * op)) (g : LSQ.t) (qs : list queues) : bool :=
  match os with
  | [] => true
  | (tid, o) :: os => ownb tid o &&
      match qs !! tid, LSQ.thread g !! tid with
      | Some q, Some u => legalb o (LSQ.share u (LSQ.insts g) (LSQ.log g)) q &&
          match exec_top accepts handleIprRead uninit threadNumber contextToThread tid o g with Ok g' => legal_topb m os g' (<[tid := step m o q]> qs) | Err _ => false end
      | _, _ => false
      end
  end.

Lemma legal_topb_spec m os : ∀ g qs, legal_topb m os g qs = true → legal_top accepts handleIprRead uninit threadNumber contextToThread m os g qs.
Proof.
  induction os as [|[tid o] os IH]; intros g qs; [done|]. cbn [legal_topb legal_top]. intros [H1 H2]%andb_prop. destruct (qs !! tid) as [q|] eqn:Hq; [|done]. destruct (LSQ.thread g !! tid) as [u|] eqn:Hu; [|done].
  apply andb_prop in H2 as [H2%lsq_legalb_spec H3]. split; [destruct o; simpl in *; lia || done|]. exists q, u. split_and!; [done..|]. intros g' E. rewrite E in H3. by apply IH.
Qed.
End check.

Definition two_params : LSQ.Params := LSQ.mkParams 8 8 2 "Partitioned" 100 4 demo_par.
Definition two_thread (x : positive) : Z := if (x <=? 2)%positive then 0 else 1.
Definition two_context (r : Request) : Z := if getVaddr r <? 0x2000 then 0 else 1.
Definition two_ops : list (nat * op) :=
  [(0%nat, Insert 1); (1%nat, Insert 3); (0%nat, Insert 2); (1%nat, Insert 4); (0%nat, Translate 1 (demo_access 0x1000 8)); (1%nat, Translate 4 (demo_access 0x2000 4));
   (0%nat, Write 0 (demo_req 0x1000 8) [1; 2; 3; 4; 5; 6; 7; 8]); (1%nat, Read 0 (demo_req 0x2000 4)); (0%nat, Translate 2 (demo_access 0x1004 4)); (1%nat, Translate 3 (demo_access 0x2002 2));
   (0%nat, Read 0 (demo_req 0x1004 4)); (1%nat, Write 0 (demo_req 0x2002 2) [7; 9]); (1%nat, Check 3); (0%nat, Executed 2 (demo_pkt 0x1004 4 2)); (1%nat, Squash 12);
   (0%nat, CommitStores 11); (0%nat, CommitLoads 11); (0%nat, Sent); (0%nat, Complete 0)].

Lemma lsq_threads_refine_queues_witness :
  ∃ g0 g, LSQ.create two_params (λ _, 0) demo_insts = Ok g0 ∧ run_top demo_accepts demo_ipr 0 two_thread two_context two_ops g0 = Ok g ∧
    (∀ tid, (tid < 2)%nat → ∃ u, LSQ.unit_at g (Z.of_nat tid) = Ok u ∧ shows demo_insts 4 4 u (steps demo_insts (ops_of tid two_ops) (mkQueues [] [] 0))) ∧
    (LSQ.Partitioned = LSQ.Partitioned → sum_with (λ u, loads (lq u)) (LSQ.thread g) ≤ 8 ∧ sum_with (λ u, stores (sq u)) (LSQ.thread g) ≤ 8).
Proof.
  apply (lsq_threads_refine_queues demo_accepts demo_ipr 0 two_thread two_context two_params LSQ.Partitioned 4 4 (λ _, 0) demo_insts two_ops).
  - split; [vm_compute; split; congruence|reflexivity|reflexivity|vm_compute; split; split; congruence|vm_compute; split; congruence].
  - intros g E. apply legal_topb_spec. vm_compute in E. injection E as <-. vm_compute. reflexivity.
Defined.

Example two_end : match LSQ.create two_params (λ _, 0) demo_insts with
  | Ok g0 => match run_top demo_accepts demo_ipr 0 two_thread two_context two_ops g0 with Ok g => Some ((λ u, (loads (lq u), stores (sq u))) <$> LSQ.thread g) | Err _ => None end
  | Err _ => None end = Some [(0, 0); (0, 1)].
Proof. vm_compute. reflexivity. Qed.
End LsqTopSpec.
